(* ===== verification/_CoqProject ===== *)
-Q . S2P
Prelude.v
LayoutModel.v
PlanOrder.v
Gate.v
Selector.v
Batches.v
Format.v
Documents.v
Slice.v
SliceHeader.v
SliceCut.v
SliceJoin.v
Lbp.v
LbpCrc.v
LbpPage.v
Chunks.v
SliceOut.v
Deliver.v
Supply.v
SupplyLoop.v
SupplySound.v
Span.v
SpanPlan.v
TapeWrite.v
TapeSpec.v
Pipeline.v
Session.v
SessionSound.v
SessionEnd.v
TapeStore.v
TapeStoreSound.v
DriveModel.v
Rehearsal.v
Confirm.v
ConfirmSound.v
ConfirmSpec.v
Readback.v
ConfirmRehearsal.v
Contact.v
ContactSound.v
ContactRehearsal.v
Ledger.v
LedgerSound.v
LedgerPlan.v
CopyClaim.v
Lifecycle.v
ReadTape.v
LedgerRehearsal.v
AdoptLost.v
AdoptSound.v
AdoptRehearsal.v
SizeText.v
Coverage.v
CoverageSound.v
Release.v
ReleaseSound.v
CoverageRehearsal.v
Policy.v
Staging.v
StagingGate.v
StagingSound.v
StagingCover.v
StagingExact.v
StagingRehearsal.v
PolicySound.v
CompactRead.v
CompactReadSound.v
Rewrite.v
RewriteSound.v
RewriteHeld.v
RewriteSafe.v
RewriteRead.v
RewriteRehearsal.v
PolicyRehearsal.v
Registry.v
Binding.v
CartridgeLife.v
BindingSound.v
RegistryKept.v
RegistryRehearsal.v
