(* ===== verification/Prelude.v ===== *)
(** * tapectl: a verification development

    tapectl archives directories to LTO tape and restores them: it freezes
    staged, encrypted [dar] slices into a Layout, writes that Layout to a
    cartridge, reads it back, seals it, and later restores slices from
    whatever cartridges hold them. This development models its core as
    definitions translated from the Rust source, and proves what makes each
    part correct. Paths below are under src/src/.

    ** The parts, and how they meet

<<
      staging ──► collection/selector ──► volume/layout_model ──► volume/session ──► store ──► tape/ioctl
                  (which units, when)     (one tape's plan)       (write, seal,      (files)   (blocks,
                                                                   resume, confirm)             filemarks,
                                                                        │                       tape/lbp CRC)
                                                                        ▼
                                                                  the catalog's rows ◄── policy/coverage
      dar/slice ──► (cut and join of dar's stream)                volume/format      (documents on tape)
      volume/restore/{span,supply} ◄── crypto/chunks (age, chunk by chunk) ◄── store
>>

    - The plan of a tape. [LayoutModel] is volume/layout_model.rs: [ZoneKind],
      [LayoutEntry], [Layout], [CapacityBudget] with its gate
      ([capacity_errors_with_tail]), the plan order ([place]) and the pre-write
      predicate ([validate]). [PlanOrder] and [Gate] hold its theorems;
      [Selector] and [Batches] the batch selector over it
      (collection/selector.rs), proved against an interface [TapePlanner].
    - The documents. [Format] is volume/format.rs: the readers of File 0,
      File 3 and the seal, the parse rules and the judgement of a seal;
      [Documents] its theorems. The [toml] crate ([TomlCrate]) and the digest
      are parameters.
    - dar's slices. [Slice] is dar/slice.rs: header, cut, join;
      [SliceHeader], [SliceCut], [SliceJoin] its theorems.
    - The wire. [Lbp] is tape/lbp.rs: the CRC by slicing tables and the mode
      page; [LbpCrc], [LbpPage] its theorems. [TapeWrite] is the block path of
      tape/ioctl.rs, the kernel a list of answers; [TapeSpec] its theorems.
    - The store. [TapeStore] is store.rs's [TapeStore] over an interface
      [TapeOps]; [TapeStoreSound] gives the drive's laws and shows that the
      store keeps the session's contract ([StoreLaws]). [DriveModel] is a
      drive that keeps the laws.
    - The session. [Pipeline] is pipeline.rs's [write_verified] as what its
      three stages send; [Session] is volume/session.rs's write loop, retry,
      early warning, seal and resume over the class [Store]; [SessionSound]
      and [SessionEnd] prove it against [StoreLaws]; [Rehearsal] runs a plan
      through the whole path, from session to blocks.
    - The contact. [Contact] is what session.rs and write.rs read of a loaded
      cartridge before a write or a resume, and decide; [ContactSound] its
      theorems, [ContactRehearsal] a run.
    - The confirm. [Confirm] is store.rs's chain walk over the interface
      [Readable]; [ConfirmSound] a simulation of it by a plain reading of the
      format, [ConfirmSpec] its theorems, [Readback] the continuation of an
      interrupted one, [ConfirmRehearsal] a run.
    - The catalog. [Ledger] is the rows a session keeps (writes, positions,
      snapshots, volumes, verifications) and every change to them: the plan,
      the start, the abort, the sweep, the seal recorded, the confirm's one
      transaction and what a verify records (volume/session.rs,
      volume/write.rs, db/mod.rs), read by the predicates of
      policy/coverage.rs. [LedgerPlan] and [LedgerSound] are its theorems;
      [CopyClaim] joins the confirm of the tape to the rows it changes and the
      contact of a resume to the rows it takes up; [Lifecycle] is the step
      relation of everything that may happen to a volume's rows, with its
      invariant; [LedgerRehearsal] a run.
    - A tape confirmed. [ReadTape] is the tape store as the confirm's medium;
      the end of [LedgerRehearsal] a confirm on a drive.
    - A write the catalog lost. [AdoptLost] is volume/adopt_lost.rs and the
      part of volume/rebuild.rs it calls (the seal found, the front index,
      the slices matched); [AdoptSound] its theorems, [AdoptRehearsal] a run.
    - Coverage. [Coverage] is policy/coverage.rs over those rows: the copies,
      deposits and places of a version, slice by slice, and the floors;
      [CoverageSound] its theorems. [Release] is what gives coverage up: a
      volume retired (cli/operations.rs), a version released
      (policy/reclaimable.rs); [ReleaseSound] its theorems,
      [CoverageRehearsal] runs and counterexamples.
    - The registry of cartridges. [Registry] is its rows (cartridges, mounts,
      events, contacts, the chip's journal) and the statements on them, over
      media.rs's generations; [Binding] volume/binding.rs: which row the
      cartridge in the drive is, the refusals of an init, the binding and what
      it displaces, the corroboration of a later contact, the proofs of a
      blank tape, and volume/write.rs's [volume init] from a contact opened to
      File 0, over [Contact]'s reading of the tape; [CartridgeLife] the
      cartridge retired, marked erased and taken back (cli/operations.rs).
      [BindingSound], [RegistryKept] their theorems, [RegistryRehearsal] runs
      and a race.
    - Staging. [Staging] is staging/clean.rs (the release of whole sets and of
      slices, what holds a set, the names of its files), [StagingGate]
      staging/release.rs and the driver of cli/staging.rs (the policy in
      front of a release, the reason told for a set left alone, the check of
      the slices on disk); [StagingSound], [StagingCover], [StagingExact] its
      theorems, [StagingRehearsal] runs and two races.
    - Policy. [SizeText] is the sizes an operator writes (staging/mod.rs,
      media.rs), with f64's rounding; [Policy] policy/mod.rs and the reader of
      unit/dotfile.rs: the layers a unit's policy is resolved from, the
      frozen targets of a lost source, a volume's interval; [PolicySound] its
      theorems, [PolicyRehearsal] runs.
    - A volume read back and rewritten. [CompactRead] is write.rs's
      [compact_read]: a volume's live slices back into staging;
      [CompactReadSound] its theorems. [Rewrite] is volume/rewrite.rs: a
      cartridge whose only copies pass through staging while it is erased and
      written again, as runs that give every durable state a crash in them may
      leave, over the class [RewriteSteps] of the drive's steps.
      [RewriteSound] is a logic of such runs, [RewriteHeld] what the hold keeps
      from a release, [RewriteSafe] the theorems, [RewriteRead] that the read
      keeps its law, [RewriteRehearsal] runs and counterexamples.
    - The restore. [Chunks] is crypto/chunks.rs (age's payload, each chunk
      authenticated alone); [SliceOut] and [Deliver] the decrypt of one
      attempt into its sink; [Supply], [SupplyLoop], [SupplySound] the choice
      of cartridges, the attempts and the last resort of
      volume/restore/supply.rs; [Span] and [SpanPlan] the plan of a version
      whose slices lie on several volumes (volume/restore/span.rs).

    ** How the code is carried over

    A [Result] is [result E A] with the source's errors as constructors and
    the words of a message left out; a machine integer is a Z with its
    saturating, wrapping or checked arithmetic written ([+sat], [+w], the
    scope [rust_scope]); a [HashMap] is a [gmap]; bytes are Z's. State is
    passed explicitly, in a small monad where many calls thread it ([walk],
    the session's, the supply's). What the code calls outside src/, and the
    devices, are classes or section variables ([TomlCrate], [Digest],
    [AgeCrate], [SinkIo], [TapeOps], [Readable], [Blankable],
    [RewriteSteps]); the theorems that need them to behave say so in records
    of laws ([TapeLaws], [StoreLaws], [truthful], [steady], [contactable],
    [RewriteLaws]), each met by an instance in a rehearsal file. What the
    schema keeps is a named hypothesis where a theorem needs it:
    [one_write_per_set], [own_rows], [staged_known], [units_known],
    [versions_unique], [locations_unique], [unit_names_unique].

    ** What the theorems show, by group

    - Plans: [place] walks the tape in order within its capacity, refuses
      what it must and nothing else, and an accepted plan passes the gate
      where its fixed files and the reserve do, which the planner leaves to it;
      the selector's batches are next-fit over it; [validate] has an error exactly
      where its pointwise specification has one.
    - Writing: the write loop, whatever the drive and the catalog answer,
      leaves the plan's files in order on the tape with the hashes the Layout
      records, and no row that claims a file the tape does not hold; the
      resume, the retry and the seal keep that, but after a run that ended for
      a refused write it did not get past; the blocks on the wire read
      back to the bytes written, with the CRC checked.
    - Contact: a fresh write and a resume write over nothing a reader would
      accept as sealed; a failed read is never taken for an absence.
    - Confirm: every read order, hold and skip gives the evidence of the
      plain reading; faults condemn no sound tape and pass no bad one.
    - Catalog: a copy the catalog counts was read back on the tape; a write a
      confirm concluded is never changed again, whatever commands interleave
      or die; nothing is sealed over an abort or a retirement; a version is
      current only when its slices are on sealed volumes.
    - Adoption: a write the catalog lost is taken up only on proof, and a
      refusal changes nothing.
    - Coverage: a version counted [n] copies survives the loss of any fewer
      than [n] of them; a retirement leaves every version it may not empty
      whole, so long as nobody gives up another volume while it asks, and a
      version is released only under one that meets the policy.
    - The registry: no two cartridges share a barcode or a chip serial and a
      cartridge has at most one volume mounted; an init leaves its volume
      mounted alone on the cartridge whose chip was read; no later operation
      takes back a serial or moves a volume to another cartridge; a cartridge
      condemned or marked erased takes no version's last copy with it, so long
      as nobody gives up another meanwhile.
    - Staging: a staged slice is given up only when nothing holds it and its
      copies meet the policy, and then it is; whatever fails or dies in a
      release, every set kept is as whole on disk as it was.
    - Policy: a unit's policy is what its most specific layer says and fails
      exactly where one says something unsound; sources may be lost after a
      freeze without a verdict changed; a size is the bytes it writes.
    - Rewrite: left to itself, from the first slice read to the record closed,
      whatever dies, a slice is on its source, or whole in staging and held, or
      read back from a trusted tape (others that clean staging while the
      operator is asked may undo it: [cleaned_while_asked]); a read stages what
      it tells, and one that ends in an error takes the rest back, but for a
      path an earlier read had left there.
    - Restore: a slice delivered is the slice recorded, or is on the account
      of damage; the search ends; the cartridge plan is right and is the
      shortest.
    - Codecs: dar headers are accepted exactly when grammatical, cut and join
      are inverse; the CRC is the shift register of its polynomial and finds
      every damage within four bytes.

    ** Fuel and bounds

    A loop whose measure is not structural has fuel, and a theorem that the
    fuel given is enough: the write loop and its retry are bounded by the
    Layout's length (one retry), the chunk drain by the payload's bytes, the
    search for a slice by the attempts the answers allow
    ([SupplyLoop.fill_slice_terminates]), the kernel's answers by their list.

    ** Not modelled, and why

    - cli/* but the retirement of a volume, the cartridge given up or taken
      back, the release of a version, [stage clean] and consent; main.rs, output, progress, render, host checks, config parsing
      and editing: argument parsing, printing and files of settings.
    - db/*: the schema's migrations, exports and statistics. A query a modelled
      part makes is an argument of it, or a function of [Ledger]'s rows; a
      statement may fail where a session depends on it, and a transaction is
      one change.
    - crypto/keys, escrow_kit, policy/escrow: key files and passwords around
      the age crate, which is not under src/.
    - staging/{mod,validate,jobs,lock,exclude} but the sizes, unit/* but the
      dotfile's reader, dar/create, dar/restore: walks of the file system and
      runs of dar.
    - volume/{build,erase}, most of volume/rebuild: what freezes a plan into
      files, erases a tape, or rebuilds a catalog from its tapes. Of
      volume/binding, [bind_late] and what a displacement prints; cartridge
      register, relabel and edit. The erase, the init and the write of a
      rewrite are [RewriteSteps].
    - the policy in a release: [Release] and [Staging] take a unit's policy as
      a function [resolve]; [PolicySound] puts [Policy]'s there.
    - interleavings: what other processes do between a command's reads and its
      transaction is a function ([meanwhile] in [Release], [Staging],
      [CartridgeLife] and [Binding], [while_asked] in [Rewrite]); the theorems say which of them it may be,
      and the rehearsals show what the others do.
    - tape/{log_pages,health,wear,poll,...}: the drive's reports, which no
      decision of the modelled parts uses; tape/mam's parsing of the chip's,
      whose attributes [Registry] takes as read.
    - threads: [Pipeline] models the three stages by what they send; buffers
      and timings are left out because each queue has one writer and one
      reader. *)

From stdpp Require Export base tactics numbers list option strings gmap sorting.
From Stdlib Require Export ZArith Lia.

(** ** Results: Rust's [Result<A, E>] *)

Inductive result (E A : Type) : Type :=
| Ok (a : A)
| Err (e : E).
Arguments Ok {E A} _.
Arguments Err {E A} _.

#[export] Instance result_ret E : MRet (result E) := λ A a, Ok a.
#[export] Instance result_bind E : MBind (result E) := λ A B f m,
  match m with Ok a => f a | Err e => Err e end.
#[export] Instance result_fmap E : FMap (result E) := λ A B f m,
  match m with Ok a => Ok (f a) | Err e => Err e end.

#[export] Instance result_eq_dec {E A} `{!EqDecision E, !EqDecision A} :
  EqDecision (result E A).
Proof. solve_decision. Defined.

(** [r.map_err(f)]. *)
Definition map_err {E F A} (f : E → F) (r : result E A) : result F A :=
  match r with Ok a => Ok a | Err e => Err (f e) end.

(** [o.ok_or(e)]. *)
Definition ok_or {E A} (o : option A) (e : E) : result E A :=
  match o with Some a => Ok a | None => Err e end.

(** [if c { return Err(e) }] followed by the rest of the function. *)
Definition guard_err {E} (c : bool) (e : E) : result E unit :=
  if c then Err e else Ok ().

Lemma bind_ok {E A B} (m : result E A) (f : A → result E B) b :
  m ≫= f = Ok b ↔ ∃ a, m = Ok a ∧ f a = Ok b.
Proof.
  destruct m as [a|e]; cbn; split.
  - intros H. by exists a.
  - intros (a' & [= ->] & H). done.
  - done.
  - intros (a' & ? & _). done.
Qed.

Lemma bind_err {E A B} (m : result E A) (f : A → result E B) e :
  m ≫= f = Err e ↔ m = Err e ∨ ∃ a, m = Ok a ∧ f a = Err e.
Proof.
  destruct m as [a|e']; cbn; split.
  - intros H. right. by exists a.
  - intros [?|(a' & [= ->] & H)]; done.
  - intros [= ->]. by left.
  - intros [[= ->]|(a' & ? & _)]; done.
Qed.

Lemma then_ok {E B} (m : result E unit) (k : result E B) b :
  (m;; k) = Ok b ↔ m = Ok () ∧ k = Ok b.
Proof.
  rewrite bind_ok. split; [by intros ([] & ? & ?)|]. intros [? ?]. by exists ().
Qed.

Lemma guard_err_ok {E} c (e : E) u : guard_err c e = Ok u ↔ c = false.
Proof. destruct c, u; cbn; split; done. Qed.

Lemma ok_or_ok {E A} (o : option A) (e : E) a : ok_or o e = Ok a ↔ o = Some a.
Proof. destruct o; cbn; split; congruence. Qed.

(** What an [Ok] went through: [results] opens every bind of a hypothesis. *)
Create HintDb results discriminated.
#[export] Hint Rewrite @then_ok @bind_ok @guard_err_ok @ok_or_ok : results.

(** ** Machine integers

    Rust's [u64], [usize] and [i32] are [Z] with the width written out. [+]
    and [sum()] wrap in the release profile (no [overflow-checks] in
    Cargo.toml), [saturating_add]/[saturating_sub] clamp. *)

Declare Scope rust_scope.
Delimit Scope rust_scope with rs.

Definition u64_max : Z := 2 ^ 64 - 1.
Definition u32_max : Z := 2 ^ 32 - 1.
Definition i32_max : Z := 2 ^ 31 - 1.
Definition i64_max : Z := 2 ^ 63 - 1.

Definition is_u64 (z : Z) : Prop := (0 ≤ z ≤ u64_max)%Z.

Definition wrap64 (z : Z) : Z := z mod 2 ^ 64.
Definition add64 (a b : Z) : Z := wrap64 (a + b).
Definition sub64 (a b : Z) : Z := wrap64 (a - b).
Definition mul64 (a b : Z) : Z := wrap64 (a * b).
Definition sat_add64 (a b : Z) : Z := Z.min (a + b) u64_max.
Definition sat_sub64 (a b : Z) : Z := Z.max (a - b) 0.

(** [x as i32]: the low 32 bits, two's complement. *)
Definition as_i32 (z : Z) : Z := (z + 2 ^ 31) mod 2 ^ 32 - 2 ^ 31.
(** [x as u64] from a signed integer. *)
Definition as_u64 (z : Z) : Z := z mod 2 ^ 64.

(** [u64::try_from] of a signed integer, [i32]/[i64::try_from] of a [usize]. *)
Definition try_u64 (z : Z) : option Z :=
  if decide (0 ≤ z ≤ u64_max)%Z then Some z else None.
Definition try_i64 (z : Z) : option Z :=
  if decide (- 2 ^ 63 ≤ z ≤ i64_max)%Z then Some z else None.

(** [a.checked_add(b)] and [a.checked_sub(b)] on [u64]. *)
Definition checked_add64 (a b : Z) : option Z := try_u64 (a + b).
Definition checked_sub64 (a b : Z) : option Z := try_u64 (a - b).

(** [a.div_ceil(b)]. The code panics on [b = 0]; callers' theorems assume
    [0 < b]. *)
Definition div_ceil (a b : Z) : Z := (a + b - 1) / b.

Notation "a +sat b" := (sat_add64 a b) (at level 50, left associativity) : rust_scope.
Notation "a -sat b" := (sat_sub64 a b) (at level 50, left associativity) : rust_scope.
Notation "a +w b" := (add64 a b) (at level 50, left associativity) : rust_scope.
Notation "a -w b" := (sub64 a b) (at level 50, left associativity) : rust_scope.

(** [iter.sum::<u64>()], wrapping as [+] does. *)
Definition sum64 (l : list Z) : Z := foldl add64 0%Z l.

(** The exact sum, for statements. *)
Definition sumZ (l : list Z) : Z := foldr Z.add 0%Z l.

Ltac unfold_width :=
  unfold is_u64, add64, sub64, mul64, sat_add64, sat_sub64, wrap64, as_u64,
    u64_max, u32_max, i32_max, i64_max in *.

(** A decidable closed goal, by evaluation. *)
Ltac by_decide := apply (bool_decide_unpack _); vm_compute; exact I.

Section arith.
Local Open Scope Z_scope.

Lemma wrap64_small z : 0 ≤ z ≤ u64_max → wrap64 z = z.
Proof. unfold_width. intros. apply Z.mod_small. lia. Qed.

Lemma sat_add64_exact a b : a + b ≤ u64_max → sat_add64 a b = a + b.
Proof. unfold_width. lia. Qed.

Lemma sat_sub64_exact a b : b ≤ a → sat_sub64 a b = a - b.
Proof. unfold_width. lia. Qed.

Lemma sat_add64_le a b c : c ≤ u64_max → 0 ≤ b →
  (sat_add64 a b ≤ c → a + b ≤ c ∨ c = u64_max).
Proof. unfold_width. lia. Qed.

Lemma sat_add64_le_iff a b c : c < u64_max → sat_add64 a b ≤ c ↔ a + b ≤ c.
Proof. unfold_width. lia. Qed.

Lemma as_i32_small z : - 2 ^ 31 ≤ z ≤ i32_max → as_i32 z = z.
Proof. unfold as_i32. unfold_width. intros. rewrite Z.mod_small; lia. Qed.

Lemma try_u64_Some z z' : try_u64 z = Some z' ↔ z = z' ∧ is_u64 z.
Proof.
  unfold try_u64, is_u64. case_decide; split; try done.
  - by intros [= ->].
  - by intros [-> _].
  - by intros [_ ?].
Qed.

Lemma sumZ_nonneg l : Forall (λ x, 0 ≤ x) l → 0 ≤ sumZ l.
Proof. induction 1; simpl; lia. Qed.

Lemma sumZ_app l k : sumZ (l ++ k) = sumZ l + sumZ k.
Proof. induction l; simpl; lia. Qed.

Lemma sumZ_Permutation l k : l ≡ₚ k → sumZ l = sumZ k.
Proof. induction 1; simpl; lia. Qed.

Lemma sumZ_elem_le l x : Forall (λ x, 0 ≤ x) l → x ∈ l → x ≤ sumZ l.
Proof.
  intros Hl Hx. induction Hl as [|y l Hy Hl IH]; [by apply not_elem_of_nil in Hx|].
  apply elem_of_cons in Hx as [->|Hx]; simpl.
  - pose proof (sumZ_nonneg _ Hl). lia.
  - specialize (IH Hx). lia.
Qed.

Lemma sumZ_submseteq l k : Forall (λ x, 0 ≤ x) k → l ⊆+ k → sumZ l ≤ sumZ k.
Proof.
  intros Hk Hs. apply submseteq_Permutation in Hs as [k' Hp].
  rewrite Hp in Hk. rewrite (sumZ_Permutation _ _ Hp), sumZ_app.
  apply Forall_app in Hk as [_ Hk']. pose proof (sumZ_nonneg _ Hk'). lia.
Qed.

Lemma foldl_sat_add64_exact l a :
  Forall (λ x, 0 ≤ x) l → 0 ≤ a → a + sumZ l ≤ u64_max →
  foldl sat_add64 a l = a + sumZ l.
Proof.
  intros Hl. revert a. induction Hl as [|x l Hx Hl IH]; intros a Ha Hs; simpl in *; [lia|].
  pose proof (sumZ_nonneg _ Hl).
  rewrite IH; rewrite sat_add64_exact by lia; lia.
Qed.

Lemma foldl_add64_exact l a :
  Forall (λ x, 0 ≤ x) l → 0 ≤ a → a + sumZ l ≤ u64_max →
  foldl add64 a l = a + sumZ l.
Proof.
  intros Hl. revert a. induction Hl as [|x l Hx Hl IH]; intros a Ha Hs; simpl in *; [lia|].
  pose proof (sumZ_nonneg _ Hl).
  rewrite IH; unfold add64; rewrite wrap64_small by lia; lia.
Qed.

Lemma sum64_exact l :
  Forall (λ x, 0 ≤ x) l → sumZ l ≤ u64_max → sum64 l = sumZ l.
Proof. intros. unfold sum64. rewrite foldl_add64_exact by (done || lia). lia. Qed.

Lemma div_ceil_spec a b : 0 ≤ a → 0 < b →
  a ≤ div_ceil a b * b < a + b.
Proof.
  intros Ha Hb. unfold div_ceil.
  pose proof (Z.div_mod (a + b - 1) b ltac:(lia)).
  pose proof (Z.mod_pos_bound (a + b - 1) b Hb). nia.
Qed.

Lemma div_ceil_nonneg a b : 0 ≤ a → 0 < b → 0 ≤ div_ceil a b.
Proof. intros. unfold div_ceil. apply Z.div_pos; lia. Qed.
End arith.

(** Machine arithmetic that stays in its width is the arithmetic of [Z]. *)
Create HintDb width discriminated.
#[export] Hint Resolve sumZ_nonneg div_ceil_nonneg : width.
#[export] Hint Rewrite wrap64_small sat_add64_exact sat_sub64_exact as_i32_small sum64_exact
  using (unfold_width; lia) : width.

(** ** Lists *)

(** [l[n..].iter().position(p)] and friends return the first index. *)
Fixpoint position {A} (p : A → bool) (l : list A) : option nat :=
  match l with
  | [] => None
  | x :: l => if p x then Some 0 else S <$> position p l
  end.

Lemma position_Some {A} (p : A → bool) l i :
  position p l = Some i ↔
  (∃ x, l !! i = Some x ∧ p x = true) ∧ (∀ j x, j < i → l !! j = Some x → p x = false).
Proof.
  revert i. induction l as [|y l IH]; intros i; cbn; [naive_solver|].
  destruct (p y) eqn:Hy.
  - split.
    + intros [= <-]. split; [by exists y|lia].
    + intros [(x & Hx & Hpx) Hlt]. destruct i as [|i]; [done|].
      specialize (Hlt 0 y ltac:(lia) eq_refl). congruence.
  - destruct (position p l) as [k|] eqn:Hk; cbn.
    + destruct (IH k) as [IH1 _]. specialize (IH1 eq_refl) as [(x & Hx & Hpx) Hlt]. split.
      * intros [= <-]. split; [by exists x|].
        intros [|j] z Hj Hz; cbn in *; [congruence|]. apply (Hlt j); [lia|done].
      * intros [(z & Hz & Hpz) Hlt']. destruct i as [|i]; cbn in *; [congruence|].
        f_equal. f_equal. destruct (decide (k < i)) as [Hki|].
        { specialize (Hlt' (S k) x ltac:(lia) Hx). congruence. }
        destruct (decide (i < k)) as [Hik|]; [|lia].
        specialize (Hlt i z Hik Hz). congruence.
    + split; [done|]. intros [(z & Hz & Hpz) Hlt]. destruct i as [|i]; cbn in *; [congruence|].
      destruct (IH i) as [_ IH2]. assert (None = Some i); [|done]. apply IH2. split.
      * by exists z.
      * intros j x Hj Hx. apply (Hlt (S j) x); [lia|done].
Qed.

Lemma position_None {A} (p : A → bool) l :
  position p l = None ↔ Forall (λ x, p x = false) l.
Proof.
  induction l as [|y l IH]; cbn; [by split; [constructor|]|].
  rewrite Forall_cons. destruct (p y).
  - split; [done|]. by intros [? _].
  - rewrite fmap_None, IH. naive_solver.
Qed.

Lemma filter_none {A} (P : A → Prop) `{!∀ x, Decision (P x)} (l : list A) :
  (∀ x, x ∈ l → ¬ P x) → filter P l = [].
Proof.
  intros Hn. apply elem_of_nil_inv. intros x [Hp Hx]%list_elem_of_filter. by apply (Hn x).
Qed.

Lemma filter_ext_in {A} (P Q : A → Prop) `{!∀ x, Decision (P x), !∀ x, Decision (Q x)} (l : list A) :
  (∀ x, x ∈ l → P x ↔ Q x) → filter P l = filter Q l.
Proof.
  induction l as [|x l IH]; intros Hpq; [done|].
  assert (P x ↔ Q x) as Hx by (apply Hpq; by left).
  destruct (decide (P x)) as [Hp|Hp].
  - rewrite !filter_cons_True by tauto. f_equal. apply IH. intros y Hy. apply Hpq. by right.
  - rewrite !filter_cons_False by tauto. apply IH. intros y Hy. apply Hpq. by right.
Qed.

Lemma Forall_filter {A} (Q P : A → Prop) `{!∀ x, Decision (P x)} (l : list A) :
  Forall Q l → Forall Q (filter P l).
Proof. rewrite !Forall_forall. intros Hl x [_ Hx]%list_elem_of_filter. auto. Qed.

(** One element of a list passes: where it is, and that it is alone. *)
Lemma filter_one_iff {A} (P : A → Prop) `{!∀ x, Decision (P x)} (l : list A) e :
  filter P l = [e] ↔
  ∃ i, l !! i = Some e ∧ P e ∧ ∀ j x, l !! j = Some x → P x → j = i.
Proof.
  induction l as [|y l IH]; [split; [done|by intros (? & ? & _)]|].
  destruct (decide (P y)) as [Hy|Hy].
  - rewrite filter_cons_True by done. split.
    + intros [= -> Hn]. exists 0. split; [done|]. split; [done|]. intros [|j] x Hx Hp; [done|].
      assert (x ∈ filter P l) as Hin.
      { apply list_elem_of_filter. split; [done|]. by eapply list_elem_of_lookup_2. }
      rewrite Hn in Hin. by apply not_elem_of_nil in Hin.
    + intros (i & Hi & He & Hone). assert (0 = i) as <- by by eapply (Hone 0).
      injection Hi as ->. f_equal. apply filter_none. intros x (j & Hj)%list_elem_of_lookup Hp.
      by specialize (Hone (S j) x Hj Hp).
  - rewrite filter_cons_False, IH by done. split.
    + intros (i & Hi & He & Hone). exists (S i). split; [done|]. split; [done|].
      intros [|j] x Hx Hp; simpl in Hx; [congruence|]. f_equal. by eapply Hone.
    + intros ([|i] & Hi & He & Hone); simpl in Hi; [congruence|].
      exists i. split; [done|]. split; [done|]. intros j x Hx Hp.
      specialize (Hone (S j) x Hx Hp). lia.
Qed.

(** [iter.take_while(p)]. *)
Fixpoint take_while {A} (p : A → bool) (l : list A) : list A :=
  match l with
  | [] => []
  | x :: l => if p x then x :: take_while p l else []
  end.

Lemma take_while_app {A} (p : A → bool) l x k :
  Forall (λ y, p y = true) l → p x = false → take_while p (l ++ x :: k) = l.
Proof.
  intros Hl Hx. induction Hl as [|y l Hy Hl IH]; simpl; [by rewrite Hx|].
  by rewrite Hy, IH.
Qed.

Lemma take_while_all {A} (p : A → bool) l : Forall (λ x, p x = true) l → take_while p l = l.
Proof. induction 1 as [|x l Hx _ IH]; simpl; [done|]. by rewrite Hx, IH. Qed.

Lemma filter_all {A} (P : A → Prop) `{!∀ x, Decision (P x)} (l : list A) :
  (∀ x, x ∈ l → P x) → filter P l = l.
Proof.
  induction l as [|x l IH]; intros Hall; simpl; [done|].
  rewrite filter_cons_True by (apply Hall; left). f_equal. apply IH. intros y Hy. apply Hall. by right.
Qed.

Lemma elem_of_drop_1 {A} (l : list A) k x : x ∈ drop k l → x ∈ l.
Proof. intros H. rewrite <-(take_drop k l). apply elem_of_app. by right. Qed.

Lemma elem_of_take_1 {A} (l : list A) k x : x ∈ take k l → x ∈ l.
Proof. intros H. rewrite <-(take_drop k l). apply elem_of_app. by left. Qed.

(** Assigning a batch of cells of a [Vec]: [for (i, x) in ps { v[i] = x }]. *)
Definition assign_all {A} (v : list A) (ps : list (nat * A)) : list A :=
  foldl (λ v p, <[p.1 := p.2]> v) v ps.

Lemma assign_all_length {A} (v : list A) ps : length (assign_all v ps) = length v.
Proof.
  revert v. induction ps as [|p ps IH]; intros v; cbn; [done|].
  unfold assign_all in IH. by rewrite IH, length_insert.
Qed.

Lemma assign_all_app {A} (v : list A) ps qs :
  assign_all v (ps ++ qs) = assign_all (assign_all v ps) qs.
Proof. unfold assign_all. by rewrite foldl_app. Qed.

Lemma assign_all_lookup_notin {A} (v : list A) ps i :
  i ∉ ps.*1 → assign_all v ps !! i = v !! i.
Proof.
  revert v. induction ps as [|p ps IH]; intros v Hi; cbn; [done|].
  cbn in Hi. rewrite not_elem_of_cons in Hi. destruct Hi as [Hne Hi].
  unfold assign_all in *. rewrite IH by done. by apply list_lookup_insert_ne.
Qed.

Lemma assign_all_lookup_in {A} (v : list A) ps i x :
  NoDup ps.*1 → (i, x) ∈ ps → i < length v → assign_all v ps !! i = Some x.
Proof.
  revert v. induction ps as [|p ps IH]; intros v Hnd Hin Hlen; cbn.
  - by apply not_elem_of_nil in Hin.
  - cbn in Hnd. apply NoDup_cons in Hnd as [Hni Hnd].
    apply elem_of_cons in Hin as [<-|Hin]; cbn in *.
    + change (foldl _ (<[i:=x]> v) ps) with (assign_all (<[i:=x]> v) ps).
      rewrite assign_all_lookup_notin by done. by apply list_lookup_insert_eq.
    + change (foldl _ (<[p.1:=p.2]> v) ps) with (assign_all (<[p.1:=p.2]> v) ps).
      apply IH; [done..|]. by rewrite length_insert.
Qed.

Lemma assign_all_lookup {A} (v : list A) ps i x :
  NoDup ps.*1 → i < length v →
  assign_all v ps !! i = Some x ↔ (i, x) ∈ ps ∨ (i ∉ ps.*1 ∧ v !! i = Some x).
Proof.
  intros Hnd Hi. destruct (decide (i ∈ ps.*1)) as [Hin|Hni].
  - apply list_elem_of_fmap in Hin as ([i' y] & -> & Hin). simpl in *.
    rewrite (assign_all_lookup_in v ps i' y) by done. split.
    + intros [= ->]. by left.
    + intros [Hx|[Hni _]].
      * f_equal. assert (∀ a c, (i', a) ∈ ps → (i', c) ∈ ps → a = c) as Hf; [|by eapply Hf].
        clear -Hnd. intros a c Ha Hc. induction ps as [|[j z] ps IH]; simpl in *.
        { by apply not_elem_of_nil in Ha. }
        apply NoDup_cons in Hnd as [Hj Hnd].
        apply elem_of_cons in Ha as [Ha|Ha]; apply elem_of_cons in Hc as [Hc|Hc];
          simplify_eq; try done.
        -- destruct Hj. apply list_elem_of_fmap. by exists (j, c).
        -- destruct Hj. apply list_elem_of_fmap. by exists (j, a).
        -- by apply IH.
      * destruct Hni. apply list_elem_of_fmap. by exists (i', y).
  - rewrite assign_all_lookup_notin by done. split; [by right|].
    intros [Hin|[_ H]]; [|done]. destruct Hni. apply list_elem_of_fmap. by exists (i, x).
Qed.

(** ** The order of names: bytewise, as [str::cmp] *)

Section names.
Lemma string_compare_trans c s t u :
  String.compare s t = c → String.compare t u = c → String.compare s u = c.
Proof.
  revert t u. induction s as [|a s IH]; intros [|b t] [|d u]; simpl; try congruence.
  unfold Ascii.compare.
  generalize (Ascii.N_of_ascii a), (Ascii.N_of_ascii b), (Ascii.N_of_ascii d). intros x y z.
  destruct (N.compare_spec x y), (N.compare_spec y z), (N.compare_spec x z);
    intros <- H'; try discriminate H'; try (exfalso; lia); try done.
  by apply (IH t).
Qed.

Lemma string_leb_trans s t u :
  String.leb s t = true → String.leb t u = true → String.leb s u = true.
Proof.
  unfold String.leb. destruct (String.compare s t) eqn:Hst, (String.compare t u) eqn:Htu; try done;
    intros _ _.
  - by rewrite (string_compare_trans Eq s t u).
  - apply String.compare_eq_iff in Hst as ->. by rewrite Htu.
  - apply String.compare_eq_iff in Htu as <-. by rewrite Hst.
  - by rewrite (string_compare_trans Lt s t u).
Qed.
End names.

(** ** Bytes

    A byte is a [Z] between 0 and 255. The digest is a third-party crate's:
    the lower-case hex of the sha256 of some bytes. *)

Class Digest : Type := sha256_hex : list Z → string.

Definition is_byte (z : Z) : Prop := (0 ≤ z < 256)%Z.

Definition ascii_of_byte (z : Z) : Ascii.ascii := Ascii.ascii_of_N (Z.to_N z).

(** The text made of some bytes. *)
Definition string_of_bytes (l : list Z) : string :=
  foldr (λ z s, String (ascii_of_byte z) s) EmptyString l.

(** A byte in two hex digits, [{b:02x}], and bytes one after the other, the
    [{:x}] of a digest. *)
Definition hex_digit (d : Z) : Ascii.ascii :=
  ascii_of_byte (if bool_decide (d < 10)%Z then 48 + d else 87 + d)%Z.
Definition hex2 (b : Z) : string :=
  String (hex_digit (Z.shiftr b 4)) (String (hex_digit (Z.land b 15)) EmptyString).
Definition hex_text (l : list Z) : string := foldr (λ b s, String.append (hex2 b) s) EmptyString l.
