(* ===== verification/LayoutModel.v ===== *)
(** * The Layout and its capacity gate: [src/volume/layout_model.rs]

    The reified plan of one tape, the budget it must fit, the plan order of
    one tape ([place]) and the pre-write predicate ([validate]). *)

From S2P Require Import Prelude.
Local Open Scope Z_scope.
Local Open Scope rust_scope.

(** ** Zones and entries *)

Inductive ZoneKind : Type :=
| IdThunk
| SystemGuide
| RestoreSh
| FrontIndex
| Slice (stage_slice_id : Z)
| TenantEnvelope (tenant_id : Z)
| OperatorEnvelope
| OperatorEnvelopeBackup
| TenantEnvelopeBackup (tenant_id : Z)
| SealMarker.

#[export] Instance ZoneKind_eq_dec : EqDecision ZoneKind.
Proof. solve_decision. Defined.

Definition type_label (k : ZoneKind) : string :=
  match k with
  | IdThunk => "id_thunk"
  | SystemGuide => "system_guide"
  | RestoreSh => "restore_sh"
  | FrontIndex => "front_index"
  | Slice _ => "data_slice"
  | TenantEnvelope _ => "tenant_envelope"
  | OperatorEnvelope => "operator_envelope"
  | OperatorEnvelopeBackup => "operator_envelope_backup"
  | TenantEnvelopeBackup _ => "tenant_envelope_backup"
  | SealMarker => "seal_marker"
  end.

Definition from_type_label (label : string) : option ZoneKind :=
  if bool_decide (label = "id_thunk") then Some IdThunk
  else if bool_decide (label = "system_guide") then Some SystemGuide
  else if bool_decide (label = "restore_sh") then Some RestoreSh
  else if bool_decide (label = "front_index") then Some FrontIndex
  else if bool_decide (label = "data_slice") then Some (Slice 0)
  else if bool_decide (label = "tenant_envelope") then Some (TenantEnvelope 0)
  else if bool_decide (label = "operator_envelope") then Some OperatorEnvelope
  else if bool_decide (label = "operator_envelope_backup") then Some OperatorEnvelopeBackup
  else if bool_decide (label = "tenant_envelope_backup") then Some (TenantEnvelopeBackup 0)
  else if bool_decide (label = "seal_marker") then Some SealMarker
  else None.

Definition is_slice (k : ZoneKind) : bool :=
  match k with Slice _ => true | _ => false end.

(** Where an entry's bytes come from; a path is its string. *)
Inductive ContentSource : Type :=
| Staged (path : string)
| Materialized (path : string)
| Generated.

Record LayoutEntry : Type := mkLayoutEntry {
  le_position : Z;            (* i32 *)
  le_kind : ZoneKind;
  le_size_bytes : option Z;   (* u64 *)
  le_sha256 : option string;
  le_source : ContentSource;
}.

(** The order of [sort_by_key(|e| e.position)]. *)
Definition position_le (a c : LayoutEntry) : Prop := le_position a ≤ le_position c.
#[export] Instance position_le_dec : RelDecision position_le.
Proof. intros a c. unfold position_le. apply _. Defined.

(** [size.div_ceil(block_size) * block_size]; [block_size = 0] panics in the
    code (a debug assertion, then a division by zero) and is excluded by
    [0 < block_size] wherever a theorem needs it. *)
Definition pad_to_blocks (size block_size : Z) : Z :=
  mul64 (div_ceil size block_size) block_size.

Definition entry_on_tape_bytes (e : LayoutEntry) (block_size : Z) : option Z :=
  (λ s, pad_to_blocks s block_size) <$> le_size_bytes e.

(** ** The budget *)

Record CapacityBudget : Type := mkCapacityBudget {
  available_bytes : Z;            (* u64 *)
  reserve_bytes : Z;              (* u64 *)
  plan_bound_bytes : option Z;    (* u64 *)
  span_tail_from : option Z;      (* i32 *)
}.

Record PlanSplit : Type := mkPlanSplit {
  ps_committed : nat;
  ps_planned : nat;
  ps_units : nat;
}.

Definition past_ceiling (s : PlanSplit) : nat * nat := (ps_committed s, ps_planned s).
Definition beyond_bound (s : PlanSplit) : nat * nat := (ps_planned s, ps_units s).
Definition fits (s : PlanSplit) : bool := bool_decide (ps_planned s = ps_units s).

Inductive PlanClass : Type := Owed | Whole | Spannable.
Inductive Placed : Type := Committed | PastCeiling | Tail | Deferred | Refused.

#[export] Instance PlanClass_eq_dec : EqDecision PlanClass.
Proof. solve_decision. Defined.
#[export] Instance Placed_eq_dec : EqDecision Placed.
Proof. solve_decision. Defined.

Record PlanItem : Type := mkPlanItem {
  item_class : PlanClass;
  item_bytes : Z;   (* u64, block-padded *)
}.

(** Every refusal of the pre-write predicate. *)
Inductive LayoutError : Type :=
| Unsized (position : Z) (label : string)
| SliceMissingChecksum (position : Z)
| CapacityExceeded (needed reserve available : Z)
| PlanBoundExceeded (needed bound : Z)
| SpanNeedsPostWarningBytes (needed reserve available : Z)
| SliceFileMissing (path : string)
| SliceSizeMismatch (path : string) (expected actual : Z)
| SliceChecksumMismatch (path : string) (expected actual : string)
| TenantHasNoActiveKey (tenant : Z)
| OperatorKeyMissing
| EscrowRecipientMissing
| StageSetLacksEscrow (stage_set_id : Z) (unit reason : string)
| IoError (path message : string)
| MaterializedZoneMissing (position : Z) (path : string)
| MaterializedZoneSizeMismatch (position expected actual : Z)
| MaterializedZoneHashMismatch (position : Z) (expected actual : string)
| GeneratedZoneUnparseable (position : Z) (label message : string)
| GeneratedZoneInconsistent (position : Z) (message : string)
| RestoreScriptSyntaxError (message : string)
| Interrupted (position : Z) (files : nat).

#[export] Instance LayoutError_eq_dec : EqDecision LayoutError.
Proof. solve_decision. Defined.

Definition interruption (errs : list LayoutError) : option LayoutError :=
  List.find (λ e, match e with Interrupted _ _ => true | _ => false end) errs.

Record Placement : Type := mkPlacement {
  pl_order : list nat;
  pl_placed : list Placed;
  pl_errors : list LayoutError;
}.

Definition placement_is_ok (p : Placement) : bool :=
  match pl_errors p with [] => true | _ => false end.
Definition tail_of (p : Placement) : option nat :=
  position (λ x, bool_decide (x = Tail)) (pl_placed p).
Definition placed_with (pl : Placement) (p : Placed) : list nat :=
  filter (λ i, pl_placed pl !! i = Some p) (seq 0 (length (pl_placed pl))).
Definition deferred (pl : Placement) : list nat := placed_with pl Deferred.

Section budget.
Variable b : CapacityBudget.

(** [end.saturating_add(reserve) <= available]. *)
Definition under_ceiling (e : Z) : bool :=
  bool_decide (e +sat reserve_bytes b ≤ available_bytes b).

(** The loop of [whole_run]: [end], [committed], [planned] and
    [ceiling_crossed] are its locals. *)
Fixpoint whole_run_loop (past_ceiling : bool) (unit_bytes : list Z)
    (e : Z) (committed planned : nat) (ceiling_crossed : bool) : nat * nat :=
  match unit_bytes with
  | [] => (committed, planned)
  | bytes :: rest =>
      let e := e +sat bytes in
      if negb ceiling_crossed && under_ceiling e then
        whole_run_loop past_ceiling rest e (S committed) (S planned) ceiling_crossed
      else
        match plan_bound_bytes b with
        | Some bound =>
            if past_ceiling && bool_decide (e ≤ bound) then
              whole_run_loop past_ceiling rest e committed (S planned) true
            else (committed, planned)
        | None => (committed, planned)
        end
  end.

Definition whole_run (start : Z) (unit_bytes : list Z) (past_ceiling : bool) : nat * nat :=
  whole_run_loop past_ceiling unit_bytes start 0 0 false.

Definition split (fixed_bytes : Z) (unit_bytes : list Z) : PlanSplit :=
  let '(committed, planned) := whole_run fixed_bytes unit_bytes true in
  mkPlanSplit committed planned (length unit_bytes).

Definition span_placed (e : Z) : option Placed :=
  if under_ceiling e then Some Committed
  else
    match plan_bound_bytes b with
    | None => None
    | Some bound => if bool_decide (e ≤ bound) then Some PastCeiling else Some Tail
    end.

(** [place_span] with its two [&mut] arguments threaded. *)
Definition place_span (e : Z) (errors : list LayoutError) (refused : bool)
    : Placed * list LayoutError * bool :=
  match span_placed e with
  | Some p => (p, errors, refused)
  | None =>
      (Refused,
       errors ++ [SpanNeedsPostWarningBytes e (reserve_bytes b) (available_bytes b)],
       true)
  end.

Record SpanRun : Type := mkSpanRun {
  sr_placed : list (nat * Placed);
  sr_tail : option nat;
  sr_errors : list LayoutError;
}.

(** [items[i].bytes]; the indices are positions of [items]. *)
Definition bytes_at (items : list PlanItem) (i : nat) : Z :=
  default 0 (item_bytes <$> items !! i).

Fixpoint place_spans_loop (items : list PlanItem) (closed : bool) (spannable : list nat)
    (e : Z) (refused : bool) (run : SpanRun) : SpanRun :=
  match spannable with
  | [] => run
  | i :: rest =>
      let '(p, e, errors, refused) :=
        if closed || bool_decide (is_Some (sr_tail run)) then
          (Deferred, e, sr_errors run, refused)
        else if refused then (Refused, e, sr_errors run, refused)
        else
          let e := e +sat bytes_at items i in
          let '(p, errors, refused) := place_span e (sr_errors run) refused in
          (p, e, errors, refused) in
      let tail := if bool_decide (p = Tail) then Some i else sr_tail run in
      place_spans_loop items closed rest e refused
        (mkSpanRun (sr_placed run ++ [(i, p)]) tail errors)
  end.

Definition place_spans (spannable : list nat) (items : list PlanItem) (start : Z)
    (closed : bool) : SpanRun :=
  place_spans_loop items closed spannable start false (mkSpanRun [] None []).

Definition span_room (fixed_bytes : Z) : option Z :=
  bound ← plan_bound_bytes b;
  let room := bound -sat fixed_bytes in
  if bool_decide (0 < room) then Some room else None.

Definition larger_than_one_tape (fixed_bytes bytes : Z) : bool :=
  match span_room fixed_bytes with
  | Some room => bool_decide (room < bytes)
  | None => false
  end.

(** Step 1 of [place]: the locals the owed-run loop updates. *)
Record OwedRun : Type := mkOwedRun {
  ow_end : Z;
  ow_placed : list Placed;
  ow_order : list nat;
  ow_tail : option nat;
  ow_refused : bool;
  ow_errors : list LayoutError;
}.

Definition place_owed_step (items : list PlanItem) (st : OwedRun) (i : nat) : OwedRun :=
  if bool_decide (is_Some (ow_tail st)) || ow_refused st then st
  else
    let e := ow_end st +sat bytes_at items i in
    let '(p, errors, refused) := place_span e (ow_errors st) (ow_refused st) in
    let placed := <[i := p]> (ow_placed st) in
    mkOwedRun e placed (ow_order st ++ [i])
      (if bool_decide (p = Tail) then Some i else ow_tail st) refused errors.

Definition ids_of (items : list PlanItem) (class : PlanClass) : list nat :=
  filter (λ i, item_class <$> items !! i = Some class) (seq 0 (length items)).

Definition sizes (items : list PlanItem) (ids : list nat) : list Z :=
  bytes_at items <$> ids.
Definition bytes_of (items : list PlanItem) (ids : list nat) : Z :=
  sum64 (sizes items ids).

(** The per-unit label of step 2, by the unit's rank [n] in [held_whole]. *)
Definition whole_label (committed kept n : nat) : Placed :=
  if bool_decide (n < committed `min` kept)%nat then Committed
  else if bool_decide (n < kept)%nat then PastCeiling
  else Deferred.

Definition place (fixed_bytes : Z) (items : list PlanItem) : Placement :=
  let owed := ids_of items Owed in
  let whole := ids_of items Whole in
  let spannable := ids_of items Spannable in
  let placed := replicate (length items) Deferred in
  let held := (whole_run fixed_bytes (sizes items whole) true).2 in
  let '(placed, errors) :=
    if bool_decide (held < length whole)%nat then
      let placed := assign_all placed ((λ i, (i, Refused)) <$> drop held whole) in
      let needed := fixed_bytes +sat bytes_of items whole in
      (placed,
       [match plan_bound_bytes b with
        | Some bound => PlanBoundExceeded needed bound
        | None => CapacityExceeded needed (reserve_bytes b) (available_bytes b)
        end])
    else (placed, []) in
  let held_whole := take held whole in
  (* 1. owed runs *)
  let ow := foldl (place_owed_step items)
              (mkOwedRun fixed_bytes placed [] None false errors) owed in
  let owed_end := ow_end ow in
  let is_open := negb (bool_decide (is_Some (ow_tail ow))) && negb (ow_refused ow) in
  (* 2. whole units *)
  let '(committed, kept) :=
    if is_open then
      whole_run owed_end (sizes items held_whole) (bool_decide (spannable = []))
    else (0%nat, 0%nat) in
  (* 3. spannable sets *)
  let spans := place_spans spannable items
                 (owed_end +sat bytes_of items (take kept held_whole)) (negb is_open) in
  let '(kept, spans) :=
    match sr_tail spans with
    | Some t =>
        if bool_decide (0 < kept)%nat && larger_than_one_tape fixed_bytes (bytes_at items t)
        then (0%nat, place_spans spannable items owed_end false)
        else (kept, spans)
    | None => (kept, spans)
    end in
  let placed := assign_all (ow_placed ow)
                  (imap (λ n i, (i, whole_label committed kept n)) held_whole) in
  let order := ow_order ow ++ take kept held_whole in
  let placed := assign_all placed (sr_placed spans) in
  let order := order ++
    (filter (λ ip, ip.2 ≠ Deferred ∧ ip.2 ≠ Refused) (sr_placed spans)).*1 in
  mkPlacement order placed (ow_errors ow ++ sr_errors spans).

Definition span_last_run (fixed_bytes : Z) (items : list PlanItem)
    (placement : Placement) : option Z :=
  t ← tail_of placement;
  bound ← plan_bound_bytes b;
  room ← span_room fixed_bytes;
  let set := bytes_at items t in
  if negb (bool_decide (item_class <$> items !! t = Some Spannable))
     || bool_decide (set ≤ room) then None
  else
    let before := take_while (λ i, negb (bool_decide (i = t))) (pl_order placement) in
    let start := foldl (λ e i, e +sat bytes_at items i) fixed_bytes before in
    let rest := set -sat (bound -sat start) in
    let later_tapes := Z.max (div_ceil rest room) 1 in
    Some (rest -w mul64 (later_tapes -w 1) room).
End budget.

(** ** The Layout *)

(** [SliceCheck]: size only, or a full hash of each staged slice. *)
Inductive SliceCheck : Type := CheckSize | CheckFullHash.

#[export] Instance SliceCheck_eq_dec : EqDecision SliceCheck.
Proof. solve_decision. Defined.

Definition from_prewrite_hash (prewrite_hash : bool) : SliceCheck :=
  if prewrite_hash then CheckFullHash else CheckSize.

Record KeyAvailability : Type := mkKeyAvailability {
  tenant_ids : list Z;
  tenants_with_active_key : gset Z;
  operator_key_present : bool;
  escrow_recipient_present : option bool;
  stage_sets_lacking_escrow : option (list (Z * string * string));
}.

Record Layout : Type := mkLayout {
  label : string;
  volume_uuid : string;
  media_type : string;
  block_size : Z;
  budget : CapacityBudget;
  entries : list LayoutEntry;
}.

(** What [validate] asks of the disk: the outcome of [std::fs::metadata] (the
    length), and of opening a file and reading it in turn, each read with the
    signal flag as it was before it. *)
Inductive IoFault : Type :=
| NotFound
| InterruptedBySignal
| OtherIo (message : string).

Inductive ReadOutcome : Type :=
| ReadBytes (bytes : list Z)   (* [] is the end of the file *)
| ReadEintr
| ReadFailed (message : string).

Class Disk : Type := {
  metadata : string → result IoFault Z;
  open_reads : string → result IoFault (list (bool * ReadOutcome));
  signal_before : nat → bool;
}.

Fixpoint hash_reads `{Digest} (reads : list (bool * ReadOutcome)) (hashed : list Z)
    : result IoFault string :=
  match reads with
  | [] => Ok (sha256_hex hashed)
  | (interrupted, outcome) :: reads =>
      if interrupted : bool then Err InterruptedBySignal
      else
        match outcome with
        | ReadBytes [] => Ok (sha256_hex hashed)
        | ReadBytes bytes => hash_reads reads (hashed ++ bytes)
        | ReadEintr => hash_reads reads hashed
        | ReadFailed m => Err (OtherIo m)
        end
  end.

Definition hash_file `{Digest, Disk} (path : string) : result IoFault string :=
  reads ← open_reads path;
  hash_reads reads [].

Section layout.
Variable l : Layout.

Definition entry_bytes (e : LayoutEntry) : option Z := entry_on_tape_bytes e (block_size l).

Fixpoint on_tape_bytes_loop (es : list LayoutEntry) (total : Z) (errs : list LayoutError)
    : Z * list LayoutError :=
  match es with
  | [] => (total, errs)
  | e :: es =>
      match entry_bytes e with
      | Some n => on_tape_bytes_loop es (total +w n) errs
      | None =>
          on_tape_bytes_loop es total
            (errs ++ [Unsized (le_position e) (type_label (le_kind e))])
      end
  end.

Definition on_tape_bytes : result (list LayoutError) Z :=
  match on_tape_bytes_loop (entries l) 0 [] with
  | (total, []) => Ok total
  | (_, errs) => Err errs
  end.

Definition slice_bytes_from (from : Z) : Z :=
  sum64 (omap entry_bytes
    (filter (λ e, is_slice (le_kind e) = true ∧ from ≤ le_position e) (entries l))).

Definition fixed_on_tape_bytes : Z :=
  sum64 (omap entry_bytes (filter (λ e, is_slice (le_kind e) = false) (entries l))).

Definition capacity_errors_with_tail (available : Z) (tail_from : option Z)
    : list LayoutError :=
  match on_tape_bytes with
  | Err _ => []
  | Ok needed =>
      let reserve := reserve_bytes (budget l) in
      if bool_decide (needed +w reserve ≤ available) then []
      else
        let tail := from_option slice_bytes_from 0 tail_from in
        let before_tail := needed -w tail in
        match plan_bound_bytes (budget l) with
        | None =>
            (if bool_decide (tail = 0) || bool_decide (available < before_tail +w reserve)
             then [CapacityExceeded before_tail reserve available] else []) ++
            (if bool_decide (0 < tail)
             then [SpanNeedsPostWarningBytes needed reserve available] else [])
        | Some bound =>
            let fixed := fixed_on_tape_bytes in
            (if bool_decide (available < fixed +w reserve)
             then [CapacityExceeded fixed reserve available] else []) ++
            (if bool_decide (bound < before_tail)
             then [PlanBoundExceeded before_tail bound] else [])
        end
  end.

Definition capacity_errors_against (available : Z) : list LayoutError :=
  capacity_errors_with_tail available (span_tail_from (budget l)).

Definition check_capacity (errs : list LayoutError) : list LayoutError :=
  match on_tape_bytes with
  | Err unsized_errs => errs ++ unsized_errs
  | Ok _ => errs ++ capacity_errors_against (available_bytes (budget l))
  end.

(** The [HashMap] of padded slice sizes: the last entry of an id wins. *)
Definition padded_slices : gmap Z Z :=
  list_to_map (reverse (omap (λ e,
    match le_kind e with
    | Slice id => (λ n, (id, n)) <$> entry_bytes e
    | _ => None
    end) (entries l))).

Definition unit_bytes (unit_slice_ids : list (list Z)) : list Z :=
  (λ ids, sum64 (omap (λ id, padded_slices !! id) ids)) <$> unit_slice_ids.

Definition split_units (unit_slice_ids : list (list Z)) : PlanSplit :=
  split (budget l) fixed_on_tape_bytes (unit_bytes unit_slice_ids).

Definition place_units (unit_slice_ids : list (list Z)) (classes : list PlanClass)
    : Placement :=
  place (budget l) fixed_on_tape_bytes
    (zip_with (λ bytes class, mkPlanItem class bytes) (unit_bytes unit_slice_ids) classes).

Definition entries_past_ceiling (unit_slice_ids : list (list Z)) : list LayoutEntry :=
  let s := split_units unit_slice_ids in
  let ids := mjoin
    (take (ps_planned s - ps_committed s)%nat (drop (ps_committed s) unit_slice_ids)) in
  merge_sort position_le
    (filter (λ e, match le_kind e with
                  | Slice id => bool_decide (id ∈ ids)
                  | _ => false
                  end = true) (entries l)).

(** ** The pre-write predicate *)

Section checks.
Context `{Digest, Disk}.

Definition io_error (path : string) (f : IoFault) : LayoutError :=
  match f with
  | NotFound => IoError path "not found"
  | InterruptedBySignal => IoError path "stopped by a signal"
  | OtherIo m => IoError path m
  end.

(** One staged entry after its hash was found recorded: the errors it adds,
    and whether the check goes on to the next entry ([false] is the early
    return a signal makes). *)
Definition check_staged_entry (slice_check : SliceCheck) (n : nat) (e : LayoutEntry)
    (path expected : string) : list LayoutError * bool :=
  let stop := ([Interrupted (le_position e) (length (entries l))], false) in
  let go_on errs := (errs, true) in
  let hash_it :=
    if bool_decide (slice_check ≠ CheckFullHash) then go_on []
    else if signal_before n then stop
    else
      match hash_file path with
      | Err InterruptedBySignal => stop
      | Ok actual =>
          if bool_decide (actual = expected) then go_on []
          else go_on [SliceChecksumMismatch path expected actual]
      | Err NotFound => go_on [SliceFileMissing path]
      | Err (OtherIo m) => go_on [IoError path m]
      end in
  match metadata path with
  | Ok len =>
      match le_size_bytes e with
      | Some expected_size =>
          if bool_decide (len ≠ expected_size)
          then go_on [SliceSizeMismatch path expected_size len]
          else hash_it
      | None => hash_it
      end
  | Err NotFound => go_on [SliceFileMissing path]
  | Err err => go_on [io_error path err]
  end.

Fixpoint check_staged_slices_loop (slice_check : SliceCheck) (n : nat)
    (es : list LayoutEntry) (errs : list LayoutError) : list LayoutError :=
  match es with
  | [] => errs
  | e :: es =>
      match le_source e with
      | Staged path =>
          match le_sha256 e with
          | None =>
              check_staged_slices_loop slice_check (S n) es
                (if is_slice (le_kind e)
                 then errs ++ [SliceMissingChecksum (le_position e)] else errs)
          | Some expected =>
              let '(more, go_on) := check_staged_entry slice_check n e path expected in
              if go_on : bool
              then check_staged_slices_loop slice_check (S n) es (errs ++ more)
              else errs ++ more
          end
      | _ => check_staged_slices_loop slice_check (S n) es errs
      end
  end.

Definition check_staged_slices (slice_check : SliceCheck) (errs : list LayoutError)
    : list LayoutError :=
  check_staged_slices_loop slice_check 0 (entries l) errs.

(** One materialized entry: its errors, and whether the check goes on. *)
Definition check_materialized_entry (e : LayoutEntry) (path : string)
    : list LayoutError * bool :=
  match metadata path with
  | Err NotFound => ([MaterializedZoneMissing (le_position e) path], true)
  | Err err => ([io_error path err], true)
  | Ok actual_size =>
      let size_errs :=
        match le_size_bytes e with
        | Some expected_size =>
            if bool_decide (actual_size ≠ expected_size)
            then [MaterializedZoneSizeMismatch (le_position e) expected_size actual_size]
            else []
        | None => []
        end in
      match le_sha256 e with
      | None => (size_errs, true)
      | Some expected_hash =>
          match hash_file path with
          | Ok actual =>
              if bool_decide (actual = expected_hash) then (size_errs, true)
              else (size_errs ++
                      [MaterializedZoneHashMismatch (le_position e) expected_hash actual],
                    true)
          | Err InterruptedBySignal =>
              (size_errs ++ [Interrupted (le_position e) (length (entries l))], false)
          | Err err => (size_errs ++ [io_error path err], true)
          end
      end
  end.

Fixpoint check_materialized_zones_loop (es : list LayoutEntry) (errs : list LayoutError)
    : list LayoutError :=
  match es with
  | [] => errs
  | e :: es =>
      match le_source e with
      | Materialized path =>
          let '(more, go_on) := check_materialized_entry e path in
          if go_on : bool then check_materialized_zones_loop es (errs ++ more)
          else errs ++ more
      | _ => check_materialized_zones_loop es errs
      end
  end.

Definition check_materialized_zones (errs : list LayoutError) : list LayoutError :=
  check_materialized_zones_loop (entries l) errs.

Definition check_keys (keys : KeyAvailability) (errs : list LayoutError)
    : list LayoutError :=
  let errs := errs ++
    omap (λ t, if bool_decide (t ∈ tenants_with_active_key keys)
               then None else Some (TenantHasNoActiveKey t)) (tenant_ids keys) in
  let errs := if operator_key_present keys then errs else errs ++ [OperatorKeyMissing] in
  let errs := if bool_decide (escrow_recipient_present keys = Some false)
              then errs ++ [EscrowRecipientMissing] else errs in
  match stage_sets_lacking_escrow keys with
  | Some lacking =>
      errs ++ ((λ '(id, unit, reason), StageSetLacksEscrow id unit reason) <$> lacking)
  | None => errs
  end.

Definition validate (keys : KeyAvailability) (slice_check : SliceCheck)
    : result (list LayoutError) unit :=
  let errs := check_capacity [] in
  let errs := check_staged_slices slice_check errs in
  let errs := check_materialized_zones errs in
  let errs := check_keys keys errs in
  match errs with [] => Ok () | _ => Err errs end.
End checks.
End layout.
