(* ===== verification/PlanOrder.v ===== *)
(** * The plan order of one tape: theorems of [CapacityBudget::place]

    The running end of the plan ([end_of]), the label a unit must carry at a
    given end ([label_at]) and the walk of a placement along the tape
    ([tape_walk]) are the abstract specification; [place] is shown to
    implement it. *)

From S2P Require Import Prelude LayoutModel.
Local Open Scope Z_scope.
Local Open Scope rust_scope.

Section order.
Variable b : CapacityBudget.
Variable items : list PlanItem.

Implicit Types (e : Z) (i t n : nat) (ids : list nat) (p : Placed).

(** ** The specification *)

(** The plan's end after the units [ids], from [e]. *)
Definition end_of (e : Z) (ids : list nat) : Z :=
  foldl (λ e i, e +sat bytes_at items i) e ids.

(** Where a unit ending the plan at [e] must sit. *)
Definition label_at (e : Z) : Placed :=
  if under_ceiling b e then Committed
  else
    match plan_bound_bytes b with
    | None => Refused
    | Some bound => if bool_decide (e ≤ bound) then PastCeiling else Tail
    end.

(** Along the order, every unit carries the label of the plan's end at it. *)
Fixpoint tape_walk (placed : list Placed) (e : Z) (order : list nat) : Prop :=
  match order with
  | [] => True
  | i :: order =>
      let e := e +sat bytes_at items i in
      placed !! i = Some (label_at e) ∧ tape_walk placed e order
  end.

Definition stops (p : Placed) : bool :=
  match p with Tail | Refused => true | _ => false end.

(** Labels along [ids] up to the first unit that ends the run. *)
Fixpoint run_labels (e : Z) (ids : list nat) : list (nat * Placed) :=
  match ids with
  | [] => []
  | i :: ids =>
      let e := e +sat bytes_at items i in
      (i, label_at e) :: (if stops (label_at e) then [] else run_labels e ids)
  end.

(** What [place_spans] gives the units its run does not reach. *)
Definition fill_label (run : list (nat * Placed)) : Placed :=
  match last run with Some (_, Refused) => Refused | _ => Deferred end.

Definition span_labels (e : Z) (ids : list nat) : list (nat * Placed) :=
  let run := run_labels e ids in
  run ++ ((λ i, (i, fill_label run)) <$> drop (length run) ids).

Definition planned_ids (ps : list (nat * Placed)) : list nat :=
  (filter (λ ip : nat * Placed, ip.2 ≠ Deferred ∧ ip.2 ≠ Refused) ps).*1.

(** ** Basic facts *)

Lemma end_of_app e ids ids' : end_of e (ids ++ ids') = end_of (end_of e ids) ids'.
Proof. apply foldl_app. Qed.

Lemma tape_walk_app placed e ids ids' :
  tape_walk placed e (ids ++ ids') ↔
  tape_walk placed e ids ∧ tape_walk placed (end_of e ids) ids'.
Proof.
  revert e. induction ids as [|i ids IH]; intros e; simpl; [tauto|].
  rewrite IH. unfold end_of. simpl. tauto.
Qed.

Lemma place_span_label e errs r :
  (place_span b e errs r).1.1 = label_at e ∧
  (place_span b e errs r).2 = (if bool_decide (label_at e = Refused) then true else r) ∧
  (place_span b e errs r).1.2 =
    errs ++ (if bool_decide (label_at e = Refused)
             then [SpanNeedsPostWarningBytes e (reserve_bytes b) (available_bytes b)] else []).
Proof.
  unfold place_span, span_placed, label_at.
  destruct (under_ceiling b e); simpl; [by rewrite app_nil_r|].
  destruct (plan_bound_bytes b) as [bound|]; simpl; [|done].
  case_bool_decide; simpl; by rewrite app_nil_r.
Qed.

Lemma label_at_not_deferred e : label_at e ≠ Deferred.
Proof.
  unfold label_at. destruct (under_ceiling b e); [done|].
  destruct (plan_bound_bytes b); [by case_bool_decide|done].
Qed.

Lemma run_labels_fst e ids :
  (run_labels e ids).*1 = take (length (run_labels e ids)) ids.
Proof.
  revert e. induction ids as [|i ids IH]; intros e; simpl; [done|].
  f_equal. destruct (stops _); [done|]. apply IH.
Qed.

Lemma run_labels_length e ids : (length (run_labels e ids) ≤ length ids)%nat.
Proof.
  revert e. induction ids as [|i ids IH]; intros e; simpl; [lia|].
  destruct (stops _); simpl; [lia|]. specialize (IH (e +sat bytes_at items i)). lia.
Qed.

Lemma run_labels_not_deferred e ids i : (i, Deferred) ∉ run_labels e ids.
Proof.
  revert e. induction ids as [|j ids IH]; intros e; simpl; [apply not_elem_of_nil|].
  rewrite not_elem_of_cons. split.
  - intros [= -> H]. symmetry in H. by apply label_at_not_deferred in H.
  - destruct (stops _); [apply not_elem_of_nil|]. apply IH.
Qed.

(** A label that stops the run is its last. *)
Lemma run_labels_stop_last e ids i p :
  (i, p) ∈ run_labels e ids → stops p = true → last (run_labels e ids) = Some (i, p).
Proof.
  revert e. induction ids as [|j ids IH]; intros e Hin Hs; simpl in *.
  { by apply not_elem_of_nil in Hin. }
  apply elem_of_cons in Hin as [[= -> ->]|Hin].
  - by rewrite Hs.
  - destruct (stops (label_at _)) eqn:Hst; [by apply not_elem_of_nil in Hin|].
    specialize (IH _ Hin Hs). rewrite last_cons, IH. done.
Qed.

(** A run that does not end on a stopping label covers every unit. *)
Lemma run_labels_complete e ids :
  (∀ i p, last (run_labels e ids) = Some (i, p) → stops p = false) →
  length (run_labels e ids) = length ids.
Proof.
  revert e. induction ids as [|j ids IH]; intros e H; simpl in *; [done|].
  destruct (stops (label_at _)) eqn:Hst.
  - by rewrite (H j _ eq_refl) in Hst.
  - simpl. f_equal. apply IH. intros i p Hl. apply (H i). rewrite last_cons, Hl. done.
Qed.

Lemma run_labels_walk placed e ids :
  (∀ i p, (i, p) ∈ run_labels e ids → placed !! i = Some p) →
  tape_walk placed e (run_labels e ids).*1.
Proof.
  revert e. induction ids as [|i ids IH]; intros e H; simpl in *; [done|].
  split; [apply H; by left|].
  destruct (stops _); simpl; [done|]. apply IH. intros j p Hj. apply H. by right.
Qed.

Lemma run_labels_planned_walk placed e ids :
  (∀ i p, (i, p) ∈ run_labels e ids → placed !! i = Some p) →
  tape_walk placed e (planned_ids (run_labels e ids)).
Proof.
  revert e. induction ids as [|i ids IH]; intros e H; simpl in *; [done|].
  unfold planned_ids. rewrite filter_cons. case_decide as Hd; simpl in *.
  - split; [apply H; by left|]. destruct (stops _); [done|].
    apply IH. intros j p Hj. apply H. by right.
  - destruct (label_at _) eqn:Hl; simpl in *; try (exfalso; apply Hd; by split).
    + by apply label_at_not_deferred in Hl.
    + done.
Qed.

Lemma planned_ids_app ps qs : planned_ids (ps ++ qs) = planned_ids ps ++ planned_ids qs.
Proof. unfold planned_ids. by rewrite filter_app, fmap_app. Qed.

Lemma fill_label_cases run : fill_label run = Deferred ∨ fill_label run = Refused.
Proof. unfold fill_label. destruct (last run) as [[? []]|]; auto. Qed.

Lemma planned_ids_fill run ids :
  planned_ids ((λ i, (i, fill_label run)) <$> ids) = [].
Proof.
  unfold planned_ids. induction ids as [|i ids IH]; simpl; [done|].
  rewrite filter_cons_False; [done|]. simpl.
  destruct (fill_label_cases run) as [->| ->]; intros [? ?]; done.
Qed.

Lemma span_labels_planned e ids :
  planned_ids (span_labels e ids) = planned_ids (run_labels e ids).
Proof. unfold span_labels. by rewrite planned_ids_app, planned_ids_fill, app_nil_r. Qed.

Lemma span_labels_fst e ids : (span_labels e ids).*1 = ids.
Proof.
  unfold span_labels. rewrite fmap_app, run_labels_fst, <-list_fmap_compose.
  rewrite (list_fmap_ext _ id (drop _ _)) by done.
  rewrite list_fmap_id. apply take_drop.
Qed.
End order.

(** ** The loops implement the specification *)

Section loops.
Variable b : CapacityBudget.
Variable items : list PlanItem.

(** Step 1: the owed loop is [run_labels]. *)
Lemma owed_loop_stopped ids st :
  bool_decide (is_Some (ow_tail st)) || ow_refused st = true →
  foldl (place_owed_step b items) st ids = st.
Proof.
  intros H. induction ids as [|i ids IH]; simpl; [done|].
  unfold place_owed_step at 2. by rewrite H.
Qed.

Lemma owed_loop_spec ids e placed order errs :
  let run := run_labels b items e ids in
  let st := foldl (place_owed_step b items) (mkOwedRun e placed order None false errs) ids in
  ow_end st = end_of items e run.*1 ∧
  ow_placed st = assign_all placed run ∧
  ow_order st = order ++ run.*1 ∧
  ow_tail st = (match last run with Some (i, Tail) => Some i | _ => None end) ∧
  ow_refused st = (match last run with Some (_, Refused) => true | _ => false end) ∧
  (ow_refused st = false → ow_errors st = errs) ∧
  (ow_refused st = true → ow_errors st ≠ []).
Proof.
  revert e placed order errs.
  induction ids as [|i ids IH]; intros e placed order errs; simpl.
  { by rewrite app_nil_r. }
  assert (place_owed_step b items (mkOwedRun e placed order None false errs) i =
    mkOwedRun (e +sat bytes_at items i) (<[i := label_at b (e +sat bytes_at items i)]> placed)
      (order ++ [i])
      (if bool_decide (label_at b (e +sat bytes_at items i) = Tail) then Some i else None)
      (bool_decide (label_at b (e +sat bytes_at items i) = Refused))
      (errs ++ (if bool_decide (label_at b (e +sat bytes_at items i) = Refused)
                then [SpanNeedsPostWarningBytes (e +sat bytes_at items i)
                        (reserve_bytes b) (available_bytes b)] else []))) as ->.
  { unfold place_owed_step; simpl.
    pose proof (place_span_label b (e +sat bytes_at items i) errs false) as (Hp & Hr & He).
    destruct (place_span b (e +sat bytes_at items i) errs false) as [[p errs'] r].
    simpl in Hp, Hr, He. subst p r errs'. f_equal. by case_bool_decide. }
  set (e' := e +sat bytes_at items i).
  destruct (stops (label_at b e')) eqn:Hst.
  - rewrite owed_loop_stopped; simpl.
    + destruct (label_at b e'); simpl in *; try done; rewrite ?app_nil_r; repeat split; try done.
      intros _ [_ ?]%app_eq_nil. done.
    + destruct (label_at b e'); done.
  - assert (label_at b e' ≠ Tail ∧ label_at b e' ≠ Refused) as [HT HR]
      by (destruct (label_at b e'); done).
    rewrite (bool_decide_eq_false_2 _ HT), (bool_decide_eq_false_2 _ HR), app_nil_r.
    destruct (IH e' (<[i:=label_at b e']> placed) (order ++ [i]) errs)
      as (H1 & H2 & H3 & H4 & H5 & H6 & H7).
    rewrite H1, H2, H3, H4. rewrite <-app_assoc.
    assert (∀ X (f : option (nat * Placed) → X),
      f None = f (Some (i, label_at b e')) →
      f (last (run_labels b items e' ids)) =
      f (last ((i, label_at b e') :: run_labels b items e' ids))) as Hlast.
    { intros X f Hf. rewrite last_cons. by destruct (last (run_labels b items e' ids)). }
    repeat split; try done.
    + apply (Hlast _ (λ o, match o with Some (i, Tail) => Some i | _ => None end)).
      by destruct (label_at b e').
    + rewrite H5.
      apply (Hlast _ (λ o, match o with Some (_, Refused) => true | _ => false end)).
      by destruct (label_at b e').
Qed.

(** Step 3: the spannable loop is [span_labels]. *)
Definition spans_result (run : SpanRun) (ps : list (nat * Placed)) (errs : list LayoutError)
    : SpanRun :=
  mkSpanRun (sr_placed run ++ ps)
    (match last ps with Some (i, Tail) => Some i | _ => sr_tail run end) errs.

Lemma place_spans_deferring ids e r run closed :
  closed || bool_decide (is_Some (sr_tail run)) = true →
  place_spans_loop b items closed ids e r run =
  mkSpanRun (sr_placed run ++ ((λ i, (i, Deferred)) <$> ids)) (sr_tail run) (sr_errors run).
Proof.
  revert run. induction ids as [|i ids IH]; intros run H; simpl.
  { rewrite app_nil_r. by destruct run. }
  rewrite H. simpl. rewrite IH by done. simpl. by rewrite <-app_assoc.
Qed.

Lemma place_spans_refusing ids e run :
  sr_tail run = None →
  place_spans_loop b items false ids e true run =
  mkSpanRun (sr_placed run ++ ((λ i, (i, Refused)) <$> ids)) None (sr_errors run).
Proof.
  revert run. induction ids as [|i ids IH]; intros run H; simpl.
  { rewrite app_nil_r. destruct run. simpl in *. by subst. }
  rewrite H. simpl. rewrite IH by done. simpl. by rewrite <-app_assoc.
Qed.

Lemma place_spans_loop_spec ids e run :
  sr_tail run = None →
  let labels := run_labels b items e ids in
  let res := place_spans_loop b items false ids e false run in
  sr_placed res = sr_placed run ++ span_labels b items e ids ∧
  sr_tail res = (match last labels with Some (i, Tail) => Some i | _ => None end) ∧
  (fill_label labels = Deferred → sr_errors res = sr_errors run) ∧
  (fill_label labels = Refused → sr_errors res ≠ []).
Proof.
  revert e run. induction ids as [|i ids IH]; intros e run Ht; simpl.
  { unfold span_labels. simpl. by rewrite app_nil_r. }
  rewrite Ht. simpl.
  pose proof (place_span_label b (e +sat bytes_at items i) (sr_errors run) false)
    as (Hp & Hr & He).
  destruct (place_span b (e +sat bytes_at items i) (sr_errors run) false) as [[p errs'] r].
  simpl in Hp, Hr, He. subst p r errs'.
  set (e' := e +sat bytes_at items i).
  unfold span_labels; simpl. fold e'.
  destruct (stops (label_at b e')) eqn:Hst.
  - destruct (label_at b e') eqn:Hl; simpl in *; try done.
    + rewrite place_spans_deferring by done. simpl. rewrite app_nil_r, <-app_assoc. done.
    + rewrite place_spans_refusing by done. simpl. rewrite <-app_assoc.
      repeat split; try done. intros _ [_ ?]%app_eq_nil. done.
  - assert (label_at b e' ≠ Tail ∧ label_at b e' ≠ Refused) as [HT HR]
      by (destruct (label_at b e'); done).
    rewrite (bool_decide_eq_false_2 _ HT), (bool_decide_eq_false_2 _ HR), app_nil_r.
    destruct (IH e' (mkSpanRun (sr_placed run ++ [(i, label_at b e')]) None (sr_errors run))
      eq_refl) as (H1 & H2 & H3 & H4).
    simpl in *. rewrite H1, H2.
    assert (fill_label ((i, label_at b e') :: run_labels b items e' ids) =
            fill_label (run_labels b items e' ids)) as Hfill.
    { unfold fill_label. rewrite last_cons.
      destruct (last (run_labels b items e' ids)); [done|]. by destruct (label_at b e'). }
    rewrite Hfill. repeat split; try done.
    + unfold span_labels. rewrite <-app_assoc. done.
    + rewrite last_cons. destruct (last (run_labels b items e' ids)); [done|].
      by destruct (label_at b e').
Qed.
End loops.

(** ** Whole units: [whole_run] *)

Section whole.
Variable b : CapacityBudget.

(** The plan's end after the first [n] of [l]. *)
Definition end_after (e : Z) (l : list Z) (n : nat) : Z := foldl sat_add64 e (take n l).

Lemma whole_run_loop_acc past l e c p x :
  whole_run_loop b past l e c p x =
  ((c + (whole_run_loop b past l e 0 0 x).1)%nat, (p + (whole_run_loop b past l e 0 0 x).2)%nat).
Proof.
  revert e c p x. induction l as [|s l IH]; intros e c p x; simpl; [f_equal; lia|].
  destruct (negb x && under_ceiling b _).
  - rewrite (IH _ (S c)), (IH _ 1%nat 1%nat). simpl. f_equal; lia.
  - destruct (plan_bound_bytes b) as [bound|]; [|simpl; f_equal; lia].
    destruct (past && _); [|simpl; f_equal; lia].
    rewrite (IH _ c), (IH _ 0%nat 1%nat). simpl. f_equal; lia.
Qed.

Lemma whole_run_loop_le past l e x :
  ((whole_run_loop b past l e 0 0 x).1 ≤ (whole_run_loop b past l e 0 0 x).2 ≤ length l)%nat.
Proof.
  revert e x. induction l as [|s l IH]; intros e x; simpl; [lia|].
  destruct (negb x && under_ceiling b _).
  - rewrite (whole_run_loop_acc _ _ _ 1 1). simpl. specialize (IH (e +sat s) x). lia.
  - destruct (plan_bound_bytes b) as [bound|]; [|simpl; lia].
    destruct (past && _); [|simpl; lia].
    rewrite (whole_run_loop_acc _ _ _ 0 1). simpl. specialize (IH (e +sat s) true). lia.
Qed.

Lemma whole_run_loop_crossed past l e :
  (whole_run_loop b past l e 0 0 true).1 = 0%nat.
Proof.
  revert e. induction l as [|s l IH]; intros e; simpl; [done|].
  destruct (plan_bound_bytes b) as [bound|]; [|done].
  destruct (past && _); [|done].
  rewrite (whole_run_loop_acc _ _ _ 0 1). simpl. apply IH.
Qed.

Lemma under_ceiling_mono e e' : e ≤ e' → under_ceiling b e' = true → under_ceiling b e = true.
Proof.
  unfold under_ceiling. rewrite !bool_decide_eq_true. unfold_width. lia.
Qed.

(** Every planned unit is labelled by the plan's end at it. *)
Lemma whole_run_loop_label past l e x n :
  Forall (λ s, 0 ≤ s) l → e ≤ u64_max → (x = true → under_ceiling b e = false) →
  (n < (whole_run_loop b past l e 0 0 x).2)%nat →
  label_at b (end_after e l (S n)) =
    if bool_decide (n < (whole_run_loop b past l e 0 0 x).1)%nat then Committed else PastCeiling.
Proof.
  intros Hl. revert e x n.
  induction Hl as [|s l Hs Hl IH]; intros e x n He Hx Hn; simpl in *; [lia|].
  assert (e ≤ e +sat s ≤ u64_max) as Hes by (unfold_width; lia).
  assert (end_after e (s :: l) (S n) = end_after (e +sat s) l n) as Hend by done.
  destruct (negb x && under_ceiling b (e +sat s)) eqn:Hc.
  - rewrite (whole_run_loop_acc _ _ _ 1 1) in *. simpl in *.
    apply andb_true_iff in Hc as [Hnx Hu]. apply negb_true_iff in Hnx. subst x.
    destruct n as [|n].
    + rewrite bool_decide_eq_true_2 by lia.
      unfold end_after. simpl. unfold label_at. rewrite ?take_0. simpl. by rewrite Hu.
    + rewrite Hend, (IH (e +sat s) false n) by (done || lia).
      by rewrite (bool_decide_ext (S n < _)%nat (n < (whole_run_loop b past l (e +sat s) 0 0 false).1)%nat)
        by lia.
  - destruct (plan_bound_bytes b) as [bound|] eqn:Hb; simpl in *; [|lia].
    destruct (past && bool_decide (e +sat s ≤ bound)) eqn:Hp; simpl in *; [|lia].
    rewrite (whole_run_loop_acc _ _ _ 0 1) in *. simpl in *.
    rewrite whole_run_loop_crossed in *.
    apply andb_true_iff in Hp as [_ Hle%bool_decide_eq_true].
    assert (under_ceiling b (e +sat s) = false) as Hu.
    { destruct x; [|done]. specialize (Hx eq_refl).
      destruct (under_ceiling b (e +sat s)) eqn:Hu; [|done].
      rewrite (under_ceiling_mono e (e +sat s)) in Hx; done || lia. }
    rewrite bool_decide_eq_false_2 by lia.
    destruct n as [|n].
    + unfold end_after. simpl. rewrite ?take_0. simpl. unfold label_at.
      by rewrite Hu, Hb, bool_decide_eq_true_2.
    + rewrite Hend, (IH (e +sat s) true n) by (done || lia).
      by rewrite whole_run_loop_crossed.
Qed.

(** The first unit that is not planned cannot be. *)
Lemma whole_run_loop_maximal past l e x :
  let r := (whole_run_loop b past l e 0 0 x).2 in
  (r < length l)%nat →
  (under_ceiling b (end_after e l (S r)) = false ∨ x = true ∨
     (whole_run_loop b past l e 0 0 x).1 ≠ r) ∧
  (∀ bound, plan_bound_bytes b = Some bound → past = true → bound < end_after e l (S r)).
Proof.
  revert e x. induction l as [|s l IH]; intros e x r Hr; subst r; simpl in *; [lia|].
  destruct (negb x && under_ceiling b (e +sat s)) eqn:Hc.
  - rewrite (whole_run_loop_acc _ _ _ 1 1) in *. simpl in *.
    destruct (IH (e +sat s) x) as [H1 H2]; [lia|]. unfold end_after in *. simpl in *.
    split; [|done]. destruct H1 as [?|[?|?]]; auto.
  - destruct (plan_bound_bytes b) as [bound|] eqn:Hb; simpl in *.
    + destruct (past && bool_decide (e +sat s ≤ bound)) eqn:Hp; simpl in *.
      * rewrite (whole_run_loop_acc _ _ _ 0 1) in *. simpl in *.
        destruct (IH (e +sat s) true) as [H1 H2]; [lia|]. unfold end_after in *. simpl in *.
        split; [|done]. rewrite whole_run_loop_crossed in *. right. right. lia.
      * unfold end_after. simpl. rewrite ?take_0. simpl. split.
        -- destruct x; [auto|]. simpl in Hc. auto.
        -- intros ? [= <-] ->. simpl in Hp. apply bool_decide_eq_false in Hp. lia.
    + unfold end_after. simpl. rewrite ?take_0. simpl. split; [|done].
      destruct x; [auto|]. simpl in Hc. auto.
Qed.

(** Without a plan bound nothing is planned past the ceiling. *)
Lemma whole_run_loop_no_bound past l e c x :
  plan_bound_bytes b = None →
  (whole_run_loop b past l e c c x).1 = (whole_run_loop b past l e c c x).2.
Proof.
  intros Hb. revert e c. induction l as [|s l IH]; intros e c; simpl; [done|].
  rewrite Hb. destruct (negb x && under_ceiling b (e +sat s)); [apply IH|done].
Qed.

(** Cutting the input at the planned count changes nothing. *)
Lemma whole_run_loop_take past l e x :
  whole_run_loop b past (take (whole_run_loop b past l e 0 0 x).2 l) e 0 0 x =
  whole_run_loop b past l e 0 0 x.
Proof.
  revert e x. induction l as [|s l IH]; intros e x; simpl; [done|].
  destruct (negb x && under_ceiling b (e +sat s)) eqn:Hc.
  - rewrite (whole_run_loop_acc _ _ _ 1 1). simpl. rewrite Hc.
    rewrite (whole_run_loop_acc _ _ _ 1 1), IH. done.
  - destruct (plan_bound_bytes b) as [bound|] eqn:Hb; simpl; [|done].
    destruct (past && bool_decide (e +sat s ≤ bound)) eqn:Hp; simpl; [|done].
    rewrite (whole_run_loop_acc _ _ _ 0 1). simpl. rewrite Hc, Hb, Hp.
    rewrite (whole_run_loop_acc _ _ _ 0 1), IH. done.
Qed.
End whole.

(** ** The shape of a placement *)

Section shape.
Variable b : CapacityBudget.
Variable items : list PlanItem.
Variable fixed : Z.

Definition whole_ids : list nat := ids_of items Whole.
Definition span_ids : list nat := ids_of items Spannable.
Definition held : nat := (whole_run b fixed (sizes items whole_ids) true).2.
Definition held_ids : list nat := take held whole_ids.
Definition owed_run : list (nat * Placed) := run_labels b items fixed (ids_of items Owed).
Definition owed_end : Z := end_of items fixed owed_run.*1.
Definition owed_open : bool :=
  match last owed_run with Some (_, p) => negb (stops p) | None => true end.

(** The spannable sets' labels once [kept] whole units precede them. *)
Definition span_start (kept : nat) : Z := owed_end +sat bytes_of items (take kept held_ids).
Definition spans_at (kept : nat) : list (nat * Placed) :=
  if owed_open then span_labels b items (span_start kept) span_ids
  else (λ i, (i, Deferred)) <$> span_ids.

Definition refused_ids : list (nat * Placed) := (λ i, (i, Refused)) <$> drop held whole_ids.
Definition whole_labels (committed kept : nat) : list (nat * Placed) :=
  imap (λ n i, (i, whole_label committed kept n)) held_ids.

(** No span is refused, and none larger than one tape follows whole units. *)
Definition spans_clean (kept : nat) : Prop :=
  owed_open = true → fill_label (run_labels b items (span_start kept) span_ids) = Deferred.

Definition spans_first (kept : nat) : Prop :=
  ∀ t, (0 < kept)%nat → owed_open = true →
  last (run_labels b items (span_start kept) span_ids) = Some (t, Tail) →
  larger_than_one_tape b fixed (bytes_at items t) = false.

Record place_shape (committed kept : nat) (pl : Placement) : Prop := {
  shape_order : pl_order pl =
    owed_run.*1 ++ take kept held_ids ++ planned_ids (spans_at kept);
  shape_placed : pl_placed pl =
    assign_all (replicate (length items) Deferred)
      (refused_ids ++ owed_run ++ whole_labels committed kept ++ spans_at kept);
  shape_kept : kept = 0%nat ∨ (owed_open = true ∧ ∃ past,
    (committed, kept) = whole_run b owed_end (sizes items held_ids) past);
  shape_no_span : span_ids = [] → owed_open = true →
    (committed, kept) = whole_run b owed_end (sizes items held_ids) true;
  shape_span_first : spans_first kept;
  shape_errors : pl_errors pl = [] ↔
    held = length whole_ids ∧
    (∀ i, last owed_run ≠ Some (i, Refused)) ∧
    spans_clean kept;
}.

Lemma owed_open_spec :
  owed_open =
    negb (bool_decide (is_Some (match last owed_run with Some (i, Tail) => Some i | _ => None end)))
    && negb (match last owed_run with Some (_, Refused) => true | _ => false end).
Proof. unfold owed_open. by destruct (last owed_run) as [[? []]|]. Qed.

Lemma end_of_bound e ids : e ≤ u64_max → end_of items e ids ≤ u64_max.
Proof.
  intros He. destruct ids as [|i ids _] using rev_ind; [done|].
  unfold end_of. rewrite foldl_app. simpl. unfold_width. lia.
Qed.

Lemma span_start_0 : fixed ≤ u64_max → span_start 0 = owed_end.
Proof.
  intros Hf. unfold span_start, bytes_of, sizes, sum64. simpl.
  pose proof (end_of_bound fixed owed_run.*1 Hf). unfold owed_end. unfold_width. lia.
Qed.

Lemma place_spans_spec e closed :
  let res := place_spans b span_ids items e closed in
  sr_placed res = (if closed then (λ i, (i, Deferred)) <$> span_ids
                   else span_labels b items e span_ids) ∧
  (sr_errors res = [] ↔
    (closed = false → fill_label (run_labels b items e span_ids) = Deferred)).
Proof.
  unfold place_spans. destruct closed.
  - rewrite place_spans_deferring by done. simpl. split; [done|]. by split.
  - destruct (place_spans_loop_spec b items span_ids e (mkSpanRun [] None []) eq_refl)
      as (H1 & _ & H3 & H4). simpl in *. split; [done|]. split.
    + intros He _. destruct (fill_label_cases (run_labels b items e span_ids)) as [|Hr]; [done|].
      by destruct (H4 Hr).
    + intros Hd. rewrite H3; auto.
Qed.

Lemma held_le : (held ≤ length whole_ids)%nat.
Proof.
  pose proof (whole_run_loop_le b true (sizes items whole_ids) fixed false) as Hle.
  unfold sizes in Hle. rewrite length_fmap in Hle. unfold held, whole_run, sizes. apply Hle.
Qed.

(** Step 3's choice: the first spans, or the second once a set larger than
    one tape is the tail and whole units precede it. *)
Definition respan (kept : nat) (spans : SpanRun) : nat * SpanRun :=
  match sr_tail spans with
  | Some t =>
      if bool_decide (0 < kept)%nat && larger_than_one_tape b fixed (bytes_at items t)
      then (0%nat, place_spans b span_ids items owed_end false)
      else (kept, spans)
  | None => (kept, spans)
  end.

Lemma respan_spec kept :
  fixed ≤ u64_max → (kept = 0%nat ∨ owed_open = true) →
  let r := respan kept (place_spans b span_ids items (span_start kept) (negb owed_open)) in
  (r.1 = kept ∨ r.1 = 0%nat) ∧ (span_ids = [] → r.1 = kept) ∧
  sr_placed r.2 = spans_at r.1 ∧ (sr_errors r.2 = [] ↔ spans_clean r.1) ∧ spans_first r.1.
Proof.
  intros Hf Hko r. subst r. set (s1 := place_spans _ _ _ _ _).
  destruct (place_spans_spec (span_start kept) (negb owed_open)) as [Hs1 He1].
  fold s1 in Hs1, He1.
  assert (sr_placed s1 = spans_at kept ∧ (sr_errors s1 = [] ↔ spans_clean kept)) as Hfirst.
  { rewrite Hs1, He1. unfold spans_at, spans_clean.
    destruct owed_open; (split; [done|]); by split; intros H ?; try apply H. }
  assert (span_ids = [] → sr_tail s1 = None) as Hnotail.
  { intros Hns. subst s1. by rewrite Hns. }
  unfold respan. destruct (sr_tail s1) as [t|] eqn:Ht.
  - destruct (bool_decide (0 < kept)%nat && larger_than_one_tape b fixed (bytes_at items t)) eqn:Hc.
    + apply andb_true_iff in Hc as [Hc%bool_decide_eq_true _].
      assert (owed_open = true) as Ho by (destruct Hko; [lia|done]).
      destruct (place_spans_spec owed_end false) as [H1 H2].
      unfold spans_clean, spans_at, spans_first. simpl. rewrite span_start_0, Ho, H1, H2 by done.
      repeat split; auto; [naive_solver..|lia].
    + split; [by left|]. split; [done|]. do 2 (split; [apply Hfirst|]). intros u Hk Ho Hl.
      simpl in *. rewrite bool_decide_eq_true_2 in Hc by done. simpl in Hc.
      subst s1. rewrite Ho in Ht. unfold place_spans in Ht.
      destruct (place_spans_loop_spec b items span_ids (span_start kept) (mkSpanRun [] None []) eq_refl)
        as (_ & H2 & _). simpl in *. rewrite H2, Hl in Ht. by injection Ht as ->.
  - split; [by left|]. split; [done|]. do 2 (split; [apply Hfirst|]). intros u Hk Ho Hl.
    simpl in *. subst s1. rewrite Ho in Ht. unfold place_spans in Ht.
    destruct (place_spans_loop_spec b items span_ids (span_start kept) (mkSpanRun [] None []) eq_refl)
      as (_ & H2 & _). simpl in *. by rewrite H2, Hl in Ht.
Qed.

Lemma refused_base :
  let r := if bool_decide (held < length whole_ids)%nat
           then (assign_all (replicate (length items) Deferred) refused_ids,
                 [match plan_bound_bytes b with
                  | Some bound => PlanBoundExceeded (fixed +sat bytes_of items whole_ids) bound
                  | None => CapacityExceeded (fixed +sat bytes_of items whole_ids)
                              (reserve_bytes b) (available_bytes b)
                  end])
           else (replicate (length items) Deferred, []) in
  r.1 = assign_all (replicate (length items) Deferred) refused_ids ∧
  (r.2 = [] ↔ held = length whole_ids).
Proof.
  pose proof held_le. simpl. case_bool_decide; simpl.
  - split; [done|]. split; [done|lia].
  - unfold refused_ids. rewrite drop_ge by lia. simpl. split; [done|].
    split; [lia|done].
Qed.

Lemma place_has_shape :
  fixed ≤ u64_max → ∃ committed kept, place_shape committed kept (place b fixed items).
Proof.
  intros Hf. unfold place. fold whole_ids span_ids. fold held. fold held_ids refused_ids.
  pose proof refused_base as [Hplaced Herrs]. simpl in Hplaced, Herrs.
  destruct (if bool_decide (held < length whole_ids)%nat then _ else _) as [placed errs].
  simpl in Hplaced, Herrs. subst placed.
  destruct (owed_loop_spec b items (ids_of items Owed) fixed
    (assign_all (replicate (length items) Deferred) refused_ids) [] errs)
    as (H1 & H2 & H3 & H4 & H5 & H6 & H7).
  fold owed_run in H1, H2, H3, H4, H5. fold owed_end in H1.
  set (ow := foldl (place_owed_step b items) _ _) in *.
  rewrite H1, H2, H3. simpl.
  assert (negb (bool_decide (is_Some (ow_tail ow))) && negb (ow_refused ow) = owed_open) as ->.
  { by rewrite owed_open_spec, H4, H5. }
  assert (ow_errors ow = [] ↔ held = length whole_ids ∧ ∀ i, last owed_run ≠ Some (i, Refused))
    as Howerr.
  { destruct (ow_refused ow) eqn:Hr.
    - split; [by intros ?%H7|]. intros [_ Hl]. exfalso.
      destruct (last owed_run) as [[i []]|]; try done. by apply (Hl i).
    - rewrite H6 by done. rewrite Herrs. split; [|tauto]. intros ->. split; [done|].
      intros i Hl. by rewrite Hl in H5. }
  destruct (if owed_open then _ else _) as [committed kept] eqn:Hk.
  assert (kept = 0%nat ∨ owed_open = true) as Hko.
  { destruct owed_open; [by right|]. injection Hk as <- <-. by left. }
  destruct (respan_spec kept Hf Hko) as (Hk' & Hns & Hs & He & Hfst).
  unfold respan, span_start in Hk', Hns, Hs, He, Hfst.
  destruct (match sr_tail _ with Some t => _ | None => _ end) as [kept' s].
  simpl in Hk', Hns, Hs, He, Hfst. exists committed, kept'. split; simpl.
  - rewrite Hs, <-app_assoc. done.
  - rewrite Hs, !assign_all_app. done.
  - destruct Hk' as [->| ->]; [|by left]. destruct owed_open; [|destruct Hko; [by left|done]].
    right. split; [done|]. by eexists.
  - intros Hn Ho. rewrite (Hns Hn). rewrite Ho, Hn in Hk. done.
  - exact Hfst.
  - rewrite app_nil, Howerr, He. tauto.
Qed.
End shape.

(** ** Which unit is where *)

Section located.
Variable b : CapacityBudget.
Variable items : list PlanItem.
Variable fixed : Z.

Definition all_labels (committed kept : nat) : list (nat * Placed) :=
  refused_ids b items fixed ++ owed_run b items fixed ++
  whole_labels b items fixed committed kept ++ spans_at b items fixed kept.

Lemma elem_of_ids_of c i : i ∈ ids_of items c ↔ item_class <$> items !! i = Some c.
Proof.
  unfold ids_of. rewrite list_elem_of_filter, elem_of_seq. split; [tauto|].
  intros H. split; [done|]. apply fmap_Some in H as (it & H & _).
  apply lookup_lt_Some in H. lia.
Qed.

Lemma ids_of_NoDup c : NoDup (ids_of items c).
Proof. apply NoDup_filter, NoDup_seq. Qed.

Lemma elem_of_run_labels e ids i p : (i, p) ∈ run_labels b items e ids → i ∈ ids.
Proof.
  intros H. assert (i ∈ (run_labels b items e ids).*1) as Hi.
  { apply list_elem_of_fmap. by exists (i, p). }
  rewrite run_labels_fst in Hi. by apply elem_of_take in Hi as (? & ?%list_elem_of_lookup_2 & _).
Qed.

Lemma spans_at_fst kept : (spans_at b items fixed kept).*1 = span_ids items.
Proof.
  unfold spans_at. destruct (owed_open b items fixed); [apply span_labels_fst|].
  rewrite <-list_fmap_compose, (list_fmap_ext _ id) by done. apply list_fmap_id.
Qed.

Lemma whole_labels_fst committed kept :
  (whole_labels b items fixed committed kept).*1 = held_ids b items fixed.
Proof.
  unfold whole_labels. rewrite fmap_imap.
  apply list_eq. intros n. rewrite list_lookup_imap. by destruct (held_ids b items fixed !! n).
Qed.

Lemma refused_ids_fst :
  (refused_ids b items fixed).*1 = drop (held b items fixed) (whole_ids items).
Proof.
  unfold refused_ids. rewrite <-list_fmap_compose, (list_fmap_ext _ id) by done.
  apply list_fmap_id.
Qed.

Lemma all_labels_NoDup committed kept : NoDup (all_labels committed kept).*1.
Proof.
  unfold all_labels. rewrite !fmap_app, refused_ids_fst, whole_labels_fst, spans_at_fst.
  unfold owed_run. rewrite run_labels_fst. set (k := length _).
  assert (NoDup (drop (held b items fixed) (whole_ids items)) ∧
    NoDup (held_ids b items fixed) ∧
    (∀ i, i ∈ drop (held b items fixed) (whole_ids items) → i ∉ held_ids b items fixed))
    as (Hd & Hh & Hdh).
  { pose proof (ids_of_NoDup Whole) as Hw. fold (whole_ids items) in Hw.
    rewrite <-(take_drop (held b items fixed) (whole_ids items)) in Hw.
    apply NoDup_app in Hw as (? & Hdis & ?). unfold held_ids. naive_solver. }
  assert (∀ i, i ∈ drop (held b items fixed) (whole_ids items) ∨ i ∈ held_ids b items fixed →
    item_class <$> items !! i = Some Whole) as Hwc.
  { intros i Hi. apply elem_of_ids_of. fold (whole_ids items).
    rewrite <-(take_drop (held b items fixed) (whole_ids items)). apply elem_of_app. tauto. }
  assert (∀ i, i ∈ take k (ids_of items Owed) → item_class <$> items !! i = Some Owed) as Hoc.
  { intros i (j & Hj & _)%elem_of_take. apply elem_of_ids_of. by eapply list_elem_of_lookup_2. }
  assert (∀ i, i ∈ span_ids items → item_class <$> items !! i = Some Spannable) as Hsc.
  { intros i. apply elem_of_ids_of. }
  rewrite !NoDup_app. setoid_rewrite elem_of_app. setoid_rewrite elem_of_app.
  repeat split; try done.
  - intros i Hi [Ho|[Hk|Hs]]; [|by eapply Hdh|].
    + specialize (Hwc i (or_introl Hi)). specialize (Hoc i Ho). congruence.
    + specialize (Hwc i (or_introl Hi)). specialize (Hsc i Hs). congruence.
  - eapply sublist_NoDup; [apply ids_of_NoDup|apply sublist_take].
  - intros i Ho%Hoc [Hk|Hs%Hsc]; [|congruence].
    specialize (Hwc i (or_intror Hk)). congruence.
  - intros i Hk Hs%Hsc. specialize (Hwc i (or_intror Hk)). congruence.
  - apply ids_of_NoDup.
Qed.

Lemma labels_length committed kept i p :
  (i, p) ∈ all_labels committed kept → (i < length items)%nat.
Proof.
  intros H. assert (∃ c, i ∈ ids_of items c) as [c Hc].
  { unfold all_labels in H. rewrite !elem_of_app in H.
    destruct H as [H|[H|[H|H]]].
    - exists Whole. unfold refused_ids in H. apply list_elem_of_fmap in H as (j & [= -> ->] & Hj).
      by apply elem_of_drop_1 in Hj.
    - exists Owed. by eapply elem_of_run_labels.
    - exists Whole. assert (i ∈ (whole_labels b items fixed committed kept).*1) as Hi.
      { apply list_elem_of_fmap. by exists (i, p). }
      rewrite whole_labels_fst in Hi. by apply elem_of_take_1 in Hi.
    - exists Spannable. change (i ∈ span_ids items). rewrite <-(spans_at_fst kept).
      apply list_elem_of_fmap. by exists (i, p). }
  apply elem_of_ids_of, fmap_Some in Hc as (it & Hc & _). by apply lookup_lt_Some in Hc.
Qed.

(** The final label of a unit: the one its class's step gave it, or, for an
    owed run the loop never reached, the initial [Deferred]. *)
Lemma placed_spec committed kept pl i p :
  place_shape b items fixed committed kept pl →
  pl_placed pl !! i = Some p ↔
  (i, p) ∈ all_labels committed kept ∨
  ((i < length items)%nat ∧ i ∉ (all_labels committed kept).*1 ∧ p = Deferred).
Proof.
  intros [_ -> _ _ _]. fold (all_labels committed kept).
  destruct (decide (i < length items)%nat) as [Hi|Hi].
  - rewrite assign_all_lookup.
    + rewrite lookup_replicate. naive_solver.
    + apply all_labels_NoDup.
    + by rewrite length_replicate.
  - rewrite lookup_ge_None_2 by (rewrite assign_all_length, length_replicate; lia).
    split; [done|]. intros [H|[? _]]; [|done]. by apply labels_length in H.
Qed.
End located.

(** ** Theorems *)

(** The sizes of one tape's plan fit a [u64] (16 EiB): no sum of the code's
    wraps or saturates. *)
Record well_sized (fixed : Z) (items : list PlanItem) : Prop := {
  ws_fixed : 0 ≤ fixed;
  ws_items : Forall (λ it, 0 ≤ item_bytes it) items;
  ws_total : fixed + sumZ (item_bytes <$> items) ≤ u64_max;
}.

Section sizes.
Variable items : list PlanItem.

Lemma bytes_at_nonneg i : Forall (λ it, 0 ≤ item_bytes it) items → 0 ≤ bytes_at items i.
Proof.
  intros H. unfold bytes_at. destruct (items !! i) as [it|] eqn:Hi; simpl; [|lia].
  by eapply Forall_lookup_1 in H.
Qed.

Lemma sizes_nonneg ids :
  Forall (λ it, 0 ≤ item_bytes it) items → Forall (λ s, 0 ≤ s) (sizes items ids).
Proof.
  intros H. unfold sizes. apply Forall_fmap, Forall_true. intros i. by apply bytes_at_nonneg.
Qed.

Lemma sizes_app ids ids' : sizes items (ids ++ ids') = sizes items ids ++ sizes items ids'.
Proof. apply fmap_app. Qed.

Lemma sizes_seq : sizes items (seq 0 (length items)) = item_bytes <$> items.
Proof.
  unfold sizes, bytes_at. apply list_eq. intros i. rewrite !list_lookup_fmap.
  destruct (items !! i) as [it|] eqn:Hi.
  - rewrite lookup_seq_lt by (by apply lookup_lt_Some in Hi). simpl. by rewrite Hi.
  - rewrite lookup_seq_ge by (by apply lookup_ge_None in Hi). done.
Qed.

(** A set of distinct units weighs no more than the whole plan. *)
Lemma sizes_sum_le ids :
  Forall (λ it, 0 ≤ item_bytes it) items → NoDup ids →
  (∀ i, i ∈ ids → (i < length items)%nat) →
  sumZ (sizes items ids) ≤ sumZ (item_bytes <$> items).
Proof.
  intros Hs Hnd Hin. rewrite <-sizes_seq. apply sumZ_submseteq; [by apply sizes_nonneg|].
  unfold sizes. apply fmap_submseteq, NoDup_submseteq; [done|].
  intros i Hi%Hin. apply elem_of_seq. lia.
Qed.

Lemma end_of_foldl e ids : end_of items e ids = foldl sat_add64 e (sizes items ids).
Proof. unfold end_of, sizes. by rewrite foldl_fmap. Qed.

Lemma end_of_exact e ids :
  Forall (λ it, 0 ≤ item_bytes it) items → 0 ≤ e → e + sumZ (sizes items ids) ≤ u64_max →
  end_of items e ids = e + sumZ (sizes items ids).
Proof. intros. rewrite end_of_foldl. apply foldl_sat_add64_exact; [by apply sizes_nonneg|done..]. Qed.

Lemma tape_walk_pointwise b placed e ids :
  (∀ n i, ids !! n = Some i →
     placed !! i = Some (label_at b (end_of items e (take (S n) ids)))) →
  tape_walk b items placed e ids.
Proof.
  revert e. induction ids as [|i ids IH]; intros e H; simpl; [done|].
  split; [apply (H 0%nat i eq_refl)|]. apply IH. intros n j Hj. apply (H (S n) j Hj).
Qed.
End sizes.

Section results.
Variable b : CapacityBudget.
Variable items : list PlanItem.
Variable fixed : Z.
Hypothesis Hws : well_sized fixed items.

Lemma fixed_le_max : fixed ≤ u64_max.
Proof.
  destruct Hws as [H0 Hi Ht]. pose proof (sumZ_nonneg (item_bytes <$> items)) as Hs.
  assert (Forall (λ x, 0 ≤ x) (item_bytes <$> items)) as Hf by by apply Forall_fmap.
  specialize (Hs Hf). lia.
Qed.

Lemma order_ids_bounded kept i :
  i ∈ (owed_run b items fixed).*1 ++ take kept (held_ids b items fixed) →
  (i < length items)%nat.
Proof.
  intros [H|H]%elem_of_app.
  - apply list_elem_of_fmap in H as ([j p] & -> & H). simpl.
    apply (labels_length b items fixed 0 0 j p). unfold all_labels. rewrite !elem_of_app. auto.
  - apply elem_of_take_1, elem_of_take_1, elem_of_ids_of in H.
    apply fmap_Some in H as (it & H & _). by apply lookup_lt_Some in H.
Qed.

Lemma order_ids_NoDup kept :
  NoDup ((owed_run b items fixed).*1 ++ take kept (held_ids b items fixed)).
Proof.
  pose proof (all_labels_NoDup b items fixed 0 kept) as H.
  unfold all_labels in H. rewrite !fmap_app, whole_labels_fst in H.
  apply NoDup_app in H as (_ & _ & H). rewrite app_assoc in H.
  apply NoDup_app in H as (H & _ & _).
  eapply sublist_NoDup; [exact H|]. apply sublist_app; [done|]. apply sublist_take.
Qed.

(** Before the spannable sets the plan's end is exact. *)
Lemma span_start_exact kept :
  span_start b items fixed kept =
  end_of items (owed_end b items fixed) (take kept (held_ids b items fixed)).
Proof.
  destruct Hws as [H0 Hi Ht]. set (K := take kept (held_ids b items fixed)).
  pose proof (sizes_sum_le items _ Hi (order_ids_NoDup kept) (order_ids_bounded kept)) as Hle.
  fold K in Hle. rewrite sizes_app, sumZ_app in Hle.
  pose proof (sumZ_nonneg _ (sizes_nonneg items (owed_run b items fixed).*1 Hi)) as Ho.
  pose proof (sumZ_nonneg _ (sizes_nonneg items K Hi)) as HK.
  unfold span_start, bytes_of, owed_end. fold K.
  rewrite (end_of_exact items fixed) by (done || lia).
  rewrite end_of_exact by (done || lia).
  rewrite sum64_exact by (lia || by apply sizes_nonneg).
  apply sat_add64_exact. lia.
Qed.

Lemma kept_walk committed kept pl :
  place_shape b items fixed committed kept pl →
  tape_walk b items (pl_placed pl) (owed_end b items fixed)
    (take kept (held_ids b items fixed)).
Proof.
  intros Hpl. destruct (shape_kept _ _ _ _ _ _ Hpl) as [->|(_ & past & Hrun)]; [done|].
  apply tape_walk_pointwise. intros n i Hn.
  pose proof (lookup_lt_Some _ _ _ Hn) as Hlt. rewrite length_take in Hlt.
  rewrite lookup_take_lt in Hn by lia.
  assert ((i, whole_label committed kept n) ∈ whole_labels b items fixed committed kept) as Hin.
  { unfold whole_labels. by apply (elem_of_lookup_imap_2 (λ n i, (i, whole_label committed kept n))). }
  rewrite (proj2 (placed_spec b items fixed committed kept pl i _ Hpl)
    (or_introl (proj2 (elem_of_app _ _ _) (or_intror (proj2 (elem_of_app _ _ _)
      (or_intror (proj2 (elem_of_app _ _ _) (or_introl Hin)))))))).
  f_equal. rewrite end_of_foldl, take_take, Nat.min_l by lia.
  unfold sizes at 1. rewrite fmap_take. fold (sizes items (held_ids b items fixed)).
  change (foldl _ _ _) with
    (end_after (owed_end b items fixed) (sizes items (held_ids b items fixed)) (S n)).
  destruct Hws as [H0 Hi Ht]. unfold whole_run in Hrun.
  pose proof (whole_run_loop_le b past (sizes items (held_ids b items fixed))
    (owed_end b items fixed) false) as Hle.
  rewrite <-Hrun in Hle. simpl in Hle.
  rewrite (whole_run_loop_label b past _ _ false n); rewrite <-?Hrun; simpl.
  - unfold whole_label. rewrite Nat.min_l by lia. case_bool_decide; [done|].
    by rewrite bool_decide_eq_true_2 by lia.
  - by apply sizes_nonneg.
  - apply end_of_bound, fixed_le_max.
  - done.
  - lia.
Qed.

Lemma placed_walk :
  tape_walk b items (pl_placed (place b fixed items)) fixed (pl_order (place b fixed items)).
Proof.
  destruct (place_has_shape b items fixed fixed_le_max) as (committed & kept & Hpl).
  rewrite (shape_order _ _ _ _ _ _ Hpl), !tape_walk_app.
  assert (∀ i p, (i, p) ∈ all_labels b items fixed committed kept →
    pl_placed (place b fixed items) !! i = Some p) as Hall.
  { intros i p H. apply (placed_spec b items fixed committed kept _ i p Hpl). by left. }
  unfold all_labels in Hall. setoid_rewrite elem_of_app in Hall.
  setoid_rewrite elem_of_app in Hall. setoid_rewrite elem_of_app in Hall.
  split; [apply run_labels_walk; auto|].
  split; [by apply (kept_walk committed)|].
  fold (owed_end b items fixed). rewrite <-span_start_exact.
  unfold spans_at in *. destruct (owed_open b items fixed).
  - rewrite span_labels_planned. apply run_labels_planned_walk. intros i p H. apply Hall.
    do 3 right. unfold span_labels. apply elem_of_app. by left.
  - unfold planned_ids. clear. induction (span_ids items) as [|i l IH]; simpl; [done|].
    rewrite filter_cons_False; [done|]. simpl. intros [? _]. done.
Qed.

(** C32: the plan order places every unit where the tape really is. Walking the
    order from the fixed files, each unit is labelled by the plan's end at it:
    [Committed] while the end plus the reserve is under the fill ceiling,
    [PastCeiling] while it stays within the plan bound, [Tail] for one that
    crosses the bound, [Refused] only without a bound. *)
Theorem place_tape_walk :
  tape_walk b items (pl_placed (place b fixed items)) fixed (pl_order (place b fixed items)).
Proof. exact placed_walk. Qed.

Lemma elem_of_planned_ids ps i :
  i ∈ planned_ids ps ↔ ∃ p, (i, p) ∈ ps ∧ p ≠ Deferred ∧ p ≠ Refused.
Proof.
  unfold planned_ids. rewrite list_elem_of_fmap. split.
  - intros ([j p] & -> & [[Hd Hr] Hin]%list_elem_of_filter). by exists p.
  - intros (p & H & ? & ?). exists (i, p). split; [done|]. by apply list_elem_of_filter.
Qed.

(** The tape's units, in order and once each. *)
Lemma order_NoDup committed kept pl :
  place_shape b items fixed committed kept pl → NoDup (pl_order pl).
Proof.
  intros Hpl. rewrite (shape_order _ _ _ _ _ _ Hpl), app_assoc.
  apply NoDup_app. split; [apply order_ids_NoDup|]. split.
  - intros i Hi (p & Hp & _)%elem_of_planned_ids.
    assert (i ∈ span_ids items) as Hs.
    { rewrite <-(spans_at_fst b items fixed kept). apply list_elem_of_fmap. by exists (i, p). }
    apply elem_of_ids_of in Hs. apply elem_of_app in Hi as [Hi|Hi].
    + apply list_elem_of_fmap in Hi as ([j q] & -> & Hq). simpl in *.
      apply elem_of_run_labels, elem_of_ids_of in Hq. congruence.
    + apply elem_of_take_1, elem_of_take_1, elem_of_ids_of in Hi. congruence.
  - unfold planned_ids. eapply sublist_NoDup; [|apply fmap_sublist, sublist_filter].
    rewrite spans_at_fst. apply ids_of_NoDup.
Qed.

Lemma elem_of_whole_labels committed kept i p :
  (i, p) ∈ whole_labels b items fixed committed kept ↔
  ∃ n, held_ids b items fixed !! n = Some i ∧ p = whole_label committed kept n.
Proof.
  unfold whole_labels. rewrite elem_of_lookup_imap. naive_solver.
Qed.

Lemma whole_label_kept committed kept n p :
  p = whole_label committed kept n → p ≠ Refused ∧ p ≠ Tail ∧ (p ≠ Deferred ↔ (n < kept)%nat).
Proof.
  unfold whole_label. intros ->.
  case_bool_decide; [|case_bool_decide]; repeat split; try done; try lia.
Qed.

Lemma order_holds :
  let pl := place b fixed items in
  NoDup (pl_order pl) ∧
  ∀ i, i ∈ pl_order pl ↔
    ∃ p, pl_placed pl !! i = Some p ∧ p ≠ Deferred ∧
         (p = Refused → item_class <$> items !! i = Some Owed).
Proof.
  destruct (place_has_shape b items fixed fixed_le_max) as (committed & kept & Hpl).
  split; [by eapply order_NoDup|]. intros i.
  setoid_rewrite (placed_spec b items fixed committed kept _ i _ Hpl).
  rewrite (shape_order _ _ _ _ _ _ Hpl), !elem_of_app, elem_of_planned_ids.
  unfold all_labels. setoid_rewrite elem_of_app. setoid_rewrite elem_of_app.
  setoid_rewrite elem_of_app. split.
  - intros [Hi|[Hi|(p & Hp & Hd & Hr)]].
    + apply list_elem_of_fmap in Hi as ([j p] & -> & Hp). exists p. split; [auto|]. split.
      * intros ->. by apply run_labels_not_deferred in Hp.
      * intros _. apply elem_of_ids_of. by eapply elem_of_run_labels.
    + apply list_elem_of_lookup in Hi as (n & Hn).
      pose proof (lookup_lt_Some _ _ _ Hn) as Hlt. rewrite length_take in Hlt.
      rewrite lookup_take_lt in Hn by lia.
      destruct (whole_label_kept committed kept n _ eq_refl) as (HR & HT & HD).
      exists (whole_label committed kept n). split; [|split; [apply HD; lia|done]].
      left. do 2 right. left. apply elem_of_whole_labels. by exists n.
    + exists p. split; [auto|]. done.
  - intros (p & Hp & Hd & Hr). destruct Hp as [[Hp|[Hp|[Hp|Hp]]]|(_ & _ & ?)]; [| | | |done].
    + unfold refused_ids in Hp. apply list_elem_of_fmap in Hp as (j & [= -> ->] & Hj).
      apply elem_of_drop_1, elem_of_ids_of in Hj. specialize (Hr eq_refl). congruence.
    + left. apply list_elem_of_fmap. by exists (i, p).
    + apply elem_of_whole_labels in Hp as (n & Hn & Hp).
      destruct (whole_label_kept _ _ _ _ Hp) as (HR & HT & HD). apply HD in Hd.
      right. left. apply (list_elem_of_lookup_2 _ n). by rewrite lookup_take_lt.
    + right. right. exists p. split; [done|]. split; [done|]. intros ->.
      specialize (Hr eq_refl). assert (i ∈ span_ids items) as Hs.
      { rewrite <-(spans_at_fst b items fixed kept). apply list_elem_of_fmap. by exists (i, Refused). }
      apply elem_of_ids_of in Hs. congruence.
Qed.

(** The order holds each planned unit exactly once, and nothing that
    waits: a unit is in it iff it is committed, past the ceiling or the tail,
    or is an owed run refused for want of a plan bound. *)
Theorem place_order_exact :
  let pl := place b fixed items in
  NoDup (pl_order pl) ∧
  ∀ i, i ∈ pl_order pl ↔
    ∃ p, pl_placed pl !! i = Some p ∧ p ≠ Deferred ∧
         (p = Refused → item_class <$> items !! i = Some Owed).
Proof. exact order_holds. Qed.

(** The labels a unit may be the tail by. *)
Lemma tail_is_span committed kept t :
  (t, Tail) ∈ all_labels b items fixed committed kept →
  (t, Tail) ∈ owed_run b items fixed ∨
  (owed_open b items fixed = true ∧
   (t, Tail) ∈ run_labels b items (span_start b items fixed kept) (span_ids items)).
Proof.
  unfold all_labels. rewrite !elem_of_app. intros [H|[H|[H|H]]].
  - unfold refused_ids in H. by apply list_elem_of_fmap in H as (? & [= ] & _).
  - by left.
  - apply elem_of_whole_labels in H as (n & _ & H). by apply whole_label_kept in H as (_ & ? & _).
  - unfold spans_at in H. destruct (owed_open b items fixed).
    + right. split; [done|]. unfold span_labels in H. apply elem_of_app in H as [H|H]; [done|].
      apply list_elem_of_fmap in H as (? & [= -> H] & _).
      destruct (fill_label_cases (run_labels b items (span_start b items fixed kept) (span_ids items)));
        congruence.
    + by apply list_elem_of_fmap in H as (? & [= ] & _).
Qed.

Lemma last_fst (l : list (nat * Placed)) i p : last l = Some (i, p) → last l.*1 = Some i.
Proof. rewrite fmap_last. by intros ->. Qed.

Lemma tail_ends_order t :
  pl_placed (place b fixed items) !! t = Some Tail →
  last (pl_order (place b fixed items)) = Some t ∧
  tail_of (place b fixed items) = Some t ∧
  item_class <$> items !! t ≠ Some Whole.
Proof.
  destruct (place_has_shape b items fixed fixed_le_max) as (committed & kept & Hpl).
  assert (∀ u, pl_placed (place b fixed items) !! u = Some Tail →
    last (pl_order (place b fixed items)) = Some u ∧ item_class <$> items !! u ≠ Some Whole) as Hmain.
  { intros u Hu. apply (placed_spec b items fixed committed kept _ u _ Hpl) in Hu.
    destruct Hu as [Hu|(_ & _ & ?)]; [|done].
    rewrite (shape_order _ _ _ _ _ _ Hpl).
    apply tail_is_span in Hu as [Hu|[Ho Hu]].
    - pose proof (run_labels_stop_last _ _ _ _ _ _ Hu eq_refl) as Hl. fold (owed_run b items fixed) in Hl.
      assert (owed_open b items fixed = false) as Ho by (unfold owed_open; by rewrite Hl).
      destruct (shape_kept _ _ _ _ _ _ Hpl) as [->|[? _]]; [|congruence].
      assert (planned_ids (spans_at b items fixed 0) = []) as ->.
      { unfold spans_at. rewrite Ho. clear. unfold planned_ids.
        induction (span_ids items) as [|i l IH]; simpl; [done|].
        rewrite filter_cons_False; [done|]. simpl. intros [? _]. done. }
      simpl. rewrite app_nil_r. split; [by eapply last_fst|].
      apply elem_of_run_labels, elem_of_ids_of in Hu. congruence.
    - assert (planned_ids (spans_at b items fixed kept) =
        planned_ids (run_labels b items (span_start b items fixed kept) (span_ids items))) as ->.
      { unfold spans_at. rewrite Ho. apply span_labels_planned. }
      split.
      + pose proof (run_labels_stop_last _ _ _ _ _ _ Hu eq_refl) as Hl.
        apply last_Some in Hl as (l' & Hl). rewrite Hl, planned_ids_app, app_assoc.
        unfold planned_ids at 2. rewrite filter_cons_True by done.
        rewrite app_assoc. simpl. by rewrite last_snoc.
      + apply elem_of_run_labels, elem_of_ids_of in Hu. congruence. }
  intros Ht. destruct (Hmain t Ht) as [Hl Hc]. split; [done|]. split; [|done].
  unfold tail_of. destruct (position _ (pl_placed _)) as [u|] eqn:Hp.
  - apply position_Some in Hp as [(x & Hx & ->%bool_decide_eq_true) _].
    destruct (Hmain u Hx) as [Hl' _]. congruence.
  - apply position_None in Hp. eapply Forall_lookup_1 in Hp; [|exact Ht].
    by rewrite bool_decide_eq_true_2 in Hp.
Qed.

(** Only a span ends past the plan bound, and it ends the tape: the unit
    placed as [Tail] is the last of the order (so there is at most one), it
    is not a whole unit, and nothing is planned after it. *)
Theorem place_tail_last t :
  pl_placed (place b fixed items) !! t = Some Tail →
  last (pl_order (place b fixed items)) = Some t ∧
  tail_of (place b fixed items) = Some t ∧
  item_class <$> items !! t ≠ Some Whole.
Proof. exact (tail_ends_order t). Qed.

Lemma placed_length : length (pl_placed (place b fixed items)) = length items.
Proof.
  destruct (place_has_shape b items fixed fixed_le_max) as (committed & kept & Hpl).
  by rewrite (shape_placed _ _ _ _ _ _ Hpl), assign_all_length, length_replicate.
Qed.

(** The order is a set of the plan's units. *)
Lemma placed_order_NoDup : NoDup (pl_order (place b fixed items)).
Proof.
  destruct (place_has_shape b items fixed fixed_le_max) as (committed & kept & Hpl).
  by eapply order_NoDup.
Qed.

Lemma placed_order_bounded i : i ∈ pl_order (place b fixed items) → (i < length items)%nat.
Proof.
  destruct (place_has_shape b items fixed fixed_le_max) as (committed & kept & Hpl).
  rewrite (shape_order _ _ _ _ _ _ Hpl), app_assoc, elem_of_app. intros [Hi|Hi].
  - by eapply order_ids_bounded.
  - apply elem_of_planned_ids in Hi as (p & Hp & _).
    assert (i ∈ span_ids items) as Hs.
    { rewrite <-(spans_at_fst b items fixed kept). apply list_elem_of_fmap. by exists (i, p). }
    unfold span_ids, ids_of in Hs. apply list_elem_of_filter in Hs as [_ Hs%elem_of_seq]. lia.
Qed.

(** The plan's end after a prefix of the order is exact. *)
Lemma placed_end_exact k :
  0 ≤ sumZ (sizes items (take k (pl_order (place b fixed items)))) ≤ u64_max - fixed ∧
  end_of items fixed (take k (pl_order (place b fixed items))) =
    fixed + sumZ (sizes items (take k (pl_order (place b fixed items)))).
Proof.
  destruct Hws as [Hf Hi Ht].
  assert (sumZ (sizes items (take k (pl_order (place b fixed items)))) ≤
          sumZ (item_bytes <$> items)) as Hle.
  { apply sizes_sum_le; [done| |].
    - eapply sublist_NoDup; [apply placed_order_NoDup|apply sublist_take].
    - intros i Hin%elem_of_take_1. by apply placed_order_bounded. }
  pose proof (sumZ_nonneg _ (sizes_nonneg items (take k (pl_order (place b fixed items))) Hi)).
  split; [lia|]. apply end_of_exact; [done|done|lia].
Qed.

Lemma run_labels_refused e ids i :
  (i, Refused) ∈ run_labels b items e ids → last (run_labels b items e ids) = Some (i, Refused).
Proof. intros H. by apply (run_labels_stop_last _ _ _ _ _ _ H). Qed.

Lemma ok_iff_no_refusal :
  placement_is_ok (place b fixed items) = true ↔
  Refused ∉ pl_placed (place b fixed items).
Proof.
  destruct (place_has_shape b items fixed fixed_le_max) as (committed & kept & Hpl).
  assert (placement_is_ok (place b fixed items) = true ↔ pl_errors (place b fixed items) = []) as ->.
  { unfold placement_is_ok. by destruct (pl_errors _). }
  rewrite (shape_errors _ _ _ _ _ _ Hpl).
  assert (Refused ∈ pl_placed (place b fixed items) ↔
    ∃ i, (i, Refused) ∈ all_labels b items fixed committed kept) as Hin.
  { rewrite list_elem_of_lookup. apply exist_proper. intros i.
    rewrite (placed_spec b items fixed committed kept _ i _ Hpl). naive_solver. }
  rewrite Hin. unfold all_labels. setoid_rewrite elem_of_app. setoid_rewrite elem_of_app.
  setoid_rewrite elem_of_app. split.
  - intros (Hh & Ho & Hs) (i & [H|[H|[H|H]]]).
    + unfold refused_ids in H. rewrite drop_ge in H by lia. by apply not_elem_of_nil in H.
    + apply run_labels_refused in H. by apply (Ho i).
    + apply elem_of_whole_labels in H as (n & _ & H). by apply whole_label_kept in H as (? & _).
    + unfold spans_at in H. destruct (owed_open b items fixed) eqn:Hop.
      * specialize (Hs Hop). unfold span_labels in H. apply elem_of_app in H as [H|H].
        -- apply run_labels_refused in H. unfold fill_label in Hs. by rewrite H in Hs.
        -- apply list_elem_of_fmap in H as (? & [= -> H] & _). congruence.
      * by apply list_elem_of_fmap in H as (? & [= ] & _).
  - intros H. repeat split.
    + destruct (drop (held b items fixed) (whole_ids items)) as [|i l] eqn:Hd.
      * apply (f_equal length) in Hd. rewrite length_drop in Hd. simpl in Hd.
        pose proof (held_le b items fixed). lia.
      * destruct H. exists i. left. unfold refused_ids. rewrite Hd. by left.
    + intros i Hl. destruct H. exists i. right. left.
      apply last_Some in Hl as (l' & ->). apply elem_of_app. right. by left.
    + intros Ho. destruct (fill_label_cases (run_labels b items (span_start b items fixed kept)
        (span_ids items))) as [|Hr]; [done|]. destruct H.
      unfold fill_label in Hr. destruct (last _) as [[i []]|] eqn:Hl; try done.
      exists i. do 3 right. unfold spans_at. rewrite Ho. unfold span_labels.
      apply elem_of_app. left. apply last_Some in Hl as (l' & ->). apply elem_of_app. right. by left.
Qed.

(** A plan is refused exactly when a unit is: the error list is empty iff
    no unit is placed [Refused], so a placement that [is_ok] loses no unit. *)
Theorem place_errors_exact :
  placement_is_ok (place b fixed items) = true ↔
  Refused ∉ pl_placed (place b fixed items).
Proof. exact ok_iff_no_refusal. Qed.

(** A tail that is spannable ends the spans' run. *)
Lemma spannable_tail_run committed kept t :
  place_shape b items fixed committed kept (place b fixed items) →
  pl_placed (place b fixed items) !! t = Some Tail →
  item_class <$> items !! t = Some Spannable →
  owed_open b items fixed = true ∧
  last (run_labels b items (span_start b items fixed kept) (span_ids items)) = Some (t, Tail).
Proof.
  intros Hpl Ht Hc.
  apply (placed_spec b items fixed committed kept _ t _ Hpl) in Ht as [Ht|(_ & _ & ?)]; [|done].
  apply tail_is_span in Ht as [Ht|[Ho Ht]].
  - apply elem_of_run_labels, elem_of_ids_of in Ht. congruence.
  - split; [done|]. by eapply run_labels_stop_last.
Qed.

(** A set larger than one tape starts right after the owed runs: when the
    plan's tail is a spannable set larger than the room one tape has under
    the plan bound, no whole unit is on the tape before it. *)
Theorem place_large_span_first t :
  pl_placed (place b fixed items) !! t = Some Tail →
  item_class <$> items !! t = Some Spannable →
  larger_than_one_tape b fixed (bytes_at items t) = true →
  ∀ i, i ∈ pl_order (place b fixed items) → item_class <$> items !! i ≠ Some Whole.
Proof.
  intros Ht Hc Hl i.
  destruct (place_has_shape b items fixed fixed_le_max) as (committed & kept & Hpl).
  destruct (spannable_tail_run _ _ _ Hpl Ht Hc) as [Ho Hlast].
  assert (kept = 0%nat) as ->.
  { destruct (decide (kept = 0%nat)); [done|].
    rewrite (shape_span_first _ _ _ _ _ _ Hpl t) in Hl; [done|lia|done..]. }
  rewrite (shape_order _ _ _ _ _ _ Hpl), take_0, !elem_of_app.
  intros [Hi|[Hi|Hi]]; [|by apply not_elem_of_nil in Hi|].
  - apply list_elem_of_fmap in Hi as ([j q] & -> & Hq).
    apply elem_of_run_labels, elem_of_ids_of in Hq. simpl. congruence.
  - apply elem_of_planned_ids in Hi as (p & Hp & _).
    assert (i ∈ span_ids items) as Hs%elem_of_ids_of; [|congruence].
    rewrite <-(spans_at_fst b items fixed 0). apply list_elem_of_fmap. by exists (i, p).
Qed.

Lemma ids_of_all_whole :
  Forall (λ it, item_class it = Whole) items →
  ids_of items Owed = [] ∧ ids_of items Spannable = [] ∧
  ids_of items Whole = seq 0 (length items).
Proof.
  intros Hw. assert (∀ i it, items !! i = Some it → item_class it = Whole) as Hl.
  { intros i it Hi. by eapply Forall_lookup_1 in Hw. }
  repeat split.
  - apply elem_of_nil_inv. intros i (it & Hi & Hc)%elem_of_ids_of%fmap_Some.
    rewrite (Hl i it Hi) in Hc. done.
  - apply elem_of_nil_inv. intros i (it & Hi & Hc)%elem_of_ids_of%fmap_Some.
    rewrite (Hl i it Hi) in Hc. done.
  - unfold ids_of. apply filter_all. intros i Hi%elem_of_seq.
    destruct (lookup_lt_is_Some_2 items i) as [it Hit]; [lia|]. rewrite Hit. simpl.
    by rewrite (Hl i it Hit).
Qed.

Lemma whole_plan_is_split :
  Forall (λ it, item_class it = Whole) items →
  let s := split b fixed (item_bytes <$> items) in
  let pl := place b fixed items in
  pl_order pl = seq 0 (ps_planned s) ∧
  (∀ i, (i < length items)%nat → pl_placed pl !! i =
    Some (if bool_decide (i < ps_committed s)%nat then Committed
          else if bool_decide (i < ps_planned s)%nat then PastCeiling else Refused)) ∧
  placement_is_ok pl = fits s.
Proof.
  intros Hw. destruct (ids_of_all_whole Hw) as (Howed & Hspan & Hwhole).
  destruct (place_has_shape b items fixed fixed_le_max) as (committed & kept & Hpl).
  assert (owed_run b items fixed = []) as Hrun by (unfold owed_run; by rewrite Howed).
  assert (owed_open b items fixed = true) as Hopen by (unfold owed_open; by rewrite Hrun).
  assert (owed_end b items fixed = fixed) as Hend by (unfold owed_end; by rewrite Hrun).
  pose proof (shape_no_span _ _ _ _ _ _ Hpl Hspan Hopen) as Hk.
  rewrite Hend in Hk. unfold held_ids, whole_ids in Hk. rewrite Hwhole in Hk.
  unfold sizes in Hk. rewrite fmap_take in Hk. fold (sizes items (seq 0 (length items))) in Hk.
  rewrite sizes_seq in Hk.
  assert (held b items fixed = ps_planned (split b fixed (item_bytes <$> items))) as Hheld.
  { unfold held, whole_ids. rewrite Hwhole, sizes_seq. unfold split. clear. by destruct (whole_run _ _ _ _). }
  assert ((committed, kept) = (ps_committed (split b fixed (item_bytes <$> items)),
    ps_planned (split b fixed (item_bytes <$> items)))) as [= -> ->].
  { rewrite Hk. unfold held, whole_run, whole_ids. rewrite Hwhole, sizes_seq.
    rewrite whole_run_loop_take. unfold split, whole_run. clear. by destruct (whole_run_loop _ _ _ _ _ _ _). }
  clear Hk. set (s := split b fixed (item_bytes <$> items)) in *.
  assert (ps_committed s ≤ ps_planned s ≤ length items)%nat as Hle.
  { pose proof (whole_run_loop_le b true (item_bytes <$> items) fixed false) as Hle.
    rewrite length_fmap in Hle. subst s. unfold split, whole_run.
    destruct (whole_run_loop _ _ _ _ _ _ _); simpl in *; lia. }
  assert (held_ids b items fixed = seq 0 (ps_planned s)) as Hids.
  { unfold held_ids, whole_ids. rewrite Hwhole, Hheld, take_seq, Nat.min_l by lia. done. }
  simpl. split; [|split].
  - rewrite (shape_order _ _ _ _ _ _ Hpl), Hrun, Hids. simpl.
    unfold spans_at, span_ids. rewrite Hopen, Hspan. simpl.
    rewrite take_seq, Nat.min_l, app_nil_r by lia. done.
  - intros i Hi. apply (placed_spec b items fixed _ _ _ i _ Hpl). left.
    unfold all_labels. rewrite !elem_of_app.
    destruct (decide (i < ps_planned s)%nat) as [Hp|Hp].
    + do 2 right. left. apply elem_of_whole_labels. exists i.
      rewrite Hids, lookup_seq_lt by done. split; [done|]. unfold whole_label.
      rewrite Nat.min_l by lia. case_bool_decide; [done|]. by rewrite !bool_decide_eq_true_2.
    + left. unfold refused_ids. apply list_elem_of_fmap. exists i.
      rewrite !bool_decide_eq_false_2 by lia. split; [done|].
      unfold whole_ids. rewrite Hwhole, Hheld, drop_seq. apply elem_of_seq. lia.
  - apply eq_bool_prop_intro. rewrite !Is_true_true.
    assert (placement_is_ok (place b fixed items) = true ↔ pl_errors (place b fixed items) = []) as ->.
    { unfold placement_is_ok. by destruct (pl_errors _). }
    rewrite (shape_errors _ _ _ _ _ _ Hpl), Hheld, Hrun. unfold whole_ids. rewrite Hwhole, length_seq.
    unfold spans_clean, span_ids. rewrite Hspan. unfold fits. rewrite bool_decide_eq_true.
    assert (ps_units s = length items) as ->.
    { subst s. unfold split. destruct (whole_run _ _ _ _). simpl. by rewrite length_fmap. }
    simpl. split; [by intros [? _]|]. intros ->. by repeat split.
Qed.

(** Whole units alone are planned exactly as [split] splits them: the
    first [committed] under the ceiling, the next to [planned] past it, the
    rest refused, in the caller's order and none deferred; the plan is
    accepted iff every unit fits. *)
Theorem place_whole_is_split :
  Forall (λ it, item_class it = Whole) items →
  let s := split b fixed (item_bytes <$> items) in
  let pl := place b fixed items in
  pl_order pl = seq 0 (ps_planned s) ∧
  (∀ i, (i < length items)%nat → pl_placed pl !! i =
    Some (if bool_decide (i < ps_committed s)%nat then Committed
          else if bool_decide (i < ps_planned s)%nat then PastCeiling else Refused)) ∧
  placement_is_ok pl = fits s.
Proof. exact whole_plan_is_split. Qed.
End results.

(** ** Concrete plans *)

Definition sample_budget : CapacityBudget := mkCapacityBudget 10 0 (Some 12) None.
Definition sample_spans : list PlanItem :=
  [mkPlanItem Spannable 5; mkPlanItem Spannable 8; mkPlanItem Spannable 3].
Definition sample_whole : list PlanItem :=
  [mkPlanItem Whole 5; mkPlanItem Whole 6; mkPlanItem Whole 3].

Lemma sample_spans_sized : well_sized 1 sample_spans.
Proof. split; [lia|repeat constructor; simpl; lia|vm_compute; congruence]. Defined.
Lemma sample_whole_sized : well_sized 1 sample_whole.
Proof. split; [lia|repeat constructor; simpl; lia|vm_compute; congruence]. Defined.

Example place_spans_sample :
  place sample_budget 1 sample_spans =
  mkPlacement [0; 1]%nat [Committed; Tail; Deferred] [].
Proof. vm_compute. reflexivity. Qed.

Example place_whole_sample :
  place sample_budget 1 sample_whole =
  mkPlacement [0; 1]%nat [Committed; PastCeiling; Refused] [PlanBoundExceeded 15 12].
Proof. vm_compute. reflexivity. Qed.

Lemma place_tape_walk_witness :
  tape_walk sample_budget sample_spans [Committed; Tail; Deferred] 1 [0; 1]%nat.
Proof. exact (place_tape_walk sample_budget sample_spans 1 sample_spans_sized). Defined.

Lemma place_order_exact_witness : NoDup (pl_order (place sample_budget 1 sample_spans)).
Proof. exact (proj1 (place_order_exact sample_budget sample_spans 1 sample_spans_sized)). Defined.

Lemma place_tail_last_witness : tail_of (place sample_budget 1 sample_spans) = Some 1%nat.
Proof.
  exact (proj1 (proj2 (place_tail_last sample_budget sample_spans 1 sample_spans_sized
    1%nat ltac:(vm_compute; reflexivity)))).
Defined.

Definition sample_large : list PlanItem :=
  [mkPlanItem Whole 4; mkPlanItem Spannable 20; mkPlanItem Whole 3].
Lemma sample_large_sized : well_sized 1 sample_large.
Proof. split; [lia|repeat constructor; simpl; lia|vm_compute; congruence]. Defined.

Lemma place_large_span_first_witness :
  item_class <$> sample_large !! 1%nat ≠ Some Whole.
Proof.
  apply (place_large_span_first sample_budget sample_large 1 sample_large_sized 1%nat
    ltac:(vm_compute; reflexivity) ltac:(reflexivity) ltac:(vm_compute; reflexivity)).
  vm_compute. left.
Defined.

Lemma place_errors_exact_witness :
  Refused ∉ pl_placed (place sample_budget 1 sample_spans).
Proof.
  apply (place_errors_exact sample_budget sample_spans 1 sample_spans_sized).
  vm_compute. reflexivity.
Defined.

Lemma place_whole_is_split_witness :
  placement_is_ok (place sample_budget 1 sample_whole) = false.
Proof.
  rewrite (proj2 (proj2 (place_whole_is_split sample_budget sample_whole 1 sample_whole_sized
    ltac:(repeat constructor)))).
  vm_compute. reflexivity.
Defined.

(** A refused owed run stays in the order, although the field's doc says
    no refused unit is: on a reel without a plan bound, one owed run past the
    fill ceiling is refused and yet listed first. *)
Theorem place_order_keeps_refused_owed :
  let pl := place (mkCapacityBudget 10 0 None None) 1 [mkPlanItem Owed 20] in
  pl_placed pl = [Refused] ∧ pl_order pl = [0%nat] ∧ placement_is_ok pl = false.
Proof. vm_compute. repeat split; reflexivity. Qed.
