(* ===== verification/Gate.v ===== *)
(** * The capacity gate and the pre-write predicate: theorems

    [Layout::on_tape_bytes], the gate ([capacity_errors_with_tail]) and its
    agreement with the planner ([place]), the last run of a span, the zone
    labels, and [Layout::validate] against a pointwise specification. *)

From stdpp Require Import pretty.
From S2P Require Import Prelude LayoutModel PlanOrder.
Local Open Scope Z_scope.
Local Open Scope rust_scope.

(** ** Sizes on the tape *)

(** [size] rounded up to whole blocks, exactly. *)
Definition padded (bs size : Z) : Z := div_ceil size bs * bs.

Definition entry_size (e : LayoutEntry) : Z := default 0 (le_size_bytes e).

(** What the tape holds of a list of entries. *)
Definition tape_bytes (bs : Z) (es : list LayoutEntry) : Z :=
  sumZ ((λ e, padded bs (entry_size e)) <$> es).

Definition slices (es : list LayoutEntry) : list LayoutEntry :=
  filter (λ e, is_slice (le_kind e) = true) es.
Definition slices_from (from : Z) (es : list LayoutEntry) : list LayoutEntry :=
  filter (λ e, is_slice (le_kind e) = true ∧ from ≤ le_position e) es.
Definition fixed_files (es : list LayoutEntry) : list LayoutEntry :=
  filter (λ e, is_slice (le_kind e) = false) es.

Definition sized (e : LayoutEntry) : Prop := is_Some (le_size_bytes e).
Definition tail_bytes (l : Layout) (tail_from : option Z) : Z :=
  from_option (λ from, tape_bytes (block_size l) (slices_from from (entries l))) 0 tail_from.

(** Every entry sized, the plan and the reserve within a [u64] (16 EiB). *)
Record fits_width (l : Layout) : Prop := {
  fw_block : 0 < block_size l;
  fw_sized : Forall sized (entries l);
  fw_sizes : Forall (λ e, 0 ≤ entry_size e) (entries l);
  fw_reserve : 0 ≤ reserve_bytes (budget l);
  fw_total : tape_bytes (block_size l) (entries l) + reserve_bytes (budget l) ≤ u64_max;
}.

Section padding.
Variable bs : Z.
Hypothesis Hbs : 0 < bs.

Lemma padded_nonneg size : 0 ≤ size → 0 ≤ padded bs size.
Proof. intros H. pose proof (div_ceil_spec size bs H Hbs). unfold padded. lia. Qed.

Lemma pad_to_blocks_exact size :
  0 ≤ size → padded bs size ≤ u64_max → pad_to_blocks size bs = padded bs size.
Proof.
  intros H Hm. unfold pad_to_blocks, mul64. apply wrap64_small.
  split; [by apply padded_nonneg|done].
Qed.

Lemma padded_sizes_nonneg es :
  Forall (λ e, 0 ≤ entry_size e) es → Forall (λ x, 0 ≤ x) ((λ e, padded bs (entry_size e)) <$> es).
Proof. intros H. apply Forall_fmap. eapply Forall_impl; [done|]. intros e. apply padded_nonneg. Qed.

Lemma tape_bytes_nonneg es : Forall (λ e, 0 ≤ entry_size e) es → 0 ≤ tape_bytes bs es.
Proof. intros. by apply sumZ_nonneg, padded_sizes_nonneg. Qed.

Lemma tape_bytes_sublist es es' :
  Forall (λ e, 0 ≤ entry_size e) es → es' `sublist_of` es → tape_bytes bs es' ≤ tape_bytes bs es.
Proof.
  intros H Hs. apply sumZ_submseteq; [by apply padded_sizes_nonneg|].
  by apply fmap_submseteq, sublist_submseteq.
Qed.

(** Fixed files and slices together are the plan. *)
Lemma tape_bytes_split es :
  tape_bytes bs es = tape_bytes bs (fixed_files es) + tape_bytes bs (slices es).
Proof.
  unfold tape_bytes, fixed_files, slices. induction es as [|e es IH]; [done|].
  destruct (is_slice (le_kind e)) eqn:He.
  - rewrite filter_cons_False, filter_cons_True by congruence. csimpl in *. lia.
  - rewrite filter_cons_True, filter_cons_False by congruence. csimpl in *. lia.
Qed.

Lemma omap_on_tape_bytes es :
  Forall sized es → Forall (λ e, 0 ≤ entry_size e) es → tape_bytes bs es ≤ u64_max →
  sum64 (omap (λ e, entry_on_tape_bytes e bs) es) = tape_bytes bs es.
Proof.
  intros Hs Hn Hm.
  assert (omap (λ e, entry_on_tape_bytes e bs) es = (λ e, padded bs (entry_size e)) <$> es) as ->.
  { revert Hn Hm. induction Hs as [|e es [n He] Hs IH]; intros Hn Hm; simpl; [done|].
    apply Forall_cons in Hn as [He0 Hn].
    assert (tape_bytes bs (e :: es) = padded bs (entry_size e) + tape_bytes bs es) as Hc by done.
    pose proof (tape_bytes_nonneg _ Hn) as Hp. pose proof (padded_nonneg _ He0).
    unfold entry_on_tape_bytes at 1. rewrite He. simpl.
    assert (entry_size e = n) as Hen by (unfold entry_size; by rewrite He). rewrite Hen in *.
    rewrite pad_to_blocks_exact by lia. csimpl. f_equal. apply IH; [done|lia]. }
  apply sum64_exact; [by apply padded_sizes_nonneg|done].
Qed.
End padding.

(** ** The gate *)

Section gate.
Variable l : Layout.
Local Abbreviation bs := (block_size l).
Local Abbreviation es := (entries l).

(** What a capacity check must promise of this Layout. *)
Definition gate_spec (available : Z) (tail_from : option Z) : Prop :=
  let reserve := reserve_bytes (budget l) in
  tape_bytes bs es + reserve ≤ available ∨
  ∃ bound, plan_bound_bytes (budget l) = Some bound ∧
    tape_bytes bs (fixed_files es) + reserve ≤ available ∧
    tape_bytes bs es - tail_bytes l tail_from ≤ bound.

Lemma on_tape_bytes_loop_errs total errs :
  (on_tape_bytes_loop l es total errs).2 =
  errs ++ ((λ e, Unsized (le_position e) (type_label (le_kind e))) <$>
    filter (λ e, le_size_bytes e = None) es).
Proof.
  revert total errs. induction es as [|e es' IH]; intros total errs; simpl.
  { by rewrite app_nil_r. }
  unfold entry_bytes, entry_on_tape_bytes. destruct (le_size_bytes e) eqn:He; simpl.
  - rewrite IH, filter_cons_False by congruence. done.
  - rewrite IH, filter_cons_True by congruence. by rewrite <-app_assoc.
Qed.

Lemma on_tape_bytes_loop_total total errs :
  (on_tape_bytes_loop l es total errs).1 =
  foldl add64 total (omap (λ e, entry_on_tape_bytes e bs) es).
Proof.
  revert total errs. induction es as [|e es' IH]; intros total errs; simpl; [done|].
  unfold entry_bytes. by destruct (entry_on_tape_bytes e bs) eqn:He; simpl; rewrite IH.
Qed.

Lemma total_exact :
  Forall sized es → 0 < bs → Forall (λ e, 0 ≤ entry_size e) es → tape_bytes bs es ≤ u64_max →
  on_tape_bytes l = Ok (tape_bytes bs es).
Proof.
  intros Hs Hb Hn Hm.
  pose proof (on_tape_bytes_loop_errs 0 []) as He.
  pose proof (on_tape_bytes_loop_total 0 []) as Ht. unfold on_tape_bytes.
  destruct (on_tape_bytes_loop l es 0 []) as [total errs]. simpl in He, Ht. subst errs total.
  rewrite filter_none; simpl.
  - f_equal. by apply (omap_on_tape_bytes bs Hb es).
  - intros e Hin. rewrite Forall_forall in Hs. destruct (Hs e Hin). congruence.
Qed.

(** The tape's size is every file rounded up to whole blocks, exactly; and
    with a size missing the plan has none: each unsized file is named, in
    tape order, and nothing else. *)
Theorem on_tape_bytes_spec :
  (Forall sized es → 0 < bs → Forall (λ e, 0 ≤ entry_size e) es → tape_bytes bs es ≤ u64_max →
     on_tape_bytes l = Ok (tape_bytes bs es)) ∧
  (¬ Forall sized es → on_tape_bytes l =
     Err ((λ e, Unsized (le_position e) (type_label (le_kind e))) <$>
            filter (λ e, le_size_bytes e = None) es)).
Proof.
  split; [exact total_exact|]. intros Hs. pose proof (on_tape_bytes_loop_errs 0 []) as He.
  unfold on_tape_bytes. destruct (on_tape_bytes_loop l es 0 []) as [total errs].
  simpl in He. subst errs. destruct (filter _ es) as [|e rest] eqn:Hf; simpl; [|done].
    destruct Hs. apply Forall_forall. intros e Hin. unfold sized.
    destruct (le_size_bytes e) eqn:Hsz; [done|].
    assert (e ∈ filter (λ e, le_size_bytes e = None) es) as H by (by apply list_elem_of_filter).
    rewrite Hf in H. by apply not_elem_of_nil in H.
Qed.

Section width.
Hypothesis Hfw : fits_width l.

Lemma part_bounds (P : LayoutEntry → Prop) `{!∀ e, Decision (P e)} :
  0 ≤ tape_bytes bs (filter P es) ≤ tape_bytes bs es.
Proof.
  destruct Hfw as [Hb Hs Hn Hr Ht]. split.
  - apply tape_bytes_nonneg; [done|]. by apply Forall_filter.
  - apply tape_bytes_sublist; [done..|]. apply sublist_filter.
Qed.

Lemma part_exact (P : LayoutEntry → Prop) `{!∀ e, Decision (P e)} :
  sum64 (omap (entry_bytes l) (filter P es)) = tape_bytes bs (filter P es).
Proof.
  destruct (part_bounds P) as [_ Hle]. destruct Hfw as [Hb Hs Hn Hr Ht].
  apply (omap_on_tape_bytes bs Hb); [by apply Forall_filter..|lia].
Qed.

Lemma slice_bytes_from_exact from :
  slice_bytes_from l from = tape_bytes bs (slices_from from es).
Proof. unfold slice_bytes_from, slices_from. apply part_exact. Qed.

Lemma fixed_on_tape_bytes_exact : fixed_on_tape_bytes l = tape_bytes bs (fixed_files es).
Proof. unfold fixed_on_tape_bytes, fixed_files. apply part_exact. Qed.

Lemma tail_bytes_bounds tail_from : 0 ≤ tail_bytes l tail_from ≤ tape_bytes bs es.
Proof.
  destruct tail_from as [from|]; simpl; [apply part_bounds|].
  destruct Hfw as [Hb Hs Hn Hr Ht]. split; [done|]. by apply tape_bytes_nonneg.
Qed.

Lemma capacity_gate available tail_from :
  capacity_errors_with_tail l available tail_from = [] ↔ gate_spec available tail_from.
Proof.
  pose proof (tail_bytes_bounds tail_from) as Htail.
  assert (from_option (slice_bytes_from l) 0 tail_from = tail_bytes l tail_from) as Htb.
  { destruct tail_from as [from|]; [|done]. apply slice_bytes_from_exact. }
  pose proof (part_bounds (λ e, is_slice (le_kind e) = false)) as Hfix. fold (fixed_files es) in Hfix.
  pose proof fixed_on_tape_bytes_exact as Hfb.
  destruct Hfw as [Hb Hs Hn Hr Ht].
  unfold capacity_errors_with_tail, gate_spec. rewrite (total_exact Hs Hb Hn) by lia.
  rewrite Htb, Hfb. unfold add64, sub64. rewrite !wrap64_small by (unfold_width; lia).
  case_bool_decide as Hfit; [by split; [left|]|].
  destruct (plan_bound_bytes (budget l)) as [bound|].
  - clear -Hfit. repeat case_bool_decide; simpl; split; try done;
      try (intros [?|(? & [= <-] & ? & ?)]; lia).
    intros _. right. exists bound. split; [done|lia].
  - clear -Hfit Htail. repeat case_bool_decide; simpl; split; try done;
      try (intros [?|(? & [=] & _)]; lia). intros _. lia.
Qed.

(** The capacity gate passes exactly what fits: the whole plan and the
    reserve under the fill budget, or, with a plan bound, the fixed files and
    the reserve under the fill budget and everything before the span's tail
    within the bound. Without a plan bound nothing passes the fill budget. *)
Theorem capacity_gate_spec available tail_from :
  capacity_errors_with_tail l available tail_from = [] ↔ gate_spec available tail_from.
Proof. exact (capacity_gate available tail_from). Qed.
End width.

(** ** The planner and the gate agree *)

(** The Layout holds the units of the placement, and its tail from
    [span_tail_from]; the fill ceiling is not past the plan bound. *)
Record laid_out (items : list PlanItem) (pl : Placement) : Prop := {
  lo_slices : tape_bytes bs (slices es) = sumZ (sizes items (pl_order pl));
  lo_tail : tail_bytes l (span_tail_from (budget l)) =
    from_option (bytes_at items) 0 (tail_of pl);
  lo_bound : ∀ bound, plan_bound_bytes (budget l) = Some bound →
    available_bytes (budget l) ≤ bound + reserve_bytes (budget l);
}.
End gate.

(** The label the walk gives the last unit of a prefix. *)
Lemma tape_walk_last b items placed e ids i :
  tape_walk b items placed e (ids ++ [i]) →
  placed !! i = Some (label_at b (end_of items e (ids ++ [i]))).
Proof.
  intros [_ [H _]]%tape_walk_app. rewrite end_of_app. exact H.
Qed.

Section agree.
Variable l : Layout.
Variable items : list PlanItem.
Local Abbreviation bs := (block_size l).
Local Abbreviation es := (entries l).
Local Abbreviation b := (budget l).
Local Abbreviation fixed := (tape_bytes bs (fixed_files es)).
Local Abbreviation pl := (place b fixed items).

Hypothesis Hfw : fits_width l.
Hypothesis Hws : well_sized fixed items.
Hypothesis Hok : placement_is_ok pl = true.
Hypothesis Hlo : laid_out l items pl.

(** A unit that is not the tail ends under the ceiling, or within the bound. *)
Lemma unit_within ids i ids' :
  pl_order pl = (ids ++ [i]) ++ ids' → pl_placed pl !! i ≠ Some Tail →
  fixed + sumZ (sizes items (ids ++ [i])) + reserve_bytes b ≤ available_bytes b ∨
  ∃ bound, plan_bound_bytes b = Some bound ∧ fixed + sumZ (sizes items (ids ++ [i])) ≤ bound.
Proof.
  intros Ho Hlast.
  pose proof (placed_walk b items fixed Hws) as Hw. rewrite Ho, tape_walk_app in Hw.
  destruct Hw as [Hw _]. apply tape_walk_last in Hw.
  destruct (placed_end_exact b items fixed Hws (length (ids ++ [i]))) as [Hbd Hend].
  rewrite Ho, take_app_length in Hbd, Hend. rewrite Hend in Hw.
  set (e := fixed + sumZ (sizes items (ids ++ [i]))) in *.
  assert (label_at b e ≠ Tail ∧ label_at b e ≠ Refused) as [HT HR].
  { split; intros H.
    - apply Hlast. congruence.
    - apply (ok_iff_no_refusal b items fixed Hws) in Hok. destruct Hok.
      apply (list_elem_of_lookup_2 _ i). congruence. }
  unfold label_at, under_ceiling in HT, HR. case_bool_decide as Hu.
  - left. destruct Hfw as [_ _ _ Hr Ht]. pose proof (tape_bytes_split bs es) as Hsp.
    rewrite sat_add64_exact in Hu; [done|].
    assert (e ≤ fixed + sumZ (sizes items (pl_order pl))) as Hle.
    { subst e. rewrite Ho, (sizes_app items (ids ++ [i])), (sumZ_app (sizes _ (ids ++ [i]))).
      pose proof (sumZ_nonneg _ (sizes_nonneg items ids' (ws_items _ _ Hws))). lia. }
    rewrite <-(lo_slices _ _ _ Hlo) in Hle. lia.
  - destruct (plan_bound_bytes b) as [bound|]; [|done]. right. exists bound. split; [done|].
    by case_bool_decide.
Qed.

(** So a prefix of the order whose last unit is not the tail does, where the
    fixed files do. *)
Lemma prefix_within ids ids' : fixed + reserve_bytes b ≤ available_bytes b →
  pl_order pl = ids ++ ids' → (∀ i, last ids = Some i → pl_placed pl !! i ≠ Some Tail) →
  fixed + sumZ (sizes items ids) + reserve_bytes b ≤ available_bytes b ∨
  ∃ bound, plan_bound_bytes b = Some bound ∧ fixed + sumZ (sizes items ids) ≤ bound.
Proof.
  intros Hfix Ho Hlast. destruct ids as [|i ids _] using rev_ind; [left; simpl; lia|].
  apply (unit_within ids i ids' Ho), Hlast. by rewrite last_snoc.
Qed.

(** With no plan bound, a unit placed is under the ceiling, so the fixed files
    are. *)
Lemma no_bound_no_tail : plan_bound_bytes b = None → tail_of pl = None.
Proof.
  intros Hb. destruct (tail_of pl) as [t|] eqn:Ht; [exfalso|done].
  assert (pl_placed pl !! t = Some Tail) as Htail.
  { unfold tail_of in Ht. apply position_Some in Ht as [(x & Hx & ->%bool_decide_eq_true) _]. done. }
  destruct (tail_ends_order b items fixed Hws t Htail) as [[ids Hids]%last_Some _].
  pose proof (placed_walk b items fixed Hws) as Hw. rewrite Hids in Hw. apply tape_walk_last in Hw. rewrite Htail in Hw.
  injection Hw as Hw. unfold label_at in Hw. destruct (under_ceiling _ _); [done|]. by rewrite Hb in Hw.
Qed.
Lemma no_bound_empty : plan_bound_bytes b = None → available_bytes b < fixed + reserve_bytes b → pl_order pl = [].
Proof.
  intros Hb Hfix. pose proof (no_bound_no_tail Hb) as Ht. destruct (pl_order pl) as [|i ids _] eqn:Ho using rev_ind; [done|exfalso].
  pose proof (sumZ_nonneg _ (sizes_nonneg items (ids ++ [i]) (ws_items _ _ Hws))) as Hn.
  destruct (unit_within ids i []) as [Hu|(bound & Hb' & _)]; [by rewrite app_nil_r| |lia|congruence].
  intros Hi. destruct (tail_ends_order b items fixed Hws i Hi) as (_ & Hi' & _). congruence.
Qed.

Lemma fixed_within_gate : fixed + reserve_bytes b ≤ available_bytes b →
  capacity_errors_against l (available_bytes b) = [].
Proof.
  intros Hfix. apply (capacity_gate l Hfw). unfold gate_spec.
  pose proof (tape_bytes_split bs es) as Hsp. rewrite (lo_slices _ _ _ Hlo) in Hsp.
  rewrite (lo_tail _ _ _ Hlo).
  destruct (tail_of pl) as [t|] eqn:Ht; simpl.
  - assert (pl_placed pl !! t = Some Tail) as Htail.
    { unfold tail_of in Ht. apply position_Some in Ht as [(x & Hx & ->%bool_decide_eq_true) _]. done. }
    destruct (tail_ends_order b items fixed Hws t Htail) as [[ids Hids]%last_Some _].
    assert (∃ bound, plan_bound_bytes b = Some bound) as [bound Hb].
    { pose proof (placed_walk b items fixed Hws) as Hw. rewrite Hids in Hw.
      apply tape_walk_last in Hw. rewrite Htail in Hw. injection Hw as Hw.
      unfold label_at in Hw. destruct (under_ceiling _ _); [done|].
      destruct (plan_bound_bytes b) as [bound|]; [by exists bound|done]. }
    right. exists bound. split; [done|]. split; [done|].
    assert (sumZ (sizes items [t]) = bytes_at items t) as Hone by (unfold sizes; simpl; lia).
    rewrite Hsp, Hids, sizes_app, sumZ_app, Hone. pose proof (lo_bound _ _ _ Hlo bound Hb).
    assert (∀ i, last ids = Some i → pl_placed pl !! i ≠ Some Tail) as Hlast;
      [|destruct (prefix_within ids [t] Hfix Hids Hlast) as [Hu|(bound' & Hb' & Hu)];
        [lia|rewrite Hb in Hb'; injection Hb' as ->; lia]].
    intros i Hl Hi. destruct (tail_ends_order b items fixed Hws i Hi) as [Hi' _].
    rewrite Hids, last_snoc in Hi'. injection Hi' as ->.
    pose proof (placed_order_NoDup b items fixed Hws) as Hnd. rewrite Hids in Hnd.
    apply NoDup_app in Hnd as (_ & Hnd & _). apply (Hnd i); [|by left].
    apply last_Some in Hl as [k ->]. apply elem_of_app. right. by left.
  - rewrite Hsp, Z.sub_0_r.
    destruct (prefix_within (pl_order pl) [] Hfix ltac:(by rewrite app_nil_r))
      as [Hu|(bound & Hb & Hu)]; [|by left|right; by exists bound].
    intros i _ Hi. destruct (tail_ends_order b items fixed Hws i Hi) as (_ & Hi' & _). congruence.
Qed.

(** C34: the planner and the capacity gate agree on every unit. A Layout built
    of an accepted placement, in its order with its tail from
    [span_tail_from], passes the gate exactly when its fixed files and the
    reserve fit the fill budget, which the planner does not check; where
    they do not, the gate's first error is that one. *)
Theorem accepted_plan_at_gate :
  (capacity_errors_against l (available_bytes b) = [] ↔ fixed + reserve_bytes b ≤ available_bytes b) ∧
  (available_bytes b < fixed + reserve_bytes b →
   head (capacity_errors_against l (available_bytes b)) = Some (CapacityExceeded fixed (reserve_bytes b) (available_bytes b))).
Proof.
  pose proof (tape_bytes_split bs es) as Hsp. pose proof (part_bounds l Hfw (λ e, is_slice (le_kind e) = false)) as Hpart.
  fold (fixed_files es) in Hpart. split; [split; [|apply fixed_within_gate]|].
  - intros Hg. apply (capacity_gate l Hfw) in Hg as [Hg|(bound & _ & Hg & _)]; lia.
  - intros Hfix. unfold capacity_errors_against, capacity_errors_with_tail. pose proof (fixed_on_tape_bytes_exact l Hfw) as Hfb.
    destruct Hfw as [Hb Hs Hn Hr Ht]. rewrite (total_exact l Hs Hb Hn) by lia.
    unfold add64. rewrite !wrap64_small by (unfold_width; lia). rewrite bool_decide_eq_false_2 by lia.
    destruct (plan_bound_bytes b) as [bound|] eqn:Hbd.
    + rewrite Hfb, bool_decide_eq_true_2 by lia. done.
    + pose proof (lo_slices _ _ _ Hlo) as Hsl. rewrite (no_bound_empty Hbd Hfix) in Hsl. cbn in Hsl.
      pose proof (lo_tail _ _ _ Hlo) as Htail. rewrite (no_bound_no_tail Hbd) in Htail. cbn in Htail.
      assert (from_option (slice_bytes_from l) 0 (span_tail_from b) = 0) as ->.
      { rewrite <- Htail. destruct (span_tail_from b); [|done]. apply (slice_bytes_from_exact l Hfw). }
      assert (tape_bytes bs es -w 0 = fixed) as -> by (unfold sub64; rewrite wrap64_small; unfold_width; lia).
      rewrite bool_decide_eq_true_2 by done. done.
Qed.
End agree.

(** ** The last run of a span *)

Section last_run.
Variable b : CapacityBudget.
Variable items : list PlanItem.
Variable fixed : Z.
Hypothesis Hws : well_sized fixed items.

Lemma div_ceil_last rest room : 0 < rest → 0 < room →
  let k := Z.max (div_ceil rest room) 1 - 1 in 0 ≤ k ∧ 0 < rest - k * room ≤ room.
Proof.
  intros Hr Hroom. pose proof (div_ceil_spec rest room ltac:(lia) Hroom) as H.
  assert (1 ≤ div_ceil rest room) by nia. rewrite Z.max_l by lia. simpl. nia.
Qed.

Lemma span_accounts t bound :
  pl_placed (place b fixed items) !! t = Some Tail →
  item_class <$> items !! t = Some Spannable →
  plan_bound_bytes b = Some bound → bound ≤ u64_max → fixed < bound →
  bound - fixed < bytes_at items t →
  ∃ r k before, pl_order (place b fixed items) = before ++ [t] ∧
    span_last_run b fixed items (place b fixed items) = Some r ∧
    0 < r ≤ bound - fixed ∧ 0 ≤ k ∧
    bytes_at items t =
      Z.max (bound - (fixed + sumZ (sizes items before))) 0 + k * (bound - fixed) + r.
Proof.
  intros Ht Hc Hb Hbm Hroom Hlarge.
  destruct (tail_ends_order b items fixed Hws t Ht) as ([before Ho]%last_Some & Htail & _).
  pose proof (placed_order_NoDup b items fixed Hws) as Hnd. rewrite Ho in Hnd.
  apply NoDup_app in Hnd as (_ & Hni & _).
  destruct (placed_end_exact b items fixed Hws (length before)) as [Hbd Hend].
  rewrite Ho, take_app_length in Hbd, Hend.
  destruct (placed_end_exact b items fixed Hws (length (before ++ [t]))) as [Hbd' Hend'].
  rewrite Ho, firstn_all in Hbd', Hend'.
  pose proof (placed_walk b items fixed Hws) as Hw. rewrite Ho in Hw.
  apply tape_walk_last in Hw. rewrite Ht, Hend', sizes_app, sumZ_app in Hw.
  rewrite sizes_app, sumZ_app in Hbd'.
  assert (sumZ (sizes items [t]) = bytes_at items t) as Hone by (unfold sizes; simpl; lia).
  rewrite Hone in *. set (sum := sumZ (sizes items before)) in *.
  set (set := bytes_at items t) in *.
  assert (bound < fixed + (sum + set)) as Hover.
  { injection Hw as Hw. unfold label_at in Hw. destruct (under_ceiling _ _); [done|].
    rewrite Hb in Hw. case_bool_decide; [done|lia]. }
  pose proof (ws_fixed _ _ Hws) as Hf0.
  set (rest := set - Z.max (bound - (fixed + sum)) 0).
  destruct (div_ceil_last rest (bound - fixed)) as [Hk Hr]; [unfold rest; lia|lia|].
  set (k := Z.max (div_ceil rest (bound - fixed)) 1 - 1) in *.
  exists (rest - k * (bound - fixed)), k, before. split; [done|]. split; [|subst rest; split; [done|lia]].
  unfold span_last_run, span_room. rewrite Htail. simpl. rewrite Hb. simpl.
  rewrite (sat_sub64_exact bound fixed), (bool_decide_eq_true_2 (0 < _)) by lia. simpl.
  rewrite (bool_decide_eq_true_2 (item_class <$> _ = _)) by done.
  rewrite (bool_decide_eq_false_2 (_ ≤ _)) by (fold set; lia). simpl.
  rewrite Ho, take_while_app; [|apply Forall_forall; intros i Hi; rewrite bool_decide_eq_false_2; [done|]|by rewrite bool_decide_eq_true_2].
  - fold (end_of items fixed before) set. rewrite Hend.
    assert (set -sat (bound -sat (fixed + sum)) = rest) as -> by (subst rest; unfold_width; lia).
    unfold add64, sub64, mul64. fold k.
    rewrite (wrap64_small k), (wrap64_small (k * _)), wrap64_small; unfold_width; [done|nia..].
  - intros ->. apply (Hni t Hi). by left.
Qed.

(** A set larger than one tape is accounted for to the byte: what its
    first tape holds under the bound, whole later tapes of [room] each, and
    the last run, which is never empty and never more than one tape. *)
Theorem span_last_run_spec t bound :
  pl_placed (place b fixed items) !! t = Some Tail →
  item_class <$> items !! t = Some Spannable →
  plan_bound_bytes b = Some bound → bound ≤ u64_max → fixed < bound →
  bound - fixed < bytes_at items t →
  ∃ r k before, pl_order (place b fixed items) = before ++ [t] ∧
    span_last_run b fixed items (place b fixed items) = Some r ∧
    0 < r ≤ bound - fixed ∧ 0 ≤ k ∧
    bytes_at items t =
      Z.max (bound - (fixed + sumZ (sizes items before))) 0 + k * (bound - fixed) + r.
Proof. exact (span_accounts t bound). Qed.

Lemma span_last_run_inv pl r :
  span_last_run b fixed items pl = Some r →
  ∃ t bound, tail_of pl = Some t ∧ plan_bound_bytes b = Some bound ∧
    item_class <$> items !! t = Some Spannable ∧
    fixed < bound ∧ bound - fixed < bytes_at items t.
Proof.
  unfold span_last_run, span_room. destruct (tail_of pl) as [t|]; simpl; [|done].
  destruct (plan_bound_bytes b) as [bound|]; simpl; [|done].
  destruct (bool_decide (0 < _)) eqn:Hr; simpl; [|done].
  destruct (bool_decide (item_class <$> _ = _)) eqn:Hc; simpl; [|done].
  destruct (bool_decide (_ ≤ _)) eqn:Hs; simpl; [done|]. intros _.
  apply bool_decide_eq_true in Hr, Hc. apply bool_decide_eq_false in Hs.
  exists t, bound. repeat split; try done; unfold_width; lia.
Qed.
End last_run.

(** ** Zone labels *)

(** What a label keeps of a zone kind: its tag, the ids zeroed. *)
Definition untagged (k : ZoneKind) : ZoneKind :=
  match k with
  | Slice _ => Slice 0
  | TenantEnvelope _ => TenantEnvelope 0
  | TenantEnvelopeBackup _ => TenantEnvelopeBackup 0
  | k => k
  end.

(** A zone's label reads back as the zone it names, ids aside, and a text
    that is not one of the ten labels reads as no zone. *)
Theorem type_label_roundtrip :
  (∀ k, from_type_label (type_label k) = Some (untagged k)) ∧
  (∀ s k, from_type_label s = Some k → type_label k = s ∧ untagged k = k).
Proof.
  split; [by intros []|]. intros s k. unfold from_type_label.
  repeat (case_bool_decide; [intros [= <-]; by subst|]). done.
Qed.

(** ** The pre-write predicate *)

Section predicate.
Context `{Digest, Disk}.
Variable l : Layout.
Local Abbreviation es := (entries l).

(** Reading a file in any chunks, with reads interrupted in between. *)
Definition read_chunk (o : option (list Z)) : bool * ReadOutcome :=
  (false, match o with Some bytes => ReadBytes bytes | None => ReadEintr end).

(** The hash is of the whole file: however the reads cut it, and with any
    of them retried after a signal of no consequence, the digest is of every
    byte up to the end of the file. *)
Theorem hash_reads_whole chunks rest hashed :
  Forall (λ o, o ≠ Some []) chunks →
  hash_reads ((read_chunk <$> chunks) ++ (false, ReadBytes []) :: rest) hashed =
  Ok (sha256_hex (hashed ++ mjoin (default [] <$> chunks))).
Proof.
  intros Hc. revert hashed. induction Hc as [|[[|x c]|] chunks Hne Hc IH]; intros hashed; simpl.
  - by rewrite app_nil_r.
  - done.
  - rewrite IH. csimpl. by rewrite <-app_assoc.
  - rewrite IH. done.
Qed.

(** What [validate] promises of a staged entry, of a materialized one and of
    the keys. *)
Definition size_ok (e : LayoutEntry) (path : string) : Prop :=
  match metadata path with
  | Ok len => from_option (λ size, len = size) True (le_size_bytes e)
  | Err _ => False
  end.

Definition staged_ok (sc : SliceCheck) (n : nat) (e : LayoutEntry) : Prop :=
  match le_source e, le_sha256 e with
  | Staged path, Some expected =>
      size_ok e path ∧
      (sc = CheckFullHash → signal_before n = false ∧ hash_file path = Ok expected)
  | Staged _, None => is_slice (le_kind e) = false
  | _, _ => True
  end.

Definition materialized_ok (e : LayoutEntry) : Prop :=
  match le_source e with
  | Materialized path =>
      size_ok e path ∧ from_option (λ expected, hash_file path = Ok expected) True (le_sha256 e)
  | _ => True
  end.

Definition keys_ok (keys : KeyAvailability) : Prop :=
  Forall (λ t, t ∈ tenants_with_active_key keys) (tenant_ids keys) ∧
  operator_key_present keys = true ∧
  escrow_recipient_present keys ≠ Some false ∧
  from_option (λ lacking, lacking = []) True (stage_sets_lacking_escrow keys).

Lemma check_staged_entry_nil sc n e path expected :
  le_source e = Staged path → le_sha256 e = Some expected →
  (check_staged_entry l sc n e path expected).1 = [] ↔ staged_ok sc n e.
Proof.
  intros Hsrc Hsha. unfold staged_ok, size_ok, check_staged_entry. rewrite Hsha, Hsrc.
  set (hash_it := if bool_decide (sc ≠ CheckFullHash) then _ else _).
  assert (hash_it.1 = [] ↔
    (sc = CheckFullHash → signal_before n = false ∧ hash_file path = Ok expected)) as Hh.
  { subst hash_it. destruct sc; simpl; [by split; [intros _ [=]|]|].
    destruct (signal_before n); simpl;
      [split; [done|intros Hx; by destruct (Hx eq_refl)]|].
    destruct (hash_file path) as [actual|[]]; simpl;
      [|split; [done|intros Hx; by destruct (Hx eq_refl)]..].
    case_bool_decide; simpl; split; try done; [by subst|].
    intros Hx. destruct (Hx eq_refl) as [_ [= ?]]. done. }
  clearbody hash_it. destruct (metadata path) as [len|[]]; simpl; [|by split; [|intros []]..].
  destruct (le_size_bytes e) as [size|]; simpl; [|rewrite Hh; tauto].
  case_bool_decide as Hs; simpl; [split; [done|intros [? _]; done]|].
  rewrite Hh. tauto.
Qed.

Lemma staged_stop_err sc n e path expected :
  (check_staged_entry l sc n e path expected).2 = false →
  (check_staged_entry l sc n e path expected).1 ≠ [].
Proof.
  unfold check_staged_entry. repeat case_match; simpl; try done.
Qed.

Lemma check_staged_slices_nil sc n l' errs :
  check_staged_slices_loop l sc n l' errs = [] ↔
  errs = [] ∧ ∀ i e, l' !! i = Some e → staged_ok sc (n + i) e.
Proof.
  revert n errs. induction l' as [|e l' IH]; intros n errs; simpl.
  { split; [intros ->; split; [done|]; by intros ??|by intros [-> _]]. }
  assert ((∀ i e0, (e :: l') !! i = Some e0 → staged_ok sc (n + i) e0) ↔
    staged_ok sc n e ∧ ∀ i e0, l' !! i = Some e0 → staged_ok sc (S n + i) e0) as ->.
  { split.
    - intros Hx. split; [rewrite <-(Nat.add_0_r n); by apply (Hx 0%nat)|]. intros i e0 Hi.
      replace (S n + i)%nat with (n + S i)%nat by lia. by apply (Hx (S i)).
    - intros [Hhd Hx] [|i] e0 Hi; simpl in Hi.
      + injection Hi as <-. by rewrite Nat.add_0_r.
      + replace (n + S i)%nat with (S n + i)%nat by lia. by apply Hx. }
  destruct (le_source e) as [path|path|] eqn:Hsrc.
  - destruct (le_sha256 e) as [expected|] eqn:Hsha.
    + pose proof (check_staged_entry_nil sc n e path expected Hsrc Hsha) as Hn.
      pose proof (staged_stop_err sc n e path expected) as Hstop.
      destruct (check_staged_entry l sc n e path expected) as [more go_on]. simpl in *.
      destruct go_on.
      * rewrite IH, app_nil. tauto.
      * specialize (Hstop eq_refl). rewrite app_nil. tauto.
    + rewrite IH. unfold staged_ok at 2. rewrite Hsrc, Hsha.
      destruct (is_slice (le_kind e)); [rewrite app_nil|]; naive_solver.
  - rewrite IH. unfold staged_ok at 2. rewrite Hsrc. tauto.
  - rewrite IH. unfold staged_ok at 2. rewrite Hsrc. tauto.
Qed.

Lemma check_materialized_entry_nil e path :
  le_source e = Materialized path →
  ((check_materialized_entry l e path).1 = [] ↔ materialized_ok e) ∧
  ((check_materialized_entry l e path).2 = false → (check_materialized_entry l e path).1 ≠ []).
Proof.
  intros Hsrc. unfold materialized_ok, size_ok, check_materialized_entry. rewrite Hsrc.
  destruct (metadata path) as [len|[]]; simpl; [|by split; [split; [|intros []]|]..].
  set (size_errs := match le_size_bytes e with Some _ => _ | None => [] end).
  assert (size_errs = [] ↔ from_option (λ size, len = size) True (le_size_bytes e)) as Hs.
  { subst size_errs. destruct (le_size_bytes e); simpl; [|done]. case_bool_decide; split; done. }
  clearbody size_errs. destruct (le_sha256 e) as [expected|]; simpl; [|split; [rewrite Hs; tauto|done]].
  destruct (hash_file path) as [actual|[]]; simpl; try case_bool_decide; simpl;
    rewrite ?app_nil, ?Hs; split; try done; try (split; [by intros [_ ?]|by intros [_ [=]]]).
  - by subst; split; [|intros [? _]].
  - by intros _ [_ ?].
Qed.

Lemma check_materialized_zones_nil l' errs :
  check_materialized_zones_loop l l' errs = [] ↔ errs = [] ∧ Forall materialized_ok l'.
Proof.
  revert errs. induction l' as [|e l' IH]; intros errs; simpl.
  { rewrite Forall_nil. tauto. }
  rewrite Forall_cons. destruct (le_source e) as [path|path|] eqn:Hsrc.
  - rewrite IH. unfold materialized_ok at 2. rewrite Hsrc. tauto.
  - destruct (check_materialized_entry_nil e path Hsrc) as [Hn Hstop].
    destruct (check_materialized_entry l e path) as [more go_on]. simpl in *.
    destruct go_on.
    + rewrite IH, app_nil. tauto.
    + specialize (Hstop eq_refl). rewrite app_nil. tauto.
  - rewrite IH. unfold materialized_ok at 2. rewrite Hsrc. tauto.
Qed.

Lemma check_keys_nil keys errs : check_keys keys errs = [] ↔ errs = [] ∧ keys_ok keys.
Proof.
  unfold check_keys, keys_ok.
  assert (omap (λ t, if bool_decide (t ∈ tenants_with_active_key keys) then None
                     else Some (TenantHasNoActiveKey t)) (tenant_ids keys) = [] ↔
          Forall (λ t, t ∈ tenants_with_active_key keys) (tenant_ids keys)) as <-.
  { induction (tenant_ids keys) as [|t ts IH]; simpl; [by rewrite Forall_nil|].
    rewrite Forall_cons. case_bool_decide; [tauto|]. split; [done|tauto]. }
  set (tenants := omap _ _). case_bool_decide as He;
    destruct (operator_key_present keys), (stage_sets_lacking_escrow keys) as [[|x lacking]|];
    simpl; rewrite ?app_nil; split; intros Hx; naive_solver.
Qed.

(** C38: the pre-write predicate accepts a Layout iff everything the write
    relies on holds: every file is sized and the gate passes, every staged
    slice has a recorded hash, its recorded size on disk and (full check) its
    recorded content with no signal raised, every materialized zone likewise,
    and every tenant, the operator and escrow have their keys. *)
Theorem validate_spec keys sc :
  validate l keys sc = Ok () ↔
  Forall sized es ∧
  capacity_errors_against l (available_bytes (budget l)) = [] ∧
  (∀ n e, es !! n = Some e → staged_ok sc n e) ∧
  Forall materialized_ok es ∧
  keys_ok keys.
Proof.
  unfold validate. set (errs := check_keys keys _).
  assert (match errs with [] => Ok () | _ => Err errs end = Ok () ↔ errs = []) as ->
    by (by destruct errs).
  subst errs. rewrite check_keys_nil. unfold check_materialized_zones, check_staged_slices.
  rewrite check_materialized_zones_nil, check_staged_slices_nil.
  assert (check_capacity l [] = [] ↔
    Forall sized es ∧ capacity_errors_against l (available_bytes (budget l)) = []) as ->.
  { unfold check_capacity. pose proof (on_tape_bytes_loop_errs l 0 []) as He.
    unfold on_tape_bytes. destruct (on_tape_bytes_loop l es 0 []) as [total errs]. simpl in He.
    rewrite Forall_forall. destruct errs as [|x errs]; simpl.
    - split; [|tauto]. intros ?. split; [|done]. intros e Hin. unfold sized.
      destruct (le_size_bytes e) eqn:Hsz; [done|].
      assert (e ∈ filter (λ e, le_size_bytes e = None) es) as Hf by (by apply list_elem_of_filter).
      symmetry in He. apply fmap_nil_inv in He. rewrite He in Hf. by apply not_elem_of_nil in Hf.
    - split; [done|]. intros [Hs _].
      rewrite filter_none in He; [done|]. intros e Hin Hsz. destruct (Hs e Hin). congruence. }
  simpl. tauto.
Qed.
End predicate.

(** ** Concrete instances *)

Definition sample_entry (position : Z) (k : ZoneKind) (size : Z) : LayoutEntry :=
  mkLayoutEntry position k (Some size) (Some "aa"%string) (Staged "f"%string).
Definition sample_layout : Layout :=
  mkLayout "L"%string "u"%string "LTO-6"%string 4 (mkCapacityBudget 28 2 (Some 30) (Some 2))
    [sample_entry 0 IdThunk 5; sample_entry 1 (Slice 7) 10; sample_entry 2 (Slice 8) 13;
     sample_entry 3 SealMarker 4].
Definition sample_items : list PlanItem := [mkPlanItem Whole 12; mkPlanItem Spannable 16].

Lemma sample_fits_width : fits_width sample_layout.
Proof.
  split; by_decide.
Defined.

Lemma sample_items_sized : well_sized 12 sample_items.
Proof. split; [lia|repeat constructor; simpl; lia|vm_compute; congruence]. Defined.

Lemma sample_laid_out :
  laid_out sample_layout sample_items (place (budget sample_layout) 12 sample_items).
Proof.
  split; [vm_compute; reflexivity|vm_compute; reflexivity|].
  intros bound [= <-]. vm_compute. congruence.
Defined.

(** A budget the fixed files and the reserve alone exceed: the planner takes
    the unit past the ceiling, and the gate refuses the Layout. *)
Definition crowded_layout : Layout :=
  mkLayout "L"%string "u"%string "LTO-6"%string 4 (mkCapacityBudget 10 5 (Some 100) None)
    [sample_entry 0 IdThunk 4; sample_entry 1 (Slice 7) 4; sample_entry 2 SealMarker 4].
Lemma crowded_fits_width : fits_width crowded_layout.
Proof. split; by_decide. Defined.
Lemma crowded_sized : well_sized 8 [mkPlanItem Whole 4].
Proof. split; [lia|repeat constructor; simpl; lia|vm_compute; congruence]. Defined.
Lemma crowded_laid_out : laid_out crowded_layout [mkPlanItem Whole 4] (place (budget crowded_layout) 8 [mkPlanItem Whole 4]).
Proof. split; [vm_compute; reflexivity|vm_compute; reflexivity|]. intros bound [= <-]. vm_compute. congruence. Defined.

Lemma on_tape_bytes_spec_witness : on_tape_bytes sample_layout = Ok 40.
Proof.
  apply (proj1 (on_tape_bytes_spec sample_layout)); [|simpl; lia| |vm_compute; congruence].
  - apply sample_fits_width.
  - apply sample_fits_width.
Defined.

Lemma capacity_gate_spec_witness : gate_spec sample_layout 28 (Some 2).
Proof.
  apply (capacity_gate_spec sample_layout sample_fits_width). vm_compute. reflexivity.
Defined.

Lemma accepted_plan_at_gate_witness :
  capacity_errors_against sample_layout 28 = [] ∧
  placement_is_ok (place (budget crowded_layout) 8 [mkPlanItem Whole 4]) = true ∧
  head (capacity_errors_against crowded_layout 10) = Some (CapacityExceeded 8 5 10).
Proof.
  split; [|split; [vm_compute; reflexivity|]].
  - apply (accepted_plan_at_gate sample_layout sample_items sample_fits_width
      sample_items_sized ltac:(vm_compute; reflexivity) sample_laid_out). vm_compute. congruence.
  - apply (accepted_plan_at_gate crowded_layout [mkPlanItem Whole 4] crowded_fits_width
      crowded_sized ltac:(vm_compute; reflexivity) crowded_laid_out). vm_compute. reflexivity.
Defined.

Lemma span_last_run_spec_witness :
  ∃ r, span_last_run sample_budget 1 sample_large (place sample_budget 1 sample_large) = Some r
       ∧ 0 < r ≤ 11.
Proof.
  destruct (span_last_run_spec sample_budget sample_large 1 sample_large_sized 1%nat 12
    ltac:(vm_compute; reflexivity) ltac:(reflexivity) ltac:(reflexivity)
    ltac:(vm_compute; congruence) ltac:(lia) ltac:(vm_compute; reflexivity))
    as (r & k & before & _ & Hr & Hb & _).
  exists r. split; [exact Hr|exact Hb].
Defined.

Lemma type_label_roundtrip_witness : type_label (Slice 0) = "data_slice"%string.
Proof.
  exact (proj1 (proj2 type_label_roundtrip "data_slice"%string (Slice 0) ltac:(reflexivity))).
Defined.

Definition sample_digest : Digest := λ bytes, String.concat "" ((λ z, pretty.pretty z) <$> bytes).

Lemma hash_reads_whole_witness :
  hash_reads (H := sample_digest) (read_chunk <$> [Some [1; 2]; None; Some [3]] ++ [] ) [] =
  hash_reads (H := sample_digest) (read_chunk <$> [Some [1; 2]; None; Some [3]]) [] ∧
  hash_reads (H := sample_digest)
    ((read_chunk <$> [Some [1; 2]; None; Some [3]]) ++ [(false, ReadBytes [])]) [] =
  Ok "123"%string.
Proof.
  split; [reflexivity|].
  apply (hash_reads_whole (H := sample_digest) [Some [1; 2]; None; Some [3]] [] []).
  repeat constructor; discriminate.
Defined.

Definition sample_disk : Disk := {|
  metadata _ := Ok 5;
  open_reads _ := Ok [(false, ReadBytes [1; 2]); (false, ReadBytes [])];
  signal_before _ := false;
|}.
Definition sample_keys : KeyAvailability := mkKeyAvailability [1] {[1]} true (Some true) (Some []).
Definition sample_written : Layout :=
  mkLayout "L"%string "u"%string "LTO-6"%string 4 (mkCapacityBudget 28 2 None None)
    [mkLayoutEntry 0 (Slice 7) (Some 5) (Some "12"%string) (Staged "f"%string)].

(** A Layout the predicate accepts, by its specification. *)
Lemma validate_spec_witness :
  Forall sized (entries sample_written) ∧
  validate (H := sample_digest) (H0 := sample_disk) sample_written sample_keys CheckFullHash = Ok () ∧
  staged_ok (H := sample_digest) (H0 := sample_disk) CheckFullHash 0
    (mkLayoutEntry 0 (Slice 7) (Some 5) (Some "12"%string) (Staged "f"%string)).
Proof.
  assert (validate (H := sample_digest) (H0 := sample_disk) sample_written sample_keys
    CheckFullHash = Ok ()) as Hv by (vm_compute; reflexivity).
  pose proof (proj1 (validate_spec (H := sample_digest) (H0 := sample_disk) sample_written
    sample_keys CheckFullHash) Hv) as (Hs & _ & He & _).
  split; [exact Hs|]. split; [exact Hv|]. exact (He 0%nat _ eq_refl).
Defined.
