(* ===== verification/Selector.v ===== *)
(** * The batch selector: [src/collection/selector.rs]

    Next-fit over pending units in name order (or prioritised units first),
    and the spanning selector, which fills each batch by the per-tape plan
    order of [LayoutModel.place]. *)

From S2P Require Import Prelude LayoutModel.
Local Open Scope Z_scope.
Local Open Scope rust_scope.

Record PendingUnit : Type := mkPendingUnit {
  unit_name : string;
  unit_size_bytes : Z;   (* u64 *)
}.

Record Batch : Type := mkBatch {
  batch_units : list PendingUnit;
  total_bytes : Z;    (* u64 *)
  padded_bytes : Z;   (* u64 *)
}.
Definition empty_batch : Batch := mkBatch [] 0 0.
Definition unit_names (b : Batch) : list string := unit_name <$> batch_units b.

Record OversizedUnit : Type := mkOversizedUnit {
  ov_name : string;
  ov_size_bytes : Z;
  ov_padded_bytes : Z;
  ov_budget_bytes : Z;
  ov_allows_spanning : bool;
}.

Record LargerThanStaging : Type := mkLargerThanStaging {
  lt_name : string;
  lt_size_bytes : Z;
  lt_staging_total : Z;
}.

Record RefusedUnits : Type := mkRefusedUnits {
  oversized : list OversizedUnit;
  larger_than_staging : list LargerThanStaging;
}.
Definition no_refusal : RefusedUnits := mkRefusedUnits [] [].

#[export] Instance PendingUnit_eq_dec : EqDecision PendingUnit.
Proof. solve_decision. Defined.
#[export] Instance OversizedUnit_eq_dec : EqDecision OversizedUnit.
Proof. solve_decision. Defined.
#[export] Instance LargerThanStaging_eq_dec : EqDecision LargerThanStaging.
Proof. solve_decision. Defined.
#[export] Instance RefusedUnits_eq_dec : EqDecision RefusedUnits.
Proof. solve_decision. Defined.

Record BatchRoom : Type := mkBatchRoom {
  fill : Z;            (* u64 *)
  bound : option Z;    (* u64 *)
}.
Definition whole_bytes (r : BatchRoom) : Z := default (fill r) (bound r).
Definition room_budget (r : BatchRoom) : CapacityBudget :=
  mkCapacityBudget (fill r) 0 (bound r) None.

Record Spanning : Type := mkSpanning {
  spanning_units : gset string;
  staging_total : option Z;
}.

(** [a.name.cmp(&b.name)]: bytewise. *)
Definition name_le (a c : PendingUnit) : Prop :=
  String.leb (unit_name a) (unit_name c) = true.
#[export] Instance name_le_dec : RelDecision name_le.
Proof. intros a c. unfold name_le. apply _. Defined.

(** The key [(!prioritised.contains(name), name)], compared in that order. *)
Definition prioritised_le (prioritised : gset string) (a c : PendingUnit) : Prop :=
  if bool_decide (unit_name a ∈ prioritised) then
    if bool_decide (unit_name c ∈ prioritised) then name_le a c else True
  else
    if bool_decide (unit_name c ∈ prioritised) then False else name_le a c.
#[export] Instance prioritised_le_dec prioritised : RelDecision (prioritised_le prioritised).
Proof. intros a c. unfold prioritised_le. repeat case_match; apply _. Defined.

Definition sort_prioritised (units : list PendingUnit) (prioritised : gset string)
    : list PendingUnit :=
  merge_sort (prioritised_le prioritised) units.

(** ** Next-fit *)

Section next_fit.
Variable budget_bytes block_size : Z.

Definition padded_size (u : PendingUnit) : Z := pad_to_blocks (unit_size_bytes u) block_size.

Definition oversized_of (u : PendingUnit) : option OversizedUnit :=
  let padded := padded_size u in
  if bool_decide (budget_bytes < padded)
  then Some (mkOversizedUnit (unit_name u) (unit_size_bytes u) padded budget_bytes false)
  else None.

Definition batch_push (b : Batch) (u : PendingUnit) (padded : Z) : Batch :=
  mkBatch (batch_units b ++ [u]) (total_bytes b +w unit_size_bytes u) (padded_bytes b +w padded).

Fixpoint next_fit_loop (units : list PendingUnit) (batches : list Batch) (current : Batch)
    : list Batch :=
  match units with
  | [] => if bool_decide (batch_units current = []) then batches else batches ++ [current]
  | u :: units =>
      let padded := padded_size u in
      let '(batches, current) :=
        if negb (bool_decide (batch_units current = []))
           && bool_decide (budget_bytes < padded_bytes current +w padded)
        then (batches ++ [current], empty_batch)
        else (batches, current) in
      next_fit_loop units batches (batch_push current u padded)
  end.

Definition next_fit (units : list PendingUnit) : result (list OversizedUnit) (list Batch) :=
  match omap oversized_of units with
  | [] => Ok (next_fit_loop units [] empty_batch)
  | refused => Err refused
  end.
End next_fit.

Definition plan_batches (units : list PendingUnit) (budget_bytes block_size : Z)
    : result (list OversizedUnit) (list Batch) :=
  next_fit budget_bytes block_size (merge_sort name_le units).

Definition plan_batches_prioritised (units : list PendingUnit) (prioritised : gset string)
    (budget_bytes block_size : Z) : result (list OversizedUnit) (list Batch) :=
  next_fit budget_bytes block_size (sort_prioritised units prioritised).

(** ** Spanning *)

Definition all_placed (placement : Placement) : bool :=
  forallb (λ p, negb (bool_decide (p = Deferred ∨ p = Refused))) (pl_placed placement).

(** The whole units [first] displaces, in order; [None] when anything else of
    the batch waits or is refused. [i] is the index of the head of [placed]. *)
Fixpoint displaced_loop (items : list PlanItem) (placed : list Placed) (i : nat)
    (displaced : list nat) : option (list nat) :=
  match placed with
  | [] => Some displaced
  | p :: placed =>
      if bool_decide (item_class <$> items !! i = Some Whole) && bool_decide (p = Deferred)
      then displaced_loop items placed (S i) (displaced ++ [i])
      else if bool_decide (p = Deferred ∨ p = Refused) then None
      else displaced_loop items placed (S i) displaced
  end.

Definition after_the_tail (budget : CapacityBudget) (items : list PlanItem)
    (first : Placement) : option (list (nat * Placed)) :=
  run ← span_last_run budget 0 items first;
  displaced ← displaced_loop items (pl_placed first) 0 [];
  let last_tape := mkPlanItem Owed run :: omap (λ i, items !! i) displaced in
  let last_plan := place budget 0 last_tape in
  if all_placed last_plan then Some (zip displaced (drop 1 (pl_placed last_plan))) else None.

Definition every_unit_placed (budget : CapacityBudget)
    (current : list (PendingUnit * PlanItem)) (next : PlanItem) : bool :=
  let items := (snd <$> current) ++ [next] in
  let first := place budget 0 items in
  all_placed first || bool_decide (is_Some (after_the_tail budget items first)).

Definition batch_in_tape_order (units : list (PendingUnit * PlanItem)) : Batch :=
  let whole := filter (λ ui : PendingUnit * PlanItem, item_class ui.2 = Whole) units in
  let spannable := filter (λ ui : PendingUnit * PlanItem, item_class ui.2 ≠ Whole) units in
  foldl (λ b ui, batch_push b ui.1 (item_bytes ui.2)) empty_batch (whole ++ spannable).

Section spanning.
Variable spanning : Spanning.
Variable room : BatchRoom.
Variable block_size : Z.

Definition allows_spanning (u : PendingUnit) : bool :=
  bool_decide (unit_name u ∈ spanning_units spanning).

(** The admission of one unit: the refusals it adds. *)
Definition admit_unit (refused : RefusedUnits) (u : PendingUnit) : RefusedUnits :=
  let padded := pad_to_blocks (unit_size_bytes u) block_size in
  let budget_bytes :=
    match allows_spanning u, bound room with
    | true, Some _ => u64_max
    | true, None => fill room
    | false, _ => whole_bytes room
    end in
  let refused_oversized :=
    if bool_decide (budget_bytes < padded) then
      oversized refused ++
        [mkOversizedUnit (unit_name u) (unit_size_bytes u) padded budget_bytes (allows_spanning u)]
    else oversized refused in
  let refused_staging :=
    match staging_total spanning with
    | Some total =>
        if allows_spanning u && bool_decide (total < unit_size_bytes u) then
          larger_than_staging refused ++
            [mkLargerThanStaging (unit_name u) (unit_size_bytes u) total]
        else larger_than_staging refused
    | None => larger_than_staging refused
    end in
  mkRefusedUnits refused_oversized refused_staging.

Definition plan_item (u : PendingUnit) : PlanItem :=
  mkPlanItem (if allows_spanning u then Spannable else Whole)
    (pad_to_blocks (unit_size_bytes u) block_size).

Fixpoint spanning_loop (units : list PendingUnit) (batches : list Batch)
    (current : list (PendingUnit * PlanItem)) : list Batch :=
  match units with
  | [] =>
      if bool_decide (current = []) then batches
      else batches ++ [batch_in_tape_order current]
  | u :: units =>
      let item := plan_item u in
      if negb (bool_decide (current = []))
         && negb (every_unit_placed (room_budget room) current item)
      then spanning_loop units (batches ++ [batch_in_tape_order current]) [(u, item)]
      else spanning_loop units batches (current ++ [(u, item)])
  end.
End spanning.

Definition plan_batches_spanning (units : list PendingUnit)
    (prioritised : option (gset string)) (spanning : Spanning) (room : BatchRoom)
    (block_size : Z) : result RefusedUnits (list Batch) :=
  let units := match prioritised with
               | Some first => sort_prioritised units first
               | None => merge_sort name_le units
               end in
  if negb (existsb (allows_spanning spanning) units) then
    map_err (λ o, mkRefusedUnits o []) (next_fit (whole_bytes room) block_size units)
  else
    let refused := foldl (admit_unit spanning room block_size) no_refusal units in
    if bool_decide (refused ≠ no_refusal) then Err refused
    else Ok (spanning_loop spanning room block_size units [] []).
