(* ===== verification/Batches.v ===== *)
(** * The batch selector: theorems

    Next-fit is specified once, over any planner that says what one tape
    takes ([TapePlanner]); [next_fit] and the spanning selector are both shown
    to implement it, with the sum of block-padded sizes and with the per-tape
    plan order as their planners. *)

From S2P Require Import Prelude LayoutModel PlanOrder Gate Selector.
Local Open Scope Z_scope.
Local Open Scope rust_scope.

(** ** Next-fit over an abstract planner *)

(** What the selector relies on: a set of units one tape takes, and that a
    unit admitted at all fits a tape alone. *)
Class TapePlanner (A : Type) : Type := {
  admitted : A → Prop;
  takes : list A → bool;
  takes_one x : admitted x → takes [x] = true;
}.

Section greedy.
Context {A : Type} `{!TapePlanner A}.
Implicit Types (us cur b : list A) (bs : list (list A)).

(** The plans next-fit may give: every unit in the order given, in batches
    grown one unit at a time, each closed only by a unit it cannot take. *)
Record next_fit_plan (us : list A) (bs : list (list A)) : Prop := {
  nf_all : mjoin bs = us;
  nf_nonempty : Forall (λ b, b ≠ []) bs;
  nf_takes : Forall (λ b, takes b = true) bs;
  nf_closed i b x c : bs !! i = Some b → bs !! S i = Some (x :: c) → takes (b ++ [x]) = false;
}.

Fixpoint greedy (us cur : list A) : list (list A) :=
  match us with
  | [] => match cur with [] => [] | _ => [cur] end
  | u :: us =>
      if match cur with [] => false | _ => negb (takes (cur ++ [u])) end
      then cur :: greedy us [u]
      else greedy us (cur ++ [u])
  end.

Lemma greedy_head us cur :
  cur ≠ [] → ∃ c bs, greedy us cur = (cur ++ c) :: bs.
Proof.
  revert cur. induction us as [|u us IH]; intros cur Hc; simpl.
  - destruct cur; [done|]. exists [], []. by rewrite app_nil_r.
  - destruct cur as [|y cur]; [done|]. destruct (negb _).
    + exists [], (greedy us [u]). by rewrite app_nil_r.
    + destruct (IH ((y :: cur) ++ [u])) as (c & bs & ->); [done|].
      exists (u :: c), bs. by rewrite <-app_assoc.
Qed.

Lemma greedy_join us cur : mjoin (greedy us cur) = cur ++ us.
Proof.
  revert cur. induction us as [|u us IH]; intros cur; simpl.
  - destruct cur; [done|]. simpl. by rewrite app_nil_r.
  - destruct (match cur with [] => _ | _ => _ end); simpl; rewrite IH; [done|].
    by rewrite <-app_assoc.
Qed.

Lemma greedy_spec us cur :
  Forall admitted us → (cur ≠ [] → takes cur = true) →
  Forall (λ b, b ≠ []) (greedy us cur) ∧ Forall (λ b, takes b = true) (greedy us cur) ∧
  ∀ i b x c, greedy us cur !! i = Some b → greedy us cur !! S i = Some (x :: c) →
    takes (b ++ [x]) = false.
Proof.
  intros Hus. revert cur. induction Hus as [|u us Hu Hus IH]; intros cur Hc; simpl.
  - destruct cur as [|y cur]; simpl; [by repeat constructor|].
    repeat split; [by repeat constructor|by repeat constructor; apply Hc|done].
  - destruct cur as [|y cur]; simpl.
    { apply IH. intros _. by apply takes_one. }
    destruct (takes (y :: cur ++ [u])) eqn:Ht; simpl.
    { by apply (IH (y :: cur ++ [u])). }
    destruct (IH [u]) as (H1 & H2 & H3); [by intros _; apply takes_one|].
    repeat split; [by constructor|by constructor; [apply Hc|]|].
    intros [|i] b x c Hb Hx; simpl in *; [|by eapply H3].
    injection Hb as <-. destruct (greedy_head us [u]) as (c' & bs & Hg); [done|].
    rewrite Hg in Hx. by injection Hx as <- _.
Qed.

Lemma greedy_plan us : Forall admitted us → next_fit_plan us (greedy us []).
Proof.
  intros Hus. destruct (greedy_spec us []) as (H1 & H2 & H3); [done..|].
  split; [apply greedy_join|done..].
Qed.
End greedy.

(** ** The unit sizes *)

Section sum_planner.
Variable budget block_size : Z.

Definition on_tape (u : PendingUnit) : Z := padded block_size (unit_size_bytes u).

(** One tape takes units up to the sum of their block-padded sizes. *)
Definition tape_sum (us : list PendingUnit) : Z := sumZ (on_tape <$> us).

#[export] Program Instance sum_planner : TapePlanner PendingUnit := {|
  admitted u := on_tape u ≤ budget;
  takes us := bool_decide (tape_sum us ≤ budget);
|}.
Next Obligation.
  intros u Hu. apply bool_decide_eq_true. change (on_tape u + 0 ≤ budget). simpl in Hu. lia.
Qed.

(** The batch of a run of units, its totals exact. *)
Definition batch_of (us : list PendingUnit) : Batch :=
  mkBatch us (sumZ (unit_size_bytes <$> us)) (tape_sum us).

(** Units whose sizes are sizes, and whose sum on tape fits a [u64]. *)
Record sane_units (us : list PendingUnit) : Prop := {
  su_block : 0 < block_size;
  su_sizes : Forall (λ u, 0 ≤ unit_size_bytes u) us;
  su_total : tape_sum us ≤ u64_max;
}.

Lemma on_tape_ge u : 0 < block_size → 0 ≤ unit_size_bytes u → 0 ≤ unit_size_bytes u ≤ on_tape u.
Proof.
  intros Hb Hu. pose proof (div_ceil_spec _ _ Hu Hb). unfold on_tape, padded. lia.
Qed.

Lemma tape_sum_app us vs : tape_sum (us ++ vs) = tape_sum us + tape_sum vs.
Proof. unfold tape_sum. by rewrite fmap_app, sumZ_app. Qed.

Lemma tape_sum_bounds us :
  0 < block_size → Forall (λ u, 0 ≤ unit_size_bytes u) us →
  0 ≤ sumZ (unit_size_bytes <$> us) ≤ tape_sum us.
Proof.
  intros Hb Hs. unfold tape_sum. induction Hs as [|u us Hu Hs IH]; csimpl; [lia|].
  pose proof (on_tape_ge u Hb Hu). lia.
Qed.

Lemma padded_size_exact us u :
  sane_units us → u ∈ us → padded_size block_size u = on_tape u ∧ on_tape u ≤ tape_sum us.
Proof.
  intros [Hb Hs Ht] Hu.
  assert (on_tape u ≤ tape_sum us) as Hle.
  { apply sumZ_elem_le; [|by apply list_elem_of_fmap_2].
    apply Forall_fmap. eapply Forall_impl; [exact Hs|]. intros v Hv. simpl.
    pose proof (on_tape_ge v Hb Hv). lia. }
  split; [|done]. unfold padded_size, on_tape in *. rewrite Forall_forall in Hs.
  apply pad_to_blocks_exact; [done|by apply Hs|lia].
Qed.

Lemma batch_push_exact cur u us :
  sane_units (cur ++ u :: us) →
  batch_push (batch_of cur) u (on_tape u) = batch_of (cur ++ [u]).
Proof.
  intros [Hb Hs Ht]. unfold batch_push, batch_of. simpl.
  apply Forall_app in Hs as [Hc [Hu Hs]%Forall_cons].
  pose proof (tape_sum_bounds cur Hb Hc) as H1. pose proof (tape_sum_bounds us Hb Hs) as H2.
  pose proof (on_tape_ge u Hb Hu) as H3.
  rewrite tape_sum_app in *. change (tape_sum (u :: us)) with (on_tape u + tape_sum us) in Ht.
  change (tape_sum [u]) with (on_tape u + 0).
  rewrite fmap_app, sumZ_app. simpl.
  f_equal; unfold add64; rewrite wrap64_small; unfold_width; lia.
Qed.

Lemma next_fit_loop_greedy us cur batches :
  sane_units (cur ++ us) →
  next_fit_loop budget block_size us batches (batch_of cur) =
  batches ++ (batch_of <$> greedy us cur).
Proof.
  revert cur batches. induction us as [|u us IH]; intros cur batches Hsane; simpl.
  { destruct cur; simpl; [by rewrite app_nil_r|done]. }
  destruct (padded_size_exact _ u Hsane) as [-> Hle]; [apply elem_of_app; right; left|].
  assert (padded_bytes (batch_of cur) +w on_tape u = tape_sum (cur ++ [u])) as Hsum.
  { exact (f_equal padded_bytes (batch_push_exact cur u us Hsane)). }
  change (padded_bytes (batch_of cur)) with (tape_sum cur) in Hsum.
  destruct cur as [|y cur]; simpl.
  - change (batch_push empty_batch u) with (batch_push (batch_of []) u).
    rewrite (batch_push_exact [] u us Hsane). simpl. apply (IH [u]). done.
  - change (padded_bytes (batch_of (y :: cur))) with (tape_sum (y :: cur)).
    change (y :: cur ++ [u]) with ((y :: cur) ++ [u]). rewrite Hsum.
    assert (bool_decide (budget < tape_sum ((y :: cur) ++ [u])) =
      negb (bool_decide (tape_sum ((y :: cur) ++ [u]) ≤ budget))) as ->.
    { repeat case_bool_decide; try done; lia. }
    destruct (negb _); simpl.
    + change (batch_push empty_batch u) with (batch_push (batch_of []) u).
      rewrite (batch_push_exact [] u us).
      * simpl. rewrite (IH [u]), <-app_assoc; [done|].
        destruct Hsane as [Hb Hs Ht]. split; [done|by apply Forall_app in Hs as [_ Hs]|].
        rewrite tape_sum_app in Ht. apply Forall_app in Hs as [Hs _].
        pose proof (tape_sum_bounds _ Hb Hs). simpl. lia.
      * destruct Hsane as [Hb Hs Ht]. split; [done|by apply Forall_app in Hs as [_ Hs]|].
        rewrite tape_sum_app in Ht. apply Forall_app in Hs as [Hs _].
        pose proof (tape_sum_bounds _ Hb Hs). simpl. lia.
    + rewrite (batch_push_exact _ u us) by done. apply (IH ((y :: cur) ++ [u])).
      by rewrite <-app_assoc.
Qed.
End sum_planner.

(** ** Orders *)

#[export] Instance name_le_trans : Transitive name_le.
Proof. intros a b c. apply string_leb_trans. Qed.

#[export] Instance name_le_total : Total name_le.
Proof. intros a b. apply String.leb_total. Qed.

#[export] Instance prioritised_le_trans first : Transitive (prioritised_le first).
Proof.
  intros a b c. unfold prioritised_le. repeat case_bool_decide; try done. by etrans.
  by etrans.
Qed.

#[export] Instance prioritised_le_total first : Total (prioritised_le first).
Proof.
  intros a b. unfold prioritised_le. repeat case_bool_decide; auto; apply (total name_le).
Qed.

(** ** Plans of whole units *)

Section plans.
Variable budget block_size : Z.
Implicit Types us : list PendingUnit.

Definition oversized_units us : list OversizedUnit :=
  (λ u, mkOversizedUnit (unit_name u) (unit_size_bytes u) (on_tape block_size u) budget false) <$>
    filter (λ u, budget < on_tape block_size u) us.

Lemma omap_oversized us :
  sane_units block_size us →
  omap (oversized_of budget block_size) us = oversized_units us.
Proof.
  intros Hsane.
  assert (∀ u, u ∈ us → padded_size block_size u = on_tape block_size u) as Hp.
  { intros u Hu. by apply (padded_size_exact block_size us). }
  clear Hsane. unfold oversized_units. induction us as [|u us IH]; csimpl; [done|].
  unfold oversized_of at 1. rewrite Hp by (by left). case_bool_decide as Ho.
  - rewrite filter_cons_True by done. csimpl. f_equal. apply IH. intros v Hv. apply Hp. by right.
  - rewrite filter_cons_False by done. apply IH. intros v Hv. apply Hp. by right.
Qed.

Lemma next_fit_plans us :
  sane_units block_size us →
  match next_fit budget block_size us with
  | Ok batches => Forall (λ u, on_tape block_size u ≤ budget) us ∧
      ∃ bs, batches = batch_of block_size <$> bs ∧
        next_fit_plan (TapePlanner0 := sum_planner budget block_size) us bs
  | Err refused => refused = oversized_units us ∧ refused ≠ []
  end.
Proof.
  intros Hsane. unfold next_fit. rewrite (omap_oversized us Hsane).
  destruct (oversized_units us) as [|o os] eqn:Ho; [|done].
  assert (Forall (λ u, on_tape block_size u ≤ budget) us) as Hall.
  { apply Forall_forall. intros u Hu. apply fmap_nil_inv in Ho.
    destruct (decide (budget < on_tape block_size u)); [|lia].
    assert (u ∈ filter (λ u, budget < on_tape block_size u) us) as Hf by (by apply list_elem_of_filter).
    rewrite Ho in Hf. by apply not_elem_of_nil in Hf. }
  split; [done|]. exists (greedy (TapePlanner0 := sum_planner budget block_size) us []).
  split; [by apply (next_fit_loop_greedy budget block_size us [] [])|].
  by apply greedy_plan.
Qed.

(** Next-fit over block-padded sizes. It refuses exactly the units no tape
    can hold, all of them and nothing else; otherwise it places every unit
    once, in the order given, in non-empty batches whose totals are exact and
    within the budget, each closed only by a unit that would pass it. *)
Theorem next_fit_spec us :
  sane_units block_size us →
  match next_fit budget block_size us with
  | Ok batches => Forall (λ u, on_tape block_size u ≤ budget) us ∧
      ∃ bs, batches = batch_of block_size <$> bs ∧
        next_fit_plan (TapePlanner0 := sum_planner budget block_size) us bs
  | Err refused => refused = oversized_units us ∧ refused ≠ []
  end.
Proof. exact (next_fit_plans us). Qed.

Lemma sane_units_perm us vs :
  us ≡ₚ vs → sane_units block_size us → sane_units block_size vs.
Proof.
  intros Hp [Hb Hs Ht]. split; [done|by rewrite <-Hp|].
  unfold tape_sum in *. by rewrite <-(sumZ_Permutation _ _ (fmap_Permutation _ _ _ Hp)).
Qed.

(** The units of an accepted next-fit plan, in order, are the input's. *)
Lemma next_fit_units us batches :
  sane_units block_size us → next_fit budget block_size us = Ok batches →
  mjoin (batch_units <$> batches) = us.
Proof.
  intros Hsane Hok. pose proof (next_fit_plans us Hsane) as H. rewrite Hok in H.
  destruct H as (_ & bs & -> & Hplan). rewrite <-list_fmap_compose.
  rewrite (list_fmap_ext _ id) by done. rewrite list_fmap_id. apply Hplan.
Qed.

(** The tape spine. The batches hold the pending units, each once, and
    read through in order they run through the names alphabetically, so each
    tape is a contiguous run of the alphabet. *)
Theorem plan_batches_spine us batches :
  sane_units block_size us → plan_batches us budget block_size = Ok batches →
  mjoin (batch_units <$> batches) ≡ₚ us ∧
  StronglySorted name_le (mjoin (batch_units <$> batches)).
Proof.
  intros Hsane Hok. pose proof (merge_sort_Permutation name_le us) as Hp.
  unfold plan_batches in Hok. apply next_fit_units in Hok as ->.
  - split; [done|]. apply (StronglySorted_merge_sort name_le).
  - by eapply sane_units_perm.
Qed.

Lemma prioritised_split first us :
  StronglySorted (prioritised_le first) us →
  ∃ hi lo, us = hi ++ lo ∧ Forall (λ u, unit_name u ∈ first) hi ∧
    Forall (λ u, unit_name u ∉ first) lo ∧
    StronglySorted name_le hi ∧ StronglySorted name_le lo.
Proof.
  induction 1 as [|u us Hs (hi & lo & -> & Hhi & Hlo & Shi & Slo) Hu].
  { exists [], []. repeat constructor. }
  unfold prioritised_le in Hu. apply Forall_app in Hu as [Hu1 Hu2].
  destruct (decide (unit_name u ∈ first)) as [Hin|Hni].
  - exists (u :: hi), lo. repeat split; try done; [by constructor|]. constructor; [done|].
    rewrite Forall_forall in Hu1, Hhi |- *. intros v Hv. specialize (Hu1 v Hv).
    by rewrite !bool_decide_eq_true_2 in Hu1 by auto.
  - destruct hi as [|v hi].
    + exists [], (u :: lo). simpl. repeat split; [constructor|by constructor|constructor|].
      constructor; [done|]. rewrite Forall_forall in Hu2, Hlo |- *. intros v Hv.
      specialize (Hu2 v Hv). by rewrite !bool_decide_eq_false_2 in Hu2 by auto.
    + apply Forall_cons in Hu1 as [Hu1 _]. apply Forall_cons in Hhi as [Hhi _].
      by rewrite bool_decide_eq_false_2, bool_decide_eq_true_2 in Hu1.
Qed.

(** With a policy the prioritised units fill the first tapes: the batches
    hold the pending units, each once, the prioritised ones first and every
    other unit after them, each group in name order. *)
Theorem plan_batches_prioritised_order us first batches :
  sane_units block_size us →
  plan_batches_prioritised us first budget block_size = Ok batches →
  mjoin (batch_units <$> batches) ≡ₚ us ∧
  ∃ hi lo, mjoin (batch_units <$> batches) = hi ++ lo ∧
    Forall (λ u, unit_name u ∈ first) hi ∧ Forall (λ u, unit_name u ∉ first) lo ∧
    StronglySorted name_le hi ∧ StronglySorted name_le lo.
Proof.
  intros Hsane Hok. pose proof (merge_sort_Permutation (prioritised_le first) us) as Hp.
  unfold plan_batches_prioritised, sort_prioritised in Hok. apply next_fit_units in Hok as ->.
  - split; [done|]. apply prioritised_split, (StronglySorted_merge_sort (prioritised_le first)).
  - by eapply sane_units_perm.
Qed.
End plans.

(** ** Plans with spans *)

Section span_planner.
Variable room : BatchRoom.

Definition placed_together (items : list PlanItem) : bool :=
  all_placed (place (room_budget room) 0 items) ||
  bool_decide (is_Some (after_the_tail (room_budget room) items
                          (place (room_budget room) 0 items))).

(** A unit the admission passes: a whole unit within one tape, a spannable
    one at any size with a plan bound, within the fill ceiling without. *)
Definition admissible (it : PlanItem) : Prop :=
  0 ≤ item_bytes it ≤ u64_max ∧
  match item_class it with
  | Owed => False
  | Whole => item_bytes it ≤ whole_bytes room
  | Spannable => bound room = None → item_bytes it ≤ fill room
  end.

Lemma label_at_alone p :
  0 ≤ p ≤ u64_max → (bound room = None → p ≤ fill room) →
  label_at (room_budget room) p ≠ Refused.
Proof.
  intros Hp Hb. unfold label_at, under_ceiling. simpl.
  case_bool_decide as Hu; [done|]. destruct (bound room); [by case_bool_decide|].
  specialize (Hb eq_refl). rewrite sat_add64_exact in Hu by lia. lia.
Qed.

Lemma one_whole_placed p :
  0 ≤ p ≤ u64_max → p ≤ whole_bytes room →
  all_placed (place (room_budget room) 0 [mkPlanItem Whole p]) = true.
Proof.
  intros Hp Hc. assert (well_sized 0 [mkPlanItem Whole p]) as Hws.
  { split; [lia|apply Forall_singleton; simpl; lia|simpl; lia]. }
  destruct (whole_plan_is_split (room_budget room) [mkPlanItem Whole p] 0 Hws)
    as (_ & Hl & _); [by apply Forall_singleton|].
  specialize (Hl 0%nat ltac:(simpl; lia)).
  assert (0 < ps_planned (split (room_budget room) 0 [p]))%nat as Hsp.
  { clear Hl. unfold split, whole_run. simpl. unfold under_ceiling. simpl.
    rewrite (sat_add64_exact 0 p), (sat_add64_exact (0 + p) 0) by lia.
    unfold whole_bytes in Hc. case_bool_decide; simpl; [lia|].
    destruct (bound room) as [bd|]; simpl in *; [|lia].
    rewrite bool_decide_eq_true_2 by lia. simpl. lia. }
  rewrite (bool_decide_eq_true_2 (0 < ps_planned _)%nat) in Hl by done.
  pose proof (placed_length (room_budget room) [mkPlanItem Whole p] 0 Hws) as Hlen.
  unfold all_placed. destruct (pl_placed _) as [|q [|? ?]]; try done. injection Hl as ->.
  by destruct (bool_decide (0 < ps_committed _)%nat).
Qed.

Lemma one_span_placed p :
  0 ≤ p ≤ u64_max → (bound room = None → p ≤ fill room) →
  all_placed (place (room_budget room) 0 [mkPlanItem Spannable p]) = true.
Proof.
  intros Hp Hb. pose proof (label_at_alone p Hp Hb) as Hl. revert Hl.
  unfold place, place_spans. simpl. unfold place_span, span_placed, label_at, under_ceiling. simpl.
  rewrite (sat_add64_exact p 0) by lia. unfold bytes_at, bytes_of, sum64. simpl.
  assert (0 +sat 0 = 0) as -> by done.
  assert (0 +sat p = p) as -> by (unfold_width; lia).
  rewrite (sat_add64_exact p 0) by lia.
  destruct (bool_decide (p + 0 ≤ fill room)); [done|].
  destruct (bound room) as [bd|]; [|done]. by destruct (bool_decide (p ≤ bd)).
Qed.

#[export] Program Instance span_planner : TapePlanner (PendingUnit * PlanItem) := {|
  admitted ui := admissible ui.2;
  takes g := placed_together (snd <$> g);
|}.
Next Obligation.
  intros [u [[] p]] [Hp Hc]; simpl in *; [done| |]; unfold placed_together.
  - by rewrite one_whole_placed.
  - by rewrite one_span_placed.
Qed.
End span_planner.

Section spanning_plans.
Variable spanning : Spanning.
Variable room : BatchRoom.
Variable block_size : Z.
Implicit Types us : list PendingUnit.

Local Abbreviation allows := (allows_spanning spanning).
Local Abbreviation item := (plan_item spanning block_size).

(** The most a unit may take, and the refusals, as the specification has
    them. *)
Definition unit_limit (u : PendingUnit) : Z :=
  if allows u then (match bound room with Some _ => u64_max | None => fill room end)
  else whole_bytes room.

Definition too_large us : list OversizedUnit :=
  (λ u, mkOversizedUnit (unit_name u) (unit_size_bytes u) (on_tape block_size u)
          (unit_limit u) (allows u)) <$>
    filter (λ u, unit_limit u < on_tape block_size u) us.

Definition too_large_to_stage us : list LargerThanStaging :=
  from_option (λ total,
    (λ u, mkLargerThanStaging (unit_name u) (unit_size_bytes u) total) <$>
      filter (λ u, allows u = true ∧ total < unit_size_bytes u) us) [] (staging_total spanning).

Lemma admission us refused :
  (∀ u, u ∈ us → pad_to_blocks (unit_size_bytes u) block_size = on_tape block_size u) →
  foldl (admit_unit spanning room block_size) refused us =
  mkRefusedUnits (oversized refused ++ too_large us)
    (larger_than_staging refused ++ too_large_to_stage us).
Proof.
  revert refused. induction us as [|u us IH]; intros refused Hp; simpl.
  { unfold too_large, too_large_to_stage. destruct refused as [o l].
    destruct (staging_total spanning); simpl; by rewrite !app_nil_r. }
  rewrite IH by (intros v Hv; apply Hp; by right). clear IH.
  unfold admit_unit. rewrite (Hp u) by (by left). simpl. f_equal.
  - unfold too_large. assert (match allows u, bound room with
      | true, Some _ => u64_max | true, None => fill room | false, _ => whole_bytes room end
      = unit_limit u) as -> by (unfold unit_limit; by destruct (allows u)).
    case_bool_decide.
    + rewrite filter_cons_True by done. csimpl. by rewrite <-app_assoc.
    + by rewrite filter_cons_False by done.
  - unfold too_large_to_stage. destruct (staging_total spanning) as [total|]; simpl; [|done].
    destruct (allows u && bool_decide (total < unit_size_bytes u)) eqn:Hc.
    + apply andb_true_iff in Hc as [Ha Hl%bool_decide_eq_true].
      rewrite filter_cons_True by done. csimpl. by rewrite <-app_assoc.
    + rewrite filter_cons_False; [done|]. intros [Ha Hl].
      rewrite Ha, bool_decide_eq_true_2 in Hc by done. done.
Qed.

Lemma spanning_loop_greedy us cur batches :
  spanning_loop spanning room block_size us batches cur =
  batches ++ (batch_in_tape_order <$>
    greedy (TapePlanner0 := span_planner room) ((λ u, (u, item u)) <$> us) cur).
Proof.
  revert cur batches. induction us as [|u us IH]; intros cur batches; csimpl.
  { destruct cur; simpl; [by rewrite app_nil_r|done]. }
  assert (negb (every_unit_placed (room_budget room) cur (item u)) =
    negb (placed_together room (snd <$> (cur ++ [(u, item u)])))) as ->.
  { unfold every_unit_placed, placed_together. by rewrite fmap_app. }
  destruct cur as [|y cur]; simpl; [apply IH|].
  destruct (negb _); rewrite IH; [|done]. by rewrite <-app_assoc.
Qed.

Lemma items_admissible us :
  sane_units block_size us → too_large us = [] →
  Forall (admitted (TapePlanner := span_planner room)) ((λ u, (u, item u)) <$> us).
Proof.
  intros Hsane Hnone. apply Forall_fmap, Forall_forall. intros u Hu. simpl.
  destruct (padded_size_exact block_size us u Hsane Hu) as [Hp Hle].
  unfold padded_size in Hp. unfold admissible, plan_item. simpl. rewrite Hp.
  assert (on_tape block_size u ≤ unit_limit u) as Hlim.
  { apply fmap_nil_inv in Hnone. destruct (decide (unit_limit u < on_tape block_size u)); [|lia].
    assert (u ∈ filter (λ u, unit_limit u < on_tape block_size u) us) as Hf
      by (by apply list_elem_of_filter).
    rewrite Hnone in Hf. by apply not_elem_of_nil in Hf. }
  destruct Hsane as [Hb Hs Ht]. rewrite Forall_forall in Hs.
  pose proof (on_tape_ge block_size u Hb (Hs u Hu)). split; [lia|].
  unfold unit_limit in Hlim. destruct (allows u); [|done]. intros Hn. by rewrite Hn in Hlim.
Qed.

(** The order the selector fills in. *)
Definition fill_order (prioritised : option (gset string)) us : list PendingUnit :=
  match prioritised with
  | Some first => sort_prioritised us first
  | None => merge_sort name_le us
  end.

Lemma fill_order_perm prioritised us : fill_order prioritised us ≡ₚ us.
Proof. destruct prioritised; apply merge_sort_Permutation. Qed.

(** C37: the spanning selector. With a unit that may span pending, it refuses
    exactly the units no plan can hold: too large for one tape and not
    spanning, spanning with no plan bound past the fill ceiling, or larger
    than the staging area. Otherwise it is next-fit over the per-tape plan
    order: every batch holds only units the plan order puts on its tape, or
    after the tail on its last, and is closed only by a unit it does not. *)
Theorem plan_batches_spanning_spec us prioritised :
  sane_units block_size us →
  existsb (allows_spanning spanning) us = true →
  match plan_batches_spanning us prioritised spanning room block_size with
  | Ok batches => too_large us = [] ∧ too_large_to_stage us = [] ∧
      ∃ groups, batches = batch_in_tape_order <$> groups ∧
        next_fit_plan (TapePlanner0 := span_planner room)
          ((λ u, (u, plan_item spanning block_size u)) <$> fill_order prioritised us) groups
  | Err refused =>
      refused = mkRefusedUnits (too_large (fill_order prioritised us))
                  (too_large_to_stage (fill_order prioritised us)) ∧
      ¬ (too_large us = [] ∧ too_large_to_stage us = [])
  end.
Proof.
  intros Hsane Hex. pose proof (fill_order_perm prioritised us) as Hp.
  unfold plan_batches_spanning. fold (fill_order prioritised us).
  set (vs := fill_order prioritised us) in *.
  assert (sane_units block_size vs) as Hvs by (by apply (sane_units_perm block_size us vs)).
  assert (existsb (allows_spanning spanning) vs = true) as ->.
  { apply existsb_exists in Hex as (u & Hu & Ha). apply existsb_exists. exists u.
    split; [|done]. apply list_elem_of_In. rewrite Hp. by apply list_elem_of_In. }
  simpl. rewrite admission; [|intros u Hu; by apply (padded_size_exact block_size vs)]. simpl.
  assert (too_large vs ≡ₚ too_large us) as HpL.
  { unfold too_large. by rewrite Hp. }
  assert (too_large_to_stage vs ≡ₚ too_large_to_stage us) as HpS.
  { unfold too_large_to_stage. destruct (staging_total spanning); simpl; [|done]. by rewrite Hp. }
  case_bool_decide as Hr.
  - split; [done|]. intros [HL HS]. rewrite HL in HpL. rewrite HS in HpS.
    apply Permutation_nil_r in HpL, HpS. rewrite HpL, HpS in Hr. done.
  - injection Hr as HL HS. rewrite HL in HpL. rewrite HS in HpS.
    symmetry in HpL, HpS. apply Permutation_nil_r in HpL, HpS. split; [done|]. split; [done|].
    exists (greedy (TapePlanner0 := span_planner room) ((λ u, (u, item u)) <$> vs) []).
    split; [by rewrite spanning_loop_greedy|]. apply greedy_plan. by apply items_admissible.
Qed.
End spanning_plans.

(** ** What a batch holds *)

(** The totals and the order of one batch of the spanning selector. *)
Lemma batch_push_fold (g : list (PendingUnit * PlanItem)) b :
  batch_units (foldl (λ b ui, batch_push b ui.1 (item_bytes ui.2)) b g) =
    batch_units b ++ g.*1.
Proof.
  revert b. induction g as [|ui g IH]; intros b; simpl; [by rewrite app_nil_r|].
  rewrite IH. simpl. by rewrite <-app_assoc.
Qed.

(** A batch of the spanning selector keeps its units, whole ones before
    spannable ones, each group in the order taken: the tape's own order. *)
Theorem batch_in_tape_order_units g :
  batch_units (batch_in_tape_order g) =
    (filter (λ ui : PendingUnit * PlanItem, item_class ui.2 = Whole) g).*1 ++
    (filter (λ ui : PendingUnit * PlanItem, item_class ui.2 ≠ Whole) g).*1 ∧
  batch_units (batch_in_tape_order g) ≡ₚ g.*1.
Proof.
  assert (batch_units (batch_in_tape_order g) =
    (filter (λ ui : PendingUnit * PlanItem, item_class ui.2 = Whole) g).*1 ++
    (filter (λ ui : PendingUnit * PlanItem, item_class ui.2 ≠ Whole) g).*1) as ->.
  { unfold batch_in_tape_order. by rewrite batch_push_fold, fmap_app. }
  split; [done|]. rewrite <-fmap_app. apply fmap_Permutation.
  induction g as [|ui g IH]; [done|].
  destruct (decide (item_class ui.2 = Whole)).
  - rewrite filter_cons_True, (filter_cons_False (λ ui : PendingUnit * PlanItem, item_class ui.2 ≠ Whole))
      by naive_solver. simpl. by rewrite IH.
  - rewrite filter_cons_False, (filter_cons_True (λ ui : PendingUnit * PlanItem, item_class ui.2 ≠ Whole))
      by naive_solver. by rewrite <-Permutation_middle, IH.
Qed.

Section whole_batches.
Variable room : BatchRoom.
Local Abbreviation b := (room_budget room).

Lemma all_placed_spec pl :
  all_placed pl = true ↔ ∀ i p, pl_placed pl !! i = Some p → p ≠ Deferred ∧ p ≠ Refused.
Proof.
  unfold all_placed. rewrite forallb_forall. split.
  - intros H i p Hp. apply list_elem_of_lookup_2, list_elem_of_In, H in Hp.
    apply negb_true_iff, bool_decide_eq_false in Hp. naive_solver.
  - intros H p (i & Hp)%list_elem_of_In%list_elem_of_lookup. apply H in Hp.
    apply negb_true_iff, bool_decide_eq_false. naive_solver.
Qed.

(** An end the labels accept is within the room. *)
Lemma label_within e :
  (∀ bd, bound room = Some bd → fill room ≤ bd) → e ≤ u64_max →
  label_at b e = Committed ∨ label_at b e = PastCeiling ↔ e ≤ whole_bytes room.
Proof.
  intros Hfb He. unfold label_at, under_ceiling, whole_bytes. simpl.
  rewrite sat_add64_exact, Z.add_0_r by lia.
  destruct (bound room) as [bd|]; simpl.
  - specialize (Hfb bd eq_refl). repeat case_bool_decide; split; intros; try lia; naive_solver.
  - case_bool_decide; split; intros; try lia; naive_solver.
Qed.

Lemma split_fits_sum sizes :
  (∀ bd, bound room = Some bd → fill room ≤ bd) → 0 ≤ fill room →
  Forall (λ s, 0 ≤ s) sizes → sumZ sizes ≤ u64_max →
  fits (split b 0 sizes) = bool_decide (sumZ sizes ≤ whole_bytes room).
Proof.
  intros Hfb Hf Hs Hm. unfold fits, split, whole_run.
  set (r := whole_run_loop b true sizes 0 0 0 false).
  assert (∀ n, end_after 0 sizes n = sumZ (take n sizes)) as Hend.
  { intros n. unfold end_after. pose proof (sumZ_submseteq (take n sizes) sizes Hs
      (sublist_submseteq _ _ (sublist_take _ _))).
    rewrite foldl_sat_add64_exact; [lia|by apply Forall_take|lia|lia]. }
  pose proof (whole_run_loop_le b true sizes 0 false) as Hle. fold r in Hle.
  assert ((let '(committed, planned) := r in mkPlanSplit committed planned (length sizes)) =
    mkPlanSplit r.1 r.2 (length sizes)) as -> by (by destruct r). simpl.
  apply bool_decide_ext. split.
  - intros Hall. destruct (decide (length sizes = 0%nat)) as [Hz|Hz].
    { destruct sizes; [|done]. simpl. unfold whole_bytes.
      destruct (bound room) as [bd|]; simpl; [specialize (Hfb bd eq_refl)|]; lia. }
    apply (label_within (sumZ sizes) Hfb Hm).
    rewrite <-(firstn_all sizes), <-Hend. replace (length sizes) with (S (length sizes - 1)) by lia.
    rewrite (whole_run_loop_label b true sizes 0 false (length sizes - 1));
      [|done|unfold_width; lia|done|fold r; lia].
    case_bool_decide; auto.
  - intros Hsum. destruct (decide (r.2 = length sizes)) as [|Hne]; [done|]. exfalso.
    destruct (whole_run_loop_maximal b true sizes 0 false) as [H1 H2]; [fold r; lia|].
    fold r in H1, H2. rewrite Hend in H1, H2.
    pose proof (sumZ_submseteq (take (S r.2) sizes) sizes Hs (sublist_submseteq _ _ (sublist_take _ _))).
    unfold whole_bytes in Hsum. destruct (bound room) as [bd|] eqn:Hb; simpl in Hsum.
    { specialize (H2 bd Hb eq_refl). lia. }
    destruct H1 as [H1|[?|H1]]; [|done|].
    + unfold under_ceiling in H1. apply bool_decide_eq_false in H1.
      rewrite sat_add64_exact in H1; simpl in *; lia.
    + apply H1. by apply whole_run_loop_no_bound.
Qed.

(** On a tape of whole units the plan order is the sum test: it places
    every unit of a batch iff their block-padded sizes sum within the bound
    (the fill ceiling without one), so the spanning selector packs whole
    units exactly as the selector without spans does. *)
Theorem whole_batch_placed_iff_sum items :
  (∀ bd, bound room = Some bd → fill room ≤ bd) → 0 ≤ fill room →
  well_sized 0 items → Forall (λ it, item_class it = Whole) items →
  all_placed (place b 0 items) =
    bool_decide (sumZ (item_bytes <$> items) ≤ whole_bytes room).
Proof.
  intros Hfb Hf Hws Hw. pose proof Hws as [_ Hs Hm].
  rewrite <-split_fits_sum; [|done..|by apply Forall_fmap|lia].
  destruct (whole_plan_is_split b items 0 Hws Hw) as (_ & Hl & _).
  apply eq_bool_prop_intro. rewrite !Is_true_true, all_placed_spec.
  set (s := split b 0 (item_bytes <$> items)) in *.
  assert (ps_units s = length items) as Hu.
  { subst s. unfold split. destruct (whole_run _ _ _ _). simpl. by rewrite length_fmap. }
  assert (ps_committed s ≤ ps_planned s ≤ length items)%nat as Hle.
  { pose proof (whole_run_loop_le b true (item_bytes <$> items) 0 false) as Hle.
    rewrite length_fmap in Hle. subst s. unfold split, whole_run.
    destruct (whole_run_loop _ _ _ _ _ _ _); simpl in *; lia. }
  unfold fits. rewrite bool_decide_eq_true, Hu. split.
  - intros H. destruct (decide (ps_planned s < length items)%nat) as [Hlt|]; [|lia].
    pose proof (Hl _ Hlt) as Hp. rewrite !bool_decide_eq_false_2 in Hp by lia.
    apply H in Hp as [_ []]. done.
  - intros Heq i p Hp. pose proof (lookup_lt_Some _ _ _ Hp) as Hi.
    rewrite (placed_length b items 0 Hws) in Hi. rewrite (Hl i Hi) in Hp.
    rewrite (bool_decide_eq_true_2 (i < ps_planned s)%nat) in Hp by lia.
    injection Hp as <-. destruct (bool_decide (i < ps_committed s)%nat); by split.
Qed.
End whole_batches.

(** ** After the tail *)

(** The whole units a first tape makes wait. *)
Definition displaced_units (items : list PlanItem) (pl : Placement) : list nat :=
  filter (λ i, item_class <$> items !! i = Some Whole ∧ pl_placed pl !! i = Some Deferred)
    (seq 0 (length (pl_placed pl))).

Lemma displaced_loop_spec items placed i acc ds :
  displaced_loop items placed i acc = Some ds →
  ds = acc ++ filter (λ j, item_class <$> items !! j = Some Whole ∧ placed !! (j - i)%nat = Some Deferred)
                (seq i (length placed)) ∧
  ∀ k p, placed !! k = Some p → p ≠ Refused ∧
    (p = Deferred → item_class <$> items !! (i + k)%nat = Some Whole).
Proof.
  revert i acc. induction placed as [|q placed IH]; intros i acc H; simpl in H.
  { injection H as <-. simpl. by rewrite app_nil_r. }
  assert (filter (λ j, item_class <$> items !! j = Some Whole ∧
            (q :: placed) !! (j - i)%nat = Some Deferred) (seq (S i) (length placed)) =
          filter (λ j, item_class <$> items !! j = Some Whole ∧
            placed !! (j - S i)%nat = Some Deferred) (seq (S i) (length placed))) as Hshift.
  { apply filter_ext_in. intros j Hj%elem_of_seq.
    replace (j - i)%nat with (S (j - S i)) by lia. done. }
  simpl seq.
  destruct (bool_decide (item_class <$> items !! i = Some Whole) && bool_decide (q = Deferred)) eqn:Hd.
  - apply andb_true_iff in Hd as [Hw%bool_decide_eq_true ->%bool_decide_eq_true].
    apply IH in H as [-> Hk]. rewrite filter_cons_True by (by rewrite Nat.sub_diag).
    rewrite Hshift, <-app_assoc. split; [done|]. intros [|k] p Hp; simpl in *.
    + injection Hp as <-. rewrite Nat.add_0_r. done.
    + rewrite Nat.add_succ_r. by apply (Hk k).
  - case_bool_decide as Hq; [done|]. apply IH in H as [-> Hk].
    rewrite filter_cons_False by (rewrite Nat.sub_diag; simpl; naive_solver).
    rewrite Hshift. split; [done|]. intros [|k] p Hp; simpl in *.
    + injection Hp as <-. split; naive_solver.
    + rewrite Nat.add_succ_r. by apply (Hk k).
Qed.

Lemma omap_items (items : list PlanItem) ds :
  (∀ i, i ∈ ds → item_class <$> items !! i = Some Whole) →
  item_bytes <$> omap (λ i, items !! i) ds = sizes items ds ∧
  length (omap (λ i, items !! i) ds) = length ds ∧
  Forall (λ it, item_class it = Whole) (omap (λ i, items !! i) ds).
Proof.
  unfold sizes, bytes_at. induction ds as [|i ds IH]; intros H; csimpl; [done|].
  destruct IH as (IH1 & IH2 & IH3); [intros j Hj; apply H; by right|].
  assert (item_class <$> items !! i = Some Whole) as Hi by (apply H; by left).
  destruct (items !! i) as [it|]; [|done]. injection Hi as Hi. csimpl.
  rewrite IH1, IH2. by repeat constructor.
Qed.

Section last_tape.
Variable room : BatchRoom.
Variable bd : Z.
Local Abbreviation b := (room_budget room).
Hypothesis Hbd : bound room = Some bd.
Hypothesis Hfill : fill room ≤ bd.
Variable run : Z.
Variable rest : list PlanItem.
Local Abbreviation tape := (mkPlanItem Owed run :: rest).
Hypothesis Hrun : run ≤ bd.
Hypothesis Hwhole : Forall (λ it, item_class it = Whole) rest.
Hypothesis Hws : well_sized 0 tape.

Lemma last_tape_owed : ids_of tape Owed = [0%nat].
Proof.
  unfold ids_of. simpl. rewrite filter_cons_True by done. f_equal. apply filter_none.
  intros i Hi%elem_of_seq. destruct i as [|i]; [lia|]. simpl.
  destruct (rest !! i) as [it|] eqn:Hit; simpl; [|done].
  eapply Forall_lookup_1 in Hwhole; [|exact Hit]. congruence.
Qed.

Lemma last_tape_class i : (0 < i < length tape)%nat → item_class <$> tape !! i = Some Whole.
Proof.
  intros Hi. destruct i as [|i]; [lia|]. simpl in *.
  destruct (lookup_lt_is_Some_2 rest i) as [it Hit]; [lia|]. rewrite Hit. simpl.
  eapply Forall_lookup_1 in Hwhole; [|exact Hit]. congruence.
Qed.

(** No unit of the last tape is a tail: its run ends within the bound. *)
Lemma last_tape_no_tail i : pl_placed (place b 0 tape) !! i ≠ Some Tail.
Proof.
  intros Ht. destruct (tail_ends_order b tape 0 Hws i Ht) as (_ & _ & Hc).
  assert (i < length tape)%nat as Hi.
  { rewrite <-(placed_length b tape 0 Hws). by eapply lookup_lt_Some. }
  destruct (decide (i = 0%nat)) as [->|]; [|by rewrite last_tape_class in Hc by lia].
  destruct (place_has_shape b tape 0 ltac:(done)) as (committed & kept & Hpl).
  assert ((0%nat, label_at b (0 +sat run)) ∈ all_labels b tape 0 committed kept) as Hin.
  { unfold all_labels. apply elem_of_app. right. apply elem_of_app. left.
    unfold owed_run. rewrite last_tape_owed. by left. }
  assert (pl_placed (place b 0 tape) !! 0%nat = Some (label_at b (0 +sat run))) as H0.
  { apply (placed_spec b tape 0 committed kept _ _ _ Hpl). by left. }
  rewrite H0 in Ht. injection Ht as Ht. unfold label_at in Ht. destruct (under_ceiling _ _); [done|].
  simpl in Ht. rewrite Hbd in Ht. case_bool_decide as Hle; [done|].
  destruct Hws as [_ Hnn _]. apply Forall_cons in Hnn as [Hr0 _]. simpl in Hr0.
  apply Hle. unfold_width. lia.
Qed.

Lemma last_tape_spec :
  all_placed (place b 0 tape) = true →
  Forall (λ p, p = Committed ∨ p = PastCeiling) (pl_placed (place b 0 tape)) ∧
  run + sumZ (item_bytes <$> rest) ≤ bd.
Proof.
  intros Hall. rewrite all_placed_spec in Hall.
  assert (∀ i p, pl_placed (place b 0 tape) !! i = Some p → p = Committed ∨ p = PastCeiling) as Hok.
  { intros i p Hp. destruct (Hall i p Hp) as [HD HR]. pose proof (last_tape_no_tail i) as HT.
    destruct p; auto; congruence. }
  split; [by apply Forall_lookup|].
  set (order := pl_order (place b 0 tape)).
  assert (order ≡ₚ seq 0 (length tape)) as Hperm.
  { apply NoDup_Permutation; [apply (placed_order_NoDup b tape 0 Hws)|apply NoDup_seq|].
    intros i. subst order. rewrite (proj2 (order_holds b tape 0 Hws)), elem_of_seq.
    rewrite <-(placed_length b tape 0 Hws). split.
    - intros (p & Hp & _). apply lookup_lt_Some in Hp. lia.
    - intros [_ Hi]. destruct (lookup_lt_is_Some_2 _ _ Hi) as [p Hp]. exists p.
      destruct (Hok i p Hp) as [->| ->]; done. }
  assert (sumZ (sizes tape order) = run + sumZ (item_bytes <$> rest)) as Hsum.
  { assert (sizes tape order ≡ₚ item_bytes <$> tape) as Hs
      by (rewrite <-sizes_seq; unfold sizes; by rewrite Hperm).
    by rewrite (sumZ_Permutation _ _ Hs). }
  destruct (last order) as [i0|] eqn:Hl; [|apply last_None in Hl; rewrite Hl in Hperm;
    by apply Permutation_nil_l in Hperm].
  apply last_Some in Hl as [order' Ho].
  pose proof (placed_walk b tape 0 Hws) as Hw. fold order in Hw. rewrite Ho in Hw.
  apply tape_walk_last in Hw. rewrite <-Ho in Hw.
  destruct (placed_end_exact b tape 0 Hws (length order)) as [Hb He]. fold order in Hb, He.
  rewrite firstn_all in Hb, He. rewrite He, Hsum in Hw. rewrite Hsum in Hb.
  destruct (label_within room (0 + (run + sumZ (item_bytes <$> rest)))) as [H1 _];
    [by intros ? [= <-]%(eq_trans (eq_sym Hbd))|lia|].
  specialize (H1 (Hok _ _ Hw)). unfold whole_bytes in H1. rewrite Hbd in H1. simpl in H1. lia.
Qed.
End last_tape.

Section after.
Variable room : BatchRoom.
Variable items : list PlanItem.
Local Abbreviation b := (room_budget room).
Local Abbreviation first := (place (room_budget room) 0 items).
Hypothesis Hws : well_sized 0 items.

(** The last tape's items are sane: its run is a part of the tail. *)
Lemma last_tape_sized run :
  (∀ bd, bound room = Some bd → bd ≤ u64_max) →
  span_last_run b 0 items first = Some run →
  (∀ i, i ∈ displaced_units items first → item_class <$> items !! i = Some Whole) →
  (∃ bd, bound room = Some bd ∧ run ≤ bd) ∧
  well_sized 0 (mkPlanItem Owed run ::
    omap (λ i, items !! i) (displaced_units items first)).
Proof.
  intros Hmax Hrun Hw.
  destruct (span_last_run_inv b items 0 _ _ Hrun) as (t & bd & Ht & Hbd & Hc & Hpos & Hlarge).
  assert (pl_placed first !! t = Some Tail) as Htail.
  { unfold tail_of in Ht. apply position_Some in Ht as [(x & Hx & ->%bool_decide_eq_true) _]. done. }
  destruct (span_accounts b items 0 Hws t bd) as (r & k & before & _ & Hr & Hr0 & Hk & Hsum);
    [done|done|done|by apply Hmax|done|done|].
  rewrite Hr in Hrun. injection Hrun as ->. split; [exists bd; split; [done|lia]|].
  destruct (omap_items items (displaced_units items first) Hw) as (Hsz & _ & _).
  assert (Forall (λ it, 0 ≤ item_bytes it) items) as Hnn by apply Hws.
  assert (sumZ (sizes items (t :: displaced_units items first)) ≤ sumZ (item_bytes <$> items)) as Hle.
  { apply sizes_sum_le; [done| |].
    - constructor; [|apply NoDup_filter, NoDup_seq].
      intros [[_ Hd] _]%list_elem_of_filter. congruence.
    - intros i [->|Hi]%elem_of_cons.
      + apply fmap_Some in Hc as (it & Hit & _). by eapply lookup_lt_Some.
      + apply Hw, fmap_Some in Hi as (it & Hit & _). by eapply lookup_lt_Some. }
  unfold sizes in Hle. csimpl in Hle. fold (sizes items (displaced_units items first)) in Hle.
  split; [lia| |].
  - apply Forall_cons. split; [simpl; lia|]. apply Forall_fmap with (P := λ z, 0 ≤ z).
    rewrite Hsz. by apply sizes_nonneg.
  - csimpl. rewrite Hsz. pose proof (ws_total _ _ Hws).
    assert (run ≤ bytes_at items t) by nia. lia.
Qed.

(** A span and the whole units it displaces are one write: when the
    selector keeps them in a batch, exactly the whole units the first tape
    makes wait are written after the tail, in the batch's order and each at a
    place on the last tape, which with the span's last run they do not fill
    past the bound; nothing else of the batch waits or is refused. *)
Theorem after_the_tail_spec ps :
  (∀ bd, bound room = Some bd → fill room ≤ bd ≤ u64_max) →
  after_the_tail b items first = Some ps →
  ∃ run bd, span_last_run b 0 items first = Some run ∧ bound room = Some bd ∧
    ps.*1 = displaced_units items first ∧
    Forall (λ ip, ip.2 = Committed ∨ ip.2 = PastCeiling) ps ∧
    run + sumZ (sizes items ps.*1) ≤ bd ∧
    (∀ i p, pl_placed first !! i = Some p → p ≠ Refused ∧
       (p = Deferred → item_class <$> items !! i = Some Whole)).
Proof.
  intros Hfb Hps. unfold after_the_tail in Hps.
  destruct (span_last_run b 0 items first) as [run|] eqn:Hrun; simpl in Hps; [|done].
  destruct (displaced_loop items (pl_placed first) 0 []) as [ds|] eqn:Hds; simpl in Hps; [|done].
  apply displaced_loop_spec in Hds as [Hds Hothers]. simpl in Hds.
  assert (ds = displaced_units items first) as ->.
  { rewrite Hds. unfold displaced_units. apply filter_ext_in. intros i _.
    by rewrite Nat.sub_0_r. }
  clear Hds. destruct (all_placed _) eqn:Hall; [|done]. injection Hps as <-.
  assert (∀ i, i ∈ displaced_units items first → item_class <$> items !! i = Some Whole) as Hw.
  { by intros i [[Hw _] _]%list_elem_of_filter. }
  destruct (last_tape_sized run) as [(bd & Hbd & Hle) Hlast];
    [intros ? Hb; by apply (Hfb _ Hb)|done|done|].
  destruct (omap_items items (displaced_units items first) Hw) as (Hsz & Hlen & Hcls).
  destruct (last_tape_spec room bd Hbd ltac:(by apply Hfb) run _ Hle Hcls Hlast Hall)
    as [Hlab Hsum].
  rewrite Hsz in Hsum.
  pose proof (placed_length b _ 0 Hlast) as Hpl. simpl in Hpl. rewrite Hlen in Hpl.
  set (lp := pl_placed (place b 0 (_ :: _))) in *.
  exists run, bd. split; [done|]. split; [done|].
  assert (length (drop 1 lp) = length (displaced_units items first)) as Hdl
    by (rewrite length_drop; lia).
  rewrite fst_zip by lia. split; [done|]. split; [|split; [done|]].
  - apply Forall_forall. intros [i p] Hip.
    assert (p ∈ drop 1 lp) as Hp.
    { rewrite <-(snd_zip (displaced_units items first) (drop 1 lp)) by lia.
      apply list_elem_of_fmap. by exists (i, p). }
    apply elem_of_drop_1 in Hp. rewrite Forall_forall in Hlab. by apply Hlab.
  - intros i p Hp. by apply (Hothers i p).
Qed.
End after.

(** ** Concrete plans *)

Definition sample_units : list PendingUnit :=
  [mkPendingUnit "b" 5; mkPendingUnit "a" 3; mkPendingUnit "c" 6].
Definition sample_spanning : Spanning := mkSpanning {["s"%string]} (Some 100).
Definition sample_room : BatchRoom := mkBatchRoom 10 (Some 12).
Definition sample_pending : list PendingUnit :=
  [mkPendingUnit "s" 30; mkPendingUnit "a" 3; mkPendingUnit "z" 9].

Lemma sample_units_sane : sane_units 4 sample_units.
Proof. split; by_decide. Defined.
Lemma sample_pending_sane : sane_units 1 sample_pending.
Proof. split; by_decide. Defined.

Example plan_batches_sample :
  match plan_batches sample_units 14 4 with
  | Ok bs => (unit_names <$> bs, padded_bytes <$> bs) = ([["a"; "b"]; ["c"]]%string, [12; 8])
  | Err _ => False
  end.
Proof. vm_compute. reflexivity. Qed.

Example plan_batches_spanning_sample :
  match plan_batches_spanning sample_pending None sample_spanning sample_room 1 with
  | Ok bs => unit_names <$> bs = [["a"; "s"]; ["z"]]%string
  | Err _ => False
  end.
Proof. vm_compute. reflexivity. Qed.

Lemma next_fit_spec_witness :
  ∃ bs, next_fit 14 4 sample_units = Ok (batch_of 4 <$> bs) ∧ mjoin bs = sample_units.
Proof.
  pose proof (next_fit_spec 14 4 sample_units sample_units_sane) as H.
  destruct (next_fit 14 4 sample_units) as [batches|e] eqn:Hn.
  - destruct H as (_ & bs & -> & Hp). exists bs. split; [reflexivity|apply Hp].
  - vm_compute in Hn. discriminate Hn.
Defined.

Definition unit_a : PendingUnit := mkPendingUnit "a" 3.
Definition unit_b : PendingUnit := mkPendingUnit "b" 5.
Definition unit_c : PendingUnit := mkPendingUnit "c" 6.

Lemma plan_batches_spine_witness : StronglySorted name_le [unit_a; unit_b; unit_c].
Proof.
  assert (plan_batches sample_units 14 4 =
    Ok [mkBatch [unit_a; unit_b] 8 12; mkBatch [unit_c] 6 8]) as H by (vm_compute; reflexivity).
  pose proof (plan_batches_spine 14 4 sample_units _ sample_units_sane H) as [_ Hs].
  exact Hs.
Defined.

Lemma plan_batches_prioritised_order_witness : [unit_c; unit_a; unit_b] ≡ₚ sample_units.
Proof.
  assert (plan_batches_prioritised sample_units {["c"%string]} 14 4 =
    Ok [mkBatch [unit_c; unit_a] 9 12; mkBatch [unit_b] 5 8]) as H by (vm_compute; reflexivity).
  pose proof (plan_batches_prioritised_order 14 4 sample_units {["c"%string]} _
    sample_units_sane H) as [Hp _].
  exact Hp.
Defined.

Lemma plan_batches_spanning_spec_witness :
  too_large sample_spanning sample_room 1 sample_pending = [].
Proof.
  pose proof (plan_batches_spanning_spec sample_spanning sample_room 1 sample_pending None
    sample_pending_sane ltac:(vm_compute; reflexivity)) as H.
  destruct (plan_batches_spanning _ _ _ _ _) as [batches|e] eqn:Hn.
  - exact (proj1 H).
  - vm_compute in Hn. discriminate Hn.
Defined.

Lemma whole_batch_placed_iff_sum_witness :
  all_placed (place (room_budget sample_room) 0 [mkPlanItem Whole 7; mkPlanItem Whole 5]) = true.
Proof.
  rewrite (whole_batch_placed_iff_sum sample_room); [vm_compute; reflexivity| |by_decide| |by_decide].
  - intros bd [= <-]. by_decide.
  - split; by_decide.
Defined.

Definition sample_span_items : list PlanItem := [mkPlanItem Whole 3; mkPlanItem Spannable 30].

Lemma after_the_tail_spec_witness :
  [0%nat] = displaced_units sample_span_items
              (place (room_budget sample_room) 0 sample_span_items).
Proof.
  destruct (after_the_tail_spec sample_room sample_span_items ltac:(split; by_decide)
    [(0%nat, Committed)] ltac:(intros bd [= <-]; by_decide) ltac:(vm_compute; reflexivity))
    as (run & bd & _ & _ & H & _).
  exact H.
Defined.
