(* ===== verification/Format.v ===== *)
(** * Documents on the tape: [src/volume/format.rs]

    The readers of File 0 (the ID thunk), File 3 (the front index) and the
    seal marker; the format claims, the parse rules of a seal, the consistency
    checks and the judgement of a seal. The [toml] crate and the digest are
    parameters. *)

From S2P Require Import Prelude.
Local Open Scope Z_scope.

(** ** The [toml] crate and the derived deserializers *)

(** A parsed TOML value; its integers are [i64]. *)
Inductive toml : Type :=
| TString (s : string)
| TInteger (z : Z)
| TBoolean (b : bool)
| TArray (l : list toml)
| TTable (fields : list (string * toml))
| TOther.

(** [toml::from_str]: the table of a document, or its error. *)
Class TomlCrate : Type := toml_table : string → result string (list (string * toml)).

(** [#[derive(Deserialize)]]: a field is looked up by name; a missing one is
    an error, [None] for an [Option], the default with [#[serde(default)]];
    a value of another type is an error; other fields are ignored. *)
Definition decoder (A : Type) : Type := toml → option A.

Definition de_string : decoder string := λ v, match v with TString s => Some s | _ => None end.
Definition de_integer : decoder Z := λ v, match v with TInteger z => Some z | _ => None end.
Definition de_boolean : decoder bool := λ v, match v with TBoolean b => Some b | _ => None end.
Definition de_list {A} (d : decoder A) : decoder (list A) :=
  λ v, match v with TArray l => mapM d l | _ => None end.
Definition de_table {A} (d : list (string * toml) → option A) : decoder A :=
  λ v, match v with TTable fields => d fields | _ => None end.

Fixpoint assoc {A} (name : string) (l : list (string * A)) : option A :=
  match l with
  | [] => None
  | (k, v) :: l => if bool_decide (k = name) then Some v else assoc name l
  end.

Section fields.
Variable fields : list (string * toml).
Definition field {A} (name : string) (d : decoder A) : option A := assoc name fields ≫= d.
Definition field_opt {A} (name : string) (d : decoder A) : option (option A) :=
  match assoc name fields with Some v => Some <$> d v | None => Some None end.
Definition field_default {A} (name : string) (d : decoder A) (a : A) : option A :=
  match assoc name fields with Some v => d v | None => Some a end.
End fields.

(** ** What the documents say *)

Record ParsedIndexEntry : Type := mkEntry {
  pe_position : Z;                       (* i32 *)
  pe_type_label : string;
  pe_size_bytes : option Z;              (* u64 *)
  pe_sha256_encrypted : option string;
}.

Record ParsedSeal : Type := mkSeal {
  seal_volume : string;
  seal_layout_version : Z;               (* i64 *)
  seal_file_count : Z;                   (* i32 *)
  seal_ended_after : option Z;           (* u64 *)
  seal_sealed_at : string;
  seal_front_index_sha256 : string;
  seal_requires : list string;
  seal_files : list ParsedIndexEntry;
}.

Record ParsedFrontIndex : Type := mkFrontIndex {
  fi_volume : string;
  fi_may_end_early : bool;
  fi_files : list ParsedIndexEntry;
}.

Record FormatClaims : Type := mkClaims {
  claims_magic : option string;
  claims_layout_version : option Z;      (* i64 *)
  claims_requires : list string;
  claims_tapectl_version : option string;
}.

Record IdThunkIdentity : Type := mkIdentity {
  id_label : string;
  id_uuid : string;
}.
Record IdThunkLayoutPointers : Type := mkPointers {
  ptr_front_index : Z;                   (* i32 *)
  ptr_seal_marker : Z;
  ptr_total_files : Z;
}.
Record IdThunkVolumeMeta : Type := mkVolumeMeta {
  vm_media_type : string;
  vm_nominal_capacity_bytes : Z;         (* i64 *)
  vm_mam_capacity_bytes : Z;
}.
Record IdThunkMedia : Type := mkMedia {
  md_cartridge_serial : string;
  md_cartridge_identity_source : option string;
  md_cartridge_manufacturer : option string;
  md_tape_length_meters : option Z;
}.
Record IdThunkProvenance : Type := mkProvenance {
  pv_created_at : option string;
  pv_load_count_at_write : option Z;
}.

#[export] Instance ParsedIndexEntry_eq_dec : EqDecision ParsedIndexEntry.
Proof. solve_decision. Defined.
#[export] Instance ParsedSeal_eq_dec : EqDecision ParsedSeal.
Proof. solve_decision. Defined.

Definition LAYOUT_VERSION : Z := 2.
Definition MAGIC : string := "tapectl-volume-v2".
Definition SHORT_SEAL : string := "short-seal".
Definition SPANNING : string := "spanning".
Definition KNOWN_FEATURES : list string := [SHORT_SEAL; SPANNING].

(** ** Errors *)

Inductive ConsistencyViolation : Type :=
| PositionOutOfSequence (index : nat) (expected actual : Z)
| FrontIndexCount (found : nat)
| FrontIndexNotAtThree (position : Z)
| SealMarkerCount (found : nat)
| SealMarkerNotLast (position : Z) (last_index : nat)
| MissingSize (position : Z)
| MissingHash (position : Z).

Inductive SealRuleViolation : Type :=
| EndedAfterNotFileCountLessTwo (ended_after file_count : Z)
| MissingEndedAfter
| EntryCount (entries : nat) (file_count : Z)
| Inconsistent (violations : list ConsistencyViolation)
| EndedAfterNotDataSlice (ended_after : Z) (found : option string).

(** Why a tape must not be read; the sentence is [what]'s. *)
Inductive Refusal : Type :=
| WrongMagic (what magic : string)
| WrongLayoutVersion (what : string) (version : Z)
| UnknownFeatures (what : string) (unknown requires : list string).

Inductive FormatError : Type :=
| NoMarker (what marker : string)
| TomlParseFailed (what message : string)
| LayoutNotRead (version : Z)
| BrokenSealRule (rule : SealRuleViolation)
| NotReadable (why : Refusal).

Inductive SealEnding : Type :=
| Full
| Short (ended_after : Z)
| Disagrees (seal_file_count planned_file_count : Z).

Inductive UnsealedReason : Type :=
| NoSealRead (seal_position : Z) (why : string)
| NotASeal (seal_position : Z) (e : FormatError)
| BindsAnotherIndex (bound : string) (front_index_position : Z) (actual : string).

Inductive SealVerdict : Type :=
| Sealed (seal : ParsedSeal)
| Unsealed (why : UnsealedReason)
| Refused (why : Refusal).

(** ** Claims *)

Definition refusal (c : FormatClaims) (what : string) : option Refusal :=
  let wrong_magic := m ← claims_magic c;
    if bool_decide (m ≠ MAGIC) then Some (WrongMagic what m) else None in
  let wrong_version := v ← claims_layout_version c;
    if bool_decide (v ≠ LAYOUT_VERSION) then Some (WrongLayoutVersion what v) else None in
  match wrong_magic, wrong_version with
  | Some r, _ => Some r
  | None, Some r => Some r
  | None, None =>
      match filter (λ f, f ∉ KNOWN_FEATURES) (claims_requires c) with
      | [] => None
      | unknown => Some (UnknownFeatures what unknown (claims_requires c))
      end
  end.

Definition seal_refusal (s : ParsedSeal) : option Refusal :=
  refusal (mkClaims None (Some (seal_layout_version s)) (seal_requires s) None)
    "the seal marker".

Definition requires_short_seal (s : ParsedSeal) : bool :=
  existsb (λ f, bool_decide (f = SHORT_SEAL)) (seal_requires s).

Definition effective_ended_after (s : ParsedSeal) : option Z :=
  match seal_ended_after s with
  | Some k => Some k
  | None => c ← try_u64 (seal_file_count s); checked_sub64 c 2
  end.

Definition classify_seal_ending (s : ParsedSeal) (planned_file_count : Z) : SealEnding :=
  let disagrees := Disagrees (seal_file_count s) planned_file_count in
  match try_u64 (seal_file_count s) with
  | None => disagrees
  | Some c =>
      match Z.compare c planned_file_count with
      | Eq => Full
      | Lt =>
          match effective_ended_after s with
          | Some ended_after => Short ended_after
          | None => disagrees
          end
      | Gt => disagrees
      end
  end.

(** ** Consistency *)

Definition is_front_index (e : ParsedIndexEntry) : bool :=
  bool_decide (pe_type_label e = "front_index"%string).
Definition is_seal_marker (e : ParsedIndexEntry) : bool :=
  bool_decide (pe_type_label e = "seal_marker"%string).

Definition out_of_sequence (i : nat) (e : ParsedIndexEntry) : list ConsistencyViolation :=
  if bool_decide (pe_position e ≠ as_i32 (Z.of_nat i))
  then [PositionOutOfSequence i (as_i32 (Z.of_nat i)) (pe_position e)] else [].

Definition incomplete (e : ParsedIndexEntry) : list ConsistencyViolation :=
  (if negb (is_front_index e) && negb (is_seal_marker e)
      && bool_decide (pe_size_bytes e = None)
   then [MissingSize (pe_position e)] else []) ++
  (if negb (is_front_index e) && negb (is_seal_marker e)
      && bool_decide (pe_sha256_encrypted e = None)
   then [MissingHash (pe_position e)] else []).

Definition validate_consistency (es : list ParsedIndexEntry) : list ConsistencyViolation :=
  mjoin (imap out_of_sequence es) ++
  match filter (λ e, is_front_index e = true) es with
  | [e] => if bool_decide (pe_position e ≠ 3) then [FrontIndexNotAtThree (pe_position e)] else []
  | l => [FrontIndexCount (length l)]
  end ++
  match filter (λ e, is_seal_marker e = true) es with
  | [e] =>
      let last_index := (length es - 1)%nat in
      if bool_decide (pe_position e ≠ as_i32 (Z.of_nat last_index))
      then [SealMarkerNotLast (pe_position e) last_index] else []
  | l => [SealMarkerCount (length l)]
  end ++
  mjoin (incomplete <$> es).

Definition check_parse_rules (s : ParsedSeal) : result SealRuleViolation unit :=
  guard_err (requires_short_seal s && bool_decide (seal_ended_after s = None))
    MissingEndedAfter;;
  match seal_ended_after s with
  | Some k =>
      guard_err (bool_decide (checked_add64 k 2 ≠ try_u64 (seal_file_count s)))
        (EndedAfterNotFileCountLessTwo (default i64_max (try_i64 k)) (seal_file_count s))
  | None => Ok ()
  end;;
  guard_err
    (bool_decide (try_i64 (Z.of_nat (length (seal_files s))) ≠ Some (seal_file_count s)))
    (EntryCount (length (seal_files s)) (seal_file_count s));;
  match validate_consistency (seal_files s) with
  | [] => Ok ()
  | violations => Err (Inconsistent violations)
  end;;
  let ended_after := effective_ended_after s in
  let found := k ← ended_after; pe_type_label <$> seal_files s !! Z.to_nat k in
  guard_err (bool_decide (found ≠ Some "data_slice"%string))
    (EndedAfterNotDataSlice (default 0 ended_after) found).

(** ** Texts *)

(** [raw.trim_end_matches('\0')]. *)
Fixpoint trim_end_nul (s : string) : string :=
  match s with
  | EmptyString => EmptyString
  | String c s =>
      match trim_end_nul s with
      | EmptyString => if Ascii.eqb c Ascii.zero then EmptyString else String c EmptyString
      | s' => String c s'
      end
  end.

(** [&s[s.find(marker)?..]]. *)
Fixpoint find_from (marker s : string) : option string :=
  if String.prefix marker s then Some s
  else match s with EmptyString => None | String _ s => find_from marker s end.

Definition toml_body (raw marker what : string) : result FormatError string :=
  ok_or (find_from marker (trim_end_nul raw)) (NoMarker what marker).

(** [String::from_utf8_lossy]: an ill-formed sequence is replaced by U+FFFD,
    once per maximal part that begins a well-formed one. [lead] gives the
    number of bytes after a lead byte and the range of the first of them. *)
Definition utf8_lead (c : Z) : option (nat * (Z * Z)) :=
  if bool_decide (c < 128) then Some (0%nat, (0, 0))
  else if bool_decide (194 ≤ c ≤ 223) then Some (1%nat, (128, 191))
  else if bool_decide (c = 224) then Some (2%nat, (160, 191))
  else if bool_decide (c = 237) then Some (2%nat, (128, 159))
  else if bool_decide (225 ≤ c ≤ 239) then Some (2%nat, (128, 191))
  else if bool_decide (c = 240) then Some (3%nat, (144, 191))
  else if bool_decide (241 ≤ c ≤ 243) then Some (3%nat, (128, 191))
  else if bool_decide (c = 244) then Some (3%nat, (128, 143))
  else None.

(** How many of the [n] bytes due next are there, the first within [range]. *)
Fixpoint utf8_tail (n : nat) (range : Z * Z) (l : list Z) : nat :=
  match n, l with
  | S n, c :: l =>
      if bool_decide (range.1 ≤ c ≤ range.2) then S (utf8_tail n (128, 191) l) else 0%nat
  | _, _ => 0%nat
  end.

Definition replacement : list Z := [239; 191; 189].

Fixpoint utf8_lossy_fuel (fuel : nat) (l : list Z) : list Z :=
  match fuel, l with
  | S fuel, c :: l =>
      match utf8_lead c with
      | None => replacement ++ utf8_lossy_fuel fuel l
      | Some (n, range) =>
          let k := utf8_tail n range l in
          if bool_decide (k = n) then (c :: take k l) ++ utf8_lossy_fuel fuel (drop k l)
          else replacement ++ utf8_lossy_fuel fuel (drop k l)
      end
  | _, _ => []
  end.
Definition from_utf8_lossy (l : list Z) : string :=
  string_of_bytes (utf8_lossy_fuel (length l) l).

(** [&raw[..raw.iter().rposition(|b| *b != 0).map_or(0, |i| i + 1)]]. *)
Fixpoint rposition {A} (p : A → bool) (l : list A) : option nat :=
  match l with
  | [] => None
  | x :: l =>
      match rposition p l with
      | Some i => Some (S i)
      | None => if p x then Some 0%nat else None
      end
  end.
Definition without_nul_padding (raw : list Z) : list Z :=
  take (from_option S 0%nat (rposition (λ b, negb (bool_decide (b = 0))) raw)) raw.

(** ** Deserializing *)

(** [FileEntryToml], then [ParsedIndexEntry::from]. *)
Definition de_file_entry (fields : list (string * toml)) : option ParsedIndexEntry :=
  position ← field fields "position" de_integer;
  type_label ← field fields "type" de_string;
  size_bytes ← field_opt fields "size_bytes" de_integer;
  sha256_encrypted ← field_opt fields "sha256_encrypted" de_string;
  Some (mkEntry (as_i32 position) type_label (as_u64 <$> size_bytes) sha256_encrypted).

Definition de_files (doc : list (string * toml)) : option (list ParsedIndexEntry) :=
  field_default doc "files" (de_list (de_table de_file_entry)) [].

(** [FrontIndexDoc]: [[index]] with its layout version, and the files. *)
Definition de_front_index (doc : list (string * toml)) : option (Z * ParsedFrontIndex) :=
  index ← field doc "index" (de_table Some);
  volume ← field index "volume" de_string;
  layout_version ← field index "layout_version" de_integer;
  may_end_early ← field_default index "may_end_early" de_boolean false;
  files ← de_files doc;
  Some (layout_version, mkFrontIndex volume may_end_early files).

(** [SealHeader]: the stated [ended_after] is kept as it is on the wire. *)
Record SealHeader : Type := mkSealHeader {
  sh_volume : string;
  sh_layout_version : Z;
  sh_file_count : Z;            (* i64 *)
  sh_ended_after : option Z;    (* i64 *)
  sh_sealed_at : string;
  sh_front_index_sha256 : string;
  sh_requires : list string;
}.

Definition de_seal_header (seal : list (string * toml)) : option SealHeader :=
  volume ← field seal "volume" de_string;
  layout_version ← field seal "layout_version" de_integer;
  file_count ← field seal "file_count" de_integer;
  ended_after ← field_opt seal "ended_after" de_integer;
  sealed_at ← field seal "sealed_at" de_string;
  front_index_sha256 ← field seal "front_index_sha256" de_string;
  requires ← field_default seal "requires" (de_list de_string) [];
  Some (mkSealHeader volume layout_version file_count ended_after sealed_at
          front_index_sha256 requires).

Definition de_seal (doc : list (string * toml)) : option (SealHeader * list ParsedIndexEntry) :=
  header ← field doc "seal" (de_table de_seal_header);
  files ← de_files doc;
  Some (header, files).

Definition seal_of (h : SealHeader) (files : list ParsedIndexEntry) : ParsedSeal :=
  mkSeal (sh_volume h) (sh_layout_version h) (as_i32 (sh_file_count h))
    (sh_ended_after h ≫= try_u64) (sh_sealed_at h) (sh_front_index_sha256 h)
    (sh_requires h) files.

(** ** The parsers *)

Section parsers.
Context `{TomlCrate}.

(** [toml::from_str(body).map_err(..)]. *)
Definition from_str {A} (de : list (string * toml) → option A) (what body : string)
    : result FormatError A :=
  doc ← map_err (TomlParseFailed what) (toml_table body);
  ok_or (de doc) (TomlParseFailed what "missing or ill-typed field").

Definition parse_front_index_document (raw : string) : result FormatError ParsedFrontIndex :=
  body ← toml_body raw "[index]" "front index";
  '(version, index) ← from_str de_front_index "front index" body;
  guard_err (bool_decide (version ≠ LAYOUT_VERSION)) (LayoutNotRead version);;
  Ok index.

Definition parse_front_index (raw : string) : result FormatError (list ParsedIndexEntry) :=
  fi_files <$> parse_front_index_document raw.

Definition parse_seal_marker (raw : string) : result FormatError ParsedSeal :=
  body ← toml_body raw "[seal]" "seal marker";
  '(header, files) ← from_str de_seal "seal marker" body;
  let stated_ended_after := sh_ended_after header in
  let seal := seal_of header files in
  if bool_decide (is_Some (seal_refusal seal)) then Ok seal
  else if bool_decide (stated_ended_after = None) && negb (requires_short_seal seal) then Ok seal
  else
    let rules := map_err BrokenSealRule (check_parse_rules seal) in
    match stated_ended_after with
    | Some k =>
        if bool_decide (k < 0)
        then Err (BrokenSealRule (EndedAfterNotFileCountLessTwo k (seal_file_count seal)))
        else rules;; Ok seal
    | None => rules;; Ok seal
    end.

(** [parse_id_thunk_claims] reads [[volume]]. *)
Definition de_claims (doc : list (string * toml)) : option FormatClaims :=
  volume ← field doc "volume" (de_table Some);
  magic ← field_opt volume "magic" de_string;
  layout_version ← field_opt volume "layout_version" de_integer;
  requires ← field_default volume "requires" (de_list de_string) [];
  tapectl_version ← field_opt volume "tapectl_version" de_string;
  Some (mkClaims magic layout_version requires tapectl_version).

Definition parse_id_thunk_claims (raw : string) : result FormatError FormatClaims :=
  body ← toml_body raw "[volume]" "id thunk";
  from_str de_claims "id thunk" body.

Definition check_id_thunk_readable (raw : string) : result FormatError unit :=
  claims ← parse_id_thunk_claims raw;
  match refusal claims "File 0" with
  | Some why => Err (NotReadable why)
  | None => Ok ()
  end.

Definition de_identity (doc : list (string * toml)) : option IdThunkIdentity :=
  volume ← field doc "volume" (de_table Some);
  label ← field volume "label" de_string;
  uuid ← field volume "uuid" de_string;
  Some (mkIdentity label uuid).

Definition parse_id_thunk_identity (raw : string) : result FormatError IdThunkIdentity :=
  body ← toml_body raw "[volume]" "id thunk";
  from_str de_identity "id thunk" body.

Definition de_pointers (doc : list (string * toml)) : option IdThunkLayoutPointers :=
  layout ← field doc "layout" (de_table Some);
  front_index ← field layout "front_index" de_integer;
  seal_marker ← field layout "seal_marker" de_integer;
  total_files ← field layout "total_files" de_integer;
  Some (mkPointers (as_i32 front_index) (as_i32 seal_marker) (as_i32 total_files)).

Definition parse_id_thunk_layout_pointers (raw : string)
    : result FormatError IdThunkLayoutPointers :=
  body ← toml_body raw "[layout]" "id thunk layout";
  from_str de_pointers "id thunk layout" body.

Definition de_volume_meta (doc : list (string * toml)) : option IdThunkVolumeMeta :=
  volume ← field doc "volume" (de_table Some);
  media_type ← field volume "media_type" de_string;
  nominal_capacity_bytes ← field volume "nominal_capacity_bytes" de_integer;
  mam_capacity_bytes ← field volume "mam_capacity_bytes" de_integer;
  Some (mkVolumeMeta media_type nominal_capacity_bytes mam_capacity_bytes).

Definition parse_id_thunk_volume_meta (raw : string) : result FormatError IdThunkVolumeMeta :=
  body ← toml_body raw "[volume]" "id thunk volume meta";
  from_str de_volume_meta "id thunk volume meta" body.

Definition de_media (doc : list (string * toml)) : option IdThunkMedia :=
  media ← field doc "media" (de_table Some);
  cartridge_serial ← field media "cartridge_serial" de_string;
  cartridge_identity_source ← field_opt media "cartridge_identity_source" de_string;
  cartridge_manufacturer ← field_opt media "cartridge_manufacturer" de_string;
  tape_length_meters ← field_opt media "tape_length_meters" de_integer;
  Some (mkMedia cartridge_serial cartridge_identity_source cartridge_manufacturer
          tape_length_meters).

Definition parse_id_thunk_media (raw : string) : result FormatError IdThunkMedia :=
  body ← toml_body raw "[media]" "id thunk media";
  from_str de_media "id thunk media" body.

(** The load count is [None] when absent, and when the writer's 0. *)
Definition de_provenance (doc : list (string * toml)) : option IdThunkProvenance :=
  volume ← field doc "volume" (de_table Some);
  created_at ← field_opt volume "created_at" de_string;
  media ← field_opt doc "media" (de_table (λ media, field_opt media "load_count_at_write" de_integer));
  Some (mkProvenance created_at
          (n ← mjoin media; if bool_decide (0 < n) then Some n else None)).

Definition parse_id_thunk_provenance (raw : string) : result FormatError IdThunkProvenance :=
  body ← toml_body raw "[volume]" "id thunk provenance";
  from_str de_provenance "id thunk provenance" body.

(** ** The judgement of a seal *)

Context `{Digest}.

Definition judge_seal (seal_read : result string (list Z)) (front_index : list Z)
    (front_index_position seal_position : Z) : SealVerdict :=
  match seal_read with
  | Err why => Unsealed (NoSealRead seal_position why)
  | Ok raw =>
      match parse_seal_marker (from_utf8_lossy raw) with
      | Err e => Unsealed (NotASeal seal_position e)
      | Ok seal =>
          match seal_refusal seal with
          | Some why => Refused why
          | None =>
              let front_index_sha256 := sha256_hex front_index in
              if bool_decide (seal_front_index_sha256 seal ≠ front_index_sha256)
              then Unsealed (BindsAnotherIndex (seal_front_index_sha256 seal)
                               front_index_position front_index_sha256)
              else Sealed seal
          end
      end
  end.
End parsers.
