(* ===== verification/Documents.v ===== *)
(** * Documents on the tape: theorems

    The consistency checks against a well-formed map, the parse rules of a
    seal, its classification and judgement, the format claims, and the
    readers' independence of the block padding. *)

From S2P Require Import Prelude Format.
Local Open Scope Z_scope.

(** ** The map of a tape *)

(** A well-formed map: positions run 0, 1, 2, ..., the front index is file 3
    and no other, the seal marker is the last file and no other, and every
    other file has its size and its hash. *)
Record index_map (es : list ParsedIndexEntry) : Prop := {
  im_positions i e : es !! i = Some e → pe_position e = Z.of_nat i;
  im_front : ∃ e, es !! 3%nat = Some e ∧ is_front_index e = true;
  im_front_only i e : es !! i = Some e → is_front_index e = true → i = 3%nat;
  im_seal : ∃ e, es !! (length es - 1)%nat = Some e ∧ is_seal_marker e = true;
  im_seal_only i e : es !! i = Some e → is_seal_marker e = true → i = (length es - 1)%nat;
  im_complete i e : es !! i = Some e → is_front_index e = false → is_seal_marker e = false →
    is_Some (pe_size_bytes e) ∧ is_Some (pe_sha256_encrypted e);
}.

Section consistency.
Variable es : list ParsedIndexEntry.
Hypothesis Hlen : (Z.of_nat (length es) ≤ i32_max).

Lemma index_as_i32 i : (i < length es)%nat → as_i32 (Z.of_nat i) = Z.of_nat i.
Proof. intros Hi. apply as_i32_small. unfold_width. lia. Qed.

Lemma in_sequence_iff :
  mjoin (imap out_of_sequence es) = [] ↔
  ∀ i e, es !! i = Some e → pe_position e = Z.of_nat i.
Proof.
  rewrite join_nil, Forall_lookup. split.
  - intros H i e Hi. pose proof (lookup_lt_Some _ _ _ Hi) as Hlt.
    specialize (H i (out_of_sequence i e)). rewrite list_lookup_imap, Hi in H.
    specialize (H eq_refl). unfold out_of_sequence in H. rewrite index_as_i32 in H by done.
    by case_bool_decide.
  - intros H i x Hx. rewrite list_lookup_imap in Hx. destruct (es !! i) as [e|] eqn:Hi; [|done].
    injection Hx as <-. pose proof (lookup_lt_Some _ _ _ Hi) as Hlt.
    unfold out_of_sequence. by rewrite index_as_i32, bool_decide_eq_false_2 by naive_solver.
Qed.

Lemma complete_iff :
  mjoin (incomplete <$> es) = [] ↔
  ∀ i e, es !! i = Some e → is_front_index e = false → is_seal_marker e = false →
    is_Some (pe_size_bytes e) ∧ is_Some (pe_sha256_encrypted e).
Proof.
  rewrite join_nil, Forall_fmap, Forall_lookup. apply forall_proper. intros i.
  apply forall_proper. intros e. simpl. unfold incomplete.
  destruct (is_front_index e), (is_seal_marker e), (pe_size_bytes e), (pe_sha256_encrypted e);
    simpl; split; intros H Hi; try done; try (destruct (H Hi eq_refl eq_refl) as [[? ?] [? ?]]; done);
    by specialize (H Hi).
Qed.

(** The one file of a kind sits at the position the check asks for. *)
Lemma one_at_iff (p : ParsedIndexEntry → bool) (at_ : nat) :
  (∀ i e, es !! i = Some e → pe_position e = Z.of_nat i) →
  (∃ e, filter (λ e, p e = true) es = [e] ∧ pe_position e = Z.of_nat at_) ↔
  (∃ e, es !! at_ = Some e ∧ p e = true) ∧
  (∀ i e, es !! i = Some e → p e = true → i = at_).
Proof.
  intros Hpos. split.
  - intros (e & (i & Hi & Hp & Hone)%filter_one_iff & He).
    rewrite (Hpos i e Hi) in He. assert (i = at_) as -> by lia. split; [by exists e|done].
  - intros [(e & He & Hp) Hone]. exists e. split; [|by apply Hpos].
    apply filter_one_iff. exists at_. split; [done|]. split; [done|]. intros j x Hj Hx.
    by eapply Hone.
Qed.

Lemma consistency_iff : validate_consistency es = [] ↔ index_map es.
Proof.
  unfold validate_consistency. rewrite !app_nil, in_sequence_iff, complete_iff.
  assert (∀ (p : ParsedIndexEntry → bool) (at_ : nat) one (many : nat → ConsistencyViolation),
    match filter (λ e, p e = true) es with
    | [e] => if bool_decide (pe_position e ≠ Z.of_nat at_) then [one e] else []
    | l => [many (length l)]
    end = [] ↔
    ∃ e, filter (λ e, p e = true) es = [e] ∧ pe_position e = Z.of_nat at_) as Hone.
  { intros p at_ one many. destruct (filter _ es) as [|e [|? ?]];
      [by split; [|intros (? & ? & _)]| |by split; [|intros (? & ? & _)]].
    case_bool_decide; [split; [done|by intros (? & [= <-] & ?)]|].
    split; [|done]. intros _. by exists e. }
  specialize (Hone is_front_index 3%nat (λ e, FrontIndexNotAtThree (pe_position e)) FrontIndexCount)
    as Hf.
  specialize (Hone is_seal_marker (length es - 1)%nat
    (λ e, SealMarkerNotLast (pe_position e) (length es - 1)) SealMarkerCount).
  assert (as_i32 (Z.of_nat (length es - 1)) = Z.of_nat (length es - 1)) as ->.
  { apply as_i32_small. unfold_width. lia. }
  rewrite Hone. change 3 with (Z.of_nat 3). rewrite Hf. split.
  - intros (Hpos & Hfr & Hse & Hco). rewrite one_at_iff in Hfr, Hse by done.
    destruct Hfr, Hse. by split.
  - intros [Hpos Hfr Hfo Hse Hso Hco]. rewrite !one_at_iff by done. auto.
Qed.

(** The consistency checks find nothing iff the list is a well-formed map
    of a tape: positions in sequence, the front index file 3 and the seal
    marker the last file, each alone of its kind, every other file complete. *)
Theorem validate_consistency_spec : validate_consistency es = [] ↔ index_map es.
Proof. exact consistency_iff. Qed.
End consistency.

(** ** The parse rules of a seal *)

(** A parsed seal's numbers have the widths of its fields. *)
Record seal_width (s : ParsedSeal) : Prop := {
  sw_file_count : - 2 ^ 31 ≤ seal_file_count s ≤ i32_max;
  sw_ended_after k : seal_ended_after s = Some k → is_u64 k;
}.

(** Rules S1, S2, S4 and S5. *)
Record seal_rules (s : ParsedSeal) : Prop := {
  sr_s1 k : seal_ended_after s = Some k → k = seal_file_count s - 2;
  sr_s2 : requires_short_seal s = true → is_Some (seal_ended_after s);
  sr_s4 : Z.of_nat (length (seal_files s)) = seal_file_count s ∧ index_map (seal_files s);
  sr_s5 : ∃ e, seal_files s !! (length (seal_files s) - 2)%nat = Some e ∧
    pe_type_label e = "data_slice"%string;
}.

Lemma index_map_length es : index_map es → (4 < length es)%nat.
Proof.
  intros [_ (e & He & Hf) Hfo (e' & He' & Hs) _ _]. pose proof (lookup_lt_Some _ _ _ He).
  destruct (decide (length es = 4%nat)) as [Hl|]; [|lia].
  rewrite Hl in He'. simpl in He'. rewrite He in He'. injection He' as <-.
  unfold is_front_index, is_seal_marker in *. apply bool_decide_eq_true in Hf, Hs. congruence.
Qed.

Section seal.
Variable s : ParsedSeal.
Hypothesis Hw : seal_width s.

Lemma effective_last :
  (∀ k, seal_ended_after s = Some k → k = seal_file_count s - 2) → 2 ≤ seal_file_count s →
  effective_ended_after s = Some (seal_file_count s - 2).
Proof.
  intros Hk Hc. unfold effective_ended_after. destruct (seal_ended_after s) as [k|] eqn:He.
  - f_equal. by apply Hk.
  - destruct Hw as [Hf _]. unfold try_u64, checked_sub64, try_u64.
    rewrite decide_True by (unfold_width; lia). simpl. rewrite decide_True by (unfold_width; lia). done.
Qed.

(** Rule S1 as the code checks it, once the count is not negative. *)
Lemma s1_iff k :
  seal_ended_after s = Some k → 0 ≤ seal_file_count s →
  checked_add64 k 2 = try_u64 (seal_file_count s) ↔ k = seal_file_count s - 2.
Proof.
  intros Hk Hc. destruct Hw as [Hf Hu]. specialize (Hu k Hk).
  unfold checked_add64, try_u64. rewrite (decide_True (P := 0 ≤ seal_file_count s ≤ u64_max))
    by (unfold_width; lia).
  case_decide; split; intros H'; try (injection H'); try lia; try done.
  - f_equal. lia.
  - unfold_width. lia.
Qed.

Lemma parse_rules_iff : check_parse_rules s = Ok () ↔ seal_rules s.
Proof.
  unfold check_parse_rules. rewrite !then_ok, !guard_err_ok, !bool_decide_eq_false.
  assert (try_i64 (Z.of_nat (length (seal_files s))) = Some (seal_file_count s) ↔
    Z.of_nat (length (seal_files s)) = seal_file_count s) as Hn.
  { destruct Hw as [Hf _]. unfold try_i64. case_decide as Hd; [split; congruence|].
    split; [done|]. intros Hl. destruct Hd. unfold_width. lia. }
  assert (match validate_consistency (seal_files s) with [] => Ok () | v => Err (Inconsistent v) end
    = Ok () ↔ validate_consistency (seal_files s) = []) as Hc by (by destruct (validate_consistency _)).
  split.
  - intros (Hs2 & Hs1 & Hs4%dec_stable%Hn & Hcons%Hc & Hs5%dec_stable).
    destruct Hw as [Hf _]. apply consistency_iff in Hcons; [|lia].
    pose proof (index_map_length _ Hcons).
    assert (∀ k, seal_ended_after s = Some k → k = seal_file_count s - 2) as Hk.
    { intros k Hk. rewrite Hk in Hs1. apply guard_err_ok, bool_decide_eq_false, dec_stable in Hs1.
      apply (s1_iff k Hk); [lia|done]. }
    rewrite effective_last in Hs5 by (done || lia). simpl in Hs5.
    split; [done| |by split|].
    + intros Hr. rewrite Hr in Hs2. simpl in Hs2. apply bool_decide_eq_false in Hs2.
      by destruct (seal_ended_after s).
    + apply fmap_Some in Hs5 as (e & He & Hl). exists e. split; [|done].
      replace (length (seal_files s) - 2)%nat with (Z.to_nat (seal_file_count s - 2)) by lia. done.
  - intros [Hk Hs2 [Hs4 Hmap] (e & He & Hl)]. pose proof (index_map_length _ Hmap).
    destruct Hw as [Hf _]. repeat split.
    + destruct (requires_short_seal s); [|done]. simpl. apply bool_decide_eq_false.
      destruct (Hs2 eq_refl) as [? ->]. done.
    + destruct (seal_ended_after s) as [k|] eqn:Hke; [|done].
      apply guard_err_ok, bool_decide_eq_false. intros Hne. apply Hne, (s1_iff k Hke); [lia|auto].
    + intros Hne. by apply Hne, Hn.
    + apply Hc. apply consistency_iff; [lia|done].
    + rewrite effective_last by (done || lia). simpl. intros Hne. apply Hne.
      replace (Z.to_nat (seal_file_count s - 2)) with (length (seal_files s) - 2)%nat by lia.
      by rewrite He, <-Hl.
Qed.

(** A seal keeps the parse rules iff it states where it ended when it must
    (S2), two less than its file count (S1), its copy of the front index is a
    well-formed map of that many files (S4), and the file before it is a data
    slice (S5). *)
Theorem check_parse_rules_spec : check_parse_rules s = Ok () ↔ seal_rules s.
Proof. exact parse_rules_iff. Qed.

(** Where a tape ended, for a seal that keeps the rules: full iff the
    counts agree, short iff the seal's is less, and then it names the last
    file before the seal, a data slice of its own copy; they disagree only
    when the seal claims more files than the plan. *)
Theorem classify_seal_ending_spec planned :
  check_parse_rules s = Ok () → is_u64 planned →
  match classify_seal_ending s planned with
  | Full => seal_file_count s = planned
  | Short k => seal_file_count s < planned ∧ k = seal_file_count s - 2 ∧
      ∃ e, seal_files s !! Z.to_nat k = Some e ∧ pe_type_label e = "data_slice"%string
  | Disagrees c p => c = seal_file_count s ∧ p = planned ∧ planned < seal_file_count s
  end.
Proof.
  intros [Hk Hs2 [Hs4 Hmap] (e & He & Hl)]%parse_rules_iff Hp.
  pose proof (index_map_length _ Hmap). unfold classify_seal_ending. destruct Hw as [Hf _].
  assert (try_u64 (seal_file_count s) = Some (seal_file_count s)) as ->.
  { unfold try_u64. rewrite decide_True by (unfold_width; lia). done. }
  rewrite effective_last by (done || lia).
  destruct (Z.compare_spec (seal_file_count s) planned); [done| |done].
  split; [done|]. split; [done|]. exists e. split; [|done].
  by replace (Z.to_nat (seal_file_count s - 2)) with (length (seal_files s) - 2)%nat by lia.
Qed.
End seal.

(** ** What a reader accepts *)

(** The claims of a tape this version reads. *)
Definition readable (c : FormatClaims) : Prop :=
  (∀ m, claims_magic c = Some m → m = MAGIC) ∧
  (∀ v, claims_layout_version c = Some v → v = LAYOUT_VERSION) ∧
  Forall (λ f, f ∈ KNOWN_FEATURES) (claims_requires c).

Lemma refusal_none c what : refusal c what = None ↔ readable c.
Proof.
  unfold refusal, readable.
  assert (filter (λ f, f ∉ KNOWN_FEATURES) (claims_requires c) = [] ↔
    Forall (λ f, f ∈ KNOWN_FEATURES) (claims_requires c)) as Hf.
  { rewrite Forall_forall. split.
    - intros Hn x Hx. destruct (decide (x ∈ KNOWN_FEATURES)); [done|].
      assert (x ∈ filter (λ f, f ∉ KNOWN_FEATURES) (claims_requires c)) as Hin
        by (by apply list_elem_of_filter).
      rewrite Hn in Hin. by apply not_elem_of_nil in Hin.
    - intros Hall. apply filter_none. intros x Hx Hnx. by apply Hnx, Hall. }
  assert (match filter (λ f, f ∉ KNOWN_FEATURES) (claims_requires c) with
    | [] => None | u => Some (UnknownFeatures what u (claims_requires c)) end = None ↔
    Forall (λ f, f ∈ KNOWN_FEATURES) (claims_requires c)) as Hu
    by (rewrite <-Hf; by destruct (filter _ _)).
  destruct (claims_magic c) as [m|], (claims_layout_version c) as [v|]; simpl;
    repeat case_bool_decide; rewrite ?Hu; naive_solver.
Qed.

(** A tape is read only when this version knows all of its format: no
    refusal iff the magic and the layout version, where stated, are the ones
    known and every required feature is known. *)
Theorem refusal_spec c what : refusal c what = None ↔ readable c.
Proof. exact (refusal_none c what). Qed.

Lemma seal_refusal_none s :
  seal_refusal s = None ↔
  seal_layout_version s = LAYOUT_VERSION ∧ Forall (λ f, f ∈ KNOWN_FEATURES) (seal_requires s).
Proof.
  unfold seal_refusal. rewrite refusal_none. unfold readable. simpl. naive_solver.
Qed.

Section readers.
Context `{TomlCrate}.

(** The numbers of a parsed seal have their fields' widths. *)
Lemma seal_of_width h files : seal_width (seal_of h files).
Proof.
  split; simpl.
  - unfold as_i32. pose proof (Z.mod_pos_bound (sh_file_count h + 2 ^ 31) (2 ^ 32) ltac:(lia)).
    unfold_width. lia.
  - intros k Hk. apply bind_Some in Hk as (z & _ & [-> ?]%try_u64_Some). done.
Qed.

(** A document's header and files, before they are judged. *)
Definition seal_document (raw : string) (h : SealHeader) (files : list ParsedIndexEntry) : Prop :=
  ∃ body, toml_body raw "[seal]" "seal marker" = Ok body ∧
    from_str de_seal "seal marker" body = Ok (h, files).

Lemma map_err_ok {E F A} (f : E → F) (r : result E A) a : map_err f r = Ok a ↔ r = Ok a.
Proof. destruct r; simpl; split; congruence. Qed.

Lemma parse_seal_iff raw s :
  parse_seal_marker raw = Ok s ↔
  ∃ h files, seal_document raw h files ∧ s = seal_of h files ∧
    (seal_refusal s ≠ None ∨
     (sh_ended_after h = None ∧ requires_short_seal s = false) ∨
     ((∀ k, sh_ended_after h = Some k → 0 ≤ k) ∧ seal_rules s)).
Proof.
  unfold parse_seal_marker, seal_document.
  assert (∀ h files, (if bool_decide (is_Some (seal_refusal (seal_of h files))) then Ok (seal_of h files)
    else if bool_decide (sh_ended_after h = None) && negb (requires_short_seal (seal_of h files))
    then Ok (seal_of h files)
    else match sh_ended_after h with
      | Some k => if bool_decide (k < 0)
          then Err (BrokenSealRule (EndedAfterNotFileCountLessTwo k (seal_file_count (seal_of h files))))
          else map_err BrokenSealRule (check_parse_rules (seal_of h files));; Ok (seal_of h files)
      | None => map_err BrokenSealRule (check_parse_rules (seal_of h files));; Ok (seal_of h files)
      end) = Ok s ↔ s = seal_of h files ∧
    (seal_refusal s ≠ None ∨
     (sh_ended_after h = None ∧ requires_short_seal s = false) ∨
     ((∀ k, sh_ended_after h = Some k → 0 ≤ k) ∧ seal_rules s))) as Hbody.
  { intros h files. pose proof (parse_rules_iff _ (seal_of_width h files)) as Hr.
    set (t := seal_of h files) in *.
    destruct (seal_refusal t) eqn:Href; simpl; [naive_solver|].
    destruct (sh_ended_after h) as [k|]; simpl.
    - case_bool_decide.
      + split; [done|]. intros (-> & [?|[[? _]|[Hk _]]]); [done|done|].
        specialize (Hk k eq_refl). lia.
      + rewrite then_ok, map_err_ok, Hr. split.
        * intros [Hrules [= <-]]. split; [done|]. right. right. split; [|done].
          intros ? [= <-]. lia.
        * intros (-> & [?|[[? _]|[_ ?]]]); done.
    - destruct (requires_short_seal t) eqn:Hs; simpl.
      + rewrite then_ok, map_err_ok, Hr. split.
        * intros [Hrules [= <-]]. split; [done|]. right. right. by split.
        * intros (-> & [?|[[_ ?]|[_ ?]]]); [done|congruence|done].
      + split; [intros [= <-]; split; [done|]; right; left; done|]. by intros [-> _]. }
  split.
  - intros (body & Hb & ([h files] & Hs & Hk)%bind_ok)%bind_ok. apply Hbody in Hk as [-> Hk].
    exists h, files. split; [by exists body|]. done.
  - intros (h & files & (body & Hb & Hs) & Hk). apply bind_ok. exists body. split; [done|].
    apply bind_ok. exists (h, files). split; [done|]. by apply Hbody.
Qed.

(** What parses as a seal: a document of the seal's shape that this
    version must refuse by name, or of a version before the tape could end
    early, or else one that keeps every parse rule; nothing that breaks a rule
    it should keep ever reads as a seal. *)
Theorem parse_seal_marker_spec raw s :
  parse_seal_marker raw = Ok s ↔
  ∃ h files, seal_document raw h files ∧ s = seal_of h files ∧
    (seal_refusal s ≠ None ∨
     (sh_ended_after h = None ∧ requires_short_seal s = false) ∨
     ((∀ k, sh_ended_after h = Some k → 0 ≤ k) ∧ seal_rules s)).
Proof. exact (parse_seal_iff raw s). Qed.

Context `{Digest}.

(** C33: a tape is judged sealed only on proof: its seal read and parsed, this
    version knows all it requires, it binds the very front index in hand by
    its digest, and where it says it may end early it keeps every parse
    rule. *)
Theorem judge_seal_sealed seal_read front_index fp sp s :
  judge_seal seal_read front_index fp sp = Sealed s ↔
  ∃ raw, seal_read = Ok raw ∧ parse_seal_marker (from_utf8_lossy raw) = Ok s ∧
    seal_layout_version s = LAYOUT_VERSION ∧
    Forall (λ f, f ∈ KNOWN_FEATURES) (seal_requires s) ∧
    seal_front_index_sha256 s = sha256_hex front_index ∧
    (requires_short_seal s = true ∨ is_Some (seal_ended_after s) → seal_rules s).
Proof.
  unfold judge_seal. destruct seal_read as [raw|why]; [|split; [done|by intros (? & ? & _)]].
  destruct (parse_seal_marker _) as [t|e] eqn:Hp;
    [|split; [done|intros (raw' & Hr & Hp' & _); congruence]].
  pose proof (seal_refusal_none t) as Hr. destruct (seal_refusal t) eqn:Href.
  { split; [done|]. intros (? & [= <-] & Hp' & Hv & Hf & _). rewrite Hp in Hp'.
    injection Hp' as <-. by specialize (proj2 Hr (conj Hv Hf)). }
  destruct (proj1 Hr eq_refl) as [Hv Hf].
  case_bool_decide as Hsha.
  - split; [done|]. intros (? & [= <-] & Hp' & _ & _ & ? & _). rewrite Hp in Hp'.
    injection Hp' as <-. done.
  - split.
    + intros [= <-]. exists raw. do 4 (split; [done|]). split; [done|].
      intros Hse. apply parse_seal_iff in Hp as (h & files & _ & -> & Hcase).
      destruct Hcase as [?|[[Hn Hnr]|[_ Hrules]]]; [done| |apply Hrules].
      destruct Hse as [Hs|[k Hs]]; [congruence|]. simpl in Hs. by rewrite Hn in Hs.
    + intros (? & [= <-] & Hp' & _). congruence.
Qed.
End readers.

(** ** Block padding *)

Section padding.
Definition zeros (n : nat) : list Z := replicate n 0.

Lemma string_of_bytes_app l k :
  string_of_bytes (l ++ k) = String.append (string_of_bytes l) (string_of_bytes k).
Proof. induction l as [|z l IH]; simpl; [done|]. by rewrite IH. Qed.

Lemma trim_nuls n : trim_end_nul (string_of_bytes (zeros n)) = EmptyString.
Proof.
  induction n as [|n IH]; [done|].
  change (trim_end_nul (String Ascii.zero (string_of_bytes (zeros n))) = EmptyString).
  cbn [trim_end_nul]. by rewrite IH.
Qed.

Lemma trim_end_padded s n :
  trim_end_nul (String.append s (string_of_bytes (zeros n))) = trim_end_nul s.
Proof.
  induction s as [|c s IH]; simpl; [apply trim_nuls|]. by rewrite IH.
Qed.

(** Decoding: the fuel given is enough, and padding decodes to padding. *)
Lemma utf8_tail_bound n range l : (utf8_tail n range l ≤ n)%nat ∧ (utf8_tail n range l ≤ length l)%nat.
Proof.
  revert range l. induction n as [|n IH]; intros range [|c l]; simpl; try lia.
  case_bool_decide; [|lia]. specialize (IH (128, 191) l). lia.
Qed.

Lemma utf8_tail_padded n range l m :
  0 < range.1 → utf8_tail n range (l ++ zeros m) = utf8_tail n range l.
Proof.
  revert range l. induction n as [|n IH]; intros range l Hr; [by destruct (l ++ zeros m), l|].
  destruct l as [|c l]; simpl.
  - destruct m; simpl; [done|]. by rewrite bool_decide_eq_false_2 by lia.
  - case_bool_decide; [|done]. by rewrite IH.
Qed.

Lemma utf8_fuel_enough f g l :
  (length l ≤ f)%nat → (length l ≤ g)%nat → utf8_lossy_fuel f l = utf8_lossy_fuel g l.
Proof.
  revert g l. induction f as [|f IH]; intros [|g] [|c l] Hf Hg; simpl in *; try done; try lia.
  destruct (utf8_lead c) as [[n range]|]; [|do 3 f_equal; apply IH; lia].
  assert (utf8_lossy_fuel f (drop (utf8_tail n range l) l) =
          utf8_lossy_fuel g (drop (utf8_tail n range l) l)) as Hd.
  { apply IH; rewrite length_drop; lia. }
  by rewrite Hd.
Qed.

Lemma utf8_lead_range c n range : utf8_lead c = Some (n, range) → n = 0%nat ∨ 0 < range.1.
Proof.
  unfold utf8_lead. repeat case_bool_decide; intros [= <- <-]; simpl; auto; lia.
Qed.

Lemma utf8_zeros f m : (m ≤ f)%nat → utf8_lossy_fuel f (zeros m) = zeros m.
Proof.
  revert f. induction m as [|m IH]; intros [|f] Hf; simpl; try done; [lia|].
  rewrite drop_0. change (zeros (S m)) with (0 :: zeros m). f_equal. apply IH. lia.
Qed.

Lemma utf8_lossy_padded f l m :
  (length l + m ≤ f)%nat →
  utf8_lossy_fuel f (l ++ zeros m) = utf8_lossy_fuel f l ++ zeros m.
Proof.
  revert l. induction f as [|f IH]; intros l Hf.
  { destruct l; [|simpl in Hf; lia]. by destruct m; [|simpl in Hf; lia]. }
  destruct l as [|c l]; [rewrite app_nil_l, utf8_zeros by (simpl in *; lia); done|]. simpl in *.
  destruct (utf8_lead c) as [[n range]|] eqn:Hl; [|rewrite IH by lia; done].
  assert (utf8_tail n range (l ++ zeros m) = utf8_tail n range l) as ->.
  { destruct (utf8_lead_range _ _ _ Hl) as [->|Hr]; [by destruct (l ++ zeros m), l|].
    by apply utf8_tail_padded. }
  destruct (utf8_tail_bound n range l) as [_ Hk].
  rewrite drop_app_le, take_app_le by done.
  rewrite IH by (rewrite length_drop; lia). case_bool_decide; [|done].
  simpl. by rewrite app_assoc.
Qed.

Lemma from_utf8_lossy_padded l m :
  from_utf8_lossy (l ++ zeros m) =
  String.append (from_utf8_lossy l) (string_of_bytes (zeros m)).
Proof.
  unfold from_utf8_lossy. rewrite <-string_of_bytes_app. f_equal.
  rewrite length_app. unfold zeros at 1. rewrite length_replicate.
  rewrite utf8_lossy_padded by lia. f_equal. apply utf8_fuel_enough; lia.
Qed.

Context `{TomlCrate, Digest}.

(** The block padding a tape read returns changes nothing: every document
    parses the same with any number of trailing NULs, and a seal is judged the
    same. *)
Theorem padding_changes_nothing :
  (∀ raw marker what n,
     toml_body (String.append raw (string_of_bytes (zeros n))) marker what =
     toml_body raw marker what) ∧
  (∀ raw n front_index fp sp,
     judge_seal (Ok (raw ++ zeros n)) front_index fp sp =
     judge_seal (Ok raw) front_index fp sp).
Proof.
  split.
  - intros. unfold toml_body. by rewrite trim_end_padded.
  - intros. unfold judge_seal, parse_seal_marker, toml_body.
    by rewrite from_utf8_lossy_padded, trim_end_padded.
Qed.

Lemma rposition_spec {A} (p : A → bool) (l : list A) :
  match rposition p l with
  | Some i => (∃ x, l !! i = Some x ∧ p x = true) ∧ Forall (λ x, p x = false) (drop (S i) l)
  | None => Forall (λ x, p x = false) l
  end.
Proof.
  induction l as [|x l IH]; simpl; [done|].
  destruct (rposition p l) as [i|]; [done|].
  destruct (p x) eqn:Hx; [|by constructor].
  split; [by exists x|]. by rewrite drop_0.
Qed.

(** The true bytes of a tape file: what [without_nul_padding] keeps ends in
    a byte that is not NUL (or is empty) and only NULs are dropped, so it gives
    back any content that does not end in NUL, whatever its padding. *)
Theorem without_nul_padding_spec :
  (∀ raw, ∃ n, raw = without_nul_padding raw ++ zeros n ∧
     ∀ b, last (without_nul_padding raw) = Some b → b ≠ 0) ∧
  (∀ content n, (∀ b, last content = Some b → b ≠ 0) →
     without_nul_padding (content ++ zeros n) = content).
Proof.
  assert (∀ raw, ∃ n, raw = without_nul_padding raw ++ zeros n ∧
     ∀ b, last (without_nul_padding raw) = Some b → b ≠ 0) as Hsplit.
  { intros raw. unfold without_nul_padding.
    pose proof (rposition_spec (λ b, negb (bool_decide (b = 0))) raw) as Hr.
    assert (∀ l, Forall (λ x, negb (bool_decide (x = 0)) = false) l → l = zeros (length l)) as Hz.
    { induction 1 as [|x l Hx _ IH]; simpl; [done|].
      apply negb_false_iff, bool_decide_eq_true in Hx as ->.
      change (0 :: l = 0 :: zeros (length l)). by f_equal. }
    destruct (rposition _ raw) as [i|]; simpl.
    - destruct Hr as [(x & Hx & Hp) Hall]. exists (length (drop (S i) raw)).
      rewrite <-(Hz _ Hall), take_drop. split; [done|]. intros b Hb.
      rewrite (take_S_r _ _ x) in Hb by done. rewrite last_snoc in Hb. injection Hb as <-.
      by apply negb_true_iff, bool_decide_eq_false in Hp.
    - exists (length raw). split; [exact (Hz _ Hr)|done]. }
  split; [done|]. intros content n Hc.
  destruct (Hsplit (content ++ zeros n)) as (m & Heq & Hlast).
  set (kept := without_nul_padding _) in *. clearbody kept. clear Hsplit.
  revert Heq Hc Hlast. revert m kept. induction n as [|n IH]; intros m kept Heq Hc Hlast.
  - destruct m as [|m]; [simpl in Heq; by rewrite !app_nil_r in Heq|].
    exfalso. simpl in Heq. rewrite app_nil_r in Heq.
    apply (Hc 0); [|done]. rewrite Heq. unfold zeros. simpl.
    rewrite replicate_cons_app, app_assoc. by rewrite last_snoc.
  - destruct m as [|m].
    + exfalso. simpl in Heq. rewrite app_nil_r in Heq. apply (Hlast 0); [|done].
      rewrite <-Heq. unfold zeros. simpl. rewrite replicate_cons_app, app_assoc. by rewrite last_snoc.
    + apply (IH m); [|done..]. unfold zeros in *. simpl in Heq.
      rewrite !replicate_cons_app, !app_assoc in Heq. by apply app_inj_tail in Heq as [? _].
Qed.
End padding.

(** ** A concrete tape *)

Definition sample_entry (i : Z) (label : string) : ParsedIndexEntry :=
  mkEntry i label (Some 10) (Some "ff"%string).
Definition sample_map : list ParsedIndexEntry :=
  [sample_entry 0 "id_thunk"; sample_entry 1 "system_guide"; sample_entry 2 "restore_sh";
   mkEntry 3 "front_index" None None; sample_entry 4 "data_slice";
   mkEntry 5 "seal_marker" None None].
Definition sample_seal : ParsedSeal :=
  mkSeal "L1" 2 6 (Some 4) "2026-01-01T00:00:00Z" "aa" ["short-seal"] sample_map.

Lemma sample_seal_width : seal_width sample_seal.
Proof. split; [by_decide|]. intros k [= <-]. by_decide. Defined.

Lemma validate_consistency_spec_witness : index_map sample_map.
Proof. apply (validate_consistency_spec sample_map ltac:(by_decide)). vm_compute. reflexivity. Defined.

Lemma check_parse_rules_spec_witness : seal_rules sample_seal.
Proof.
  apply (check_parse_rules_spec sample_seal sample_seal_width). vm_compute. reflexivity.
Defined.

Lemma classify_seal_ending_spec_witness :
  classify_seal_ending sample_seal 9 = Short 4 ∧ 4 = seal_file_count sample_seal - 2.
Proof.
  pose proof (classify_seal_ending_spec sample_seal sample_seal_width 9
    ltac:(vm_compute; reflexivity) ltac:(split; by_decide)) as H.
  assert (classify_seal_ending sample_seal 9 = Short 4) as Hc by (vm_compute; reflexivity).
  rewrite Hc in H. split; [reflexivity|exact (proj1 (proj2 H))].
Defined.

Lemma without_nul_padding_spec_witness :
  without_nul_padding ([1; 0; 2] ++ zeros 5) = [1; 0; 2].
Proof. apply (proj2 without_nul_padding_spec). intros b [= <-]. by_decide. Defined.

(** A [toml] crate that reads every text as the sample seal's document. *)
Definition sample_file (e : ParsedIndexEntry) : toml :=
  TTable ([("position"%string, TInteger (pe_position e));
           ("type"%string, TString (pe_type_label e))] ++
    match pe_size_bytes e with Some z => [("size_bytes"%string, TInteger z)] | None => [] end ++
    match pe_sha256_encrypted e with
    | Some h => [("sha256_encrypted"%string, TString h)] | None => [] end).
Definition sample_document : list (string * toml) :=
  [("seal"%string, TTable
     [("volume"%string, TString "L1"); ("layout_version"%string, TInteger 2);
      ("file_count"%string, TInteger 6); ("ended_after"%string, TInteger 4);
      ("sealed_at"%string, TString "2026-01-01T00:00:00Z");
      ("front_index_sha256"%string, TString "aa");
      ("requires"%string, TArray [TString "short-seal"])]);
   ("files"%string, TArray (sample_file <$> sample_map))].
Definition sample_toml : TomlCrate := λ _, Ok sample_document.

Lemma parse_seal_marker_spec_witness :
  parse_seal_marker (H := sample_toml) "-- header [seal] volume" = Ok sample_seal ∧
  seal_document (H := sample_toml) "-- header [seal] volume"
    (mkSealHeader "L1" 2 6 (Some 4) "2026-01-01T00:00:00Z" "aa" ["short-seal"%string]) sample_map.
Proof.
  assert (parse_seal_marker (H := sample_toml) "-- header [seal] volume" = Ok sample_seal) as Hp
    by (vm_compute; reflexivity).
  split; [exact Hp|].
  pose proof (proj1 (parse_seal_marker_spec (H := sample_toml) _ _) Hp)
    as (h & files & Hdoc & _ & _).
  destruct Hdoc as (body & Hb & Hs). exists body. split; [exact Hb|].
  rewrite Hs. vm_compute in Hs. injection Hs as <- <-. reflexivity.
Defined.

Definition sample_sha : Digest := λ _, "aa"%string.
Lemma judge_seal_sealed_witness :
  sha256_hex (Digest := sample_sha) [1] = "aa"%string ∧
  judge_seal (H := sample_toml) (H0 := sample_sha) (Ok [91; 115; 101; 97; 108; 93]) [1] 3 5 =
  Sealed sample_seal.
Proof.
  assert (judge_seal (H := sample_toml) (H0 := sample_sha) (Ok [91; 115; 101; 97; 108; 93]) [1] 3 5 =
    Sealed sample_seal) as Hj by (vm_compute; reflexivity).
  split; [|exact Hj].
  pose proof (proj1 (judge_seal_sealed (H := sample_toml) (H0 := sample_sha) _ _ _ _ _) Hj)
    as (raw & _ & _ & _ & _ & Hsha & _).
  exact (eq_sym Hsha).
Defined.
