(* ===== verification/Slice.v ===== *)
(** * dar's slice layer: [src/dar/slice.rs]

    The parser of a slice header, the frame of a set of slices, the cut of
    dar's standard output into slices ([cut_stream]) and its inverse
    ([Join], [join_slices]). Running dar for the templates is not modelled:
    their bytes are arguments. *)

From S2P Require Import Prelude.
Local Open Scope Z_scope.
Local Open Scope rust_scope.

Definition MAGIC : list Z := [0; 0; 0; 123].
Definition LABEL_LEN : nat := 10.
Definition TLV_SLICE_SIZE : Z := 1.
Definition TLV_DATA_NAME : Z := 3.
Definition NOT_LAST : Z := 78.   (* 'N' *)
Definition LAST : Z := 84.       (* 'T' *)
Definition FLAG_AT_END : Z := 69.   (* 'E' *)
Definition INFININT_GROUP : nat := 4.
Definition MAX_HEADER : nat := Z.to_nat 4096.

(** What a refusal refuses to do. *)
Inductive Verb : Type := CUT | JOIN.

Inductive FramingFault : Type :=
| HeaderTooLong
| HeaderEndsEarly
| IntegerWidthByte (b : Z)
| IntegerTooWide (width : nat)
| NoMagic
| UnknownFlag (flag : Z)
| NotATlvList (extension : Z)
| TooManyFields (count : Z)
| FieldTooLong (len : Z)
| BadDataName (len : Z)
| TwoSliceSizes
| SliceSizeLength
| UnknownField (tlv_type : Z)
| NoDataName
| TemplateFlag (flag : Z)
| TemplateNoSize
| NotSingleSlice
| NoRoom (slice_size : Z) (header_len : nat)
| TooManySlices
| StreamEndsWith (b : Z)
| NoTrailer
| StreamTemplateNotSingle
| FirstSliceHeader (flag : Z) (has_size : bool)
| AfterLast (n : Z)
| BegunBeforeEnd (n slice : Z)
| SliceDue (n due : Z)
| OutsideSlice
| HeaderDiffers (slice : Z)
| FirstHeaderHole
| EndedUnbegun
| SliceNoTrailer (n : Z)
| EndsInHeader (n : Z)
| SliceLength (n at_ slice_size : Z) (last : bool)
| SliceEndsWith (n trailer want : Z)
| NoSlices.

Inductive DarError : Type :=
| Refuse (verb : Verb) (what : FramingFault)
| IoFailed (message : string).

(** ** Reading

    A reader is the reads it will answer: a [read] takes what fits from the
    first, keeping the rest; an empty answer, or no more, is its end. *)
Inductive ReadEvent : Type :=
| Bytes (l : list Z)
| Eintr
| Fault (message : string).

Definition unread (l : list Z) (r : list ReadEvent) : list ReadEvent :=
  match l with [] => r | _ => Bytes l :: r end.

(** One [read] into a buffer of [max] bytes. *)
Definition read (max : nat) (r : list ReadEvent) : ReadEvent * list ReadEvent :=
  match r with
  | [] => (Bytes [], [])
  | Bytes l :: r => (Bytes (take max l), unread (drop max l) r)
  | e :: r => (e, r)
  end.

(** [read_full] into a buffer of one byte; [None] is the early end. *)
Fixpoint read_byte (r : list ReadEvent) : result (option string) (Z * list ReadEvent) :=
  match r with
  | [] => Err None
  | Bytes [] :: r => Err None
  | Bytes (b :: l) :: r => Ok (b, unread l r)
  | Eintr :: r => read_byte r
  | Fault m :: r => Err (Some m)
  end.

(** ** The header parser *)

Record Recorder : Type := mkRecorder {
  rec_r : list ReadEvent;
  rec_bytes : list Z;
}.

Record Header : Type := mkHeader {
  h_bytes : list Z;
  h_flag : Z;
  h_data_name_at : nat;
  h_slice_size : option Z;
}.

(** The parser's state passing. *)
Definition parser (A : Type) : Type := Recorder → result DarError (A * Recorder).
#[export] Instance parser_ret : MRet parser := λ A a s, Ok (a, s).
#[export] Instance parser_bind : MBind parser := λ A B f m s,
  match m s with Ok (a, s) => f a s | Err e => Err e end.

Section header.
Variable verb : Verb.

Definition refuse {A} (what : FramingFault) : parser A := λ s, Err (Refuse verb what).

Definition byte : parser Z := λ s,
  if bool_decide (MAX_HEADER ≤ length (rec_bytes s))%nat then Err (Refuse verb HeaderTooLong)
  else
    match read_byte (rec_r s) with
    | Ok (b, r) => Ok (b, mkRecorder r (rec_bytes s ++ [b]))
    | Err None => Err (Refuse verb HeaderEndsEarly)
    | Err (Some m) => Err (IoFailed m)
    end.

Fixpoint take_bytes (n : nat) : parser (list Z) :=
  match n with
  | O => mret []
  | S n => b ← byte; l ← take_bytes n; mret (b :: l)
  end.

(** [b.count_ones()] and [b.leading_zeros()] of a byte. *)
Definition count_ones (b : Z) : nat :=
  length (filter (λ i, Z.testbit b (Z.of_nat i) = true) (seq 0 8)).
Definition leading_zeros (b : Z) : nat :=
  default 8%nat (position (λ i, Z.testbit b (Z.of_nat (7 - i))) (seq 0 8)).

(** The loop over the preamble: the zero bytes, and the first that is not.
    Every round records a byte, so the header's bound ends it within the
    fuel. *)
Fixpoint preamble (fuel zeros : nat) : parser (nat * Z) :=
  match fuel with
  | O => refuse HeaderTooLong
  | S fuel =>
      b ← byte;
      if bool_decide (b ≠ 0) then mret (zeros, b) else preamble fuel (S zeros)
  end.

(** [acc << 8 | b], on [u64]. *)
Definition shift_in (acc b : Z) : Z := Z.lor (wrap64 (Z.shiftl acc 8)) b.

Fixpoint skip_zeros (l : list Z) : list Z :=
  match l with
  | [] => []
  | b :: l => if bool_decide (b = 0) then skip_zeros l else b :: l
  end.

Definition infinint : parser Z :=
  '(zeros, preamble) ← preamble (S MAX_HEADER) 0;
  if bool_decide (count_ones preamble ≠ 1%nat) then refuse (IntegerWidthByte preamble)
  else
    let groups := (zeros * 8 + leading_zeros preamble + 1)%nat in
    let width := (groups * INFININT_GROUP)%nat in
    value ← take_bytes width;
    if bool_decide (8 < length (skip_zeros value))%nat then refuse (IntegerTooWide width)
    else mret (foldl shift_in 0 value).

Definition recorded : parser nat := λ s, Ok (length (rec_bytes s), s).

(** One field of the TLV list: what is known of the labels and the size. *)
Definition tlv (found : option nat * option Z) : parser (option nat * option Z) :=
  let '(data_name_at, slice_size) := found in
  t ← take_bytes 2;
  let tlv_type := Z.lor (Z.shiftl (nth 0 t 0) 8) (nth 1 t 0) in
  len ← infinint;
  if bool_decide (Z.of_nat MAX_HEADER < len) then refuse (FieldTooLong len)
  else
    at_ ← recorded;
    if bool_decide (tlv_type = TLV_DATA_NAME) then
      if bool_decide (len ≠ Z.of_nat LABEL_LEN) || bool_decide (is_Some data_name_at)
      then refuse (BadDataName len)
      else take_bytes (Z.to_nat len) ≫= λ _, mret (Some at_, slice_size)
    else if bool_decide (tlv_type = TLV_SLICE_SIZE) then
      if bool_decide (is_Some slice_size) then refuse TwoSliceSizes
      else
        size ← infinint;
        now ← recorded;
        if bool_decide (Z.of_nat (now - at_) ≠ len) then refuse SliceSizeLength
        else mret (data_name_at, Some size)
    else refuse (UnknownField tlv_type).

Fixpoint tlvs (count : nat) (found : option nat * option Z) : parser (option nat * option Z) :=
  match count with
  | O => mret found
  | S count => found ← tlv found; tlvs count found
  end.

Definition header_read (flag : Z) (data_name_at : nat) (slice_size : option Z) : parser Header :=
  λ s, Ok (mkHeader (rec_bytes s) flag data_name_at slice_size, s).

Definition header : parser Header :=
  magic ← take_bytes (length MAGIC);
  if bool_decide (magic ≠ MAGIC) then refuse NoMagic
  else
    take_bytes LABEL_LEN ≫= λ _,
    flag ← byte;
    if negb (bool_decide (flag = LAST) || bool_decide (flag = NOT_LAST)
             || bool_decide (flag = FLAG_AT_END)) then refuse (UnknownFlag flag)
    else
      extension ← byte;
      if bool_decide (extension ≠ LAST) then refuse (NotATlvList extension)
      else
        count ← infinint;
        if bool_decide (16 < count) then refuse (TooManyFields count)
        else
          '(data_name_at, slice_size) ← tlvs (Z.to_nat count) (None, None);
          match data_name_at with
          | None => refuse NoDataName
          | Some data_name_at => header_read flag data_name_at slice_size
          end.
End header.

(** [parse_header_to], and what is left of the reader. *)
Definition parse_header_to (r : list ReadEvent) (verb : Verb)
    : result DarError (Header * list ReadEvent) :=
  match header verb (mkRecorder r []) with
  | Ok (h, s) => Ok (h, rec_r s)
  | Err e => Err e
  end.
Definition parse_header (r : list ReadEvent) : result DarError (Header * list ReadEvent) :=
  parse_header_to r CUT.

(** Reading from a byte slice. *)
Definition from_slice (l : list Z) : list ReadEvent := unread l [].

(** ** The frame *)

Record SliceFrame : Type := mkFrame {
  frame_header : list Z;
  frame_slice_size : Z;   (* u64 *)
}.

Definition label_at (h : list Z) (at_ : nat) : list Z := take LABEL_LEN (drop at_ h).

(** [header[at..at + LABEL_LEN].copy_from_slice(label)]. *)
Definition put_label (h : list Z) (at_ : nat) (label : list Z) : list Z :=
  take at_ h ++ label ++ drop (at_ + LABEL_LEN) h.

(** A header with another's two labels. *)
Definition with_labels_of (tmpl other : Header) : list Z :=
  let h := put_label (h_bytes tmpl) (length MAGIC) (label_at (h_bytes other) (length MAGIC)) in
  put_label h (h_data_name_at tmpl) (label_at (h_bytes other) (h_data_name_at other)).

Definition slice_frame (template : list Z) (stream_header : Header)
    : result DarError SliceFrame :=
  '(tmpl, _) ← parse_header (from_slice template);
  if bool_decide (h_flag tmpl ≠ FLAG_AT_END) then Err (Refuse CUT (TemplateFlag (h_flag tmpl)))
  else
    slice_size ← ok_or (h_slice_size tmpl) (Refuse CUT TemplateNoSize);
    if bool_decide (h_flag stream_header ≠ LAST)
       || bool_decide (is_Some (h_slice_size stream_header))
    then Err (Refuse CUT NotSingleSlice)
    else
      let header := with_labels_of tmpl stream_header in
      if bool_decide (slice_size ≤ Z.of_nat (length header) +w 1)
      then Err (Refuse CUT (NoRoom slice_size (length header)))
      else Ok (mkFrame header slice_size).

Definition payload_per_slice (f : SliceFrame) : Z :=
  frame_slice_size f -w Z.of_nat (length (frame_header f)) -w 1.

(** ** The stream's payload *)

(** The reads a reader still answers, and one for its end. *)
Fixpoint reader_size (r : list ReadEvent) : nat :=
  match r with
  | [] => 1
  | Bytes l :: r => S (length l + reader_size r)
  | _ :: r => S (reader_size r)
  end.

Definition PAYLOAD_BUFFER : nat := Z.to_nat (2 ^ 20).

Record Payload : Type := mkPayload {
  p_inner : list ReadEvent;
  p_buf : list Z;       (* buf[start..end] *)
  p_eof : bool;
  p_consumed : Z;       (* u64 *)
}.

Definition payload_new (inner : list ReadEvent) (header_len : nat) : Payload :=
  mkPayload inner [] false (Z.of_nat header_len).

Section payload.
(** The size of the buffer: [PAYLOAD_BUFFER] in the code. *)
Variable buffer : nat.

(** Every round but the last consumes a read, so the fuel given suffices. *)
Fixpoint fill_loop (fuel : nat) (p : Payload) : result DarError Payload :=
  if bool_decide (2 ≤ length (p_buf p))%nat || p_eof p then Ok p
  else
    match fuel with
    | O => Ok p
    | S fuel =>
        let '(e, inner) := read (buffer - length (p_buf p)) (p_inner p) in
        match e with
        | Bytes [] => fill_loop fuel (mkPayload inner (p_buf p) true (p_consumed p))
        | Bytes l =>
            fill_loop fuel
              (mkPayload inner (p_buf p ++ l) (p_eof p) (p_consumed p +w Z.of_nat (length l)))
        | Eintr => fill_loop fuel (mkPayload inner (p_buf p) (p_eof p) (p_consumed p))
        | Fault m => Err (IoFailed m)
        end
    end.
Definition fill (p : Payload) : result DarError Payload :=
  fill_loop (reader_size (p_inner p)) p.

Definition peek (max : Z) (p : Payload) : result DarError (list Z * Payload) :=
  p ← fill p;
  let available := Z.min (Z.of_nat (length (p_buf p)) -sat 1) max in
  Ok (take (Z.to_nat available) (p_buf p), p).

Definition consume (n : nat) (p : Payload) : Payload :=
  mkPayload (p_inner p) (drop n (p_buf p)) (p_eof p) (p_consumed p).

Definition at_end (p : Payload) : result DarError (bool * Payload) :=
  p ← fill p;
  Ok (p_eof p && bool_decide (length (p_buf p) ≤ 1)%nat, p).

Definition trailer (p : Payload) : option Z :=
  match p_buf p with [b] => Some b | _ => None end.

(** ** The cut *)

Record CutSummary : Type := mkCutSummary {
  cut_slices : Z;         (* u32 *)
  cut_stream_bytes : Z;   (* u64 *)
  cut_slice_size : Z;     (* u64 *)
}.

(** The sinks and the caller's stop, over a world [W]. *)
Record CutSinks (W : Type) : Type := mkCutSinks {
  sink_open : Z → W → result DarError W;
  sink_write : list Z → W → result DarError W;
  sink_close : Z → W → result DarError W;
  sink_tick : Z → W → result DarError W;
}.
#[global] Arguments mkCutSinks {W} _ _ _ _.
#[global] Arguments sink_open {W} _ _ _.
#[global] Arguments sink_write {W} _ _ _.
#[global] Arguments sink_close {W} _ _ _.
#[global] Arguments sink_tick {W} _ _ _.

Section cut.
Context {W : Type} (sinks : CutSinks W).

(** The [while left > 0] loop: every round writes at least a byte. *)
Fixpoint write_payload (fuel : nat) (left : Z) (p : Payload) (w : W)
    : result DarError (Payload * W) :=
  match fuel with
  | O => Ok (p, w)
  | S fuel =>
      if bool_decide (left ≤ 0) then Ok (p, w)
      else
        let before := p_consumed p in
        '(chunk, p) ← peek left p;
        if bool_decide (chunk = []) then Ok (p, w)
        else
          w ← sink_write sinks chunk w;
          let p := consume (length chunk) p in
          let left := left -w Z.of_nat (length chunk) in
          w ← (if bool_decide (p_consumed p ≠ before)
               then sink_tick sinks (p_consumed p) w else Ok w);
          write_payload fuel left p w
  end.

Definition payload_size (p : Payload) : nat := length (p_buf p) + reader_size (p_inner p).

Fixpoint cut_loop (fuel : nat) (frame : SliceFrame) (n : Z) (p : Payload) (w : W)
    : result DarError (CutSummary * W) :=
  match fuel with
  | O => Err (Refuse CUT TooManySlices)
  | S fuel =>
      let n := (n + 1)%Z in
      if bool_decide (u32_max < n) then Err (Refuse CUT TooManySlices)
      else
        w ← sink_open sinks n w;
        w ← sink_write sinks (frame_header frame) w;
        '(p, w) ← write_payload (payload_size p) (payload_per_slice frame) p w;
        '(last, p) ← at_end p;
        match (if last : bool then
                 match trailer p with
                 | Some b => if bool_decide (b = LAST) then None else Some (StreamEndsWith b)
                 | None => Some NoTrailer
                 end
               else None) with
        | Some what => Err (Refuse CUT what)
        | None =>
            w ← sink_write sinks [if last then LAST else NOT_LAST] w;
            w ← sink_close sinks n w;
            if last then
              w ← sink_tick sinks (p_consumed p) w;
              Ok (mkCutSummary n (p_consumed p) (frame_slice_size frame), w)
            else cut_loop fuel frame n p w
        end
  end.

Definition cut_stream_with (stream : list ReadEvent) (template : list Z) (w : W)
    : result DarError (CutSummary * W) :=
  '(stream_header, stream) ← parse_header stream;
  frame ← slice_frame template stream_header;
  let p := payload_new stream (length (h_bytes stream_header)) in
  w ← sink_tick sinks (p_consumed p) w;
  cut_loop (payload_size p) frame 0 p w.
End cut.
End payload.

Definition cut_stream {W} (sinks : CutSinks W) (stream : list ReadEvent) (template : list Z)
    (w : W) : result DarError (CutSummary * W) :=
  cut_stream_with PAYLOAD_BUFFER sinks stream template w.

(** ** The join *)

(** [StreamTemplate::new]: the parsed header of a stream template. *)
Definition stream_template (bytes : list Z) : result DarError Header :=
  '(h, _) ← parse_header_to (from_slice bytes) JOIN;
  if bool_decide (h_flag h ≠ LAST) || bool_decide (is_Some (h_slice_size h))
  then Err (Refuse JOIN StreamTemplateNotSingle)
  else Ok h.

Definition header_for (tmpl slice1 : Header) : result DarError (list Z) :=
  if bool_decide (h_flag slice1 ≠ FLAG_AT_END) || bool_decide (h_slice_size slice1 = None)
  then Err (Refuse JOIN (FirstSliceHeader (h_flag slice1)
                           (bool_decide (is_Some (h_slice_size slice1)))))
  else Ok (with_labels_of tmpl slice1).

Record JoinSummary : Type := mkJoinSummary {
  join_slices_taken : Z;
  join_stream_bytes : Z;
}.

Record Join : Type := mkJoin {
  j_out : list Z;
  j_template : Header;
  j_frame : option (list Z * Z);
  j_slice : Z;              (* u32 *)
  j_open : bool;
  j_last : bool;
  j_at : Z;                 (* u64 *)
  j_head : list Z;
  j_head_holes : list bool;
  j_held : option (Z * bool);
  j_ended : bool;
  j_written : Z;            (* u64 *)
}.

Definition join_new (template : Header) : Join :=
  mkJoin [] template None 0 false false 0 [] [] None false 0.

Definition refuse_join {A} (what : FramingFault) : result DarError A := Err (Refuse JOIN what).

(** [out.write_all] into a sink that takes every byte. *)
Definition emit (bytes : list Z) (j : Join) : Join :=
  mkJoin (j_out j ++ bytes) (j_template j) (j_frame j) (j_slice j) (j_open j) (j_last j)
    (j_at j) (j_head j) (j_head_holes j) (j_held j) (j_ended j)
    (j_written j +w Z.of_nat (length bytes)).

Definition join_begin (n : Z) (last : bool) (j : Join) : result DarError Join :=
  if j_ended j then refuse_join (AfterLast n)
  else if j_open j then refuse_join (BegunBeforeEnd n (j_slice j))
  else if bool_decide (u32_max < j_slice j + 1) || bool_decide (n ≠ j_slice j + 1)
  then refuse_join (SliceDue n (Z.min (j_slice j + 1) u32_max))
  else Ok (mkJoin (j_out j) (j_template j) (j_frame j) n true last 0 (j_head j)
             (j_head_holes j) None (j_ended j) (j_written j)).

Definition with_held (held : option (Z * bool)) (j : Join) : Join :=
  mkJoin (j_out j) (j_template j) (j_frame j) (j_slice j) (j_open j) (j_last j) (j_at j)
    (j_head j) (j_head_holes j) held (j_ended j) (j_written j).
Definition with_at (at_ : Z) (j : Join) : Join :=
  mkJoin (j_out j) (j_template j) (j_frame j) (j_slice j) (j_open j) (j_last j) at_
    (j_head j) (j_head_holes j) (j_held j) (j_ended j) (j_written j).

(** [payload]: every byte but the newest goes out. *)
Definition join_payload (bytes : list Z) (hole : bool) (j : Join) : Join :=
  match last bytes with
  | None => j
  | Some newest =>
      let j := match j_held j with Some (b, _) => emit [b] j | None => j end in
      with_held (Some (newest, hole)) (emit (removelast bytes) j)
  end.

(** The runs of hole or not that follow slice 1's header. *)
Fixpoint feed_runs (fuel : nat) (rest : list (Z * bool)) (j : Join) : Join :=
  match fuel, rest with
  | S fuel, (_, hole) :: _ =>
      let run := take_while (λ x : Z * bool, Bool.eqb x.2 hole) rest in
      feed_runs fuel (drop (length run) rest) (join_payload run.*1 hole j)
  | _, _ => j
  end.

Definition read_first_header (j : Join) : result DarError Join :=
  let head := j_head j in
  let holes := j_head_holes j in
  let first_hole := position (λ h : bool, h) holes in
  let hole_free (n : nat) := from_option (λ at_, bool_decide (n ≤ at_)%nat) true first_hole in
  header ← match parse_header_to (from_slice head) JOIN with
           | Ok (h, _) =>
               if hole_free (length (h_bytes h)) then Ok h else refuse_join FirstHeaderHole
           | Err e => if hole_free MAX_HEADER then Err e else refuse_join FirstHeaderHole
           end;
  stream_header ← header_for (j_template j) header;
  let slice_size := default 0 (h_slice_size header) in
  let len := length (h_bytes header) in
  let j := emit stream_header
             (mkJoin (j_out j) (j_template j) (j_frame j) (j_slice j) (j_open j) (j_last j)
                (j_at j) [] [] (j_held j) (j_ended j) (j_written j)) in
  let j := mkJoin (j_out j) (j_template j) (Some (h_bytes header, slice_size)) (j_slice j)
             (j_open j) (j_last j) (j_at j) (j_head j) (j_head_holes j) (j_held j) (j_ended j)
             (j_written j) in
  let rest := zip (drop len head) (drop len holes) in
  Ok (feed_runs (length rest) rest j).

Definition join_take (bytes : list Z) (hole : bool) (j : Join) : result DarError Join :=
  if negb (j_open j) then refuse_join OutsideSlice
  else if bool_decide (bytes = []) then Ok j
  else
    match j_frame j with
    | None =>
        let head := j_head j ++ bytes in
        let head_holes := j_head_holes j ++ replicate (length head - length (j_head_holes j)) hole in
        let j := mkJoin (j_out j) (j_template j) (j_frame j) (j_slice j) (j_open j) (j_last j)
                   (j_at j +w Z.of_nat (length bytes)) head head_holes (j_held j) (j_ended j)
                   (j_written j) in
        if bool_decide (MAX_HEADER ≤ length head)%nat then read_first_header j else Ok j
    | Some (header, _) =>
        let header_len := Z.of_nat (length header) in
        '(at_, bytes) ←
          (if bool_decide (j_at j < header_len) then
             let n := Z.to_nat (Z.min (header_len - j_at j) (Z.of_nat (length bytes))) in
             let from := Z.to_nat (j_at j) in
             if negb hole && bool_decide (take n bytes ≠ take n (drop from header))
             then refuse_join (HeaderDiffers (j_slice j))
             else Ok (j_at j +w Z.of_nat n, drop n bytes)
           else Ok (j_at j, bytes));
        Ok (join_payload bytes hole (with_at (at_ +w Z.of_nat (length bytes)) j))
    end.

Definition join_write (bytes : list Z) (j : Join) : result DarError Join := join_take bytes false j.

(** Zeros in pieces of 16 KiB. *)
Fixpoint hole_loop (fuel : nat) (left : Z) (j : Join) : result DarError Join :=
  match fuel with
  | O => Ok j
  | S fuel =>
      if bool_decide (left ≤ 0) then Ok j
      else
        let n := Z.min left (16 * 1024) in
        j ← join_take (replicate (Z.to_nat n) 0) true j;
        hole_loop fuel (left - n) j
  end.
Definition join_hole (len : Z) (j : Join) : result DarError Join :=
  hole_loop (S (Z.to_nat (div_ceil len (16 * 1024)))) len j.

Definition join_end (j : Join) : result DarError Join :=
  if negb (j_open j) then refuse_join EndedUnbegun
  else
    j ← (match j_frame j with None => read_first_header j | Some _ => Ok j end);
    let n := j_slice j in
    let '(header_len, slice_size) :=
      match j_frame j with Some (h, s) => (Z.of_nat (length h), s) | None => (0, 0) end in
    match j_held j with
    | None => refuse_join (SliceNoTrailer n)
    | Some (trailer, hole) =>
        let j := with_held None j in
        if bool_decide (j_at j < header_len +w 1) then refuse_join (EndsInHeader n)
        else if bool_decide (slice_size < j_at j)
                || (negb (j_last j) && bool_decide (j_at j ≠ slice_size))
        then refuse_join (SliceLength n (j_at j) slice_size (j_last j))
        else
          let want := if j_last j then LAST else NOT_LAST in
          if negb hole && bool_decide (trailer ≠ want)
          then refuse_join (SliceEndsWith n trailer want)
          else
            let j := mkJoin (j_out j) (j_template j) (j_frame j) (j_slice j) false (j_last j)
                       (j_at j) (j_head j) (j_head_holes j) (j_held j) (j_ended j)
                       (j_written j) in
            if j_last j then
              let j := emit [LAST] j in
              Ok (mkJoin (j_out j) (j_template j) (j_frame j) (j_slice j) (j_open j) (j_last j)
                    (j_at j) (j_head j) (j_head_holes j) (j_held j) true (j_written j))
            else Ok j
    end.

Definition join_summary (j : Join) : JoinSummary := mkJoinSummary (j_slice j) (j_written j).

(** The reads of one slice, in buffers of 64 KiB. *)
Fixpoint join_reads (fuel : nat) (r : list ReadEvent) (j : Join) : result DarError Join :=
  match fuel with
  | O => Ok j
  | S fuel =>
      let '(e, r) := read (Z.to_nat (64 * 1024)) r in
      match e with
      | Bytes [] => Ok j
      | Bytes l => j ← join_write l j; join_reads fuel r j
      | Eintr => join_reads fuel r j
      | Fault m => Err (IoFailed m)
      end
  end.

Fixpoint join_loop (slices : list (list ReadEvent)) (n : Z) (j : Join) : result DarError Join :=
  match slices with
  | [] => Ok j
  | slice :: slices =>
      let n := n + 1 in
      if bool_decide (u32_max < n) then Err (Refuse JOIN TooManySlices)
      else
        j ← join_begin n (bool_decide (slices = [])) j;
        j ← join_reads (reader_size slice) slice j;
        j ← join_end j;
        join_loop slices n j
  end.

Definition join_slices (slices : list (list ReadEvent)) (template : list Z)
    : result DarError (JoinSummary * list Z) :=
  template ← stream_template template;
  j ← join_loop slices 0 (join_new template);
  if negb (j_ended j) then Err (Refuse JOIN NoSlices)
  else Ok (join_summary j, j_out j).
