(* ===== verification/SliceHeader.v ===== *)
(** * dar's slice header: theorems

    A header is specified by its grammar ([is_header]); the parser accepts
    exactly the grammar, however the reads cut the bytes, and consumes
    exactly the header. The frame of a cut keeps dar's template but for its
    two labels. *)

From S2P Require Import Prelude Slice.
Local Open Scope Z_scope.

(** ** Readers *)

(** The bytes a reader gives, and the fault it ends with, if any. *)
Fixpoint flat (r : list ReadEvent) : list Z :=
  match r with
  | Bytes (b :: l) :: r => b :: l ++ flat r
  | Eintr :: r => flat r
  | _ => []
  end.
Fixpoint fault (r : list ReadEvent) : option string :=
  match r with
  | Bytes (_ :: _) :: r => fault r
  | Eintr :: r => fault r
  | Fault m :: _ => Some m
  | _ => None
  end.

(** Readers that give the same bytes and end the same way. *)
Definition same_reads (r r' : list ReadEvent) : Prop := flat r = flat r' ∧ fault r = fault r'.

Lemma flat_unread l r : flat (unread l r) = l ++ flat r.
Proof. by destruct l. Qed.
Lemma fault_unread l r : fault (unread l r) = fault r.
Proof. by destruct l. Qed.
Lemma flat_from_slice l : flat (from_slice l) = l.
Proof. unfold from_slice. by rewrite flat_unread, app_nil_r. Qed.
Lemma fault_from_slice l : fault (from_slice l) = None.
Proof. unfold from_slice. by rewrite fault_unread. Qed.

Lemma read_byte_spec r :
  match flat r with
  | b :: l => ∃ r', read_byte r = Ok (b, r') ∧ flat r' = l ∧ fault r' = fault r
  | [] => read_byte r = Err (fault r)
  end.
Proof.
  induction r as [|[[|b l]| |m] r IH]; simpl; try done.
  exists (unread l r). by rewrite flat_unread, fault_unread.
Qed.

(** ** The parser, on the bytes alone *)

(** What a parser does on a recorder: it takes a prefix [l] of the bytes, or
    fails, and neither depends on how the reads cut them. *)
Definition parses {A} (m : parser A) (s : Recorder) (l : list Z) (a : A) (s' : Recorder) : Prop :=
  m s = Ok (a, s') ∧ rec_bytes s' = rec_bytes s ++ l ∧
  flat (rec_r s) = l ++ flat (rec_r s') ∧ fault (rec_r s') = fault (rec_r s).

(** A grammar: what a parser takes after what was read of the header, and the
    value it gives. A parser that accepts a grammar takes exactly its words, within
    the header's bound. *)
Definition grammar (A : Type) : Type := list Z → list Z → A → Prop.

Record accepts {A} (m : parser A) (G : grammar A) : Prop := {
  acc_sound s a s' : m s = Ok (a, s') →
    ∃ l, parses m s l a s' ∧ G (rec_bytes s) l a ∧
      (l = [] ∨ (length (rec_bytes s) + length l ≤ MAX_HEADER)%nat);
  acc_complete s l a r : G (rec_bytes s) l a → flat (rec_r s) = l ++ r →
    (length (rec_bytes s) + length l ≤ MAX_HEADER)%nat → ∃ s', parses m s l a s';
}.

Definition g_ret {A} (a : A) : grammar A := λ _ l b, l = [] ∧ b = a.
Definition g_none {A} : grammar A := λ _ _ _, False.
Definition g_bind {A B} (G : grammar A) (K : A → grammar B) : grammar B :=
  λ n l b, ∃ l1 l2 a, l = l1 ++ l2 ∧ G n l1 a ∧ K a (n ++ l1) l2 b.
Definition g_take (k : nat) : grammar (list Z) := λ _ l a, l = a ∧ length l = k.
Definition g_byte : grammar Z := λ _ l b, l = [b].

Lemma parses_recorded {A} (m : parser A) s l a s' :
  parses m s l a s' → rec_bytes s' = rec_bytes s ++ l.
Proof. by intros (_ & -> & _). Qed.

Lemma parses_bind {A B} (m : parser A) (f : A → parser B) s l1 a s1 l2 b s2 :
  parses m s l1 a s1 → parses (f a) s1 l2 b s2 → parses (m ≫= f) s (l1 ++ l2) b s2.
Proof.
  intros (H1 & H2 & H3 & H4) (K1 & K2 & K3 & K4). unfold parses.
  assert ((m ≫= f) s = f a s1) as -> by (unfold mbind, parser_bind; by rewrite H1).
  by rewrite K1, K2, H2, H3, K3, K4, <-!app_assoc.
Qed.

Lemma accepts_ret {A} (a : A) : accepts (mret a) (g_ret a).
Proof.
  split.
  - intros s b s' [= <- <-]. exists []. split; [|by split; [|left]].
    unfold parses. by rewrite app_nil_r.
  - intros s l b r [-> ->] Hf _. exists s. unfold parses. by rewrite app_nil_r.
Qed.

Lemma accepts_bind {A B} (m : parser A) (f : A → parser B) G K :
  accepts m G → (∀ a, accepts (f a) (K a)) → accepts (m ≫= f) (g_bind G K).
Proof.
  intros [Hs Hc] Hf. split.
  - intros s b s2 H. unfold mbind, parser_bind in H.
    destruct (m s) as [[a s1]|e] eqn:Hm; [|done].
    destruct (Hs s a s1 Hm) as (l1 & H1 & G1 & B1).
    destruct (acc_sound _ _ (Hf a) s1 b s2 H) as (l2 & H2 & G2 & B2).
    pose proof (parses_recorded _ _ _ _ _ H1) as Hp. rewrite Hp in G2, B2.
    exists (l1 ++ l2). split; [by eapply parses_bind|]. split; [by exists l1, l2, a|].
    rewrite length_app in *. destruct B1 as [->|B1], B2 as [->|B2]; simpl in *; auto; right; lia.
  - intros s l b r (l1 & l2 & a & -> & G1 & G2) Hfl Hl. rewrite length_app in Hl.
    rewrite <-app_assoc in Hfl.
    destruct (Hc s l1 a (l2 ++ r) G1 Hfl) as (s1 & H1); [lia|].
    pose proof (parses_recorded _ _ _ _ _ H1) as Hp. rewrite <-Hp in G2.
    destruct (acc_complete _ _ (Hf a) s1 l2 b r G2) as (s2 & H2); [|rewrite Hp, length_app; lia|].
    + destruct H1 as (_ & _ & H1 & _). rewrite Hfl in H1. by apply app_inv_head in H1.
    + exists s2. by eapply parses_bind.
Qed.

Lemma accepts_if {A} (c : bool) (m m' : parser A) G G' :
  (c = true → accepts m G) → (c = false → accepts m' G') →
  accepts (if c then m else m') (λ n l a, if c then G n l a else G' n l a).
Proof. destruct c; auto. Qed.

Lemma accepts_iff {A} (m : parser A) G G' :
  (∀ n l a, G n l a ↔ G' n l a) → accepts m G → accepts m G'.
Proof.
  intros Hg [Hs Hc]. split.
  - intros s a s' H. destruct (Hs s a s' H) as (l & ? & ? & ?). exists l. by rewrite <-Hg.
  - intros s l a r H. apply Hc. by apply Hg.
Qed.

Section grammar.
Variable verb : Verb.

Lemma accepts_refuse {A} w : accepts (refuse (A := A) verb w) g_none.
Proof. by split. Qed.

Lemma accepts_byte : accepts (byte verb) g_byte.
Proof.
  split.
  - intros s b s' H. unfold byte in H. case_bool_decide as Hl; [done|].
    pose proof (read_byte_spec (rec_r s)) as Hr.
    destruct (flat (rec_r s)) as [|c l] eqn:Hf.
    { rewrite Hr in H. by destruct (fault (rec_r s)). }
    destruct Hr as (r' & Hb & Hfl & Hfa). rewrite Hb in H. injection H as -> <-.
    exists [b]. split; [|split; [done|right; simpl; lia]].
    split; [|simpl; by rewrite Hf, Hfl].
    unfold byte. rewrite bool_decide_eq_false_2 by lia. by rewrite Hb.
  - intros s l b r Hg Hf Hl. unfold g_byte in Hg. subst l.
    pose proof (read_byte_spec (rec_r s)) as Hr.
    rewrite Hf in Hr. destruct Hr as (r' & Hb & Hfl & Hfa). simpl in *.
    exists (mkRecorder r' (rec_bytes s ++ [b])). split; [|simpl; by rewrite Hf, <-Hfl].
    unfold byte. rewrite bool_decide_eq_false_2 by lia. by rewrite Hb.
Qed.

Lemma accepts_take k : accepts (take_bytes verb k) (g_take k).
Proof.
  induction k as [|k IH]; simpl.
  - eapply accepts_iff; [|apply accepts_ret]. intros n l a. unfold g_ret, g_take. split.
    + by intros [-> ->].
    + intros [<- ?]. by destruct l.
  - eapply accepts_iff; [|apply accepts_bind; [apply accepts_byte|intros b;
      apply accepts_bind; [apply IH|intros l; apply accepts_ret]]].
    intros n l a. unfold g_bind, g_byte, g_take, g_ret. split.
    + intros (l1 & l2 & b & -> & -> & (k1 & k2 & c & -> & [-> <-] & [-> ->])).
      rewrite app_nil_r. done.
    + intros [<- Hl]. destruct l as [|b l]; [done|]. injection Hl as Hl.
      exists [b], l, b. split; [done|]. split; [done|]. exists l, [], l. by rewrite app_nil_r.
Qed.

Lemma accepts_recorded : accepts recorded (λ n l a, l = [] ∧ a = length n).
Proof.
  split.
  - intros s a s' [= <- <-]. exists []. split; [|by split; [|left]].
    unfold parses. by rewrite app_nil_r.
  - intros s l a r [-> ->] Hf _. exists s. unfold parses. by rewrite app_nil_r.
Qed.

(** ** Integers *)

(** An infinint: zero bytes, a byte with a single bit set, and as many
    groups of four bytes as they say, big-endian, at most eight of them
    significant. *)
Definition is_infinint (l : list Z) (v : Z) : Prop :=
  ∃ k p value, (k ≤ MAX_HEADER)%nat ∧ l = replicate k 0 ++ p :: value ∧ p ≠ 0 ∧ count_ones p = 1%nat ∧
    length value = ((k * 8 + leading_zeros p + 1) * 4)%nat ∧
    (length (skip_zeros value) ≤ 8)%nat ∧ v = foldl shift_in 0 value.

Lemma accepts_preamble fuel z :
  accepts (preamble verb fuel z)
    (λ _ l a, ∃ k, (k < fuel)%nat ∧ l = replicate k 0 ++ [a.2] ∧ a.2 ≠ 0 ∧ a.1 = (z + k)%nat).
Proof.
  revert z. induction fuel as [|fuel IH]; intros z; simpl.
  - eapply accepts_iff; [|apply accepts_refuse]. intros n l a. split; [done|].
    intros (k & ? & _). lia.
  - eapply accepts_iff; [|apply accepts_bind; [apply accepts_byte|intros b;
      apply (accepts_if (bool_decide (b ≠ 0))); intros _; [apply accepts_ret|apply IH]]].
    intros n l [z' p]. unfold g_bind, g_byte, g_ret. simpl. split.
    + intros (l1 & l2 & b & -> & -> & H). case_bool_decide as Hb.
      * destruct H as [-> [= -> ->]]. exists 0%nat. repeat split; try done; lia.
      * assert (b = 0) as -> by lia. destruct H as (k & Hk & -> & Hp & ->).
        exists (S k). repeat split; try done; lia.
    + intros ([|k] & Hk & -> & Hp & ->).
      * exists [p], [], p. repeat split; try done. rewrite bool_decide_eq_true_2 by done.
        split; [done|]. by rewrite Nat.add_0_r.
      * exists [0], (replicate k 0 ++ [p]), 0. repeat split; try done.
        rewrite bool_decide_eq_false_2 by lia. exists k. repeat split; try done; lia.
Qed.

Lemma accepts_infinint : accepts (infinint verb) (λ _ l v, is_infinint l v).
Proof.
  unfold infinint. eapply accepts_iff; [|eapply (accepts_bind _ _ _ (λ a n l v,
      if bool_decide (count_ones a.2 ≠ 1%nat) then g_none n l v
      else g_bind (g_take ((a.1 * 8 + leading_zeros a.2 + 1) * INFININT_GROUP))
             (λ value n l v, if bool_decide (8 < length (skip_zeros value))%nat
                             then g_none n l v else g_ret (foldl shift_in 0 value) n l v) n l v));
    [apply accepts_preamble|
    intros [zeros p]; apply (accepts_if (bool_decide (count_ones p ≠ 1%nat))); intros _;
      [apply accepts_refuse|apply accepts_bind; [apply accepts_take|intros value;
        apply (accepts_if (bool_decide (8 < length (skip_zeros value))%nat)); intros _;
          [apply accepts_refuse|apply accepts_ret]]]]].
  intros n l v. unfold g_bind, g_take, g_ret, g_none, is_infinint, INFININT_GROUP. split.
  - intros (l1 & l2 & [zeros p] & -> & (k & Hk & -> & Hp & Hz) & H). simpl in *. subst zeros.
    case_bool_decide as Hc; [done|]. destruct H as (v1 & v2 & value & -> & [-> Hlen] & H).
    case_bool_decide as Hs; [done|]. destruct H as [-> ->]. exists k, p, value.
    rewrite app_nil_r, <-app_assoc. split; [lia|]. split; [done|]. split; [done|].
    split; [done|]. split; [done|]. split; [lia|done].
  - intros (k & p & value & Hk & -> & Hp & Hc & Hlen & Hs & ->).
    exists (replicate k 0 ++ [p]), value, (k, p). split; [by rewrite <-app_assoc|]. split.
    + exists k. simpl. split; [lia|]. done.
    + rewrite bool_decide_eq_false_2 by (intros Hn; by apply Hn).
      exists value, [], value. split; [by rewrite app_nil_r|]. split; [done|].
      rewrite bool_decide_eq_false_2 by lia. done.
Qed.

(** ** Fields *)

Definition field_type (t : list Z) : Z := Z.lor (Z.shiftl (nth 0 t 0) 8) (nth 1 t 0).

(** A field of the TLV list after [pre], and what is found with it. *)
Inductive is_field (pre : list Z) :
    option nat * option Z → list Z → option nat * option Z → Prop :=
| field_data_name t len label size :
    length t = 2%nat → field_type t = TLV_DATA_NAME → is_infinint len (Z.of_nat LABEL_LEN) →
    length label = LABEL_LEN →
    is_field pre (None, size) (t ++ len ++ label) (Some (length (pre ++ t ++ len)), size)
| field_slice_size t len value size at_ :
    length t = 2%nat → field_type t = TLV_SLICE_SIZE → is_infinint len (Z.of_nat (length value)) →
    (length value ≤ MAX_HEADER)%nat → is_infinint value size →
    is_field pre (at_, None) (t ++ len ++ value) (at_, Some size).

Inductive is_fields (pre : list Z) : nat → option nat * option Z → list Z →
    option nat * option Z → Prop :=
| fields_none found : is_fields pre 0 found [] found
| fields_one n found l found' l' found'' :
    is_field pre found l found' → is_fields (pre ++ l) n found' l' found'' →
    is_fields pre (S n) found (l ++ l') found''.

Lemma accepts_tlv found : accepts (tlv verb found) (λ pre l found', is_field pre found l found').
Proof.
  destruct found as [at0 size0]. unfold tlv. eapply accepts_iff;
  [|apply accepts_bind; [apply accepts_take|intros t];
    apply accepts_bind; [apply accepts_infinint|intros len];
    apply (accepts_if (bool_decide (Z.of_nat MAX_HEADER < len))); intros _; [apply accepts_refuse|];
    apply accepts_bind; [apply accepts_recorded|intros at_];
    apply (accepts_if (bool_decide (field_type t = TLV_DATA_NAME))); intros _;
    [apply (accepts_if (bool_decide (len ≠ Z.of_nat LABEL_LEN) || bool_decide (is_Some at0)));
       intros _; [apply accepts_refuse|apply accepts_bind; [apply accepts_take|intros; apply accepts_ret]]
    |apply (accepts_if (bool_decide (field_type t = TLV_SLICE_SIZE))); intros _;
       [apply (accepts_if (bool_decide (is_Some size0))); intros _; [apply accepts_refuse|];
        apply accepts_bind; [apply accepts_infinint|intros size];
        apply accepts_bind; [apply accepts_recorded|intros now];
        apply (accepts_if (bool_decide (Z.of_nat (now - at_) ≠ len))); intros _;
          [apply accepts_refuse|apply accepts_ret]
       |apply accepts_refuse]]].
  intros pre l [at1 size1]. unfold g_bind, g_take, g_ret, g_none. split.
  - intros (l1 & l2 & t & -> & [-> Ht] & (l3 & l4 & len & -> & Hlen & H)).
    case_bool_decide as Hmax; [done|].
    destruct H as (? & l5 & at_ & -> & [-> ->] & H). simpl in H. rewrite app_nil_r in H.
    case_bool_decide as Hn.
    + destruct (bool_decide (len ≠ _) || _) eqn:Hc; [done|].
      apply orb_false_iff in Hc as [Hl%bool_decide_eq_false Ha%bool_decide_eq_false].
      apply dec_stable in Hl. subst len. destruct at0; [destruct Ha; by eexists|].
      destruct H as (l6 & l7 & label & -> & [-> Hlab] & [-> [= -> ->]]). simpl.
      rewrite app_nil_r, <-app_assoc. apply field_data_name; try done.
    + case_bool_decide as Hsz; [|done]. case_bool_decide as Hs0; [done|].
      destruct size0; [destruct Hs0; by eexists|].
      destruct H as (l6 & l7 & size & -> & Hv & (? & l8 & now & -> & [-> ->] & H)).
      case_bool_decide as Hd; [done|]. destruct H as [-> [= -> ->]]. simpl.
      rewrite !app_nil_r. rewrite !length_app in Hd.
      apply field_slice_size; try done.
      * replace (Z.of_nat (length l6)) with len by lia. done.
      * lia.
  - intros H. inversion H as [t len label size Ht Hty Hlen Hlab|
      t len value size at_ Ht Hty Hlen Hmax Hv]; subst.
    + exists t, (len ++ label), t. split; [done|]. split; [done|].
      exists len, label, (Z.of_nat LABEL_LEN). split; [done|]. split; [done|].
      rewrite bool_decide_eq_false_2 by (unfold MAX_HEADER, LABEL_LEN; lia).
      exists [], label, (length ((pre ++ t) ++ len)). split; [done|]. split; [done|].
      rewrite bool_decide_eq_true_2 by done.
      rewrite bool_decide_eq_false_2 by (intros Hx; by apply Hx).
      rewrite bool_decide_eq_false_2 by (by intros [? ?]). simpl.
      exists label, [], label. split; [by rewrite app_nil_r|]. rewrite Nat2Z.id.
      split; [done|]. split; [done|]. by rewrite !app_assoc.
    + exists t, (len ++ value), t. split; [done|]. split; [done|].
      exists len, value, (Z.of_nat (length value)). split; [done|]. split; [done|].
      rewrite bool_decide_eq_false_2 by lia.
      exists [], value, (length ((pre ++ t) ++ len)). split; [done|]. split; [done|].
      rewrite (bool_decide_eq_false_2 (_ = TLV_DATA_NAME)) by (rewrite Hty; done).
      rewrite bool_decide_eq_true_2 by done.
      rewrite bool_decide_eq_false_2 by (by intros [? ?]).
      exists value, [], size. split; [by rewrite app_nil_r|]. split; [done|].
      exists [], [], (length (((pre ++ t) ++ len) ++ value)). rewrite !app_nil_r.
      split; [done|]. split; [done|]. rewrite bool_decide_eq_false_2; [done|].
      intros Hx. apply Hx. rewrite (length_app _ value). lia.
Qed.

Lemma accepts_tlvs count found :
  accepts (tlvs verb count found) (λ pre l found', is_fields pre count found l found').
Proof.
  revert found. induction count as [|count IH]; intros found; simpl.
  - eapply accepts_iff; [|apply accepts_ret]. intros pre l f. unfold g_ret. split.
    + intros [-> ->]. constructor.
    + intros H. by inversion H.
  - eapply accepts_iff; [|apply accepts_bind; [apply accepts_tlv|intros f; apply IH]].
    intros pre l f. unfold g_bind. split.
    + intros (l1 & l2 & f1 & -> & H1 & H2). by econstructor.
    + intros H. inversion H; subst. by eauto 10.
Qed.
End grammar.

(** ** Headers *)

(** dar's slice header: the magic, the internal name, the flag, and a list of
    at most sixteen fields, of which one is the data name. *)
Inductive is_header : Header → Prop :=
| header_bytes label flag count_bytes count fields data_name_at slice_size :
    length label = LABEL_LEN → flag ∈ [LAST; NOT_LAST; FLAG_AT_END] →
    is_infinint count_bytes count → count ≤ 16 →
    is_fields (MAGIC ++ label ++ [flag; LAST] ++ count_bytes) (Z.to_nat count) (None, None)
      fields (Some data_name_at, slice_size) →
    is_header (mkHeader (MAGIC ++ label ++ [flag; LAST] ++ count_bytes ++ fields)
                 flag data_name_at slice_size).

Section headers.
Variable verb : Verb.

(** The grammar the parser is composed of. *)
Definition header_grammar : grammar Header :=
  g_bind (g_take (length MAGIC)) (λ magic n l h, if bool_decide (magic ≠ MAGIC) then g_none n l h else
  g_bind (g_take LABEL_LEN) (λ _,
  g_bind g_byte (λ flag n l h,
    if negb (bool_decide (flag = LAST) || bool_decide (flag = NOT_LAST)
             || bool_decide (flag = FLAG_AT_END)) then g_none n l h else
  g_bind g_byte (λ extension n l h, if bool_decide (extension ≠ LAST) then g_none n l h else
  g_bind (λ _ l v, is_infinint l v) (λ count n l h, if bool_decide (16 < count) then g_none n l h else
  g_bind (λ pre l f, is_fields pre (Z.to_nat count) (None, None) l f)
    (λ f n l h, match f.1 with
                | None => False
                | Some at_ => l = [] ∧ h = mkHeader n flag at_ f.2
                end) n l h) n l h) n l h)) n l h).

Lemma accepts_header : accepts (header verb) header_grammar.
Proof.
  unfold header, header_grammar.
  apply accepts_bind; [apply accepts_take|intros magic].
  apply (accepts_if (bool_decide (magic ≠ MAGIC))); intros _; [apply accepts_refuse|].
  apply accepts_bind; [apply accepts_take|intros _].
  apply accepts_bind; [apply accepts_byte|intros flag].
  apply (accepts_if (negb _)); intros _; [apply accepts_refuse|].
  apply accepts_bind; [apply accepts_byte|intros extension].
  apply (accepts_if (bool_decide _)); intros _; [apply accepts_refuse|].
  apply accepts_bind; [apply accepts_infinint|intros count].
  apply (accepts_if (bool_decide _)); intros _; [apply accepts_refuse|].
  apply accepts_bind; [apply accepts_tlvs|intros [[at_|] size]]; simpl; [|apply accepts_refuse].
  split.
  - intros s h s' [= <- <-]. exists []. split; [|by split; [|left]].
    unfold parses. by rewrite app_nil_r.
  - intros s l h r [-> ->] Hf _. exists s. unfold parses. by rewrite app_nil_r.
Qed.

Lemma header_grammar_spec l h : header_grammar [] l h ↔ is_header h ∧ h_bytes h = l.
Proof.
  unfold header_grammar, g_bind, g_take, g_byte, g_none. split.
  - intros (l1 & l2 & magic & -> & [-> _] & H). case_bool_decide as Hm; [done|].
    subst magic.
    destruct H as (label & l3 & label' & -> & [<- Hlab] & H).
    destruct H as (l4 & l5 & flag & -> & -> & H).
    destruct (bool_decide (flag = LAST) || _ || _) eqn:Hfl; simpl in H; [|done].
    destruct H as (l6 & l7 & ext & -> & -> & H). case_bool_decide as He; [done|].
    subst ext.
    destruct H as (cb & l8 & count & -> & Hc & H). case_bool_decide as Hmax; [done|].
    destruct H as (fields & l9 & [[at_|] size] & -> & Hfs & H); cbn [fst snd] in H; [|done].
    destruct H as [-> ->]. rewrite !app_nil_r.
    repeat rewrite <-app_assoc in Hfs. split; [|simpl; by rewrite <-!app_assoc].
    repeat rewrite <-app_assoc. apply (header_bytes label flag cb count fields at_ size); [done| |done|lia|done].
    rewrite !orb_true_iff, !bool_decide_eq_true in Hfl. rewrite !elem_of_cons. tauto.
  - intros [H <-]. destruct H as [label flag cb count fields at_ size Hlab Hfl Hc Hmax Hfs]. simpl.
    exists MAGIC, (label ++ [flag; LAST] ++ cb ++ fields), MAGIC. split; [done|]. split; [done|].
    rewrite bool_decide_eq_false_2 by (intros Hx; by apply Hx).
    exists label, ([flag; LAST] ++ cb ++ fields), label. split; [done|]. split; [done|].
    exists [flag], ([LAST] ++ cb ++ fields), flag. split; [done|]. split; [done|].
    assert (bool_decide (flag = LAST) || bool_decide (flag = NOT_LAST)
             || bool_decide (flag = FLAG_AT_END) = true) as ->.
    { rewrite !orb_true_iff, !bool_decide_eq_true. rewrite !elem_of_cons in Hfl.
      destruct Hfl as [?|[?|[?|Hn]]]; auto. by apply not_elem_of_nil in Hn. }
    simpl negb. exists [LAST], (cb ++ fields), LAST. split; [done|]. split; [done|].
    rewrite bool_decide_eq_false_2 by (intros Hx; by apply Hx).
    exists cb, fields, count. split; [done|]. split; [done|].
    rewrite bool_decide_eq_false_2 by lia.
    exists fields, [], (Some at_, size). split; [by rewrite app_nil_r|].
    rewrite <-!app_assoc in *. simpl in *. split; [done|]. split; [done|]. done.
Qed.

Lemma parse_header_sound r h r' :
  parse_header_to r verb = Ok (h, r') →
  is_header h ∧ flat r = h_bytes h ++ flat r' ∧ fault r' = fault r ∧
  (length (h_bytes h) ≤ MAX_HEADER)%nat.
Proof.
  unfold parse_header_to. destruct (header verb _) as [[h' s]|] eqn:Hh; [|done].
  intros [= <- <-].
  destruct (acc_sound _ _ accepts_header _ _ _ Hh) as (l & (_ & _ & Hfl & Hfa) & Hg & Hb).
  simpl in *. apply header_grammar_spec in Hg as [Hg <-]. split; [done|]. split; [done|].
  split; [done|]. destruct Hb as [->|Hb]; simpl; lia.
Qed.

Lemma parse_header_complete r h rest :
  is_header h → (length (h_bytes h) ≤ MAX_HEADER)%nat → flat r = h_bytes h ++ rest →
  ∃ r', parse_header_to r verb = Ok (h, r') ∧ flat r' = rest ∧ fault r' = fault r.
Proof.
  intros Hh Hl Hf.
  destruct (acc_complete _ _ accepts_header (mkRecorder r []) (h_bytes h) h rest)
    as (s' & Hm & _ & Hfl & Hfa); [by apply header_grammar_spec|done|done|].
  exists (rec_r s'). unfold parse_header_to. rewrite Hm. simpl in *.
  rewrite Hf in Hfl. apply app_inv_head in Hfl. done.
Qed.

(** The header parser accepts exactly dar's header grammar, at most
    [MAX_HEADER] bytes of it, and consumes exactly the header: whatever the
    reads that bring the bytes, what follows the header is left in the
    reader, to the byte, with the fault the reader ends in. *)
Theorem parse_header_spec r h :
  (∀ r', parse_header_to r verb = Ok (h, r') →
     is_header h ∧ (length (h_bytes h) ≤ MAX_HEADER)%nat ∧
     flat r = h_bytes h ++ flat r' ∧ fault r' = fault r) ∧
  (∀ rest, is_header h → (length (h_bytes h) ≤ MAX_HEADER)%nat → flat r = h_bytes h ++ rest →
     ∃ r', parse_header_to r verb = Ok (h, r') ∧ flat r' = rest ∧ fault r' = fault r).
Proof.
  split.
  - intros r' H. destruct (parse_header_sound _ _ _ H) as (Hh & Hf & Hfa & Hl). done.
  - intros rest. apply parse_header_complete.
Qed.
End headers.

(** ** Labels *)

Lemma put_label_length h at_ label :
  length label = LABEL_LEN → (at_ + LABEL_LEN ≤ length h)%nat →
  length (put_label h at_ label) = length h.
Proof. intros Hl Ha. unfold put_label. rewrite !length_app, length_take, length_drop. lia. Qed.

Lemma put_label_app before label after label' :
  length label = LABEL_LEN →
  put_label (before ++ label ++ after) (length before) label' = before ++ label' ++ after.
Proof.
  intros Hl. unfold put_label. rewrite take_app_length. do 2 f_equal.
  rewrite <-Hl, <-length_app, app_assoc. by rewrite drop_app_length.
Qed.

Lemma label_at_app before label after :
  length label = LABEL_LEN → label_at (before ++ label ++ after) (length before) = label.
Proof. intros Hl. unfold label_at. rewrite drop_app_length, <-Hl. by rewrite take_app_length. Qed.

(** A list of fields depends on what precedes it by its length only, and
    keeps a label found before. *)
Lemma is_field_pre pre pre' found l found' :
  length pre = length pre' → is_field pre found l found' → is_field pre' found l found'.
Proof.
  intros Hp [t len label size Ht Hty Hlen Hlab|]; [|by constructor].
  replace (length (pre ++ t ++ len)) with (length (pre' ++ t ++ len))
    by (rewrite !length_app; lia). by constructor.
Qed.
Lemma is_fields_pre pre pre' n found l found' :
  length pre = length pre' → is_fields pre n found l found' → is_fields pre' n found l found'.
Proof.
  intros Hp H. revert pre' Hp. induction H as [|pre n f l f' l' f'' H1 H2 IH]; intros pre' Hp;
    [constructor|]. econstructor; [by eapply is_field_pre|]. apply IH. rewrite !length_app. lia.
Qed.
Lemma is_fields_keep pre n at_ size l found' :
  is_fields pre n (Some at_, size) l found' → found'.1 = Some at_.
Proof.
  remember (Some at_, size) as found eqn:Hf. intros H. revert at_ size Hf.
  induction H as [|pre n f l f' l' f'' H1 H2 IH]; intros at_ size ->; [done|].
  inversion H1; subst. by eapply IH.
Qed.

(** Where the data name of a list of fields is, and that any ten bytes can
    stand there. *)
Lemma is_fields_label pre n size l at_ size' :
  is_fields pre n (None, size) l (Some at_, size') →
  ∃ before label after, l = before ++ label ++ after ∧ length label = LABEL_LEN ∧
    at_ = length (pre ++ before) ∧
    ∀ label', length label' = LABEL_LEN →
      is_fields pre n (None, size) (before ++ label' ++ after) (Some at_, size').
Proof.
  remember (None, size) as found eqn:Hf. remember (Some at_, size') as found' eqn:Hf'.
  intros H. revert size Hf at_ size' Hf'.
  induction H as [|pre n f l f' l' f'' H1 H2 IH]; intros size -> at_ size' Hf'; [done|].
  inversion H1 as [t len label ? Ht Hty Hlen Hlab|t len value size'' ? Ht Hty Hlen Hm Hv]; subst.
  - pose proof (is_fields_keep _ _ _ _ _ _ H2) as Hk. injection Hk as ->.
    exists (t ++ len), label, l'. rewrite <-!app_assoc. split; [done|]. split; [done|].
    split; [done|]. intros label' Hl'.
    replace ((t ++ len) ++ label' ++ l') with ((t ++ len ++ label') ++ l') by by rewrite <-!app_assoc.
    apply (fields_one _ _ _ (t ++ len ++ label') (Some (length (pre ++ t ++ len)), size));
      [by constructor|].
    eapply is_fields_pre; [|done]. rewrite !length_app. lia.
  - destruct (IH _ eq_refl _ _ eq_refl) as (before & label & after & -> & Hl & -> & Hr).
    exists ((t ++ len ++ value) ++ before), label, after. rewrite <-!app_assoc.
    split; [done|]. split; [done|]. split; [done|]. intros label' Hl'.
    specialize (Hr label' Hl'). rewrite <-!app_assoc in Hr |- *.
    rewrite (app_assoc len), (app_assoc t).
    apply (fields_one _ _ _ (t ++ len ++ value) (None, Some size'')); [by constructor|].
    exact Hr.
Qed.

(** A header with its two labels apart. *)
Lemma is_header_labels h :
  is_header h → ∃ name mid data tail,
    h_bytes h = MAGIC ++ name ++ mid ++ data ++ tail ∧
    length name = LABEL_LEN ∧ length data = LABEL_LEN ∧
    h_data_name_at h = length (MAGIC ++ name ++ mid) ∧
    ∀ name' data', length name' = LABEL_LEN → length data' = LABEL_LEN →
      is_header (mkHeader (MAGIC ++ name' ++ mid ++ data' ++ tail) (h_flag h)
                   (h_data_name_at h) (h_slice_size h)).
Proof.
  intros [label flag cb count fields at_ size Hlab Hfl Hc Hmax Hfs]. simpl h_bytes.
  destruct (is_fields_label _ _ _ _ _ _ Hfs) as (before & data & after & -> & Hd & -> & Hr).
  exists label, ([flag; LAST] ++ cb ++ before), data, after.
  split; [by rewrite <-!app_assoc|]. split; [done|]. split; [done|].
  split; [simpl; by rewrite <-!app_assoc|].
  intros name' data' Hn Hd'. simpl h_flag. simpl h_data_name_at. simpl h_slice_size.
  replace (MAGIC ++ name' ++ ([flag; LAST] ++ cb ++ before) ++ data' ++ after)
    with (MAGIC ++ name' ++ [flag; LAST] ++ cb ++ (before ++ data' ++ after))
    by by rewrite <-!app_assoc.
  apply (header_bytes name' flag cb count); try done.
  eapply is_fields_pre; [|by apply Hr]. rewrite !length_app. lia.
Qed.

(** The header [with_labels_of] makes: the template's, with the other's
    labels where the template has its own. *)
Lemma with_labels_spec tmpl other :
  is_header tmpl → is_header other →
  let h := mkHeader (with_labels_of tmpl other) (h_flag tmpl) (h_data_name_at tmpl)
             (h_slice_size tmpl) in
  is_header h ∧ length (h_bytes h) = length (h_bytes tmpl) ∧
  label_at (h_bytes h) (length MAGIC) = label_at (h_bytes other) (length MAGIC) ∧
  label_at (h_bytes h) (h_data_name_at h) = label_at (h_bytes other) (h_data_name_at other) ∧
  ∀ other', label_at (h_bytes other') (length MAGIC) = label_at (h_bytes other) (length MAGIC) →
    label_at (h_bytes other') (h_data_name_at other') =
      label_at (h_bytes other) (h_data_name_at other) →
    with_labels_of tmpl other' = with_labels_of tmpl other.
Proof.
  intros (name & mid & data & tail & Hb & Hn & Hd & Ha & Hr)%is_header_labels
    (name' & mid' & data' & tail' & Hb' & Hn' & Hd' & Ha' & _)%is_header_labels.
  assert (label_at (h_bytes other) (length MAGIC) = name') as Hl1.
  { rewrite Hb'. by apply label_at_app. }
  assert (label_at (h_bytes other) (h_data_name_at other) = data') as Hl2.
  { rewrite Hb', Ha'. rewrite !(app_assoc MAGIC), !(app_assoc (MAGIC ++ name')).
    by apply label_at_app. }
  assert (with_labels_of tmpl other = MAGIC ++ name' ++ mid ++ data' ++ tail) as Hw.
  { unfold with_labels_of. rewrite Hl1, Hl2, Hb, (put_label_app MAGIC name), Ha by done.
    rewrite !(app_assoc MAGIC), !(app_assoc (MAGIC ++ _)).
    replace (length ((MAGIC ++ name) ++ mid)) with (length ((MAGIC ++ name') ++ mid))
      by (rewrite !length_app; lia). by apply put_label_app. }
  cbv zeta. cbn [h_bytes h_data_name_at]. rewrite Hw. split; [by apply Hr|]. split; [rewrite Hb, !length_app; lia|].
  rewrite Hl1, Hl2. split; [by apply label_at_app|]. split.
  - rewrite Ha. rewrite !(app_assoc MAGIC), !(app_assoc (MAGIC ++ _)).
    replace (length ((MAGIC ++ name) ++ mid)) with (length ((MAGIC ++ name') ++ mid))
      by (rewrite !length_app; lia). by apply label_at_app.
  - intros other' H1 H2. rewrite <-Hw. unfold with_labels_of. by rewrite H1, H2, Hl1, Hl2.
Qed.
