(* ===== verification/SliceCut.v ===== *)
(** * The cut of dar's stream into slices: theorems

    The value of an infinint; the frame a template gives; what the payload
    buffer yields; and the cut itself, run against sinks that record every
    slice and refuse a call out of turn. *)

From S2P Require Import Prelude Slice SliceHeader.
Local Open Scope Z_scope.
Local Open Scope rust_scope.

(** ** Integers *)

(** The number some bytes spell, most significant first. *)
Definition big_endian (l : list Z) : Z := foldl (λ a b, a * 256 + b) 0 l.

Lemma big_endian_bound a l :
  Forall is_byte l → 0 ≤ a →
  0 ≤ foldl (λ a b, a * 256 + b) a l < (a + 1) * 256 ^ Z.of_nat (length l).
Proof.
  intros Hl. revert a. induction Hl as [|b l Hb Hl IH]; intros a Ha; simpl foldl; [simpl; lia|].
  unfold is_byte in Hb. specialize (IH (a * 256 + b) ltac:(lia)). simpl length.
  rewrite Nat2Z.inj_succ, Z.pow_succ_r by lia.
  assert (0 < 256 ^ Z.of_nat (length l)) by (apply Z.pow_pos_nonneg; lia). nia.
Qed.

Lemma shift_in_exact acc b : 0 ≤ acc < 2 ^ 56 → is_byte b → shift_in acc b = acc * 256 + b.
Proof.
  intros Ha Hb. unfold shift_in, is_byte in *. rewrite Z.shiftl_mul_pow2 by lia.
  change (2 ^ 8) with 256. rewrite wrap64_small by (unfold_width; lia).
  symmetry. apply Z.add_nocarry_lor. apply Z.bits_inj'. intros n Hn.
  rewrite Z.land_spec, Z.bits_0. destruct (decide (n < 8)).
  - change 256 with (2 ^ 8). rewrite Z.mul_pow2_bits_low by lia. done.
  - rewrite (Z.bits_above_log2 b n), andb_false_r; [done|lia|].
    destruct (decide (b = 0)) as [->|]; [simpl; lia|].
    apply Z.log2_lt_pow2; [lia|]. apply Z.lt_le_trans with (2 ^ 8); [lia|].
    apply Z.pow_le_mono_r; lia.
Qed.

Lemma skip_zeros_value l : ∃ n, l = replicate n 0 ++ skip_zeros l.
Proof.
  induction l as [|b l [n IH]]; simpl; [by exists 0%nat|]. case_bool_decide as Hb.
  - exists (S n). simpl. by rewrite <-IH, Hb.
  - by exists 0%nat.
Qed.

Lemma foldl_shift_in l a :
  Forall is_byte l → 0 ≤ a → (length l ≤ 8)%nat → a < 256 ^ (8 - Z.of_nat (length l)) →
  foldl shift_in a l = foldl (λ a b, a * 256 + b) a l.
Proof.
  intros Hl. revert a. induction Hl as [|b l Hb Hl IH]; intros a Ha Hlen Hlt; simpl; [done|].
  simpl length in *. unfold is_byte in Hb.
  assert (256 ^ (8 - Z.of_nat (length l)) = 256 * 256 ^ (8 - Z.of_nat (S (length l)))) as Hp.
  { rewrite <-Z.pow_succ_r by lia. f_equal. lia. }
  assert (256 ^ (8 - Z.of_nat (S (length l))) ≤ 256 ^ 7) by (apply Z.pow_le_mono_r; lia).
  rewrite shift_in_exact; [|change (2 ^ 56) with (256 ^ 7); lia|done].
  apply IH; nia || lia.
Qed.

Lemma foldl_zeros {A} (f : A → Z → A) a n : (f a 0 = a) → foldl f a (replicate n 0) = a.
Proof. intros Hf. induction n; simpl; [done|]. by rewrite Hf. Qed.

Lemma infinint_value_lemma l v :
  is_infinint l v → Forall is_byte l →
  ∃ k p value, l = replicate k 0 ++ p :: value ∧
    length value = ((k * 8 + leading_zeros p + 1) * 4)%nat ∧ v = big_endian value ∧ is_u64 v.
Proof.
  intros (k & p & value & _ & -> & Hp & Hc & Hlen & Hs & ->) Hb.
  exists k, p, value. split; [done|]. split; [done|].
  apply Forall_app in Hb as [_ [_ Hb]%Forall_cons].
  destruct (skip_zeros_value value) as [n Hn]. rewrite Hn in Hb.
  apply Forall_app in Hb as [_ Hb].
  assert (foldl shift_in 0 value = big_endian value ∧ is_u64 (big_endian value)) as [-> ?]; [|done].
  rewrite Hn. unfold big_endian. rewrite !foldl_app, !foldl_zeros by done.
  pose proof (big_endian_bound 0 _ Hb ltac:(lia)) as Hbd.
  assert (256 ^ Z.of_nat (length (skip_zeros value)) ≤ 256 ^ 8) by (apply Z.pow_le_mono_r; lia).
  split; [|unfold_width; lia]. apply foldl_shift_in; try done.
  apply Z.pow_pos_nonneg; lia.
Qed.

(** An infinint of bytes is the big-endian number its groups spell, and a
    [u64]: no shift of the reader's accumulator loses a bit. *)
Theorem infinint_value l v :
  is_infinint l v → Forall is_byte l →
  ∃ k p value, l = replicate k 0 ++ p :: value ∧
    length value = ((k * 8 + leading_zeros p + 1) * 4)%nat ∧ v = big_endian value ∧ is_u64 v.
Proof. apply infinint_value_lemma. Qed.

(** ** The frame *)

Lemma is_fields_u64 pre n found l found' size :
  is_fields pre n found l found' → Forall is_byte l → found'.2 = Some size →
  found.2 = Some size ∨ is_u64 size.
Proof.
  induction 1 as [|pre n f l f' l' f'' H1 H2 IH]; intros Hb Hs; [by left|].
  apply Forall_app in Hb as [Hb1 Hb2]. destruct (IH Hb2 Hs) as [Hf|?]; [|by right].
  inversion H1; subst; simpl in *; [by left|]. right.
  apply Forall_app in Hb1 as [_ [_ Hv]%Forall_app].
  injection Hf as ->.
  destruct (infinint_value_lemma value size) as (? & ? & ? & _ & _ & _ & ?); done.
Qed.

Lemma header_size_u64 h size :
  is_header h → Forall is_byte (h_bytes h) → h_slice_size h = Some size → is_u64 size.
Proof.
  intros [label flag cb count fields at_ size' Hlab Hfl Hc Hmax Hfs]. cbn [h_bytes h_slice_size].
  intros Hb ->. rewrite !Forall_app in Hb. destruct Hb as (_ & _ & _ & _ & Hb).
  destruct (is_fields_u64 _ _ _ _ _ size Hfs) as [?|?]; done.
Qed.

Lemma with_labels_bytes tmpl other :
  Forall is_byte (h_bytes tmpl) → Forall is_byte (h_bytes other) →
  Forall is_byte (with_labels_of tmpl other).
Proof.
  intros Ht Ho. unfold with_labels_of, put_label, label_at.
  repeat (apply Forall_app; split); repeat first [apply Forall_take | apply Forall_drop];
    repeat (apply Forall_app; split); repeat first [apply Forall_take | apply Forall_drop]; done.
Qed.

(** A frame fit to cut with: its header is a slice header of the size, and a
    slice takes at least a byte of payload. *)
Record frame_ok (f : SliceFrame) (h : Header) : Prop := {
  fo_header : is_header h;
  fo_bytes : h_bytes h = frame_header f;
  fo_flag : h_flag h = FLAG_AT_END;
  fo_size : h_slice_size h = Some (frame_slice_size f);
  fo_max : (length (frame_header f) ≤ MAX_HEADER)%nat;
  fo_room : Z.of_nat (length (frame_header f)) + 1 < frame_slice_size f ≤ u64_max;
}.

Lemma frame_payload f h :
  frame_ok f h →
  payload_per_slice f = frame_slice_size f - Z.of_nat (length (frame_header f)) - 1 ∧
  0 < payload_per_slice f.
Proof.
  intros [_ _ _ _ _ Hr]. unfold payload_per_slice, sub64. rewrite !wrap64_small by
    (rewrite ?wrap64_small by lia; lia). lia.
Qed.

Lemma slice_frame_ok template sh f :
  is_header sh → Forall is_byte template → slice_frame template sh = Ok f →
  ∃ tmpl rest, template = h_bytes tmpl ++ rest ∧ is_header tmpl ∧
    h_flag sh = LAST ∧ h_slice_size sh = None ∧
    frame_header f = with_labels_of tmpl sh ∧
    frame_ok f (mkHeader (frame_header f) (h_flag tmpl) (h_data_name_at tmpl) (h_slice_size tmpl)).
Proof.
  intros Hsh Hb H. unfold slice_frame in H.
  apply bind_ok in H as ([tmpl r'] & Hp & H).
  destruct (parse_header_sound _ _ _ _ Hp) as (Ht & Hf & _ & Hl).
  rewrite flat_from_slice in Hf.
  case_bool_decide as Hfl; [done|].
  apply bind_ok in H as (size & Hsz%ok_or_ok & H).
  destruct (bool_decide _ || _) eqn:Hc; [done|]. apply orb_false_iff in Hc as [Hc1 Hc2].
  apply bool_decide_eq_false in Hc1, Hc2. apply dec_stable in Hc1.
  apply eq_None_not_Some in Hc2.
  destruct (with_labels_spec tmpl sh Ht Hsh) as (Hh & Hlen & _). simpl in Hh, Hlen.
  rewrite Hf in Hb. apply Forall_app in Hb as [Hb _].
  pose proof (header_size_u64 _ _ Ht Hb Hsz) as Hu.
  case_bool_decide as Hr; [done|]. injection H as <-. exists tmpl, (flat r').
  split; [done|]. split; [done|]. split; [done|]. split; [done|]. split; [done|].
  split; simpl; try done; [congruence|].
  unfold add64 in Hr. rewrite wrap64_small in Hr; [unfold is_u64 in Hu; lia|].
  rewrite Hlen. unfold MAX_HEADER in Hl. unfold_width. lia.
Qed.

(** The frame of a cut is dar's own template but for the two labels,
    which are the stream's: it still parses as a slice header of the same
    size and flag 'E', and a slice of that size has room for at least a byte
    of payload, exactly its size less the header and the trailer (the
    subtraction does not wrap). *)
Theorem slice_frame_spec template sh f :
  is_header sh → Forall is_byte template → slice_frame template sh = Ok f →
  ∃ tmpl rest h, template = h_bytes tmpl ++ rest ∧ is_header tmpl ∧ frame_ok f h ∧
    h_flag sh = LAST ∧ h_slice_size sh = None ∧
    label_at (frame_header f) (length MAGIC) = label_at (h_bytes sh) (length MAGIC) ∧
    label_at (frame_header f) (h_data_name_at h) = label_at (h_bytes sh) (h_data_name_at sh) ∧
    payload_per_slice f = frame_slice_size f - Z.of_nat (length (frame_header f)) - 1 ∧
    0 < payload_per_slice f.
Proof.
  intros Hsh Hb H.
  destruct (slice_frame_ok _ _ _ Hsh Hb H) as (tmpl & rest & Ht & Htm & Hfl & Hsz & Hw & Hok).
  destruct (with_labels_spec tmpl sh Htm Hsh) as (_ & _ & Hl1 & Hl2 & _). simpl in Hl1, Hl2.
  eexists tmpl, rest, _. rewrite <-Hw in Hl1, Hl2. destruct (frame_payload _ _ Hok).
  by repeat split_and.
Qed.

(** ** The payload buffer

    What is left of the stream behind a payload buffer: the buffered bytes and,
    before its end, what the reader gives. *)

Definition p_after (p : Payload) : list Z := if p_eof p then [] else flat (p_inner p).
Definition p_rest (p : Payload) : list Z := p_buf p ++ p_after p.
Definition p_fault (p : Payload) : option string := if p_eof p then None else fault (p_inner p).

(** Every byte read is counted, and none twice. *)
Definition p_total (p : Payload) : Z := p_consumed p + Z.of_nat (length (p_after p)).

(** [q] is [p] with [k] bytes taken. *)
Record advanced (k : nat) (p q : Payload) : Prop := {
  ad_rest : p_rest q = drop k (p_rest p);
  ad_fault : p_fault q = p_fault p;
  ad_total : 0 ≤ p_consumed p → p_total p ≤ u64_max → p_total q = p_total p ∧ 0 ≤ p_consumed q;
}.

Lemma advanced_refl p : advanced 0 p p.
Proof. by split. Qed.

Lemma advanced_trans k j p q r : advanced k p q → advanced j q r → advanced (k + j) p r.
Proof.
  intros [H1 H2 H3] [K1 K2 K3]. split; [by rewrite K1, H1, drop_drop|congruence|].
  intros H0 Hp. destruct (H3 H0 Hp) as [Hq Hq0]. destruct (K3 Hq0) as [Hr ?]; [lia|].
  split; [congruence|done].
Qed.

Lemma reader_size_unread l r : (reader_size (unread l r) ≤ S (length l + reader_size r))%nat.
Proof. destruct l; simpl; lia. Qed.

Section buffer.
Context (buffer : nat) (Hbuffer : (2 ≤ buffer)%nat).

Lemma fill_loop_spec fuel p :
  (length (p_buf p) ≤ buffer)%nat → (reader_size (p_inner p) ≤ fuel)%nat →
  match fill_loop buffer fuel p with
  | Ok q => advanced 0 p q ∧ (length (p_buf q) ≤ buffer)%nat ∧
            ((2 ≤ length (p_buf q))%nat ∨ p_eof q = true)
  | Err e => ∃ m, e = IoFailed m ∧ p_fault p = Some m ∧ (length (p_rest p) < 2)%nat
  end.
Proof.
  revert p. induction fuel as [|fuel IH]; intros [inner buf eof cons] Hl Hf.
  { simpl in Hf. by destruct inner as [|[]]; simpl in Hf; try lia. }
  simpl in Hl, Hf. cbn [fill_loop p_buf p_eof p_inner p_consumed].
  case_bool_decide as H2; [by split; [|split; [|left]]|].
  destruct eof; simpl orb; cbn [p_buf p_eof]; [by split; [|split; [|right]]|].
  destruct inner as [|[[|b l]| |m] inner]; cbn [read].
  - (* the end *)
    specialize (IH (mkPayload [] buf true cons)). destruct fuel; simpl in *; rewrite ?orb_true_r;
      (split; [by split|split; [exact Hl|by right]]).
  - rewrite take_nil, drop_nil. simpl unread.
    destruct fuel; simpl in *; rewrite ?orb_true_r; (split; [by split|split; [exact Hl|by right]]).
  - assert (∃ k, (buffer - length buf)%nat = S k) as [k Hk] by (exists (buffer - length buf - 1)%nat; lia).
    rewrite Hk. simpl take. simpl drop. cbv iota.
    set (q := mkPayload _ _ _ _). specialize (IH q).
    assert (advanced 0 (mkPayload (Bytes (b :: l) :: inner) buf false cons) q) as Hq.
    { split; unfold p_rest, p_total, p_after, p_fault, q; simpl; rewrite ?flat_unread, ?fault_unread.
      - rewrite <-app_assoc. simpl. f_equal. f_equal. rewrite app_assoc. by rewrite take_drop.
      - done.
      - rewrite !length_app, length_drop. intros H0 Ht.
        unfold add64. rewrite length_take. rewrite wrap64_small by lia. lia. }
    assert (length (p_buf q) ≤ buffer)%nat as Hql.
    { unfold q. simpl. rewrite length_app. simpl. rewrite length_take. lia. }
    assert (reader_size (p_inner q) ≤ fuel)%nat as Hqf.
    { unfold q. simpl. pose proof (reader_size_unread (drop k l) inner) as Hr.
      rewrite length_drop in Hr. simpl in Hf. lia. }
    specialize (IH Hql Hqf). destruct (fill_loop buffer fuel q) as [q'|e].
    + destruct IH as (Hs & Hr). split; [by apply (advanced_trans 0 0 _ q)|done].
    + destruct IH as (m & -> & Hm & Hr). exists m. split; [done|].
      destruct Hq as [Hq <- _]. rewrite drop_0 in Hq. by rewrite <-Hq.
  - (* interrupted *)
    set (q := mkPayload _ _ _ _). specialize (IH q). simpl in IH.
    specialize (IH ltac:(lia) ltac:(simpl in *; lia)).
    destruct (fill_loop buffer fuel q) as [q'|e]; [|done].
    destruct IH as (Hs & Hr). split; [|done]. apply (advanced_trans 0 0 _ q); [by split|done].
  - exists m. split; [done|]. split; [done|]. unfold p_rest, p_after. simpl.
    rewrite app_nil_r. lia.
Qed.

Lemma fill_spec p :
  (length (p_buf p) ≤ buffer)%nat →
  match fill buffer p with
  | Ok q => advanced 0 p q ∧ (length (p_buf q) ≤ buffer)%nat ∧
            ((2 ≤ length (p_buf q))%nat ∨ p_eof q = true)
  | Err e => ∃ m, e = IoFailed m ∧ p_fault p = Some m ∧ (length (p_rest p) < 2)%nat
  end.
Proof. intros. by apply fill_loop_spec. Qed.

Lemma p_rest_eof p : p_eof p = true → p_rest p = p_buf p ∧ p_fault p = None.
Proof. intros He. unfold p_rest, p_after, p_fault. rewrite He. by rewrite app_nil_r. Qed.

Lemma peek_spec max p :
  (length (p_buf p) ≤ buffer)%nat → 1 ≤ max →
  match peek buffer max p with
  | Ok (chunk, q) =>
      let k := length chunk in
      chunk = take k (p_rest p) ∧ advanced k p (consume k q) ∧
      (length (p_buf (consume k q)) ≤ buffer)%nat ∧
      Z.of_nat k ≤ max ∧ (k ≤ length (p_rest p) - 1)%nat ∧
      (chunk = [] → advanced 0 p q ∧ (length (p_buf q) ≤ buffer)%nat ∧
         (length (p_rest p) ≤ 1)%nat)
  | Err e => ∃ m, e = IoFailed m ∧ p_fault p = Some m
  end.
Proof.
  intros Hl Hmax. unfold peek. pose proof (fill_spec p Hl) as Hf.
  destruct (fill buffer p) as [q|e]; simpl; [|destruct Hf as (m & ? & ? & _); by exists m].
  destruct Hf as (Ha & Hlq & Hq). pose proof (ad_rest _ _ _ Ha) as Hr. rewrite drop_0 in Hr.
  set (n := Z.to_nat _).
  assert ((n ≤ length (p_buf q) - 1)%nat ∧ Z.of_nat n ≤ max ∧
    (n = 0%nat → (length (p_buf q) ≤ 1)%nat))
    as (Hn & Hnm & Hn0) by (unfold n, sat_sub64; lia).
  assert (length (take n (p_buf q)) = n) as Hk by (rewrite length_take; lia).
  rewrite Hk.
  assert (length (p_buf q) ≤ length (p_rest p))%nat as Hle.
  { rewrite <-Hr. unfold p_rest. rewrite length_app. lia. }
  split; [rewrite <-Hr; unfold p_rest; rewrite take_app_le by lia; done|]. split.
  { replace n with (0 + n)%nat at 1 by lia. apply (advanced_trans 0 n _ q); [done|].
    split; [|done..]. unfold p_rest, consume, p_after. simpl. by rewrite drop_app_le by lia. }
  split; [simpl; rewrite length_drop; lia|]. split; [done|]. split; [lia|].
  intros Hnil. assert (n = 0%nat) as Hz by (rewrite <-Hk, Hnil; done).
  split; [done|]. split; [done|]. specialize (Hn0 Hz).
  destruct Hq as [|He]; [lia|]. destruct (p_rest_eof q He) as [He' _]. by rewrite <-Hr, He'.
Qed.

Lemma at_end_spec p :
  (length (p_buf p) ≤ buffer)%nat →
  match at_end buffer p with
  | Ok (last, q) => advanced 0 p q ∧ (length (p_buf q) ≤ buffer)%nat ∧
      last = bool_decide (length (p_rest p) ≤ 1)%nat ∧ (last = true → p_fault p = None ∧
        trailer q = head (p_rest p) ∧ p_total q = p_consumed q)
  | Err e => ∃ m, e = IoFailed m ∧ p_fault p = Some m
  end.
Proof.
  intros Hl. unfold at_end. pose proof (fill_spec p Hl) as Hf.
  destruct (fill buffer p) as [q|e]; simpl; [|destruct Hf as (m & ? & ? & _); by exists m].
  destruct Hf as (Ha & Hlq & Hq). pose proof (ad_rest _ _ _ Ha) as Hr. rewrite drop_0 in Hr.
  split; [done|]. split; [done|]. rewrite <-Hr.
  destruct (p_eof q) eqn:He; simpl.
  - destruct (p_rest_eof q He) as [He' Hn]. rewrite He'. split; [done|].
    rewrite bool_decide_eq_true. intros H1. rewrite <-(ad_fault _ _ _ Ha). split; [done|].
    split; [|unfold p_total, p_after; rewrite He; simpl; lia].
    unfold trailer. destruct (p_buf q) as [|b [|c l]]; simpl in *; try done; lia.
  - destruct Hq as [Hq|]; [|done]. rewrite bool_decide_eq_false_2; [done|].
    unfold p_rest. rewrite length_app. lia.
Qed.

(** ** Recording sinks

    The slices closed so far and the one open, by its number. A call out of turn fails. *)

Record Collected : Type := mkCollected {
  co_closed : list (list Z);
  co_open : option (Z * list Z);
}.

Definition out_of_turn {A} : result DarError A := Err (IoFailed "out of turn").
Definition collect : CutSinks Collected := mkCutSinks
  (λ n w, if bool_decide (co_open w = None) && bool_decide (n = Z.of_nat (length (co_closed w)) + 1)
          then Ok (mkCollected (co_closed w) (Some (n, []))) else out_of_turn)
  (λ bytes w, match co_open w with
              | Some (n, l) => Ok (mkCollected (co_closed w) (Some (n, l ++ bytes)))
              | None => out_of_turn
              end)
  (λ n w, match co_open w with
          | Some (m, l) => if bool_decide (n = m) then Ok (mkCollected (co_closed w ++ [l]) None)
                           else out_of_turn
          | None => out_of_turn
          end)
  (λ _ w, Ok w).

Lemma write_payload_spec fuel left p closed n acc :
  (length (p_buf p) ≤ buffer)%nat → (length (p_rest p) < fuel)%nat → left ≤ u64_max →
  match write_payload buffer collect fuel left p (mkCollected closed (Some (n, acc))) with
  | Ok (q, w) =>
      let k := Nat.min (Z.to_nat left) (length (p_rest p) - 1) in
      w = mkCollected closed (Some (n, acc ++ take k (p_rest p))) ∧
      advanced k p q ∧ (length (p_buf q) ≤ buffer)%nat
  | Err e => ∃ m, e = IoFailed m ∧ p_fault p = Some m
  end.
Proof.
  revert left p acc. induction fuel as [|fuel IH]; intros left p acc Hl Hf Hu; [lia|].
  simpl write_payload. case_bool_decide as H0.
  { replace (Z.to_nat left) with 0%nat by lia. simpl. rewrite take_0, app_nil_r. by split. }
  pose proof (peek_spec left p Hl ltac:(lia)) as Hp.
  destruct (peek buffer left p) as [[chunk q]|e]; [|done].
  destruct Hp as (Hc & Ha & Hlq & Hm & Hk & Hnil). cbn [mbind result_bind].
  case_bool_decide as Hcn.
  { destruct (Hnil Hcn) as (Ha' & Hl' & H1).
    replace (Nat.min _ _) with 0%nat by lia. simpl. rewrite take_0, app_nil_r. by split. }
  assert (length chunk ≠ 0%nat) as Hnz by (by intros Hx%nil_length_inv).
  cbn [sink_write collect co_open co_closed]. cbn [mbind result_bind].
  set (q' := consume (length chunk) q) in *.
  assert (∀ b : bool, (if b then sink_tick collect (p_consumed q')
    (mkCollected closed (Some (n, acc ++ chunk))) else Ok (mkCollected closed (Some (n, acc ++ chunk))))
    = Ok (mkCollected closed (Some (n, acc ++ chunk)))) as -> by (by intros []).
  cbn [mbind result_bind].
  replace (left -w Z.of_nat (length chunk)) with (left - Z.of_nat (length chunk))
    by (unfold sub64; rewrite wrap64_small by lia; done).
  pose proof (ad_rest _ _ _ Ha) as Hr.
  specialize (IH (left - Z.of_nat (length chunk)) q' (acc ++ chunk) Hlq).
  rewrite Hr, length_drop in IH. specialize (IH ltac:(lia) ltac:(lia)).
  destruct (write_payload buffer collect fuel _ q' _) as [[q'' w]|e].
  - destruct IH as (-> & Ha' & Hl'). cbv zeta.
    set (k := Nat.min _ (length (p_rest p) - 1)).
    assert (k = length chunk + Nat.min (Z.to_nat (left - Z.of_nat (length chunk)))
      (length (p_rest p) - length chunk - 1))%nat as Hke by lia.
    split; [|split; [|done]].
    + do 3 f_equal. rewrite <-app_assoc. f_equal. rewrite Hke, Hc at 1.
      rewrite take_take_drop. done.
    + rewrite Hke. by apply (advanced_trans _ _ _ q').
  - destruct IH as (m & -> & Hm'). exists m. by rewrite <-(ad_fault _ _ _ Ha).
Qed.
End buffer.

(** ** The slices of a stream *)

(** The payload cut every [per] bytes, each piece framed: [N] after every piece but
    the last, [T] after the last. *)
Fixpoint cut_into (fuel per : nat) (header body : list Z) : list (list Z) :=
  match fuel with
  | S fuel =>
      if bool_decide (per < length body)%nat
      then (header ++ take per body ++ [NOT_LAST]) :: cut_into fuel per header (drop per body)
      else [header ++ body ++ [LAST]]
  | O => [header ++ body ++ [LAST]]
  end.
Definition slices_of (per : nat) (header body : list Z) : list (list Z) :=
  cut_into (length body) per header body.

Lemma cut_into_fuel per header fuel body :
  (0 < per)%nat → (length body ≤ fuel)%nat →
  cut_into fuel per header body = slices_of per header body.
Proof.
  intros Hp. unfold slices_of. remember (length body) as m eqn:Hm.
  revert fuel body Hm. induction m as [m IH] using lt_wf_ind. intros fuel body Hm Hf.
  destruct fuel as [|fuel], m as [|m]; simpl; try done; try lia.
  { case_bool_decide; [lia|done]. }
  case_bool_decide as Hl; [|done]. f_equal.
  rewrite (IH (length (drop per body))); try rewrite length_drop; try lia; try done.
  symmetry. apply IH; rewrite ?length_drop; lia.
Qed.

Lemma slices_of_eq per header body :
  (0 < per)%nat →
  slices_of per header body =
    if bool_decide (per < length body)%nat
    then (header ++ take per body ++ [NOT_LAST]) :: slices_of per header (drop per body)
    else [header ++ body ++ [LAST]].
Proof.
  intros Hp. unfold slices_of at 1. destruct (length body) as [|m] eqn:Hm; cbn [cut_into].
  - by rewrite bool_decide_eq_false_2 by lia.
  - rewrite Hm. case_bool_decide; [|done]. f_equal. apply cut_into_fuel; rewrite ?length_drop; lia.
Qed.

(** A set of slices as dar writes it: every slice is the header, some of the
    payload and the trailer; all but the last are full. *)
Inductive framed (header : list Z) (size : Z) : list (list Z) → list Z → Prop :=
| framed_last payload :
    Z.of_nat (length header + length payload) + 1 ≤ size →
    framed header size [header ++ payload ++ [LAST]] payload
| framed_more payload slices rest :
    Z.of_nat (length header + length payload) + 1 = size →
    framed header size slices rest →
    framed header size ((header ++ payload ++ [NOT_LAST]) :: slices) (payload ++ rest).

Lemma slices_of_framed per header body :
  (0 < per)%nat →
  framed header (Z.of_nat (length header + per) + 1) (slices_of per header body) body.
Proof.
  intros Hp. remember (length body) as m eqn:Hm. revert body Hm.
  induction m as [m IH] using lt_wf_ind. intros body Hm. rewrite slices_of_eq by done.
  case_bool_decide as Hl.
  - rewrite <-(take_drop per body) at 3. constructor; [rewrite length_take; lia|].
    eapply IH; [|done]. rewrite length_drop. lia.
  - constructor. lia.
Qed.

(** What a stream's payload is without its trailer, and how a run of the cut
    ends on it. *)
Definition body_of (rest : list Z) : list Z := take (length rest - 1) rest.
Definition cut_refusal (rest : list Z) : option FramingFault :=
  match last rest with
  | None => Some NoTrailer
  | Some b => if bool_decide (b = LAST) then None else Some (StreamEndsWith b)
  end.

Lemma body_of_drop k rest : (k ≤ length rest - 1)%nat → body_of (drop k rest) = drop k (body_of rest).
Proof.
  intros Hk. unfold body_of. rewrite length_drop, skipn_firstn_comm. f_equal. lia.
Qed.
Lemma length_body_of rest : length (body_of rest) = (length rest - 1)%nat.
Proof. unfold body_of. rewrite length_take. lia. Qed.
Lemma last_drop_lt {A} (l : list A) k : (k < length l)%nat → last (drop k l) = last l.
Proof.
  intros Hk. rewrite <-(take_drop k l) at 2. rewrite last_app.
  destruct (last (drop k l)) eqn:Hl; [done|]. apply last_None in Hl.
  apply (f_equal length) in Hl. rewrite length_drop in Hl. simpl in Hl. lia.
Qed.
Lemma head_drop_last {A} (l : list A) k :
  (k ≤ length l - 1)%nat → (length l - k ≤ 1)%nat → head (drop k l) = last l.
Proof.
  intros Hk Hl. destruct (decide (l = [])) as [->|Hn]; [by rewrite drop_nil|].
  assert (length l ≠ 0%nat) by (by intros ?%nil_length_inv).
  rewrite <-(last_drop_lt l k) by lia. pose proof (length_drop l k) as Hd.
  destruct (drop k l) as [|x [|y t]]; simpl in *; done || lia.
Qed.
Lemma cut_refusal_drop k rest : (k < length rest)%nat → cut_refusal (drop k rest) = cut_refusal rest.
Proof. intros Hk. unfold cut_refusal. by rewrite last_drop_lt. Qed.

(** ** The cut *)

Lemma payload_size_rest p : (length (p_rest p) < payload_size p)%nat.
Proof.
  unfold payload_size, p_rest, p_after. rewrite length_app.
  assert (∀ r, length (flat r) < reader_size r)%nat as Hr.
  { induction r as [|[[|b l]| |m] r IH]; simpl; rewrite ?length_app; lia. }
  specialize (Hr (p_inner p)). destruct (p_eof p); simpl; lia.
Qed.

Section cut.
Context (buffer : nat) (Hbuffer : (2 ≤ buffer)%nat).
Context (frame : SliceFrame) (fh : Header) (Hframe : frame_ok frame fh).
Let per := Z.to_nat (payload_per_slice frame).

Lemma per_pos : (0 < per)%nat.
Proof. unfold per. destruct (frame_payload _ _ Hframe). lia. Qed.

(** One run of the loop, from [n] slices cut. *)
Lemma cut_loop_spec fuel p closed :
  (length (p_buf p) ≤ buffer)%nat → (length (p_rest p) < fuel)%nat →
  0 ≤ p_consumed p → p_total p ≤ u64_max →
  let n := Z.of_nat (length closed) in
  let slices := slices_of per (frame_header frame) (body_of (p_rest p)) in
  n + Z.of_nat (length slices) ≤ u32_max →
  cut_loop buffer collect fuel frame n p (mkCollected closed None) =
    match p_fault p with
    | Some m => Err (IoFailed m)
    | None =>
        match cut_refusal (p_rest p) with
        | Some what => Err (Refuse CUT what)
        | None => Ok (mkCutSummary (n + Z.of_nat (length slices)) (p_total p)
                        (frame_slice_size frame), mkCollected (closed ++ slices) None)
        end
    end.
Proof.
  pose proof per_pos as Hper. destruct (frame_payload _ _ Hframe) as [Hpe Hp0].
  pose proof (fo_room _ _ Hframe) as Hroom.
  revert p closed. induction fuel as [|fuel IH]; intros p closed Hl Hf Hc Ht n slices Hn; [lia|].
  cbn [cut_loop]. rewrite bool_decide_eq_false_2.
  2: { unfold slices in Hn. rewrite slices_of_eq in Hn by done.
       case_bool_decide; simpl in Hn; lia. }
  cbn [sink_open sink_write sink_close sink_tick collect co_open co_closed].
  rewrite bool_decide_eq_true_2 by done. rewrite bool_decide_eq_true_2 by done.
  cbn [andb mbind result_bind co_open co_closed]. rewrite app_nil_l.
  pose proof (write_payload_spec buffer Hbuffer (payload_size p) (payload_per_slice frame) p closed
    (n + 1) (frame_header frame) Hl (payload_size_rest p) ltac:(lia)) as Hw.
  destruct (write_payload _ _ _ _ _ _) as [[q w]|e]; [|destruct Hw as (m & -> & Hm); by rewrite Hm].
  destruct Hw as (-> & Ha & Hlq). cbn [mbind result_bind]. fold per in Ha |- *.
  set (k := Nat.min per (length (p_rest p) - 1)) in *.
  pose proof (ad_rest _ _ _ Ha) as Hr. pose proof (ad_fault _ _ _ Ha) as Hfa.
  pose proof (at_end_spec buffer Hbuffer q Hlq) as He.
  destruct (at_end buffer q) as [[lst q']|e].
  2: { destruct He as (m & -> & Hm). cbn. by rewrite <-Hfa, Hm. }
  destruct He as (Ha' & Hlq' & Hlast & Htr). cbn [mbind result_bind].
  pose proof (advanced_trans _ _ _ _ _ Ha Ha') as Ha2. rewrite Nat.add_0_r in Ha2.
  destruct (ad_total _ _ _ Ha2 Hc Ht) as [Ht2 Hc2].
  rewrite Hr, length_drop in Hlast.
  rewrite Hlast. case_bool_decide as H1.
  - assert (lst = true) as Hlt by (by rewrite Hlast).
    destruct (Htr Hlt) as (Hn0 & Ht0 & Htc). rewrite Hfa in Hn0. rewrite Hn0.
    rewrite Ht0, Hr, head_drop_last by lia.
    unfold cut_refusal. destruct (last (p_rest p)) as [b|]; [|done].
    case_bool_decide as Hb; [|done].
    assert (slices = [frame_header frame ++ take k (p_rest p) ++ [LAST]]) as ->.
    { unfold slices. rewrite slices_of_eq, length_body_of, bool_decide_eq_false_2 by (done || lia).
      unfold body_of. do 4 f_equal. lia. }
    cbn [mbind result_bind sink_write sink_close sink_tick collect co_open co_closed].
    rewrite bool_decide_eq_true_2 by done. cbn [mbind result_bind]. simpl length.
    rewrite <-app_assoc. do 2 f_equal. f_equal; congruence.
  - cbn [mbind result_bind sink_write sink_close collect co_open co_closed].
    rewrite bool_decide_eq_true_2 by done. cbn [mbind result_bind].
    assert (k = per ∧ (per < length (p_rest p) - 1)%nat) as [Hk Hlt] by lia.
    assert (slices = (frame_header frame ++ take k (p_rest p) ++ [NOT_LAST]) ::
      slices_of per (frame_header frame) (body_of (p_rest q'))) as Hs.
    { unfold slices. rewrite slices_of_eq, length_body_of, bool_decide_eq_true_2 by (done || lia).
      rewrite (ad_rest _ _ _ Ha2), body_of_drop by lia. rewrite Hk. do 3 f_equal.
      unfold body_of. rewrite take_take. f_equal. lia. }
    replace (n + 1) with (Z.of_nat (length (closed ++ [(frame_header frame ++ take k (p_rest p)) ++ [NOT_LAST]])))
      by (rewrite length_app; simpl; lia).
    rewrite Hs in Hn |- *. simpl in Hn.
    rewrite (IH q'); try done.
    + rewrite (ad_fault _ _ _ Ha2), Ht2, (ad_rest _ _ _ Ha2), cut_refusal_drop by lia.
      destruct (p_fault p); [done|]. destruct (cut_refusal _); [done|].
      do 2 f_equal; [|by rewrite <-!app_assoc]. f_equal.
      rewrite length_app. simpl. lia.
    + rewrite (ad_rest _ _ _ Ha2), length_drop. lia.
    + lia.
    + rewrite length_app. simpl. lia.
Qed.
End cut.

(** The slices a cut makes of what follows the stream's header. *)
Definition stream_slices (frame : SliceFrame) (rest : list Z) : list (list Z) :=
  slices_of (Z.to_nat (payload_per_slice frame)) (frame_header frame) (body_of rest).

Lemma cut_stream_spec_lemma stream template sh r frame :
  parse_header stream = Ok (sh, r) → Forall is_byte template →
  slice_frame template sh = Ok frame →
  Z.of_nat (length (flat stream)) ≤ u64_max →
  Z.of_nat (length (stream_slices frame (flat r))) ≤ u32_max →
  cut_stream collect stream template (mkCollected [] None) =
    match fault stream with
    | Some m => Err (IoFailed m)
    | None =>
        match cut_refusal (flat r) with
        | Some what => Err (Refuse CUT what)
        | None =>
            Ok (mkCutSummary (Z.of_nat (length (stream_slices frame (flat r))))
                  (Z.of_nat (length (flat stream))) (frame_slice_size frame),
                mkCollected (stream_slices frame (flat r)) None)
        end
    end.
Proof.
  intros Hp Hb Hfr Hlen Hn.
  destruct (parse_header_sound _ _ _ _ Hp) as (Hsh & Hf & Hfa & Hl).
  destruct (slice_frame_ok _ _ _ Hsh Hb Hfr) as (tmpl & rest & _ & _ & _ & _ & _ & Hok).
  unfold cut_stream, cut_stream_with. rewrite Hp. cbn [mbind result_bind]. rewrite Hfr.
  cbn [mbind result_bind sink_tick collect].
  set (p := payload_new r (length (h_bytes sh))).
  assert (p_rest p = flat r) as Hr by done.
  assert (p_total p = Z.of_nat (length (flat stream))) as Ht.
  { rewrite Hf, length_app. unfold p_total. simpl. unfold p_after. simpl. lia. }
  pose proof (cut_loop_spec PAYLOAD_BUFFER ltac:(unfold PAYLOAD_BUFFER; lia) frame _ Hok
    (payload_size p) p []) as Hloop.
  cbv zeta in Hloop. rewrite Hr, Ht in Hloop. fold (stream_slices frame (flat r)) in Hloop.
  change (Z.of_nat (length (@nil (list Z)))) with 0 in Hloop. rewrite !Z.add_0_l in Hloop.
  rewrite Hloop; try done.
  - change (p_fault p) with (fault r). by rewrite Hfa.
  - simpl. lia.
  - rewrite <-Hr. apply (payload_size_rest p).
  - simpl. lia.
Qed.

(** The cut of a stream is determined by its bytes, however the reads bring
    them, and every call of the sinks is in turn. A fault of the stream is returned; a stream
    that does not end in dar's last-slice flag is refused; of any other the slices are exactly
    [stream_slices]: the payload cut every [payload_per_slice] bytes, each piece
    between the frame's header and its trailer, and the summary counts the slices and
    every byte of the stream. *)
Theorem cut_stream_spec stream template sh r frame :
  parse_header stream = Ok (sh, r) → Forall is_byte template →
  slice_frame template sh = Ok frame →
  Z.of_nat (length (flat stream)) ≤ u64_max →
  Z.of_nat (length (stream_slices frame (flat r))) ≤ u32_max →
  cut_stream collect stream template (mkCollected [] None) =
    match fault stream with
    | Some m => Err (IoFailed m)
    | None =>
        match cut_refusal (flat r) with
        | Some what => Err (Refuse CUT what)
        | None =>
            Ok (mkCutSummary (Z.of_nat (length (stream_slices frame (flat r))))
                  (Z.of_nat (length (flat stream))) (frame_slice_size frame),
                mkCollected (stream_slices frame (flat r)) None)
        end
    end.
Proof. apply cut_stream_spec_lemma. Qed.

Lemma cut_refusal_None rest : cut_refusal rest = None ↔ rest = body_of rest ++ [LAST].
Proof.
  unfold cut_refusal, body_of. split.
  - destruct (last rest) as [b|] eqn:Hl; [|done]. case_bool_decide as Hb; [|done]. intros _.
    subst b. apply last_Some in Hl as [l ->]. rewrite length_app. simpl.
    replace (length l + 1 - 1)%nat with (length l) by lia. by rewrite take_app_length.
  - intros ->. rewrite last_snoc. by rewrite bool_decide_eq_true_2.
Qed.

Lemma stream_slices_framed frame h rest :
  frame_ok frame h →
  framed (frame_header frame) (frame_slice_size frame) (stream_slices frame rest) (body_of rest).
Proof.
  intros Hok. destruct (frame_payload _ _ Hok) as [Hpe Hp].
  unfold stream_slices. replace (frame_slice_size frame) with
    (Z.of_nat (length (frame_header frame) + Z.to_nat (payload_per_slice frame)) + 1) by lia.
  apply slices_of_framed. lia.
Qed.

(** What a finished cut leaves: slices in dar's format carrying exactly the
    stream. Every slice starts with the frame's header, all but the last are exactly
    the slice size and the last no longer, and header, payloads and last-slice flag, in
    order, are the stream's bytes. *)
Theorem cut_stream_framed stream template sh r frame summary w :
  parse_header stream = Ok (sh, r) → Forall is_byte template →
  slice_frame template sh = Ok frame →
  Z.of_nat (length (flat stream)) ≤ u64_max →
  Z.of_nat (length (stream_slices frame (flat r))) ≤ u32_max →
  cut_stream collect stream template (mkCollected [] None) = Ok (summary, w) →
  ∃ body, co_open w = None ∧
    framed (frame_header frame) (frame_slice_size frame) (co_closed w) body ∧
    flat stream = h_bytes sh ++ body ++ [LAST] ∧ fault stream = None ∧
    cut_slices summary = Z.of_nat (length (co_closed w)) ∧
    cut_stream_bytes summary = Z.of_nat (length (flat stream)).
Proof.
  intros Hp Hb Hfr Hlen Hn Hc.
  rewrite (cut_stream_spec_lemma _ _ _ _ _ Hp Hb Hfr Hlen Hn) in Hc.
  destruct (parse_header_sound _ _ _ _ Hp) as (Hsh & Hf & Hfa & Hl).
  destruct (slice_frame_ok _ _ _ Hsh Hb Hfr) as (tmpl & rest & _ & _ & _ & _ & _ & Hok).
  destruct (fault stream) eqn:Hfs; [done|]. destruct (cut_refusal (flat r)) eqn:Hcr; [done|].
  injection Hc as <- <-. apply cut_refusal_None in Hcr.
  exists (body_of (flat r)). simpl. split; [done|]. split; [by eapply stream_slices_framed|].
  split; [by rewrite <-Hcr|]. done.
Qed.

(** ** A sample

    The standard-output header of the tests, a template with slices of 60
    bytes and 9 of payload, and a stream of 20, read in pieces. *)

Definition sample_name : list Z := [48; 49; 50; 51; 52; 53; 54; 55; 56; 57].
Definition sample_data : list Z := [68; 65; 84; 65; 78; 65; 77; 69; 33; 33].
Definition sample_stream_header : list Z :=
  MAGIC ++ sample_name ++ [LAST; 84; 128; 0; 0; 0; 1; 0; 3; 128; 0; 0; 0; 10] ++ sample_data.
Definition sample_template : list Z :=
  MAGIC ++ replicate 10 1 ++ [FLAG_AT_END; 84; 128; 0; 0; 0; 2]
  ++ [0; 1; 128; 0; 0; 0; 5; 128; 0; 0; 0; 60] ++ [0; 3; 128; 0; 0; 0; 10] ++ replicate 10 2.
Definition sample_payload : list Z := [1; 2; 3; 4; 5; 6; 7; 8; 9; 10; 11; 12; 13; 14; 15; 16; 17; 18; 19; 20].
Definition sample_stream : list ReadEvent :=
  [Bytes (take 17 sample_stream_header); Eintr;
   Bytes (drop 17 sample_stream_header ++ take 3 sample_payload);
   Bytes (drop 3 sample_payload); Bytes [LAST]].
Definition sample_header : Header := mkHeader sample_stream_header LAST 28 None.
Definition sample_rest : list ReadEvent :=
  [Bytes (take 3 sample_payload); Bytes (drop 3 sample_payload); Bytes [LAST]].
Definition sample_frame : SliceFrame :=
  mkFrame (MAGIC ++ sample_name ++ drop 14 (take 40 sample_template) ++ sample_data) 60.

Lemma sample_parses : parse_header sample_stream = Ok (sample_header, sample_rest).
Proof. by vm_compute. Qed.
Lemma sample_frames : slice_frame sample_template sample_header = Ok sample_frame.
Proof. by vm_compute. Qed.
Lemma sample_is_header : is_header sample_header.
Proof. by destruct (parse_header_sound _ _ _ _ sample_parses). Qed.

Lemma infinint_value_witness :
  ∃ k p value, [128; 0; 0; 1; 5] = replicate k 0 ++ p :: value ∧
    length value = ((k * 8 + leading_zeros p + 1) * 4)%nat ∧ 261 = big_endian value ∧ is_u64 261.
Proof.
  apply infinint_value; [|by_decide].
  exists 0%nat, 128, [0; 0; 1; 5]. repeat split; try by vm_compute; try (simpl; lia).
Defined.

Lemma slice_frame_spec_witness :
  ∃ tmpl rest h, sample_template = h_bytes tmpl ++ rest ∧ is_header tmpl ∧ frame_ok sample_frame h ∧
    h_flag sample_header = LAST ∧ h_slice_size sample_header = None ∧
    label_at (frame_header sample_frame) (length MAGIC) =
      label_at (h_bytes sample_header) (length MAGIC) ∧
    label_at (frame_header sample_frame) (h_data_name_at h) =
      label_at (h_bytes sample_header) (h_data_name_at sample_header) ∧
    payload_per_slice sample_frame =
      frame_slice_size sample_frame - Z.of_nat (length (frame_header sample_frame)) - 1 ∧
    0 < payload_per_slice sample_frame.
Proof.
  apply (slice_frame_spec sample_template sample_header);
    [apply sample_is_header|by_decide|apply sample_frames].
Defined.

Lemma cut_stream_spec_witness :
  cut_stream collect sample_stream sample_template (mkCollected [] None) =
    Ok (mkCutSummary 3 59 60,
        mkCollected [frame_header sample_frame ++ [1; 2; 3; 4; 5; 6; 7; 8; 9; NOT_LAST];
                     frame_header sample_frame ++ [10; 11; 12; 13; 14; 15; 16; 17; 18; NOT_LAST];
                     frame_header sample_frame ++ [19; 20; LAST]] None).
Proof.
  rewrite (cut_stream_spec sample_stream sample_template sample_header sample_rest sample_frame);
    [reflexivity|apply sample_parses|by_decide|apply sample_frames|by_decide|by_decide].
Defined.

Lemma cut_stream_framed_witness :
  ∃ body, framed (frame_header sample_frame) 60
      [frame_header sample_frame ++ [1; 2; 3; 4; 5; 6; 7; 8; 9; NOT_LAST];
       frame_header sample_frame ++ [10; 11; 12; 13; 14; 15; 16; 17; 18; NOT_LAST];
       frame_header sample_frame ++ [19; 20; LAST]] body ∧
    flat sample_stream = sample_stream_header ++ body ++ [LAST].
Proof.
  destruct (cut_stream_framed sample_stream sample_template sample_header sample_rest sample_frame
    (mkCutSummary 3 59 60) (mkCollected [frame_header sample_frame ++ [1; 2; 3; 4; 5; 6; 7; 8; 9; NOT_LAST];
                     frame_header sample_frame ++ [10; 11; 12; 13; 14; 15; 16; 17; 18; NOT_LAST];
                     frame_header sample_frame ++ [19; 20; LAST]] None)
    sample_parses ltac:(by_decide) sample_frames ltac:(by_decide) ltac:(by_decide))
    as (body & _ & Hf & Hs & _); [|by exists body].
  rewrite (cut_stream_spec_lemma sample_stream sample_template sample_header sample_rest sample_frame);
    [reflexivity|apply sample_parses|by_decide|apply sample_frames|by_decide|by_decide].
Defined.
