(* ===== verification/SliceJoin.v ===== *)
(** * The join of slices into dar's stream: theorems

    The join is pushed a slice in pieces; its state, however the pieces are
    cut, is a function of the bytes given. It accepts exactly the sets of
    slices [framed] describes, and what it writes is the stream they were cut
    from. *)

From S2P Require Import Prelude Slice SliceHeader SliceCut.
Local Open Scope Z_scope.
Local Open Scope rust_scope.

(** ** The states of a join without holes *)

Ltac jsimpl :=
  cbn [j_out j_template j_frame j_slice j_open j_last j_at j_head j_head_holes j_held j_ended
       j_written fmap option_fmap option_map fst snd].

Section states.
Variable tmpl : Header.

(** Slice 1, [l] of it taken and its header not yet read. *)
Definition heading (n : Z) (last : bool) (l : list Z) : Join :=
  mkJoin [] tmpl None n true last (Z.of_nat (length l)) l (replicate (length l) false) None
    false 0.

(** A slice whose header is behind: [out] written before its payload, [tail]
    what came after the header. *)
Definition flowing (frame : list Z * Z) (n : Z) (last_ : bool) (out : list Z) (at_ : Z)
    (tail : list Z) : Join :=
  let out := out ++ removelast tail in
  mkJoin out tmpl (Some frame) n true last_ at_ [] [] ((λ b, (b, false)) <$> last tail) false
    (wrap64 (Z.of_nat (length out))).

(** Between slices, and after the last. *)
Definition resting (frame : list Z * Z) (n : Z) (last : bool) (out : list Z) (at_ : Z) : Join :=
  mkJoin out tmpl (Some frame) n false last at_ [] [] None last
    (wrap64 (Z.of_nat (length out))).

Lemma wrap64_add_length (a b : list Z) :
  wrap64 (Z.of_nat (length a)) +w Z.of_nat (length b) = wrap64 (Z.of_nat (length (a ++ b))).
Proof.
  rewrite length_app, Nat2Z.inj_add. unfold add64, wrap64. by rewrite Zplus_mod_idemp_l.
Qed.

Lemma removelast_snoc {A} (l : list A) x : removelast (l ++ [x]) = l.
Proof. apply removelast_last. Qed.

Lemma payload_flowing frame n lst out at_ tail bytes :
  join_payload bytes false (flowing frame n lst out at_ tail) =
    flowing frame n lst out at_ (tail ++ bytes).
Proof.
  unfold join_payload. destruct (last bytes) as [b|] eqn:Hb.
  2: { apply last_None in Hb as ->. by rewrite app_nil_r. }
  apply last_Some in Hb as [k ->]. unfold flowing, with_held, emit.
  rewrite app_assoc, !removelast_snoc, last_snoc. jsimpl.
  destruct (last tail) as [c|] eqn:Hc; jsimpl; rewrite !wrap64_add_length.
  - apply last_Some in Hc as [t ->]. rewrite removelast_snoc. by rewrite <-!app_assoc.
  - apply last_None in Hc as ->. by rewrite !app_nil_r.
Qed.

(** The bytes of a slice agree with the header as far as both go. *)
Definition agrees (header l : list Z) : Prop :=
  take (length l) header = take (length header) l.

#[local] Instance agrees_dec header l : Decision (agrees header l).
Proof. unfold agrees. apply _. Defined.

Lemma agrees_app header l : agrees header l ↔ (∃ t, l = header ++ t) ∨ ∃ t, header = l ++ t.
Proof.
  unfold agrees. split.
  - intros H. destruct (decide (length header ≤ length l)%nat).
    + left. exists (drop (length header) l). rewrite (take_ge header) in H by lia.
      rewrite H at 1. by rewrite take_drop.
    + right. exists (drop (length l) header). rewrite (take_ge l) in H by lia.
      rewrite <-H at 1. by rewrite take_drop.
  - intros [[t ->]|[t ->]]; rewrite take_app_length; rewrite take_ge; try done;
      rewrite length_app; lia.
Qed.

Lemma agrees_prefix header l k : agrees header (l ++ k) → agrees header l.
Proof.
  rewrite !agrees_app. intros [[t Ht]|[t ->]]; [|right; exists (k ++ t); by rewrite app_assoc].
  apply app_eq_inv in Ht as [(u & -> & _)|(u & -> & _)]; [by left; exists u|by right; exists u].
Qed.

Lemma take_flowing header size n lst out l bytes :
  agrees header l → Z.of_nat (length (l ++ bytes)) ≤ u64_max →
  join_write bytes (flowing (header, size) n lst out (Z.of_nat (length l)) (drop (length header) l)) =
    if bool_decide (agrees header (l ++ bytes))
    then Ok (flowing (header, size) n lst out (Z.of_nat (length (l ++ bytes)))
               (drop (length header) (l ++ bytes)))
    else refuse_join (HeaderDiffers n).
Proof.
  intros Ha Hu. rewrite length_app in Hu. unfold join_write, join_take. cbn [j_open flowing negb].
  case_bool_decide as Hn.
  { subst bytes. rewrite app_nil_r. by rewrite bool_decide_eq_true_2. }
  cbn [j_frame flowing j_at j_slice]. case_bool_decide as Hh.
  - apply agrees_app in Ha as [[t ->]|[t Ht]]; [rewrite length_app in Hh; lia|].
    subst header. rewrite length_app in Hh |- *. rewrite (drop_ge l) by lia.
    set (k := Z.to_nat _). assert (k = Nat.min (length t) (length bytes)) as Hk by lia.
    rewrite Nat2Z.id, drop_app_length. simpl negb. cbn [andb].
    assert (take k bytes = take k t ↔ agrees (l ++ t) (l ++ bytes)) as Hiff.
    { unfold agrees. rewrite !length_app, !take_app_add. split.
      - intros H. f_equal. destruct (decide (length bytes ≤ length t)%nat).
        + rewrite (take_ge bytes) by lia. rewrite Hk in H. rewrite Nat.min_r in H by lia.
          rewrite (take_ge bytes) in H by lia. done.
        + rewrite (take_ge t) by lia. rewrite Hk in H. rewrite Nat.min_l in H by lia.
          by rewrite (take_ge t) in H by lia.
      - intros H%app_inv_head. destruct (decide (length bytes ≤ length t)%nat).
        + rewrite Hk, Nat.min_r by lia. rewrite (take_ge bytes) in H |- * by lia. done.
        + rewrite Hk, Nat.min_l by lia. by rewrite (take_ge t) in H |- * by lia. }
    destruct (decide (agrees (l ++ t) (l ++ bytes))) as [Hag|Hag].
    + rewrite (bool_decide_eq_false_2 (take k bytes ≠ _)) by (intros Hx; apply Hx; by apply Hiff).
      rewrite bool_decide_eq_true_2 by done. cbn [mbind result_bind]. f_equal.
      change (with_at ?a (flowing ?f n lst out ?b ?tl)) with (flowing f n lst out a tl).
      rewrite payload_flowing. f_equal.
      * rewrite length_drop, length_app. unfold add64.
        rewrite !wrap64_small by (rewrite ?wrap64_small by lia; lia). lia.
      * rewrite app_nil_l, drop_app_add. rewrite Hk.
        destruct (decide (length bytes ≤ length t)%nat); [|f_equal; lia].
        by rewrite !drop_ge by lia.
    + rewrite (bool_decide_eq_true_2 (take k bytes ≠ _)) by (intros Hx; apply Hag; by apply Hiff).
      by rewrite bool_decide_eq_false_2.
  - apply agrees_app in Ha as [[t ->]|[t ->]].
    2: { rewrite length_app in Hh. assert (t = []) as -> by (apply nil_length_inv; lia).
         rewrite app_nil_r in *. rewrite bool_decide_eq_true_2.
         2: { apply agrees_app. left. by exists bytes. }
         cbn [mbind result_bind]. f_equal.
         change (with_at ?a (flowing ?f n lst out ?b ?tl)) with (flowing f n lst out a tl).
         rewrite payload_flowing. f_equal.
         - rewrite length_app. unfold add64. rewrite wrap64_small by lia. lia.
         - by rewrite drop_all, drop_app_length. }
    rewrite <-app_assoc. rewrite bool_decide_eq_true_2.
    2: { apply agrees_app. left. by exists (t ++ bytes). }
    cbn [mbind result_bind]. f_equal.
    change (with_at ?a (flowing ?f n lst out ?b ?tl)) with (flowing f n lst out a tl).
    rewrite payload_flowing. f_equal.
    + rewrite length_app in Hu. rewrite !length_app. unfold add64.
      rewrite wrap64_small by lia. lia.
    + by rewrite !drop_app_length.
Qed.

(** ** Slice 1's header *)

(** [l] starts with a slice header [h] the join takes as slice 1's, and [sh] is the
    stream's header it makes of it. *)
Record heads (l : list Z) (h : Header) (size : Z) (sh tail : list Z) : Prop := {
  hd_bytes : l = h_bytes h ++ tail;
  hd_header : is_header h;
  hd_max : (length (h_bytes h) ≤ MAX_HEADER)%nat;
  hd_size : h_slice_size h = Some size;
  hd_stream : header_for tmpl h = Ok sh;
}.

Lemma position_replicate_false n : position (λ h : bool, h) (replicate n false) = None.
Proof. apply position_None. by apply Forall_replicate. Qed.

Lemma zip_replicate {A B} (l : list A) (b : B) n :
  (length l ≤ n)%nat → (zip l (replicate n b)).*1 = l ∧ Forall (λ x, x.2 = b) (zip l (replicate n b)).
Proof.
  revert n. induction l as [|x l IH]; intros [|n] Hl; simpl in *; try (by split); try lia.
  destruct (IH n) as [H1 H2]; [lia|]. split; [by f_equal|by constructor].
Qed.

Lemma feed_runs_flowing fuel rest frame n lst out at_ tail :
  (length rest ≤ fuel)%nat → Forall (λ x : Z * bool, x.2 = false) rest →
  feed_runs fuel rest (flowing frame n lst out at_ tail) =
    flowing frame n lst out at_ (tail ++ rest.*1).
Proof.
  intros Hf Hr. destruct fuel as [|fuel], rest as [|[b hole] rest]; simpl in Hf; try lia;
    try (simpl; by rewrite app_nil_r).
  assert (hole = false) as -> by (by apply Forall_cons in Hr as [? _]). cbn [feed_runs].
  rewrite take_while_all.
  2: { eapply Forall_impl; [exact Hr|]. intros [c h] Hx. simpl in *. by rewrite Hx. }
  rewrite drop_all, payload_flowing. by destruct fuel.
Qed.

Lemma header_for_flag h sh : header_for tmpl h = Ok sh → ∃ size, h_slice_size h = Some size.
Proof.
  unfold header_for. destruct (h_slice_size h) as [size|]; [by exists size|].
  rewrite (bool_decide_eq_true_2 (None = None)) by done. by rewrite orb_true_r.
Qed.

Lemma read_first_header_spec n lst l j :
  read_first_header (heading n lst l) = Ok j ↔
  ∃ h size sh tail, heads l h size sh tail ∧
    j = flowing (h_bytes h, size) n lst sh (Z.of_nat (length l)) tail.
Proof.
  unfold read_first_header. cbn [heading j_head j_head_holes j_template].
  rewrite position_replicate_false. cbn [from_option].
  assert (∀ h sh tail size, h_slice_size h = Some size → l = h_bytes h ++ tail →
    (let j := mkJoin [] tmpl None n true lst (Z.of_nat (length l)) [] [] None false 0 in
     let j := emit sh j in
     let j := mkJoin (j_out j) (j_template j) (Some (h_bytes h, default 0 (h_slice_size h)))
       (j_slice j) (j_open j) (j_last j) (j_at j) (j_head j) (j_head_holes j) (j_held j)
       (j_ended j) (j_written j) in
     let rest := zip (drop (length (h_bytes h)) l)
       (drop (length (h_bytes h)) (replicate (length l) false)) in
     feed_runs (length rest) rest j) = flowing (h_bytes h, size) n lst sh (Z.of_nat (length l)) tail)
    as Hfeed.
  { intros h sh tail size Hs Hl. cbv zeta. rewrite Hs. unfold emit. jsimpl. cbn [default].
    rewrite drop_replicate. destruct (zip_replicate (drop (length (h_bytes h)) l) false
      (length l - length (h_bytes h))) as [Hz1 Hz2]; [by rewrite length_drop|].
    change (mkJoin _ _ _ _ _ _ _ _ _ _ _ _) with
      (mkJoin sh tmpl (Some (h_bytes h, size)) n true lst (Z.of_nat (length l)) [] [] None false
         (0 +w Z.of_nat (length sh))).
    replace (mkJoin _ _ _ _ _ _ _ _ _ _ _ _) with
      (flowing (h_bytes h, size) n lst sh (Z.of_nat (length l)) []).
    2: { unfold flowing. simpl removelast. rewrite app_nil_r. done. }
    rewrite feed_runs_flowing, Hz1 by done. by rewrite Hl, drop_app_length. }
  split.
  - destruct (parse_header_to (from_slice l) JOIN) as [[h r]|e] eqn:Hp; cbn [mbind result_bind];
      [|done].
    destruct (parse_header_sound _ _ _ _ Hp) as (Hh & Hf & _ & Hl). rewrite flat_from_slice in Hf.
    destruct (header_for tmpl h) as [sh|] eqn:Hfor; cbn [mbind result_bind]; [|done].
    destruct (header_for_flag _ _ Hfor) as [size Hs]. intros [= <-].
    exists h, size, sh, (flat r). split; [by split|]. rewrite <-(Hfeed h sh (flat r) size) by done. done.
  - intros (h & size & sh & tail & [Hl Hh Hm Hs Hfor] & ->).
    destruct (parse_header_complete JOIN (from_slice l) h tail) as (r & -> & _ & _);
      [done|done|by rewrite flat_from_slice|].
    cbn [mbind result_bind]. rewrite Hfor. cbn [mbind result_bind].
    by rewrite <-(Hfeed h sh tail size).
Qed.

(** ** Reading a slice *)

(** What one [read] of a nonempty answer gives: a first piece, and the rest. *)
Lemma read_piece buffer b l r :
  (0 < buffer)%nat → ∃ c k r', read buffer (Bytes (b :: l) :: r) = (Bytes (c :: k), r') ∧
    b :: l ++ flat r = (c :: k) ++ flat r' ∧ fault r' = fault r ∧
    (reader_size r' < reader_size (Bytes (b :: l) :: r))%nat.
Proof.
  intros Hb. destruct buffer as [|buffer]; [lia|]. exists b, (take buffer l), (unread (drop buffer l) r).
  split; [done|]. rewrite flat_unread, fault_unread. split; [|split; [done|]].
  - simpl. f_equal. by rewrite app_assoc, take_drop.
  - pose proof (reader_size_unread (drop buffer l) r) as Hr. rewrite length_drop in Hr. simpl. lia.
Qed.

Lemma join_reads_flowing fuel r header size n lst out l j :
  (reader_size r ≤ fuel)%nat → agrees header l → Z.of_nat (length (l ++ flat r)) ≤ u64_max →
  join_reads fuel r
    (flowing (header, size) n lst out (Z.of_nat (length l)) (drop (length header) l)) = Ok j ↔
  fault r = None ∧ agrees header (l ++ flat r) ∧
  j = flowing (header, size) n lst out (Z.of_nat (length (l ++ flat r)))
        (drop (length header) (l ++ flat r)).
Proof.
  revert r l. induction fuel as [|fuel IH]; intros r l Hf Ha Hu.
  { destruct r as [|[]]; simpl in Hf; lia. }
  cbn [join_reads]. destruct r as [|[[|b k]| |m] r].
  - simpl. rewrite app_nil_r. split; [by intros [= <-]|by intros (_ & _ & ->)].
  - cbn [read]. rewrite take_nil. simpl. rewrite app_nil_r.
    split; [by intros [= <-]|by intros (_ & _ & ->)].
  - destruct (read_piece (Z.to_nat (64 * 1024)) b k r) as (c & p & r' & -> & Hfl & Hfa & Hsz); [lia|].
    simpl flat. simpl fault. rewrite Hfl in *. rewrite <-Hfa.
    simpl flat in Hu. rewrite Hfl, app_assoc in Hu.
    rewrite take_flowing; [|done|rewrite length_app in Hu; lia].
    rewrite app_assoc. case_bool_decide as Hag; cbn [mbind result_bind].
    + apply IH; [simpl in *; lia|done|done].
    + split; [done|]. intros (_ & Hag' & _). destruct Hag. by eapply agrees_prefix.
  - cbn [read flat fault]. apply IH; [simpl in *; lia|done|done].
  - cbn [read flat fault]. split; [done|by intros [? _]].
Qed.

Lemma join_reads_heading fuel r n lst l j :
  (reader_size r ≤ fuel)%nat → (length l < MAX_HEADER)%nat →
  Z.of_nat (length (l ++ flat r)) ≤ u64_max →
  join_reads fuel r (heading n lst l) = Ok j ↔
  fault r = None ∧
  if bool_decide (length (l ++ flat r) < MAX_HEADER)%nat then j = heading n lst (l ++ flat r)
  else ∃ h size sh tail, heads (l ++ flat r) h size sh tail ∧
    j = flowing (h_bytes h, size) n lst sh (Z.of_nat (length (l ++ flat r))) tail.
Proof.
  revert r l. induction fuel as [|fuel IH]; intros r l Hf Hl Hu.
  { destruct r as [|[]]; simpl in Hf; lia. }
  cbn [join_reads]. destruct r as [|[[|b k]| |m] r].
  - simpl. rewrite app_nil_r, bool_decide_eq_true_2 by done.
    split; [by intros [= <-]|by intros (_ & ->)].
  - cbn [read]. rewrite take_nil. simpl. rewrite app_nil_r, bool_decide_eq_true_2 by done.
    split; [by intros [= <-]|by intros (_ & ->)].
  - destruct (read_piece (Z.to_nat (64 * 1024)) b k r) as (c & p & r' & -> & Hfl & Hfa & Hsz); [lia|].
    simpl flat. simpl fault. rewrite Hfl. rewrite <-Hfa.
    simpl flat in Hu. rewrite Hfl in Hu. rewrite app_assoc in Hu |- *.
    assert (join_write (c :: p) (heading n lst l) =
      if bool_decide (MAX_HEADER ≤ length (l ++ c :: p))%nat
      then read_first_header (heading n lst (l ++ c :: p)) else Ok (heading n lst (l ++ c :: p)))
      as ->.
    { unfold join_write, join_take. cbn [heading j_open negb j_frame].
      rewrite bool_decide_eq_false_2 by done. unfold heading. jsimpl.
      assert (Z.of_nat (length l) +w Z.of_nat (length (c :: p)) = Z.of_nat (length (l ++ c :: p)))
        as ->.
      { rewrite !length_app in Hu. rewrite length_app. unfold add64. rewrite wrap64_small; lia. }
      rewrite length_replicate, <-replicate_add.
      replace (length l + (length (l ++ c :: p) - length l))%nat with (length (l ++ c :: p))
        by (rewrite length_app; lia). done. }
    case_bool_decide as Hm; cbn [mbind result_bind].
    2: { apply IH; [simpl in *; lia|lia|done]. }
    rewrite (bool_decide_eq_false_2 (_ < _)%nat) by (rewrite length_app; lia).
    assert (∀ h size sh t1, heads (l ++ c :: p) h size sh t1 →
      (join_reads fuel r' (flowing (h_bytes h, size) n lst sh (Z.of_nat (length (l ++ c :: p))) t1) = Ok j ↔
       fault r' = None ∧ j = flowing (h_bytes h, size) n lst sh
         (Z.of_nat (length ((l ++ c :: p) ++ flat r'))) (t1 ++ flat r'))) as Hrest.
    { intros h size sh t1 [Hb _ _ _ _].
      assert (t1 = drop (length (h_bytes h)) (l ++ c :: p)) as Ht1 by (by rewrite Hb, drop_app_length).
      rewrite Ht1 at 1. rewrite join_reads_flowing; [|simpl in *; lia| |done].
      2: { apply agrees_app. left. by exists t1. }
      assert (agrees (h_bytes h) ((l ++ c :: p) ++ flat r')) as Hag.
      { apply agrees_app. left. exists (t1 ++ flat r'). by rewrite Hb, app_assoc. }
      assert (drop (length (h_bytes h)) ((l ++ c :: p) ++ flat r') = t1 ++ flat r') as ->.
      { rewrite Hb, <-app_assoc. by rewrite drop_app_length. }
      tauto. }
    split.
    + intros H. apply bind_ok in H as (j1 & H1 & H).
      apply read_first_header_spec in H1 as (h & size & sh & t1 & Hh & ->).
      apply (Hrest _ _ _ _ Hh) in H as [Hn ->]. split; [done|].
      exists h, size, sh, (t1 ++ flat r'). split; [|done]. destruct Hh as [Hb ? ? ? ?].
      split; try done. by rewrite Hb, app_assoc.
    + intros (Hn & h & size & sh & tail & [Hb Hh Hhm Hs Hfor] & ->).
      apply app_eq_inv in Hb as [(u & Hb & Hu')|(u & Hb & Hu')].
      2: { assert (u = []) as ->.
           { apply (f_equal length) in Hb. rewrite length_app in Hb. apply nil_length_inv. lia. }
           rewrite app_nil_r in Hb. simpl in Hu'. subst tail.
           assert (heads (l ++ c :: p) h size sh []) as Hhd.
           { split; try done. by rewrite app_nil_r. }
           apply bind_ok. eexists. split; [apply read_first_header_spec; eauto 10|].
           apply (Hrest _ _ _ _ Hhd). split; [done|]. by rewrite app_nil_l. }
      subst tail. assert (heads (l ++ c :: p) h size sh u) as Hhd by (by split).
      apply bind_ok. eexists. split; [apply read_first_header_spec; eauto 10|].
      apply (Hrest _ _ _ _ Hhd). done.
  - cbn [read flat fault]. apply IH; [simpl in *; lia|done|done].
  - cbn [read flat fault]. split; [done|by intros [? _]].
Qed.

(** ** The end of a slice *)

Definition trailer_of (last : bool) : Z := if last then LAST else NOT_LAST.
Definition stream_end (last : bool) : list Z := if last then [LAST] else [].

(** A whole slice: header, payload and trailer, of the length its place asks for. *)
Definition whole_slice (header : list Z) (size : Z) (last : bool) (l payload : list Z) : Prop :=
  l = header ++ payload ++ [trailer_of last] ∧ Z.of_nat (length l) ≤ size ∧
  (last = false → Z.of_nat (length l) = size).

Lemma end_flowing header size n lst out l j :
  (length header ≤ MAX_HEADER)%nat → agrees header l →
  join_end (flowing (header, size) n lst out (Z.of_nat (length l)) (drop (length header) l)) = Ok j ↔
  ∃ payload, whole_slice header size lst l payload ∧
    j = resting (header, size) n lst (out ++ payload ++ stream_end lst) (Z.of_nat (length l)).
Proof.
  intros Hm Ha. unfold join_end. unfold flowing at 1. cbn [j_open negb]. unfold flowing. jsimpl.
  cbn [mbind result_bind]. jsimpl.
  set (tail := drop (length header) l).
  destruct (last tail) as [b|] eqn:Hb; jsimpl.
  2: { apply last_None in Hb. split; [done|]. intros (payload & (Hl & _) & _).
       unfold tail in Hb. rewrite Hl, drop_app_length in Hb. by destruct payload. }
  assert (Hl : ∃ payload, l = header ++ payload ++ [b] ∧ tail = payload ++ [b]).
  { apply last_Some in Hb as [payload Hp]. exists payload. split; [|done].
    apply agrees_app in Ha as [[t ->]|[t ->]].
    - unfold tail in Hp. rewrite drop_app_length in Hp. by rewrite Hp.
    - unfold tail in Hp. rewrite drop_ge in Hp by (rewrite length_app; lia). by destruct payload. }
  destruct Hl as (payload & Hl & ->).
  assert (length l = (length header + length payload + 1)%nat) as Hlen
    by (rewrite Hl, !length_app; simpl; lia).
  assert (Z.of_nat (length header) +w 1 = Z.of_nat (length header) + 1) as ->.
  { unfold add64. rewrite wrap64_small; [done|]. unfold MAX_HEADER in Hm. unfold_width. lia. }
  unfold with_held. jsimpl. rewrite bool_decide_eq_false_2 by lia. rewrite removelast_snoc.
  assert (∀ p, whole_slice header size lst l p → p = payload ∧ b = trailer_of lst) as Hdet.
  { intros p (Hp & _). rewrite Hl in Hp. apply app_inv_head in Hp.
    apply app_inj_2 in Hp as [-> [= ->]]; done. }
  destruct (bool_decide (size < _) || _) eqn:Hc.
  { split; [done|]. intros (p & Hw & _). destruct (Hdet p Hw) as [-> _]. destruct Hw as (_ & Hs1 & Hs2).
    rewrite orb_true_iff, andb_true_iff, negb_true_iff, !bool_decide_eq_true in Hc.
    destruct Hc as [?|[? Hn]]; [lia|destruct Hn; by apply Hs2]. }
  rewrite orb_false_iff, andb_false_iff, negb_false_iff, !bool_decide_eq_false in Hc.
  destruct Hc as [Hc1 Hc2].
  fold (trailer_of lst). cbn [negb andb].
  case_bool_decide as Ht.
  { split; [done|]. intros (p & Hw & _). by destruct (Hdet p Hw) as [-> ?]. }
  assert (whole_slice header size lst l payload) as Hw.
  { split; [by rewrite Hl; do 3 f_equal|]. split; [lia|]. intros ->. destruct Hc2; [done|lia]. }
  match goal with |- ?t = Ok j ↔ _ => assert (t =
    Ok (resting (header, size) n lst (out ++ payload ++ stream_end lst) (Z.of_nat (length l)))) as -> end.
  { unfold resting. destruct lst; cbn [stream_end]; rewrite ?app_nil_r; [|done].
    rewrite app_assoc, <-(wrap64_add_length (out ++ payload) [LAST]). done. }
  split; [intros [= <-]; by exists payload|]. intros (p & Hp & ->). by destruct (Hdet p Hp) as [-> _].
Qed.

Lemma end_heading n lst l j :
  join_end (heading n lst l) = Ok j ↔
  ∃ h size sh tail, heads l h size sh tail ∧
    join_end (flowing (h_bytes h, size) n lst sh (Z.of_nat (length l)) tail) = Ok j.
Proof.
  assert (join_end (heading n lst l) = (j ← read_first_header (heading n lst l); join_end j) ∨
    ∃ e, read_first_header (heading n lst l) = Err e ∧ join_end (heading n lst l) = Err e) as Heq.
  { destruct (read_first_header (heading n lst l)) as [j1|e] eqn:H1; cbn [mbind result_bind].
    - left. pose proof H1 as (h & size & sh & tail & _ & ->)%read_first_header_spec.
      unfold join_end at 1. cbn [heading j_open negb j_frame]. fold (heading n lst l).
      rewrite H1. done.
    - right. exists e. split; [done|]. unfold join_end. cbn [heading j_open negb j_frame].
      fold (heading n lst l). by rewrite H1. }
  destruct Heq as [->|(e & He & ->)].
  - rewrite bind_ok. split.
    + intros (j1 & (h & size & sh & tail & Hh & ->)%read_first_header_spec & Hj). by eauto 10.
    + intros (h & size & sh & tail & Hh & Hj). eexists. rewrite read_first_header_spec. by eauto 10.
  - split; [done|]. intros (h & size & sh & tail & Hh & _).
    assert (Hx : read_first_header (heading n lst l) =
      Ok (flowing (h_bytes h, size) n lst sh (Z.of_nat (length l)) tail))
      by (apply read_first_header_spec; eauto 10).
    by rewrite He in Hx.
Qed.

(** ** A slice, from between slices to between slices *)

Definition join_slice (n : Z) (lst : bool) (r : list ReadEvent) (j : Join) : result DarError Join :=
  j ← join_begin n lst j;
  j ← join_reads (reader_size r) r j;
  join_end j.

Lemma slice_later header size n lst out at_ r j :
  (length header ≤ MAX_HEADER)%nat → 0 ≤ n → n + 1 ≤ u32_max →
  Z.of_nat (length (flat r)) ≤ u64_max →
  join_slice (n + 1) lst r (resting (header, size) n false out at_) = Ok j ↔
  fault r = None ∧ ∃ payload, whole_slice header size lst (flat r) payload ∧
    j = resting (header, size) (n + 1) lst (out ++ payload ++ stream_end lst)
          (Z.of_nat (length (flat r))).
Proof.
  intros Hm Hn Hu Hl. unfold join_slice, join_begin. cbn [resting j_ended j_open j_slice].
  rewrite !bool_decide_eq_false_2 by (lia || (intros Hx; by apply Hx)).
  cbn [orb mbind result_bind].
  match goal with |- context [join_reads _ _ ?k] => replace k with
    (flowing (header, size) (n + 1) lst out (Z.of_nat (length (@nil Z)))
       (drop (length header) [])) end.
  2: { rewrite drop_nil. unfold flowing. by rewrite app_nil_r. }
  rewrite bind_ok. setoid_rewrite join_reads_flowing; try done.
  2: { apply agrees_app. right. by exists header. }
  rewrite app_nil_l. split.
  - intros (j1 & (Hf & Ha & ->) & Hj). split; [done|]. by apply end_flowing in Hj.
  - intros (Hf & payload & Hw & ->).
    assert (agrees header (flat r)) as Ha.
    { apply agrees_app. left. destruct Hw as [-> _]. by eexists. }
    eexists. split; [done|]. apply end_flowing; [done|done|]. by exists payload.
Qed.

Lemma slice_first lst r j :
  Z.of_nat (length (flat r)) ≤ u64_max →
  join_slice 1 lst r (join_new tmpl) = Ok j ↔
  fault r = None ∧ ∃ h size sh payload,
    is_header h ∧ (length (h_bytes h) ≤ MAX_HEADER)%nat ∧ h_slice_size h = Some size ∧
    header_for tmpl h = Ok sh ∧ whole_slice (h_bytes h) size lst (flat r) payload ∧
    j = resting (h_bytes h, size) 1 lst (sh ++ payload ++ stream_end lst)
          (Z.of_nat (length (flat r))).
Proof.
  intros Hl. unfold join_slice, join_begin. cbn [join_new j_ended j_open j_slice].
  rewrite !bool_decide_eq_false_2 by (done || (intros Hx; by apply Hx)).
  cbn [orb mbind result_bind].
  change (mkJoin _ _ _ _ _ _ _ _ _ _ _ _) with (heading 1 lst []).
  assert ((join_reads (reader_size r) r (heading 1 lst []) ≫= join_end) = Ok j ↔
    fault r = None ∧ ∃ h size sh tail, heads (flat r) h size sh tail ∧
      join_end (flowing (h_bytes h, size) 1 lst sh (Z.of_nat (length (flat r))) tail) = Ok j)
    as ->.
  { rewrite bind_ok. setoid_rewrite join_reads_heading; [|done|unfold MAX_HEADER; simpl; lia|done].
    rewrite app_nil_l. case_bool_decide.
    - split.
      + intros (j1 & (Hf & ->) & Hj). split; [done|]. by apply end_heading.
      + intros (Hf & Hj). eexists. split; [done|]. by apply end_heading.
    - split.
      + intros (j1 & (Hf & h & size & sh & tail & Hh & ->) & Hj). by eauto 10.
      + intros (Hf & h & size & sh & tail & Hh & Hj). eexists. split; [|exact Hj]. by eauto 10. }
  split.
  - intros (Hf & h & size & sh & tail & [Hb Hh Hm Hs Hfor] & Hj). split; [done|].
    assert (tail = drop (length (h_bytes h)) (flat r)) as -> by (by rewrite Hb, drop_app_length).
    apply end_flowing in Hj as (payload & Hw & ->); [|done|apply agrees_app; by eauto].
    by eauto 20.
  - intros (Hf & h & size & sh & payload & Hh & Hm & Hs & Hfor & Hw & ->). split; [done|].
    exists h, size, sh, (payload ++ [trailer_of lst]). destruct Hw as (Hb & Hw).
    split; [by split|]. rewrite <-(drop_app_length (h_bytes h) (payload ++ _)), <-Hb.
    apply end_flowing; [done|apply agrees_app; by eauto|]. by exists payload.
Qed.

(** ** All the slices *)

Lemma join_loop_cons r slices n j :
  n + 1 ≤ u32_max →
  join_loop (r :: slices) n j =
    (j ← join_slice (n + 1) (bool_decide (slices = [])) r j; join_loop slices (n + 1) j).
Proof.
  intros Hn. cbn [join_loop]. rewrite bool_decide_eq_false_2 by lia. unfold join_slice.
  destruct (join_begin _ _ j) as [j1|]; [|done]. cbn [mbind result_bind].
  by destruct (join_reads _ r j1).
Qed.

Definition last_length (slices : list (list ReadEvent)) : Z :=
  Z.of_nat (length (flat (default [] (last slices)))).

Lemma join_loop_later header size slices n out at_ j :
  (length header ≤ MAX_HEADER)%nat → 0 ≤ n → n + Z.of_nat (length slices) ≤ u32_max →
  Forall (λ r, Z.of_nat (length (flat r)) ≤ u64_max) slices → slices ≠ [] →
  join_loop slices n (resting (header, size) n false out at_) = Ok j ↔
  Forall (λ r, fault r = None) slices ∧
  ∃ body, framed header size (flat <$> slices) body ∧
    j = resting (header, size) (n + Z.of_nat (length slices)) true (out ++ body ++ [LAST])
          (last_length slices).
Proof.
  intros Hm Hn Hu Hl. revert n out at_ Hn Hu. induction Hl as [|r slices Hr Hl IH];
    intros n out at_ Hn Hu Hne; [done|]. simpl length in Hu.
  rewrite join_loop_cons by lia. rewrite bind_ok. setoid_rewrite slice_later; [|done|lia|lia|done].
  rewrite Forall_cons. destruct slices as [|r' slices].
  - rewrite bool_decide_eq_true_2 by done. split.
    + intros (j1 & (Hf & payload & (Hb & Hs & _) & ->) & [= <-]). split; [by split; [|constructor]|].
      exists payload. split; [|done]. simpl. rewrite Hb. constructor.
      rewrite Hb, !length_app in Hs. simpl in Hs. lia.
    + intros ((Hf & _) & body & Hfr & ->). eexists. split; [split; [done|]|done].
      exists body. split; [|done]. inversion Hfr as [p Hp Hx|p sl rest Hp Hrest Hx]; subst.
      * split; [done|]. split; [|done]. rewrite <-?Hx, !length_app. simpl. lia.
      * inversion Hrest.
  - rewrite bool_decide_eq_false_2 by done. split.
    + intros (j1 & (Hf & payload & (Hb & _ & Hs) & ->) & Hj). cbn [stream_end] in Hj.
      rewrite app_nil_r in Hj. apply IH in Hj as (Hfs & body & Hfr & ->); [|lia|simpl in *; lia|done].
      split; [done|]. exists (payload ++ body). split.
      * rewrite fmap_cons, Hb. constructor; [|done].
        specialize (Hs eq_refl). rewrite Hb, !length_app in Hs. simpl in Hs. lia.
      * rewrite <-!app_assoc. f_equal. simpl length. lia.
    + intros ((Hf & Hfs) & body & Hfr & ->). inversion Hfr as [|p sl rest Hp Hrest Hx]; subst.
      eexists. split; [split; [done|]|].
      * exists p. split; [|done]. split; [done|]. simpl in Hx. rewrite <-?Hx, !length_app.
        simpl. split; [lia|intros _; lia].
      * cbn [stream_end]. rewrite app_nil_r. apply IH; [lia|simpl in *; lia|done|].
        split; [done|]. exists rest. split; [done|]. rewrite <-!app_assoc.
        f_equal. simpl length. lia.
Qed.

Lemma join_loop_spec slices j :
  Z.of_nat (length slices) ≤ u32_max →
  Forall (λ r, Z.of_nat (length (flat r)) ≤ u64_max) slices → slices ≠ [] →
  join_loop slices 0 (join_new tmpl) = Ok j ↔
  Forall (λ r, fault r = None) slices ∧ ∃ h size sh body,
    is_header h ∧ (length (h_bytes h) ≤ MAX_HEADER)%nat ∧ h_slice_size h = Some size ∧
    header_for tmpl h = Ok sh ∧ framed (h_bytes h) size (flat <$> slices) body ∧
    j = resting (h_bytes h, size) (Z.of_nat (length slices)) true (sh ++ body ++ [LAST])
          (last_length slices).
Proof.
  intros Hu Hl Hne. destruct Hl as [|r slices Hr Hl]; [done|]. simpl length in Hu.
  rewrite join_loop_cons by lia. rewrite bind_ok. setoid_rewrite slice_first; [|done].
  rewrite Forall_cons. destruct slices as [|r' slices].
  - rewrite bool_decide_eq_true_2 by done. split.
    + intros (j1 & (Hf & h & size & sh & payload & Hh & Hm & Hs & Hfor & (Hb & Hsz & _) & ->) & [= <-]).
      split; [by split; [|constructor]|]. exists h, size, sh, payload.
      do 4 (split; [done|]). split; [|done]. simpl. rewrite Hb. constructor.
      rewrite Hb, !length_app in Hsz. simpl in Hsz. lia.
    + intros ((Hf & _) & h & size & sh & body & Hh & Hm & Hs & Hfor & Hfr & ->).
      eexists. split; [split; [done|]|done].
      exists h, size, sh, body. do 4 (split; [done|]). split; [|done].
      inversion Hfr as [p Hp Hx|p sl rest Hp Hrest Hx]; subst.
      * split; [done|]. split; [|done]. rewrite <-?Hx, !length_app. simpl. lia.
      * inversion Hrest.
  - rewrite bool_decide_eq_false_2 by done. split.
    + intros (j1 & (Hf & h & size & sh & payload & Hh & Hm & Hs & Hfor & (Hb & _ & Hsz) & ->) & Hj).
      cbn [stream_end] in Hj. rewrite app_nil_r in Hj.
      apply join_loop_later in Hj as (Hfs & body & Hfr & ->);
        [|done|lia|simpl in *; lia|done|done].
      split; [done|]. exists h, size, sh, (payload ++ body). do 4 (split; [done|]). split.
      * rewrite fmap_cons, Hb. constructor; [|done].
        specialize (Hsz eq_refl). rewrite Hb, !length_app in Hsz. simpl in Hsz. lia.
      * rewrite <-!app_assoc. f_equal. simpl length. lia.
    + intros ((Hf & Hfs) & h & size & sh & body & Hh & Hm & Hs & Hfor & Hfr & ->).
      inversion Hfr as [|p sl rest Hp Hrest Hx]; subst.
      eexists. split; [split; [done|]|].
      * exists h, (Z.of_nat (length (h_bytes h) + length p) + 1), sh, p.
        do 4 (split; [done|]). split; [|done]. split; [done|]. simpl in Hx.
        rewrite <-?Hx, !length_app. simpl. split; [lia|intros _; lia].
      * cbn [stream_end]. rewrite app_nil_r.
        apply join_loop_later; [done|lia|simpl in *; lia|done|done|].
        split; [done|]. exists rest. split; [done|]. rewrite <-!app_assoc.
        f_equal. simpl length. lia.
Qed.
End states.

(** ** The join and the round trip *)

Lemma framed_lengths header size slices body :
  framed header size slices body →
  slices ≠ [] ∧ Forall (λ l, Z.of_nat (length l) ≤ size) slices.
Proof.
  induction 1 as [p Hp|p sl rest Hp Hr [_ IH]]; (split; [done|]); constructor; try done;
    rewrite !length_app; simpl; lia.
Qed.

Lemma join_slices_spec_lemma slices bytes summary out :
  Z.of_nat (length slices) ≤ u32_max →
  Forall (λ r, Z.of_nat (length (flat r)) ≤ u64_max) slices →
  join_slices slices bytes = Ok (summary, out) ↔
  Forall (λ r, fault r = None) slices ∧
  ∃ tmpl h size sh body, stream_template bytes = Ok tmpl ∧
    is_header h ∧ (length (h_bytes h) ≤ MAX_HEADER)%nat ∧ h_slice_size h = Some size ∧
    header_for tmpl h = Ok sh ∧ framed (h_bytes h) size (flat <$> slices) body ∧
    out = sh ++ body ++ [LAST] ∧
    summary = mkJoinSummary (Z.of_nat (length slices)) (wrap64 (Z.of_nat (length out))).
Proof.
  intros Hu Hl. unfold join_slices. rewrite bind_ok.
  destruct (decide (slices = [])) as [->|Hne].
  { split; [by intros (? & _ & ?)|]. intros (_ & ? & ? & ? & ? & ? & _ & _ & _ & _ & _ & H & _).
    by apply framed_lengths in H as [? _]. }
  split.
  - intros (tmpl & Ht & Hj). apply bind_ok in Hj as (j & Hj & H).
    apply join_loop_spec in Hj as (Hf & h & size & sh & body & ? & ? & ? & ? & ? & ->); try done.
    injection H as <- <-. split; [done|]. by exists tmpl, h, size, sh, body.
  - intros (Hf & tmpl & h & size & sh & body & Ht & Hh & Hm & Hs & Hfor & Hfr & -> & ->).
    exists tmpl. split; [done|]. apply bind_ok. eexists. split; [|shelve].
    apply join_loop_spec; try done. split; [done|]. exists h, size, sh, body.
    do 5 (split; [done|]). reflexivity.
    Unshelve. done.
Qed.

(** The join accepts exactly the sets of slices dar writes: read without a fault, the
    first starting with a slice header of flag 'E' and a size, and all of them
    framed by that header and size; and what it writes is the stream's header with
    slice 1's labels, the payloads in order and the last-slice flag. However the reads cut
    the slices, the outcome is the same. *)
Theorem join_slices_spec slices bytes summary out :
  Z.of_nat (length slices) ≤ u32_max →
  Forall (λ r, Z.of_nat (length (flat r)) ≤ u64_max) slices →
  join_slices slices bytes = Ok (summary, out) ↔
  Forall (λ r, fault r = None) slices ∧
  ∃ tmpl h size sh body, stream_template bytes = Ok tmpl ∧
    is_header h ∧ (length (h_bytes h) ≤ MAX_HEADER)%nat ∧ h_slice_size h = Some size ∧
    header_for tmpl h = Ok sh ∧ framed (h_bytes h) size (flat <$> slices) body ∧
    out = sh ++ body ++ [LAST] ∧
    summary = mkJoinSummary (Z.of_nat (length slices)) (wrap64 (Z.of_nat (length out))).
Proof. apply join_slices_spec_lemma. Qed.

Lemma stream_template_ok bytes tmpl :
  stream_template bytes = Ok tmpl → is_header tmpl ∧ h_flag tmpl = LAST ∧ h_slice_size tmpl = None.
Proof.
  unfold stream_template. intros H. apply bind_ok in H as ([h r] & Hp & H).
  destruct (parse_header_sound _ _ _ _ Hp) as (Hh & _).
  destruct (bool_decide _ || _) eqn:Hc; [done|]. apply orb_false_iff in Hc as [Hc1 Hc2].
  apply bool_decide_eq_false in Hc1, Hc2. injection H as <-.
  split; [done|]. split; [by apply dec_stable|]. by apply eq_None_not_Some.
Qed.

(** C36: the join is the inverse of the cut. The slices a cut leaves, read back in
    any pieces, are joined into the very stream they were cut from, to the byte, when the
    stream's header is dar's standard-output header but for its labels. *)
Theorem cut_join_roundtrip stream template sh r frame summary w bytes tmpl slices :
  parse_header stream = Ok (sh, r) → Forall is_byte template →
  slice_frame template sh = Ok frame →
  Z.of_nat (length (flat stream)) ≤ u64_max →
  Z.of_nat (length (stream_slices frame (flat r))) ≤ u32_max →
  cut_stream collect stream template (mkCollected [] None) = Ok (summary, w) →
  stream_template bytes = Ok tmpl → h_bytes sh = with_labels_of tmpl sh →
  flat <$> slices = co_closed w → Forall (λ r, fault r = None) slices →
  join_slices slices bytes =
    Ok (mkJoinSummary (cut_slices summary) (cut_stream_bytes summary), flat stream).
Proof.
  intros Hp Hb Hfr Hlen Hn Hc Hst Hdar Hsl Hf.
  rewrite (cut_stream_spec_lemma _ _ _ _ _ Hp Hb Hfr Hlen Hn) in Hc.
  destruct (parse_header_sound _ _ _ _ Hp) as (Hsh & Hfl & _ & _).
  destruct (slice_frame_ok _ _ _ Hsh Hb Hfr) as (ft & rest & _ & Hft & _ & _ & Hw & Hok).
  destruct (stream_template_ok _ _ Hst) as (Ht & _ & _).
  destruct (fault stream); [done|]. destruct (cut_refusal (flat r)) eqn:Hcr; [done|].
  injection Hc as <- <-. apply cut_refusal_None in Hcr. cbn [co_closed cut_slices cut_stream_bytes] in *.
  pose proof (stream_slices_framed frame _ (flat r) Hok) as Hframed. rewrite <-Hsl in Hframed.
  destruct (framed_lengths _ _ _ _ Hframed) as [_ Hlens]. rewrite Forall_fmap in Hlens.
  rewrite <-Hsl, length_fmap in Hn |- *.
  apply join_slices_spec_lemma; [done| |split; [done|]].
  { eapply Forall_impl; [exact Hlens|]. intros l Hl. simpl in Hl.
    pose proof (fo_room _ _ Hok). simpl. lia. }
  destruct (with_labels_spec ft sh Hft Hsh) as (_ & _ & Hl1 & Hl2 & _).
  cbn [h_bytes h_data_name_at] in Hl1, Hl2. rewrite <-Hw in Hl1, Hl2.
  exists tmpl. eexists _, _, (h_bytes sh), (body_of (flat r)).
  split; [done|]. split; [apply Hok|]. split; [apply Hok|]. split; [apply Hok|].
  split; [|split; [exact Hframed|split; [rewrite Hfl; f_equal; exact Hcr|]]].
  - unfold header_for. cbn [h_flag h_slice_size].
    pose proof (fo_flag _ _ Hok) as Hfg. pose proof (fo_size _ _ Hok) as Hfs. cbn in Hfg, Hfs.
    rewrite Hfg, Hfs. rewrite !bool_decide_eq_false_2 by (try done; intros Hx; by apply Hx).
    cbn [orb]. f_equal. rewrite Hdar.
    destruct (with_labels_spec tmpl sh Ht Hsh) as (_ & _ & _ & _ & Hsame). by apply Hsame.
  - by rewrite wrap64_small by lia.
Qed.

(** The slices of the sample, read back in other pieces. *)
Definition sample_slices : list (list ReadEvent) :=
  (λ l, [Bytes (take 7 l); Eintr; Bytes (drop 7 l)]) <$> stream_slices sample_frame (flat sample_rest).
Definition sample_stream_template : list Z :=
  MAGIC ++ replicate 10 7 ++ [LAST; 84; 128; 0; 0; 0; 1; 0; 3; 128; 0; 0; 0; 10] ++ replicate 10 8.
Definition sample_stream_tmpl : Header := mkHeader sample_stream_template LAST 28 None.

Lemma join_slices_spec_witness :
  Forall (λ r, fault r = None) sample_slices ∧
  ∃ tmpl h size sh body, stream_template sample_stream_template = Ok tmpl ∧
    is_header h ∧ (length (h_bytes h) ≤ MAX_HEADER)%nat ∧ h_slice_size h = Some size ∧
    header_for tmpl h = Ok sh ∧ framed (h_bytes h) size (flat <$> sample_slices) body ∧
    flat sample_stream = sh ++ body ++ [LAST] ∧
    mkJoinSummary 3 59 = mkJoinSummary (Z.of_nat (length sample_slices))
      (wrap64 (Z.of_nat (length (flat sample_stream)))).
Proof.
  apply (join_slices_spec sample_slices sample_stream_template (mkJoinSummary 3 59) (flat sample_stream));
    [by_decide|by_decide|vm_compute; reflexivity].
Defined.

Lemma cut_join_roundtrip_witness :
  join_slices sample_slices sample_stream_template = Ok (mkJoinSummary 3 59, flat sample_stream).
Proof.
  apply (cut_join_roundtrip sample_stream sample_template sample_header sample_rest sample_frame
    (mkCutSummary 3 59 60) (mkCollected (stream_slices sample_frame (flat sample_rest)) None)
    sample_stream_template sample_stream_tmpl);
    [apply sample_parses|by_decide|apply sample_frames|by_decide|by_decide| |vm_compute; reflexivity..
    |by_decide].
  rewrite (cut_stream_spec_lemma sample_stream sample_template sample_header sample_rest sample_frame);
    [reflexivity|apply sample_parses|by_decide|apply sample_frames|by_decide|by_decide].
Defined.
