(* ===== verification/Lbp.v ===== *)
(** * Logical block protection: [src/tape/lbp.rs]

    The Reed-Solomon CRC of a wire block, by slicing tables, the Control Data
    Protection page and the sequence of commands that arms it, changes it and
    puts it back. The drive is a parameter: what it answers to a command
    may depend on every command before it. *)

From S2P Require Import Prelude.
Local Open Scope Z_scope.
Local Open Scope rust_scope.

(** ** The CRC

    A byte is a [Z] below 256, a [u32] one below 2^32. *)

Definition CRC_LEN : nat := 4.

Definition T0 : list Z := [
  0x00000000; 0x38CF3801; 0x70837002; 0x484C4803; 0xE01BE004; 0xD8D4D805; 0x90989006;
  0xA857A807; 0xDD36DD08; 0xE5F9E509; 0xADB5AD0A; 0x957A950B; 0x3D2D3D0C; 0x05E2050D;
  0x4DAE4D0E; 0x7561750F; 0xA76CA710; 0x9FA39F11; 0xD7EFD712; 0xEF20EF13; 0x47774714;
  0x7FB87F15; 0x37F43716; 0x0F3B0F17; 0x7A5A7A18; 0x42954219; 0x0AD90A1A; 0x3216321B;
  0x9A419A1C; 0xA28EA21D; 0xEAC2EA1E; 0xD20DD21F; 0x53D85320; 0x6B176B21; 0x235B2322;
  0x1B941B23; 0xB3C3B324; 0x8B0C8B25; 0xC340C326; 0xFB8FFB27; 0x8EEE8E28; 0xB621B629;
  0xFE6DFE2A; 0xC6A2C62B; 0x6EF56E2C; 0x563A562D; 0x1E761E2E; 0x26B9262F; 0xF4B4F430;
  0xCC7BCC31; 0x84378432; 0xBCF8BC33; 0x14AF1434; 0x2C602C35; 0x642C6436; 0x5CE35C37;
  0x29822938; 0x114D1139; 0x5901593A; 0x61CE613B; 0xC999C93C; 0xF156F13D; 0xB91AB93E;
  0x81D5813F; 0xA6ADA640; 0x9E629E41; 0xD62ED642; 0xEEE1EE43; 0x46B64644; 0x7E797E45;
  0x36353646; 0x0EFA0E47; 0x7B9B7B48; 0x43544349; 0x0B180B4A; 0x33D7334B; 0x9B809B4C;
  0xA34FA34D; 0xEB03EB4E; 0xD3CCD34F; 0x01C10150; 0x390E3951; 0x71427152; 0x498D4953;
  0xE1DAE154; 0xD915D955; 0x91599156; 0xA996A957; 0xDCF7DC58; 0xE438E459; 0xAC74AC5A;
  0x94BB945B; 0x3CEC3C5C; 0x0423045D; 0x4C6F4C5E; 0x74A0745F; 0xF575F560; 0xCDBACD61;
  0x85F68562; 0xBD39BD63; 0x156E1564; 0x2DA12D65; 0x65ED6566; 0x5D225D67; 0x28432868;
  0x108C1069; 0x58C0586A; 0x600F606B; 0xC858C86C; 0xF097F06D; 0xB8DBB86E; 0x8014806F;
  0x52195270; 0x6AD66A71; 0x229A2272; 0x1A551A73; 0xB202B274; 0x8ACD8A75; 0xC281C276;
  0xFA4EFA77; 0x8F2F8F78; 0xB7E0B779; 0xFFACFF7A; 0xC763C77B; 0x6F346F7C; 0x57FB577D;
  0x1FB71F7E; 0x2778277F; 0x51475180; 0x69886981; 0x21C42182; 0x190B1983; 0xB15CB184;
  0x89938985; 0xC1DFC186; 0xF910F987; 0x8C718C88; 0xB4BEB489; 0xFCF2FC8A; 0xC43DC48B;
  0x6C6A6C8C; 0x54A5548D; 0x1CE91C8E; 0x2426248F; 0xF62BF690; 0xCEE4CE91; 0x86A88692;
  0xBE67BE93; 0x16301694; 0x2EFF2E95; 0x66B36696; 0x5E7C5E97; 0x2B1D2B98; 0x13D21399;
  0x5B9E5B9A; 0x6351639B; 0xCB06CB9C; 0xF3C9F39D; 0xBB85BB9E; 0x834A839F; 0x029F02A0;
  0x3A503AA1; 0x721C72A2; 0x4AD34AA3; 0xE284E2A4; 0xDA4BDAA5; 0x920792A6; 0xAAC8AAA7;
  0xDFA9DFA8; 0xE766E7A9; 0xAF2AAFAA; 0x97E597AB; 0x3FB23FAC; 0x077D07AD; 0x4F314FAE;
  0x77FE77AF; 0xA5F3A5B0; 0x9D3C9DB1; 0xD570D5B2; 0xEDBFEDB3; 0x45E845B4; 0x7D277DB5;
  0x356B35B6; 0x0DA40DB7; 0x78C578B8; 0x400A40B9; 0x084608BA; 0x308930BB; 0x98DE98BC;
  0xA011A0BD; 0xE85DE8BE; 0xD092D0BF; 0xF7EAF7C0; 0xCF25CFC1; 0x876987C2; 0xBFA6BFC3;
  0x17F117C4; 0x2F3E2FC5; 0x677267C6; 0x5FBD5FC7; 0x2ADC2AC8; 0x121312C9; 0x5A5F5ACA;
  0x629062CB; 0xCAC7CACC; 0xF208F2CD; 0xBA44BACE; 0x828B82CF; 0x508650D0; 0x684968D1;
  0x200520D2; 0x18CA18D3; 0xB09DB0D4; 0x885288D5; 0xC01EC0D6; 0xF8D1F8D7; 0x8DB08DD8;
  0xB57FB5D9; 0xFD33FDDA; 0xC5FCC5DB; 0x6DAB6DDC; 0x556455DD; 0x1D281DDE; 0x25E725DF;
  0xA432A4E0; 0x9CFD9CE1; 0xD4B1D4E2; 0xEC7EECE3; 0x442944E4; 0x7CE67CE5; 0x34AA34E6;
  0x0C650CE7; 0x790479E8; 0x41CB41E9; 0x098709EA; 0x314831EB; 0x991F99EC; 0xA1D0A1ED;
  0xE99CE9EE; 0xD153D1EF; 0x035E03F0; 0x3B913BF1; 0x73DD73F2; 0x4B124BF3; 0xE345E3F4;
  0xDB8ADBF5; 0x93C693F6; 0xAB09ABF7; 0xDE68DEF8; 0xE6A7E6F9; 0xAEEBAEFA; 0x962496FB;
  0x3E733EFC; 0x06BC06FD; 0x4EF04EFE; 0x763F76FF].

(** [x << 8] on [u32]. *)
Definition shl8_32 (x : Z) : Z := Z.shiftl x 8 mod 2 ^ 32.

(** [T0[i as usize]]; every index the code uses is a byte. *)
Definition entry (t : list Z) (i : Z) : Z := nth (Z.to_nat i) t 0.

Definition slicing_row (prev : list Z) : list Z :=
  (λ prev, Z.lxor (shl8_32 prev) (entry T0 (Z.shiftr prev 24))) <$> prev.
Fixpoint slicing_rows (k : nat) (row : list Z) : list (list Z) :=
  match k with
  | O => []
  | S k => row :: slicing_rows k (slicing_row row)
  end.
Definition slicing_tables : list (list Z) := slicing_rows 16 T0.

Definition SLICES : list (list Z) := Eval vm_compute in slicing_tables.

Definition from_be_bytes (a b c d : Z) : Z :=
  Z.lor (Z.lor (Z.lor (Z.shiftl a 24) (Z.shiftl b 16)) (Z.shiftl c 8)) d.
Definition to_be_bytes (x : Z) : list Z :=
  [Z.land (Z.shiftr x 24) 255; Z.land (Z.shiftr x 16) 255; Z.land (Z.shiftr x 8) 255;
   Z.land x 255].

(** [SLICES[k][i]]. *)
Definition slice_entry (k : nat) (i : Z) : Z := entry (nth k SLICES []) i.

(** [data.chunks_exact(n)] and its remainder; every chunk is of [n] bytes, so
    the length of the data is fuel enough. *)
Fixpoint chunks_exact_loop (fuel n : nat) (l : list Z) : list (list Z) * list Z :=
  match fuel with
  | O => ([], l)
  | S fuel =>
      if bool_decide (n ≤ length l)%nat then
        let '(chunks, remainder) := chunks_exact_loop fuel n (drop n l) in
        (take n l :: chunks, remainder)
      else ([], l)
  end.
Definition chunks_exact (n : nat) (l : list Z) : list (list Z) * list Z :=
  chunks_exact_loop (length l) n l.

(** A step over a chunk of sixteen bytes, and over a byte. *)
Definition step16 (crc : Z) (c : list Z) : Z :=
  let c i := nth i c 0 in
  let x := Z.lxor crc (from_be_bytes (c 0%nat) (c 1%nat) (c 2%nat) (c 3%nat)) in
  foldl Z.lxor (slice_entry 15 (Z.shiftr x 24))
    [slice_entry 14 (Z.land (Z.shiftr x 16) 255);
     slice_entry 13 (Z.land (Z.shiftr x 8) 255);
     slice_entry 12 (Z.land x 255);
     slice_entry 11 (c 4%nat); slice_entry 10 (c 5%nat); slice_entry 9 (c 6%nat);
     slice_entry 8 (c 7%nat); slice_entry 7 (c 8%nat); slice_entry 6 (c 9%nat);
     slice_entry 5 (c 10%nat); slice_entry 4 (c 11%nat); slice_entry 3 (c 12%nat);
     slice_entry 2 (c 13%nat); slice_entry 1 (c 14%nat); slice_entry 0 (c 15%nat)].
Definition step1 (crc b : Z) : Z :=
  Z.lxor (shl8_32 crc) (entry T0 (Z.lxor (Z.land (Z.shiftr crc 24) 255) b)).

Definition rs_crc (data : list Z) (seed : Z) : Z :=
  let '(chunks, remainder) := chunks_exact 16 data in
  foldl step1 (foldl step16 seed chunks) remainder.

(** [protect] of a block; [None] is the panic on one too short for its CRC. *)
Definition protect (block : list Z) : option (list Z) :=
  if bool_decide (length block < CRC_LEN)%nat then None
  else
    let n := (length block - CRC_LEN)%nat in
    let crc := rs_crc (take n block) 0 in
    Some (take n block ++ to_be_bytes crc).

Record CrcMismatch : Type := mkCrcMismatch { got : Z; want : Z }.

Definition check (block : list Z) : result CrcMismatch () :=
  if bool_decide (length block < CRC_LEN)%nat then Err (mkCrcMismatch 0 0)
  else
    let n := (length block - CRC_LEN)%nat in
    let at_ i := nth (n + i) block 0 in
    let got := from_be_bytes (at_ 0%nat) (at_ 1%nat) (at_ 2%nat) (at_ 3%nat) in
    let want := rs_crc (take n block) 0 in
    if bool_decide (got = want) then Ok () else Err (mkCrcMismatch got want).

(** ** The Control Data Protection page *)

Definition PAGE_CODE : Z := 0x0A.
Definition SUBPAGE : Z := 0xF0.
Definition METHOD_RS : Z := 1.
Definition RS_INFO_LEN : Z := Z.of_nat CRC_LEN.
Definition LBP_W : Z := 0x80.
Definition LBP_R : Z := 0x40.

Record ProtectionPage : Type := mkPage { page_bytes : list Z }.
#[export] Instance page_eq_dec : EqDecision ProtectionPage.
Proof. solve_decision. Defined.

(** Why an answer is not the page. *)
Inductive PageFault : Type :=
| ResponseTooShort (len : nat)
| PageTooShort (len : nat)
| OtherPage (code subpage : Z).

Definition from_page_bytes (page : list Z) : result PageFault ProtectionPage :=
  match page with
  | p0 :: p1 :: p2 :: p3 :: _ :: _ :: _ :: _ :: _ =>
      if bool_decide (Z.land p0 0x3F ≠ PAGE_CODE) || bool_decide (p1 ≠ SUBPAGE)
      then Err (OtherPage (Z.land p0 0x3F) p1)
      else
        let declared := Z.lor (Z.shiftl p2 8) p3 + 4 in
        let len := Z.min declared (Z.of_nat (length page)) in
        Ok (mkPage (take (Z.to_nat len) page))
  | _ => Err (PageTooShort (length page))
  end.

Definition from_mode_sense10 (resp : list Z) : result PageFault ProtectionPage :=
  if bool_decide (length resp < 8)%nat then Err (ResponseTooShort (length resp))
  else
    let bdl := Z.lor (Z.shiftl (nth 6 resp 0) 8) (nth 7 resp 0) in
    from_page_bytes (drop (8 + Z.to_nat bdl) resp).

(** Indexing: [None] is the panic on an index past the end. *)
Definition method (p : ProtectionPage) : option Z := page_bytes p !! 4%nat.
Definition info_len (p : ProtectionPage) : option Z := page_bytes p !! 5%nat.
Definition flags (p : ProtectionPage) : option Z :=
  (λ b, Z.land b (Z.lor LBP_W LBP_R)) <$> page_bytes p !! 6%nat.
Definition is_armed (p : ProtectionPage) : option bool :=
  (λ f, bool_decide (f ≠ 0)) <$> flags p.
Definition armed_as (p : ProtectionPage) (bits : Z) : option bool :=
  m ← method p;
  if bool_decide (m ≠ METHOD_RS) then Some false
  else
    i ← info_len p;
    if bool_decide (i ≠ RS_INFO_LEN) then Some false
    else (λ f, bool_decide (f = bits)) <$> flags p.

(** [!x] on [u8]. *)
Definition not8 (x : Z) : Z := Z.lxor x 255.

Definition with_protection (p : ProtectionPage) (method info_len bits : Z) : option ProtectionPage :=
  let bytes := page_bytes p in
  b0 ← bytes !! 0%nat;
  b6 ← bytes !! 6%nat;
  let bytes := <[0%nat := Z.land b0 0x7F]> bytes in
  let bytes := <[4%nat := method]> bytes in
  let bytes := <[5%nat := info_len]> bytes in
  Some (mkPage (<[6%nat := Z.lor (Z.land b6 (not8 (Z.lor LBP_W LBP_R))) bits]> bytes)).
Definition cleared (p : ProtectionPage) : option ProtectionPage := with_protection p 0 0 0.

Definition contents_arg (p : ProtectionPage) : string :=
  String.concat "," (hex2 <$> page_bytes p).

Definition SENSE_TOOL : string := "sg_modes".
Definition SELECT_TOOL : string := "sg_wr_mode".
Definition POSITION_TOOL : string := "sg_raw".
Definition sense_argv (sg : string) : list string :=
  [SENSE_TOOL; "--page=0x0a,0xf0"; "--control=0"; "--raw"; sg].
Definition select_argv (sg : string) (page : ProtectionPage) : result PageFault (list string) :=
  let b := page_bytes page in
  let b0 := default 0 (head b) in
  let b1 := default 0 (b !! 1%nat) in
  if bool_decide (length b < 8)%nat || bool_decide (Z.land b0 0x3F ≠ PAGE_CODE)
     || bool_decide (b1 ≠ SUBPAGE)
  then Err (OtherPage (Z.land b0 0x3F) b1)
  else
    let page := mkPage (<[0%nat := Z.land b0 0x7F]> b) in
    Ok [SELECT_TOOL; "--page=0x0a,0xf0"; "--dbd"; "--contents=" +:+ contents_arg page; sg].
Definition read_position_argv (sg : string) : list string :=
  [POSITION_TOOL; "-b"; "-r"; "20"; "-t"; "300"; sg] ++ (hex2 <$> [0x34; 0; 0; 0; 0; 0; 0; 0; 0; 0]).

(** ** The drive's position *)

Definition POSITION_BPU : Z := 0x04.
Definition POSITION_PERR : Z := 0x02.

Inductive PositionFault : Type :=
| AnswerTooShort (len : nat)
| PositionUnknown (b : Z)
| PositionOverflowed (b : Z).

Definition parse_read_position_short (answer : list Z) : result PositionFault Z :=
  if bool_decide (length answer < 12)%nat then Err (AnswerTooShort (length answer))
  else
    let b i := nth i answer 0 in
    if bool_decide (Z.land (b 0%nat) POSITION_BPU ≠ 0) then Err (PositionUnknown (b 0%nat))
    else if bool_decide (Z.land (b 0%nat) POSITION_PERR ≠ 0) then Err (PositionOverflowed (b 0%nat))
    else
      let at_ i := from_be_bytes (b i) (b (i + 1)%nat) (b (i + 2)%nat) (b (i + 3)%nat) in
      Ok (Z.min (at_ 4%nat) (at_ 8%nat)).

(** ** What an open asks of the page *)

Inductive PageError : Type :=
| Spawn (m : string)
| IllegalRequest (m : string)
| Open (m : string)
| Other (m : string).

Inductive Protection : Type :=
| Lbp (reads : bool)
| Unavailable (reason : string)
| NotApplicable.
Definition writes_checked (p : Protection) : bool :=
  match p with Lbp _ => true | _ => false end.

Inductive LbpReadPolicy : Type := AllReads | OnlyConfirmOfLbpWrite.
Definition LBP_R_POLICY : LbpReadPolicy := AllReads.
Definition open_bits (p : LbpReadPolicy) (write_open : bool) : option Z :=
  match p, write_open with
  | AllReads, _ => Some (Z.lor LBP_W LBP_R)
  | OnlyConfirmOfLbpWrite, true => Some LBP_W
  | OnlyConfirmOfLbpWrite, false => None
  end.

Record Armed : Type := mkArmed {
  found : ProtectionPage;
  leftover : bool;
  armed_bits : Z;
}.
Definition restore_page (a : Armed) : option ProtectionPage :=
  if leftover a then cleared (found a) else Some (found a).

(** The reasons: one constructor per text. *)
Inductive Reason : Type :=
| ReasonSense (e : PageError)
| ReasonSelect (e : PageError)
| ReasonDidNotTake (method info_len flags : Z)
| ReasonBlockSize (wire : Z) (e : string)
| ReasonCannotCarry (wire errno : Z).

Definition reason_did_not_take (page : ProtectionPage) : option Reason :=
  m ← method page;
  i ← info_len page;
  f ← flags page;
  Some (ReasonDidNotTake m i f).

Record NotArmed : Type := mkNotArmed { reason : Reason; na_leftover : bool }.

(** ** Arming

    The drive and st, as the commands they are sent: what they answer is a
    function of every command so far. A probe read answers a length or
    an errno, if the error has one. *)
Inductive Command : Type :=
| Sense
| Select (page : ProtectionPage)
| SetBlockSize (size : Z)
| Probe (size : Z).

Record Drive : Type := mkDrive {
  sense_answer : list Command → result PageError ProtectionPage;
  select_answer : list Command → result PageError ();
  set_answer : list Command → result string ();
  probe_answer : list Command → result (option Z) Z;
}.

(** The commands sent so far, and a panic as an error of its own. *)
Inductive Stop (E : Type) : Type := Panic | Failed (e : E).
Arguments Panic {E}.
Arguments Failed {E} e.
Definition session (E A : Type) : Type := list Command → result (Stop E) A * list Command.
#[export] Instance session_ret E : MRet (session E) := λ A a t, (Ok a, t).
#[export] Instance session_bind E : MBind (session E) := λ A B f m t,
  match m t with (Ok a, t) => f a t | (Err e, t) => (Err e, t) end.

Definition fail {E A} (e : E) : session E A := λ t, (Err (Failed e), t).
Definition no_panic {E A} (o : option A) : session E A := λ t,
  match o with Some a => (Ok a, t) | None => (Err Panic, t) end.

Definition EBUSY : Z := 16.
Definition EOVERFLOW : Z := 75.
Definition ENOMEM : Z := 12.
Definition probe_not_issued (e : option Z) : bool :=
  match e with
  | Some n => bool_decide (n = EBUSY) || bool_decide (n = EOVERFLOW) || bool_decide (n = ENOMEM)
  | None => false
  end.

Section arming.
Variable drive : Drive.

Definition sense {E} : session E (result PageError ProtectionPage) :=
  λ t, (Ok (sense_answer drive (t ++ [Sense])), t ++ [Sense]).
Definition select {E} (p : ProtectionPage) : session E (result PageError ()) :=
  λ t, (Ok (select_answer drive (t ++ [Select p])), t ++ [Select p]).
Definition set_block_size {E} (size : Z) : session E (result string ()) :=
  λ t, (Ok (set_answer drive (t ++ [SetBlockSize size])), t ++ [SetBlockSize size]).
Definition probe {E} (size : Z) : session E (result (option Z) Z) :=
  λ t, (Ok (probe_answer drive (t ++ [Probe size])), t ++ [Probe size]).

Definition not_armed {A} (armed : Armed) (reason : Reason) (payload : option Z)
    : session NotArmed A :=
  page ← no_panic (restore_page armed);
  _ ← select page;
  _ ← match payload with Some payload => set_block_size payload | None => mret (Ok ()) end;
  fail (mkNotArmed reason (leftover armed)).

Definition arm (bits payload : Z) : session NotArmed Armed :=
  let wire := payload +w Z.of_nat CRC_LEN in
  s ← sense;
  match s with
  | Err e => fail (mkNotArmed (ReasonSense e) false)
  | Ok found =>
      leftover ← no_panic (is_armed found);
      let armed := mkArmed found leftover bits in
      want ← no_panic (with_protection found METHOD_RS RS_INFO_LEN bits);
      s ← select want;
      match s with
      | Err e => not_armed armed (ReasonSelect e) None
      | Ok _ =>
          s ← sense;
          match s with
          | Err e => not_armed armed (ReasonSense e) None
          | Ok now =>
              took ← no_panic (armed_as now bits);
              if negb took then
                reason ← no_panic (reason_did_not_take now);
                not_armed armed reason None
              else
                s ← set_block_size wire;
                match s with
                | Err e => not_armed armed (ReasonBlockSize wire e) (Some payload)
                | Ok _ =>
                    s ← probe wire;
                    match s with
                    | Err (Some n) =>
                        if probe_not_issued (Some n)
                        then not_armed armed (ReasonCannotCarry wire n) (Some payload)
                        else mret armed
                    | _ => mret armed
                    end
                end
          end
      end
  end.

Definition rearm (armed : Armed) (bits : Z) : session Reason Armed :=
  s ← sense;
  match s with
  | Err e => fail (ReasonSense e)
  | Ok now =>
      want ← no_panic (with_protection now METHOD_RS RS_INFO_LEN bits);
      s ← select want;
      match s with
      | Err e => fail (ReasonSelect e)
      | Ok _ =>
          s ← sense;
          match s with
          | Ok back =>
              took ← no_panic (armed_as back bits);
              if (took : bool) then mret (mkArmed (found armed) (leftover armed) bits)
              else
                _ ← select now;
                reason ← no_panic (reason_did_not_take back);
                fail reason
          | Err e => _ ← select now; fail (ReasonSense e)
          end
      end
  end.

Definition disarm (armed : Armed) : session Reason () :=
  restore ← no_panic (restore_page armed);
  s ← select restore;
  match s with
  | Err e => fail (ReasonSelect e)
  | Ok _ =>
      s ← sense;
      match s with
      | Err e => fail (ReasonSense e)
      | Ok back =>
          bf ← no_panic (flags back);
          rf ← no_panic (flags restore);
          bm ← no_panic (method back);
          rm ← no_panic (method restore);
          if bool_decide (bf ≠ rf) || bool_decide (bm ≠ rm) then reason ← no_panic (reason_did_not_take back); fail reason
          else mret ()
      end
  end.

Definition clear_leftover : session Reason bool :=
  s ← sense;
  match s with
  | Err e => fail (ReasonSense e)
  | Ok found =>
      armed ← no_panic (is_armed found);
      if negb armed then mret false
      else
        page ← no_panic (cleared found);
        s ← select page;
        match s with
        | Err e => fail (ReasonSelect e)
        | Ok _ => mret true
        end
  end.
End arming.

(** ** The test hook's count *)

Record CorruptBlocks : Type := mkCorruptBlocks { listed : list Z; sent : Z }.
Definition corrupt_new (listed : list Z) : CorruptBlocks := mkCorruptBlocks listed 0.
Definition next_block (c : CorruptBlocks) : bool * CorruptBlocks :=
  let n := sent c +w 1 in
  (bool_decide (n ∈ listed c), mkCorruptBlocks (listed c) n).
