(* ===== verification/LbpCrc.v ===== *)
(** * The CRC of a wire block: theorems

    The code is linear over GF(2): a byte advances the register by a linear
    map [adv], which is why the sixteen bytes of a step can be looked up
    apart. The slicing loop is the byte-wise shift register, and the CRC finds
    every damage confined to four bytes in a row. *)

From S2P Require Import Prelude Lbp.
From Stdlib Require Import Btauto.
Local Open Scope Z_scope.

Definition is_u32 (x : Z) : Prop := 0 ≤ x < 2 ^ 32.

(** ** Bits *)

Lemma testbit_high n x k : 0 ≤ x < 2 ^ n → 0 ≤ n ≤ k → Z.testbit x k = false.
Proof.
  intros Hx Hk. destruct (decide (x = 0)) as [->|]; [apply Z.testbit_0_l|].
  apply Z.bits_above_log2; [lia|]. apply Z.lt_le_trans with n; [|lia].
  apply Z.log2_lt_pow2; lia.
Qed.

Lemma lxor_bound n x y : 0 ≤ n → 0 ≤ x < 2 ^ n → 0 ≤ y < 2 ^ n → 0 ≤ Z.lxor x y < 2 ^ n.
Proof.
  intros Hn Hx Hy. assert (0 ≤ Z.lxor x y) by (apply Z.lxor_nonneg; lia).
  split; [done|]. destruct (decide (Z.lxor x y = 0)) as [->|]; [lia|].
  apply Z.log2_lt_pow2; [lia|]. pose proof (Z.log2_lxor x y ltac:(lia) ltac:(lia)).
  assert (∀ z, 0 ≤ z < 2 ^ n → Z.log2 z < n ∨ n = 0) as Hlog.
  { intros z Hz. destruct (decide (z = 0)) as [->|]; [change (Z.log2 0) with 0; lia|].
    left. apply Z.log2_lt_pow2; lia. }
  destruct (Hlog x Hx), (Hlog y Hy); try lia.
  all: subst n; replace x with 0 in * by lia; replace y with 0 in * by lia; done.
Qed.

Lemma land_lxor_l x y z : Z.land (Z.lxor x y) z = Z.lxor (Z.land x z) (Z.land y z).
Proof. apply Z.bits_inj'. intros n _. rewrite !Z.land_spec, !Z.lxor_spec, !Z.land_spec. btauto. Qed.

Lemma shl8_32_land x : shl8_32 x = Z.land (Z.shiftl x 8) (Z.ones 32).
Proof. unfold shl8_32. by rewrite Z.land_ones by lia. Qed.

Lemma shl8_32_lxor x y : shl8_32 (Z.lxor x y) = Z.lxor (shl8_32 x) (shl8_32 y).
Proof. rewrite !shl8_32_land, Z.shiftl_lxor. apply land_lxor_l. Qed.

Lemma shl8_32_u32 x : is_u32 (shl8_32 x).
Proof. unfold is_u32, shl8_32. apply Z.mod_pos_bound. lia. Qed.

Lemma lxor_u32 x y : is_u32 x → is_u32 y → is_u32 (Z.lxor x y).
Proof. intros. by apply lxor_bound. Qed.

Lemma lxor_byte x y : is_byte x → is_byte y → is_byte (Z.lxor x y).
Proof. intros Hx Hy. by apply (lxor_bound 8). Qed.

Lemma shiftr_byte x k : is_u32 x → 24 ≤ k → is_byte (Z.shiftr x k).
Proof.
  unfold is_u32, is_byte. intros Hx Hk. rewrite Z.shiftr_div_pow2 by lia.
  split; [apply Z.div_pos; lia|]. apply Z.div_lt_upper_bound; [lia|].
  assert (2 ^ 24 ≤ 2 ^ k) by (apply Z.pow_le_mono_r; lia). lia.
Qed.

Lemma land_255_byte x : is_byte (Z.land x 255).
Proof.
  unfold is_byte. change 255 with (Z.ones 8). rewrite Z.land_ones by lia.
  apply Z.mod_pos_bound. lia.
Qed.

Lemma land_255_id x : is_byte x → Z.land x 255 = x.
Proof.
  unfold is_byte. intros Hx. change 255 with (Z.ones 8). rewrite Z.land_ones by lia.
  by apply Z.mod_small.
Qed.

(** ** The table *)

Definition all_bytes : list Z := seqZ 0 256.

(** What holds of every byte, by trying them. *)
Lemma bytes_check (p : Z → bool) :
  forallb p all_bytes = true → ∀ x, is_byte x → p x = true.
Proof.
  intros Hp x Hx. rewrite forallb_forall in Hp. apply Hp. apply list_elem_of_In, elem_of_seqZ.
  unfold is_byte in Hx. lia.
Qed.

Lemma T0_u32 x : is_byte x → is_u32 (entry T0 x).
Proof.
  intros Hx.
  pose proof (bytes_check (λ x, bool_decide (0 ≤ entry T0 x < 2 ^ 32)) ltac:(by vm_compute) x Hx) as H.
  by apply bool_decide_eq_true in H.
Qed.

Lemma T0_linear x y : is_byte x → is_byte y →
  entry T0 (Z.lxor x y) = Z.lxor (entry T0 x) (entry T0 y).
Proof.
  intros Hx Hy.
  pose proof (bytes_check (λ x, forallb (λ y, Z.eqb (entry T0 (Z.lxor x y))
    (Z.lxor (entry T0 x) (entry T0 y))) all_bytes) ltac:(by vm_compute) x Hx) as H.
  cbv beta in H. apply Z.eqb_eq. revert y Hy. by apply bytes_check.
Qed.

(** ** The register *)

(** A register advanced by a zero byte. *)
Definition adv (x : Z) : Z := Z.lxor (shl8_32 x) (entry T0 (Z.shiftr x 24)).

Lemma adv_u32 x : is_u32 x → is_u32 (adv x).
Proof. intros Hx. apply lxor_u32; [apply shl8_32_u32|]. apply T0_u32, shiftr_byte; [done|lia]. Qed.

Lemma lxor_swap a b c d : Z.lxor (Z.lxor a b) (Z.lxor c d) = Z.lxor (Z.lxor a c) (Z.lxor b d).
Proof. apply Z.bits_inj'. intros n _. rewrite !Z.lxor_spec. btauto. Qed.

Lemma adv_lxor x y : is_u32 x → is_u32 y → adv (Z.lxor x y) = Z.lxor (adv x) (adv y).
Proof.
  intros Hx Hy. unfold adv. rewrite shl8_32_lxor, Z.shiftr_lxor, T0_linear
    by (apply shiftr_byte; [done|lia]).
  apply lxor_swap.
Qed.

Lemma adv_iter_u32 k x : is_u32 x → is_u32 (Nat.iter k adv x).
Proof. intros Hx. induction k as [|k IH]; [done|]. by apply adv_u32. Qed.

Lemma adv_iter_lxor k x y : is_u32 x → is_u32 y →
  Nat.iter k adv (Z.lxor x y) = Z.lxor (Nat.iter k adv x) (Nat.iter k adv y).
Proof.
  intros Hx Hy. induction k as [|k IH]; [done|]. simpl. rewrite IH.
  by apply adv_lxor; apply adv_iter_u32.
Qed.

(** A byte is fed by advancing, and its own entry of the table. *)
Lemma step1_adv crc b : is_u32 crc → is_byte b → step1 crc b = Z.lxor (adv crc) (entry T0 b).
Proof.
  intros Hc Hb. assert (is_byte (Z.shiftr crc 24)) as Hs by (apply shiftr_byte; [done|lia]).
  unfold step1, adv. rewrite land_255_id, T0_linear by done. by rewrite Z.lxor_assoc.
Qed.

Lemma step1_u32 crc b : is_u32 crc → is_byte b → is_u32 (step1 crc b).
Proof. intros. rewrite step1_adv by done. apply lxor_u32; [by apply adv_u32|by apply T0_u32]. Qed.

Lemma steps_u32 l crc : Forall is_byte l → is_u32 crc → is_u32 (foldl step1 crc l).
Proof. intros Hl. revert crc. induction Hl; intros crc Hc; simpl; [done|]. by apply IHHl, step1_u32. Qed.

(** The steps over some bytes are linear in the register and the bytes together. *)
Lemma steps_lxor l k c d : Forall is_byte l → Forall is_byte k → length l = length k →
  is_u32 c → is_u32 d →
  foldl step1 (Z.lxor c d) (zip_with Z.lxor l k) = Z.lxor (foldl step1 c l) (foldl step1 d k).
Proof.
  intros Hl. revert k c d. induction Hl as [|a l Ha Hl IH]; intros [|b k] c d Hk Hlen Hc Hd;
    try done. apply Forall_cons in Hk as [Hb Hk]. injection Hlen as Hlen. simpl.
  rewrite <-IH by (try done; by apply step1_u32). f_equal.
  assert (is_byte (Z.lxor a b)) by by apply lxor_byte.
  assert (is_u32 (Z.lxor c d)) by by apply lxor_u32.
  rewrite !step1_adv, adv_lxor, T0_linear by done. apply lxor_swap.
Qed.

Lemma T0_0 : entry T0 0 = 0.
Proof. done. Qed.
Lemma adv_0 : adv 0 = 0.
Proof. done. Qed.
Lemma adv_iter_0 k : Nat.iter k adv 0 = 0.
Proof. induction k as [|k IH]; [done|]. simpl. by rewrite IH, adv_0. Qed.

(** What each byte of a run leaves in the register. *)
Fixpoint contributions (l : list Z) : Z :=
  match l with
  | [] => 0
  | b :: l => Z.lxor (Nat.iter (length l) adv (entry T0 b)) (contributions l)
  end.

Lemma steps_contributions l crc : Forall is_byte l → is_u32 crc →
  foldl step1 crc l = Z.lxor (Nat.iter (length l) adv crc) (contributions l).
Proof.
  intros Hl. revert crc. induction Hl as [|b l Hb Hl IH]; intros crc Hc.
  { simpl. by rewrite Z.lxor_0_r. }
  simpl foldl. rewrite IH by by apply step1_u32. rewrite step1_adv, adv_iter_lxor
    by (done || by apply adv_u32 || by apply T0_u32).
  simpl length. rewrite Nat.iter_succ_r. simpl. by rewrite Z.lxor_assoc.
Qed.

(** ** A word of the register *)

Lemma adv_shifted b k : is_byte b → 0 ≤ k ≤ 16 → adv (Z.shiftl b k) = Z.shiftl b (k + 8).
Proof.
  unfold is_byte. intros Hb Hk. unfold adv, shl8_32. rewrite Z.shiftl_shiftl by lia.
  assert (0 ≤ Z.shiftl b (k + 8) < 2 ^ 32).
  { rewrite Z.shiftl_mul_pow2 by lia.
    assert (2 ^ (k + 8) ≤ 2 ^ 24) by (apply Z.pow_le_mono_r; lia).
    assert (0 < 2 ^ (k + 8)) by (apply Z.pow_pos_nonneg; lia). nia. }
  rewrite Z.mod_small by done.
  assert (Z.shiftr (Z.shiftl b k) 24 = 0) as ->.
  { rewrite Z.shiftl_mul_pow2, Z.shiftr_div_pow2 by lia. apply Z.div_small.
    assert (2 ^ k ≤ 2 ^ 16) by (apply Z.pow_le_mono_r; lia).
    assert (0 < 2 ^ k) by (apply Z.pow_pos_nonneg; lia). nia. }
  by rewrite T0_0, Z.lxor_0_r.
Qed.

Lemma adv_top b : is_byte b → adv (Z.shiftl b 24) = entry T0 b.
Proof.
  intros Hb. unfold adv. rewrite Z.shiftr_shiftl_l by lia. simpl (24 - 24). rewrite Z.shiftl_0_r.
  assert (shl8_32 (Z.shiftl b 24) = 0) as ->; [|by rewrite Z.lxor_0_l].
  unfold shl8_32. rewrite Z.shiftl_shiftl, Z.shiftl_mul_pow2 by lia.
  change (2 ^ (24 + 8)) with (2 ^ 32). by apply Z.mod_mul.
Qed.

Lemma from_be_lxor a b c d : is_byte a → is_byte b → is_byte c → is_byte d →
  from_be_bytes a b c d =
    Z.lxor (Z.lxor (Z.lxor (Z.shiftl a 24) (Z.shiftl b 16)) (Z.shiftl c 8)) d.
Proof.
  intros Ha Hb Hc Hd. unfold from_be_bytes. apply Z.bits_inj'. intros n Hn.
  rewrite !Z.lor_spec, !Z.lxor_spec.
  assert (∀ x k, is_byte x → 0 ≤ k → Z.testbit (Z.shiftl x k) n = true → k ≤ n < k + 8) as Hbit.
  { intros x k Hx Hk Ht. rewrite Z.shiftl_spec in Ht by done.
    destruct (decide (n < k)); [by rewrite Z.testbit_neg_r in Ht by lia|].
    destruct (decide (k + 8 ≤ n)); [|lia].
    by rewrite (testbit_high 8) in Ht by (unfold is_byte in Hx; lia). }
  pose proof (Hbit a 24 Ha). pose proof (Hbit b 16 Hb). pose proof (Hbit c 8 Hc).
  pose proof (Hbit d 0 Hd) as Hd'. rewrite Z.shiftl_0_r in Hd'.
  destruct (Z.testbit (Z.shiftl a 24) n), (Z.testbit (Z.shiftl b 16) n),
    (Z.testbit (Z.shiftl c 8) n), (Z.testbit d n); simpl; try done; lia.
Qed.

Lemma from_be_to_be x : is_u32 x →
  from_be_bytes (Z.land (Z.shiftr x 24) 255) (Z.land (Z.shiftr x 16) 255)
    (Z.land (Z.shiftr x 8) 255) (Z.land x 255) = x.
Proof.
  intros Hx. unfold from_be_bytes. change 255 with (Z.ones 8). apply Z.bits_inj'. intros n Hn.
  assert (∀ k, 0 ≤ k → Z.testbit (Z.shiftl (Z.land (Z.shiftr x k) (Z.ones 8)) k) n =
    bool_decide (k ≤ n < k + 8) && Z.testbit x n) as Hb.
  { intros k Hk. rewrite Z.shiftl_spec by done. destruct (decide (k ≤ n)).
    - rewrite Z.land_spec, Z.shiftr_spec, Z.testbit_ones_nonneg by lia.
      replace (n - k + k) with n by lia. rewrite andb_comm. f_equal.
      apply eq_true_iff_eq. rewrite Z.ltb_lt, bool_decide_eq_true. lia.
    - rewrite Z.testbit_neg_r by lia. by rewrite bool_decide_eq_false_2 by lia. }
  pose proof (Hb 0 ltac:(lia)) as Hb0. rewrite Z.shiftl_0_r, Z.shiftr_0_r in Hb0.
  rewrite !Z.lor_spec, !Hb, Hb0 by lia.
  destruct (decide (n < 32)).
  - destruct (Z.testbit x n); rewrite ?andb_false_r, ?andb_true_r; [|done].
    repeat case_bool_decide; done || lia.
  - rewrite (testbit_high 32 x) by (unfold is_u32 in Hx; lia). by rewrite !andb_false_r.
Qed.

Lemma to_be_bytes_word x : Forall is_byte (to_be_bytes x) ∧ length (to_be_bytes x) = 4%nat.
Proof. split; [|done]. unfold to_be_bytes. repeat constructor; apply land_255_byte. Qed.

Lemma shiftl_u32 b k : is_byte b → 0 ≤ k ≤ 24 → is_u32 (Z.shiftl b k).
Proof.
  unfold is_byte, is_u32. intros Hb Hk. rewrite Z.shiftl_mul_pow2 by lia.
  assert (2 ^ k ≤ 2 ^ 24) by (apply Z.pow_le_mono_r; lia).
  assert (0 < 2 ^ k) by (apply Z.pow_pos_nonneg; lia). nia.
Qed.

Lemma byte_u32 b : is_byte b → is_u32 b.
Proof. unfold is_byte, is_u32. lia. Qed.

Lemma from_be_u32 a b c d : is_byte a → is_byte b → is_byte c → is_byte d →
  is_u32 (from_be_bytes a b c d).
Proof.
  intros. rewrite from_be_lxor by done.
  repeat apply lxor_u32; try (apply shiftl_u32; [done|lia]). by apply byte_u32.
Qed.

(** Four steps take a word out of the register and put its bytes' entries in. *)
Lemma adv_word a b c d : is_byte a → is_byte b → is_byte c → is_byte d →
  Nat.iter 4 adv (from_be_bytes a b c d) = contributions [a; b; c; d].
Proof.
  intros Ha Hb Hc Hd. rewrite from_be_lxor by done.
  assert (is_u32 (Z.shiftl a 24) ∧ is_u32 (Z.shiftl b 16) ∧ is_u32 (Z.shiftl c 8) ∧ is_u32 d)
    as (Ua & Ub & Uc & Ud) by (repeat split; try (apply shiftl_u32; [done|lia]); by apply byte_u32).
  rewrite !adv_iter_lxor by (repeat apply lxor_u32; done). simpl contributions.
  rewrite Z.lxor_0_r, !Z.lxor_assoc.
  assert (∀ x, Nat.iter 4 adv x = adv (adv (adv (adv x)))) as H4 by done. rewrite !H4.
  rewrite <-(Z.shiftl_0_r d) at 1.
  rewrite (adv_shifted b 16), (adv_shifted c 8), (adv_shifted d 0) by (done || lia).
  change (16 + 8) with 24; change (8 + 8) with 16; change (0 + 8) with 8.
  rewrite (adv_shifted c 16), (adv_shifted d 8) by (done || lia).
  change (16 + 8) with 24; change (8 + 8) with 16; change (0 + 8) with 8.
  rewrite (adv_shifted d 16) by (done || lia).
  change (16 + 8) with 24; change (8 + 8) with 16; change (0 + 8) with 8. by rewrite !adv_top by done.
Qed.

Lemma adv_register x : is_u32 x → Nat.iter 4 adv x = contributions (to_be_bytes x).
Proof.
  intros Hx. rewrite <-(from_be_to_be x Hx) at 1. unfold to_be_bytes.
  apply adv_word; apply land_255_byte.
Qed.

(** ** The slicing tables *)

Lemma slicing_row_spec row i : length row = 256%nat → is_byte i →
  entry (slicing_row row) i = adv (entry row i).
Proof.
  intros Hl Hi. unfold is_byte in Hi. unfold slicing_row, entry.
  rewrite (nth_indep _ 0 ((λ prev, Z.lxor (shl8_32 prev) (nth (Z.to_nat (Z.shiftr prev 24)) T0 0)) 0))
    by (rewrite length_fmap; lia).
  by rewrite (map_nth (λ prev, Z.lxor (shl8_32 prev) (nth (Z.to_nat (Z.shiftr prev 24)) T0 0))).
Qed.

Lemma slicing_rows_spec n k row i : length row = 256%nat → is_byte i → (k < n)%nat →
  entry (nth k (slicing_rows n row) []) i = Nat.iter k adv (entry row i).
Proof.
  revert k row. induction n as [|n IH]; intros k row Hl Hi Hk; [lia|].
  destruct k as [|k]; [done|]. simpl nth. rewrite IH; [|by unfold slicing_row; rewrite length_fmap|done|lia].
  rewrite slicing_row_spec by done. by rewrite Nat.iter_succ_r.
Qed.

Lemma slice_entry_spec k i : (k < 16)%nat → is_byte i →
  slice_entry k i = Nat.iter k adv (entry T0 i).
Proof.
  intros Hk Hi. unfold slice_entry. assert (SLICES = slicing_tables) as -> by (vm_compute; done).
  by apply slicing_rows_spec.
Qed.

(** ** The loop *)

Lemma contributions_u32 l : Forall is_byte l → is_u32 (contributions l).
Proof.
  induction 1 as [|b l Hb Hl IH]; simpl; [done|]. apply lxor_u32; [|done].
  by apply adv_iter_u32, T0_u32.
Qed.

Lemma contributions_app l k : Forall is_byte l →
  contributions (l ++ k) = Z.lxor (Nat.iter (length k) adv (contributions l)) (contributions k).
Proof.
  induction 1 as [|b l Hb Hl IH]; simpl.
  { by rewrite adv_iter_0, Z.lxor_0_l. }
  rewrite IH, adv_iter_lxor by (by apply contributions_u32 || by apply adv_iter_u32, T0_u32).
  rewrite length_app, Nat.add_comm, Nat.iter_add. by rewrite Z.lxor_assoc.
Qed.

Lemma step16_spec crc c :
  is_u32 crc → Forall is_byte c → length c = 16%nat → step16 crc c = foldl step1 crc c.
Proof.
  intros Hc Hl Hlen.
  destruct c as [|c0 [|c1 [|c2 [|c3 [|c4 [|c5 [|c6 [|c7 [|c8 [|c9 [|c10 [|c11 [|c12 [|c13
    [|c14 [|c15 [|]]]]]]]]]]]]]]]]]; try discriminate Hlen. clear Hlen.
  rewrite steps_contributions by done.
  change [c0; c1; c2; c3; c4; c5; c6; c7; c8; c9; c10; c11; c12; c13; c14; c15]
    with ([c0; c1; c2; c3] ++ [c4; c5; c6; c7; c8; c9; c10; c11; c12; c13; c14; c15]) in *.
  set (k := [c4; c5; c6; c7; c8; c9; c10; c11; c12; c13; c14; c15]) in *.
  apply Forall_app in Hl as [Hh Hk]. rewrite contributions_app by done.
  rewrite !Forall_cons in Hh. destruct Hh as (H0 & H1 & H2 & H3 & _).
  rewrite <-adv_word by done. change (length (_ ++ k)) with (12 + 4)%nat. rewrite Nat.iter_add.
  change (length k) with 12%nat. rewrite <-Z.lxor_assoc.
  assert (is_u32 (from_be_bytes c0 c1 c2 c3)) as Hw by by apply from_be_u32.
  rewrite <-adv_iter_lxor by by apply adv_iter_u32. rewrite <-adv_iter_lxor by done.
  unfold step16. cbn [nth app]. set (x := Z.lxor crc _). assert (is_u32 x) as Hx by by apply lxor_u32.
  rewrite adv_register by done. change (Nat.iter 12 adv) with (Nat.iter (length k) adv).
  rewrite <-contributions_app by apply to_be_bytes_word.
  unfold k in Hk. rewrite !Forall_cons in Hk.
  destruct Hk as (K4 & K5 & K6 & K7 & K8 & K9 & K10 & K11 & K12 & K13 & K14 & K15 & _).
  assert (is_byte (Z.shiftr x 24)) as Hs by (apply shiftr_byte; [done|lia]).
  assert (∀ y, is_byte (Z.land y 255)) as Hm by apply land_255_byte.
  rewrite !slice_entry_spec by (first [apply Hm | done | lia]). unfold to_be_bytes, k. simpl.
  rewrite (land_255_id _ Hs). rewrite !Z.lxor_assoc, Z.lxor_0_r. done.
Qed.

Lemma rs_crc_bytes data seed : Forall is_byte data → is_u32 seed →
  rs_crc data seed = foldl step1 seed data.
Proof.
  unfold rs_crc, chunks_exact. intros Hd Hs.
  assert (∀ fuel, (length data ≤ fuel)%nat →
    let '(chunks, remainder) := chunks_exact_loop fuel 16 data in
    foldl step1 (foldl step16 seed chunks) remainder = foldl step1 seed data) as H.
  2: { specialize (H (length data) ltac:(done)). by destruct (chunks_exact_loop _ _ _). }
  intros fuel. revert data seed Hd Hs. induction fuel as [|fuel IH]; intros data seed Hd Hs Hl.
  { done. }
  cbn [chunks_exact_loop]. case_bool_decide as H16; [|done].
  rewrite <-(take_drop 16 data) in Hd. apply Forall_app in Hd as [Ht Hd].
  assert (step16 seed (take 16 data) = foldl step1 seed (take 16 data)) as Hst
    by (apply step16_spec; try done; rewrite length_take; lia).
  assert (is_u32 (step16 seed (take 16 data))) as Hs' by (rewrite Hst; by apply steps_u32).
  specialize (IH (drop 16 data) _ Hd Hs'). rewrite length_drop in IH. specialize (IH ltac:(lia)).
  destruct (chunks_exact_loop fuel 16 (drop 16 data)) as [chunks remainder].
  rewrite <-(take_drop 16 data) at 2. rewrite foldl_app, <-Hst. exact IH.
Qed.

Lemma rs_crc_u32 data seed : Forall is_byte data → is_u32 seed → is_u32 (rs_crc data seed).
Proof. intros. rewrite rs_crc_bytes by done. by apply steps_u32. Qed.

(** ** The field, and the published table

    [gf_mul] multiplies in GF(2^8) modulo 0x11D; ECMA-319's shift register is
    four bytes with taps 0x38, 0xCF, 0x38 and 0x01. *)
Definition gf_double (a : Z) : Z :=
  let d := Z.shiftl a 1 in if bool_decide (d < 256) then d else Z.lxor d 0x11D.
Fixpoint gf_mul (fuel : nat) (a b : Z) : Z :=
  match fuel with
  | O => 0
  | S fuel => Z.lxor (if Z.odd b then a else 0) (gf_mul fuel (gf_double a) (Z.shiftr b 1))
  end.
Lemma T0_is_the_field_code x : is_byte x →
  entry T0 x = from_be_bytes (gf_mul 8 (Z.shiftr (entry T0 1) 24) x)
    (gf_mul 8 (Z.land (Z.shiftr (entry T0 1) 16) 255) x)
    (gf_mul 8 (Z.land (Z.shiftr (entry T0 1) 8) 255) x) x.
Proof.
  intros Hx. apply Z.eqb_eq. revert x Hx. apply bytes_check. by vm_compute.
Qed.

(** ** Protecting and checking *)

Lemma T0_low x : is_byte x → Z.land (entry T0 x) 255 = x.
Proof. intros Hx. apply Z.eqb_eq. revert x Hx. apply bytes_check. by vm_compute. Qed.

Lemma adv_zero x : is_u32 x → adv x = 0 → x = 0.
Proof.
  intros Hx Ha. assert (is_byte (Z.shiftr x 24)) as Hs by (apply shiftr_byte; [done|lia]).
  assert (Z.shiftr x 24 = 0) as Hz.
  { rewrite <-(T0_low _ Hs). apply (f_equal (λ y, Z.land y 255)) in Ha. unfold adv in Ha.
    rewrite land_lxor_l in Ha. simpl (Z.land 0 255) in Ha.
    assert (Z.land (shl8_32 x) 255 = 0) as Hl; [|by rewrite Hl, Z.lxor_0_l in Ha].
    unfold shl8_32. change 255 with (Z.ones 8). rewrite Z.land_ones, Z.shiftl_mul_pow2 by lia.
    change (2 ^ 32) with (2 ^ 8 * 2 ^ 24). rewrite (Z.mul_comm x), Z.mul_mod_distr_l by lia.
    rewrite Z.mul_comm. by apply Z.mod_mul. }
  unfold adv in Ha. rewrite Hz, T0_0, Z.lxor_0_r in Ha. unfold shl8_32 in Ha.
  rewrite Z.shiftr_div_pow2 in Hz by lia. rewrite Z.shiftl_mul_pow2 in Ha by lia.
  unfold is_u32 in Hx. apply Z.div_small_iff in Hz; [|lia]. rewrite Z.mod_small in Ha by lia. lia.
Qed.

Lemma adv_iter_zero k x : is_u32 x → Nat.iter k adv x = 0 → x = 0.
Proof. intros Hx. induction k as [|k IH]; [done|]. intros H. apply IH, adv_zero; [by apply adv_iter_u32|done]. Qed.

(** A register that meets four bytes ends at zero exactly when they are its own. *)
Lemma steps_residue s a b c d : is_u32 s → Forall is_byte [a; b; c; d] →
  foldl step1 s [a; b; c; d] = 0 ↔ from_be_bytes a b c d = s.
Proof.
  intros Hs Hl. rewrite steps_contributions by done. rewrite !Forall_cons in Hl.
  destruct Hl as (Ha & Hb & Hc & Hd & _). rewrite <-adv_word by done. simpl length.
  assert (is_u32 (from_be_bytes a b c d)) as Hw by by apply from_be_u32.
  rewrite <-adv_iter_lxor by done. split.
  - intros H%adv_iter_zero; [|by apply lxor_u32]. symmetry. by apply Z.lxor_eq.
  - intros ->. by rewrite Z.lxor_nilpotent, adv_iter_0.
Qed.

Lemma last_four (l : list Z) : (4 ≤ length l)%nat → ∃ l' a b c d, l = l' ++ [a; b; c; d].
Proof.
  intros Hl. exists (take (length l - 4) l).
  pose proof (take_drop (length l - 4) l) as Ht. pose proof (length_drop l (length l - 4)) as Hd.
  destruct (drop (length l - 4) l) as [|a [|b [|c [|d [|]]]]]; simpl in Hd; try lia.
  by exists a, b, c, d.
Qed.

Lemma check_residue block : Forall is_byte block →
  check block = Ok () ↔ (4 ≤ length block)%nat ∧ foldl step1 0 block = 0.
Proof.
  intros Hb. unfold check, CRC_LEN. case_bool_decide as Hl; [split; [done|lia]|].
  destruct (last_four block) as (l & a & b & c & d & ->); [lia|].
  rewrite length_app. change (length [a; b; c; d]) with 4%nat.
  replace (length l + 4 - 4)%nat with (length l) by lia. rewrite take_app_length.
  assert (∀ i, nth (length l + i) (l ++ [a; b; c; d]) 0 = nth i [a; b; c; d] 0) as Hn.
  { intros i. rewrite app_nth2 by lia. f_equal. lia. }
  rewrite !Hn. cbn [nth]. apply Forall_app in Hb as [Hl' Hw].
  rewrite foldl_app, rs_crc_bytes by done.
  pose proof (steps_residue (foldl step1 0 l) a b c d ltac:(by apply steps_u32) Hw) as Hr.
  case_bool_decide as Hg; split; try done; [intros _; split; [lia|by apply Hr]|].
  intros [_ H]. by apply Hr in H.
Qed.

(** C39: the slicing-by-16 CRC is the byte-wise shift register it is published as, over the table
    of the code in GF(2^8); it can be carried on from any seed. *)
Theorem rs_crc_is_the_shift_register data rest seed :
  Forall is_byte data → Forall is_byte rest → is_u32 seed →
  rs_crc data seed = foldl step1 seed data ∧ is_u32 (rs_crc data seed) ∧
  rs_crc (data ++ rest) seed = rs_crc rest (rs_crc data seed) ∧
  ∀ x, is_byte x → entry T0 x =
    from_be_bytes (gf_mul 8 (Z.shiftr (entry T0 1) 24) x)
      (gf_mul 8 (Z.land (Z.shiftr (entry T0 1) 16) 255) x)
      (gf_mul 8 (Z.land (Z.shiftr (entry T0 1) 8) 255) x) x.
Proof.
  intros Hd Hr Hs. split; [by apply rs_crc_bytes|]. split; [by apply rs_crc_u32|].
  split; [|apply T0_is_the_field_code].
  rewrite (rs_crc_bytes (data ++ rest)) by (done || by apply Forall_app).
  by rewrite foldl_app, (rs_crc_bytes rest), (rs_crc_bytes data) by (done || by apply rs_crc_u32).
Qed.

Lemma protect_spec block : Forall is_byte block → (CRC_LEN ≤ length block)%nat →
  ∃ wire, protect block = Some wire ∧ length wire = length block ∧ Forall is_byte wire ∧
    take (length block - CRC_LEN) wire = take (length block - CRC_LEN) block ∧
    foldl step1 0 wire = 0.
Proof.
  unfold CRC_LEN. intros Hb Hl. unfold protect. rewrite bool_decide_eq_false_2 by (unfold CRC_LEN; lia).
  set (n := (length block - CRC_LEN)%nat).
  assert (Forall is_byte (take n block)) as Ht by by apply Forall_take.
  assert (is_u32 (rs_crc (take n block) 0)) as Hu by by apply rs_crc_u32.
  destruct (to_be_bytes_word (rs_crc (take n block) 0)) as [Hw Hwl].
  assert (length (take n block) = n) as Hn by (rewrite length_take; unfold n; lia).
  eexists. split; [done|]. split; [rewrite length_app, Hn, Hwl; unfold n, CRC_LEN; lia|].
  split; [by apply Forall_app|]. split.
  - change (length block - 4)%nat with n. by rewrite take_app_le, take_take, Nat.min_id by lia.
  - rewrite foldl_app, <-(rs_crc_bytes (take n block) 0) by done. unfold to_be_bytes. apply steps_residue; [done|done|].
    by apply from_be_to_be.
Qed.

Lemma lor_byte x d : 0 ≤ x → is_byte d → Z.lor (Z.shiftl x 8) d = x * 256 + d.
Proof.
  unfold is_byte. intros Hx Hd. rewrite Z.shiftl_mul_pow2 by lia. change (2 ^ 8) with 256.
  symmetry. apply Z.add_nocarry_lor. apply Z.bits_inj'. intros n Hn.
  rewrite Z.land_spec, Z.bits_0. change 256 with (2 ^ 8). destruct (decide (n < 8)).
  - by rewrite Z.mul_pow2_bits_low by lia.
  - by rewrite (testbit_high 8 d), andb_false_r by lia.
Qed.

Lemma from_be_sum a b c d : is_byte a → is_byte b → is_byte c → is_byte d →
  from_be_bytes a b c d = ((a * 256 + b) * 256 + c) * 256 + d.
Proof.
  intros Ha Hb Hc Hd. unfold from_be_bytes.
  assert (∀ x, Z.shiftl x 24 = Z.shiftl (Z.shiftl x 8) 16) as -> by (intros; by rewrite Z.shiftl_shiftl).
  rewrite <-Z.shiftl_lor.
  assert (∀ x, Z.shiftl x 16 = Z.shiftl (Z.shiftl x 8) 8) as -> by (intros; by rewrite Z.shiftl_shiftl).
  rewrite <-Z.shiftl_lor.
  unfold is_byte in *. rewrite (lor_byte a) by (unfold is_byte; lia).
  rewrite (lor_byte _ c) by (unfold is_byte; lia). by rewrite lor_byte by (unfold is_byte; lia).
Qed.

Lemma from_be_inj a b c d a' b' c' d' :
  is_byte a → is_byte b → is_byte c → is_byte d →
  is_byte a' → is_byte b' → is_byte c' → is_byte d' →
  from_be_bytes a b c d = from_be_bytes a' b' c' d' → a = a' ∧ b = b' ∧ c = c' ∧ d = d'.
Proof. intros. rewrite !from_be_sum in * by done. unfold is_byte in *. lia. Qed.

(** A block [protect] fills passes [check], its payload untouched, and
    any damage to it within four bytes in a row, the CRC's own included, does
    not: two blocks that pass the check and differ only there are the same. *)
Theorem protect_check block :
  Forall is_byte block → (CRC_LEN ≤ length block)%nat →
  ∃ wire, protect block = Some wire ∧ check wire = Ok () ∧ length wire = length block ∧
    take (length block - CRC_LEN) wire = take (length block - CRC_LEN) block ∧
    ∀ before damage after good, wire = before ++ good ++ after →
      length good = 4%nat → length damage = 4%nat → Forall is_byte damage → damage ≠ good →
      check (before ++ damage ++ after) ≠ Ok ().
Proof.
  intros Hb Hl. destruct (protect_spec block Hb Hl) as (wire & Hp & Hlen & Hw & Ht & Hz).
  exists wire. split; [done|]. unfold CRC_LEN in *.
  split; [apply check_residue; [done|]; split; [lia|done]|]. split; [done|]. split; [done|].
  intros before damage after good -> Hg Hd Hdb Hne Hc. apply Hne.
  rewrite !Forall_app in Hw. destruct Hw as (Hbb & Hgb & Hab).
  apply check_residue in Hc as [_ Hc]; [|by rewrite !Forall_app].
  assert (is_u32 (foldl step1 0 before)) as Hs by by apply steps_u32.
  rewrite !foldl_app in Hz, Hc. revert Hz Hc.
  rewrite !(steps_contributions after) by (try done; by repeat apply steps_u32).
  intros Hz%Z.lxor_eq Hc%Z.lxor_eq. rewrite <-Hc in Hz.
  assert (∀ k x y, is_u32 x → is_u32 y → Nat.iter k adv x = Nat.iter k adv y → x = y) as Hinj.
  { intros k x y Hx Hy H. apply Z.lxor_eq, (adv_iter_zero k); [by apply lxor_u32|].
    by rewrite adv_iter_lxor, H, Z.lxor_nilpotent. }
  apply Hinj in Hz; [|by repeat apply steps_u32..].
  rewrite (steps_contributions good), (steps_contributions damage) in Hz by done. rewrite Hg, Hd in Hz.
  apply (f_equal (Z.lxor (Nat.iter 4 adv (foldl step1 0 before)))) in Hz.
  rewrite <-!Z.lxor_assoc, Z.lxor_nilpotent, !Z.lxor_0_l in Hz.
  destruct damage as [|a [|b [|c [|d [|]]]]], good as [|a' [|b' [|c' [|d' [|]]]]]; try done.
  rewrite !Forall_cons in Hdb, Hgb. destruct Hdb as (? & ? & ? & ? & _), Hgb as (? & ? & ? & ? & _).
  rewrite <-!adv_word in Hz by done. apply Hinj in Hz; [|by apply from_be_u32..].
  by apply from_be_inj in Hz as (-> & -> & -> & ->).
Qed.

Lemma rs_crc_is_the_shift_register_witness :
  rs_crc (all_bytes ++ [7; 255]) 0 = rs_crc [7; 255] (rs_crc all_bytes 0).
Proof.
  destruct (rs_crc_is_the_shift_register all_bytes [7; 255] 0) as (_ & _ & H & _);
    [by_decide|by_decide|split; [lia|done]|exact H].
Defined.

Lemma protect_check_witness :
  ∃ wire, protect [1; 2; 3; 4; 5; 0; 0; 0; 0] = Some wire ∧ check wire = Ok () ∧
    check ([1; 2] ++ [9; 4; 5; nth 5 wire 0] ++ drop 6 wire) ≠ Ok ().
Proof.
  destruct (protect_check [1; 2; 3; 4; 5; 0; 0; 0; 0]) as (wire & Hp & Hc & _ & _ & Hd);
    [by_decide|unfold CRC_LEN; simpl; lia|].
  exists wire. split; [done|]. split; [done|]. vm_compute in Hp. injection Hp as <-.
  apply (Hd [1; 2] _ _ [3; 4; 5; 151]); [vm_compute; reflexivity|done|done|by_decide|done].
Defined.
