(* ===== verification/LbpPage.v ===== *)
(** * The Control Data Protection page: theorems

    What setting the page changes; what an open that arms it, and the close
    that puts it back, leave behind, whatever the drive answers. *)

From S2P Require Import Prelude Lbp LbpCrc.
Local Open Scope Z_scope.
Local Open Scope rust_scope.

Definition BOTH : Z := Z.lor LBP_W LBP_R.

(** ** Setting the page *)

Lemma with_protection_is p m i bits :
  (7 ≤ length (page_bytes p))%nat → ∃ b0 b1 b2 b3 b4 b5 b6 rest,
    page_bytes p = [b0; b1; b2; b3; b4; b5; b6] ++ rest ∧
    with_protection p m i bits =
      Some (mkPage ([Z.land b0 0x7F; b1; b2; b3; m; i;
                     Z.lor (Z.land b6 (not8 BOTH)) bits] ++ rest)).
Proof.
  destruct p as [[|b0 [|b1 [|b2 [|b3 [|b4 [|b5 [|b6 rest]]]]]]]]; simpl; try lia. intros _.
  by exists b0, b1, b2, b3, b4, b5, b6, rest.
Qed.

Lemma with_protection_short p m i bits :
  (length (page_bytes p) < 7)%nat → with_protection p m i bits = None.
Proof. by destruct p as [[|b0 [|b1 [|b2 [|b3 [|b4 [|b5 [|b6 rest]]]]]]]]; simpl; try lia. Qed.

Lemma flag_bits b6 bits : is_byte b6 → Z.land bits BOTH = bits →
  Z.land (Z.lor (Z.land b6 (not8 BOTH)) bits) BOTH = bits.
Proof.
  intros Hb Hbits. rewrite Z.land_lor_distr_l, Hbits, <-Z.land_assoc.
  assert (Z.land (not8 BOTH) BOTH = 0) as -> by done. by rewrite Z.land_0_r, Z.lor_0_l.
Qed.

Lemma kept_bits b6 bits : is_byte b6 → Z.land bits BOTH = bits →
  Z.land (Z.lor (Z.land b6 (not8 BOTH)) bits) (not8 BOTH) = Z.land b6 (not8 BOTH).
Proof.
  intros Hb Hbits. rewrite Z.land_lor_distr_l, <-!Z.land_assoc, Z.land_diag.
  rewrite <-Hbits, <-Z.land_assoc. assert (Z.land BOTH (not8 BOTH) = 0) as -> by done.
  by rewrite Z.land_0_r, Z.lor_0_r.
Qed.

(** The page reads back as set. *)
Lemma with_protection_reads p m i bits q :
  Forall is_byte (page_bytes p) → Z.land bits BOTH = bits →
  with_protection p m i bits = Some q →
  method q = Some m ∧ info_len q = Some i ∧ flags q = Some bits.
Proof.
  intros Hb Hbits Hq. destruct (decide (7 ≤ length (page_bytes p))%nat) as [Hl|Hl].
  2: { by rewrite with_protection_short in Hq by lia. }
  destruct (with_protection_is p m i bits Hl) as (b0 & b1 & b2 & b3 & b4 & b5 & b6 & rest & Hp & Hw).
  rewrite Hq in Hw. injection Hw as ->. split; [done|]. split; [done|].
  unfold flags. rewrite Hp in Hb. apply Forall_app in Hb as [Hb _]. rewrite !Forall_cons in Hb.
  cbn [page_bytes lookup list_lookup app fmap option_fmap option_map]. f_equal.
  change (Z.land (Z.lor (Z.land b6 (not8 BOTH)) bits) BOTH = bits).
  apply flag_bits; tauto.
Qed.

(** ** Arming *)

(** A run's next answer, and its commands as one list. *)
Ltac steps_of := cbn beta iota delta [negb]; rewrite <-?app_assoc; cbn [app].

Section arming.
Variable drive : Drive.

(** What one of the drive's pages could not be. *)
Definition short_page (d : Drive) : Prop :=
  ∃ t page, sense_answer d t = Ok page ∧ (length (page_bytes page) < 7)%nat.

Lemma is_armed_short p : is_armed p = None → (length (page_bytes p) < 7)%nat.
Proof. unfold is_armed, flags. rewrite !fmap_None, lookup_ge_None. lia. Qed.
Lemma armed_as_short p bits : armed_as p bits = None → (length (page_bytes p) < 7)%nat.
Proof. by destruct p as [[|b0 [|b1 [|b2 [|b3 [|b4 [|b5 [|b6 rest]]]]]]]]; simpl; try lia;
  unfold armed_as; simpl; repeat case_bool_decide. Qed.
Lemma reason_short p : reason_did_not_take p = None → (length (page_bytes p) < 7)%nat.
Proof. by destruct p as [[|b0 [|b1 [|b2 [|b3 [|b4 [|b5 [|b6 rest]]]]]]]]; simpl; try lia. Qed.
Lemma with_protection_None p m i bits :
  with_protection p m i bits = None → (length (page_bytes p) < 7)%nat.
Proof.
  intros H. destruct (decide (7 ≤ length (page_bytes p))%nat) as [Hl|]; [|lia].
  by destruct (with_protection_is p m i bits Hl) as (? & ? & ? & ? & ? & ? & ? & ? & _ & ?);
    simplify_eq.
Qed.
Lemma restore_page_None a : restore_page a = None → (length (page_bytes (found a)) < 7)%nat.
Proof. unfold restore_page. destruct (leftover a); [|done]. apply with_protection_None. Qed.

(** What the last page selected, and the last block size set, of some commands is. *)
Definition selected (steps : list Command) : option ProtectionPage :=
  foldl (λ s c, match c with Select p => Some p | _ => s end) None steps.
Definition block_size (steps : list Command) : option Z :=
  foldl (λ s c, match c with SetBlockSize n => Some n | _ => s end) None steps.

(** What an open that failed to arm leaves: nothing was changed, or the
    page to restore was the last selected, and the block size is the payload's
    again if it was touched. *)
Definition put_back (payload : Z) (found : ProtectionPage) (lo : bool) (steps : list Command) : Prop :=
  ∃ page, restore_page (mkArmed found lo 0) = Some page ∧ selected steps = Some page ∧
    (block_size steps = None ∨ block_size steps = Some payload).

Lemma not_armed_spec {A} bits payload found lo reason p t steps :
  match (not_armed (A := A) drive (mkArmed found lo bits) reason p (t ++ steps)) with
  | (Ok _, _) => False
  | (Err Panic, _) => (length (page_bytes found) < 7)%nat
  | (Err (Failed na), t') =>
      na = mkNotArmed reason lo ∧ ∃ more, t' = t ++ steps ++ more ∧
        (p = Some payload ∨ (p = None ∧ block_size steps = None) →
         put_back payload found lo (steps ++ more))
  end.
Proof.
  unfold not_armed. unfold mbind, session_bind at 1.   destruct (restore_page (mkArmed found lo bits)) as [page|] eqn:Hr; cbn.
  2: { by apply (restore_page_None (mkArmed found lo bits)). }
  assert (restore_page (mkArmed found lo 0) = Some page) as Hr' by done.
  destruct p as [p|]; cbn; split; try done.
  - exists [Select page; SetBlockSize p]. split; [by rewrite <-!app_assoc|].
    intros [[= ->]|[? _]]; [|done]. exists page. split; [done|].
    unfold selected, block_size. rewrite !foldl_app. simpl. split; [done|by right].
  - exists [Select page]. split; [by rewrite <-!app_assoc|].
    intros [?|[_ Hb]]; [done|]. exists page. split; [done|].
    unfold selected, block_size in *. rewrite !foldl_app. simpl. split; [done|by left].
Qed.

(** An open that armed: the commands it sent and what the drive answered. *)
Record armed_open (bits payload : Z) (t : list Command) (a : Armed) (steps : list Command) : Prop := {
  ao_found : sense_answer drive (t ++ [Sense]) = Ok (found a);
  ao_leftover : is_armed (found a) = Some (leftover a);
  ao_bits : armed_bits a = bits;
  ao_steps : ∃ want now,
    steps = [Sense; Select want; Sense; SetBlockSize (payload +w Z.of_nat CRC_LEN);
             Probe (payload +w Z.of_nat CRC_LEN)] ∧
    with_protection (found a) METHOD_RS RS_INFO_LEN bits = Some want ∧
    sense_answer drive (t ++ [Sense; Select want; Sense]) = Ok now ∧ armed_as now bits = Some true ∧
    ∀ e, probe_answer drive (t ++ steps) = Err e → probe_not_issued e = false;
}.

Lemma arm_lemma bits payload t :
  match arm drive bits payload t with
  | (Ok a, t') => ∃ steps, t' = t ++ steps ∧ armed_open bits payload t a steps
  | (Err Panic, _) => short_page drive
  | (Err (Failed na), t') => ∃ steps, t' = t ++ steps ∧
      ((steps = [Sense] ∧ na_leftover na = false) ∨
       ∃ page, sense_answer drive (t ++ [Sense]) = Ok page ∧
         is_armed page = Some (na_leftover na) ∧ put_back payload page (na_leftover na) steps)
  end.
Proof.
  unfold arm. unfold mbind, session_bind, sense, select, set_block_size, probe, fail, no_panic, mret,
    session_ret.
  destruct (sense_answer drive (t ++ [Sense])) as [page|e] eqn:Hs; [|by exists [Sense]; split; [|left]].
  assert (∀ p, sense_answer drive p = Ok page → (length (page_bytes page) < 7)%nat → short_page drive)
    as Hsh by (intros p ? ?; by exists p, page).
  destruct (is_armed page) as [lo|] eqn:Hlo; [|eapply Hsh; [done|by apply is_armed_short]].
  destruct (with_protection page METHOD_RS RS_INFO_LEN bits) as [want|] eqn:Hw;
    [|eapply Hsh; [done|by eapply with_protection_None]].
  assert (∀ reason p steps A, (p = Some payload ∨ (p = None ∧ block_size steps = None)) →
    match not_armed (A := A) drive (mkArmed page lo bits) reason p (t ++ steps) with
    | (Ok _, _) => False
    | (Err Panic, _) => short_page drive
    | (Err (Failed na), t') => ∃ steps', t' = t ++ steps' ∧
        ((steps' = [Sense] ∧ na_leftover na = false) ∨
         ∃ page', Ok (E := PageError) page = Ok page' ∧
           is_armed page' = Some (na_leftover na) ∧ put_back payload page' (na_leftover na) steps')
    end) as Hout.
  { intros reason p steps A Hp.
    pose proof (not_armed_spec (A := A) bits payload page lo reason p t steps) as Hn.
    destruct (not_armed _ _ _ _ _) as [[|[|na]] t']; [done|by eapply Hsh|].
    destruct Hn as (-> & more & -> & Hn). exists (steps ++ more). split; [done|]. right.
    exists page. split; [done|]. split; [done|]. by apply Hn. }
  steps_of.
  destruct (select_answer drive _) as [[]|e]; steps_of.
  2: { specialize (Hout (ReasonSelect e) None [Sense; Select want] Armed ltac:(by right)).
       destruct (not_armed _ _ _ _ _) as [[|[|na]] t']; done. }
  destruct (sense_answer drive (t ++ [Sense; Select want; Sense])) as [now|e] eqn:Hs2; steps_of.
  2: { specialize (Hout (ReasonSense e) None [Sense; Select want; Sense] Armed ltac:(by right)).
       destruct (not_armed _ _ _ _ _) as [[|[|na]] t']; done. }
  destruct (armed_as now bits) as [took|] eqn:Ht; steps_of.
  2: { eexists _, now. split; [done|]. by eapply armed_as_short. }
  destruct took; steps_of.
  2: { destruct (reason_did_not_take now) as [reason|] eqn:Hr; steps_of.
       2: { eexists _, now. split; [done|]. by apply reason_short. }
       specialize (Hout reason None [Sense; Select want; Sense] Armed ltac:(by right)).
       destruct (not_armed _ _ _ _ _) as [[|[|na]] t']; done. }
  set (wire := payload +w Z.of_nat CRC_LEN).
  destruct (set_answer drive _) as [[]|e]; steps_of.
  2: { specialize (Hout (ReasonBlockSize wire e) (Some payload)
         [Sense; Select want; Sense; SetBlockSize wire] Armed ltac:(by left)).
       destruct (not_armed _ _ _ _ _) as [[|[|na]] t']; done. }
  set (steps := [Sense; Select want; Sense; SetBlockSize wire; Probe wire]).
  assert (∀ t', t' = t ++ steps →
    (∀ e, probe_answer drive (t ++ steps) = Err e → probe_not_issued e = false) →
    ∃ steps, t' = t ++ steps ∧ armed_open bits payload t (mkArmed page lo bits) steps) as Hok.
  { intros t' -> Hp. exists steps. split; [done|]. split; [done|done|done|].
    exists want, now. split; [done|]. split; [done|]. split; [done|]. split; [done|done]. }
  destruct (probe_answer drive (t ++ steps)) as [n|[n|]] eqn:Hp; steps_of.
  - by apply Hok.
  - destruct (probe_not_issued (Some n)) eqn:Hi; steps_of.
    + specialize (Hout (ReasonCannotCarry wire n) (Some payload) steps Armed ltac:(by left)).
      destruct (not_armed _ _ _ _ _) as [[|[|na]] t']; done.
    + apply Hok; [done|]. by intros e [= <-].
  - apply Hok; [done|]. by intros e [= <-].
Qed.
End arming.

(** An open that arms the page has seen it read back as asked, the block
    size set and the probe carried, after exactly those commands; one that
    fails after changing anything has put the page back as found, or
    cleared it when it was a leftover, as the last page it selected, and the
    payload's block size if it touched it; and it panics only on a page shorter than its flags. *)
Theorem arm_spec drive bits payload t :
  match arm drive bits payload t with
  | (Ok a, t') => ∃ steps, t' = t ++ steps ∧ armed_open drive bits payload t a steps
  | (Err Panic, _) => short_page drive
  | (Err (Failed na), t') => ∃ steps, t' = t ++ steps ∧
      ((steps = [Sense] ∧ na_leftover na = false) ∨
       ∃ page, sense_answer drive (t ++ [Sense]) = Ok page ∧
         is_armed page = Some (na_leftover na) ∧ put_back payload page (na_leftover na) steps)
  end.
Proof. apply arm_lemma. Qed.

(** ** Putting the page back *)

Lemma restore_page_off a page :
  is_armed (found a) = Some (leftover a) → Forall is_byte (page_bytes (found a)) →
  restore_page a = Some page → flags page = Some 0.
Proof.
  unfold restore_page. destruct (leftover a); intros Ha Hb Hr.
  - by apply (with_protection_reads _ 0 0 0) in Hr as (_ & _ & ?).
  - injection Hr as <-. unfold is_armed in Ha. destruct (flags (found a)) as [f|]; [|done].
    injection Ha as Ha. apply bool_decide_eq_false in Ha. f_equal. by destruct (decide (f = 0)).
Qed.

(** A close that succeeds leaves the page, as the drive reports it, with both
    checks off and the method it was found with (a leftover's: none). *)
Theorem disarm_spec drive a t t' :
  is_armed (found a) = Some (leftover a) → Forall is_byte (page_bytes (found a)) →
  disarm drive a t = (Ok (), t') →
  ∃ page back, restore_page a = Some page ∧ t' = t ++ [Select page; Sense] ∧
    sense_answer drive t' = Ok back ∧ flags back = Some 0 ∧ method back = method page.
Proof.
  intros Ha Hb. unfold disarm. unfold mbind, session_bind, sense, select, no_panic, fail, mret, session_ret.
  destruct (restore_page a) as [page|] eqn:Hr; steps_of; [|done].
  pose proof (restore_page_off a page Ha Hb Hr) as Hoff.
  destruct (select_answer drive _) as [[]|e]; steps_of; [|done].
  destruct (sense_answer drive _) as [back|e] eqn:Hs; steps_of; [|done].
  destruct (flags back) as [bf|] eqn:Hbf; steps_of; [|done]. rewrite Hoff. steps_of.
  destruct (method back) as [bm|] eqn:Hbm; steps_of; [|done].
  destruct (method page) as [rm|] eqn:Hrm; steps_of; [|done].
  destruct (bool_decide _ || _) eqn:Hc; steps_of.
  { by destruct (reason_did_not_take back). }
  intros [= <-]. apply orb_false_iff in Hc as [H1%bool_decide_eq_false H2%bool_decide_eq_false].
  exists page, back. split; [done|]. split; [done|]. split; [done|].
  rewrite Hbf, Hbm, Hrm. split; f_equal; lia.
Qed.

(** [rearm] leaves a page alone whose select the drive refused: it sends
    nothing after it, not even to put back what was there. *)
Theorem rearm_select_refused drive a bits t now want e :
  sense_answer drive (t ++ [Sense]) = Ok now →
  with_protection now METHOD_RS RS_INFO_LEN bits = Some want →
  select_answer drive (t ++ [Sense; Select want]) = Err e →
  rearm drive a bits t = (Err (Failed (ReasonSelect e)), t ++ [Sense; Select want]).
Proof.
  intros Hs Hw He. unfold rearm.
  unfold mbind, session_bind, sense, select, no_panic, fail, mret, session_ret.
  rewrite Hs, Hw. steps_of. by rewrite He.
Qed.

(** ** The page's own length *)

(** A page the parser accepts can be read, and set, exactly when the
    length it declares holds the flags; on one that declares less, of any length, reading the flags
    is an index out of bounds. *)
Theorem page_flags_defined page q :
  from_page_bytes page = Ok q → Forall is_byte page →
  (is_Some (flags q) ↔ 3 ≤ nth 2 page 0 * 256 + nth 3 page 0) ∧
  (is_Some (with_protection q METHOD_RS RS_INFO_LEN BOTH) ↔ is_Some (flags q)).
Proof.
  destruct page as [|p0 [|p1 [|p2 [|p3 [|p4 [|p5 [|p6 [|p7 rest]]]]]]]]; try done.
  cbn [from_page_bytes]. intros H Hb. destruct (bool_decide _ || _); [done|].
  rewrite !Forall_cons in Hb. destruct Hb as (_ & _ & H2 & H3 & _).
  assert (length (page_bytes q) = Z.to_nat (Z.min (p2 * 256 + p3 + 4)
    (Z.of_nat (length (p0 :: p1 :: p2 :: p3 :: p4 :: p5 :: p6 :: p7 :: rest))))) as Hl.
  { injection H as <-. cbn [page_bytes]. rewrite length_take, lor_byte by (done || apply H2). simpl length. lia. }
  simpl length in Hl. unfold is_byte in H2, H3. cbn [nth].
  assert (is_Some (flags q) ↔ (7 ≤ length (page_bytes q))%nat) as Hf.
  { unfold flags. rewrite fmap_is_Some, lookup_lt_is_Some. lia. }
  split; [rewrite Hf; lia|]. rewrite Hf. split.
  - intros [w Hw]. destruct (decide (7 ≤ length (page_bytes q))%nat); [done|].
    by rewrite with_protection_short in Hw by lia.
  - intros Hq. destruct (with_protection_is q METHOD_RS RS_INFO_LEN BOTH Hq)
      as (? & ? & ? & ? & ? & ? & ? & ? & _ & ->). by eexists.
Qed.

(** Setting the page changes the method, the length, the two flags and
    the PS bit, and nothing else: it reads back as asked and every other byte, and the rest
    of the flags' byte, are the drive's. *)
Theorem with_protection_spec p m i bits q :
  Forall is_byte (page_bytes p) → Z.land bits BOTH = bits →
  with_protection p m i bits = Some q →
  method q = Some m ∧ info_len q = Some i ∧ flags q = Some bits ∧
  length (page_bytes q) = length (page_bytes p) ∧
  page_bytes q !! 0%nat = (λ b, Z.land b 0x7F) <$> page_bytes p !! 0%nat ∧
  (λ b, Z.land b (not8 BOTH)) <$> page_bytes q !! 6%nat =
    (λ b, Z.land b (not8 BOTH)) <$> page_bytes p !! 6%nat ∧
  ∀ k, k ∉ [0; 4; 5; 6]%nat → page_bytes q !! k = page_bytes p !! k.
Proof.
  intros Hb Hbits Hq. destruct (with_protection_reads _ _ _ _ _ Hb Hbits Hq) as (H1 & H2 & H3).
  split; [done|]. split; [done|]. split; [done|].
  destruct (decide (7 ≤ length (page_bytes p))%nat) as [Hl|Hl].
  2: { by rewrite with_protection_short in Hq by lia. }
  destruct (with_protection_is p m i bits Hl) as (b0 & b1 & b2 & b3 & b4 & b5 & b6 & rest & Hp & Hw).
  rewrite Hq in Hw. injection Hw as ->. cbn [page_bytes]. rewrite Hp in Hb |- *.
  split; [done|]. split; [done|]. split.
  - cbn. f_equal. apply Forall_app in Hb as [Hb _]. rewrite !Forall_cons in Hb.
    apply kept_bits; tauto.
  - intros k Hk. rewrite !elem_of_cons in Hk.
    do 7 (destruct k as [|k]; [try done; exfalso; apply Hk; tauto|]). done.
Qed.

(** ** Samples: an HP page, and a drive that keeps the page it is sent *)

Definition hp_page : ProtectionPage := mkPage [0x8A; 0xF0; 0; 6; 0; 0; 0x10; 0; 0; 0].
Definition obliging : Drive :=
  mkDrive (λ t, Ok (default hp_page (selected t))) (λ _, Ok ()) (λ _, Ok ()) (λ _, Ok 0).
Definition refusing : Drive :=
  mkDrive (λ t, Ok hp_page) (λ _, Err (IllegalRequest "refused")) (λ _, Ok ()) (λ _, Ok 0).

Example obliging_arms :
  arm obliging BOTH 524288 [] =
    (Ok (mkArmed hp_page false BOTH),
     [Sense; Select (mkPage [0x0A; 0xF0; 0; 6; 1; 4; 0xD0; 0; 0; 0]); Sense;
      SetBlockSize 524292; Probe 524292]).
Proof. by vm_compute. Qed.

Lemma disarm_spec_witness :
  ∃ page back, restore_page (mkArmed hp_page false BOTH) = Some page ∧
    [Select hp_page; Sense] = [] ++ [Select page; Sense] ∧
    sense_answer obliging [Select hp_page; Sense] = Ok back ∧
    flags back = Some 0 ∧ method back = method page.
Proof.
  apply (disarm_spec obliging (mkArmed hp_page false BOTH) []);
    [vm_compute; reflexivity|by_decide|vm_compute; reflexivity].
Defined.

Lemma rearm_select_refused_witness :
  rearm refusing (mkArmed hp_page false LBP_W) BOTH [] =
    (Err (Failed (ReasonSelect (IllegalRequest "refused"))),
     [Sense; Select (mkPage [0x0A; 0xF0; 0; 6; 1; 4; 0xD0; 0; 0; 0])]).
Proof.
  apply (rearm_select_refused refusing (mkArmed hp_page false LBP_W) BOTH [] hp_page);
    vm_compute; reflexivity.
Defined.

Lemma page_flags_defined_witness :
  (is_Some (flags (mkPage [0x0A; 0xF0; 0; 2; 0; 0])) ↔ 3 ≤ 0 * 256 + 2) ∧
  (is_Some (with_protection (mkPage [0x0A; 0xF0; 0; 2; 0; 0]) METHOD_RS RS_INFO_LEN BOTH) ↔
   is_Some (flags (mkPage [0x0A; 0xF0; 0; 2; 0; 0]))).
Proof.
  apply (page_flags_defined [0x0A; 0xF0; 0; 2; 0; 0; 0; 0]); [vm_compute; reflexivity|by_decide].
Defined.

Lemma with_protection_spec_witness :
  method (mkPage [0x0A; 0xF0; 0; 6; 1; 4; 0xD0; 0; 0; 0]) = Some METHOD_RS.
Proof.
  destruct (with_protection_spec hp_page METHOD_RS RS_INFO_LEN BOTH
    (mkPage [0x0A; 0xF0; 0; 6; 1; 4; 0xD0; 0; 0; 0])) as [H _];
    [by_decide|vm_compute; reflexivity|vm_compute; reflexivity|exact H].
Defined.
