(* ===== verification/Chunks.v ===== *)
(** * An age file's payload, chunk by chunk: [src/crypto/chunks.rs]

    Opening an age file so that each 64 KiB chunk is authenticated alone, and
    reading its chunks one after the other. The age crate, HKDF and the AEAD
    are parameters ([AgeCrate]); the scratch buffer's stale bytes and the
    wiping of keys are not modelled. *)

From S2P Require Import Prelude Slice SliceHeader.
Local Open Scope Z_scope.
Local Open Scope rust_scope.

Definition CHUNK : Z := 64 * 1024.
Definition TAG : Z := 16.
Definition ENCRYPTED_CHUNK : Z := CHUNK + TAG.
Definition PAYLOAD_NONCE : Z := 16.

(** ** What the age crate does

    Code that reads from an [impl Read] it is handed is a program of reads. *)
Inductive ReadProg (A : Type) : Type :=
| Finish (a : A)
| Ask (max : nat) (k : ReadEvent → ReadProg A).
Arguments Finish {A} _.
Arguments Ask {A} _ _.

Class AgeCrate : Type := {
  Identity : Type;
  Stanza : Type;
  Decryptor : Type;
  (** [x25519::Identity::unwrap_stanza] and [unwrap_stanzas]: the file key. *)
  unwrap_stanza : Identity → Stanza → option (result string (list Z));
  unwrap_stanzas : Identity → list Stanza → option (result string (list Z));
  (** [Decryptor::new]: reads the header. *)
  decryptor_new : ReadProg (result string Decryptor);
  (** The stanzas of the header read. *)
  stanzas_of : Decryptor → list Stanza;
  (** [Decryptor::decrypt], given what the identity said to the stanzas:
      checks the MAC and reads the payload nonce. *)
  decryptor_decrypt :
    Decryptor → option (result string (list Z)) → ReadProg (result string unit);
  (** [hkdf(salt, info, ikm)]. *)
  hkdf : list Z → string → list Z → list Z;
  (** ChaCha20-Poly1305: [decrypt_in_place] under a key and a nonce. *)
  aead_open : list Z → list Z → list Z → option (list Z);
}.

(** ** The tap: counts and records the bytes read through it *)

Record Tap : Type := mkTap {
  inner : list ReadEvent;
  seen : list Z;
  count : Z;
  recording : bool;
}.

Definition tap_read (max : nat) (t : Tap) : ReadEvent * Tap :=
  let '(e, r) := read max (inner t) in
  match e with
  | Bytes l =>
      (e, mkTap r (if recording t then seen t ++ l else seen t)
            (count t +w Z.of_nat (length l)) (recording t))
  | _ => (e, mkTap r (seen t) (count t) (recording t))
  end.

(** A program of reads, run through the tap. *)
Fixpoint run_tap {A} (p : ReadProg A) (t : Tap) : A * Tap :=
  match p with
  | Finish a => (a, t)
  | Ask max k => let '(e, t) := tap_read max t in run_tap (k e) t
  end.

(** [iter.find_map(f)]. *)
Fixpoint find_map {A B} (f : A → option B) (l : list A) : option B :=
  match l with
  | [] => None
  | x :: l => match f x with Some y => Some y | None => find_map f l end
  end.

Inductive AgeError : Type :=
| EDecryptor (message : string)
| EDecrypt (message : string)
| ENoFileKey
| EHeaderTooShort
| EShorterThanHeader (encrypted_len count : Z)
| EEndsInFirstChunk (payload : Z)
| EEndsInLastTag.

(** What reading one chunk gave. *)
Inductive Next : Type :=
| Authentic
| Damaged (plain_len : Z)
| End.

(** An age file opened for chunk-by-chunk reading. *)
Record ChunkReader : Type := mkChunkReader {
  src : list ReadEvent;
  aead : list Z;   (* the payload key *)
  header : list Z;
  index : Z;
  chunks : Z;
  last_len : Z;
}.

(** The big-endian bytes of an integer, [n] of them. *)
Fixpoint be_bytes (n : nat) (z : Z) : list Z :=
  match n with
  | O => []
  | S n => be_bytes n (z / 256) ++ [z mod 256]
  end.

(** [while got < want { src.read(&mut scratch[got..want]) }]: the bytes got,
    and what is left of the source. *)
Fixpoint fill (want : nat) (r : list ReadEvent) :
    result string (list Z) * list ReadEvent :=
  match want with
  | O => (Ok [], r)
  | _ =>
      match r with
      | [] => (Ok [], [])
      | Bytes [] :: r => (Ok [], r)
      | Bytes l :: r =>
          if bool_decide (length l < want)%nat then
            let '(got, r) := fill (want - length l) r in (app l <$> got, r)
          else (Ok (take want l), unread (drop want l) r)
      | Eintr :: r => fill want r
      | Fault m :: r => (Err m, r)
      end
  end.

Section chunks.
Context `{AC : !AgeCrate}.

(** [KeyGrab::note]: the file key is noted as it passes. *)
Definition note (unwrapped : result string (list Z)) (key : option (list Z)) :
    option (list Z) :=
  match unwrapped with Ok k => Some k | Err _ => key end.

(** [KeyGrab::unwrap_stanza] and [unwrap_stanzas]: the identities in turn. *)
Definition grab_unwrap_stanza (identities : list Identity) (s : Stanza)
    (key : option (list Z)) : option (result string (list Z)) * option (list Z) :=
  match find_map (λ id, unwrap_stanza id s) identities with
  | Some r => (Some r, note r key)
  | None => (None, key)
  end.

Definition grab_unwrap_stanzas (identities : list Identity) (ss : list Stanza)
    (key : option (list Z)) : option (result string (list Z)) * option (list Z) :=
  match find_map (λ id, unwrap_stanzas id ss) identities with
  | Some r => (Some r, note r key)
  | None => (None, key)
  end.

(** [chunks::open], for a source of [encrypted_len] bytes in all. *)
Definition open (source : list ReadEvent) (identities : list Identity)
    (encrypted_len : Z) : result AgeError ChunkReader :=
  let '(decryptor, tap) := run_tap decryptor_new (mkTap source [] 0 true) in
  decryptor ← map_err EDecryptor decryptor;
  let '(said, key) := grab_unwrap_stanzas identities (stanzas_of decryptor) None in
  let '(opened, tap) := run_tap (decryptor_decrypt decryptor said) tap in
  map_err EDecrypt opened;;
  file_key ← ok_or key ENoFileKey;
  nonce_at ← ok_or (checked_sub64 (Z.of_nat (length (seen tap))) PAYLOAD_NONCE) EHeaderTooShort;
  let payload_key := hkdf (drop (Z.to_nat nonce_at) (seen tap)) "payload" file_key in
  payload ← ok_or (checked_sub64 encrypted_len (count tap))
              (EShorterThanHeader encrypted_len (count tap));
  guard_err (bool_decide (payload < TAG)) (EEndsInFirstChunk payload);;
  let chunks := div_ceil payload ENCRYPTED_CHUNK in
  let last_len := payload -w mul64 (chunks -w 1) ENCRYPTED_CHUNK in
  guard_err (bool_decide (last_len < TAG)) EEndsInLastTag;;
  Ok (mkChunkReader (inner tap) payload_key (seen tap) 0 chunks last_len).

(** [ChunkReader::plain_len] and [plain_len_from]. *)
Definition plain_len (c : ChunkReader) : Z :=
  mul64 (chunks c -w 1) CHUNK +w (last_len c -w TAG).

Definition plain_len_from (c : ChunkReader) (i : Z) : Z :=
  if bool_decide (chunks c ≤ i) then 0 else plain_len c -w mul64 i CHUNK.

(** The nonce of a chunk: its index in 11 big-endian bytes (the first three
    zero) and the last-chunk byte. *)
Definition nonce (i : Z) (last : bool) : list Z :=
  [0; 0; 0] ++ be_bytes 8 i ++ [if last then 1 else 0].

(** [ChunkReader::next]: the outcome, the buffer, the reader after it. *)
Definition next (c : ChunkReader) : result string Next * list Z * ChunkReader :=
  if bool_decide (chunks c ≤ index c) then (Ok End, [], c)
  else
    let last := bool_decide (index c +w 1 = chunks c) in
    let want := if last then last_len c else ENCRYPTED_CHUNK in
    let plain_len := want -w TAG in
    let i := index c in
    let '(got, r) := fill (Z.to_nat want) (src c) in
    match got with
    | Err e =>
        (Err e, [], mkChunkReader r (aead c) (header c) i (chunks c) (last_len c))
    | Ok got =>
        let c := mkChunkReader r (aead c) (header c) (i +w 1) (chunks c) (last_len c) in
        if bool_decide (Z.of_nat (length got) < want) then (Ok (Damaged plain_len), [], c)
        else
          match aead_open (aead c) (nonce i last) got with
          | Some out =>
              if bool_decide (out = [] ∧ 0 < i) then (Ok (Damaged plain_len), [], c)
              else (Ok Authentic, out, c)
          | None => (Ok (Damaged plain_len), [], c)
          end
    end.

(** The loop every caller runs: [next] until it says [End] (or fails), with
    what each call gave. *)
Fixpoint drain (fuel : nat) (c : ChunkReader) :
    list (Next * list Z) * option (result string unit) * ChunkReader :=
  match fuel with
  | O => ([], None, c)
  | S fuel =>
      match next c with
      | (Ok End, _, c) => ([], Some (Ok ()), c)
      | (Err e, _, c) => ([], Some (Err e), c)
      | (Ok n, out, c) =>
          let '(l, ended, c) := drain fuel c in ((n, out) :: l, ended, c)
      end
  end.
End chunks.

(** ** Sources *)

(** The bytes of every answer a source will give. *)
Definition content (r : list ReadEvent) : list Z :=
  mjoin ((λ e, match e with Bytes l => l | _ => [] end) <$> r).

(** A source that says it has ended only when it has: no empty answer before
    its last. *)
Definition gapless (r : list ReadEvent) : Prop := Bytes [] ∉ r.

Lemma gapless_cons e r : gapless (e :: r) ↔ e ≠ Bytes [] ∧ gapless r.
Proof. unfold gapless. rewrite not_elem_of_cons. split; intros [? ?]; done. Qed.

Lemma gapless_unread l r : gapless r → gapless (unread l r).
Proof. destruct l; [done|]. intros. by apply gapless_cons. Qed.

Lemma gapless_from_slice l : gapless (from_slice l).
Proof. apply gapless_unread. unfold gapless. apply not_elem_of_nil. Qed.

(** A pipe: gapless, and it never fails. *)
Definition steady (r : list ReadEvent) : Prop :=
  Forall (λ e, e ≠ Bytes [] ∧ ∀ m, e ≠ Fault m) r.

Lemma steady_unread l r : steady r → steady (unread l r).
Proof. destruct l; [done|]. intros. by constructor. Qed.

Lemma steady_from_slice l : steady (from_slice l).
Proof. apply steady_unread. constructor. Qed.

Lemma steady_gapless r : steady r → gapless r ∧ fault r = None.
Proof.
  unfold gapless. induction 1 as [|e r [He Hf] _ [IH1 IH2]]; [by split; [apply not_elem_of_nil|]|].
  split; [by rewrite not_elem_of_cons|]. destruct e as [[|b l]| |m]; try done. by destruct (Hf m).
Qed.

Lemma content_unread l r : content (unread l r) = l ++ content r.
Proof. by destruct l. Qed.

Lemma fill_enough want r :
  gapless r → (want ≤ length (flat r))%nat →
  ∃ r', fill want r = (Ok (take want (flat r)), r') ∧ flat r' = drop want (flat r) ∧
    fault r' = fault r ∧ gapless r'.
Proof.
  revert want. induction r as [|e r IH]; intros want Hg Hw.
  { destruct want; [|simpl in Hw; lia]. by exists []. }
  destruct want as [|want]; [by exists (e :: r)|].
  apply gapless_cons in Hg as [He Hg]. destruct e as [[|b l]| |m]; [done| |..].
  - cbn [flat fault fill] in *. case_bool_decide as Hl.
    + rewrite length_cons, length_app in Hw.
      destruct (IH (S want - length (b :: l))%nat Hg) as (r' & -> & Hf & Hr & Hg');
        [simpl length in *; lia|].
      exists r'. split.
      * cbn [fmap result_fmap]. do 2 f_equal. change (b :: l ++ flat r) with ((b :: l) ++ flat r).
        rewrite take_app_ge by lia. done.
      * split; [|done]. change (b :: l ++ flat r) with ((b :: l) ++ flat r).
        rewrite drop_app_ge by lia. done.
    + exists (unread (drop (S want) (b :: l)) r). split.
      * do 2 f_equal. change (b :: l ++ flat r) with ((b :: l) ++ flat r).
        by rewrite take_app_le by lia.
      * rewrite flat_unread, fault_unread. split; [|split; [done|by apply gapless_unread]].
        change (b :: l ++ flat r) with ((b :: l) ++ flat r). by rewrite drop_app_le by lia.
  - apply (IH (S want)); done.
  - simpl in Hw. lia.
Qed.

Lemma fill_short want r :
  gapless r → (length (flat r) < want)%nat →
  match fault r with
  | None => fill want r = (Ok (flat r), [])
  | Some m => (fill want r).1 = Err m
  end.
Proof.
  revert want. induction r as [|e r IH]; intros want Hg Hw.
  { destruct want; [simpl in Hw; lia|done]. }
  destruct want as [|want]; [lia|].
  apply gapless_cons in Hg as [He Hg]. destruct e as [[|b l]| |m]; [done| |..]; [| |done].
  - cbn [flat fault fill] in *. rewrite length_cons, length_app in Hw.
    rewrite bool_decide_true by (simpl length in *; lia).
    specialize (IH (S want - length (b :: l))%nat Hg ltac:(simpl length in *; lia)).
    destruct (fault r).
    + destruct (fill _ r) as [got r']. simpl in IH. by rewrite IH.
    + by rewrite IH.
  - apply (IH (S want)); done.
Qed.

(** ** Opening *)

Section open.
Context `{AC : !AgeCrate}.

Lemma read_content max r e r' :
  read max r = (e, r') →
  content r = match e with Bytes l => l | _ => [] end ++ content r' ∧
  (steady r → steady r').
Proof.
  destruct r as [|[l| |m] r]; simpl; intros [= <- <-].
  - done.
  - rewrite content_unread. split; [|by intros [_ ?]%Forall_cons; apply steady_unread].
    change (content (Bytes l :: r)) with (l ++ content r). by rewrite app_assoc, take_drop.
  - split; [done|]. by intros [_ ?]%Forall_cons.
  - split; [done|]. by intros [_ ?]%Forall_cons.
Qed.

(** What the tap records is what was read through it. *)
Definition tapped (source : list ReadEvent) (t : Tap) : Prop :=
  recording t = true ∧ content source = seen t ++ content (inner t) ∧
  count t = wrap64 (Z.of_nat (length (seen t))) ∧ (steady source → steady (inner t)).

Lemma tap_read_tapped source max t e t' :
  tapped source t → tap_read max t = (e, t') → tapped source t'.
Proof.
  intros (Hr & Hc & Hn & Hg) H. unfold tap_read in H.
  destruct (read max (inner t)) as [e' r] eqn:Hread.
  apply read_content in Hread as [Hcr Hgr]. rewrite Hcr in Hc.
  destruct e'; simplify_eq; (split; [done|]); cbn [seen inner count].
  - rewrite Hr, <-app_assoc. split; [done|]. split; [|auto].
    rewrite Hn, length_app, Nat2Z.inj_add. unfold add64, wrap64. by rewrite Zplus_mod_idemp_l.
  - auto.
  - auto.
Qed.

Lemma run_tap_tapped {A} source (p : ReadProg A) t a t' :
  tapped source t → run_tap p t = (a, t') → tapped source t'.
Proof.
  revert t. induction p as [|max k IH]; intros t Ht H; simpl in H; [by simplify_eq|].
  destruct (tap_read max t) as [e t1] eqn:Hr. eapply IH; [|done]. by eapply tap_read_tapped.
Qed.

(** A reader as [open] leaves it, and as [next] keeps it. *)
Record reader_ok (c : ChunkReader) : Prop := {
  ro_index : 0 ≤ index c ≤ chunks c;
  ro_chunks : 1 ≤ chunks c;
  ro_last : TAG ≤ last_len c ≤ ENCRYPTED_CHUNK;
  ro_width : (chunks c - 1) * ENCRYPTED_CHUNK + last_len c ≤ u64_max;
}.

Lemma plain_len_exact c :
  reader_ok c → plain_len c = (chunks c - 1) * CHUNK + (last_len c - TAG) ∧
    (∀ i, 0 ≤ i ≤ chunks c → plain_len_from c i = if bool_decide (chunks c = i) then 0 else plain_len c - i * CHUNK).
Proof.
  intros [Hi Hc Hl Hw]. unfold plain_len_from, plain_len. unfold CHUNK, ENCRYPTED_CHUNK, TAG in *.
  unfold add64, sub64, mul64, CHUNK, TAG in *.
  assert (∀ z, 0 ≤ z ≤ u64_max → wrap64 z = z) as Hx by apply wrap64_small.
  unfold CHUNK in *. rewrite (Hx (chunks c - 1)) by (unfold_width; lia).
  rewrite (Hx ((chunks c - 1) * _)) by (unfold_width; lia).
  rewrite (Hx (last_len c - 16)) by (unfold_width; lia).
  rewrite (Hx (_ + _)) by (unfold_width; lia). split; [done|]. intros i Hii.
  destruct (decide (chunks c = i)).
  - by rewrite !bool_decide_true by lia.
  - rewrite !bool_decide_false by lia. rewrite (Hx (i * _)) by (unfold_width; lia).
    apply Hx. unfold_width. lia.
Qed.

Lemma open_ok source identities len c :
  Z.of_nat (length (content source)) ≤ u64_max → is_u64 len →
  open source identities len = Ok c →
  reader_ok c ∧ index c = 0 ∧
  content source = header c ++ content (src c) ∧ (steady source → steady (src c)) ∧
  PAYLOAD_NONCE ≤ Z.of_nat (length (header c)) ∧
  len = Z.of_nat (length (header c)) + (chunks c - 1) * ENCRYPTED_CHUNK + last_len c.
Proof.
  intros Hsrc Hlen H. unfold open in H.
  destruct (run_tap decryptor_new _) as [d t1] eqn:H1.
  assert (tapped source t1) as Ht1 by (eapply run_tap_tapped; [|exact H1]; done).
  apply bind_ok in H as (d' & _ & H).
  destruct (grab_unwrap_stanzas _ _ _) as [said key].
  destruct (run_tap (decryptor_decrypt d' said) t1) as [op t2] eqn:H2.
  assert (tapped source t2) as (_ & Hc & Hn & Hg) by (eapply run_tap_tapped; [exact Ht1|exact H2]).
  apply then_ok in H as [_ H]. apply bind_ok in H as (fk & _ & H).
  apply bind_ok in H as (na & [Hna Hw1]%ok_or_ok%try_u64_Some & H).
  apply bind_ok in H as (payload & [Hp Hw2]%ok_or_ok%try_u64_Some & H).
  apply then_ok in H as [Hg1%guard_err_ok H]. apply then_ok in H as [Hg2%guard_err_ok H].
  apply bool_decide_eq_false in Hg1, Hg2.
  assert (Z.of_nat (length (seen t2)) ≤ u64_max).
  { rewrite Hc, length_app in Hsrc. lia. }
  rewrite Hp in Hw2. rewrite Hn, wrap64_small in Hp by lia.
  pose proof (div_ceil_spec payload ENCRYPTED_CHUNK ltac:(unfold is_u64 in *; lia) ltac:(done)) as Hd.
  set (n := div_ceil payload ENCRYPTED_CHUNK) in *.
  change ENCRYPTED_CHUNK with 65552 in *. unfold is_u64, TAG, PAYLOAD_NONCE in *.
  assert (1 ≤ n) by nia.
  assert (payload -w mul64 (n -w 1) 65552 = payload - (n - 1) * 65552) as Hll.
  { unfold sub64, mul64. rewrite (wrap64_small (n - 1)) by (unfold_width; nia).
    rewrite (wrap64_small (_ * _)) by (unfold_width; nia). apply wrap64_small. unfold_width. nia. }
  rewrite Hll in *. simplify_eq. cbn [index header src chunks last_len].
  split; [|split; [done|]; split; [done|]; split; [done|]; lia].
  clearbody n. split; cbn [index header src chunks last_len];
    change ENCRYPTED_CHUNK with 65552; change TAG with 16; lia.
Qed.
End open.

(** ** Reading: every chunk is judged on its own bytes *)

Section reading.
Context `{AC : !AgeCrate}.

(** How long chunk [i] is in the file. *)
Definition want_at (c : ChunkReader) (i : Z) : Z :=
  if bool_decide (i + 1 = chunks c) then last_len c else ENCRYPTED_CHUNK.

(** The verdict on chunk [i], from the bytes that lie in its place. *)
Definition verdict (c : ChunkReader) (i : Z) (w : list Z) : Next * list Z :=
  let bad := (Damaged (want_at c i - TAG), []) in
  if bool_decide (Z.of_nat (length w) < want_at c i) then bad
  else
    match aead_open (aead c) (nonce i (bool_decide (i + 1 = chunks c))) w with
    | Some out => if bool_decide (out = [] ∧ 0 < i) then bad else (Authentic, out)
    | None => bad
    end.

(** The bytes in the place of the [k]-th chunk from the reader's index. *)
Definition window (c : ChunkReader) (k : nat) (bytes : list Z) : list Z :=
  take (Z.to_nat (want_at c (index c + Z.of_nat k)))
    (drop (k * Z.to_nat ENCRYPTED_CHUNK) bytes).

Fixpoint verdicts (n : nat) (c : ChunkReader) (i : Z) (bytes : list Z) : list (Next * list Z) :=
  match n with
  | O => []
  | S n =>
      let want := Z.to_nat (want_at c i) in
      verdict c i (take want bytes) :: verdicts n c (i + 1) (drop want bytes)
  end.

(** The reader one chunk on. *)
Definition step_reader (c : ChunkReader) (r : list ReadEvent) : ChunkReader :=
  mkChunkReader r (aead c) (header c) (index c + 1) (chunks c) (last_len c).

Lemma want_at_bounds c i : reader_ok c → TAG ≤ want_at c i ≤ ENCRYPTED_CHUNK.
Proof. intros [_ _ Hl _]. unfold want_at. case_bool_decide; [done|]. by split. Qed.

Lemma reader_small c : reader_ok c → chunks c < u64_max.
Proof.
  intros [_ Hc Hl Hw]. change ENCRYPTED_CHUNK with 65552 in *. change TAG with 16 in *.
  unfold_width. lia.
Qed.

Lemma next_end c : index c = chunks c → next c = (Ok End, [], c).
Proof. intros H. unfold next. by rewrite bool_decide_true by lia. Qed.

(** [next] with the machine arithmetic discharged. *)
Lemma next_unfold c :
  reader_ok c → index c < chunks c →
  next c =
    (let '(got, r) := fill (Z.to_nat (want_at c (index c))) (src c) in
     match got with
     | Err e => (Err e, [], mkChunkReader r (aead c) (header c) (index c) (chunks c) (last_len c))
     | Ok got =>
         let v := verdict c (index c) got in (Ok v.1, v.2, step_reader c r)
     end).
Proof.
  intros Hok Hi. pose proof (reader_small _ Hok). pose proof (want_at_bounds c (index c) Hok) as Hw.
  destruct Hok as [Hix _ _ _]. unfold next. rewrite bool_decide_false by lia.
  unfold add64. rewrite wrap64_small by lia. fold (want_at c (index c)).
  destruct (fill _ _) as [[got|e] r]; [|done].
  assert (want_at c (index c) -w TAG = want_at c (index c) - TAG) as Hs.
  { apply wrap64_small. change TAG with 16 in *. change ENCRYPTED_CHUNK with 65552 in *.
    unfold_width. lia. }
  rewrite Hs. unfold verdict, step_reader. cbn [aead].
  case_bool_decide; [done|]. destruct (aead_open _ _ _); [|done]. by case_bool_decide.
Qed.

Lemma step_reader_ok c r : reader_ok c → index c < chunks c → reader_ok (step_reader c r).
Proof. intros [Hi Hc Hl Hw] ?. split; cbn [step_reader index chunks last_len]; lia || done. Qed.

Lemma next_spec c :
  reader_ok c → index c < chunks c → gapless (src c) → fault (src c) = None →
  let want := Z.to_nat (want_at c (index c)) in
  let v := verdict c (index c) (take want (flat (src c))) in
  ∃ r, next c = (Ok v.1, v.2, step_reader c r) ∧
    flat r = drop want (flat (src c)) ∧ fault r = None ∧ gapless r.
Proof.
  intros Hok Hi Hg Hf want v. rewrite next_unfold by done. fold want.
  destruct (decide (want ≤ length (flat (src c)))%nat) as [Hle|Hgt].
  - destruct (fill_enough want (src c) Hg Hle) as (r & -> & Hr & Hfr & Hgr).
    exists r. by rewrite Hfr.
  - pose proof (fill_short want (src c) Hg ltac:(lia)) as Hs. rewrite Hf in Hs. rewrite Hs.
    exists []. unfold v. rewrite take_ge by lia. split; [done|].
    rewrite drop_ge by lia. split; [done|]. split; [done|]. apply not_elem_of_nil.
Qed.

Lemma verdict_not_end c i w : (verdict c i w).1 ≠ End.
Proof. unfold verdict. repeat case_match; done. Qed.

(** The verdicts depend on the file, not on where in it the reader stands. *)
Lemma verdicts_step n c r i bytes : verdicts n (step_reader c r) i bytes = verdicts n c i bytes.
Proof. revert i bytes. induction n as [|n IH]; intros; simpl; [done|]. by rewrite IH. Qed.

Lemma drain_verdicts n fuel c :
  reader_ok c → gapless (src c) → fault (src c) = None →
  chunks c - index c = Z.of_nat n → (n < fuel)%nat →
  ∃ c', drain fuel c = (verdicts n c (index c) (flat (src c)), Some (Ok ()), c') ∧
    index c' = chunks c.
Proof.
  revert fuel c. induction n as [|n IH]; intros fuel c Hok Hg Hf Hn Hfuel;
    (destruct fuel as [|fuel]; [lia|]); cbn [drain].
  - rewrite next_end by lia. exists c. split; [done|lia].
  - destruct (next_spec c Hok ltac:(lia) Hg Hf) as (r & -> & Hr & Hfr & Hgr).
    destruct (IH fuel (step_reader c r)) as (c' & Hd & Hi); [|done|done| |lia|].
    { apply step_reader_ok; [done|lia]. }
    { cbn [step_reader chunks index]. lia. }
    rewrite verdicts_step in Hd. cbn [step_reader index src chunks] in Hd, Hi.
    rewrite Hr in Hd. fold (step_reader c r) in Hd. rewrite Hd. exists c'. split; [|done].
    destruct (verdict c (index c) _) as [[| |] out] eqn:Hv; cbn [fst snd] in *; [| |].
    + cbn [verdicts]. by rewrite Hv.
    + cbn [verdicts]. by rewrite Hv.
    + by apply (f_equal fst), verdict_not_end in Hv.
Qed.

Lemma verdicts_length n c i bytes : length (verdicts n c i bytes) = n.
Proof. revert i bytes. induction n; intros; simpl; [done|]. by f_equal. Qed.

Lemma verdicts_lookup n c i bytes k :
  (k < n)%nat → i + Z.of_nat n = chunks c →
  verdicts n c i bytes !! k =
    Some (verdict c (i + Z.of_nat k)
      (take (Z.to_nat (want_at c (i + Z.of_nat k))) (drop (k * Z.to_nat ENCRYPTED_CHUNK) bytes))).
Proof.
  revert i bytes k. induction n as [|n IH]; intros i bytes k Hk Hn; [lia|].
  destruct k as [|k]; cbn [verdicts lookup list_lookup].
  - by rewrite Z.add_0_r.
  - rewrite IH by lia. rewrite drop_drop.
    replace (i + 1 + Z.of_nat k) with (i + Z.of_nat (S k)) by lia.
    do 4 f_equal. unfold want_at. rewrite bool_decide_false by lia.
    change (Z.to_nat ENCRYPTED_CHUNK) with (Z.to_nat ENCRYPTED_CHUNK). lia.
Qed.
End reading.

(** ** Properties *)

(** The AEAD's ciphertext is its plaintext and a 16-byte tag. *)
Class AeadLaws `{AC : !AgeCrate} : Prop :=
  aead_length : ∀ key n c p, aead_open key n c = Some p →
    Z.of_nat (length p) + TAG = Z.of_nat (length c).

(** What a chunk stands for in the plaintext, authentic or not. *)
Definition plain_span (v : Next * list Z) : Z :=
  match v.1 with Authentic => Z.of_nat (length v.2) | Damaged n => n | End => 0 end.

Section theorems.
Context `{AC : !AgeCrate}.

Lemma verdict_span `{!AeadLaws} c i bytes :
  reader_ok c → plain_span (verdict c i (take (Z.to_nat (want_at c i)) bytes)) = want_at c i - TAG.
Proof.
  intros Hok. pose proof (want_at_bounds c i Hok). unfold verdict.
  case_bool_decide as Hl; [done|].
  destruct (aead_open _ _ _) as [p|] eqn:Hp; [|done].
  destruct (bool_decide (p = [] ∧ 0 < i)); [done|].
  apply aead_length in Hp. unfold plain_span. cbn [fst snd].
  rewrite length_take in *. change TAG with 16 in *. lia.
Qed.

Lemma verdicts_span `{!AeadLaws} n c i bytes :
  reader_ok c → (0 < n)%nat → i + Z.of_nat n = chunks c →
  sumZ (plain_span <$> verdicts n c i bytes) = (Z.of_nat n - 1) * CHUNK + (last_len c - TAG).
Proof.
  intros Hok. revert i bytes. induction n as [|n IH]; intros i bytes Hn Hi; [lia|].
  cbn [verdicts fmap list_fmap sumZ foldr]. rewrite verdict_span by done.
  destruct (decide (n = 0)%nat) as [->|].
  - unfold want_at. rewrite bool_decide_true by lia. simpl. lia.
  - specialize (IH (i + 1) (drop (Z.to_nat (want_at c i)) bytes) ltac:(lia) ltac:(lia)).
    unfold sumZ in IH. change (foldr Z.add 0 (plain_span <$> ?l)) with (sumZ (plain_span <$> l)) in *.
    rewrite IH. unfold want_at. rewrite bool_decide_false by lia.
    change ENCRYPTED_CHUNK with 65552. change CHUNK with 65536. change TAG with 16. lia.
Qed.

(** A file that opens is its header and nonce, then full chunks, then a
    last one that holds at least its tag: the count and the plaintext length
    are the file length's arithmetic, and nothing wraps. *)
Theorem open_spec source identities len c :
  Z.of_nat (length (content source)) ≤ u64_max → is_u64 len →
  open source identities len = Ok c →
  content source = header c ++ content (src c) ∧ index c = 0 ∧ 1 ≤ chunks c ∧
  TAG ≤ last_len c ≤ ENCRYPTED_CHUNK ∧
  len = Z.of_nat (length (header c)) + (chunks c - 1) * ENCRYPTED_CHUNK + last_len c ∧
  plain_len c = len - Z.of_nat (length (header c)) - chunks c * TAG.
Proof.
  intros Hs Hl H. destruct (open_ok _ _ _ _ Hs Hl H) as (Hok & Hi & Hc & _ & _ & Hlen).
  destruct (plain_len_exact c Hok) as [Hp _]. destruct Hok as [_ Hch Hla _].
  split; [done|]. split; [done|]. split; [done|]. split; [done|]. split; [done|].
  rewrite Hp, Hlen. change ENCRYPTED_CHUNK with 65552. change CHUNK with 65536.
  change TAG with 16. lia.
Qed.

(** Over a source that reads, the chunks are read one after the other
    until [End], and what each gives depends on its own bytes alone (and the
    file's key, its index and whether it is the last): damage to the bytes of
    one costs no other. *)
Theorem drain_spec c fuel n :
  reader_ok c → gapless (src c) → fault (src c) = None →
  chunks c - index c = Z.of_nat n → (n < fuel)%nat →
  ∃ l c', drain fuel c = (l, Some (Ok ()), c') ∧ index c' = chunks c ∧ length l = n ∧
    ∀ k, (k < n)%nat →
      l !! k = Some (verdict c (index c + Z.of_nat k) (window c k (flat (src c)))).
Proof.
  intros Hok Hg Hf Hn Hfuel. destruct (drain_verdicts n fuel c) as (c' & Hd & Hi); try done.
  eexists _, c'. split; [exact Hd|]. split; [done|]. split; [apply verdicts_length|].
  intros k Hk. by rewrite verdicts_lookup by lia.
Qed.

(** Whatever the source does, the loop over [next] ends within one call
    more than there are chunks left. *)
Theorem drain_terminates c fuel :
  reader_ok c → chunks c - index c < Z.of_nat fuel →
  ∃ l e c', drain fuel c = (l, Some e, c') ∧ Z.of_nat (length l) ≤ chunks c - index c.
Proof.
  revert c. induction fuel as [|fuel IH]; intros c Hok Hf.
  { destruct Hok. lia. }
  cbn [drain]. destruct (decide (index c = chunks c)) as [He|Hne].
  - rewrite next_end by done. eexists [], _, _. split; [done|]. simpl. lia.
  - assert (index c < chunks c) as Hlt by (destruct Hok; lia).
    rewrite next_unfold by done. destruct (fill _ _) as [[got|e] r].
    + destruct (IH (step_reader c r)) as (l & e & c' & Hd & Hl).
      { by apply step_reader_ok. }
      { cbn [step_reader chunks index]. lia. }
      cbn [step_reader chunks index] in Hl. cbv zeta.
      destruct (verdict c (index c) got) as [[| |] out] eqn:Hv; cbn [fst snd];
        [rewrite Hd|rewrite Hd|by apply (f_equal fst), verdict_not_end in Hv];
        eexists _, _, _; (split; [done|]); simpl length; lia.
    + eexists [], _, _. split; [done|]. simpl. lia.
Qed.

(** The chunks read, authentic or damaged, stand for exactly the
    plaintext the file's length says is left. *)
Theorem drain_plain_len `{!AeadLaws} c fuel :
  reader_ok c → gapless (src c) → fault (src c) = None →
  chunks c - index c < Z.of_nat fuel →
  sumZ (plain_span <$> (drain fuel c).1.1) = plain_len_from c (index c).
Proof.
  intros Hok Hg Hf Hfuel. pose proof (ro_index _ Hok).
  destruct (drain_verdicts (Z.to_nat (chunks c - index c)) fuel c) as (c' & -> & _); try done; [lia..|].
  cbn [fst]. destruct (plain_len_exact c Hok) as [Hp Hpf]. rewrite Hpf by lia.
  case_bool_decide as He.
  - by replace (Z.to_nat (chunks c - index c)) with 0%nat by lia.
  - rewrite verdicts_span, Hp by (done || lia). rewrite Z2Nat.id by lia.
    change CHUNK with 65536. lia.
Qed.
End theorems.

(** ** A toy age file

    A four-byte header, a nonce, and an AEAD whose tag is its nonce and key. *)
Definition toy_tag (key n : list Z) : list Z := take 16 (n ++ key ++ replicate 16 0).

Definition toy_age : AgeCrate := {|
  Identity := unit;
  Stanza := unit;
  Decryptor := unit;
  unwrap_stanza _ _ := Some (Ok (replicate 16 7));
  unwrap_stanzas _ _ := Some (Ok (replicate 16 7));
  decryptor_new := Ask 4 (λ _, Finish (Ok ()));
  stanzas_of _ := [tt];
  decryptor_decrypt _ _ := Ask 16 (λ _, Finish (Ok ()));
  hkdf _ _ k := k;
  aead_open key n c :=
    let p := take (length c - 16) c in
    if bool_decide (c = p ++ toy_tag key n) then Some p else None;
|}.

Lemma toy_laws : @AeadLaws toy_age.
Proof.
  intros key n c p. cbn [aead_open toy_age]. case_bool_decide as Hc; [|done]. intros [= Hp].
  rewrite Hp in Hc. rewrite Hc, length_app. unfold toy_tag.
  rewrite length_take, !length_app, length_replicate. change TAG with 16. lia.
Qed.

(** Plaintext 1, 2, 3; the tag right or not. *)
Definition toy_file (good : bool) : list Z :=
  [9; 9; 9; 9] ++ replicate 16 5 ++ [1; 2; 3] ++
  (if good then toy_tag (replicate 16 7) (nonce 0 true) else replicate 16 0).

Definition toy_reader (good : bool) : ChunkReader :=
  mkChunkReader (from_slice (drop 20 (toy_file good))) (replicate 16 7)
    ([9; 9; 9; 9] ++ replicate 16 5) 0 1 19.

Lemma toy_reader_ok good : reader_ok (toy_reader good).
Proof. split; cbn [toy_reader index chunks last_len]; by_decide. Qed.

Lemma open_spec_witness :
  @open toy_age (from_slice (toy_file true)) [tt] 39 = Ok (toy_reader true) ∧
  plain_len (toy_reader true) = 39 - 20 - 1 * TAG.
Proof.
  assert (@open toy_age (from_slice (toy_file true)) [tt] 39 = Ok (toy_reader true)) as H
    by (vm_compute; reflexivity).
  split; [exact H|].
  apply (@open_spec toy_age (from_slice (toy_file true)) [tt] 39 (toy_reader true));
    [by_decide|by_decide|exact H].
Defined.

Lemma drain_spec_witness :
  ∃ l c', @drain toy_age 2 (toy_reader true) = (l, Some (Ok ()), c') ∧ index c' = 1 ∧
    length l = 1%nat ∧ l !! 0%nat = Some (Authentic, [1; 2; 3]).
Proof.
  destruct (@drain_spec toy_age (toy_reader true) 2 1) as (l & c' & Hd & Hi & Hl & Hk);
    [apply toy_reader_ok|apply gapless_from_slice|by_decide|by_decide|lia|].
  exists l, c'. split; [exact Hd|]. split; [exact Hi|]. split; [exact Hl|].
  rewrite (Hk 0%nat ltac:(lia)). vm_compute. reflexivity.
Defined.

Lemma drain_terminates_witness :
  ∃ l e c', @drain toy_age 2 (toy_reader false) = (l, Some e, c') ∧ Z.of_nat (length l) ≤ 1.
Proof.
  apply (@drain_terminates toy_age (toy_reader false) 2); [apply toy_reader_ok|by_decide].
Defined.

Lemma drain_plain_len_witness :
  sumZ (plain_span <$> (@drain toy_age 2 (toy_reader false)).1.1) = 3.
Proof.
  rewrite (@drain_plain_len toy_age toy_laws (toy_reader false) 2);
    [by_decide|apply toy_reader_ok|apply gapless_from_slice|by_decide|by_decide].
Defined.
