(* ===== verification/SliceOut.v ===== *)
(** * Where a slice's plaintext goes: [src/volume/restore/supply.rs]

    A slice's output ([SliceOut]), open across every attempt to fill it, and
    the decrypt thread of one attempt ([decrypt_chunks]). The file system and
    dar's stream answer each call as they will ([SinkIo], given every call so
    far); the bytes the sink holds are what its history says. *)

From S2P Require Import Prelude Slice SliceHeader Chunks.
Local Open Scope Z_scope.
Local Open Scope rust_scope.

(** SHA-256: its 32 bytes. *)
Class Sha256 : Type := sha256 : list Z → list Z.

(** ** The sink *)

(** [SliceSink]: a file in scratch, or dar's standard input ([last]: the
    slice is the archive's last). *)
Inductive SliceSink : Type := FileSink | StreamSink (last : bool).

Inductive SinkCall : Type :=
| CreateFile
| WriteAll (bytes : list Z)
| FlushFile
| RemoveFile
| ReadBack
| BeginSlice (n : Z) (last : bool)
| Feed (bytes : list Z)
| FeedHole (len : Z)
| EndSlice.

(** [Broke]: an error of kind [BrokenPipe]; [Failed]: any other. *)
Inductive IoAnswer : Type := Done | Broke (message : string) | Failed (message : string).

Definition History : Type := list (SinkCall * IoAnswer).

Class SinkIo : Type := io_answer : History → SinkCall → IoAnswer.

(** The file on disk, by the calls that made it. *)
Definition disk_step (disk : option (list Z)) (e : SinkCall * IoAnswer) : option (list Z) :=
  match e with
  | (CreateFile, Done) => Some []
  | (WriteAll bytes, Done) => (λ d, d ++ bytes) <$> disk
  | (RemoveFile, Done) => None
  | _ => disk
  end.
Definition disk_of (h : History) : option (list Z) := foldl disk_step None h.

(** What dar was fed: a hole is zeros. *)
Definition fed_step (fed : list Z) (e : SinkCall * IoAnswer) : list Z :=
  match e with
  | (Feed bytes, Done) => fed ++ bytes
  | (FeedHole len, Done) => fed ++ replicate (Z.to_nat len) 0
  | _ => fed
  end.
Definition fed_of (h : History) : list Z := foldl fed_step [] h.

(** ** The slice's output *)

Inductive SupplyError : Type :=
| EIo (message : string)
| ESink (slice : Z) (message : string)
| ETapeIo (slice : Z) (message : string)
| ENoDarSlice (slice : Z)
| EAge (e : AgeError)
| EFuel.

Record SliceOut : Type := mkSliceOut {
  sink : SliceSink;
  file : bool;   (* the file is open *)
  begun : bool;
  slice_number : Z;
  delivered : Z;
  holes : list (Z * Z);
  hole_bytes : Z;
  gone : bool;
  dropping : bool;
  attempts : Z;
  plain : option (list Z);   (* the bytes the running hash has taken *)
  unhashed : bool;
  bound : option (list Z);
  history : History;
}.

Definition new_out (k : SliceSink) (n : Z) : SliceOut :=
  mkSliceOut k false false n 0 [] 0 false false 0 None false None [].

Section setters.
Variable s : SliceOut.
Definition set_file (b : bool) : SliceOut :=
  mkSliceOut (sink s) b (begun s) (slice_number s) (delivered s) (holes s) (hole_bytes s)
    (gone s) (dropping s) (attempts s) (plain s) (unhashed s) (bound s) (history s).
Definition set_begun (b : bool) : SliceOut :=
  mkSliceOut (sink s) (file s) b (slice_number s) (delivered s) (holes s) (hole_bytes s)
    (gone s) (dropping s) (attempts s) (plain s) (unhashed s) (bound s) (history s).
Definition set_account (d : Z) (p : option (list Z)) : SliceOut :=
  mkSliceOut (sink s) (file s) (begun s) (slice_number s) d (holes s) (hole_bytes s)
    (gone s) (dropping s) (attempts s) p (unhashed s) (bound s) (history s).
Definition set_holes (hs : list (Z * Z)) (n : Z) : SliceOut :=
  mkSliceOut (sink s) (file s) (begun s) (slice_number s) (delivered s) hs n
    (gone s) (dropping s) (attempts s) (plain s) (unhashed s) (bound s) (history s).
(** [gone = true; dropping = true]. *)
Definition set_gone : SliceOut :=
  mkSliceOut (sink s) (file s) (begun s) (slice_number s) (delivered s) (holes s) (hole_bytes s)
    true true (attempts s) (plain s) (unhashed s) (bound s) (history s).
Definition set_attempt (n : Z) (p : option (list Z)) (u : bool) : SliceOut :=
  mkSliceOut (sink s) (file s) (begun s) (slice_number s) (delivered s) (holes s) (hole_bytes s)
    (gone s) (dropping s) n p u (bound s) (history s).
Definition set_bound (b : option (list Z)) : SliceOut :=
  mkSliceOut (sink s) (file s) (begun s) (slice_number s) (delivered s) (holes s) (hole_bytes s)
    (gone s) (dropping s) (attempts s) (plain s) (unhashed s) b (history s).
Definition set_history (h : History) : SliceOut :=
  mkSliceOut (sink s) (file s) (begun s) (slice_number s) (delivered s) (holes s) (hole_bytes s)
    (gone s) (dropping s) (attempts s) (plain s) (unhashed s) (bound s) h.
End setters.

(** An operation on the output: its result, and the output after it, on an
    error as well. *)
Definition op (A : Type) : Type := SliceOut → result SupplyError A * SliceOut.
#[export] Instance op_ret : MRet op := λ A a s, (Ok a, s).
#[export] Instance op_bind : MBind op := λ A B f m s,
  match m s with (Ok a, s) => f a s | (Err e, s) => (Err e, s) end.

Definition gets {A} (f : SliceOut → A) : op A := λ s, (Ok (f s), s).
Definition modify (f : SliceOut → SliceOut) : op unit := λ s, (Ok (), f s).
Definition fails {A} (e : SupplyError) : op A := λ s, (Err e, s).

(** [u32::try_from]. *)
Definition try_u32 (z : Z) : option Z :=
  if bool_decide (0 ≤ z ≤ u32_max) then Some z else None.

Section out.
Context `{IO : !SinkIo}.

Definition io_call (k : SinkCall) : op IoAnswer := λ s,
  let a := io_answer (history s) k in
  (Ok a, set_history s (history s ++ [(k, a)])).

Definition begin_attempt : op unit := modify (λ s,
  let n := attempts s + 1 in
  let streamed := match sink s with StreamSink _ => true | FileSink => false end in
  if bool_decide (2 ≤ n) && streamed && bool_decide (plain s = None) && negb (unhashed s) then
    if bool_decide (delivered s = 0) then set_attempt s n (Some []) (unhashed s)
    else set_attempt s n (plain s) true
  else set_attempt s n (plain s) (unhashed s)).

Definition bind_to (header : list Z) : op unit := modify (λ s,
  match bound s with None => set_bound s (Some header) | Some _ => s end).

(** [self.open()]. *)
Definition open_sink : op unit :=
  s ← gets id;
  if file s || begun s || dropping s then mret ()
  else
    match sink s with
    | FileSink =>
        a ← io_call CreateFile;
        match a with
        | Done => modify (λ s, set_file s true)
        | Broke m | Failed m => fails (EIo m)
        end
    | StreamSink last =>
        match try_u32 (slice_number s) with
        | None => fails (ENoDarSlice (slice_number s))
        | Some n =>
            a ← io_call (BeginSlice n last);
            match a with
            | Done => modify (λ s, set_begun s true)
            | Broke _ => modify set_gone
            | Failed m => fails (ESink (slice_number s) m)
            end
        end
    end.

(** [bytes] to the sink, a hole's zeros when [hole], and on the books. *)
Definition put (bytes : list Z) (hole : bool) : op unit :=
  open_sink;;
  s ← gets id;
  written ←
    match sink s with
    | FileSink => if file s then io_call (WriteAll bytes) else mret Done
    | StreamSink _ =>
        if dropping s then mret Done
        else if hole then io_call (FeedHole (Z.of_nat (length bytes)))
        else io_call (Feed bytes)
    end;
  match written with
  | Done => mret ()
  | Broke _ => modify (λ s, set_file (set_gone s) false)
  | Failed m => fails (ESink (slice_number s) m)
  end;;
  modify (λ s, set_account s (delivered s +w Z.of_nat (length bytes))
                 ((λ p, p ++ bytes) <$> plain s)).

Definition write (bytes : list Z) : op unit := put bytes false.

Definition ZEROS : Z := 16 * 1024.

(** The loop of [hole]; a round takes [ZEROS] bytes or what is left. *)
Fixpoint hole_loop (fuel : nat) (left : Z) : op unit :=
  if bool_decide (left ≤ 0) then mret ()
  else
    match fuel with
    | O => fails EFuel
    | S fuel =>
        let n := Z.min left ZEROS in
        put (replicate (Z.to_nat n) 0) true;;
        modify (λ s, set_holes s (holes s) (hole_bytes s +w n));;
        hole_loop fuel (left -w n)
    end.

Definition hole (len : Z) : op unit :=
  open_sink;;
  modify (λ s, if bool_decide (0 < len)
               then set_holes s (holes s ++ [(delivered s, delivered s +w len)]) (hole_bytes s)
               else s);;
  hole_loop (Z.to_nat (div_ceil len ZEROS)) len.

Definition finish : op unit :=
  open_sink;;
  s ← gets id;
  match sink s with
  | FileSink =>
      if file s then
        a ← io_call FlushFile;
        match a with Done => mret () | Broke m | Failed m => fails (EIo m) end
      else mret ()
  | StreamSink _ =>
      if dropping s then mret ()
      else
        a ← io_call EndSlice;
        match a with
        | Done => mret ()
        | Broke _ => modify set_gone
        | Failed m => fails (ESink (slice_number s) m)
        end
  end.

(** Remove a spooled slice; what removing it answers is ignored. *)
Definition discard : op unit :=
  modify (λ s, set_file s false);;
  s ← gets id;
  match sink s with
  | FileSink => io_call RemoveFile;; mret ()
  | StreamSink _ => mret ()
  end.

Definition reset : op unit :=
  discard;;
  modify (λ s, set_bound (set_attempt (set_holes (set_account s 0 (plain s)) [] 0)
                            (attempts s) None false) None).

(** [plain_digest]: the running hash of a stream, or the file read back. *)
Definition plain_digest `{!Sha256} : op (option (list Z)) :=
  s ← gets id;
  if unhashed s then mret None
  else
    match plain s, sink s with
    | Some running, _ => mret (Some (sha256 running))
    | None, FileSink =>
        a ← io_call ReadBack;
        match a, disk_of (history s) with
        | Done, Some bytes => mret (Some (sha256 bytes))
        | Done, None => fails (EIo "No such file or directory")
        | Broke m, _ | Failed m, _ => fails (EIo m)
        end
    | None, StreamSink _ => mret None
    end.
End out.

(** ** The decrypt thread *)

Inductive Mode : Type := Strict | Tolerant.

Record Ended : Type := mkEnded {
  sink_gone : bool;
  tail_damaged : bool;
  stopped : bool;
  other_file : bool;
  open_error : option AgeError;
}.

Section decrypt.
Context `{IO : !SinkIo, AC : !AgeCrate}.

(** The loop over the chunks: whether it stopped at a damaged one, and
    whether a chunk dar no longer wanted was damaged. *)
Fixpoint deliver_loop (fuel : nat) (mode : Mode) (skip : Z) (c : ChunkReader) (pos : Z) :
    op (bool * bool) :=
  match fuel with
  | O => fails EFuel
  | S fuel =>
      let '(n, buf, c') := next c in
      match n with
      | Err e => s ← gets id; fails (ETapeIo (slice_number s) e)
      | Ok End => mret (false, false)
      | Ok Authentic =>
          let end_ := pos +w Z.of_nat (length buf) in
          (if bool_decide (skip < end_) then
             bind_to (header c);; write (drop (Z.to_nat (skip -sat pos)) buf)
           else mret ());;
          deliver_loop fuel mode skip c' end_
      | Ok (Damaged plain_len) =>
          let end_ := pos +w plain_len in
          if bool_decide (skip < end_) then
            s ← gets id;
            if gone s then mret (false, true)
            else
              match mode with
              | Strict => mret (true, false)
              | Tolerant =>
                  bind_to (header c);; hole (end_ -w Z.max skip pos);;
                  deliver_loop fuel mode skip c' end_
              end
          else deliver_loop fuel mode skip c' end_
      end
  end.

Definition decrypt_chunks (source : list ReadEvent) (identities : list Identity)
    (encrypted : Z) (mode : Mode) : op Ended := λ s,
  match open source identities encrypted with
  | Err e => (Ok (mkEnded false false false false (Some e)), s)
  | Ok c =>
      if match bound s with Some b => bool_decide (b ≠ header c) | None => false end then
        (Ok (mkEnded false false false true None), s)
      else
        let '(delivered, s) :=
          (open_sink;;
           skip ← gets delivered;
           deliver_loop (S (Z.to_nat (chunks c))) mode skip c 0) s in
        match delivered with
        | Ok (stopped, tail) => (Ok (mkEnded (gone s) tail stopped false None), s)
        | Err e =>
            if gone s then (Ok (mkEnded true false false false None), s) else (Err e, s)
        end
  end.
End decrypt.
