(* ===== verification/Deliver.v ===== *)
(** * The delivery of a slice: theorems

    What an attempt at a slice leaves in its sink, whatever the sink answers;
    and the account every attempt keeps: the sink holds a prefix of chunks
    that authenticated under the one age file, with zeros in the recorded
    holes and nowhere else. *)

From S2P Require Import Prelude Slice SliceHeader Chunks SliceOut.
Local Open Scope Z_scope.
Local Open Scope rust_scope.

(** ** Reasoning on operations *)

Definition runs {A} (s : SliceOut) (m : op A) (Q : A → SliceOut → Prop)
    (E : SupplyError → SliceOut → Prop) : Prop :=
  match m s with (Ok a, s') => Q a s' | (Err e, s') => E e s' end.

Lemma runs_bind {A B} s (m : op A) (f : A → op B) Q E :
  runs s m (λ a s', runs s' (f a) Q E) E → runs s (m ≫= f) Q E.
Proof. unfold runs, mbind, op_bind. by destruct (m s) as [[a|e] s']. Qed.

Lemma runs_weaken {A} s (m : op A) (Q Q' : A → SliceOut → Prop)
    (E E' : SupplyError → SliceOut → Prop) :
  runs s m Q E → (∀ a s', Q a s' → Q' a s') → (∀ e s', E e s' → E' e s') → runs s m Q' E'.
Proof. unfold runs. destruct (m s) as [[a|e] s']; auto. Qed.

Lemma runs_ret {A} s (a : A) Q E : Q a s → runs s (mret a) Q E.
Proof. done. Qed.
Lemma runs_gets {A} s (f : SliceOut → A) Q E : Q (f s) s → runs s (gets f) Q E.
Proof. done. Qed.
Lemma runs_modify s f Q E : Q () (f s) → runs s (modify f) Q E.
Proof. done. Qed.

(** A failure of the sink's: not dar closing its input, not the source's, and
    never the loop's. *)
Definition failed (e : SupplyError) (s : SliceOut) : Prop :=
  gone s = false ∧ match e with EIo _ | ESink _ _ | ENoDarSlice _ => True | _ => False end.

Create HintDb runs_db.
#[export] Hint Resolve runs_ret runs_gets runs_modify : runs_db.

(** ** The bytes of the sink *)

Definition received (s : SliceOut) : list Z :=
  match sink s with
  | FileSink => default [] (disk_of (history s))
  | StreamSink _ => fed_of (history s)
  end.

Lemma disk_of_snoc h e : disk_of (h ++ [e]) = disk_step (disk_of h) e.
Proof. unfold disk_of. by rewrite foldl_app. Qed.
Lemma fed_of_snoc h e : fed_of (h ++ [e]) = fed_step (fed_of h) e.
Proof. unfold fed_of. by rewrite foldl_app. Qed.

Definition opened (s : SliceOut) : Prop := file s || begun s || dropping s = true.

(** [content] is what the books say the sink was given. *)
Record sink_inv (content : list Z) (s : SliceOut) : Prop := {
  si_delivered : delivered s = Z.of_nat (length content);
  si_prefix : opened s → received s `prefix_of` content;
  si_received : opened s → dropping s = false → received s = content;
  si_gone : gone s = dropping s;
  si_closed : file s = false → begun s = false → dropping s = false →
    content = [] ∧ (sink s = FileSink ∨ fed_of (history s) = []);
  si_file : file s = true → sink s = FileSink ∧ dropping s = false ∧ is_Some (disk_of (history s));
  si_begun : begun s = true → sink s ≠ FileSink;
  si_plain : ∀ p, plain s = Some p → p = content;
}.

(** The fields no call to the sink changes. *)
Definition fields (s : SliceOut) :=
  (sink s, slice_number s, bound s, holes s, hole_bytes s, attempts s, unhashed s).

(** The fields of [sink_inv] after a call, by evaluation. *)
Ltac sink_fields Hk :=
  split; unfold received; cbn; rewrite ?Hk, ?disk_of_snoc, ?fed_of_snoc; cbn;
    try done; try congruence; try (intros; congruence).

Section deliver.
Context `{IO : !SinkIo}.

Lemma open_sink_inv content s :
  sink_inv content s →
  runs s open_sink
    (λ _ s', sink_inv content s' ∧ opened s' ∧ fields s' = fields s ∧ (gone s = true → gone s' = true))
    failed.
Proof.
  intros Hs. unfold open_sink. apply runs_bind. cbn [gets runs id].
  destruct (file s || begun s || dropping s) eqn:Ho; [by apply runs_ret|].
  apply orb_false_iff in Ho as [[Hf Hb]%orb_false_iff Hd].
  destruct (si_closed _ _ Hs Hf Hb Hd) as [-> Hfed]. pose proof (si_gone _ _ Hs) as Hg. rewrite Hd in Hg.
  destruct Hs as [H1 _ _ _ _ _ _ H8].
  destruct (sink s) as [|last] eqn:Hk; [clear Hfed|destruct Hfed as [?|Hfed]; [done|]].
  - apply runs_bind. unfold runs, io_call. destruct (io_answer (history s) CreateFile) eqn:Ha.
    + cbn. unfold opened, fields. cbn. rewrite Hk, Hg. split; [|done].
      sink_fields Hk.
    + by cbn.
    + by cbn.
  - unfold try_u32. destruct (bool_decide _); [|by cbn].
    apply runs_bind. unfold runs, io_call. destruct (io_answer _ _) eqn:Ha.
    + cbn. unfold opened, fields. cbn. rewrite Hk, Hg, orb_true_r. split; [|done].
      sink_fields Hk. by rewrite Hfed.
    + cbn. unfold opened, fields. cbn. rewrite Hk, orb_true_r. split; [|done].
      sink_fields Hk. by rewrite Hfed.
    + by cbn.
Qed.

Lemma put_inv content bytes h s :
  sink_inv content s → Z.of_nat (length content) + Z.of_nat (length bytes) ≤ u64_max →
  (h = true → bytes = replicate (length bytes) 0) →
  runs s (put bytes h)
    (λ _ s', sink_inv (content ++ bytes) s' ∧ opened s' ∧ fields s' = fields s ∧ (gone s = true → gone s' = true))
    failed.
Proof.
  intros Hs Hw Hz. unfold put. apply runs_bind.
  eapply runs_weaken; [by apply open_sink_inv| |done].
  intros [] s1 (Hs1 & Ho & Hf1 & Hg1). apply runs_bind, runs_gets. unfold id.
  rewrite <-Hf1. assert (gone s = true → gone s1 = true) as Hg by done. clear Hf1 Hg1 Hs.
  destruct Hs1 as [H1 H2 H3 H4 H5 H6 H7 H8]. specialize (H2 Ho). specialize (H3 Ho). unfold received in *.
  assert (delivered s1 +w Z.of_nat (length bytes) = Z.of_nat (length (content ++ bytes))) as Hadd.
  { unfold add64. rewrite wrap64_small by (unfold_width; lia). rewrite length_app. lia. }
  assert (∀ p, (λ p, p ++ bytes) <$> plain s1 = Some p → p = content ++ bytes) as Hpl.
  { intros p. destruct (plain s1) as [q|]; [|done]. intros [= <-]. by rewrite (H8 q). }
  assert (Ho' : dropping s1 = false → file s1 = false → begun s1 = true).
  { unfold opened in Ho. intros Hd Hf. rewrite Hd, Hf in Ho. by destruct (begun s1). }
  destruct (dropping s1) eqn:Hd.
  - (* nothing goes to the sink *)
    assert (file s1 = false) as Hf.
    { destruct (file s1); [|done]. by destruct (H6 eq_refl) as (_ & ? & _). }
    assert ((match sink s1 with
             | FileSink => if file s1 then io_call (WriteAll bytes) else mret Done
             | StreamSink _ => if true then mret Done
                 else if h then io_call (FeedHole (Z.of_nat (length bytes))) else io_call (Feed bytes)
             end) = mret Done) as -> by by rewrite Hf; destruct (sink s1).
    cbn. split; [|split; [exact Ho|done]]. assert (received s1 `prefix_of` content ++ bytes) as Hpre.
    { by apply prefix_app_r. }
    unfold received in Hpre.
    split; unfold received; cbn; try done; try (intros; congruence).
  - specialize (H3 eq_refl).
    destruct (sink s1) as [|last] eqn:Hk.
    + assert (file s1 = true) as Hf.
      { destruct (file s1); [done|]. by destruct (H7 (Ho' eq_refl eq_refl)). }
      rewrite Hf. destruct (H6 Hf) as (_ & _ & [d Hdisk]). rewrite Hdisk in H3. cbn in H3. subst d.
      unfold runs, io_call, mbind, op_bind.
      destruct (io_answer _ _) eqn:Ha; cbn; [| |by split; [apply H4|]].
      * split; [|split; [exact Ho|done]]. sink_fields Hk; rewrite ?Hdisk; cbn; done.
      * split; [|split; [by unfold opened; cbn; rewrite orb_true_r|done]].
        sink_fields Hk; rewrite ?Hdisk; cbn; intros; try done. by apply prefix_app_r.
    + assert (file s1 = false) as Hf.
      { destruct (file s1); [|done]. by destruct (H6 eq_refl). }
      assert (∀ call, call = (if h then FeedHole (Z.of_nat (length bytes)) else Feed bytes) →
        fed_step (fed_of (history s1)) (call, Done) = content ++ bytes) as Hstep.
      { intros call ->. rewrite H3. destruct h; cbn; [|done]. rewrite Nat2Z.id.
        by rewrite Hz at 2. }
      assert ((if h then io_call (FeedHole (Z.of_nat (length bytes))) else io_call (Feed bytes)) =
        io_call (if h then FeedHole (Z.of_nat (length bytes)) else Feed bytes)) as -> by by destruct h.
      set (call := if h then _ else _) in *. specialize (Hstep call eq_refl).
      unfold runs, io_call, mbind, op_bind.
      destruct (io_answer _ _) eqn:Ha; cbn -[fed_step call]; [| |by split; [apply H4|]].
      * split; [|split; [exact Ho|done]]. split; unfold received; cbn -[fed_step call];
          rewrite ?Hk, ?fed_of_snoc, ?Hstep; try done; try congruence.
        intros _ Hb. by rewrite (Ho' eq_refl Hf) in Hb.
      * split; [|split; [by unfold opened; cbn; rewrite orb_true_r|done]].
        assert (fed_step (fed_of (history s1)) (call, Broke message) = content) as Hb.
        { rewrite <-H3. unfold call. by destruct h. }
        split; unfold received; cbn -[fed_step call];
          rewrite ?Hk, ?fed_of_snoc, ?Hb; try done; intros; try done; try congruence.
        by apply prefix_app_r.
Qed.

(** The spans of zeros a hole leaves. *)
Definition hole_at (start len : Z) : list (Z * Z) :=
  if bool_decide (0 < len) then [(start, start + len)] else [].

Definition zeros (n : Z) : list Z := replicate (Z.to_nat n) 0.

Lemma zeros_app a b : 0 ≤ a → 0 ≤ b → zeros a ++ zeros b = zeros (a + b).
Proof. intros. unfold zeros. by rewrite <-replicate_add, Z2Nat.inj_add. Qed.

(** What [hole_loop] and [hole] keep. *)
Definition hole_kept (s s' : SliceOut) : Prop :=
  sink s' = sink s ∧ slice_number s' = slice_number s ∧ bound s' = bound s ∧
  holes s' = holes s ∧ attempts s' = attempts s ∧ unhashed s' = unhashed s.

Lemma sink_inv_set_holes content s hs n : sink_inv content s → sink_inv content (set_holes s hs n).
Proof. by intros []. Qed.

Lemma hole_loop_inv fuel content left s :
  sink_inv content s → 0 ≤ left → Z.of_nat (length content) + left ≤ u64_max →
  0 ≤ hole_bytes s → hole_bytes s + left ≤ u64_max → left ≤ Z.of_nat fuel * ZEROS →
  runs s (hole_loop fuel left)
    (λ _ s', sink_inv (content ++ zeros left) s' ∧ hole_kept s s' ∧
             hole_bytes s' = hole_bytes s + left ∧ (gone s = true → gone s' = true) ∧
             (opened s → opened s'))
    failed.
Proof.
  revert content left s. induction fuel as [|fuel IH];
    intros content left s Hs Hl Hw Hb Hbw Hfuel; cbn [hole_loop].
  - rewrite bool_decide_true by lia. apply runs_ret.
    assert (left = 0) as -> by lia. unfold zeros. cbn [Z.to_nat replicate].
    rewrite app_nil_r, Z.add_0_r. done.
  - case_bool_decide as Hz.
    { apply runs_ret. assert (left = 0) as -> by lia. unfold zeros. cbn [Z.to_nat replicate].
      rewrite app_nil_r, Z.add_0_r. done. }
    set (n := Z.min left ZEROS). assert (0 < n ≤ left) as Hn by (unfold n; change ZEROS with 16384; lia).
    apply runs_bind. eapply runs_weaken; [apply (put_inv content (zeros n)); [done| |]| |done].
    { unfold zeros. rewrite length_replicate. lia. }
    { intros _. unfold zeros. by rewrite length_replicate. }
    intros [] s1 (Hs1 & Ho1 & Hf1 & Hg1). injection Hf1 as Hk Hsn Hbd Hho Hhb Hat Hun.
    apply runs_bind, runs_modify.
    assert (hole_bytes s1 +w n = hole_bytes s + n) as Hadd.
    { unfold add64. rewrite Hhb. apply wrap64_small. unfold_width. lia. }
    assert (left -w n = left - n) as Hsub.
    { unfold sub64. apply wrap64_small. unfold_width. lia. }
    rewrite Hadd, Hsub.
    eapply runs_weaken; [apply (IH (content ++ zeros n) (left - n))| |done].
    + by apply sink_inv_set_holes.
    + lia.
    + rewrite length_app. unfold zeros. rewrite length_replicate. lia.
    + cbn [set_holes hole_bytes]. lia.
    + cbn [set_holes hole_bytes]. lia.
    + unfold n. change ZEROS with 16384 in *. lia.
    + intros [] s2 (Hs2 & Hk2 & Hb2 & Hg2 & Ho2). rewrite <-app_assoc, zeros_app in Hs2 by lia.
      replace (n + (left - n)) with left in Hs2 by lia. split; [done|].
      unfold hole_kept in *. cbn [set_holes sink slice_number bound holes attempts unhashed hole_bytes gone] in *.
      split; [by intuition congruence|]. split; [lia|]. split; [auto|]. intros _. by apply Ho2.
Qed.

Lemma hole_inv content len s :
  sink_inv content s → 0 ≤ len → Z.of_nat (length content) + len ≤ u64_max →
  0 ≤ hole_bytes s → hole_bytes s + len ≤ u64_max →
  runs s (hole len)
    (λ _ s', sink_inv (content ++ zeros len) s' ∧
             holes s' = holes s ++ hole_at (Z.of_nat (length content)) len ∧
             hole_bytes s' = hole_bytes s + len ∧ bound s' = bound s ∧ sink s' = sink s ∧
             (gone s = true → gone s' = true) ∧ opened s')
    failed.
Proof.
  intros Hs Hl Hw Hb Hbw. unfold hole. apply runs_bind.
  eapply runs_weaken; [by apply open_sink_inv| |done].
  intros [] s1 (Hs1 & Ho1 & Hf1 & Hg1). injection Hf1 as Hk Hsn Hbd Hho Hhb Hat Hun.
  apply runs_bind, runs_modify.
  set (s2 := if bool_decide (0 < len) then _ else _).
  assert (sink_inv content s2 ∧ holes s2 = holes s ++ hole_at (Z.of_nat (length content)) len ∧
    hole_bytes s2 = hole_bytes s ∧ bound s2 = bound s ∧ sink s2 = sink s ∧ gone s2 = gone s1 ∧ opened s2)
    as (Hs2 & Hh2 & Hb2 & Hbd2 & Hk2 & Hg2 & Ho2).
  { unfold s2, hole_at. case_bool_decide; cbn.
    - split; [by apply sink_inv_set_holes|]. rewrite Hho, (si_delivered _ _ Hs1).
      unfold add64. rewrite wrap64_small by (unfold_width; lia). done.
    - rewrite app_nil_r. done. }
  eapply runs_weaken; [apply (hole_loop_inv _ content len)| |done]; try done; [lia..| |].
  - rewrite Z2Nat.id.
    + pose proof (div_ceil_spec len ZEROS Hl ltac:(done)). lia.
    + apply div_ceil_nonneg; [done|by change ZEROS with 16384].
  - intros [] s3 (Hs3 & (Hk3 & _ & Hbd3 & Hho3 & _ & _) & Hb3 & Hg3 & Ho3). split; [done|].
    rewrite Hho3, Hh2. split; [done|]. split; [lia|]. split; [congruence|]. split; [congruence|].
    rewrite Hg2 in Hg3. auto.
Qed.
End deliver.

(** ** The loop over the chunks *)

(** What a verdict puts in the sink: its plaintext, or zeros. *)
Definition piece (v : Next * list Z) : list Z :=
  match v.1 with Authentic => v.2 | Damaged n => zeros n | End => [] end.

(** A damaged chunk. *)
Definition bad (v : Next * list Z) : bool :=
  match v.1 with Damaged _ => true | _ => false end.

Definition lost (v : Next * list Z) : Z :=
  match v.1 with Damaged n => n | _ => 0 end.

Definition pieces (vs : list (Next * list Z)) : list Z := mjoin (piece <$> vs).

Fixpoint hole_spans (start : Z) (vs : list (Next * list Z)) : list (Z * Z) :=
  match vs with
  | [] => []
  | v :: vs => hole_at start (lost v) ++ hole_spans (start + plain_span v) vs
  end.

(** Where chunk [i]'s plaintext starts. *)
Definition boundary (c : ChunkReader) (i : Z) : Z :=
  Z.min (i * CHUNK) ((chunks c - 1) * CHUNK + (last_len c - TAG)).

(** What the loop leaves: the pieces of a first part of the verdicts, all of
    them unless it stopped at a damaged one. *)
Record loop_post (c : ChunkReader) (mode : Mode) (content : list Z) (s : SliceOut)
    (vs vs1 vs2 : list (Next * list Z)) (r : bool * bool) (s' : SliceOut) : Prop := {
  lp_split : vs = vs1 ++ vs2;
  lp_inv : sink_inv (content ++ pieces vs1) s';
  lp_holes : holes s' = holes s ++ hole_spans (Z.of_nat (length content)) vs1;
  lp_hole_bytes : hole_bytes s' = hole_bytes s + sumZ (lost <$> vs1);
  lp_sink : sink s' = sink s;
  lp_gone : gone s = true → gone s' = true;
  lp_opened : opened s → opened s';
  lp_bound : bound s' = bound s ∨ bound s' = Some (header c);
  lp_bound' : bound s = Some (header c) → bound s' = Some (header c);
  lp_tied : pieces vs1 ≠ [] → is_Some (bound s');
  lp_strict : mode = Strict → Forall (λ v, bad v = false ∨ plain_span v = 0) vs1;
  lp_end :
    match r with
    | (false, false) => vs2 = []
    | (true, false) => mode = Strict ∧ gone s' = false ∧ ∃ v l, vs2 = v :: l ∧ bad v = true
    | (false, true) => gone s' = true ∧ ∃ v l, vs2 = v :: l ∧ bad v = true
    | (true, true) => False
    end;
}.

Section loop.
Context `{IO : !SinkIo, AC : !AgeCrate, AL : !AeadLaws}.

Lemma boundary_step c i :
  reader_ok c → 0 ≤ i < chunks c → boundary c (i + 1) = boundary c i + (want_at c i - TAG).
Proof.
  intros [_ Hc Hl _] Hi. unfold boundary, want_at. change ENCRYPTED_CHUNK with 65552 in *.
  change CHUNK with 65536. change TAG with 16 in *. case_bool_decide; lia.
Qed.

Lemma boundary_mono c i j : i ≤ j → boundary c i ≤ boundary c j.
Proof. intros. unfold boundary. change CHUNK with 65536. lia. Qed.

Lemma boundary_bounds c i : reader_ok c → 0 ≤ i → 0 ≤ boundary c i ≤ u64_max.
Proof.
  intros [_ Hc Hl Hw] ?. unfold boundary. change ENCRYPTED_CHUNK with 65552 in *.
  change CHUNK with 65536. change TAG with 16 in *. lia.
Qed.

Lemma piece_length v : 0 ≤ plain_span v → Z.of_nat (length (piece v)) = plain_span v.
Proof.
  destruct v as [[|n|] p]; unfold piece, plain_span; cbn [fst snd length]; intros; [done| |done].
  unfold zeros. rewrite length_replicate. lia.
Qed.

(** One more verdict in front of what the loop did after it. *)
Lemma loop_post_cons c mode content s s1 v vs vs1 vs2 r s' :
  loop_post c mode (content ++ piece v) s1 vs vs1 vs2 r s' →
  0 ≤ plain_span v → sink s1 = sink s → (gone s = true → gone s1 = true) →
  (opened s → opened s1) →
  holes s1 = holes s ++ hole_at (Z.of_nat (length content)) (lost v) →
  hole_bytes s1 = hole_bytes s + lost v →
  (bound s1 = bound s ∨ bound s1 = Some (header c)) →
  (bound s = Some (header c) → bound s1 = Some (header c)) →
  (piece v ≠ [] → is_Some (bound s1)) →
  (mode = Strict → bad v = false ∨ plain_span v = 0) →
  loop_post c mode content s (v :: vs) (v :: vs1) vs2 r s'.
Proof.
  intros [-> Hi Hh Hb Hk Hg Hop Hbd Hbd' Ht Hs He] Hspan Hk1 Hg1 Hop1 Hh1 Hb1 Hbd1 Hbd1' Ht1 Hs1.
  split.
  - done.
  - by rewrite <-app_assoc in Hi.
  - rewrite Hh, Hh1, <-app_assoc. cbn [hole_spans]. do 3 f_equal.
    rewrite length_app, Nat2Z.inj_add, piece_length by done. done.
  - change (sumZ (lost <$> v :: vs1)) with (lost v + sumZ (lost <$> vs1)). lia.
  - congruence.
  - auto.
  - auto.
  - destruct Hbd as [->|?]; auto.
  - auto.
  - intros Hne. destruct (decide (pieces vs1 = [])) as [Hn|Hn]; [|by apply Ht].
    assert (is_Some (bound s1)) as [b Hbs].
    { apply Ht1. intros Hp. apply Hne. unfold pieces in *. cbn. by rewrite Hp. }
    destruct Hbd as [->| ->]; eauto.
  - intros Hm. constructor; auto.
  - done.
Qed.

Lemma loop_post_stop c mode content s r vs :
  sink_inv content s →
  match r with
  | (false, false) => vs = []
  | (true, false) => mode = Strict ∧ gone s = false ∧ ∃ v l, vs = v :: l ∧ bad v = true
  | (false, true) => gone s = true ∧ ∃ v l, vs = v :: l ∧ bad v = true
  | (true, true) => False
  end → loop_post c mode content s vs [] vs r s.
Proof.
  intros Hi Hr. split; try done; cbn; rewrite ?app_nil_r; try done; [lia|by left].
Qed.

Lemma verdict_cases c i w :
  reader_ok c → ∃ v, verdict c i w = v ∧
    ((v.1 = Authentic) ∨ v.1 = Damaged (want_at c i - TAG) ∧ v.2 = []).
Proof.
  intros _. eexists. split; [reflexivity|]. unfold verdict. repeat case_match; auto.
Qed.

Lemma deliver_loop_spec n fuel mode c s content k :
  reader_ok c → gapless (src c) → fault (src c) = None →
  chunks c - index c = Z.of_nat n → (n < fuel)%nat → 0 ≤ k ≤ chunks c →
  sink_inv content s → Z.of_nat (length content) = boundary c (Z.max (index c) k) →
  0 ≤ hole_bytes s ≤ Z.of_nat (length content) →
  (bound s = None ∨ bound s = Some (header c)) →
  runs s (deliver_loop fuel mode (boundary c k) c (boundary c (index c)))
    (λ r s', ∃ vs1 vs2, loop_post c mode content s
       (drop (Z.to_nat (k - index c)) (verdicts n c (index c) (flat (src c)))) vs1 vs2 r s')
    failed.
Proof.
  revert fuel c s content. induction n as [|n IH];
    intros fuel c s content Hok Hg Hf Hn Hfuel Hk Hi Hlen Hhb Hbd;
    (destruct fuel as [|fuel]; [lia|]); cbn [deliver_loop].
  { rewrite next_end by lia. apply runs_ret. eexists [], _. apply loop_post_stop; [done|].
    cbn [verdicts]. by rewrite drop_nil. }
  assert (Hlt : index c < chunks c) by lia.
  pose proof (ro_index _ Hok) as Hix.
  destruct (next_spec c Hok Hlt Hg Hf) as (r & -> & Hr & Hfr & Hgr). cbn [verdicts].
  pose proof (boundary_step c (index c) Hok ltac:(lia)) as Hstep.
  pose proof (want_at_bounds c (index c) Hok) as Hwb.
  pose proof (boundary_bounds c (index c) Hok ltac:(lia)) as Hb0.
  pose proof (boundary_bounds c (index c + 1) Hok ltac:(lia)) as Hb1.
  pose proof (verdict_span c (index c) (flat (src c)) Hok) as Hspan.
  destruct (verdict_cases c (index c) (take (Z.to_nat (want_at c (index c))) (flat (src c))) Hok)
    as (v & Hv & Hvc). rewrite Hv in *.
  set (rest := verdicts n c (index c + 1) _).
  (* the rest of the loop, from a state that took this chunk or skipped it *)
  assert (HIH : ∀ content1 s1, sink_inv content1 s1 →
    Z.of_nat (length content1) = boundary c (Z.max (index c + 1) k) →
    0 ≤ hole_bytes s1 ≤ Z.of_nat (length content1) →
    (bound s1 = None ∨ bound s1 = Some (header c)) →
    runs s1 (deliver_loop fuel mode (boundary c k) (step_reader c r) (boundary c (index c + 1)))
      (λ r s', ∃ vs1 vs2, loop_post c mode content1 s1
         (drop (Z.to_nat (k - (index c + 1))) rest) vs1 vs2 r s')
      failed).
  { intros content1 s1 H1 H2 H3 H4.
    eapply runs_weaken; [eapply (IH fuel (step_reader c r) s1 content1)| |done]; try done.
    - by apply step_reader_ok.
    - cbn [step_reader chunks index]. lia.
    - lia.
    - intros r' s' (vs1 & vs2 & Hp). exists vs1, vs2. rewrite verdicts_step in Hp.
      cbn [step_reader index src] in Hp. rewrite Hr in Hp.
      destruct Hp. by split. }
  assert (Hend : boundary c (index c) +w plain_span v = boundary c (index c + 1)).
  { unfold add64. rewrite wrap64_small; unfold_width; lia. }
  destruct (decide (index c < k)) as [Hik|Hik].
  { (* before where the slice left off: skipped *)
    assert (boundary c (index c + 1) ≤ boundary c k) as Hle by (apply boundary_mono; lia).
    assert (Hskip : drop (Z.to_nat (k - index c)) (v :: rest) =
      drop (Z.to_nat (k - (index c + 1))) rest).
    { replace (Z.to_nat (k - index c)) with (S (Z.to_nat (k - (index c + 1)))) by lia. done. }
    rewrite Hskip. replace (Z.max (index c) k) with (Z.max (index c + 1) k) in Hlen by lia.
    specialize (HIH content s Hi Hlen Hhb Hbd).
    destruct v as [n' buf]. cbn [fst snd] in *. unfold plain_span in Hend. cbn [fst snd] in Hend.
    destruct Hvc as [->|[-> _]]; cbn [fst] in *;
      rewrite Hend, bool_decide_false by lia; [|done]. apply runs_bind, runs_ret, HIH. }
  replace (Z.max (index c) k) with (index c) in Hlen by lia.
  replace (Z.max (index c + 1) k) with (index c + 1) in HIH by lia.
  replace (Z.to_nat (k - index c)) with 0%nat by lia.
  replace (Z.to_nat (k - (index c + 1))) with 0%nat in HIH by lia. rewrite !drop_0 in *.
  pose proof (boundary_mono c k (index c) ltac:(lia)) as Hkb.
  assert (Hspan0 : 0 ≤ plain_span v) by lia.
  assert (Hw : Z.of_nat (length content) + plain_span v ≤ u64_max) by lia.
  assert (Hempty : ¬ boundary c k < boundary c (index c + 1) → plain_span v = 0) by lia.
  assert (Hpl : Z.of_nat (length (content ++ piece v)) = boundary c (index c + 1)).
  { rewrite length_app, Nat2Z.inj_add, piece_length by done. lia. }
  (* taken: what the sink was given, and the rest *)
  assert (Htake : ∀ s1, sink_inv (content ++ piece v) s1 → sink s1 = sink s →
    (gone s = true → gone s1 = true) → (opened s → opened s1) →
    holes s1 = holes s ++ hole_at (Z.of_nat (length content)) (lost v) →
    hole_bytes s1 = hole_bytes s + lost v →
    (bound s1 = Some (header c) ∨ bound s1 = bound s ∧ piece v = []) →
    (mode = Strict → bad v = false ∨ plain_span v = 0) →
    runs s1 (deliver_loop fuel mode (boundary c k) (step_reader c r) (boundary c (index c + 1)))
      (λ r s', ∃ vs1 vs2, loop_post c mode content s (v :: rest) vs1 vs2 r s')
      failed).
  { intros s1 H1 Hs1 Hg1 Hop1 Hh1 Hb1' Hbd1 Hst. assert (0 ≤ lost v ≤ plain_span v) as Hlv.
    { unfold lost, plain_span in *. destruct v.1; lia. }
    eapply runs_weaken; [apply (HIH _ s1 H1 Hpl)| |done].
    - rewrite length_app, Nat2Z.inj_add, piece_length by done. lia.
    - destruct Hbd1 as [->|[-> _]]; auto.
    - intros r' s' (vs1 & vs2 & Hp). exists (v :: vs1), vs2.
      eapply loop_post_cons; [exact Hp|..]; try done.
      + destruct Hbd1 as [?|[? _]]; auto.
      + destruct Hbd1 as [->|[-> _]]; auto.
      + destruct Hbd1 as [->|[_ ?]]; [eauto|done]. }
  assert (Hbind : ∀ Q : () → SliceOut → Prop,
    (∀ s1, sink_inv content s1 → bound s1 = Some (header c) → sink s1 = sink s → gone s1 = gone s →
      holes s1 = holes s → hole_bytes s1 = hole_bytes s → Q () s1) →
    runs s (bind_to (header c)) Q failed).
  { intros Q HQ. apply runs_modify. destruct Hbd as [Hbd|Hbd]; rewrite Hbd.
    - apply HQ; try done. by destruct Hi.
    - by apply HQ. }
  clear HIH. destruct v as [n' buf]. unfold plain_span in Hend, Hspan, Hspan0, Hw, Hempty.
  cbn [fst snd] in *.
  destruct Hvc as [->|[-> ->]]; cbn [fst snd] in *; rewrite Hend; case_bool_decide as Hse.
  - apply runs_bind, runs_bind, Hbind. intros s1 Hi1 Hbd1 Hs1 Hg1 Hh1 Hhb1.
    assert (boundary c k -sat boundary c (index c) = 0) as ->.
    { unfold sat_sub64. lia. }
    change (drop (Z.to_nat 0) buf) with buf.
    eapply runs_weaken; [apply (put_inv content buf false s1 Hi1)| |done]; [lia|done|].
    intros [] s2 (Hi2 & Ho2 & Hf2 & Hg2). injection Hf2 as Hk2 Hsn Hbd2 Hho2 Hhb2 Hat Hun.
    apply Htake; try done; cbn [lost fst]; try congruence.
    + rewrite Hg1 in Hg2. auto.
    + rewrite app_nil_r. congruence.
    + rewrite Hhb2. lia.
    + left. congruence.
    + intros _. by left.
  - apply runs_bind, runs_ret. assert (buf = []) as -> by (apply length_zero_iff_nil; lia).
    apply Htake; cbn [lost fst piece]; rewrite ?app_nil_r, ?Z.add_0_r; auto.
  - apply runs_bind, runs_gets. unfold id. destruct (gone s) eqn:Hgs.
    { apply runs_ret. eexists [], _. apply loop_post_stop; [done|]. eauto. }
    destruct mode.
    { apply runs_ret. eexists [], _. apply loop_post_stop; [done|]. eauto 10. }
    apply runs_bind, Hbind. intros s1 Hi1 Hbd1 Hs1 Hg1 Hh1 Hhb1. apply runs_bind.
    assert (boundary c (index c + 1) -w boundary c k `max` boundary c (index c) =
      want_at c (index c) - TAG) as ->.
    { unfold sub64. rewrite Z.max_r by done. rewrite wrap64_small; unfold_width; lia. }
    eapply runs_weaken; [apply (hole_inv content (want_at c (index c) - TAG) s1 Hi1)| |done];
      try lia. intros [] s2 (Hi2 & Hh2 & Hhb2 & Hb2 & Hk2 & Hg2 & Ho2).
    apply Htake; try done; cbn [lost fst]; try congruence; try lia. left. congruence.
  - apply Htake; try done; cbn [lost fst].
    + unfold piece. cbn [fst]. rewrite Hempty by done. unfold zeros. cbn. by rewrite app_nil_r.
    + unfold hole_at. rewrite bool_decide_false by lia. by rewrite app_nil_r.
    + lia.
    + right. split; [done|]. unfold piece. cbn [fst]. by rewrite Hempty by done.
    + intros _. right. unfold plain_span. cbn [fst]. lia.
Qed.
End loop.

(** ** An attempt, and the account every attempt keeps *)

Definition file_verdicts `{!AgeCrate} (c : ChunkReader) : list (Next * list Z) :=
  verdicts (Z.to_nat (chunks c)) c 0 (flat (src c)).

(** The age file as its header identifies it: its key and its chunks,
    wherever it is read. *)
Definition same_file (c0 c : ChunkReader) : Prop :=
  aead c = aead c0 ∧ header c = header c0 ∧ chunks c = chunks c0 ∧ last_len c = last_len c0.

(** The first [k] chunks of the file, each as some read of it judged it: its
    plaintext if it authenticated, or zeros and a hole on the books. *)
Inductive account `{!AgeCrate} (c : ChunkReader) : Z → list Z → list (Z * Z) → Prop :=
| account_start : account c 0 [] []
| account_chunk k content hs w v :
    account c k content hs → k < chunks c →
    verdict c k (take (Z.to_nat (want_at c k)) w) = v →
    account c (k + 1) (content ++ piece v) (hs ++ hole_at (Z.of_nat (length content)) (lost v)).

(** The books of a slice whose bytes came from the file of [c]. *)
Record accounted `{!AgeCrate} (c : ChunkReader) (k : Z) (content : list Z) (s : SliceOut) : Prop := {
  ac_account : account c k content (holes s);
  ac_inv : sink_inv content s;
  ac_bytes : hole_bytes s = sumZ ((λ r, r.2 - r.1) <$> holes s);
  ac_bound : bound s = None ∧ content = [] ∨ bound s = Some (header c);
}.

Section attempt.
Context `{IO : !SinkIo, AC : !AgeCrate, AL : !AeadLaws}.

Lemma same_file_verdict c0 c i w : same_file c0 c → verdict c i w = verdict c0 i w ∧ want_at c i = want_at c0 i.
Proof. intros (Ha & _ & Hc & Hl). unfold verdict, want_at. by rewrite Ha, Hc, Hl. Qed.

Lemma account_index c k content hs :
  reader_ok c → account c k content hs →
  0 ≤ k ≤ chunks c ∧ Z.of_nat (length content) = boundary c k ∧
  0 ≤ sumZ ((λ r, r.2 - r.1) <$> hs) ≤ Z.of_nat (length content).
Proof.
  intros Hok. induction 1 as [|k content hs w v _ (Hk & Hl & Hs) Hlt Hv].
  - destruct Hok as [Hi Hc Hla _]. unfold boundary. change CHUNK with 65536.
    change TAG with 16 in *. cbn. lia.
  - pose proof (verdict_span c k w Hok) as Hsp. rewrite Hv in Hsp.
    pose proof (want_at_bounds c k Hok). pose proof (boundary_step c k Hok ltac:(lia)).
    assert (0 ≤ lost v ≤ plain_span v) as Hlo.
    { unfold lost, plain_span in *. destruct v.1; lia. }
    assert (sumZ ((λ r, r.2 - r.1) <$> hole_at (Z.of_nat (length content)) (lost v)) = lost v) as Hh.
    { unfold hole_at. case_bool_decide; cbn [fmap list_fmap sumZ foldr fst snd]; lia. }
    rewrite fmap_app, sumZ_app, Hh, length_app, Nat2Z.inj_add, piece_length by lia. lia.
Qed.

(** The verdicts of one read, added to the account one by one. *)
Lemma account_verdicts c c0 n i bytes content hs vs1 vs2 :
  reader_ok c0 → same_file c0 c → account c0 i content hs → i + Z.of_nat n = chunks c →
  verdicts n c i bytes = vs1 ++ vs2 →
  account c0 (i + Z.of_nat (length vs1)) (content ++ pieces vs1)
    (hs ++ hole_spans (Z.of_nat (length content)) vs1).
Proof.
  intros Hok Hsf. revert i bytes content hs vs1. induction n as [|n IH];
    intros i bytes content hs vs1 Ha Hn Hv; cbn [verdicts] in Hv.
  { symmetry in Hv. apply app_eq_nil in Hv as [-> ->]. cbn. by rewrite Z.add_0_r, !app_nil_r. }
  destruct vs1 as [|v vs1].
  { cbn. by rewrite Z.add_0_r, !app_nil_r. }
  injection Hv as Hv1 Hv2. destruct (same_file_verdict c0 c i (take (Z.to_nat (want_at c i)) bytes) Hsf) as [Hve Hwe].
  rewrite Hve, Hwe in Hv1.
  pose proof (account_chunk c0 i content hs bytes v Ha) as Hac.
  specialize (IH (i + 1) _ _ _ vs1 (Hac ltac:(destruct Hsf as (_ & _ & ? & _); lia) Hv1) ltac:(lia) Hv2).
  rewrite <-!app_assoc in IH. cbn [length]. replace (i + Z.of_nat (S (length vs1))) with
    (i + 1 + Z.of_nat (length vs1)) by lia.
  change (pieces (v :: vs1)) with (piece v ++ pieces vs1). cbn [hole_spans].
  rewrite length_app, Nat2Z.inj_add in IH.
  pose proof (verdict_span c0 i bytes Hok) as Hsp. rewrite Hv1 in Hsp.
  pose proof (want_at_bounds c0 i Hok). by rewrite piece_length in IH by lia.
Qed.

Lemma verdicts_drop c n k i bytes :
  (k ≤ n)%nat → ∃ bytes', drop k (verdicts n c i bytes) = verdicts (n - k) c (i + Z.of_nat k) bytes'.
Proof.
  revert n i bytes. induction k as [|k IH]; intros n i bytes Hk.
  - exists bytes. by rewrite drop_0, Nat.sub_0_r, Z.add_0_r.
  - destruct n as [|n]; [lia|]. cbn [verdicts drop].
    destruct (IH n (i + 1) (drop (Z.to_nat (want_at c i)) bytes)) as [b' ->]; [lia|].
    exists b'. f_equal. lia.
Qed.

(** One attempt, from where the slice was left. *)
Lemma decrypt_chunks_run data identities len mode s c k content :
  Z.of_nat (length data) ≤ u64_max → is_u64 len →
  open (from_slice data) identities len = Ok c → 0 ≤ k ≤ chunks c →
  sink_inv content s → Z.of_nat (length content) = boundary c k →
  0 ≤ hole_bytes s ≤ Z.of_nat (length content) →
  bound s = None ∨ bound s = Some (header c) →
  runs s (decrypt_chunks (from_slice data) identities len mode)
    (λ e s', ∃ vs1 vs2,
       loop_post c mode content s (drop (Z.to_nat k) (file_verdicts c)) vs1 vs2
         (stopped e, tail_damaged e) s' ∧
       sink_gone e = gone s' ∧ other_file e = false ∧ open_error e = None ∧ opened s')
    failed.
Proof.
  intros Hdata Hlen Hop Hk Hi Hcl Hhb Hbd.
  assert (content_of : Chunks.content (from_slice data) = data).
  { unfold from_slice. by rewrite content_unread, app_nil_r. }
  destruct (open_ok _ _ _ _ ltac:(by rewrite content_of) Hlen Hop) as (Hok & Hi0 & _ & Hst & _ & _).
  destruct (steady_gapless _ (Hst (steady_from_slice data))) as [Hg Hf].
  unfold runs, decrypt_chunks. rewrite Hop.
  assert (match bound s with Some b => bool_decide (b ≠ header c) | None => false end = false) as ->.
  { destruct Hbd as [->| ->]; [done|]. apply bool_decide_eq_false_2. intros Hn. by apply Hn. }
  assert (Hrun : runs s (open_sink;; skip ← gets delivered;
      deliver_loop (S (Z.to_nat (chunks c))) mode skip c 0)
    (λ r s', ∃ vs1 vs2, loop_post c mode content s (drop (Z.to_nat k) (file_verdicts c)) vs1 vs2 r s' ∧ opened s')
    failed).
  { apply runs_bind. eapply runs_weaken; [by apply open_sink_inv| |done].
    intros [] s1 (Hi1 & Ho1 & Hf1 & Hg1). injection Hf1 as Hk1 Hsn Hbd1 Hho1 Hhb1 Hat Hun.
    apply runs_bind, runs_gets. rewrite (si_delivered _ _ Hi1), Hcl.
    pose proof (boundary_mono c 0 (chunks c) ltac:(lia)).
    assert (boundary c 0 = 0) as Hz.
    { unfold boundary. destruct Hok as [_ Hc Hl _]. change CHUNK with 65536. change TAG with 16 in *. lia. }
    rewrite <-Hz, <-Hi0.
    eapply runs_weaken; [apply (deliver_loop_spec (Z.to_nat (chunks c)) _ mode c s1 content k)| |done];
      try done; try lia.
    - rewrite Hi0. by rewrite Z.max_r by lia.
    - by rewrite Hbd1.
    - rewrite Hi0, Z.sub_0_r. intros r s' (vs1 & vs2 & [? ? H3 H4 H5 H6 H6' H7 H8 ? ? ?]). exists vs1, vs2.
      split; [|by apply H6']. split; try done; try congruence.
      + auto.
      + auto.
      + by rewrite <-Hbd1. }
  unfold runs in Hrun. cbv beta in Hrun.
  destruct ((open_sink;; _) s) as [[[st tl]|e] s'].
  - destruct Hrun as (vs1 & vs2 & Hp & ?). exists vs1, vs2. done.
  - destruct Hrun as [Hgf ?]. by rewrite Hgf.
Qed.

Lemma hole_spans_none start vs :
  Forall (λ v, bad v = false ∨ plain_span v = 0) vs → hole_spans start vs = [].
Proof.
  intros Hvs. revert start. induction Hvs as [|v vs Hv _ IH]; intros start; [done|].
  cbn [hole_spans]. rewrite IH, app_nil_r. unfold hole_at. rewrite bool_decide_false; [done|].
  unfold bad, plain_span, lost in *. destruct v.1; [lia| |lia]. destruct Hv; [done|lia].
Qed.

Lemma hole_spans_sum start vs :
  Forall (λ v, 0 ≤ lost v) vs →
  sumZ ((λ r, r.2 - r.1) <$> hole_spans start vs) = sumZ (lost <$> vs).
Proof.
  intros Hvs. revert start. induction Hvs as [|v vs Hv _ IH]; intros start; [done|].
  cbn [hole_spans]. rewrite fmap_app, sumZ_app, IH.
  change (sumZ (lost <$> v :: vs)) with (lost v + sumZ (lost <$> vs)). f_equal.
  unfold hole_at. case_bool_decide; cbn [fmap list_fmap sumZ foldr fst snd]; lia.
Qed.

Lemma verdicts_lost n c i bytes : reader_ok c → Forall (λ v, 0 ≤ lost v) (verdicts n c i bytes).
Proof.
  intros Hok. revert i bytes. induction n as [|n IH]; intros i bytes; cbn [verdicts]; constructor; [|done].
  pose proof (want_at_bounds c i Hok).
  destruct (verdict_cases c i (take (Z.to_nat (want_at c i)) bytes) Hok) as (v & -> & [Hv|[Hv _]]);
    unfold lost; rewrite Hv; lia.
Qed.

(** The account after an attempt that read the same file. *)
Lemma attempt_accounted c0 c mode k content s vs1 vs2 r s' :
  reader_ok c0 → same_file c0 c → reader_ok c → accounted c0 k content s →
  loop_post c mode content s (drop (Z.to_nat k) (file_verdicts c)) vs1 vs2 r s' →
  accounted c0 (k + Z.of_nat (length vs1)) (content ++ pieces vs1) s'.
Proof.
  intros Hok Hsf Hokc [Ha Hi Hb Hbd] [Hv Hi' Hh Hhb Hk Hg _ Hbn Hbn' Ht Hst He].
  destruct (account_index c0 k content _ Hok Ha) as (Hkk & Hlen & _).
  pose proof Hsf as (_ & Hhd & Hch & _).
  destruct (verdicts_drop c (Z.to_nat (chunks c)) (Z.to_nat k) 0 (flat (src c))) as [bytes Hd]; [lia|].
  unfold file_verdicts in Hv. rewrite Hd in Hv.
  assert (Hl : Forall (λ v, 0 ≤ lost v) vs1).
  { pose proof (verdicts_lost (Z.to_nat (chunks c) - Z.to_nat k) c (0 + Z.of_nat (Z.to_nat k)) bytes Hokc) as Hf.
    rewrite Hv in Hf. by apply Forall_app in Hf as [? _]. }
  split.
  - rewrite Hh. replace k with (0 + Z.of_nat (Z.to_nat k)) by lia.
    eapply account_verdicts; [done|done| | |exact Hv].
    + by rewrite Z.add_0_l, Z2Nat.id by lia.
    + lia.
  - done.
  - rewrite Hhb, Hh, fmap_app, sumZ_app, Hb, hole_spans_sum by done. done.
  - rewrite Hhd in *. destruct Hbd as [[Hbd Hc]|Hbd]; [|right; auto].
    destruct (decide (pieces vs1 = [])) as [Hp|Hp].
    + rewrite Hp, Hc. destruct Hbn as [->|?]; auto.
    + destruct (Ht Hp) as [b Hbs]. destruct Hbn as [Hn|?]; [congruence|auto].
Qed.

Lemma decrypt_chunks_accounted c0 k content s data identities len mode c :
  reader_ok c0 → accounted c0 k content s →
  Z.of_nat (length data) ≤ u64_max → is_u64 len →
  open (from_slice data) identities len = Ok c → same_file c0 c →
  runs s (decrypt_chunks (from_slice data) identities len mode)
    (λ e s', other_file e = false ∧ open_error e = None ∧ sink_gone e = gone s' ∧ opened s' ∧ sink s' = sink s ∧
       (tail_damaged e = true → gone s' = true) ∧
       ∃ k' content', accounted c0 k' content' s' ∧ k ≤ k' ∧ content `prefix_of` content' ∧
         (mode = Strict → holes s' = holes s) ∧
         (stopped e = true → mode = Strict ∧ gone s' = false ∧ k' < chunks c0) ∧
         (stopped e = false → tail_damaged e = false → k' = chunks c0))
    failed.
Proof.
  intros Hok Hac Hdata Hlen Hop Hsf. pose proof Hac as [Ha Hi Hb Hbd].
  destruct (account_index c0 k content _ Hok Ha) as (Hk & Hcl & Hhb).
  pose proof Hsf as (_ & Hhd & Hch & Hll).
  assert (content_of : Chunks.content (from_slice data) = data).
  { unfold from_slice. by rewrite content_unread, app_nil_r. }
  destruct (open_ok _ _ _ _ ltac:(by rewrite content_of) Hlen Hop) as (Hokc & _).
  eapply runs_weaken; [eapply decrypt_chunks_run with (c := c) (k := k); try done| |done].
  - by rewrite Hch.
  - rewrite Hcl. unfold boundary. by rewrite Hch, Hll.
  - by rewrite Hb.
  - destruct Hbd as [[? _]|?]; [by left|right; congruence].
  - intros e s' (vs1 & vs2 & Hp & Hg & Hof & Hoe & Hopn). do 4 (split; [done|]). split; [apply Hp|].
    split.
    { intros Ht. pose proof (lp_end _ _ _ _ _ _ _ _ _ Hp) as He. rewrite Ht in He.
      destruct (stopped e); [done|]. by destruct He. }
    pose proof (attempt_accounted _ _ _ _ _ _ _ _ _ _ Hok Hsf Hokc Hac Hp) as Hac'.
    destruct (account_index c0 _ _ _ Hok (ac_account _ _ _ _ Hac')) as (Hk' & _ & _).
    assert (Z.of_nat (length vs1) + Z.of_nat (length vs2) = chunks c0 - k) as Hcount.
    { rewrite <-Nat2Z.inj_add, <-length_app, <-(lp_split _ _ _ _ _ _ _ _ _ Hp), length_drop.
      unfold file_verdicts. rewrite verdicts_length. lia. }
    destruct Hp as [_ _ Hh _ _ _ _ _ _ _ Hst He].
    exists (k + Z.of_nat (length vs1)), (content ++ pieces vs1). split; [done|]. split; [lia|].
    split; [by apply prefix_app_r|]. split; [|split].
    + intros Hm. rewrite Hh, hole_spans_none, app_nil_r; auto.
    + intros Hs. rewrite Hs in He. destruct (tail_damaged e); [done|].
      destruct He as (? & ? & v & l & -> & _). cbn [length] in Hcount. split; [done|]. split; [done|lia].
    + intros Hs Ht. rewrite Hs, Ht in He. subst vs2. cbn [length] in Hcount. lia.
Qed.

(** C35: whatever the cartridge gives and whatever the sink answers, an
    attempt keeps the account: the sink holds a prefix of the file's
    plaintext, chunk by chunk, each chunk one that authenticated under the
    one age file or zeros with its span on the books; a strict attempt leaves
    no new hole, and one that ends without stopping has accounted for every
    chunk. It fails only where the sink does. *)
Theorem decrypt_chunks_account c0 k content s data identities len mode c :
  reader_ok c0 → accounted c0 k content s →
  Z.of_nat (length data) ≤ u64_max → is_u64 len →
  open (from_slice data) identities len = Ok c → same_file c0 c →
  runs s (decrypt_chunks (from_slice data) identities len mode)
    (λ e s', other_file e = false ∧ open_error e = None ∧ sink_gone e = gone s' ∧
       ∃ k' content', accounted c0 k' content' s' ∧ k ≤ k' ∧ content `prefix_of` content' ∧
         (mode = Strict → holes s' = holes s) ∧
         (stopped e = true → mode = Strict ∧ gone s' = false ∧ k' < chunks c0) ∧
         (stopped e = false → tail_damaged e = false → k' = chunks c0))
    failed.
Proof.
  intros ? ? ? ? ? ?. eapply runs_weaken; [by eapply decrypt_chunks_accounted| |done].
  intros e s' (? & ? & ? & ? & ? & ? & ?). done.
Qed.

Lemma verdicts_span_pos n c i bytes :
  reader_ok c → TAG < last_len c → i + Z.of_nat n = chunks c →
  Forall (λ v, 0 < plain_span v) (verdicts n c i bytes).
Proof.
  intros Hok Hl. revert i bytes. induction n as [|n IH]; intros i bytes Hn; cbn [verdicts];
    constructor; [|apply IH; lia].
  rewrite verdict_span by done. unfold want_at. destruct Hok as [_ _ Hla _].
  change ENCRYPTED_CHUNK with 65552 in *. change TAG with 16 in *. case_bool_decide; lia.
Qed.

(** A strict attempt delivers the chunks past where the slice was left,
    up to the first that does not authenticate, and stops exactly there; with
    none, and the sink still taking, it delivers every one. *)
Theorem decrypt_chunks_strict c k content s data identities len :
  Z.of_nat (length data) ≤ u64_max → is_u64 len →
  open (from_slice data) identities len = Ok c → TAG < last_len c → accounted c k content s →
  runs s (decrypt_chunks (from_slice data) identities len Strict)
    (λ e s', gone s' = false →
       let good := take_while (λ v, negb (bad v)) (drop (Z.to_nat k) (file_verdicts c)) in
       received s' = content ++ pieces good ∧
       (stopped e = true ↔ Z.of_nat (length good) < chunks c - k))
    failed.
Proof.
  intros Hdata Hlen Hop Hl Hac. pose proof Hac as [Ha Hi Hb Hbd].
  assert (content_of : Chunks.content (from_slice data) = data).
  { unfold from_slice. by rewrite content_unread, app_nil_r. }
  destruct (open_ok _ _ _ _ ltac:(by rewrite content_of) Hlen Hop) as (Hok & _).
  destruct (account_index c k content _ Hok Ha) as (Hk & Hcl & Hhb).
  eapply runs_weaken; [eapply decrypt_chunks_run with (c := c) (k := k); try done| |done].
  - by rewrite Hb.
  - destruct Hbd as [[? _]|?]; auto.
  - intros e s' (vs1 & vs2 & Hp & _ & _ & _ & Hopn) Hg good.
    destruct Hp as [Hv Hi' _ _ _ _ _ _ _ _ Hst He].
    destruct (verdicts_drop c (Z.to_nat (chunks c)) (Z.to_nat k) 0 (flat (src c))) as [bytes Hd]; [lia|].
    fold (file_verdicts c) in Hd.
    pose proof (verdicts_span_pos (Z.to_nat (chunks c) - Z.to_nat k) c
      (0 + Z.of_nat (Z.to_nat k)) bytes Hok Hl ltac:(lia)) as Hpos.
    assert (length vs1 + length vs2 = Z.to_nat (chunks c) - Z.to_nat k)%nat as Hcount.
    { rewrite <-length_app, <-Hv, Hd. apply verdicts_length. }
    rewrite <-Hd, Hv in Hpos. apply Forall_app in Hpos as [Hpos _].
    assert (Hgood : Forall (λ v, negb (bad v) = true) vs1).
    { specialize (Hst eq_refl). rewrite Forall_forall in *. intros v Hin.
      destruct (Hst v Hin) as [->|?]; [done|]. specialize (Hpos v Hin). lia. }
    assert (good = vs1 ∧ (stopped e = true ↔ vs2 ≠ [])) as [-> Hstop].
    { unfold good. rewrite Hv. destruct (stopped e), (tail_damaged e); try done.
      - destruct He as (_ & _ & v & l & -> & Hbad). split; [|done].
        apply take_while_app; [done|]. by rewrite Hbad.
      - destruct He as [? _]. congruence.
      - subst vs2. rewrite app_nil_r. split; [by apply take_while_all|done]. }
    split; [apply (si_received _ _ Hi'); [done|rewrite <-(si_gone _ _ Hi'); done]|].
    rewrite Hstop. destruct vs2; cbn [length] in Hcount; split; intros; try done; lia.
Qed.
End attempt.

(** ** Concrete attempts *)

Definition obliging_sink : SinkIo := λ _ _, Done.

Definition toy_out : SliceOut := new_out FileSink 1.

Lemma toy_accounted good : @accounted toy_age (toy_reader good) 0 [] toy_out.
Proof.
  split; [constructor| |done|by left]. split; try done. intros _ _ _. split; [done|by left].
Qed.

Lemma decrypt_chunks_account_witness :
  @runs _ toy_out (@decrypt_chunks obliging_sink toy_age (from_slice (toy_file false)) [tt] 39 Tolerant)
    (λ e s', other_file e = false ∧ open_error e = None ∧ sink_gone e = gone s' ∧
       ∃ k' content', @accounted toy_age (toy_reader true) k' content' s' ∧ 0 ≤ k' ∧
         [] `prefix_of` content' ∧ (Tolerant = Strict → holes s' = []) ∧
         (stopped e = true → Tolerant = Strict ∧ gone s' = false ∧ k' < 1) ∧
         (stopped e = false → tail_damaged e = false → k' = 1)) failed.
Proof.
  apply (@decrypt_chunks_account obliging_sink toy_age toy_laws (toy_reader true) 0 [] toy_out
           (toy_file false) [tt] 39 Tolerant (toy_reader false));
    [apply toy_reader_ok|apply toy_accounted|by_decide|by_decide|vm_compute; reflexivity|done].
Defined.

Lemma decrypt_chunks_strict_witness :
  @runs _ toy_out (@decrypt_chunks obliging_sink toy_age (from_slice (toy_file false)) [tt] 39 Strict)
    (λ e s', gone s' = false →
       let good := take_while (λ v, negb (bad v))
                     (drop (Z.to_nat 0) (@file_verdicts toy_age (toy_reader false))) in
       received s' = [] ++ pieces good ∧ (stopped e = true ↔ Z.of_nat (length good) < 1 - 0)) failed.
Proof.
  apply (@decrypt_chunks_strict obliging_sink toy_age toy_laws (toy_reader false) 0 [] toy_out
           (toy_file false) [tt] 39);
    [by_decide|by_decide|vm_compute; reflexivity|by_decide|apply toy_accounted].
Defined.
