(* ===== verification/Supply.v ===== *)
(** * Where a restore's slices come from: [src/volume/restore/supply.rs]

    The supply a restore reads every slice through: the cartridge in the
    drive, the choice of the next read, one attempt, the swap of cartridges,
    and the last resort with holes. The catalog ([slice_holders]), the drive
    and the person at it are interfaces; contacts, notes and messages are not
    modelled. *)

From S2P Require Import Prelude Slice SliceHeader Chunks SliceOut.
Local Open Scope Z_scope.
Local Open Scope rust_scope.

(** ** Values *)

Inductive Standing : Type := InService | Quarantined.

Record Holder : Type := mkHolder {
  h_volume : Z;
  h_label : string;
  h_position : Z;
  h_standing : Standing;
}.

(** [WritePositionInfo]. *)
Record WritePosition : Type := mkWritePosition {
  stage_set_id : Z;
  volume_id : Z;
  wp_slice : Z;
  position : string;
  sha256_plain : string;
  sha256_encrypted : string;
  encrypted_bytes : Z;
}.

Inductive Answer : Type := Loaded | Skip | Stop.

(** [to_ascii_lowercase]. *)
Definition lower (c : Ascii.ascii) : Ascii.ascii :=
  let n := Ascii.N_of_ascii c in
  if bool_decide (65 ≤ n ≤ 90)%N then Ascii.ascii_of_N (n + 32) else c.
Fixpoint to_ascii_lowercase (s : string) : string :=
  match s with EmptyString => EmptyString | String c s => String (lower c) (to_ascii_lowercase s) end.

(** [parse_answer], of a line whose white space is trimmed. *)
Definition parse_answer (trimmed : string) : Answer :=
  let line := to_ascii_lowercase trimmed in
  if bool_decide (line ∈ [""; "y"; "yes"; "ok"; "loaded"; "done"]%string) then Loaded
  else if bool_decide (line ∈ ["s"; "skip"]%string) then Skip
  else Stop.

(** [str::parse::<u32>]: digits, after an optional plus. *)
Definition digit_of (c : Ascii.ascii) : option Z :=
  let n := Z.of_N (Ascii.N_of_ascii c) in
  if bool_decide (48 ≤ n ≤ 57) then Some (n - 48) else None.

Fixpoint parse_digits (s : string) (acc : Z) : option Z :=
  match s with
  | EmptyString => Some acc
  | String c s => d ← digit_of c; n ← try_u32 (acc * 10 + d); parse_digits s n
  end.

Definition parse_u32 (s : string) : option Z :=
  match s with
  | EmptyString => None
  | String c r =>
      if bool_decide (Ascii.N_of_ascii c = 43%N) && bool_decide (r ≠ EmptyString)
      then parse_digits r 0
      else parse_digits s 0
  end.

(** [db::files::sha256_from_hex]: 64 lower-case hex characters. *)
Definition nibble (c : Ascii.ascii) : option Z :=
  let n := Z.of_N (Ascii.N_of_ascii c) in
  if bool_decide (48 ≤ n ≤ 57) then Some (n - 48)
  else if bool_decide (97 ≤ n ≤ 102) then Some (n - 97 + 10) else None.

Fixpoint hex_pairs (s : string) : option (list Z) :=
  match s with
  | String a (String b s) =>
      hi ← nibble a; lo ← nibble b; l ← hex_pairs s; Some (Z.lor (Z.shiftl hi 4) lo :: l)
  | EmptyString => Some []
  | _ => None
  end.

Definition sha256_from_hex (hex : string) : option (list Z) :=
  if bool_decide (String.length hex = 64%nat) then hex_pairs hex else None.

(** Why a slice could not be had from the cartridge it was read from. *)
Inductive Defect : Type :=
| DRead (message : string)
| DHash (actual : string)
| DChunk
| DOtherFile.

(** [Defect::substitutable]: another copy can help. *)
Definition substitutable (d : Defect) : bool :=
  match d with DChunk => false | _ => true end.

Record Substitution : Type := mkSubstitution {
  sub_slice : Z;
  supplied_by : string;
  damaged_on : string;
  sub_defect : Defect;
}.

(** Why a plaintext could not be shown to be the slice. *)
Inductive Why : Type := NoChecksumRecorded | StreamedUnhashed.

Inductive DamageReason : Type :=
| UnprovenBecause (why : Why)
| DarStopped
| PlaintextWrong
| Holed.

Record Damage : Type := mkDamage {
  dam_slice : Z;
  dam_volume : string;
  dam_cause : option (string * Defect);
  dam_reason : DamageReason;
  dam_holes : list (Z * Z);
}.

Inductive Proof_ : Type := Whole | Wrong | Unproven (why : Why).

Inductive Attempt : Type :=
| AComplete
| ASinkGone
| AStopped (d : Defect)
| AUnproven (d : Defect) (why : Why).

Inductive Choice : Type :=
| Here (position : Z)
| NextOn (h : Holder)
| Elsewhere (h : Holder)
| Nowhere.

Inductive Changed : Type := ChangedLoaded | Declined.

Inductive RestoreError : Type :=
| RSink (cause : option (string * Defect)) (e : SupplyError)
| RAge (e : AgeError)
| RNoPosition (slice : Z) (position : string)
| RHeldByNone (slice : Z)
| RNotReadAround (cause : option (string * Defect)) (e : AgeError)
| ROtherFile (matches_catalog : bool) (cause : option (string * Defect))
| RWrongInStream (slice : Z)
| RUnattended (slice : Z) (first : option (string * Defect)) (holders : list Holder)
| RNotLoaded (slice : Z) (label : string)
| RStopped (label : string)
| RNothingToGoOnWith
| RCatalog (message : string)
| RArrive (message : string)
| RFuel.

(** ** Interfaces *)

(** [slice_holders], over the catalog. *)
Class Catalog : Type := {
  holders_of : string → result string (list Holder);
  other_copies_exist : Z → Z → result string bool;
}.

(** The drive and the person at it ([Bay]). A cartridge read may differ from
    one read to the next; identifying one is [Bay::load] and
    [corroborate_at_contact] against a volume and its label. *)
Class Bay : Type := {
  Cartridge : Type;
  (** The bytes the read of a tape file gave, and its failure. *)
  read_file : Cartridge → nat → Z → list Z * option string;
  identify : Cartridge → option Z → string → result string unit;
  attended : bool;
}.

Section supply.
Context `{IO : !SinkIo, AC : !AgeCrate, SH : !Sha256, CT : !Catalog, BY : !Bay}.

(** The supply. [script]: what the operator will answer to each prompt, and
    the cartridge in the drive by then; past its end the input is closed. *)
Record Supply : Type := mkSupply {
  here : option (option Z * string);
  drive : Cartridge;
  reads : nat;
  script : list (Answer * Cartridge);
  bad : gmap (Z * string) Z;
  hash_bad : gset (Z * string);
  last_position : option Z;
  sole : gmap (Z * Z) bool;
  substitutions : list Substitution;
  damage : list Damage;
}.

Section setters.
Variable s : Supply.
Definition set_here (h : option (option Z * string)) : Supply :=
  mkSupply h (drive s) (reads s) (script s) (bad s) (hash_bad s) (last_position s) (sole s)
    (substitutions s) (damage s).
Definition set_drive (c : Cartridge) (sc : list (Answer * Cartridge)) : Supply :=
  mkSupply (here s) c (reads s) sc (bad s) (hash_bad s) (last_position s) (sole s)
    (substitutions s) (damage s).
Definition set_reads (n : nat) : Supply :=
  mkSupply (here s) (drive s) n (script s) (bad s) (hash_bad s) (last_position s) (sole s)
    (substitutions s) (damage s).
Definition set_bad (b : gmap (Z * string) Z) (hb : gset (Z * string)) : Supply :=
  mkSupply (here s) (drive s) (reads s) (script s) b hb (last_position s) (sole s)
    (substitutions s) (damage s).
Definition set_last_position (p : option Z) : Supply :=
  mkSupply (here s) (drive s) (reads s) (script s) (bad s) (hash_bad s) p (sole s)
    (substitutions s) (damage s).
Definition set_sole (m : gmap (Z * Z) bool) : Supply :=
  mkSupply (here s) (drive s) (reads s) (script s) (bad s) (hash_bad s) (last_position s) m
    (substitutions s) (damage s).
Definition set_account' (sb : list Substitution) (d : list Damage) : Supply :=
  mkSupply (here s) (drive s) (reads s) (script s) (bad s) (hash_bad s) (last_position s) (sole s)
    sb d.
End setters.

(** An operation of the supply on a slice's output. *)
Definition sop (A : Type) : Type :=
  Supply * SliceOut → result RestoreError A * (Supply * SliceOut).
#[export] Instance sop_ret : MRet sop := λ A a s, (Ok a, s).
#[export] Instance sop_bind : MBind sop := λ A B f m s,
  match m s with (Ok a, s) => f a s | (Err e, s) => (Err e, s) end.

Definition sfails {A} (e : RestoreError) : sop A := λ s, (Err e, s).
Definition sup {A} (f : Supply → A) : sop A := λ s, (Ok (f s.1), s).
Definition outs {A} (f : SliceOut → A) : sop A := λ s, (Ok (f s.2), s).
Definition upd (f : Supply → Supply) : sop unit := λ s, (Ok (), (f s.1, s.2)).
Definition lift {A} (r : result RestoreError A) : sop A := λ s, (r, s).
(** An operation of the output's, its failure left to the caller, or not. *)
Definition on_out {A} (m : op A) : sop (result SupplyError A) := λ s,
  let '(r, o) := m s.2 in (Ok r, (s.1, o)).
Definition in_out {A} (m : op A) : sop A := λ s,
  let '(r, o) := m s.2 in (map_err (RSink None) r, (s.1, o)).

Definition here_volume (s : Supply) : option Z := p ← here s; p.1.
Definition here_label (s : Supply) : option string := snd <$> here s.
Definition label_or (s : Supply) : string := default ""%string (here_label s).

(** [mark_bad], [record_damage], [supplied]. *)
Definition mark_bad (sha : string) (at_ : Z) : sop unit := upd (λ s,
  match here_volume s with
  | Some v => set_bad s (<[(v, sha) := at_]> (bad s)) (hash_bad s)
  | None => s
  end).

Definition mark_hash_bad (sha : string) : sop unit := upd (λ s,
  match here_volume s with
  | Some v => set_bad s (bad s) ({[(v, sha)]} ∪ hash_bad s)
  | None => s
  end).

Definition record_damage (wp : WritePosition) (volume : string) (cause : option (string * Defect))
    (reason : DamageReason) (hs : list (Z * Z)) : sop unit :=
  upd (λ s, set_account' s (substitutions s)
              (damage s ++ [mkDamage (wp_slice wp) volume cause reason hs])).

Definition supplied (wp : WritePosition) (on : string) (d : Defect) : sop unit :=
  upd (λ s,
    let supplier := label_or s in
    if bool_decide (supplier = on) then s
    else set_account' s (substitutions s ++ [mkSubstitution (wp_slice wp) supplier on d]) (damage s)).

(** ** Changing the cartridge *)

(** [leave]: the cartridge in the drive goes. *)
Definition leave : sop unit := upd (λ s, set_last_position (set_here s None) None).

(** [arrive]: the drive is opened on what is in it, which must be [label]. *)
Definition arrive (volume : option Z) (label : string) : sop (result string unit) := λ s,
  match identify (drive s.1) volume label with
  | Ok _ => (Ok (Ok ()), (set_last_position (set_here s.1 (Some (volume, label))) None, s.2))
  | Err e => (Ok (Err e), s)
  end.

(** The prompt: the next answer, and the cartridge in the drive by then. An
    input that has ended is [Stop]. *)
Definition ask : sop Answer := λ s,
  match script s.1 with
  | [] => (Ok Stop, s)
  | (a, c) :: rest => (Ok a, (set_drive s.1 c rest, s.2))
  end.

(** [return_to]: the cartridge that was in the drive is opened again, asked
    for back as long as it is not the one there. [fuel] bounds the prompts. *)
Fixpoint return_to (fuel : nat) (volume : option Z) (label : string) : sop unit :=
  r ← arrive volume label;
  match r with
  | Ok _ => mret ()
  | Err e =>
      a ← ask;
      match a, fuel with
      | Loaded, S fuel => return_to fuel volume label
      | Loaded, O => sfails RFuel
      | _, _ => sfails (RArrive e)
      end
  end.

(** The loop of [change_to] over the answers. *)
Fixpoint change_loop (fuel : nat) (volume : Z) (label : string) (may_skip : bool)
    (previous : option (option Z * string)) (saved : option Z) : sop Changed :=
  a ← ask;
  match a with
  | Loaded =>
      r ← arrive (Some volume) label;
      match r, fuel with
      | Ok _, _ => mret ChangedLoaded
      | Err _, S fuel => change_loop fuel volume label may_skip previous saved
      | Err _, O => sfails RFuel
      end
  | Skip =>
      if may_skip then
        match previous with
        | None => sfails RNothingToGoOnWith
        | Some (pv, pl) =>
            n ← sup (λ s, length (script s));
            return_to n pv pl;;
            upd (λ s, set_last_position s saved);;
            mret Declined
        end
      else sfails (RStopped label)
  | Stop => sfails (RStopped label)
  end.

(** [change_to]. *)
Definition change_to (volume : Z) (label : string) (may_skip : bool) : sop Changed :=
  previous ← sup here;
  saved ← sup last_position;
  leave;;
  n ← sup (λ s, length (script s));
  change_loop n volume label may_skip previous saved.

(** ** One attempt *)

(** What one attempt measured ([Raw]). *)
Record Raw : Type := mkRaw {
  raw_read : option string;   (* the tape read's failure *)
  hash_ok : bool;
  actual_hash : string;
  raw_ended : result SupplyError Ended;
}.

(** [Raw::defect]. *)
Definition raw_defect (r : Raw) : option Defect :=
  match raw_read r with
  | Some e => Some (DRead e)
  | None => if negb (hash_ok r) then Some (DHash (actual_hash r)) else None
  end.

(** [wp.encrypted_bytes.max(0) as u64]. *)
Definition encrypted_of (wp : WritePosition) : Z := Z.max (encrypted_bytes wp) 0.

(** [attempt_raw]: what the tape gives, cut to the slice's recorded length,
    is hashed, and decrypted into the sink. *)
Definition attempt_raw (pos : Z) (wp : WritePosition) (identities : list Identity) (mode : Mode) :
    sop Raw :=
  in_out begin_attempt;;
  n ← sup reads;
  c ← sup drive;
  let '(tape, failure) := read_file c n pos in
  upd (λ s, set_reads s (S n));;
  let data := take (Z.to_nat (encrypted_of wp)) tape in
  ended ← on_out (decrypt_chunks (from_slice data) identities (encrypted_of wp) mode);
  let actual := hex_text (sha256 data) in
  mret (mkRaw failure (bool_decide (actual = sha256_encrypted wp)) actual ended).

(** [prove_plaintext]. *)
Definition prove_plaintext (wp : WritePosition) : sop Proof_ :=
  match sha256_from_hex (sha256_plain wp) with
  | None => mret (Unproven NoChecksumRecorded)
  | Some recorded =>
      d ← in_out plain_digest;
      match d with
      | Some got => if bool_decide (got = recorded) then mret Whole else mret Wrong
      | None => mret (Unproven StreamedUnhashed)
      end
  end.

Definition is_file (k : SliceSink) : bool := match k with FileSink => true | _ => false end.

(** What [attempt] makes of what it measured; [again] is the read afresh. *)
Definition judge_attempt (again : sop Attempt) (wp : WritePosition) (raw : Raw) : sop Attempt :=
  let defect := raw_defect raw in
  label ← sup label_or;
  match raw_ended raw with
  | Err e => sfails (RSink ((λ d, (label, d)) <$> defect) e)
  | Ok ended =>
      match open_error ended with
      | Some e => match defect with Some d => mret (AStopped d) | None => sfails (RAge e) end
      | None =>
          if sink_gone ended then
            (if negb (hash_ok raw) || tail_damaged ended then
               record_damage wp label (Some (label, default DChunk defect)) DarStopped []
             else mret ());;
            mret ASinkGone
          else if other_file ended then
            if hash_ok raw then
              k ← outs sink;
              if is_file k then in_out reset;; again
              else sfails (ROtherFile true None)
            else mret (AStopped DOtherFile)
          else if stopped ended then mret (AStopped (default DChunk defect))
          else if hash_ok raw then mret AComplete
          else
            match defect with
            | None => mret AComplete
            | Some d =>
                p ← prove_plaintext wp;
                match p with
                | Whole => mret AComplete
                | Wrong =>
                    k ← outs sink;
                    if is_file k then in_out reset;; mret (AStopped d)
                    else sfails (RWrongInStream (wp_slice wp))
                | Unproven why => mret (AUnproven d why)
                end
            end
      end
  end.

(** [attempt]: one strict read. It starts over once, after a [reset]. *)
Fixpoint attempt (fuel : nat) (pos : Z) (wp : WritePosition) (identities : list Identity) :
    sop Attempt :=
  raw ← attempt_raw pos wp identities Strict;
  judge_attempt
    (match fuel with O => sfails RFuel | S fuel => attempt fuel pos wp identities end) wp raw.

(** ** A slice *)

(** [sole_copy]: asked of the catalog once per stage set and cartridge. *)
Definition sole_copy (wp : WritePosition) : sop bool :=
  v ← sup here_volume;
  match v with
  | None => mret true
  | Some volume =>
      m ← sup sole;
      match m !! (stage_set_id wp, volume) with
      | Some b => mret b
      | None =>
          others ← lift (map_err RCatalog (other_copies_exist (stage_set_id wp) volume));
          upd (λ s, set_sole s (<[(stage_set_id wp, volume) := negb others]> (sole s)));;
          mret (negb others)
      end
  end.

(** A volume is asked for a slice until it fails it, and again once another
    has delivered past where it failed; one whose copy does not hash can
    never prove a slice already delivered in full. *)
Definition usable (s : Supply) (sha : string) (at_ : Z) (awaiting_proof : bool) (volume : Z) : bool :=
  match bad s !! (volume, sha) with None => true | Some b => bool_decide (b < at_) end &&
  negb (awaiting_proof && bool_decide ((volume, sha) ∈ hash_bad s)).

Definition parse_position (wp : WritePosition) : result RestoreError Z :=
  ok_or (parse_u32 (position wp)) (RNoPosition (wp_slice wp) (position wp)).

Definition find {A} (p : A → bool) (l : list A) : option A := find_map (λ x, if p x then Some x else None) l.

(** The last clauses of [choose]: any other holder; before it, the cartridge
    the plan reads the slice from. *)
Definition elsewhere (ok : Z → bool) (here : Z) (all : list Holder) : Choice :=
  match find (λ h, negb (bool_decide (h_volume h = here)) && ok (h_volume h)) all with
  | Some h => Elsewhere h
  | None => Nowhere
  end.

Definition planned (ok : Z → bool) (here plan : Z) (tried : bool) (all : list Holder) : Choice :=
  match (if bool_decide (plan = here) then None
         else find (λ h, bool_decide (h_volume h = plan) && ok (h_volume h)) all) with
  | Some h => if tried then Elsewhere h else NextOn h
  | None => elsewhere ok here all
  end.

(** [choose]: where the next read of the slice comes from, and the holders
    once the catalog has been asked. *)
Definition choose (wp : WritePosition) (at_ : Z) (tried awaiting_proof : bool)
    (holders : option (list Holder)) : sop (Choice * option (list Holder)) :=
  s ← sup id;
  let ok := usable s (sha256_encrypted wp) at_ awaiting_proof in
  match here_volume s with
  | None =>
      if tried then mret (Nowhere, holders)
      else p ← lift (parse_position wp); mret (Here p, holders)
  | Some here =>
      if bool_decide (here = volume_id wp) && ok here then
        p ← lift (parse_position wp); mret (Here p, holders)
      else
        all ← match holders with
              | Some l => mret l
              | None => lift (map_err RCatalog (holders_of (sha256_encrypted wp)))
              end;
        match (if ok here then find (λ h, bool_decide (h_volume h = here)) all else None) with
        | Some h => mret (Here (h_position h), Some all)
        | None => mret (planned ok here (volume_id wp) tried all, Some all)
        end
  end.

(** What [salvage] makes of what it measured; [again] is the salvage afresh. *)
Definition judge_salvage (again : option (string * Defect) → sop unit) (wp : WritePosition)
    (first : option (string * Defect)) (before_holes : nat) (raw : Raw) : sop unit :=
  label ← sup label_or;
  let cause :=
    match first with Some c => Some c | None => (λ d, (label, d)) <$> raw_defect raw end in
  match raw_ended raw with
  | Err e => sfails (RSink cause e)
  | Ok ended =>
      match open_error ended with
      | Some e => sfails (RNotReadAround cause e)
      | None =>
          if other_file ended then
            k ← outs sink;
            if hash_ok raw && is_file k then in_out reset;; again cause
            else sfails (ROtherFile (hash_ok raw) cause)
          else
            new_holes ← outs (λ o, drop before_holes (holes o));
            if sink_gone ended && bool_decide (new_holes = []) then
              if negb (hash_ok raw) || tail_damaged ended then
                record_damage wp label cause DarStopped []
              else mret ()
            else if bool_decide (new_holes = []) then
              p ← (if hash_ok raw then mret Whole else prove_plaintext wp);
              match p with
              | Whole => match cause with Some (on, d) => supplied wp on d | None => mret () end
              | Wrong =>
                  k ← outs sink;
                  if is_file k then
                    len ← outs delivered;
                    in_out reset;;
                    in_out (hole len);;
                    hs ← outs holes;
                    record_damage wp label cause PlaintextWrong hs
                  else sfails (RWrongInStream (wp_slice wp))
              | Unproven why => record_damage wp label cause (UnprovenBecause why) []
              end
            else record_damage wp label cause Holed new_holes
      end
  end.

(** [salvage]: the rest of the slice from the cartridge in the drive, a hole
    of zeros for every chunk that does not authenticate. It starts over once,
    after a [reset]. *)
Fixpoint salvage (fuel : nat) (wp : WritePosition) (identities : list Identity)
    (first : option (string * Defect)) : sop unit :=
  lp ← sup last_position;
  match lp with
  | None => sfails (RHeldByNone (wp_slice wp))
  | Some pos =>
      before_holes ← outs (λ o, length (holes o));
      raw ← attempt_raw pos wp identities Tolerant;
      judge_salvage
        (λ cause, match fuel with O => sfails RFuel | S fuel => salvage fuel wp identities cause end)
        wp first before_holes raw
  end.

(** What the loop of [fill_slice] carries from round to round. *)
Record Filling : Type := mkFilling {
  f_holders : option (list Holder);
  f_first : option (string * Defect);
  f_unproven : option (string * Defect * Why);
  f_tried : bool;
}.

(** The end of the loop: an unproven slice goes on the books, any other is
    salvaged. *)
Definition fill_end (wp : WritePosition) (identities : list Identity) (f : Filling) : sop unit :=
  match f_unproven f with
  | Some (on, d, why) => record_damage wp on (Some (on, d)) (UnprovenBecause why) []
  | None => salvage 1 wp identities (f_first f)
  end.

Fixpoint fill_loop (fuel : nat) (wp : WritePosition) (identities : list Identity) (sole : bool)
    (f : Filling) : sop unit :=
  match fuel with
  | O => sfails RFuel
  | S fuel =>
      at_ ← outs delivered;
      '(choice, hs) ← choose wp at_ (f_tried f) (bool_decide (is_Some (f_unproven f))) (f_holders f);
      let f := mkFilling hs (f_first f) (f_unproven f) (f_tried f) in
      match choice with
      | Here pos =>
          upd (λ s, set_last_position s (Some pos));;
          let f := mkFilling hs (f_first f) (f_unproven f) true in
          if sole then fill_end wp identities f
          else
            a ← attempt 1 pos wp identities;
            match a with
            | AComplete =>
                match f_first f with Some (on, d) => supplied wp on d | None => mret () end
            | ASinkGone => mret ()
            | AStopped d | AUnproven d _ =>
                label ← sup label_or;
                at_ ← outs delivered;
                mark_bad (sha256_encrypted wp) at_;;
                (match d with DHash _ => mark_hash_bad (sha256_encrypted wp) | _ => mret () end);;
                let unproven :=
                  match a with AUnproven d why => Some (label, d, why) | _ => f_unproven f end in
                let first := match f_first f with Some c => Some c | None => Some (label, d) end in
                let f := mkFilling hs first unproven true in
                if substitutable d then fill_loop fuel wp identities sole f
                else fill_end wp identities f
            end
      | NextOn h =>
          if negb attended then sfails (RUnattended (wp_slice wp) (f_first f) (default [] hs))
          else
            c ← change_to (h_volume h) (h_label h) false;
            match c with
            | ChangedLoaded => fill_loop fuel wp identities sole f
            | Declined => sfails (RNotLoaded (wp_slice wp) (h_label h))
            end
      | Elsewhere h =>
          if negb attended then sfails (RUnattended (wp_slice wp) (f_first f) (default [] hs))
          else
            c ← change_to (h_volume h) (h_label h) true;
            match c with
            | ChangedLoaded => fill_loop fuel wp identities sole f
            | Declined => fill_end wp identities f
            end
      | Nowhere => fill_end wp identities f
      end
  end.

(** [fill_slice]: a round reads, or uses up an answer of the operator's. *)
Definition fill_slice (wp : WritePosition) (identities : list Identity) : sop unit :=
  upd (λ s, set_last_position s None);;
  sole ← sole_copy wp;
  n ← sup (λ s, length (script s));
  fill_loop (2 * n + 3) wp identities sole (mkFilling None None None false).

(** [read_slice]: the authentic bytes delivered, and whether dar is gone. *)
Definition read_slice (wp : WritePosition) (identities : list Identity) (k : SliceSink) (s : Supply) :
    result RestoreError (Z * bool) * (Supply * SliceOut) :=
  let o := new_out k (wp_slice wp) in
  match fill_slice wp identities (s, o) with
  | (Ok _, s) =>
      (in_out finish;; o ← outs id; mret (delivered o -w hole_bytes o, gone o)) s
  | (Err e, s) => let '(_, s) := in_out discard s in (Err e, s)
  end.
End supply.
