(* ===== verification/SupplyLoop.v ===== *)
(** * The restore's choice of cartridges: theorems

    Where the next read of a slice comes from, what a swap leaves in the
    drive, and that the search for a slice ends. *)

From S2P Require Import Prelude Slice SliceHeader Chunks SliceOut Supply.
Local Open Scope Z_scope.
Local Open Scope rust_scope.

Section loop.
Context `{IO : !SinkIo, AC : !AgeCrate, SH : !Sha256, CT : !Catalog, BY : !Bay}.

(** ** Reasoning on the supply's operations *)

Definition sruns {A} (st : Supply * SliceOut) (m : sop A) (Q : A → Supply * SliceOut → Prop)
    (E : RestoreError → Supply * SliceOut → Prop) : Prop :=
  match m st with (Ok a, st') => Q a st' | (Err e, st') => E e st' end.

Lemma sruns_bind {A B} st (m : sop A) (f : A → sop B) Q E :
  sruns st m (λ a st', sruns st' (f a) Q E) E → sruns st (m ≫= f) Q E.
Proof. unfold sruns, mbind, sop_bind. by destruct (m st) as [[a|e] st']. Qed.

Lemma sruns_weaken {A} st (m : sop A) (Q Q' : A → Supply * SliceOut → Prop)
    (E E' : RestoreError → Supply * SliceOut → Prop) :
  sruns st m Q E → (∀ a st', Q a st' → Q' a st') → (∀ e st', E e st' → E' e st') →
  sruns st m Q' E'.
Proof. unfold sruns. destruct (m st) as [[a|e] st']; auto. Qed.

Lemma sruns_in_out {A} s o (m : op A) Q E :
  (∀ a o', m o = (Ok a, o') → Q a (s, o')) →
  (∀ e o', m o = (Err e, o') → E (RSink None e) (s, o')) → sruns (s, o) (in_out m) Q E.
Proof. intros H1 H2. unfold sruns, in_out. cbn. destruct (m o) as [[a|e] o'] eqn:Hm; [by apply H1|by apply H2]. Qed.

Lemma sruns_on_out {A} s o (m : op A) Q E :
  (∀ r o', m o = (r, o') → Q r (s, o')) → sruns (s, o) (on_out m) Q E.
Proof. intros H. unfold sruns, on_out. cbn. destruct (m o) as [r o'] eqn:Hm; by apply H. Qed.

Lemma sruns_lift {A} st (r : result RestoreError A) Q E :
  (∀ a, r = Ok a → Q a st) → (∀ e, r = Err e → E e st) → sruns st (lift r) Q E.
Proof. unfold sruns, lift. destruct r; auto. Qed.

Lemma sruns_sup {A} s o (f : Supply → A) Q E : Q (f s) (s, o) → sruns (s, o) (sup f) Q E.
Proof. done. Qed.
Lemma sruns_outs {A} s o (f : SliceOut → A) Q E : Q (f o) (s, o) → sruns (s, o) (outs f) Q E.
Proof. done. Qed.
Lemma sruns_upd s o f Q E : Q () (f s, o) → sruns (s, o) (upd f) Q E.
Proof. done. Qed.

(** ** What an attempt leaves alone *)

Definition whereabouts (s : Supply) := (here s, drive s, script s, bad s).

(** [m] stays where it is, and never runs out of fuel. *)
Definition stays {A} (m : sop A) : Prop :=
  ∀ s o, sruns (s, o) m (λ _ st, whereabouts st.1 = whereabouts s) (λ e st, e ≠ RFuel ∧ whereabouts st.1 = whereabouts s).

Lemma stays_ret {A} (a : A) : stays (mret a).
Proof. done. Qed.

Lemma stays_bind {A B} (m : sop A) (f : A → sop B) :
  stays m → (∀ a, stays (f a)) → stays (m ≫= f).
Proof.
  intros Hm Hf s o. apply sruns_bind. eapply sruns_weaken; [apply Hm| |auto].
  intros a [s' o'] H. cbn in H. eapply sruns_weaken; [apply Hf|cbn; congruence|].
  intros e st [? ?]. cbn in *. split; [done|congruence].
Qed.

Lemma stays_sup {A} (f : Supply → A) : stays (sup f).
Proof. done. Qed.
Lemma stays_outs {A} (f : SliceOut → A) : stays (outs f).
Proof. done. Qed.
Lemma stays_fails {A} (e : RestoreError) : e ≠ RFuel → stays (sfails (A := A) e).
Proof. done. Qed.
Lemma stays_lift {A} (r : result RestoreError A) : (∀ e, r = Err e → e ≠ RFuel) → stays (lift r).
Proof. intros H s o. apply sruns_lift; [done|]. intros e ->. split; [by apply H|done]. Qed.
Lemma stays_in_out {A} (m : op A) : stays (in_out m).
Proof. intros s o. apply sruns_in_out; [done|]. by split. Qed.
Lemma stays_on_out {A} (m : op A) : stays (on_out m).
Proof. intros s o. by apply sruns_on_out. Qed.
Lemma stays_upd f : (∀ s, whereabouts (f s) = whereabouts s) → stays (upd f).
Proof. intros H s o. apply H. Qed.

Lemma stays_record_damage wp volume cause reason hs : stays (record_damage wp volume cause reason hs).
Proof. by apply stays_upd. Qed.
Lemma stays_supplied wp on d : stays (supplied wp on d).
Proof. apply stays_upd. intros s. cbv zeta. by destruct (bool_decide _). Qed.

Lemma stays_attempt_raw pos wp identities mode : stays (attempt_raw pos wp identities mode).
Proof.
  unfold attempt_raw. apply stays_bind; [apply stays_in_out|intros []].
  apply stays_bind; [apply stays_sup|intros n]. apply stays_bind; [apply stays_sup|intros c].
  destruct (read_file c n pos). apply stays_bind; [by apply stays_upd|intros []].
  apply stays_bind; [apply stays_on_out|intros r]. apply stays_ret.
Qed.

Lemma stays_prove_plaintext wp : stays (prove_plaintext wp).
Proof.
  unfold prove_plaintext. destruct (sha256_from_hex _); [|apply stays_ret].
  apply stays_bind; [apply stays_in_out|intros [got|]]; [|apply stays_ret].
  case_bool_decide; apply stays_ret.
Qed.

(** A read that is tied to no file is of no other file. *)
Lemma attempt_raw_unbound pos wp identities mode s o :
  bound o = None →
  sruns (s, o) (attempt_raw pos wp identities mode)
    (λ raw _, ∀ ended, raw_ended raw = Ok ended → other_file ended = false) (λ _ _, True).
Proof.
  intros Hb. unfold attempt_raw. apply sruns_bind, sruns_in_out; [|done]. intros [] o1 H1.
  assert (bound o1 = None) as Hb1.
  { unfold begin_attempt, modify in H1. injection H1 as <-. by repeat case_match. }
  apply sruns_bind. unfold sup at 1. unfold sruns at 1. apply sruns_bind. unfold sup at 1. unfold sruns at 1.
  cbn [fst]. destruct (read_file _ _ _) as [tape failure].
  apply sruns_bind. unfold upd at 1. unfold sruns at 1. cbn [fst snd]. apply sruns_bind, sruns_on_out.
  intros r o2 H2. unfold sruns, mret, sop_ret. cbn [raw_ended]. intros ended ->.
  unfold decrypt_chunks in H2. rewrite Hb1 in H2.
  destruct (open _ _ _); [|by injection H2 as <-].
  destruct ((open_sink;; _) o1) as [[[st tl]|e] s']; [by injection H2 as <-|].
  destruct (gone s'); [by injection H2 as <-|done].
Qed.

Lemma reset_unbound o : ∃ o', reset o = (Ok (), o') ∧ bound o' = None.
Proof.
  unfold reset, discard, modify, gets, io_call, mbind, op_bind, mret, op_ret. cbn.
  destruct (sink o); cbn; eauto.
Qed.

(** One step of a proof that an operation stays. *)
Ltac stays_step :=
  first
    [ apply stays_ret | apply stays_sup | apply stays_outs | apply stays_record_damage
    | apply stays_supplied | apply stays_in_out | apply stays_prove_plaintext
    | apply stays_attempt_raw | (apply stays_fails; discriminate)
    | (apply stays_bind; [|intros ?]) ].

Definition other_of (raw : Raw) : bool :=
  match raw_ended raw with Ok e => other_file e | Err _ => false end.

Lemma stays_judge_attempt again wp raw :
  other_of raw = false → stays (judge_attempt again wp raw).
Proof.
  intros Ho. unfold judge_attempt, other_of in *. stays_step; [stays_step|].
  destruct (raw_ended raw) as [ended|e]; [|stays_step]. rewrite Ho.
  destruct (open_error ended); [by destruct (raw_defect raw); stays_step|].
  destruct (sink_gone ended).
  { stays_step; [by destruct (_ || _); stays_step|stays_step]. }
  destruct (stopped ended); [stays_step|]. destruct (hash_ok raw); [stays_step|].
  destruct (raw_defect raw); [|stays_step]. stays_step; [stays_step|].
  destruct a0; [stays_step| |stays_step]. stays_step; [stays_step|].
  destruct (is_file _); [|stays_step]. stays_step; stays_step.
Qed.

Lemma stays_judge_salvage again wp first n raw :
  other_of raw = false → stays (judge_salvage again wp first n raw).
Proof.
  intros Ho. unfold judge_salvage, other_of in *. stays_step; [stays_step|].
  destruct (raw_ended raw) as [ended|e]; [|stays_step]. rewrite Ho.
  destruct (open_error ended); [stays_step|]. stays_step; [stays_step|].
  destruct (_ && _); [by destruct (_ || _); stays_step|].
  destruct (bool_decide _); [|stays_step]. stays_step.
  { destruct (hash_ok raw); stays_step. }
  destruct a1; [|stays_step; [stays_step|]|stays_step].
  { destruct (match first with Some _ => _ | None => _ end) as [[on d]|]; stays_step. }
  destruct (is_file _); [|stays_step]. repeat stays_step.
Qed.

(** [m] stays where it is from an output tied to no file. *)
Definition stays_unbound {A} (m : sop A) : Prop :=
  ∀ s o, bound o = None →
    sruns (s, o) m (λ _ st, whereabouts st.1 = whereabouts s) (λ e st, e ≠ RFuel ∧ whereabouts st.1 = whereabouts s).

Lemma sruns_and {A} st (m : sop A) Q1 E1 Q2 E2 :
  sruns st m Q1 E1 → sruns st m Q2 E2 →
  sruns st m (λ a st, Q1 a st ∧ Q2 a st) (λ e st, E1 e st ∧ E2 e st).
Proof. unfold sruns. by destruct (m st) as [[a|e] st']. Qed.

(** After a reset, what starts afresh starts from an output tied to no file. *)
Lemma stays_reset {A} (m : sop A) : stays_unbound m → stays (in_out reset;; m).
Proof.
  intros Hm s o. apply sruns_bind. destruct (reset_unbound o) as (o1 & Hr & Hb).
  apply sruns_in_out; rewrite Hr; [|done]. intros [] o2 [= <-]. by apply Hm.
Qed.

Lemma raw_unbound_stays {A} (f : Raw → sop A) pos wp identities mode :
  (∀ raw, other_of raw = false → stays (f raw)) →
  stays_unbound (raw ← attempt_raw pos wp identities mode; f raw).
Proof.
  intros Hf s o Hb. apply sruns_bind.
  eapply sruns_weaken; [apply sruns_and; [apply stays_attempt_raw|by apply attempt_raw_unbound]|..].
  - intros raw [s' o'] [Hp Hr]. cbn in Hp.
    eapply sruns_weaken; [apply Hf|cbn; congruence|intros e st []; split; [done|cbn in *; congruence]].
    unfold other_of. destruct (raw_ended raw) as [e|]; [|done]. by apply Hr.
  - by intros e [s' o'] [? _].
Qed.

Lemma raw_stays {A} (f : Raw → sop A) pos wp identities mode :
  (∀ raw, stays (f raw)) → stays (raw ← attempt_raw pos wp identities mode; f raw).
Proof. intros Hf. apply stays_bind; [apply stays_attempt_raw|done]. Qed.

Lemma stays_judge_attempt_again again wp raw :
  stays_unbound again → stays (judge_attempt again wp raw).
Proof.
  intros Ha. destruct (other_of raw) eqn:Ho; [|by apply stays_judge_attempt].
  unfold judge_attempt, other_of in *. stays_step; [stays_step|].
  destruct (raw_ended raw) as [ended|e]; [|done]. rewrite Ho.
  destruct (open_error ended); [by destruct (raw_defect raw); stays_step|].
  destruct (sink_gone ended).
  { stays_step; [by destruct (_ || _); stays_step|stays_step]. }
  destruct (hash_ok raw); [|stays_step]. stays_step; [stays_step|].
  destruct (is_file _); [by apply stays_reset|stays_step].
Qed.

Lemma stays_judge_salvage_again again wp first n raw :
  (∀ c, stays_unbound (again c)) → stays (judge_salvage again wp first n raw).
Proof.
  intros Ha. destruct (other_of raw) eqn:Ho; [|by apply stays_judge_salvage].
  unfold judge_salvage, other_of in *. stays_step; [stays_step|].
  destruct (raw_ended raw) as [ended|e]; [|done]. rewrite Ho.
  destruct (open_error ended); [stays_step|]. stays_step; [stays_step|].
  destruct (_ && _); [by apply stays_reset|stays_step].
Qed.

Lemma stays_attempt pos wp identities : stays (attempt 1 pos wp identities).
Proof.
  apply raw_stays. intros raw. apply stays_judge_attempt_again. apply raw_unbound_stays.
  intros raw' Hr. by apply stays_judge_attempt.
Qed.

Lemma stays_salvage wp identities first : stays (salvage 1 wp identities first).
Proof.
  cbn [salvage]. stays_step; [stays_step|]. destruct a as [pos|]; [|stays_step].
  stays_step; [stays_step|]. apply raw_stays. intros raw. apply stays_judge_salvage_again.
  intros c s o Hb. apply sruns_bind. unfold sruns at 1, sup at 1.
  destruct (last_position _); [|by split]. apply sruns_bind. unfold sruns at 1, outs at 1.
  revert Hb. generalize o. change (∀ o, bound o = None → ?P) with (∀ o, bound o = None → P).
  intros o1 Hb. apply raw_unbound_stays; [|done]. intros raw' Hr. by apply stays_judge_salvage.
Qed.

Lemma stays_fill_end wp identities f : stays (fill_end wp identities f).
Proof.
  unfold fill_end. destruct (f_unproven f) as [[[on d] why]|]; [stays_step|apply stays_salvage].
Qed.

(** ** The choice *)

Lemma find_map_Some {A B} (f : A → option B) l y :
  find_map f l = Some y → ∃ x, x ∈ l ∧ f x = Some y.
Proof.
  induction l as [|x l IH]; simpl; [done|]. destruct (f x) eqn:Hx.
  - intros [= <-]. exists x. split; [by left|done].
  - intros (x' & ? & ?)%IH. exists x'. split; [by right|done].
Qed.

Lemma find_map_None {A B} (f : A → option B) l :
  find_map f l = None → ∀ x, x ∈ l → f x = None.
Proof.
  induction l as [|y l IH]; simpl; intros H x Hx; [by apply not_elem_of_nil in Hx|].
  destruct (f y) eqn:Hy; [done|]. apply elem_of_cons in Hx as [->|Hx]; [done|]. by apply IH.
Qed.

Lemma find_Some {A} (p : A → bool) l x : find p l = Some x → x ∈ l ∧ p x = true.
Proof.
  intros (y & Hy & Hp)%find_map_Some. destruct (p y) eqn:E; [|done]. by injection Hp as ->.
Qed.

Lemma find_None {A} (p : A → bool) l : find p l = None → ∀ x, x ∈ l → p x = false.
Proof.
  intros H x Hx. pose proof (find_map_None _ _ H x Hx) as Hp. cbv beta in Hp. by destruct (p x).
Qed.

(** What a choice promises, of the holders [all] the catalog gave. *)
Definition good_choice (wp : WritePosition) (at_ : Z) (tried awaiting : bool) (s : Supply)
    (all : list Holder) (c : Choice) : Prop :=
  let ok := usable s (sha256_encrypted wp) at_ awaiting in
  match c with
  | Here p =>
      match here_volume s with
      | None => tried = false ∧ parse_position wp = Ok p
      | Some v =>
          ok v = true ∧
          (v = volume_id wp ∧ parse_position wp = Ok p ∨
           ∃ h, h ∈ all ∧ h_volume h = v ∧ h_position h = p)
      end
  | NextOn h =>
      h ∈ all ∧ tried = false ∧ h_volume h = volume_id wp ∧ ok (h_volume h) = true ∧
      here_volume s ≠ Some (h_volume h)
  | Elsewhere h =>
      h ∈ all ∧ ok (h_volume h) = true ∧ here_volume s ≠ Some (h_volume h) ∧
      (tried = false → ∀ h', h' ∈ all → h_volume h' = volume_id wp → ok (h_volume h') = false)
  | Nowhere =>
      match here_volume s with
      | None => tried = true
      | Some v => ∀ h, h ∈ all → ok (h_volume h) = false
      end
  end.

Lemma elsewhere_good wp at_ tried awaiting s all v :
  here_volume s = Some v →
  (∀ h, h ∈ all → h_volume h = v → usable s (sha256_encrypted wp) at_ awaiting v = false) →
  (∀ h, h ∈ all → h_volume h = volume_id wp →
     usable s (sha256_encrypted wp) at_ awaiting (h_volume h) = false) →
  good_choice wp at_ tried awaiting s all (elsewhere (usable s (sha256_encrypted wp) at_ awaiting) v all).
Proof.
  intros Hv Hnh Hpl. unfold elsewhere, good_choice. set (ok := usable _ _ _ _) in *.
  destruct (find _ all) as [h|] eqn:Hf.
  - apply find_Some in Hf as (Hin & [Hne%negb_true_iff Hok]%andb_true_iff).
    apply bool_decide_eq_false in Hne. rewrite Hv. repeat (split; [done || congruence|]). done.
  - rewrite Hv. intros h Hin. pose proof (find_None _ _ Hf h Hin) as Hb. cbv beta in Hb. fold ok.
    destruct (decide (h_volume h = v)) as [He|He]; [rewrite He; by apply (Hnh h)|].
    by rewrite bool_decide_false in Hb by done.
Qed.

Lemma planned_good wp at_ tried awaiting s all v :
  here_volume s = Some v →
  (∀ h, h ∈ all → h_volume h = v → usable s (sha256_encrypted wp) at_ awaiting v = false) →
  good_choice wp at_ tried awaiting s all
    (planned (usable s (sha256_encrypted wp) at_ awaiting) v (volume_id wp) tried all).
Proof.
  intros Hv Hnh. unfold planned. destruct (decide (volume_id wp = v)) as [He|He].
  - rewrite bool_decide_true by done. apply elsewhere_good; [done|done|].
    intros h Hin Hh. rewrite Hh, He. apply (Hnh h Hin). congruence.
  - rewrite bool_decide_false by done. destruct (find _ all) as [h|] eqn:Hf.
    + apply find_Some in Hf as (Hin & [Hw%bool_decide_eq_true Hok]%andb_true_iff).
      destruct tried; cbn; rewrite Hv; repeat (split; [done || congruence|]); [done|congruence].
    + apply elsewhere_good; [done|done|]. intros h Hin Hh.
      pose proof (find_None _ _ Hf h Hin) as Hb. cbv beta in Hb. by rewrite bool_decide_true in Hb by done.
Qed.

(** The holders a choice goes by, and what it hands on. *)
Definition asked (wp : WritePosition) (holders handed : option (list Holder)) (all : list Holder) : Prop :=
  handed = holders ∧ default [] holders = all ∨
  handed = Some all ∧
    (holders = Some all ∨ holders = None ∧ holders_of (sha256_encrypted wp) = Ok all).

Lemma parse_position_fuel wp e : parse_position wp = Err e → e ≠ RFuel.
Proof. unfold parse_position, ok_or. destruct (parse_u32 _); [done|]. by intros [= <-]. Qed.

Lemma choose_good wp at_ tried awaiting holders s o :
  sruns (s, o) (choose wp at_ tried awaiting holders)
    (λ r st, st = (s, o) ∧ ∃ all, asked wp holders r.2 all ∧ good_choice wp at_ tried awaiting s all r.1)
    (λ e st, st = (s, o) ∧ e ≠ RFuel).
Proof.
  unfold choose. apply sruns_bind. unfold sruns at 1, sup at 1. unfold id. cbn [fst].
  destruct (here_volume s) as [v|] eqn:Hv; cycle 1.
  { destruct tried; [split; [done|]; exists (default [] holders); cbn; rewrite Hv; by split; [left|]|].
    apply sruns_bind, sruns_lift; [|intros e He; split; [done|by eapply parse_position_fuel]].
    intros p Hp. split; [done|]. exists (default [] holders). cbn. rewrite Hv. by split; [left|]. }
  set (ok := usable s _ at_ awaiting).
  destruct (bool_decide (v = volume_id wp) && ok v) eqn:Hh.
  { apply andb_true_iff in Hh as [Hvw%bool_decide_eq_true Hok].
    apply sruns_bind, sruns_lift; [|intros e He; split; [done|by eapply parse_position_fuel]].
    intros p Hp. split; [done|]. exists (default [] holders). cbn. rewrite Hv.
    split; [by left|]. split; [done|]. by left. }
  apply sruns_bind.
  assert (Hsel : ∀ all, (holders = Some all ∨ holders = None ∧ holders_of (sha256_encrypted wp) = Ok all) →
    sruns (s, o)
      (match (if ok v then find (λ h, bool_decide (h_volume h = v)) all else None) with
       | Some h => mret (Here (h_position h), Some all)
       | None => mret (planned ok v (volume_id wp) tried all, Some all) end)
      (λ r st, st = (s, o) ∧ ∃ all, asked wp holders r.2 all ∧ good_choice wp at_ tried awaiting s all r.1)
      (λ e st, st = (s, o) ∧ e ≠ RFuel)).
  { intros all Ha. destruct (if ok v then _ else None) as [h|] eqn:Hf.
    - destruct (ok v) eqn:Hok; [|done]. apply find_Some in Hf as (Hin & Hhv%bool_decide_eq_true).
      split; [done|]. exists all. split; [by right|]. cbn. rewrite Hv. split; [done|]. right. by exists h.
    - split; [done|]. exists all. split; [by right|]. apply planned_good; [done|]. intros h Hin Hhv.
      fold ok. destruct (ok v); [|done]. pose proof (find_None _ _ Hf h Hin) as Hb. cbv beta in Hb.
      by rewrite bool_decide_true in Hb by done. }
  destruct holders as [all|]; [apply Hsel; by left|].
  apply sruns_lift; unfold map_err; destruct (holders_of _) as [all|]; try done.
  - intros all' [= <-]. apply Hsel. by right.
  - by intros e' [= <-].
Qed.

(** ** Swaps *)

(** The cartridge in use has been identified as its volume. *)
Definition identified (s : Supply) : Prop :=
  match here s with Some (v, l) => ∃ u, identify (drive s) v l = Ok u | None => True end.

Lemma arrive_spec v l s o :
  sruns (s, o) (arrive v l)
    (λ r st, st.2 = o ∧ script st.1 = script s ∧ bad st.1 = bad s ∧ drive st.1 = drive s ∧
       match r with
       | Ok _ => here st.1 = Some (v, l) ∧ identified st.1
       | Err _ => st.1 = s
       end) (λ _ _, False).
Proof.
  unfold sruns, arrive. cbn [fst snd]. destruct (identify (drive s) v l) as [u|e] eqn:Hi; cbn.
  - repeat (split; [done|]). unfold identified. cbn. eauto.
  - done.
Qed.

Lemma ask_spec s o :
  sruns (s, o) ask
    (λ a st, st.2 = o ∧ here st.1 = here s ∧ bad st.1 = bad s ∧
       (length (script st.1) ≤ length (script s))%nat ∧
       (a ≠ Stop → (length (script st.1) < length (script s))%nat)) (λ _ _, False).
Proof.
  unfold sruns, ask. cbn [fst snd]. destruct (script s) as [|[a c] rest] eqn:Hs; cbn; rewrite ?Hs; repeat split; try done; cbn; lia.
Qed.

(** What a swap leaves when it succeeds. *)
Definition swapped (s : Supply) (o : SliceOut) (target : option Z * string) (st : Supply * SliceOut) : Prop :=
  st.2 = o ∧ bad st.1 = bad s ∧ (length (script st.1) ≤ length (script s))%nat ∧
  here st.1 = Some target ∧ identified st.1.

Lemma return_to_spec n v l s o :
  (length (script s) ≤ n)%nat → here s = None →
  sruns (s, o) (return_to n v l) (λ _ st, swapped s o (v, l) st)
    (λ e st, e ≠ RFuel ∧ here st.1 = None ∧ bad st.1 = bad s).
Proof.
  revert s. induction n as [|n IH]; intros s Hn Hh; cbn [return_to];
    (apply sruns_bind; eapply sruns_weaken; [apply arrive_spec| |done]);
    intros [u|e] [s1 o1] (Ho1 & Hs1 & Hb1 & Hd1 & Hr); cbn [fst snd] in *;
    (try by (destruct Hr; unfold sruns, swapped; cbn; rewrite ?Hs1)); subst s1 o1;
    (apply sruns_bind; eapply sruns_weaken; [apply ask_spec| |done]);
    intros a [s2 o2] (Ho2 & Hh2 & Hb2 & Hl2 & Hlt2); cbn [fst snd] in *; subst o2;
    (destruct a; [|unfold sruns, sfails; cbn; by rewrite Hh2|unfold sruns, sfails; cbn; by rewrite Hh2]).
  - specialize (Hlt2 ltac:(done)). lia.
  - specialize (Hlt2 ltac:(done)).
    eapply sruns_weaken; [apply (IH s2); [lia|congruence]|..].
    + intros [] [s3 o3] (? & ? & ? & ? & ?). unfold swapped. cbn [fst snd] in *.
      split; [done|]. split; [congruence|]. split; [lia|done].
    + intros e' st (? & ? & ?). split; [done|]. split; [done|congruence].
Qed.

Lemma change_loop_spec n v l may_skip previous saved s o :
  (length (script s) ≤ n)%nat → here s = None →
  sruns (s, o) (change_loop n v l may_skip previous saved)
    (λ c st, (length (script st.1) < length (script s))%nat ∧
       match c with
       | ChangedLoaded => swapped s o (Some v, l) st
       | Declined => may_skip = true ∧ last_position st.1 = saved ∧
           ∃ p, previous = Some p ∧ swapped s o p st
       end)
    (λ e st, e ≠ RFuel ∧ here st.1 = None ∧ bad st.1 = bad s).
Proof.
  revert s. induction n as [|n IH]; intros s Hn Hh; cbn [change_loop];
    (apply sruns_bind; eapply sruns_weaken; [apply ask_spec| |done]);
    intros a [s1 o1] (Ho1 & Hh1 & Hb1 & Hl1 & Hlt1); cbn [fst snd] in *; subst o1;
    (destruct a; [|destruct may_skip; [destruct previous as [[pv pl]|]|]|]);
    (try by (unfold sruns, sfails; cbn; rewrite Hh1)); specialize (Hlt1 ltac:(done)); try lia.
  - apply sruns_bind. eapply sruns_weaken; [apply arrive_spec| |done].
    intros [u|e] [s2 o2] (Ho2 & Hs2 & Hb2 & Hd2 & Hr); cbn [fst snd] in *.
    + unfold sruns, swapped. cbn. rewrite Hs2. split; [lia|]. destruct Hr.
      repeat (split; [done || congruence || lia|]). done.
    + subst s2 o2. eapply sruns_weaken; [apply (IH s1); [lia|congruence]|..].
      * intros c [s3 o3] [Hl3 Hc]. cbn [fst snd] in *. split; [lia|]. destruct c.
        -- destruct Hc as (? & ? & ? & ? & ?). unfold swapped. cbn [fst snd] in *.
           split; [done|]. split; [congruence|]. split; [lia|done].
        -- destruct Hc as (? & ? & p & ? & ? & ? & ? & ? & ?). cbn [fst snd] in *. split; [done|].
           split; [done|]. exists p. split; [done|]. unfold swapped. cbn [fst snd].
           split; [done|]. split; [congruence|]. split; [lia|done].
      * intros e' st (? & ? & ?). split; [done|]. split; [done|congruence].
  - apply sruns_bind. unfold sruns at 1, sup at 1. cbn [fst]. apply sruns_bind.
    eapply sruns_weaken; [apply (return_to_spec _ pv pl s1); [done|congruence]|..].
    + intros [] [s2 o2] (? & ? & ? & ? & ?). cbn [fst snd] in *. apply sruns_bind.
      unfold sruns at 1, upd at 1. unfold sruns, mret, sop_ret. cbn [fst snd]. split; [cbn; lia|].
      split; [done|]. split; [done|]. exists (pv, pl). split; [done|]. unfold swapped. cbn.
      split; [done|]. split; [congruence|]. split; [lia|done].
    + intros e st (? & ? & ?). split; [done|]. split; [done|congruence].
Qed.

Lemma change_to_spec v l may_skip s o :
  sruns (s, o) (change_to v l may_skip)
    (λ c st, (length (script st.1) < length (script s))%nat ∧
       match c with
       | ChangedLoaded => swapped s o (Some v, l) st
       | Declined => may_skip = true ∧ last_position st.1 = last_position s ∧
           ∃ p, here s = Some p ∧ swapped s o p st
       end)
    (λ e st, e ≠ RFuel ∧ here st.1 = None ∧ bad st.1 = bad s).
Proof.
  unfold change_to. do 2 (apply sruns_bind; unfold sruns at 1, sup at 1).
  apply sruns_bind. unfold sruns at 1, leave, upd. apply sruns_bind. unfold sruns at 1, sup at 1.
  cbn [fst snd].
  eapply sruns_weaken; [apply change_loop_spec; [done|done]| |]; cbn.
  - intros c st [? Hc]. split; [done|]. destruct c; [done|]. exact Hc.
  - done.
Qed.

(** ** The search ends *)

(** The cartridge in the drive has just failed the slice where it stands. *)
Definition settled (wp : WritePosition) (f : Filling) (s : Supply) (o : SliceOut) : Prop :=
  f_tried f = true ∧
  ∀ v, here_volume s = Some v → bad s !! (v, sha256_encrypted wp) = Some (delivered o).

Definition answered (s : Supply) : Z := Z.of_nat (length (script s)).

Lemma stays_fuel {A} (m : sop A) s o : stays m → sruns (s, o) m (λ _ _, True) (λ e _, e ≠ RFuel).
Proof. intros Hm. eapply sruns_weaken; [apply Hm|done|]. by intros e st []. Qed.

Lemma mark_bad_settled wp (hs : option (list Holder)) first unproven s o sha :
  sha = sha256_encrypted wp →
  sruns (s, o) (mark_bad sha (delivered o))
    (λ _ st, st.2 = o ∧ script st.1 = script s ∧ settled wp (mkFilling hs first unproven true) st.1 o)
    (λ _ _, False).
Proof.
  intros ->. unfold sruns, mark_bad, upd. cbn [fst snd]. split; [done|].
  destruct (here_volume s) as [v|] eqn:Hv; cbn; (split; [done|]); (split; [done|]); intros v' Hv'.
  - assert (v' = v) as -> by (unfold here_volume in *; cbn in Hv'; congruence).
    apply lookup_insert_eq.
  - congruence.
Qed.

Lemma mark_hash_bad_settled wp f sha s o :
  settled wp f s o →
  sruns (s, o) (mark_hash_bad sha)
    (λ _ st, st.2 = o ∧ script st.1 = script s ∧ settled wp f st.1 o) (λ _ _, False).
Proof.
  intros Hs. unfold sruns, mark_hash_bad, upd. cbn [fst snd]. by destruct (here_volume s).
Qed.

Lemma fill_loop_ends fuel wp identities sole f s o :
  2 * answered s + 2 ≤ Z.of_nat fuel ∨ settled wp f s o ∧ 2 * answered s + 1 ≤ Z.of_nat fuel →
  sruns (s, o) (fill_loop fuel wp identities sole f) (λ _ _, True) (λ e _, e ≠ RFuel).
Proof.
  revert f s o. induction fuel as [|fuel IH]; intros f s o Hf; unfold answered in *;
    [lia|]. cbn [fill_loop]. apply sruns_bind. unfold sruns at 1, outs at 1. cbn [snd].
  apply sruns_bind. eapply sruns_weaken; [apply choose_good| |by intros e st [_ ?]].
  intros [c hs] st (-> & all & _ & Hc). cbn [fst snd] in *.
  assert (Hswap : ∀ h sk (k : Changed → sop unit),
    (∀ c, stays (k c) ∨ c = ChangedLoaded ∧
       k c = fill_loop fuel wp identities sole (mkFilling hs (f_first f) (f_unproven f) (f_tried f))) →
    sruns (s, o) (c ← change_to (h_volume h) (h_label h) sk; k c) (λ _ _, True) (λ e _, e ≠ RFuel)).
  { intros h sk k Hk. apply sruns_bind.
    eapply sruns_weaken; [apply change_to_spec| |by intros e st (? & _)].
    intros c' [s' o'] [Hl _]. cbn [fst] in Hl. destruct (Hk c') as [Hst|[-> ->]]; [by apply stays_fuel|].
    apply IH. left. lia. }
  destruct c as [pos|h|h|].
  - (* a read: not of the cartridge that has just failed *)
    assert (2 * Z.of_nat (length (script s)) + 2 ≤ Z.of_nat (S fuel)) as Hf2.
    { destruct Hf as [?|[[Ht Hbad] Hf]]; [done|]. cbn in Hc.
      destruct (here_volume s) as [v|] eqn:Hv.
      - destruct Hc as [Hok _]. unfold usable in Hok. rewrite (Hbad v) in Hok by done.
        rewrite bool_decide_false in Hok by lia. done.
      - destruct Hc as [Hc _]. congruence. }
    apply sruns_bind. unfold sruns at 1, upd at 1. cbn [fst snd].
    destruct sole; [apply stays_fuel, stays_fill_end|]. apply sruns_bind.
    eapply sruns_weaken; [apply stays_attempt| |by intros e st []].
    intros a [s1 o1] Hp. cbn in Hp. injection Hp as Hh1 Hd1 Hs1 Hb1.
    assert (Hgo : ∀ d unproven, sruns (s1, o1)
      (label ← sup label_or; at_ ← outs delivered; mark_bad (sha256_encrypted wp) at_;;
       (match d with DHash _ => mark_hash_bad (sha256_encrypted wp) | _ => mret () end);;
       (if substitutable d
        then fill_loop fuel wp identities false
               (mkFilling hs (match f_first f with Some c => Some c | None => Some (label, d) end) (unproven label) true)
        else fill_end wp identities
               (mkFilling hs (match f_first f with Some c => Some c | None => Some (label, d) end) (unproven label) true)))
      (λ _ _, True) (λ e _, e ≠ RFuel)).
    { intros d unproven. apply sruns_bind, sruns_sup, sruns_bind, sruns_outs.
      apply sruns_bind. eapply sruns_weaken; [by apply mark_bad_settled| |done].
      intros [] [s2 o2] (Ho2 & Hs2 & Hset). cbn [fst snd] in *. subst o2.
      apply sruns_bind. eapply (sruns_weaken _ _ (λ _ st, st.2 = o1 ∧ script st.1 = script s2 ∧ settled wp (mkFilling hs None None true) st.1 o1)).
      { destruct d; try by (unfold sruns, mret, sop_ret; cbn; split; [|split; [|exact Hset]]).
        eapply sruns_weaken; [by apply mark_hash_bad_settled| |]; [by intros|done]. }
      - intros [] [s3 o3] (Ho3 & Hs3 & Hset3). cbn [fst snd] in *. subst o3.
        destruct (substitutable d); [|apply stays_fuel, stays_fill_end].
        apply IH. right. split; [exact Hset3|]. rewrite Hs3, Hs2, Hs1. cbn. lia.
      - done. }
    destruct a as [| |d|d why].
    + destruct (f_first f) as [[on d]|]; [apply stays_fuel, stays_supplied|done].
    + done.
    + apply (Hgo d (λ _, f_unproven f)).
    + apply (Hgo d (λ label, Some (label, d, why))).
  - destruct (negb attended); [done|]. apply Hswap. intros [|]; [by right|left; by apply stays_fails].
  - destruct (negb attended); [done|]. apply Hswap. intros [|]; [by right|left; apply stays_fill_end].
  - apply stays_fuel, stays_fill_end.
Qed.

(** A choice to read is of a cartridge that has not failed the slice, or
    has failed it before what another has since delivered, and never one the
    catalog does not give; it is [Nowhere] only when every holder has failed
    it; and the cartridge the plan names comes before any other. *)
Theorem choose_spec wp at_ tried awaiting holders s o :
  sruns (s, o) (choose wp at_ tried awaiting holders)
    (λ r st, st = (s, o) ∧ ∃ all, asked wp holders r.2 all ∧ good_choice wp at_ tried awaiting s all r.1)
    (λ e st, st = (s, o) ∧ e ≠ RFuel).
Proof. apply choose_good. Qed.

(** A swap that succeeds has the cartridge asked for in the drive, or on
    a skip the one that was there before, identified as its volume either
    way; the output is untouched, and each swap uses up an answer. *)
Theorem change_to_identified v l may_skip s o :
  sruns (s, o) (change_to v l may_skip)
    (λ c st, (length (script st.1) < length (script s))%nat ∧
       match c with
       | ChangedLoaded => swapped s o (Some v, l) st
       | Declined => may_skip = true ∧ last_position st.1 = last_position s ∧
           ∃ p, here s = Some p ∧ swapped s o p st
       end)
    (λ e st, e ≠ RFuel ∧ here st.1 = None ∧ bad st.1 = bad s).
Proof. apply change_to_spec. Qed.

(** C40: the search for a slice ends: whatever the cartridges hold and
    whatever the operator answers, [fill_slice] returns within two rounds an
    answer and three more. *)
Theorem fill_slice_terminates wp identities s o :
  sruns (s, o) (fill_slice wp identities) (λ _ _, True) (λ e _, e ≠ RFuel).
Proof.
  unfold fill_slice. apply sruns_bind. unfold sruns at 1, upd at 1. cbn [fst snd].
  apply sruns_bind. eapply (sruns_weaken _ _ (λ _ _, True) _ (λ e _, e ≠ RFuel)); [|intros sole [s1 o1] _|done].
  - unfold sole_copy. apply sruns_bind. unfold sruns at 1, sup at 1. destruct (here_volume _); [|done].
    apply sruns_bind. unfold sruns at 1, sup at 1. destruct (_ !! _); [done|]. apply sruns_bind, sruns_lift.
    + done.
    + intros e. unfold map_err. destruct (other_copies_exist _ _); [done|]. by intros [= <-].
  - apply sruns_bind. unfold sruns at 1, sup at 1. cbn [fst]. apply fill_loop_ends. left.
    unfold answered. lia.
Qed.
End loop.
