(* ===== verification/SupplySound.v ===== *)
(** * What a restored slice is: theorems

    A slice the restore does not put on its account of damage is the slice
    the catalog recorded: its ciphertext hashed as written, every chunk of it
    authenticated under that one age file, or its plaintext hashes to the
    recorded checksum. *)

From S2P Require Import Prelude Slice SliceHeader Chunks SliceOut Deliver Supply SupplyLoop.
Local Open Scope Z_scope.
Local Open Scope rust_scope.

(** The file key is the header's: two files that open with one header for one
    set of identities are read under one key. *)
Class HeaderKey `{AC : !AgeCrate} : Prop :=
  header_key : ∀ s s' ids l l' c c',
    open s ids l = Ok c → open s' ids l' = Ok c' → header c = header c' → aead c = aead c'.

Section sound.
Context `{IO : !SinkIo, AC : !AgeCrate, SH : !Sha256, CT : !Catalog, BY : !Bay}.
Context `{AL : !AeadLaws, HK : !HeaderKey}.

(** [content] is the plaintext of the slice the catalog recorded. *)
Definition proven (wp : WritePosition) (ids : list Identity) (content : list Z) : Prop :=
  (∃ data c, hex_text (sha256 data) = sha256_encrypted wp ∧
     open (from_slice data) ids (encrypted_of wp) = Ok c ∧ account c (chunks c) content []) ∨
  sha256_from_hex (sha256_plain wp) = Some (sha256 content).

(** The output holds chunks of the one file it is tied to, and no hole. *)
Definition tied (ids : list Identity) (len : Z) (content : list Z) (o : SliceOut) : Prop :=
  holes o = [] ∧ gone o = false ∧ hole_bytes o = 0 ∧ sink_inv content o ∧
  (bound o = None ∧ content = [] ∨
   ∃ data c k, Z.of_nat (length data) ≤ u64_max ∧ open (from_slice data) ids len = Ok c ∧
     bound o = Some (header c) ∧ account c k content []).

Lemma account_same c0 c k content hs :
  same_file c0 c → account c0 k content hs → account c k content hs.
Proof.
  intros Hsf. induction 1 as [|k content hs w v _ IH Hk Hv]; [constructor|].
  destruct (same_file_verdict c0 c k (take (Z.to_nat (want_at c0 k)) w) Hsf) as [Hve Hwe].
  apply (account_chunk _ _ _ _ w); [done| |].
  - by destruct Hsf as (_ & _ & -> & _).
  - by rewrite Hwe, Hve.
Qed.

Lemma from_slice_content data : Chunks.content (from_slice data) = data.
Proof. unfold from_slice. by rewrite content_unread, app_nil_r. Qed.

Lemma open_data ids len data c :
  Z.of_nat (length data) ≤ u64_max → is_u64 len → open (from_slice data) ids len = Ok c →
  reader_ok c ∧
  len = Z.of_nat (length (header c)) + (chunks c - 1) * ENCRYPTED_CHUNK + last_len c.
Proof.
  intros Hd Hl H.
  assert (Z.of_nat (length (Chunks.content (from_slice data))) ≤ u64_max) as Hd'
    by by rewrite from_slice_content.
  destruct (open_ok _ _ _ _ Hd' Hl H) as (? & _ & _ & _ & _ & ?). done.
Qed.

(** Reads of one header, of one recorded length, are of one file. *)
Lemma one_header ids len data data' c c' :
  Z.of_nat (length data) ≤ u64_max → Z.of_nat (length data') ≤ u64_max → is_u64 len →
  open (from_slice data) ids len = Ok c → open (from_slice data') ids len = Ok c' →
  header c = header c' → same_file c c'.
Proof.
  intros Hd Hd' Hl H H' Hh.
  destruct (open_data _ _ _ _ Hd Hl H) as ([_ Hc1 Hc2 _] & Hlen).
  destruct (open_data _ _ _ _ Hd' Hl H') as ([_ Hc1' Hc2' _] & Hlen').
  change ENCRYPTED_CHUNK with 65552 in *. change TAG with 16 in *. rewrite Hh in Hlen.
  split; [symmetry; by eapply header_key|]. split; [done|]. lia.
Qed.

(** What is tied is accounted to the file the next read opens, unless that is
    another file. *)
Lemma tied_accounted ids len content o data c :
  is_u64 len → Z.of_nat (length data) ≤ u64_max → open (from_slice data) ids len = Ok c →
  tied ids len content o → bound o = None ∨ bound o = Some (header c) →
  ∃ k, accounted c k content o.
Proof.
  intros Hl Hd Hop (Hh & _ & Hhb & Hi & Ht) Hb.
  destruct Ht as [[Hn ->]|(data' & c' & k & Hd' & Hop' & Hb' & Ha)].
  - exists 0. split; [rewrite Hh; constructor|done|rewrite Hhb, Hh; reflexivity|by left].
  - exists k. assert (header c' = header c) as Hhd by (destruct Hb; congruence).
    split; [|done|rewrite Hhb, Hh; reflexivity|right; congruence].
    rewrite Hh. eapply account_same; [|exact Ha]. by apply (one_header ids len data' data).
Qed.

Lemma begin_attempt_tied ids len content o :
  tied ids len content o →
  ∃ o', begin_attempt o = (Ok (), o') ∧ tied ids len content o' ∧ bound o' = bound o ∧ sink o' = sink o.
Proof.
  intros (Hh & Hg & Hhb & Hi & Ht). eexists. split; [reflexivity|]. cbv zeta.
  set (b := _ && _ && _ && _). destruct b; [destruct (bool_decide _) eqn:Hz|];
    (split; [|done]); (split; [done|]; split; [done|]; split; [done|]; split; [|exact Ht]);
    destruct Hi; split; try done.
  intros p [= <-]. apply bool_decide_eq_true in Hz. symmetry. apply length_zero_iff_nil.
  cbn in si_delivered. lia.
Qed.

Lemma decrypt_other_file data ids len mode o :
  match open (from_slice data) ids len with
  | Err a => decrypt_chunks (from_slice data) ids len mode o = (Ok (mkEnded false false false false (Some a)), o)
  | Ok c =>
      bound o = None ∨ bound o = Some (header c) ∨
      decrypt_chunks (from_slice data) ids len mode o = (Ok (mkEnded false false false true None), o)
  end.
Proof.
  unfold decrypt_chunks. destruct (open _ _ _) as [c|a]; [|done].
  destruct (bound o) as [b|]; [|by left]. right. destruct (decide (b = header c)) as [->|Hb]; [by left|].
  right. by rewrite bool_decide_true.
Qed.

(** ** One read, measured *)

(** How a read ended, and the output it left. *)
Definition measured (ids : list Identity) (len : Z) (mode : Mode) (content : list Z)
    (k : SliceSink) (data : list Z) (r : result SupplyError Ended) (o : SliceOut) : Prop :=
  match r with
  | Err e => failed e o
  | Ok e =>
      if bool_decide (is_Some (open_error e)) || other_file e then
        sink_gone e = false ∧ tied ids len content o ∧ sink o = k
      else
        sink_gone e = gone o ∧ sink o = k ∧ opened o ∧
        ∃ c n content', open (from_slice data) ids len = Ok c ∧ reader_ok c ∧
          accounted c n content' o ∧ (mode = Strict → holes o = []) ∧
          (tail_damaged e = true → gone o = true) ∧ (stopped e = true → mode = Strict) ∧
          (stopped e = false → tail_damaged e = false → n = chunks c)
  end.

Lemma decrypt_measured ids len mode content data o :
  is_u64 len → Z.of_nat (length data) ≤ u64_max → tied ids len content o →
  let '(r, o') := decrypt_chunks (from_slice data) ids len mode o in
  measured ids len mode content (sink o) data r o'.
Proof.
  intros Hl Hd Ht. pose proof (decrypt_other_file data ids len mode o) as Hof.
  destruct (open (from_slice data) ids len) as [c|a] eqn:Hop; [|by rewrite Hof].
  assert (Hcase : bound o = None ∨ bound o = Some (header c) ∨
    decrypt_chunks (from_slice data) ids len mode o = (Ok (mkEnded false false false true None), o)) by done.
  clear Hof. destruct (decide (bound o = None ∨ bound o = Some (header c))) as [Hb|Hb]; cycle 1.
  { destruct Hcase as [?|[?|Heq]]; [tauto|tauto|]. by rewrite Heq. }
  destruct (open_data _ _ _ _ Hd Hl Hop) as [Hok _].
  destruct (tied_accounted _ _ _ _ _ _ Hl Hd Hop Ht Hb) as [k Hac].
  pose proof (decrypt_chunks_accounted c k content o data ids len mode c Hok Hac Hd Hl Hop ltac:(done)) as Hr.
  unfold runs in Hr. destruct (decrypt_chunks _ _ _ _ o) as [[e|e] o']; [|done].
  destruct Hr as (Hof & Hoe & Hsg & Hopn & Hsk & Htl & n & content' & Hac' & _ & _ & Hst & Hsm & Hall).
  unfold measured. rewrite Hof, Hoe. cbn. split; [done|]. split; [done|]. split; [done|].
  exists c, n, content'. repeat (split; [done|]). split; [|split; [done|split; [|done]]; by intros [? _]%Hsm].
  intros Hm. rewrite Hst by done. by destruct Ht as [-> _].
Qed.

(** [attempt_raw], over whatever the cartridge in the drive gives. *)
Lemma attempt_raw_measured wp ids pos mode content s o :
  encrypted_bytes wp ≤ i64_max → tied ids (encrypted_of wp) content o →
  sruns (s, o) (attempt_raw pos wp ids mode)
    (λ raw st, damage st.1 = damage s ∧ here st.1 = here s ∧
       (hash_ok raw = false → is_Some (raw_defect raw)) ∧
       ∃ data, (hash_ok raw = true → hex_text (sha256 data) = sha256_encrypted wp) ∧
         Z.of_nat (length data) ≤ u64_max ∧
         measured ids (encrypted_of wp) mode content (sink o) data (raw_ended raw) st.2)
    (λ _ _, False).
Proof.
  intros He Ht. unfold attempt_raw. apply sruns_bind.
  destruct (begin_attempt_tied _ _ _ _ Ht) as (o1 & Hb & Ht1 & _ & Hs1).
  apply sruns_in_out; rewrite Hb; [|done]. intros [] o2 [= <-].
  apply sruns_bind, sruns_sup, sruns_bind, sruns_sup.
  destruct (read_file _ _ _) as [tape failure]. apply sruns_bind, sruns_upd.
  apply sruns_bind, sruns_on_out. intros r o3 Hr.
  assert (is_u64 (encrypted_of wp)) as Hu by (unfold encrypted_of; unfold_width; lia).
  assert (Z.of_nat (length (take (Z.to_nat (encrypted_of wp)) tape)) ≤ u64_max) as Hdl.
  { rewrite length_take. unfold is_u64 in Hu. lia. }
  pose proof (decrypt_measured ids (encrypted_of wp) mode content _ o1 Hu Hdl Ht1) as Hm.
  rewrite Hr, Hs1 in Hm. unfold sruns, mret, sop_ret. cbn [fst snd hash_ok raw_ended].
  split; [done|]. split; [done|]. split.
  - unfold raw_defect. cbn. intros ->. destruct failure; eauto.
  - exists (take (Z.to_nat (encrypted_of wp)) tape). split; [by intros ?%bool_decide_eq_true|]. done.
Qed.

(** ** The operations on the output between reads *)

Lemma reset_tied ids len content o :
  sink_inv content o → sink o = FileSink → gone o = false →
  ∃ o', reset o = (Ok (), o') ∧ tied ids len [] o' ∧ sink o' = FileSink ∧ bound o' = None.
Proof.
  intros [H1 H2 H3 H4 H5 H6 H7 H8] Hk Hg.
  assert (begun o = false) as Hbg by (destruct (begun o); [by destruct (H7 eq_refl)|done]).
  unfold reset, discard, modify, gets, io_call, mbind, op_bind, mret, op_ret. cbn. rewrite Hk. cbn.
  eexists. split; [reflexivity|]. rewrite Hg in H4. split; [|done].
  split; [done|]. split; [done|]. split; [done|]. split; [|by left].
  split; cbn; try done; try congruence.
  - unfold opened. cbn. by rewrite Hbg, <-H4.
  - unfold opened. cbn. by rewrite Hbg, <-H4.
  - intros _ _ _. split; [done|by left].
Qed.

(** Hashing the plaintext hashes what the sink was given. *)
Lemma plain_digest_spec content o :
  sink_inv content o → opened o → dropping o = false →
  match plain_digest o with
  | (Ok d, o') =>
      (∀ h, d = Some h → h = sha256 content) ∧ sink_inv content o' ∧ opened o' ∧ fields o' = fields o ∧
      gone o' = gone o
  | (Err e, _) => ∃ m, e = EIo m
  end.
Proof.
  intros Hi Ho Hd. unfold plain_digest, mbind, op_bind, gets, id. cbn.
  destruct (unhashed o); [by cbn|].
  destruct (plain o) as [p|] eqn:Hp.
  { cbn. split; [|done]. intros h [= <-]. by rewrite (si_plain _ _ Hi p Hp). }
  destruct (sink o) eqn:Hk; [|by cbn].
  assert (file o = true) as Hf.
  { unfold opened in Ho. rewrite Hd, orb_false_r in Ho. destruct (file o); [done|].
    cbn in Ho. by destruct (si_begun _ _ Hi Ho). }
  destruct (si_file _ _ Hi Hf) as (_ & _ & [d Hdisk]).
  pose proof (si_received _ _ Hi Ho Hd) as Hr. unfold received in Hr. rewrite Hk, Hdisk in Hr. cbn in Hr. subst d.
  unfold io_call. destruct (io_answer _ _); cbn; [|by eauto|by eauto].
  rewrite Hdisk. cbn. split; [by intros h [= <-]|].
  destruct Hi. split; [|done]. split; cbn; try done; unfold received in *; cbn; rewrite ?Hk, ?disk_of_snoc in *; cbn;
    rewrite ?Hdisk; cbn; try done; eauto. by rewrite Hf.
Qed.

Lemma prove_plaintext_spec wp content s o :
  sink_inv content o → opened o → dropping o = false →
  sruns (s, o) (prove_plaintext wp)
    (λ p st, st.1 = s ∧ sink_inv content st.2 ∧ opened st.2 ∧ fields st.2 = fields o ∧ gone st.2 = gone o ∧
       (p = Whole → sha256_from_hex (sha256_plain wp) = Some (sha256 content)))
    (λ e _, ∃ m, e = RSink None (EIo m)).
Proof.
  intros Hi Ho Hd. unfold prove_plaintext. destruct (sha256_from_hex _) as [recorded|]; [|by cbn].
  apply sruns_bind. pose proof (plain_digest_spec content o Hi Ho Hd) as Hp.
  apply sruns_in_out.
  - intros d o' Hr. rewrite Hr in Hp. destruct Hp as (Hh & Hi' & Ho' & Hf & Hg).
    destruct d as [got|]; [|by cbn]. case_bool_decide as Heq; unfold sruns; cbn; [|done].
    repeat (split; [done|]). intros _. rewrite <-Heq. by rewrite (Hh got).
  - intros e o' Hr. rewrite Hr in Hp. destruct Hp as [m ->]. by exists m.
Qed.

(** ** An attempt, judged *)

(** The slice is delivered, and is the slice. *)
Definition complete (wp : WritePosition) (ids : list Identity) (content : list Z) (o : SliceOut) : Prop :=
  sink_inv content o ∧ opened o ∧ gone o = false ∧ holes o = [] ∧ hole_bytes o = 0 ∧
  proven wp ids content.

Definition attempt_post (wp : WritePosition) (ids : list Identity) (d0 : list Damage) (a : Attempt)
    (st : Supply * SliceOut) : Prop :=
  match a with
  | AComplete => damage st.1 = d0 ∧ ∃ content, complete wp ids content st.2
  | ASinkGone => gone st.2 = true
  | AStopped _ | AUnproven _ _ => damage st.1 = d0 ∧ ∃ content, tied ids (encrypted_of wp) content st.2
  end.

(** A failure of the sink's is the sink's own. *)
Definition plain_error (e : RestoreError) : Prop :=
  match e with
  | RSink _ (EFuel | ETapeIo _ _ | EAge _) => False
  | _ => True
  end.

Lemma failed_plain c e o : failed e o → plain_error (RSink c e).
Proof. intros [_ H]. by destruct e. Qed.

Lemma accounted_tied ids len data c n content o :
  Z.of_nat (length data) ≤ u64_max → open (from_slice data) ids len = Ok c →
  accounted c n content o → holes o = [] → gone o = false → tied ids len content o.
Proof.
  intros Hd Hop [Ha Hi Hb Hbd] Hh Hg. rewrite Hh in *. split; [done|]. split; [done|].
  split; [done|]. split; [done|]. destruct Hbd as [?|?]; [by left|right].
  by exists data, c, n.
Qed.

Lemma tied_fields ids len content o o' :
  tied ids len content o → fields o' = fields o → gone o' = gone o → sink_inv content o' →
  tied ids len content o'.
Proof.
  intros (Hh & Hg & Hhb & _ & Ht) Hf Hg' Hi. injection Hf as Hk Hsn Hb Hho Hhb' Hat Hun.
  unfold tied. rewrite Hb, Hho, Hhb', Hg'. done.
Qed.

(** What a read that delivered every chunk makes of its output. *)
Lemma measured_complete ids wp mode content k data e o :
  measured ids (encrypted_of wp) mode content k data (Ok e) o → Z.of_nat (length data) ≤ u64_max →
  open_error e = None → other_file e = false → sink_gone e = false →
  holes o = [] →
  ∃ c n content', open (from_slice data) ids (encrypted_of wp) = Ok c ∧ accounted c n content' o ∧
    opened o ∧ dropping o = false ∧ gone o = false ∧ hole_bytes o = 0 ∧
    tied ids (encrypted_of wp) content' o ∧
    (stopped e = false → account c (chunks c) content' []).
Proof.
  intros Hm Hd Hoe Hof Hsg Hh. unfold measured in Hm. rewrite Hoe, Hof in Hm. cbn in Hm.
  destruct Hm as (Hg & _ & Ho & c & n & content' & Hop & Hok & Hac & _ & Htl & _ & Hn). rewrite Hsg in Hg.
  exists c, n, content'. destruct Hac as [Ha Hi Hb Hbd] eqn:Hace. clear Hace.
  split; [done|]. split; [by split|]. split; [done|]. split; [by rewrite <-(si_gone _ _ Hi)|].
  split; [done|]. split; [by rewrite Hb, Hh|]. split; [by eapply accounted_tied; [|exact Hop|by split| |]|].
  intros Hs. rewrite <-Hn, <-Hh; [done|done|]. destruct (tail_damaged e); [|done].
  specialize (Htl eq_refl). congruence.
Qed.

Lemma judge_attempt_sound again wp ids content data raw s o k :
  (hash_ok raw = false → is_Some (raw_defect raw)) →
  (hash_ok raw = true → hex_text (sha256 data) = sha256_encrypted wp) →
  Z.of_nat (length data) ≤ u64_max →
  measured ids (encrypted_of wp) Strict content k data (raw_ended raw) o →
  (∀ s' o', damage s' = damage s → tied ids (encrypted_of wp) [] o' → bound o' = None → 
     sruns (s', o') again (attempt_post wp ids (damage s)) (λ e _, plain_error e)) →
  sruns (s, o) (judge_attempt again wp raw) (attempt_post wp ids (damage s)) (λ e _, plain_error e).
Proof.
  intros Hdef Hhash Hd Hm Hagain. unfold judge_attempt. apply sruns_bind, sruns_sup.
  destruct (raw_ended raw) as [e|e]; [|by eapply (failed_plain ((λ d, (label_or s, d)) <$> raw_defect raw) e o)].
  destruct (open_error e) as [a|] eqn:Hoe.
  { unfold measured in Hm. rewrite Hoe in Hm. cbn in Hm. destruct Hm as (_ & Ht & _).
    destruct (raw_defect raw); [|done]. split; [done|]. by exists content. }
  destruct (other_file e) eqn:Hof.
  { unfold measured in Hm. rewrite Hoe, Hof in Hm. cbn in Hm. destruct Hm as (-> & Ht & <-).
    destruct (hash_ok raw); [|by split; [|exists content]].
    apply sruns_bind, sruns_outs. destruct (sink o) eqn:Hk; cbn [is_file]; [|done].
    apply sruns_bind. destruct Ht as (_ & Hg & _ & Hi & _).
    destruct (reset_tied ids (encrypted_of wp) content o Hi Hk Hg) as (o' & Hr & Ht' & _ & Hb').
    apply sruns_in_out; rewrite Hr; [|done]. intros [] o2 [= <-]. by apply Hagain. }
  destruct (sink_gone e) eqn:Hsg.
  { unfold measured in Hm. rewrite Hoe, Hof in Hm. cbn in Hm. destruct Hm as (Hg & _).
    apply sruns_bind. destruct (_ || _); unfold sruns; cbn; congruence. }
  assert (holes o = []) as Hh.
  { unfold measured in Hm. rewrite Hoe, Hof in Hm. cbn in Hm.
    destruct Hm as (_ & _ & _ & ? & ? & ? & _ & _ & _ & H & _). by apply H. }
  destruct (measured_complete _ _ _ _ _ _ _ _ Hm Hd Hoe Hof Hsg Hh)
    as (c & n & content' & Hop & Hac & Ho & Hdr & Hg & Hhb & Ht & Hall).
  destruct (stopped e) eqn:Hst; [by split; [|exists content']|].
  pose proof (ac_inv _ _ _ _ Hac) as Hi.
  destruct (hash_ok raw) eqn:Hhk.
  { split; [done|]. exists content'. repeat (split; [done|]). left. exists data, c. auto. }
  destruct (Hdef eq_refl) as [d ->]. apply sruns_bind.
  eapply sruns_weaken; [by eapply prove_plaintext_spec| |by intros e' st [m ->]].
  intros p [s1 o1] (Hs1 & Hi1 & Ho1 & Hf1 & Hg1 & Hw). cbn [fst snd] in *. subst s1.
  pose proof (tied_fields _ _ _ _ _ Ht Hf1 Hg1 Hi1) as Ht1.
  destruct p as [| |why]; [| |by split; [|exists content']].
  - split; [done|]. exists content'. pose proof Ht1 as (? & ? & ? & _).
    repeat (split; [done|]). right. by apply Hw.
  - apply sruns_bind, sruns_outs. destruct (sink o1) eqn:Hk; cbn [is_file]; [|done].
    apply sruns_bind. destruct Ht1 as (_ & Hg' & _ & _ & _).
    destruct (reset_tied ids (encrypted_of wp) content' o1 Hi1 Hk Hg') as (o' & Hr & Ht' & _ & Hb').
    apply sruns_in_out; rewrite Hr; [|done]. intros [] o2 [= <-]. split; [done|]. by exists [].
Qed.

Lemma attempt_sound fuel pos wp ids content s o :
  encrypted_bytes wp ≤ i64_max → tied ids (encrypted_of wp) content o →
  sruns (s, o) (attempt fuel pos wp ids) (attempt_post wp ids (damage s)) (λ e _, plain_error e).
Proof.
  intros He. revert content s o. induction fuel as [|fuel IH]; intros content s o Ht; cbn [attempt];
    (apply sruns_bind; eapply sruns_weaken; [by eapply attempt_raw_measured| |done]);
    intros raw [s1 o1] (Hd1 & Hh1 & Hdef & data & Hhash & Hlen & Hm); cbn [fst snd] in *;
    rewrite <-Hd1; (eapply judge_attempt_sound; [done|exact Hhash|done|exact Hm|]);
    intros s' o' Hd' Ht' _; [done|].
  rewrite <-Hd'. by eapply IH.
Qed.

(** ** A slice, when the supply is done with it *)

(** dar is gone; or the slice is on the account of damage, its holes with it;
    or it is the slice the catalog recorded. *)
Definition slice_done (wp : WritePosition) (ids : list Identity) (d0 : list Damage)
    (st : Supply * SliceOut) : Prop :=
  gone st.2 = true ∨
  (∃ e content, damage st.1 = d0 ++ [e] ∧ dam_slice e = wp_slice wp ∧ dam_holes e = holes st.2 ∧
     sink_inv content st.2) ∨
  (damage st.1 = d0 ∧ ∃ content, complete wp ids content st.2).

Lemma recorded_done wp ids volume cause reason content s o hs :
  sink_inv content o → hs = holes o →
  sruns (s, o) (record_damage wp volume cause reason hs)
    (λ _ st, slice_done wp ids (damage s) st) (λ e _, plain_error e).
Proof.
  intros Hi ->. right. left. eexists _, content. cbn. split; [reflexivity|]. by split.
Qed.

(** The end of a salvage that found the plaintext wrong: the slice is a hole
    from end to end. *)
Lemma wrong_done wp ids volume cause content s o :
  sink_inv content o → sink o = FileSink → gone o = false → Z.of_nat (length content) ≤ u64_max →
  sruns (s, o)
    (len ← outs delivered; in_out reset;; in_out (hole len);; hs ← outs holes;
     record_damage wp volume cause PlaintextWrong hs)
    (λ _ st, slice_done wp ids (damage s) st) (λ e _, plain_error e).
Proof.
  intros Hi Hk Hg Hlen. apply sruns_bind, sruns_outs.
  destruct (reset_tied ids (encrypted_of wp) content o Hi Hk Hg) as (o' & Hr & Ht' & _ & _).
  destruct Ht' as (Hh & Hg' & Hhb & Hi' & _).
  apply sruns_bind, sruns_in_out; rewrite Hr; [|done]. intros [] o2 [= <-].
  rewrite (si_delivered _ _ Hi).
  pose proof (hole_inv [] (Z.of_nat (length content)) o' Hi' ltac:(lia) ltac:(simpl; lia)
    ltac:(lia) ltac:(lia)) as Hhole. unfold runs in Hhole.
  apply sruns_bind, sruns_in_out.
  - intros [] o3 H3. rewrite H3 in Hhole. destruct Hhole as (Hi3 & _).
    apply sruns_bind, sruns_outs. by eapply recorded_done.
  - intros e o3 H3. rewrite H3 in Hhole. by eapply failed_plain.
Qed.

Lemma judge_salvage_sound again wp ids content data raw first s o k :
  encrypted_bytes wp ≤ i64_max →
  (hash_ok raw = true → hex_text (sha256 data) = sha256_encrypted wp) →
  Z.of_nat (length data) ≤ u64_max →
  measured ids (encrypted_of wp) Tolerant content k data (raw_ended raw) o →
  (∀ c s' o', damage s' = damage s → tied ids (encrypted_of wp) [] o' →
     sruns (s', o') (again c) (λ _ st, slice_done wp ids (damage s) st) (λ e _, plain_error e)) →
  sruns (s, o) (judge_salvage again wp first 0 raw)
    (λ _ st, slice_done wp ids (damage s) st) (λ e _, plain_error e).
Proof.
  intros Henc Hhash Hd Hm Hagain. unfold judge_salvage. apply sruns_bind, sruns_sup. cbv zeta.
  set (cause := match first with Some _ => _ | None => _ end). clearbody cause.
  destruct (raw_ended raw) as [e|e]; [|by apply (failed_plain cause e o)].
  destruct (open_error e) as [a|] eqn:Hoe; [done|].
  destruct (other_file e) eqn:Hof.
  { unfold measured in Hm. rewrite Hoe, Hof in Hm. cbn in Hm. destruct Hm as (_ & Ht & _).
    apply sruns_bind, sruns_outs. destruct (hash_ok raw), (sink o) eqn:Hk; cbn [is_file andb]; try done.
    apply sruns_bind. destruct Ht as (_ & Hg & _ & Hi & _).
    destruct (reset_tied ids (encrypted_of wp) content o Hi Hk Hg) as (o' & Hr & Ht' & _).
    apply sruns_in_out; rewrite Hr; [|done]. intros [] o2 [= <-]. by apply Hagain. }
  apply sruns_bind, sruns_outs. cbv beta. change (drop 0 (holes o)) with (holes o).
  destruct (sink_gone e) eqn:Hsg.
  { assert (gone o = true) as Hg.
    { unfold measured in Hm. rewrite Hoe, Hof in Hm. cbn in Hm. by destruct Hm as (<- & _). }
    (* dar is gone, whatever is noted of it *)
    cbn [andb]. destruct (bool_decide (holes o = [])); [destruct (_ || _)|];
      unfold sruns, record_damage, upd, mret, sop_ret, slice_done; by left. }
  cbn [andb]. case_bool_decide as Hh; cycle 1.
  { unfold measured in Hm. rewrite Hoe, Hof in Hm. cbn in Hm.
    destruct Hm as (_ & _ & _ & c & n & content' & _ & _ & Hac & _).
    eapply recorded_done; [apply Hac|done]. }
  destruct (measured_complete _ _ _ _ _ _ _ _ Hm Hd Hoe Hof Hsg Hh)
    as (c & n & content' & Hop & Hac & Ho & Hdr & Hg & Hhb & Ht & Hall).
  assert (stopped e = false) as Hst.
  { unfold measured in Hm. rewrite Hoe, Hof in Hm. cbn in Hm.
    destruct Hm as (_ & _ & _ & ? & ? & ? & _ & _ & _ & _ & _ & Hmode & _).
    destruct (stopped e); [|done]. by specialize (Hmode eq_refl). }
  pose proof (ac_inv _ _ _ _ Hac) as Hi. apply sruns_bind.
  assert (Hpr : sruns (s, o) (if hash_ok raw then mret Whole else prove_plaintext wp)
    (λ p st, st.1 = s ∧ sink_inv content' st.2 ∧ opened st.2 ∧ fields st.2 = fields o ∧ gone st.2 = gone o ∧
       (p = Whole → proven wp ids content')) (λ e _, plain_error e)).
  { destruct (hash_ok raw).
    - repeat (split; [done|]). intros _. left. exists data, c. auto.
    - eapply sruns_weaken; [by apply (prove_plaintext_spec wp content')| |by intros e' st [m ->]].
      intros p st (? & ? & ? & ? & ? & Hw). repeat (split; [done|]). intros Hp. right. auto. }
  eapply sruns_weaken; [exact Hpr| |done].
  intros p [s1 o1] (Hs1 & Hi1 & Ho1 & Hf1 & Hg1 & Hw). cbn [fst snd] in *. subst s1.
  pose proof (tied_fields _ _ _ _ _ Ht Hf1 Hg1 Hi1) as (Hh1 & Hgo1 & Hhb1 & _ & _).
  destruct p as [| |why].
  - specialize (Hw eq_refl). assert (complete wp ids content' o1) as Hc by done.
    destruct cause as [[on d]|].
    + unfold sruns, supplied, upd. right. right. cbn [fst snd]. split; [by destruct (bool_decide _)|eauto].
    + right. right. split; [done|eauto].
  - apply sruns_bind, sruns_outs. destruct (sink o1) eqn:Hk; cbn [is_file]; [|done].
    eapply (wrong_done wp ids); try done.
    assert (is_u64 (encrypted_of wp)) as Hu by (unfold encrypted_of; unfold_width; lia).
    destruct (open_data _ _ _ _ Hd Hu Hop) as [Hok _].
    destruct (account_index c n content' _ Hok (ac_account _ _ _ _ Hac)) as (Hn & -> & _).
    apply boundary_bounds; [done|lia].
  - eapply recorded_done; [exact Hi1|done].
Qed.

Lemma salvage_sound fuel wp ids first content s o :
  encrypted_bytes wp ≤ i64_max → tied ids (encrypted_of wp) content o →
  sruns (s, o) (salvage fuel wp ids first) (λ _ st, slice_done wp ids (damage s) st)
    (λ e _, plain_error e).
Proof.
  intros He. revert first content s o. induction fuel as [|fuel IH]; intros first content s o Ht;
    cbn [salvage]; (apply sruns_bind, sruns_sup; destruct (last_position s) as [pos|]; [|done]);
    (apply sruns_bind, sruns_outs; cbv beta; rewrite (proj1 Ht); cbn [length]);
    (apply sruns_bind; eapply sruns_weaken; [by eapply attempt_raw_measured| |done]);
    intros raw [s1 o1] (Hd1 & Hh1 & Hdef & data & Hhash & Hlen & Hm); cbn [fst snd] in *;
    rewrite <-Hd1; (eapply judge_salvage_sound; [done|exact Hhash|done|exact Hm|]);
    intros c s' o' Hd' Ht'; [done|].
  rewrite <-Hd'. by eapply IH.
Qed.

Lemma fill_end_sound wp ids f content s o :
  encrypted_bytes wp ≤ i64_max → tied ids (encrypted_of wp) content o →
  sruns (s, o) (fill_end wp ids f) (λ _ st, slice_done wp ids (damage s) st) (λ e _, plain_error e).
Proof.
  intros He Ht. unfold fill_end. destruct (f_unproven f) as [[[on d] why]|].
  - destruct Ht as (Hh & _ & _ & Hi & _). eapply recorded_done; [exact Hi|done].
  - by eapply salvage_sound.
Qed.

(** A swap touches neither the output nor the account of damage. *)
Definition quiet {A} (m : sop A) : Prop :=
  ∀ s o, sruns (s, o) m (λ _ st, st.2 = o ∧ damage st.1 = damage s) (λ e _, plain_error e).

Lemma quiet_bind {A B} (m : sop A) (f : A → sop B) :
  quiet m → (∀ a, quiet (f a)) → quiet (m ≫= f).
Proof.
  intros Hm Hf s o. apply sruns_bind. eapply sruns_weaken; [apply Hm| |done].
  intros a [s1 o1] [Ho Hd]. cbn [fst snd] in *. subst o1.
  eapply sruns_weaken; [apply Hf| |done]. intros b st [? ?]. split; [done|congruence].
Qed.

Lemma quiet_ret {A} (a : A) : quiet (mret a).
Proof. done. Qed.
Lemma quiet_fails {A} e : plain_error e → quiet (sfails (A := A) e).
Proof. intros H s o. exact H. Qed.
Lemma quiet_sup {A} (f : Supply → A) : quiet (sup f).
Proof. done. Qed.
Lemma quiet_upd f : (∀ s, damage (f s) = damage s) → quiet (upd f).
Proof. intros H s o. split; [done|apply H]. Qed.
Lemma quiet_lift {A} (r : result RestoreError A) : (∀ e, r = Err e → plain_error e) → quiet (lift r).
Proof. intros H s o. by apply sruns_lift. Qed.

Lemma quiet_arrive v l : quiet (arrive v l).
Proof. intros s o. unfold sruns, arrive. cbn. by destruct (identify _ _ _). Qed.
Lemma quiet_ask : quiet ask.
Proof. intros s o. unfold sruns, ask. cbn. by destruct (script s) as [|[a c] r]. Qed.

Lemma quiet_return_to n v l : quiet (return_to n v l).
Proof.
  induction n as [|n IH]; cbn [return_to]; (apply quiet_bind; [apply quiet_arrive|intros [u|e]];
    [apply quiet_ret|apply quiet_bind; [apply quiet_ask|intros []]]); try by apply quiet_fails.
  apply IH.
Qed.

Lemma quiet_change_to v l sk : quiet (change_to v l sk).
Proof.
  assert (Hloop : ∀ n pr sv, quiet (change_loop n v l sk pr sv)).
  { intros n pr sv. induction n as [|n IH]; cbn [change_loop];
      (apply quiet_bind; [apply quiet_ask|intros []]); try (by apply quiet_fails);
      try (apply quiet_bind; [apply quiet_arrive|intros [u|e]];
           first [apply quiet_ret|by apply quiet_fails|apply IH]);
      (destruct sk; [destruct pr as [[pv pl]|]|]); try (by apply quiet_fails);
      (apply quiet_bind; [apply quiet_sup|intros m]); (apply quiet_bind; [apply quiet_return_to|intros []]);
      (apply quiet_bind; [by apply quiet_upd|intros []]); apply quiet_ret. }
  unfold change_to. do 2 (apply quiet_bind; [apply quiet_sup|intros ?]).
  apply quiet_bind; [by apply quiet_upd|intros []]. apply quiet_bind; [apply quiet_sup|intros n]. apply Hloop.
Qed.

Lemma quiet_mark_bad sha at_ : quiet (mark_bad sha at_).
Proof. apply quiet_upd. intros s. by destruct (here_volume s). Qed.
Lemma quiet_mark_hash_bad sha : quiet (mark_hash_bad sha).
Proof. apply quiet_upd. intros s. by destruct (here_volume s). Qed.
Lemma quiet_supplied wp on d : quiet (supplied wp on d).
Proof. apply quiet_upd. intros s. cbv zeta. by destruct (bool_decide _). Qed.

Lemma quiet_sole_copy wp : quiet (sole_copy wp).
Proof.
  unfold sole_copy. apply quiet_bind; [apply quiet_sup|intros [v|]]; [|apply quiet_ret].
  apply quiet_bind; [apply quiet_sup|intros m]. destruct (m !! _); [apply quiet_ret|].
  apply quiet_bind; [apply quiet_lift|intros others].
  - intros e. unfold map_err. destruct (other_copies_exist _ _); [done|]. by intros [= <-].
  - apply quiet_bind; [by apply quiet_upd|intros []; apply quiet_ret].
Qed.

(** A quiet operation, then one that ends a slice. *)
Lemma quiet_then {A} (m : sop A) (f : A → sop ()) wp ids d0 s o :
  quiet m → d0 = damage s →
  (∀ a s', damage s' = d0 →
     sruns (s', o) (f a) (λ _ st, slice_done wp ids d0 st) (λ e _, plain_error e)) →
  sruns (s, o) (m ≫= f) (λ _ st, slice_done wp ids d0 st) (λ e _, plain_error e).
Proof.
  intros Hm -> Hf. apply sruns_bind. eapply sruns_weaken; [apply Hm| |done].
  intros a [s1 o1] [Ho Hd]. cbn [fst snd] in *. subst o1. by apply Hf.
Qed.

Lemma quiet_choose wp at_ tried awaiting holders : quiet (choose wp at_ tried awaiting holders).
Proof.
  assert (Hp : quiet (lift (parse_position wp))).
  { apply quiet_lift. intros e. unfold parse_position, ok_or. destruct (parse_u32 _); [done|].
    by intros [= <-]. }
  unfold choose. apply quiet_bind; [apply quiet_sup|intros s].
  destruct (here_volume s) as [v|].
  - destruct (_ && _); [apply quiet_bind; [exact Hp|intros p; apply quiet_ret]|].
    apply quiet_bind; [|intros all; case_match; apply quiet_ret].
    destruct holders; [apply quiet_ret|apply quiet_lift]. intros e. unfold map_err.
    destruct (holders_of _); [done|]. by intros [= <-].
  - destruct tried; [apply quiet_ret|]. apply quiet_bind; [exact Hp|intros p; apply quiet_ret].
Qed.

Lemma fill_loop_sound fuel wp ids sole f content s o :
  encrypted_bytes wp ≤ i64_max → tied ids (encrypted_of wp) content o →
  sruns (s, o) (fill_loop fuel wp ids sole f) (λ _ st, slice_done wp ids (damage s) st)
    (λ e _, plain_error e).
Proof.
  intros He. revert f content s o. induction fuel as [|fuel IH]; intros f content s o Ht; [done|].
  cbn [fill_loop]. apply sruns_bind, sruns_outs. eapply quiet_then; [apply quiet_choose|done|].
  intros [c hs] s1 Hd1. cbn beta iota.
  assert (Hend : ∀ (f : Filling) s', damage s' = damage s →
    sruns (s', o) (fill_end wp ids f) (λ _ st, slice_done wp ids (damage s) st) (λ e _, plain_error e)).
  { intros f' s' <-. by eapply fill_end_sound. }
  assert (Hloop : ∀ (f : Filling) s', damage s' = damage s →
    sruns (s', o) (fill_loop fuel wp ids sole f) (λ _ st, slice_done wp ids (damage s) st)
      (λ e _, plain_error e)).
  { intros f' s' <-. by eapply IH. }
  destruct c as [pos|h|h|].
  - apply sruns_bind, sruns_upd. cbn [fst snd]. destruct sole; [by apply Hend|].
    apply sruns_bind. eapply sruns_weaken; [by eapply attempt_sound| |done].
    assert (Hd2 : damage (set_last_position s1 (Some pos)) = damage s) by done. rewrite Hd2.
    intros a [s2 o2] Ha.
    assert (Hgo : ∀ (d : Defect) (mk : string → option (string * Defect * Why)), damage s2 = damage s →
      (∃ content, tied ids (encrypted_of wp) content o2) →
      sruns (s2, o2)
        (label ← sup label_or; at_ ← outs delivered; mark_bad (sha256_encrypted wp) at_;;
         (match d with DHash _ => mark_hash_bad (sha256_encrypted wp) | _ => mret () end);;
         (let f := mkFilling hs (match f_first f with Some c => Some c | None => Some (label, d) end) (mk label) true in
          if substitutable d then fill_loop fuel wp ids false f else fill_end wp ids f))
        (λ _ st, slice_done wp ids (damage s) st) (λ e _, plain_error e)).
    { intros d mk Hds [content' Ht']. apply sruns_bind, sruns_sup, sruns_bind, sruns_outs.
      eapply quiet_then; [apply quiet_mark_bad|done|]. intros [] s3 Hd3.
      eapply quiet_then; [by destruct d; first [apply quiet_mark_hash_bad|apply quiet_ret]|done|].
      intros [] s4 Hd4. cbv zeta. rewrite <-Hd4.
      destruct (substitutable d); [by eapply IH|by eapply fill_end_sound]. }
    destruct a as [| |d|d why]; cbn in Ha.
    + destruct Ha as [Hds Hc]. cbn [fst snd] in *. destruct (f_first f) as [[on d]|].
      * eapply sruns_weaken; [apply quiet_supplied| |done]. intros [] st [Ho Hd]. right. right.
        split; [congruence|]. by rewrite Ho.
      * right. right. done.
    + left. done.
    + destruct Ha. by apply (Hgo d (λ _, f_unproven f)).
    + destruct Ha. by apply (Hgo d (λ label, Some (label, d, why))).
  - destruct (negb attended); [done|]. eapply quiet_then; [apply quiet_change_to|done|].
    intros [] s2 Hd2; [apply Hloop; congruence|done].
  - destruct (negb attended); [done|]. eapply quiet_then; [apply quiet_change_to|done|].
    intros [] s2 Hd2; [apply Hloop; congruence|apply Hend; congruence].
  - by apply Hend.
Qed.

(** ** Reading a slice *)

Lemma new_out_tied ids len k n : tied ids len [] (new_out k n).
Proof.
  split; [done|]. split; [done|]. split; [done|]. split; [|by left].
  split; try done. intros _ _ _. split; [done|by right].
Qed.

Lemma finish_inv content o :
  sink_inv content o →
  runs o finish (λ _ o', sink_inv content o' ∧ opened o' ∧ holes o' = holes o ∧ (gone o = true → gone o' = true))
    (λ _ _, True).
Proof.
  intros Hi. unfold finish. apply runs_bind.
  eapply runs_weaken; [by apply open_sink_inv| |done].
  intros [] o1 (Hi1 & Ho1 & Hf1 & Hg1). injection Hf1 as Hk Hsn Hb Hho Hhb Hat Hun.
  apply runs_bind, runs_gets. unfold id. rewrite <-Hho.
  assert (Hdone : sink_inv content o1 ∧ opened o1 ∧ holes o1 = holes o1 ∧ (gone o = true → gone o1 = true)) by done.
  destruct Hi1 as [H1 H2 H3 H4 H5 H6 H7 H8]. specialize (H2 Ho1). specialize (H3 Ho1). unfold received in *.
  destruct (sink o1) as [|last] eqn:Hk1.
  - destruct (file o1) eqn:Hf; [|by apply runs_ret].
    apply runs_bind. unfold runs, io_call. destruct (io_answer _ _) eqn:Ha; [|done|done].
    cbn. split; [|split; [exact Ho1|done]]. sink_fields Hk1; intros; auto.
  - destruct (dropping o1) eqn:Hd; [by apply runs_ret|].
    apply runs_bind. unfold runs, io_call. destruct (io_answer _ _) eqn:Ha; [| |done].
    + cbn. split; [|split; [exact Ho1|done]]. sink_fields Hk1; intros; auto.
      by destruct (H6 ltac:(done)).
    + cbn. unfold opened. cbn. rewrite orb_true_r. split; [|done].
      sink_fields Hk1; intros; try done. by destruct (H6 ltac:(done)).
Qed.

Lemma finish_gone o :
  gone o = true → match finish o with (Ok _, o') => gone o' = true | _ => True end.
Proof.
  intros Hg. unfold finish, open_sink, mbind, op_bind, gets, modify, io_call, fails, mret, op_ret, id.
  cbn. repeat (case_match; simplify_eq; cbn in *; try done).
Qed.

Lemma fill_slice_sound wp ids k s :
  encrypted_bytes wp ≤ i64_max →
  sruns (s, new_out k (wp_slice wp)) (fill_slice wp ids)
    (λ _ st, slice_done wp ids (damage s) st) (λ e _, plain_error e).
Proof.
  intros He. unfold fill_slice. eapply quiet_then; [by apply quiet_upd|done|]. intros [] s1 Hd1.
  eapply quiet_then; [apply quiet_sole_copy|done|]. intros sole s2 Hd2.
  apply sruns_bind, sruns_sup. rewrite <-Hd2. eapply fill_loop_sound; [done|apply new_out_tied].
Qed.

(** C1: a slice read to its end, into a file or into dar's stream, is on the
    restore's account of damage with its holes, or it is the slice the
    catalog recorded: the bytes the sink received were all authenticated
    under one age file whose ciphertext hashes as recorded, or they hash to
    the recorded plaintext checksum. Whatever the cartridges give, whatever
    the sink, the catalog and the operator answer. *)
Theorem read_slice_sound wp ids k s n s' o :
  encrypted_bytes wp ≤ i64_max →
  read_slice wp ids k s = (Ok (n, false), (s', o)) →
  (∃ e, damage s' = damage s ++ [e] ∧ dam_slice e = wp_slice wp ∧ dam_holes e = holes o) ∨
  (damage s' = damage s ∧ holes o = [] ∧ proven wp ids (received o)).
Proof.
  intros He H. unfold read_slice in H. pose proof (fill_slice_sound wp ids k s He) as Hf.
  unfold sruns in Hf. destruct (fill_slice wp ids _) as [[[]|e] [s1 o1]]; cycle 1.
  { by destruct (in_out discard (s1, o1)) as [? ?]. }
  unfold mbind, sop_bind, in_out in H. cbn in H.
  destruct (finish o1) as [[[]|e] o2] eqn:Hfin; [|done]. cbn in H. injection H as Hn Hg <- <-.
  assert (Hfi : ∀ content, sink_inv content o1 →
    sink_inv content o2 ∧ opened o2 ∧ holes o2 = holes o1 ∧ (gone o1 = true → gone o2 = true)).
  { intros content Hi. pose proof (finish_inv content o1 Hi) as Hr. unfold runs in Hr. by rewrite Hfin in Hr. }
  destruct Hf as [Hgo|[(e & content & Hd & Hs & Hh & Hi)|(Hd & content & Hc)]]; cbn [fst snd] in *.
  - (* dar was gone before the end *)
    pose proof (finish_gone o1 Hgo) as Hg2. rewrite Hfin in Hg2. congruence.
  - left. exists e. destruct (Hfi content Hi) as (_ & _ & -> & _). done.
  - right. destruct Hc as (Hi & _ & _ & Hh & _ & Hp). destruct (Hfi content Hi) as (Hi2 & Ho2 & Hh2 & _).
    split; [done|]. split; [congruence|].
    rewrite (si_received _ _ Hi2 Ho2); [done|]. by rewrite <-(si_gone _ _ Hi2).
Qed.
End sound.

(** ** Concrete restores *)

(** A digest that tells the toy files apart. *)
Definition toy_sha : Sha256 := λ l, [foldl (λ a b, (a * 31 + b) mod 251) 7 l].

Lemma toy_header_key : @HeaderKey toy_age.
Proof.
  assert (∀ s ids l c, @open toy_age s ids l = Ok c → aead c = replicate 16 7) as H.
  { intros s ids l c H. unfold open, ok_or, guard_err, mbind, result_bind in H.
    repeat (case_match; simplify_eq/=; try done).
    all: unfold grab_unwrap_stanzas in *; destruct ids; cbn in *; simplify_eq; try done. }
  intros s s' ids l l' c c' H1 H2 _. by rewrite (H _ _ _ _ H1), (H _ _ _ _ H2).
Qed.

(** Two cartridges: volume 2 holds the slice as it was written; volume 1
    another age file of the same plaintext. The second read of volume 2's
    copy, the third of all, fails inside its last chunk. *)
Definition other_toy_file : list Z := 8 :: drop 1 (toy_file true).

Definition toy_bay : Bay := {|
  Cartridge := Z;
  read_file c n pos :=
    if bool_decide (c = 1) then (other_toy_file, None)
    else if bool_decide (n = 2%nat) then (take 25 (toy_file true), Some "Input/output error"%string)
    else (toy_file true, None);
  identify c v l := if bool_decide (v = Some c) then Ok () else Err "not the cartridge"%string;
  attended := true;
|}.

Definition toy_catalog : Catalog := {|
  holders_of _ := Ok [mkHolder 1 "L6-0001" 4 InService; mkHolder 2 "L6-0002" 4 InService];
  other_copies_exist _ _ := Ok true;
|}.

Definition toy_wp (plain : string) : WritePosition :=
  mkWritePosition 10 1 1 "4" plain (hex_text (@sha256 toy_sha (toy_file true))) 39.

Definition toy_supply (volume : Z) : @Supply toy_bay :=
  @mkSupply toy_bay (Some (Some volume, "L6"%string)) volume 0 [(Loaded, 2)] ∅ ∅ None ∅ [] [].

Definition toy_read (volume : Z) (plain : string) :=
  @read_slice obliging_sink toy_age toy_sha toy_catalog toy_bay (toy_wp plain) [tt] FileSink
    (toy_supply volume).

(** The second cartridge gives the slice whole. *)
Lemma read_slice_sound_witness :
  (toy_read 2 "").1 = Ok (3, false) ∧
  ((∃ e, damage (toy_read 2 "").2.1 = [] ++ [e] ∧ dam_slice e = 1 ∧
     dam_holes e = holes (toy_read 2 "").2.2) ∨
   (damage (toy_read 2 "").2.1 = [] ∧ holes (toy_read 2 "").2.2 = [] ∧
    @proven toy_age toy_sha (toy_wp "") [tt] (received (toy_read 2 "").2.2))).
Proof.
  split; [vm_compute; reflexivity|].
  apply (@read_slice_sound obliging_sink toy_age toy_sha toy_catalog toy_bay toy_laws toy_header_key
           (toy_wp "") [tt] FileSink (toy_supply 2) 3 (toy_read 2 "").2.1 (toy_read 2 "").2.2);
    [by_decide|vm_compute; reflexivity].
Defined.

(** A slice recorded as unproven is not always delivered in full. Volume 1's
    copy authenticates and does not hash; volume 2's is another age file that
    does, so what was delivered is dropped and volume 2 read afresh; and that
    read fails. The account says every chunk authenticated, with no hole, and
    the slice is empty. *)
Theorem unproven_not_delivered :
  (toy_read 1 "").1 = Ok (0, false) ∧
  damage (toy_read 1 "").2.1 =
    [mkDamage 1 "L6" (Some ("L6"%string, DHash (hex_text (@sha256 toy_sha other_toy_file))))
       (UnprovenBecause NoChecksumRecorded) []] ∧
  received (toy_read 1 "").2.2 = [].
Proof. vm_compute. auto. Qed.
