(* ===== verification/Span.v ===== *)
(** * A version read across cartridges: [src/volume/restore/span.rs]

    The plan of a restore whose slices are held as ranges on several volumes:
    the start cartridge for as long as it holds the next slice, then, slice
    by slice, the holder that reads furthest. The catalog's rows are
    arguments; the wording of the refusals is not modelled. *)

From stdpp Require Import pretty.
From S2P Require Import Prelude Chunks SliceOut Supply.
Local Open Scope Z_scope.
Local Open Scope rust_scope.

(** [SliceRow]: one slice of the stage set. *)
Record SliceRow : Type := mkSliceRow {
  row_number : Z;
  row_plain : string;
  row_encrypted : string;
  row_bytes : Z;
}.

(** [Run]: the slices a restore reads from one volume. *)
Record Run : Type := mkRun { run_volume : Z; run_first : Z; run_last : Z }.

(** [runs]: each run of consecutive positions on one volume. *)
Definition runs_step (rs : list Run) (wp : WritePosition) : list Run :=
  let fresh := mkRun (volume_id wp) (wp_slice wp) (wp_slice wp) in
  match last rs with
  | Some r =>
      if bool_decide (run_volume r = volume_id wp)
      then removelast rs ++ [mkRun (run_volume r) (run_first r) (wp_slice wp)]
      else rs ++ [fresh]
  | None => rs ++ [fresh]
  end.
Definition runs (positions : list WritePosition) : list Run := foldl runs_step [] positions.

(** [holders_of_set], from its rows: slice, volume, label, position, in
    service. A position that is no tape file is skipped, and a volume holds a
    slice once. *)
Definition HolderRow : Type := (Z * Z * string * string * bool)%type.

Definition held_step (held : list (Z * Holder)) (row : HolderRow) : list (Z * Holder) :=
  let '(slice, volume, label, pos, in_service) := row in
  match parse_u32 pos with
  | None => held
  | Some p =>
      if existsb (λ h, bool_decide (h.1 = slice) && bool_decide (h_volume h.2 = volume)) held
      then held
      else held ++ [(slice, mkHolder volume label p (if in_service : bool then InService else Quarantined))]
  end.
Definition holders_of_set (rows : list HolderRow) : list (Z * Holder) := foldl held_step [] rows.

Inductive SpanError : Type :=
| NoData
| Missing (numbers : list Z)
| StartLacksSliceOne (held : list Z) (slice_one : list Holder)
| SpanFuel.

(** [iter.min_by_key(k)]: the first of the least, by the key's order. *)
Fixpoint min_by {A K} (lt : K → K → bool) (key : A → K) (best : A) (l : list A) : A :=
  match l with
  | [] => best
  | x :: l => min_by lt key (if lt (key x) (key best) then x else best) l
  end.

Definition min_by_key {A K} (lt : K → K → bool) (key : A → K) (l : list A) : option A :=
  match l with [] => None | x :: l => Some (min_by lt key x l) end.

(** The order of the keys: a last resort after any other, a whole copy before
    any other, then the furthest reach, then the volume. *)
Definition Key : Type := (bool * bool * Z * Z)%type.
Definition bool_lt (a b : bool) : bool := negb a && b.
Definition key_lt (x y : Key) : bool :=
  let '(a, b, r, v) := x in
  let '(a', b', r', v') := y in
  bool_lt a a' ||
  bool_decide (a = a') &&
    (bool_lt b b' ||
     bool_decide (b = b') && (bool_decide (r' < r) || bool_decide (r = r') && bool_decide (v < v'))).

Section plan.
Variables (slices : list SliceRow) (held : list (Z * Holder)) (stage_set : Z).

Definition slice_count : Z := Z.of_nat (length slices).

Definition by_slice_step (m : gmap Z (list Holder)) (h : Z * Holder) : gmap Z (list Holder) :=
  <[h.1 := default [] (m !! h.1) ++ [h.2]]> m.
Definition by_slice : gmap Z (list Holder) := foldl by_slice_step ∅ held.

Definition by_volume_step (m : gmap Z (gmap Z Holder)) (h : Z * Holder) : gmap Z (gmap Z Holder) :=
  <[h_volume h.2 := <[h.1 := h.2]> (default ∅ (m !! h_volume h.2))]> m.
Definition by_volume : gmap Z (gmap Z Holder) := foldl by_volume_step ∅ held.

(** What a volume holds. *)
Definition held_on (volume : Z) : gmap Z Holder := default ∅ (by_volume !! volume).

Definition row (number : Z) : option SliceRow :=
  find (λ s, bool_decide (row_number s = number)) slices.

(** How far a volume reads on. *)
Fixpoint reach_loop (fuel : nat) (on : gmap Z Holder) (last : Z) : Z :=
  match fuel with
  | O => last
  | S fuel => if bool_decide (is_Some (on !! (last + 1))) then reach_loop fuel on (last + 1) else last
  end.
Definition reach (next volume : Z) : Z := reach_loop (size (held_on volume)) (held_on volume) next.

Definition whole (volume : Z) : bool := bool_decide (Z.of_nat (size (held_on volume)) = slice_count).

Definition pick_key (next : Z) (h : Holder) : Key :=
  (match h_standing h with InService => false | Quarantined => true end,
   negb (whole (h_volume h)), reach next (h_volume h), h_volume h).

Definition candidates (next : Z) : list Holder := default [] (by_slice !! next).
Definition pick (next : Z) : option Holder := min_by_key key_lt (pick_key next) (candidates next).

Definition position_of (h : Holder) (number : Z) (s : SliceRow) : WritePosition :=
  mkWritePosition stage_set (h_volume h) number (pretty.pretty (h_position h))
    (row_plain s) (row_encrypted s) (row_bytes s).

(** [for number in next..=last]. *)
Fixpoint take_run (n : nat) (on : gmap Z Holder) (number : Z) : result SpanError (list WritePosition) :=
  match n with
  | O => Ok []
  | S n =>
      match row number, on !! number with
      | Some s, Some h =>
          l ← take_run n on (number + 1); Ok (position_of h number s :: l)
      | _, _ => Err (Missing [number])
      end
  end.

(** The loop of [plan_across]; [next] grows, and the slices bound it. *)
Fixpoint across (fuel : nat) (next : Z) : result SpanError (list WritePosition) :=
  if bool_decide (slice_count < next) then Ok []
  else
    match fuel with
    | O => Err SpanFuel
    | S fuel =>
        match pick next with
        | None => Err (Missing [next])
        | Some h =>
            let last := reach next (h_volume h) in
            p ← take_run (Z.to_nat (last - next + 1)) (held_on (h_volume h)) next;
            rest ← across fuel (last + 1);
            Ok (p ++ rest)
        end
    end.

Definition on_start_of (start : list WritePosition) : gmap Z WritePosition :=
  foldl (λ m wp, <[wp_slice wp := wp]> m) ∅ start.

(** The start cartridge, for as long as it holds the next slice. *)
Fixpoint start_run (fuel : nat) (on : gmap Z WritePosition) (next : Z) : list WritePosition * Z :=
  match fuel, on !! next with
  | S fuel, Some wp => let '(p, n) := start_run fuel on (next + 1) in (wp :: p, n)
  | _, _ => ([], next)
  end.

Definition plan_across (start : list WritePosition) : result SpanError (list WritePosition) :=
  if bool_decide (start = []) then Err NoData
  else
    let on_start := on_start_of start in
    let missing :=
      filter (λ n, on_start !! n = None ∧ by_slice !! n = None) (row_number <$> slices) in
    guard_err (bool_decide (missing ≠ [])) (Missing missing);;
    guard_err (bool_decide (on_start !! 1 = None))
      (StartLacksSliceOne ((λ p, p.1) <$> map_to_list on_start) (candidates 1));;
    let '(p, next) := start_run (size on_start) on_start 1 in
    rest ← across (length slices) next;
    Ok (p ++ rest).
End plan.
