(* ===== verification/SpanPlan.v ===== *)
(** * The plan across cartridges is right, and is the shortest

    The functional theorem of [plan_across] on every branch, and the theorem
    that taking the furthest-reading holder each time asks for the fewest
    cartridges. *)

From stdpp Require Import pretty.
From S2P Require Import Prelude Chunks SliceOut Supply SupplyLoop Span.
Local Open Scope Z_scope.
Local Open Scope rust_scope.

(** ** [min_by_key] *)

Section min_by.
Context {A K : Type} (lt : K → K → bool) (key : A → K).
Hypothesis lt_trans_not : ∀ x y z, lt x y = false → lt y z = false → lt x z = false.
Hypothesis lt_irrefl : ∀ x, lt x x = false.
Hypothesis lt_asym : ∀ x y, lt x y = true → lt y x = false.

Lemma min_by_spec best l :
  min_by lt key best l ∈ best :: l ∧
  ∀ y, y ∈ best :: l → lt (key y) (key (min_by lt key best l)) = false.
Proof.
  revert best. induction l as [|x l IH]; intros best; cbn.
  { split; [set_solver|]. by intros y ->%list_elem_of_singleton. }
  destruct (IH (if lt (key x) (key best) then x else best)) as [Hmem Hmin]. split.
  { revert Hmem. destruct (lt _ _); set_solver. }
  intros y [->|[->|Hy]%elem_of_cons]%elem_of_cons; destruct (lt (key x) (key best)) eqn:E.
  - eapply lt_trans_not; [by apply lt_asym|]. apply Hmin. set_solver.
  - apply Hmin. set_solver.
  - apply Hmin. set_solver.
  - eapply lt_trans_not; [exact E|]. apply Hmin. set_solver.
  - apply Hmin. set_solver.
  - apply Hmin. set_solver.
Qed.
End min_by.

Lemma key_lt_asym x y : key_lt x y = true → key_lt y x = false.
Proof.
  destruct x as [[[a b] r] v], y as [[[a' b'] r'] v']. unfold key_lt.
  destruct a, a', b, b'; cbn; repeat case_bool_decide; cbn; try congruence; lia.
Qed.

Lemma key_lt_irrefl x : key_lt x x = false.
Proof. destruct (key_lt x x) eqn:E; [|done]. by rewrite (key_lt_asym x x E) in E. Qed.

Lemma key_lt_trans_not x y z : key_lt x y = false → key_lt y z = false → key_lt x z = false.
Proof.
  destruct x as [[[a b] r] v], y as [[[a' b'] r'] v'], z as [[[a'' b''] r''] v'']. unfold key_lt.
  destruct a, a', a''; cbn; try congruence;
    destruct b, b', b''; cbn; try congruence; repeat case_bool_decide; cbn; try congruence; lia.
Qed.

(** ** The indexes of the holders *)

Section span.
Context (slices : list SliceRow) (held : list (Z * Holder)) (stage_set : Z).

Lemma by_slice_spec k :
  by_slice held !! k =
  if bool_decide (k ∈ held.*1) then Some (filter (λ p, p.1 = k) held).*2 else None.
Proof.
  unfold by_slice. induction held as [|[k' h] l IH] using rev_ind.
  { cbn. case_bool_decide; [set_solver|done]. }
  rewrite foldl_app. cbn [foldl]. set (m := foldl by_slice_step ∅ l) in *.
  unfold by_slice_step. cbn [fst snd]. rewrite filter_app, fmap_app, fmap_app.
  destruct (decide (k = k')) as [->|Hne].
  - rewrite lookup_insert_eq, IH, filter_cons_True, filter_nil by done. cbn.
    rewrite (bool_decide_eq_true_2 (_ ∈ _ ++ _)) by set_solver. case_bool_decide; [done|].
    rewrite (filter_none _ l); [done|].
    intros [k h'] Hl ?; cbn in *; subst. apply H. apply list_elem_of_fmap. by exists (k', h').
  - rewrite lookup_insert_ne, IH, filter_cons_False, filter_nil by (cbn; congruence). cbn.
    rewrite !app_nil_r. do 2 case_bool_decide; set_solver.
Qed.

Lemma elem_of_candidates k h : h ∈ candidates held k ↔ (k, h) ∈ held.
Proof.
  unfold candidates. rewrite by_slice_spec. case_bool_decide as Hk; cbn.
  - rewrite list_elem_of_fmap. split.
    + intros ([k' h'] & -> & [Hk' Hin]%list_elem_of_filter). cbn in *. by subst.
    + intros Hin. exists (k, h). split; [done|]. by apply list_elem_of_filter.
  - split; [set_solver|]. intros Hin. destruct Hk. apply list_elem_of_fmap. by exists (k, h).
Qed.

Lemma held_on_Some v k h : held_on held v !! k = Some h → (k, h) ∈ held ∧ h_volume h = v.
Proof.
  unfold held_on, by_volume. induction held as [|[k' h'] l IH] using rev_ind; [done|].
  rewrite foldl_app. cbn [foldl]. set (m := foldl by_volume_step ∅ l) in *.
  unfold by_volume_step. cbn [fst snd].
  destruct (decide (h_volume h' = v)) as [<-|Hne].
  - rewrite lookup_insert_eq. cbn. destruct (decide (k' = k)) as [->|].
    + rewrite lookup_insert_eq. intros [= <-]. set_solver.
    + rewrite lookup_insert_ne by done. intros [??]%IH. set_solver.
  - rewrite lookup_insert_ne by done. intros [??]%IH. set_solver.
Qed.

Lemma held_on_is_Some k h : (k, h) ∈ held → is_Some (held_on held (h_volume h) !! k).
Proof.
  unfold held_on, by_volume. induction held as [|[k' h'] l IH] using rev_ind; [set_solver|].
  rewrite foldl_app. cbn [foldl]. set (m := foldl by_volume_step ∅ l) in *.
  unfold by_volume_step. cbn [fst snd].
  intros Hin. destruct (decide (h_volume h' = h_volume h)) as [Hv|Hne].
  - rewrite Hv, lookup_insert_eq. cbn. destruct (decide (k' = k)) as [->|].
    + rewrite lookup_insert_eq. by eexists.
    + rewrite lookup_insert_ne by done. apply IH. set_solver.
  - rewrite lookup_insert_ne by done. apply IH. set_solver.
Qed.

(** ** How far a volume reads on *)

Lemma reach_loop_spec fuel on last :
  let r := reach_loop fuel on last in
  last ≤ r ≤ last + Z.of_nat fuel ∧ (∀ k, last < k ≤ r → is_Some (on !! k)) ∧
  (r = last + Z.of_nat fuel ∨ on !! (r + 1) = None).
Proof.
  revert last. induction fuel as [|fuel IH]; intros last; cbn -[Z.of_nat].
  { repeat split; try lia. }
  case_bool_decide as H.
  - destruct (IH (last + 1)) as ([??] & Hall & Hend). split_and!; [lia|lia| |].
    + intros k Hk. destruct (decide (k = last + 1)) as [->|]; [done|]. apply Hall. lia.
    + destruct Hend; [left; lia|by right].
  - rewrite <- eq_None_not_Some in H. split_and!; [lia|lia|lia|by right].
Qed.

(** A run of consecutive keys is no longer than the map. *)
Lemma consecutive_size {A} (m : gmap Z A) last (len : nat) :
  (∀ k, last < k ≤ last + Z.of_nat len → is_Some (m !! k)) → (len ≤ size m)%nat.
Proof.
  intros H. rewrite <- size_dom.
  replace len with (length (seqZ (last + 1) (Z.of_nat len))) by (rewrite length_seqZ; lia).
  rewrite <- (size_list_to_set (C:=gset Z)) by apply NoDup_seqZ.
  apply subseteq_size. intros k [Hk1 Hk2]%elem_of_list_to_set%elem_of_seqZ.
  apply elem_of_dom, H. lia.
Qed.

Lemma reach_spec next v :
  next ≤ reach held next v ∧
  (∀ k, next < k ≤ reach held next v → is_Some (held_on held v !! k)) ∧
  held_on held v !! (reach held next v + 1) = None.
Proof.
  unfold reach. destruct (reach_loop_spec (size (held_on held v)) (held_on held v) next)
    as ([??] & Hall & [Heq|]); [|done].
  split_and!; [done|done|]. destruct (_ !! (_ + 1)) eqn:E; [|done]. exfalso.
  pose proof (consecutive_size (held_on held v) next (S (size (held_on held v)))) as Hs.
  enough (S (size (held_on held v)) ≤ size (held_on held v))%nat by lia. apply Hs.
  intros k Hk. destruct (decide (k = next + Z.of_nat (size (held_on held v)) + 1)) as [->|].
  - rewrite <- Heq, E. by eexists.
  - apply Hall. lia.
Qed.

(** The furthest: any run of held slices from [next] is within the reach. *)
Lemma reach_furthest next v e :
  (∀ k, next < k ≤ e → is_Some (held_on held v !! k)) → e ≤ Z.max next (reach held next v).
Proof.
  intros H. destruct (reach_spec next v) as (? & _ & Hend).
  destruct (decide (e ≤ reach held next v)); [lia|].
  destruct (H (reach held next v + 1)) as [? Hs]; [lia|congruence].
Qed.

(** ** The holder the plan goes on with *)

Lemma pick_spec next :
  match pick slices held next with
  | Some h =>
      (next, h) ∈ held ∧
      ∀ h', (next, h') ∈ held → key_lt (pick_key slices held next h') (pick_key slices held next h) = false
  | None => ∀ h, (next, h) ∉ held
  end.
Proof.
  unfold pick. pose proof (elem_of_candidates next) as Hc.
  destruct (candidates held next) as [|c l]; cbn.
  { intros h Hin%Hc. set_solver. }
  destruct (min_by_spec key_lt (pick_key slices held next) key_lt_trans_not key_lt_irrefl key_lt_asym c l)
    as [Hin Hmin].
  split; [by apply Hc|]. intros h' Hh'. apply Hmin. by apply Hc.
Qed.

(** ** The loop *)

(** The catalog's answers: the rows are the slices [1] to [n] in order, and a
    holder is recorded for one of them. *)
Hypothesis rows_numbered : row_number <$> slices = seqZ 1 (slice_count slices).
Hypothesis held_in_set : Forall (λ p, 1 ≤ p.1 ≤ slice_count slices) held.

Lemma row_Some k :
  1 ≤ k ≤ slice_count slices → ∃ s, row slices k = Some s ∧ s ∈ slices ∧ row_number s = k.
Proof.
  intros Hk. unfold row, find. destruct (find_map _ slices) as [s|] eqn:E.
  - apply find_map_Some in E as (s' & Hin & E). case_bool_decide; simplify_eq. by exists s.
  - exfalso. assert (k ∈ row_number <$> slices) as (s & -> & Hin)%list_elem_of_fmap.
    { rewrite rows_numbered. apply elem_of_seqZ. lia. }
    pose proof (find_map_None _ _ E s Hin) as Hs. cbn in Hs. by rewrite bool_decide_eq_true_2 in Hs.
Qed.

(** A planned position is one the catalog records a holder of, with the
    slice's checksums. *)
Definition from_holder (wp : WritePosition) : Prop :=
  ∃ h s, (wp_slice wp, h) ∈ held ∧ s ∈ slices ∧ row_number s = wp_slice wp ∧
         wp = position_of stage_set h (wp_slice wp) s.

Lemma take_run_spec v m number :
  1 ≤ number → number + Z.of_nat m ≤ slice_count slices + 1 →
  (∀ k, number ≤ k < number + Z.of_nat m → is_Some (held_on held v !! k)) →
  ∃ l, take_run slices stage_set m (held_on held v) number = Ok l ∧
       wp_slice <$> l = seqZ number (Z.of_nat m) ∧
       Forall (λ wp, from_holder wp ∧ volume_id wp = v) l.
Proof.
  revert number. induction m as [|m IH]; intros number H1 Hn Hon.
  { exists []. done. }
  cbn [take_run]. destruct (row_Some number) as (s & -> & Hs & Hnum); [lia|].
  destruct (Hon number) as [h Hh]; [lia|]. rewrite Hh.
  destruct (IH (number + 1)) as (l & -> & Hl & Hall); [lia|lia| |].
  { intros k Hk. apply Hon. lia. }
  cbn. eexists. split; [done|]. split.
  - rewrite fmap_cons, Hl. rewrite (seqZ_cons number) by lia.
    cbn. f_equal. f_equal; lia.
  - apply held_on_Some in Hh as [Hh Hv]. constructor; [|done]. cbn. split; [|done].
    exists h, s. done.
Qed.

Lemma reach_in_set next h :
  (next, h) ∈ held →
  next ≤ reach held next (h_volume h) ≤ slice_count slices ∧
  ∀ k, next ≤ k ≤ reach held next (h_volume h) → is_Some (held_on held (h_volume h) !! k).
Proof.
  intros Hin. destruct (reach_spec next (h_volume h)) as (Hle & Hall & _).
  assert (∀ k, next ≤ k ≤ reach held next (h_volume h) → is_Some (held_on held (h_volume h) !! k)) as Hon.
  { intros k Hk. destruct (decide (k = next)) as [->|]; [by apply held_on_is_Some|]. apply Hall. lia. }
  split; [split; [done|]|done].
  destruct (Hon (reach held next (h_volume h))) as [h' Hh']; [lia|].
  apply held_on_Some in Hh' as [Hh' _]. rewrite Forall_forall in held_in_set.
  specialize (held_in_set _ Hh'). cbn in held_in_set. lia.
Qed.

(** One turn of the loop. *)
Lemma across_step fuel next :
  1 ≤ next ≤ slice_count slices → (∃ h, (next, h) ∈ held) →
  ∃ h p,
    pick slices held next = Some h ∧ (next, h) ∈ held ∧
    next ≤ reach held next (h_volume h) ≤ slice_count slices ∧
    wp_slice <$> p = seqZ next (reach held next (h_volume h) - next + 1) ∧
    Forall (λ wp, from_holder wp ∧ volume_id wp = h_volume h) p ∧
    across slices held stage_set (S fuel) next =
      (rest ← across slices held stage_set fuel (reach held next (h_volume h) + 1); Ok (p ++ rest)).
Proof.
  intros Hnext [h0 Hh0]. pose proof (pick_spec next) as Hp.
  destruct (pick slices held next) as [h|] eqn:E; [|by destruct (Hp h0)].
  destruct Hp as [Hin _]. destruct (reach_in_set next h Hin) as [Hr Hon].
  destruct (take_run_spec (h_volume h) (Z.to_nat (reach held next (h_volume h) - next + 1)) next)
    as (p & Hp & Hsl & Hall); [lia|lia|intros k Hk; apply Hon; lia|].
  exists h, p. rewrite Z2Nat.id in Hsl by lia. split_and!; try done; try lia.
  cbn [across]. rewrite bool_decide_eq_false_2 by lia. by rewrite E, Hp.
Qed.

Lemma across_spec fuel next :
  1 ≤ next ≤ slice_count slices + 1 → slice_count slices + 1 ≤ next + Z.of_nat fuel →
  (∀ k, next ≤ k ≤ slice_count slices → ∃ h, (k, h) ∈ held) →
  ∃ l, across slices held stage_set fuel next = Ok l ∧
       wp_slice <$> l = seqZ next (slice_count slices + 1 - next) ∧ Forall from_holder l.
Proof.
  revert next. induction fuel as [|fuel IH]; intros next Hnext Hf Hall.
  all: destruct (decide (slice_count slices < next)) as [Hlt|].
  1, 3: exists []; cbn; rewrite bool_decide_eq_true_2 by done; split_and!; [done| |done];
    by rewrite seqZ_nil by lia.
  { lia. }
  destruct (across_step fuel next) as (h & p & _ & _ & Hr & Hsl & Hp & ->); [lia|by apply Hall; lia|].
  destruct (IH (reach held next (h_volume h) + 1)) as (l & -> & Hl & Hfrom); [lia|lia| |].
  { intros k Hk. apply Hall. lia. }
  cbn. eexists. split; [done|]. split.
  - rewrite fmap_app, Hsl, Hl.
    replace (reach held next (h_volume h) + 1) with (next + (reach held next (h_volume h) - next + 1)) by lia.
    rewrite <- seqZ_app by lia. f_equal. lia.
  - apply Forall_app. split; [|done]. eapply Forall_impl; [exact Hp|]. by intros ? [].
Qed.

(** ** The start *)

(** The start holds a range: consecutive slices of the set, in order. *)
Definition is_range (start : list WritePosition) (first : Z) : Prop :=
  1 ≤ first ∧ first + Z.of_nat (length start) ≤ slice_count slices + 1 ∧
  wp_slice <$> start = seqZ first (Z.of_nat (length start)).

Lemma on_start_lookup start first k :
  wp_slice <$> start = seqZ first (Z.of_nat (length start)) →
  on_start_of start !! k = if bool_decide (first ≤ k) then start !! Z.to_nat (k - first) else None.
Proof.
  induction start as [|x start IH] using rev_ind; intros Hs.
  { by destruct (bool_decide _). }
  rewrite length_app, fmap_app, Nat2Z.inj_add in Hs. cbn in Hs. rewrite seqZ_app in Hs by lia.
  apply app_inj_2 in Hs as [Hs Hx]; [|done]. cbn in Hx. injection Hx as Hx.
  unfold on_start_of. rewrite foldl_app. cbn [foldl]. fold (on_start_of start).
  destruct (decide (k = wp_slice x)) as [->|Hne].
  - rewrite lookup_insert_eq, bool_decide_eq_true_2, lookup_app_r by lia.
    by replace (_ - _)%nat with 0%nat by lia.
  - rewrite lookup_insert_ne, IH by done. case_bool_decide; [|done].
    destruct (decide (k < wp_slice x)).
    + by rewrite lookup_app_l by lia.
    + by rewrite !(proj2 (lookup_ge_None _ _)) by (rewrite ?length_app; cbn; lia).
Qed.

Lemma on_start_None start first k :
  wp_slice <$> start = seqZ first (Z.of_nat (length start)) →
  on_start_of start !! k = None ↔ k ∉ wp_slice <$> start.
Proof.
  intros Hs. rewrite (on_start_lookup _ _ _ Hs), Hs, elem_of_seqZ.
  case_bool_decide; [rewrite lookup_ge_None|]; intuition lia.
Qed.

Lemma on_start_size start first :
  wp_slice <$> start = seqZ first (Z.of_nat (length start)) →
  size (on_start_of start) = length start.
Proof.
  induction start as [|x start IH] using rev_ind; intros Hs; [done|].
  pose proof (on_start_None _ _ (wp_slice x) Hs) as Hx.
  rewrite length_app, fmap_app, Nat2Z.inj_add in Hs. cbn in Hs. rewrite seqZ_app in Hs by lia.
  apply app_inj_2 in Hs as [Hs Hx']; [|done]. cbn in Hx'. injection Hx' as Hx'.
  unfold on_start_of. rewrite foldl_app. cbn [foldl]. fold (on_start_of start).
  rewrite map_size_insert_None; [rewrite length_app, IH by done; cbn; lia|].
  apply (on_start_None _ first); [done|]. rewrite Hs, elem_of_seqZ. lia.
Qed.

Lemma start_run_spec fuel on next l :
  (∀ i, on !! (next + Z.of_nat i) = l !! i) → (length l ≤ fuel)%nat →
  start_run fuel on next = (l, next + Z.of_nat (length l)).
Proof.
  revert next l. induction fuel as [|fuel IH]; intros next l Hon Hf.
  { destruct l; [|cbn in Hf; lia]. cbn. by rewrite Z.add_0_r. }
  pose proof (Hon 0%nat) as H0. rewrite Z.add_0_r in H0. cbn [start_run]. rewrite H0.
  destruct l as [|x l]; cbn -[Z.of_nat]; [by rewrite Z.add_0_r|].
  rewrite (IH (next + 1) l); [f_equal; lia| |cbn in Hf; lia].
  intros i. change (l !! i) with ((x :: l) !! S i). rewrite <- Hon. f_equal. lia.
Qed.

Lemma start_run_range start :
  wp_slice <$> start = seqZ 1 (Z.of_nat (length start)) →
  start_run (size (on_start_of start)) (on_start_of start) 1 = (start, 1 + Z.of_nat (length start)).
Proof.
  intros Hs. apply start_run_spec.
  - intros i. rewrite (on_start_lookup _ _ _ Hs), bool_decide_eq_true_2 by lia. f_equal. lia.
  - by rewrite (on_start_size _ _ Hs).
Qed.

(** A slice on neither the start nor a live volume. *)
Definition unheld (start : list WritePosition) (k : Z) : Prop :=
  k ∉ wp_slice <$> start ∧ k ∉ held.*1.
#[global] Instance unheld_dec start k : Decision (unheld start k).
Proof. unfold unheld. apply _. Defined.

Lemma missing_spec start first :
  wp_slice <$> start = seqZ first (Z.of_nat (length start)) →
  filter (λ k, on_start_of start !! k = None ∧ by_slice held !! k = None) (row_number <$> slices) =
  filter (unheld start) (seqZ 1 (slice_count slices)).
Proof.
  intros Hs. rewrite rows_numbered. apply filter_ext_in. intros k _.
  rewrite (on_start_None _ _ _ Hs), by_slice_spec. unfold unheld.
  case_bool_decide; intuition congruence.
Qed.

Lemma plan_across_result start first :
  start = [] ∨ is_range start first →
  match plan_across slices held stage_set start with
  | Ok p =>
      start ≠ [] ∧ first = 1 ∧ wp_slice <$> p = seqZ 1 (slice_count slices) ∧
      ∃ rest, p = start ++ rest ∧ Forall from_holder rest ∧
        across slices held stage_set (length slices) (1 + Z.of_nat (length start)) = Ok rest
  | Err NoData => start = []
  | Err (Missing ns) =>
      start ≠ [] ∧ ns ≠ [] ∧ ns = filter (unheld start) (seqZ 1 (slice_count slices))
  | Err (StartLacksSliceOne _ _) =>
      start ≠ [] ∧ first ≠ 1 ∧ ∀ k, 1 ≤ k ≤ slice_count slices → ¬ unheld start k
  | Err SpanFuel => False
  end.
Proof.
  intros Hstart. unfold plan_across. case_bool_decide as Hnil; [done|].
  destruct Hstart as [|(H1 & Hn & Hs)]; [done|]. rewrite (missing_spec _ _ Hs).
  destruct (bool_decide (filter _ _ ≠ [])) eqn:Em; cbn [guard_err mbind result_bind].
  { by apply bool_decide_eq_true in Em. }
  apply bool_decide_eq_false, dec_stable in Em.
  assert (∀ k, 1 ≤ k ≤ slice_count slices → ¬ unheld start k) as Hheld.
  { intros k Hk Hu. apply (not_elem_of_nil k). rewrite <- Em.
    apply list_elem_of_filter. split; [done|]. apply elem_of_seqZ. lia. }
  rewrite (on_start_lookup _ _ 1 Hs). destruct (decide (first = 1)) as [->|Hf].
  2: { rewrite (bool_decide_eq_false_2 (first ≤ 1)) by lia. by rewrite bool_decide_eq_true_2. }
  destruct start as [|w start]; [done|]. rewrite (bool_decide_eq_true_2 (1 ≤ 1)) by done. cbn [lookup list_lookup Z.sub].
  rewrite bool_decide_eq_false_2 by done. cbn [guard_err mbind result_bind].
  rewrite (start_run_range _ Hs).
  destruct (across_spec (length slices) (1 + Z.of_nat (length (w :: start)))) as (rest & Hr & Hsl & Hall).
  { lia. }
  { unfold slice_count. lia. }
  { intros k Hk. destruct (decide (k ∈ held.*1)) as [([k' h] & -> & Hin)%list_elem_of_fmap|Hno]; [by exists h|].
    destruct (Hheld k); [lia|]. split; [|done]. rewrite Hs, elem_of_seqZ. lia. }
  rewrite Hr. cbn [mbind result_bind]. split_and!; try done.
  - rewrite fmap_app, Hs, Hsl. rewrite <- seqZ_app by lia. f_equal. lia.
  - by exists rest.
Qed.

(** ** The number of cartridges *)

(** The volume changes along a list of volumes, the first included. *)
Fixpoint changes (v : Z) (l : list Z) : nat :=
  match l with
  | [] => 0
  | x :: l => ((if bool_decide (v = x) then 0 else 1) + changes x l)%nat
  end.
Definition cartridges (l : list Z) : nat :=
  match l with [] => 0 | v :: l => S (changes v l) end.

Lemma runs_length ps : length (runs ps) = cartridges (volume_id <$> ps).
Proof.
  assert (∀ ps rs r, last rs = Some r →
    length (foldl runs_step rs ps) = (length rs + changes (run_volume r) (volume_id <$> ps))%nat) as H.
  { clear. induction ps as [|wp ps IH]; intros rs r Hr; cbn; [lia|].
    unfold runs_step at 2. rewrite Hr. case_bool_decide as E.
    - apply last_Some in Hr as [rs' ->]. rewrite removelast_last.
      rewrite (IH _ (mkRun (run_volume r) (run_first r) (wp_slice wp))) by apply last_snoc.
      rewrite !length_app. cbn. by rewrite E.
    - rewrite (IH _ (mkRun (volume_id wp) (wp_slice wp) (wp_slice wp))) by apply last_snoc.
      rewrite length_app. cbn. lia. }
  destruct ps as [|wp ps]; [done|]. cbn. unfold runs. cbn. fold (runs_step [] wp).
  by rewrite (H _ _ (mkRun (volume_id wp) (wp_slice wp) (wp_slice wp))).
Qed.

Lemma changes_app v l k : (changes v (l ++ k) ≤ changes v l + cartridges k)%nat.
Proof.
  revert v. induction l as [|x l IH]; intros v; cbn.
  - destruct k; cbn; [lia|]. case_bool_decide; lia.
  - specialize (IH x). lia.
Qed.

Lemma cartridges_app l k : (cartridges (l ++ k) ≤ cartridges l + cartridges k)%nat.
Proof. destruct l as [|v l]; cbn; [lia|]. pose proof (changes_app v l k). lia. Qed.

Lemma cartridges_one v l : Forall (λ x, x = v) l → (cartridges l ≤ 1)%nat.
Proof.
  destruct 1 as [|x l -> Hl]; cbn; [lia|]. enough (changes v l = 0)%nat by lia.
  induction Hl as [|x l -> _ IH]; cbn; [done|]. by rewrite bool_decide_eq_true_2, IH.
Qed.

(** The first run of a list of volumes. *)
Lemma first_run v l :
  ∃ m, (0 < m ≤ S (length l))%nat ∧ (∀ i, (i < m)%nat → (v :: l) !! i = Some v) ∧
       cartridges (v :: l) = S (cartridges (drop m (v :: l))).
Proof.
  revert v. induction l as [|x l IH]; intros v.
  { exists 1%nat. split_and!; [cbn; lia|cbn; lia| |done]. intros [|i] Hi; [done|lia]. }
  destruct (decide (v = x)) as [<-|Hne].
  - destruct (IH v) as (m & Hm & Hv & Hc). exists (S m). split_and!; [cbn; lia|cbn; lia| |].
    + intros [|i] Hi; [done|]. apply Hv. lia.
    + change (drop (S m) (v :: v :: l)) with (drop m (v :: l)). rewrite <- Hc. cbn.
      by rewrite bool_decide_eq_true_2.
  - exists 1%nat. split_and!; [cbn; lia|cbn; lia| |].
    + intros [|i] Hi; [done|lia].
    + cbn. by rewrite bool_decide_eq_false_2.
Qed.

(** ** The fewest cartridges *)

Hypothesis in_service : Forall (λ p, h_standing p.2 = InService) held.

Lemma whole_reach v next : whole slices held v = true → 1 ≤ next ≤ slice_count slices →
  reach held next v = slice_count slices.
Proof.
  unfold whole. intros Hw%bool_decide_eq_true Hnext.
  assert (dom (held_on held v) ⊆ list_to_set (C:=gset Z) (seqZ 1 (slice_count slices))) as Hsub.
  { intros k [h Hh]%elem_of_dom. apply held_on_Some in Hh as [Hh _].
    rewrite Forall_forall in held_in_set. specialize (held_in_set _ Hh). cbn in held_in_set.
    apply elem_of_list_to_set, elem_of_seqZ. lia. }
  assert (∀ k, 1 ≤ k ≤ slice_count slices → is_Some (held_on held v !! k)) as Hall.
  { intros k Hk. apply elem_of_dom.
    rewrite (set_subseteq_size_eq _ _ Hsub), elem_of_list_to_set, elem_of_seqZ; [lia|].
    rewrite size_list_to_set, length_seqZ, size_dom by apply NoDup_seqZ. lia. }
  pose proof (reach_furthest next v (slice_count slices) ltac:(intros; apply Hall; lia)).
  destruct (reach_spec next v) as (? & Hr & _).
  destruct (decide (reach held next v ≤ slice_count slices)); [lia|].
  destruct (Hr (reach held next v)) as [h Hh]; [lia|]. apply held_on_Some in Hh as [Hh _].
  rewrite Forall_forall in held_in_set. specialize (held_in_set _ Hh). cbn in held_in_set. lia.
Qed.

Lemma pick_furthest next h h' :
  1 ≤ next ≤ slice_count slices → pick slices held next = Some h → (next, h') ∈ held →
  reach held next (h_volume h') ≤ reach held next (h_volume h).
Proof.
  intros Hnext Hp Hin'. pose proof (pick_spec next) as Hs. rewrite Hp in Hs.
  destruct Hs as [Hin Hmin]. specialize (Hmin _ Hin').
  destruct (reach_in_set _ _ Hin') as [[_ Hr'] _]. rewrite Forall_forall in in_service.
  pose proof (in_service _ Hin) as Hi. pose proof (in_service _ Hin') as Hi'. cbn in Hi, Hi'.
  destruct (whole slices held (h_volume h)) eqn:Ew.
  { by rewrite (whole_reach _ _ Ew Hnext). }
  unfold key_lt, pick_key in Hmin. rewrite Hi, Hi', Ew in Hmin. cbn in Hmin.
  destruct (whole slices held (h_volume h')); cbn in Hmin; [done|].
  destruct (decide (reach held next (h_volume h) < reach held next (h_volume h'))); [|lia].
  rewrite !(bool_decide_eq_true_2 (_ = _)), (bool_decide_eq_true_2 (_ < reach _ _ (h_volume h'))) in Hmin by done. done.
Qed.

(** An assignment of volumes to the slices from [k] on: each volume holds the
    slice it is read from. *)
Definition assigned (k : Z) (vs : list Z) : Prop :=
  k + Z.of_nat (length vs) = slice_count slices + 1 ∧
  ∀ i v, vs !! i = Some v → is_Some (held_on held v !! (k + Z.of_nat i)).

Lemma assigned_drop k vs m :
  assigned k vs → (m ≤ length vs)%nat → assigned (k + Z.of_nat m) (drop m vs).
Proof.
  intros [Hk Hh] Hm. split; [rewrite length_drop; lia|].
  intros i v Hi. rewrite lookup_drop in Hi. apply Hh in Hi. by replace (k + Z.of_nat m + Z.of_nat i) with (k + Z.of_nat (m + i)) by lia.
Qed.

(** The volume of a run that covers [next] reads on at least to the run's end. *)
Lemma run_reach k vs v m next :
  assigned k vs → (∀ i, (i < m)%nat → vs !! i = Some v) →
  k ≤ next < k + Z.of_nat m →
  k + Z.of_nat m - 1 ≤ reach held next v ∧ ∃ h, (next, h) ∈ held ∧ h_volume h = v.
Proof.
  intros [_ Hh] Hv Hnext.
  assert (∀ j, k ≤ j < k + Z.of_nat m → is_Some (held_on held v !! j)) as Hall.
  { intros j Hj. replace j with (k + Z.of_nat (Z.to_nat (j - k))) by lia. apply Hh, Hv. lia. }
  pose proof (reach_furthest next v (k + Z.of_nat m - 1) ltac:(intros; apply Hall; lia)).
  destruct (reach_spec next v) as (? & _ & _). split; [lia|].
  destruct (Hall next Hnext) as [h Hh']. exists h. by apply held_on_Some.
Qed.

Lemma across_fewest fuel k vs next p :
  assigned k vs → 1 ≤ k ≤ next → across slices held stage_set fuel next = Ok p →
  (cartridges (volume_id <$> p) ≤ cartridges vs)%nat.
Proof.
  intros Has. remember (length vs) as len eqn:Hlen. revert fuel k vs next p Hlen Has.
  induction len as [len IH] using lt_wf_ind. intros fuel k vs next p -> Has Hk Hac.
  destruct (decide (slice_count slices < next)) as [Hlt|Hge].
  { destruct fuel; cbn in Hac; rewrite bool_decide_eq_true_2 in Hac by done; injection Hac as <-; cbn; lia. }
  destruct vs as [|v vs]. { destruct Has as [Hl _]. cbn in Hl. lia. }
  destruct (first_run v vs) as (m & Hm & Hv & ->).
  pose proof (assigned_drop _ _ m Has ltac:(cbn; lia)) as Hdrop.
  assert (length (drop m (v :: vs)) < length (v :: vs))%nat by (rewrite length_drop; cbn in *; lia).
  destruct (decide (k + Z.of_nat m ≤ next)) as [Hle|Hin].
  { specialize (IH _ H fuel (k + Z.of_nat m) _ next p eq_refl Hdrop ltac:(lia) Hac). lia. }
  destruct fuel as [|fuel]. { cbn in Hac. by rewrite bool_decide_eq_false_2 in Hac. }
  destruct (run_reach _ _ _ _ next Has Hv) as [Hr (h' & Hh' & Hv')]; [lia|].
  destruct (across_step fuel next) as (h & p1 & Hp & Hh & Hrange & _ & Hp1 & Heq); [lia|by exists h'|].
  rewrite Heq in Hac. apply bind_ok in Hac as (rest & Hrest & [= <-]).
  pose proof (pick_furthest next h h' ltac:(lia) Hp Hh') as Hfar. rewrite Hv' in Hfar.
  specialize (IH _ H fuel (k + Z.of_nat m) _ (reach held next (h_volume h) + 1) rest eq_refl Hdrop ltac:(lia) Hrest).
  rewrite fmap_app. pose proof (cartridges_app (volume_id <$> p1) (volume_id <$> rest)).
  pose proof (cartridges_one (h_volume h) (volume_id <$> p1)
    ltac:(apply Forall_fmap; eapply Forall_impl; [exact Hp1|by intros ? []])). lia.
Qed.

(** A reading of the whole version: every slice in order, each from a volume
    the catalog records it on. *)
Definition reading (q : list WritePosition) : Prop :=
  wp_slice <$> q = seqZ 1 (slice_count slices) ∧
  Forall (λ wp, is_Some (held_on held (volume_id wp) !! wp_slice wp)) q.

Lemma reading_assigned q : reading q → assigned 1 (volume_id <$> q).
Proof.
  intros [Hs Hq]. assert (Z.of_nat (length q) = slice_count slices) as Hlen.
  { rewrite <- (length_fmap wp_slice), Hs, length_seqZ. unfold slice_count. lia. }
  split; [rewrite length_fmap; lia|].
  intros i v Hi. apply list_lookup_fmap_Some in Hi as (wp & -> & Hi).
  enough (wp_slice wp = 1 + Z.of_nat i) as <- by (rewrite Forall_lookup in Hq; eauto).
  assert ((wp_slice <$> q) !! i = Some (wp_slice wp)) as Hw by (rewrite list_lookup_fmap, Hi; done).
  rewrite Hs in Hw. apply lookup_seqZ in Hw. lia.
Qed.

Lemma start_fewest start sv p q :
  start ≠ [] → wp_slice <$> start = seqZ 1 (Z.of_nat (length start)) →
  Forall (λ wp, volume_id wp = sv) start →
  (∀ k, is_Some (held_on held sv !! k) → k ∈ wp_slice <$> start) →
  across slices held stage_set (length slices) (1 + Z.of_nat (length start)) = Ok p →
  reading q → volume_id <$> head q = Some sv →
  (length (runs (start ++ p)) ≤ length (runs q))%nat.
Proof.
  intros Hne Hs Hsv Hon Hp Hq Hhd. pose proof (reading_assigned _ Hq) as Has.
  rewrite !runs_length, fmap_app.
  pose proof (cartridges_app (volume_id <$> start) (volume_id <$> p)).
  pose proof (cartridges_one sv (volume_id <$> start) ltac:(by apply Forall_fmap)).
  destruct q as [|wp q]; [done|]. cbn in Hhd. injection Hhd as Hhd. rewrite fmap_cons, Hhd in *.
  destruct (first_run sv (volume_id <$> q)) as (m & Hm & Hv & ->).
  pose proof (assigned_drop 1 _ m Has ltac:(cbn; lia)) as Hdrop.
  assert (Z.of_nat m ≤ Z.of_nat (length start)) as Hle.
  { destruct Has as [_ Hh].
    pose proof (Hon (Z.of_nat m)) as Hlast. rewrite Hs, elem_of_seqZ in Hlast.
    enough (1 ≤ Z.of_nat m < 1 + Z.of_nat (length start)) by lia. apply Hlast.
    replace (Z.of_nat m) with (1 + Z.of_nat (m - 1)) by lia. apply Hh, Hv. lia. }
  pose proof (across_fewest (length slices) (1 + Z.of_nat m) _ (1 + Z.of_nat (length start)) p Hdrop ltac:(lia) Hp). lia.
Qed.

End span.

(** The plan of a restore across cartridges, on every branch. With the
    catalog's answers as its queries order them, a start of no slices is
    refused; a version with slices on neither the start nor a live volume is
    refused with exactly those slices, before anything else is said; a start
    without slice 1 is refused only then; and otherwise the plan reads every
    slice once, in slice order, the start's own positions first and each later
    slice from a volume recorded to hold it, at the tape file recorded there
    and with the checksums [stage create] recorded. The loop never runs out of
    its bound. *)
Theorem plan_across_spec (slices : list SliceRow) (held : list (Z * Holder)) (stage_set : Z)
    (start : list WritePosition) (first : Z) :
  row_number <$> slices = seqZ 1 (slice_count slices) →
  Forall (λ p, 1 ≤ p.1 ≤ slice_count slices) held →
  start = [] ∨ is_range slices start first →
  match plan_across slices held stage_set start with
  | Ok p =>
      start ≠ [] ∧ first = 1 ∧ wp_slice <$> p = seqZ 1 (slice_count slices) ∧
      ∃ rest, p = start ++ rest ∧ Forall (from_holder slices held stage_set) rest
  | Err NoData => start = []
  | Err (Missing ns) =>
      start ≠ [] ∧ ns ≠ [] ∧ ns = filter (unheld held start) (seqZ 1 (slice_count slices))
  | Err (StartLacksSliceOne _ _) =>
      start ≠ [] ∧ first ≠ 1 ∧ ∀ k, 1 ≤ k ≤ slice_count slices → ¬ unheld held start k
  | Err SpanFuel => False
  end.
Proof.
  intros Hrows Hheld Hstart.
  pose proof (plan_across_result slices held stage_set Hrows Hheld start first Hstart) as H.
  destruct (plan_across _ _ _ _) as [p|[]]; try done.
  destruct H as (? & ? & ? & rest & ? & ? & _). eauto 10.
Qed.

(** The fewest cartridges. When every holder is in service, no reading of
    the version that starts on the same cartridge, in slice order, asks for
    fewer cartridges than the plan: preferring a whole copy and then the
    furthest reach is never worse than any other choice. *)
Theorem plan_fewest (slices : list SliceRow) (held : list (Z * Holder)) (stage_set sv : Z)
    (start p q : list WritePosition) :
  row_number <$> slices = seqZ 1 (slice_count slices) →
  Forall (λ p, 1 ≤ p.1 ≤ slice_count slices) held →
  Forall (λ p, h_standing p.2 = InService) held →
  is_range slices start 1 →
  Forall (λ wp, volume_id wp = sv) start →
  (∀ k, is_Some (held_on held sv !! k) → k ∈ wp_slice <$> start) →
  plan_across slices held stage_set start = Ok p →
  reading slices held q → volume_id <$> head q = Some sv →
  (length (runs p) ≤ length (runs q))%nat.
Proof.
  intros Hrows Hheld Hin Hr Hsv Hon Hp Hq Hhd.
  pose proof (plan_across_result slices held stage_set Hrows Hheld start 1 (or_intror Hr)) as H.
  rewrite Hp in H. destruct H as (Hne & _ & _ & rest & -> & _ & Hac).
  destruct Hr as (_ & _ & Hs). by eapply start_fewest.
Qed.

(** ** A version of five slices on five cartridges *)

Definition ex_slices : list SliceRow :=
  (λ k, mkSliceRow k "plain" "cipher" 100) <$> seqZ 1 5.
Definition ex_held : list (Z * Holder) :=
  holders_of_set
    [(1, 10, "L10", "4", true); (2, 10, "L10", "5", true); (3, 11, "L11", "7", true);
     (3, 12, "L12", "9", true); (3, 12, "L12", "30", true); (4, 12, "L12", "10", true);
     (4, 13, "L13", "12", true); (5, 13, "L13", "x", true); (5, 13, "L13", "13", true);
     (5, 14, "L14", "3", true)].
Definition ex_position (volume slice : Z) (file : string) : WritePosition :=
  mkWritePosition 1 volume slice file "plain" "cipher" 100.
Definition ex_start : list WritePosition := [ex_position 10 1 "4"; ex_position 10 2 "5"].

Lemma ex_start_range : is_range ex_slices ex_start 1.
Proof. split_and!; [by_decide|by_decide|vm_compute; reflexivity]. Qed.

Lemma plan_across_spec_witness :
  plan_across ex_slices ex_held 1 ex_start =
    Ok (ex_start ++ [ex_position 12 3 "9"; ex_position 12 4 "10"; ex_position 13 5 "13"]) ∧
  wp_slice <$> (ex_start ++ [ex_position 12 3 "9"; ex_position 12 4 "10"; ex_position 13 5 "13"]) =
    seqZ 1 (slice_count ex_slices).
Proof.
  assert (plan_across ex_slices ex_held 1 ex_start =
    Ok (ex_start ++ [ex_position 12 3 "9"; ex_position 12 4 "10"; ex_position 13 5 "13"])) as Hp
    by (vm_compute; reflexivity).
  split; [exact Hp|].
  pose proof (plan_across_spec ex_slices ex_held 1 ex_start 1
    ltac:(vm_compute; reflexivity) ltac:(by_decide) (or_intror ex_start_range)) as H.
  rewrite Hp in H. exact (proj1 (proj2 (proj2 H))).
Defined.

Lemma plan_fewest_witness :
  (length (runs (ex_start ++ [ex_position 12 3 "9"; ex_position 12 4 "10"; ex_position 13 5 "13"])) ≤
   length (runs (ex_start ++ [ex_position 11 3 "7"; ex_position 12 4 "10"; ex_position 14 5 "3"])))%nat.
Proof.
  apply (plan_fewest ex_slices ex_held 1 10 ex_start);
    [vm_compute; reflexivity|by_decide|vm_compute; repeat constructor|
     exact ex_start_range|by_decide| |vm_compute; reflexivity|split; [vm_compute; reflexivity|by_decide]|reflexivity].
  assert (Forall (λ p, h_volume p.2 = 10 → p.1 ∈ wp_slice <$> ex_start) ex_held) as Hstart by by_decide.
  intros k [h Hh]. apply held_on_Some in Hh as [Hin Hv].
  rewrite Forall_forall in Hstart. exact (Hstart _ Hin Hv).
Defined.
