(* ===== verification/TapeWrite.v ===== *)
(** * Blocks to and from the drive: [src/tape/ioctl.rs]

    The block write that the drive's early warning makes a retry, the stream
    of one tape file in padded (and, armed, protected) blocks with its
    filemark, and the reads that take it back. The kernel is a list of
    answers: one for each [write(2)], [ioctl] or [read(2)] in turn; past the
    list it takes everything it is given. The two test hooks and the journal
    of failures are not modelled. *)

From S2P Require Import Prelude LayoutModel Slice Lbp.
Local Open Scope Z_scope.
Local Open Scope rust_scope.

(** ** Errors *)

Inductive OsError : Type :=
| ENOSPC
| EIO
| WriteZero
| OsOther (message : string).

(** The variants of [TapectlError] these calls, and the write pipeline, give. *)
Inductive TapeError : Type :=
| MediumFull (e : OsError)
| TapeIo (e : OsError)
| LbpRefusal (e : OsError)
| SourceIo (message : string)
| SourceExhausted (got want : Z)
| ShortBlock (got want : nat)
| CrcFailed (block : Z) (m : CrcMismatch)
| HashUnfinished
| WriteFuel
| SinkWrite.

#[export] Instance OsError_eq_dec : EqDecision OsError.
Proof. solve_decision. Defined.

Definition write_error (e : OsError) : TapeError :=
  if bool_decide (e = ENOSPC) then MediumFull e else TapeIo e.

(** ** The early warning *)

Definition MAX_REFUSALS_IN_A_ROW : Z := 16.

Record EarlyWarning : Type := mkEarlyWarning { bytes_at : Z; refusals : Z }.

#[export] Instance EarlyWarning_eq_dec : EqDecision EarlyWarning.
Proof. solve_decision. Defined.

Record EarlyWarningState : Type := mkWarningState {
  accepted : Z;
  warning : option EarlyWarning;
}.

(** [state.refusals()]. *)
Definition refusals_of (st : EarlyWarningState) : Z := from_option refusals 0 (warning st).

(** One refusal: the warning is recorded at the first, and each is counted. *)
Definition refuse_block (st : EarlyWarningState) : EarlyWarningState :=
  let w := default (mkEarlyWarning (accepted st) 0) (warning st) in
  mkWarningState (accepted st) (Some (mkEarlyWarning (bytes_at w) (refusals w +w 1))).

Definition accept_bytes (n : nat) (st : EarlyWarningState) : EarlyWarningState :=
  mkWarningState (accepted st +w Z.of_nat n) (warning st).

(** ** The kernel's side of a write *)

Inductive WriteAnswer : Type :=
| Took (n : nat)             (* at most what it was given *)
| WIntr
| WFailed (e : OsError).

(** The tape under the head: the files whose filemark is written, and the
    bytes since. *)
Record Medium : Type := mkMedium {
  files : list (list Z);
  open_file : list Z;
}.

Definition append (bytes : list Z) (m : Medium) : Medium :=
  mkMedium (files m) (open_file m ++ bytes).
Definition mark (m : Medium) : Medium := mkMedium (files m ++ [open_file m]) [].

Record WriteState : Type := mkWriteState {
  answers : list WriteAnswer;
  medium : Medium;
  warned : EarlyWarningState;
}.

(** The loop of [write_block_retrying]; [rest] is never empty in a round. *)
Fixpoint retry_loop (script : list WriteAnswer) (rest : list Z) (in_a_row : Z)
    (m : Medium) (st : EarlyWarningState) : result OsError () * WriteState :=
  match rest, script with
  | [], _ => (Ok (), mkWriteState script m st)
  | _, [] => (Ok (), mkWriteState [] (append rest m) (accept_bytes (length rest) st))
  | _, Took n :: script =>
      let n := Nat.min n (length rest) in
      if bool_decide (n = 0%nat) then (Err WriteZero, mkWriteState script m st)
      else retry_loop script (drop n rest) 0 (append (take n rest) m) (accept_bytes n st)
  | _, WIntr :: script => retry_loop script rest in_a_row m st
  | _, WFailed e :: script =>
      if bool_decide (e = ENOSPC) then
        let in_a_row := in_a_row + 1 in
        if bool_decide (MAX_REFUSALS_IN_A_ROW < in_a_row)
        then (Err e, mkWriteState script m st)
        else retry_loop script rest in_a_row m (refuse_block st)
      else (Err e, mkWriteState script m st)
  end.

Definition write_block_retrying (buf : list Z) (s : WriteState) : result OsError () * WriteState :=
  retry_loop (answers s) buf 0 (medium s) (warned s).

(** ** The device *)

(** [TapeDevice]'s write side: what its open decided, and the answers to its
    [ioctl]s. *)
Record Device : Type := mkDevice {
  dev_block_size : Z;                       (* usize *)
  armed_page : bool;                    (* lbp.is_some() *)
  writes_checked : bool;
  reads_checked : bool;
  st_block : Z;
  ioctls : list (option OsError);
  state : WriteState;
}.

Definition with_state (s : WriteState) (d : Device) : Device :=
  mkDevice (dev_block_size d) (armed_page d) (writes_checked d) (reads_checked d) (st_block d)
    (ioctls d) s.
Definition on_medium (f : Medium → Medium) (d : Device) : Device :=
  with_state (mkWriteState (answers (state d)) (f (medium (state d))) (warned (state d))) d.

(** [mt_ioctl_raw]. *)
Definition mt_ioctl (d : Device) : result OsError () * Device :=
  let d' := mkDevice (dev_block_size d) (armed_page d) (writes_checked d) (reads_checked d)
              (st_block d) (drop 1 (ioctls d)) (state d) in
  (match ioctls d with Some e :: _ => Err e | _ => Ok () end, d').

Definition write_wire (d : Device) : Z :=
  if writes_checked d then dev_block_size d + Z.of_nat CRC_LEN else dev_block_size d.

Definition payload_bytes (d : Device) (wire_bytes : Z) : Z :=
  let wire := Z.max (write_wire d) 1 in
  if bool_decide (wire = Z.max (dev_block_size d) 1) then wire_bytes
  else wire_bytes / wire * dev_block_size d + Z.min (wire_bytes mod wire) (dev_block_size d).

Definition early_warning (d : Device) : option EarlyWarning :=
  (λ w, mkEarlyWarning (payload_bytes d (bytes_at w)) (refusals w)) <$> warning (warned (state d)).

Definition set_st_block (n : Z) (d : Device) : Device :=
  mkDevice (dev_block_size d) (armed_page d) (writes_checked d) (reads_checked d) n (ioctls d) (state d).

Definition ensure_st_block (n : Z) (d : Device) : result TapeError () * Device :=
  if bool_decide (st_block d = n) then (Ok (), d)
  else
    match mt_ioctl d with
    | (Err e, d) => (Err (TapeIo e), d)
    | (Ok _, d) => (Ok (), set_st_block n d)
    end.

Definition block_write_error (d : Device) (e : OsError) : TapeError :=
  if writes_checked d && bool_decide (e = EIO) then LbpRefusal e else write_error e.

Definition filemark_error (d : Device) (e : OsError) : TapeError :=
  if bool_decide (e = ENOSPC) then MediumFull e
  else if writes_checked d && bool_decide (e = EIO) then LbpRefusal e
  else TapeIo e.

(** The reads that fill one block: [want - got] bytes more at most, each
    read one byte at least, so [want] rounds suffice. *)
Fixpoint fill_block (fuel : nat) (got : list Z) (want : nat) (src : list ReadEvent)
    : result TapeError (list Z) * list ReadEvent :=
  if bool_decide (want ≤ length got)%nat then (Ok got, src)
  else
    match fuel with
    | O => (Err WriteFuel, src)
    | S fuel =>
        match read (want - length got) src with
        | (Bytes [], src) => (Err (SourceExhausted (Z.of_nat (length got)) (Z.of_nat want)), src)
        | (Bytes l, src) => fill_block fuel (got ++ l) want src
        | (Eintr, src) => (Err (SourceIo "interrupted"), src)
        | (Fault m, src) => (Err (SourceIo m), src)
        end
    end.

(** A block as it goes to the drive: the payload, zeros to the block's end,
    and the CRC when the drive checks it. [None] is [protect]'s panic. What
    the code's buffer holds past a whole payload is the last block's CRC,
    which [protect] overwrites. *)
Definition wire_block (d : Device) (payload : list Z) : option (list Z) :=
  let wire := Z.to_nat (Z.max (write_wire d) 1) in
  let buf := payload ++ replicate (wire - length payload) 0 in
  if writes_checked d then protect buf else Some buf.

(** The loop of [write_blocks]; each round sends a byte of the file at least. *)
Fixpoint write_blocks_loop (fuel : nat) (src : list ReadEvent) (remaining committed : Z)
    (d : Device) : result TapeError Z * list ReadEvent * Device :=
  if bool_decide (remaining ≤ 0) then (Ok committed, src, d)
  else
    match fuel with
    | O => (Err WriteFuel, src, d)
    | S fuel =>
        let bs := Z.max (dev_block_size d) 1 in
        let want := Z.min remaining bs in
        match fill_block (Z.to_nat want) [] (Z.to_nat want) src with
        | (Err e, src) => (Err e, src, d)
        | (Ok payload, src) =>
            match wire_block d payload with
            | None => (Err WriteFuel, src, d)
            | Some buf =>
                match write_block_retrying buf (state d) with
                | (Err e, s) => (Err (block_write_error d e), src, with_state s d)
                | (Ok _, s) =>
                    write_blocks_loop fuel src (remaining - want) (committed +w bs) (with_state s d)
                end
            end
        end
    end.

Definition write_blocks (src : list ReadEvent) (len : Z) (d : Device)
    : result TapeError Z * list ReadEvent * Device :=
  write_blocks_loop (Z.to_nat len) src len 0 d.

(** [write_filemark_sync] and [write_filemark_immediate] are one [ioctl]. *)
Definition write_filemark (d : Device) : result OsError () * Device :=
  match mt_ioctl d with
  | (Ok _, d) => (Ok (), on_medium mark d)
  | r => r
  end.

Definition write_stream (src : list ReadEvent) (len : Z) (d : Device)
    : result TapeError Z * list ReadEvent * Device :=
  match (if writes_checked d then ensure_st_block (write_wire d) d else (Ok (), d)) with
  | (Err e, d) => (Err e, src, d)
  | (Ok _, d) =>
      match write_blocks src len d with
      | (Err e, src, d) => (Err e, src, d)
      | (Ok committed, src, d) =>
          match write_filemark d with
          | (Err e, d') => (Err (filemark_error d e), src, d')
          | (Ok _, d) => (Ok committed, src, d)
          end
      end
  end.

(** ** Reads *)

Inductive ReadEnd : Type := Filemark | EndOfMedium | Stopped.

(** The answers to [read(2)]: a block, [ENOSPC], another error; past the
    list, and for an empty block, the filemark. *)
Inductive TapeRead : Type :=
| Block (l : list Z)
| NoMore
| ReadFault (e : OsError).

Definition read_shape (d : Device) : result TapeError (nat * bool) * Device :=
  if bool_decide (dev_block_size d = 0) then (Ok (1024 * 1024, false)%nat, d)
  else
    let size := if reads_checked d then dev_block_size d + Z.of_nat CRC_LEN else dev_block_size d in
    let '(r, d) := if armed_page d then ensure_st_block size d else (Ok (), d) in
    (match r with Ok _ => Ok (Z.to_nat size, reads_checked d) | Err e => Err e end, d).

Definition read_payload (read_size : nat) (block : list Z) (checked : bool) (n : Z)
    : result TapeError (list Z) :=
  if negb checked then Ok block
  else if bool_decide (length block ≠ read_size) then Err (ShortBlock (length block) read_size)
  else
    match check block with
    | Err m => Err (CrcFailed n m)
    | Ok _ => Ok (take (length block - CRC_LEN) block)
    end.

(** The loop of [read_file_streaming]. [takes l]: the sink accepts the write
    that makes [l] of what it was given. *)
Fixpoint read_loop (takes : list Z → bool) (size : nat) (checked : bool) (reads : list TapeRead) (sink : list Z)
    (block : Z) : result TapeError (list Z * ReadEnd) :=
  match reads with
  | [] | Block [] :: _ => Ok (sink, Filemark)
  | Block l :: reads =>
      payload ← read_payload size l checked block;
      if takes (sink ++ payload) then read_loop takes size checked reads (sink ++ payload) (block + 1)
      else Err SinkWrite
  | NoMore :: _ => Ok (sink, EndOfMedium)
  | ReadFault e :: _ => Err (TapeIo e)
  end.

(** A [Vec], or [io::sink]. *)
Definition takes_all : list Z → bool := λ _, true.

Definition read_file_streaming (takes : list Z → bool) (reads : list TapeRead) (d : Device)
    : result TapeError (list Z * ReadEnd) * Device :=
  match read_shape d with
  | (Err e, d) => (Err e, d)
  | (Ok (size, checked), d) => (read_loop takes size checked reads [] 0, d)
  end.

(** The loop of [read_file_head]. *)
Fixpoint read_head_loop (size : nat) (checked : bool) (reads : list TapeRead) (max_bytes : Z)
    (sink : list Z) (block : Z) : result TapeError (list Z * ReadEnd) :=
  if bool_decide (max_bytes ≤ Z.of_nat (length sink)) then Ok (sink, Stopped)
  else
    match reads with
    | [] | Block [] :: _ => Ok (sink, Filemark)
    | Block l :: reads =>
        payload ← read_payload size l checked block;
        let n := Z.min (Z.of_nat (length payload)) (max_bytes - Z.of_nat (length sink)) in
        read_head_loop size checked reads max_bytes (sink ++ take (Z.to_nat n) payload) (block + 1)
    | NoMore :: _ => Ok (sink, EndOfMedium)
    | ReadFault e :: _ => Err (TapeIo e)
    end.

Definition read_file_head (reads : list TapeRead) (max_bytes : Z) (d : Device)
    : result TapeError (list Z * ReadEnd) * Device :=
  match read_shape d with
  | (Err e, d) => (Err e, d)
  | (Ok (size, checked), d) => (read_head_loop size checked reads max_bytes [] 0, d)
  end.
