(* ===== verification/TapeSpec.v ===== *)
(** * A tape file is written whole, and read back as it was written

    The retry past the early warning, exactly; [write_stream] against the
    padded and protected blocks of the file; and the round trip through
    [read_file_streaming]. *)

From S2P Require Import Prelude LayoutModel Slice SliceHeader Lbp LbpCrc Chunks TapeWrite.
Local Open Scope Z_scope.
Local Open Scope rust_scope.

(** ** The retry *)

#[export] Instance WriteAnswer_eq_dec : EqDecision WriteAnswer.
Proof. solve_decision. Defined.

(** The longest run of refusals in a list of answers, interrupted calls
    aside; [cur] is the run it starts in. *)
Fixpoint longest_run (cur : Z) (l : list WriteAnswer) : Z :=
  match l with
  | [] => cur
  | WIntr :: l => longest_run cur l
  | WFailed ENOSPC :: l => longest_run (cur + 1) l
  | _ :: l => Z.max cur (longest_run 0 l)
  end.
Definition refused (l : list WriteAnswer) : Z :=
  Z.of_nat (length (filter (λ a, a = WFailed ENOSPC) l)).

Lemma refused_ENOSPC : refused [WFailed ENOSPC] = 1.
Proof. reflexivity. Qed.
Lemma refused_other a : a ≠ WFailed ENOSPC → refused [a] = 0.
Proof. intros Ha. unfold refused. by rewrite filter_cons_False. Qed.

(** The warning, once recorded, stays where it came. *)
Definition same_warning (st st' : EarlyWarningState) : Prop :=
  match warning st with
  | Some w => bytes_at <$> warning st' = Some (bytes_at w)
  | None => ∀ w, warning st' = Some w → accepted st ≤ bytes_at w ≤ accepted st'
  end.

Lemma append_append a b m : append b (append a m) = append (a ++ b) m.
Proof. unfold append. cbn. by rewrite app_assoc. Qed.
Lemma append_nil m : append [] m = m.
Proof. destruct m. unfold append. cbn. by rewrite app_nil_r. Qed.

(** What one round of calls does, whatever the answers: [k] bytes more are on
    the tape and counted, every refusal is counted but the one that ends it. *)
Record retried (script : list WriteAnswer) (rest : list Z) (row : Z) (m : Medium)
    (st : EarlyWarningState) (r : result OsError ()) (s : WriteState) (used : list WriteAnswer)
    (k : nat) : Prop := {
  rt_answers : script = used ++ answers s;
  rt_medium : medium s = append (take k rest) m;
  rt_accepted : accepted (warned s) = accepted st + Z.of_nat k;
  rt_warning : same_warning st (warned s);
  rt_refusals : refusals_of (warned s) = refusals_of st + refused used - (if bool_decide (r = Err ENOSPC) then 1 else 0);
  rt_outcome :
    match r with
    | Ok _ => k = length rest ∧ longest_run row used ≤ 16
    | Err ENOSPC => (k < length rest)%nat ∧ longest_run row used = 17
    | Err e => (k < length rest)%nat ∧ (e = WriteZero ∨ WFailed e ∈ script)
    end;
}.

Lemma same_warning_refl st : same_warning st st.
Proof. unfold same_warning. destruct (warning st) as [w|]; [done|]. intros w [=]. Qed.

Lemma same_warning_accept n st : same_warning st (accept_bytes n st).
Proof. unfold same_warning. cbn. destruct (warning st) as [w|]; [done|]. intros w [=]. Qed.

Lemma same_warning_trans st st' st'' :
  accepted st ≤ accepted st' → accepted st' ≤ accepted st'' →
  same_warning st st' → same_warning st' st'' → same_warning st st''.
Proof.
  unfold same_warning. intros H1 H2 Ha Hb. destruct (warning st) as [w|].
  - destruct (warning st') as [w'|]; [|done]. cbn in Ha. by rewrite Hb.
  - intros w Hw. destruct (warning st') as [w'|].
    + specialize (Ha w' eq_refl). rewrite Hw in Hb. injection Hb as Hb. lia.
    + specialize (Hb w Hw). lia.
Qed.

(** The first answers of a longer list. *)
Lemma retried_cons a script rest row m st r s used k n row' st' :
  retried script (drop n rest) row' (append (take n rest) m) st' r s used k →
  (n ≤ length rest)%nat → same_warning st st' →
  accepted st' = accepted st + Z.of_nat n →
  refusals_of st' = refusals_of st + refused [a] →
  (∀ l, longest_run row (a :: l) = longest_run row' l ∨
        (n ≠ 0%nat ∧ row ≤ 16 ∧ longest_run row (a :: l) = Z.max row (longest_run row' l))) →
  retried (a :: script) rest row m st r s (a :: used) (n + k).
Proof.
  intros [Ha Hm Hc Hw Hr Ho] Hn Hs Hc' Hr' Hrun. split.
  - by rewrite Ha.
  - rewrite Hm, append_append, <- take_take_drop. done.
  - lia.
  - eapply same_warning_trans; [| |exact Hs|exact Hw]; lia.
  - rewrite Hr, Hr'. change (a :: used) with ([a] ++ used). unfold refused.
    rewrite (filter_app _ [a] used), length_app. lia.
  - rewrite length_drop in Ho. destruct r as [|[]].
    + destruct Ho as [? Hle]. split; [lia|]. destruct (Hrun used) as [->|(? & ? & ->)]; lia.
    + destruct Ho as [? Hle]. split; [lia|]. destruct (Hrun used) as [->|(? & ? & ->)]; lia.
    + destruct Ho as [? Hin]. split; [lia|]. rewrite elem_of_cons. tauto.
    + destruct Ho as [? Hin]. split; [lia|]. rewrite elem_of_cons. tauto.
    + destruct Ho as [? Hin]. split; [lia|]. rewrite elem_of_cons. tauto.
Qed.

(** A list of answers that ends the call at once. *)
Lemma retried_stop a script rest row m st e :
  rest ≠ [] → row ≤ 16 → (e = ENOSPC → row = 16 ∧ a = WFailed ENOSPC) →
  (e ≠ ENOSPC → (e = WriteZero ∨ a = WFailed e) ∧ a ≠ WFailed ENOSPC) →
  retried (a :: script) rest row m st (Err e) (mkWriteState script m st) [a] 0.
Proof.
  intros Hne Hrow He Hne'. assert (0 < length rest)%nat by (destruct rest; [done|cbn; lia]).
  split; cbn [answers medium warned app take]; rewrite ?append_nil; try done; try lia.
  - apply same_warning_refl.
  - case_bool_decide as E.
    + injection E as ->. destruct (He eq_refl) as [_ ->]. rewrite refused_ENOSPC. lia.
    + rewrite refused_other; [lia|]. apply Hne'. congruence.
  - destruct e.
    + destruct (He eq_refl) as [-> ->]. split; [lia|]. done.
    + destruct (Hne' ltac:(done)) as [[|] _]; split; [lia|by left|lia|subst; set_solver].
    + split; [lia|by left].
    + destruct (Hne' ltac:(done)) as [[|] _]; split; [lia|by left|lia|subst; set_solver].
Qed.

Lemma retried_done script row m st :
  row ≤ 16 →
  retried script [] row m st (retry_loop script [] row m st).1 (retry_loop script [] row m st).2 [] 0.
Proof.
  intros Hrow. assert (retry_loop script [] row m st = (Ok (), mkWriteState script m st)) as -> by by destruct script.
  split; cbn [fst snd answers medium warned app take]; rewrite ?append_nil; try done; try lia.
  - apply same_warning_refl.
  - rewrite bool_decide_eq_false_2 by done. change (refused []) with 0. lia.
Qed.

Lemma retry_loop_spec script : ∀ rest row m st,
  0 ≤ row ≤ 16 → 0 ≤ accepted st → accepted st + Z.of_nat (length rest) ≤ u64_max →
  0 ≤ refusals_of st → refusals_of st + Z.of_nat (length script) ≤ u64_max →
  ∃ used k, retried script rest row m st (retry_loop script rest row m st).1
              (retry_loop script rest row m st).2 used k.
Proof.
  induction script as [|a script IH]; intros rest row m st Hrow Ha0 Ha Hr0 Hr;
    (destruct (decide (rest = [])) as [->|Hne];
     [exists [], 0%nat; apply retried_done; lia|]).
  { exists [], (length rest). destruct rest as [|x rest]; [done|].
    split; cbn [retry_loop fst snd answers medium warned app]; 
      [done|by rewrite firstn_all| |apply same_warning_accept| |split; [done|cbn; lia]].
    - cbn [accept_bytes accepted]. unfold add64. by rewrite wrap64_small by lia.
    - rewrite bool_decide_eq_false_2 by done. change (refused []) with 0.
      change (refusals_of _) with (refusals_of st). lia. }
  destruct rest as [|x rest']; [done|]. set (rest := x :: rest') in *. rewrite length_cons in Hr.
  destruct a as [n| |e].
  - change (retry_loop (Took n :: script) rest row m st) with
      (let n := Nat.min n (length rest) in
       if bool_decide (n = 0%nat) then (Err WriteZero : result OsError (), mkWriteState script m st)
       else retry_loop script (drop n rest) 0 (append (take n rest) m) (accept_bytes n st)).
    cbv zeta. case_bool_decide as Hn.
    { exists [Took n], 0%nat. apply retried_stop; [done|lia|done|]. intros _. split; [by left|done]. }
    set (k := Nat.min n (length rest)) in *.
    assert (accepted (accept_bytes k st) = accepted st + Z.of_nat k) as Hacc.
    { cbn [accept_bytes accepted]. unfold add64. rewrite wrap64_small; lia. }
    destruct (IH (drop k rest) 0 (append (take k rest) m) (accept_bytes k st)) as (used & j & H);
      [lia|lia|rewrite Hacc, length_drop; lia|done|change (refusals_of _) with (refusals_of st); lia|].
    exists (Took n :: used), (k + j)%nat. eapply retried_cons; [exact H|lia| |done| |].
    + apply same_warning_accept.
    + change (refusals_of _) with (refusals_of st). rewrite refused_other by done. lia.
    + intros l. right. split; [done|]. split; [lia|done].
  - destruct (IH rest row m st) as (used & j & H); [lia|lia|lia|lia|lia|].
    exists (WIntr :: used), j. eapply (retried_cons WIntr _ _ _ _ _ _ _ _ _ 0 row st);
      [cbn [take drop]; by rewrite append_nil|lia|apply same_warning_refl|lia|rewrite refused_other by done; lia|by left].
  - change (retry_loop (WFailed e :: script) rest row m st) with
      (if bool_decide (e = ENOSPC) then
         if bool_decide (MAX_REFUSALS_IN_A_ROW < row + 1)
         then (Err e : result OsError (), mkWriteState script m st)
         else retry_loop script rest (row + 1) m (refuse_block st)
       else (Err e, mkWriteState script m st)).
    case_bool_decide as He; cycle 1.
    { exists [WFailed e], 0%nat. apply retried_stop; [done|lia|done|]. intros _. split; [by right|congruence]. }
    subst e. unfold MAX_REFUSALS_IN_A_ROW. case_bool_decide as Hm.
    { exists [WFailed ENOSPC], 0%nat. apply retried_stop; [done|lia| |done]. split; [lia|done]. }
    assert (refusals_of (refuse_block st) = refusals_of st + 1) as Hre.
    { unfold refusals_of, refuse_block. cbn. unfold refusals_of in *.
      destruct (warning st) as [w|]; cbn in *; unfold add64; rewrite wrap64_small; lia. }
    destruct (IH rest (row + 1) m (refuse_block st)) as (used & j & H);
      [lia|done|done|lia|lia|].
    exists (WFailed ENOSPC :: used), j.
    eapply (retried_cons (WFailed ENOSPC) _ _ _ _ _ _ _ _ _ 0 (row + 1) (refuse_block st));
      [cbn [take drop]; by rewrite append_nil|lia| |cbn; lia|rewrite Hre, refused_ENOSPC; lia|by left].
    unfold same_warning. cbn. destruct (warning st) as [w|]; [done|]. cbn. intros w [= <-]. cbn. lia.
Qed.

(** ** One block *)

Lemma read_at_most max src l src' : read max src = (Bytes l, src') → (length l ≤ max)%nat.
Proof.
  destruct src as [|[k| |m] src]; cbn; intros [= <- <-]; cbn; [lia|]. rewrite length_take. lia.
Qed.

Section device.
Context (bs : Z) (checked : bool).
Hypothesis bs_pos : 0 < bs.

(** A device of this block size, checking writes or not. *)
Definition is_device (d : Device) : Prop := dev_block_size d = bs ∧ writes_checked d = checked.

Definition wire_len : Z := if checked then bs + Z.of_nat CRC_LEN else bs.

Lemma write_wire_len d : is_device d → write_wire d = wire_len.
Proof. intros [H1 H2]. unfold write_wire, wire_len. by rewrite H1, H2. Qed.

Lemma wire_len_bs : bs ≤ wire_len ≤ bs + 4.
Proof. unfold wire_len, CRC_LEN. destruct checked; lia. Qed.

Definition padded (payload : list Z) : list Z :=
  payload ++ replicate (Z.to_nat bs - length payload) 0.

Lemma padded_length payload : (length payload ≤ Z.to_nat bs)%nat → length (padded payload) = Z.to_nat bs.
Proof. intros H. unfold padded. rewrite length_app, length_replicate. lia. Qed.

(** What is sent for a block is read back as the block and its padding. *)
Lemma wire_block_spec d payload :
  is_device d → (length payload ≤ Z.to_nat bs)%nat → (checked = true → Forall is_byte payload) →
  ∃ w, wire_block d payload = Some w ∧ length w = Z.to_nat wire_len ∧
       ∀ i, read_payload (Z.to_nat wire_len) w checked i = Ok (padded payload).
Proof.
  intros Hd Hp Hb. unfold wire_block. rewrite (write_wire_len d Hd).
  destruct Hd as [_ Hc]. pose proof wire_len_bs. rewrite Hc. rewrite !Z.max_l by lia.
  set (buf := payload ++ replicate (Z.to_nat wire_len - length payload) 0).
  assert (length buf = Z.to_nat wire_len) as Hlen.
  { unfold buf. rewrite length_app, length_replicate. lia. }
  assert (take (Z.to_nat bs) buf = padded payload) as Htake.
  { unfold buf, padded. rewrite take_app_ge, take_replicate by done. do 2 f_equal. lia. }
  assert (wire_len = if checked then bs + 4 else bs) as Hwire by done.
  destruct checked eqn:Ec.
  - assert (Z.to_nat wire_len - CRC_LEN = Z.to_nat bs)%nat as Hbs by (unfold CRC_LEN; lia).
    destruct (protect_spec buf) as (w & Hw & Hwl & Hwb & Hwt & Hz).
    { unfold buf. apply Forall_app. split; [by apply Hb|]. apply Forall_replicate. unfold is_byte. lia. }
    { unfold CRC_LEN. lia. }
    exists w. split; [done|]. split; [congruence|]. intros i. unfold read_payload. cbn [negb].
    rewrite bool_decide_eq_false_2 by (rewrite Hwl, Hlen; auto).
    rewrite (proj2 (check_residue w Hwb)) by (split; [lia|done]).
    by rewrite <- Htake, <- Hbs, <- Hlen, Hwl, Hwt.
  - exists buf. split; [done|]. split; [done|]. intros i. cbn.
    rewrite <- Htake. by rewrite take_ge by lia.
Qed.

Lemma fill_block_spec fuel got want src r src' :
  (want ≤ length got + fuel)%nat → (length got ≤ want)%nat →
  fill_block fuel got want src = (r, src') →
  match r with
  | Ok got' => length got' = want ∧ ∃ l, got' = got ++ l ∧ content src = l ++ content src'
  | Err e => ∃ m, e = SourceIo m ∨ ∃ g w, e = SourceExhausted g w
  end.
Proof.
  revert got src. induction fuel as [|fuel IH]; intros got src Hf Hg H; cbn in H.
  { rewrite bool_decide_eq_true_2 in H by lia. injection H as <- <-.
    split; [lia|]. exists []. by rewrite app_nil_r. }
  case_bool_decide as Hw.
  { injection H as <- <-. split; [lia|]. exists []. by rewrite app_nil_r. }
  destruct (read (want - length got) src) as [ev src1] eqn:Hr.
  assert (∀ l, ev = Bytes l → length l ≤ want - length got)%nat as Hl
    by (intros l ->; by eapply read_at_most).
  apply read_content in Hr as [Hc _]. destruct ev as [[|b l]| |m].
  - injection H as <- <-. exists ""%string. right. eauto.
  - specialize (Hl _ eq_refl). apply IH in H; [|rewrite length_app; cbn in *; lia|rewrite length_app; cbn in *; lia].
    destruct r as [got'|e]; [|done]. destruct H as [? (k & -> & Hk)]. split; [done|].
    exists (b :: l ++ k). split; [by rewrite <- app_assoc|]. by rewrite Hc, Hk, app_comm_cons, app_assoc.
  - injection H as <- <-. eauto.
  - injection H as <- <-. eauto.
Qed.

(** ** One tape file *)

(** A file in blocks of [bs], the last one shorter. *)
Fixpoint chop (fuel n : nat) (l : list Z) : list (list Z) :=
  match fuel, l with
  | S fuel, _ :: _ => take n l :: chop fuel n (drop n l)
  | _, _ => []
  end.
Definition blocks (l : list Z) : list (list Z) := chop (length l) (Z.to_nat bs) l.

Lemma chop_cons fuel n a l :
  (0 < n)%nat → length a = n ∨ l = [] ∧ (0 < length a ≤ n)%nat → (length (a ++ l) ≤ fuel)%nat →
  chop fuel n (a ++ l) = a :: chop (fuel - 1) n l.
Proof.
  intros Hn Ha Hf. assert (a ≠ []) as Hne by (destruct a; [cbn in Ha; lia|done]).
  destruct fuel as [|fuel]; [rewrite length_app in Hf; destruct a; cbn in *; done || lia|].
  destruct a as [|x a]; [done|]. cbn [app chop]. change (x :: (a ++ l)) with ((x :: a) ++ l).
  destruct Ha as [Ha|[-> Ha]].
  - rewrite take_app_length', drop_app_length' by done. do 2 f_equal. lia.
  - rewrite !app_nil_r, take_ge, drop_ge by lia. f_equal. by destruct fuel.
Qed.

Lemma chop_fuel n fuel fuel' l : (0 < n)%nat → (length l ≤ fuel)%nat → (length l ≤ fuel')%nat →
  chop fuel n l = chop fuel' n l.
Proof.
  intros Hn. revert fuel' l. induction fuel as [|fuel IH]; intros [|fuel'] [|x l] Hf Hf'; try done;
    try (cbn in *; lia).
  cbn [chop]. f_equal. apply IH; rewrite length_drop; cbn in *; lia.
Qed.

Lemma blocks_app a l :
  length a = Z.to_nat bs ∨ l = [] ∧ (0 < length a ≤ Z.to_nat bs)%nat →
  blocks (a ++ l) = a :: blocks l.
Proof.
  intros Ha. unfold blocks. rewrite chop_cons; [|lia|done|done]. f_equal.
  apply chop_fuel; [lia| |done]. rewrite length_app. destruct a; cbn in *; lia.
Qed.

(** The blocks [w] a payload is sent as: each of the wire's length, and read
    back as the payload's block, padded. *)
Definition sent (payload : list Z) (w : list (list Z)) : Prop :=
  Forall2 (λ p w, length w = Z.to_nat wire_len ∧
                  ∀ i, read_payload (Z.to_nat wire_len) w checked i = Ok (padded p))
    (blocks payload) w.

(** The counters have room for [n] blocks more. *)
Definition has_room (s : WriteState) (n : nat) : Prop :=
  0 ≤ accepted (warned s) ∧ accepted (warned s) + Z.of_nat n * wire_len ≤ u64_max ∧
  0 ≤ refusals_of (warned s) ∧
  refusals_of (warned s) + Z.of_nat (length (answers s)) ≤ u64_max.

Definition source_error (e : TapeError) : Prop :=
  match e with SourceIo _ | SourceExhausted _ _ => True | _ => False end.

Lemma write_one buf s r s' :
  has_room s 1 → length buf = Z.to_nat wire_len → write_block_retrying buf s = (r, s') →
  files (medium s') = files (medium s) ∧
  (∃ part, open_file (medium s') = open_file (medium s) ++ part ∧ (r = Ok () → part = buf)) ∧
  (accepted (warned s) ≤ accepted (warned s') ∧ same_warning (warned s) (warned s')) ∧
  (r = Ok () → accepted (warned s') = accepted (warned s) + wire_len ∧
     ∀ n, has_room s (S n) → has_room s' n).
Proof.
  intros (Ha & Ha' & Hr & Hr') Hl H. pose proof wire_len_bs.
  destruct (retry_loop_spec (answers s) buf 0 (medium s) (warned s)) as (used & k & Hs);
    [lia|done|lia|done|done|].
  unfold write_block_retrying in H. rewrite H in Hs. cbn [fst snd] in Hs.
  destruct Hs as [Hans Hm Hacc Hw Href Ho]. rewrite Hm. cbn [append files open_file].
  split; [done|]. split.
  { eexists. split; [done|]. intros ->. destruct Ho as [-> _]. by rewrite firstn_all. }
  split; [split; [lia|done]|]. intros ->. destruct Ho as [-> _]. split; [lia|].
  intros n (_ & Hn & _ & _). rewrite bool_decide_eq_false_2 in Href by done.
  assert (refused used ≤ Z.of_nat (length used)).
  { unfold refused. pose proof (length_filter (λ a, a = WFailed ENOSPC) used). lia. }
  assert (0 ≤ refused used) by (unfold refused; lia).
  rewrite Hans, length_app in Hr'. repeat split; lia.
Qed.

Lemma write_blocks_loop_spec (n : nat) : ∀ fuel src remaining committed d r src' d',
  is_device d → (Z.of_nat n - 1) * bs < remaining ≤ Z.of_nat n * bs → 0 ≤ remaining →
  (n ≤ fuel)%nat → 0 ≤ committed → committed + Z.of_nat n * bs ≤ u64_max →
  has_room (state d) n → (checked = true → Forall is_byte (content src)) →
  write_blocks_loop fuel src remaining committed d = (r, src', d') →
  (∃ s, d' = with_state s d) ∧
  files (medium (state d')) = files (medium (state d)) ∧
  (accepted (warned (state d)) ≤ accepted (warned (state d')) ∧
   same_warning (warned (state d)) (warned (state d'))) ∧
  match r with
  | Ok c => c = committed + Z.of_nat n * bs ∧
      ∃ payload w, Z.of_nat (length payload) = remaining ∧ content src = payload ++ content src' ∧
        sent payload w ∧ length w = n ∧
        open_file (medium (state d')) = open_file (medium (state d)) ++ mjoin w
  | Err e => source_error e ∨ ∃ os, e = block_write_error d os
  end.
Proof.
  induction n as [|n IH]; intros fuel src remaining committed d r src' d' Hd Hrem H0 Hf Hc Hcb Hroom Hb H.
  { assert (remaining = 0) as -> by lia. destruct fuel; cbn in H; injection H as <- <- <-.
    all: split; [by exists (state d); destruct d|]; split; [done|]; split; [split; [done|apply same_warning_refl]|];
      split; [lia|]; exists [], []; rewrite app_nil_r; split_and!; try done; constructor. }
  destruct fuel as [|fuel]; [lia|]. cbn [write_blocks_loop] in H.
  rewrite bool_decide_eq_false_2 in H by lia. destruct Hd as [Hbs Hck]. rewrite Hbs in H.
  rewrite (Z.max_l bs 1) in H by lia. set (want := Z.min remaining bs) in *.
  destruct (fill_block _ _ _ src) as [rf src1] eqn:Hfill.
  apply fill_block_spec in Hfill; [|cbn; lia|cbn; lia].
  destruct rf as [payload|e].
  2: { injection H as <- <- <-. split; [by exists (state d); destruct d|]. split; [done|].
    split; [split; [done|apply same_warning_refl]|]. left. by destruct Hfill as [m [->|(g & w & ->)]]. }
  destruct Hfill as [Hlen (l & Hl & Hsrc)]. cbn in Hl. subst l.
  destruct (wire_block_spec d payload) as (w & Hw & Hwl & Hread); [by split|lia| |].
  { intros Hcheck. specialize (Hb Hcheck). rewrite Hsrc, Forall_app in Hb. by destruct Hb. }
  rewrite Hw in H. destruct (write_block_retrying w (state d)) as [rw s] eqn:Hwr.
  pose proof wire_len_bs.
  apply write_one in Hwr as (Hfiles & (part & Hopen & Hpart) & Hsame & Hok); [|destruct Hroom as (?&?&?&?); repeat split; lia|done].
  destruct rw as [[]|os].
  2: { injection H as <- <- <-. split; [by exists s|]. split; [done|]. split; [done|]. right. by exists os. }
  destruct (Hok eq_refl) as [Hacc Hroom']. rewrite (Hpart eq_refl) in Hopen.
  unfold add64 in H. rewrite wrap64_small in H by nia.
  apply IH in H as ((s' & Hd') & Hfiles' & Hsame' & Hres);
    [|done|lia|lia|lia|lia|lia|by apply Hroom'|intros Hcheck; specialize (Hb Hcheck); rewrite Hsrc, Forall_app in Hb; by destruct Hb].
  cbn [with_state state] in Hfiles', Hsame', Hres. split; [exists s'; by rewrite Hd'|].
  split; [congruence|]. split.
  { destruct Hsame, Hsame'. split; [lia|]. by eapply same_warning_trans. }
  destruct r as [c|e]; [|done]. destruct Hres as (-> & payload' & ws & Hl' & Hs' & Hsent & Hn' & Ho').
  split; [lia|]. exists (payload ++ payload'), (w :: ws).
  rewrite length_app. split; [lia|]. split; [by rewrite Hsrc, Hs', app_assoc|].
  split.
  { unfold sent. rewrite blocks_app; [by constructor|].
    destruct (decide (remaining < bs)); [right|left; lia].
    split; [|lia]. destruct payload'; [done|cbn in *; lia]. }
  split; [cbn; lia|]. rewrite Ho', Hopen. cbn. by rewrite app_assoc.
Qed.

Lemma pad_exact len : 0 ≤ len → len + bs ≤ u64_max → pad_to_blocks len bs = div_ceil len bs * bs.
Proof.
  intros H0 Hl. unfold pad_to_blocks, mul64. apply wrap64_small.
  pose proof (div_ceil_spec len bs H0 bs_pos). pose proof (div_ceil_nonneg len bs H0 bs_pos). nia.
Qed.

Lemma write_stream_result src len d r src' d' :
  is_device d → 0 ≤ len → len + bs ≤ u64_max →
  has_room (state d) (Z.to_nat (div_ceil len bs)) → (checked = true → Forall is_byte (content src)) →
  write_stream src len d = (r, src', d') →
  same_warning (warned (state d)) (warned (state d')) ∧
  match r with
  | Ok c =>
      c = pad_to_blocks len bs ∧
      ∃ payload w, Z.of_nat (length payload) = len ∧ content src = payload ++ content src' ∧
        sent payload w ∧ Z.of_nat (length w) = div_ceil len bs ∧
        medium (state d') =
          mkMedium (files (medium (state d)) ++ [open_file (medium (state d)) ++ mjoin w]) []
  | Err e =>
      files (medium (state d')) = files (medium (state d)) ∧
      (source_error e ∨ ∃ os, e = TapeIo os ∨ e = block_write_error d os ∨ e = filemark_error d os)
  end.
Proof.
  intros Hd H0 Hlen Hroom Hb H. unfold write_stream in H.
  assert (∃ r1 d1, (if writes_checked d then ensure_st_block (write_wire d) d else (Ok (), d)) = (r1, d1) ∧
    state d1 = state d ∧ is_device d1 ∧ block_write_error d1 = block_write_error d ∧
    filemark_error d1 = filemark_error d ∧ (∀ e, r1 = Err e → ∃ os, e = TapeIo os)) as
    (r1 & d1 & He & Hs1 & Hd1 & Hbe & Hfe & Hr1).
  { destruct (writes_checked d) eqn:Ew; [|exists (Ok ()), d; done].
    unfold ensure_st_block. case_bool_decide; [exists (Ok ()), d; done|].
    unfold mt_ioctl. destruct (ioctls d) as [|[os|] l]; cbn; do 2 eexists; (split; [done|]); split_and!; try done.
    intros e [= <-]. eauto. }
  rewrite He in H. destruct r1 as [[]|e1].
  2: { injection H as <- <- <-. rewrite Hs1. split; [apply same_warning_refl|]. split; [done|]. right.
    destruct (Hr1 _ eq_refl) as [os ->]. eauto. }
  destruct (write_blocks src len d1) as [[rb srcb] db] eqn:Hwb.
  pose proof (div_ceil_spec len bs H0 bs_pos) as Hdc. pose proof (div_ceil_nonneg len bs H0 bs_pos).
  apply (write_blocks_loop_spec (Z.to_nat (div_ceil len bs))) in Hwb as ((s & ->) & Hf & [_ Hw] & Hres);
    [|done|nia|done|nia|done|nia|by rewrite Hs1|done].
  rewrite Hs1 in *. cbn [with_state state] in Hf, Hw, Hres.
  destruct rb as [c|e].
  2: { injection H as <- <- <-. cbn [with_state state]. split; [done|]. split; [done|].
    rewrite Hbe in Hres. destruct Hres as [|[os ->]]; [by left|right; eauto]. }
  unfold write_filemark, mt_ioctl in H. cbn [with_state ioctls] in H.
  destruct (ioctls d1) as [|[os|] l].
  2: { injection H as <- <- <-. cbn. split; [done|]. split; [done|]. right. exists os. right. right.
    change (filemark_error (with_state s d1) os) with (filemark_error d1 os). by rewrite Hfe. }
  all: injection H as <- <- <-; cbn; split; [done|];
    destruct Hres as (-> & payload & w & Hp & Hsrc & Hsent & Hn & Ho);
    (split; [rewrite pad_exact by done; lia|]);
    exists payload, w; split_and!; try done; [lia|]; unfold mark; by rewrite Hf, Ho.
Qed.

(** ** The round trip *)

Lemma read_loop_sent payload w sink i :
  sent payload w →
  read_loop takes_all (Z.to_nat wire_len) checked (Block <$> w) sink i =
  Ok (sink ++ mjoin (padded <$> blocks payload), Filemark).
Proof.
  unfold sent. generalize (blocks payload). intros ps Hs. revert sink i.
  induction Hs as [|p x ps w [Hl Hr] _ IH]; intros sink i; cbn; [by rewrite app_nil_r|].
  destruct x as [|b x]; [pose proof wire_len_bs; cbn in Hl; lia|].
  cbn [read_loop]. rewrite Hr. cbn [mbind result_bind takes_all]. by rewrite IH, <- app_assoc.
Qed.

Lemma mjoin_cons (x : list Z) l : mjoin (x :: l) = x ++ mjoin l.
Proof. done. Qed.

Lemma padded_blocks payload :
  mjoin (padded <$> blocks payload) =
  payload ++ replicate (length (blocks payload) * Z.to_nat bs - length payload) 0.
Proof.
  remember (length payload) as n eqn:Hn. revert payload Hn.
  induction n as [n IH] using lt_wf_ind. intros payload ->.
  destruct (decide (payload = [])) as [->|Hne]; [done|].
  destruct (decide (length payload ≤ Z.to_nat bs)%nat) as [Hle|Hgt].
  - rewrite <- (app_nil_r payload) at 1 3. rewrite blocks_app by (right; split; [done|]; destruct payload; [done|cbn in *; lia]).
    cbn. unfold padded. rewrite app_nil_r. do 2 f_equal. lia.
  - rewrite <- (take_drop (Z.to_nat bs) payload) at 1 3.
    rewrite blocks_app by (left; rewrite length_take; lia). rewrite fmap_cons, mjoin_cons. cbn [length].
    assert (length (drop (Z.to_nat bs) payload) < length payload)%nat by (rewrite length_drop; lia).
    rewrite (IH _ H (drop (Z.to_nat bs) payload) eq_refl).
    unfold padded. rewrite length_take, Nat.min_l by lia. rewrite Nat.sub_diag. cbn [replicate].
    rewrite app_nil_r, app_assoc, take_drop. do 2 f_equal. rewrite length_drop. lia.
Qed.

Lemma chop_sent w :
  Forall (λ x : list Z, length x = Z.to_nat wire_len) w →
  chop (length (mjoin w)) (Z.to_nat wire_len) (mjoin w) = w.
Proof.
  intros H. pose proof wire_len_bs. induction H as [|x w Hx _ IH]; [done|].
  rewrite mjoin_cons. rewrite chop_cons; [|lia|by left|done]. f_equal.
  etrans; [|exact IH]. apply chop_fuel; [lia| |done]. rewrite length_app. lia.
Qed.
End device.

(** ** What the module promises *)

(** The retry past the early warning, whatever the kernel answers. A
    block that is written is on the tape whole and counted once, and no run
    of refusals was longer than sixteen; the hard end comes at the
    seventeenth refusal in a row, and only then; every other error is one the
    kernel gave (or a write of nothing). Every refusal that was retried is
    counted, and the warning stays at the bytes accepted before its first. *)
Theorem write_block_retrying_spec buf s :
  0 ≤ accepted (warned s) → accepted (warned s) + Z.of_nat (length buf) ≤ u64_max →
  0 ≤ refusals_of (warned s) → refusals_of (warned s) + Z.of_nat (length (answers s)) ≤ u64_max →
  ∃ used k, retried (answers s) buf 0 (medium s) (warned s)
    (write_block_retrying buf s).1 (write_block_retrying buf s).2 used k.
Proof. intros. by apply retry_loop_spec. Qed.

(** A tape file, as [write_stream] leaves it. On success the drive holds
    one more file, the file's bytes in blocks, each padded (and, when the
    drive checks writes, carrying its CRC), and the count returned is the
    Layout's own padded size; otherwise no file is added, and the error is
    the source's, or the kernel's as the device classifies it. *)
Theorem write_stream_spec bs checked src len d r src' d' :
  0 < bs → is_device bs checked d → 0 ≤ len → len + bs ≤ u64_max →
  has_room bs checked (state d) (Z.to_nat (div_ceil len bs)) →
  (checked = true → Forall is_byte (content src)) →
  write_stream src len d = (r, src', d') →
  same_warning (warned (state d)) (warned (state d')) ∧
  match r with
  | Ok c =>
      c = pad_to_blocks len bs ∧
      ∃ payload w, Z.of_nat (length payload) = len ∧ content src = payload ++ content src' ∧
        sent bs checked payload w ∧ Z.of_nat (length w) = div_ceil len bs ∧
        medium (state d') =
          mkMedium (files (medium (state d)) ++ [open_file (medium (state d)) ++ mjoin w]) []
  | Err e =>
      files (medium (state d')) = files (medium (state d)) ∧
      (source_error e ∨ ∃ os, e = TapeIo os ∨ e = block_write_error d os ∨ e = filemark_error d os)
  end.
Proof. intros Hbs. by apply write_stream_result. Qed.

(** The round trip. A file written whole is read back, block by block, by
    any device that reads as it was written, as its bytes and the zeros to
    the padded size [write_stream] returned, up to its filemark. *)
Theorem stream_read_back bs checked src len d c src' d' dr :
  0 < bs → is_device bs checked d → 0 ≤ len → len + bs ≤ u64_max →
  has_room bs checked (state d) (Z.to_nat (div_ceil len bs)) →
  (checked = true → Forall is_byte (content src)) →
  open_file (medium (state d)) = [] →
  dev_block_size dr = bs → reads_checked dr = checked → ioctls dr = [] →
  write_stream src len d = (Ok c, src', d') →
  ∃ f, files (medium (state d')) = files (medium (state d)) ++ [f] ∧
    (read_file_streaming takes_all (Block <$> chop (length f) (Z.to_nat (wire_len bs checked)) f) dr).1 =
      Ok (take (Z.to_nat len) (content src) ++ replicate (Z.to_nat (c - len)) 0, Filemark).
Proof.
  intros Hbs Hd H0 Hl Hroom Hb Ho Hbr Hcr Hio H.
  apply (write_stream_result bs checked Hbs) in H as [_ (-> & payload & w & Hp & Hsrc & Hsent & Hn & Hm)]; try done.
  exists (mjoin w). rewrite Hm, Ho. cbn [files app]. split; [done|].
  rewrite (chop_sent bs checked Hbs) by (eapply Forall2_Forall_r; [exact Hsent|]; apply Forall_true; by intros ? ? []).
  assert ((read_shape dr).1 = Ok (Z.to_nat (wire_len bs checked), checked)) as Hsh.
  { unfold read_shape. rewrite Hbr, bool_decide_eq_false_2, Hcr by lia. fold (wire_len bs checked).
    destruct (armed_page dr); [|cbn; by rewrite Hcr].
    unfold ensure_st_block, mt_ioctl. rewrite Hio. case_bool_decide; cbn; by rewrite Hcr. }
  unfold read_file_streaming. destruct (read_shape dr) as [[[size ck]|e] d2]; cbn in Hsh; [|done].
  injection Hsh as -> ->. cbn [fst].
  rewrite (read_loop_sent bs checked Hbs payload) by done. cbn [app]. do 2 f_equal.
  rewrite (padded_blocks bs Hbs), pad_exact by done.
  rewrite Hsrc, take_app_length' by lia. f_equal. f_equal.
  apply Forall2_length in Hsent. pose proof (div_ceil_nonneg len bs H0 Hbs). nia.
Qed.

(** ** A device past its early warning *)

Definition ex_device (answers : list WriteAnswer) : Device :=
  mkDevice 4 true true true 8 [] (mkWriteState answers (mkMedium [] []) (mkWarningState 100 None)).
Definition ex_source : list ReadEvent := [Bytes [1; 2; 3]; Bytes [4; 5; 6; 7]].
Definition ex_answers : list WriteAnswer :=
  [Took 8; WFailed ENOSPC; WIntr; WFailed ENOSPC; Took 3; WFailed ENOSPC].

Lemma write_block_retrying_spec_witness :
  (write_block_retrying [1; 2; 3; 4] (state (ex_device [WFailed ENOSPC; Took 3]))).2 =
    mkWriteState [] (mkMedium [] [1; 2; 3; 4]) (mkWarningState 104 (Some (mkEarlyWarning 100 1))) ∧
  ∃ used k, retried [WFailed ENOSPC; Took 3] [1; 2; 3; 4] 0 (mkMedium [] []) (mkWarningState 100 None)
    (write_block_retrying [1; 2; 3; 4] (state (ex_device [WFailed ENOSPC; Took 3]))).1
    (write_block_retrying [1; 2; 3; 4] (state (ex_device [WFailed ENOSPC; Took 3]))).2 used k.
Proof.
  split; [vm_compute; reflexivity|].
  apply (write_block_retrying_spec [1; 2; 3; 4] (state (ex_device [WFailed ENOSPC; Took 3]))); by_decide.
Defined.

Lemma ex_device_ok answers : is_device 4 true (ex_device answers).
Proof. done. Qed.
Lemma ex_source_bytes : true = true → Forall is_byte (content ex_source).
Proof. intros _. by_decide. Qed.
Lemma ex_room : has_room 4 true (state (ex_device ex_answers)) (Z.to_nat (div_ceil 6 4)).
Proof. repeat split; by_decide. Qed.

Lemma write_stream_spec_witness :
  (write_stream ex_source 6 (ex_device ex_answers)).1.1 = Ok 8 ∧
  match (write_stream ex_source 6 (ex_device ex_answers)).1.1 with
  | Ok c => c = pad_to_blocks 6 4
  | Err _ => False
  end.
Proof.
  assert ((write_stream ex_source 6 (ex_device ex_answers)).1.1 = Ok 8) as Hr by (vm_compute; reflexivity).
  split; [exact Hr|].
  pose proof (write_stream_spec 4 true ex_source 6 (ex_device ex_answers)
    (write_stream ex_source 6 (ex_device ex_answers)).1.1
    (write_stream ex_source 6 (ex_device ex_answers)).1.2
    (write_stream ex_source 6 (ex_device ex_answers)).2
    ltac:(by_decide) (ex_device_ok _) ltac:(by_decide) ltac:(by_decide) ex_room ex_source_bytes
    ltac:(by destruct (write_stream ex_source 6 (ex_device ex_answers)) as [[? ?] ?])) as H.
  rewrite Hr in H |- *. exact (proj1 (proj2 H)).
Defined.

Lemma stream_read_back_witness :
  ∃ f, files (medium (state (write_stream ex_source 6 (ex_device ex_answers)).2)) = [f] ∧ length f = 16%nat ∧
    (read_file_streaming takes_all (Block <$> chop 16 8 f) (ex_device [])).1 = Ok ([1; 2; 3; 4; 5; 6; 0; 0], Filemark).
Proof.
  destruct (stream_read_back 4 true ex_source 6 (ex_device ex_answers) 8
    (write_stream ex_source 6 (ex_device ex_answers)).1.2
    (write_stream ex_source 6 (ex_device ex_answers)).2 (ex_device [])
    ltac:(by_decide) (ex_device_ok _) ltac:(by_decide) ltac:(by_decide) ex_room ex_source_bytes
    eq_refl eq_refl eq_refl eq_refl ltac:(vm_compute; reflexivity)) as (f & Hf & Hr).
  exists f. split; [exact Hf|].
  assert (length f = 16%nat) as Hl.
  { apply (f_equal (λ l, length <$> head l)) in Hf. vm_compute in Hf. by injection Hf. }
  split; [exact Hl|]. rewrite Hl in Hr. exact Hr.
Defined.
