(* ===== verification/Pipeline.v ===== *)
(** * The write pipeline: [src/pipeline.rs]

    [write_verified]: a staged file read, hashed and handed to the store, the
    last block held back until the hash is known. The three threads are
    joined by unbounded queues, each with one writer and one reader, so what
    the store reads is a function of what the file reads gave; the buffers'
    circulation, which bounds the memory, and the timings are not modelled.
    The hasher's result is the one it reaches when the store takes the whole
    file, which is when the verdict looks at it (or the withheld block's,
    when it is sent). *)

From S2P Require Import Prelude LayoutModel Slice TapeWrite.
Local Open Scope Z_scope.
Local Open Scope rust_scope.

(** [Msg]: between the stages. *)
Inductive Msg : Type :=
| Data (l : list Z)
| End
| Fail (m : string)
| Withheld.

Inductive Chunk : Type :=
| Got (l : list Z)                 (* a buffer, short only at the end of the file *)
| GotThenFail (l : list Z) (m : string).

(** The reads that fill one buffer: [0] ends the file, an interrupted read is
    asked again. *)
Fixpoint read_chunk (fuel : nat) (got : list Z) (want : nat) (src : list ReadEvent)
    : Chunk * list ReadEvent :=
  if bool_decide (want ≤ length got)%nat then (Got got, src)
  else
    match fuel with
    | O => (Got got, src)
    | S fuel =>
        match read (want - length got) src with
        | (Bytes [], src) => (Got got, src)
        | (Bytes l, src) => read_chunk fuel (got ++ l) want src
        | (Eintr, src) => read_chunk fuel got want src
        | (Fault m, src) => (GotThenFail got m, src)
        end
    end.

(** [read_stage]: what it sends. A round takes a byte of [len] at least. *)
Fixpoint read_stage_loop (fuel : nat) (chunk : Z) (src : list ReadEvent) (remaining : Z) : list Msg :=
  if bool_decide (remaining ≤ 0) then [End]
  else
    match fuel with
    | O => [End]
    | S fuel =>
        let want := Z.to_nat (Z.min remaining chunk) in
        match read_chunk (reader_size src) [] want src with
        | (GotThenFail got m, _) => (if bool_decide (got = []) then [] else [Data got]) ++ [Fail m]
        | (Got [], _) => [End]
        | (Got got, src) =>
            Data got ::
              (if bool_decide (length got < want)%nat then [End]
               else read_stage_loop fuel chunk src (remaining - Z.of_nat (length got)))
        end
    end.
Definition read_stage (chunk : Z) (src : list ReadEvent) (len : Z) : list Msg :=
  read_stage_loop (Z.to_nat len) chunk src len.

Section hash.
Context `{!Digest}.

(** [hash_stage]: what it forwards, and the hash it finishes with. [hashed]
    is what it has hashed. *)
Fixpoint hash_stage (len : Z) (expected : option string) (hashed : list Z) (msgs : list Msg)
    : list Msg * option string :=
  match msgs with
  | [] => ([], None)
  | Data l :: msgs =>
      let hashed := hashed ++ l in
      if bool_decide (Z.of_nat (length hashed) = len) then
        let actual := sha256_hex hashed in
        if bool_decide (expected = Some actual) then ([Data l; End], Some actual)
        else ([Withheld], Some actual)
      else
        let '(out, sha) := hash_stage len expected hashed msgs in (Data l :: out, sha)
  | End :: _ =>
      ([End], if bool_decide (Z.of_nat (length hashed) = len) then Some (sha256_hex hashed) else None)
  | other :: _ => ([other], None)
  end.

Definition WITHHELD : string := "the file's last block was withheld".

(** [PipeReader]: the reads it answers. A failure is its last. *)
Definition pipe_reads (msgs : list Msg) : list ReadEvent :=
  omap (λ m, match m with
    | Data [] | End => None
    | Data l => Some (Bytes l)
    | Fail m => Some (Fault m)
    | Withheld => Some (Fault WITHHELD)
    end) msgs.

Inductive Verdict : Type :=
| Written (sha256 : string)
| Mismatch (sha256 : string)
| Unwritten (e : TapeError).     (* [Verdict::Failed] *)

(** [Streamed::verdict]. *)
Definition verdict (store : result TapeError Z) (sha : option string) (withheld : bool)
    (expected : option string) : Verdict :=
  if withheld then Mismatch (default ""%string sha)
  else
    match store with
    | Err e => Unwritten e
    | Ok _ =>
        match sha with
        | Some actual => if bool_decide (expected = Some actual) then Written actual else Mismatch actual
        | None => Unwritten HashUnfinished
        end
    end.

(** [write_verified] and its verdict, over a store's [execute]: the store
    gives its result, the reads it left, and itself. The block was withheld
    from it when it has read past the last message, and that is the
    withholding. *)
Definition write_verified {S} (chunk : Z) (src : list ReadEvent) (len : Z) (expected : option string)
    (execute : list ReadEvent → S → result TapeError Z * list ReadEvent * S) (s : S) : Verdict * S :=
  let '(msgs, sha) := hash_stage len expected [] (read_stage chunk src len) in
  let '(r, unread, s) := execute (pipe_reads msgs) s in
  (verdict r sha (match last msgs with Some Withheld => true | _ => false end && bool_decide (unread = [])) expected, s).
End hash.
