(* ===== verification/Session.v ===== *)
(** * The write session: [src/volume/session.rs]

    The loop that writes a Layout to a tape file by file ([run_entries]), its
    one retry after a write the drive refused, the ending the early warning
    decides, the seal's write, and the resume's cursor. The catalog is its
    rows with the list of statements that fail; the tape is a [Store]. *)

From S2P Require Import Prelude LayoutModel Slice TapeWrite Pipeline.
Local Open Scope Z_scope.
Local Open Scope rust_scope.

(** ** The ending *)

Inductive Ending : Type :=
| Full
| Short (ended_after : Z).

#[export] Instance Ending_eq_dec : EqDecision Ending.
Proof. solve_decision. Defined.

Definition recorded_ended_after (e : Ending) : option Z :=
  match e with Full => None | Short k => Some k end.
Definition seal_position (e : Ending) (planned : Z) : Z :=
  match e with Full => planned | Short k => k + 1 end.
(** [u32::try_from] of the catalog's integer. *)
Definition from_recorded (ended_after : option Z) : Ending :=
  match ended_after with
  | Some k => if bool_decide (0 ≤ k ≤ u32_max) then Short k else Full
  | None => Full
  end.

(** ** The store *)

Inductive Protection : Type :=
| Lbp (reads : bool)
| Unavailable (reason : string)
| NotApplicable.

(** The seam of the session and the tape ([src/store.rs]). *)
Class Store : Type := {
  store : Type;
  execute : list ReadEvent → Z → bool → store → result TapeError Z * list ReadEvent * store;
  store_warning : store → option EarlyWarning;
  protection : store → Protection;
  logical_position : store → result string (option Z) * store;
  reposition_for_resume : Z → store → result string () * store;
  reposition_at_most : Z → store → result string Z * store;
}.

(** The staged files, as an open and reads give them; [n] counts the opens. *)
Class Staging : Type := staged : nat → string → result string (list ReadEvent).

(** ** The catalog *)

Inductive PositionStatus : Type := PPending | PWritten | PFailed.

#[export] Instance PositionStatus_eq_dec : EqDecision PositionStatus.
Proof. solve_decision. Defined.

(** A row of [write_positions]. *)
Record PositionRow : Type := mkPosition {
  row_position : Z;
  row_status : PositionStatus;
  sha256_on_volume : option string;
}.

Inductive Event : Type :=
| LbpRefusalEvent (refused_in : Z) (retry_due : bool)
| LbpRetryEvent (refused_in lba from : Z)
| EarlyWarningEvent (ended_after bytes_at refusals : Z) (post : option Z) (ending : Ending)
| WriteLbpEvent (was : option string) (now : string) (note : option string).

(** The rows a session changes: the positions of its writes' slices, the
    writes' statuses, the volume's write check, the events. [faults] are the
    statements to come that fail. *)
Record Catalog : Type := mkCatalog {
  positions : gmap (Z * Z) PositionRow;      (* by write and stage slice *)
  statuses : gmap Z string;                  (* by write *)
  write_lbp : option string;
  write_lbp_note : option string;
  events : list Event;
  faults : list (option string);
}.

Definition set_positions (p : gmap (Z * Z) PositionRow) (c : Catalog) : Catalog :=
  mkCatalog p (statuses c) (write_lbp c) (write_lbp_note c) (events c) (faults c).
Definition set_statuses (s : gmap Z string) (c : Catalog) : Catalog :=
  mkCatalog (positions c) s (write_lbp c) (write_lbp_note c) (events c) (faults c).
Definition log_event (e : Event) (c : Catalog) : Catalog :=
  mkCatalog (positions c) (statuses c) (write_lbp c) (write_lbp_note c) (events c ++ [e]) (faults c).
Definition set_write_lbp (w : string) (n : option string) (c : Catalog) : Catalog :=
  mkCatalog (positions c) (statuses c) (Some w) n (events c) (faults c).

(** ** Errors and outcomes *)

Inductive Why : Type :=
| CannotTell
| PositionUnread (m : string)
| NotInThisRun (lba : Z)
| CatalogNotUpdated (m : string)
| RepositionFailed (m : string)
| RetryNotRecorded (m : string)
| NotAFile (from : Z).

Inductive Reason : Type :=
| HashMismatch (position : Z) (expected : option string) (actual : string)
| ExecuteFailed (position : Z) (e : TapeError)
| ExecuteStopped (position : Z) (e : TapeError)
| SecondRefusal (position : Z) (e : TapeError)
| NotRetried (position : Z) (e : TapeError) (why : Why)
| WarningInMetadata (position refusals bytes : Z)
| EndsInMetadata (warned_at seal_at : Z).

Inductive SessionError : Type :=
| DbError (m : string)
| NoSealMarker
| NoSliceEntries
| GeneratedEntry (position : Z)
| NoRecordedSize (position : Z)
| NoWriteForSlice (stage_slice_id : Z)     (* the [expect] *)
| StoreFailed (m : string)
| SealFailed (e : TapeError)
| SealNotRetried (position : Z) (e : TapeError) (why : Why)
| ResendMismatch (position : Z) (expected : option string) (actual : string)
| RunFuel.

Inductive Outcome : Type :=
| Ready (ending : Ending) (warning_in_data lbp_retried : bool) (run_first : Z)
| Interrupted (reason : option Reason)
| Aborted (reason : Reason).

(** ** The session's monad *)

Section session.
Context `{!Digest, !Store, !Staging}.

Record State : Type := mkState {
  cat : Catalog;
  tape : store;
  opens : nat;
  signals : list bool;       (* [is_interrupted], as it will answer *)
}.

Definition io (A : Type) : Type := State → result SessionError A * State.
#[export] Instance io_ret : MRet io := λ A a s, (Ok a, s).
#[export] Instance io_bind : MBind io := λ A B f m s,
  match m s with (Ok a, s) => f a s | (Err e, s) => (Err e, s) end.

Definition throw {A} (e : SessionError) : io A := λ s, (Err e, s).
Definition get : io State := λ s, (Ok s, s).
Definition from_result {A} (r : result SessionError A) : io A := λ s, (r, s).

Definition with_cat (c : Catalog) (s : State) : State := mkState c (tape s) (opens s) (signals s).
Definition with_tape (t : store) (s : State) : State := mkState (cat s) t (opens s) (signals s).

(** One statement (or transaction) of the catalog: done whole, or failed. *)
Definition db (f : Catalog → Catalog) : io () := λ s,
  let c := cat s in
  let later := mkCatalog (positions c) (statuses c) (write_lbp c) (write_lbp_note c) (events c)
                 (drop 1 (faults c)) in
  match faults c with
  | Some m :: _ => (Err (DbError m), with_cat later s)
  | _ => (Ok (), with_cat (f later) s)
  end.

(** An error of the session as a value, and [?] on one. *)
Definition attempted {A} (m : io A) : io (result SessionError A) := λ s,
  let '(r, s) := m s in (Ok r, s).

Definition is_interrupted : io bool := λ s,
  (Ok (default false (head (signals s))), mkState (cat s) (tape s) (opens s) (drop 1 (signals s))).

(** ** The session *)

Variable layout : Layout.
Variable write_ids : list Z.
Variable slice_write_id : gmap Z Z.

Definition content_entries : list LayoutEntry :=
  filter (λ e, le_kind e ≠ SealMarker) (entries layout).

Definition planned_seal_position : result SessionError Z :=
  match List.find (λ e, bool_decide (le_kind e = SealMarker)) (entries layout) with
  | Some e => Ok (le_position e)
  | None => Err NoSealMarker
  end.

Definition entry_path (e : LayoutEntry) : result SessionError string :=
  match le_source e with
  | Staged p | Materialized p => Ok p
  | Generated => Err (GeneratedEntry (le_position e))
  end.

(** [mark_writes]: [cut] and [range] are terminal. *)
Definition mark_write (status : string) (w : Z) : io () :=
  db (λ c, set_statuses
    (alter (λ s, if bool_decide (s = "cut" ∨ s = "range") then s else status) w (statuses c)) c).
Fixpoint mark_all (ids : list Z) (status : string) : io () :=
  match ids with
  | [] => mret ()
  | w :: ids => mark_write status w;; mark_all ids status
  end.
Definition mark_writes (status : string) : io () := mark_all write_ids status.

Definition demote_row (from : Z) (r : PositionRow) : PositionRow :=
  if bool_decide (from ≤ row_position r) then mkPosition (row_position r) PPending None else r.
Definition demote_write (from w : Z) : io () :=
  db (λ c, set_positions
    (map_imap (λ k r, Some (if bool_decide (k.1 = w) then demote_row from r else r)) (positions c)) c).
Fixpoint demote_all (ids : list Z) (from : Z) : io () :=
  match ids with
  | [] => mret ()
  | w :: ids => demote_write from w;; demote_all ids from
  end.
Definition demote_positions_from (from : Z) : io () := demote_all write_ids from.

(** The [UPDATE] of a slice's row. *)
Definition update_position (w slice : Z) (status : PositionStatus) (sha : option (option string)) : io () :=
  db (λ c, set_positions
    (alter (λ r, mkPosition (row_position r) status (default (sha256_on_volume r) sha)) (w, slice)
       (positions c)) c).

(** ** Where a refusal left the drive *)

Definition position_le (a b : LayoutEntry) : Prop := le_position a ≤ le_position b.
#[local] Instance position_le_dec : RelDecision position_le := λ a b, decide (le_position a ≤ le_position b).

(** Each file is its padded blocks and one filemark. *)
Fixpoint planned_file_loop (bs : Z) (es : list LayoutEntry) (start lba : Z) : option Z :=
  match es with
  | [] => None
  | e :: es =>
      bytes ← entry_on_tape_bytes e bs;
      let end_ := start + bytes / bs + 1 in
      if bool_decide (lba < end_) then Some (le_position e) else planned_file_loop bs es end_ lba
  end.
Definition planned_file_at (lba : Z) : option Z :=
  planned_file_loop (Z.max (block_size layout) 1) (merge_sort position_le (entries layout)) 0 lba.

(** The file, when it is one of this run's. *)
Definition in_run (first failed : Z) (lba : Z) : option Z :=
  f ← planned_file_at lba;
  if bool_decide (first ≤ f ≤ failed) then Some f else None.

Definition ask_position : io (result string (option Z)) := λ s,
  let '(r, t) := logical_position (tape s) in (Ok r, with_tape t s).

Definition locate_refused_file (first failed : Z) : io (option Z) :=
  r ← ask_position;
  mret (match r with Ok (Some lba) => in_run first failed lba | _ => None end).

Definition reposition (file : Z) : io (result string ()) := λ s,
  let '(r, t) := reposition_for_resume file (tape s) in (Ok r, with_tape t s).

Definition error_text (e : SessionError) : string :=
  match e with DbError m => m | _ => ""%string end.

Definition retry_from_refusal (first failed : Z) : io (result Why Z) :=
  r ← ask_position;
  match r with
  | Ok None => mret (Err CannotTell)
  | Err m => mret (Err (PositionUnread m))
  | Ok (Some lba) =>
      match in_run first failed lba with
      | None => mret (Err (NotInThisRun lba))
      | Some from =>
          d ← attempted (demote_positions_from from);
          match d with
          | Err e => mret (Err (CatalogNotUpdated (error_text e)))
          | Ok _ =>
              p ← reposition from;
              match p with
              | Err m => mret (Err (RepositionFailed m))
              | Ok _ =>
                  l ← attempted (db (log_event (LbpRetryEvent failed lba from)));
                  match l with
                  | Err e => mret (Err (RetryNotRecorded (error_text e)))
                  | Ok _ => mret (Ok from)
                  end
              end
          end
      end
  end.

Definition record_lbp_refusal (refused_in : Z) (retry_due : bool) : io () :=
  db (log_event (LbpRefusalEvent refused_in retry_due)).

(** ** The volume's write check *)

Definition EARLIER_RUN_UNRECORDED : string :=
  "an earlier run of this session wrote without it: it ran before tapectl 1.7.2".

Definition merge_write_lbp (was was_note : option string) (word : string) (reason : option string)
    (earlier_run_wrote : bool) : string * option string :=
  match was with
  | None =>
      if bool_decide (word = "on") && earlier_run_wrote then ("mixed", Some EARLIER_RUN_UNRECORDED)%string
      else (word, reason)
  | Some was =>
      if bool_decide (was = "on" ∧ word = "on") then ("on", None)%string
      else if bool_decide (was = "off" ∧ word = "off") then
        ("off"%string, match reason with Some r => Some r | None => was_note end)
      else if bool_decide (word = "off") then
        ("mixed"%string, Some (String.append "a run of this session wrote without it: "
                                 (default "no reason given" reason))%string)
      else if bool_decide (was = "off") then
        ("mixed"%string, Some (String.append "an earlier run of this session wrote without it: "
                                 (default "no reason given" was_note))%string)
      else ("mixed"%string, was_note)
  end.

Definition record_run_protection (p : Protection) (earlier_run_wrote : bool) : io () :=
  match
    match p with
    | Lbp _ => Some ("on"%string, None)
    | Unavailable r => Some ("off"%string, Some r)
    | NotApplicable => None
    end
  with
  | None => mret ()
  | Some (word, reason) =>
      db (λ c,
        let '(now, note) := merge_write_lbp (write_lbp c) (write_lbp_note c) word reason earlier_run_wrote in
        if bool_decide (write_lbp c ≠ Some now ∨ write_lbp_note c ≠ note)
        then log_event (WriteLbpEvent (write_lbp c) now note) (set_write_lbp now note c)
        else c)
  end.

(** ** The write loop *)

(** The index of the entry at a position. *)
Definition position_of_file (es : list LayoutEntry) (from : Z) : option nat :=
  position (λ e, bool_decide (le_position e = from)) es.

(** The verdict on one entry, and whether the store was asked. *)
Definition write_entry (e : LayoutEntry) (path : string) (size : Z) : io (Verdict * bool) := λ s,
  let s1 := mkState (cat s) (tape s) (S (opens s)) (signals s) in
  match staged (opens s) path with
  | Err m => (Ok (Unwritten (SourceIo m), false), s1)
  | Ok src =>
      let '(v, t) := write_verified (Z.max (block_size layout) 1) src size (le_sha256 e)
                       (λ reads, execute reads size false) (tape s) in
      (Ok (v, true), with_tape t s1)
  end.

(** [Stop]. *)
Inductive Stop : Type :=
| Abort (r : Reason)
| Interrupt (r : Reason)
| Retry (position : Z) (e : TapeError).

Definition stop_of (e : LayoutEntry) (retried : bool) (v : Verdict) : option Stop :=
  match v with
  | Written _ => None
  | Mismatch actual => Some (Abort (HashMismatch (le_position e) (le_sha256 e) actual))
  | Unwritten (MediumFull _ as f) => Some (Abort (ExecuteFailed (le_position e) f))
  | Unwritten (LbpRefusal _ as f) =>
      if retried then Some (Interrupt (SecondRefusal (le_position e) f))
      else Some (Retry (le_position e) f)
  | Unwritten f => Some (Interrupt (ExecuteStopped (le_position e) f))
  end.

Definition is_refusal (v : Verdict) : bool :=
  match v with Unwritten (LbpRefusal _) => true | _ => false end.

(** The slice's row after its write. *)
Definition record_verdict (e : LayoutEntry) (v : Verdict) (stop : option Stop) : io () :=
  match le_kind e with
  | LayoutModel.Slice id =>
      match slice_write_id !! id with
      | None => throw (NoWriteForSlice id)
      | Some w =>
          match v with
          | Written actual => update_position w id PWritten (Some (Some actual))
          | Mismatch actual => update_position w id PFailed (Some (Some actual))
          | Unwritten _ =>
              update_position w id
                (match stop with Some (Interrupt _ | Retry _ _) => PPending | _ => PFailed end) None
          end
      end
  | _ => mret ()
  end.

Definition interrupted_with (r : option Reason) : io Outcome :=
  mark_writes "interrupted";; mret (Interrupted r).

(** The warning this entry showed: not one the store already held while the
    retry sends again the files before the one its refusal surfaced in. *)
Definition warning_shown (w : option EarlyWarning) (resending : option (nat * option EarlyWarning))
    (index : nat) : option EarlyWarning :=
  match w, resending with
  | Some _, Some (surfaced, before) =>
      if bool_decide (index < surfaced)%nat && bool_decide (w = before) then None else w
  | _, _ => w
  end.

Section run.
Variables (start_index : nat) (post_warning_bytes : option Z) (planned_seal : Z).

Definition bytes_before_this_call : Z :=
  sumZ ((λ e, default 0 (entry_on_tape_bytes e (Z.max (block_size layout) 1))) <$>
    take start_index content_entries).

Definition run_first_position : Z :=
  match content_entries !! start_index with Some e => le_position e | None => planned_seal end.

(** After a written entry, the early warning: [None] goes on to the next. *)
Definition after_written (e : LayoutEntry) (retried : bool) (w : option EarlyWarning)
    : io (option Outcome) :=
  match w with
  | None => mret None
  | Some w =>
      let position := le_position e in
      if negb (is_slice (le_kind e)) then
        mark_writes "aborted";;
        mret (Some (Aborted (WarningInMetadata position (refusals w) (bytes_before_this_call + bytes_at w))))
      else
        let ending := if bool_decide (position + 1 = planned_seal) then Full else Short position in
        db (log_event (EarlyWarningEvent position (bytes_before_this_call + bytes_at w) (refusals w)
              post_warning_bytes ending));;
        mret (Some (Ready ending true retried run_first_position))
  end.

(** A round goes to the next entry; the one retry goes back, once. *)
Fixpoint entries_loop (fuel : nat) (index : nat) (retried : bool)
    (resending : option (nat * option EarlyWarning)) (protection_recorded : bool) : io Outcome :=
  match content_entries !! index with
  | None => mret (Ready Full false retried run_first_position)
  | Some e =>
      match fuel with
      | O => throw RunFuel
      | S fuel =>
          stopped ← is_interrupted;
          if stopped : bool then interrupted_with None
          else
            path ← from_result (entry_path e);
            size ← from_result (ok_or (le_size_bytes e) (NoRecordedSize (le_position e)));
            '(v, asked) ← write_entry e path size;
            let record_now := negb protection_recorded && asked in
            s ← get;
            (if record_now then record_run_protection (protection (tape s)) (0 <? start_index)%nat
             else mret ());;
            let protection_recorded := protection_recorded || asked in
            let stop := stop_of e retried v in
            (if is_refusal v then record_lbp_refusal (le_position e) (negb retried) else mret ());;
            record_verdict e v stop;;
            match stop with
            | Some (Abort r) => mark_writes "aborted";; mret (Aborted r)
            | Some (Retry position f) =>
                r ← retry_from_refusal run_first_position (le_position e);
                let back := from ← r;
                  ok_or (position_of_file content_entries from) (NotAFile from) in
                match back with
                | Ok from_index =>
                    s ← get;
                    entries_loop fuel from_index true (Some (index, store_warning (tape s)))
                      protection_recorded
                | Err why => interrupted_with (Some (NotRetried position f why))
                end
            | Some (Interrupt r) =>
                (if is_refusal v then
                   from ← locate_refused_file run_first_position (le_position e);
                   match from with Some f => demote_positions_from f | None => mret () end
                 else mret ());;
                interrupted_with (Some r)
            | None =>
                s ← get;
                ended ← after_written e retried (warning_shown (store_warning (tape s)) resending index);
                match ended with
                | Some o => mret o
                | None => entries_loop fuel (S index) retried resending protection_recorded
                end
            end
      end
  end.
End run.

(** Two passes over the entries at most: the retry is one. *)
Definition run_entries (start_index : nat) (post_warning_bytes : option Z) : io Outcome :=
  planned_seal ← from_result planned_seal_position;
  entries_loop start_index post_warning_bytes planned_seal (2 * length content_entries) start_index
    false None false.

(** ** The seal's write *)

Definition execute_seal (marker : list Z) : io (result TapeError ()) := λ s,
  let '(r, _, t) := execute (unread marker []) (Z.of_nat (length marker)) true (tape s) in
  (Ok (match r with Ok _ => Ok () | Err e => Err e end), with_tape t s).

(** The slice's row in each of the session's writes. *)
Fixpoint update_all (ids : list Z) (slice : Z) (actual : string) : io () :=
  match ids with
  | [] => mret ()
  | w :: ids => update_position w slice PWritten (Some (Some actual));; update_all ids slice actual
  end.

(** One entry sent again, from its staged file. *)
Definition resend_entry (e : LayoutEntry) : io () :=
  path ← from_result (entry_path e);
  size ← from_result (ok_or (le_size_bytes e) (NoRecordedSize (le_position e)));
  '(v, _) ← write_entry e path size;
  match v with
  | Written actual =>
      match le_kind e with
      | LayoutModel.Slice id => update_all write_ids id actual
      | _ => mret ()
      end
  | Mismatch actual => throw (ResendMismatch (le_position e) (le_sha256 e) actual)
  | Unwritten f =>
      (if is_refusal v then record_lbp_refusal (le_position e) false else mret ());;
      throw (SealFailed f)
  end.
Fixpoint resend_all (es : list LayoutEntry) : io () :=
  match es with
  | [] => mret ()
  | e :: es => resend_entry e;; resend_all es
  end.
Definition resend_entries (from until : Z) : io () :=
  resend_all (merge_sort position_le
    (filter (λ e, from ≤ le_position e < until) content_entries)).

(** [ReadyToSeal::seal_with_retry], of the marker [seal_marker] gives. *)
Definition seal_with_retry (marker : list Z) (ending : Ending) (lbp_retried : bool) (run_first : Z)
    : io () :=
  first ← execute_seal marker;
  match first with
  | Ok _ => mret ()
  | Err (LbpRefusal _ as f) =>
      planned ← from_result planned_seal_position;
      let seal_at := seal_position ending planned in
      record_lbp_refusal seal_at (negb lbp_retried);;
      if lbp_retried then throw (SealFailed f)
      else
        r ← retry_from_refusal run_first seal_at;
        match r with
        | Err why => throw (SealNotRetried seal_at f why)
        | Ok from =>
            resend_entries from seal_at;;
            again ← execute_seal marker;
            match again with
            | Ok _ => mret ()
            | Err (LbpRefusal _ as f) =>
                record_lbp_refusal seal_at false;;
                l ← locate_refused_file run_first seal_at;
                (match l with Some k => demote_positions_from k | None => mret () end);;
                throw (SealFailed f)
            | Err f => throw (SealFailed f)
            end
        end
  | Err f => throw (SealFailed f)
  end.

(** ** The resume, once the tape is known to be unsealed *)

Definition query {A} (f : Catalog → A) : io A := db (λ c, c);; s ← get; mret (f (cat s)).

Definition written_in (w : Z) (c : Catalog) : nat :=
  size (filter (λ kr : (Z * Z) * PositionRow, kr.1.1 = w ∧ row_status kr.2 = PWritten) (positions c)).
Fixpoint count_written (ids : list Z) : io nat :=
  match ids with
  | [] => mret 0%nat
  | w :: ids => n ← query (written_in w); m ← count_written ids; mret (n + m)%nat
  end.

Fixpoint set_in_progress (ids : list Z) : io () :=
  match ids with
  | [] => mret ()
  | w :: ids => db (λ c, set_statuses (alter (λ _, "in_progress"%string) w (statuses c)) c);;
                set_in_progress ids
  end.

Definition at_most (file : Z) : io Z := λ s,
  let '(r, t) := reposition_at_most file (tape s) in
  (match r with Ok n => Ok n | Err m => Err (StoreFailed m) end, with_tape t s).

(** Step 3 of the resume: the cursor, what the medium holds of it, the rest. *)
Definition resume_entries (post_warning_bytes : option Z) : io Outcome :=
  written ← count_written write_ids;
  first_slice ← from_result (ok_or (position (λ e, is_slice (le_kind e)) content_entries) NoSliceEntries);
  let cursor := if bool_decide (written = 0)%nat then 0%nat else (first_slice + written)%nat in
  held ← at_most (Z.of_nat cursor);
  let start_index := Z.to_nat held in
  (if bool_decide (start_index < cursor)%nat then demote_positions_from held else mret ());;
  set_in_progress write_ids;;
  run_entries start_index post_warning_bytes.

Definition seal_after_recorded_warning (warned_at : Z) : io Outcome :=
  planned ← from_result planned_seal_position;
  seal_at ← at_most (Z.min (Z.min (warned_at + 1) u32_max) planned);
  let ended_after := seal_at - 1 in
  let at_ := List.find (λ e, bool_decide (le_position e = ended_after)) (entries layout) in
  if bool_decide (seal_at = 0) || negb (match at_ with Some e => is_slice (le_kind e) | None => false end) then
    mark_writes "aborted";; mret (Aborted (EndsInMetadata warned_at seal_at))
  else
    let ending := if bool_decide (ended_after + 1 = planned) then Full else Short ended_after in
    (if bool_decide (ended_after < warned_at) then demote_positions_from seal_at else mret ());;
    set_in_progress write_ids;;
    mret (Ready ending true false seal_at).

(** The two ways a resume goes on, by the warning the catalog recorded. *)
Definition resume_unsealed (warning_at : option Z) (post_warning_bytes : option Z) : io Outcome :=
  match warning_at with
  | Some warned_at => seal_after_recorded_warning warned_at
  | None => resume_entries post_warning_bytes
  end.
End session.
