(* ===== verification/SessionSound.v ===== *)
(** * What a write session leaves on the tape and in the catalog

    The laws of a store, and the soundness of the write loop against them:
    the tape holds the plan's files in order, each with the hash the Layout
    records, the catalog claims no file the tape does not hold unless it
    records a refusal, and the loop ends. *)

From S2P Require Import Prelude LayoutModel Slice SliceHeader Chunks TapeWrite Pipeline Session.
Local Open Scope Z_scope.
Local Open Scope rust_scope.

(** ** The store's contract

    [medium_of] is the whole files on the medium, [files_of] those before the
    head; [holds f p], that the file [f] holds the bytes [p], however the
    medium pads or protects them; [positioned], that the head is at the start
    of a file. A write where the head is positioned adds a whole file, which
    ends the recorded data, or none; one the drive refuses may also lose
    files it had accepted before (st and the drive write behind). *)
Class StoreLaws `{St : Store} : Type := {
  files_of : store → list (list Z);
  medium_of : store → list (list Z);
  positioned : store → Prop;
  holds : list Z → list Z → Prop;
  files_prefix s : files_of s `prefix_of` medium_of s;
  execute_ok reads len sync s c left s' :
    positioned s → execute reads len sync s = (Ok c, left, s') →
    ∃ payload file, Z.of_nat (length payload) = len ∧ content reads = payload ++ content left ∧
      holds file payload ∧ files_of s' = files_of s ++ [file] ∧ medium_of s' = files_of s' ∧ positioned s';
  execute_err reads len sync s e left s' :
    positioned s → execute reads len sync s = (Err e, left, s') →
    ∃ n, files_of s' = take n (files_of s) ∧
      (medium_of s' = files_of s' ∨ (length (files_of s) ≤ n)%nat) ∧
      ((∀ os, e ≠ LbpRefusal os) → (length (files_of s) ≤ n)%nat);
  position_keeps s :
    files_of (logical_position s).2 = files_of s ∧ medium_of (logical_position s).2 = medium_of s;
  reposition_ok k s s' : 0 ≤ k ≤ i32_max → reposition_for_resume k s = (Ok (), s') →
    (Z.to_nat k ≤ length (medium_of s))%nat ∧ files_of s' = take (Z.to_nat k) (medium_of s) ∧ positioned s';
  at_most_ok k m s s' : 0 ≤ k ≤ i32_max → reposition_at_most k s = (Ok m, s') →
    0 ≤ m ≤ k ∧ (Z.to_nat m ≤ length (medium_of s))%nat ∧ files_of s' = take (Z.to_nat m) (medium_of s) ∧
    positioned s';
}.

(** ** The pipeline *)

Section pipeline.
Context `{Dg : !Digest}.

Lemma pipe_content_app a b : content (pipe_reads (a ++ b)) = content (pipe_reads a) ++ content (pipe_reads b).
Proof. unfold pipe_reads, content. by rewrite omap_app, fmap_app, join_app. Qed.

Lemma pipe_content_data l msgs : content (pipe_reads (Data l :: msgs)) = l ++ content (pipe_reads msgs).
Proof. by destruct l. Qed.

Lemma hash_stage_written len expected a : ∀ msgs hashed out,
  hash_stage len expected hashed msgs = (out, Some a) → expected = Some a →
  a = sha256_hex (hashed ++ content (pipe_reads out)) ∧
  Z.of_nat (length (hashed ++ content (pipe_reads out))) = len.
Proof.
  induction msgs as [|m msgs IH]; intros hashed out H He; [done|]. destruct m as [l| |m|]; cbn in H; [| |done|done].
  - case_bool_decide as Hl.
    + case_bool_decide; simplify_eq. rewrite pipe_content_data. cbn. by rewrite app_nil_r.
    + destruct (hash_stage len expected (hashed ++ l) msgs) as [out' sha] eqn:E. simplify_eq.
      destruct (IH _ _ E eq_refl) as [-> Hlen]. rewrite pipe_content_data, app_assoc. done.
  - case_bool_decide as Hl; simplify_eq. cbn. by rewrite app_nil_r.
Qed.
End pipeline.

(** ** Reasoning on the session's steps *)

Section sound.
Context `{Dg : !Digest, St : !Store, Sl : !StoreLaws, Sg : !Staging}.

Definition iruns {A} (s : State) (m : io A) (Q : A → State → Prop) (E : SessionError → State → Prop) : Prop :=
  match m s with (Ok a, s') => Q a s' | (Err e, s') => E e s' end.

Lemma iruns_ret {A} s (a : A) (Q : A → State → Prop) (E : SessionError → State → Prop) : Q a s → iruns s (mret a) Q E.
Proof. done. Qed.

Lemma iruns_bind {A B} s (m : io A) (f : A → io B) Q E :
  iruns s m (λ a s', iruns s' (f a) Q E) E → iruns s (m ≫= f) Q E.
Proof. unfold iruns, mbind, io_bind. destruct (m s) as [[a|e] s']; done. Qed.

Lemma iruns_mono {A} s (m : io A) (Q Q' : A → State → Prop) (E E' : SessionError → State → Prop) :
  iruns s m Q E → (∀ a s', Q a s' → Q' a s') → (∀ e s', E e s' → E' e s') → iruns s m Q' E'.
Proof. unfold iruns. destruct (m s) as [[a|e] s']; auto. Qed.

Lemma iruns_get s (Q : State → State → Prop) (E : SessionError → State → Prop) : Q s s → iruns s get Q E.
Proof. done. Qed.

Lemma iruns_result {A} s (r : result SessionError A) (Q : A → State → Prop) (E : SessionError → State → Prop) :
  (∀ a, r = Ok a → Q a s) → (∀ e, r = Err e → E e s) → iruns s (from_result r) Q E.
Proof. unfold iruns. destruct r; cbn; auto. Qed.

(** What a step leaves alone: the tape, the rows' positions; events are only
    added. A step of the catalog fails with [DbError] only. *)
Definition no_fuel (e : SessionError) (_ : State) : Prop := e ≠ RunFuel.

Definition later (s s' : State) : Prop :=
  tape s' = tape s ∧ events (cat s) `prefix_of` events (cat s').

Lemma later_refl s : later s s.
Proof. by split. Qed.
Lemma later_trans s s1 s2 : later s s1 → later s1 s2 → later s s2.
Proof. intros [H1 H2] [H3 H4]. split; [congruence|]. by etrans. Qed.

Lemma iruns_db s f (Q : () → State → Prop) (E : SessionError → State → Prop) :
  (∀ c, positions c = positions (cat s) → events c = events (cat s) → statuses c = statuses (cat s) →
        Q () (with_cat (f c) s)) →
  (∀ m c, positions c = positions (cat s) → events c = events (cat s) → E (DbError m) (with_cat c s)) →
  iruns s (db f) Q E.
Proof.
  intros HQ HE. unfold iruns, db. destruct (faults (cat s)) as [|[m|] l]; [apply HQ|apply HE|apply HQ]; done.
Qed.

(** A step that keeps the tape and the rows. *)
Definition keeps {A} (m : io A) : Prop :=
  ∀ s, iruns s m (λ _ s', later s s' ∧ positions (cat s') = positions (cat s))
               (λ e s', e ≠ RunFuel ∧ later s s').

Lemma keeps_ret {A} (a : A) : keeps (mret a).
Proof. intros s. apply iruns_ret. split; [apply later_refl|done]. Qed.

Lemma keeps_bind {A B} (m : io A) (f : A → io B) : keeps m → (∀ a, keeps (f a)) → keeps (m ≫= f).
Proof.
  intros Hm Hf s. apply iruns_bind. eapply iruns_mono; [apply Hm| |done]. intros a s1 [Hl Hp].
  eapply iruns_mono; [apply Hf| |].
  - intros b s2 [Hl2 Hp2]. split; [by eapply later_trans|congruence].
  - intros e s2 [? Ht]. split; [done|by eapply later_trans].
Qed.

Lemma keeps_db f :
  (∀ c, positions (f c) = positions c) → (∀ c, events c `prefix_of` events (f c)) → keeps (db f).
Proof.
  intros Hp He s. apply iruns_db.
  - intros c Hc Hv _. split; [|cbn; by rewrite Hp]. split; [done|]. cbn. rewrite <- Hv. apply He.
  - intros m c _ Hv. split; [done|]. split; [done|]. cbn. by rewrite Hv.
Qed.

Lemma keeps_mark_all ids status : keeps (mark_all ids status).
Proof.
  induction ids as [|w ids IH]; [apply keeps_ret|].
  apply keeps_bind; [|done]. by apply keeps_db.
Qed.

Lemma keeps_log e : keeps (db (log_event e)).
Proof. apply keeps_db; [done|]. intros c. cbn. by apply prefix_app_r. Qed.

Lemma keeps_protection p b : keeps (record_run_protection p b).
Proof.
  unfold record_run_protection.
  destruct (match p with Lbp _ => _ | _ => _ end) as [[word reason]|]; [|apply keeps_ret].
  apply keeps_db; intros c; destruct (merge_write_lbp _ _ _ _ _) as [now note];
    case_bool_decide; try done. cbn. by apply prefix_app_r.
Qed.

Lemma keeps_in_progress ids : keeps (set_in_progress ids).
Proof. induction ids as [|w ids IH]; [apply keeps_ret|]. apply keeps_bind; [|done]. by apply keeps_db. Qed.

(** ** Positions *)

Variable layout : Layout.
Variable write_ids : list Z.
Variable slice_write_id : gmap Z Z.
Notation entries_ := (content_entries layout).

(** The Layout as [build] makes it: entries at their positions, the seal
    last, each slice once; and the writes' rows as [plan] inserts them. *)
Record planned : Prop := {
  pl_order i e : entries_ !! i = Some e → le_position e = Z.of_nat i;
  pl_last : ∃ seal, entries layout = entries_ ++ [seal] ∧ le_kind seal = SealMarker ∧
    le_position seal = Z.of_nat (length entries_);
  pl_slices i j e e' id : entries_ !! i = Some e → entries_ !! j = Some e' →
    le_kind e = LayoutModel.Slice id → le_kind e' = LayoutModel.Slice id → i = j;
  pl_writes id w : slice_write_id !! id = Some w → w ∈ write_ids;
  pl_ids : NoDup write_ids;
  pl_bound : Z.of_nat (length entries_) ≤ i32_max;
  pl_zone : ∃ front data back, entries_ = front ++ data ++ back ∧ data ≠ [] ∧
    Forall (λ e, is_slice (le_kind e) = false) front ∧ Forall (λ e, is_slice (le_kind e) = true) data ∧
    Forall (λ e, is_slice (le_kind e) = false) back;
}.

Lemma content_not_seal : Forall (λ e, le_kind e ≠ SealMarker) entries_.
Proof. apply Forall_forall. intros e He. apply list_elem_of_filter in He. tauto. Qed.

Lemma find_app {A} (f : A → bool) l l' :
  List.find f (l ++ l') = match List.find f l with Some x => Some x | None => List.find f l' end.
Proof. induction l as [|x l IH]; [done|]. cbn. by destruct (f x). Qed.

Lemma find_no {A} (f : A → bool) l : Forall (λ x, f x = false) l → List.find f l = None.
Proof. induction 1 as [|x l Hx Hl IH]; [done|]. cbn. by rewrite Hx. Qed.

Lemma pl_seal : planned → planned_seal_position layout = Ok (Z.of_nat (length entries_)).
Proof.
  intros Hpl. destruct (pl_last Hpl) as (seal & He & Hk & Hp). unfold planned_seal_position.
  rewrite He, find_app, find_no.
  - cbn. rewrite bool_decide_eq_true_2 by done. by rewrite Hp.
  - eapply Forall_impl; [apply content_not_seal|]. intros e. apply bool_decide_eq_false_2.
Qed.

(** The rows are one a slice entry, at its position. *)
Record rows_planned (c : Catalog) : Prop := {
  rp_position i e id w r : entries_ !! i = Some e → le_kind e = LayoutModel.Slice id →
    slice_write_id !! id = Some w → positions c !! (w, id) = Some r → row_position r = le_position e;
  rp_entry w id : is_Some (positions c !! (w, id)) → w ∈ write_ids →
    slice_write_id !! id = Some w ∧ ∃ i e, entries_ !! i = Some e ∧ le_kind e = LayoutModel.Slice id;
  rp_row i e id : entries_ !! i = Some e → le_kind e = LayoutModel.Slice id →
    ∃ w, slice_write_id !! id = Some w ∧ is_Some (positions c !! (w, id));
}.

(** No row of the session's is [written] at a position from [n] on. *)
Definition claims_below (n : nat) (c : Catalog) : Prop :=
  ∀ w id r, positions c !! (w, id) = Some r → w ∈ write_ids → row_status r = PWritten →
    0 ≤ row_position r < Z.of_nat n.

(** Every slice of the entries from [a] up to [b] that has a row is recorded
    written, with the hash the Layout records. *)
Definition recorded (a b : nat) (c : Catalog) : Prop :=
  ∀ i e id w r, (a ≤ i < b)%nat → entries_ !! i = Some e → le_kind e = LayoutModel.Slice id →
    slice_write_id !! id = Some w → positions c !! (w, id) = Some r →
    row_status r = PWritten ∧ sha256_on_volume r = le_sha256 e.

Lemma demote_row_pos from r : row_position (demote_row from r) = row_position r.
Proof. unfold demote_row. by case_bool_decide. Qed.

(** What a demotion does to the rows. *)
Definition demoted_to (ids : list Z) (from : Z) (c c' : Catalog) : Prop :=
  ∀ w id, positions c' !! (w, id) =
    (λ r, if bool_decide (w ∈ ids) then demote_row from r else r) <$> positions c !! (w, id).

Lemma demote_row_twice from r : demote_row from (demote_row from r) = demote_row from r.
Proof.
  unfold demote_row. destruct (decide (from ≤ row_position r)) as [Hr|Hr].
  - rewrite (bool_decide_eq_true_2 (from ≤ row_position r)) by done. cbn. by rewrite bool_decide_eq_true_2.
  - by rewrite !(bool_decide_eq_false_2 (from ≤ row_position r)) by done.
Qed.

Lemma demote_all_spec ids from s :
  iruns s (demote_all ids from)
    (λ _ s', later s s' ∧ demoted_to ids from (cat s) (cat s'))
    (λ e s', (∃ m, e = DbError m) ∧ tape s' = tape s ∧ events (cat s') = events (cat s)).
Proof.
  revert s. induction ids as [|w ids IH]; intros s.
  { apply iruns_ret. split; [apply later_refl|]. intros w id. cbn.
    rewrite bool_decide_eq_false_2 by set_solver. by destruct (_ !! _). }
  cbn [demote_all]. apply iruns_bind. apply iruns_db; [|intros m c Hp He; split_and!; [eauto|done|done]].
  intros c Hp He _. eapply iruns_mono; [apply IH| |].
  - intros _ s2 [Hl Hd]. split.
    + eapply later_trans; [|exact Hl]. split; [done|]. cbn. by rewrite He.
    + intros w' id. rewrite Hd. cbn. rewrite map_lookup_imap, Hp.
      destruct (positions (cat s) !! (w', id)) as [r|]; [|done]. cbn. f_equal.
      destruct (decide (w' = w)) as [->|Hne].
      * rewrite (bool_decide_eq_true_2 (w = w)), (bool_decide_eq_true_2 (w ∈ w :: ids)) by set_solver.
        case_bool_decide; [apply demote_row_twice|done].
      * rewrite (bool_decide_eq_false_2 (w' = w)) by done.
        destruct (decide (w' ∈ ids)).
        -- by rewrite !bool_decide_eq_true_2 by set_solver.
        -- by rewrite !bool_decide_eq_false_2 by set_solver.
  - intros e s2 ([m ->] & Ht & Hev). split_and!; [eauto|by rewrite Ht|by rewrite Hev].
Qed.

(** ** The rows through a step *)

Definition good_rows (a b n : nat) (c : Catalog) : Prop :=
  claims_below n c ∧ recorded a b c ∧ rows_planned c.

Lemma good_rows_same a b n c c' : positions c' = positions c → good_rows a b n c → good_rows a b n c'.
Proof.
  unfold good_rows, claims_below, recorded. intros Hp (? & ? & [H1 H2 H3]). rewrite Hp. split_and!; [done|done|].
  split; by rewrite Hp.
Qed.

Lemma claims_mono n n' c : (n ≤ n')%nat → claims_below n c → claims_below n' c.
Proof. intros Hn H w id r Hr Hw Hs. specialize (H w id r Hr Hw Hs). lia. Qed.

Lemma update_rows_planned w id f c :
  (∀ r, row_position (f r) = row_position r) → rows_planned c →
  rows_planned (set_positions (alter f (w, id) (positions c)) c).
Proof.
  intros Hf [H1 H2 H3]. assert (∀ k, is_Some (alter f (w, id) (positions c) !! k) ↔ is_Some (positions c !! k)) as Hd.
  { intros k. rewrite lookup_alter. case_decide; subst; by destruct (positions c !! _). }
  split.
  - intros i e id' w' r He Hk Hw Hr. cbn in Hr.
    destruct (decide ((w', id') = (w, id))) as [[= -> ->]|Hne].
    + rewrite lookup_alter_eq in Hr. destruct (positions c !! (w, id)) as [r0|] eqn:E; [|done].
      cbn in Hr. injection Hr as <-. rewrite Hf. by eapply H1.
    + rewrite lookup_alter_ne in Hr by congruence. by eapply H1.
  - intros w' id'. cbn. rewrite Hd. apply H2.
  - intros i e id' He Hk. destruct (H3 _ _ _ He Hk) as (w' & Hw' & Hr). exists w'. cbn. by rewrite Hd.
Qed.

Lemma update_recorded a b e id w f c :
  planned → entries_ !! b = Some e → le_kind e = LayoutModel.Slice id →
  recorded a b c → recorded a b (set_positions (alter f (w, id) (positions c)) c).
Proof.
  intros Hpl He Hk H i e' id' w' r Hi He' Hk' Hw' Hr. cbn in Hr.
  rewrite lookup_alter_ne in Hr; [by eapply H|]. intros [= _ <-].
  pose proof (pl_slices Hpl _ _ _ _ _ He He' Hk Hk'). lia.
Qed.

(** A row that is not the entry's to claim: not written, so no claim. *)
Lemma update_unclaimed n w id f c :
  (∀ r, row_status (f r) ≠ PWritten) → claims_below n c →
  claims_below n (set_positions (alter f (w, id) (positions c)) c).
Proof.
  intros Hf H w' id' r Hr Hw Hs. cbn in Hr.
  destruct (decide ((w', id') = (w, id))) as [[= -> ->]|Hne].
  - rewrite lookup_alter_eq in Hr. destruct (positions c !! (w, id)) as [r0|] eqn:E; [|done].
    cbn in Hr. injection Hr as <-. by destruct (Hf r0).
  - rewrite lookup_alter_ne in Hr by congruence. by eapply H.
Qed.

Lemma update_claimed b e id w f c :
  planned → entries_ !! b = Some e → le_kind e = LayoutModel.Slice id → slice_write_id !! id = Some w →
  (∀ r, row_position (f r) = row_position r) → rows_planned c → claims_below b c →
  claims_below (S b) (set_positions (alter f (w, id) (positions c)) c).
Proof.
  intros Hpl He Hk Hw Hf Hrows H w' id' r Hr Hw' Hs. cbn in Hr.
  destruct (decide ((w', id') = (w, id))) as [[= -> ->]|Hne].
  - rewrite lookup_alter_eq in Hr. destruct (positions c !! (w, id)) as [r0|] eqn:E; [|done].
    cbn in Hr. injection Hr as <-. rewrite Hf, (rp_position _ Hrows _ _ _ _ _ He Hk Hw E), (pl_order Hpl _ _ He). lia.
  - rewrite lookup_alter_ne in Hr by congruence. specialize (H _ _ _ Hr Hw' Hs). lia.
Qed.

Lemma update_recorded_next a b e id w f c :
  planned → entries_ !! b = Some e → le_kind e = LayoutModel.Slice id → slice_write_id !! id = Some w →
  (∀ r, row_status (f r) = PWritten ∧ sha256_on_volume (f r) = le_sha256 e) →
  recorded a b c → recorded a (S b) (set_positions (alter f (w, id) (positions c)) c).
Proof.
  intros Hpl He Hk Hw Hf H i e' id' w' r Hi He' Hk' Hw' Hr.
  destruct (decide (i = b)) as [->|Hne].
  - rewrite He in He'. injection He' as <-. rewrite Hk in Hk'. injection Hk' as <-.
    rewrite Hw in Hw'. injection Hw' as <-. cbn in Hr. rewrite lookup_alter_eq in Hr.
    destruct (positions c !! (w, id)); [|done]. cbn in Hr. injection Hr as <-. apply Hf.
  - eapply (update_recorded a b e id w f c Hpl He Hk H i); [lia|done|done|done|done].
Qed.

(** An entry that is no slice has no row. *)
Lemma no_row_next a b e c :
  entries_ !! b = Some e → is_slice (le_kind e) = false → recorded a b c → recorded a (S b) c.
Proof.
  intros He Hk H i e' id w r Hi He' Hk' Hw Hr. destruct (decide (i = b)) as [->|Hne].
  - rewrite He in He'. injection He' as <-. by rewrite Hk' in Hk.
  - eapply H; [|done..]. lia.
Qed.

Lemma demoted_rows a b c c' from :
  demoted_to write_ids (Z.of_nat from) c c' → planned → (from ≤ b)%nat →
  good_rows a b b c → good_rows a from from c'.
Proof.
  intros Hd Hpl Hf (Hc & Hr & Hp). split_and!.
  - intros w id r Hr' Hw Hs. rewrite Hd in Hr'. destruct (positions c !! (w, id)) as [r0|] eqn:E; [|done].
    cbn in Hr'. rewrite bool_decide_eq_true_2 in Hr' by done. injection Hr' as <-.
    unfold demote_row in *. case_bool_decide as Hpos; [done|]. specialize (Hc _ _ _ E Hw Hs). lia.
  - intros i e id w r Hi He Hk Hw Hr'. rewrite Hd in Hr'.
    destruct (positions c !! (w, id)) as [r0|] eqn:E; [|done]. cbn in Hr'. injection Hr' as <-.
    pose proof (rp_position _ Hp _ _ _ _ _ He Hk Hw E) as Hpos. rewrite (pl_order Hpl _ _ He) in Hpos.
    unfold demote_row. rewrite (bool_decide_eq_false_2 (_ ≤ _)) by lia.
    destruct (bool_decide _); (eapply Hr; [|done..]; lia).
  - assert (∀ k, is_Some (positions c' !! k) ↔ is_Some (positions c !! k)) as Hdom.
    { intros [w id]. rewrite Hd. by destruct (positions c !! _). }
    destruct Hp as [H1 H2 H3]. split.
    + intros i e id w r He Hk Hw Hr'. rewrite Hd in Hr'.
      destruct (positions c !! (w, id)) as [r0|] eqn:E; [|done]. cbn in Hr'. injection Hr' as <-.
      rewrite <- (H1 _ _ _ _ _ He Hk Hw E). case_bool_decide; [apply demote_row_pos|done].
    + intros w id. rewrite Hdom. apply H2.
    + intros i e id He Hk. destruct (H3 _ _ _ He Hk) as (w & Hw & Hr'). exists w. by rewrite Hdom.
Qed.

(** ** One entry *)

(** The file [f] is the entry [e]: its recorded length, its recorded hash. *)
Definition entry_on (e : LayoutEntry) (f : list Z) : Prop :=
  ∃ p, holds f p ∧ le_size_bytes e = Some (Z.of_nat (length p)) ∧ le_sha256 e = Some (sha256_hex p).

(** What is left of the files after a write that did not end as written. *)
Definition left_of (whole : bool) (t t' : store) : Prop :=
  ∃ n extra, files_of t' = take n (files_of t) ++ extra ∧ (length extra ≤ 1)%nat ∧
    (whole = true → (length (files_of t) ≤ n)%nat).

(** After a refused write: the medium ends where the head is, or the files
    before the head are all there. *)
Definition refused_at (t t' : store) : Prop :=
  (∃ m, files_of t' = take m (files_of t)) ∧
  (medium_of t' = files_of t' ∨ files_of t' = files_of t).

Lemma write_verified_spec chunk src len expected t v t' :
  positioned t →
  write_verified chunk src len expected (λ reads, execute reads len false) t = (v, t') →
  match v with
  | Written a => expected = Some a ∧ ∃ p f, holds f p ∧ Z.of_nat (length p) = len ∧ a = sha256_hex p ∧
      files_of t' = files_of t ++ [f] ∧ medium_of t' = files_of t' ∧ positioned t'
  | Mismatch _ => left_of false t t'
  | Unwritten _ => left_of (negb (is_refusal v)) t t' ∧ (is_refusal v = true → refused_at t t')
  end.
Proof.
  intros Hpos. unfold write_verified. destruct (hash_stage len expected [] _) as [msgs sha] eqn:Hh.
  destruct (execute (pipe_reads msgs) len false t) as [[r unread] t1] eqn:He. intros [= <- <-].
  destruct r as [c|x].
  - destruct (execute_ok _ _ _ _ _ _ _ Hpos He) as (p & f & Hp & Hc & Hf & Ht & Hm & Hpos').
    assert (∀ w, left_of w t t1) as Hleft.
    { intros w. exists (length (files_of t)), [f]. rewrite firstn_all. split; [done|]. split; [cbn; lia|done]. }
    unfold verdict. destruct (_ && _); [apply Hleft|]. destruct sha as [a|]; [|by split; [apply Hleft|]].
    case_bool_decide as Ha; [|apply Hleft]. split; [done|].
    destruct (hash_stage_written _ _ _ _ _ _ Hh Ha) as [-> Hl]. cbn [app] in *.
    assert (content unread = []) as Hu.
    { rewrite Hc, length_app in Hl. destruct (content unread); [done|cbn in Hl; lia]. }
    rewrite Hc, Hu, app_nil_r in *. by exists p, f.
  - destruct (execute_err _ _ _ _ _ _ _ Hpos He) as (n & Ht & Hm & Hn).
    assert (∀ w : bool, (w = true → ∀ os, x ≠ LbpRefusal os) → left_of w t t1) as Hleft.
    { intros w Hw. exists n, []. rewrite app_nil_r. split; [done|]. split; [cbn; lia|]. auto. }
    unfold verdict. destruct (_ && _); [by apply Hleft|]. split; [apply Hleft; by destruct x|].
    intros _. split; [by eexists|]. destruct Hm as [Hm|Hm]; [by left|right]. by rewrite Ht, firstn_all2.
Qed.

Lemma write_entry_spec e path size s :
  le_size_bytes e = Some size → positioned (tape s) →
  iruns s (write_entry layout e path size)
    (λ va s', cat s' = cat s ∧
      match va.1 with
      | Written a => le_sha256 e = Some a ∧ ∃ f, entry_on e f ∧
          files_of (tape s') = files_of (tape s) ++ [f] ∧
          medium_of (tape s') = files_of (tape s') ∧ positioned (tape s')
      | Mismatch _ => left_of false (tape s) (tape s')
      | Unwritten _ => left_of (negb (is_refusal va.1)) (tape s) (tape s') ∧
          (is_refusal va.1 = true → refused_at (tape s) (tape s'))
      end) (λ _ _, False).
Proof.
  intros Hsz Hpos. unfold iruns, write_entry. destruct (staged _ path) as [src|m].
  - destruct (write_verified _ _ _ _ _ _) as [v t] eqn:Hw. apply write_verified_spec in Hw; [|done].
    split; [done|]. cbn [fst]. destruct v as [a|a|x]; [|done|done].
    destruct Hw as (Ha & p & f & Hf & Hp & -> & Ht & Hm). split; [done|]. exists f. split; [|done].
    exists p. rewrite Hsz, Hp. done.
  - split; [done|]. split; [|done]. exists (length (files_of (tape s))), []. rewrite firstn_all, app_nil_r.
    split; [done|]. split; [cbn; lia|done].
Qed.

Lemma iruns_attempted {A} s (m : io A) (Q : A → State → Prop) (E : SessionError → State → Prop)
    (R : result SessionError A → State → Prop) (E' : SessionError → State → Prop) :
  iruns s m Q E → (∀ a s', Q a s' → R (Ok a) s') → (∀ e s', E e s' → R (Err e) s') →
  iruns s (attempted m) R E'.
Proof. unfold iruns, attempted. destruct (m s) as [[a|e] s']; auto. Qed.

Definition not_ok (w : Why) (s s' : State) : Prop := events (cat s) `prefix_of` events (cat s').

Lemma retry_spec first failed s :
  0 ≤ first → failed ≤ i32_max →
  medium_of (tape s) = files_of (tape s) ∨ failed ≤ Z.of_nat (length (files_of (tape s))) →
  iruns s (retry_from_refusal layout write_ids first failed)
    (λ r s', events (cat s) `prefix_of` events (cat s') ∧
      match r with
      | Ok from => first ≤ from ≤ failed ∧ (Z.to_nat from ≤ length (files_of (tape s)))%nat ∧
          files_of (tape s') = take (Z.to_nat from) (files_of (tape s)) ∧ positioned (tape s') ∧
          demoted_to write_ids from (cat s) (cat s')
      | Err _ => True
      end) (λ _ _, False).
Proof.
  intros Hf Hfl Hmed. unfold retry_from_refusal. apply iruns_bind.
  unfold iruns at 1, ask_position. pose proof (position_keeps (tape s)) as Hk.
  destruct (logical_position (tape s)) as [r t]. cbn in Hk.
  set (s1 := with_tape t s). assert (files_of (tape s1) = files_of (tape s) ∧ medium_of (tape s1) = medium_of (tape s)) as [Ht Htm] by done.
  destruct r as [[lba|]|m]; [|by apply iruns_ret|by apply iruns_ret].
  destruct (in_run layout first failed lba) as [from|] eqn:Hin; [|by apply iruns_ret].
  assert (first ≤ from ≤ failed) as Hfrom.
  { unfold in_run in Hin. apply bind_Some in Hin as (f & _ & Hin). by case_bool_decide; simplify_eq. }
  apply iruns_bind. eapply iruns_attempted; [apply demote_all_spec| |].
  2: { intros e s2 (_ & Ht2 & He2). apply iruns_ret. by rewrite He2. }
  intros _ s2 [[Ht2 He2] Hd]. apply iruns_bind. unfold iruns at 1, reposition.
  destruct (reposition_for_resume from (tape s2)) as [[[]|m] t3] eqn:Hr.
  2: { by apply iruns_ret. }
  destruct (reposition_ok from _ _ ltac:(lia) Hr) as (Hle & Htake & Hpos). rewrite Ht2, Htm in Hle, Htake.
  assert (Z.to_nat from ≤ length (files_of (tape s)))%nat as Hle'.
  { destruct Hmed as [Hmed|Hmed]; [by rewrite <- Hmed|lia]. }
  assert (take (Z.to_nat from) (medium_of (tape s)) = take (Z.to_nat from) (files_of (tape s))) as Hpre.
  { destruct (files_prefix (tape s)) as [l ->]. by rewrite take_app_le. }
  rewrite Hpre in Htake. apply iruns_bind. eapply iruns_attempted; [apply keeps_log| |].
  - intros _ s4 [[Ht4 He4] Hp4]. apply iruns_ret. rewrite Ht4. cbn in He4. split; [by etrans|].
    split; [done|]. split; [done|]. split; [done|]. split; [done|]. intros w id. rewrite Hp4. apply Hd.
  - intros e s4 [_ [Ht4 He4]]. apply iruns_ret. cbn in He4. by split; [etrans|].
Qed.

Lemma locate_spec first failed s :
  iruns s (locate_refused_file layout first failed)
    (λ _ s', cat s' = cat s) (λ _ _, False).
Proof.
  unfold locate_refused_file. apply iruns_bind. unfold iruns at 1, ask_position.
  destruct (logical_position (tape s)) as [r t]. by apply iruns_ret.
Qed.

(** ** The loop *)

Section loop.
Variables (low start : nat) (post : option Z) (F : list (list Z)).
Notation n := (length entries_).
Hypothesis Hpl : planned.
Hypothesis HF : length F = start.
Hypothesis Hlow : (low ≤ start)%nat.

(** The tape at file [k]: what it held, then the entries up to [k]. *)
Definition on_tape (k : nat) (s : State) : Prop :=
  positioned (tape s) ∧
  ∃ ws, files_of (tape s) = F ++ ws ∧ Forall2 entry_on (drop start (take k entries_)) ws.

(** The tape when the session stopped short of its ending: of those files,
    some number, and at most one that is none of them. *)
Definition partial (s : State) : Prop :=
  ∃ k m ws extra, (start ≤ k ≤ n)%nat ∧ Forall2 entry_on (drop start (take k entries_)) ws ∧
    files_of (tape s) = take m (F ++ ws) ++ extra ∧ (length extra ≤ 1)%nat.

(** The same when the drive took back none of it: the rows say where it
    stopped. *)
Definition stopped (s : State) : Prop :=
  ∃ k ws extra, (start ≤ k ≤ n)%nat ∧ Forall2 entry_on (drop start (take k entries_)) ws ∧
    files_of (tape s) = (F ++ ws) ++ extra ∧ (length extra ≤ 1)%nat ∧ good_rows low k k (cat s).

Definition refusal_recorded (s : State) : Prop := ∃ p due, LbpRefusalEvent p due ∈ events (cat s).

(** A run that ends for a refused write it did not get past. *)
Definition for_refusal (r : option Reason) : bool :=
  match r with Some (SecondRefusal _ _ | NotRetried _ _ _) => true | _ => false end.

(** What an outcome says of the tape and the catalog. *)
Definition ended (o : Outcome) (s : State) : Prop :=
  match o with
  | Ready ending w _ _ => ∃ k,
      Z.of_nat k = seal_position ending (Z.of_nat n) ∧ (start ≤ k ≤ n)%nat ∧
      on_tape k s ∧ good_rows low k k (cat s) ∧
      match ending with
      | Full => True
      | Short _ => (k < n)%nat ∧ w = true ∧
          ∃ e, entries_ !! (k - 1)%nat = Some e ∧ is_slice (le_kind e) = true
      end ∧
      (w = true → ∃ bytes refs,
         EarlyWarningEvent (Z.of_nat k - 1) bytes refs post ending ∈ events (cat s))
  | Interrupted r => stopped s ∨ for_refusal r = true ∧ refusal_recorded s
  | Aborted _ => partial s
  end.

Definition loop_inv (index : nat) (s : State) : Prop :=
  (start ≤ index ≤ n)%nat ∧ on_tape index s ∧ good_rows low index index (cat s).

Lemma on_tape_length index s : (start ≤ index ≤ n)%nat → on_tape index s → length (files_of (tape s)) = index.
Proof.
  intros Hi (_ & ws & -> & Hws). apply Forall2_length in Hws. rewrite length_drop, length_take in Hws.
  rewrite length_app. lia.
Qed.

Lemma on_tape_next index s s' e f :
  (start ≤ index)%nat → entries_ !! index = Some e → on_tape index s → entry_on e f →
  files_of (tape s') = files_of (tape s) ++ [f] → positioned (tape s') → on_tape (S index) s'.
Proof.
  intros Hi He (_ & ws & Hf & Hws) Hef Hf' Hpos. split; [done|].
  exists (ws ++ [f]). rewrite Hf', Hf, app_assoc. split; [done|].
  rewrite (take_S_r _ _ _ He), drop_app_le; [by apply Forall2_app; [|constructor]|].
  rewrite length_take. apply lookup_lt_Some in He. lia.
Qed.

Lemma on_tape_take index from s s' :
  (start ≤ from ≤ index)%nat → (index ≤ n)%nat → on_tape index s →
  (∃ m, files_of (tape s') = take from (take m (files_of (tape s)))) → (from ≤ length (files_of (tape s')))%nat →
  positioned (tape s') → on_tape from s'.
Proof.
  intros Hi Hn (_ & ws & Hf & Hws) [m Hm] Hlen Hpos. split; [done|]. exists (take (from - start) ws).
  rewrite Hm, !length_take in Hlen. split.
  - rewrite Hm, take_take, (Nat.min_l from m) by lia. rewrite Hf, take_app_ge by lia. by rewrite HF.
  - replace (drop start (take from entries_)) with (take (from - start) (drop start (take index entries_))).
    + by apply Forall2_take.
    + rewrite !skipn_firstn_comm, take_take. f_equal. lia.
Qed.

Lemma left_partial index w s s' :
  (start ≤ index ≤ n)%nat → on_tape index s → left_of w (tape s) (tape s') → partial s'.
Proof.
  intros Hi (_ & ws & Hf & Hws) (m & extra & Hm & Hx & _). exists index, m, ws, extra.
  rewrite Hm, Hf. done.
Qed.

Lemma left_stopped index s s' :
  (start ≤ index ≤ n)%nat → on_tape index s → left_of true (tape s) (tape s') →
  good_rows low index index (cat s') → stopped s'.
Proof.
  intros Hi (_ & ws & Hf & Hws) (m & extra & Hm & Hx & Hw) Hg. specialize (Hw eq_refl).
  exists index, ws, extra. rewrite Hm, (firstn_all2 (files_of (tape s)) Hw), Hf. done.
Qed.

Lemma left_all w s s' : tape s' = tape s → left_of w (tape s) (tape s').
Proof.
  intros ->. exists (length (files_of (tape s))), []. rewrite firstn_all, app_nil_r.
  split; [done|]. split; [cbn; lia|done].
Qed.

Lemma partial_later s s' : later s s' → partial s → partial s'.
Proof. intros [Ht _]. unfold partial. by rewrite Ht. Qed.

Lemma refusal_later s s' : events (cat s) `prefix_of` events (cat s') → refusal_recorded s → refusal_recorded s'.
Proof. intros [l Hl] (p & due & Hin). exists p, due. rewrite Hl. set_solver. Qed.

(** An end that is not ready is what it was before the writes were marked. *)
Lemma marked_spec status o s (E : SessionError → State → Prop) :
  (∀ s', later s s' → positions (cat s') = positions (cat s) → ended o s') →
  (∀ e s', e ≠ RunFuel → E e s') →
  iruns s (mark_writes write_ids status;; mret o) ended E.
Proof.
  intros Ho HE. apply iruns_bind. eapply iruns_mono; [apply keeps_mark_all| |].
  - intros _ s' [Hl Hp]. apply iruns_ret. by apply Ho.
  - intros e s' [He _]. by apply HE.
Qed.

Lemma record_verdict_spec index e v stop s :
  entries_ !! index = Some e → good_rows low index index (cat s) →
  (∀ a, v = Written a → le_sha256 e = Some a) →
  iruns s (record_verdict slice_write_id e v stop)
    (λ _ s', later s s' ∧
       match v with
       | Written _ => good_rows low (S index) (S index) (cat s')
       | _ => good_rows low index index (cat s')
       end) no_fuel.
Proof.
  intros He (Hc & Hr & Hp) Hv. unfold record_verdict.
  destruct (is_slice (le_kind e)) eqn:Hs; cycle 1.
  { assert (iruns s (mret ()) (λ _ s', later s s' ∧ match v with
       | Written _ => good_rows low (S index) (S index) (cat s') | _ => good_rows low index index (cat s') end) no_fuel) as H.
    { apply iruns_ret. split; [apply later_refl|].
      destruct v; split_and!; try done; [eapply claims_mono; [|done]; lia|by eapply no_row_next]. }
    by destruct (le_kind e). }
  destruct (le_kind e) as [| | | |id| | | | |] eqn:Hk; try done.
  destruct (slice_write_id !! id) as [w|] eqn:Hw; [|done].
  assert (∀ f, (∀ r, row_position (f r) = row_position r) →
    (∀ a, v = Written a → ∀ r, row_status (f r) = PWritten ∧ sha256_on_volume (f r) = le_sha256 e) →
    ((∀ a, v ≠ Written a) → ∀ r, row_status (f r) ≠ PWritten) →
    iruns s (db (λ c, set_positions (alter f (w, id) (positions c)) c))
      (λ _ s', later s s' ∧
       match v with
       | Written _ => good_rows low (S index) (S index) (cat s')
       | _ => good_rows low index index (cat s')
       end) no_fuel) as H.
  { intros f Hf1 Hf2 Hf3. apply iruns_db; [|done]. intros c Hpc Hec _.
    split; [split; [done|]; cbn; by rewrite Hec|]. cbn [with_cat cat].
    assert (good_rows low index index c) as (Hc' & Hr' & Hp') by (by eapply good_rows_same).
    destruct v as [a|a|x].
    - split_and!; [by eapply update_claimed|eapply update_recorded_next; eauto|by apply update_rows_planned].
    - split_and!; [apply update_unclaimed; [by apply Hf3|done]|by eapply update_recorded|by apply update_rows_planned].
    - split_and!; [apply update_unclaimed; [by apply Hf3|done]|by eapply update_recorded|by apply update_rows_planned]. }
  unfold update_position. destruct v as [a|a|x]; apply H; try done.
  - intros a' [= <-] r. cbn. by rewrite (Hv a).
  - intros Hno. by destruct (Hno a).
  - intros _ r. by destruct stop as [[]|].
Qed.

Lemma after_written_spec index e retried w s :
  entries_ !! index = Some e → (start ≤ index)%nat → on_tape (S index) s →
  good_rows low (S index) (S index) (cat s) →
  iruns s (after_written layout write_ids start post (Z.of_nat n) e retried w)
    (λ o s', match o with Some o => ended o s' | None => s' = s end) no_fuel.
Proof.
  intros He Hi Ht Hg. pose proof (lookup_lt_Some _ _ _ He) as Hlt.
  unfold after_written. destruct w as [w|]; [|by apply iruns_ret].
  rewrite (pl_order Hpl _ _ He). destruct (is_slice (le_kind e)) eqn:Hs; cbn [negb].
  - apply iruns_bind. apply iruns_db; [|done]. intros c Hp Hev _. apply iruns_ret.
    exists (S index). case_bool_decide as Hfull; cbn [seal_position].
    all: split; [lia|]; split; [lia|]; split; [exact Ht|];
      split; [by eapply good_rows_same; [|exact Hg]|].
    1: split; [done|].
    2: split; [split; [lia|]; split; [done|]; exists e; by replace (S index - 1)%nat with index by lia|].
    all: intros _; cbn; do 2 eexists; apply elem_of_app; right; apply list_elem_of_singleton; f_equal; lia.
  - apply iruns_bind. eapply iruns_mono; [apply keeps_mark_all| |by intros ?? []].
    intros _ s' [Hl _]. apply iruns_ret. eapply partial_later; [exact Hl|].
    eapply (left_partial (S index) true s s); [lia|exact Ht|by apply left_all].
Qed.

Lemma position_of_file_Some from i :
  position_of_file entries_ from = Some i → from = Z.of_nat i ∧ (i < n)%nat.
Proof.
  intros H. apply position_Some in H as [(e & He & Hp) _]. apply bool_decide_eq_true in Hp.
  rewrite (pl_order Hpl _ _ He) in Hp. split; [done|]. by eapply lookup_lt_Some.
Qed.

Lemma keeps_if (b : bool) (m : io ()) : keeps m → keeps (if b then m else mret ()).
Proof. intros Hm. destruct b; [done|apply keeps_ret]. Qed.

(** The steps of a round between the write and its verdict's consequence. *)
Lemma record_round index e v asked prot retried s (K : io Outcome) Q :
  entries_ !! index = Some e → good_rows low index index (cat s) →
  (∀ a, v = Written a → le_sha256 e = Some a) →
  (∀ s', later s s' → (is_refusal v = true → refusal_recorded s') →
     match v with
     | Written _ => good_rows low (S index) (S index) (cat s')
     | _ => good_rows low index index (cat s')
     end → iruns s' K Q no_fuel) →
  iruns s (s ← get;
    (if negb prot && asked then record_run_protection (protection (tape s)) (0 <? start)%nat else mret ());;
    (if is_refusal v then record_lbp_refusal (le_position e) (negb retried) else mret ());;
    record_verdict slice_write_id e v (stop_of e retried v);; K) Q no_fuel.
Proof.
  intros He Hg Hv HK. apply iruns_bind, iruns_get.
  apply iruns_bind. eapply iruns_mono; [apply keeps_if, keeps_protection| |by intros ?? []].
  intros _ s1 [Hl1 Hp1]. apply iruns_bind.
  eapply (iruns_mono s1 _ (λ _ s2, later s1 s2 ∧ positions (cat s2) = positions (cat s1) ∧
    (is_refusal v = true → refusal_recorded s2)) _ no_fuel); [| |done].
  { destruct (is_refusal v); [|apply iruns_ret; split; [apply later_refl|done]].
    apply iruns_db; [|by intros]. intros c Hpc Hec _. unfold later. cbn. rewrite Hec.
    split; [split; [done|by apply prefix_app_r]|]. split; [done|]. intros _.
    do 2 eexists. cbn. apply elem_of_app. right. by apply list_elem_of_singleton. }
  intros _ s2 (Hl2 & Hp2 & Hrec). apply iruns_bind.
  eapply iruns_mono; [eapply record_verdict_spec; [exact He| |exact Hv]| |done].
  - eapply good_rows_same; [|exact Hg]. congruence.
  - intros _ s3 [Hl3 Hg3]. apply HK; [eapply later_trans; [exact Hl1|]; by eapply later_trans| |done].
    intros Hr. destruct Hl3. by eapply refusal_later; [|apply Hrec].
Qed.

Lemma entries_loop_spec fuel : ∀ index retried resending prot s,
  loop_inv index s → ((n - index) + (if retried : bool then 0 else n - start) ≤ fuel)%nat →
  iruns s (entries_loop layout write_ids slice_write_id start post (Z.of_nat n) fuel index retried
             resending prot) ended no_fuel.
Proof.
  induction fuel as [|fuel IH]; intros index retried resending prot s (Hi & Ht & Hg) Hf.
  all: cbn [entries_loop]; destruct (entries_ !! index) as [e|] eqn:He;
    [pose proof (lookup_lt_Some _ _ _ He) as Hlt|].
  1: lia.
  1, 3: apply lookup_ge_None in He; apply iruns_ret; exists n; assert (index = n) as -> by lia;
    cbn [seal_position]; split_and!; done || lia.
  apply iruns_bind. unfold iruns at 1, is_interrupted. set (s0 := mkState _ _ _ _).
  assert (on_tape index s0 ∧ good_rows low index index (cat s0)) as [Ht0 Hg0] by done.
  assert (∀ (s' : State), later s0 s' → positions (cat s') = positions (cat s0) → ended (Interrupted None) s') as Hint.
  { intros s' [Htl _] Hps. left. eapply (left_stopped index s0 s'); [done|done|by apply left_all|].
    by eapply good_rows_same. }
  destruct (default false (head (signals s))); [by apply marked_spec|].
  clear Hint. clearbody s0. clear s Ht Hg. rename s0 into s, Ht0 into Ht, Hg0 into Hg.
  apply iruns_bind, iruns_result; cycle 1.
  { intros x Hx. unfold entry_path in Hx. destruct (le_source e); by simplify_eq. }
  intros path _. apply iruns_bind, iruns_result; cycle 1.
  { intros x Hx. unfold ok_or in Hx. destruct (le_size_bytes e); by simplify_eq. }
  intros size Hsz%ok_or_ok. apply iruns_bind.
  pose proof (proj1 Ht) as Hpos.
  eapply iruns_mono; [by apply write_entry_spec| |done]. intros [v asked] s2 [Hc2 Hv]. cbn [fst] in Hv.
  assert (good_rows low index index (cat s2)) as Hg2 by by rewrite Hc2.
  cbv zeta. apply (record_round index); [done|done|by intros a ->; destruct Hv|].
  intros s3 Hl3 Href Hg3. destruct v as [a|a|x]; cbn [stop_of].
  - (* written *)
    destruct Hv as (Ha & f & Hef & Hft & _ & Hpos2). apply iruns_bind, iruns_get, iruns_bind.
    destruct Hl3 as [Htl3 _].
    assert (on_tape (S index) s3) as Ht3.
    { eapply (on_tape_next index s s3); [lia|done|done|exact Hef|by rewrite Htl3..]. }
    eapply iruns_mono; [apply (after_written_spec index); [done|lia|done|done]| |done].
    intros [o|] s4; [by intros; apply iruns_ret|]. intros ->. apply IH; [|lia].
    split; [lia|]. done.
  - (* a hash that does not match *)
    apply marked_spec; [|done]. intros s' Hl _. cbn. eapply partial_later; [exact Hl|].
    eapply partial_later; [exact Hl3|]. by eapply left_partial.
  - destruct Hv as [Hleft Htake].
    assert (∀ r s', later s3 s' → positions (cat s') = positions (cat s3) →
      is_refusal (Unwritten x) = false → ended (Interrupted r) s') as Hstop.
    { intros r s' Hl Hps Hr. rewrite Hr in Hleft. cbn [negb] in Hleft. left.
      destruct Hl as [Htl _], Hl3 as [Htl3 _]. eapply (left_stopped index s s'); [done|done| |].
      - by rewrite Htl, Htl3.
      - by eapply good_rows_same. }
    assert (partial s3) as Hpart by (eapply partial_later; [exact Hl3|]; by eapply left_partial).
    assert (∀ r, is_refusal (Unwritten x) = false →
      iruns s3 (mret ();; interrupted_with write_ids (Some r)) ended no_fuel) as Hplain.
    { intros r Hr. apply iruns_bind, iruns_ret. apply marked_spec; [|done].
      intros s' Hl Hps. by apply Hstop. }
    destruct x as [os|os|os|?|? ?|? ?|? ?| | |]; try (by apply Hplain).
    + apply marked_spec; [|done]. intros s' Hl _. by eapply partial_later.
    + specialize (Href eq_refl). destruct (Htake eq_refl) as [[m Hm] Hmed].
      assert (∀ w s4, for_refusal w = true → events (cat s3) `prefix_of` events (cat s4) →
        iruns s4 (interrupted_with write_ids w) ended no_fuel) as Hno.
      { intros w s4 Hw He4. apply marked_spec; [|done]. intros s' [_ Hev] _. right. split; [done|].
        eapply refusal_later; [exact Hev|]. by eapply refusal_later. }
      destruct retried.
      * apply iruns_bind.
        eapply (iruns_mono s3 _ (λ _ s4, events (cat s3) `prefix_of` events (cat s4)) _ no_fuel);
          [|intros [] s4; by apply Hno|done].
        cbn [is_refusal]. apply iruns_bind. eapply iruns_mono; [apply locate_spec| |done].
        intros [k|] s4 Hc4; [|apply iruns_ret; by rewrite Hc4].
        eapply iruns_mono; [apply demote_all_spec| |by intros ?? ([? ->] & _)].
        intros [] s5 [[_ He5] _]. by rewrite <- Hc4.
      * apply iruns_bind. assert (run_first_position layout start (Z.of_nat n) = Z.of_nat start) as Hfirst.
        { unfold run_first_position. destruct (entries_ !! start) as [est|] eqn:E0; [by eapply (pl_order Hpl)|].
          apply lookup_ge_None in E0. lia. }
        rewrite Hfirst. pose proof (pl_order Hpl _ _ He) as Hpe. destruct Hl3 as [Htl3 _].
        eapply iruns_mono; [apply retry_spec; [lia|rewrite Hpe; pose proof (pl_bound Hpl); lia|]| |done].
        { rewrite Htl3, Hpe. destruct Hmed as [Hmed|Hmed]; [by left|right].
          rewrite Hmed, (on_tape_length _ _ Hi Ht). done. }
        intros r s4 (He4 & Hr). destruct r as [from|w]; [|by apply Hno]. cbn [mbind result_bind].
        destruct (position_of_file entries_ from) as [i|] eqn:Hpos4; cbn [ok_or]; [|by apply Hno].
        apply position_of_file_Some in Hpos4 as [-> Hi']. destruct Hr as (Hfr & Hle & Hfs & Hps4 & Hd).
        rewrite Hpe in Hfr. rewrite Nat2Z.id in Hle, Hfs.
        apply iruns_bind, iruns_get. apply IH; [|lia]. split; [lia|]. split.
        -- eapply (on_tape_take index i s s4); [lia|lia|done| | |done].
           ++ exists m. by rewrite Hfs, Htl3, Hm.
           ++ rewrite Hfs, length_take. lia.
        -- eapply (demoted_rows low index); [exact Hd|done|lia|done].
Qed.
End loop.
End sound.
