(* ===== verification/SessionEnd.v ===== *)
(** * The write session's outcomes

    The loop from its start, the resume of an interrupted session, and the
    seal: each in terms of the files the tape holds. *)

From S2P Require Import Prelude LayoutModel Slice SliceHeader Chunks TapeWrite Pipeline Session SessionSound.
Local Open Scope Z_scope.
Local Open Scope rust_scope.

(** ** Lists of options *)

Lemma NoDup_omap {A B} (f : A → option B) (l : list A) :
  (∀ i j x y z, l !! i = Some x → l !! j = Some y → f x = Some z → f y = Some z → i = j) →
  NoDup (omap f l).
Proof.
  induction l as [|x l IH]; intros Hi; [constructor|]. cbn.
  assert (NoDup (omap f l)) as Hl.
  { apply IH. intros i j a b z Ha Hb Hfa Hfb.
    assert (S i = S j) by (eapply (Hi (S i) (S j)); done). lia. }
  destruct (f x) as [z|] eqn:Hx; [|done]. constructor; [|done]. rewrite list_elem_of_omap.
  intros (y & [j Hj]%list_elem_of_lookup & Hy). by specialize (Hi 0%nat (S j) x y z eq_refl Hj Hx Hy).
Qed.

Lemma length_omap_filter {A B} (f : A → option B) (P : A → Prop) `{!∀ x, Decision (P x)} (l : list A) :
  (∀ x, x ∈ l → is_Some (f x) ↔ P x) → length (omap f l) = length (filter P l).
Proof.
  induction l as [|x l IH]; intros Hl; [done|].
  assert (length (omap f l) = length (filter P l)) as Hlen by (apply IH; intros; apply Hl; by right).
  pose proof (Hl x ltac:(by left)) as Hx. rewrite filter_cons.
  change (omap f (x :: l)) with (match f x with Some y => y :: omap f l | None => omap f l end).
  destruct (f x) as [z|]; case_decide as Hp; [cbn [length]; by rewrite Hlen|..|done].
  - destruct Hp. by apply Hx.
  - apply Hx in Hp as [? ?]. done.
Qed.

Section outcomes.
Context `{Dg : !Digest, St : !Store, Sl : !StoreLaws, Sg : !Staging}.
Variable layout : Layout.
Variable write_ids : list Z.
Variable slice_write_id : gmap Z Z.
Notation entries_ := (content_entries layout).
Notation n := (length entries_).
Notation planned_ := (planned layout write_ids slice_write_id).
Notation rows_ := (rows_planned layout write_ids slice_write_id).
Notation good_ := (good_rows layout write_ids slice_write_id).

(** ** The write loop, from its start *)

Lemma run_entries_from low start post s :
  planned_ → (low ≤ start ≤ n)%nat → length (files_of (tape s)) = start → positioned (tape s) →
  good_ low start start (cat s) →
  iruns s (run_entries layout write_ids slice_write_id start post)
    (ended layout write_ids slice_write_id low start post (files_of (tape s))) no_fuel.
Proof.
  intros Hpl Hs HF Hpos Hg. unfold run_entries. rewrite (pl_seal _ _ _ Hpl). apply iruns_bind. cbn.
  apply entries_loop_spec; [done|done|lia| |lia]. split; [lia|]. split; [|done].
  split; [done|]. exists []. rewrite app_nil_r. split; [done|].
  rewrite drop_ge by (rewrite length_take; lia). constructor.
Qed.

(** The whole of a tape: the plan's first [k] files. *)
Definition written_plan (k : nat) (t : store) : Prop :=
  Forall2 entry_on (take k entries_) (files_of t).

(** A first run from the start of the tape, from what [ended] says. *)
Lemma on_tape_plan start k s F :
  (start ≤ k)%nat → Forall2 entry_on (take start entries_) F →
  on_tape layout start F k s → written_plan k (tape s).
Proof.
  intros Hk HF (_ & ws & Hf & Hws). unfold written_plan. rewrite Hf.
  rewrite <- (take_drop start (take k entries_)), take_take, Nat.min_l by done.
  by apply Forall2_app.
Qed.

(** ** Counting the rows *)

Definition slices_of (es : list LayoutEntry) : list LayoutEntry :=
  filter (λ e, is_slice (le_kind e) = true) es.

Lemma count_written_spec ids s :
  iruns s (count_written ids)
    (λ m s', m = sum_list_with (λ w, written_in w (cat s)) ids ∧ later s s' ∧
             positions (cat s') = positions (cat s)) no_fuel.
Proof.
  revert s. induction ids as [|w ids IH]; intros s.
  { apply iruns_ret. split; [done|]. split; [apply later_refl|done]. }
  cbn [count_written]. apply iruns_bind. unfold query. apply iruns_bind, iruns_db; [|done].
  intros c Hp He _. apply iruns_bind, iruns_get, iruns_ret, iruns_bind.
  eapply iruns_mono; [apply IH| |done]. intros m s' (-> & Hl & Hp'). apply iruns_ret.
  assert (∀ w, written_in w (cat (with_cat c s)) = written_in w (cat s)) as Hw.
  { intros w'. unfold written_in. cbn. by rewrite Hp. }
  split; [|split].
  - assert (∀ l, sum_list_with (λ w, written_in w (cat (with_cat c s))) l =
               sum_list_with (λ w, written_in w (cat s)) l) as Hsum.
    { intros l. induction l as [|w' l IHl]; [done|]. cbn [sum_list_with]. by rewrite IHl, Hw. }
    cbn [sum_list_with]. by rewrite Hsum, Hw.
  - eapply later_trans; [|exact Hl]. split; [done|]. cbn. by rewrite He.
  - by rewrite Hp'.
Qed.

Definition written_at (ids : list Z) (kr : (Z * Z) * PositionRow) : Prop :=
  kr.1.1 ∈ ids ∧ row_status kr.2 = PWritten.
#[local] Instance written_at_dec ids kr : Decision (written_at ids kr) := and_dec _ _.

Lemma written_sum ids c :
  NoDup ids → sum_list_with (λ w, written_in w c) ids = size (filter (written_at ids) (positions c)).
Proof.
  induction ids as [|w ids IH]; intros Hd.
  { symmetry. apply map_size_empty_iff, map_eq. intros k. rewrite map_lookup_filter, lookup_empty.
    destruct (positions c !! k); [|done]. cbn. case_guard as Hg; [|done]. pose proof (proj1 Hg) as Hin. by apply not_elem_of_nil in Hin. }
  apply NoDup_cons in Hd as [Hw Hd]. cbn [sum_list_with]. rewrite IH by done. unfold written_in.
  rewrite <- map_size_disj_union.
  - f_equal. apply map_eq. intros k. rewrite lookup_union, !map_lookup_filter. unfold written_at.
    destruct (positions c !! k) as [r|]; [|done]. cbn. repeat case_guard; cbn; try done; exfalso; rewrite elem_of_cons in *; tauto.
  - apply map_disjoint_spec. intros k x y. rewrite !map_lookup_filter_Some. unfold written_at. cbn.
    intros (_ & -> & _) (_ & ? & _). set_solver.
Qed.

Definition row_key (e : LayoutEntry) : option (Z * Z) :=
  match le_kind e with
  | LayoutModel.Slice id => (λ w, (w, id)) <$> slice_write_id !! id
  | _ => None
  end.

Lemma row_key_Some e k :
  row_key e = Some k ↔ le_kind e = LayoutModel.Slice k.2 ∧ slice_write_id !! k.2 = Some k.1.
Proof.
  unfold row_key. destruct k as [w id]; cbn. split.
  - destruct (le_kind e) as [| | | |i| | | | |]; try done.
    intros (? & Hw & [= -> ->])%fmap_Some. done.
  - by intros [-> ->].
Qed.

(** The rows recorded written are the slices among the first [k] entries. *)
Lemma written_count k c :
  planned_ → good_ 0 k k c →
  sum_list_with (λ w, written_in w c) write_ids = length (slices_of (take k entries_)).
Proof.
  intros Hpl (Hc & Hr & Hrows). rewrite written_sum by apply (pl_ids _ _ _ Hpl).
  assert (dom (filter (written_at write_ids) (positions c)) = list_to_set (omap row_key (take k entries_))) as Hdom.
  { apply set_eq. intros [w id]. rewrite elem_of_dom, elem_of_list_to_set, list_elem_of_omap. split.
    - intros [r Hr']. apply map_lookup_filter_Some in Hr' as (Hr' & Hw & Hst). cbn in Hw, Hst.
      destruct (rp_entry _ _ _ _ Hrows w id (mk_is_Some _ _ Hr') Hw) as (Hsw & i & e & He & Hk).
      pose proof (rp_position _ _ _ _ Hrows _ _ _ _ _ He Hk Hsw Hr') as Hpos.
      rewrite (pl_order _ _ _ Hpl _ _ He) in Hpos. specialize (Hc _ _ _ Hr' Hw Hst).
      exists e. split; [|by apply row_key_Some]. apply (list_elem_of_lookup_2 _ i).
      by rewrite lookup_take_lt by lia.
    - intros (e & [i Hi]%list_elem_of_lookup & [Hk Hw]%row_key_Some). cbn in Hk, Hw.
      apply lookup_take_Some in Hi as [He Hi].
      destruct (rp_row _ _ _ _ Hrows _ _ _ He Hk) as (w' & Hw' & [r Hr']). simplify_eq.
      exists r. apply map_lookup_filter_Some. split; [done|]. split; cbn.
      + by eapply (pl_writes _ _ _ Hpl).
      + eapply Hr; [|done..]. lia. }
  rewrite <- size_dom, Hdom, size_list_to_set.
  - apply length_omap_filter. intros e [i Hi]%list_elem_of_lookup. apply lookup_take_Some in Hi as [He _]. split.
    + intros [key [Hk _]%row_key_Some]. by rewrite Hk.
    + intros Hs. destruct (le_kind e) as [| | | |id| | | | |] eqn:Hk; try done.
      destruct (rp_row _ _ _ _ Hrows _ _ _ He Hk) as (w & Hw & _). exists (w, id). by apply row_key_Some.
  - apply NoDup_omap. intros i j x y z Hx Hy [Hkx _]%row_key_Some [Hky _]%row_key_Some.
    apply lookup_take_Some in Hx as [Hx _], Hy as [Hy _]. by eapply (pl_slices _ _ _ Hpl).
Qed.

(** ** The cursor *)

Lemma slices_none l : Forall (λ e, is_slice (le_kind e) = false) l → slices_of l = [].
Proof.
  unfold slices_of. induction 1 as [|e l He Hl IH]; [done|]. by rewrite filter_cons_False by congruence.
Qed.

Lemma slices_all l : Forall (λ e, is_slice (le_kind e) = true) l → slices_of l = l.
Proof.
  unfold slices_of. induction 1 as [|e l He Hl IH]; [done|]. rewrite filter_cons_True by done. by rewrite IH.
Qed.

Lemma slices_take front data back k :
  Forall (λ e, is_slice (le_kind e) = false) front → Forall (λ e, is_slice (le_kind e) = true) data →
  Forall (λ e, is_slice (le_kind e) = false) back →
  length (slices_of (take k (front ++ data ++ back))) = Nat.min (k - length front) (length data).
Proof.
  intros Hf Hd Hb. rewrite !take_app. unfold slices_of. rewrite !filter_app, !length_app.
  fold (slices_of (take k front)) (slices_of (take (k - length front) data))
    (slices_of (take (k - length front - length data) back)).
  rewrite slices_none, slices_all, slices_none, length_take by by apply Forall_take. cbn. lia.
Qed.

Lemma slice_in_zone front data back p e :
  (front ++ data ++ back) !! p = Some e → is_slice (le_kind e) = true →
  Forall (λ e, is_slice (le_kind e) = false) front → Forall (λ e, is_slice (le_kind e) = false) back →
  (length front ≤ p < length front + length data)%nat.
Proof.
  intros Hp Hs Hf Hb. apply lookup_app_Some in Hp as [Hp|[Hp1 Hp]].
  { rewrite Forall_lookup in Hf. specialize (Hf _ _ Hp). congruence. }
  apply lookup_app_Some in Hp as [Hp%lookup_lt_Some|[Hp2 Hp]]; [lia|].
  rewrite Forall_lookup in Hb. specialize (Hb _ _ Hp). congruence.
Qed.

Lemma first_slice_position front data back :
  data ≠ [] → Forall (λ e, is_slice (le_kind e) = false) front →
  Forall (λ e, is_slice (le_kind e) = true) data →
  position (λ e, is_slice (le_kind e)) (front ++ data ++ back) = Some (length front).
Proof.
  intros Hd Hf Hs. induction Hf as [|e front He Hf IH].
  - destruct Hs as [|e data He Hs]; [done|]. cbn. by rewrite He.
  - cbn. by rewrite He, IH.
Qed.

Lemma slices_convex i j m e e' :
  planned_ → entries_ !! i = Some e → entries_ !! m = Some e' →
  is_slice (le_kind e) = true → is_slice (le_kind e') = true → (i ≤ j ≤ m)%nat →
  ∃ e'', entries_ !! j = Some e'' ∧ is_slice (le_kind e'') = true.
Proof.
  intros Hpl He He' Hs Hs' Hj. destruct (pl_zone _ _ _ Hpl) as (front & data & back & Hz & _ & Hfr & Hda & Hba).
  rewrite Hz in *. pose proof (slice_in_zone _ _ _ _ _ He Hs Hfr Hba).
  pose proof (slice_in_zone _ _ _ _ _ He' Hs' Hfr Hba).
  destruct (lookup_lt_is_Some_2 data (j - length front)) as [e'' Hd]; [lia|]. exists e''.
  rewrite lookup_app_r, lookup_app_l by lia. split; [done|].
  rewrite Forall_lookup in Hda. by eapply Hda.
Qed.

(** A session that was stopped: the rows say [k] entries, and what the medium
    holds of them is theirs. *)
Definition resumable (k : nat) (s : State) : Prop :=
  (k ≤ n)%nat ∧ good_ 0 k k (cat s) ∧
  ∀ i e f, (i < k)%nat → entries_ !! i = Some e → medium_of (tape s) !! i = Some f → entry_on e f.

Definition cursor_of (first_slice written : nat) : nat :=
  if bool_decide (written = 0)%nat then 0%nat else (first_slice + written)%nat.

Lemma cursor_good k c first data back :
  planned_ → entries_ = first ++ data ++ back →
  Forall (λ e, is_slice (le_kind e) = false) first → Forall (λ e, is_slice (le_kind e) = true) data →
  Forall (λ e, is_slice (le_kind e) = false) back →
  good_ 0 k k c →
  let cursor := cursor_of (length first) (length (slices_of (take k entries_))) in
  (cursor ≤ k)%nat ∧ good_ 0 cursor cursor c.
Proof.
  intros Hpl Hz Hf Hd Hb Hg cursor. unfold cursor, cursor_of. rewrite Hz, slices_take by done.
  set (m := Nat.min (k - length first) (length data)).
  assert ((if bool_decide (m = 0) then 0 else length first + m) ≤ k)%nat as Hk by (case_bool_decide; lia).
  split; [done|]. destruct Hg as (Hc & Hr & Hrows). split; [|split; [|done]].
  - intros w id r Hr' Hw Hst. destruct (rp_entry _ _ _ _ Hrows w id (mk_is_Some _ _ Hr') Hw) as (Hsw & i & e & He & Hkind).
    pose proof (rp_position _ _ _ _ Hrows _ _ _ _ _ He Hkind Hsw Hr') as Hpos.
    rewrite (pl_order _ _ _ Hpl _ _ He) in Hpos. specialize (Hc _ _ _ Hr' Hw Hst).
    rewrite Hz in He. apply slice_in_zone in He; [|by rewrite Hkind|done..]. subst m. case_bool_decide; lia.
  - intros i e id w r Hi. apply Hr. lia.
Qed.

(** ** The runs of a session *)

(** What a run leaves: ready, the tape is the plan up to its ending and the
    rows say so; interrupted, it can be resumed, or it ended for a refused write it did
    not get past, which is recorded. *)
Definition finished (o : Outcome) (s : State) : Prop :=
  match o with
  | Ready ending _ _ _ => ∃ k,
      Z.of_nat k = seal_position ending (Z.of_nat n) ∧ (k ≤ n)%nat ∧
      written_plan k (tape s) ∧ positioned (tape s) ∧ good_ 0 k k (cat s) ∧
      (ending ≠ Full → ∃ e, entries_ !! (k - 1)%nat = Some e ∧ is_slice (le_kind e) = true)
  | Interrupted r => (∃ k, resumable k s) ∨ for_refusal r = true ∧ refusal_recorded s
  | Aborted _ => True
  end.

Lemma ended_finished start post F o s :
  length F = start → Forall2 entry_on (take start entries_) F →
  ended layout write_ids slice_write_id 0 start post F o s → finished o s.
Proof.
  intros Hlen HF. destruct o as [ending w r first|reason|reason]; cbn; [| |done].
  - intros (k & Hk & Hs & Ht & Hg & He & _). exists k. split_and!; [done|lia|by eapply (on_tape_plan start); [lia|..]|by destruct Ht|done|].
    intros Hne. destruct ending; [done|]. by destruct He as (_ & _ & He).
  - intros [(k & ws & extra & Hk & Hws & Hfs & _ & Hg)|Hr]; [|by right]. left. exists k.
    split; [lia|]. split; [done|]. intros i e f Hi He Hf.
    assert (Forall2 entry_on (take k entries_) (F ++ ws)) as Hall.
    { rewrite <- (take_drop start (take k entries_)), take_take, Nat.min_l by lia. by apply Forall2_app. }
    assert (length (F ++ ws) = k) as Hl.
    { rewrite <- (Forall2_length _ _ _ Hall), length_take. lia. }
    destruct (files_prefix (tape s)) as [rest Hpre]. rewrite Hpre, Hfs, <- app_assoc, lookup_app_l in Hf by lia.
    eapply Forall2_lookup_lr; [exact Hall| |exact Hf]. by rewrite lookup_take_lt by lia.
Qed.

Lemma resumable_held k held t :
  (held ≤ k ≤ n)%nat → (held ≤ length (medium_of t))%nat →
  (∀ i e f, (i < k)%nat → entries_ !! i = Some e → medium_of t !! i = Some f → entry_on e f) →
  Forall2 entry_on (take held entries_) (take held (medium_of t)).
Proof.
  intros Hk Hl Hr. apply Forall2_same_length_lookup. rewrite !length_take. split; [lia|].
  intros i e f [He Hi]%lookup_take_Some [Hf _]%lookup_take_Some. eapply Hr; [|done..]. lia.
Qed.

(** A session whose ending is decided can be taken up again. *)
Lemma written_resumable k s :
  (k ≤ n)%nat → written_plan k (tape s) → good_ 0 k k (cat s) → resumable k s.
Proof.
  intros Hk Hw Hg. split; [done|]. split; [done|]. intros i e f Hi He Hf.
  pose proof (Forall2_length _ _ _ Hw) as Hl. rewrite length_take in Hl.
  destruct (files_prefix (tape s)) as [rest Hpre]. rewrite Hpre, lookup_app_l in Hf by lia.
  eapply Forall2_lookup_lr; [exact Hw| |exact Hf]. by rewrite lookup_take_lt.
Qed.

(** The resume's steps before its run of the loop. *)
Lemma resume_entries_from k post s :
  planned_ → resumable k s → iruns s (resume_entries layout write_ids slice_write_id post) finished no_fuel.
Proof.
  intros Hpl (Hk & Hg & Hf). destruct (pl_zone _ _ _ Hpl) as (front & data & back & Hz & Hne & Hfr & Hda & Hba).
  unfold resume_entries. apply iruns_bind. eapply iruns_mono; [apply count_written_spec| |done].
  intros m s1 (-> & [Ht1 _] & Hp1). rewrite (written_count k _ Hpl Hg).
  pose proof (cursor_good k _ front data back Hpl Hz Hfr Hda Hba Hg) as [Hcur Hgc].
  apply iruns_bind, iruns_result; rewrite Hz, first_slice_position by done; cbn [ok_or]; [|done].
  intros first [= <-]. rewrite <- Hz. fold (cursor_of (length front) (length (slices_of (take k entries_)))).
  set (cursor := cursor_of _ _) in *.
  assert (Z.of_nat cursor ≤ i32_max) as Hcb by (pose proof (pl_bound _ _ _ Hpl); lia). apply iruns_bind. unfold iruns at 1, at_most.
  destruct (reposition_at_most (Z.of_nat cursor) (tape s1)) as [[held|x] t] eqn:Ha; [|done].
  destruct (at_most_ok (Z.of_nat cursor) _ _ _ (conj (Zle_0_nat cursor) Hcb) Ha) as (Hheld & Hlen & Htake & Hpos). rewrite Ht1 in Hlen, Htake.
  set (s2 := with_tape t s1). set (h := Z.to_nat held) in *.
  assert (Z.of_nat h = held ∧ (h ≤ cursor)%nat) as [Hh Hhc] by (subst h; lia). clearbody h. cbv zeta.
  assert (Forall2 entry_on (take h entries_) (files_of t)) as HF.
  { rewrite Htake. by apply (resumable_held k); [lia|..]. }
  apply iruns_bind. eapply (iruns_mono s2 _ (λ _ s3, tape s3 = t ∧ good_ 0 h h (cat s3)) _ no_fuel); [| |done].
  { assert (good_ 0 cursor cursor (cat s2)) as Hg2 by by eapply good_rows_same; [|exact Hgc].
    case_bool_decide as Hb.
    - eapply iruns_mono; [apply demote_all_spec| |by intros ?? ([? ->] & _)]. intros _ s3 [[Ht3 _] Hd].
      split; [done|]. eapply (demoted_rows _ _ _ 0 cursor); [|done|lia|exact Hg2]. by rewrite Hh.
    - apply iruns_ret. split; [done|]. by replace h with cursor by lia. }
  intros _ s3 [Ht3 Hg3]. apply iruns_bind. eapply iruns_mono; [apply keeps_in_progress| |by intros ?? []].
  intros _ s4 [[Ht4 _] Hp4]. eapply iruns_mono.
  - apply (run_entries_from 0); [done|lia| |by rewrite Ht4, Ht3|by eapply good_rows_same; [|exact Hg3]].
    rewrite Ht4, Ht3, Htake, length_take. lia.
  - intros o s5 Ho. eapply ended_finished; [|exact HF|]; cycle 1.
    + by rewrite Ht4, Ht3 in Ho.
    + rewrite Htake, length_take. lia.
  - done.
Qed.

(** ** The seal *)

(** Entries at consecutive positions. *)
Definition placed_from (off : nat) (l : list LayoutEntry) : Prop :=
  ∀ i e, l !! i = Some e → le_position e = Z.of_nat (off + i).

Lemma placed_tail off e l : placed_from off (e :: l) → le_position e = Z.of_nat off ∧ placed_from (S off) l.
Proof.
  intros H. split; [rewrite (H 0%nat e eq_refl); lia|].
  intros i e' Hi. rewrite (H (S i) e' Hi). lia.
Qed.

Lemma placed_filter l : ∀ off from until,
  placed_from off l →
  filter (λ e, Z.of_nat from ≤ le_position e < Z.of_nat until) l = drop (from - off) (take (until - off) l).
Proof.
  induction l as [|e l IH]; intros off from until Hp; [by rewrite take_nil, drop_nil|].
  apply placed_tail in Hp as [He Hp]. specialize (IH (S off) from until Hp).
  destruct (decide (until ≤ off)%nat) as [Hu|Hu].
  - rewrite filter_cons_False by lia. rewrite IH.
    replace (until - off)%nat with 0%nat by lia. replace (until - S off)%nat with 0%nat by lia.
    by rewrite !take_0, !drop_nil.
  - replace (until - off)%nat with (S (until - S off)) by lia. cbn [take].
    destruct (decide (from ≤ off)%nat) as [Hf|Hf].
    + rewrite filter_cons_True by lia. rewrite IH. replace (from - off)%nat with 0%nat by lia.
      by replace (from - S off)%nat with 0%nat by lia.
    + rewrite filter_cons_False by lia. rewrite IH. by replace (from - off)%nat with (S (from - S off)) by lia.
Qed.

Lemma placed_sorted l : ∀ off, placed_from off l → StronglySorted Session.position_le l.
Proof.
  induction l as [|e l IH]; intros off Hp; [constructor|].
  apply placed_tail in Hp as [He Hp]. constructor; [by eapply IH|].
  apply Forall_lookup. intros i e' Hi. unfold Session.position_le. rewrite (Hp _ _ Hi). lia.
Qed.

#[local] Existing Instance Session.position_le_dec.
#[local] Instance position_le_total : Total Session.position_le.
Proof. intros a b. unfold Session.position_le. lia. Qed.
#[local] Instance position_le_trans : Transitive Session.position_le.
Proof. intros a b c. unfold Session.position_le. lia. Qed.

Lemma merge_sort_placed off l : placed_from off l → merge_sort Session.position_le l = l.
Proof.
  intros Hp. eapply (StronglySorted_unique_strong Session.position_le).
  - intros x y Hx Hy Hxy Hyx. rewrite (merge_sort_Permutation Session.position_le l) in Hx.
    apply list_elem_of_lookup in Hx as [i Hi], Hy as [j Hj]. unfold Session.position_le in *.
    pose proof (Hp _ _ Hi). pose proof (Hp _ _ Hj). assert (i = j) as -> by lia. by simplify_eq.
  - by apply (StronglySorted_merge_sort _).
  - by eapply placed_sorted.
  - apply merge_sort_Permutation.
Qed.

Lemma refusal_kept s s' : events (cat s) `prefix_of` events (cat s') → refusal_recorded s → refusal_recorded s'.
Proof. intros [l Hl] (p & due & Hin). exists p, due. rewrite Hl. apply elem_of_app. by left. Qed.

(** Of an error at the seal: a refusal is recorded. *)
Definition refused (e : SessionError) : Prop :=
  match e with SealFailed (LbpRefusal _) | SealNotRetried _ _ _ => True | _ => False end.
Definition seal_error (e : SessionError) (s : State) : Prop :=
  e ≠ RunFuel ∧ (refused e → refusal_recorded s).

Lemma execute_seal_spec marker s :
  positioned (tape s) →
  iruns s (execute_seal marker)
    (λ r s', cat s' = cat s ∧
       match r with
       | Ok _ => ∃ f, holds f marker ∧ medium_of (tape s') = files_of (tape s) ++ [f]
       | Err _ => refused_at (tape s) (tape s')
       end) (λ _ _, False).
Proof.
  intros Hpos. unfold iruns, execute_seal.
  destruct (execute _ _ _ _) as [[[c|x] left] t] eqn:He; (split; [done|]).
  - apply execute_ok in He as (p & f & Hp & Hc & Hf & Ht & Hm & _); [|done].
    exists f. split; [|by rewrite <- Ht, <- Hm].
    assert (content (unread marker []) = marker) as Hmk.
    { destruct marker; [done|]. cbn. by rewrite app_nil_r. }
    rewrite Hmk in Hc. assert (content left = []) as Hl.
    { apply (f_equal length) in Hc. rewrite length_app in Hc. apply length_zero_iff_nil. lia. }
    rewrite Hl, app_nil_r in Hc. by rewrite Hc.
  - apply execute_err in He as (m & Ht & Hm & _); [|done]. split; [by exists m|].
    destruct Hm as [Hm|Hm]; [by left|right]. cbn. by rewrite Ht, firstn_all2.
Qed.

Lemma record_refusal_spec p due s :
  iruns s (record_lbp_refusal p due) (λ _ s', later s s' ∧ refusal_recorded s') seal_error.
Proof.
  apply iruns_db; [|by intros]. intros c Hp He _. split; [split; [done|]; cbn; rewrite He; by apply prefix_app_r|].
  exists p, due. cbn. apply elem_of_app. right. by apply list_elem_of_singleton.
Qed.

Lemma update_all_spec ids id a s :
  iruns s (update_all ids id a) (λ _ s', later s s') seal_error.
Proof.
  revert s. induction ids as [|w ids IH]; intros s; [apply iruns_ret, later_refl|].
  cbn [update_all]. apply iruns_bind, iruns_db; [|by intros]. intros c Hp He _.
  eapply iruns_mono; [apply IH| |done]. intros [] s' Hl. eapply later_trans; [|exact Hl].
  split; [done|]. cbn. by rewrite He.
Qed.

Lemma resend_entry_spec e s :
  positioned (tape s) →
  iruns s (resend_entry layout write_ids e)
    (λ _ s', events (cat s) `prefix_of` events (cat s') ∧ positioned (tape s') ∧
       ∃ f, entry_on e f ∧ files_of (tape s') = files_of (tape s) ++ [f]) seal_error.
Proof.
  intros Hpos. unfold resend_entry. apply iruns_bind, iruns_result; cycle 1.
  { intros x Hx. unfold entry_path in Hx. destruct (le_source e); by simplify_eq. }
  intros path _. apply iruns_bind, iruns_result; cycle 1.
  { intros x Hx. unfold ok_or in Hx. destruct (le_size_bytes e); by simplify_eq. }
  intros size Hsz%ok_or_ok. apply iruns_bind.
  eapply iruns_mono; [by apply write_entry_spec| |done]. intros [v asked] s1 [Hc Hv]. cbn [fst] in Hv.
  destruct v as [a|a|x]; [| done |].
  - destruct Hv as (_ & f & Hf & Ht & _ & Hpos1).
    assert (∀ s', later s1 s' → events (cat s) `prefix_of` events (cat s') ∧ positioned (tape s') ∧
              ∃ f, entry_on e f ∧ files_of (tape s') = files_of (tape s) ++ [f]) as Hdone.
    { intros s' [Hts He]. rewrite Hc in He. split; [done|]. split; [by rewrite Hts|]. exists f. by rewrite Hts. }
    destruct (le_kind e); try (apply iruns_ret, Hdone, later_refl).
    eapply iruns_mono; [apply update_all_spec|intros ?; apply Hdone|done].
  - apply iruns_bind. destruct (is_refusal (Unwritten x)) eqn:Hr.
    + eapply iruns_mono; [apply record_refusal_spec| |done]. intros _ s' [_ Href]. by split.
    + apply iruns_ret. split; [done|]. by destruct x.
Qed.

Lemma resend_all_spec es : ∀ s,
  positioned (tape s) →
  iruns s (resend_all layout write_ids es)
    (λ _ s', events (cat s) `prefix_of` events (cat s') ∧ positioned (tape s') ∧
       ∃ fs, Forall2 entry_on es fs ∧ files_of (tape s') = files_of (tape s) ++ fs) seal_error.
Proof.
  induction es as [|e es IH]; intros s Hpos.
  { apply iruns_ret. split; [done|]. split; [done|]. exists []. by rewrite app_nil_r. }
  cbn [resend_all]. apply iruns_bind. eapply iruns_mono; [by apply resend_entry_spec| |done].
  intros _ s1 (He & Hpos1 & f & Hf & Ht). eapply iruns_mono; [by apply IH| |done].
  intros _ s2 (He2 & Hpos2 & fs & Hfs & Ht2). split; [by etrans|]. split; [done|]. exists (f :: fs). split; [by constructor|].
  by rewrite Ht2, Ht, <- app_assoc.
Qed.

Definition sealed_plan (k : nat) (marker : list Z) (t : store) : Prop :=
  ∃ fs f, medium_of t = fs ++ [f] ∧ Forall2 entry_on (take k entries_) fs ∧ holds f marker.

(** From a file of the plan on, again, and then the seal. *)
Lemma resend_plan k from s F :
  planned_ → (from ≤ k ≤ n)%nat → Forall2 entry_on (take from entries_) F → files_of (tape s) = F → positioned (tape s) →
  iruns s (resend_entries layout write_ids (Z.of_nat from) (Z.of_nat k))
    (λ _ s', events (cat s) `prefix_of` events (cat s') ∧ positioned (tape s') ∧ written_plan k (tape s'))
    seal_error.
Proof.
  intros Hpl Hk HF Ht Hpos. unfold resend_entries.
  assert (placed_from 0 entries_) as Hp by (intros i e Hi; by rewrite (pl_order _ _ _ Hpl _ _ Hi)).
  rewrite (placed_filter _ 0 from k Hp), !Nat.sub_0_r.
  assert (placed_from from (drop from (take k entries_))) as Hd.
  { intros i e Hi. rewrite lookup_drop in Hi. apply lookup_take_Some in Hi as [Hi _]. by apply (pl_order _ _ _ Hpl). }
  rewrite (merge_sort_placed _ _ Hd). eapply iruns_mono; [by apply resend_all_spec| |done].
  intros _ s' (He & Hpos' & fs & Hfs & Ht'). split; [done|]. split; [done|]. unfold written_plan. rewrite Ht', Ht.
  rewrite <- (take_drop from (take k entries_)), take_take, Nat.min_l by lia. by apply Forall2_app.
Qed.

(** ** The ending after a recorded warning *)

Lemma find_position (l : list LayoutEntry) : ∀ off p,
  placed_from off l →
  List.find (λ e, bool_decide (le_position e = p)) l = if bool_decide (Z.of_nat off ≤ p) then l !! (Z.to_nat p - off)%nat else None.
Proof.
  induction l as [|e l IH]; intros off p Hp; [by case_bool_decide|].
  apply placed_tail in Hp as [He Hp]. cbn [List.find]. rewrite (IH _ _ Hp). case_bool_decide as Hep.
  - rewrite bool_decide_eq_true_2 by lia. by replace (Z.to_nat p - off)%nat with 0%nat by lia.
  - case_bool_decide; case_bool_decide; try lia; try done.
    by replace (Z.to_nat p - off)%nat with (S (Z.to_nat p - S off)) by lia.
Qed.

(** The slice at a position, of the whole Layout: one of its content's. *)
Lemma slice_at p :
  planned_ →
  match List.find (λ e, bool_decide (le_position e = p)) (entries layout) with
  | Some e => is_slice (le_kind e)
  | None => false
  end = true ↔ 0 ≤ p ∧ ∃ e, entries_ !! Z.to_nat p = Some e ∧ is_slice (le_kind e) = true.
Proof.
  intros Hpl. destruct (pl_last _ _ _ Hpl) as (seal & He & Hk & Hp). rewrite He, find_app.
  rewrite (find_position _ 0) by (intros i e Hi; by rewrite (pl_order _ _ _ Hpl _ _ Hi)).
  rewrite Nat.sub_0_r. cbn [List.find]. case_bool_decide as Hp0.
  - destruct (entries_ !! Z.to_nat p) as [e|]; [naive_solver lia|].
    split; [|naive_solver]. case_bool_decide; [by rewrite Hk|done].
  - split; [|lia]. case_bool_decide; [by rewrite Hk|done].
Qed.

(** What is on the tape when the recorded warning ends it. *)
Definition ends_at_warning (o : Outcome) (s : State) : Prop :=
  match o with
  | Ready ending w r first => w = true ∧ r = false ∧ finished o s ∧
      first = seal_position ending (Z.of_nat n)
  | Interrupted _ => False
  | Aborted _ => written_plan (length (files_of (tape s))) (tape s) ∧
      ∀ e, e ∈ take (length (files_of (tape s))) entries_ → is_slice (le_kind e) = false
  end.

(** ** The session as a state machine *)

(** Before the first run: the head at the start of the tape, nothing claimed. *)
Definition fresh (s : State) : Prop :=
  files_of (tape s) = [] ∧ positioned (tape s) ∧ claims_below write_ids 0 (cat s) ∧ rows_ (cat s).

(** The states an unsealed session gets to: its first run and its resumes,
    each interrupted, refused writes sent again on the way or not, but none for
    a refusal it did not get past (the drive may then hold a file of a claimed
    row that is not whole, where the catalog or the drive's position did not
    let the rows be demoted); the medium losing files it had accepted (a power loss, a
    bus reset), or ending in files of no entry after all that the rows claim
    (a file cut short and closed); another process, with its own open of the
    store, signals and reads. *)
Inductive session : State → Prop :=
| session_fresh s : fresh s → session s
| session_run s post r s' :
    fresh s → run_entries layout write_ids slice_write_id 0 post s = (Ok (Interrupted r), s') →
    for_refusal r = false → session s'
| session_resume s post r s' :
    session s → resume_entries layout write_ids slice_write_id post s = (Ok (Interrupted r), s') →
    for_refusal r = false → session s'
| session_lost s t m : session s → medium_of t = take m (medium_of (tape s)) → session (with_tape t s)
| session_torn s t torn :
    session s → claims_below write_ids (length (medium_of (tape s))) (cat s) →
    medium_of t = medium_of (tape s) ++ torn → session (with_tape t s)
| session_process s o g : session s → session (mkState (cat s) (tape s) o g).

Lemma fresh_run post s :
  planned_ → fresh s → iruns s (run_entries layout write_ids slice_write_id 0 post) finished no_fuel.
Proof.
  intros Hpl (Ht & Hpos & Hc & Hr). eapply iruns_mono; [apply (run_entries_from 0)| |done].
  - done.
  - lia.
  - by rewrite Ht.
  - done.
  - split; [done|]. split; [|done]. intros i e id w r Hi. lia.
  - intros o s' Ho. eapply (ended_finished 0); [..|exact Ho]; [by rewrite Ht|]. rewrite Ht, take_0. constructor.
Qed.

Lemma session_resumable s : planned_ → session s → ∃ k, resumable k s.
Proof.
  intros Hpl Hs.
  assert (∀ A (m : io A) s o s' Q E, iruns s m Q E → m s = (Ok o, s') → Q o s') as Hrun.
  { intros A m s0 o s1 Q E Hm Heq. unfold iruns in Hm. by rewrite Heq in Hm. }
  induction Hs as [s Hf|s post r s' Hf Hr Hn|s post r s' Hs [k IH] Hr Hn|s t m Hs (k & Hk & Hg & Hf) Ht|
      s t torn Hs (k & Hk & Hg & Hf) Hc Ht|s o g Hs (k & IH)].
  - destruct Hf as (Ht & _ & Hc & Hr). exists 0%nat. split; [lia|]. split.
    + split; [done|]. split; [|done]. intros i e id w r Hi. lia.
    + intros i e f Hi. lia.
  - destruct (Hrun _ _ _ _ _ _ _ (fresh_run post s Hpl Hf) Hr) as [|[Hrf _]]; [done|congruence].
  - destruct (Hrun _ _ _ _ _ _ _ (resume_entries_from k post s Hpl IH) Hr) as [|[Hrf _]]; [done|congruence].
  - exists k. split; [done|]. split; [done|]. intros i e f Hi He Hf'. cbn in Hf'. rewrite Ht in Hf'.
    apply lookup_take_Some in Hf' as [Hf' _]. by eapply Hf.
  - destruct Hg as (Hg1 & Hg2 & Hg3). exists (Nat.min k (length (medium_of (tape s)))). split; [lia|]. split.
    + split; [|split; [|done]].
      * intros w id r Hr Hw Hst. specialize (Hg1 _ _ _ Hr Hw Hst). specialize (Hc _ _ _ Hr Hw Hst). lia.
      * intros i e id w r Hi. apply Hg2. lia.
    + intros i e f Hi He Hf'. cbn in Hf'. rewrite Ht, lookup_app_l in Hf' by lia. eapply Hf; [|done..]. lia.
  - by exists k.
Qed.

(** C15: the first run of the write loop. From the start of the tape it ends
    (its fuel suffices), and when it is ready to seal the tape holds exactly
    the plan's files up to the ending, in order, each with the bytes whose
    hash and length the Layout records, every row up to there is recorded
    written with that hash and none past it, and a short ending follows a
    slice; when it is interrupted it can be resumed, unless it ended for a
    refused write it did not get past, which is then on record. *)
Theorem run_entries_sound post s :
  planned_ → fresh s →
  iruns s (run_entries layout write_ids slice_write_id 0 post) finished (λ e _, e ≠ RunFuel).
Proof. exact (fresh_run post s). Qed.

(** C16: the resume, after any number of interrupted runs and resumes, losses
    of accepted files and new processes: it ends, and it leaves what a first
    run leaves. The files it does not send again are the plan's. The runs
    before it may have met refused writes and sent them again; a run that
    ended for a refusal it did not get past (a second one, or one it could not
    send again) is not among them, as [session] says. *)
Theorem resume_entries_sound post s :
  planned_ → session s →
  iruns s (resume_entries layout write_ids slice_write_id post) finished (λ e _, e ≠ RunFuel).
Proof.
  intros Hpl Hs. destruct (session_resumable s Hpl Hs) as [k Hk].
  by apply (resume_entries_from k).
Qed.

(** C17: the seal. On a tape that holds the plan up to its ending, the seal's
    write with its one retry ends with the same files and the marker after
    them, whatever the drive refused of the files and took back; when it
    fails for a refusal, the refusal is on record. *)
Theorem seal_with_retry_spec k marker ending retried run_first s :
  planned_ → Z.of_nat k = seal_position ending (Z.of_nat n) → (k ≤ n)%nat → 0 ≤ run_first →
  written_plan k (tape s) → positioned (tape s) →
  iruns s (seal_with_retry layout write_ids marker ending retried run_first)
    (λ _ s', sealed_plan k marker (tape s')) seal_error.
Proof.
  intros Hpl Hk Hn Hrf Hw Hpos. unfold seal_with_retry. apply iruns_bind.
  eapply iruns_mono; [by apply execute_seal_spec| |done].
  intros [[]|x] s1 [_ Hs1].
  { destruct Hs1 as (f & Hf & Ht). apply iruns_ret. by exists (files_of (tape s)), f. }
  destruct Hs1 as [[m Hm] Hmed]. destruct x as [os|os|os|?|? ?|? ?|? ?| | |]; try done.
  rewrite (pl_seal _ _ _ Hpl). apply iruns_bind, iruns_result; [|done]. intros seal [= <-]. cbv zeta. rewrite <- Hk.
  apply iruns_bind. eapply iruns_mono; [apply record_refusal_spec| |done]. intros _ s2 [[Ht2 _] Href].
  destruct retried; [by split|]. apply iruns_bind. eapply iruns_mono; [apply retry_spec; [done|pose proof (pl_bound _ _ _ Hpl); lia|]| |done].
  { rewrite Ht2. destruct Hmed as [Hmed|Hmed]; [by left|right]. rewrite Hmed.
    pose proof (Forall2_length _ _ _ Hw) as Hwl. rewrite length_take in Hwl. lia. }
  intros [from|why] s3 (He3 & Hr); [|split; [done|]; intros _; by eapply refusal_kept].
  destruct Hr as (Hfr & Hlen & Htake & Hpos3 & _). rewrite Ht2, Hm in Hlen, Htake.
  assert (∃ b, Z.of_nat b = from) as [b <-] by (exists (Z.to_nat from); lia). rewrite Nat2Z.id in *.
  pose proof (Forall2_length _ _ _ Hw) as Hwl. rewrite length_take in Hwl. rewrite length_take in Hlen.
  apply iruns_bind. eapply (iruns_mono s3); [eapply (resend_plan k b); [done|lia| |exact Htake|done]| |done].
  { rewrite take_take, Nat.min_l by lia. replace (take b entries_) with (take b (take k entries_)).
    - by apply Forall2_take.
    - by rewrite take_take, Nat.min_l by lia. }
  intros _ s4 (He4 & Hpos4 & Hw4). apply iruns_bind. eapply iruns_mono; [by apply execute_seal_spec| |done].
  intros [[]|x] s5 [Hc5 Hs5].
  { destruct Hs5 as (f & Hf & Ht). apply iruns_ret. by exists (files_of (tape s4)), f. }
  destruct x as [os'|os'|os'|?|? ?|? ?|? ?| | |]; try done.
  apply iruns_bind. eapply iruns_mono; [apply record_refusal_spec| |done]. intros _ s6 [_ Href6].
  apply iruns_bind. eapply iruns_mono; [apply locate_spec| |done]. intros l s7 Hc7.
  apply iruns_bind.
  assert (refusal_recorded s7) as Href7 by (unfold refusal_recorded; by rewrite Hc7).
  destruct l as [l|]; [|apply iruns_ret; by split].
  eapply iruns_mono; [apply demote_all_spec| |by intros ?? ([? ->] & _)]. intros _ s8 [[_ He8] _].
  split; [done|]. intros _. by eapply refusal_kept.
Qed.

(** The ending a recorded early warning decides. The resume writes no
    further entry: the tape keeps the plan's files it holds, up to the slice
    the warning was recorded in, and the seal goes right after them, with the
    rows past them demoted; a tape that holds no slice of the plan aborts, and
    nothing else does. *)
Theorem seal_after_recorded_warning_spec k s :
  planned_ → resumable k s →
  (∃ e, entries_ !! (k - 1)%nat = Some e ∧ is_slice (le_kind e) = true ∧ (0 < k)%nat) →
  iruns s (seal_after_recorded_warning layout write_ids (Z.of_nat k - 1)) ends_at_warning (λ e _, e ≠ RunFuel).
Proof.
  intros Hpl (Hk & Hg & Hf) (ek & Hek & Hsk & Hk0). unfold seal_after_recorded_warning.
  rewrite (pl_seal _ _ _ Hpl). apply iruns_bind, iruns_result; [|done]. intros seal [= <-].
  pose proof (pl_bound _ _ _ Hpl) as Hmax. assert (i32_max ≤ u32_max) by done.
  assert (0 ≤ Z.of_nat k ≤ i32_max) as Hkb by lia.
  replace (Z.min (Z.min (Z.of_nat k - 1 + 1) u32_max) (Z.of_nat n)) with (Z.of_nat k) by lia.
  apply iruns_bind. unfold iruns at 1, at_most.
  destruct (reposition_at_most (Z.of_nat k) (tape s)) as [[held|x] t] eqn:Ha; [|done].
  destruct (at_most_ok (Z.of_nat k) _ _ _ Hkb Ha) as (Hheld & Hlen & Htake & Hpos).
  assert (∃ h, Z.of_nat h = held) as [h <-] by (exists (Z.to_nat held); lia). rewrite Nat2Z.id in *.
  set (s1 := with_tape t s). cbv zeta.
  assert (Forall2 entry_on (take h entries_) (files_of t)) as HF.
  { rewrite Htake. by apply (resumable_held k); [lia|..]. }
  assert (length (files_of t) = h) as Hh by (rewrite Htake, length_take; lia).
  pose proof (slice_at (Z.of_nat h - 1) Hpl) as Hat.
  destruct (bool_decide (Z.of_nat h = 0) || _) eqn:Hb; cycle 1.
  - apply orb_false_iff in Hb as [_ Hb%negb_false_iff]. apply Hat in Hb as (Hh0 & e & He & Hs).
    set (ending := if bool_decide _ then Full else _).
    assert (seal_position ending (Z.of_nat n) = Z.of_nat h) as Hend.
    { subst ending. case_bool_decide; cbn; lia. }
    apply iruns_bind. eapply (iruns_mono s1 _ (λ _ s2, tape s2 = t ∧ good_ 0 h h (cat s2)) _ no_fuel); [| |done].
    { case_bool_decide as Hlt.
      - eapply iruns_mono; [apply demote_all_spec| |by intros ?? ([? ->] & _)]. intros _ s2 [[Ht2 _] Hd].
        split; [done|]. by eapply (demoted_rows _ _ _ 0 k); [..|exact Hg]; [|done|lia].
      - apply iruns_ret. split; [done|]. by replace h with k by lia. }
    intros _ s2 [Ht2 Hg2]. apply iruns_bind. eapply iruns_mono; [apply keeps_in_progress| |by intros ?? []].
    intros _ s3 [[Ht3 _] Hp3]. apply iruns_ret. split; [done|]. split; [done|]. rewrite Hend. split; [|done].
    exists h. split; [done|]. split; [lia|]. rewrite Ht3, Ht2. split; [exact HF|]. split; [done|].
    split; [by eapply good_rows_same; [|exact Hg2]|]. intros _. exists e. split; [|done].
    by replace (h - 1)%nat with (Z.to_nat (Z.of_nat h - 1)) by lia.
  - apply iruns_bind. eapply iruns_mono; [apply keeps_mark_all| |by intros ?? []].
    intros _ s2 [[Ht2 _] _]. apply iruns_ret. cbn [ends_at_warning]. rewrite Ht2. cbn [tape with_tape s1].
    rewrite Hh. split; [exact HF|]. intros e [i Hi]%list_elem_of_lookup. apply lookup_take_Some in Hi as [Hi Hih].
    destruct (is_slice (le_kind e)) eqn:Hse; [|done]. exfalso.
    destruct (slices_convex i (h - 1) (k - 1) e ek Hpl Hi Hek Hse Hsk ltac:(lia)) as (eh & Heh & Hsh).
    apply orb_true_iff in Hb as [Hb%bool_decide_eq_true|Hb%negb_true_iff]; [lia|].
    rewrite (proj2 Hat) in Hb; [done|]. split; [lia|]. exists eh.
    by replace (Z.to_nat (Z.of_nat h - 1)) with (h - 1)%nat by lia.
Qed.
End outcomes.
