(* ===== verification/TapeStore.v ===== *)
(** * The tape store: [TapeStore] of [src/store.rs]

    The store over a tape drive: where it believes the head is, the least
    motion that brings it to a file, and the writes, reads and repositions of
    the [Store] seam. The drive is an interface, [TapeOps], with the laws a
    tape keeps. *)

From S2P Require Import Prelude LayoutModel Slice TapeWrite Pipeline Session.
Local Open Scope Z_scope.
Local Open Scope rust_scope.

(** ** The drive *)

(** The driver's own count ([MTIOCGET]), [-1] where it has lost track. *)
Record TapePosition : Type := mkTapePosition {
  file_number : Z;
  block_number : Z;
  at_eod : bool;
}.

(** [TapeOps]: what the store asks of a drive. *)
Class TapeOps : Type := {
  ops : Type;
  ops_rewind : ops → result string () * ops;
  ops_forward_space_file : Z → ops → result string () * ops;
  ops_position : ops → result string TapePosition * ops;
  ops_write_stream : list ReadEvent → Z → bool → ops → result TapeError Z * list ReadEvent * ops;
  ops_read_file_streaming : (list Z → bool) → ops → result TapeError (list Z * ReadEnd) * ops;
  ops_read_file_head : Z → ops → result TapeError (list Z * ReadEnd) * ops;
  ops_erase_long : ops → result string () * ops;
  ops_early_warning : ops → option EarlyWarning;
  ops_protection : ops → Protection;
  ops_logical_position : ops → result string (option Z) * ops;
}.

(** ** The cursor *)

Inductive FileCursor : Type :=
| Unknown
| AtStart (n : Z)
| Within (n : Z).

#[export] Instance FileCursor_eq_dec : EqDecision FileCursor.
Proof. solve_decision. Defined.

Inductive Move : Type :=
| Stay
| Forward (k : Z)
| FromBot (k : Z).

(** [FileCursor::plan]. *)
Definition plan_move (c : FileCursor) (target : Z) : Move :=
  match c with
  | AtStart n =>
      if bool_decide (n = target) then Stay
      else if bool_decide (n < target) then Forward (target - n)
      else FromBot target
  | Within n => if bool_decide (n < target) then Forward (target - n) else FromBot target
  | Unknown => FromBot target
  end.

(** [FileCursor::agrees_with]; [n as i32]. *)
Definition agrees_with (c : FileCursor) (st : TapePosition) : bool :=
  match c with
  | Unknown => false
  | AtStart n => bool_decide (file_number st = as_i32 n) && bool_decide (block_number st = 0)
  | Within n => bool_decide (file_number st = as_i32 n)
  end.

Definition after_read (position : Z) (read : result TapeError (list Z * ReadEnd)) : FileCursor :=
  match read with
  | Ok (l, Filemark) => if bool_decide (l = []) then Unknown else AtStart (Z.min (position + 1) u32_max)
  | Ok (_, Stopped) => Within position
  | _ => Unknown
  end.

(** ** The store *)

Record Motions : Type := mkMotions {
  rewinds : Z;
  spaces : Z;
  filemarks : Z;
  status_reads : Z;
}.

Definition commands (m : Motions) : Z := rewinds m + spaces m + filemarks m.

Section store.
Context `{!TapeOps}.

Record TapeStore : Type := mkTapeStore {
  dev : ops;
  counts : Motions;
  cursor : FileCursor;
}.

Definition motions (s : TapeStore) : Motions := counts s.

(** A store at the beginning of the tape, over a drive rewound there. *)
Definition at_bot (d : ops) : TapeStore := mkTapeStore d (mkMotions 0 0 0 0) (AtStart 0).

Definition set_cursor (c : FileCursor) (s : TapeStore) : TapeStore := mkTapeStore (dev s) (counts s) c.

(** A command of the drive, counted ([CountedOps]). *)
Definition counted {A} (count : Motions → Motions) (f : ops → A * ops) (s : TapeStore) : A * TapeStore :=
  let '(r, d) := f (dev s) in (r, mkTapeStore d (count (counts s)) (cursor s)).

Definition rewind : TapeStore → result string () * TapeStore :=
  counted (λ m, mkMotions (rewinds m +w 1) (spaces m) (filemarks m) (status_reads m)) ops_rewind.
Definition forward_space_file (k : Z) : TapeStore → result string () * TapeStore :=
  counted (λ m, mkMotions (rewinds m) (spaces m +w 1) (filemarks m) (status_reads m))
    (ops_forward_space_file (as_i32 k)).
Definition status (s : TapeStore) : result string TapePosition * TapeStore :=
  counted (λ m, mkMotions (rewinds m) (spaces m) (filemarks m) (status_reads m +w 1)) ops_position s.

(** A filemark is counted when the write succeeded. *)
Definition write_stream (src : list ReadEvent) (len : Z) (sync : bool) (s : TapeStore)
    : result TapeError Z * list ReadEvent * TapeStore :=
  let '(r, rest, d) := ops_write_stream src len sync (dev s) in
  let m := counts s in
  (r, rest, mkTapeStore d
     (match r with
      | Ok _ => mkMotions (rewinds m) (spaces m) (filemarks m +w 1) (status_reads m)
      | Err _ => m
      end) (cursor s)).

(** [trusted_cursor]: the cursor, when the driver's count agrees. *)
Definition trusted_cursor (s : TapeStore) : FileCursor * TapeStore :=
  if bool_decide (cursor s = Unknown) then (Unknown, s)
  else
    let '(r, s) := status s in
    match r with
    | Ok st => if agrees_with (cursor s) st then (cursor s, s) else (Unknown, s)
    | Err _ => (Unknown, s)
    end.

(** Rewind, then space [k] filemarks, none of them when [k] is 0. *)
Definition from_bot (k : Z) (s : TapeStore) : result string () * TapeStore :=
  match rewind s with
  | (Err e, s) => (Err e, s)
  | (Ok _, s) => if bool_decide (0 < k) then forward_space_file k s else (Ok (), s)
  end.

Definition locate (target : Z) (s : TapeStore) : result string () * TapeStore :=
  let '(from, s) := trusted_cursor s in
  let s := set_cursor Unknown s in
  let '(r, s) :=
    match plan_move from target with
    | Stay => (Ok (), s)
    | Forward k => forward_space_file k s
    | FromBot k => from_bot k s
    end in
  match r with
  | Ok _ => (Ok (), set_cursor (AtStart target) s)
  | Err e => (Err e, s)
  end.

Definition tape_execute (src : list ReadEvent) (len : Z) (sync : bool) (s : TapeStore)
    : result TapeError Z * list ReadEvent * TapeStore :=
  write_stream src len sync (set_cursor Unknown s).

Definition tape_logical_position (s : TapeStore) : result string (option Z) * TapeStore :=
  let '(r, d) := ops_logical_position (dev s) in (r, mkTapeStore d (counts s) (cursor s)).

(** The error of a read: the motion's, or the drive's. *)
Inductive ReadFailure : Type :=
| MotionFailed (m : string)
| ReadFailed (e : TapeError).

Definition tape_read (f : ops → result TapeError (list Z * ReadEnd) * ops) (position : Z) (s : TapeStore)
    : result ReadFailure (list Z) * TapeStore :=
  match locate position s with
  | (Err e, s) => (Err (MotionFailed e), s)
  | (Ok _, s) =>
      let '(r, d) := f (dev s) in
      (match r with Ok (l, _) => Ok l | Err e => Err (ReadFailed e) end,
       mkTapeStore d (counts s) (after_read position r))
  end.

(** The bytes a read gives its sink, and what the sink takes. *)
Definition read_file (takes : list Z → bool) : Z → TapeStore → result ReadFailure (list Z) * TapeStore :=
  tape_read (ops_read_file_streaming takes).
Definition tape_read_head (position max_bytes : Z) : TapeStore → result ReadFailure (list Z) * TapeStore :=
  tape_read (ops_read_file_head max_bytes) position.

Definition tape_reposition (file_index : Z) (s : TapeStore) : result string () * TapeStore :=
  match from_bot file_index (set_cursor Unknown s) with
  | (Err e, s) => (Err e, s)
  | (Ok _, s) => (Ok (), set_cursor (AtStart file_index) s)
  end.

(** [u32::try_from] of the driver's count. *)
Definition as_file_count (n : Z) : option Z := if bool_decide (0 ≤ n ≤ u32_max) then Some n else None.

Definition tape_reposition_at_most (file_index : Z) (s : TapeStore) : result string Z * TapeStore :=
  match tape_reposition file_index s with
  | (Ok _, s) => (Ok file_index, s)
  | (Err original, s) =>
      match status (set_cursor Unknown s) with
      | (Err e, s) => (Err e, s)
      | (Ok st, s) =>
          match as_file_count (file_number st) with
          | Some m =>
              if at_eod st && bool_decide (m < file_index) then
                match tape_reposition m s with
                | (Ok _, s) => (Ok m, s)
                | (Err e, s) => (Err e, s)
                end
              else (Err original, s)
          | None => (Err original, s)
          end
      end
  end.

Definition blank_at_bot (s : TapeStore) : result string bool * TapeStore :=
  match rewind (set_cursor Unknown s) with
  | (Err e, s) => (Err e, s)
  | (Ok _, s) =>
      match forward_space_file 1 s with
      | (Ok _, s) => (Ok false, s)
      | (Err _, s) =>
          let '(r, s) := status s in
          (match r with
           | Ok st => Ok (at_eod st && bool_decide (file_number st = 0))
           | Err e => Err e
           end, s)
      end
  end.

Definition eod_at_or_before (position : Z) (s : TapeStore) : result string bool * TapeStore :=
  let '(r, s) := status s in
  (match r with
   | Ok st => Ok (at_eod st &&
       match as_file_count (file_number st) with Some m => bool_decide (m ≤ position) | None => false end)
   | Err e => Err e
   end, s).

Definition files_on_medium (s : TapeStore) : result string (option Z) * TapeStore :=
  let '(r, s) := status s in
  (match r with
   | Ok st => Ok (if at_eod st then as_file_count (file_number st) else None)
   | Err e => Err e
   end, s).

Inductive EraseMode : Type := EraseShort | EraseLong.

(** The errors of an erase are the motion's or the filemark's. *)
Definition erase (mode : EraseMode) (s : TapeStore) : result ReadFailure () * TapeStore :=
  let s := set_cursor Unknown s in
  match mode with
  | EraseShort =>
      match tape_reposition 0 s with
      | (Err e, s) => (Err (MotionFailed e), s)
      | (Ok _, s) =>
          let '(r, _, s) := tape_execute [] 0 true s in
          match r with
          | Err e => (Err (ReadFailed e), s)
          | Ok _ => (Ok (), set_cursor Unknown s)
          end
      end
  | EraseLong =>
      match rewind s with
      | (Err e, s) => (Err (MotionFailed e), s)
      | (Ok _, s) =>
          let '(r, d) := ops_erase_long (dev s) in
          let s := mkTapeStore d (counts s) (cursor s) in
          match r with
          | Err e => (Err (MotionFailed e), s)
          | Ok _ =>
              match rewind s with
              | (Err e, s) => (Err (MotionFailed e), s)
              | (Ok _, s) => (Ok (), set_cursor Unknown s)
              end
          end
      end
  end.

(** The seam of the session, implemented. *)
#[export] Instance tape_store : Store := {|
  store := TapeStore;
  execute := tape_execute;
  store_warning s := ops_early_warning (dev s);
  protection s := ops_protection (dev s);
  logical_position := tape_logical_position;
  reposition_for_resume := tape_reposition;
  reposition_at_most := tape_reposition_at_most;
|}.
End store.
