(* ===== verification/TapeStoreSound.v ===== *)
(** * What the tape store keeps

    The laws of a tape drive, and what [TapeStore] makes of them: a motion
    ends at the start of the file it was asked for whatever the cursor
    believed, a read gives that file, and the store keeps the session's
    contract ([StoreLaws]). *)

From S2P Require Import Prelude LayoutModel Slice SliceHeader Chunks TapeWrite TapeSpec Pipeline Session.
From S2P Require Import SessionSound TapeStore.
Local Open Scope Z_scope.
Local Open Scope rust_scope.

(** ** The drive's laws

    [tape_files] is the whole files on the tape, [head_file] the filemarks
    before the head, [at_start] that the head is just past one (or at the
    beginning). A motion moves no data and, when it succeeds, the head where
    it was asked. The driver's count, when it is one, is true, and so is its
    end of data. A write at the start of a file ends the recorded data with
    it; one refused may lose files written before it. A read of a whole file
    that does not fail gives all of it, for the end of the medium is past the
    last filemark. *)
Class TapeLaws `{To : TapeOps} : Type := {
  tape_files : ops → list (list Z);
  head_file : ops → nat;
  at_start : ops → Prop;
  file_holds : list Z → list Z → Prop;
  file_reads : list Z → list Z → Prop;
  head_le d : (head_file d ≤ length (tape_files d))%nat;
  rewind_law d r d' : ops_rewind d = (r, d') →
    tape_files d' = tape_files d ∧ (r = Ok () → head_file d' = 0%nat ∧ at_start d');
  space_law k d r d' : 0 < k → ops_forward_space_file k d = (r, d') →
    tape_files d' = tape_files d ∧
    (r = Ok () → head_file d' = (head_file d + Z.to_nat k)%nat ∧ at_start d');
  position_law d r d' : ops_position d = (r, d') →
    tape_files d' = tape_files d ∧ head_file d' = head_file d ∧ (at_start d → at_start d') ∧
    ∀ st, r = Ok st → 0 ≤ file_number st →
      head_file d = Z.to_nat (file_number st) ∧ (block_number st = 0 → at_start d') ∧
      (at_eod st = true → head_file d = length (tape_files d));
  logical_law d r d' : ops_logical_position d = (r, d') →
    tape_files d' = tape_files d ∧ head_file d' = head_file d;
  write_ok_law src len sync d c rest d' :
    at_start d → ops_write_stream src len sync d = (Ok c, rest, d') →
    ∃ payload file, Z.of_nat (length payload) = len ∧ content src = payload ++ content rest ∧
      file_holds file payload ∧ tape_files d' = take (head_file d) (tape_files d) ++ [file] ∧
      head_file d' = S (head_file d) ∧ at_start d';
  write_err_law src len sync d e rest d' :
    at_start d → ops_write_stream src len sync d = (Err e, rest, d') →
    ∃ n, take (head_file d') (tape_files d') = take n (take (head_file d) (tape_files d)) ∧
      (tape_files d' = take (head_file d') (tape_files d') ∨ (head_file d ≤ n)%nat) ∧
      ((∀ os, e ≠ LbpRefusal os) → (head_file d ≤ n)%nat);
  read_law takes d r d' :
    at_start d → ops_read_file_streaming takes d = (r, d') →
    tape_files d' = tape_files d ∧
    ∀ l e, r = Ok (l, e) → match tape_files d !! head_file d with
      | Some f => file_reads f l ∧ (l = [] ∨ takes l = true) ∧
          (e = Filemark → l ≠ [] → head_file d' = S (head_file d) ∧ at_start d')
      | None => l = []
      end;
  read_head_law n d r d' :
    at_start d → ops_read_file_head n d = (r, d') →
    tape_files d' = tape_files d ∧
    ∀ l e, r = Ok (l, e) → match tape_files d !! head_file d with
      | Some f => ∃ rest, file_reads f (l ++ rest) ∧ Z.of_nat (length l) ≤ Z.max n 0 ∧
          (Z.of_nat (length l) < n → rest = [])
      | None => l = []
      end;
}.

Section sound.
Context `{To : !TapeOps, Tl : !TapeLaws}.

(** ** The motions *)

(** The head is at the start of tape file [n], and the tape is as it was. *)
Definition moved_to (n : Z) (s s' : TapeStore) : Prop :=
  head_file (dev s') = Z.to_nat n ∧ at_start (dev s') ∧ tape_files (dev s') = tape_files (dev s).

Lemma rewind_moves s r s' : TapeStore.rewind s = (r, s') →
  tape_files (dev s') = tape_files (dev s) ∧ (r = Ok () → moved_to 0 s s').
Proof.
  unfold TapeStore.rewind, counted. destruct (ops_rewind (dev s)) as [r' d] eqn:E. intros [= <- <-].
  apply rewind_law in E as [Ht Hr]. split; [done|]. intros ->. by destruct (Hr eq_refl).
Qed.

Lemma space_moves k s r s' : 0 < k ≤ i32_max → TapeStore.forward_space_file k s = (r, s') →
  tape_files (dev s') = tape_files (dev s) ∧
  (r = Ok () → head_file (dev s') = (head_file (dev s) + Z.to_nat k)%nat ∧ at_start (dev s')).
Proof.
  intros Hk. unfold TapeStore.forward_space_file, counted. rewrite as_i32_small by lia.
  destruct (ops_forward_space_file k (dev s)) as [r' d] eqn:E. intros [= <- <-].
  apply space_law in E; [done|lia].
Qed.

Lemma status_moves s r s' : status s = (r, s') →
  tape_files (dev s') = tape_files (dev s) ∧ head_file (dev s') = head_file (dev s) ∧ cursor s' = cursor s ∧
  ∀ st, r = Ok st → 0 ≤ file_number st →
    head_file (dev s) = Z.to_nat (file_number st) ∧ (block_number st = 0 → at_start (dev s')) ∧
    (at_eod st = true → head_file (dev s) = length (tape_files (dev s))).
Proof.
  unfold status, counted. destruct (ops_position (dev s)) as [r' d] eqn:E. intros [= <- <-].
  apply position_law in E as (H1 & H2 & _ & H3). done.
Qed.

Lemma from_bot_moves k s r s' : 0 ≤ k ≤ i32_max → from_bot k s = (r, s') →
  tape_files (dev s') = tape_files (dev s) ∧ (r = Ok () → moved_to k s s').
Proof.
  intros Hk. unfold from_bot. destruct (TapeStore.rewind s) as [[[]|e] s1] eqn:E1;
    apply rewind_moves in E1 as [Ht1 Hm1]; [|by intros [= <- <-]].
  destruct (Hm1 eq_refl) as (Hh & Hs & _). case_bool_decide as Hk0.
  - intros E2. apply space_moves in E2 as [Ht2 Hm2]; [|lia]. split; [congruence|].
    intros ->. destruct (Hm2 eq_refl) as [Hh2 Hs2]. split; [|split; [done|congruence]]. by rewrite Hh2, Hh.
  - intros [= <- <-]. split; [done|]. intros _. by replace k with 0 by lia.
Qed.

(** A cursor is a tape's file number. *)
Definition cursor_in_range (c : FileCursor) : Prop :=
  match c with Unknown => True | AtStart n | Within n => 0 ≤ n ≤ i32_max end.

Lemma agrees_head c st : cursor_in_range c → agrees_with c st = true →
  match c with
  | Unknown => False
  | AtStart n => file_number st = n ∧ block_number st = 0
  | Within n => file_number st = n
  end.
Proof.
  destruct c as [|n|n]; cbn; [done|..]; intros Hn; rewrite as_i32_small by (unfold i32_max in *; lia);
    rewrite ?andb_true_iff, !bool_decide_eq_true; done.
Qed.

Lemma trusted_cursor_spec s c s' : cursor_in_range (cursor s) → trusted_cursor s = (c, s') →
  tape_files (dev s') = tape_files (dev s) ∧ head_file (dev s') = head_file (dev s) ∧ cursor_in_range c ∧
  match c with
  | Unknown => True
  | AtStart n => head_file (dev s') = Z.to_nat n ∧ at_start (dev s')
  | Within n => head_file (dev s') = Z.to_nat n
  end.
Proof.
  intros Hc. unfold trusted_cursor. case_bool_decide as Hu; [by intros [= <- <-]|].
  destruct (status s) as [r s1] eqn:E. apply status_moves in E as (Ht & Hh & Hcu & Hst).
  destruct r as [st|e]; [|by intros [= <- <-]]. rewrite Hcu in *.
  destruct (agrees_with (cursor s) st) eqn:Ha; [|by intros [= <- <-]].
  intros [= <- <-]. split; [done|]. split; [done|]. split; [done|].
  apply agrees_head in Ha; [|done]. rewrite Hh. destruct (cursor s) as [|n|n]; [done|..]; cbn in Hc.
  - destruct Ha as [Hf Hb]. destruct (Hst st eq_refl) as (Hn & Hs & _); [lia|]. rewrite <- Hf. auto.
  - destruct (Hst st eq_refl) as (Hn & _); [lia|]. by rewrite <- Ha.
Qed.

Lemma locate_moves target s r s' :
  0 ≤ target ≤ i32_max → cursor_in_range (cursor s) → locate target s = (r, s') →
  tape_files (dev s') = tape_files (dev s) ∧
  match r with
  | Ok _ => moved_to target s s' ∧ cursor s' = AtStart target
  | Err _ => cursor s' = Unknown
  end.
Proof.
  intros Ht Hc. unfold locate. destruct (trusted_cursor s) as [from s1] eqn:E1.
  apply trusted_cursor_spec in E1 as (Hf1 & Hh1 & Hr1 & Hm1); [|done].
  set (s2 := set_cursor Unknown s1).
  assert (∀ m s3, (match m with
       | Stay => (Ok (), s2)
       | Forward k => TapeStore.forward_space_file k s2
       | FromBot k => from_bot k s2
       end) = s3 → cursor s3.2 = Unknown) as Hcur.
  { intros m s3 <-. assert (∀ A c (f : ops → A * ops) s, cursor (counted c f s).2 = cursor s) as Hk.
    { intros A c f s0. unfold counted. by destruct (f (dev s0)). }
    destruct m; [done|apply Hk|]. unfold from_bot. pose proof (Hk _ (λ m, mkMotions (rewinds m +w 1) (spaces m) (filemarks m) (status_reads m)) ops_rewind s2) as Hrw.
    fold (TapeStore.rewind s2) in Hrw.
    destruct (TapeStore.rewind s2) as [[[]|e] s4]; cbn in Hrw |- *; [|done]. case_bool_decide; [|done].
    unfold TapeStore.forward_space_file. by rewrite Hk. }
  destruct (match plan_move from target with Stay => _ | Forward k => _ | FromBot k => _ end) as [r3 s3] eqn:E3.
  pose proof (Hcur _ _ E3) as Hc3. cbn in Hc3.
  assert (tape_files (dev s3) = tape_files (dev s2) ∧ (r3 = Ok () → moved_to target s2 s3)) as [Ht3 Hm3].
  { unfold plan_move in E3. destruct from as [|n|n].
    - by apply from_bot_moves in E3.
    - case_bool_decide as Hn; [injection E3 as <- <-; split; [done|]; intros _; subst n; by destruct Hm1|].
      case_bool_decide as Hlt; [|by apply from_bot_moves in E3]. cbn in Hr1.
      apply space_moves in E3 as [Ht3 Hm3]; [|lia]. split; [done|]. intros ->.
      destruct (Hm3 eq_refl) as [Hh Hs]. destruct Hm1 as [Hm1 _]. split; [|done].
      rewrite Hh. change (dev s2) with (dev s1). rewrite Hm1. lia.
    - case_bool_decide as Hlt; [|by apply from_bot_moves in E3]. cbn in Hr1.
      apply space_moves in E3 as [Ht3 Hm3]; [|lia]. split; [done|]. intros ->.
      destruct (Hm3 eq_refl) as [Hh Hs]. split; [|done].
      rewrite Hh. change (dev s2) with (dev s1). rewrite Hm1. lia. }
  change (dev s2) with (dev s1) in *. destruct r3 as [[]|e]; intros [= <- <-]; cbn.
  - split; [congruence|]. split; [|done]. destruct (Hm3 eq_refl) as (Hh & Hs & _).
    split; [done|]. split; [done|]. cbn. congruence.
  - split; [congruence|done].
Qed.

(** ** The reads *)

Lemma after_read_range position r : 0 ≤ position < i32_max → cursor_in_range (after_read position r).
Proof.
  intros Hp. unfold i32_max in *. destruct r as [[l [| |]]|e]; cbn; [case_bool_decide; cbn| | |]; unfold u32_max, i32_max; try done; lia.
Qed.

Lemma after_read_next position r :
  0 ≤ position < i32_max → (∃ n, after_read position r = AtStart n) → ∃ l, r = Ok (l, Filemark) ∧ l ≠ [].
Proof. intros Hp [n Hn]. destruct r as [[l [| |]]|e]; cbn in Hn; try done. case_bool_decide; [done|by eauto]. Qed.

(** The bytes a tape gives of the file at [p]: none past the last. *)
Definition gives (tape : list (list Z)) (p : nat) (l : list Z) : Prop :=
  match tape !! p with Some f => file_reads f l | None => l = [] end.

(** The read of a file, from its motion. *)
Lemma read_file_moves takes position s r s' :
  0 ≤ position < i32_max → cursor_in_range (cursor s) → read_file takes position s = (r, s') →
  tape_files (dev s') = tape_files (dev s) ∧ cursor_in_range (cursor s') ∧
  (∀ l, r = Ok l → gives (tape_files (dev s)) (Z.to_nat position) l ∧ (l = [] ∨ takes l = true)) ∧
  ∀ n, cursor s' = AtStart n → (∃ e, r = Err (MotionFailed e)) ∨ n = position + 1 ∧ moved_to n s s' ∧ ∃ l, r = Ok l ∧ l ≠ [].
Proof.
  intros Hp Hc. unfold read_file, tape_read. destruct (locate position s) as [rl s1] eqn:El.
  apply locate_moves in El as [Ht Hl]; [|lia|done].
  destruct rl as [[]|e]; [|intros [= <- <-]; rewrite Hl; split_and!; [done..| |by left; eexists]; by intros l [=]].
  destruct Hl as [(Hh & Hs & _) Hcu]. destruct (ops_read_file_streaming takes (dev s1)) as [r2 d] eqn:Er.
  apply read_law in Er as [Ht2 Hr]; [|done]. rewrite Hh, Ht in Hr. intros [= <- <-]. cbn. split; [congruence|].
  split; [by apply after_read_range|]. split.
  { intros l Hl. destruct r2 as [[l2 e]|]; [|done]. injection Hl as ->. specialize (Hr l e eq_refl). unfold gives.
    destruct (tape_files (dev s) !! Z.to_nat position); [by destruct Hr as (? & ? & _)|]. split; [done|by left]. }
  intros n Hn. right. destruct (after_read_next _ _ Hp (ex_intro _ n Hn)) as (l & -> & Hl).
  specialize (Hr l Filemark eq_refl). destruct (tape_files (dev s) !! Z.to_nat position); [|done].
  destruct Hr as (_ & _ & Hr). destruct (Hr eq_refl Hl) as [Hh2 Hs2]. cbn in Hn.
  rewrite bool_decide_eq_false_2 in Hn by done. injection Hn as <-. unfold i32_max, u32_max in *.
  rewrite Z.min_l by lia. split; [done|]. split; [|by exists l].
  split; [|split; [done|cbn; congruence]]. cbn. rewrite Hh2. lia.
Qed.

(** ** The session's contract *)

Definition before_head (s : TapeStore) : list (list Z) := take (head_file (dev s)) (tape_files (dev s)).

Lemma moved_before n s s' : 0 ≤ n → moved_to n s s' →
  (Z.to_nat n ≤ length (tape_files (dev s)))%nat ∧ before_head s' = take (Z.to_nat n) (tape_files (dev s)) ∧
  at_start (dev s').
Proof.
  intros Hn (Hh & Hs & Ht). pose proof (head_le (dev s')) as Hle. rewrite Hh, Ht in Hle.
  unfold before_head. by rewrite Hh, Ht.
Qed.

Lemma reposition_moves k s r s' : 0 ≤ k ≤ i32_max → tape_reposition k s = (r, s') →
  tape_files (dev s') = tape_files (dev s) ∧ (r = Ok () → moved_to k s s').
Proof.
  intros Hk. unfold tape_reposition. destruct (from_bot k (set_cursor Unknown s)) as [[[]|e] s1] eqn:E;
    apply from_bot_moves in E as [Ht Hm]; [|done| |done]; intros [= <- <-]; [|done].
  split; [done|]. intros _. by apply Hm.
Qed.

Lemma reposition_at_most_moves k m s s' :
  0 ≤ k ≤ i32_max → tape_reposition_at_most k s = (Ok m, s') → 0 ≤ m ≤ k ∧ moved_to m s s'.
Proof.
  intros Hk. unfold tape_reposition_at_most. destruct (tape_reposition k s) as [[[]|e] s1] eqn:E1;
    apply reposition_moves in E1 as [Ht1 Hm1]; [|done| |done]; [intros [= <- <-]; split; [lia|by apply Hm1]|].
  destruct (status (set_cursor Unknown s1)) as [[st|e2] s2] eqn:E2; [|done].
  apply status_moves in E2 as (Ht2 & _). unfold as_file_count. case_bool_decide as Hn; [|done].
  destruct (at_eod st && _) eqn:Hb; [|done]. apply andb_true_iff in Hb as [_ Hlt%bool_decide_eq_true].
  destruct (tape_reposition (file_number st) s2) as [[[]|e3] s3] eqn:E3; [|done].
  apply reposition_moves in E3 as [Ht3 Hm3]; [|lia]. intros [= <- <-]. split; [lia|].
  destruct (Hm3 eq_refl) as (Hh & Hs & Ht). split; [done|]. split; [done|].
  cbn in Ht2. congruence.
Qed.

#[export] Instance tape_store_laws : @StoreLaws tape_store.
Proof.
  refine (@Build_StoreLaws tape_store before_head (λ s : TapeStore, tape_files (dev s))
    (λ s : TapeStore, at_start (dev s)) file_holds _ _ _ _ _ _).
  - intros s. unfold before_head. apply prefix_take.
  - intros reads len sync s c left s' Hp. cbn. unfold tape_execute, write_stream.
    destruct (ops_write_stream reads len sync (dev (set_cursor Unknown s))) as [[r rest] d] eqn:E.
    intros [= -> <- <-]. apply write_ok_law in E as (p & f & Hl & Hc & Hf & Ht & Hh & Hs); [|done].
    exists p, f. split; [done|]. split; [done|]. split; [done|]. unfold before_head. cbn in *. rewrite Hh, Ht.
    pose proof (head_le (dev s)) as Hle. rewrite firstn_all2; [done|].
    rewrite length_app, length_take. cbn. lia.
  - intros reads len sync s e left s' Hp. cbn. unfold tape_execute, write_stream.
    destruct (ops_write_stream reads len sync (dev (set_cursor Unknown s))) as [[r rest] d] eqn:E.
    intros [= -> <- <-]. apply write_err_law in E as (n & Ht & Hm & Hr); [|done]. cbn in *.
    assert (length (before_head s) = head_file (dev s)) as Hl.
    { unfold before_head. rewrite length_take. pose proof (head_le (dev s)). lia. }
    exists n. rewrite Hl. split; [exact Ht|]. by split.
  - intros s. cbn. unfold tape_logical_position.
    destruct (ops_logical_position (dev (s : TapeStore))) as [r d] eqn:E. apply logical_law in E as [Ht Hh].
    unfold before_head. cbn. by rewrite Ht, Hh.
  - intros k s s' Hk Hr. apply reposition_moves in Hr as [_ Hm]; [|done]. by apply moved_before; [lia|apply Hm].
  - intros k m s s' Hk Hr. apply reposition_at_most_moves in Hr as [Hm Hmv]; [|done]. split; [done|].
    by apply moved_before; [lia|].
Defined.

(** ** A forward pass *)

(** The reads of consecutive files, each crossing its filemark. *)
Fixpoint read_run (p : Z) (n : nat) (s : TapeStore) : option (list (list Z) * TapeStore) :=
  match n with
  | O => Some ([], s)
  | S n =>
      match read_file takes_all p s with
      | (Ok l, s') =>
          if bool_decide (cursor s' = AtStart (p + 1))
          then '(ls, s'') ← read_run (p + 1) n s'; Some (l :: ls, s'')
          else None
      | _ => None
      end
  end.

(** A driver that has not lost its count, at the start of a file. *)
Definition counting (d : ops) : Prop :=
  at_start d → ∃ eod d', ops_position d = (Ok (mkTapePosition (Z.of_nat (head_file d)) 0 eod), d').

Lemma read_run_moves : ∀ n p s ls s',
  0 ≤ p → p + Z.of_nat n ≤ i32_max → (∀ d, counting d) →
  cursor s = AtStart p → head_file (dev s) = Z.to_nat p → at_start (dev s) →
  read_run p n s = Some (ls, s') →
  rewinds (counts s') = rewinds (counts s) ∧ spaces (counts s') = spaces (counts s) ∧
  Forall2 file_reads (take n (drop (Z.to_nat p) (tape_files (dev s)))) ls ∧
  tape_files (dev s') = tape_files (dev s).
Proof.
  induction n as [|n IH]; intros p s ls s' Hp Hn Hcount Hc Hh Hs H; cbn [read_run] in H.
  { injection H as <- <-. split_and!; done || constructor. }
  destruct (read_file takes_all p s) as [[l|e] s1] eqn:E; [|done]. case_bool_decide as Hc1; [|done].
  destruct (read_run (p + 1) n s1) as [[ls1 s2]|] eqn:E2; [|done]. injection H as <- <-.
  pose proof E as E'. apply read_file_moves in E' as (Ht1 & _ & Hg & Hm); [|lia|rewrite Hc; cbn; lia].
  destruct (Hm _ Hc1) as [[e He]|(_ & (Hh1 & Hs1 & _) & l' & [= <-] & Hl)]; [done|].
  destruct (Hg l eq_refl) as [Hfr _]. unfold gives in Hfr.
  destruct (tape_files (dev s) !! Z.to_nat p) as [f|] eqn:Hf; [|done].
  assert (rewinds (counts s1) = rewinds (counts s) ∧ spaces (counts s1) = spaces (counts s)) as [Hrw Hsp].
  { unfold read_file, tape_read, locate, trusted_cursor, status, counted in E. rewrite Hc in E.
    destruct (Hcount (dev s) Hs) as (eod & d' & Hpos). rewrite bool_decide_eq_false_2, Hpos in E by done.
    cbn in E. unfold agrees_with in E. rewrite as_i32_small in E by (unfold i32_max in *; lia). cbn in E.
    rewrite Hh, Z2Nat.id, !bool_decide_eq_true_2 in E by (done || lia). cbn in E.
    rewrite bool_decide_eq_true_2 in E by done. cbn in E.
    destruct (ops_read_file_streaming takes_all d') as [r d2]. injection E as _ <-. done. }
  apply IH in E2 as (Hrw2 & Hsp2 & Hall & Ht2); [|lia|lia|done|done|done|done].
  split; [congruence|]. split; [congruence|]. split; [|congruence].
  rewrite Ht1 in Hall. rewrite (drop_S _ f) by done. cbn [take]. constructor; [done|].
  by replace (S (Z.to_nat p)) with (Z.to_nat (p + 1)) by lia.
Qed.

(** A read finds its file whatever the store believed of the head. When
    it does not fail the bytes are those of the tape file it was asked for, or
    none past the last one, and its sink took them; the cursor it leaves is
    right, or one the next read does not trust. The tape is as it was. *)
Theorem read_file_spec takes position s r s' :
  0 ≤ position < i32_max → cursor_in_range (cursor s) → read_file takes position s = (r, s') →
  tape_files (dev s') = tape_files (dev s) ∧ cursor_in_range (cursor s') ∧
  ∀ l, r = Ok l →
    gives (tape_files (dev s)) (Z.to_nat position) l ∧ (l = [] ∨ takes l = true) ∧
    ∀ n, cursor s' = AtStart n → n = position + 1 ∧ head_file (dev s') = Z.to_nat n ∧ l ≠ [].
Proof.
  intros Hp Hc H. apply read_file_moves in H as (Ht & Hr & Hg & Hm); [|done..].
  split; [done|]. split; [done|]. intros l ->. destruct (Hg l eq_refl) as [? ?]. split; [done|]. split; [done|].
  intros n Hn. destruct (Hm n Hn) as [[e He]|(-> & (Hh & _) & l' & [= <-] & ?)]; done.
Qed.

(** A pass over consecutive files moves the tape only by reading it: no
    rewind, no space, each file the next on the tape. *)
Theorem read_run_spec n p s ls s' :
  0 ≤ p → p + Z.of_nat n ≤ i32_max → (∀ d, counting d) →
  cursor s = AtStart p → head_file (dev s) = Z.to_nat p → at_start (dev s) →
  read_run p n s = Some (ls, s') →
  rewinds (motions s') = rewinds (motions s) ∧ spaces (motions s') = spaces (motions s) ∧
  Forall2 file_reads (take n (drop (Z.to_nat p) (tape_files (dev s)))) ls.
Proof. intros. destruct (read_run_moves n p s ls s') as (? & ? & ? & _); done. Qed.
End sound.
