(* ===== verification/DriveModel.v ===== *)
(** * A drive that keeps the laws

    The device's own write path ([TapeWrite.write_stream]) over a tape that
    is its files and a head: the kernel's answers are a list, and a refused
    write may lose files it had accepted, as a list says. It keeps
    [TapeLaws], so everything the session promises of a store holds of it. *)

From S2P Require Import Prelude LayoutModel Slice SliceHeader Chunks Lbp TapeWrite TapeSpec Pipeline Session.
From S2P Require Import TapeStore TapeStoreSound.
Local Open Scope Z_scope.
Local Open Scope rust_scope.

Record Drive : Type := mkDrive {
  dr_files : list (list Z);
  dr_head : nat;
  dr_start : bool;                      (* just past a filemark, or at the beginning *)
  dr_answers : list WriteAnswer;
  dr_ioctls : list (option OsError);    (* of the writes' filemarks *)
  dr_warned : EarlyWarningState;
  dr_losses : list nat;                 (* the files left after each refused write *)
}.

Section drive.
Context (bs : Z) (checked : bool).

Definition head_of (d : Drive) : nat := Nat.min (dr_head d) (length (dr_files d)).
Definition move_to (h : nat) (d : Drive) : Drive :=
  mkDrive (dr_files d) h true (dr_answers d) (dr_ioctls d) (dr_warned d) (dr_losses d).

Definition device_of (d : Drive) : Device :=
  mkDevice bs checked checked checked (wire_len bs checked) (dr_ioctls d)
    (mkWriteState (dr_answers d) (mkMedium (take (head_of d) (dr_files d)) []) (dr_warned d)).

(** What the write asks: a length, bytes, and room in the counters. *)
Definition writable (src : list ReadEvent) (len : Z) (d : Drive) : Prop :=
  0 < bs ∧ 0 ≤ len ∧ len + bs ≤ u64_max ∧
  has_room bs checked (state (device_of d)) (Z.to_nat (div_ceil len bs)) ∧
  Forall is_byte (content src).
#[export] Instance writable_dec src len d : Decision (writable src len d).
Proof. unfold writable, has_room, is_byte. apply _. Defined.

Definition drive_write (src : list ReadEvent) (len : Z) (sync : bool) (d : Drive)
    : result TapeError Z * list ReadEvent * Drive :=
  if decide (writable src len d) then
    let '(r, rest, d') := TapeWrite.write_stream src len (device_of d) in
    let s := state d' in
    let on files h start := mkDrive files h start (answers s) (ioctls d') (warned s) (dr_losses d) in
    match r with
    | Ok c => (Ok c, rest, on (files (medium s)) (S (head_of d)) true)
    | Err (LbpRefusal os) =>
        let left := Nat.min (default (head_of d) (head (dr_losses d))) (head_of d) in
        (Err (LbpRefusal os), rest,
         mkDrive (take left (dr_files d)) left false (answers s) (ioctls d') (warned s) (drop 1 (dr_losses d)))
    | Err e =>
        if decide (open_file (medium s) = []) then (Err e, rest, on (dr_files d) (head_of d) true)
        else (Err e, rest, on (take (head_of d) (dr_files d)) (head_of d) false)
    end
  else (Err (TapeIo EIO), src, d).

(** A file, read back. *)
Definition decode (takes : list Z → bool) (f : list Z) : result TapeError (list Z * ReadEnd) :=
  (read_file_streaming takes (Block <$> chop (length f) (Z.to_nat (wire_len bs checked)) f)
     (device_of (mkDrive [] 0 true [] [] (mkWarningState 0 None) []))).1.

Definition drive_read (takes : list Z → bool) (d : Drive) : result TapeError (list Z * ReadEnd) * Drive :=
  match dr_files d !! head_of d with
  | Some f => (decode takes f, move_to (S (head_of d)) d)
  | None => (Err (TapeIo EIO), d)
  end.

Definition drive_read_head (n : Z) (d : Drive) : result TapeError (list Z * ReadEnd) * Drive :=
  match dr_files d !! head_of d with
  | Some f =>
      match decode takes_all f with
      | Ok (l, e) => (Ok (take (Z.to_nat n) l, if bool_decide (n < Z.of_nat (length l)) then Stopped else e),
                      mkDrive (dr_files d) (head_of d) false (dr_answers d) (dr_ioctls d) (dr_warned d) (dr_losses d))
      | Err e => (Err e, d)
      end
  | None => (Err (TapeIo EIO), d)
  end.

(** The blocks and filemarks before the head. *)
Definition drive_lba (d : Drive) : Z :=
  sumZ ((λ f, Z.of_nat (length f) / wire_len bs checked + 1) <$> take (head_of d) (dr_files d)).

#[export] Instance drive_ops : TapeOps := {|
  ops := Drive;
  ops_rewind d := (Ok (), move_to 0 d);
  ops_forward_space_file k d :=
    if bool_decide (head_of d + Z.to_nat k ≤ length (dr_files d))%nat
    then (Ok (), move_to (head_of d + Z.to_nat k) d)
    else (Err "Input/output error"%string, move_to (length (dr_files d)) d);
  ops_position d :=
    (Ok (mkTapePosition (Z.of_nat (head_of d)) (if dr_start d then 0 else 1)
           (bool_decide (head_of d = length (dr_files d)))), d);
  ops_write_stream := drive_write;
  ops_read_file_streaming := drive_read;
  ops_read_file_head := drive_read_head;
  ops_erase_long d :=
    (Ok (), mkDrive [] 0 true (dr_answers d) (dr_ioctls d) (dr_warned d) (dr_losses d));
  ops_early_warning d := warning (dr_warned d);
  ops_protection _ := if checked then Lbp true else NotApplicable;
  ops_logical_position d := (Ok (Some (drive_lba d)), d);
|}.

(** ** The laws *)

Definition drive_holds (f p : list Z) : Prop := ∃ w, sent bs checked p w ∧ f = mjoin w.

Lemma head_of_le d : (head_of d ≤ length (dr_files d))%nat.
Proof. unfold head_of. lia. Qed.

Lemma take_take_head d : take (head_of d) (take (head_of d) (dr_files d)) = take (head_of d) (dr_files d).
Proof. by rewrite take_take, Nat.min_id. Qed.

Lemma drive_write_ok src len sync d c rest d' :
  drive_write src len sync d = (Ok c, rest, d') →
  ∃ payload file, Z.of_nat (length payload) = len ∧ content src = payload ++ content rest ∧
    drive_holds file payload ∧ dr_files d' = take (head_of d) (dr_files d) ++ [file] ∧
    head_of d' = S (head_of d) ∧ dr_start d' = true.
Proof.
  unfold drive_write. case_decide as Hw; [|done]. destruct Hw as (Hbs & H0 & Hl & Hroom & Hb).
  destruct (TapeWrite.write_stream src len (device_of d)) as [[r rest'] dv] eqn:E.
  apply (write_stream_result bs checked Hbs) in E as [_ Hr]; [|done..].
  destruct r as [c'|[]]; [|repeat case_decide; done..]. intros [= <- <- <-].
  destruct Hr as (-> & payload & w & Hp & Hsrc & Hs & Hn & Hm). exists payload, (mjoin w).
  rewrite Hm. split; [done|]. split; [done|]. split; [by exists w|]. split; [done|]. split; [|done].
  change (Nat.min (S (head_of d)) (length (take (head_of d) (dr_files d) ++ [[] ++ mjoin w])) = S (head_of d)).
  rewrite length_app, length_take. pose proof (head_of_le d). cbn [length]. lia.
Qed.

Lemma drive_write_err src len sync d e rest d' :
  dr_start d = true → drive_write src len sync d = (Err e, rest, d') →
  ∃ n, take (head_of d') (dr_files d') = take n (take (head_of d) (dr_files d)) ∧
    (dr_files d' = take (head_of d') (dr_files d') ∨ (head_of d ≤ n)%nat) ∧
    ((∀ os, e ≠ LbpRefusal os) → (head_of d ≤ n)%nat).
Proof.
  intros _. unfold drive_write. case_decide as Hw; cycle 1.
  { intros [= <- <- <-]. exists (head_of d). rewrite take_take_head. auto. }
  destruct (TapeWrite.write_stream src len (device_of d)) as [[r rest'] dv]. pose proof (head_of_le d).
  assert (∀ files h start ans io warned losses (keep := mkDrive files h start ans io warned losses),
    files = dr_files d ∧ h = head_of d ∨ files = take (head_of d) (dr_files d) ∧ h = head_of d →
    take (head_of keep) (dr_files keep) = take (head_of d) (take (head_of d) (dr_files d)) ∧
    (dr_files keep = take (head_of keep) (dr_files keep) ∨ (head_of d ≤ head_of d)%nat) ∧
    ((∀ os, e ≠ LbpRefusal os) → (head_of d ≤ head_of d)%nat)) as Hkeep.
  { intros files h start ans io warned losses keep Hk. split; [|split; [by right|done]].
    rewrite take_take_head. assert (head_of keep = head_of d) as ->.
    { unfold head_of at 1. unfold keep. cbn [dr_head dr_files].
      destruct Hk as [[-> ->]|[-> ->]]; rewrite ?length_take; lia. }
    unfold keep. cbn [dr_files]. destruct Hk as [[-> _]|[-> _]]; [done|apply take_take_head]. }
  destruct r as [c|x]; [done|].
  destruct x as [os|os|os|?|? ?|? ?|? ?| | |]; cbn [fst snd].
  3: { intros [= <- <- <-]. set (left := Nat.min _ _). exists left.
    assert (left ≤ head_of d)%nat by (subst left; lia).
    set (d1 := mkDrive _ _ _ _ _ _ _). assert (head_of d1 = left) as ->.
    { unfold head_of at 1. unfold d1. cbn [dr_head dr_files]. rewrite length_take. lia. }
    unfold d1. cbn [dr_files]. rewrite !take_take, Nat.min_id, (Nat.min_l left) by lia.
    split; [done|]. split; [by left|].
    intros Hno. by destruct (Hno os). }
  all: case_decide; intros [= <- <- <-]; exists (head_of d); apply Hkeep; auto.
Qed.

Lemma move_head h d : (h ≤ length (dr_files d))%nat → head_of (move_to h d) = h.
Proof. intros Hh. unfold head_of. cbn [move_to dr_head dr_files]. lia. Qed.

(** A sink that takes a file takes what it gives. *)
Lemma read_loop_takes takes size ck reads : ∀ sink i l e, read_loop takes size ck reads sink i = Ok (l, e) →
  read_loop takes_all size ck reads sink i = Ok (l, e) ∧ (l = sink ∨ takes l = true).
Proof.
  induction reads as [|[[|b bl]| |e0] reads IH]; intros sink i l e; cbn; try by (intros [= <- <-]; auto).
  destruct (read_payload size (b :: bl) ck i) as [p|]; cbn; [|done].
  destruct (takes (sink ++ p)) eqn:Ht; [|done]. intros Hl. destruct (IH _ _ _ _ Hl) as [Hl' [->|?]]; auto.
Qed.

Lemma decode_takes takes f l e : decode takes f = Ok (l, e) →
  decode takes_all f = Ok (l, e) ∧ (l = [] ∨ takes l = true).
Proof.
  unfold decode, read_file_streaming. destruct (read_shape _) as [[[size ck]|] d]; cbn; [|done].
  apply read_loop_takes.
Qed.

#[export] Instance drive_laws : @TapeLaws drive_ops.
Proof.
  refine (@Build_TapeLaws drive_ops dr_files head_of (λ d, dr_start d = true) drive_holds
    (λ f l, ∃ e, decode takes_all f = Ok (l, e)) head_of_le _ _ _ _ _ _ _ _).
  - intros d r d' [= <- <-]. split; [done|]. intros _. split; [|done]. by apply move_head; lia.
  - intros k d r d' Hk. cbn. case_bool_decide as Hh; intros [= <- <-]; (split; [done|]); [|done].
    intros _. split; [by apply move_head|done].
  - intros d r d' [= <- <-]. split; [done|]. split; [done|]. split; [done|]. intros st [= <-] _. cbn.
    split; [by rewrite Nat2Z.id|]. split; [by destruct (dr_start d)|]. by intros ?%bool_decide_eq_true.
  - by intros d r d' [= <- <-].
  - intros src len sync d c rest d' _. apply drive_write_ok.
  - intros src len sync d e rest d' Hs. by apply drive_write_err.
  - intros takes d r d' _. cbn. unfold drive_read. destruct (dr_files d !! head_of d) as [f|] eqn:Hf; [|by intros [= <- <-]].
    intros [= <- <-]. split; [done|]. intros l e Hl. apply decode_takes in Hl as [Hl Ht]. split; [by eexists|].
    split; [done|]. intros _ _. split; [|done]. apply move_head. apply lookup_lt_Some in Hf. lia.
  - intros n d r d' _. cbn. unfold drive_read_head. destruct (dr_files d !! head_of d) as [f|] eqn:Hf.
    + destruct (decode takes_all f) as [[l e]|e] eqn:Hd; intros [= <- <-]; (split; [done|]); [|done].
      intros l' e' [= <- <-]. exists (drop (Z.to_nat n) l). rewrite take_drop, length_take. split; [by exists e|].
      split; [lia|]. intros Hn. apply drop_ge. lia.
    + by intros [= <- <-].
Defined.
End drive.
