(* ===== verification/Rehearsal.v ===== *)
(** * A session rehearsed

    A small plan written through the whole path: the session's loop, the tape
    store, the device's blocks with their CRC, to a drive that keeps the
    laws. Each of the session's and the store's theorems is applied to it. *)

From S2P Require Import Prelude LayoutModel Slice SliceHeader Chunks Lbp TapeWrite TapeSpec Pipeline Session.
From S2P Require Import SessionSound SessionEnd TapeStore TapeStoreSound DriveModel.
Local Open Scope Z_scope.
Local Open Scope rust_scope.

#[local] Instance ex_digest : Digest := λ bytes, String.concat "," (pretty.pretty <$> bytes).
#[local] Instance ex_ops : TapeOps := drive_ops 4 true.
#[local] Instance ex_laws : @TapeLaws ex_ops := drive_laws 4 true.
#[local] Instance ex_store : Store := @tape_store ex_ops.
#[local] Instance ex_store_laws : @StoreLaws ex_store := @tape_store_laws ex_ops ex_laws.

Definition ex_thunk : list Z := [1; 2; 3].
Definition ex_slice1 : list Z := [4; 5; 6; 7; 8].
Definition ex_slice2 : list Z := [9; 10].

#[local] Instance ex_staging : Staging := λ _ path,
  if bool_decide (path = "thunk"%string) then Ok [Bytes ex_thunk]
  else if bool_decide (path = "one"%string) then Ok [Bytes [4; 5]; Eintr; Bytes [6; 7; 8]]
  else Ok [Bytes ex_slice2].

Definition ex_entry (position : Z) (kind : ZoneKind) (content : list Z) (source : ContentSource) : LayoutEntry :=
  mkLayoutEntry position kind (Some (Z.of_nat (length content))) (Some (sha256_hex content)) source.

Definition ex_layout : Layout :=
  mkLayout "V" "u" "lto6" 4 (mkCapacityBudget 0 0 None None)
    [ex_entry 0 IdThunk ex_thunk (Materialized "thunk");
     ex_entry 1 (LayoutModel.Slice 11) ex_slice1 (Staged "one");
     ex_entry 2 (LayoutModel.Slice 12) ex_slice2 (Staged "two");
     mkLayoutEntry 3 SealMarker None None Generated].

Definition ex_slices : gmap Z Z := {[11 := 7; 12 := 7]}.
Definition ex_catalog : Catalog :=
  mkCatalog {[(7, 11) := mkPosition 1 PPending None; (7, 12) := mkPosition 2 PPending None]}
    {[7 := "planned"%string]} None None [] [].

Definition ex_drive (answers : list WriteAnswer) (losses : list nat) : Drive :=
  mkDrive [] 0 true answers [] (mkWarningState 0 None) losses.
Definition ex_start (answers : list WriteAnswer) (losses : list nat) (signals : list bool) : @State ex_store :=
  @mkState ex_store ex_catalog (@at_bot ex_ops (ex_drive answers losses)) 0 signals.

(** ** The hypotheses, at the small plan *)

Lemma ex_entries_eq : content_entries ex_layout =
  [ex_entry 0 IdThunk ex_thunk (Materialized "thunk");
   ex_entry 1 (LayoutModel.Slice 11) ex_slice1 (Staged "one");
   ex_entry 2 (LayoutModel.Slice 12) ex_slice2 (Staged "two")].
Proof. reflexivity. Qed.

Lemma ex_lookup i e : content_entries ex_layout !! i = Some e →
  i = 0%nat ∧ e = ex_entry 0 IdThunk ex_thunk (Materialized "thunk") ∨
  i = 1%nat ∧ e = ex_entry 1 (LayoutModel.Slice 11) ex_slice1 (Staged "one") ∨
  i = 2%nat ∧ e = ex_entry 2 (LayoutModel.Slice 12) ex_slice2 (Staged "two").
Proof. rewrite ex_entries_eq. destruct i as [|[|[|i]]]; cbn; intros [= <-]; auto. Qed.

Lemma ex_planned : planned ex_layout [7] ex_slices.
Proof.
  split.
  - intros i e [[-> ->]|[[-> ->]|[-> ->]]]%ex_lookup; done.
  - exists (mkLayoutEntry 3 SealMarker None None Generated). done.
  - intros i j e e' id [[-> ->]|[[-> ->]|[-> ->]]]%ex_lookup [[-> ->]|[[-> ->]|[-> ->]]]%ex_lookup; cbn; congruence.
  - intros id w Hw. unfold ex_slices in Hw. apply lookup_insert_Some in Hw as [[_ <-]|[_ Hw]]; [set_solver|].
    apply lookup_singleton_Some in Hw as [_ <-]. set_solver.
  - apply NoDup_singleton.
  - done.
  - exists [ex_entry 0 IdThunk ex_thunk (Materialized "thunk")],
      [ex_entry 1 (LayoutModel.Slice 11) ex_slice1 (Staged "one");
       ex_entry 2 (LayoutModel.Slice 12) ex_slice2 (Staged "two")], [].
    split; [done|]. split; [done|]. repeat (constructor; try done).
Qed.

Lemma ex_rows_lookup w id r : positions ex_catalog !! (w, id) = Some r →
  w = 7 ∧ (id = 11 ∧ r = mkPosition 1 PPending None ∨ id = 12 ∧ r = mkPosition 2 PPending None).
Proof.
  intros H. cbn in H. apply lookup_insert_Some in H as [[[= <- <-] <-]|[_ H]]; [auto|].
  apply lookup_singleton_Some in H as [[= <- <-] <-]. auto.
Qed.

Lemma ex_fresh answers losses signals : fresh ex_layout [7] ex_slices (ex_start answers losses signals).
Proof.
  split; [reflexivity|]. split; [reflexivity|]. split.
  - intros w id r H. apply ex_rows_lookup in H as (_ & [[_ ->]|[_ ->]]); done.
  - split.
    + intros i e id w r He Hk _ H. apply ex_rows_lookup in H as (_ & [[-> ->]|[-> ->]]);
        apply ex_lookup in He as [[-> ->]|[[-> ->]|[-> ->]]]; done.
    + intros w id [r H] _. apply ex_rows_lookup in H as (-> & [[-> _]|[-> _]]).
      * split; [done|]. exists 1%nat. by eexists.
      * split; [done|]. exists 2%nat. by eexists.
    + intros i e id He Hk. exists 7. apply ex_lookup in He as [[-> ->]|[[-> ->]|[-> ->]]]; cbn in Hk; simplify_eq;
        (split; [done|]); by eexists.
Qed.

(** ** The session's theorems, rehearsed *)

Notation run answers losses signals :=
  (run_entries ex_layout [7] ex_slices 0 None (ex_start answers losses signals)).

(** What a run that comes out as [o] leaves, from [iruns]. *)
Lemma ex_after {A} (m : io A) (s : State) (o : A) (Q : A → State → Prop) (E : SessionError → State → Prop) :
  (m s).1 = Ok o → iruns s m Q E → Q o (m s).2.
Proof. unfold iruns. destruct (m s) as [[a|e] s']; cbn; [|done]. by intros [= ->]. Qed.

(** A run through a refused (and retried) early warning, to its short ending. *)
Lemma run_entries_sound_witness :
  (run [] [] []).1 = Ok (Ready Full false false 0) ∧
  iruns (ex_start [] [] []) (run_entries ex_layout [7] ex_slices 0 None)
    (finished ex_layout [7] ex_slices) (λ e _, e ≠ RunFuel).
Proof.
  split; [vm_compute; reflexivity|].
  exact (run_entries_sound ex_layout [7] ex_slices None (ex_start [] [] []) ex_planned (ex_fresh [] [] [])).
Defined.

(** A write refused, its file and one the drive took back sent again;
    interrupted after two files; the tape then loses the second; resumed. *)
Definition ex_retried : list WriteAnswer := [Took 8; WFailed EIO].
Definition ex_signals : list bool := [false; false; false; true].
Definition ex_stopped : State := (run ex_retried [1%nat] ex_signals).2.
Definition ex_lost : State :=
  with_tape (@at_bot ex_ops (mkDrive (take 1 (dr_files (dev (tape ex_stopped)))) 0 true [] [] (mkWarningState 24 None) []))
    ex_stopped.

Example ex_was_refused : events (cat ex_stopped) = [WriteLbpEvent None "on" None; LbpRefusalEvent 1 true; LbpRetryEvent 1 2 1].
Proof. vm_compute. reflexivity. Qed.

Lemma ex_pair {A B} (p : result A B * @State ex_store) b : p.1 = Ok b → p = (Ok b, p.2).
Proof. destruct p. by cbn; intros ->. Qed.

Lemma ex_lost_session : session ex_layout [7] ex_slices ex_lost.
Proof.
  refine (session_lost ex_layout [7] ex_slices ex_stopped _ 1 _ _); [|vm_compute; reflexivity].
  refine (session_run ex_layout [7] ex_slices (ex_start ex_retried [1%nat] ex_signals) None None ex_stopped
    (ex_fresh _ _ _) (ex_pair _ _ _) eq_refl).
  vm_compute. reflexivity.
Qed.

Lemma resume_entries_sound_witness :
  (resume_entries ex_layout [7] ex_slices None ex_lost).1 = Ok (Ready Full false false 1) ∧
  iruns ex_lost (resume_entries ex_layout [7] ex_slices None) (finished ex_layout [7] ex_slices) (λ e _, e ≠ RunFuel).
Proof.
  split; [vm_compute; reflexivity|].
  exact (resume_entries_sound ex_layout [7] ex_slices None ex_lost ex_planned ex_lost_session).
Defined.

(** The seal refused once, two files lost with it, sent again and sealed. *)
Definition ex_refusing : list WriteAnswer := [Took 8; Took 8; Took 8; Took 8; WFailed EIO].
Definition ex_ready : @State ex_store := (run ex_refusing [1%nat] []).2.

Lemma ex_ready_run : (run ex_refusing [1%nat] []).1 = Ok (Ready Full false false 0).
Proof. vm_compute. reflexivity. Qed.

Lemma ex_ready_finished : finished ex_layout [7] ex_slices (Ready Full false false 0) ex_ready.
Proof.
  exact (ex_after _ _ _ _ _ ex_ready_run (fresh_run ex_layout [7] ex_slices None _ ex_planned (ex_fresh _ _ _))).
Qed.

Lemma ex_ready_plan : written_plan ex_layout 3 (tape ex_ready) ∧ positioned (tape ex_ready).
Proof.
  destruct ex_ready_finished as (k & Hk & Hn & Hw & Hp & _).
  assert (k = 3)%nat as -> by (change (Z.of_nat k = 3) in Hk; lia). exact (conj Hw Hp).
Qed.

Lemma seal_with_retry_spec_witness :
  (seal_with_retry ex_layout [7] [77; 78] Full false 0 ex_ready).1 = Ok () ∧
  iruns ex_ready (seal_with_retry ex_layout [7] [77; 78] Full false 0)
    (λ _ s', sealed_plan ex_layout 3 [77; 78] (tape s')) seal_error.
Proof.
  split; [vm_compute; reflexivity|].
  refine (seal_with_retry_spec ex_layout [7] ex_slices 3 [77; 78] Full false 0 ex_ready ex_planned eq_refl _ _
    (proj1 ex_ready_plan) (proj2 ex_ready_plan)); [rewrite ex_entries_eq; cbn; lia|lia].
Defined.

(** A warning in the first slice, the ending it decides. *)
Definition ex_warned : @State ex_store := (run [Took 8; WFailed ENOSPC] [] []).2.

Lemma ex_warned_run : (run [Took 8; WFailed ENOSPC] [] []).1 = Ok (Ready (Short 1) true false 0).
Proof. vm_compute. reflexivity. Qed.

Lemma ex_warned_finished : finished ex_layout [7] ex_slices (Ready (Short 1) true false 0) ex_warned.
Proof.
  exact (ex_after _ _ _ _ _ ex_warned_run (fresh_run ex_layout [7] ex_slices None _ ex_planned (ex_fresh _ _ _))).
Qed.

Lemma ex_warned_resumable : resumable ex_layout [7] ex_slices 2 ex_warned.
Proof.
  destruct ex_warned_finished as (k & Hk & Hn & Hw & _ & Hg & _).
  assert (k = 2)%nat as -> by (change (Z.of_nat k = 2) in Hk; lia).
  exact (written_resumable _ _ _ 2 _ Hn Hw Hg).
Qed.

Lemma seal_after_recorded_warning_spec_witness :
  (seal_after_recorded_warning ex_layout [7] (Z.of_nat 2 - 1) ex_warned).1 = Ok (Ready (Short 1) true false 2) ∧
  iruns ex_warned (seal_after_recorded_warning ex_layout [7] (Z.of_nat 2 - 1))
    (ends_at_warning ex_layout [7] ex_slices) (λ e _, e ≠ RunFuel).
Proof.
  split; [vm_compute; reflexivity|].
  apply (seal_after_recorded_warning_spec ex_layout [7] ex_slices 2 ex_warned ex_planned ex_warned_resumable).
  eexists. split; [reflexivity|]. split; [reflexivity|lia].
Defined.

(** ** The store's theorems, rehearsed *)

Definition ex_tape : Drive :=
  mkDrive [[1; 2; 3; 0; 168; 47; 154; 23];
           [4; 5; 6; 7; 8; 239; 171; 204; 8; 0; 0; 0; 132; 123; 131; 4];
           [9; 10; 0; 0; 31; 227; 1; 56]] 0 true [] [] (mkWarningState 0 None) [].
Definition ex_bot : @TapeStore ex_ops := @at_bot ex_ops ex_tape.
(** The store believes the head is inside file 1; it is at the start. *)
Definition ex_wrong : @TapeStore ex_ops := set_cursor (Within 1) ex_bot.

(** A sink with room for four bytes. *)
Definition ex_sink (l : list Z) : bool := bool_decide (length l ≤ 4)%nat.

Lemma ex_read_eq : read_file ex_sink 2 ex_wrong = ((read_file ex_sink 2 ex_wrong).1, (read_file ex_sink 2 ex_wrong).2).
Proof. apply surjective_pairing. Qed.
Lemma ex_read : (read_file ex_sink 2 ex_wrong).1 = Ok [9; 10; 0; 0].
Proof. vm_compute. reflexivity. Qed.
Lemma ex_read_cursor : cursor (read_file ex_sink 2 ex_wrong).2 = AtStart 3.
Proof. vm_compute. reflexivity. Qed.
Lemma ex_wrong_range : cursor_in_range (cursor ex_wrong).
Proof. cbn. unfold i32_max. lia. Qed.

Lemma read_file_spec_witness :
  (read_file ex_sink 2 ex_wrong).1 = Ok [9; 10; 0; 0] ∧ cursor (read_file ex_sink 2 ex_wrong).2 = AtStart 3 ∧
  @gives ex_ops ex_laws (@tape_files ex_ops ex_laws (dev ex_wrong)) 2 [9; 10; 0; 0] ∧
  @head_file ex_ops ex_laws (dev (read_file ex_sink 2 ex_wrong).2) = 3%nat.
Proof.
  split; [exact ex_read|]. split; [exact ex_read_cursor|].
  pose proof (@read_file_spec ex_ops ex_laws ex_sink 2 ex_wrong _ _ ltac:(unfold i32_max; lia) ex_wrong_range ex_read_eq) as (_ & _ & H).
  destruct (H [9; 10; 0; 0] ex_read) as (Hg & _ & Hn). split; [exact Hg|].
  exact (proj1 (proj2 (Hn 3 ex_read_cursor))).
Defined.

Lemma ex_counting d : @counting ex_ops ex_laws d.
Proof. intros Hs. cbn in Hs. eexists _, d. cbn. rewrite Hs. reflexivity. Qed.

Definition ex_end : @TapeStore ex_ops := match read_run 0 3 ex_bot with Some (_, s) => s | None => ex_bot end.
Lemma ex_pass_files :
  fst <$> read_run 0 3 ex_bot = Some [[1; 2; 3; 0]; [4; 5; 6; 7; 8; 0; 0; 0]; [9; 10; 0; 0]].
Proof. vm_compute. reflexivity. Qed.
Lemma ex_pass :
  read_run 0 3 ex_bot = Some ([[1; 2; 3; 0]; [4; 5; 6; 7; 8; 0; 0; 0]; [9; 10; 0; 0]], ex_end).
Proof.
  unfold ex_end. pose proof ex_pass_files as H. destruct (read_run 0 3 ex_bot) as [[ls s]|]; [|discriminate H].
  injection H as ->. reflexivity.
Qed.

Lemma read_run_spec_witness : rewinds (motions ex_end) = 0 ∧ spaces (motions ex_end) = 0.
Proof.
  pose proof (@read_run_spec ex_ops ex_laws 3 0 ex_bot _ ex_end ltac:(lia) ltac:(unfold i32_max; lia) ex_counting
    eq_refl eq_refl eq_refl ex_pass) as H.
  exact (conj (proj1 H) (proj1 (proj2 H))).
Defined.
