(* ===== verification/Confirm.v ===== *)
(** * The confirm: the chain walk of [src/store.rs]

    The read-back of a tape against its Layout: File 3 and the seal, and at
    the full tier every content file. The walk holds the files ahead of
    File 3, skips what an interrupted walk read back clean, and judges in one
    order whatever order it read in; [locate_seal] finds the seal of a tape
    whose ending is not known. The medium is an interface, [Readable]. *)

From S2P Require Import Prelude LayoutModel Format.
Local Open Scope Z_scope.
Local Open Scope rust_scope.

(** [as u32], of an [i32]. *)
Definition as_u32 (z : Z) : Z := z mod 2 ^ 32.

(** ** The plan *)

Inductive Tier : Type := Navigable | Integrity.

#[export] Instance Tier_eq_dec : EqDecision Tier.
Proof. solve_decision. Defined.

Definition write_confirm (full_confirm : bool) : Tier := if full_confirm then Integrity else Navigable.

Inductive ReadOrder : Type := SealFirst | SealLast.

#[export] Instance ReadOrder_eq_dec : EqDecision ReadOrder.
Proof. solve_decision. Defined.

Record Checkpoints : Type := mkCheckpoints {
  cp_front_index_sha256 : string;
  passed : gmap Z string;
}.

Record Checkpoint : Type := mkCheckpoint {
  at_position : Z;
  at_sha256 : string;
  at_front_index_sha256 : string;
}.

(** [ConfirmPlan]; every walk reports its checkpoints. *)
Record ConfirmPlan : Type := mkPlan {
  tier : Tier;
  order : ReadOrder;
  resume : option Checkpoints;
  cached_seal : option (list Z);
  plan_ended_after : option Z;
  readback : option Z;
}.

Definition plan_new (t : Tier) : ConfirmPlan := mkPlan t SealFirst None None None None.
Definition with_order (o : ReadOrder) (p : ConfirmPlan) : ConfirmPlan :=
  mkPlan (tier p) o (resume p) (cached_seal p) (plan_ended_after p) (readback p).
Definition resuming (r : option Checkpoints) (p : ConfirmPlan) : ConfirmPlan :=
  mkPlan (tier p) (order p) r (cached_seal p) (plan_ended_after p) (readback p).
Definition with_seal (s : option (list Z)) (p : ConfirmPlan) : ConfirmPlan :=
  mkPlan (tier p) (order p) (resume p) s (plan_ended_after p) (readback p).

(** [ConfirmPlan::seal_position]. *)
Definition plan_seal_position (p : ConfirmPlan) (planned : Z) : Z :=
  match plan_ended_after p with Some k => Z.min (k + 1) u32_max | None => planned end.

(** ** What a walk finds *)

Inductive MismatchKind : Type :=
| SealUnreadable
| FrontIndexUnreadable
| FrontIndexInconsistent
| FrontIndexDivergesFromSeal
| NavigationDisagreement
| ContentHashMismatch
| ContentUnreadable
| EndedAfterDisagrees.

#[export] Instance MismatchKind_eq_dec : EqDecision MismatchKind.
Proof. solve_decision. Defined.

Definition proves_bad (k : MismatchKind) : bool :=
  match k with
  | ContentHashMismatch | FrontIndexDivergesFromSeal | FrontIndexInconsistent
  | NavigationDisagreement => true
  | ContentUnreadable | FrontIndexUnreadable | SealUnreadable | EndedAfterDisagrees => false
  end.

Definition compares_hashes (k : MismatchKind) : bool :=
  match k with ContentHashMismatch | FrontIndexDivergesFromSeal => true | _ => false end.

(** The [expected] and [actual] of a mismatch, which the code puts in words;
    [X] is the store's error. *)
Inductive Found (X : Type) : Type :=
| ReadFailed (e : X)
| NotParsed (e : FormatError)
| SealRefused (why : Refusal)
| NotShortSeal (requires : list string)
| ShortRead (wanted got : Z)
| Violation (v : ConsistencyViolation)
| NotListed
| TypeDiffers (planned claimed : string)
| SizeDiffers (planned claimed : Z)
| ClaimIncomplete
| HashDiffers (expected actual : string)
| EndingDiffers (planned : Z) (stated : option Z).
Arguments ReadFailed {X} _.
Arguments NotParsed {X} _.
Arguments SealRefused {X} _.
Arguments NotShortSeal {X} _.
Arguments ShortRead {X} _ _.
Arguments Violation {X} _.
Arguments NotListed {X}.
Arguments TypeDiffers {X} _ _.
Arguments SizeDiffers {X} _ _.
Arguments ClaimIncomplete {X}.
Arguments HashDiffers {X} _ _.
Arguments EndingDiffers {X} _ _.

Record Mismatch (X : Type) : Type := mkMismatch {
  mm_position : Z;
  kind : MismatchKind;
  found : Found X;
}.
Arguments mkMismatch {X} _ _ _.
Arguments mm_position {X} _.
Arguments kind {X} _.
Arguments found {X} _.

Record Evidence (X : Type) : Type := mkEvidence {
  ev_tier : Tier;
  files_checked : Z;
  mismatches : list (Mismatch X);
}.
Arguments mkEvidence {X} _ _ _.
Arguments ev_tier {X} _.
Arguments files_checked {X} _.
Arguments mismatches {X} _.

Section evidence.
Context {X : Type}.

Definition ending_disagrees (e : Evidence X) : bool :=
  existsb (λ m, bool_decide (kind m = EndedAfterDisagrees)) (mismatches e).
Definition medium_evidence (e : Evidence X) : list (Mismatch X) :=
  if ending_disagrees e then [] else filter (λ m, proves_bad (kind m) = true) (mismatches e).
Definition proves_medium_bad (e : Evidence X) : bool := negb (bool_decide (length (medium_evidence e) = 0%nat)).
End evidence.

(** ** The medium *)

Definition SMALL_FILE_CAP : Z := 16 * 1024 * 1024.
Definition AHEAD_OF_INDEX_CAP : Z := 16 * 1024 * 1024.

(** The reads of a store. [read_into cap p]: the file at [p] streamed into a
    sink, which fails past [cap] bytes when it has a cap. [head_of p n]: its
    first [n] bytes at most. *)
Class Readable : Type := {
  medium : Type;
  failure : Type;
  read_into : option Z → Z → medium → result failure (list Z) * medium;
  head_of : Z → Z → medium → result failure (list Z) * medium;
  ends_at_or_before : Z → medium → result failure bool * medium;
  count_files : medium → result failure (option Z) * medium;
}.

(** ** The walk's monad *)

Inductive WalkError : Type :=
| NoSealEntry
| NoFrontIndexEntry
| NoFrontIndexSize
| SealAtZero
| EndedAfterOutOfPlace (k : Z)
| ReadbackOutOfPlace (p : Z)
| StoppedBefore (position files_checked : Z).

Section confirm.
Context `{!Digest, !TomlCrate, !Readable}.

(** The medium, the seal's bytes the caller already read, the answers of
    [signal::check] to come, and the checkpoints reported. *)
Record Walk : Type := mkWalk {
  on : medium;
  seal_in_hand : option (list Z);
  stops : list bool;
  reported : list Checkpoint;
}.

Definition walk (A : Type) : Type := Walk → result WalkError A * Walk.
#[export] Instance walk_ret : MRet walk := λ A a w, (Ok a, w).
#[export] Instance walk_bind : MBind walk := λ A B f m w,
  match m w with (Ok a, w) => f a w | (Err e, w) => (Err e, w) end.

Definition from_result {A} (r : result WalkError A) : walk A := λ w, (r, w).
Definition report (c : Checkpoint) : walk () := λ w,
  (Ok (), mkWalk (on w) (seal_in_hand w) (stops w) (reported w ++ [c])).
Definition check_signal (e : WalkError) : walk () := λ w,
  (if default false (head (stops w)) then Err e else Ok (),
   mkWalk (on w) (seal_in_hand w) (drop 1 (stops w)) (reported w)).

(** A cap is a [u64]: no bytes are within it. *)
Definition within (cap : option Z) (l : list Z) : bool :=
  match cap with Some c => bool_decide (Z.of_nat (length l) ≤ Z.max 0 c) | None => true end.

Section reader.
(** The error of a sink that is full, and where the seal in hand is. *)
Variables (sink_full : failure) (seal_pos : option Z).

(** The closure [confirm_with] gives the walk: the seal in hand is taken at
    its position, once. *)
Definition read (cap : option Z) (position : Z) : walk (result failure (list Z)) := λ w,
  match seal_in_hand w with
  | Some bytes =>
      if bool_decide (seal_pos = Some position) then
        (Ok (if within cap bytes then Ok bytes else Err sink_full),
         mkWalk (on w) None (stops w) (reported w))
      else
        let '(r, m) := read_into cap position (on w) in
        (Ok r, mkWalk m (seal_in_hand w) (stops w) (reported w))
  | None =>
      let '(r, m) := read_into cap position (on w) in
      (Ok r, mkWalk m None (stops w) (reported w))
  end.

(** ** The ending *)

Record WalkEnding : Type := mkEnding {
  ended_after : Z;
  planned_seal : Z;
  walk_readback : option Z;
}.

Definition ending_of (plan : ConfirmPlan) (fi_pos planned_seal : Z) : result WalkError WalkEnding :=
  ended_after ←
    match plan_ended_after plan with
    | None => if bool_decide (planned_seal = 0) then Err SealAtZero else Ok (planned_seal - 1)
    | Some k =>
        if bool_decide (fi_pos < k ∧ k < planned_seal) then Ok k else Err (EndedAfterOutOfPlace k)
    end;
  match readback plan with
  | Some p => guard_err (bool_decide (p ≤ fi_pos ∨ ended_after < p)) (ReadbackOutOfPlace p)
  | None => Ok ()
  end;;
  Ok (mkEnding ended_after planned_seal (readback plan)).

(** [ended_after] is below a [u32], so [+ 1] stays in its width. *)
Definition walk_seal_position (e : WalkEnding) : Z := ended_after e + 1.
Definition is_short (e : WalkEnding) : bool := bool_decide (walk_seal_position e < planned_seal e).

(** ** The seal *)

Inductive SealRead : Type :=
| GateRefused (checked : Z) (m : Mismatch failure)
| Bound (front_index_sha256 : string) (stated : option Z).

(** What the bytes at the seal's position are. *)
Definition seal_of_read (ending : WalkEnding) (r : result failure (list Z)) : SealRead :=
  let at_seal := mkMismatch (walk_seal_position ending) SealUnreadable in
  match r with
  | Err e => GateRefused 0 (at_seal (ReadFailed e))
  | Ok bytes =>
      match parse_seal_marker (from_utf8_lossy bytes) with
      | Err e => GateRefused 1 (at_seal (NotParsed e))
      | Ok seal =>
          match seal_refusal seal with
          | Some why => GateRefused 1 (at_seal (SealRefused why))
          | None =>
              if is_short ending && negb (requires_short_seal seal)
              then GateRefused 1 (at_seal (NotShortSeal (seal_requires seal)))
              else Bound (seal_front_index_sha256 seal) (effective_ended_after seal)
          end
      end
  end.

Definition read_seal (ending : WalkEnding) : walk SealRead :=
  r ← read (Some SMALL_FILE_CAP) (walk_seal_position ending);
  mret (seal_of_read ending r).

(** ** File 3 *)

Record FromIndex : Type := mkFromIndex {
  fi_checked : Z;
  fi_hash : option string;
  fi_mismatches : list (Mismatch failure);
}.

(** File 3 as it was read: how many files that counts, its hash, and its
    claims or the disagreement that ends the walk. *)
Definition index_of_read (fi_pos fi_true_len : Z) (r : result failure (list Z))
    : Z * option string * result (Mismatch failure) (list ParsedIndexEntry) :=
  let unreadable := mkMismatch fi_pos FrontIndexUnreadable in
  match r with
  | Err e => (0, None, Err (unreadable (ReadFailed e)))
  | Ok bytes =>
      if bool_decide (Z.of_nat (length bytes) < fi_true_len)
      then (1, None, Err (unreadable (ShortRead fi_true_len (Z.of_nat (length bytes)))))
      else
        let true_bytes := take (Z.to_nat fi_true_len) bytes in
        let h := sha256_hex true_bytes in
        match parse_front_index (from_utf8_lossy true_bytes) with
        | Err e => (1, Some h, Err (unreadable (NotParsed e)))
        | Ok claims => (1, Some h, Ok claims)
        end
  end.

(** One Layout entry against the claim File 3 makes of its position. *)
Definition entry_disagreements (claims : list ParsedIndexEntry) (e : LayoutEntry)
    : list (Mismatch failure) :=
  let here := mkMismatch (as_u32 (le_position e)) NavigationDisagreement in
  match List.find (λ c, bool_decide (pe_position c = le_position e)) claims with
  | None => [here NotListed]
  | Some c =>
      (if bool_decide (pe_type_label c ≠ type_label (le_kind e))
       then [here (TypeDiffers (type_label (le_kind e)) (pe_type_label c))] else []) ++
      (match pe_size_bytes c, le_size_bytes e with
       | Some a, Some b => if bool_decide (a ≠ b) then [here (SizeDiffers b a)] else []
       | _, _ => []
       end)
  end.

Definition navigation (layout : Layout) (fi_pos : Z) (claims : list ParsedIndexEntry)
    : list (Mismatch failure) :=
  ((λ v, mkMismatch fi_pos FrontIndexInconsistent (Violation v)) <$> validate_consistency claims) ++
  mjoin (entry_disagreements claims <$> entries layout).

(** ** A content file *)

Inductive Held : Type :=
| HeldBytes (bytes : list Z)
| HeldFailed (e : failure).

Record Tally : Type := mkTally {
  checked : Z;
  against : list (Mismatch failure);
}.
Definition disagree (m : Mismatch failure) (t : Tally) : Tally := mkTally (checked t) (against t ++ [m]).

(** A file that came back, against its claim. *)
Definition compare_claim (position want_size : Z) (want_hash : string) (r : result failure (list Z))
    (t : Tally) : option string * Tally :=
  match r with
  | Err e => (None, disagree (mkMismatch position ContentUnreadable (ReadFailed e)) t)
  | Ok bytes =>
      let t := mkTally (checked t + 1) (against t) in
      let n_read := Z.of_nat (length bytes) in
      if bool_decide (n_read < want_size)
      then (None, disagree (mkMismatch position ContentUnreadable (ShortRead want_size n_read)) t)
      else
        let actual := sha256_hex (take (Z.to_nat want_size) bytes) in
        if bool_decide (actual ≠ want_hash)
        then (None, disagree (mkMismatch position ContentHashMismatch (HashDiffers want_hash actual)) t)
        else (Some want_hash, t)
  end.

Definition read_back_claim (c : ParsedIndexEntry) (held : option Held) (t : Tally)
    : walk (option string * Tally) :=
  let position := as_u32 (pe_position c) in
  match pe_sha256_encrypted c, pe_size_bytes c with
  | Some want_hash, Some want_size =>
      r ← match held with
          | Some (HeldBytes bytes) => mret (Ok bytes)
          | Some (HeldFailed e) => mret (Err e)
          | None => read None position
          end;
      mret (compare_claim position want_size want_hash r t)
  | _, _ => mret (None, disagree (mkMismatch position NavigationDisagreement ClaimIncomplete) t)
  end.

(** ** The files ahead of File 3 *)

(** [Vec::dedup]. *)
Fixpoint dedup (l : list Z) : list Z :=
  match l with
  | x :: (y :: _) as l' => if bool_decide (x = y) then dedup l' else x :: dedup l'
  | _ => l
  end.

Definition holds_ahead (layout : Layout) (fi_pos : Z) (resume : option Checkpoints) (e : LayoutEntry) : bool :=
  bool_decide (as_u32 (le_position e) < fi_pos)
  && negb (bool_decide (le_kind e = FrontIndex ∨ le_kind e = SealMarker))
  && negb (match resume with
           | Some r => bool_decide (is_Some (passed r !! as_u32 (le_position e)))
           | None => false
           end)
  && match le_size_bytes e with
     | Some n => bool_decide (pad_to_blocks n (Z.max (block_size layout) 1) ≤ AHEAD_OF_INDEX_CAP)
     | None => false
     end.

Definition ahead_of_index (layout : Layout) (fi_pos : Z) (resume : option Checkpoints) : list Z :=
  dedup (merge_sort Z.le
    ((λ e, as_u32 (le_position e)) <$>
      filter (λ e, holds_ahead layout fi_pos resume e = true) (entries layout))).

(** A file held, or one too large for the buffer, which is dropped. *)
Definition hold (position : Z) (r : result failure (list Z)) (held : gmap Z Held) : gmap Z Held :=
  match r with
  | Ok bytes => if within (Some AHEAD_OF_INDEX_CAP) bytes then <[position := HeldBytes bytes]> held else held
  | Err e => <[position := HeldFailed e]> held
  end.
Fixpoint hold_all (ahead : list Z) (held : gmap Z Held) : walk (gmap Z Held) :=
  match ahead with
  | [] => mret held
  | position :: ahead => r ← read None position; hold_all ahead (hold position r held)
  end.
Definition hold_files_ahead_of_index (layout : Layout) (fi_pos : Z) (resume : option Checkpoints)
    : walk (gmap Z Held) :=
  hold_all (ahead_of_index layout fi_pos resume) ∅.

(** ** The walk *)

(** Whether an interrupted walk read this claim's file back clean. *)
Definition skips (resume : option Checkpoints) (ending : WalkEnding) (c : ParsedIndexEntry) : option string :=
  match resume, pe_sha256_encrypted c, pe_size_bytes c with
  | Some r, Some want, Some _ =>
      if bool_decide (walk_readback ending = Some (as_u32 (pe_position c))) then None
      else if bool_decide (passed r !! as_u32 (pe_position c) = Some want) then Some want else None
  | _, _, _ => None
  end.

Fixpoint content_loop (fi_pos : Z) (fi_hash : string) (ending : WalkEnding) (resume : option Checkpoints)
    (held : gmap Z Held) (claims : list ParsedIndexEntry) (t : Tally) : walk Tally :=
  match claims with
  | [] => mret t
  | c :: claims =>
      let position := as_u32 (pe_position c) in
      if bool_decide (position = fi_pos ∨ ended_after ending < position)
      then content_loop fi_pos fi_hash ending resume held claims t
      else
        match skips resume ending c with
        | Some want =>
            report (mkCheckpoint position want fi_hash);;
            content_loop fi_pos fi_hash ending resume held claims (mkTally (checked t + 1) (against t))
        | None =>
            check_signal (StoppedBefore position (checked t));;
            '(clean, t) ← read_back_claim c (held !! position) t;
            match clean with
            | Some want => report (mkCheckpoint position want fi_hash)
            | None => mret ()
            end;;
            content_loop fi_pos fi_hash ending resume held claims t
        end
  end.

(** The one content file the navigable tier reads. *)
Definition read_back_navigable (ending : WalkEnding) (claims : list ParsedIndexEntry) (t : Tally) : walk Tally :=
  match walk_readback ending with
  | None => mret t
  | Some p =>
      match List.find (λ c, bool_decide (as_u32 (pe_position c) = p)) claims with
      | Some c => '(_, t) ← read_back_claim c None t; mret t
      | None =>
          mret (if existsb (λ m, bool_decide (mm_position m = p)) (against t) then t
                else disagree (mkMismatch p NavigationDisagreement NotListed) t)
      end
  end.

Definition walk_from_index (layout : Layout) (plan : ConfirmPlan) (fi_pos : Z) (ending : WalkEnding)
    (fi_true_len : Z) : walk FromIndex :=
  let full := bool_decide (tier plan = Integrity) in
  let resume := if full then resume plan else None in
  held ← (if full then hold_files_ahead_of_index layout fi_pos resume else mret ∅);
  r ← read (Some SMALL_FILE_CAP) fi_pos;
  match index_of_read fi_pos fi_true_len r with
  | (n, h, Err m) => mret (mkFromIndex n h [m])
  | (n, h, Ok claims) =>
      let fi_hash := default ""%string h in
      let t := mkTally n (navigation layout fi_pos claims) in
      t ← (if full then
             let resume := r ← resume;
               if bool_decide (cp_front_index_sha256 r = fi_hash) then Some r else None in
             content_loop fi_pos fi_hash ending resume held claims t
           else read_back_navigable ending claims t);
      mret (mkFromIndex (checked t) h (against t))
  end.

Definition judge (t : Tier) (fi_pos : Z) (ending : WalkEnding) (seal : SealRead) (rest : FromIndex)
    : Evidence failure :=
  match seal with
  | GateRefused n m => mkEvidence t n [m]
  | Bound bound stated =>
      mkEvidence t (1 + fi_checked rest)
        (match fi_hash rest with
         | Some h =>
             if bool_decide (h ≠ bound)
             then [mkMismatch fi_pos FrontIndexDivergesFromSeal (HashDiffers bound h)] else []
         | None => []
         end ++
         (if bool_decide (stated ≠ Some (ended_after ending))
          then [mkMismatch (walk_seal_position ending) EndedAfterDisagrees
                  (EndingDiffers (ended_after ending) stated)] else []) ++
         fi_mismatches rest)
  end.

(** Where File 3 is, its true length, and the ending: an error is of the
    Layout or the plan, never of the tape. *)
Definition walk_frame (layout : Layout) (plan : ConfirmPlan) : result WalkError (Z * Z * WalkEnding) :=
  seal_entry ← ok_or (List.find (λ e, bool_decide (le_kind e = SealMarker)) (entries layout)) NoSealEntry;
  fi_entry ← ok_or (List.find (λ e, bool_decide (le_kind e = FrontIndex)) (entries layout)) NoFrontIndexEntry;
  let planned_seal := as_u32 (le_position seal_entry) in
  let fi_pos := as_u32 (le_position fi_entry) in
  fi_true_len ← ok_or (le_size_bytes fi_entry) NoFrontIndexSize;
  ending ← ending_of plan fi_pos planned_seal;
  Ok (fi_pos, fi_true_len, ending).

Definition chain_walk (layout : Layout) (plan : ConfirmPlan) : walk (Evidence failure) :=
  '(fi_pos, fi_true_len, ending) ← from_result (walk_frame layout plan);
  let seal_first := bool_decide (tier plan = Integrity) && bool_decide (order plan = SealFirst) in
  early ← (if seal_first then s ← read_seal ending; mret (Some s) else mret None);
  match early with
  | Some (GateRefused n m) => mret (mkEvidence (tier plan) n [m])
  | _ =>
      rest ← walk_from_index layout plan fi_pos ending fi_true_len;
      seal ← match early with Some s => mret s | None => read_seal ending end;
      mret (judge (tier plan) fi_pos ending seal rest)
  end.
End reader.

(** [Store::confirm_with]. *)
Definition confirm_with (sink_full : failure) (layout : Layout) (plan : ConfirmPlan)
    (stops : list bool) (m : medium) : result WalkError (Evidence failure) * Walk :=
  let seal_pos := (λ e, plan_seal_position plan (as_u32 (le_position e))) <$>
    List.find (λ e, bool_decide (le_kind e = SealMarker)) (entries layout) in
  chain_walk sink_full seal_pos layout plan (mkWalk m (cached_seal plan) stops []).
Definition confirm (sink_full : failure) (layout : Layout) (t : Tier) : list bool → medium →
    result WalkError (Evidence failure) * Walk :=
  confirm_with sink_full layout (plan_new t).
End confirm.

(** ** Where the seal is *)

Section seal.
Context `{!Readable}.

Inductive SmallRead : Type := Bytes (l : list Z) | Oversized.

Definition read_small (position : Z) (m : medium) : result failure SmallRead * medium :=
  let '(r, m) := head_of position (SMALL_FILE_CAP + 1) m in
  (bytes ← r;
   Ok (if bool_decide (SMALL_FILE_CAP < Z.of_nat (length bytes)) then Oversized else Bytes bytes), m).

Inductive NotCounted : Type :=
| CountFailed (e : failure)
| CountTooLarge (n : Z)
| CannotCount.

Inductive SealLocation : Type :=
| SealFile (position : Z) (bytes : list Z)
| SealOversized (position : Z)
| SealAbsent
| SealReadFailed (position : Z) (e : failure)
| SealUncounted (position : Z) (read : option failure) (why : NotCounted).

(** Whether the medium is known to end at or before [planned]. *)
Definition known_to_end (planned : Z) (m : medium) : bool * medium :=
  let '(r, m) := ends_at_or_before planned m in
  (match r with Ok b => b | Err _ => false end, m).

(** The last file of a medium that ends at or before [planned]. *)
Definition locate_last (planned : Z) (failed : option failure) (m : medium) : SealLocation * medium :=
  let '(counted, m) := count_files m in
  let unknown why := (SealUncounted planned failed why, m) in
  match counted with
  | Err e => unknown (CountFailed e)
  | Ok None => unknown CannotCount
  | Ok (Some n) =>
      if bool_decide (planned < n) then unknown (CountTooLarge n)
      else if bool_decide (n = 0) then (SealAbsent, m)
      else
        let last := n - 1 in
        let '(r, m) := read_small last m in
        (match r with
         | Ok (Bytes bytes) => SealFile last bytes
         | Ok Oversized => SealOversized last
         | Err e => SealReadFailed last e
         end, m)
  end.

Definition locate_seal (planned : Z) (m : medium) : SealLocation * medium :=
  let '(r, m) := read_small planned m in
  match r with
  | Ok Oversized => (SealOversized planned, m)
  | Ok (Bytes []) =>
      let '(ends, m) := known_to_end planned m in
      if ends : bool then locate_last planned None m else (SealFile planned [], m)
  | Ok (Bytes bytes) => (SealFile planned bytes, m)
  | Err e =>
      let '(ends, m) := known_to_end planned m in
      if ends : bool then locate_last planned (Some e) m else (SealReadFailed planned e, m)
  end.
End seal.

(** ** A store in memory *)

Inductive MemFailure : Type := NoFileRecorded (position : Z) | SinkWrite.

(** [MemStore]: the files recorded, in order. *)
Definition mem_file (position : Z) (files : list (list Z)) : result MemFailure (list Z) :=
  if bool_decide (0 ≤ position) then ok_or (files !! Z.to_nat position) (NoFileRecorded position)
  else Err (NoFileRecorded position).
Definition mem_read_file (cap : option Z) (position : Z) (files : list (list Z)) : result MemFailure (list Z) :=
  bytes ← mem_file position files;
  if within cap bytes then Ok bytes else Err SinkWrite.
Definition mem_store : Readable := {|
  medium := list (list Z);
  failure := MemFailure;
  read_into cap p files := (mem_read_file cap p files, files);
  head_of p n files := (take (Z.to_nat n) <$> mem_read_file None p files, files);
  ends_at_or_before p files := (Ok (bool_decide (Z.of_nat (length files) ≤ p)), files);
  count_files files := (Ok (Some (Z.of_nat (length files))), files);
|}.
