(* ===== verification/ConfirmSound.v ===== *)
(** * The confirm, against its reference

    The chain walk on any medium and any plan is the plain reading of the
    format: the seal, File 3, then each content file in the order of File 3.
    One simulation carries both results: on a medium that answers, the walk is
    that reading whatever the order, the files held and the files skipped; on
    one whose reads fail or stop short, it never finds a sound medium bad and
    never passes what the plain reading does not. *)

From S2P Require Import Prelude LayoutModel Format Confirm.
Local Open Scope Z_scope.
Local Open Scope rust_scope.

Section sound.
Context `{!Digest, !TomlCrate, !Readable}.

(** ** Runs of a walk *)

Definition wruns {A} (w : Walk) (m : walk A) (Q : A → Walk → Prop) (E : WalkError → Walk → Prop) : Prop :=
  match m w with (Ok a, w') => Q a w' | (Err e, w') => E e w' end.

Lemma wruns_ret {A} w (a : A) (Q : A → Walk → Prop) (E : WalkError → Walk → Prop) :
  Q a w → wruns w (mret a) Q E.
Proof. done. Qed.

Lemma wruns_bind {A B} w (m : walk A) (f : A → walk B) Q E :
  wruns w m (λ a w', wruns w' (f a) Q E) E → wruns w (m ≫= f) Q E.
Proof. unfold wruns, mbind, walk_bind. destruct (m w) as [[a|e] w']; done. Qed.

Lemma wruns_mono {A} w (m : walk A) (Q Q' : A → Walk → Prop) (E E' : WalkError → Walk → Prop) :
  wruns w m Q E → (∀ a w', Q a w' → Q' a w') → (∀ e w', E e w' → E' e w') → wruns w m Q' E'.
Proof. unfold wruns. destruct (m w) as [[a|e] w']; auto. Qed.

(** ** The plain reading *)

Definition limited (full : failure) (cap : option Z) (r : result failure (list Z)) : result failure (list Z) :=
  match r with Ok l => if within cap l then Ok l else Err full | Err e => Err e end.

Section reference.
Variables (full : failure) (content : Z → result failure (list Z)).

(** A claim against the file at its position. *)
Definition check_claim (c : ParsedIndexEntry) (t : Tally) : Tally :=
  match pe_sha256_encrypted c, pe_size_bytes c with
  | Some want_hash, Some want_size =>
      (compare_claim (as_u32 (pe_position c)) want_size want_hash (content (as_u32 (pe_position c))) t).2
  | _, _ => disagree (mkMismatch (as_u32 (pe_position c)) NavigationDisagreement ClaimIncomplete) t
  end.

(** The claims of the content files on the tape. *)
Definition due (fi_pos : Z) (ending : WalkEnding) (c : ParsedIndexEntry) : bool :=
  negb (bool_decide (as_u32 (pe_position c) = fi_pos ∨ ended_after ending < as_u32 (pe_position c))).

Definition check_claims (fi_pos : Z) (ending : WalkEnding) (claims : list ParsedIndexEntry) (t : Tally) : Tally :=
  foldl (λ t c, check_claim c t) t (filter (λ c, due fi_pos ending c = true) claims).

(** The navigable tier checks the claim of the file to read back, if any. *)
Definition check_readback (ending : WalkEnding) (claims : list ParsedIndexEntry) (t : Tally) : Tally :=
  match walk_readback ending with
  | None => t
  | Some p =>
      match List.find (λ c, bool_decide (as_u32 (pe_position c) = p)) claims with
      | Some c => check_claim c t
      | None =>
          if existsb (λ m, bool_decide (mm_position m = p)) (against t) then t
          else disagree (mkMismatch p NavigationDisagreement NotListed) t
      end
  end.

Definition plain_index (fi_pos len : Z) : Z * option string * result (Mismatch failure) (list ParsedIndexEntry) :=
  index_of_read fi_pos len (limited full (Some SMALL_FILE_CAP) (content fi_pos)).

Definition plain_seal (ending : WalkEnding) : SealRead :=
  seal_of_read ending (limited full (Some SMALL_FILE_CAP) (content (walk_seal_position ending))).

Definition plain_rest (layout : Layout) (t : Tier) (fi_pos len : Z) (ending : WalkEnding) : FromIndex :=
  match plain_index fi_pos len with
  | (n, h, Err m) => mkFromIndex n h [m]
  | (n, h, Ok claims) =>
      let t0 := mkTally n (navigation layout fi_pos claims) in
      let t := match t with
               | Integrity => check_claims fi_pos ending claims t0
               | Navigable => check_readback ending claims t0
               end in
      mkFromIndex (checked t) h (against t)
  end.

(** The reading of the tape that the format describes. *)
Definition plain_reading (layout : Layout) (plan : ConfirmPlan) : result WalkError (Evidence failure) :=
  '(fi_pos, len, ending) ← walk_frame layout plan;
  Ok (judge (tier plan) fi_pos ending (plain_seal ending) (plain_rest layout (tier plan) fi_pos len ending)).

(** A claim whose file is on the tape as it says. *)
Definition reads_clean (c : ParsedIndexEntry) (want : string) : Prop :=
  pe_sha256_encrypted c = Some want ∧
  ∃ size bytes, pe_size_bytes c = Some size ∧ content (as_u32 (pe_position c)) = Ok bytes ∧
    size ≤ Z.of_nat (length bytes) ∧ sha256_hex (take (Z.to_nat size) bytes) = want.

(** Checkpoints that say what was read. *)
Definition honest (layout : Layout) (plan : ConfirmPlan) (r : Checkpoints) : Prop :=
  ∀ fi_pos len ending n h claims c want,
    walk_frame layout plan = Ok (fi_pos, len, ending) → plain_index fi_pos len = (n, Some h, Ok claims) →
    cp_front_index_sha256 r = h → c ∈ claims → passed r !! as_u32 (pe_position c) = Some want →
    pe_sha256_encrypted c = Some want → is_Some (pe_size_bytes c) → reads_clean c want.

(** A reported checkpoint: a claim of File 3 that read clean. *)
Definition reported_clean (layout : Layout) (plan : ConfirmPlan) (k : Checkpoint) : Prop :=
  ∃ fi_pos len ending n claims c,
    walk_frame layout plan = Ok (fi_pos, len, ending) ∧
    plain_index fi_pos len = (n, Some (at_front_index_sha256 k), Ok claims) ∧
    c ∈ claims ∧ as_u32 (pe_position c) = at_position k ∧ reads_clean c (at_sha256 k).

(** The seal in hand is the file on the tape. *)
Definition seal_in_place (layout : Layout) (plan : ConfirmPlan) : Prop :=
  ∀ bytes fi_pos len ending, cached_seal plan = Some bytes → walk_frame layout plan = Ok (fi_pos, len, ending) →
    content (walk_seal_position ending) = Ok bytes.
End reference.

(** ** Where a walk reads *)

(** The last position of a Layout a walk of it may read. *)
Definition entry_position (k : ZoneKind) (layout : Layout) : Z :=
  match List.find (λ e, bool_decide (le_kind e = k)) (entries layout) with
  | Some e => as_u32 (le_position e)
  | None => 0
  end.
Definition walk_reach (layout : Layout) : Z := Z.max (entry_position FrontIndex layout) (entry_position SealMarker layout).

Lemma as_u32_bound z : 0 ≤ as_u32 z ≤ u32_max.
Proof. unfold as_u32. unfold_width. pose proof (Z.mod_pos_bound z (2 ^ 32)). lia. Qed.

Lemma frame_reach layout plan fi_pos len ending : walk_frame layout plan = Ok (fi_pos, len, ending) →
  0 ≤ fi_pos ≤ walk_reach layout ∧ 0 ≤ walk_seal_position ending ≤ walk_reach layout ∧
  ∀ p, walk_readback ending = Some p → p ≤ walk_reach layout.
Proof.
  unfold walk_frame, walk_reach, entry_position, ending_of. intros Hw.
  destruct (List.find (λ e, bool_decide (le_kind e = SealMarker)) (entries layout)) as [s|]; cbn in Hw; [|done].
  destruct (List.find (λ e, bool_decide (le_kind e = FrontIndex)) (entries layout)) as [f|]; cbn in Hw; [|done].
  pose proof (as_u32_bound (le_position s)). pose proof (as_u32_bound (le_position f)).
  destruct (le_size_bytes f); cbn in Hw; [|done].
  destruct (plan_ended_after plan) as [k|]; case_bool_decide; cbn in Hw; try done;
    (destruct (readback plan) as [q|]; [case_bool_decide; cbn in Hw; [done|]|cbn in Hw]);
    injection Hw as <- <- <-; unfold walk_seal_position; cbn; (split; [lia|]); (split; [lia|]); intros ? [= <-]; lia.
Qed.

Lemma dedup_sub l x : x ∈ dedup l → x ∈ l.
Proof.
  induction l as [|y [|z l] IH]; [done..|]. cbn [dedup]. case_bool_decide; intros Hx; [auto using list_elem_of_further|].
  apply elem_of_cons in Hx as [->|Hx]; [left|right; auto].
Qed.

Lemma ahead_below layout fi_pos resume : Forall (λ p, 0 ≤ p < fi_pos) (ahead_of_index layout fi_pos resume).
Proof.
  apply Forall_forall. intros p Hp%dedup_sub. rewrite merge_sort_Permutation in Hp.
  apply list_elem_of_fmap in Hp as (e & -> & [He _]%list_elem_of_filter). pose proof (as_u32_bound (le_position e)).
  unfold holds_ahead in He. rewrite !andb_true_iff, bool_decide_eq_true in He. lia.
Qed.
(** ** The simulation *)

(** [F]: whether the medium may fail. It answers what the plain reading
    reads, or, when it may fail, an error, or fewer of a file's bytes for any
    file but the seal. *)
Section simulation.
Variables (F : Prop) (full : failure) (seal_pos : option Z).

Definition D (p : Z) (r r0 : result failure (list Z)) : Prop :=
  r = r0 ∨ F ∧ ((∃ e, r = Err e) ∨ seal_pos ≠ Some p ∧ ∃ l l0, r = Ok l ∧ r0 = Ok l0 ∧ l `prefix_of` l0).

Definition harmless (l : list (Mismatch failure)) : Prop := Forall (λ m, proves_bad (kind m) = false) l.

(** What the walk has found, where the plain reading has [t0]. *)
Definition T (t t0 : Tally) : Prop :=
  t = t0 ∨ F ∧ ∃ common a a0, against t = common ++ a ∧ against t0 = common ++ a0 ∧
    (harmless a0 → harmless a) ∧ (a = [] → a0 = [] ∧ checked t = checked t0).

Lemma D_refl p r : D p r r.
Proof. by left. Qed.

Lemma D_prefix p l r : D p (Ok l) r → ∃ l0, r = Ok l0 ∧ l `prefix_of` l0.
Proof. intros [<-|[_ [[e ?]|[_ (l' & l0 & [= <-] & -> & ?)]]]]; [by exists l|done|by exists l0]. Qed.

Lemma T_extend t t0 n n0 b b0 : T t t0 →
  (harmless b0 → harmless b) → (b = [] → b0 = [] ∧ n = n0) → b = b0 ∧ n = n0 ∨ F →
  T (mkTally (checked t + n) (against t ++ b)) (mkTally (checked t0 + n0) (against t0 ++ b0)).
Proof.
  intros HT Hb Hnil [[-> ->]|HF].
  - destruct HT as [->|(HF & c & a & a0 & -> & -> & Ha & Hn)]; [by left|right]. split; [done|].
    exists c, (a ++ b0), (a0 ++ b0). rewrite !app_assoc. split_and!; [done|done| |].
    + unfold harmless. rewrite !Forall_app. intuition.
    + intros [-> ->]%app_nil. cbn. destruct Hn as [-> ->]; [done|]. done.
  - right. split; [done|].
    assert (∃ c a a0, against t = c ++ a ∧ against t0 = c ++ a0 ∧ (harmless a0 → harmless a) ∧
      (a = [] → a0 = [] ∧ checked t = checked t0)) as (c & a & a0 & Ht & Ht0 & Ha & Hn).
    { destruct HT as [->|[_ HT]]; [|done]. exists (against t0), [], []. rewrite app_nil_r. auto. }
    exists c, (a ++ b), (a0 ++ b0). cbn. rewrite Ht, Ht0, !app_assoc. split_and!; [done|done| |].
    + unfold harmless in *. rewrite !Forall_app. intuition.
    + intros [-> ->]%app_nil. destruct Hn as [-> ->]; [done|]. by destruct Hnil as [-> ->].
Qed.

Lemma T_disagree m t t0 : T t t0 → T (disagree m t) (disagree m t0).
Proof.
  intros HT. unfold disagree. pose proof (T_extend t t0 0 0 [m] [m] HT). rewrite !Z.add_0_r in *. auto.
Qed.

Lemma T_count t t0 : T t t0 → T (mkTally (checked t + 1) (against t)) (mkTally (checked t0 + 1) (against t0)).
Proof. intros HT. pose proof (T_extend t t0 1 1 [] [] HT). rewrite !app_nil_r in *. auto. Qed.

(** What [compare_claim] adds to the tally. *)
Definition claim_adds (p size : Z) (want : string) (r : result failure (list Z)) : Z * list (Mismatch failure) :=
  let t := (compare_claim p size want r (mkTally 0 [])).2 in (checked t, against t).

Lemma compare_adds p size want r t :
  (compare_claim p size want r t).2 =
    mkTally (checked t + (claim_adds p size want r).1) (against t ++ (claim_adds p size want r).2).
Proof.
  unfold claim_adds, compare_claim. destruct r as [l|e]; [|by cbn; rewrite Z.add_0_r].
  repeat case_bool_decide; cbn; by rewrite ?app_nil_r.
Qed.

Lemma T_compare p size want r r0 t t0 : D p r r0 → T t t0 →
  T (compare_claim p size want r t).2 (compare_claim p size want r0 t0).2.
Proof.
  intros [<-|[HF HD]] HT; rewrite !compare_adds.
  { apply T_extend; [done|done|done|by left]. }
  destruct HD as [[e ->]|[_ (l & l0 & -> & -> & [tl ->])]].
  - apply T_extend; [done| |done|by right]. intros _. by apply Forall_singleton.
  - destruct (decide (Z.of_nat (length l) < size)) as [Hlt|Hge].
    + assert (claim_adds p size want (Ok l) =
        (1, [mkMismatch p ContentUnreadable (ShortRead size (Z.of_nat (length l)))])) as ->.
      { unfold claim_adds, compare_claim. by rewrite (bool_decide_eq_true_2 _ Hlt). }
      apply T_extend; [done| |done|by right]. intros _. by apply Forall_singleton.
    + assert (claim_adds p size want (Ok (l ++ tl)) = claim_adds p size want (Ok l)) as ->; [|by apply T_extend; [..|right]].
      unfold claim_adds, compare_claim. rewrite (bool_decide_eq_false_2 _ Hge).
      rewrite (bool_decide_eq_false_2 (Z.of_nat (length (l ++ tl)) < size)) by (rewrite length_app; lia).
      by rewrite take_app_le by lia.
Qed.

(** The medium answers at the positions up to [top]. *)
Variables (content : Z → result failure (list Z)) (Inv : medium → Prop) (top : Z).
Hypothesis answers : ∀ m cap p, 0 ≤ p ≤ top → Inv m → ∃ r m',
  read_into cap p m = (r, m') ∧ Inv m' ∧ D p r (limited full cap (content p)).

Variable P : Checkpoint → Prop.

Definition walked (w w' : Walk) : Prop :=
  stops w' `suffix_of` stops w ∧ ∃ new, reported w' = reported w ++ new ∧ Forall P new.

Lemma walked_refl w : walked w w.
Proof. split; [done|]. exists []. by rewrite app_nil_r. Qed.

Lemma walked_same w w' : stops w' = stops w → reported w' = reported w → walked w w'.
Proof. intros Hs Hr. split; [by rewrite Hs|]. exists []. by rewrite Hr, app_nil_r. Qed.

Lemma walked_trans w1 w2 w3 : walked w1 w2 → walked w2 w3 → walked w1 w3.
Proof.
  intros [Hs1 (n1 & Hr1 & HP1)] [Hs2 (n2 & Hr2 & HP2)]. split; [by etrans|].
  exists (n1 ++ n2). rewrite Hr2, Hr1, app_assoc. split; [done|]. by apply Forall_app.
Qed.

Definition good (w : Walk) : Prop :=
  Inv (on w) ∧ ∀ b p, seal_in_hand w = Some b → seal_pos = Some p → content p = Ok b.

Lemma read_spec cap p w : 0 ≤ p ≤ top → good w →
  wruns w (read full seal_pos cap p)
    (λ r w', good w' ∧ walked w w' ∧ D p r (limited full cap (content p))) (λ _ _, False).
Proof.
  intros Hp [Hi Hs]. unfold wruns, read.
  destruct (answers (on w) cap p Hp Hi) as (r & m' & Hr & Hi' & HD). rewrite Hr.
  destruct (seal_in_hand w) as [b|] eqn:Hh.
  - case_bool_decide as Hsp; cbn.
    + rewrite (Hs _ _ eq_refl Hsp). cbn. split; [by split|]. split; [by apply walked_same|]. apply D_refl.
    + split; [split; [done|]; intros b' p'; cbn; rewrite ?Hh; apply Hs|]. split; [by apply walked_same|done].
  - cbn. split; [by split|]. split; [by apply walked_same|done].
Qed.

Definition answer (h : Held) : result failure (list Z) :=
  match h with HeldBytes b => Ok b | HeldFailed e => Err e end.
Definition held_ok (held : gmap Z Held) : Prop := ∀ p h, held !! p = Some h → D p (answer h) (content p).

Lemma hold_ok p r held : held_ok held → D p r (content p) → held_ok (hold p r held).
Proof.
  intros Hh HD q h. destruct r as [b|e]; cbn; [destruct (bool_decide _)|]; try apply Hh;
    (rewrite lookup_insert_Some; intros [[<- <-]|[_ ?]]; [done|by apply Hh]).
Qed.

Lemma limited_none r : limited full None r = r.
Proof. by destruct r. Qed.

Lemma hold_all_spec ahead : Forall (λ p, 0 ≤ p ≤ top) ahead → ∀ held w, good w → held_ok held →
  wruns w (hold_all full seal_pos ahead held) (λ held w', good w' ∧ walked w w' ∧ held_ok held) (λ _ _, False).
Proof.
  induction 1 as [|p ahead Hp _ IH]; intros held w Hw Hh; cbn [hold_all].
  - apply wruns_ret. split; [done|]. split; [apply walked_refl|done].
  - apply wruns_bind. eapply wruns_mono; [by apply read_spec| |done].
    intros r w1 (Hg & Hl & HD). rewrite limited_none in HD.
    eapply wruns_mono; [apply IH; [done|by apply hold_ok]| |done].
    intros held' w2 (? & ? & ?). split; [done|]. split; [by eapply walked_trans|done].
Qed.

Lemma compare_clean p size want r t k : (compare_claim p size want r t).1 = Some k →
  k = want ∧ ∃ l, r = Ok l ∧ size ≤ Z.of_nat (length l) ∧ sha256_hex (take (Z.to_nat size) l) = want.
Proof.
  unfold compare_claim. destruct r as [l|e]; [|done]. repeat case_bool_decide; try done.
  intros [= <-]. split; [done|]. exists l. split; [done|]. split; [lia|]. by destruct (decide (sha256_hex (take (Z.to_nat size) l) = want)).
Qed.

Lemma read_back_claim_spec c held w t t0 : as_u32 (pe_position c) ≤ top → good w → T t t0 →
  (∀ h, held = Some h → D (as_u32 (pe_position c)) (answer h) (content (as_u32 (pe_position c)))) →
  wruns w (read_back_claim full seal_pos c held t)
    (λ o w', good w' ∧ walked w w' ∧ T o.2 (check_claim content c t0)
       ∧ ∀ want, o.1 = Some want → reads_clean content c want) (λ _ _, False).
Proof.
  intros Htop Hw HT Hh. unfold read_back_claim, check_claim, reads_clean.
  pose proof (Z.mod_pos_bound (pe_position c) (2 ^ 32) eq_refl) as Hlow.
  destruct (pe_sha256_encrypted c) as [want|] eqn:Hs, (pe_size_bytes c) as [size|] eqn:Hz;
    try (apply wruns_ret; split; [done|]; split; [apply walked_refl|]; split; [by apply T_disagree|done]).
  apply wruns_bind.
  eapply (wruns_mono w _ (λ r w', good w' ∧ walked w w' ∧ D (as_u32 (pe_position c)) r (content (as_u32 (pe_position c)))) _ (λ _ _, False)); [| |done].
  - destruct held as [[b|e]|].
    + apply wruns_ret. split; [done|]. split; [apply walked_refl|]. by apply (Hh (HeldBytes b)).
    + apply wruns_ret. split; [done|]. split; [apply walked_refl|]. by apply (Hh (HeldFailed e)).
    + eapply wruns_mono; [apply read_spec; [unfold as_u32 in *; lia|done]| |done]. intros r w'. by rewrite limited_none.
  - intros r w' (Hg & Hl & HD). apply wruns_ret. split; [done|]. split; [done|]. split; [by apply T_compare|].
    intros k Hk. apply compare_clean in Hk as (-> & l & -> & Hn & Hd). split; [done|].
    apply D_prefix in HD as (l0 & -> & [tl ->]). exists size, (l ++ tl). split_and!; [done|done|rewrite length_app; lia|].
    rewrite take_app_le by lia. done.
Qed.

Lemma report_spec k w : good w → P k → wruns w (report k) (λ _ w', good w' ∧ walked w w') (λ _ _, False).
Proof. intros Hw HP. split; [done|]. split; [done|]. exists [k]. auto. Qed.

Lemma check_signal_spec e w : good w →
  wruns w (check_signal e) (λ _ w', good w' ∧ walked w w') (λ e' w', e' = e ∧ true ∈ stops w ∧ walked w w').
Proof.
  intros Hw. unfold wruns, check_signal.
  assert (walked w (mkWalk (on w) (seal_in_hand w) (drop 1 (stops w)) (reported w))) as Hl.
  { split; [apply suffix_drop|]. exists []. by rewrite app_nil_r. }
  destruct (stops w) as [|[|] l]; cbn in *; split; try done. split; [left|done].
Qed.

Lemma skips_sound resume ending c want : skips resume ending c = Some want →
  ∃ r, resume = Some r ∧ pe_sha256_encrypted c = Some want ∧ is_Some (pe_size_bytes c)
    ∧ passed r !! as_u32 (pe_position c) = Some want.
Proof.
  unfold skips. destruct resume as [r|], (pe_sha256_encrypted c) as [k|], (pe_size_bytes c); try done.
  case_bool_decide; [done|]. case_bool_decide; [|done]. intros [= <-]. eauto.
Qed.

Lemma check_clean c want t : reads_clean content c want →
  check_claim content c t = mkTally (checked t + 1) (against t).
Proof.
  intros (Hs & size & bytes & Hz & Hc & Hn & Hd). unfold check_claim. rewrite Hs, Hz, Hc. cbn.
  rewrite bool_decide_eq_false_2 by lia. rewrite bool_decide_eq_false_2 by naive_solver. done.
Qed.

Lemma in_stops w w' : walked w w' → true ∈ stops w' → true ∈ stops w.
Proof. intros [[l ->] _]. rewrite elem_of_app. auto. Qed.

Lemma content_loop_spec fi_pos h ending resume held claims :
  ended_after ending ≤ top → held_ok held →
  (∀ c want, c ∈ claims → reads_clean content c want → P (mkCheckpoint (as_u32 (pe_position c)) want h)) →
  (∀ c want, c ∈ claims → skips resume ending c = Some want → reads_clean content c want) →
  ∀ w t t0, good w → T t t0 →
  wruns w (content_loop full seal_pos fi_pos h ending resume held claims t)
    (λ t w', good w' ∧ walked w w' ∧ T t (check_claims content fi_pos ending claims t0))
    (λ e w', (∃ p n, e = StoppedBefore p n) ∧ true ∈ stops w ∧ walked w w').
Proof.
  intros Htop Hh. induction claims as [|c claims IH]; intros HP Hskip w t t0 Hw HT; cbn [content_loop].
  { apply wruns_ret. split; [done|]. split; [apply walked_refl|done]. }
  specialize (IH ltac:(set_solver) ltac:(set_solver)).
  unfold check_claims. rewrite filter_cons.
  case_bool_decide as Hd; [rewrite decide_False by (unfold due; by rewrite bool_decide_eq_true_2); by apply IH|].
  rewrite decide_True by (unfold due; by rewrite bool_decide_eq_false_2).
  cbn [foldl]. fold (check_claims content fi_pos ending claims).
  destruct (skips resume ending c) as [want|] eqn:Hs.
  - pose proof (Hskip c want ltac:(left) Hs) as Hc. apply wruns_bind.
    eapply wruns_mono; [apply report_spec; [done|apply HP; [left|done]]| |done].
    intros _ w1 [Hg Hl]. rewrite (check_clean _ _ _ Hc). eapply wruns_mono; [apply IH; [done|by apply T_count]| |].
    + intros t' w2 (? & ? & ?). split; [done|]. split; [by eapply walked_trans|done].
    + intros e w2 (? & ? & ?). split; [done|]. split; [by eapply in_stops|by eapply walked_trans].
  - apply wruns_bind. eapply wruns_mono; [by apply check_signal_spec| |].
    2: { intros e w1 (-> & ? & ?). split; [by do 2 eexists|done]. }
    intros _ w1 [Hg1 Hl1]. apply wruns_bind.
    eapply wruns_mono; [apply (read_back_claim_spec c _ w1 t t0 ltac:(lia) Hg1 HT); intros k; apply Hh| |done].
    intros [clean t1] w2 (Hg2 & Hl2 & HT2 & Hc2). cbn in HT2, Hc2. apply wruns_bind.
    eapply (wruns_mono w2 _ (λ _ w', good w' ∧ walked w2 w') _ (λ _ _, False)); [| |done].
    + destruct clean as [want|]; [apply report_spec; [done|apply HP; [left|by apply Hc2]]|].
      apply wruns_ret. split; [done|apply walked_refl].
    + intros _ w3 [Hg3 Hl3]. assert (walked w w3) as Hl by eauto using walked_trans.
      eapply wruns_mono; [by apply IH| |].
      * intros t' w4 (? & ? & ?). split; [done|]. split; [by eapply walked_trans|done].
      * intros e w4 (? & ? & ?). split; [done|]. split; [by eapply in_stops|by eapply walked_trans].
Qed.

Lemma read_back_navigable_spec ending claims t w : (∀ p, walk_readback ending = Some p → p ≤ top) → good w →
  wruns w (read_back_navigable full seal_pos ending claims t)
    (λ t' w', good w' ∧ walked w w' ∧ T t' (check_readback content ending claims t)) (λ _ _, False).
Proof.
  intros Htop Hw. assert (T t t) as HT by by left. unfold read_back_navigable, check_readback. destruct (walk_readback ending) as [p|].
  2: { apply wruns_ret. split; [done|]. split; [apply walked_refl|done]. }
  destruct (List.find _ claims) as [c|] eqn:Hfind.
  - apply List.find_some in Hfind as [_ Hc%bool_decide_eq_true]. specialize (Htop p eq_refl). apply wruns_bind.
    eapply wruns_mono; [by apply (read_back_claim_spec c None w t t ltac:(lia))| |done].
    intros [? t'] w' (? & ? & ? & _). by apply wruns_ret.
  - apply wruns_ret. split; [done|]. split; [apply walked_refl|]. by left.
Qed.

(** File 3 as a failing medium gives it: the same, or unreadable. *)
Lemma index_sim fi_pos len r r0 : D fi_pos r r0 →
  index_of_read fi_pos len r = index_of_read fi_pos len r0 ∨
  F ∧ ∃ n d, index_of_read fi_pos len r = (n, None, Err (mkMismatch fi_pos FrontIndexUnreadable d)).
Proof.
  intros [<-|[HF [[e ->]|[_ (l & l0 & -> & -> & [tl ->])]]]]; [by left|right; split; [done|by do 2 eexists]|].
  destruct (decide (Z.of_nat (length l) < len)) as [Hlt|Hge].
  - right. split; [done|]. unfold index_of_read. rewrite (bool_decide_eq_true_2 _ Hlt). by do 2 eexists.
  - left. unfold index_of_read. rewrite (bool_decide_eq_false_2 _ Hge).
    rewrite (bool_decide_eq_false_2 (Z.of_nat (length (l ++ tl)) < len)) by (rewrite length_app; lia).
    by rewrite take_app_le by lia.
Qed.

(** The walk from File 3 against the plain one. *)
Definition rest_sim (fi_pos : Z) (rest rest0 : FromIndex) : Prop :=
  fi_hash rest = fi_hash rest0 ∧
    T (mkTally (fi_checked rest) (fi_mismatches rest)) (mkTally (fi_checked rest0) (fi_mismatches rest0))
  ∨ F ∧ fi_hash rest = None ∧ ∃ d, fi_mismatches rest = [mkMismatch fi_pos FrontIndexUnreadable d].

Lemma walk_from_index_spec layout plan fi_pos ending len w :
  walk_frame layout plan = Ok (fi_pos, len, ending) → walk_reach layout ≤ top → good w →
  (∀ k, reported_clean full content layout plan k → P k) →
  (∀ r, resume plan = Some r → honest full content layout plan r) →
  wruns w (walk_from_index full seal_pos layout plan fi_pos ending len)
    (λ rest w', good w' ∧ walked w w' ∧ rest_sim fi_pos rest (plain_rest full content layout (tier plan) fi_pos len ending))
    (λ e w', (∃ p n, e = StoppedBefore p n) ∧ true ∈ stops w ∧ walked w w').
Proof.
  intros Hf Htop Hw HP Hhon. destruct (frame_reach layout plan fi_pos len ending Hf) as (Hfi & Hsl & Hrb).
  unfold walk_from_index. apply wruns_bind.
  set (hold_them := if bool_decide (tier plan = Integrity) then _ else _).
  assert (wruns w hold_them (λ held w', good w' ∧ walked w w' ∧ held_ok held) (λ _ _, False)) as Hh.
  { assert (held_ok ∅) as He by (intros ? ?; by rewrite lookup_empty).
    unfold hold_them. destruct (bool_decide (tier plan = Integrity)).
    - apply hold_all_spec; [|done..]. eapply Forall_impl; [apply ahead_below|]. cbn. intros. lia.
    - apply wruns_ret. split; [done|]. split; [apply walked_refl|done]. }
  clearbody hold_them. eapply wruns_mono; [exact Hh| |done]. intros held w1 (Hg1 & Hl1 & Hheld).
  apply wruns_bind. eapply wruns_mono; [apply read_spec; [lia|done]| |done]. intros r w2 (Hg2 & Hl2 & HD).
  assert (walked w w2) as Hl by by eapply walked_trans.
  unfold plain_rest. fold (plain_index full content fi_pos len) in HD.
  apply (index_sim fi_pos len) in HD as [HD|(HF & n & d & HD)]; rewrite HD; cycle 1.
  { apply wruns_ret. split; [done|]. split; [done|]. right. split; [done|]. split; [done|by exists d]. }
  fold (plain_index full content fi_pos len). destruct (plain_index full content fi_pos len) as [[n h] [claims|m]] eqn:Hi; cycle 1.
  { apply wruns_ret. split; [done|]. split; [done|]. left. split; [done|by left]. }
  assert (∃ k, h = Some k) as [k ->].
  { unfold plain_index, index_of_read in Hi. repeat case_match; simplify_eq; eauto. }
  apply wruns_bind. cbn [default id].
  destruct (tier plan) eqn:Ht;
    [change (bool_decide (Navigable = Integrity)) with false|change (bool_decide (Integrity = Integrity)) with true]; cbv iota.
  - eapply wruns_mono; [apply read_back_navigable_spec; [intros p Hp; specialize (Hrb p Hp); lia|done]| |done].
    intros t w3 (? & ? & HT). apply wruns_ret. split; [done|]. split; [by eapply walked_trans|].
    left. split; [done|]. by destruct t, (check_readback _ _ _ _).
  - eapply wruns_mono; [apply content_loop_spec with (t0 := mkTally n (navigation layout fi_pos claims)); [unfold walk_seal_position in Hsl; lia|done|..|done|by left]| |].
    + intros c want Hc Hcl. apply HP. exists fi_pos, len, ending, n, claims, c. done.
    + intros c want Hc Hs. apply skips_sound in Hs as (r0 & Hr & Hs & Hz & Hp).
      destruct (resume plan) as [r1|] eqn:Hr1; [|done]. cbn in Hr. case_bool_decide as Hk; [|done].
      injection Hr as <-. eapply (Hhon r1); done.
    + intros t w3 (? & ? & HT). apply wruns_ret. split; [done|]. split; [by eapply walked_trans|].
      left. split; [done|]. by destruct t, (check_claims _ _ _ _ _).
    + intros e w3 (? & ? & ?). split; [done|]. split; [by eapply in_stops|by eapply walked_trans].
Qed.

Definition seal_sim (s s0 : SealRead) : Prop :=
  s = s0 ∨ F ∧ ∃ p d, s = GateRefused 0 (mkMismatch p SealUnreadable d).

Lemma read_seal_spec ending w : seal_pos = Some (walk_seal_position ending) → 0 ≤ walk_seal_position ending ≤ top → good w →
  wruns w (read_seal full seal_pos ending)
    (λ s w', good w' ∧ walked w w' ∧ seal_sim s (plain_seal full content ending)) (λ _ _, False).
Proof.
  intros Hsp Hp Hw. apply wruns_bind. eapply wruns_mono; [by apply read_spec| |done].
  intros r w' (Hg & Hl & HD). apply wruns_ret. split; [done|]. split; [done|].
  destruct HD as [->|[HF [[e ->]|[? _]]]]; [by left| |done]. right. split; [done|]. by do 2 eexists.
Qed.

(** No disagreement after the seal's is about the ending. *)
Definition on_content (rest : FromIndex) : Prop :=
  Forall (λ m, kind m ≠ EndedAfterDisagrees) (fi_mismatches rest).

Lemma check_claim_kinds c t : Forall (λ m, kind m ≠ EndedAfterDisagrees) (against t) →
  Forall (λ m, kind m ≠ EndedAfterDisagrees) (against (check_claim content c t)).
Proof.
  intros Ht. unfold check_claim, compare_claim. repeat case_match; cbn;
    try (apply Forall_app; split; [done|by apply Forall_singleton]); done.
Qed.

Lemma navigation_kinds layout fi_pos claims :
  Forall (λ m, kind m ≠ EndedAfterDisagrees) (navigation layout fi_pos claims).
Proof.
  apply Forall_app. split; [apply Forall_fmap, Forall_true; done|].
  apply Forall_join, Forall_fmap, Forall_true. intros e. cbn. unfold entry_disagreements.
  repeat case_match; repeat constructor; done.
Qed.

Lemma plain_rest_kinds layout t fi_pos len ending :
  on_content (plain_rest full content layout t fi_pos len ending).
Proof.
  unfold on_content, plain_rest.
  destruct (plain_index full content fi_pos len) as [[n h] [claims|m]] eqn:Hi; cbn.
  - destruct t; cbn.
    + unfold check_readback. pose proof (navigation_kinds layout fi_pos claims).
      repeat case_match; [by apply check_claim_kinds|done|..|done].
      cbn. apply Forall_app. split; [done|by apply Forall_singleton].
    + unfold check_claims. generalize (filter (λ c, due fi_pos ending c = true) claims).
      assert (Forall (λ m, kind m ≠ EndedAfterDisagrees)
        (against (mkTally n (navigation layout fi_pos claims)))) as Ht by apply navigation_kinds.
      revert Ht. generalize (mkTally n (navigation layout fi_pos claims)). intros t Ht l.
      revert t Ht. induction l as [|c l IH]; intros t Ht; [done|]. by apply IH, check_claim_kinds.
  - unfold plain_index, index_of_read in Hi. repeat case_match; simplify_eq; by repeat constructor.
Qed.

(** The evidence of a walk against the plain reading's. *)
Definition evidence_sim (plan : ConfirmPlan) (fi_pos : Z) (ending : WalkEnding) (ev ev0 : Evidence failure) : Prop :=
  ∃ s s0 rest rest0, ev = judge (tier plan) fi_pos ending s rest ∧ ev0 = judge (tier plan) fi_pos ending s0 rest0 ∧
    seal_sim s s0 ∧ (rest_sim fi_pos rest rest0 ∨ ∃ n m, s = GateRefused n m) ∧ on_content rest0.

Lemma chain_walk_spec layout plan w :
  (∀ fi_pos len ending, walk_frame layout plan = Ok (fi_pos, len, ending) → seal_pos = Some (walk_seal_position ending)) →
  walk_reach layout ≤ top → good w → (∀ k, reported_clean full content layout plan k → P k) →
  (∀ r, resume plan = Some r → honest full content layout plan r) →
  wruns w (chain_walk full seal_pos layout plan)
    (λ ev w', walked w w' ∧ ∃ fi_pos ending ev0,
       plain_reading full content layout plan = Ok ev0 ∧ evidence_sim plan fi_pos ending ev ev0)
    (λ e w', walked w w' ∧ ((∃ p n, e = StoppedBefore p n) ∧ true ∈ stops w
       ∨ plain_reading full content layout plan = Err e)).
Proof.
  intros Hsp Htop Hw HP Hhon. unfold chain_walk, plain_reading. apply wruns_bind.
  destruct (walk_frame layout plan) as [[[fi_pos len] ending]|e] eqn:Hf; cbn.
  2: { split; [apply walked_refl|by right]. }
  specialize (Hsp _ _ _ eq_refl). destruct (frame_reach layout plan fi_pos len ending Hf) as (_ & Hseal & _).
  assert (0 ≤ walk_seal_position ending ≤ top) as Hpos by lia. unfold wruns at 1. cbn. apply wruns_bind.
  set (early := if (_ && _ : bool) then _ else _).
  assert (wruns w early (λ o w', good w' ∧ walked w w' ∧
    ∀ s, o = Some s → seal_sim s (plain_seal full content ending)) (λ _ _, False)) as He.
  { unfold early. destruct (_ && _).
    - apply wruns_bind. eapply wruns_mono; [by apply read_seal_spec| |done].
      intros s w' (? & ? & ?). apply wruns_ret. split; [done|]. split; [done|]. by intros ? [= <-].
    - apply wruns_ret. split; [done|]. split; [apply walked_refl|done]. }
  clearbody early. eapply wruns_mono; [exact He| |done]. intros o w1 (Hg1 & Hl1 & Ho).
  assert (∀ s w2 rest, good w2 → walked w w2 → seal_sim s (plain_seal full content ending) →
    rest_sim fi_pos rest (plain_rest full content layout (tier plan) fi_pos len ending) →
    walked w w2 ∧ ∃ fi_pos' ending' ev0,
      Ok (judge (tier plan) fi_pos ending (plain_seal full content ending)
        (plain_rest full content layout (tier plan) fi_pos len ending)) = @Ok WalkError _ ev0 ∧
      evidence_sim plan fi_pos' ending' (judge (tier plan) fi_pos ending s rest) ev0) as Hend.
  { intros s w2 rest ? ? Hs Hr. split; [done|]. do 3 eexists. split; [done|].
    do 4 eexists. split; [done|]. split; [done|]. split; [done|]. split; [by left|apply plain_rest_kinds]. }
  assert (∀ e w2, (∃ p n, e = StoppedBefore p n) ∧ true ∈ stops w1 ∧ walked w1 w2 →
    walked w w2 ∧ ((∃ p n, e = StoppedBefore p n) ∧ true ∈ stops w ∨
      Ok (judge (tier plan) fi_pos ending (plain_seal full content ending)
        (plain_rest full content layout (tier plan) fi_pos len ending)) = Err e)) as Herr.
  { intros e w2 (? & ? & ?). split; [by eapply walked_trans|]. left. split; [done|by eapply in_stops]. }
  destruct o as [[n m|b k]|].
  - apply wruns_ret. split; [done|]. do 3 eexists. split; [done|]. exists (GateRefused n m), (plain_seal full content ending).
    do 2 eexists. split; [done|]. split; [done|]. split; [by apply Ho|].
    split; [right; by do 2 eexists|apply plain_rest_kinds].
  - apply wruns_bind. eapply wruns_mono; [by apply walk_from_index_spec| |apply Herr].
    intros rest w2 (Hg2 & Hl2 & Hr). apply wruns_bind, wruns_ret, wruns_ret. apply Hend; [done| |by apply Ho|done].
    by eapply walked_trans.
  - apply wruns_bind. eapply wruns_mono; [by apply walk_from_index_spec| |apply Herr].
    intros rest w2 (Hg2 & Hl2 & Hr). apply wruns_bind. eapply wruns_mono; [by apply read_seal_spec| |done].
    intros s w3 (Hg3 & Hl3 & Hs). apply wruns_ret. apply Hend; [done| |done|done].
    eapply walked_trans; [done|]. by eapply walked_trans.
  Unshelve. all: exact (mkFromIndex 0 None []).
Qed.
End simulation.
End sound.
