(* ===== verification/ConfirmSpec.v ===== *)
(** * What a confirm shows

    On a medium that answers, the evidence is the plain reading's, whatever
    the order of the reads, the seal in hand and the files an interrupted walk
    skipped; it is clean exactly when the tape is what its Layout says. On one
    whose reads fail, no fault condemns a sound tape or passes a bad one. *)

From S2P Require Import Prelude LayoutModel Format Confirm ConfirmSound.
Local Open Scope Z_scope.
Local Open Scope rust_scope.

Section spec.
Context `{!Digest, !TomlCrate, !Readable}.
Variables (full : failure) (content : Z → result failure (list Z)) (Inv : medium → Prop).

(** The medium reads what [content] says, every time, as far as a walk of the
    Layout reads. *)
Definition steady (layout : Layout) : Prop := ∀ m cap p, 0 ≤ p ≤ walk_reach layout → Inv m → ∃ m',
  read_into cap p m = (limited full cap (content p), m') ∧ Inv m'.

(** Where a walk of the plan reads the seal. *)
Definition seal_at (layout : Layout) (plan : ConfirmPlan) : option Z :=
  (λ e, plan_seal_position plan (as_u32 (le_position e))) <$>
    List.find (λ e, bool_decide (le_kind e = SealMarker)) (entries layout).

(** A read gives what [content] says, or fails, or stops early (a file but
    the seal), each time as it likes. *)
Definition faulty (layout : Layout) (plan : ConfirmPlan) : Prop := ∀ m cap p, 0 ≤ p ≤ walk_reach layout → Inv m → ∃ r m',
  read_into cap p m = (r, m') ∧ Inv m' ∧
  (r = limited full cap (content p) ∨ (∃ e, r = Err e) ∨
   seal_at layout plan ≠ Some p ∧ ∃ l l0, r = Ok l ∧ limited full cap (content p) = Ok l0 ∧ l `prefix_of` l0).

Lemma frame_seal_at layout plan fi_pos len ending :
  walk_frame layout plan = Ok (fi_pos, len, ending) →
  seal_at layout plan = Some (walk_seal_position ending) ∧ 0 ≤ fi_pos ∧ walk_readback ending = readback plan.
Proof.
  unfold walk_frame, seal_at, ending_of. rewrite !bind_ok.
  intros (e & He & Hr). apply ok_or_ok in He as ->. cbn.
  rewrite bind_ok in Hr. destruct Hr as (f & Hf & Hr). rewrite bind_ok in Hr. destruct Hr as (n & Hn & Hr).
  rewrite bind_ok in Hr. destruct Hr as (en & Hen & [= <- <- <-]).
  rewrite bind_ok in Hen. destruct Hen as (k & Hk & Hen). apply then_ok in Hen as [_ [= <-]].
  pose proof (as_u32_bound (le_position e)). pose proof (as_u32_bound (le_position f)).
  unfold plan_seal_position, walk_seal_position. cbn. split; [f_equal|split; [lia|done]].
  destruct (plan_ended_after plan) as [k'|]; case_bool_decide; simplify_eq; lia.
Qed.

(** The simulation, for [confirm_with]. *)
Lemma confirm_sim (F : Prop) layout plan sig m :
  (∀ m cap p, 0 ≤ p ≤ walk_reach layout → Inv m → ∃ r m', read_into cap p m = (r, m') ∧ Inv m' ∧
     D F (seal_at layout plan) p r (limited full cap (content p))) →
  Inv m → seal_in_place content layout plan →
  (∀ r, resume plan = Some r → honest full content layout plan r) →
  wruns (mkWalk m (cached_seal plan) sig []) (chain_walk full (seal_at layout plan) layout plan)
    (λ ev w', Forall (reported_clean full content layout plan) (reported w') ∧ ∃ fi_pos ending ev0,
       plain_reading full content layout plan = Ok ev0 ∧ evidence_sim F plan fi_pos ending ev ev0)
    (λ e w', Forall (reported_clean full content layout plan) (reported w') ∧
       ((∃ p n, e = StoppedBefore p n) ∧ true ∈ sig ∨ plain_reading full content layout plan = Err e)).
Proof.
  intros Ha Hi Hs Hh. destruct (walk_frame layout plan) as [[[fi_pos len] ending]|e] eqn:Hf.
  2: { unfold wruns, chain_walk, plain_reading. rewrite Hf. cbn. split; [constructor|by right]. }
  pose proof (frame_seal_at _ _ _ _ _ Hf) as (Hsp & _ & _).
  eapply wruns_mono; [eapply (chain_walk_spec F full (seal_at layout plan) content Inv (walk_reach layout)) with (P := reported_clean full content layout plan)|..].
  - done.
  - intros fp l en Hf'. rewrite Hf in Hf'. by simplify_eq.
  - reflexivity.
  - split; [done|]. cbn. intros b p Hb Hp. rewrite Hsp in Hp. injection Hp as <-. by eapply Hs.
  - auto.
  - done.
  - intros ev w' [[_ (new & -> & Hn)] Hev]. split; [done|]. exact Hev.
  - intros e w' [[_ (new & -> & Hn)] He]. split; [done|]. exact He.
Qed.

Lemma evidence_sim_eq plan fi_pos ending ev ev0 : evidence_sim False plan fi_pos ending ev ev0 → ev = ev0.
Proof.
  intros (s & s0 & rest & rest0 & -> & -> & [->|[[] _]] & [Hr|(n & m & ->)] & _); [|done].
  destruct Hr as [[Hh [[= Hn Hm]|[[] _]]]|[[] _]]. destruct s0; [done|]. cbn. by rewrite Hh, Hn, Hm.
Qed.

Lemma harmless_medium_evidence (ev : Evidence failure) :
  harmless (mismatches ev) → medium_evidence ev = [].
Proof.
  intros Hh. unfold medium_evidence. destruct (ending_disagrees ev); [done|].
  apply filter_none. intros m Hm. unfold harmless in Hh. rewrite Forall_forall in Hh. by rewrite (Hh m Hm).
Qed.

Lemma medium_evidence_harmless (ev : Evidence failure) :
  medium_evidence ev = [] → ending_disagrees ev = true ∨ harmless (mismatches ev).
Proof.
  unfold medium_evidence. destruct (ending_disagrees ev); [by left|]. intros He. right.
  apply Forall_forall. intros m Hm. destruct (proves_bad (kind m)) eqn:Hb; [|done].
  assert (m ∈ filter (λ m, proves_bad (kind m) = true) (mismatches ev)) as Hf by by apply list_elem_of_filter.
  rewrite He in Hf. by apply not_elem_of_nil in Hf.
Qed.

Lemma evidence_sim_faults F plan fi_pos ending ev ev0 : evidence_sim F plan fi_pos ending ev ev0 →
  (medium_evidence ev0 = [] → medium_evidence ev = []) ∧ (mismatches ev = [] → ev = ev0).
Proof.
  intros (s & s0 & rest & rest0 & -> & -> & Hs & Hr & Hk).
  destruct s as [n m|b k].
  { destruct Hs as [<-|(_ & p & d & [= -> ->])]; [done|]. split; [|done]. intros _.
    apply harmless_medium_evidence. by apply Forall_singleton. }
  destruct Hs as [<-|(_ & p & d & ?)]; [|done]. destruct Hr as [Hr|(n & m & ?)]; [|done].
  destruct Hr as [[Hh [[= Hn Hm]|(_ & c & a & a0 & Hm & Hm0 & Ha & Hnil)]]|(_ & Hh & d & Hm)].
  { cbn. by rewrite Hh, Hn, Hm. }
  - cbn in Hm, Hm0, Hnil. cbn [judge]. rewrite Hh, Hm, Hm0. split.
    + intros He. apply medium_evidence_harmless in He as [He|He].
      * unfold medium_evidence. replace (ending_disagrees _) with true; [done|]. symmetry.
        unfold ending_disagrees in *. cbn in *. rewrite !existsb_app in *.
        destruct (existsb _ (if bool_decide (k ≠ _) then _ else [])); [by rewrite orb_true_r|].
        destruct (existsb _ (match fi_hash rest0 with _ => _ end)); [done|]. cbn in *.
        rewrite <- existsb_app, <- Hm0 in He. apply existsb_exists in He as (x & Hx & Hx').
        unfold on_content in Hk. rewrite Forall_forall in Hk. case_bool_decide; [|done].
        exfalso. by apply (Hk x); [apply list_elem_of_In|].
      * apply harmless_medium_evidence. unfold harmless in *. cbn in *. rewrite !Forall_app in *.
        destruct He as (? & ? & ? & ?). auto.
    + cbn. intros [-> [-> [-> ->]%app_nil]%app_nil]%app_nil. destruct Hnil as [-> Hc]; [done|].
      cbn in Hc. by rewrite Hc.
  - cbn [judge]. rewrite Hh, Hm. cbn. split; [|by intros []%app_nil].
    intros _. apply harmless_medium_evidence. cbn. apply Forall_app.
    split; [case_bool_decide; by repeat constructor|by apply Forall_singleton].
Qed.

(** ** A clean reading *)

Lemma check_claim_clean c t :
  against (check_claim content c t) = [] ↔ against t = [] ∧ ∃ want, reads_clean content c want.
Proof.
  split.
  - unfold check_claim, reads_clean. destruct (pe_sha256_encrypted c) as [want|], (pe_size_bytes c) as [size|];
      cbn; try by intros [_ ?]%app_nil.
    unfold compare_claim. destruct (content _) as [bytes|e]; [|by intros [_ ?]%app_nil].
    case_bool_decide; [by intros [_ ?]%app_nil|]. case_bool_decide as Hd; [by intros [_ ?]%app_nil|].
    intros Ht. split; [done|]. exists want. split; [done|]. exists size, bytes. split_and!; [done|done|lia|done].
  - intros [Ht [want Hw]]. by rewrite (check_clean _ _ _ _ Hw).
Qed.

Lemma check_all_clean l : ∀ t, against (foldl (λ t c, check_claim content c t) t l) = [] ↔
  against t = [] ∧ ∀ c, c ∈ l → ∃ want, reads_clean content c want.
Proof.
  induction l as [|c l IH]; intros t; cbn.
  - split; [|by intros []]. split; [done|]. by intros c ?%not_elem_of_nil.
  - rewrite IH, check_claim_clean. setoid_rewrite elem_of_cons. split.
    + intros [[Ht Hc] Hl]. split; [done|]. intros c' [->|?]; auto.
    + intros [Ht Hl]. split; [split; [done|]|]; intros; apply Hl; auto.
Qed.

(** The claim File 3 makes of an entry is the Layout's. *)
Definition agrees (claims : list ParsedIndexEntry) (e : LayoutEntry) : Prop :=
  ∃ c, List.find (λ c, bool_decide (pe_position c = le_position e)) claims = Some c ∧
    pe_type_label c = type_label (le_kind e) ∧
    ∀ a b, pe_size_bytes c = Some a → le_size_bytes e = Some b → a = b.

Lemma entry_agrees claims e : entry_disagreements claims e = [] ↔ agrees claims e.
Proof.
  unfold entry_disagreements, agrees. destruct (List.find _ claims) as [c|].
  2: { split; [done|]. by intros (? & ? & _). }
  split.
  - intros [Ht Hz]%app_nil. exists c. case_bool_decide as Hl; [done|]. split; [done|].
    split; [done|]. intros a b Ha Hb. rewrite Ha, Hb in Hz. by case_bool_decide as Hab.
  - intros (c' & [= <-] & Hl & Hz). rewrite bool_decide_eq_false_2 by by intros []. cbn.
    destruct (pe_size_bytes c) as [a|], (le_size_bytes e) as [b|]; try done.
    rewrite bool_decide_eq_false_2; [done|]. intros Hn. by apply Hn, Hz.
Qed.

Lemma navigation_agrees layout fi_pos claims : navigation layout fi_pos claims = [] ↔
  validate_consistency claims = [] ∧ ∀ e, e ∈ entries layout → agrees claims e.
Proof.
  unfold navigation. split.
  - intros [Hv Hj]%app_nil. split; [by apply fmap_nil_inv in Hv|]. intros e He. apply entry_agrees.
    apply elem_of_nil_inv. intros m Hm.
    assert (m ∈ mjoin (entry_disagreements claims <$> entries layout)) as Hin.
    { apply list_elem_of_join. exists (entry_disagreements claims e). split; [done|]. by apply list_elem_of_fmap_2. }
    rewrite Hj in Hin. by apply not_elem_of_nil in Hin.
  - intros [-> He]. cbn. apply elem_of_nil_inv. intros m (l & Hm & Hl)%list_elem_of_join.
    apply list_elem_of_fmap in Hl as (e & -> & Hin). apply He, entry_agrees in Hin. rewrite Hin in Hm.
    by apply not_elem_of_nil in Hm.
Qed.

(** The tape is what its Layout says, up to its ending. *)
Definition as_planned (layout : Layout) (fi_pos len : Z) (ending : WalkEnding) : Prop :=
  ∃ raw seal index claims,
    content (walk_seal_position ending) = Ok raw ∧ within (Some SMALL_FILE_CAP) raw = true ∧
    parse_seal_marker (from_utf8_lossy raw) = Ok seal ∧ seal_refusal seal = None ∧
    (is_short ending = true → requires_short_seal seal = true) ∧
    effective_ended_after seal = Some (ended_after ending) ∧
    content fi_pos = Ok index ∧ within (Some SMALL_FILE_CAP) index = true ∧ len ≤ Z.of_nat (length index) ∧
    seal_front_index_sha256 seal = sha256_hex (take (Z.to_nat len) index) ∧
    parse_front_index (from_utf8_lossy (take (Z.to_nat len) index)) = Ok claims ∧
    validate_consistency claims = [] ∧ (∀ e, e ∈ entries layout → agrees claims e) ∧
    ∀ c, c ∈ claims → due fi_pos ending c = true → ∃ want, reads_clean content c want.

Lemma limited_ok cap r l : limited full cap r = Ok l ↔ r = Ok l ∧ within cap l = true.
Proof.
  destruct r as [k|e]; cbn; [|by split; [|intros []]].
  destruct (within cap k) eqn:Hw; split; try done.
  - by intros [= ->].
  - by intros [[= ->] _].
  - intros [[= ->] ?]. congruence.
Qed.

Lemma plain_seal_bound ending b k : plain_seal full content ending = Bound b k ↔
  ∃ raw seal, content (walk_seal_position ending) = Ok raw ∧ within (Some SMALL_FILE_CAP) raw = true ∧
    parse_seal_marker (from_utf8_lossy raw) = Ok seal ∧ seal_refusal seal = None ∧
    (is_short ending = true → requires_short_seal seal = true) ∧
    effective_ended_after seal = k ∧ seal_front_index_sha256 seal = b.
Proof.
  unfold plain_seal, seal_of_read. destruct (limited _ _ _) as [raw|e] eqn:Hr.
  2: { split; [done|]. intros (raw & seal & Hc & Hw & _). by rewrite (proj2 (limited_ok _ _ raw)) in Hr. }
  apply limited_ok in Hr as [Hc Hw]. destruct (parse_seal_marker _) as [seal|e] eqn:Hp.
  2: { split; [done|]. intros (raw' & seal & Hc' & _ & Hp' & _). congruence. }
  split.
  - destruct (seal_refusal seal) eqn:Href; [done|]. destruct (is_short ending && _) eqn:Hsh; [done|].
    intros [= <- <-]. exists raw, seal. split_and!; try done. intros Hi. rewrite Hi in Hsh. by apply negb_false_iff in Hsh.
  - intros (raw' & seal' & Hc' & _ & Hp' & Href & Hsh & <- & <-). assert (raw' = raw) as -> by congruence.
    assert (seal' = seal) as -> by congruence. rewrite Href. destruct (is_short ending); cbn; [by rewrite Hsh|done].
Qed.

Lemma plain_index_ok fi_pos len n h claims : plain_index full content fi_pos len = (n, h, Ok claims) ↔
  n = 1 ∧ ∃ index, content fi_pos = Ok index ∧ within (Some SMALL_FILE_CAP) index = true ∧
    len ≤ Z.of_nat (length index) ∧ h = Some (sha256_hex (take (Z.to_nat len) index)) ∧
    parse_front_index (from_utf8_lossy (take (Z.to_nat len) index)) = Ok claims.
Proof.
  unfold plain_index, index_of_read. destruct (limited _ _ _) as [index|e] eqn:Hr.
  2: { split; [done|]. intros (_ & index & Hc & Hw & _). by rewrite (proj2 (limited_ok _ _ index)) in Hr. }
  apply limited_ok in Hr as [Hc Hw]. case_bool_decide as Hl.
  { split; [done|]. intros (_ & index' & Hc' & _ & Hl' & _). assert (index' = index) as -> by congruence. lia. }
  split.
  - destruct (parse_front_index _) eqn:Hp; [|done]. intros [= <- <- <-]. split; [done|]. exists index.
    split_and!; try done. lia.
  - intros (-> & index' & Hc' & _ & _ & -> & Hp). assert (index' = index) as -> by congruence. by rewrite Hp.
Qed.

Lemma plain_reading_clean layout fi_pos len ending :
  mismatches (judge Integrity fi_pos ending (plain_seal full content ending)
    (plain_rest full content layout Integrity fi_pos len ending)) = [] ↔
  as_planned layout fi_pos len ending.
Proof.
  unfold as_planned. destruct (plain_seal full content ending) as [n m|b k] eqn:Hs; cbn.
  { split; [done|]. intros (raw & seal & index & claims & ? & ? & ? & ? & ? & ? & _).
    assert (plain_seal full content ending = Bound (seal_front_index_sha256 seal) (Some (ended_after ending))) as Hb; [|congruence].
    apply plain_seal_bound. by exists raw, seal. }
  apply plain_seal_bound in Hs as (raw & seal & Hc & Hw & Hp & Href & Hsh & <- & <-).
  unfold plain_rest. destruct (plain_index full content fi_pos len) as [[n h] [claims|m]] eqn:Hi; cbn.
  - apply plain_index_ok in Hi as (-> & index & Hic & Hiw & Hl & -> & Hip). split.
    + intros [Hb [He Hm]%app_nil]%app_nil. case_bool_decide as Hd; [done|].
      case_bool_decide as Hk; [done|].
      apply check_all_clean in Hm as [Hn Hcl]. apply navigation_agrees in Hn as [Hv Ha].
      exists raw, seal, index, claims. split_and!; try done. intros c Hin Hdue. apply Hcl.
      by apply list_elem_of_filter.
    + intros (raw' & seal' & index' & claims' & Hc' & _ & Hp' & _ & _ & He & Hic' & _ & _ & Hb & Hip' & Hv & Ha & Hcl).
      assert (raw' = raw) as -> by congruence. assert (seal' = seal) as -> by congruence.
      assert (index' = index) as -> by congruence. assert (claims' = claims) as -> by congruence.
      rewrite !bool_decide_eq_false_2 by (rewrite ?He, ?Hb; by intros []). cbn. apply check_all_clean.
      split; [by apply navigation_agrees|]. intros c [Hdue Hin]%list_elem_of_filter. by apply Hcl.
  - split.
    + intros [_ [_ ?]%app_nil]%app_nil. done.
    + intros (raw' & seal' & index' & claims' & _ & _ & _ & _ & _ & _ & Hic' & Hiw & Hl & _ & Hip' & _).
      assert (plain_index full content fi_pos len = (1, Some (sha256_hex (take (Z.to_nat len) index')), Ok claims')) as Hb; [|congruence].
      apply plain_index_ok. split; [done|]. by exists index'.
Qed.

Lemma confirm_reading layout plan sig m r w :
  steady layout → Inv m → seal_in_place content layout plan →
  (∀ c, resume plan = Some c → honest full content layout plan c) →
  confirm_with full layout plan sig m = (r, w) →
  match r with
  | Ok ev => plain_reading full content layout plan = Ok ev
  | Err e => plain_reading full content layout plan = Err e ∨ true ∈ sig ∧ ∃ p n, e = StoppedBefore p n
  end ∧ Forall (reported_clean full content layout plan) (reported w).
Proof.
  intros Ha Hi Hs Hh Hr. pose proof (confirm_sim False layout plan sig m) as Hsim.
  unfold confirm_with in Hr. fold (seal_at layout plan) in Hr. unfold wruns in Hsim. rewrite Hr in Hsim.
  assert (∀ m cap p, 0 ≤ p ≤ walk_reach layout → Inv m → ∃ r m', read_into cap p m = (r, m') ∧ Inv m' ∧
    D False (seal_at layout plan) p r (limited full cap (content p))) as Hd.
  { intros m0 cap p Hp0 Hm. destruct (Ha m0 cap p Hp0 Hm) as (m' & -> & Hm'). do 2 eexists. split; [done|].
    split; [done|by left]. }
  specialize (Hsim Hd Hi Hs Hh). destruct r as [ev|e].
  - destruct Hsim as (Hrep & fi_pos & ending & ev0 & Hp & Hev). apply evidence_sim_eq in Hev as <-. by split.
  - destruct Hsim as [Hrep [[? ?]|?]]; split; auto.
Qed.

(** ** The claims *)

(** C18: the confirm of a medium that answers is the plain reading of the
    format. Whatever order it reads the seal in, whatever seal the caller has
    in hand, whatever honest checkpoints it skips by and files it holds ahead,
    its evidence is the reading's: the seal judged first, then File 3, then
    each content file. It stops otherwise only for a signal, and every file it
    reports is one whose claim of File 3 read clean. *)
Theorem confirm_plain_reading layout plan sig m r w :
  steady layout → Inv m → seal_in_place content layout plan →
  (∀ c, resume plan = Some c → honest full content layout plan c) →
  confirm_with full layout plan sig m = (r, w) →
  match r with
  | Ok ev => plain_reading full content layout plan = Ok ev
  | Err e => plain_reading full content layout plan = Err e ∨ true ∈ sig ∧ ∃ p n, e = StoppedBefore p n
  end ∧ Forall (reported_clean full content layout plan) (reported w).
Proof. exact (confirm_reading layout plan sig m r w). Qed.

Lemma faulty_evidence layout plan sig m ev w :
  faulty layout plan → Inv m → seal_in_place content layout plan →
  (∀ c, resume plan = Some c → honest full content layout plan c) →
  confirm_with full layout plan sig m = (Ok ev, w) →
  ∃ ev0, plain_reading full content layout plan = Ok ev0 ∧
    (proves_medium_bad ev = true → proves_medium_bad ev0 = true) ∧ (mismatches ev = [] → ev = ev0) ∧
    Forall (reported_clean full content layout plan) (reported w).
Proof.
  intros Ha Hi Hs Hh Hr. pose proof (confirm_sim True layout plan sig m) as Hsim.
  unfold confirm_with in Hr. fold (seal_at layout plan) in Hr. unfold wruns in Hsim. rewrite Hr in Hsim.
  destruct Hsim as (Hrep & fi_pos & ending & ev0 & Hp & Hev); [|done..|].
  { intros m0 cap p Hp0 Hm. destruct (Ha m0 cap p Hp0 Hm) as (r & m' & -> & Hm' & Hd). do 2 eexists. split; [done|].
    split; [done|]. destruct Hd as [Hd|Hd]; [by left|by right]. }
  exists ev0. apply evidence_sim_faults in Hev as [Hbad Hclean]. split_and!; try done.
  unfold proves_medium_bad. intros Hpb. apply negb_true_iff, bool_decide_eq_false in Hpb.
  apply negb_true_iff, bool_decide_eq_false. intros Hn. apply Hpb. apply nil_length_inv in Hn. by rewrite Hbad.
Qed.

(** C19: a failing drive neither condemns nor passes a tape. However its reads
    fail, stop short (the seal's own excepted, which may only fail) or come
    back different from one try to the next, a
    confirm of a tape whose plain reading does not prove the medium bad does
    not prove it bad, and a clean one is the evidence of the plain reading. *)
Theorem confirm_faults layout plan sig m ev w :
  faulty layout plan → Inv m → seal_in_place content layout plan →
  (∀ c, resume plan = Some c → honest full content layout plan c) →
  confirm_with full layout plan sig m = (Ok ev, w) →
  ∃ ev0, plain_reading full content layout plan = Ok ev0 ∧
    (proves_medium_bad ev = true → proves_medium_bad ev0 = true) ∧ (mismatches ev = [] → ev = ev0) ∧
    Forall (reported_clean full content layout plan) (reported w).
Proof. exact (faulty_evidence layout plan sig m ev w). Qed.

(** A clean full confirm, however the reads fail, is of a tape as planned. *)
Lemma clean_as_planned layout plan sig m ev w fi_pos len ending :
  faulty layout plan → Inv m → seal_in_place content layout plan →
  (∀ c, resume plan = Some c → honest full content layout plan c) →
  tier plan = Integrity → walk_frame layout plan = Ok (fi_pos, len, ending) →
  confirm_with full layout plan sig m = (Ok ev, w) → mismatches ev = [] → as_planned layout fi_pos len ending.
Proof.
  intros Ha Hi Hs Hh Ht Hf Hr Hn. destruct (faulty_evidence layout plan sig m ev w Ha Hi Hs Hh Hr) as (ev0 & Hp & _ & Hc & _).
  specialize (Hc Hn). subst ev0. unfold plain_reading in Hp. rewrite Hf, Ht in Hp. cbn in Hp. injection Hp as <-.
  by apply plain_reading_clean.
Qed.

(** C21: a full confirm is clean exactly when the tape is as planned: a seal
    this program reads, at the ending the catalog knows and binding File 3, a
    File 3 that is consistent and agrees with the Layout, and every content
    file on the tape with the bytes its claim hashes to. *)
Theorem confirm_clean_iff layout plan sig m ev w fi_pos len ending :
  steady layout → Inv m → seal_in_place content layout plan →
  (∀ c, resume plan = Some c → honest full content layout plan c) →
  tier plan = Integrity → walk_frame layout plan = Ok (fi_pos, len, ending) →
  confirm_with full layout plan sig m = (Ok ev, w) →
  mismatches ev = [] ↔ as_planned layout fi_pos len ending.
Proof.
  intros Ha Hi Hs Hh Ht Hf Hr. pose proof (confirm_sim False layout plan sig m) as Hsim.
  unfold confirm_with in Hr. fold (seal_at layout plan) in Hr. unfold wruns in Hsim. rewrite Hr in Hsim.
  destruct Hsim as (_ & fp & en & ev0 & Hp & Hev); [|done..|].
  { intros m0 cap p Hp0 Hm. destruct (Ha m0 cap p Hp0 Hm) as (m' & -> & Hm'). do 2 eexists. split; [done|].
    split; [done|by left]. }
  apply evidence_sim_eq in Hev as <-. unfold plain_reading in Hp. rewrite Hf, Ht in Hp. cbn in Hp.
  injection Hp as <-. apply plain_reading_clean.
Qed.
End spec.

(** ** Where the seal is *)

Section place.
Context `{!Readable}.
Variables (files : list (list Z)) (Inv : medium → Prop).

(** A medium of these files: what it answers is true. At the end of the data
    a read may give no bytes. *)
Record truthful : Prop := {
  head_true m p n l m' : Inv m → 0 ≤ p → 0 ≤ n → head_of p n m = (Ok l, m') →
    (∃ f, files !! Z.to_nat p = Some f ∧ l = take (Z.to_nat n) f) ∨ l = [] ∧ Z.of_nat (length files) ≤ p;
  end_true m p m' : Inv m → ends_at_or_before p m = (Ok true, m') → Z.of_nat (length files) ≤ p;
  count_true m n m' : Inv m → count_files m = (Ok (Some n), m') → n = Z.of_nat (length files);
  head_keeps m p n : Inv m → Inv (head_of p n m).2;
  end_keeps m p : Inv m → Inv (ends_at_or_before p m).2;
  count_keeps m : Inv m → Inv (count_files m).2;
}.

(** One that answers always. *)
Definition forthcoming : Prop := ∀ m, Inv m →
  (∀ p n, 0 ≤ p < Z.of_nat (length files) → ∃ l m', head_of p n m = (Ok l, m')) ∧
  (∀ p, ends_at_or_before p m = (Ok (bool_decide (Z.of_nat (length files) ≤ p)), (ends_at_or_before p m).2)) ∧
  count_files m = (Ok (Some (Z.of_nat (length files))), (count_files m).2).

(** The seal's place: the planned one, or the last file of a medium that
    ends before it. *)
Definition seal_place (planned p : Z) : Prop :=
  p = planned ∨ p = Z.of_nat (length files) - 1 ∧ 0 ≤ p < planned.

Lemma read_small_true m p r m' : truthful → Inv m → 0 ≤ p → read_small p m = (r, m') →
  Inv m' ∧ match r with
  | Ok (Bytes l) => files !! Z.to_nat p = Some l ∨ l = [] ∧ Z.of_nat (length files) ≤ p
  | Ok Oversized => ∃ f, files !! Z.to_nat p = Some f ∧ SMALL_FILE_CAP < Z.of_nat (length f)
  | Err _ => True
  end.
Proof.
  intros Ht Hi Hp. unfold read_small. pose proof (head_keeps Ht m p (SMALL_FILE_CAP + 1) Hi) as Hk.
  destruct (head_of p (SMALL_FILE_CAP + 1) m) as [[l|e] m1] eqn:Hr; intros [= <- <-]; split; try done; cbn.
  assert (0 ≤ SMALL_FILE_CAP + 1) as Hc by by vm_compute.
  destruct (head_true Ht _ _ _ _ _ Hi Hp Hc Hr) as [(f & Hf & ->)|[-> Hl]].
  - rewrite length_take. case_bool_decide as Hn.
    + exists f. split; [done|]. lia.
    + left. rewrite take_ge; [done|]. unfold SMALL_FILE_CAP in *. lia.
  - case_bool_decide; [done|]. by right.
Qed.

Lemma read_small_answers p m : truthful → forthcoming → Inv m → 0 ≤ p < Z.of_nat (length files) →
  ∃ f m', files !! Z.to_nat p = Some f ∧ Inv m' ∧
    read_small p m = (Ok (if bool_decide (SMALL_FILE_CAP < Z.of_nat (length f)) then Oversized else Bytes f), m').
Proof.
  intros Ht Hf Hi Hp. destruct (proj1 (Hf m Hi) p (SMALL_FILE_CAP + 1) Hp) as (l & m' & Hr).
  pose proof (head_keeps Ht m p (SMALL_FILE_CAP + 1) Hi) as Hk. rewrite Hr in Hk. unfold read_small. rewrite Hr. cbn.
  assert (0 ≤ SMALL_FILE_CAP + 1) as Hc by by vm_compute.
  destruct (head_true Ht _ _ _ _ _ Hi (proj1 Hp) Hc Hr) as [(f & Hl & ->)|[_ ?]]; [|lia].
  exists f, m'. split; [done|]. split; [done|]. do 2 f_equal. rewrite length_take.
  case_bool_decide as Hn; [by rewrite bool_decide_eq_true_2 by lia|].
  unfold SMALL_FILE_CAP in *. rewrite bool_decide_eq_false_2 by lia. rewrite take_ge; [done|lia].
Qed.

(** What a search may answer. *)
Definition seal_found (planned : Z) (loc : SealLocation) : Prop :=
  match loc with
  | SealFile p bytes => seal_place planned p ∧
      (files !! Z.to_nat p = Some bytes ∨ p = planned ∧ bytes = [] ∧ Z.of_nat (length files) ≤ planned)
  | SealOversized p => seal_place planned p ∧
      ∃ f, files !! Z.to_nat p = Some f ∧ SMALL_FILE_CAP < Z.of_nat (length f)
  | SealAbsent => files = []
  | SealReadFailed p _ => seal_place planned p
  | SealUncounted p _ _ => p = planned ∧ Z.of_nat (length files) ≤ planned
  end.

(** What it answers of the last file. *)
Definition seal_located (planned : Z) (loc : SealLocation) : Prop :=
  match loc with
  | SealFile p bytes => seal_place planned p ∧ files !! Z.to_nat p = Some bytes
  | _ => seal_found planned loc
  end.

Lemma located_found planned loc : seal_located planned loc → seal_found planned loc.
Proof. destruct loc; cbn; [|done..]. intros []. auto. Qed.

Lemma locate_last_located planned failed m loc m' : truthful → Inv m → Z.of_nat (length files) ≤ planned →
  locate_last planned failed m = (loc, m') → seal_located planned loc.
Proof.
  intros Ht Hi Hl. unfold locate_last. pose proof (count_keeps Ht m Hi) as Hk.
  destruct (count_files m) as [[[n|]|e] m1] eqn:Hc; cbn in Hk; [|by intros [= <- _]..].
  apply (count_true Ht _ _ _ Hi) in Hc as ->. case_bool_decide; [by intros [= <- _]|].
  case_bool_decide as Hn; [intros [= <- _]; by apply nil_length_inv; lia|].
  destruct (read_small _ m1) as [r m2] eqn:Hr. apply read_small_true in Hr as [_ Hr]; [|done|done|lia].
  assert (seal_place planned (Z.of_nat (length files) - 1)) as Hp by (right; lia).
  destruct r as [[l|]|e]; intros [= <- _]; [|by split|done]. split; [done|].
  destruct Hr as [?|[-> ?]]; [done|lia].
Qed.

Lemma locate_seal_found planned m loc m' : truthful → Inv m → 0 ≤ planned →
  locate_seal planned m = (loc, m') → seal_found planned loc.
Proof.
  intros Ht Hi Hp. unfold locate_seal. destruct (read_small planned m) as [r m1] eqn:Hr.
  apply read_small_true in Hr as [Hi1 Hr]; [|done..]. assert (seal_place planned planned) as Hpl by by left.
  unfold known_to_end. pose proof (end_keeps Ht m1 planned Hi1) as Hk.
  destruct (ends_at_or_before planned m1) as [b m2] eqn:He. cbn in Hk.
  assert (∀ failed, match b with Ok b => b | Err _ => false end = true →
    locate_last planned failed m2 = (loc, m') → seal_found planned loc) as Hlast.
  { intros failed Hb. destruct b as [[|]|]; try done. apply (end_true Ht _ _ _ Hi1) in He.
    intros Hl. by eapply located_found, locate_last_located. }
  destruct r as [[[|x l]|]|e].
  - destruct (match b with Ok b => b | Err _ => false end); [by apply Hlast|]. intros [= <- _].
    split; [done|]. destruct Hr as [?|[_ ?]]; auto.
  - intros [= <- _]. split; [done|]. destruct Hr as [?|[? _]]; [by left|done].
  - intros [= <- _]. by split.
  - destruct (match b with Ok b => b | Err _ => false end); [by apply Hlast|]. by intros [= <- _].
Qed.

(** Where the seal is found. The search answers a file only where the
    format puts the seal, with the bytes of that file, and no file only on a
    medium that holds none; and on a medium that answers it finds the file at
    the planned position, or the last one of a tape that ended before it. *)
Theorem locate_seal_spec planned m loc m' : truthful → Inv m → 0 ≤ planned →
  locate_seal planned m = (loc, m') →
  seal_found planned loc ∧
  (forthcoming → files ≠ [] → ∃ p f, seal_place planned p ∧ (Z.of_nat (length files) ≤ planned → p ≠ planned) ∧
    files !! Z.to_nat p = Some f ∧
    loc = if bool_decide (SMALL_FILE_CAP < Z.of_nat (length f)) then SealOversized p else SealFile p f).
Proof.
  intros Ht Hi Hp Hl. split; [by eapply locate_seal_found|]. intros Hf Hne. unfold locate_seal in Hl.
  assert (∀ p m, Inv m → planned = p ∧ p < Z.of_nat (length files) ∨ p = Z.of_nat (length files) - 1 ∧ p < planned →
    ∃ f m', files !! Z.to_nat p = Some f ∧ Inv m' ∧ 0 ≤ p ∧
    read_small p m = (Ok (if bool_decide (SMALL_FILE_CAP < Z.of_nat (length f)) then Oversized else Bytes f), m')) as Hrs.
  { intros p m0 Hi0 Hpp. assert (length files ≠ 0%nat) as Hn by by intros ?%nil_length_inv.
    destruct (read_small_answers p m0 Ht Hf Hi0) as (f & m2 & ? & ? & ?); [lia|].
    exists f, m2. split_and!; try done. lia. }
  destruct (decide (planned < Z.of_nat (length files))) as [Hin|Hout].
  - destruct (Hrs planned m Hi) as (f & m1 & Hlf & Hi1 & _ & Hr); [by left|]. rewrite Hr in Hl.
    exists planned, f. split; [by left|]. split; [lia|]. split; [done|].
    case_bool_decide; [by injection Hl as <- _|]. destruct f as [|x f]; [|by injection Hl as <- _].
    unfold known_to_end in Hl. rewrite (proj1 (proj2 (Hf m1 Hi1)) planned) in Hl.
    rewrite bool_decide_eq_false_2 in Hl by lia. by injection Hl as <- _.
  - assert (Hlast : ∀ failed m0, Inv m0 → locate_last planned failed m0 = (loc, m') →
      ∃ p f, seal_place planned p ∧ (Z.of_nat (length files) ≤ planned → p ≠ planned) ∧ files !! Z.to_nat p = Some f ∧
      loc = if bool_decide (SMALL_FILE_CAP < Z.of_nat (length f)) then SealOversized p else SealFile p f).
    { intros failed m0 Hi0 H0. unfold locate_last in H0. rewrite (proj2 (proj2 (Hf m0 Hi0))) in H0.
      pose proof (count_keeps Ht m0 Hi0) as Hk.
      assert (length files ≠ 0%nat) as Hn by by intros ?%nil_length_inv.
      rewrite !bool_decide_eq_false_2 in H0 by lia.
      destruct (Hrs (Z.of_nat (length files) - 1) _ Hk) as (f & m2 & Hlf & _ & ? & Hr); [right; lia|].
      rewrite Hr in H0. exists (Z.of_nat (length files) - 1), f. split; [right; lia|]. split; [lia|]. split; [done|].
      case_bool_decide; by injection H0 as <- _. }
    destruct (read_small planned m) as [r m1] eqn:Hr. apply read_small_true in Hr as [Hi1 Hr]; [|done..].
    pose proof (end_keeps Ht m1 planned Hi1) as Hk. unfold known_to_end in Hl.
    rewrite (proj1 (proj2 (Hf m1 Hi1)) planned), bool_decide_eq_true_2 in Hl by lia.
    assert (∀ f, files !! Z.to_nat planned ≠ Some f) as Hno.
    { intros f Hlk. apply lookup_lt_Some in Hlk. lia. }
    destruct r as [[[|x l]|]|e]; [by eapply Hlast| |by destruct Hr as (f & ? & _); apply Hno in H0|by eapply Hlast].
    destruct Hr as [Hr|[? _]]; [by apply Hno in Hr|done].
Qed.
End place.
