(* ===== verification/Readback.v ===== *)
(** * A readback that continues an interrupted one: [src/volume/session.rs]

    The checkpoints a full readback records as it goes, the gates an
    interrupted one passes to be continued, and why a continued readback says
    what a whole one says. The clock and the dates are parameters. *)

From S2P Require Import Prelude LayoutModel Format Confirm ConfirmSound ConfirmSpec.
Local Open Scope Z_scope.
Local Open Scope rust_scope.

(** ** The catalog's rows *)

(** A row of [readback_checkpoints], whose key is the readback and the position. *)
Record CheckpointRow : Type := mkRow {
  cr_sha256 : string;
  cr_front_index_sha256 : string;
  checked_at : string;
}.

(** The latest row of [verification_sessions]. *)
Record Readback : Type := mkReadback {
  readback_id : Z;
  verify_type : string;
  outcome : string;
}.

Record Continuation : Type := mkContinuation {
  session_id : Z;
  checkpoints : Checkpoints;
}.

Notation Rows := (gmap (Z * Z) CheckpointRow).

(** [Tier::verify_type]. *)
Definition tier_verify_type (t : Tier) : string :=
  match t with Integrity => "full" | Navigable => "quick" end.

(** [record_checkpoint]: [INSERT OR IGNORE]. The date of a file skipped on the
    continued readback's word is the date it was read. [now] is [None] when
    the statement fails, which is swallowed. *)
Definition record_checkpoint (session : Z) (continuing : option Continuation) (now : option string)
    (c : Checkpoint) (rows : Rows) : Rows :=
  match now with
  | None => rows
  | Some now =>
      let read_then :=
        k ← continuing;
        r ← rows !! (session_id k, at_position c);
        if bool_decide (cr_sha256 r = at_sha256 c ∧ cr_front_index_sha256 r = at_front_index_sha256 c)
        then Some (checked_at r) else None in
      match rows !! (session, at_position c) with
      | Some _ => rows
      | None =>
          <[(session, at_position c) :=
              mkRow (at_sha256 c) (at_front_index_sha256 c) (default now read_then)]> rows
      end
  end.

Fixpoint record_all (session : Z) (continuing : option Continuation) (now : nat → option string)
    (cs : list Checkpoint) (rows : Rows) : Rows :=
  match cs with
  | [] => rows
  | c :: cs =>
      record_all session continuing (λ n, now (S n)) cs (record_checkpoint session continuing (now 0%nat) c rows)
  end.

Definition rows_of (session : Z) (rows : Rows) : list (Z * CheckpointRow) :=
  (λ kr : (Z * Z) * CheckpointRow, (kr.1.2, kr.2)) <$>
    filter (λ kr, kr.1.1 = session) (map_to_list rows).

(** The earliest of some dates, as texts. *)
Fixpoint oldest (d : string) (ds : list string) : string :=
  match ds with
  | [] => d
  | d' :: ds => oldest (if String.leb d d' then d else d') ds
  end.

Section readback.
(** The parse of a date, and the date some days ago, [None] when it is past
    any date. *)
Variables (parse_date : string → option Z) (days_ago : Z → option Z).

Definition too_old (interval : option Z) (read : string) : bool :=
  match interval with
  | None => false
  | Some days =>
      match days_ago (Z.max days 0), parse_date read with
      | None, _ => false
      | Some cutoff, Some read => bool_decide (read < cutoff)
      | Some _, None => true
      end
  end.

(** [interrupted_readback]: of the latest readback of the volume, the time of
    its last abort, and its verify interval. *)
Definition interrupted_readback (latest : option Readback) (aborted_at : option string)
    (interval : option Z) (rows : Rows) : option Continuation :=
  l ← latest;
  if negb (bool_decide (verify_type l = tier_verify_type Integrity))
     || negb (bool_decide (outcome l = "in_progress" ∨ outcome l = "aborted"))%string
  then None
  else
    let rows := rows_of (readback_id l) rows in
    match rows with
    | [] => None
    | (_, first) :: rest =>
        let front_index := cr_front_index_sha256 first in
        if existsb (λ r, negb (bool_decide (cr_front_index_sha256 r.2 = front_index))) rows then None
        else if match aborted_at with
                | Some a => existsb (λ r, String.leb (checked_at r.2) a) rows
                | None => false
                end then None
        else if too_old interval (oldest (checked_at first) ((λ r, checked_at r.2) <$> rest)) then None
        else Some (mkContinuation (readback_id l)
               (mkCheckpoints front_index (list_to_map ((λ r, (r.1, cr_sha256 r.2)) <$> rows))))
    end.

(** ** Continued readbacks *)

Section sound.
Context `{!Digest, !TomlCrate, !Readable}.
Variables (full : failure) (content : Z → result failure (list Z)) (Inv : medium → Prop).
Variables (layout : Layout).
Hypothesis reads : steady full content Inv layout.

(** The claims of File 3 are of as many positions. *)
Definition distinct_claims : Prop := ∀ plan fi_pos len ending n h claims,
  walk_frame layout plan = Ok (fi_pos, len, ending) → plain_index full content fi_pos len = (n, h, Ok claims) →
  NoDup ((λ c, as_u32 (pe_position c)) <$> claims).

(** The readbacks of a tape: each a confirm, whole or stopped, continuing an
    interrupted one or not, its checkpoints recorded as far as they could be. *)
Inductive readbacks : Rows → Prop :=
| readbacks_none : readbacks ∅
| readbacks_one rows session continuing plan sig m r w now :
    readbacks rows →
    (∀ p, rows !! (session, p) = None) →
    (∀ c, continuing = Some c → ∃ latest aborted interval,
       interrupted_readback latest aborted interval rows = Some c) →
    resume plan = checkpoints <$> continuing →
    Inv m → seal_in_place content layout plan →
    confirm_with full layout plan sig m = (r, w) →
    readbacks (record_all session continuing now (reported w) rows).

(** A row that says what was read. *)
Definition row_clean (position : Z) (row : CheckpointRow) : Prop :=
  ∃ plan, reported_clean full content layout plan
    (mkCheckpoint position (cr_sha256 row) (cr_front_index_sha256 row)).

Lemma frame_same plan plan' fi_pos len ending fi_pos' len' ending' :
  walk_frame layout plan = Ok (fi_pos, len, ending) → walk_frame layout plan' = Ok (fi_pos', len', ending') →
  fi_pos' = fi_pos ∧ len' = len.
Proof.
  unfold walk_frame. intros Ha Hb.
  repeat match goal with Hx : _ ≫= _ = Ok _ |- _ => apply bind_ok in Hx as (? & ? & ?) end.
  split; congruence.
Qed.

Lemma rows_of_elem session rows p r :
  (p, r) ∈ rows_of session rows → rows !! (session, p) = Some r.
Proof.
  unfold rows_of. intros ([[s q] r'] & [= -> ->] & Hin)%list_elem_of_fmap.
  apply list_elem_of_filter in Hin as [Hs Hin]. cbn in Hs. subst. by apply elem_of_map_to_list in Hin.
Qed.

Lemma interrupted_rows latest aborted interval rows c :
  interrupted_readback latest aborted interval rows = Some c →
  ∀ p want, passed (checkpoints c) !! p = Some want → ∃ r, rows !! (session_id c, p) = Some r ∧
    cr_sha256 r = want ∧ cr_front_index_sha256 r = cp_front_index_sha256 (checkpoints c).
Proof.
  unfold interrupted_readback. destruct latest as [l|]; cbn; [|done].
  destruct (_ || _); [done|]. destruct (rows_of (readback_id l) rows) as [|[p0 first] rest] eqn:Hr; [done|].
  destruct (existsb _ ((p0, first) :: rest)) eqn:Hfi; [done|]. destruct (match aborted with Some _ => _ | None => _ end); [done|].
  destruct (too_old _ _); [done|]. intros [= <-] p want Hp. cbn [checkpoints passed session_id cp_front_index_sha256] in *.
  change ((list_to_map ((λ r : Z * CheckpointRow, (r.1, cr_sha256 r.2)) <$> (p0, first) :: rest) : gmap Z string) !! p = Some want) in Hp.
  apply elem_of_list_to_map_2, list_elem_of_fmap in Hp as ([q r] & [= -> ->] & Hin).
  exists r. split; [apply rows_of_elem; by rewrite Hr|]. split; [done|].
  apply not_true_iff_false in Hfi. destruct (decide (cr_front_index_sha256 r = cr_front_index_sha256 first)) as [?|Hn]; [done|].
  exfalso. apply Hfi, existsb_exists. exists (q, r). split; [by apply list_elem_of_In|].
  by rewrite bool_decide_eq_false_2.
Qed.

Definition rows_clean (rows : Rows) : Prop := ∀ s p r, rows !! (s, p) = Some r → row_clean p r.

Lemma continuation_honest rows latest aborted interval c plan : distinct_claims → rows_clean rows →
  interrupted_readback latest aborted interval rows = Some c → honest full content layout plan (checkpoints c).
Proof.
  intros Hd Hr Hc fi_pos len ending n h claims e want Hf Hi Hh He Hp Hs Hz.
  destruct (interrupted_rows _ _ _ _ _ Hc _ _ Hp) as (r & Hrow & <- & Hrf).
  apply Hr in Hrow as (plan' & fi_pos' & len' & ending' & n' & claims' & e' & Hf' & Hi' & He' & Hp' & Hcl).
  destruct (frame_same _ _ _ _ _ _ _ _ Hf Hf') as [-> ->]. cbn in Hi', Hp', Hcl. rewrite Hi in Hi'.
  injection Hi' as <- _ <-. assert (e' = e) as ->; [|done].
  pose proof (Hd _ _ _ _ _ _ _ Hf Hi) as Hnd. apply list_elem_of_lookup in He as [i He], He' as [j He'].
  assert (i = j) as ->; [|congruence]. eapply (NoDup_lookup _ i j (as_u32 (pe_position e))); [exact Hnd| |].
  - by rewrite list_lookup_fmap, He.
  - rewrite list_lookup_fmap, He'. cbn. by rewrite Hp'.
Qed.

Lemma record_all_clean session continuing cs : ∀ now rows,
  Forall (λ k, row_clean (at_position k) (mkRow (at_sha256 k) (at_front_index_sha256 k) "")) cs → rows_clean rows →
  rows_clean (record_all session continuing now cs rows).
Proof.
  induction cs as [|k cs IH]; intros now rows Hcs Hr; [done|]. apply Forall_cons in Hcs as [Hk Hcs].
  cbn [record_all]. apply IH; [done|]. unfold record_checkpoint. destruct (now 0%nat); [|done]. cbv zeta.
  destruct (rows !! (session, at_position k)); [done|].
  intros s' p r. rewrite lookup_insert_Some. intros [[[= <- <-] <-]|[_ ?]]; [exact Hk|by eapply Hr].
Qed.

Lemma readbacks_clean rows : distinct_claims → readbacks rows → rows_clean rows.
Proof.
  intros Hd. induction 1 as [|rows session continuing plan sig m r w now _ IH Hnew Hcont Hres Hi Hs Hw].
  { intros s p r. by rewrite lookup_empty. }
  apply record_all_clean; [|done].
  destruct (confirm_reading full content Inv layout plan sig m r w reads Hi Hs) as [_ Hrep]; [|done|].
  - intros c Hc. rewrite Hres in Hc. destruct continuing as [k|]; [|done]. injection Hc as <-.
    destruct (Hcont k eq_refl) as (l & a & i & Hk). by eapply continuation_honest.
  - eapply Forall_impl; [exact Hrep|]. intros k Hk. exists plan. by destruct k.
Qed.

(** C20: a continued readback says what a whole one says. After any number of
    interrupted readbacks of the tape, each continuing the one before or not,
    with its checkpoints recorded as far as the catalog took them, the confirm
    that continues the last one has the evidence of the plain reading: it
    skips only files that read back clean, under the File 3 it reads now. *)
Theorem continued_readback_spec rows latest aborted interval c plan sig m ev w :
  distinct_claims → readbacks rows → interrupted_readback latest aborted interval rows = Some c →
  resume plan = Some (checkpoints c) → Inv m → seal_in_place content layout plan →
  confirm_with full layout plan sig m = (Ok ev, w) →
  plain_reading full content layout plan = Ok ev.
Proof.
  intros Hd Hr Hc Hres Hi Hs Hw.
  destruct (confirm_reading full content Inv layout plan sig m (Ok ev) w reads Hi Hs) as [Hev _]; [|done|done].
  intros k Hk. rewrite Hres in Hk. injection Hk as <-. eapply continuation_honest; [done|by apply readbacks_clean|done].
Qed.
End sound.
End readback.
