(* ===== verification/ConfirmRehearsal.v ===== *)
(** * A confirm rehearsed

    A tape of six files in memory, confirmed in every order, with a drive that
    fails reads, stopped and continued; each theorem of the confirm applied to
    it. *)

From S2P Require Import Prelude LayoutModel Format Confirm ConfirmSound ConfirmSpec Readback.
Local Open Scope Z_scope.
Local Open Scope rust_scope.

#[local] Instance cx_digest : Digest := hex_text.

Definition cx_thunk : list Z := [1; 2; 3].
Definition cx_guide : list Z := [4; 5].
Definition cx_script : list Z := [6].
Definition cx_slice : list Z := [7; 8; 9; 10; 11].
Definition cx_index : list Z := [91; 105; 110; 100; 101; 120; 93].
Definition cx_seal : list Z := [91; 115; 101; 97; 108; 93].

(** The files on the tape, in blocks of four. *)
Definition cx_tape : list (list Z) :=
  [[1; 2; 3; 0]; [4; 5; 0; 0]; [6; 0; 0; 0]; cx_index ++ [0]; cx_slice ++ [0; 0; 0]; cx_seal ++ [0; 0]].

Definition cx_claim (position : Z) (label : string) (content : option (list Z)) : toml :=
  TTable ([("position"%string, TInteger position); ("type"%string, TString label)] ++
    match content with
    | Some l => [("size_bytes"%string, TInteger (Z.of_nat (length l)));
                 ("sha256_encrypted"%string, TString (hex_text l))]
    | None => []
    end).
Definition cx_claims : toml :=
  TArray [cx_claim 0 "id_thunk" (Some cx_thunk); cx_claim 1 "system_guide" (Some cx_guide);
          cx_claim 2 "restore_sh" (Some cx_script); cx_claim 3 "front_index" None;
          cx_claim 4 "data_slice" (Some cx_slice); cx_claim 5 "seal_marker" None].
Definition cx_index_doc : list (string * toml) :=
  [("index"%string, TTable [("volume"%string, TString "V"); ("layout_version"%string, TInteger 2)]);
   ("files"%string, cx_claims)].
Definition cx_seal_doc : list (string * toml) :=
  [("seal"%string, TTable
     [("volume"%string, TString "V"); ("layout_version"%string, TInteger 2); ("file_count"%string, TInteger 6);
      ("sealed_at"%string, TString "now"); ("front_index_sha256"%string, TString (hex_text cx_index))]);
   ("files"%string, cx_claims)].
(** A [toml] crate that knows the two documents. *)
#[local] Instance cx_toml : TomlCrate := λ s,
  if String.prefix "[index]" s then Ok cx_index_doc else Ok cx_seal_doc.

Definition cx_entry (position : Z) (kind : ZoneKind) (content : list Z) : LayoutEntry :=
  mkLayoutEntry position kind (Some (Z.of_nat (length content))) (Some (hex_text content)) Generated.
Definition cx_layout : Layout :=
  mkLayout "V" "u" "lto6" 4 (mkCapacityBudget 0 0 None None)
    [cx_entry 0 IdThunk cx_thunk; cx_entry 1 SystemGuide cx_guide; cx_entry 2 RestoreSh cx_script;
     cx_entry 3 FrontIndex cx_index; cx_entry 4 (Slice 11) cx_slice;
     mkLayoutEntry 5 SealMarker None None Generated].

(** ** A medium that answers *)

#[local] Instance cx_store : Readable := mem_store.

Definition cx_content (p : Z) : result failure (list Z) := mem_file p cx_tape.
Definition cx_inv : medium → Prop := λ files, files = cx_tape.

Lemma cx_steady : steady SinkWrite cx_content cx_inv cx_layout.
Proof.
  intros m cap p _ ->. exists cx_tape. split; [|done]. cbn. unfold mem_read_file, limited, cx_content.
  by destruct (mem_file p cx_tape).
Qed.

Definition cx_plan (o : ReadOrder) : ConfirmPlan := with_order o (plan_new Integrity).

Lemma cx_in_place o r : seal_in_place cx_content cx_layout (with_seal (Some (cx_seal ++ [0; 0])) (resuming r (cx_plan o))).
Proof. intros b fi_pos len ending [= <-] Hf. vm_compute in Hf. injection Hf as <- <- <-. reflexivity. Qed.

Lemma cx_no_seal o r : seal_in_place cx_content cx_layout (resuming r (cx_plan o)).
Proof. by intros b fi_pos len ending [=]. Qed.

Definition cx_clean : Evidence failure := mkEvidence Integrity 6 [].

(** The seal in hand, read last. *)
Definition cx_in_hand : ConfirmPlan := with_seal (Some (cx_seal ++ [0; 0])) (resuming None (cx_plan SealLast)).

Lemma confirm_plain_reading_witness :
  (confirm_with SinkWrite cx_layout cx_in_hand [] cx_tape).1 = Ok cx_clean ∧
  plain_reading SinkWrite cx_content cx_layout cx_in_hand = Ok cx_clean.
Proof.
  assert ((confirm_with SinkWrite cx_layout cx_in_hand [] cx_tape).1 = Ok cx_clean) as Hr by (vm_compute; reflexivity).
  split; [exact Hr|].
  pose proof (confirm_plain_reading SinkWrite cx_content cx_inv cx_layout cx_in_hand [] cx_tape (Ok cx_clean)
    (confirm_with SinkWrite cx_layout cx_in_hand [] cx_tape).2 cx_steady eq_refl (cx_in_place SealLast None)) as Hs.
  refine (proj1 (Hs _ _)); [intros c [=]|]. rewrite <- Hr. by destruct (confirm_with _ _ _ _ _).
Defined.

Lemma confirm_clean_iff_witness :
  as_planned cx_content cx_layout 3 7 (mkEnding 4 5 None).
Proof.
  assert ((confirm_with SinkWrite cx_layout cx_in_hand [] cx_tape).1 = Ok cx_clean) as Hr by (vm_compute; reflexivity).
  refine (proj1 (confirm_clean_iff SinkWrite cx_content cx_inv cx_layout cx_in_hand [] cx_tape cx_clean
    (confirm_with SinkWrite cx_layout cx_in_hand [] cx_tape).2 3 7 (mkEnding 4 5 None) cx_steady eq_refl
    (cx_in_place SealLast None) _ eq_refl eq_refl _) eq_refl); [intros c [=]|].
  rewrite <- Hr. by destruct (confirm_with _ _ _ _ _).
Defined.

(** ** A readback stopped and continued *)

(** The first is stopped before its fourth content file. *)
Definition cx_first := confirm_with SinkWrite cx_layout (resuming None (cx_plan SealFirst)) [false; false; false; true] cx_tape.
Definition cx_rows : Rows := record_all 1 None (λ n, if bool_decide (n = 1%nat) then None else Some "2026"%string) (reported cx_first.2) ∅.
Definition cx_continued : option Continuation :=
  interrupted_readback (λ _, Some 0) (λ _, None) (Some (mkReadback 1 "full" "in_progress")) None (Some 30) cx_rows.

Lemma cx_distinct : distinct_claims SinkWrite cx_content cx_layout.
Proof.
  intros plan fi_pos len ending n h claims Hf Hi.
  assert (walk_frame cx_layout (plan_new Integrity) = Ok (3, 7, mkEnding 4 5 None)) as Hf0 by (vm_compute; reflexivity).
  destruct (frame_same cx_layout _ _ _ _ _ _ _ _ Hf0 Hf) as [-> ->]. vm_compute in Hi. injection Hi as <- <- <-.
  by_decide.
Qed.

Definition cx_second : Continuation := default (mkContinuation 0 (mkCheckpoints "" ∅)) cx_continued.

Lemma continued_readback_spec_witness :
  (∃ n, cx_first.1 = Err (StoppedBefore 4 n)) ∧ size (passed (checkpoints cx_second)) = 2%nat ∧
  plain_reading SinkWrite cx_content cx_layout (resuming (Some (checkpoints cx_second)) (cx_plan SealFirst)) = Ok cx_clean.
Proof.
  split; [exists 4; vm_compute; reflexivity|]. split; [vm_compute; reflexivity|].
  assert (cx_continued = Some cx_second) as Hc by (vm_compute; reflexivity).
  assert ((confirm_with SinkWrite cx_layout (resuming (Some (checkpoints cx_second)) (cx_plan SealFirst)) [] cx_tape).1 = Ok cx_clean)
    as Hr by (vm_compute; reflexivity).
  refine (continued_readback_spec (λ _, Some 0) (λ _, None) SinkWrite cx_content cx_inv cx_layout cx_steady cx_rows
    (Some (mkReadback 1 "full" "in_progress")) None (Some 30) cx_second
    (resuming (Some (checkpoints cx_second)) (cx_plan SealFirst)) [] cx_tape cx_clean
    (confirm_with SinkWrite cx_layout (resuming (Some (checkpoints cx_second)) (cx_plan SealFirst)) [] cx_tape).2
    cx_distinct _ Hc eq_refl eq_refl (cx_no_seal SealFirst _) _).
  - refine (readbacks_one (λ _, Some 0) (λ _, None) SinkWrite cx_content cx_inv cx_layout ∅ 1 None
      (resuming None (cx_plan SealFirst)) [false; false; false; true] cx_tape cx_first.1 cx_first.2 _
      (readbacks_none _ _ _ _ _ _) _ _ eq_refl eq_refl (cx_no_seal SealFirst _) _).
    + intros p. apply lookup_empty.
    + intros c [=].
    + exact (surjective_pairing cx_first).
  - rewrite <- Hr. by destruct (confirm_with _ _ _ _ _).
Defined.

(** ** A drive that fails reads *)

(** The tape behind a drive whose next reads fail as listed. *)
Definition flaky_store : Readable := {|
  medium := list (list Z) * list bool;
  failure := MemFailure;
  read_into cap p m :=
    (if default false (head m.2) then Err (NoFileRecorded p) else mem_read_file cap p m.1, (m.1, drop 1 m.2));
  head_of p n m := (take (Z.to_nat n) <$> mem_read_file None p m.1, m);
  ends_at_or_before p m := (Ok (bool_decide (Z.of_nat (length m.1) ≤ p)), m);
  count_files m := (Ok (Some (Z.of_nat (length m.1))), m);
|}.

(** The slice, the sixth read, fails. *)
Definition cx_faults : list bool := [false; false; false; false; false; true].

Definition cx_faulty_run :=
  confirm_with (H1 := flaky_store) SinkWrite cx_layout (cx_plan SealFirst) [] (cx_tape, cx_faults).
Definition cx_unread : Evidence MemFailure :=
  mkEvidence Integrity 5 [mkMismatch 4 ContentUnreadable (ReadFailed (NoFileRecorded 4))].

Lemma confirm_faults_witness :
  cx_faulty_run.1 = Ok cx_unread ∧
  ∃ ev0, plain_reading (H1 := flaky_store) SinkWrite cx_content cx_layout (cx_plan SealFirst) = Ok ev0 ∧
    (proves_medium_bad cx_unread = true → proves_medium_bad ev0 = true).
Proof.
  assert (cx_faulty_run.1 = Ok cx_unread) as Hr by (vm_compute; reflexivity). split; [exact Hr|].
  destruct (confirm_faults (H1 := flaky_store) SinkWrite cx_content (λ m, m.1 = cx_tape) cx_layout
    (cx_plan SealFirst) [] (cx_tape, cx_faults) cx_unread cx_faulty_run.2) as (ev0 & Hp & Hb & _).
  - intros m cap p _ Hm. eexists _, _. split; [reflexivity|]. split; [exact Hm|].
    destruct (head m.2) as [[|]|]; cbn; [right; left; by eexists|left..];
      rewrite Hm; unfold mem_read_file, limited, cx_content; by destruct (mem_file p cx_tape).
  - reflexivity.
  - intros b fi_pos len ending [=].
  - intros c [=].
  - transitivity (cx_faulty_run.1, cx_faulty_run.2); [exact (surjective_pairing cx_faulty_run)|].
    exact (f_equal (λ r, (r, cx_faulty_run.2)) Hr).
  - exists ev0. exact (conj Hp Hb).
Defined.

(** ** The seal of a tape that ended early *)

Lemma locate_seal_spec_witness :
  (locate_seal 9 (cx_tape : @medium cx_store)).1 = SealFile 5 (cx_seal ++ [0; 0]) ∧
  seal_found cx_tape 9 (SealFile 5 (cx_seal ++ [0; 0])).
Proof.
  assert ((locate_seal 9 (cx_tape : @medium cx_store)).1 = SealFile 5 (cx_seal ++ [0; 0])) as Hl by (vm_compute; reflexivity).
  split; [exact Hl|].
  refine (proj1 (locate_seal_spec cx_tape cx_inv 9 cx_tape _ (locate_seal 9 (cx_tape : @medium cx_store)).2 _ eq_refl _ _)).
  - split; try (intros; assumption).
    + intros m p n l m' -> Hp Hn. cbn. unfold mem_read_file, mem_file. rewrite bool_decide_eq_true_2 by done.
      destruct (cx_tape !! Z.to_nat p) as [f|]; cbn; [|by intros [=]]. intros [= <- _]. left. by exists f.
    + intros m p m' -> . cbn. intros [= Hb _]. by apply bool_decide_eq_true in Hb.
    + intros m n m' ->. cbn. by intros [= <- _].
  - lia.
  - rewrite <- Hl. by destruct (locate_seal _ _).
Defined.
