(* ===== verification/Contact.v ===== *)
(** * The contact with a tape: [src/volume/session.rs], [src/volume/write.rs]

    What is read of a loaded cartridge before anything is written to it: File
    0's identity and its seal pointer, the seal where rule 6 puts it, and
    whether the medium is blank; what a fresh write decides from it, and what
    a resume does. *)

From S2P Require Import Prelude LayoutModel Session Format Confirm.
Local Open Scope Z_scope.
Local Open Scope rust_scope.

(** [Store::blank_at_bot]. *)
Class Blankable `{!Readable} : Type := blank_of : medium → result failure bool * medium.

Section contact.
Context `{!TomlCrate, !Readable, !Blankable}.

(** Why a seal's position could not be read. *)
Inductive Unread : Type :=
| ReadError (e : failure)
| FilesUnknown (read : option failure) (why : NotCounted).

Inductive ContactOutcome : Type :=
| Blank
| FileZeroUnreadable (e : failure)
| Matches
| IdentityMismatch (found : option IdThunkIdentity)
| EmptyFileZero
| AlreadySealed (seal_position : Z)
| SealUnreadable (position : Z) (why : Unread).

Inductive SealRead : Type :=
| ReadBytes (l : list Z)
| ReadAbsent
| ReadUnreadable (why : Unread).

Record ContactFacts : Type := mkFacts {
  file0 : option (list Z);
  identity : option IdThunkIdentity;
  seal_pointer : option Z;
  file0_requires : option (list string);
  seal_reads : gmap Z (Z * SealRead);      (* by planned position *)
}.
Definition no_facts : ContactFacts := mkFacts None None None None ∅.

Inductive SealProbe : Type :=
| Parses (position : Z)
| Absent
| Unreadable (position : Z) (why : Unread).

(** Rule 6: which seal a reader accepts at [position]. *)
Definition accepts (facts : ContactFacts) (seal : ParsedSeal) (position planned : Z) : bool :=
  if bool_decide (planned ≤ position) || bool_decide (is_Some (seal_refusal seal)) then true
  else
    let tape_requires_short_seal :=
      match file0_requires facts with
      | Some requires => existsb (λ f, bool_decide (f = SHORT_SEAL)) requires
      | None => true
      end in
    tape_requires_short_seal && requires_short_seal seal
      && bool_decide (seal_file_count seal = position + 1).

Definition accepted_seal (facts : ContactFacts) (planned : Z) : option (Z * ParsedSeal) :=
  match seal_reads facts !! planned with
  | Some (position, ReadBytes bytes) =>
      match parse_seal_marker (from_utf8_lossy bytes) with
      | Ok seal => if accepts facts seal position planned then Some (position, seal) else None
      | Err _ => None
      end
  | _ => None
  end.

(** What is read at a planned position: on a blank medium one bounded read. *)
Definition read_planned (planned : Z) (medium_blank : bool) (m : medium) : (Z * SealRead) * medium :=
  if medium_blank then
    let '(r, m) := read_small planned m in
    ((planned, match r with Ok (Bytes bytes) => ReadBytes bytes | _ => ReadAbsent end), m)
  else
    let '(loc, m) := locate_seal planned m in
    (match loc with
     | SealFile position bytes => (position, ReadBytes bytes)
     | SealOversized position => (position, ReadAbsent)
     | SealAbsent => (planned, ReadAbsent)
     | SealReadFailed position e => (position, ReadUnreadable (ReadError e))
     | SealUncounted position read why => (position, ReadUnreadable (FilesUnknown read why))
     end, m).

Definition probe_seal (planned : Z) (medium_blank : bool) (facts : ContactFacts) (m : medium)
    : SealProbe * ContactFacts * medium :=
  let '(facts, m) :=
    match seal_reads facts !! planned with
    | Some _ => (facts, m)
    | None =>
        let '(r, m) := read_planned planned medium_blank m in
        (mkFacts (file0 facts) (identity facts) (seal_pointer facts) (file0_requires facts)
           (<[planned := r]> (seal_reads facts)), m)
    end in
  (match seal_reads facts !! planned with
   | Some (position, ReadBytes _) =>
       match accepted_seal facts planned with Some _ => Parses position | None => Absent end
   | Some (position, ReadUnreadable why) => Unreadable position why
   | _ => Absent
   end, facts, m).

Definition seal_bytes (facts : ContactFacts) (position : Z) : option (list Z) :=
  head (omap (λ kr : Z * (Z * SealRead),
    match kr.2.2 with
    | ReadBytes bytes => if bool_decide (kr.2.1 = position) then Some bytes else None
    | _ => None
    end) (map_to_list (seal_reads facts))).

(** The outcome a probe decides, if it decides one. *)
Definition probe_outcome (p : SealProbe) : option ContactOutcome :=
  match p with
  | Parses position => Some (AlreadySealed position)
  | Unreadable position why => Some (SealUnreadable position why)
  | Absent => None
  end.

Definition same_identity (id : IdThunkIdentity) (label uuid : string) : bool :=
  bool_decide (id_label id = label) && bool_decide (id_uuid id = uuid).

(** File 0, as it was read: its facts, and the tape's own seal pointer. *)
Definition file0_facts (bytes : list Z) : ContactFacts :=
  let text := from_utf8_lossy bytes in
  mkFacts (Some bytes)
    match parse_id_thunk_identity text with Ok id => Some id | Err _ => None end
    match parse_id_thunk_layout_pointers text with Ok p => Some (ptr_seal_marker p) | Err _ => None end
    match parse_id_thunk_claims text with Ok c => Some (claims_requires c) | Err _ => None end
    ∅.

(** The caller's position, and what is left to say. *)
Definition probe_callers (seal_position : option Z) (file_zero_error : option failure) (blank : bool)
    (facts : ContactFacts) (m : medium) : ContactOutcome * ContactFacts * medium :=
  let '(decided, facts, m) :=
    match seal_position with
    | Some p => let '(probe, facts, m) := probe_seal p blank facts m in (probe_outcome probe, facts, m)
    | None => (None, facts, m)
    end in
  (match decided with
   | Some o => o
   | None =>
       match file_zero_error with
       | None => Matches
       | Some e => if blank then Blank else FileZeroUnreadable e
       end
   end, facts, m).

Definition contact_report (label uuid : string) (seal_position : option Z) (m : medium)
    : ContactOutcome * ContactFacts * medium :=
  let '(r, m) := read_small 0 m in
  match r with
  | Ok Oversized => (IdentityMismatch None, no_facts, m)
  | Ok (Bytes bytes) =>
      let facts := file0_facts bytes in
      let '(decided, facts, m) :=
        match seal_pointer facts with
        | Some p =>
            if bool_decide (0 ≤ p) then
              let '(probe, facts, m) := probe_seal p false facts m in (probe_outcome probe, facts, m)
            else (None, facts, m)
        | None => (None, facts, m)
        end in
      match decided with
      | Some o => (o, facts, m)
      | None =>
          if negb (match identity facts with Some id => same_identity id label uuid | None => false end) then
            (if bool_decide (length bytes = 0)%nat then EmptyFileZero else IdentityMismatch (identity facts),
             facts, m)
          else probe_callers seal_position None false facts m
      end
  | Err e =>
      let '(b, m) := blank_of m in
      let blank := match b with Ok b => b | Err _ => false end in
      probe_callers seal_position (Some e) blank no_facts m
  end.

Definition check_tape_contact (label uuid : string) (seal_position : option Z) (m : medium)
    : ContactOutcome * medium :=
  let '(o, _, m) := contact_report label uuid seal_position m in (o, m).

(** ** A fresh write *)

Inductive BlankProof : Type := ChipProof | VerifiedErase.

Inductive WriteRefusal : Type :=
| LiveVolumeUnread (e : failure) (live : list string)
| NotProvablyBlank (e : failure)
| SealedTape (position : Z)
| SealNotRead (position : Z) (why : Unread)
| DifferentVolume (found : option IdThunkIdentity)
| EmptyFile.

(** [decide_fresh_write_contact_on]. *)
Definition decide_fresh_write (o : ContactOutcome) (allow_overwrite : bool) (live : list string)
    (proof : option BlankProof) : result WriteRefusal () :=
  match o with
  | Blank | Matches => Ok ()
  | FileZeroUnreadable e =>
      if negb (bool_decide (length live = 0)%nat) then Err (LiveVolumeUnread e live)
      else if match proof with Some ChipProof => true | _ => false end then Ok ()
      else if allow_overwrite then Ok () else Err (NotProvablyBlank e)
  | AlreadySealed p => Err (SealedTape p)
  | SealUnreadable p why => Err (SealNotRead p why)
  | IdentityMismatch found => if allow_overwrite then Ok () else Err (DifferentVolume found)
  | EmptyFileZero =>
      if match proof with Some VerifiedErase => true | _ => false end then Ok ()
      else if allow_overwrite then Ok () else Err EmptyFile
  end.

(** [check_fresh_write_contact_on]: a proof is sought only where it may
    decide; the two are [chip] and [verified_erase]. *)
Definition fresh_write_contact (chip verified_erase : option BlankProof) (label uuid : string)
    (seal_position : option Z) (allow_overwrite : bool) (live : list string) (m : medium)
    : result WriteRefusal () * medium :=
  let '(o, _, m) := contact_report label uuid seal_position m in
  let proof :=
    match o with
    | FileZeroUnreadable _ => if bool_decide (length live = 0)%nat then chip else None
    | EmptyFileZero => if bool_decide (length live = 0)%nat then verified_erase else None
    | _ => None
    end in
  (decide_fresh_write o allow_overwrite live proof, m).

(** ** A resume *)

Definition resume_reconfirm_eligible (facts : ContactFacts) (label uuid : string)
    (expected_seal_position : option Z) : option Ending :=
  expected ← expected_seal_position;
  id ← identity facts;
  if negb (same_identity id label uuid) then None
  else if negb (bool_decide (seal_pointer facts = Some expected)) then None
  else
    '(position, seal) ← accepted_seal facts expected;
    if bool_decide (position = expected) then Some Session.Full
    else
      match classify_seal_ending seal (expected + 1) with
      | Format.Short ended_after =>
          if bool_decide (position = ended_after + 1) && bool_decide (seal_refusal seal = None)
          then if bool_decide (0 ≤ ended_after ≤ u32_max) then Some (Session.Short ended_after) else None
          else None
      | _ => None
      end.

Inductive Quarantine : Type :=
| WrongIdentity (found : option IdThunkIdentity)
| SealedElsewhere (seal_position : Z).

(** What a resume goes on to: a confirm, the ending an early warning decided,
    the write loop; or why it stops. *)
Inductive ResumeStep : Type :=
| Confirming (o : ReadOrder) (seal : option (list Z)) (ending : Ending) (seal_found : bool)
| Quarantined (why : Quarantine)
| FileZeroRefused (e : failure)
| SealRefusedAt (position : Z) (why : Unread)
| AdoptedRefused
| SealAfterWarning (warned_at : Z)
| WriteOn.

Definition resume_decision (label uuid : string) (seal_position : option Z) (sealed adopted : bool)
    (recorded_ended_after warning_at : option Z) (o : ContactOutcome) (facts : ContactFacts) : ResumeStep :=
  let recorded := from_recorded recorded_ended_after in
  let bytes_for ending := p ← seal_position; seal_bytes facts (Session.seal_position ending p) in
  let confirm := Confirming SealFirst (bytes_for recorded) recorded false in
  match o with
  | Blank | Matches =>
      if sealed then confirm
      else if adopted then AdoptedRefused
      else match warning_at with Some k => SealAfterWarning k | None => WriteOn end
  | FileZeroUnreadable e => if sealed then confirm else FileZeroRefused e
  | SealUnreadable p why => if sealed then confirm else SealRefusedAt p why
  | IdentityMismatch found => Quarantined (WrongIdentity found)
  | EmptyFileZero => Quarantined (WrongIdentity None)
  | AlreadySealed found =>
      match resume_reconfirm_eligible facts label uuid seal_position with
      | Some ending => Confirming SealLast (bytes_for ending) ending true
      | None => Quarantined (SealedElsewhere found)
      end
  end.

(** Steps 2 and on of [resume_checking], to where it goes next. *)
Definition resume_contact (layout : Layout) (sealed adopted : bool) (recorded_ended_after warning_at : option Z)
    (m : medium) : ResumeStep * medium :=
  let seal_position := (λ e, as_u32 (le_position e)) <$>
    List.find (λ e, bool_decide (le_kind e = SealMarker)) (entries layout) in
  let '(o, facts, m) := contact_report (label layout) (volume_uuid layout) seal_position m in
  (resume_decision (label layout) (volume_uuid layout) seal_position sealed adopted
     recorded_ended_after warning_at o facts, m).
End contact.
