(* ===== verification/ContactSound.v ===== *)
(** * What a contact consents to

    On a medium whose answers are true, however its reads fail: a fresh write
    and a resume that would write find no seal a reader accepts where the tape
    or the plan puts one, a quarantine is never for a read that failed, and
    the seal a resume hands to its confirm is the one on the tape. *)

From S2P Require Import Prelude LayoutModel Session Format Confirm ConfirmSound ConfirmSpec Contact.
Local Open Scope Z_scope.
Local Open Scope rust_scope.

Section sound.
Context `{!TomlCrate, !Readable, !Blankable}.
Variables (files : list (list Z)) (Inv : medium → Prop).

(** A medium of these files, whose end shows after a read that met it. *)
Record contactable : Prop := {
  ct_true : truthful files Inv;
  ct_end m p n m' : Inv m → head_of p n m = (Ok [], m') → Z.of_nat (length files) ≤ p →
    (ends_at_or_before p m').1 = Ok true;
  ct_blank m m' : Inv m → blank_of m = (Ok true, m') → files = [];
  ct_keeps m : Inv m → Inv (blank_of m).2;
}.
Hypothesis Hm : contactable.

Lemma located planned m loc m' : Inv m → 0 ≤ planned → locate_seal planned m = (loc, m') →
  Inv m' ∧ match loc with
  | SealFile p bytes => seal_place files planned p ∧ files !! Z.to_nat p = Some bytes
  | SealOversized p => seal_place files planned p ∧ ∃ f, files !! Z.to_nat p = Some f ∧ SMALL_FILE_CAP < Z.of_nat (length f)
  | SealAbsent => files = []
  | SealReadFailed p _ | SealUncounted p _ _ => True
  end.
Proof.
  intros Hi Hp Hl. pose proof (locate_seal_found files Inv planned m loc m' (ct_true Hm) Hi Hp Hl) as Hf.
  pose proof (ct_true Hm) as Ht. unfold locate_seal in Hl. unfold read_small in Hl at 1.
  pose proof (head_keeps _ _ Ht m planned (SMALL_FILE_CAP + 1) Hi) as Hk.
  destruct (head_of planned (SMALL_FILE_CAP + 1) m) as [r m1] eqn:Hr. cbn in Hk.
  pose proof (end_keeps _ _ Ht m1 planned Hk) as Hk2.
  assert (∀ failed m2, Inv m2 → locate_last planned failed m2 = (loc, m') → Inv m') as Hlast.
  { intros failed m2 Hi2 H2. unfold locate_last in H2. pose proof (count_keeps _ _ Ht m2 Hi2) as Hk3.
    destruct (count_files m2) as [c m3]. cbn in Hk3.
    destruct c as [[n|]|e]; [|by injection H2 as _ <-..].
    destruct (bool_decide (planned < n)); [by injection H2 as _ <-|].
    destruct (bool_decide (n = 0)); [by injection H2 as _ <-|]. unfold read_small in H2.
    pose proof (head_keeps _ _ Ht m3 (n - 1) (SMALL_FILE_CAP + 1) Hk3) as Hk4.
    destruct (head_of (n - 1) (SMALL_FILE_CAP + 1) m3) as [r' m4]. by injection H2 as _ <-. }
  unfold known_to_end in Hl. destruct (ends_at_or_before planned m1) as [b m2] eqn:Hb. cbn in Hk2.
  assert (Inv m') as Hi'.
  { destruct r as [l|e]; cbn in Hl.
    - destruct (bool_decide _); [by injection Hl as _ <-|]. destruct l; [|by injection Hl as _ <-].
      destruct b as [[|]|]; [by eapply Hlast|by injection Hl as _ <-..].
    - destruct b as [[|]|]; [by eapply Hlast|by injection Hl as _ <-..]. }
  split; [done|]. destruct loc as [p bytes|p| |p e|p o w]; try done.
  destruct Hf as [Hpl [Hf|(-> & -> & Hend)]]; [done|].
  assert (∀ failed m3, Inv m3 → locate_last planned failed m3 = (SealFile planned [], m') →
    files !! Z.to_nat planned = Some []) as Hfile.
  { intros failed m3 Hi3 H3. by apply (locate_last_located files Inv) in H3 as [_ ?]. }
  split; [done|]. destruct r as [l|e]; cbn in Hl.
  - destruct (bool_decide _); [done|]. destruct l as [|x l]; [|done].
    pose proof (ct_end Hm _ _ _ _ Hi Hr Hend) as He. rewrite Hb in He. cbn in He. subst b. by eapply (Hfile _ _ Hk2).
  - destruct b as [[|]|]; [by eapply (Hfile _ _ Hk2)|done..].
Qed.

(** ** The reads of a contact *)

(** A read kept: what it says of the medium. *)
Definition read_true (planned : Z) (pr : Z * SealRead) : Prop :=
  match pr with
  | (p, ReadBytes l) => seal_place files planned p ∧ files !! Z.to_nat p = Some l ∨ l = [] ∧ files = []
  | (_, ReadAbsent) => ∀ p f, seal_place files planned p → files !! Z.to_nat p = Some f → SMALL_FILE_CAP < Z.of_nat (length f)
  | (_, ReadUnreadable _) => True
  end.

Definition facts_true (facts : ContactFacts) : Prop :=
  ∀ planned pr, seal_reads facts !! planned = Some pr → 0 ≤ planned ∧ read_true planned pr.

Lemma seal_place_unique planned p q f g : 0 ≤ planned →
  seal_place files planned p → seal_place files planned q →
  files !! Z.to_nat p = Some f → files !! Z.to_nat q = Some g → p = q ∧ f = g.
Proof.
  intros H0p Hp Hq Hf Hg. pose proof (lookup_lt_Some _ _ _ Hf). pose proof (lookup_lt_Some _ _ _ Hg).
  assert (p = q) as -> by (destruct Hp as [->|[-> ?]], Hq as [->|[-> ?]]; lia). split; [done|congruence].
Qed.

Lemma read_planned_true planned blank m r m' : Inv m → 0 ≤ planned → (blank = true → files = []) →
  read_planned planned blank m = (r, m') → Inv m' ∧ read_true planned r.
Proof.
  intros Hi Hp Hb. unfold read_planned. destruct blank.
  - specialize (Hb eq_refl). destruct (read_small planned m) as [q m1] eqn:Hr.
    apply (read_small_true files Inv) in Hr as [Hi1 Hr]; [|by apply ct_true|done|done].
    intros [= <- <-]. split; [done|]. destruct q as [[l|]|e]; cbn; [|by rewrite Hb..].
    destruct Hr as [Hr|[-> _]]; [by rewrite Hb in Hr|auto].
  - destruct (locate_seal planned m) as [loc m1] eqn:Hl. apply located in Hl as [Hi1 Hl]; [|done..].
    intros [= <- <-]. split; [done|]. destruct loc as [p l|p| |p e|p o w]; cbn; [by left| |by rewrite Hl|done|done].
    destruct Hl as (Hpl & f & Hf & Hn). intros q g Hq Hg.
    by destruct (seal_place_unique _ _ _ _ _ Hp Hq Hpl Hg Hf) as [-> ->].
Qed.

(** No seal a reader of these requirements accepts, where one would be for a
    planned position. *)
Definition unsealed (facts : ContactFacts) (planned : Z) : Prop :=
  ∀ p f seal, seal_place files planned p → files !! Z.to_nat p = Some f → Z.of_nat (length f) ≤ SMALL_FILE_CAP →
    parse_seal_marker (from_utf8_lossy f) = Ok seal → accepts facts seal p planned = false.

Lemma no_seal_empty : parse_seal_marker (from_utf8_lossy []) = Err (NoMarker "seal marker" "[seal]").
Proof. done. Qed.

Lemma accepted_seal_true facts planned p seal : facts_true facts → accepted_seal facts planned = Some (p, seal) →
  seal_place files planned p ∧ ∃ f, files !! Z.to_nat p = Some f ∧ parse_seal_marker (from_utf8_lossy f) = Ok seal ∧
    accepts facts seal p planned = true.
Proof.
  intros Hf. unfold accepted_seal. destruct (seal_reads facts !! planned) as [[q [l| |w]]|] eqn:Hr; try done.
  destruct (parse_seal_marker _) as [s|e] eqn:Hs; [|done]. destruct (accepts facts s q planned) eqn:Ha; [|done].
  intros [= -> ->]. apply Hf in Hr as [_ [[Hpl Hl]|[-> _]]]; [|by rewrite no_seal_empty in Hs]. eauto.
Qed.

(** Facts that only learnt of more reads. *)
Definition more_reads (facts facts' : ContactFacts) : Prop :=
  file0 facts' = file0 facts ∧ identity facts' = identity facts ∧ seal_pointer facts' = seal_pointer facts ∧
  file0_requires facts' = file0_requires facts ∧
  ∀ planned pr, seal_reads facts !! planned = Some pr → seal_reads facts' !! planned = Some pr.

Lemma unsealed_more facts facts' planned : more_reads facts facts' → unsealed facts planned ↔ unsealed facts' planned.
Proof.
  intros (_ & _ & _ & Hq & _). unfold unsealed, accepts. by rewrite Hq.
Qed.

Lemma probe_seal_true planned blank facts m probe facts' m' :
  Inv m → 0 ≤ planned → (blank = true → files = []) → facts_true facts →
  probe_seal planned blank facts m = (probe, facts', m') →
  Inv m' ∧ facts_true facts' ∧ more_reads facts facts' ∧ is_Some (seal_reads facts' !! planned) ∧
  match probe with
  | Parses p => ∃ seal, accepted_seal facts' planned = Some (p, seal)
  | Absent => unsealed facts' planned
  | Unreadable _ _ => True
  end.
Proof.
  intros Hi Hp Hb Hf. unfold probe_seal.
  assert (∃ facts1 m1, (match seal_reads facts !! planned with
    | Some _ => (facts, m)
    | None => let '(r, m) := read_planned planned blank m in
        (mkFacts (file0 facts) (identity facts) (seal_pointer facts) (file0_requires facts) (<[planned := r]> (seal_reads facts)), m)
    end) = (facts1, m1) ∧ Inv m1 ∧ facts_true facts1 ∧ more_reads facts facts1 ∧ is_Some (seal_reads facts1 !! planned))
    as (facts1 & m1 & -> & Hi1 & Hf1 & Hmore & [[q r] Hr]).
  { destruct (seal_reads facts !! planned) as [pr|] eqn:Hs; [exists facts, m; by rewrite Hs|].
    destruct (read_planned planned blank m) as [r m1] eqn:Hr. apply read_planned_true in Hr as [Hi1 Hr]; [|done..].
    do 2 eexists. split; [done|]. split; [done|]. split; [|split].
    - intros p' pr'. cbn. rewrite lookup_insert_Some. intros [[<- <-]|[_ Hin]]; [done|by apply Hf].
    - split_and!; try done. intros p' pr' Hin. cbn. rewrite lookup_insert_ne; [done|]. intros ->. congruence.
    - cbn. by rewrite lookup_insert_eq. }
  rewrite Hr. intros [= <- <- <-]. split; [done|]. split; [done|]. split; [done|]. split; [by eexists|].
  pose proof (Hf1 _ _ Hr) as [_ Ht].
  assert (∀ l, r = ReadBytes l → accepted_seal facts1 planned = None → unsealed facts1 planned) as Hno.
  { intros l -> Hn p f seal Hpl Hlf Hsm Hs. unfold accepted_seal in Hn. rewrite Hr in Hn.
    destruct Ht as [[Hq Hl]|[-> Hnil]]; [|by rewrite Hnil in Hlf].
    destruct (seal_place_unique _ _ _ _ _ Hp Hpl Hq Hlf Hl) as [-> ->]. rewrite Hs in Hn.
    by destruct (accepts facts1 seal q planned). }
  destruct r as [l| |w]; [|by intros p f seal Hpl Hlf Hsm; specialize (Ht p f Hpl Hlf); lia|done].
  destruct (accepted_seal facts1 planned) as [[p' seal]|] eqn:Ha; [|by eapply Hno].
  exists seal. unfold accepted_seal in Ha. rewrite Hr in Ha. destruct (parse_seal_marker _) as [s|]; [|done].
  destruct (accepts facts1 s q planned); [|done]. by injection Ha as -> ->.
Qed.

(** ** The report *)

Lemma more_reads_refl facts : more_reads facts facts.
Proof. by split_and!. Qed.

Lemma more_reads_trans f1 f2 f3 : more_reads f1 f2 → more_reads f2 f3 → more_reads f1 f3.
Proof.
  intros (? & ? & ? & ? & H12) (? & ? & ? & ? & H23). split_and!; try congruence. auto.
Qed.

(** What is clear of seals: the caller's position, the tape's own pointer. *)
Definition caller_clear (seal_position : option Z) (facts : ContactFacts) : Prop :=
  ∀ p, seal_position = Some p → unsealed facts p.
Definition pointer_clear (facts : ContactFacts) : Prop :=
  ∀ p, seal_pointer facts = Some p → 0 ≤ p → unsealed facts p.

Lemma probe_callers_true seal_position err blank facts m o facts' m' :
  Inv m → (∀ p, seal_position = Some p → 0 ≤ p) → (blank = true → files = []) → facts_true facts →
  probe_callers seal_position err blank facts m = (o, facts', m') →
  Inv m' ∧ facts_true facts' ∧ more_reads facts facts' ∧
  ((∃ p planned seal, o = AlreadySealed p ∧ accepted_seal facts' planned = Some (p, seal)) ∨
   (∃ p why, o = SealUnreadable p why) ∨
   caller_clear seal_position facts' ∧
     o = match err with None => Matches | Some e => if blank then Blank else FileZeroUnreadable e end).
Proof.
  intros Hi Hp Hb Hf. unfold probe_callers. destruct seal_position as [p|].
  - destruct (probe_seal p blank facts m) as [[probe facts1] m1] eqn:Hpr.
    destruct (probe_seal_true _ _ _ _ _ _ _ Hi (Hp p eq_refl) Hb Hf Hpr) as (Hi1 & Hf1 & Hmore & _ & Hprobe).
    destruct probe as [q| |q w]; cbn; intros [= <- <- <-]; (split; [done|]); (split; [done|]); (split; [done|]).
    + left. destruct Hprobe as [seal Hs]. by exists q, p, seal.
    + right; right. split; [|done]. by intros ? [= <-].
    + right; left. by do 2 eexists.
  - cbn. intros [= <- <- <-]. split; [done|]. split; [done|]. split; [apply more_reads_refl|].
    right; right. split; [|done]. by intros ? [=].
Qed.

Definition reads_file0 (f : list Z) : Prop := files !! 0%nat = Some f ∨ f = [] ∧ files = [].

(** What a report says of the medium, by how File 0 was read. *)
Inductive report_true (label uuid : string) (seal_position : option Z) : ContactOutcome → ContactFacts → Prop :=
| rt_oversized f : files !! 0%nat = Some f → SMALL_FILE_CAP < Z.of_nat (length f) →
    report_true label uuid seal_position (IdentityMismatch None) no_facts
| rt_sealed o facts p planned seal : o = AlreadySealed p → facts_true facts →
    accepted_seal facts planned = Some (p, seal) →
    (∃ f, reads_file0 f ∧ more_reads (file0_facts f) facts) ∨ more_reads no_facts facts →
    report_true label uuid seal_position o facts
| rt_unreadable p why facts : report_true label uuid seal_position (SealUnreadable p why) facts
| rt_read f facts o : reads_file0 f → more_reads (file0_facts f) facts → pointer_clear facts →
    match o with
    | Matches => (∃ id, identity facts = Some id ∧ same_identity id label uuid = true) ∧ caller_clear seal_position facts
    | EmptyFileZero => f = []
    | IdentityMismatch found => found = identity facts ∧ ∀ id, found = Some id → same_identity id label uuid = false
    | _ => False
    end → report_true label uuid seal_position o facts
| rt_unread facts o : more_reads no_facts facts →
    match o with
    | Blank => files = []
    | FileZeroUnreadable _ => caller_clear seal_position facts
    | _ => False
    end → report_true label uuid seal_position o facts.

Lemma no_facts_true : facts_true no_facts.
Proof. intros p pr. cbn. by rewrite lookup_empty. Qed.

Lemma contact_report_true label uuid seal_position m o facts m' :
  Inv m → (∀ p, seal_position = Some p → 0 ≤ p) →
  contact_report label uuid seal_position m = (o, facts, m') →
  Inv m' ∧ facts_true facts ∧ report_true label uuid seal_position o facts.
Proof.
  intros Hi Hsp. unfold contact_report. destruct (read_small 0 m) as [r m1] eqn:Hr.
  apply (read_small_true files Inv) in Hr as [Hi1 Hr]; [|by apply ct_true|done|done]. destruct r as [[f|]|e]; cbn in Hr.
  - assert (reads_file0 f) as Hf0.
    { destruct Hr as [?|[-> Hl]]; [by left|right]. split; [done|]. apply nil_length_inv. lia. }
    assert (facts_true (file0_facts f)) as Ht0 by (intros p pr; cbn; by rewrite lookup_empty).
    set (probed := match seal_pointer (file0_facts f) with Some _ => _ | None => _ end).
    assert (∃ d facts1 m2, probed = (d, facts1, m2) ∧ Inv m2 ∧ facts_true facts1 ∧ more_reads (file0_facts f) facts1 ∧
      match d with
      | None => pointer_clear facts1
      | Some o => (∃ p planned seal, o = AlreadySealed p ∧ accepted_seal facts1 planned = Some (p, seal)) ∨
          ∃ p why, o = SealUnreadable p why
      end) as (d & facts1 & m2 & -> & Hi2 & Hf1 & Hmore & Hd).
    { unfold probed. destruct (seal_pointer (file0_facts f)) as [p|] eqn:Hptr; [case_bool_decide as Hp0|].
      - destruct (probe_seal p false (file0_facts f) m1) as [[probe facts1] m2] eqn:Hpr.
        apply probe_seal_true in Hpr as (Hi2 & Hf1 & Hmore & _ & Hprobe); [|done..].
        exists (probe_outcome probe), facts1, m2. split; [done|]. split; [done|]. split; [done|]. split; [done|].
        destruct probe as [q| |q w]; cbn.
        + left. destruct Hprobe as [seal Hs]. by exists q, p, seal.
        + intros p' Hp' _. destruct Hmore as (_ & _ & Hq & _). rewrite Hq, Hptr in Hp'. by injection Hp' as <-.
        + right. by do 2 eexists.
      - exists None, (file0_facts f), m1. split; [done|]. split; [done|]. split; [done|]. split; [apply more_reads_refl|].
        intros p' Hp' ?. rewrite Hptr in Hp'. by injection Hp' as <-.
      - exists None, (file0_facts f), m1. split; [done|]. split; [done|]. split; [done|]. split; [apply more_reads_refl|].
        intros p' Hp'. by rewrite Hptr in Hp'. }
    destruct d as [o'|].
    { intros [= <- <- <-]. split; [done|]. split; [done|].
      destruct Hd as [(p & planned & seal & -> & Hs)|(p & why & ->)]; [|apply rt_unreadable].
      eapply rt_sealed; [done..|]. left. by exists f. }
    destruct (match identity facts1 with Some id => _ | None => _ end) eqn:Hid; cbn [negb].
    + intros Hc. apply probe_callers_true in Hc as (Hi3 & Hf3 & Hmore3 & Hc); [|done..]. split; [done|]. split; [done|].
      destruct Hc as [(p & planned & seal & -> & Hs)|[(p & why & ->)|[Hclear ->]]];
        [|apply rt_unreadable|].
      { eapply rt_sealed; [done..|]. left. exists f. split; [done|]. by eapply more_reads_trans. }
      eapply rt_read; [done|by eapply more_reads_trans| |].
      * intros p Hp ?. rewrite <- (unsealed_more facts1 facts p Hmore3). apply Hd; [|done].
        destruct Hmore3 as (_ & _ & <- & _). done.
      * split; [|done]. destruct (identity facts1) as [id|] eqn:Hid1; [|done]. exists id.
        destruct Hmore3 as (_ & -> & _). done.
    + intros [= <- <- <-]. split; [done|]. split; [done|]. case_bool_decide as Hn.
      * eapply rt_read; [done..|]. by apply nil_length_inv.
      * eapply rt_read; [done..|]. split; [done|]. intros id Hid1. by rewrite Hid1 in Hid.
  - intros [= <- <- <-]. split; [done|]. split; [apply no_facts_true|]. destruct Hr as (f & Hf & Hn).
    by eapply rt_oversized.
  - pose proof (ct_keeps Hm m1 Hi1) as Hk. destruct (blank_of m1) as [b m2] eqn:Hb. cbn in Hk.
    set (blank := match b with Ok b => b | Err _ => false end).
    assert (blank = true → files = []) as Hbl.
    { unfold blank. destruct b as [[|]|]; [|done..]. intros _. exact (ct_blank Hm _ _ Hi1 Hb). }
    intros Hc. apply probe_callers_true in Hc as (Hi3 & Hf3 & Hmore3 & Hc); [|done|done|done|apply no_facts_true].
    split; [done|]. split; [done|].
    destruct Hc as [(p & planned & seal & -> & Hs)|[(p & why & ->)|[Hclear ->]]]; [eapply rt_sealed; eauto|apply rt_unreadable|].
    apply rt_unread; [done|]. destruct blank; [by apply Hbl|done].
Qed.

(** ** The claims *)

Lemma more_clear facts facts' seal_position : more_reads facts facts' →
  (pointer_clear facts' → pointer_clear facts) ∧ (caller_clear seal_position facts' → caller_clear seal_position facts).
Proof.
  intros Hmore. split.
  - intros Hc p Hp Hp0. rewrite (unsealed_more facts facts' p Hmore). apply Hc; [|done].
    by destruct Hmore as (_ & _ & -> & _).
  - intros Hc p Hp. rewrite (unsealed_more facts facts' p Hmore). by apply Hc.
Qed.

Lemma more_identity facts facts' : more_reads facts facts' → identity facts' = identity facts.
Proof. by intros (_ & ? & _). Qed.

Lemma no_identity_empty : identity (file0_facts []) = None.
Proof. done. Qed.

(** C22: the consent of a fresh write. It goes on only where the tape holds
    no file; where File 0 read, the seal its own pointer places is not there,
    and the volume is the one to write with no seal at the plan's place
    either, or the operator forced it, or the catalog's verified erase left
    that File 0; where a File 0 of no volume was forced; or where File 0 did
    not read, no seal is at the plan's place, no live volume is on the
    cartridge, and its chip proves it blank or the operator forced it. *)
Theorem fresh_write_consent chip erased label uuid seal_position allow live m m' :
  Inv m → (∀ p, seal_position = Some p → 0 ≤ p) →
  fresh_write_contact chip erased label uuid seal_position allow live m = (Ok (), m') →
  files = [] ∨
  (∃ f, files !! 0%nat = Some f ∧ pointer_clear (file0_facts f) ∧
    ((∃ id, identity (file0_facts f) = Some id ∧ same_identity id label uuid = true ∧
        caller_clear seal_position (file0_facts f))
     ∨ allow = true ∨ f = [] ∧ live = [] ∧ erased = Some VerifiedErase)) ∨
  (∃ f, files !! 0%nat = Some f ∧ SMALL_FILE_CAP < Z.of_nat (length f) ∧ allow = true) ∨
  caller_clear seal_position no_facts ∧ live = [] ∧ (chip = Some ChipProof ∨ allow = true).
Proof.
  intros Hi Hsp. unfold fresh_write_contact. destruct (contact_report label uuid seal_position m) as [[o facts] m1] eqn:Hc.
  apply contact_report_true in Hc as (_ & _ & Hr); [|done..]. set (proof := match o with Blank => _ | _ => _ end).
  intros [= Hd _].
  destruct Hr as [f Hf Hn|o facts p planned seal -> _ Hs _|p why facts|f facts o [Hf|[-> ?]] Hmore Hptr Ho|facts o Hmore Ho].
  - right; right; left. exists f. split; [done|]. split; [done|]. cbn in Hd. by destruct allow.
  - done.
  - done.
  - right; left. exists f. split; [done|]. destruct (more_clear _ _ seal_position Hmore) as [Hpc Hcc].
    split; [by apply Hpc|]. destruct o as [|e| |found| |p|p w]; try done.
    + destruct Ho as [(id & Hid & Hsame) Hclear]. left. exists id. rewrite <- (more_identity _ _ Hmore).
      split; [done|]. split; [done|]. by apply Hcc.
    + right; left. cbn in Hd. by destruct allow.
    + right. subst f. cbn in Hd. destruct allow; [by left|right]. subst proof. cbn in Hd.
      case_bool_decide as Hl; [|done]. destruct erased as [[|]|]; try done.
      split; [done|]. split; [by apply nil_length_inv|done].
  - by left.
  - destruct o as [|e| | | | |]; try done; [by left|]. right; right; right.
    destruct (more_clear _ _ seal_position Hmore) as [_ Hcc]. split; [by apply Hcc|].
    destruct live as [|l ls]; [|done]. split; [done|]. cbn in Hd. destruct chip as [[|]|]; [by left|right; by destruct allow..].
Qed.

(** What a resume may go on to. *)
Definition step_true (layout : Layout) (seal_position : option Z) (sealed adopted : bool)
    (recorded : option Z) (step : ResumeStep) : Prop :=
  match step with
  | WriteOn | SealAfterWarning _ => sealed = false ∧ adopted = false ∧
      (files = [] ∨ ∃ f id, files !! 0%nat = Some f ∧ pointer_clear (file0_facts f) ∧
         identity (file0_facts f) = Some id ∧ same_identity id (label layout) (volume_uuid layout) = true ∧
         caller_clear seal_position (file0_facts f))
  | Confirming order bytes ending found =>
      (∀ b, bytes = Some b → (∃ p, seal_position = Some p ∧ files !! Z.to_nat (Session.seal_position ending p) = Some b)
         ∨ files = [] ∧ b = []) ∧
      if found then order = SealLast ∧ ∃ f id p raw seal, files !! 0%nat = Some f ∧
        identity (file0_facts f) = Some id ∧ same_identity id (label layout) (volume_uuid layout) = true ∧
        seal_position = Some p ∧ seal_pointer (file0_facts f) = Some p ∧
        files !! Z.to_nat (Session.seal_position ending p) = Some raw ∧
        parse_seal_marker (from_utf8_lossy raw) = Ok seal ∧
        (ending ≠ Session.Full → effective_ended_after seal = recorded_ended_after ending)
      else order = SealFirst ∧ sealed = true ∧ ending = from_recorded recorded
  | Quarantined (WrongIdentity found) =>
      ∃ f, (files !! 0%nat = Some f ∨ files = []) ∧ ∀ id, identity (file0_facts f) = Some id →
        same_identity id (label layout) (volume_uuid layout) = true → SMALL_FILE_CAP < Z.of_nat (length f)
  | Quarantined (SealedElsewhere p) =>
      ∃ f seal, files !! Z.to_nat p = Some f ∧ parse_seal_marker (from_utf8_lossy f) = Ok seal
  | _ => True
  end.

Lemma seal_bytes_true facts position b : facts_true facts → seal_bytes facts position = Some b →
  files !! Z.to_nat position = Some b ∨ b = [] ∧ files = [].
Proof.
  intros Hf Hs. unfold seal_bytes in Hs. apply head_Some_elem_of, list_elem_of_omap in Hs as ([planned [p r]] & Hin & Hr).
  apply elem_of_map_to_list in Hin. cbn in Hr. destruct r as [l| |w]; try done. case_bool_decide as Hp; [|done].
  injection Hr as ->. subst p. apply Hf in Hin as [_ [[_ ?]|?]]; auto.
Qed.

Lemma short_states seal count k : classify_seal_ending seal count = Format.Short k → effective_ended_after seal = Some k.
Proof.
  unfold classify_seal_ending. destruct (try_u64 _); [|done]. destruct (Z.compare _ _); try done.
  destruct (effective_ended_after seal); [|done]. by intros [= ->].
Qed.

Lemma eligible_true facts label uuid seal_position ending : facts_true facts →
  resume_reconfirm_eligible facts label uuid seal_position = Some ending →
  ∃ id p raw seal, identity facts = Some id ∧ same_identity id label uuid = true ∧ seal_position = Some p ∧
    seal_pointer facts = Some p ∧ files !! Z.to_nat (Session.seal_position ending p) = Some raw ∧
    parse_seal_marker (from_utf8_lossy raw) = Ok seal ∧
    (ending ≠ Session.Full → effective_ended_after seal = recorded_ended_after ending).
Proof.
  intros Hf. unfold resume_reconfirm_eligible. destruct seal_position as [p|]; cbn; [|done].
  destruct (identity facts) as [id|] eqn:Hid; cbn; [|done]. destruct (same_identity id label uuid) eqn:Hsame; cbn; [|done].
  destruct (bool_decide (seal_pointer facts = Some p)) eqn:Hptr; cbn; [|done]. apply bool_decide_eq_true in Hptr.
  destruct (accepted_seal facts p) as [[q seal]|] eqn:Ha; cbn; [|done].
  apply accepted_seal_true in Ha as (_ & raw & Hraw & Hparse & _); [|done].
  case_bool_decide as Hq.
  - intros [= <-]. subst q. by exists id, p, raw, seal.
  - destruct (classify_seal_ending seal (p + 1)) as [|k|] eqn:Hcl; try done.
    destruct (_ && _) eqn:Hk; cbn; [|by intros [=]]. destruct (bool_decide _) in |- *; [|by intros [=]].
    intros [= <-]. apply andb_true_iff in Hk as [Hk _]. apply bool_decide_eq_true in Hk. subst q.
    exists id, p, raw, seal. split_and!; try done. intros _. by eapply short_states.
Qed.

Lemma resume_step_true layout sealed adopted recorded warning_at m step m' :
  Inv m → resume_contact layout sealed adopted recorded warning_at m = (step, m') →
  Inv m' ∧ step_true layout ((λ e, as_u32 (le_position e)) <$>
    List.find (λ e, bool_decide (le_kind e = SealMarker)) (entries layout)) sealed adopted recorded step.
Proof.
  intros Hi. unfold resume_contact. set (sp := _ <$> List.find _ _).
  assert (∀ p, sp = Some p → 0 ≤ p) as Hsp.
  { intros p Hp. apply fmap_Some in Hp as (e & _ & ->). apply as_u32_bound. }
  clearbody sp. destruct (contact_report (label layout) (volume_uuid layout) sp m) as [[o facts] m1] eqn:Hc.
  apply contact_report_true in Hc as (Hi1 & Hf & Hr); [|done..]. intros [= <- <-]. split; [done|]. clear Hi1. unfold resume_decision.
  assert (∀ ending b, (p ← sp; seal_bytes facts (Session.seal_position ending p)) = Some b →
    (∃ p, sp = Some p ∧ files !! Z.to_nat (Session.seal_position ending p) = Some b) ∨ files = [] ∧ b = []) as Hb.
  { intros ending b. destruct sp as [p|]; cbn; [|done]. intros Hs.
    destruct (seal_bytes_true _ _ _ Hf Hs) as [?|[? ?]]; [left; by exists p|by right]. }
  assert (sealed = true → step_true layout sp sealed adopted recorded
    (Confirming SealFirst (p ← sp; seal_bytes facts (Session.seal_position (from_recorded recorded) p)) (from_recorded recorded) false)) as Hcf.
  { intros Hs. split; [apply Hb|done]. }
  assert ((files = [] ∨ ∃ f id, files !! 0%nat = Some f ∧ pointer_clear (file0_facts f) ∧
      identity (file0_facts f) = Some id ∧ same_identity id (label layout) (volume_uuid layout) = true ∧
      caller_clear sp (file0_facts f)) →
    step_true layout sp sealed adopted recorded
      (if sealed then Confirming SealFirst (p ← sp; seal_bytes facts (Session.seal_position (from_recorded recorded) p)) (from_recorded recorded) false
       else if adopted then AdoptedRefused
       else match warning_at with Some k => SealAfterWarning k | None => WriteOn end)) as Hwrite.
  { intros Hw. destruct sealed; [by apply Hcf|]. destruct adopted; [done|]. by destruct warning_at. }
  destruct Hr as [f Hf0 Hn|o facts p planned seal -> _ Hs Hfrom|p why facts|f facts o Hf0 Hmore Hptr Ho|facts o Hmore Ho].
  - exists f. split; [by left|done].
  - destruct (resume_reconfirm_eligible facts _ _ sp) as [ending|] eqn:He; cbn [step_true].
    + split; [apply Hb|]. split; [done|].
      apply eligible_true in He as (id & p' & raw & seal' & Hid & Hsame & Hp' & Hpt & Hraw & Hparse & Hst); [|done].
      destruct Hfrom as [(f & Hf0 & Hmore)|Hmore]; rewrite (more_identity _ _ Hmore) in Hid; [|done].
      destruct Hmore as (_ & _ & Hpq & _). rewrite Hpq in Hpt.
      destruct Hf0 as [Hf0|[-> _]]; [|by rewrite no_identity_empty in Hid]. by exists f, id, p', raw, seal'.
    + apply accepted_seal_true in Hs as (_ & f & Hf' & Hparse & _); [|done]. by exists f, seal.
  - destruct sealed; [by apply Hcf|done].
  - destruct o as [|e| |found| |p|p w]; try done.
    + apply Hwrite. destruct Ho as [(id & Hid & Hsame) Hclear]. destruct Hf0 as [Hf0|[-> ?]]; [|by left]. right.
      destruct (more_clear _ _ sp Hmore) as [Hpc Hcc]. exists f, id. rewrite <- (more_identity _ _ Hmore).
      split_and!; try done; [by apply Hpc|by apply Hcc].
    + exists f. split; [destruct Hf0 as [?|[_ ?]]; auto|]. destruct Ho as [-> Hn]. intros id Hid Hsame.
      rewrite (more_identity _ _ Hmore) in Hn. by rewrite (Hn id Hid) in Hsame.
    + subst f. exists []. split; [destruct Hf0 as [?|[_ ?]]; auto|]. intros id. by rewrite no_identity_empty.
  - destruct o as [|e| | | | |]; try done; [apply Hwrite; by left|]. destruct sealed; [by apply Hcf|done].
Qed.

(** C23: what a resume goes on to. It writes on, or seals after a recorded
    warning, only on a tape that holds no file or on its own volume with no
    seal where the tape's pointer or the plan puts one, and only while no
    seal is recorded; it goes on to a confirm for a recorded seal, or for the
    seal it found on its own volume, at the ending that seal states, and the
    bytes it hands over are the tape's; it quarantines only for a File 0 that
    read and is another volume's, or for a seal that parses, never for a read
    that failed. *)
Theorem resume_contact_spec layout sealed adopted recorded warning_at m step m' :
  Inv m → resume_contact layout sealed adopted recorded warning_at m = (step, m') →
  step_true layout ((λ e, as_u32 (le_position e)) <$>
    List.find (λ e, bool_decide (le_kind e = SealMarker)) (entries layout)) sealed adopted recorded step.
Proof. intros Hi Hr. by destruct (resume_step_true layout sealed adopted recorded warning_at m step m' Hi Hr). Qed.
End sound.
