(* ===== verification/ContactRehearsal.v ===== *)
(** * A contact rehearsed

    Two tapes of one volume in memory, one left by a write cut off and one
    sealed, met by a fresh write and by a resume. *)

From S2P Require Import Prelude LayoutModel Session Format Confirm ConfirmSound ConfirmSpec Contact ContactSound.
Local Open Scope Z_scope.
Local Open Scope rust_scope.

Definition kx_text (s : string) : list Z := (λ a, Z.of_N (Ascii.N_of_ascii a)) <$> String.list_ascii_of_string s.

Definition kx_volume_doc : list (string * toml) :=
  [("volume"%string, TTable [("label"%string, TString "V"); ("uuid"%string, TString "u");
     ("layout_version"%string, TInteger 2); ("requires"%string, TArray [])])].
Definition kx_layout_doc : list (string * toml) :=
  [("layout"%string, TTable [("front_index"%string, TInteger 1); ("seal_marker"%string, TInteger 3);
     ("total_files"%string, TInteger 4)])].
Definition kx_seal_doc : list (string * toml) :=
  [("seal"%string, TTable
     [("volume"%string, TString "V"); ("layout_version"%string, TInteger 2); ("file_count"%string, TInteger 4);
      ("sealed_at"%string, TString "now"); ("front_index_sha256"%string, TString "00")]);
   ("files"%string, TArray [])].

(** A [toml] crate that knows the three documents. *)
#[local] Instance kx_toml : TomlCrate := λ s,
  if String.prefix "[volume]" s then Ok kx_volume_doc
  else if String.prefix "[layout]" s then Ok kx_layout_doc
  else Ok kx_seal_doc.

#[local] Instance kx_store : Readable := mem_store.
#[local] Instance kx_blank : Blankable := λ files, (Ok (bool_decide (files = [])), files).

Definition kx_file0 : list Z := kx_text "[volume] [layout]".
Definition kx_seal : list Z := kx_text "[seal]".
(** A write cut off after its second file, and the same volume sealed. *)
Definition kx_cut : list (list Z) := [kx_file0; kx_text "index"].
Definition kx_sealed : list (list Z) := [kx_file0; kx_text "index"; kx_text "slice"; kx_seal].

Definition kx_layout : Layout :=
  mkLayout "V" "u" "lto6" 4 (mkCapacityBudget 0 0 None None)
    [mkLayoutEntry 0 IdThunk None None Generated; mkLayoutEntry 1 FrontIndex None None Generated;
     mkLayoutEntry 2 (Slice 5) None None Generated; mkLayoutEntry 3 SealMarker None None Generated].

Lemma kx_contactable files : contactable files (λ m : medium, m = files).
Proof.
  split.
  - split; try (intros; assumption).
    + intros m p n l m' -> Hp Hn. cbn. unfold mem_read_file, mem_file. rewrite bool_decide_eq_true_2 by done.
      destruct (files !! Z.to_nat p) as [f|]; cbn; [|by intros [=]]. intros [= <- _]. left. by exists f.
    + intros m p m' -> . cbn. intros [= Hb _]. by apply bool_decide_eq_true in Hb.
    + intros m n m' ->. cbn. by intros [= <- _].
  - intros m p n m' -> Hh Hp. cbn in Hh |- *. injection Hh as _ <-. by rewrite bool_decide_eq_true_2.
  - intros m m' ->. unfold blank_of, kx_blank. intros [= Hb _]. by apply bool_decide_eq_true in Hb.
  - done.
Qed.

Lemma fresh_write_consent_witness :
  (fresh_write_contact None None "V" "u" (Some 3) false [] (kx_cut : medium)).1 = Ok () ∧
  (kx_cut = [] ∨
   (∃ f, kx_cut !! 0%nat = Some f ∧ pointer_clear kx_cut (file0_facts f) ∧
     ((∃ id, identity (file0_facts f) = Some id ∧ same_identity id "V" "u" = true ∧
        caller_clear kx_cut (Some 3) (file0_facts f))
      ∨ false = true ∨ f = [] ∧ @nil string = [] ∧ @None BlankProof = Some VerifiedErase)) ∨
   (∃ f, kx_cut !! 0%nat = Some f ∧ SMALL_FILE_CAP < Z.of_nat (length f) ∧ false = true) ∨
   caller_clear kx_cut (Some 3) no_facts ∧ @nil string = [] ∧ (@None BlankProof = Some ChipProof ∨ false = true)).
Proof.
  assert ((fresh_write_contact None None "V" "u" (Some 3) false [] (kx_cut : medium)).1 = Ok ()) as Hr by (vm_compute; reflexivity).
  split; [exact Hr|].
  refine (fresh_write_consent kx_cut (λ m : medium, m = kx_cut) (kx_contactable kx_cut) None None "V" "u" (Some 3) false []
    kx_cut (fresh_write_contact None None "V" "u" (Some 3) false [] (kx_cut : medium)).2 eq_refl _ _).
  - intros p [= <-]. lia.
  - rewrite <- Hr. exact (surjective_pairing _).
Defined.

(** The seal a resume finds is read last, at the plan's own place. *)
Lemma resume_contact_spec_witness :
  (resume_contact kx_layout false false None None (kx_sealed : medium)).1
    = Confirming SealLast (Some kx_seal) Session.Full true ∧
  step_true kx_sealed kx_layout (Some 3) false false None (Confirming SealLast (Some kx_seal) Session.Full true).
Proof.
  assert ((resume_contact kx_layout false false None None (kx_sealed : medium)).1
    = Confirming SealLast (Some kx_seal) Session.Full true) as Hr by (vm_compute; reflexivity).
  split; [exact Hr|].
  refine (resume_contact_spec kx_sealed (λ m : medium, m = kx_sealed) (kx_contactable kx_sealed) kx_layout false false None None
    kx_sealed _ (resume_contact kx_layout false false None None (kx_sealed : medium)).2 eq_refl _).
  rewrite <- Hr. exact (surjective_pairing _).
Defined.
