(* ===== verification/Ledger.v ===== *)
(** * The catalog's claims: [src/volume/session.rs], [src/policy/coverage.rs]

    The rows that say what a cartridge holds: the writes of a session, their
    slices' positions, the versions and the volumes; every change a session,
    a verify or an operator makes to them, each a transaction; and what the
    rows are read to mean. Times are the texts the catalog compares. *)

From S2P Require Import Prelude LayoutModel Format Session Confirm.
Local Open Scope Z_scope.
Local Open Scope rust_scope.

(** ** The rows *)

Inductive WriteStatus : Type :=
| WPlanned | WInProgress | WCompleted | WFailed | WAborted | WInterrupted | WCut | WRange.
Inductive VolumeStatus : Type := VInitialized | VActive | VRetired | VErased | VSealed.
Inductive Condition : Type := CondOk | CondQuarantined.
Inductive SnapshotStatus : Type := SnapCreated | SnapStaged | SnapCurrent | SnapReclaimable | SnapPurged.

#[export] Instance WriteStatus_eq_dec : EqDecision WriteStatus.
Proof. solve_decision. Defined.
#[export] Instance VolumeStatus_eq_dec : EqDecision VolumeStatus.
Proof. solve_decision. Defined.
#[export] Instance Condition_eq_dec : EqDecision Condition.
Proof. solve_decision. Defined.
#[export] Instance SnapshotStatus_eq_dec : EqDecision SnapshotStatus.
Proof. solve_decision. Defined.

Record WriteRow : Type := mkWriteRow {
  stage_set_id : Z;
  snapshot_id : Z;
  volume_id : Z;
  write_status : WriteStatus;
  write_verified : bool;
  may_span : bool;
}.
Record StageSlice : Type := mkStageSlice { slice_set_id : Z; slice_number : Z }.
Record VolumeRow : Type := mkVolumeRow {
  volume_status : VolumeStatus;
  observed_condition : Condition;
  sealed_at : option string;
  volume_ended_after : option Z;
}.
Record Verification : Type := mkVerification {
  verified_volume : Z;
  vs_type : string;
  vs_outcome : string;
  vs_started_at : string;
}.

Record Ledger : Type := mkLedger {
  writes : gmap Z WriteRow;
  write_positions : gmap (Z * Z) PositionRow;   (* by write and stage slice *)
  stage_slices : gmap Z StageSlice;
  snapshots : gmap Z SnapshotStatus;
  volumes : gmap Z VolumeRow;
  aborts : list (Z * string);                   (* [write_aborted], [write_quarantined] *)
  verifications : gmap Z Verification;          (* [verification_sessions], by id *)
  results : gset (Z * Z);                       (* positions a [verification_results] row names *)
}.

Definition set_writes (f : gmap Z WriteRow → gmap Z WriteRow) (c : Ledger) : Ledger :=
  mkLedger (f (writes c)) (write_positions c) (stage_slices c) (snapshots c) (volumes c) (aborts c)
    (verifications c) (results c).
Definition set_write_positions (f : gmap (Z * Z) PositionRow → gmap (Z * Z) PositionRow) (c : Ledger) : Ledger :=
  mkLedger (writes c) (f (write_positions c)) (stage_slices c) (snapshots c) (volumes c) (aborts c)
    (verifications c) (results c).
Definition set_snapshots (f : gmap Z SnapshotStatus → gmap Z SnapshotStatus) (c : Ledger) : Ledger :=
  mkLedger (writes c) (write_positions c) (stage_slices c) (f (snapshots c)) (volumes c) (aborts c)
    (verifications c) (results c).
Definition set_volume (v : Z) (f : VolumeRow → VolumeRow) (c : Ledger) : Ledger :=
  mkLedger (writes c) (write_positions c) (stage_slices c) (snapshots c) (alter f v (volumes c)) (aborts c)
    (verifications c) (results c).
Definition log_abort (v : Z) (now : string) (c : Ledger) : Ledger :=
  mkLedger (writes c) (write_positions c) (stage_slices c) (snapshots c) (volumes c) (aborts c ++ [(v, now)])
    (verifications c) (results c).
Definition set_verifications (f : gmap Z Verification → gmap Z Verification) (c : Ledger) : Ledger :=
  mkLedger (writes c) (write_positions c) (stage_slices c) (snapshots c) (volumes c) (aborts c)
    (f (verifications c)) (results c).

(** The id SQLite gives a new row: one past the largest. *)
Definition next_id {A} (m : gmap Z A) : Z := 1 + fold_right Z.max 0 (map_to_list m).*1.
Definition log_verification (x : Verification) (c : Ledger) : Z * Ledger :=
  let id := next_id (verifications c) in (id, set_verifications <[id := x]> c).

Definition with_status (s : WriteStatus) (r : WriteRow) : WriteRow :=
  mkWriteRow (stage_set_id r) (snapshot_id r) (volume_id r) s (write_verified r) (may_span r).
Definition set_verified (b : bool) (r : WriteRow) : WriteRow :=
  mkWriteRow (stage_set_id r) (snapshot_id r) (volume_id r) (write_status r) b (may_span r).
Definition with_volume_status (s : VolumeStatus) (v : VolumeRow) : VolumeRow :=
  mkVolumeRow s (observed_condition v) (sealed_at v) (volume_ended_after v).
Definition with_condition (k : Condition) (v : VolumeRow) : VolumeRow :=
  mkVolumeRow (volume_status v) k (sealed_at v) (volume_ended_after v).

(** The rows of a volume in some status, by id. *)
Definition is_on (v : Z) (r : WriteRow) : bool := bool_decide (volume_id r = v).
Definition ids_in (v : Z) (ss : list WriteStatus) (c : Ledger) : list Z :=
  merge_sort Z.le ((filter (λ kr : Z * WriteRow, volume_id kr.2 = v ∧ write_status kr.2 ∈ ss)
                     (map_to_list (writes c))).*1).

(** ** What the rows are read to mean *)

(** [coverage::is_write_target], [has_completed_write]. *)
Definition is_write_target (s : VolumeStatus) (k : Condition) : bool :=
  bool_decide (s = VInitialized) && bool_decide (k = CondOk).
Definition terminal : list WriteStatus := [WCompleted; WCut; WRange].
Definition has_completed_write (v : Z) (c : Ledger) : bool :=
  negb (bool_decide (ids_in v terminal c = [])).

Definition condition_ok (v : VolumeRow) : bool := bool_decide (observed_condition v = CondOk).
Definition eligible (v : VolumeRow) : bool := bool_decide (volume_status v = VSealed) && condition_ok v.
Definition in_service (v : VolumeRow) : bool :=
  bool_decide (volume_status v ∈ [VActive; VSealed]) && condition_ok v.
Definition in_service_or_provisioned (v : VolumeRow) : bool :=
  bool_decide (volume_status v ∈ [VActive; VSealed; VInitialized]) && condition_ok v.
Definition given_up (v : VolumeRow) : bool := bool_decide (volume_status v ∈ [VRetired; VErased]).
Definition holds_sealed_bytes (v : VolumeRow) : bool :=
  (bool_decide (volume_status v = VSealed) || bool_decide (is_Some (sealed_at v)))
    && negb (given_up v) && condition_ok v.
Definition holds_bytes_to_verify (v : VolumeRow) : bool :=
  (bool_decide (volume_status v ∈ [VActive; VSealed]) || bool_decide (is_Some (sealed_at v)))
    && negb (given_up v).
Definition is_sealed_but_unconfirmed (v : VolumeRow) : bool :=
  negb (bool_decide (volume_status v = VSealed)) && bool_decide (is_Some (sealed_at v)).
Definition write_reaches_tape (r : WriteRow) : bool :=
  bool_decide (write_status r ∈ [WCompleted; WRange; WInProgress; WInterrupted]).

(** The slices of a stage set: id and number. *)
Definition slices_of (set : Z) (c : Ledger) : list (Z * Z) :=
  (λ kr : Z * StageSlice, (kr.1, slice_number kr.2)) <$>
    filter (λ kr, slice_set_id kr.2 = set) (map_to_list (stage_slices c)).

(** Whether a slice's row is [written], at a position some bound allows. *)
Definition slot_written (P : Z → bool) (w slice : Z) (c : Ledger) : bool :=
  match write_positions c !! (w, slice) with
  | Some r => bool_decide (row_status r = PWritten) && P (row_position r)
  | None => false
  end.

(** [coverage::every_slice_on_sealed_volume_sql]; [also] counts as sealed. *)
Definition slice_on_sealed (set : Z) (also : option Z) (c : Ledger) (slice : Z) : bool :=
  existsb (λ kr : Z * WriteRow,
    bool_decide (stage_set_id kr.2 = set)
      && match volumes c !! volume_id kr.2 with
         | Some v => bool_decide (volume_status v = VSealed) || bool_decide (also = Some (volume_id kr.2))
         | None => false
         end
      && (bool_decide (write_status kr.2 = WCompleted)
          || bool_decide (write_status kr.2 = WRange) && slot_written (λ _, true) kr.1 slice c))
    (map_to_list (writes c)).
Definition every_slice_on_sealed_volume (set : Z) (also : option Z) (c : Ledger) : bool :=
  negb (bool_decide (slices_of set c = []))
    && forallb (λ s : Z * Z, slice_on_sealed set also c s.1) (slices_of set c).

(** ** Errors *)

Inductive Refused : Type :=
| NoVolume (v : Z)
| NotWriteTarget (s : VolumeStatus)
| VolumeQuarantined
| HasRecordedWrite
| UnresolvedSession
| SealRecorded
| EvidenceRecorded (ids : list Z)
| NoUnitOwns (slice position : Z)
| NotUnique
| CheckFailed
| NoWriteRow (w : Z)
| WriteMoved (w : Z) (entered : WriteStatus) (now : option WriteStatus)
| VolumeMoved (now : option VolumeStatus)
| NoPlannedSeal
| NothingToAbort
| StillInProgress.

(** ** A session planned: [ValidatedLayout::plan] *)

Record BuildUnit : Type := mkBuildUnit {
  unit_stage_set_id : Z;
  unit_snapshot_id : Z;
  unit_slices : list Z;
  unit_spans : bool;
}.

(** [write::precontact_refusal], and the refusals before it. *)
Definition precontact_refusal (v : Z) (c : Ledger) : result Refused () :=
  r ← ok_or (volumes c !! v) (NoVolume v);
  if negb (bool_decide (ids_in v [WPlanned; WInProgress; WInterrupted] c = [])) then Err UnresolvedSession
  else if bool_decide (is_Some (sealed_at r)) then Err SealRecorded else Ok ().
Definition write_admitted (v : Z) (c : Ledger) : result Refused () :=
  r ← ok_or (volumes c !! v) (NoVolume v);
  if negb (is_write_target (volume_status r) (observed_condition r)) then
    (if negb (bool_decide (volume_status r = VInitialized)) then Err (NotWriteTarget (volume_status r))
     else Err VolumeQuarantined)
  else if has_completed_write v c then Err HasRecordedWrite
  else precontact_refusal v c.

Definition supersede_abandoned_attempts (v : Z) (c : Ledger) : result Refused Ledger :=
  r ← ok_or (volumes c !! v) (NoVolume v);
  if bool_decide (is_Some (sealed_at r)) then Ok c
  else
    let ids := ids_in v [WAborted; WFailed] c in
    if bool_decide (ids = []) then Ok c
    else if existsb (λ k : Z * Z, bool_decide (k.1 ∈ ids) && bool_decide (is_Some (write_positions c !! k)))
              (elements (results c))
    then Err (EvidenceRecorded ids)
    else Ok (set_writes (filter (λ kr, kr.1 ∉ ids))
               (set_write_positions (filter (λ kr, kr.1.1 ∉ ids)) c)).

Fixpoint insert_writes (v : Z) (units : list BuildUnit) (c : Ledger)
    : result Refused (list (Z * Z) * gmap Z Z * Ledger) :=
  match units with
  | [] => Ok ([], ∅, c)
  | u :: units =>
      if existsb (λ kr : Z * WriteRow, bool_decide (stage_set_id kr.2 = unit_stage_set_id u) && is_on v kr.2)
           (map_to_list (writes c))
      then Err NotUnique
      else
        let w := next_id (writes c) in
        '(ids, owner, c) ← insert_writes v units
           (set_writes <[w := mkWriteRow (unit_stage_set_id u) (unit_snapshot_id u) v WPlanned false (unit_spans u)]> c);
        (* a slice two units name goes to the later one *)
        Ok ((w, unit_snapshot_id u) :: ids, owner ∪ list_to_map ((λ s, (s, w)) <$> unit_slices u), c)
  end.

Fixpoint insert_positions (owner : gmap Z Z) (es : list LayoutEntry) (c : Ledger) : result Refused Ledger :=
  match es with
  | [] => Ok c
  | e :: es =>
      match le_kind e with
      | LayoutModel.Slice id =>
          w ← ok_or (owner !! id) (NoUnitOwns id (le_position e));
          match write_positions c !! (w, id) with
          | Some _ => Err NotUnique
          | None =>
              insert_positions owner es
                (set_write_positions <[(w, id) := mkPosition (le_position e) PPending None]> c)
          end
      | _ => insert_positions owner es c
      end
  end.

Definition insert_plan_rows (v : Z) (units : list BuildUnit) (es : list LayoutEntry) (c : Ledger)
    : result Refused (list (Z * Z) * gmap Z Z * Ledger) :=
  '(ids, owner, c) ← insert_writes v units c;
  c ← insert_positions owner es c;
  Ok (ids, owner, c).

Definition plan (v : Z) (units : list BuildUnit) (es : list LayoutEntry) (c : Ledger)
    : result Refused (list (Z * Z) * gmap Z Z * Ledger) :=
  c ← supersede_abandoned_attempts v c;
  insert_plan_rows v units es c.

(** ** The statuses of a session *)

Definition mark_write (s : WriteStatus) (w : Z) (c : Ledger) : Ledger :=
  set_writes (alter (λ r, if bool_decide (write_status r ∈ [WCut; WRange]) then r else with_status s r) w) c.
Definition mark_writes (s : WriteStatus) (ws : list Z) (c : Ledger) : Ledger :=
  fold_left (λ c w, mark_write s w c) ws c.
(** [execute_checking]'s start, and a resume's: the [UPDATE] has no guard. *)
Definition start_write (w : Z) (c : Ledger) : Ledger := set_writes (alter (with_status WInProgress) w) c.
Definition start_writes (ws : list Z) (c : Ledger) : Ledger := fold_left (λ c w, start_write w c) ws c.

Definition record_quarantine (v : Z) (ws : list Z) (now : string) (c : Ledger) : Ledger :=
  log_abort v now (mark_writes WAborted ws (set_volume v (with_condition CondQuarantined) c)).

(** [write::volume_abort], [abort_unsealed_session], and
    [db::recover_orphaned_sessions] for a volume no process holds. *)
Definition set_status (s : WriteStatus) (w : Z) (c : Ledger) : Ledger := set_writes (alter (with_status s) w) c.
Definition set_statuses (s : WriteStatus) (ws : list Z) (c : Ledger) : Ledger :=
  fold_left (λ c w, set_status s w c) ws c.
Definition volume_abort (v : Z) (now : string) (c : Ledger) : result Refused Ledger :=
  let ws := ids_in v [WPlanned; WInProgress; WInterrupted] c in
  if bool_decide (ws = []) then Err NothingToAbort
  else if negb (bool_decide (ids_in v [WInProgress] c = [])) then Err StillInProgress
  else Ok (log_abort v now (set_statuses WAborted ws c)).
Definition abort_unsealed_session (v : Z) (now : string) (c : Ledger) : Ledger :=
  log_abort v now (set_statuses WAborted (ids_in v [WPlanned; WInProgress; WInterrupted] c) c).
Definition recover_orphaned_sessions (v : Z) (c : Ledger) : Ledger :=
  set_statuses WInterrupted (ids_in v [WInProgress] c) c.

(** ** The seal recorded: [write::finish_session], [record_seal_found_at_resume] *)

Definition record_seal (v : Z) (at_ : string) (ended_after : option Z) (c : Ledger) : Ledger :=
  set_volume v (λ r, mkVolumeRow (volume_status r) (observed_condition r)
    (Some (default at_ (sealed_at r))) (match ended_after with Some k => Some k | None => volume_ended_after r end)) c.

Definition seal_recorded (v : Z) (c : Ledger) : result Refused bool :=
  r ← ok_or (volumes c !! v) (NoVolume v); Ok (bool_decide (is_Some (sealed_at r))).

(** ** What a passing confirm records *)

Inductive Split : Type :=
| SplitCompleted
| SplitRange (first_slice last_slice : Z)
| SplitCut.

#[export] Instance Split_eq_dec : EqDecision Split.
Proof. solve_decision. Defined.

Definition maxZ (l : list Z) : option Z := match l with [] => None | x :: l => Some (fold_right Z.max x l) end.
Definition minZ (l : list Z) : option Z := match l with [] => None | x :: l => Some (fold_right Z.min x l) end.

Definition last_slice_position (w : Z) (c : Ledger) : option Z :=
  maxZ ((λ kr : (Z * Z) * PositionRow, row_position kr.2) <$>
    filter (λ kr, kr.1.1 = w) (map_to_list (write_positions c))).

(** The slices of a write's set its tape holds: [written], at or before
    [ended_after]. *)
Definition held_slices (w ended_after : Z) (slices : list (Z * Z)) (c : Ledger) : list (Z * Z) :=
  filter (λ s, slot_written (λ p, bool_decide (p ≤ ended_after)) w s.1 c = true) slices.

Definition span_split (w ended_after : Z) (c : Ledger) : Split :=
  let slices := match writes c !! w with Some r => slices_of (stage_set_id r) c | None => [] end in
  let held := held_slices w ended_after slices c in
  if bool_decide (length held = length slices) then SplitCompleted
  else match minZ held.*2, maxZ held.*2 with
       | Some first, Some last => SplitRange first last
       | _, _ => SplitCut
       end.

Record RangeUnit : Type := mkRangeUnit { range_snapshot : Z; range_first : Z; range_last : Z }.

Section seal.
(** The session: its volume, its writes with their snapshots, the status and
    [may_span] each entered the confirm with, the ending, and whether every
    file was read back. *)
Variables (v : Z) (ending : Ending) (counted_through : Z) (full : bool).

Definition split_of (w : Z) (spans : bool) (c : Ledger) : Split :=
  if spans then span_split w counted_through c
  else
    match ending with
    | Session.Full => SplitCompleted
    | Session.Short ended_after =>
        match last_slice_position w c with
        | None => SplitCompleted
        | Some last => if bool_decide (last ≤ ended_after) then SplitCompleted else SplitCut
        end
    end.

(** The positions a range's tape does not hold. *)
Definition demote_past (w : Z) (c : Ledger) : Ledger :=
  set_write_positions (map_imap (λ k r,
    Some (if bool_decide (k.1 = w) && bool_decide (row_status r = PWritten) && bool_decide (counted_through < row_position r)
          then mkPosition (row_position r) PPending None else r))) c.

Definition status_of (s : Split) : WriteStatus :=
  match s with SplitCompleted => WCompleted | SplitRange _ _ => WRange | SplitCut => WCut end.

(** The [UPDATE] of one row, when it still reads as it entered; the schema
    admits [range] only with [may_span]. *)
Definition conclude (w : Z) (entered : WriteStatus) (s : Split) (c : Ledger) : result Refused Ledger :=
  let c := match s with SplitRange _ _ => demote_past w c | _ => c end in
  match writes c !! w with
  | Some r =>
      if negb (bool_decide (write_status r = entered)) then Err (WriteMoved w entered (Some (write_status r)))
      else if negb (may_span r) && bool_decide (status_of s = WRange) then Err CheckFailed
      else
        let r := with_status (status_of s) r in
        Ok (set_writes <[w := match s with SplitCut => r | _ => set_verified full r end]> c)
  | None => Err (WriteMoved w entered None)
  end.

(** What the transaction has gathered: whole snapshots, cut ones, ranges. *)
Record Gathered : Type := mkGathered {
  whole : list Z;
  cut_units : list Z;
  range_units : list RangeUnit;
  range_writes : list (Z * Z);
}.

Definition gather (w snapshot : Z) (s : Split) (g : Gathered) : Gathered :=
  match s with
  | SplitCompleted => mkGathered (whole g ++ [snapshot]) (cut_units g) (range_units g) (range_writes g)
  | SplitRange first last =>
      mkGathered (whole g) (cut_units g) (range_units g ++ [mkRangeUnit snapshot first last])
        (range_writes g ++ [(w, snapshot)])
  | SplitCut => mkGathered (whole g) (cut_units g ++ [snapshot]) (range_units g) (range_writes g)
  end.

Fixpoint conclude_all (ws : list ((Z * Z) * (WriteStatus * bool))) (g : Gathered) (c : Ledger)
    : result Refused (Gathered * Ledger) :=
  match ws with
  | [] => Ok (g, c)
  | ((w, snapshot), (entered, spans)) :: ws =>
      let s := split_of w spans c in
      c ← conclude w entered s c;
      conclude_all ws (gather w snapshot s g) c
  end.

(** A range promotes its version once every slice of its set is on a sealed
    volume, this one counted. *)
Definition everywhere (c : Ledger) (w : Z) : bool :=
  match writes c !! w with
  | Some r => every_slice_on_sealed_volume (stage_set_id r) (Some v) c
  | None => false
  end.

Definition promote (snapshot : Z) (c : Ledger) : Ledger :=
  set_snapshots (alter (λ s, if bool_decide (s ∈ [SnapCreated; SnapStaged]) then SnapCurrent else s) snapshot) c.

Definition seal_volume (c : Ledger) : result Refused Ledger :=
  match volumes c !! v with
  | Some r =>
      if bool_decide (volume_status r = VInitialized)
      then Ok (set_volume v (λ r, mkVolumeRow VSealed (observed_condition r) (sealed_at r) (recorded_ended_after ending)) c)
      else Err (VolumeMoved (Some (volume_status r)))
  | None => Err (VolumeMoved None)
  end.

(** The seal's transaction: all of it, or none. *)
Definition seal_transaction (ws : list ((Z * Z) * (WriteStatus * bool))) (c : Ledger)
    : result Refused (Gathered * Ledger) :=
  '(g, c) ← conclude_all ws (mkGathered [] [] [] []) c;
  let promoted := whole g ++ (filter (λ wn : Z * Z, everywhere c wn.1 = true) (range_writes g)).*2 in
  c ← seal_volume (fold_left (λ c n, promote n c) promoted c);
  Ok (g, c).
End seal.

(** ** The confirm: [SealedPending::confirm_under_default_interval] *)

Inductive Confirmed : Type :=
| Sealed (g : Gathered)
| Inconclusive
| ConfirmQuarantined.

(** The last position a split counts. *)
Definition counted_through (layout : Layout) (ending : Ending) : result Refused Z :=
  match ending with
  | Session.Short k => Ok k
  | Session.Full =>
      match List.find (λ e, bool_decide (le_kind e = SealMarker)) (entries layout) with
      | Some e => Ok (Z.max 0 (as_u32 (le_position e) - 1))
      | None => Err NoPlannedSeal
      end
  end.

(** The row each write entered the confirm with. *)
Fixpoint entry_statuses (ws : list (Z * Z)) (c : Ledger) : result Refused (list ((Z * Z) * (WriteStatus * bool))) :=
  match ws with
  | [] => Ok []
  | wn :: ws =>
      r ← ok_or (writes c !! wn.1) (NoWriteRow wn.1);
      rest ← entry_statuses ws c;
      Ok ((wn, (write_status r, may_span r)) :: rest)
  end.

(** [write::record_verification_results]: a row for every mismatch at a
    position the catalog has, any one of them where it has several. *)
Definition row_at (v p : Z) (c : Ledger) : option (Z * Z) :=
  head (filter (λ kr : (Z * Z) * PositionRow,
    row_position kr.2 = p ∧ (is_on v <$> (writes c !! kr.1.1)) = Some true) (map_to_list (write_positions c))).*1.
Definition record_verification_results {X} (v : Z) (ev : Evidence X) (c : Ledger) : Ledger :=
  mkLedger (writes c) (write_positions c) (stage_slices c) (snapshots c) (volumes c) (aborts c) (verifications c)
    (list_to_set (omap (λ m, row_at v (mm_position m) c) (mismatches ev)) ∪ results c).

Definition outcome_of (passed : bool) : string := if passed then "passed" else "failed".
Definition tier_verify_type (t : Tier) : string := match t with Integrity => "full" | Navigable => "quick" end.
Definition conclude_verification (id : Z) (started : string) (passed : bool) (c : Ledger) : Ledger :=
  set_verifications (alter (λ x, mkVerification (verified_volume x) (vs_type x) (outcome_of passed) started) id) c.

(** What the confirm makes of its evidence, on the catalog as it is then; a
    refused transaction leaves the catalog as it found it. *)
Definition settle {X} (v : Z) (layout : Layout) (ending : Ending) (t : Tier) (now : string)
    (ws : list ((Z * Z) * (WriteStatus * bool))) (ev : Evidence X) (c : Ledger)
    : result Refused Confirmed * Ledger :=
  if bool_decide (length (mismatches ev) = 0%nat) then
    match
      through ← counted_through layout ending;
      seal_transaction v ending through (bool_decide (t = Integrity)) ws c
    with
    | Ok (g, c) => (Ok (Sealed g), c)
    | Err e => (Err e, c)
    end
  else if proves_medium_bad ev then (Ok ConfirmQuarantined, record_quarantine v (ws.*1).*1 now c)
  else (Ok Inconclusive, mark_writes WInterrupted (ws.*1).*1 c).

(** [tier_after_lbp_refusals]. *)
Definition tier_after_lbp_refusals (refusal_seen : bool) (asked : Tier) : Tier :=
  if bool_decide (asked = Integrity) || negb refusal_seen then asked else Integrity.

Definition with_ending (k : option Z) (p : ConfirmPlan) : ConfirmPlan :=
  mkPlan (tier p) (order p) (resume p) (cached_seal p) k (readback p).
Definition reading_back (r : option Z) (p : ConfirmPlan) : ConfirmPlan :=
  mkPlan (tier p) (order p) (resume p) (cached_seal p) (plan_ended_after p) r.

Section confirm.
Context `{!Digest, !TomlCrate, !Readable}.

(** A seal on the tape, the confirm to come: [SealedPending]. *)
Record SealedPending : Type := mkPending {
  p_layout : Layout;
  p_volume : Z;
  p_writes : list (Z * Z);
  p_seal_order : ReadOrder;
  p_seal_bytes : option (list Z);
  p_ending : Ending;
  p_warning_in_data : bool;
}.

Definition confirm_plan (p : SealedPending) (t : Tier) (continued : option Checkpoints)
    : result Refused ConfirmPlan :=
  let ended_after := recorded_ended_after (p_ending p) in
  readback ← (if p_warning_in_data p then
                match ended_after with
                | Some k => Ok (Some k)
                | None =>
                    match List.find (λ e, bool_decide (le_kind e = SealMarker)) (entries (p_layout p)) with
                    | Some e => Ok (Some (as_u32 (le_position e) - 1))
                    | None => Err NoPlannedSeal
                    end
                end
              else Ok None);
  Ok (reading_back readback (with_ending ended_after (with_seal (p_seal_bytes p)
        (resuming continued (with_order (p_seal_order p) (plan_new t)))))).

Inductive ConfirmFailed : Type :=
| CatalogRefused (e : Refused)
| WalkFailed (e : WalkError).

(** The confirm of a session; [meanwhile] is what other processes do to the
    catalog while the tape is read. [continued] is what an interrupted full
    readback read back clean. *)
Definition confirm_session (sink_full : failure) (p : SealedPending) (asked : Tier) (refusal_seen : bool)
    (continued : option Checkpoints) (started now : string) (stops : list bool) (meanwhile : Ledger → Ledger)
    (m : medium) (c : Ledger) : result ConfirmFailed Confirmed * Ledger * medium :=
  let t := tier_after_lbp_refusals refusal_seen asked in
  let '(vs, c) := log_verification (mkVerification (p_volume p) (tier_verify_type t) "in_progress" started) c in
  match entry_statuses (p_writes p) c with
  | Err e => (Err (CatalogRefused e), c, m)
  | Ok ws =>
      match confirm_plan p t (match t with Integrity => continued | Navigable => None end) with
      | Err e => (Err (CatalogRefused e), c, m)
      | Ok plan =>
          let '(r, w) := confirm_with sink_full (p_layout p) plan stops m in
          let c := meanwhile c in
          match r with
          | Err e => (Err (WalkFailed e), c, on w)
          | Ok ev =>
              let c := record_verification_results (p_volume p) ev
                         (conclude_verification vs started (bool_decide (length (mismatches ev) = 0%nat)) c) in
              let '(r, c) := settle (p_volume p) (p_layout p) (p_ending p) t now ws ev c in
              (map_err CatalogRefused r, c, on w)
          end
      end
  end.
End confirm.

(** ** A verify of a volume: [write::record_verify] *)

Definition clear_condition_on_clean_full_verify {X} (v : Z) (t : Tier) (ev : Evidence X) (c : Ledger) : Ledger :=
  if bool_decide (t = Integrity) && bool_decide (length (mismatches ev) = 0%nat)
  then set_volume v (with_condition CondOk) c else c.
Definition quarantine_on_medium_evidence {X} (v : Z) (ev : Evidence X) (c : Ledger) : Ledger :=
  if bool_decide (length (medium_evidence ev) = 0%nat) then c else set_volume v (with_condition CondQuarantined) c.
Definition mark_verified {X} (v : Z) (t : Tier) (ev : Evidence X) (c : Ledger) : Ledger :=
  if bool_decide (t = Integrity) && bool_decide (length (mismatches ev) = 0%nat)
  then set_writes (fmap (λ r, if is_on v r && bool_decide (write_status r ∈ [WCompleted; WRange])
                              then set_verified true r else r)) c
  else c.
Definition record_verify {X} (v : Z) (t : Tier) (started : string) (ev : Evidence X) (c : Ledger) : Ledger :=
  let '(_, c) := log_verification (mkVerification v (tier_verify_type t)
    (outcome_of (bool_decide (length (mismatches ev) = 0%nat))) started) c in
  mark_verified v t ev (clear_condition_on_clean_full_verify v t ev
    (quarantine_on_medium_evidence v ev (record_verification_results v ev c))).

(** ** Which session a resume picks up *)

(** [MAX(timestamp)]. *)
Definition latest (ts : list string) : option string :=
  match ts with
  | [] => None
  | t :: ts => Some (fold_left (λ a b, if String.leb a b then b else a) ts t)
  end.
Definition recorded_abort_time (v : Z) (c : Ledger) : option string :=
  latest (filter (λ a, a.1 = v) (aborts c)).*2.

Inductive AbortedAdoption : Type :=
| Adoptable
| NotInitialized (s : VolumeStatus)
| NotSealed
| ConditionNotOk (k : Condition)
| NoRecordedAbort
| NoCleanFullVerifyAfterAbort (aborted_at : string).

Definition aborted_adoption (v : Z) (c : Ledger) : result Refused AbortedAdoption :=
  r ← ok_or (volumes c !! v) (NoVolume v);
  Ok (if negb (bool_decide (volume_status r = VInitialized)) then NotInitialized (volume_status r)
      else if negb (bool_decide (is_Some (sealed_at r))) then NotSealed
      else if negb (bool_decide (observed_condition r = CondOk)) then ConditionNotOk (observed_condition r)
      else match recorded_abort_time v c with
           | None => NoRecordedAbort
           | Some aborted_at =>
               if existsb (λ x, bool_decide (verified_volume x = v) && bool_decide (vs_type x = "full"%string)
                                 && bool_decide (vs_outcome x = "passed"%string)
                                 && String.ltb aborted_at (vs_started_at x)) (map_to_list (verifications c)).*2
               then Adoptable else NoCleanFullVerifyAfterAbort aborted_at
           end).

Inductive ResumeAdmission : Type :=
| AdmitInterrupted
| AdmitAborted (a : AbortedAdoption)
| AdmitNothing.

Definition resume_admission (v : Z) (c : Ledger) : result Refused ResumeAdmission :=
  let has s := negb (bool_decide (ids_in v [s] c = [])) in
  if has WInterrupted then Ok AdmitInterrupted
  else if has WPlanned || has WInProgress || negb (has WAborted) then Ok AdmitNothing
  else a ← aborted_adoption v c; Ok (AdmitAborted a).

Definition resume_would_reconfirm (v : Z) (c : Ledger) : result Refused bool :=
  r ← ok_or (volumes c !! v) (NoVolume v);
  if negb (is_write_target (volume_status r) (observed_condition r)) || has_completed_write v c then Ok false
  else
    a ← resume_admission v c;
    match a with
    | AdmitAborted Adoptable => Ok true
    | AdmitInterrupted => seal_recorded v c
    | _ => Ok false
    end.

Definition aborted_session_reconfirmable_after_verify (v : Z) (c : Ledger) : result Refused bool :=
  r ← ok_or (volumes c !! v) (NoVolume v);
  if negb (bool_decide (volume_status r = VInitialized)) || has_completed_write v c then Ok false
  else
    a ← resume_admission v c;
    Ok (match a with
        | AdmitAborted (Adoptable | ConditionNotOk _ | NoCleanFullVerifyAfterAbort _) => true
        | _ => false
        end).

(** The rows a resume takes up, and whether it adopts an aborted session:
    [volume_resume], [InterruptedSession::load]. *)
Definition load (v : Z) (s : WriteStatus) (c : Ledger) : list (Z * Z) :=
  omap (λ w, (λ r, (w, snapshot_id r)) <$> (writes c !! w)) (ids_in v [s] c).
Definition resume_session (v : Z) (c : Ledger) : result Refused (option (bool * list (Z * Z))) :=
  r ← ok_or (volumes c !! v) (NoVolume v);
  if negb (is_write_target (volume_status r) (observed_condition r)) then
    (if negb (bool_decide (volume_status r = VInitialized)) then Err (NotWriteTarget (volume_status r))
     else Err VolumeQuarantined)
  else if has_completed_write v c then Err HasRecordedWrite
  else
    a ← resume_admission v c;
    Ok (match a with
        | AdmitInterrupted => Some (false, load v WInterrupted c)
        | AdmitAborted Adoptable => Some (true, load v WAborted c)
        | _ => None
        end).
