(* ===== verification/LedgerSound.v ===== *)
(** * What the catalog claims of a sealed tape

    The three-way split of a write against its reference; the seal's
    transaction, exactly when it passes and what it changes; and the promotion
    of a version only once every slice of it is on a sealed volume. *)

From S2P Require Import Prelude LayoutModel Format Session Confirm Ledger.
Local Open Scope Z_scope.
Local Open Scope rust_scope.

(** ** Extremes of a list *)

Lemma maxZ_elem l x : maxZ l = Some x ↔ x ∈ l ∧ ∀ y, y ∈ l → y ≤ x.
Proof.
  assert (∀ l a, (fold_right Z.max a l ∈ a :: l) ∧ ∀ y, y ∈ a :: l → y ≤ fold_right Z.max a l) as Hfold.
  { clear. induction l as [|b l IH]; intros a; cbn [fold_right].
    { split; [apply list_elem_of_here|]. intros y Hy. apply list_elem_of_singleton in Hy. lia. }
    destruct (IH a) as [Hin Hmax]. split.
    - destruct (Z.max_spec b (fold_right Z.max a l)) as [[_ ->]|[_ ->]]; [|set_solver]. set_solver.
    - intros y Hy. assert (y = b ∨ y ∈ a :: l) as [->|Hy'] by set_solver; [lia|]. specialize (Hmax _ Hy'). lia. }
  destruct l as [|a l]; cbn [maxZ].
  { split; [done|]. intros [Hx _]. by apply not_elem_of_nil in Hx. }
  destruct (Hfold l a) as [Hin Hmax]. split.
  - intros [= <-]. done.
  - intros [Hx Hy]. f_equal. specialize (Hmax _ Hx). specialize (Hy _ Hin). lia.
Qed.

Lemma minZ_elem l x : minZ l = Some x ↔ x ∈ l ∧ ∀ y, y ∈ l → x ≤ y.
Proof.
  assert (∀ l a, (fold_right Z.min a l ∈ a :: l) ∧ ∀ y, y ∈ a :: l → fold_right Z.min a l ≤ y) as Hfold.
  { clear. induction l as [|b l IH]; intros a; cbn [fold_right].
    { split; [apply list_elem_of_here|]. intros y Hy. apply list_elem_of_singleton in Hy. lia. }
    destruct (IH a) as [Hin Hmin]. split.
    - destruct (Z.min_spec b (fold_right Z.min a l)) as [[_ ->]|[_ ->]]; set_solver.
    - intros y Hy. assert (y = b ∨ y ∈ a :: l) as [->|Hy'] by set_solver; [lia|]. specialize (Hmin _ Hy'). lia. }
  destruct l as [|a l]; cbn [minZ].
  { split; [done|]. intros [Hx _]. by apply not_elem_of_nil in Hx. }
  destruct (Hfold l a) as [Hin Hmin]. split.
  - intros [= <-]. done.
  - intros [Hx Hy]. f_equal. specialize (Hmin _ Hx). specialize (Hy _ Hin). lia.
Qed.

Lemma maxZ_same l k : (∀ x, x ∈ l ↔ x ∈ k) → maxZ l = maxZ k.
Proof.
  intros Hlk. destruct (maxZ l) as [x|] eqn:Hl.
  - symmetry. apply maxZ_elem. apply maxZ_elem in Hl as [? Hm]. split; [by apply Hlk|]. intros y Hy. by apply Hm, Hlk.
  - destruct l as [|a l]; [|done]. destruct k as [|b k]; [done|]. exfalso.
    apply (not_elem_of_nil b), Hlk. set_solver.
Qed.

(** ** The split *)

(** A slice of a set, held on a tape up to a position. *)
Definition holds (w K slice : Z) (c : Ledger) : Prop :=
  ∃ r, write_positions c !! (w, slice) = Some r ∧ row_status r = PWritten ∧ row_position r ≤ K.

Lemma slot_written_holds w K slice c :
  slot_written (λ p, bool_decide (p ≤ K)) w slice c = true ↔ holds w K slice c.
Proof.
  unfold slot_written, holds. destruct (write_positions c !! (w, slice)) as [r|]; [|naive_solver].
  rewrite andb_true_iff, !bool_decide_eq_true. naive_solver.
Qed.

Lemma elem_of_slices set c s n :
  (s, n) ∈ slices_of set c ↔ stage_slices c !! s = Some (mkStageSlice set n).
Proof.
  unfold slices_of. rewrite list_elem_of_fmap. split.
  - intros ([s' [set' n']] & [= -> ->] & Hin). apply list_elem_of_filter in Hin as [Hs Hin]. cbn in Hs. subst.
    by apply elem_of_map_to_list in Hin.
  - intros Hs. exists (s, mkStageSlice set n). split; [done|]. apply list_elem_of_filter. split; [done|].
    by apply elem_of_map_to_list.
Qed.

Lemma filter_all_length {A} (P : A → Prop) `{∀ x, Decision (P x)} (l : list A) :
  length (filter P l) = length l ↔ ∀ x, x ∈ l → P x.
Proof.
  induction l as [|a l IH]; [split; [intros _ x Hx; by apply not_elem_of_nil in Hx|done]|].
  pose proof (length_filter P l) as Hle. rewrite filter_cons. destruct (decide (P a)) as [Ha|Ha]; cbn [length].
  - rewrite Nat.succ_inj_wd, IH. set_solver.
  - split; [lia|]. intros Hall. exfalso. apply Ha, Hall. set_solver.
Qed.

Definition set_of (w : Z) (c : Ledger) : Z := default 0 (stage_set_id <$> writes c !! w).

(** The split of a write that may span. It is complete exactly when every
    slice of its set is held here up to the ending, cut exactly when the set
    has slices and none is, and otherwise a range whose first and last are the
    lowest and highest number of the slices held. *)
Theorem span_split_spec w K c r : writes c !! w = Some r →
  match span_split w K c with
  | SplitCompleted => ∀ s n, stage_slices c !! s = Some (mkStageSlice (stage_set_id r) n) → holds w K s c
  | SplitCut => (∃ s n, stage_slices c !! s = Some (mkStageSlice (stage_set_id r) n)) ∧
      ∀ s n, stage_slices c !! s = Some (mkStageSlice (stage_set_id r) n) → ¬ holds w K s c
  | SplitRange first last =>
      (∃ s n, stage_slices c !! s = Some (mkStageSlice (stage_set_id r) n) ∧ ¬ holds w K s c) ∧
      (∃ s, stage_slices c !! s = Some (mkStageSlice (stage_set_id r) first) ∧ holds w K s c) ∧
      (∃ s, stage_slices c !! s = Some (mkStageSlice (stage_set_id r) last) ∧ holds w K s c) ∧
      ∀ s n, stage_slices c !! s = Some (mkStageSlice (stage_set_id r) n) → holds w K s c → first ≤ n ≤ last
  end.
Proof.
  intros Hr. unfold span_split. rewrite Hr. set (slices := slices_of (stage_set_id r) c).
  assert (∀ s n, stage_slices c !! s = Some (mkStageSlice (stage_set_id r) n) ↔ (s, n) ∈ slices) as Hs
    by (intros; symmetry; apply elem_of_slices).
  assert (∀ s n, (s, n) ∈ held_slices w K slices c ↔ (s, n) ∈ slices ∧ holds w K s c) as Hh.
  { intros s n. unfold held_slices. rewrite list_elem_of_filter. cbn. rewrite slot_written_holds. tauto. }
  assert (∀ n, n ∈ (held_slices w K slices c).*2 ↔ ∃ s, (s, n) ∈ slices ∧ holds w K s c) as Hn.
  { intros n. rewrite list_elem_of_fmap. split; [intros ([s m] & -> & Hin)|intros (s & Hin & Hx)].
    - exists s. by apply Hh.
    - exists (s, n). split; [done|]. by apply Hh. }
  case_bool_decide as Hall.
  { intros s n Hin. apply Hs in Hin. unfold held_slices in Hall. rewrite filter_all_length in Hall.
    by apply slot_written_holds, (Hall _ Hin). }
  assert (∃ s n, (s, n) ∈ slices ∧ ¬ holds w K s c) as (s0 & n0 & Hin0 & Hno).
  { destruct (decide (Exists (λ s : Z * Z, slot_written (λ p, bool_decide (p ≤ K)) w s.1 c ≠ true) slices)) as [He|He].
    - apply Exists_exists in He as ([s n] & Hin & Hx). exists s, n. split; [done|]. by rewrite <- slot_written_holds.
    - exfalso. apply Hall. unfold held_slices. apply filter_all_length. intros x Hx. apply dec_stable. intros Hne.
      apply He, Exists_exists. by exists x. }
  destruct (minZ (held_slices w K slices c).*2) as [first|] eqn:Hmin; [destruct (maxZ (held_slices w K slices c).*2) as [last|] eqn:Hmax|].
  - apply minZ_elem in Hmin as [Hf Hfirst]. apply maxZ_elem in Hmax as [Hl Hlast]. apply Hn in Hf as (sf & Hsf & Hhf).
    apply Hn in Hl as (sl & Hsl & Hhl). split; [exists s0, n0; by rewrite Hs|]. split; [exists sf; by rewrite Hs|].
    split; [exists sl; by rewrite Hs|]. intros s n Hin Hx. apply Hs in Hin.
    assert (n ∈ (held_slices w K slices c).*2) as Hin' by (apply Hn; eauto). auto.
  - exfalso. destruct (held_slices w K slices c); done.
  - destruct (held_slices w K slices c) as [|x l]; [|done]. split; [exists s0, n0; by rewrite Hs|].
    intros s n Hin Hx. apply Hs in Hin. apply (not_elem_of_nil (s, n)), Hh. done.
Qed.

Lemma span_split_holds w K c r s n : writes c !! w = Some r → span_split w K c = SplitCompleted →
  stage_slices c !! s = Some (mkStageSlice (stage_set_id r) n) → holds w K s c.
Proof.
  intros Hr Hs Hin. unfold span_split in Hs. rewrite Hr in Hs. case_bool_decide as Hall; [|by repeat case_match].
  unfold held_slices in Hall. rewrite filter_all_length in Hall. apply slot_written_holds, (Hall (s, n)), elem_of_slices, Hin.
Qed.

(** ** The seal's transaction *)

Lemma elem_of_positions w c x :
  x ∈ (λ kr : (Z * Z) * PositionRow, row_position kr.2) <$> filter (λ kr, kr.1.1 = w) (map_to_list (write_positions c)) ↔
  ∃ s r, write_positions c !! (w, s) = Some r ∧ x = row_position r.
Proof.
  rewrite list_elem_of_fmap. split.
  - intros ([[w' s] r] & -> & Hin). apply list_elem_of_filter in Hin as [Hw Hin]. cbn in Hw. subst w'.
    apply elem_of_map_to_list in Hin. eauto.
  - intros (s & r & Hl & ->). exists ((w, s), r). split; [done|]. apply list_elem_of_filter. split; [done|].
    by apply elem_of_map_to_list.
Qed.

(** What the rows of a write say, and so its split, no other row changes. *)
Lemma split_of_same ending K w spans c c1 :
  (∀ s, write_positions c1 !! (w, s) = write_positions c !! (w, s)) →
  writes c1 !! w = writes c !! w → stage_slices c1 = stage_slices c →
  split_of ending K w spans c1 = split_of ending K w spans c.
Proof.
  intros Hp Hw Hs. unfold split_of. destruct spans.
  - unfold span_split. rewrite Hw. destruct (writes c !! w) as [r|]; [|done].
    assert (slices_of (stage_set_id r) c1 = slices_of (stage_set_id r) c) as -> by (unfold slices_of; by rewrite Hs).
    assert (∀ l, held_slices w K l c1 = held_slices w K l c) as ->; [|done].
    intros l. unfold held_slices. apply list_filter_iff. intros x. unfold slot_written. by rewrite Hp.
  - assert (last_slice_position w c1 = last_slice_position w c) as ->; [|done].
    unfold last_slice_position. apply maxZ_same. intros x. rewrite !elem_of_positions.
    split; intros (s & r & Hl & ->); exists s, r; (split; [|done]); [by rewrite <- Hp|by rewrite Hp].
Qed.

Lemma slice_on_sealed_intro set also c slice w r row :
  writes c !! w = Some r → stage_set_id r = set → volumes c !! volume_id r = Some row →
  volume_status row = VSealed ∨ also = Some (volume_id r) →
  write_status r = WCompleted ∨ write_status r = WRange ∧ slot_written (λ _, true) w slice c = true →
  slice_on_sealed set also c slice = true.
Proof.
  intros Hw Hset Hrow Hsealed Hst. unfold slice_on_sealed. apply existsb_exists. exists (w, r).
  split; [by apply list_elem_of_In, elem_of_map_to_list|]. cbn. rewrite Hrow, (bool_decide_eq_true_2 _ Hset). cbn.
  apply andb_true_iff. rewrite !orb_true_iff, andb_true_iff, !bool_decide_eq_true. done.
Qed.

Lemma slice_on_sealed_elim set also c slice : slice_on_sealed set also c slice = true →
  ∃ w r row, writes c !! w = Some r ∧ stage_set_id r = set ∧ volumes c !! volume_id r = Some row ∧
    (volume_status row = VSealed ∨ also = Some (volume_id r)) ∧
    (write_status r = WCompleted ∨ write_status r = WRange ∧ slot_written (λ _, true) w slice c = true).
Proof.
  unfold slice_on_sealed. intros ([w r] & Hin & Hx)%existsb_exists. apply list_elem_of_In, elem_of_map_to_list in Hin. cbn in Hx.
  destruct (volumes c !! volume_id r) as [row|] eqn:Hrow; [|by rewrite andb_false_r in Hx].
  rewrite !andb_true_iff, !orb_true_iff, andb_true_iff, !bool_decide_eq_true in Hx. destruct Hx as [[? ?] ?].
  by exists w, r, row.
Qed.

Lemma every_slice_elim set also c : every_slice_on_sealed_volume set also c = true ↔
  (∃ s n, stage_slices c !! s = Some (mkStageSlice set n)) ∧
  ∀ s n, stage_slices c !! s = Some (mkStageSlice set n) → slice_on_sealed set also c s = true.
Proof.
  unfold every_slice_on_sealed_volume. rewrite andb_true_iff, negb_true_iff, bool_decide_eq_false, forallb_forall. split.
  - intros [Hne Hall]. split.
    + destruct (slices_of set c) as [|[s n] l] eqn:Hs; [done|]. exists s, n. apply elem_of_slices. rewrite Hs. apply list_elem_of_here.
    + intros s n Hs. apply (Hall (s, n)), list_elem_of_In, elem_of_slices, Hs.
  - intros [(s & n & Hs) Hall]. split.
    + apply elem_of_slices in Hs. intros Heq. rewrite Heq in Hs. by apply not_elem_of_nil in Hs.
    + intros [s' n'] Hin. apply list_elem_of_In, elem_of_slices in Hin. by eapply Hall.
Qed.

(** With the volume sealed, what counted it as sealed still holds. *)
Lemma every_slice_sealed set v c c' row : volumes c' = <[v := row]> (volumes c) → volume_status row = VSealed →
  writes c = writes c' → write_positions c = write_positions c' → stage_slices c = stage_slices c' →
  every_slice_on_sealed_volume set (Some v) c = true → every_slice_on_sealed_volume set None c' = true.
Proof.
  intros Hv Hrow Hw Hp Hs. rewrite !every_slice_elim, Hs. intros [Hne Hall]. split; [done|]. intros s n Hsn.
  apply Hall in Hsn as (w & r & row' & Hr & Hset & Hvol & Hsealed & Hst)%slice_on_sealed_elim.
  rewrite Hw in Hr. unfold slot_written in Hst. rewrite Hp in Hst.
  destruct (decide (volume_id r = v)) as [Heq|Hne'].
  - eapply slice_on_sealed_intro; [done..| |by left|done]. by rewrite Hv, Heq, lookup_insert_eq.
  - eapply slice_on_sealed_intro; [done..| |left|done]. { rewrite Hv, lookup_insert_ne by done. done. }
    destruct Hsealed as [?|[= ?]]; [done|congruence].
Qed.

Lemma every_slice_also set v c : every_slice_on_sealed_volume set None c = true → every_slice_on_sealed_volume set (Some v) c = true.
Proof.
  rewrite !every_slice_elim. intros [Hne Hall]. split; [done|]. intros s n Hsn.
  apply Hall in Hsn as (w & r & row' & Hr & Hset & Hvol & [?|?] & Hst)%slice_on_sealed_elim; [|done].
  eapply slice_on_sealed_intro; eauto.
Qed.

Lemma everywhere_sealed v c c' w row : volumes c' = <[v := row]> (volumes c) → volume_status row = VSealed →
  writes c = writes c' → write_positions c = write_positions c' → stage_slices c = stage_slices c' →
  everywhere v c w = true →
  ∃ r, writes c' !! w = Some r ∧ every_slice_on_sealed_volume (stage_set_id r) None c' = true ∧ everywhere v c' w = true.
Proof.
  intros Hv Hrow Hw Hp Hs. unfold everywhere. rewrite Hw. destruct (writes c' !! w) as [r|]; [|done]. intros He.
  exists r. split; [done|]. pose proof (every_slice_sealed _ _ _ _ _ Hv Hrow Hw Hp Hs He) as He'.
  split; [done|]. by apply every_slice_also.
Qed.

Section seal.
Variables (v : Z) (ending : Ending) (K : Z) (full : bool).
Abbreviation Entered := (list ((Z * Z) * (WriteStatus * bool))).

Definition split_at (c : Ledger) (x : (Z * Z) * (WriteStatus * bool)) : Split := split_of ending K x.1.1 x.2.2 c.
Definition concluded (s : Split) (r : WriteRow) : WriteRow :=
  match s with SplitCut => with_status WCut r | _ => set_verified full (with_status (status_of s) r) end.
Lemma concluded_set s r : stage_set_id (concluded s r) = stage_set_id r ∧ volume_id (concluded s r) = volume_id r.
Proof. by destruct s. Qed.
Definition is_range (s : Split) : bool := match s with SplitRange _ _ => true | _ => false end.
Definition demoted (r : PositionRow) : PositionRow :=
  if bool_decide (row_status r = PWritten) && bool_decide (K < row_position r)
  then mkPosition (row_position r) PPending None else r.

(** A row the transaction can conclude: it reads as it entered the confirm. *)
Definition concludable (c : Ledger) (x : (Z * Z) * (WriteStatus * bool)) : Prop :=
  ∃ r, writes c !! x.1.1 = Some r ∧ write_status r = x.2.1 ∧ (is_range (split_at c x) = true → may_span r = true).

(** The ledger with the writes of a session concluded. *)
Record concludes (ws : Entered) (c c' : Ledger) : Prop := {
  cs_rows x : x ∈ ws → ∃ r, writes c !! x.1.1 = Some r ∧ writes c' !! x.1.1 = Some (concluded (split_at c x) r);
  cs_others w : w ∉ (ws.*1).*1 → writes c' !! w = writes c !! w;
  cs_demoted x s : x ∈ ws → is_range (split_at c x) = true →
    write_positions c' !! (x.1.1, s) = demoted <$> write_positions c !! (x.1.1, s);
  cs_positions x s : x ∈ ws → is_range (split_at c x) = false →
    write_positions c' !! (x.1.1, s) = write_positions c !! (x.1.1, s);
  cs_elsewhere w s : w ∉ (ws.*1).*1 → write_positions c' !! (w, s) = write_positions c !! (w, s);
  cs_slices : stage_slices c' = stage_slices c;
  cs_aborts : aborts c' = aborts c;
  cs_verifications : verifications c' = verifications c;
}.

Lemma demote_past_lookup w c k :
  write_positions (demote_past K w c) !! k = (if bool_decide (k.1 = w) then demoted else id) <$> write_positions c !! k.
Proof.
  unfold demote_past, set_write_positions. cbn. rewrite map_lookup_imap.
  destruct (write_positions c !! k) as [r|]; cbn; [|done]. unfold demoted. by case_bool_decide.
Qed.

Lemma conclude_ok w e s c c' : conclude K full w e s c = Ok c' →
  ∃ r, writes c !! w = Some r ∧ write_status r = e ∧ (is_range s = true → may_span r = true) ∧
    writes c' = <[w := concluded s r]> (writes c) ∧
    write_positions c' = write_positions (if is_range s then demote_past K w c else c) ∧
    stage_slices c' = stage_slices c ∧ snapshots c' = snapshots c ∧ volumes c' = volumes c ∧
    aborts c' = aborts c ∧ verifications c' = verifications c.
Proof.
  unfold conclude. set (c0 := match s with SplitRange _ _ => _ | _ => c end).
  assert (writes c0 = writes c ∧ stage_slices c0 = stage_slices c ∧ snapshots c0 = snapshots c ∧ volumes c0 = volumes c ∧
    aborts c0 = aborts c ∧ verifications c0 = verifications c ∧ c0 = (if is_range s then demote_past K w c else c))
    as (Hw & H1 & H2 & H3 & H4 & H5 & H6) by (by destruct s).
  rewrite Hw. destruct (writes c !! w) as [r|]; [|done]. case_bool_decide as He; [|done]. cbn [negb].
  destruct (negb (may_span r) && _) eqn:Hc; [done|]. intros [= <-]. exists r. rewrite <- H6.
  split; [done|]. split; [done|]. split; [|split; [|done]].
  - intros Hr. destruct s; try done. destruct (may_span r); [done|]. by vm_compute in Hc.
  - cbn. rewrite Hw. by destruct s.
Qed.

Lemma conclude_ok_iff w e s c :
  (∃ r, writes c !! w = Some r ∧ write_status r = e ∧ (is_range s = true → may_span r = true)) ↔
  ∃ c', conclude K full w e s c = Ok c'.
Proof.
  split.
  - intros (r & Hr & He & Hm). unfold conclude. set (c0 := match s with SplitRange _ _ => _ | _ => c end).
    assert (writes c0 = writes c) as -> by (by destruct s). rewrite Hr. rewrite (bool_decide_eq_true_2 _ He). cbn [negb].
    destruct s; cbn [status_of]; try (rewrite Hm by done); cbn; rewrite ?andb_false_r; eauto.
  - intros [c' Hc]. apply conclude_ok in Hc as (r & ? & ? & ? & _). eauto.
Qed.

Definition gathered (ws : Entered) (c : Ledger) (g : Gathered) : Gathered :=
  fold_left (λ g x, gather x.1.1 x.1.2 (split_at c x) g) ws g.

Lemma gathered_same ws c c1 g : (∀ x, x ∈ ws → split_at c x = split_at c1 x) → gathered ws c g = gathered ws c1 g.
Proof.
  unfold gathered. revert g. induction ws as [|x ws IH]; intros g Hs; cbn; [done|]. rewrite Hs by apply list_elem_of_here.
  apply IH. intros y Hy. by apply Hs, list_elem_of_further.
Qed.

Lemma conclude_all_ok ws g c g' c' : NoDup (ws.*1).*1 → conclude_all ending K full ws g c = Ok (g', c') →
  Forall (concludable c) ws ∧ concludes ws c c' ∧ snapshots c' = snapshots c ∧ volumes c' = volumes c ∧ g' = gathered ws c g.
Proof.
  revert g c. induction ws as [|[[w n] [e sp]] ws IH]; intros g c Hnd; cbn [conclude_all].
  { intros [= <- <-]. split; [constructor|]. split; [|done]. by split; try (intros ? ? ?%not_elem_of_nil || intros ? ?%not_elem_of_nil || done). }
  cbn in Hnd. apply NoDup_cons in Hnd as [Hw Hnd].
  destruct (conclude K full w e (split_of ending K w sp c) c) as [c1|] eqn:Hc; cbn; [|done].
  apply conclude_ok in Hc as (r & Hr & He & Hm & Hw1 & Hp1 & Hs1 & Hn1 & Hv1 & Ha1 & Hf1).
  intros Hrec. apply IH in Hrec as (Hall & Hcs & Hn2 & Hv2 & ->); [|done].
  assert (∀ k, k.1 ≠ w → write_positions c1 !! k = write_positions c !! k) as Hpos.
  { intros k Hk. rewrite Hp1. destruct (is_range _); [|done]. rewrite demote_past_lookup, bool_decide_eq_false_2 by done.
    by rewrite option_fmap_id. }
  assert (∀ x, x ∈ ws → x.1.1 ≠ w) as Hne.
  { intros x Hx Hxw. apply Hw. rewrite <- Hxw. apply (list_elem_of_fmap_2 fst), (list_elem_of_fmap_2 fst), Hx. }
  assert (∀ x, x ∈ ws → split_at c1 x = split_at c x) as Hsame.
  { intros x Hx. pose proof (Hne x Hx). apply split_of_same; [|by rewrite Hw1, lookup_insert_ne|done].
    intros s. by apply Hpos. }
  assert (∀ x, x ∈ ws → writes c1 !! x.1.1 = writes c !! x.1.1) as Hrow.
  { intros x Hx. pose proof (Hne x Hx). by rewrite Hw1, lookup_insert_ne. }
  split; [|split].
  - constructor; [exists r; done|]. rewrite Forall_forall in Hall |- *. intros x Hx.
    destruct (Hall x Hx) as (r' & Hr' & ? & ?). exists r'. rewrite <- (Hsame x Hx), <- (Hrow x Hx). done.
  - destruct Hcs. split; cbn.
    + intros x [->|Hx]%elem_of_cons; cbn.
      * exists r. split; [done|]. rewrite cs_others0 by done. by rewrite Hw1, lookup_insert_eq.
      * rewrite <- (Hsame x Hx), <- (Hrow x Hx). auto.
    + intros w' [? ?]%not_elem_of_cons. rewrite cs_others0 by done. by rewrite Hw1, lookup_insert_ne.
    + intros x s [->|Hx]%elem_of_cons Hrg.
      * cbn. rewrite cs_elsewhere0 by done. rewrite Hp1. unfold split_at in Hrg. cbn in Hrg. rewrite Hrg.
        by rewrite demote_past_lookup, bool_decide_eq_true_2.
      * rewrite <- (Hsame x Hx) in Hrg. rewrite (cs_demoted0 _ _ Hx Hrg). by rewrite Hpos by (apply Hne; done).
    + intros x s [->|Hx]%elem_of_cons Hrg.
      * cbn. rewrite cs_elsewhere0 by done. rewrite Hp1. unfold split_at in Hrg. cbn in Hrg. by rewrite Hrg.
      * rewrite <- (Hsame x Hx) in Hrg. rewrite (cs_positions0 _ _ Hx Hrg). by rewrite Hpos by (apply Hne; done).
    + intros w' s [? ?]%not_elem_of_cons. rewrite cs_elsewhere0 by done. by apply Hpos.
    + congruence.
    + congruence.
    + congruence.
  - split; [congruence|]. split; [congruence|]. exact (gathered_same ws c1 c _ Hsame).
Qed.

Lemma concludable_all ws g c : NoDup (ws.*1).*1 → Forall (concludable c) ws →
  ∃ c', conclude_all ending K full ws g c = Ok (gathered ws c g, c').
Proof.
  intros Hnd Hall. assert (∃ g' c', conclude_all ending K full ws g c = Ok (g', c')) as (g' & c' & Hc).
  { revert g c Hall. induction ws as [|[[w n] [e sp]] ws IH]; intros g c Hall; cbn [conclude_all]; [eauto|].
    apply Forall_cons in Hall as [Hx Hall]. cbn in Hnd. apply NoDup_cons in Hnd as [Hw Hnd].
    destruct (proj1 (conclude_ok_iff w e (split_of ending K w sp c) c) Hx) as [c1 Hc]. rewrite Hc. cbn.
    apply IH; [done|]. apply conclude_ok in Hc as (r & Hr & _ & _ & Hw1 & Hp1 & Hs1 & _).
    rewrite Forall_forall in Hall |- *. intros x Hx'. destruct (Hall x Hx') as (r' & Hr' & He' & Hm').
    assert (x.1.1 ≠ w) as Hne.
    { intros Hxw. apply Hw. rewrite <- Hxw. apply (list_elem_of_fmap_2 fst), (list_elem_of_fmap_2 fst), Hx'. }
    exists r'. rewrite Hw1, lookup_insert_ne by done. split; [done|]. split; [done|]. intros Hrg. apply Hm'. rewrite <- Hrg.
    symmetry. f_equal. apply split_of_same; [|by rewrite Hw1, lookup_insert_ne|done].
    intros s. rewrite Hp1. destruct (is_range _); [|done].
    rewrite demote_past_lookup, bool_decide_eq_false_2 by done. by rewrite option_fmap_id. }
  exists c'. rewrite Hc. by apply conclude_all_ok in Hc as (_ & _ & _ & _ & ->).
Qed.

(** A version promoted: its write is complete here, or it is a range and the
    set is whole on sealed volumes, this one counted. *)
Definition promotes (ws : Entered) (c c' : Ledger) (n : Z) : Prop :=
  ∃ x, x ∈ ws ∧ x.1.2 = n ∧
    (split_at c x = SplitCompleted ∨ is_range (split_at c x) = true ∧ everywhere v c' x.1.1 = true).

Lemma gathered_whole ws c g n :
  n ∈ whole (gathered ws c g) ↔ n ∈ whole g ∨ ∃ x, x ∈ ws ∧ x.1.2 = n ∧ split_at c x = SplitCompleted.
Proof.
  unfold gathered. revert g. induction ws as [|x ws IH]; intros g; cbn; [set_solver|]. rewrite IH.
  assert (n ∈ whole (gather x.1.1 x.1.2 (split_at c x) g) ↔ n ∈ whole g ∨ x.1.2 = n ∧ split_at c x = SplitCompleted) as ->.
  { destruct (split_at c x); cbn; [|naive_solver..]. rewrite elem_of_app, list_elem_of_singleton. naive_solver. }
  split.
  - intros [[?|?]|(y & ? & ? & ?)]; [by left|right; exists x; split; [apply list_elem_of_here|done]|].
    right. exists y. split; [by apply list_elem_of_further|done].
  - intros [?|(y & [->|Hy]%elem_of_cons & ? & ?)]; [auto|auto|]. right. eauto.
Qed.

Lemma gathered_ranges ws c g wn :
  wn ∈ range_writes (gathered ws c g) ↔ wn ∈ range_writes g ∨ ∃ x, x ∈ ws ∧ x.1 = wn ∧ is_range (split_at c x) = true.
Proof.
  unfold gathered. revert g. induction ws as [|x ws IH]; intros g; cbn; [set_solver|]. rewrite IH.
  assert (wn ∈ range_writes (gather x.1.1 x.1.2 (split_at c x) g) ↔ wn ∈ range_writes g ∨ x.1 = wn ∧ is_range (split_at c x) = true) as ->.
  { destruct (split_at c x); cbn; [naive_solver| |naive_solver]. rewrite elem_of_app, list_elem_of_singleton.
    destruct x as [[w n'] ?]; cbn. naive_solver. }
  split.
  - intros [[?|?]|(y & ? & ? & ?)]; [by left|right; exists x; split; [apply list_elem_of_here|done]|].
    right. exists y. split; [by apply list_elem_of_further|done].
  - intros [?|(y & [->|Hy]%elem_of_cons & ? & ?)]; [auto|auto|]. right. eauto.
Qed.

Lemma promote_all_lookup ns c n :
  snapshots (fold_left (λ c n, promote n c) ns c) !! n =
    (if bool_decide (n ∈ ns) then λ s, if bool_decide (s ∈ [SnapCreated; SnapStaged]) then SnapCurrent else s else id)
      <$> snapshots c !! n.
Proof.
  revert c. induction ns as [|m ns IH]; intros c; cbn; [by rewrite option_fmap_id|]. rewrite IH. unfold promote, set_snapshots. cbn.
  destruct (decide (m = n)) as [->|Hne].
  - rewrite lookup_alter_eq. rewrite (bool_decide_eq_true_2 (n ∈ n :: ns)) by apply list_elem_of_here.
    destruct (snapshots c !! n) as [s|]; [|by case_bool_decide]. cbn. by case_bool_decide; destruct s.
  - rewrite lookup_alter_ne by done. f_equal. rewrite (bool_decide_ext (n ∈ m :: ns) (n ∈ ns)); [done|]. set_solver.
Qed.

Lemma promote_all_rest ns c :
  let c' := fold_left (λ c n, promote n c) ns c in
  writes c' = writes c ∧ write_positions c' = write_positions c ∧ stage_slices c' = stage_slices c ∧
  volumes c' = volumes c ∧ aborts c' = aborts c ∧ verifications c' = verifications c ∧ results c' = results c.
Proof. revert c. induction ns as [|m ns IH]; intros c; [done|]. cbn. by destruct (IH (promote m c)) as (-> & -> & -> & -> & -> & -> & ->). Qed.

Lemma concludes_same ws c c1 c2 :
  writes c2 = writes c1 → write_positions c2 = write_positions c1 → stage_slices c2 = stage_slices c1 →
  aborts c2 = aborts c1 → verifications c2 = verifications c1 → concludes ws c c1 → concludes ws c c2.
Proof. intros Hw Hp Hs Ha Hv []. split; rewrite ?Hw, ?Hp, ?Hs, ?Ha, ?Hv; auto. Qed.

Lemma seal_transaction_ok ws c g c' : NoDup (ws.*1).*1 → seal_transaction v ending K full ws c = Ok (g, c') →
  Forall (concludable c) ws ∧ concludes ws c c' ∧ g = gathered ws c (mkGathered [] [] [] []) ∧
  (∃ r, volumes c !! v = Some r ∧ volume_status r = VInitialized ∧
     volumes c' = <[v := mkVolumeRow VSealed (observed_condition r) (sealed_at r) (recorded_ended_after ending)]> (volumes c)) ∧
  ∃ c1, concludes ws c c1 ∧ volumes c1 = volumes c ∧ writes c1 = writes c' ∧ write_positions c1 = write_positions c' ∧
    ∀ n, snapshots c' !! n =
      (if bool_decide (n ∈ whole g ++ (filter (λ wn : Z * Z, everywhere v c1 wn.1 = true) (range_writes g)).*2)
       then λ s, if bool_decide (s ∈ [SnapCreated; SnapStaged]) then SnapCurrent else s else id) <$> snapshots c !! n.
Proof.
  intros Hnd. unfold seal_transaction. destruct (conclude_all ending K full ws _ c) as [[g' c1]|] eqn:Hc; cbn; [|done].
  apply conclude_all_ok in Hc as (Hall & Hcs & Hn & Hv & ->); [|done].
  set (g0 := gathered _ _ _). set (ns := whole g0 ++ _). unfold seal_volume.
  destruct (promote_all_rest ns c1) as (Hw2 & Hp2 & Hs2 & Hv2 & Ha2 & Hf2 & _). rewrite Hv2, Hv.
  destruct (volumes c !! v) as [r|] eqn:Hr; [|done]. case_bool_decide as Hinit; [|done]. intros [= <- <-].
  split; [done|]. split; [apply (concludes_same ws c c1); done|]. split; [done|]. split.
  - exists r. split; [done|]. split; [done|]. cbn. rewrite Hv2, Hv. apply map_eq. intros k.
    destruct (decide (k = v)) as [->|Hk]; [rewrite lookup_alter_eq, lookup_insert_eq, Hr; done|].
    by rewrite lookup_alter_ne, lookup_insert_ne.
  - exists c1. split; [done|]. split; [done|]. split; [done|]. split; [done|]. intros n. cbn.
    by rewrite promote_all_lookup, Hn.
Qed.

(** C13: the seal's transaction. It passes exactly when every write of the
    session still reads as it entered the confirm, no range is on a write that
    may not span, and the volume is still [initialized]; then each write is
    concluded by its own split and no other is, a range keeps as [written]
    only what the ending counts, the volume is sealed at the ending, and a
    version becomes current only if one of these writes promotes it. An abort
    or a retirement during the readback is therefore never overwritten. *)
Theorem seal_transaction_spec ws c : NoDup (ws.*1).*1 →
  match seal_transaction v ending K full ws c with
  | Ok (g, c') =>
      Forall (concludable c) ws ∧ concludes ws c c' ∧
      (∃ r, volumes c !! v = Some r ∧ volume_status r = VInitialized ∧
         volumes c' = <[v := mkVolumeRow VSealed (observed_condition r) (sealed_at r) (recorded_ended_after ending)]> (volumes c)) ∧
      ∀ n, snapshots c' !! n = snapshots c !! n ∨
        (∃ s, snapshots c !! n = Some s ∧ s ∈ [SnapCreated; SnapStaged]) ∧ snapshots c' !! n = Some SnapCurrent ∧ promotes ws c c' n
  | Err _ => ¬ (Forall (concludable c) ws ∧ ∃ r, volumes c !! v = Some r ∧ volume_status r = VInitialized)
  end.
Proof.
  intros Hnd. destruct (seal_transaction v ending K full ws c) as [[g c']|e] eqn:Ht.
  - apply seal_transaction_ok in Ht as (Hall & Hcs & -> & Hr & c1 & Hcs1 & Hv1 & Hw1 & Hp1 & Hsnap); [|done].
    split; [done|]. split; [done|]. split; [done|]. intros n. rewrite Hsnap. case_bool_decide as Hin; [|left; by rewrite option_fmap_id].
    destruct (snapshots c !! n) as [s|]; cbn; [|by left]. case_bool_decide as Hs; [|by left]. right.
    split; [by exists s|]. split; [done|]. apply elem_of_app in Hin as [Hin|Hin].
    + apply gathered_whole in Hin as [Hin|(x & ? & ? & ?)]; [by apply not_elem_of_nil in Hin|]. exists x. auto.
    + apply list_elem_of_fmap in Hin as (wn & -> & Hin). apply list_elem_of_filter in Hin as [He Hin].
      apply gathered_ranges in Hin as [Hin|(x & ? & <- & ?)]; [by apply not_elem_of_nil in Hin|]. exists x.
      split; [done|]. split; [done|]. right. split; [done|].
      destruct Hr as (r & _ & _ & Hvol). rewrite <- Hv1 in Hvol.
      destruct (everywhere_sealed _ _ _ _ _ Hvol eq_refl Hw1 Hp1 (eq_trans (cs_slices _ _ _ Hcs1) (eq_sym (cs_slices _ _ _ Hcs))) He)
        as (_ & _ & _ & ?). done.
  - intros [Hall (r & Hr & Hinit)]. destruct (concludable_all ws (mkGathered [] [] [] []) c Hnd Hall) as [c1 Hc].
    unfold seal_transaction in Ht. rewrite Hc in Ht. cbn in Ht. apply conclude_all_ok in Hc as (_ & _ & _ & Hv & _); [|done].
    unfold seal_volume in Ht. destruct (promote_all_rest (whole (gathered ws c (mkGathered [] [] [] [])) ++
      (filter (λ wn : Z * Z, everywhere v c1 wn.1 = true) (range_writes (gathered ws c (mkGathered [] [] [] [])))).*2) c1)
      as (_ & _ & _ & Hv2 & _). rewrite Hv2, Hv, Hr, (bool_decide_eq_true_2 _ Hinit) in Ht. done.
Qed.

(** C25: a version a seal makes current is whole on sealed volumes: it has a
    write of this session, on this volume, and every slice of that write's
    set, when the set has any, is on a volume that is sealed once the
    transaction is committed. *)
Theorem promoted_on_sealed_volumes ws c g c' n : NoDup (ws.*1).*1 →
  (∀ x r, x ∈ ws → writes c !! x.1.1 = Some r → volume_id r = v) →
  seal_transaction v ending K full ws c = Ok (g, c') →
  snapshots c !! n ≠ Some SnapCurrent → snapshots c' !! n = Some SnapCurrent →
  ∃ w r, (w, n) ∈ ws.*1 ∧ writes c' !! w = Some r ∧ volume_id r = v ∧
    ((∀ s k, stage_slices c' !! s ≠ Some (mkStageSlice (stage_set_id r) k)) ∨
     every_slice_on_sealed_volume (stage_set_id r) None c' = true).
Proof.
  intros Hnd Hon Ht Hbefore Hafter.
  apply seal_transaction_ok in Ht as (Hall & Hcs & -> & (row & Hrow & _ & Hvol) & c1 & Hcs1 & Hv1 & Hw1 & Hp1 & Hsnap); [|done].
  rewrite Hsnap in Hafter. case_bool_decide as Hin; [|by rewrite option_fmap_id in Hafter]. clear Hafter Hsnap.
  assert (∀ x r, x ∈ ws → writes c' !! x.1.1 = Some r → volume_id r = v) as Hon'.
  { intros x r' Hx Hr'. destruct (cs_rows _ _ _ Hcs _ Hx) as (r & Hr & Hr2). rewrite Hr2 in Hr'. injection Hr' as <-.
    rewrite <- (Hon _ _ Hx Hr). by destruct (split_at c x). }
  apply elem_of_app in Hin as [Hin|Hin].
  - apply gathered_whole in Hin as [Hin|(x & Hx & <- & Hsplit)]; [by apply not_elem_of_nil in Hin|].
    destruct (cs_rows _ _ _ Hcs _ Hx) as (r & Hr & Hr'). rewrite Hsplit in Hr'.
    exists x.1.1, (concluded SplitCompleted r). rewrite <- surjective_pairing. split; [by apply list_elem_of_fmap_2|].
    split; [done|]. split; [by eapply Hon'|].
    destruct (slices_of (stage_set_id r) c') as [|[s0 n0] l] eqn:Hs.
    { left. intros s k Hsk. apply elem_of_slices in Hsk. cbn in Hsk. rewrite Hs in Hsk. by apply not_elem_of_nil in Hsk. }
    right. apply every_slice_elim. cbn. split.
    { exists s0, n0. apply elem_of_slices. rewrite Hs. apply list_elem_of_here. }
    intros s k _. eapply (slice_on_sealed_intro _ _ _ _ _ _ (mkVolumeRow VSealed _ _ _) Hr'); [done| |by left|by left].
    cbn. rewrite (Hon _ _ Hx Hr), Hvol. apply lookup_insert_eq.
  - apply list_elem_of_fmap in Hin as (wn & -> & Hin). apply list_elem_of_filter in Hin as [He Hin].
    apply gathered_ranges in Hin as [Hin|(x & Hx & <- & _)]; [by apply not_elem_of_nil in Hin|].
    rewrite <- Hv1 in Hvol.
    destruct (everywhere_sealed _ _ _ _ _ Hvol eq_refl Hw1 Hp1 (eq_trans (cs_slices _ _ _ Hcs1) (eq_sym (cs_slices _ _ _ Hcs))) He)
      as (r & Hr & Hev & _).
    exists x.1.1, r. rewrite <- surjective_pairing. split; [by apply list_elem_of_fmap_2|]. split; [done|].
    split; [by eapply Hon'|]. by right.
Qed.
End seal.
