(* ===== verification/LedgerPlan.v ===== *)
(** * The rows of a plan

    What [plan] makes of a session: one write per unit, each with a row for
    every slice of its set at the slice's place in the Layout, in place of
    what an abandoned attempt left; nothing else changes. *)

From S2P Require Import Prelude LayoutModel Format Session Confirm Ledger LedgerSound.
Local Open Scope Z_scope.
Local Open Scope rust_scope.

Lemma next_id_fresh {A} (m : gmap Z A) : m !! next_id m = None.
Proof.
  destruct (m !! next_id m) as [a|] eqn:Hm; [|done]. exfalso. apply elem_of_map_to_list in Hm.
  assert (∀ l k, k ∈ l → k ≤ fold_right Z.max 0 l) as Hmax.
  { induction l as [|x l IH]; intros k; [by intros ?%not_elem_of_nil|]. cbn.
    intros [->|Hk]%elem_of_cons; [lia|]. specialize (IH k Hk). lia. }
  apply (list_elem_of_fmap_2 fst) in Hm. apply Hmax in Hm. unfold next_id in Hm. cbn in Hm. lia.
Qed.

(** ** The writes *)

Definition planned_write (v : Z) (u : BuildUnit) : WriteRow :=
  mkWriteRow (unit_stage_set_id u) (unit_snapshot_id u) v WPlanned false (unit_spans u).

Record inserted (v : Z) (units : list BuildUnit) (ids : list (Z * Z)) (owner : gmap Z Z) (c c' : Ledger) : Prop := {
  in_ids : Forall2 (λ u wn, wn.2 = unit_snapshot_id u ∧ writes c !! wn.1 = None ∧
    writes c' !! wn.1 = Some (planned_write v u) ∧
    ∀ w r, writes c !! w = Some r → ¬ (stage_set_id r = unit_stage_set_id u ∧ volume_id r = v)) units ids;
  in_distinct : NoDup ids.*1;
  in_sets : NoDup (unit_stage_set_id <$> units);
  in_others w : w ∉ ids.*1 → writes c' !! w = writes c !! w;
  in_owner s w : owner !! s = Some w → ∃ i u wn, units !! i = Some u ∧ ids !! i = Some wn ∧ wn.1 = w ∧ s ∈ unit_slices u;
  in_owned u s : u ∈ units → s ∈ unit_slices u → is_Some (owner !! s);
  in_rest : write_positions c' = write_positions c ∧ stage_slices c' = stage_slices c ∧ snapshots c' = snapshots c ∧
    volumes c' = volumes c ∧ aborts c' = aborts c ∧ verifications c' = verifications c ∧ results c' = results c;
}.

Lemma set_taken_false v set c :
  existsb (λ kr : Z * WriteRow, bool_decide (stage_set_id kr.2 = set) && is_on v kr.2) (map_to_list (writes c)) = false →
  ∀ w r, writes c !! w = Some r → ¬ (stage_set_id r = set ∧ volume_id r = v).
Proof.
  intros Hn w r Hr [Hs Hv]. apply not_true_iff_false in Hn. apply Hn, existsb_exists. exists (w, r).
  split; [by apply list_elem_of_In, elem_of_map_to_list|]. cbn. unfold is_on. by rewrite !bool_decide_eq_true_2.
Qed.

Lemma insert_writes_ok v units c ids owner c' :
  insert_writes v units c = Ok (ids, owner, c') → inserted v units ids owner c c'.
Proof.
  revert c ids owner c'. induction units as [|u units IH]; intros c ids owner c'; cbn [insert_writes].
  { intros [= <- <- <-]. split; cbn; try done; try apply NoDup_nil_2; intros ? ?; first [by rewrite lookup_empty|by intros ?%not_elem_of_nil]. }
  destruct (existsb _ _) eqn:Hu; [done|]. pose proof (set_taken_false _ _ _ Hu) as Hfree. clear Hu.
  pose proof (next_id_fresh (writes c)) as Hnew. set (w0 := next_id (writes c)) in *.
  destruct (insert_writes v units _) as [[[ids' owner'] c2]|] eqn:Hi; cbn; [|done]. intros [= <- <- <-].
  apply IH in Hi as [Hids Hd Hsets Hoth Hown Howned Hrest]. cbn in Hoth, Hrest.
  assert (w0 ∉ ids'.*1) as Hw0.
  { intros Hin. apply list_elem_of_fmap in Hin as (wn & Heq & Hin). apply list_elem_of_lookup in Hin as [i Hi'].
    destruct (Forall2_lookup_r _ _ _ _ _ Hids Hi') as (u' & _ & _ & Hnone & _). cbn in Hnone. rewrite <- Heq in Hnone.
    by rewrite lookup_insert_eq in Hnone. }
  assert (writes c2 !! w0 = Some (planned_write v u)) as Hrow0 by (rewrite Hoth by done; cbn; apply lookup_insert_eq).
  split; cbn; try done.
  - constructor.
    + cbn. split; [done|]. split; [done|]. split; [done|]. apply Hfree.
    + eapply Forall2_impl; [exact Hids|]. intros u' wn (Hs & Hnone & Hsome & Hf). split; [done|].
      cbn in Hnone, Hf. apply lookup_insert_None in Hnone as [Hnone Hne]. split; [done|]. split; [done|].
      intros w r Hr. apply (Hf w r). rewrite lookup_insert_ne; [done|]. intros <-. congruence.
  - by constructor.
  - constructor; [|done]. intros Hin. apply list_elem_of_fmap in Hin as (u' & Heq & Hin).
    apply list_elem_of_lookup in Hin as [i Hi']. destruct (Forall2_lookup_l _ _ _ _ _ Hids Hi') as (wn & _ & _ & _ & _ & Hf).
    apply (Hf w0 (planned_write v u)); [apply lookup_insert_eq|]. done.
  - intros w [Hne Hin]%not_elem_of_cons. rewrite Hoth by done. by rewrite lookup_insert_ne.
  - intros s w Hs. apply lookup_union_Some_raw in Hs as [Hs|[_ Hs]].
    + apply Hown in Hs as (i & u' & wn & ? & ? & ? & ?). by exists (S i), u', wn.
    + apply elem_of_list_to_map_2 in Hs. apply list_elem_of_fmap in Hs as (s' & [= -> ->] & Hs').
      by exists 0%nat, u, (w0, unit_snapshot_id u).
  - intros u' s [->|Hin]%elem_of_cons Hs.
    + destruct (owner' !! s) as [w|] eqn:Ho; [by erewrite lookup_union_Some_l|].
      rewrite lookup_union_r by done. destruct (list_to_map ((λ s, (s, w0)) <$> unit_slices u) !! s) eqn:Hl; [done|].
      apply not_elem_of_list_to_map_2 in Hl. destruct Hl. rewrite <- list_fmap_compose. cbn.
      apply list_elem_of_fmap. by exists s.
    + destruct (Howned u' s Hin Hs) as [w Hw]. exists w. by apply lookup_union_Some_l.
Qed.

(** ** The positions *)

Lemma insert_positions_ok owner es c c' : insert_positions owner es c = Ok c' →
  (∀ e s, e ∈ es → le_kind e = LayoutModel.Slice s → ∃ w, owner !! s = Some w ∧
     write_positions c' !! (w, s) = Some (mkPosition (le_position e) PPending None)) ∧
  (∀ k row, write_positions c' !! k = Some row → write_positions c !! k = Some row ∨ owner !! k.2 = Some k.1) ∧
  (∀ k row, write_positions c !! k = Some row → write_positions c' !! k = Some row) ∧
  writes c' = writes c ∧ stage_slices c' = stage_slices c ∧ snapshots c' = snapshots c ∧ volumes c' = volumes c ∧
  aborts c' = aborts c ∧ verifications c' = verifications c ∧ results c' = results c.
Proof.
  revert c. induction es as [|e es IH]; intros c; cbn [insert_positions].
  { intros [= <-]. split; [by intros ? ? ?%not_elem_of_nil|]. by split; [auto|]. }
  destruct (le_kind e) as [| | | |id| | | | |] eqn:Hk.
  5: { destruct (owner !! id) as [w|] eqn:Ho; cbn; [|done]. destruct (write_positions c !! (w, id)) eqn:Hnone; [done|].
    intros Hi. apply IH in Hi as (Hnew & Hsrc & Hkeep & Hrest). split; [|split; [|split; [|done]]].
    - intros e' s [->|He']%elem_of_cons Hk'; [|by apply Hnew]. rewrite Hk in Hk'. injection Hk' as <-. exists w. split; [done|].
      apply Hkeep. cbn. apply lookup_insert_eq.
    - intros k row Hr. apply Hsrc in Hr as [Hr|?]; [|by right]. cbn in Hr.
      apply lookup_insert_Some in Hr as [[<- _]|[_ ?]]; [by right|by left].
    - intros k row Hr. apply Hkeep. cbn. rewrite lookup_insert_ne; [done|]. intros <-. congruence. }
  all: intros Hi; apply IH in Hi as (Hnew & Hrest); split; [|done]; intros e' s [->|He']%elem_of_cons Hk';
    [by rewrite Hk in Hk'|by apply Hnew].
Qed.

Lemma elem_of_ids_in v ss c w :
  w ∈ ids_in v ss c ↔ ∃ r, writes c !! w = Some r ∧ volume_id r = v ∧ write_status r ∈ ss.
Proof.
  unfold ids_in. rewrite merge_sort_Permutation, list_elem_of_fmap. split.
  - intros ([w' r] & -> & Hin). apply list_elem_of_filter in Hin as [[? ?] Hin]. apply elem_of_map_to_list in Hin. eauto.
  - intros (r & Hr & ? & ?). exists (w, r). split; [done|]. apply list_elem_of_filter. split; [done|]. by apply elem_of_map_to_list.
Qed.

Lemma ids_in_nil v ss c : ids_in v ss c = [] ↔ ∀ w r, writes c !! w = Some r → volume_id r = v → write_status r ∉ ss.
Proof.
  split.
  - intros Hn w r Hr Hv Hs. apply (not_elem_of_nil w). rewrite <- Hn. apply elem_of_ids_in. eauto.
  - intros Hall. destruct (ids_in v ss c) as [|w l] eqn:Hl; [done|]. exfalso.
    assert (w ∈ ids_in v ss c) as (r & Hr & Hv & Hs)%elem_of_ids_in by (rewrite Hl; apply list_elem_of_here). by eapply Hall.
Qed.

(** What [supersede_abandoned_attempts] takes away. *)
Definition abandoned (v : Z) (c : Ledger) (w : Z) : Prop :=
  ∃ r, writes c !! w = Some r ∧ volume_id r = v ∧ write_status r ∈ [WAborted; WFailed].

Lemma supersede_ok v c c1 : supersede_abandoned_attempts v c = Ok c1 →
  ∃ vol, volumes c !! v = Some vol ∧ stage_slices c1 = stage_slices c ∧ snapshots c1 = snapshots c ∧ volumes c1 = volumes c ∧
    aborts c1 = aborts c ∧ verifications c1 = verifications c ∧ results c1 = results c ∧
    (is_Some (sealed_at vol) ∧ c1 = c ∨
     sealed_at vol = None ∧
       (∀ w, abandoned v c w → writes c1 !! w = None ∧ ∀ s, write_positions c1 !! (w, s) = None ∧
          ((w, s) ∈ results c → write_positions c !! (w, s) = None)) ∧
       (∀ w, ¬ abandoned v c w → writes c1 !! w = writes c !! w ∧ ∀ s, write_positions c1 !! (w, s) = write_positions c !! (w, s))).
Proof.
  unfold supersede_abandoned_attempts. destruct (volumes c !! v) as [vol|]; cbn; [|done]. case_bool_decide as Hseal.
  { intros [= <-]. exists vol. by split_and!; auto. }
  assert (sealed_at vol = None) as Hnone by (destruct (sealed_at vol); [destruct Hseal; eauto|done]).
  assert (∀ w, w ∈ ids_in v [WAborted; WFailed] c ↔ abandoned v c w) as Hids by apply elem_of_ids_in.
  case_bool_decide as Hn.
  { intros [= <-]. exists vol. do 7 (split; [done|]). right. split; [done|]. split; [|done].
    intros w Hw%Hids. rewrite Hn in Hw. by apply not_elem_of_nil in Hw. }
  destruct (existsb _ _) eqn:He; [done|]. intros [= <-]. exists vol. do 7 (split; [done|]). right. split; [done|]. split.
  - intros w Hw. cbn. split.
    { apply map_lookup_filter_None. right. intros r _ Hnot. by apply Hnot, Hids. }
    intros s. split. { apply map_lookup_filter_None. right. intros r _ Hnot. by apply Hnot, Hids. }
    intros Hres. destruct (write_positions c !! (w, s)) eqn:Hp; [|done]. exfalso.
    apply not_true_iff_false in He. apply He, existsb_exists. exists (w, s). split; [by apply list_elem_of_In, elem_of_elements|].
    cbn. rewrite Hp. rewrite !bool_decide_eq_true_2; [done|done|by apply Hids].
  - intros w Hw. assert (w ∉ ids_in v [WAborted; WFailed] c) as Hw' by (by rewrite Hids). cbn. split.
    + rewrite map_lookup_filter. destruct (writes c !! w); cbn; [|done]. by rewrite option_guard_True.
    + intros s. rewrite map_lookup_filter. destruct (write_positions c !! (w, s)); cbn; [|done]. by rewrite option_guard_True.
Qed.

(** ** The plan *)

(** The rows a session is written by: one for each slice of each write's set,
    at the slice's place in the Layout. *)
Definition planned_rows (es : list LayoutEntry) (ws : list (Z * Z)) (c : Ledger) : Prop :=
  ∀ w r slice k, w ∈ ws.*1 → writes c !! w = Some r →
    stage_slices c !! slice = Some (mkStageSlice (stage_set_id r) k) →
    ∃ row e, write_positions c !! (w, slice) = Some row ∧ e ∈ es ∧
      le_kind e = LayoutModel.Slice slice ∧ le_position e = row_position row.

(** The units of a build: each with the slices of its set, each in the Layout. *)
Definition built_units (units : list BuildUnit) (es : list LayoutEntry) (c : Ledger) : Prop :=
  ∀ u s, u ∈ units → (s ∈ unit_slices u ↔ ∃ k, stage_slices c !! s = Some (mkStageSlice (unit_stage_set_id u) k)) ∧
    (s ∈ unit_slices u → ∃ e, e ∈ es ∧ le_kind e = LayoutModel.Slice s).

Lemma write_admitted_ok v c : write_admitted v c = Ok () →
  ∃ r, volumes c !! v = Some r ∧ volume_status r = VInitialized ∧ observed_condition r = CondOk ∧ sealed_at r = None ∧
    ∀ w x, writes c !! w = Some x → volume_id x = v → write_status x ∈ [WAborted; WFailed].
Proof.
  unfold write_admitted, precontact_refusal, has_completed_write, is_write_target.
  destruct (volumes c !! v) as [r|]; cbn; [|done]. case_bool_decide as Hs; cbn; [|done].
  case_bool_decide as Hc; cbn; [|done]. case_bool_decide as Ht; cbn; [|done]. case_bool_decide as Hu; cbn; [|done].
  case_bool_decide as Hseal; [done|]. intros _. exists r. split; [done|]. split; [done|]. split; [done|]. split.
  { destruct (sealed_at r); [destruct Hseal; eauto|done]. }
  intros w x Hw Hv. rewrite ids_in_nil in Ht, Hu. specialize (Ht w x Hw Hv). specialize (Hu w x Hw Hv).
  destruct (write_status x); set_solver.
Qed.

(** What a plan leaves: the new writes, and every row that is not an
    abandoned one's of the same volume as it was. *)
Record planned (v : Z) (units : list BuildUnit) (es : list LayoutEntry) (ids : list (Z * Z)) (owner : gmap Z Z)
    (c c' : Ledger) : Prop := {
  pn_rows : Forall2 (λ u wn, wn.2 = unit_snapshot_id u ∧ writes c' !! wn.1 = Some (planned_write v u)) units ids;
  pn_distinct : NoDup ids.*1;
  pn_sets : NoDup (unit_stage_set_id <$> units);
  pn_new w : w ∈ ids.*1 → writes c !! w = None ∨ abandoned v c w;
  pn_unique w r u : w ∉ ids.*1 → writes c' !! w = Some r → u ∈ units → ¬ (stage_set_id r = unit_stage_set_id u ∧ volume_id r = v);
  pn_gone w : abandoned v c w → w ∉ ids.*1 → writes c' !! w = writes c !! w ∨ writes c' !! w = None;
  pn_kept w : w ∉ ids.*1 → ¬ abandoned v c w → writes c' !! w = writes c !! w ∧
    ∀ s, write_positions c' !! (w, s) = write_positions c !! (w, s);
  pn_owner s w : owner !! s = Some w → ∃ i u wn, units !! i = Some u ∧ ids !! i = Some wn ∧ wn.1 = w ∧ s ∈ unit_slices u;
  pn_positions e s : e ∈ es → le_kind e = LayoutModel.Slice s → ∃ w, owner !! s = Some w ∧
    write_positions c' !! (w, s) = Some (mkPosition (le_position e) PPending None);
  pn_evidence w s vol : volumes c !! v = Some vol → sealed_at vol = None → abandoned v c w → (w, s) ∈ results c →
    write_positions c !! (w, s) = None;
  pn_gone_unsealed w vol : volumes c !! v = Some vol → sealed_at vol = None → abandoned v c w → w ∉ ids.*1 → writes c' !! w = None;
  pn_rest : stage_slices c' = stage_slices c ∧ snapshots c' = snapshots c ∧ volumes c' = volumes c;
}.

Lemma plan_ok v units es c ids owner c' : plan v units es c = Ok (ids, owner, c') → planned v units es ids owner c c'.
Proof.
  unfold plan. destruct (supersede_abandoned_attempts v c) as [c1|] eqn:Hsup; cbn; [|done].
  apply supersede_ok in Hsup as (vol & Hvol & Hsl & Hsn & Hv1 & _ & _ & _ & Hcases).
  assert (∀ w, writes c1 !! w = writes c !! w ∨ writes c1 !! w = None) as Hsub.
  { intros w. destruct Hcases as [[_ ->]|(_ & Hgone & Hkept)]; [by left|].
    destruct (decide (w ∈ ids_in v [WAborted; WFailed] c)) as [Ha|Ha]; rewrite elem_of_ids_in in Ha;
      [right; apply (Hgone w Ha)|left; apply (Hkept w Ha)]. }
  assert (∀ w, ¬ abandoned v c w → writes c1 !! w = writes c !! w ∧
    ∀ s, write_positions c1 !! (w, s) = write_positions c !! (w, s)) as Hkeep.
  { intros w Hna. destruct Hcases as [[_ ->]|(_ & _ & Hkept)]; [done|by apply Hkept]. }
  assert (∀ w, writes c1 !! w = None → writes c !! w = None ∨ abandoned v c w) as Hnew1.
  { intros w Hw. destruct (decide (w ∈ ids_in v [WAborted; WFailed] c)) as [Ha|Ha]; rewrite elem_of_ids_in in Ha; [by right|left].
    destruct (Hkeep w Ha) as [Heq _]. congruence. }
  unfold insert_plan_rows. destruct (insert_writes v units c1) as [[[ids' owner'] c2]|] eqn:Hw; cbn; [|done].
  destruct (insert_positions owner' es c2) as [c3|] eqn:Hp; cbn; [|done]. intros [= -> -> ->].
  apply insert_writes_ok in Hw as [Hids Hd Hsets Hoth Hown Howned (Hp2 & Hs2 & Hn2 & Hv2 & _)].
  apply insert_positions_ok in Hp as (Hnew & Hsrc & Hold & Hw3 & Hs3 & Hn3 & Hv3 & _).
  assert (∀ w, w ∈ ids.*1 → ∃ u, u ∈ units ∧ writes c1 !! w = None) as Hin.
  { intros w Hw. apply list_elem_of_fmap in Hw as (wn & -> & Hw). apply list_elem_of_lookup in Hw as [i Hi].
    destruct (Forall2_lookup_r _ _ _ _ _ Hids Hi) as (u & Hu & _ & Hc1 & _). exists u. split; [by eapply list_elem_of_lookup_2|done]. }
  split; try done.
  - eapply Forall2_impl; [exact Hids|]. intros u wn (? & _ & ? & _). by rewrite Hw3.
  - intros w Hw. destruct (Hin w Hw) as (_ & _ & Hc1). by apply Hnew1.
  - intros w r u Hni Hr Hu [Hset Hvol']. rewrite Hw3, Hoth in Hr by done. apply list_elem_of_lookup in Hu as [i Hi].
    destruct (Forall2_lookup_l _ _ _ _ _ Hids Hi) as (wn & _ & _ & _ & _ & Hfree). by apply (Hfree w r).
  - intros w _ Hni. rewrite Hw3, Hoth by done. apply Hsub.
  - intros w Hni Hna. destruct (Hkeep w Hna) as [Heq Hpos]. rewrite Hw3, Hoth by done. split; [done|]. intros s.
    rewrite <- Hpos, <- Hp2. destruct (write_positions c2 !! (w, s)) as [row|] eqn:Hrow; [by apply Hold|].
    destruct (write_positions c' !! (w, s)) as [row|] eqn:Hrow'; [|done]. exfalso.
    destruct (Hsrc _ _ Hrow') as [?|Ho]; [congruence|]. cbn in Ho.
    destruct (Hown _ _ Ho) as (i & u & wn & _ & Hi & <- & _). apply Hni, list_elem_of_fmap. exists wn. split; [done|].
    by eapply list_elem_of_lookup_2.
  - intros w s vol' Hvol' Hseal Ha. destruct Hcases as [[[? ?] _]|(_ & Hgone & _)]; [congruence|]. apply (Hgone w Ha).
  - intros w vol' Hvol' Hseal Ha Hni. rewrite Hw3, Hoth by done. destruct Hcases as [[[? ?] _]|(_ & Hgone & _)]; [congruence|].
    apply (Hgone w Ha).
  - split; [congruence|]. split; congruence.
Qed.

(** The plan of an admitted session. Its writes, one per unit and in their
    order, are all the writes of the volume: what an abandoned attempt left
    there is gone with its positions, unless a verification result names one,
    when nothing is changed. Each write has a pending row for every slice of
    its set, at the slice's place in the Layout, and no row of another volume
    moved. *)
Theorem plan_one_session v units es c ids owner c' : write_admitted v c = Ok () → built_units units es c →
  plan v units es c = Ok (ids, owner, c') →
  Forall2 (λ u wn, wn.2 = unit_snapshot_id u ∧ writes c' !! wn.1 = Some (planned_write v u)) units ids ∧
  NoDup ids.*1 ∧
  (∀ w r, writes c' !! w = Some r → volume_id r = v → w ∈ ids.*1) ∧
  planned_rows es ids c' ∧
  (∀ w r, volume_id r ≠ v → writes c' !! w = Some r ↔ writes c !! w = Some r) ∧
  (∀ w s, abandoned v c w → (w, s) ∈ results c → write_positions c !! (w, s) = None) ∧
  volumes c' = volumes c ∧ snapshots c' = snapshots c.
Proof.
  intros Hadm Hbuilt Hplan. apply write_admitted_ok in Hadm as (vol & Hvol & _ & _ & Hseal & Hrows).
  apply plan_ok in Hplan as [Hids Hd Hsets Hnew _ _ Hkept Hown Hpos Hev Hgone (Hs & Hn & Hv)].
  assert (∀ w, ¬ abandoned v c w → w ∈ ids.*1 → writes c !! w = None) as Hfresh
    by (intros w Hna Hin; by destruct (Hnew w Hin)).
  split; [done|]. split; [done|]. split.
  { intros w r Hr Hvr. destruct (decide (w ∈ ids.*1)) as [?|Hni]; [done|]. exfalso.
    destruct (decide (w ∈ ids_in v [WAborted; WFailed] c)) as [Ha|Ha]; rewrite elem_of_ids_in in Ha.
    - rewrite (Hgone w vol Hvol Hseal Ha Hni) in Hr. done.
    - apply Ha. destruct (Hkept w Hni Ha) as [Heq _]. rewrite Heq in Hr. exists r. eauto. }
  split.
  { intros w r slice k Hin Hr Hslice. apply list_elem_of_fmap in Hin as (wn & -> & Hin). apply list_elem_of_lookup in Hin as [i Hi].
    destruct (Forall2_lookup_r _ _ _ _ _ Hids Hi) as (u & Hu & _ & Hrow). rewrite Hrow in Hr. injection Hr as <-.
    rewrite Hs in Hslice. cbn in Hslice. assert (u ∈ units) as Huin by (by eapply list_elem_of_lookup_2).
    destruct (Hbuilt u slice Huin) as [Hiff Hentry]. assert (slice ∈ unit_slices u) as Hsu by (apply Hiff; eauto).
    destruct (Hentry Hsu) as (e & He & Hk). destruct (Hpos e slice He Hk) as (w & Ho & Hrow').
    destruct (Hown _ _ Ho) as (j & u' & wn' & Hj & Hj' & <- & Hs').
    assert (u' ∈ units) as Huin' by (by eapply list_elem_of_lookup_2).
    destruct (proj1 (proj1 (Hbuilt u' slice Huin')) Hs') as [k' Hk'].
    assert (i = j) as <-.
    { eapply (NoDup_lookup (unit_stage_set_id <$> units)); [done|by rewrite list_lookup_fmap, Hu|].
      rewrite list_lookup_fmap, Hj. cbn. f_equal. congruence. }
    assert (wn' = wn) as -> by congruence. eexists _, e. split; [exact Hrow'|]. done. }
  split.
  { intros w r Hne. destruct (decide (w ∈ ids.*1)) as [Hin|Hni].
    - pose proof Hin as Hin'. apply list_elem_of_fmap in Hin as (wn & -> & Hin). apply list_elem_of_lookup in Hin as [i Hi].
      destruct (Forall2_lookup_r _ _ _ _ _ Hids Hi) as (u & _ & _ & Hrow). rewrite Hrow. split; [intros [= <-]; done|].
      intros Hr. rewrite Hfresh in Hr; [done| |done]. intros (r' & Hr' & ? & _). congruence.
    - destruct (decide (w ∈ ids_in v [WAborted; WFailed] c)) as [Ha|Ha]; rewrite elem_of_ids_in in Ha.
      + rewrite (Hgone w vol Hvol Hseal Ha Hni). destruct Ha as (r' & Hr' & ? & _). split; [done|]. congruence.
      + by destruct (Hkept w Hni Ha) as [-> _]. }
  split; [|done]. intros w s Ha Hres. by eapply Hev.
Qed.
