(* ===== verification/CopyClaim.v ===== *)
(** * A copy the catalog claims was read back

    The confirm and the catalog together: every slice the rows of a sealed
    session count on its volume is on the tape as File 3 says, under the seal
    that binds File 3; and a session whose seal is recorded is only read. *)

From S2P Require Import Prelude LayoutModel Format Session Confirm ConfirmSound ConfirmSpec Ledger LedgerSound LedgerPlan.
From S2P Require Import Contact ContactSound.
Local Open Scope Z_scope.
Local Open Scope rust_scope.

Section claim.
Context `{!Digest, !TomlCrate, !Readable}.
Variables (full : failure) (content : Z → result failure (list Z)) (Inv : medium → Prop).

(** A claim of the File 3 a seal on the tape binds. *)
Definition bound_claim (claim : ParsedIndexEntry) : Prop :=
  ∃ seal_pos raw seal fi_pos index len claims,
    content seal_pos = Ok raw ∧ parse_seal_marker (from_utf8_lossy raw) = Ok seal ∧ seal_refusal seal = None ∧
    content fi_pos = Ok index ∧ seal_front_index_sha256 seal = sha256_hex (take (Z.to_nat len) index) ∧
    parse_front_index (from_utf8_lossy (take (Z.to_nat len) index)) = Ok claims ∧ claim ∈ claims.

(** The slice's file is on the tape, at its place in the Layout, with the
    bytes its claim hashes to. *)
Definition slice_on_tape (layout : Layout) (slice : Z) : Prop :=
  ∃ e claim want, e ∈ entries layout ∧ le_kind e = LayoutModel.Slice slice ∧
    bound_claim claim ∧ pe_position claim = le_position e ∧ pe_type_label claim = "data_slice"%string ∧
    (∀ a b, pe_size_bytes claim = Some a → le_size_bytes e = Some b → a = b) ∧ reads_clean content claim want.

(** Positions are [i32]s, and a slice's lies before the seal's. *)
Record placed (layout : Layout) : Prop := {
  pl_i32 e : e ∈ entries layout → - 2 ^ 31 ≤ le_position e ≤ i32_max;
  pl_slice e : e ∈ entries layout → is_slice (le_kind e) = true → 0 ≤ le_position e ∧
    ∀ s, s ∈ entries layout → le_kind s = SealMarker → le_position e < le_position s;
}.

(** What the catalog counts a write to hold: [slice_on_sealed]'s reading. *)
Definition counts_slice (w slice : Z) (c : Ledger) : Prop :=
  ∃ r k, writes c !! w = Some r ∧ stage_slices c !! slice = Some (mkStageSlice (stage_set_id r) k) ∧
    (write_status r = WCompleted ∨ write_status r = WRange ∧ slot_written (λ _, true) w slice c = true).

Lemma find_claim claims p c : List.find (λ c, bool_decide (pe_position c = p)) claims = Some c → c ∈ claims ∧ pe_position c = p.
Proof. intros Hf. apply List.find_some in Hf as [Hin Hp]. apply bool_decide_eq_true in Hp. by rewrite list_elem_of_In. Qed.

Lemma as_u32_same p q : - 2 ^ 31 ≤ q ≤ i32_max → 0 ≤ p ≤ i32_max → as_u32 p = p ∧ (as_u32 q = p → q = p).
Proof.
  unfold as_u32, i32_max. intros Hq Hp. split; [apply Z.mod_small; lia|]. intros Heq.
  destruct (decide (0 ≤ q)); [by rewrite Z.mod_small in Heq by lia|]. exfalso.
  replace q with (q + 2 ^ 32 + (-1) * 2 ^ 32) in Heq by lia. rewrite Z.mod_add, Z.mod_small in Heq by lia. lia.
Qed.

(** A tape as planned has each slice its ending leaves on it. *)
Lemma planned_slice layout fi_pos len ending plan e slice :
  walk_frame layout plan = Ok (fi_pos, len, ending) → as_planned content layout fi_pos len ending →
  (∀ e, e ∈ entries layout → - 2 ^ 31 ≤ le_position e ≤ i32_max) →
  e ∈ entries layout → le_kind e = LayoutModel.Slice slice → 0 ≤ le_position e → le_position e ≤ ended_after ending →
  slice_on_tape layout slice.
Proof.
  intros Hf (raw & sl & index & claims & Hc & _ & Hp & Href & _ & _ & Hi & _ & _ & Hb & Hpi & _ & Hagree & Hclean) Hi32 He Hk Hpos Hle.
  unfold walk_frame in Hf.
  destruct (List.find (λ e, bool_decide (le_kind e = SealMarker)) (entries layout)) as [se|]; cbn in Hf; [|done].
  destruct (List.find (λ e, bool_decide (le_kind e = FrontIndex)) (entries layout)) as [fe|] eqn:Hfe; cbn in Hf; [|done].
  destruct (le_size_bytes fe); cbn in Hf; [|done]. destruct (ending_of _ _ _); cbn in Hf; [|done]. injection Hf as <- -> ->.
  pose proof (List.find_some _ _ Hfe) as [Hin' Hkf]. apply bool_decide_eq_true in Hkf. apply list_elem_of_In in Hin'.
  destruct (as_u32_same (le_position e) (le_position fe)) as [Hid Hfi]; [by apply Hi32|split; [done|by apply Hi32]|].
  destruct (Hagree _ He) as (claim & Hfind & Hlabel & Hsize). pose proof (find_claim _ _ _ Hfind) as [Hin Hcp].
  assert (as_u32 (le_position fe) ≠ le_position e) as Hne.
  { intros Heq. destruct (Hagree _ Hin') as (claim' & Hfind' & Hlabel' & _). rewrite (Hfi Heq), Hfind in Hfind'.
    injection Hfind' as <-. by rewrite Hlabel, Hk, Hkf in Hlabel'. }
  destruct (Hclean claim Hin) as [want Hwant].
  { unfold due. rewrite Hcp, Hid. apply negb_true_iff, bool_decide_eq_false. intros [?|?]; [congruence|lia]. }
  exists e, claim, want. split; [done|]. split; [done|]. split.
  { exists (walk_seal_position ending), raw, sl, (as_u32 (le_position fe)), index, len, claims. done. }
  split; [done|]. split; [by rewrite Hlabel, Hk|]. done.
Qed.

(** ** The confirm of a session *)

Lemma entry_statuses_rows ws c xs : entry_statuses ws c = Ok xs → xs.*1 = ws.
Proof.
  revert xs. induction ws as [|wn ws IH]; intros xs; cbn; [by intros [= <-]|].
  destruct (writes c !! wn.1); cbn; [|done]. destruct (entry_statuses ws c) as [rest|]; cbn; [|done].
  intros [= <-]. cbn. by rewrite (IH rest eq_refl).
Qed.

Lemma last_slice_bound w c last slice row : last_slice_position w c = Some last →
  write_positions c !! (w, slice) = Some row → row_position row ≤ last.
Proof. intros [_ Hm]%maxZ_elem Hr. apply Hm, elem_of_positions. eauto. Qed.

Lemma last_slice_some w c slice row : write_positions c !! (w, slice) = Some row → is_Some (last_slice_position w c).
Proof.
  intros Hr. unfold last_slice_position. set (l := _ <$> _).
  assert (row_position row ∈ l) as Hin by (apply elem_of_positions; eauto).
  destruct l as [|x l]; [by apply not_elem_of_nil in Hin|]. eexists. done.
Qed.

(** A slice a concluded write counts has a row at or before what the ending
    counts. *)
Lemma counted_position ending K full_ ws c c' x slice row :
  concludes ending K full_ ws c c' → x ∈ ws →
  (∀ r k, writes c !! x.1.1 = Some r → stage_slices c !! slice = Some (mkStageSlice (stage_set_id r) k) →
     write_positions c !! (x.1.1, slice) = Some row) →
  (ending = Session.Full → row_position row ≤ K) → (∀ k, ending = Session.Short k → k = K) →
  counts_slice x.1.1 slice c' → row_position row ≤ K.
Proof.
  intros Hcs Hx Hrow HK Hshort (r' & k & Hr' & Hslice & Hst).
  destruct (cs_rows _ _ _ _ _ _ Hcs _ Hx) as (r & Hr & Hr2). rewrite Hr2 in Hr'. injection Hr' as <-.
  rewrite (cs_slices _ _ _ _ _ _ Hcs) in Hslice.
  rewrite (proj1 (concluded_set _ _ _)) in Hslice. specialize (Hrow r k Hr Hslice).
  destruct (split_at ending K c x) as [|first last|] eqn:Hs; [| |by destruct Hst as [?|[? _]]].
  - unfold split_at, split_of in Hs. destruct x.2.2.
    + pose proof (span_split_holds x.1.1 K c r slice k Hr Hs Hslice) as (row' & Hrow' & _ & Hle). congruence.
    + destruct ending as [|k']; [by apply HK|]. rewrite (Hshort k' eq_refl) in Hs.
      destruct (last_slice_some _ _ _ _ Hrow) as [last Hlast]. rewrite Hlast in Hs. case_bool_decide; [|done].
      pose proof (last_slice_bound _ _ _ _ _ Hlast Hrow). lia.
  - destruct Hst as [?|[_ Hw]]; [done|]. unfold slot_written in Hw.
    rewrite (cs_demoted _ _ _ _ _ _ Hcs x slice Hx), Hrow in Hw by by rewrite Hs. cbn in Hw.
    rewrite andb_true_r in Hw. apply bool_decide_eq_true in Hw. unfold demoted in Hw.
    destruct (bool_decide (row_status row = PWritten) && bool_decide (K < row_position row)) eqn:Hd; [done|].
    rewrite (bool_decide_eq_true_2 _ Hw) in Hd. cbn in Hd.
    apply bool_decide_eq_false in Hd. lia.
Qed.

Lemma confirm_plan_frame p t continued plan : confirm_plan p t continued = Ok plan →
  tier plan = t ∧ resume plan = continued ∧ plan_ended_after plan = recorded_ended_after (p_ending p).
Proof. unfold confirm_plan. destruct (if p_warning_in_data p then _ else _); cbn; [|done]. by intros [= <-]. Qed.

Lemma confirm_frame layout plan sig m ev w : confirm_with full layout plan sig m = (Ok ev, w) →
  ∃ fi_pos len ending, walk_frame layout plan = Ok (fi_pos, len, ending).
Proof.
  unfold confirm_with, chain_walk. cbn. destruct (walk_frame layout plan) as [[[fi_pos len] ending]|]; cbn; [eauto|done].
Qed.

(** The ending of the walk is what the split counts. *)
Lemma counted_ending p plan fi_pos len ending K :
  walk_frame (p_layout p) plan = Ok (fi_pos, len, ending) →
  plan_ended_after plan = recorded_ended_after (p_ending p) → counted_through (p_layout p) (p_ending p) = Ok K →
  K = ended_after ending ∧ (∀ k, p_ending p = Session.Short k → k = K) ∧
  (p_ending p = Session.Full → ∃ s, s ∈ entries (p_layout p) ∧ le_kind s = SealMarker ∧ K = as_u32 (le_position s) - 1).
Proof.
  unfold walk_frame, counted_through. intros Hf Hend.
  destruct (List.find (λ e, bool_decide (le_kind e = SealMarker)) (entries (p_layout p))) as [s|] eqn:Hs; cbn in Hf; [|done].
  destruct (List.find (λ e, bool_decide (le_kind e = FrontIndex)) (entries (p_layout p))) as [fe|]; cbn in Hf; [|done].
  destruct (le_size_bytes fe); cbn in Hf; [|done]. destruct (ending_of plan _ _) as [en|] eqn:He; cbn in Hf; [|done].
  injection Hf as _ _ <-. unfold ending_of in He. rewrite Hend in He. apply List.find_some in Hs as [Hin Hk].
  apply bool_decide_eq_true in Hk. apply list_elem_of_In in Hin.
  destruct (p_ending p) as [|k]; cbn in He.
  - case_bool_decide as Hz; cbn in He; [done|]. destruct (readback plan); cbn in He;
      [destruct (guard_err _ _) in He; cbn in He; [|done]|]; injection He as <-; intros [= <-]; cbn;
      pose proof (Z.mod_pos_bound (le_position s) (2 ^ 32)); unfold as_u32 in *; (split; [lia|]); (split; [done|]);
      intros _; exists s; (split; [done|]); (split; [done|lia]).
  - destruct (bool_decide _) in He; cbn in He; [|done]. destruct (readback plan); cbn in He;
      [destruct (guard_err _ _) in He; cbn in He; [|done]|]; injection He as <-; intros [= <-]; cbn;
      (split; [done|]); (split; [by intros ? [=]|done]).
Qed.

Lemma copies_read_back p asked seen continued started now stops meanwhile m c plan g c' m' :
  placed (p_layout p) → NoDup (p_writes p).*1 →
  tier_after_lbp_refusals seen asked = Integrity → confirm_plan p Integrity continued = Ok plan →
  faulty full content Inv (p_layout p) plan → Inv m → seal_in_place content (p_layout p) plan →
  (∀ k, continued = Some k → honest full content (p_layout p) plan k) →
  planned_rows (entries (p_layout p)) (p_writes p) c →
  (∀ c0, planned_rows (entries (p_layout p)) (p_writes p) c0 → planned_rows (entries (p_layout p)) (p_writes p) (meanwhile c0)) →
  confirm_session full p asked seen continued started now stops meanwhile m c = (Ok (Sealed g), c', m') →
  ∀ w slice, w ∈ (p_writes p).*1 → counts_slice w slice c' → slice_on_tape (p_layout p) slice.
Proof.
  intros Hpl Hnd Ht Hplan Hfaulty Hi Hseal Hhon Hrows0 Hrows Hrun w slice Hw Hcount.
  unfold confirm_session in Hrun. rewrite Ht in Hrun. cbn [log_verification] in Hrun.
  destruct (entry_statuses (p_writes p) _) as [ws|] eqn:Hws; [|done]. rewrite Hplan in Hrun.
  destruct (confirm_with full (p_layout p) plan stops m) as [[ev|] wk] eqn:Hconf; [|done].
  set (c1 := record_verification_results _ _ _) in Hrun.
  assert (planned_rows (entries (p_layout p)) (p_writes p) c1) as Hrows1 by exact (Hrows (set_verifications _ c) Hrows0). clearbody c1.
  apply entry_statuses_rows in Hws. unfold settle in Hrun.
  case_bool_decide as Hclean; [|by destruct (proves_medium_bad ev)]. apply nil_length_inv in Hclean.
  destruct (counted_through (p_layout p) (p_ending p)) as [K|] eqn:HK; cbn in Hrun; [|done].
  destruct (seal_transaction _ _ _ _ _ _) as [[g' c2]|] eqn:Hst; [|done]. injection Hrun as -> -> _.
  rewrite <- Hws in Hnd. apply seal_transaction_ok in Hst as (_ & Hcs & _); [|done].
  destruct (confirm_plan_frame p Integrity continued plan Hplan) as (Htier & Hres & Hend).
  destruct (confirm_frame _ _ _ _ _ _ Hconf) as (fi_pos & len & ending & Hf).
  pose proof (clean_as_planned full content Inv (p_layout p) plan stops m ev wk fi_pos len ending
    Hfaulty Hi Hseal (ltac:(intros k Hk; apply Hhon; congruence)) Htier Hf Hconf Hclean) as Has.
  destruct (counted_ending _ _ _ _ _ _ Hf Hend HK) as (-> & Hshort & Hfull).
  rewrite <- Hws in Hw. apply list_elem_of_fmap in Hw as (wn & -> & Hwn). apply list_elem_of_fmap in Hwn as (x & -> & Hx).
  assert (∃ row e, (∀ r k, writes c1 !! x.1.1 = Some r → stage_slices c1 !! slice = Some (mkStageSlice (stage_set_id r) k) →
      write_positions c1 !! (x.1.1, slice) = Some row) ∧
    e ∈ entries (p_layout p) ∧ le_kind e = LayoutModel.Slice slice ∧ le_position e = row_position row) as (row & e & Hrow & He & Hk & Hpos).
  { destruct Hcount as (r' & k & Hr' & Hslice & _). destruct (cs_rows _ _ _ _ _ _ Hcs _ Hx) as (r & Hr & Hr2).
    rewrite Hr2 in Hr'. injection Hr' as <-. rewrite (cs_slices _ _ _ _ _ _ Hcs) in Hslice.
    rewrite (proj1 (concluded_set _ _ _)) in Hslice.
    destruct (Hrows1 x.1.1 r slice k) as (row & e & Hrow & ?); [|done..|].
    { rewrite <- Hws. by apply (list_elem_of_fmap_2 fst), (list_elem_of_fmap_2 fst). }
    exists row, e. done. }
  destruct (pl_slice _ Hpl e He) as [Hnonneg Hbefore]; [by rewrite Hk|].
  eapply planned_slice; [done|done|by apply pl_i32|done|done|done|]. rewrite Hpos.
  eapply (counted_position _ _ _ ws c1 c' x slice row Hcs Hx Hrow); [|done|done].
  intros Hfe. destruct (Hfull Hfe) as (s & Hs & Hks & ->). specialize (Hbefore s Hs Hks). pose proof (pl_i32 _ Hpl s Hs).
  assert (as_u32 (le_position s) = le_position s) as -> by (apply (as_u32_same (le_position s) 0); unfold i32_max in *; lia). lia.
Qed.

(** C2: a copy the catalog claims was read back. When a full confirm seals a
    session, however the drive's reads failed and whatever other processes did
    to the catalog meanwhile, every slice the catalog then counts for one of
    its writes, complete or a range, is on the tape: at its place in the
    Layout, under the seal that binds the tape's File 3, with the length and
    the hash File 3 states. *)
Theorem sealed_copies_read_back p asked seen continued started now stops meanwhile m c plan g c' m' :
  placed (p_layout p) → NoDup (p_writes p).*1 →
  tier_after_lbp_refusals seen asked = Integrity → confirm_plan p Integrity continued = Ok plan →
  faulty full content Inv (p_layout p) plan → Inv m → seal_in_place content (p_layout p) plan →
  (∀ k, continued = Some k → honest full content (p_layout p) plan k) →
  planned_rows (entries (p_layout p)) (p_writes p) c →
  (∀ c0, planned_rows (entries (p_layout p)) (p_writes p) c0 → planned_rows (entries (p_layout p)) (p_writes p) (meanwhile c0)) →
  confirm_session full p asked seen continued started now stops meanwhile m c = (Ok (Sealed g), c', m') →
  ∀ w slice, w ∈ (p_writes p).*1 → counts_slice w slice c' → slice_on_tape (p_layout p) slice.
Proof. exact (copies_read_back p asked seen continued started now stops meanwhile m c plan g c' m'). Qed.
End claim.

(** ** A session whose seal is recorded *)

Section resume.
Context `{!TomlCrate, !Readable, !Blankable}.

(** A resume's step that only reads the tape. *)
Definition reads_only (s : ResumeStep) : Prop :=
  match s with Confirming _ _ _ _ | Quarantined _ => True | _ => False end.

(** The verify that cleared a volume after its session was aborted. *)
Definition cleared_after_abort (v : Z) (c : Ledger) : Prop :=
  ∃ a id x, recorded_abort_time v c = Some a ∧ verifications c !! id = Some x ∧ verified_volume x = v ∧
    vs_type x = "full"%string ∧ vs_outcome x = "passed"%string ∧ String.ltb a (vs_started_at x) = true.

Lemma adoptable_ok v c : aborted_adoption v c = Ok Adoptable → seal_recorded v c = Ok true ∧ cleared_after_abort v c.
Proof.
  unfold aborted_adoption, seal_recorded. destruct (volumes c !! v) as [r|]; cbn; [|done].
  case_bool_decide; cbn; [|done]. case_bool_decide as Hseal; cbn; [|done]. case_bool_decide; cbn; [|done].
  destruct (recorded_abort_time v c) as [a|] eqn:Ha; [|done]. destruct (existsb _ _) eqn:He; [|done]. intros _. split; [done|].
  apply existsb_exists in He as (x & Hin & Hx). apply list_elem_of_In, list_elem_of_fmap in Hin as ([id x'] & -> & Hin).
  apply elem_of_map_to_list in Hin. rewrite !andb_true_iff, !bool_decide_eq_true in Hx. destruct Hx as [[[? ?] ?] ?].
  by exists a, id, x'.
Qed.

(** Where the walk of a plan looks for the seal of an ending. *)
Lemma walk_frame_seal layout plan ending fi_pos len en : plan_ended_after plan = recorded_ended_after ending →
  walk_frame layout plan = Ok (fi_pos, len, en) →
  ∃ s, List.find (λ e, bool_decide (le_kind e = SealMarker)) (entries layout) = Some s ∧
    walk_seal_position en = Session.seal_position ending (as_u32 (le_position s)) ∧ 0 ≤ walk_seal_position en.
Proof.
  unfold walk_frame. intros Hend Hf.
  destruct (List.find (λ e, bool_decide (le_kind e = SealMarker)) (entries layout)) as [s|] eqn:Hs; cbn in Hf; [|done].
  destruct (List.find (λ e, bool_decide (le_kind e = FrontIndex)) (entries layout)) as [fe|]; cbn in Hf; [|done].
  destruct (le_size_bytes fe); cbn in Hf; [|done]. destruct (ending_of plan _ _) as [en'|] eqn:He; cbn in Hf; [|done].
  injection Hf as _ _ <-. exists s. split; [done|]. unfold ending_of in He. rewrite Hend in He. unfold walk_seal_position.
  pose proof (Z.mod_pos_bound (le_position s) (2 ^ 32)). pose proof (Z.mod_pos_bound (le_position fe) (2 ^ 32)).
  unfold as_u32 in *. destruct ending as [|k]; cbn in He.
  - case_bool_decide; cbn in He; [done|]. destruct (readback plan); cbn in He;
      [destruct (guard_err _ _) in He; cbn in He; [|done]|]; injection He as <-; cbn; lia.
  - case_bool_decide; cbn in He; [|done]. destruct (readback plan); cbn in He;
      [destruct (guard_err _ _) in He; cbn in He; [|done]|]; injection He as <-; cbn; lia.
Qed.

(** The bytes a resume hands to its confirm are the seal's, where the walk
    will look for it. *)
Lemma resumed_seal_in_place files Inv content layout sealed adopted recorded warning_at m order bytes ending found m' plan :
  contactable files Inv → Inv m → files ≠ [] →
  (∀ p f, 0 ≤ p → files !! Z.to_nat p = Some f → content p = Ok f) →
  resume_contact layout sealed adopted recorded warning_at m = (Confirming order bytes ending found, m') →
  cached_seal plan = bytes → plan_ended_after plan = recorded_ended_after ending →
  Inv m' ∧ seal_in_place content layout plan.
Proof.
  intros Hm Hi Hne Hcontent Hr Hcache Hend. apply (resume_step_true files Inv Hm) in Hr as [Hi' [Hb _]]; [|done]. split; [done|].
  intros b fi_pos len en Hcb Hf. rewrite Hcache in Hcb. destruct (Hb b Hcb) as [(p & Hp & Hfile)|[? _]]; [|done].
  destruct (walk_frame_seal _ _ _ _ _ _ Hend Hf) as (s & Hs & Hpos & Hnn). rewrite Hs in Hp. cbn in Hp. injection Hp as <-.
  apply Hcontent; [done|]. by rewrite Hpos.
Qed.

(** C24: which session a resume takes up, and what it may do. It takes up no
    session of a volume with a concluded write; it adopts an aborted one only
    if no row of the volume is unresolved, its seal is recorded and a full
    verify begun after the abort passed; and whatever the tape shows, a
    session whose seal is recorded, so every adopted one, is only confirmed or
    quarantined: nothing is written to its tape. *)
Theorem recorded_seal_only_reads v c adopted ws layout recorded warning_at m :
  resume_session v c = Ok (Some (adopted, ws)) →
  (∀ w r, writes c !! w = Some r → volume_id r = v → write_status r ∉ terminal) ∧
  (adopted = true → seal_recorded v c = Ok true ∧ cleared_after_abort v c ∧
     ∀ w r, writes c !! w = Some r → volume_id r = v → write_status r ∈ [WAborted; WFailed]) ∧
  (seal_recorded v c = Ok true → reads_only (resume_contact layout true adopted recorded warning_at m).1).
Proof.
  unfold resume_session. destruct (volumes c !! v) as [row|] eqn:Hv; cbn; [|done].
  destruct (is_write_target _ _); cbn; [|by case_bool_decide]. destruct (has_completed_write v c) eqn:Ht; [done|].
  unfold has_completed_write in Ht. apply negb_false_iff, bool_decide_eq_true in Ht. rewrite ids_in_nil in Ht.
  intros Hadm. split; [done|]. split.
  - unfold resume_admission in Hadm. case_bool_decide as Hi; cbn in Hadm; [|by injection Hadm as <- _].
    case_bool_decide as Hp; cbn in Hadm; [|done]. case_bool_decide as Hr; cbn in Hadm; [|done].
    destruct (negb (negb _)) in Hadm; cbn in Hadm; [done|]. destruct (aborted_adoption v c) as [a|] eqn:Ha; cbn in Hadm; [|done].
    destruct a; try done. apply adoptable_ok in Ha as [Hs Hc]. intros _. split; [done|]. split; [done|].
    intros w r Hw Hvol. rewrite ids_in_nil in Hi, Hp, Hr. specialize (Hi w r Hw Hvol). specialize (Hp w r Hw Hvol).
    specialize (Hr w r Hw Hvol). specialize (Ht w r Hw Hvol). unfold terminal in Ht. destruct (write_status r); set_solver.
  - intros _. unfold resume_contact. destruct (contact_report _ _ _ m) as [[o facts] m1]. cbn. unfold resume_decision.
    destruct o; try done. by destruct (resume_reconfirm_eligible _ _ _ _).
Qed.
End resume.
