(* ===== verification/Lifecycle.v ===== *)
(** * The life of a write session: [src/volume/session.rs], [src/volume/write.rs]

    Every change the commands that write, resume, confirm, abort, sweep, verify
    and retire make to the rows of a catalog, interleaved as their locks allow:
    a session holds its volume's lock from its plan, or its resume, to its end,
    which may come anywhere; a sweep, an abort or a verify takes the lock; an
    operator's retirement takes none. A row whose confirm concluded it is never
    changed again. What rebuilds a catalog from its tapes is another matter,
    and not here. *)

From S2P Require Import Prelude LayoutModel Format Session Confirm Ledger LedgerSound LedgerPlan.
Local Open Scope Z_scope.
Local Open Scope rust_scope.

(** ** The steps *)

(** A session some process holds: its writes, and whether its tape is sealed,
    its confirm to come. *)
Record HeldSession : Type := mkHeld {
  h_writes : list (Z * Z);
  h_pending : bool;
}.

Record World : Type := mkWorld {
  ledger : Ledger;
  held : gmap Z HeldSession;
}.

Section steps.
Context `{!Readable}.

Inductive step : World → World → Prop :=
(* [volume write]: the plan *)
| step_plan c H v units es ids owner c' :
    H !! v = None → write_admitted v c = Ok () → plan v units es c = Ok (ids, owner, c') →
    step (mkWorld c H) (mkWorld c' (<[v := mkHeld ids false]> H))
(* [execute]'s one transaction *)
| step_start c H v h : H !! v = Some h → h_pending h = false →
    step (mkWorld c H) (mkWorld (start_writes (h_writes h).*1 c) H)
(* a resume that writes on starts its rows one by one *)
| step_start_one c H v h w : H !! v = Some h → h_pending h = false → w ∈ (h_writes h).*1 → seal_recorded v c = Ok false →
    step (mkWorld c H) (mkWorld (start_write w c) H)
(* a slice's row, whatever its write came to *)
| step_position c H v h w s f : H !! v = Some h → h_pending h = false → w ∈ (h_writes h).*1 →
    (∀ r, row_position (f r) = row_position r) →
    step (mkWorld c H) (mkWorld (set_write_positions (alter f (w, s)) c) H)
(* [mark_writes], one row at a time *)
| step_mark c H v h w st : H !! v = Some h → w ∈ (h_writes h).*1 → st ∈ [WInterrupted; WAborted] →
    step (mkWorld c H) (mkWorld (mark_write st w c) H)
(* the process ends, or dies *)
| step_release c H v : step (mkWorld c H) (mkWorld c (delete v H))
(* the seal is on the tape, and recorded *)
| step_sealed c H v h at_ ended : H !! v = Some h → is_Some (volumes c !! v) →
    step (mkWorld c H) (mkWorld (record_seal v at_ ended c) (<[v := mkHeld (h_writes h) true]> H))
| step_unsealed c H v h now : H !! v = Some h → h_pending h = false →
    step (mkWorld c H) (mkWorld (abort_unsealed_session v now c) (delete v H))
(* a confirm's three outcomes *)
| step_concluded c H v h ending K full xs g c' : H !! v = Some h → h_pending h = true → xs.*1 = h_writes h →
    seal_transaction v ending K full xs c = Ok (g, c') → step (mkWorld c H) (mkWorld c' (delete v H))
| step_inconclusive c H v h : H !! v = Some h →
    step (mkWorld c H) (mkWorld (mark_writes WInterrupted (h_writes h).*1 c) (delete v H))
| step_quarantined c H v h now : H !! v = Some h →
    step (mkWorld c H) (mkWorld (record_quarantine v (h_writes h).*1 now c) (delete v H))
(* [volume resume], to write on or to confirm *)
| step_resume c H v adopted ws : H !! v = None → resume_session v c = Ok (Some (adopted, ws)) →
    step (mkWorld c H) (mkWorld c (<[v := mkHeld ws false]> H))
| step_confirming c H v h : H !! v = Some h → seal_recorded v c = Ok true →
    step (mkWorld c H) (mkWorld c (<[v := mkHeld (h_writes h) true]> H))
(* what else takes the lock *)
| step_sweep c H v : H !! v = None → step (mkWorld c H) (mkWorld (recover_orphaned_sessions v c) H)
| step_abort c H v now c' : H !! v = None → volume_abort v now c = Ok c' → step (mkWorld c H) (mkWorld c' H)
| step_verify c H v t started (ev : Evidence failure) : H !! v = None →
    step (mkWorld c H) (mkWorld (record_verify v t started ev c) H)
(* an operator: a retirement, an erasure, or a retirement undone *)
| step_operator c H v st : st ∈ [VRetired; VErased] ∨ (∃ r, volumes c !! v = Some r ∧ volume_status r = VRetired) →
    step (mkWorld c H) (mkWorld (set_volume v (with_volume_status st) c) H).

End steps.

(** ** The invariant *)

Definition sealed_volume (v : Z) (c : Ledger) : Prop := ∃ r, volumes c !! v = Some r ∧ is_Some (sealed_at r).

Record world_ok (x : World) : Prop := {
  wo_unique w w' r r' : writes (ledger x) !! w = Some r → writes (ledger x) !! w' = Some r' →
    stage_set_id r = stage_set_id r' → volume_id r = volume_id r' → w = w';
  wo_range w r : writes (ledger x) !! w = Some r → write_status r = WRange → may_span r = true;
  wo_sealed w r : writes (ledger x) !! w = Some r → write_status r ∈ terminal → sealed_volume (volume_id r) (ledger x);
  wo_writes v h w : held x !! v = Some h → w ∈ (h_writes h).*1 →
    ∃ r, writes (ledger x) !! w = Some r ∧ volume_id r = v;
  wo_distinct v h : held x !! v = Some h → NoDup (h_writes h).*1;
  wo_open v h w r : held x !! v = Some h → writes (ledger x) !! w = Some r → volume_id r = v → write_status r ∉ terminal;
  wo_pending v h : held x !! v = Some h → h_pending h = true → sealed_volume v (ledger x);
}.

(** A change that leaves concluded rows, and what a row is of, as they are. *)
Definition same_write (r r' : WriteRow) : Prop :=
  stage_set_id r' = stage_set_id r ∧ snapshot_id r' = snapshot_id r ∧ volume_id r' = volume_id r ∧ may_span r' = may_span r.

Definition keeps_concluded (c c' : Ledger) : Prop :=
  ∀ w r, writes c !! w = Some r → write_status r ∈ terminal →
    (∃ r', writes c' !! w = Some r' ∧ same_write r r' ∧ write_status r' = write_status r) ∧
    ∀ s, write_positions c' !! (w, s) = write_positions c !! (w, s).

(** A change of statuses a confirm did not give to others it does not give,
    and of volumes that keeps a recorded seal. *)
Definition restated (r r' : WriteRow) : Prop :=
  same_write r r' ∧ (write_status r' = write_status r ∨ write_status r ∉ terminal ∧ write_status r' ∉ terminal).

Record restatus (c c' : Ledger) : Prop := {
  rs_none w : writes c !! w = None → writes c' !! w = None;
  rs_row w r : writes c !! w = Some r → ∃ r', writes c' !! w = Some r' ∧ restated r r';
  rs_volumes k r : volumes c !! k = Some r → ∃ r', volumes c' !! k = Some r' ∧ (is_Some (sealed_at r) → is_Some (sealed_at r'));
  rs_positions : write_positions c' = write_positions c;
}.

Lemma same_write_refl r : same_write r r.
Proof. done. Qed.
Lemma restated_refl r : restated r r.
Proof. split; [done|by left]. Qed.
Lemma restated_trans a b c : restated a b → restated b c → restated a c.
Proof. unfold restated, same_write. intros [? [?|[? ?]]] [? [?|[? ?]]]; intuition congruence. Qed.

#[local] Instance restatus_preorder : PreOrder restatus.
Proof.
  split.
  - intros c. split; [done| | |done]; intros k r Hr; exists r; [by split; [|apply restated_refl]|done].
  - intros c c1 c2 [N1 R1 V1 P1] [N2 R2 V2 P2]. split; [auto| | |congruence].
    + intros w r Hr. destruct (R1 w r Hr) as (r1 & Hr1 & ?). destruct (R2 w r1 Hr1) as (r2 & Hr2 & ?). exists r2.
      split; [done|]. by eapply restated_trans.
    + intros k r Hr. destruct (V1 k r Hr) as (r1 & Hr1 & ?). destruct (V2 k r1 Hr1) as (r2 & Hr2 & ?). eauto.
Qed.

Lemma restatus_keeps c c' : restatus c c' → keeps_concluded c c'.
Proof.
  intros [_ R _ P] w r Hr Ht. split; [|by rewrite P]. destruct (R w r Hr) as (r' & Hr' & Hs & [?|[? _]]); [eauto|done].
Qed.

Lemma restatus_sealed c c' k : restatus c c' → sealed_volume k c → sealed_volume k c'.
Proof. intros [_ _ V _] (r & Hr & Hs). destruct (V k r Hr) as (r' & Hr' & ?). exists r'. auto. Qed.

Lemma restatus_row c c' w r' : restatus c c' → writes c' !! w = Some r' → ∃ r, writes c !! w = Some r ∧ restated r r'.
Proof.
  intros [N R _ _] Hr'. destruct (writes c !! w) as [r|] eqn:Hr; [|by rewrite N in Hr'].
  destruct (R w r Hr) as (r1 & Hr1 & ?). exists r. split; [done|]. congruence.
Qed.

(** Rows a session may still change. *)
Definition open_row (w : Z) (c : Ledger) : Prop := ∀ r, writes c !! w = Some r → write_status r ∉ terminal.

Lemma restatus_open c c' w : restatus c c' → open_row w c → open_row w c'.
Proof. intros Hr Ho r' Hr'. destruct (restatus_row _ _ _ _ Hr Hr') as (r & Hw & _ & [->|[_ ?]]); [by eapply Ho|done]. Qed.

Lemma restatus_ok c c' H : restatus c c' → world_ok (mkWorld c H) → world_ok (mkWorld c' H).
Proof.
  intros Hrs [Hu Hrg Hse Hwr Hd Ho Hp]. cbn in *. split; cbn; try done.
  - intros w w' r r' Hr Hr'. apply (restatus_row c) in Hr as (r0 & Hr0 & (-> & _ & -> & _) & _); [|done].
    apply (restatus_row c) in Hr' as (r1 & Hr1 & (-> & _ & -> & _) & _); [|done]. by eapply Hu.
  - intros w r Hr Hst. apply (restatus_row c) in Hr as (r0 & Hr0 & (_ & _ & _ & ->) & [Heq|[_ Hn]]); [|set_solver|done].
    eapply Hrg; [done|congruence].
  - intros w r Hr Ht. apply (restatus_row c) in Hr as (r0 & Hr0 & (_ & _ & -> & _) & [Heq|[_ Hn]]); [|done|done].
    eapply restatus_sealed; [done|]. eapply Hse; [done|by rewrite <- Heq].
  - intros v h w Hh Hw. destruct (Hwr v h w Hh Hw) as (r & Hr & <-). destruct (rs_row _ _ Hrs w r Hr) as (r' & Hr' & (_ & _ & ? & _) & _). eauto.
  - intros v h w r Hh Hr Hv. apply (restatus_row c) in Hr as (r0 & Hr0 & (_ & _ & Hveq & _) & [->|[_ Hn]]); [|done|done].
    eapply Ho; [done..|congruence].
  - intros v h Hh Hpd. eapply restatus_sealed; [done|]. by eapply Hp.
Qed.

(** ** The operations keep it *)

Lemma restatus_status st w c : st ∉ terminal → open_row w c → restatus c (set_writes (alter (with_status st) w) c).
Proof.
  intros Hst Ho. split; cbn; [|intros w' r Hr|eauto|done].
  - intros w' Hw. by apply lookup_alter_None.
  - destruct (decide (w' = w)) as [->|Hne].
    + exists (with_status st r). rewrite lookup_alter_eq, Hr. split; [done|]. split; [done|]. right. split; [by apply Ho|done].
    + exists r. rewrite lookup_alter_ne by done. split; [done|apply restated_refl].
Qed.

Lemma restatus_mark st w c : st ∉ terminal → open_row w c → restatus c (mark_write st w c).
Proof.
  intros Hst Ho. split; cbn; [|intros w' r Hr|eauto|done].
  - intros w' Hw. by apply lookup_alter_None.
  - destruct (decide (w' = w)) as [->|Hne].
    + eexists. rewrite lookup_alter_eq, Hr. split; [done|]. case_bool_decide; [apply restated_refl|].
      split; [done|]. right. split; [by apply Ho|done].
    + exists r. rewrite lookup_alter_ne by done. split; [done|apply restated_refl].
Qed.

Lemma restatus_all (f : Z → Ledger → Ledger) ws c : (∀ w c, open_row w c → restatus c (f w c)) →
  (∀ w, w ∈ ws → open_row w c) → restatus c (fold_left (λ c w, f w c) ws c).
Proof.
  intros Hf. revert c. induction ws as [|w ws IH]; intros c Ho; cbn; [reflexivity|].
  assert (restatus c (f w c)) as Hw by (apply Hf, Ho, list_elem_of_here).
  etrans; [done|]. apply IH. intros w' Hw'. eapply restatus_open; [done|]. by apply Ho, list_elem_of_further.
Qed.

Lemma restatus_volume v f c : (∀ r, is_Some (sealed_at r) → is_Some (sealed_at (f r))) → restatus c (set_volume v f c).
Proof.
  intros Hf. split; cbn; [done|intros w r Hr; exists r; split; [done|apply restated_refl]| |done].
  intros k r Hr. destruct (decide (k = v)) as [->|Hne].
  - exists (f r). rewrite lookup_alter_eq, Hr. auto.
  - exists r. by rewrite lookup_alter_ne.
Qed.

Lemma restatus_same c c' : writes c' = writes c → volumes c' = volumes c → write_positions c' = write_positions c → restatus c c'.
Proof. intros Hw Hv Hp. split; rewrite ?Hw, ?Hv; [done| |eauto|done]. intros w r Hr. exists r. split; [done|apply restated_refl]. Qed.

Lemma restatus_log v now c c' : restatus c c' → restatus c (log_abort v now c').
Proof. intros Hr. etrans; [exact Hr|]. by apply restatus_same. Qed.

Lemma restatus_verified v t X (ev : Evidence X) c : restatus c (mark_verified v t ev c).
Proof.
  unfold mark_verified. destruct (_ && _); [|reflexivity]. split; cbn; [|intros w r Hr|eauto|done].
  - intros w Hw. by rewrite lookup_fmap, Hw.
  - rewrite lookup_fmap, Hr. eexists. split; [done|]. destruct (is_on v r && _); by split; [|left].
Qed.

Lemma restatus_verify v t started X (ev : Evidence X) c : restatus c (record_verify v t started ev c).
Proof.
  unfold record_verify. cbn. etrans; [|apply restatus_verified]. etrans; [apply restatus_same; reflexivity|].
  etrans; [|unfold clear_condition_on_clean_full_verify; destruct (_ && _); [by apply restatus_volume|reflexivity]].
  unfold quarantine_on_medium_evidence. destruct (bool_decide _); [apply restatus_same; reflexivity|].
  etrans; [by apply (restatus_volume v (with_condition CondQuarantined))|]. apply restatus_same; reflexivity.
Qed.

Lemma open_ids v ss c w : (∀ s, s ∈ ss → s ∉ terminal) → w ∈ ids_in v ss c → open_row w c.
Proof. intros Hss (r & Hr & _ & Hs)%elem_of_ids_in r' Hr'. apply Hss. congruence. Qed.

Lemma keeps_trans c c1 c2 : keeps_concluded c c1 → keeps_concluded c1 c2 → keeps_concluded c c2.
Proof.
  intros K1 K2 w r Hr Ht. destruct (K1 w r Hr Ht) as [(r1 & Hr1 & Hs1 & He1) P1].
  destruct (K2 w r1 Hr1) as [(r2 & Hr2 & Hs2 & He2) P2]; [by rewrite He1|]. split.
  - exists r2. split; [done|]. unfold same_write in *. intuition congruence.
  - intros s. by rewrite P2.
Qed.

(** A session given up, or taken up. *)
Lemma release_ok c hs v : world_ok (mkWorld c hs) → world_ok (mkWorld c (delete v hs)).
Proof.
  intros [Hu Hrg Hse Hwr Hd Ho Hp]. cbn in *. split; cbn; try done.
  - intros v' h w [_ Hh]%lookup_delete_Some. by apply Hwr.
  - intros v' h [_ Hh]%lookup_delete_Some. by eapply Hd.
  - intros v' h w r [_ Hh]%lookup_delete_Some. by eapply Ho.
  - intros v' h [_ Hh]%lookup_delete_Some. by eapply Hp.
Qed.

Lemma take_ok c hs v h : world_ok (mkWorld c hs) → (∀ w, w ∈ (h_writes h).*1 → ∃ r, writes c !! w = Some r ∧ volume_id r = v) →
  NoDup (h_writes h).*1 → (∀ w r, writes c !! w = Some r → volume_id r = v → write_status r ∉ terminal) →
  (h_pending h = true → sealed_volume v c) → world_ok (mkWorld c (<[v := h]> hs)).
Proof.
  intros [Hu Hrg Hse Hwr Hd Ho Hp] Hw1 Hd1 Ho1 Hp1. cbn in *. split; cbn; try done.
  - intros v' h' w [[<- <-]|[_ Hh]]%lookup_insert_Some; [by apply Hw1|by apply Hwr].
  - intros v' h' [[<- <-]|[_ Hh]]%lookup_insert_Some; [done|by eapply Hd].
  - intros v' h' w r [[<- <-]|[_ Hh]]%lookup_insert_Some; [by apply Ho1|by eapply Ho].
  - intros v' h' [[<- <-]|[_ Hh]]%lookup_insert_Some; [done|by eapply Hp].
Qed.

(** ** The plan, the seal's transaction, the resume *)

Lemma planned_back v units es ids owner c c' w r : planned v units es ids owner c c' → w ∉ ids.*1 →
  writes c' !! w = Some r → writes c !! w = Some r.
Proof.
  intros Hpn Hni Hr. destruct (decide (w ∈ ids_in v [WAborted; WFailed] c)) as [Ha|Ha]; rewrite elem_of_ids_in in Ha.
  - destruct (pn_gone _ _ _ _ _ _ _ Hpn w Ha Hni); congruence.
  - destruct (pn_kept _ _ _ _ _ _ _ Hpn w Hni Ha). congruence.
Qed.

Lemma planned_row v units es ids owner c c' w : planned v units es ids owner c c' → w ∈ ids.*1 →
  ∃ i u wn, units !! i = Some u ∧ ids !! i = Some wn ∧ wn.1 = w ∧ writes c' !! w = Some (planned_write v u).
Proof.
  intros Hpn Hin. apply list_elem_of_fmap in Hin as (wn & -> & Hin). apply list_elem_of_lookup in Hin as [i Hi].
  destruct (Forall2_lookup_r _ _ _ _ _ (pn_rows _ _ _ _ _ _ _ Hpn) Hi) as (u & Hu & _ & Hrow). by exists i, u, wn.
Qed.

Lemma planned_kept v units es ids owner c c' w r : planned v units es ids owner c c' → writes c !! w = Some r →
  (volume_id r ≠ v ∨ write_status r ∉ [WAborted; WFailed]) → w ∉ ids.*1 ∧ writes c' !! w = Some r ∧
  ∀ s, write_positions c' !! (w, s) = write_positions c !! (w, s).
Proof.
  intros Hpn Hr Hne. assert (¬ abandoned v c w) as Hna.
  { intros (r' & Hr' & Hv & Hs). assert (r' = r) as -> by congruence. by destruct Hne. }
  assert (w ∉ ids.*1) as Hni by (intros Hin; destruct (pn_new _ _ _ _ _ _ _ Hpn w Hin); congruence).
  destruct (pn_kept _ _ _ _ _ _ _ Hpn w Hni Hna) as [Heq Hp]. split; [done|]. split; [congruence|done].
Qed.

Lemma plan_keeps v units es ids owner c c' : planned v units es ids owner c c' → keeps_concluded c c'.
Proof.
  intros Hpn w r Hr Ht. destruct (planned_kept _ _ _ _ _ _ _ _ _ Hpn Hr) as (_ & Hr' & Hp); [|eauto using same_write_refl].
  right. unfold terminal in Ht. destruct (write_status r); set_solver.
Qed.

Lemma plan_world v units es ids owner c c' hs : planned v units es ids owner c c' → write_admitted v c = Ok () → hs !! v = None →
  world_ok (mkWorld c hs) → world_ok (mkWorld c' (<[v := mkHeld ids false]> hs)).
Proof.
  intros Hpn Hadm Hfree [Hu Hrg Hse Hwr Hd Ho Hp]. cbn in *.
  destruct (write_admitted_ok _ _ Hadm) as (vol & _ & _ & _ & _ & Hrows).
  destruct (pn_rest _ _ _ _ _ _ _ Hpn) as (_ & _ & Hvols).
  apply take_ok; [split; cbn| | | |]; cbn; try done.
  - intros w w' r r' Hr Hr' Hset Hvol. destruct (decide (w ∈ ids.*1)) as [Hin|Hni], (decide (w' ∈ ids.*1)) as [Hin'|Hni'].
    + destruct (planned_row _ _ _ _ _ _ _ _ Hpn Hin) as (i & u & wn & Hi & Hi' & <- & Hrow).
      destruct (planned_row _ _ _ _ _ _ _ _ Hpn Hin') as (j & u' & wn' & Hj & Hj' & <- & Hrow').
      rewrite Hrow in Hr. rewrite Hrow' in Hr'. injection Hr as <-. injection Hr' as <-. cbn in Hset.
      assert (i = j) as <-.
      { eapply (NoDup_lookup (unit_stage_set_id <$> units)); [by eapply pn_sets|by rewrite list_lookup_fmap, Hi|].
        rewrite list_lookup_fmap, Hj. cbn. by rewrite Hset. }
      congruence.
    + exfalso. destruct (planned_row _ _ _ _ _ _ _ _ Hpn Hin) as (i & u & wn & Hi & _ & <- & Hrow). rewrite Hrow in Hr. injection Hr as <-.
      apply (pn_unique _ _ _ _ _ _ _ Hpn w' r' u Hni' Hr'); [by eapply list_elem_of_lookup_2|done].
    + exfalso. destruct (planned_row _ _ _ _ _ _ _ _ Hpn Hin') as (i & u & wn & Hi & _ & <- & Hrow). rewrite Hrow in Hr'. injection Hr' as <-.
      apply (pn_unique _ _ _ _ _ _ _ Hpn w r u Hni Hr); [by eapply list_elem_of_lookup_2|done].
    + eapply Hu; [by eapply planned_back|by eapply planned_back|done|done].
  - intros w r Hr Hst. destruct (decide (w ∈ ids.*1)) as [Hin|Hni]; [|eapply Hrg; [by eapply planned_back|done]].
    destruct (planned_row _ _ _ _ _ _ _ _ Hpn Hin) as (i & u & wn & _ & _ & _ & Hrow). rewrite Hrow in Hr. by injection Hr as <-.
  - intros w r Hr Ht. destruct (decide (w ∈ ids.*1)) as [Hin|Hni].
    + destruct (planned_row _ _ _ _ _ _ _ _ Hpn Hin) as (i & u & wn & _ & _ & _ & Hrow). rewrite Hrow in Hr. injection Hr as <-.
      exfalso. revert Ht. cbn. set_solver.
    + unfold sealed_volume. rewrite Hvols. eapply Hse; [by eapply planned_back|done].
  - intros v' h w Hh Hw. destruct (Hwr v' h w Hh Hw) as (r & Hr & Hv'). exists r.
    destruct (planned_kept _ _ _ _ _ _ _ w r Hpn Hr) as (_ & Hr' & _); [|done]. left. intros <-. congruence.
  - intros v' h w r Hh Hr Hv'. destruct (decide (w ∈ ids.*1)) as [Hin|Hni]; [|eapply Ho; [done|by eapply planned_back|done]].
    destruct (planned_row _ _ _ _ _ _ _ _ Hpn Hin) as (i & u & wn & _ & _ & _ & Hrow). rewrite Hrow in Hr. injection Hr as <-. cbn. set_solver.
  - intros v' h Hh Hpd. unfold sealed_volume. rewrite Hvols. by eapply Hp.
  - intros w Hin. destruct (planned_row _ _ _ _ _ _ _ _ Hpn Hin) as (i & u & wn & _ & _ & _ & Hrow). by eexists.
  - by eapply pn_distinct.
  - intros w r Hr Hvr. destruct (decide (w ∈ ids.*1)) as [Hin|Hni].
    + destruct (planned_row _ _ _ _ _ _ _ _ Hpn Hin) as (i & u & wn & _ & _ & _ & Hrow). rewrite Hrow in Hr. injection Hr as <-. cbn. set_solver.
    + apply (planned_back _ _ _ _ _ _ _ _ _ Hpn Hni) in Hr. specialize (Hrows _ _ Hr Hvr). destruct (write_status r); set_solver.
Qed.

Lemma seal_keeps v ending K full xs g c c' hs h : world_ok (mkWorld c hs) → hs !! v = Some h → xs.*1 = h_writes h →
  seal_transaction v ending K full xs c = Ok (g, c') → keeps_concluded c c'.
Proof.
  intros Hok Hh Hxs Hst. apply seal_transaction_ok in Hst as (_ & Hcs & _); [|rewrite Hxs; by eapply (wo_distinct _ Hok)].
  intros w r Hr Ht. assert (w ∉ (xs.*1).*1) as Hni.
  { rewrite Hxs. intros Hin. destruct (wo_writes _ Hok v h w Hh Hin) as (r' & Hr' & Hv). cbn in Hr'.
    apply (wo_open _ Hok v h w r Hh Hr); [congruence|done]. }
  split; [exists r; rewrite (cs_others _ _ _ _ _ _ Hcs w Hni); by split; [|split]|].
  intros s. by apply (cs_elsewhere _ _ _ _ _ _ Hcs).
Qed.

Lemma seal_world v ending K full xs g c c' hs h : world_ok (mkWorld c hs) → hs !! v = Some h → h_pending h = true →
  xs.*1 = h_writes h → seal_transaction v ending K full xs c = Ok (g, c') → world_ok (mkWorld c' (delete v hs)).
Proof.
  intros Hok Hh Hpd Hxs Hst. pose proof Hok as [Hu Hrg Hse Hwr Hd Ho Hp]. cbn in *.
  apply seal_transaction_ok in Hst as (Hall & Hcs & _ & (row & Hrow & _ & Hvol) & _); [|rewrite Hxs; by eapply Hd].
  assert (∀ w r', writes c' !! w = Some r' → ∃ r, writes c !! w = Some r ∧ same_write r r' ∧
    (w ∉ (xs.*1).*1 ∧ r' = r ∨ volume_id r = v ∧ (write_status r' = WRange → may_span r = true))) as Hback.
  { intros w r' Hr'. destruct (decide (w ∈ (xs.*1).*1)) as [Hin|Hni].
    - pose proof Hin as Hin'. rewrite Hxs in Hin'. destruct (Hwr v h w Hh Hin') as (r & Hr & Hv).
      apply list_elem_of_fmap in Hin as (wn & -> & Hin). apply list_elem_of_fmap in Hin as (x & -> & Hin).
      destruct (cs_rows _ _ _ _ _ _ Hcs x Hin) as (r0 & Hr0 & Hr0'). assert (r0 = r) as -> by congruence.
      rewrite Forall_forall in Hall. destruct (Hall x Hin) as (r1 & Hr1 & _ & Hm). assert (r1 = r) as -> by congruence.
      rewrite Hr0' in Hr'. injection Hr' as <-. exists r. split; [done|]. split; [by destruct (split_at _ _ _ _)|]. right. split; [done|].
      destruct (split_at _ _ _ _); cbn; try done. intros _. by apply Hm.
    - rewrite (cs_others _ _ _ _ _ _ Hcs w Hni) in Hr'. exists r'. split; [done|]. split; [done|]. by left. }
  assert (∀ k, sealed_volume k c → sealed_volume k c') as Hkeep.
  { intros k (r & Hr & Hs). unfold sealed_volume. rewrite Hvol. destruct (decide (k = v)) as [->|Hne].
    - eexists. rewrite lookup_insert_eq. split; [done|]. cbn. congruence.
    - exists r. by rewrite lookup_insert_ne. }
  split; cbn.
  - intros w w' r r' (r0 & Hr0 & (-> & _ & -> & _) & _)%Hback (r1 & Hr1 & (-> & _ & -> & _) & _)%Hback. by eapply Hu.
  - intros w r (r0 & Hr0 & (_ & _ & _ & ->) & [[_ ->]|[_ Hm]])%Hback Hst; [by eapply Hrg|by apply Hm].
  - intros w r (r0 & Hr0 & (_ & _ & -> & _) & [[_ ->]|[-> _]])%Hback Ht; apply Hkeep; [by eapply Hse|by eapply Hp].
  - intros v' h' w [Hne Hh']%lookup_delete_Some Hw. destruct (Hwr v' h' w Hh' Hw) as (r & Hr & Hv). exists r. split; [|done].
    rewrite (cs_others _ _ _ _ _ _ Hcs); [done|]. rewrite Hxs. intros Hin. destruct (Hwr v h w Hh Hin) as (r' & Hr' & Hv'). congruence.
  - intros v' h' [_ Hh']%lookup_delete_Some. by eapply Hd.
  - intros v' h' w r [Hne Hh']%lookup_delete_Some (r0 & Hr0 & (_ & _ & -> & _) & [[_ ->]|[-> _]])%Hback Hv; [by eapply Ho|congruence].
  - intros v' h' [_ Hh']%lookup_delete_Some Hpd'. apply Hkeep. by eapply Hp.
Qed.

Lemma load_rows v s c w : w ∈ (load v s c).*1 → ∃ r, writes c !! w = Some r ∧ volume_id r = v ∧ write_status r = s.
Proof.
  intros Hin. apply list_elem_of_fmap in Hin as (wn & -> & Hin). unfold load in Hin. apply list_elem_of_omap in Hin as (w & Hw & Hr).
  apply elem_of_ids_in in Hw as (r & Hw & Hv & Hs). rewrite Hw in Hr. cbn in Hr. injection Hr as <-.
  exists r. split; [done|]. split; [done|]. by apply list_elem_of_singleton in Hs.
Qed.

Lemma ids_in_nodup v ss c : NoDup (ids_in v ss c).
Proof.
  unfold ids_in. rewrite merge_sort_Permutation. apply NoDup_fmap_fst; [|apply NoDup_filter, NoDup_map_to_list].
  intros w r1 r2 [_ H1]%list_elem_of_filter [_ H2]%list_elem_of_filter.
  apply elem_of_map_to_list in H1, H2. congruence.
Qed.

Lemma load_nodup v s c : NoDup (load v s c).*1.
Proof.
  assert (∀ ws, NoDup ws → NoDup (omap (λ w, (λ r, (w, snapshot_id r)) <$> (writes c !! w)) ws).*1 ∧
    ∀ x, x ∈ (omap (λ w, (λ r, (w, snapshot_id r)) <$> (writes c !! w)) ws).*1 → x ∈ ws) as Hom.
  { induction ws as [|w ws IH]; [done|]. intros [Hw Hnd]%NoDup_cons. destruct (IH Hnd) as [IH1 IH2]. cbn.
    destruct (writes c !! w); cbn; [|split; [done|set_solver]]. split; [constructor; [by intros ?%IH2|done]|set_solver]. }
  apply Hom, ids_in_nodup.
Qed.

Lemma resume_session_ok v c adopted ws : resume_session v c = Ok (Some (adopted, ws)) →
  (∀ w r, writes c !! w = Some r → volume_id r = v → write_status r ∉ terminal) ∧ ∃ s, ws = load v s c.
Proof.
  unfold resume_session. destruct (volumes c !! v) as [row|]; cbn; [|done].
  destruct (is_write_target _ _); cbn; [|by case_bool_decide]. destruct (has_completed_write v c) eqn:Ht; [done|].
  unfold has_completed_write in Ht. apply negb_false_iff, bool_decide_eq_true in Ht. rewrite ids_in_nil in Ht.
  destruct (resume_admission v c) as [a|]; cbn; [|done]. intros Ha. split; [done|].
  destruct a as [|[| | | | |]|]; try done; injection Ha as <- <-; eauto.
Qed.

Section lifecycle.
Context `{Rd : !Readable}.

Lemma held_open c hs v h w : world_ok (mkWorld c hs) → hs !! v = Some h → w ∈ (h_writes h).*1 → open_row w c.
Proof.
  intros Hok Hh Hw r Hr. destruct (wo_writes _ Hok v h w Hh Hw) as (r' & Hr' & Hv). cbn in Hr'.
  eapply (wo_open _ Hok); [done|done|congruence].
Qed.

Lemma step_restatus c c' hs : world_ok (mkWorld c hs) → restatus c c' → world_ok (mkWorld c' hs) ∧ keeps_concluded c c'.
Proof. intros Hok Hr. split; [by eapply restatus_ok|by apply restatus_keeps]. Qed.

Lemma step_ok x x' : world_ok x → step x x' → world_ok x' ∧ keeps_concluded (ledger x) (ledger x').
Proof.
  intros Hok Hs. destruct Hs as [c H v units es ids owner c' Hfree Hadm Hplan|c H v h Hh Hpd|c H v h w Hh Hpd Hw Hns|
    c H v h w s f Hh Hpd Hw Hf|c H v h w st Hh Hw Hst|c H v|c H v h at_ ended Hh Hvol|c H v h now Hh Hpd|
    c H v h ending K full xs g c' Hh Hpd Hxs Hseal|c H v h Hh|c H v h now Hh|c H v adopted ws Hfree Hres|c H v h Hh Hsr|
    c H v Hfree|c H v now c' Hfree Hab|c H v t started ev Hfree|c H v st Hst]; cbn.
  - apply plan_ok in Hplan. split; [by eapply plan_world|by eapply plan_keeps].
  - apply step_restatus; [done|]. apply (restatus_all start_write); [intros; by apply restatus_status; [set_solver|]|].
    intros w Hw. by eapply held_open.
  - apply step_restatus; [done|]. apply restatus_status; [set_solver|]. by eapply held_open.
  - pose proof (held_open _ _ _ _ _ Hok Hh Hw) as Hopen. split; [by destruct Hok|]. intros w' r Hr Ht.
    split; [by exists r|]. intros s'. cbn. rewrite lookup_alter_ne; [done|]. intros [= -> ->]. by eapply Hopen.
  - apply step_restatus; [done|]. apply restatus_mark; [set_solver|]. by eapply held_open.
  - split; [by apply release_ok|]. apply restatus_keeps. reflexivity.
  - assert (restatus c (record_seal v at_ ended c)) as Hr by (apply restatus_volume; by intros r _; eexists).
    split; [|by apply restatus_keeps]. pose proof (restatus_ok _ _ _ Hr Hok) as Hok'. apply take_ok; cbn; try done.
    + intros w Hw. by apply (wo_writes _ Hok' v h w).
    + by eapply (wo_distinct _ Hok').
    + intros w r. by apply (wo_open _ Hok' v h).
    + intros _. destruct Hvol as [r Hr0]. unfold sealed_volume. cbn. rewrite lookup_alter_eq, Hr0. by do 2 eexists.
  - assert (restatus c (abort_unsealed_session v now c)) as Hr.
    { apply restatus_log.
      apply (restatus_all (set_status WAborted)); [intros; by apply restatus_status; [set_solver|]|].
      intros w Hw. eapply open_ids; [|done]. set_solver. }
    split; [|by apply restatus_keeps]. apply release_ok. by eapply restatus_ok.
  - split; [by eapply seal_world|by eapply seal_keeps].
  - assert (restatus c (mark_writes WInterrupted (h_writes h).*1 c)) as Hr.
    { apply (restatus_all (mark_write WInterrupted)); [intros; by apply restatus_mark; [set_solver|]|].
      intros w Hw. by eapply held_open. }
    split; [|by apply restatus_keeps]. apply release_ok. by eapply restatus_ok.
  - assert (restatus c (record_quarantine v (h_writes h).*1 now c)) as Hr.
    { unfold record_quarantine. etrans; [by apply (restatus_volume v (with_condition CondQuarantined))|].
      apply restatus_log.
      apply (restatus_all (mark_write WAborted)); [intros; by apply restatus_mark; [set_solver|]|].
      intros w Hw. eapply restatus_open; [by apply restatus_volume|]. by eapply held_open. }
    split; [|by apply restatus_keeps]. apply release_ok. by eapply restatus_ok.
  - split; [|apply restatus_keeps; reflexivity]. destruct (resume_session_ok _ _ _ _ Hres) as [Ho [s ->]].
    apply take_ok; cbn; try done.
    + intros w (r & ? & ? & _)%load_rows. eauto.
    + apply load_nodup.
  - split; [|apply restatus_keeps; reflexivity]. apply take_ok; cbn; try done.
    + intros w Hw. by apply (wo_writes _ Hok v h w).
    + by eapply (wo_distinct _ Hok).
    + intros w r. by apply (wo_open _ Hok v h).
    + intros _. unfold seal_recorded in Hsr. destruct (volumes c !! v) as [r|] eqn:Hr; cbn in Hsr; [|done].
      injection Hsr as Hsr. apply bool_decide_eq_true in Hsr. by exists r.
  - apply step_restatus; [done|]. apply (restatus_all (set_status WInterrupted)); [intros; by apply restatus_status; [set_solver|]|].
    intros w Hw. eapply open_ids; [|done]. set_solver.
  - apply step_restatus; [done|]. unfold volume_abort in Hab. case_bool_decide; [done|]. destruct (negb _); [done|].
    injection Hab as <-. apply restatus_log.
    apply (restatus_all (set_status WAborted)); [intros; by apply restatus_status; [set_solver|]|].
    intros w Hw. eapply open_ids; [|done]. set_solver.
  - apply step_restatus; [done|]. apply restatus_verify.
  - apply step_restatus; [done|]. by apply restatus_volume.
Qed.

Lemma steps_ok x x' : rtc step x x' → world_ok x → world_ok x' ∧ keeps_concluded (ledger x) (ledger x').
Proof.
  induction 1 as [x|x y z Hxy _ IH]; intros Hok; [split; [done|]; apply restatus_keeps; reflexivity|].
  destruct (step_ok _ _ Hok Hxy) as [Hoky Hky]. destruct (IH Hoky). split; [done|]. by eapply keeps_trans.
Qed.

(** C26: the catalog stays well formed, whatever sessions, confirms, aborts,
    sweeps, verifies and retirements run and wherever they die. No two writes
    of a volume are of one stage set, a range is only of a write that may
    span, a concluded write is on a volume whose seal is recorded, and a
    session some process holds has its writes, each once, on a volume that has
    no concluded write. *)
Theorem catalog_well_formed x x' : world_ok x → rtc step x x' → world_ok x'.
Proof. intros Hok Hs. by destruct (steps_ok x x' Hs Hok). Qed.

(** C14: what a confirm concluded is final. No later session, confirm, abort,
    sweep, verify or retirement, and no crash of one, changes the status of a
    completed, cut or range write, what it is a write of, or one of its
    positions. *)
Theorem concluded_is_final x x' w r : world_ok x → rtc step x x' →
  writes (ledger x) !! w = Some r → write_status r ∈ terminal →
  (∃ r', writes (ledger x') !! w = Some r' ∧ same_write r r' ∧ write_status r' = write_status r) ∧
  ∀ s, write_positions (ledger x') !! (w, s) = write_positions (ledger x) !! (w, s).
Proof. intros Hok Hs Hr Ht. destruct (steps_ok x x' Hs Hok) as [_ Hk]. by apply Hk. Qed.
End lifecycle.
