(* ===== verification/ReadTape.v ===== *)
(** * The tape store read: a confirm on a drive

    [TapeStore] as the [Readable] medium of the confirm and of the search for
    the seal. On a drive that keeps its laws ([TapeLaws]) it reads what the
    tape holds or fails, so what the walks show of a medium they show of a
    tape, its drive's motions and reads included. *)

From S2P Require Import Prelude LayoutModel Format TapeWrite Session TapeStore TapeStoreSound.
From S2P Require Import Confirm ConfirmSound ConfirmSpec Ledger LedgerSound LedgerPlan CopyClaim.
Local Open Scope Z_scope.
Local Open Scope rust_scope.

(** The reads of [Store], as [TapeStore] does them. *)
#[export] Instance tape_readable `{!TapeOps} : Readable := {|
  medium := TapeStore;
  failure := ReadFailure;
  read_into cap p := TapeStore.read_file (within cap) p;
  head_of p n := tape_read_head p n;
  ends_at_or_before p s := let '(r, s) := eod_at_or_before p s in (map_err MotionFailed r, s);
  count_files s := let '(r, s) := files_on_medium s in (map_err MotionFailed r, s);
|}.

Section reads.
Context `{To : !TapeOps, Tl : !TapeLaws}.
(** The tape, and what a drive gives of a whole file: the same every time. *)
Variables (tape : list (list Z)) (bytes_of : list Z → list Z).
Hypothesis reads_same : ∀ f l, file_reads f l → l = bytes_of f.

Definition on_tape (s : TapeStore) : Prop := tape_files (dev s) = tape ∧ cursor_in_range (cursor s).
Definition tape_content (p : Z) : result ReadFailure (list Z) :=
  Ok (match tape !! Z.to_nat p with Some f => bytes_of f | None => [] end).

Lemma gives_content p l : gives tape (Z.to_nat p) l → tape_content p = Ok l.
Proof.
  unfold gives, tape_content. destruct (tape !! Z.to_nat p); [|by intros ->].
  intros Hf. by rewrite (reads_same _ _ Hf).
Qed.

Lemma within_nil cap : within cap [] = true.
Proof. destruct cap; [|done]. apply bool_decide_eq_true. cbn. lia. Qed.

(** A read of a drive gives the file or an error. *)
Lemma tape_answers cap p s r s' : 0 ≤ p < i32_max → on_tape s → read_into cap p s = (r, s') →
  on_tape s' ∧ (r = limited (TapeStore.ReadFailed TapeWrite.SinkWrite) cap (tape_content p) ∨ ∃ e, r = Err e).
Proof.
  intros Hp [Ht Hc] Hr. cbn in Hr. apply read_file_moves in Hr as (Ht' & Hc' & Hg & _); [|done..].
  split; [split; congruence|]. destruct r as [l|e]; [left|right; by eexists].
  destruct (Hg l eq_refl) as [Hl Hw]. rewrite Ht in Hl. rewrite (gives_content p l Hl). cbn.
  destruct Hw as [Hn|Hn]; [rewrite Hn, within_nil|rewrite Hn]; done.
Qed.

Lemma tape_faulty layout plan : walk_reach layout < i32_max →
  faulty (TapeStore.ReadFailed TapeWrite.SinkWrite) tape_content on_tape layout plan.
Proof.
  intros Hreach m cap p Hp Hm. destruct (read_into cap p m) as [r m'] eqn:Hr. exists r, m'. split; [done|].
  apply tape_answers in Hr as [? [?|?]]; [| |lia|done]; auto.
Qed.

(** C3: a copy the catalog claims is on the tape the drive holds. A full
    confirm of a session through the tape store, on a drive that keeps its
    laws, its driver's count lost or not, its motions and reads failing as
    they may: when it seals the session, every slice the catalog then counts
    for one of its writes is a file of the tape, at its place in the Layout,
    with the length and the hash File 3 states, under the seal that binds
    File 3. *)
Theorem tape_copies_read_back `{!Digest, !TomlCrate} p asked seen started now stops meanwhile s c plan g c' s' :
  placed (p_layout p) → walk_reach (p_layout p) < i32_max → NoDup (p_writes p).*1 →
  tier_after_lbp_refusals seen asked = Integrity → confirm_plan p Integrity None = Ok plan →
  on_tape s → seal_in_place tape_content (p_layout p) plan →
  planned_rows (entries (p_layout p)) (p_writes p) c →
  (∀ c0, planned_rows (entries (p_layout p)) (p_writes p) c0 → planned_rows (entries (p_layout p)) (p_writes p) (meanwhile c0)) →
  confirm_session (TapeStore.ReadFailed TapeWrite.SinkWrite) p asked seen None started now stops meanwhile s c = (Ok (Sealed g), c', s') →
  ∀ w slice, w ∈ (p_writes p).*1 → counts_slice w slice c' → slice_on_tape tape_content (p_layout p) slice.
Proof.
  intros Hpl Hreach Hnd Ht Hplan Hs Hseal Hrows Hmean Hrun.
  apply (@copies_read_back _ _ tape_readable (TapeStore.ReadFailed TapeWrite.SinkWrite) tape_content on_tape p asked seen None started now stops meanwhile s c plan g c' s'); try done.
  by apply tape_faulty.
Qed.
End reads.
