(* ===== verification/LedgerRehearsal.v ===== *)
(** * A session in the catalog rehearsed

    One unit planned on a volume, written, sealed and confirmed in full on the
    tape of the confirm's rehearsal, then retired; a set spread over two
    volumes; an aborted session resumed; and the confirm again, of the same tape as a
    drive holds it. Each theorem of the catalog applied. *)

From S2P Require Import Prelude LayoutModel Lbp TapeWrite TapeSpec Session TapeStore TapeStoreSound DriveModel.
From S2P Require Import Format Confirm ConfirmSound ConfirmSpec ConfirmRehearsal.
From S2P Require Import Contact ContactSound ContactRehearsal Ledger LedgerSound LedgerPlan CopyClaim Lifecycle ReadTape.
Local Open Scope Z_scope.
Local Open Scope rust_scope.

#[local] Existing Instance cx_digest.
#[local] Existing Instance cx_toml.
#[local] Existing Instance cx_store.

(** ** The plan *)

Definition lx_blank : VolumeRow := mkVolumeRow VInitialized CondOk None None.
Definition lx_start : Ledger := mkLedger ∅ ∅ {[11 := mkStageSlice 7 1]} {[9 := SnapStaged]} {[1 := lx_blank]} [] ∅ ∅.
Definition lx_units : list BuildUnit := [mkBuildUnit 7 9 [11] false].
Definition lx_plan := plan 1 lx_units (entries cx_layout) lx_start.
Definition lx_planned : Ledger := match lx_plan with Ok (_, _, c) => c | Err _ => lx_start end.

Lemma lx_plan_ok : lx_plan = Ok ([(1, 9)], {[11 := 1]}, lx_planned).
Proof. vm_compute. reflexivity. Qed.

Lemma lx_built : built_units lx_units (entries cx_layout) lx_start.
Proof.
  intros u s Hu. apply list_elem_of_singleton in Hu as ->. cbn. split.
  - rewrite list_elem_of_singleton. split; [intros ->; by exists 1|]. intros [k Hk].
    apply lookup_singleton_Some in Hk as [? _]. done.
  - intros Hs. apply list_elem_of_singleton in Hs as ->. exists (cx_entry 4 (LayoutModel.Slice 11) cx_slice). split; [apply (list_elem_of_lookup_2 _ 4%nat); reflexivity|done].
Qed.

Lemma plan_one_session_witness :
  write_admitted 1 lx_start = Ok () ∧ planned_rows (entries cx_layout) [(1, 9)] lx_planned.
Proof.
  assert (write_admitted 1 lx_start = Ok ()) as Ha by (vm_compute; reflexivity). split; [exact Ha|].
  exact (proj1 (proj2 (proj2 (proj2 (plan_one_session 1 lx_units (entries cx_layout) lx_start _ _ _ Ha lx_built lx_plan_ok))))).
Defined.

(** ** The write, the seal, the confirm *)

Definition lx_written : Ledger :=
  set_write_positions (alter (λ r, mkPosition (row_position r) PWritten (Some "h"%string)) (1, 11)) (start_writes [1] lx_planned).
Definition lx_sealed : Ledger := record_seal 1 "2026" None lx_written.
Definition lx_pending : SealedPending := mkPending cx_layout 1 [(1, 9)] SealLast (Some (cx_seal ++ [0; 0])) Session.Full false.
Definition lx_confirm_plan : ConfirmPlan :=
  match confirm_plan lx_pending Integrity None with Ok p => p | Err _ => plan_new Navigable end.
Definition lx_confirmed := confirm_session SinkWrite lx_pending Integrity false None "2026" "2026" [] id cx_tape lx_sealed.
Definition lx_gathered : Gathered := mkGathered [9] [] [] [].
Definition lx_after : Ledger := lx_confirmed.1.2.

Lemma lx_confirm_ok : lx_confirmed = (Ok (Sealed lx_gathered), lx_after, lx_confirmed.2).
Proof.
  transitivity (lx_confirmed.1.1, lx_confirmed.1.2, lx_confirmed.2).
  - rewrite <- (surjective_pairing lx_confirmed.1). exact (surjective_pairing lx_confirmed).
  - assert (lx_confirmed.1.1 = Ok (Sealed lx_gathered)) as -> by (vm_compute; reflexivity). reflexivity.
Qed.

Lemma lx_placed : placed cx_layout.
Proof.
  assert (Forall (λ e, - 2 ^ 31 ≤ le_position e ≤ i32_max ∧ (is_slice (le_kind e) = true → 0 ≤ le_position e) ∧
    Forall (λ s, is_slice (le_kind e) = true → le_kind s = SealMarker → le_position e < le_position s) (entries cx_layout))
    (entries cx_layout)) as Hall by by_decide.
  rewrite Forall_forall in Hall. split.
  - intros e He. apply (Hall e He).
  - intros e He Hs. destruct (Hall e He) as (_ & Hp & Hf). split; [by apply Hp|]. rewrite Forall_forall in Hf. intros s Hin. by apply Hf.
Qed.

Lemma lx_rows : planned_rows (entries cx_layout) [(1, 9)] lx_sealed.
Proof.
  intros w r slice k Hw Hr Hs. apply list_elem_of_singleton in Hw as ->.
  assert (writes lx_sealed !! 1 = Some (mkWriteRow 7 9 1 WInProgress false false)) as Hr' by (vm_compute; reflexivity).
  pose proof (eq_trans (eq_sym Hr) Hr') as Heq. injection Heq as ->. assert (slice = 11) as ->.
  { assert (stage_slices lx_sealed = ({[11 := mkStageSlice 7 1]} : gmap Z StageSlice)) as Hl by (vm_compute; reflexivity). rewrite Hl in Hs. apply lookup_singleton_Some in Hs as [Hs' _]. exact (eq_sym Hs'). }
  exists (mkPosition 4 PWritten (Some "h"%string)), (cx_entry 4 (LayoutModel.Slice 11) cx_slice).
  split; [vm_compute; reflexivity|]. split; [apply (list_elem_of_lookup_2 _ 4%nat); reflexivity|]. split; reflexivity.
Qed.

Lemma sealed_copies_read_back_witness :
  writes lx_after !! 1 = Some (mkWriteRow 7 9 1 WCompleted true false) ∧ slice_on_tape cx_content cx_layout 11.
Proof.
  assert (writes lx_after !! 1 = Some (mkWriteRow 7 9 1 WCompleted true false)) as Hr by (vm_compute; reflexivity).
  split; [exact Hr|].
  refine (sealed_copies_read_back SinkWrite cx_content cx_inv lx_pending Integrity false None "2026" "2026" [] id cx_tape lx_sealed
    lx_confirm_plan lx_gathered lx_after lx_confirmed.2 lx_placed _ eq_refl _ _ eq_refl _ _ lx_rows (λ _ h, h) lx_confirm_ok 1 11 _ _).
  - by_decide.
  - vm_compute. reflexivity.
  - intros m cap p Hp Hm. destruct (cx_steady m cap p Hp Hm) as (m' & Hread & Hm'). eexists _, m'. split; [exact Hread|]. split; [exact Hm'|]. left. reflexivity.
  - intros b fi_pos len ending [= <-] Hf. vm_compute in Hf. injection Hf as <- <- <-. reflexivity.
  - intros k [=].
  - apply list_elem_of_singleton. reflexivity.
  - exists (mkWriteRow 7 9 1 WCompleted true false), 1. split; [exact Hr|]. split; [vm_compute; reflexivity|]. left. reflexivity.
Defined.

(** ** The seal's transaction *)

(** A set of two slices, the second pending past the end of a tape that ended
    in the first; the first is on a sealed volume already. *)
Definition lx_spread : Ledger := mkLedger
  {[1 := mkWriteRow 7 9 1 WInProgress false true; 2 := mkWriteRow 7 9 2 WRange true true]}
  {[(1, 11) := mkPosition 4 PWritten (Some "h"%string); (1, 12) := mkPosition 5 PPending None;
    (2, 11) := mkPosition 4 PPending None; (2, 12) := mkPosition 5 PWritten (Some "k"%string)]}
  {[11 := mkStageSlice 7 1; 12 := mkStageSlice 7 2]} {[9 := SnapStaged]}
  {[1 := mkVolumeRow VInitialized CondOk (Some "2026"%string) (Some 4); 2 := mkVolumeRow VSealed CondOk (Some "2025"%string) None]}
  [] ∅ ∅.
Definition lx_entered : list ((Z * Z) * (WriteStatus * bool)) := [((1, 9), (WInProgress, true))].
Definition lx_seal := seal_transaction 1 (Session.Short 4) 4 true lx_entered lx_spread.
Definition lx_spread_sealed : Ledger := match lx_seal with Ok (_, c) => c | Err _ => lx_spread end.
Definition lx_range : Gathered := mkGathered [] [] [mkRangeUnit 9 1 1] [(1, 9)].

Lemma lx_seal_ok : lx_seal = Ok (lx_range, lx_spread_sealed).
Proof. vm_compute. reflexivity. Qed.

Lemma lx_entered_nodup : NoDup (lx_entered.*1).*1.
Proof. by_decide. Qed.

Lemma span_split_spec_witness :
  span_split 1 4 lx_spread = SplitRange 1 1 ∧
  (∃ s n, stage_slices lx_spread !! s = Some (mkStageSlice 7 n) ∧ ¬ holds 1 4 s lx_spread).
Proof.
  assert (span_split 1 4 lx_spread = SplitRange 1 1) as Hs by (vm_compute; reflexivity). split; [exact Hs|].
  assert (writes lx_spread !! 1 = Some (mkWriteRow 7 9 1 WInProgress false true)) as Hr by (vm_compute; reflexivity).
  pose proof (span_split_spec 1 4 lx_spread _ Hr) as H. rewrite Hs in H. exact (proj1 H).
Defined.

Lemma seal_transaction_spec_witness :
  lx_seal = Ok (lx_range, lx_spread_sealed) ∧ Forall (concludable (Session.Short 4) 4 lx_spread) lx_entered.
Proof.
  split; [exact lx_seal_ok|].
  pose proof (seal_transaction_spec 1 (Session.Short 4) 4 true lx_entered lx_spread lx_entered_nodup) as Ht.
  fold lx_seal in Ht. rewrite lx_seal_ok in Ht. exact (proj1 Ht).
Defined.

Lemma promoted_on_sealed_volumes_witness :
  snapshots lx_spread_sealed !! 9 = Some SnapCurrent ∧
  ∃ w r, (w, 9) ∈ lx_entered.*1 ∧ writes lx_spread_sealed !! w = Some r ∧ volume_id r = 1 ∧
    ((∀ s k, stage_slices lx_spread_sealed !! s ≠ Some (mkStageSlice (stage_set_id r) k)) ∨
     every_slice_on_sealed_volume (stage_set_id r) None lx_spread_sealed = true).
Proof.
  assert (snapshots lx_spread_sealed !! 9 = Some SnapCurrent) as Hs by (vm_compute; reflexivity). split; [exact Hs|].
  refine (promoted_on_sealed_volumes 1 (Session.Short 4) 4 true lx_entered lx_spread lx_range lx_spread_sealed 9
    lx_entered_nodup _ lx_seal_ok _ Hs).
  - intros x r Hx Hr. apply list_elem_of_singleton in Hx as ->.
    assert (writes lx_spread !! 1 = Some (mkWriteRow 7 9 1 WInProgress false true)) as Hr' by (vm_compute; reflexivity).
    pose proof (eq_trans (eq_sym Hr) Hr') as Heq. injection Heq as ->. reflexivity.
  - vm_compute. discriminate.
Defined.

(** ** An aborted session, its tape found sound after the abort *)

Definition lx_aborted : Ledger := mkLedger
  {[1 := mkWriteRow 7 9 1 WAborted false false]} {[(1, 11) := mkPosition 4 PWritten (Some "h"%string)]}
  {[11 := mkStageSlice 7 1]} {[9 := SnapStaged]} {[1 := mkVolumeRow VInitialized CondOk (Some "2026-01-01"%string) None]}
  [(1, "2026-02-01"%string)] {[1 := mkVerification 1 "full" "passed" "2026-03-01"]} ∅.

Lemma recorded_seal_only_reads_witness :
  resume_session 1 lx_aborted = Ok (Some (true, [(1, 9)])) ∧ cleared_after_abort 1 lx_aborted ∧
  reads_only (@resume_contact kx_toml kx_store kx_blank kx_layout true true None None kx_sealed).1.
Proof.
  assert (resume_session 1 lx_aborted = Ok (Some (true, [(1, 9)]))) as Hr by (vm_compute; reflexivity). split; [exact Hr|].
  pose proof (@recorded_seal_only_reads kx_toml kx_store kx_blank 1 lx_aborted true [(1, 9)] kx_layout None None kx_sealed Hr)
    as (_ & Ha & Hs). destruct (Ha eq_refl) as (Hsealed & Hc & _). split; [exact Hc|]. exact (Hs Hsealed).
Defined.

(** ** The life of a session *)

Definition lx_world (c : Ledger) : World := mkWorld c ∅.
Definition lx_retired : Ledger := set_volume 1 (with_volume_status VRetired) lx_after.

Lemma lx_start_ok : world_ok (lx_world lx_start).
Proof. split; cbn; intros *; rewrite ?lookup_empty; discriminate. Qed.

(** The one transaction the confirm ended in, from what it had read. *)
Definition lx_concluded : Ledger :=
  match seal_transaction 1 Session.Full 4 true [((1, 9), (WInProgress, false))] lx_sealed with Ok (_, c) => c | Err _ => lx_start end.
Definition lx_closed : Ledger := set_volume 1 (with_volume_status VRetired) lx_concluded.

Lemma lx_conclude_ok :
  seal_transaction 1 Session.Full 4 true [((1, 9), (WInProgress, false))] lx_sealed = Ok (lx_gathered, lx_concluded).
Proof. vm_compute. reflexivity. Qed.

Lemma lx_to_concluded : rtc step (lx_world lx_start) (lx_world lx_concluded).
Proof.
  eapply rtc_l. { apply (step_plan lx_start ∅ 1 lx_units (entries cx_layout) [(1, 9)] {[11 := 1]} lx_planned (lookup_empty 1)); [vm_compute; reflexivity|exact lx_plan_ok]. }
  eapply rtc_l. { apply (step_start _ _ 1 (mkHeld [(1, 9)] false)); [apply lookup_insert_eq|reflexivity]. }
  eapply rtc_l. { apply (step_position _ _ 1 (mkHeld [(1, 9)] false) 1 11 (λ r, mkPosition (row_position r) PWritten (Some "h"%string)));
    [apply lookup_insert_eq|reflexivity|apply list_elem_of_singleton; reflexivity|reflexivity]. }
  eapply rtc_l. { apply (step_sealed _ _ 1 (mkHeld [(1, 9)] false) "2026" None); [apply lookup_insert_eq|vm_compute; eexists; reflexivity]. }
  eapply rtc_l. { apply (step_concluded _ _ 1 (mkHeld [(1, 9)] true) Session.Full 4 true [((1, 9), (WInProgress, false))] lx_gathered lx_concluded);
    [apply lookup_insert_eq|reflexivity|reflexivity|exact lx_conclude_ok]. }
  rewrite !delete_insert_eq, delete_empty. reflexivity.
Qed.

Lemma lx_to_closed : rtc step (lx_world lx_concluded) (lx_world lx_closed).
Proof. apply rtc_once, step_operator. left. by_decide. Qed.

Lemma catalog_well_formed_witness : world_ok (lx_world lx_closed) ∧ sealed_volume 1 lx_closed.
Proof.
  assert (world_ok (lx_world lx_closed)) as Hok.
  { refine (catalog_well_formed _ _ lx_start_ok _). etrans; [exact lx_to_concluded|exact lx_to_closed]. }
  split; [exact Hok|].
  assert (writes lx_closed !! 1 = Some (mkWriteRow 7 9 1 WCompleted true false)) as Hw by (vm_compute; reflexivity).
  refine (wo_sealed _ Hok 1 _ Hw _). by_decide.
Defined.

Lemma concluded_is_final_witness :
  writes lx_concluded !! 1 = Some (mkWriteRow 7 9 1 WCompleted true false) ∧
  ∃ r', writes lx_closed !! 1 = Some r' ∧ write_status r' = WCompleted.
Proof.
  assert (writes lx_concluded !! 1 = Some (mkWriteRow 7 9 1 WCompleted true false)) as Hw by (vm_compute; reflexivity).
  split; [exact Hw|].
  assert (world_ok (lx_world lx_concluded)) as Hok by exact (proj1 (steps_ok _ _ lx_to_concluded lx_start_ok)).
  destruct (concluded_is_final (lx_world lx_concluded) (lx_world lx_closed) 1 _ Hok lx_to_closed Hw (ltac:(by_decide))) as [(r' & Hr' & _ & Hs) _].
  exists r'. split; [exact Hr'|exact Hs].
Defined.

(** A process that stops between the two updates that mark a session of two
    units aborted leaves one row in progress; the sweep makes it interrupted,
    and a resume takes that row up alone. *)
Definition lx_two : Ledger := mkLedger
  {[1 := mkWriteRow 7 9 1 WInProgress false false; 2 := mkWriteRow 8 10 1 WInProgress false false]}
  {[(1, 11) := mkPosition 4 PWritten (Some "h"%string); (2, 12) := mkPosition 5 PPending None]}
  {[11 := mkStageSlice 7 1; 12 := mkStageSlice 8 1]} {[9 := SnapStaged; 10 := SnapStaged]} {[1 := lx_blank]} [] ∅ ∅.

Example split_session :
  resume_session 1 (recover_orphaned_sessions 1 (mark_write WAborted 1 lx_two)) = Ok (Some (false, [(2, 10)])).
Proof. vm_compute. reflexivity. Qed.

(** ** The tape of the confirm as a drive holds it, in blocks with their CRC,
    confirmed through the tape store and recorded *)

#[local] Instance tx_ops : TapeOps := drive_ops 4 true.
#[local] Instance tx_laws : @TapeLaws tx_ops := drive_laws 4 true.
#[local] Instance tx_reads : Readable := @tape_readable tx_ops.

Definition tx_wire (f : list Z) : list Z := mjoin ((λ b, default [] (protect (b ++ [0; 0; 0; 0]))) <$> chop (length f) 4 f).
Definition tx_tape : list (list Z) := tx_wire <$> cx_tape.
(** The store was used before: it believes it is inside file 3. *)
Definition tx_store : @TapeStore tx_ops :=
  mkTapeStore (mkDrive tx_tape 0 true [] [] (mkWarningState 0 None) []) (mkMotions 0 0 0 0) (Within 3).
Definition tx_bytes (f : list Z) : list Z := match decode 4 true takes_all f with Ok (l, _) => l | Err _ => [] end.

Definition tx_pending : SealedPending := mkPending cx_layout 1 [(1, 9)] SealFirst None Session.Full false.
Definition tx_plan : ConfirmPlan :=
  match confirm_plan tx_pending Integrity None with Ok p => p | Err _ => plan_new Navigable end.
Definition tx_run := confirm_session (TapeStore.ReadFailed TapeWrite.SinkWrite) tx_pending Navigable true None "2026" "2026" []
  id tx_store lx_sealed.
Definition tx_after : Ledger := tx_run.1.2.

Lemma tx_run_ok : tx_run = (Ok (Sealed lx_gathered), tx_after, tx_run.2).
Proof.
  transitivity (tx_run.1.1, tx_run.1.2, tx_run.2).
  - rewrite <- (surjective_pairing tx_run.1). exact (surjective_pairing tx_run).
  - assert (tx_run.1.1 = Ok (Sealed lx_gathered)) as -> by (vm_compute; reflexivity). reflexivity.
Qed.

Lemma tx_reads_same f l : @file_reads tx_ops tx_laws f l → l = tx_bytes f.
Proof. intros [e He]. unfold tx_bytes. cbn in He. rewrite He. reflexivity. Qed.

Lemma tape_copies_read_back_witness :
  writes tx_after !! 1 = Some (mkWriteRow 7 9 1 WCompleted true false) ∧
  slice_on_tape (tape_content tx_tape tx_bytes) cx_layout 11.
Proof.
  assert (writes tx_after !! 1 = Some (mkWriteRow 7 9 1 WCompleted true false)) as Hr by (vm_compute; reflexivity).
  split; [exact Hr|].
  refine (@tape_copies_read_back tx_ops tx_laws tx_tape tx_bytes tx_reads_same cx_digest cx_toml tx_pending Navigable true
    "2026" "2026" [] id tx_store lx_sealed tx_plan lx_gathered tx_after tx_run.2 lx_placed _ _ eq_refl _ _ _ lx_rows (λ _ h, h)
    tx_run_ok 1 11 _ _).
  - vm_compute. reflexivity.
  - by_decide.
  - vm_compute. reflexivity.
  - split; [reflexivity|]. cbn. unfold i32_max. lia.
  - intros b fi_pos len ending [=].
  - apply list_elem_of_singleton. reflexivity.
  - exists (mkWriteRow 7 9 1 WCompleted true false), 1. split; [exact Hr|]. split; [vm_compute; reflexivity|]. left. reflexivity.
Defined.
