(* ===== verification/AdoptLost.v ===== *)
(** * A write the catalog lost: [src/volume/adopt_lost.rs]

    A catalog restored from a backup taken before a volume was written holds
    it as [initialized] while its tape is sealed. A rebuild attached its rows;
    a resume adopts it once File 0, the seal, a full verify recorded since and
    the hashes this catalog staged all agree. The seal is found and judged as
    [src/volume/rebuild.rs] does for every reader of a tape's end. *)

From S2P Require Import Prelude LayoutModel Format Session Confirm Ledger.
Local Open Scope Z_scope.
Local Open Scope rust_scope.

Section adopt.
Context `{!Digest, !TomlCrate, !Readable}.

(** ** The seal at the end of a tape: [rebuild::locate_and_judge_seal] *)

Inductive NotSealedWhy : Type :=
| NoPointers (e : FormatError)
| PointerOutOfRange (position : Z)
| IndexNotRead (e : option failure)            (* [None]: too large *)
| IndexNotParsed (e : FormatError)
| NotLocated (l : SealLocation)
| NotJudged (why : UnsealedReason)
| EndsDisagree (position file_count planned_count : Z)
| NoShortSealAllowed (position planned : Z)
| NotAShortSeal (position file_count : Z)
| EndedElsewhere (position ended_after : Z)
| SealRefusedFor (why : Refusal).

Inductive LocatedVerdict : Type :=
| LSealed (seal : ParsedSeal)
| LUnsealed (why : NotSealedWhy)
| LRefused (why : Refusal).

Record LocatedSeal : Type := mkLocated {
  verdict : LocatedVerdict;
  located_position : option Z;
  located_ended_after : option Z;
}.
Definition unsealed (position : option Z) (why : NotSealedWhy) : LocatedSeal := mkLocated (LUnsealed why) position None.

(** Whether the tape says it may end early: File 0, or the seal itself. *)
Definition tape_requires_short_seal (file0 : string) (seal : ParsedSeal) : bool :=
  match parse_id_thunk_claims file0 with
  | Ok claims => existsb (λ f, bool_decide (f = SHORT_SEAL)) (claims_requires claims)
  | Err _ => requires_short_seal seal
  end.

(** A seal that binds the front index, where it was found. *)
Definition accept_seal (file0 : string) (planned position : Z) (seal : ParsedSeal) : LocatedSeal :=
  let planned_count := planned + 1 in
  let no := unsealed (Some position) in
  if bool_decide (planned ≤ position) then
    match classify_seal_ending seal planned_count with
    | Format.Full => mkLocated (LSealed seal) (Some position) None
    | _ => no (EndsDisagree position (seal_file_count seal) planned_count)
    end
  else if negb (tape_requires_short_seal file0 seal) then no (NoShortSealAllowed position planned)
  else if negb (requires_short_seal seal) || bool_decide (seal_file_count seal ≠ position + 1)
  then no (NotAShortSeal position (seal_file_count seal))
  else
    match classify_seal_ending seal planned_count with
    | Format.Short k =>
        if bool_decide (k ≤ u32_max) && bool_decide (k + 1 = position)
        then mkLocated (LSealed seal) (Some position) (Some k)
        else no (EndedElsewhere position k)
    | _ => no (EndsDisagree position (seal_file_count seal) planned_count)
    end.

Definition locate_and_judge_seal (file0 : string) (front_index : list Z) (front_index_position planned : Z)
    (m : medium) : LocatedSeal * medium :=
  let '(loc, m) := locate_seal planned m in
  (match loc with
   | SealFile position bytes =>
       match judge_seal (Ok bytes) front_index front_index_position position with
       | Format.Sealed seal => accept_seal file0 planned position seal
       | Unsealed why => unsealed (Some position) (NotJudged why)
       | Format.Refused why => mkLocated (LRefused why) (Some position) None
       end
   | SealOversized position | SealReadFailed position _ | SealUncounted position _ _ =>
       unsealed (Some position) (NotLocated loc)
   | SealAbsent => unsealed None (NotLocated loc)
   end, m).

(** [store::read_small_bytes]. *)
Definition read_small_bytes (position : Z) (m : medium) : result (option failure) (list Z) * medium :=
  let '(r, m) := read_small position m in
  (match r with Ok (Bytes b) => Ok b | Ok Oversized => Err None | Err e => Err (Some e) end, m).

(** [u32::try_from] of an [i32]. *)
Definition pointer (p : Z) : result NotSealedWhy Z := guard_err (bool_decide (p < 0)) (PointerOutOfRange p);; Ok p.

Record SealedIndex : Type := mkSealedIndex {
  si_entries : list ParsedIndexEntry;
  si_sealed_at : string;
  si_front_index_sha256 : string;
  si_ended_after : option Z;
}.

Definition sealed_front_index (file0 : string) (m : medium) : result NotSealedWhy SealedIndex * medium :=
  match
    pointers ← map_err NoPointers (parse_id_thunk_layout_pointers file0);
    fi_pos ← pointer (ptr_front_index pointers);
    seal_pos ← pointer (ptr_seal_marker pointers);
    Ok (fi_pos, seal_pos)
  with
  | Err why => (Err why, m)
  | Ok (fi_pos, seal_pos) =>
      let '(r, m) := read_small_bytes fi_pos m in
      match
        fi_raw ← map_err IndexNotRead r;
        let fi_true := without_nul_padding fi_raw in
        entries ← map_err IndexNotParsed (parse_front_index (from_utf8_lossy fi_true));
        Ok (fi_true, entries)
      with
      | Err why => (Err why, m)
      | Ok (fi_true, entries) =>
          let '(located, m) := locate_and_judge_seal file0 fi_true fi_pos seal_pos m in
          (match verdict located with
           | LSealed seal =>
               Ok (mkSealedIndex entries (seal_sealed_at seal) (seal_front_index_sha256 seal) (located_ended_after located))
           | LUnsealed why => Err why
           | LRefused why => Err (SealRefusedFor why)
           end, m)
      end
  end.

(** ** What this catalog staged *)

Inductive Origin : Type := OriginStaged | OriginRebuilt.
#[export] Instance Origin_eq_dec : EqDecision Origin.
Proof. solve_decision. Defined.

(** The hash of each staged slice, the origin of each stage set, and the
    [catalog_rebuild] events by volume. *)
Record Staged : Type := mkStaged {
  slice_sha : gmap Z string;
  set_origin : gmap Z Origin;
  rebuilds : list (Z * string);
}.

Definition is_lost_write (v : Z) (c : Ledger) : result Refused bool :=
  r ← ok_or (volumes c !! v) (NoVolume v);
  Ok (bool_decide (volume_status r = VInitialized) && bool_decide (sealed_at r = None)
      && bool_decide (observed_condition r = CondOk)
      && existsb (λ kr : Z * WriteRow, is_on v kr.2) (map_to_list (writes c))
      && forallb (λ kr : Z * WriteRow, negb (is_on v kr.2) || bool_decide (write_status kr.2 ∈ terminal)) (map_to_list (writes c))).

Inductive Evidenced : Type :=
| NoRecordedRebuild
| NoCleanFullVerifyAfterRebuild (rebuilt_at : string).

(** Condition 2: [None] when it holds. *)
Definition recorded_evidence (v : Z) (st : Staged) (c : Ledger) : option Evidenced :=
  match latest (filter (λ e, e.1 = v) (rebuilds st)).*2 with
  | None => Some NoRecordedRebuild
  | Some rebuilt_at =>
      if existsb (λ x, bool_decide (verified_volume x = v) && bool_decide (vs_type x = "full"%string)
                        && bool_decide (vs_outcome x = "passed"%string)
                        && String.ltb rebuilt_at (vs_started_at x)) (map_to_list (verifications c)).*2
      then None else Some (NoCleanFullVerifyAfterRebuild rebuilt_at)
  end.

Inductive NotStagedWhy : Type :=
| EndingDiffers (recorded sealed : option Z)
| TwoSlicesAt (position : Z)
| NoHashAt (position : Z)
| NothingStagedAt (position : Z)
| RebuiltSetAt (position set : Z)
| HashDiffersAt (position : Z) (tape staged : string)
| NotListedAt (position : Z)
| NotOneRun (set : Z)
| SplitDiffers (set : Z) (recorded : WriteStatus) (held : Split)
| NotWhole (set : Z) (staged here : Z).

Definition is_planned_slice (e : ParsedIndexEntry) : bool :=
  match from_type_label (pe_type_label e) with Some (LayoutModel.Slice _) => true | _ => false end.
Definition planned_slices (es : list ParsedIndexEntry) : list (Z * option string) :=
  (λ e, (pe_position e, pe_sha256_encrypted e)) <$> filter (λ e, is_planned_slice e = true) es.

Definition on_tape_at (ended_after : option Z) (position : Z) : bool :=
  match ended_after with Some k => bool_decide (position ≤ k) | None => true end.

(** The join of a volume's positions with what staged them. *)
Definition staged_row (v : Z) (st : Staged) (c : Ledger) (kr : (Z * Z) * PositionRow) : option (Z * (string * Origin * Z)) :=
  w ← writes c !! kr.1.1;
  if is_on v w then
    sl ← stage_slices c !! kr.1.2;
    sha ← slice_sha st !! kr.1.2;
    o ← set_origin st !! slice_set_id sl;
    Some (row_position kr.2, (sha, o, slice_set_id sl))
  else None.
Definition staged_rows (v : Z) (st : Staged) (c : Ledger) : list (Z * (string * Origin * Z)) :=
  omap (staged_row v st c) (map_to_list (write_positions c)).

(** [BTreeMap::insert] of every row; an occupied position is an error. *)
Fixpoint by_position (rows : list (Z * (string * Origin * Z))) (catalog : gmap Z (string * Origin * Z))
    : result NotStagedWhy (gmap Z (string * Origin * Z)) :=
  match rows with
  | [] => Ok catalog
  | (p, x) :: rows =>
      match catalog !! p with
      | Some _ => Err (TwoSlicesAt p)
      | None => by_position rows (<[p := x]> catalog)
      end
  end.

Definition match_slice (catalog : gmap Z (string * Origin * Z)) (position : Z) (tape_sha : option string)
    : result NotStagedWhy () :=
  tape_sha ← ok_or tape_sha (NoHashAt position);
  '(staged_sha, origin, set) ← ok_or (catalog !! position) (NothingStagedAt position);
  guard_err (bool_decide (origin ≠ OriginStaged)) (RebuiltSetAt position set);;
  guard_err (bool_decide (staged_sha ≠ tape_sha)) (HashDiffersAt position tape_sha staged_sha).
Fixpoint match_slices (catalog : gmap Z (string * Origin * Z)) (planned : list (Z * option string)) (matched : Z)
    : result NotStagedWhy Z :=
  match planned with
  | [] => Ok matched
  | (position, tape_sha) :: planned =>
      match_slice catalog position tape_sha;; match_slices catalog planned (matched + 1)
  end.

(** The first position of the catalog the front index does not list. *)
Definition not_listed (planned : list (Z * option string)) (catalog : gmap Z (string * Origin * Z)) : option Z :=
  List.find (λ p, negb (bool_decide (p ∈ planned.*1))) (merge_sort Z.le (map_to_list catalog).*1).

Definition last_counted (es : list ParsedIndexEntry) (ended_after : option Z) : Z :=
  match ended_after with
  | Some k => k
  | None =>
      match List.find (λ e, bool_decide (from_type_label (pe_type_label e) = Some SealMarker)) es with
      | Some e => if bool_decide (0 ≤ pe_position e) then Z.max 0 (pe_position e - 1) else u32_max
      | None => u32_max
      end
  end.

(** The slices a write plans, by number, with their positions. *)
Definition by_number (a b : Z * Z) : Prop := a.1 ≤ b.1.
#[export] Instance by_number_dec : RelDecision by_number.
Proof. intros a b. unfold by_number. apply _. Defined.
Definition planned_run (w : Z) (c : Ledger) : list (Z * Z) :=
  merge_sort by_number
    (omap (λ kr : (Z * Z) * PositionRow, if bool_decide (kr.1.1 = w)
             then (λ sl, (slice_number sl, row_position kr.2)) <$> (stage_slices c !! kr.1.2) else None)
       (map_to_list (write_positions c))).
(** [windows(2)]: one unbroken run. *)
Fixpoint one_run (l : list (Z * Z)) : bool :=
  match l with
  | a :: (b :: _) as l' => bool_decide (b.1 = a.1 + 1) && bool_decide (b.2 = a.2 + 1) && one_run l'
  | _ => true
  end.

Definition span_matches (w set : Z) (status : WriteStatus) (through : Z) (c : Ledger) : result NotStagedWhy () :=
  guard_err (negb (one_run (planned_run w c))) (NotOneRun set);;
  let split := span_split w through c in
  guard_err (bool_decide (status ≠ status_of split)) (SplitDiffers set status split).

(** How many slices a set has, and a write's rows. *)
Definition staged_count (set : Z) (c : Ledger) : Z := Z.of_nat (length (slices_of set c)).
Definition here_count (w : Z) (c : Ledger) : Z :=
  Z.of_nat (length (filter (λ kr : (Z * Z) * PositionRow, kr.1.1 = w) (map_to_list (write_positions c)))).

Definition whole_or_cut (ended_after : option Z) (w : Z) (r : WriteRow) (c : Ledger) : result NotStagedWhy () :=
  let cut := match last_slice_position w c with Some last => negb (on_tape_at ended_after last) | None => false end in
  let set := stage_set_id r in
  match cut, write_status r with
  | true, WCut => Ok ()
  | true, s => Err (SplitDiffers set s SplitCut)
  | false, WCompleted =>
      guard_err (bool_decide (staged_count set c ≠ here_count w c)) (NotWhole set (staged_count set c) (here_count w c))
  | false, s => Err (SplitDiffers set s SplitCompleted)
  end.

Definition match_write (es : list ParsedIndexEntry) (ended_after : option Z) (c : Ledger) (w : Z) : result NotStagedWhy () :=
  match writes c !! w with
  | Some r =>
      if may_span r then span_matches w (stage_set_id r) (write_status r) (last_counted es ended_after) c
      else whole_or_cut ended_after w r c
  | None => Ok ()
  end.
Fixpoint match_writes (es : list ParsedIndexEntry) (ended_after : option Z) (c : Ledger) (ws : list Z) : result NotStagedWhy () :=
  match ws with
  | [] => Ok ()
  | w :: ws => match_write es ended_after c w;; match_writes es ended_after c ws
  end.

Definition all_statuses : list WriteStatus :=
  [WPlanned; WInProgress; WCompleted; WFailed; WAborted; WInterrupted; WCut; WRange].

(** Condition 3. *)
Definition staged_match (v : Z) (st : Staged) (es : list ParsedIndexEntry) (ended_after : option Z) (c : Ledger)
    : result NotStagedWhy Z :=
  let recorded := r ← volumes c !! v; volume_ended_after r in
  guard_err (bool_decide (recorded ≠ ended_after)) (EndingDiffers recorded ended_after);;
  catalog ← by_position (staged_rows v st c) ∅;
  let planned := planned_slices es in
  matched ← match_slices catalog (filter (λ x, on_tape_at ended_after x.1 = true) planned) 0;
  match not_listed planned catalog with Some p => Err (NotListedAt p) | None => Ok () end;;
  match_writes es ended_after c (ids_in v all_statuses c);;
  Ok matched.

(** ** The adoption *)

Inductive LostAdoption : Type :=
| Adopted (slices : Z)
| IdentityUnread (e : option failure)
| IdentityUnparsed (e : FormatError)
| IdentityMismatch (found : IdThunkIdentity)
| UnreadableFile0 (why : FormatError)
| LostNotSealed (why : NotSealedWhy)
| LostUnproven (why : Evidenced)
| NotWhatThisCatalogStaged (why : NotStagedWhy).

Inductive AdoptError : Type :=
| AdoptRefused (e : Refused)
| NotALostWrite
| VolumeChanged.

(** The versions a sealed volume's rows make whole. *)
Definition adopted_snapshots (v : Z) (c : Ledger) : list Z :=
  snapshot_id <$> filter (λ r, is_on v r = true ∧
    (write_status r = WCompleted ∨ write_status r = WRange ∧ every_slice_on_sealed_volume (stage_set_id r) (Some v) c = true))
    (map_to_list (writes c)).*2.

(** One transaction. [sealed_at]: the seal's own time in the catalog's form,
    or now. The figures and the event it records decide nothing. *)
Definition record_adoption (v : Z) (at_ : string) (ended_after : option Z) (c : Ledger) : result AdoptError Ledger :=
  match volumes c !! v with
  | Some r =>
      if bool_decide (volume_status r = VInitialized) && bool_decide (sealed_at r = None) then
        let c := set_volume v (λ r, mkVolumeRow VSealed (observed_condition r) (Some at_) ended_after) c in
        Ok (fold_left (λ c n, promote n c) (adopted_snapshots v c) c)
      else Err VolumeChanged
  | None => Err VolumeChanged
  end.

(** [uuid]: the catalog's, empty when it has none; [meanwhile]: what other
    processes do to the catalog before the adoption's transaction. *)
Definition adopt (v : Z) (uuid : string) (catalog_timestamp : string → option string) (now : string) (st : Staged)
    (meanwhile : Ledger → Ledger) (m : medium) (c : Ledger) : result AdoptError LostAdoption * Ledger * medium :=
  match is_lost_write v c with
  | Err e => (Err (AdoptRefused e), c, m)
  | Ok false => (Err NotALostWrite, c, m)
  | Ok true =>
      let '(r, m) := read_small_bytes 0 m in
      match r with
      | Err e => (Ok (IdentityUnread e), c, m)
      | Ok bytes =>
          let file0 := from_utf8_lossy bytes in
          match parse_id_thunk_identity file0 with
          | Err e => (Ok (IdentityUnparsed e), c, m)
          | Ok identity =>
              if bool_decide (id_uuid identity ≠ uuid) then (Ok (IdentityMismatch identity), c, m)
              else
                match check_id_thunk_readable file0 with
                | Err e => (Ok (UnreadableFile0 e), c, m)
                | Ok _ =>
                    let '(tape, m) := sealed_front_index file0 m in
                    match tape with
                    | Err why => (Ok (LostNotSealed why), c, m)
                    | Ok tape =>
                        match recorded_evidence v st c with
                        | Some why => (Ok (LostUnproven why), c, m)
                        | None =>
                            match staged_match v st (si_entries tape) (si_ended_after tape) c with
                            | Err why => (Ok (NotWhatThisCatalogStaged why), c, m)
                            | Ok slices =>
                                let c := meanwhile c in
                                match record_adoption v (default now (catalog_timestamp (si_sealed_at tape))) (si_ended_after tape) c with
                                | Ok c => (Ok (Adopted slices), c, m)
                                | Err e => (Err e, c, m)
                                end
                            end
                        end
                    end
                end
          end
      end
  end.
End adopt.
