(* ===== verification/AdoptSound.v ===== *)
(** * What an adopted write holds

    A write the catalog lost is adopted on proof: the tape named by File 0 is
    the volume's, its seal lies where the format puts one and binds the front
    index in hand, a full verify passed after the rebuild, and each slice the
    catalog counts is listed there, at its position, with the hash this
    catalog staged. A refusal changes nothing. *)

From S2P Require Import Prelude LayoutModel Format Session Confirm ConfirmSpec Ledger LedgerSound LedgerPlan CopyClaim AdoptLost.
Local Open Scope Z_scope.
Local Open Scope rust_scope.

(** ** What the parsers say of no bytes *)

Lemma no_identity `{!TomlCrate} i : parse_id_thunk_identity (from_utf8_lossy []) ≠ Ok i.
Proof. done. Qed.
Lemma no_front_index `{!TomlCrate} es : parse_front_index (from_utf8_lossy (without_nul_padding [])) ≠ Ok es.
Proof. done. Qed.
Lemma no_seal `{!TomlCrate} s : parse_seal_marker (from_utf8_lossy []) ≠ Ok s.
Proof. done. Qed.

Lemma pointer_ok `{!Readable} p q : pointer p = Ok q → 0 ≤ p ∧ q = p.
Proof. unfold pointer. case_bool_decide; [done|]. cbn. intros [= <-]. lia. Qed.

Section sealed.
Context `{!Digest, !TomlCrate, !Readable}.
Variables (files : list (list Z)) (Inv : medium → Prop).

(** The seal of a planned position: where the format puts it, readable, and
    binding File 3; an early end is the tape's own and the seal's. *)
Definition seal_binds (file0 : string) (front_index : list Z) (planned : Z) (ended_after : option Z) (seal : ParsedSeal) : Prop :=
  ∃ p raw, seal_place files planned p ∧ files !! Z.to_nat p = Some raw ∧
    parse_seal_marker (from_utf8_lossy raw) = Ok seal ∧ seal_refusal seal = None ∧
    seal_front_index_sha256 seal = sha256_hex front_index ∧
    match ended_after with
    | None => planned ≤ p ∧ seal_file_count seal = planned + 1
    | Some k => p < planned ∧ k + 1 = p ∧ seal_file_count seal = p + 1 ∧ requires_short_seal seal = true ∧
        tape_requires_short_seal file0 seal = true
    end.

Lemma judge_sealed raw fi fp sp seal : judge_seal (Ok raw) fi fp sp = Format.Sealed seal →
  parse_seal_marker (from_utf8_lossy raw) = Ok seal ∧ seal_refusal seal = None ∧
  seal_front_index_sha256 seal = sha256_hex fi.
Proof.
  unfold judge_seal. destruct (parse_seal_marker (from_utf8_lossy raw)) as [s|e]; [|done].
  destruct (seal_refusal s) eqn:Hr; [done|]. case_bool_decide as Hh; [done|]. intros [= <-].
  done.
Qed.

Lemma classify_full s n : classify_seal_ending s n = Format.Full → seal_file_count s = n.
Proof.
  unfold classify_seal_ending. destruct (try_u64 (seal_file_count s)) as [c|] eqn:Hc; [|done].
  apply try_u64_Some in Hc as [<- _]. destruct (Z.compare_spec (seal_file_count s) n); [done| |done]. by case_match.
Qed.

Lemma accept_sealed file0 planned p seal located s : accept_seal file0 planned p seal = located →
  verdict located = LSealed s → s = seal ∧
  match located_ended_after located with
  | None => planned ≤ p ∧ seal_file_count seal = planned + 1
  | Some k => p < planned ∧ k + 1 = p ∧ seal_file_count seal = p + 1 ∧ requires_short_seal seal = true ∧
      tape_requires_short_seal file0 seal = true
  end.
Proof.
  unfold accept_seal. intros <-. case_bool_decide as Hp.
  { destruct (classify_seal_ending seal (planned + 1)) eqn:Hc; try done. intros [= <-]. by apply classify_full in Hc. }
  destruct (tape_requires_short_seal file0 seal); [|done]. cbn. destruct (requires_short_seal seal); [|done]. cbn.
  case_bool_decide as Hn; [done|].
  destruct (classify_seal_ending seal (planned + 1)) as [|k|]; try done.
  destruct (bool_decide (k ≤ u32_max) && bool_decide (k + 1 = p)) eqn:Hk; [|done]. intros [= <-].
  apply andb_true_iff in Hk as [_ Hk%bool_decide_eq_true]. cbn. repeat split; lia.
Qed.

Hypothesis Ht : truthful files Inv.

Lemma located_sealed file0 fi fp planned m located m' s : Inv m → 0 ≤ planned →
  locate_and_judge_seal file0 fi fp planned m = (located, m') → verdict located = LSealed s →
  seal_binds file0 fi planned (located_ended_after located) s.
Proof.
  intros Hi Hp. unfold locate_and_judge_seal. destruct (locate_seal planned m) as [loc m1] eqn:Hl.
  apply (locate_seal_found files Inv) in Hl; [|done..].
  destruct loc as [p raw|p| |p e|p o w]; try by intros [= <- _].
  destruct (judge_seal (Ok raw) fi fp p) as [seal|why|why] eqn:Hj; try by intros [= <- _].
  apply judge_sealed in Hj as (Hparse & Hr & Hb). intros [Ha _]%pair_equal_spec Hv.
  destruct (accept_sealed _ _ _ _ _ _ Ha Hv) as [-> Hend]. destruct Hl as [Hpl [Hf|(_ & -> & _)]].
  - by exists p, raw.
  - by apply no_seal in Hparse.
Qed.

Lemma read_small_bytes_true m p l m' : Inv m → 0 ≤ p → read_small_bytes p m = (Ok l, m') →
  Inv m' ∧ (files !! Z.to_nat p = Some l ∨ l = []).
Proof.
  intros Hi Hp. unfold read_small_bytes. destruct (read_small p m) as [r m1] eqn:Hr.
  apply (read_small_true files Inv) in Hr as [Hi1 Hr]; [|done..].
  destruct r as [[b|]|e]; intros [= <- <-]. naive_solver.
Qed.

(** A sealed front index: File 0's pointers, File 3 where they say, and the
    seal that binds its bytes. *)
Definition sealed_index (file0 : string) (tape : SealedIndex) : Prop :=
  ∃ pointers raw seal, parse_id_thunk_layout_pointers file0 = Ok pointers ∧
    0 ≤ ptr_front_index pointers ∧ 0 ≤ ptr_seal_marker pointers ∧
    files !! Z.to_nat (ptr_front_index pointers) = Some raw ∧
    parse_front_index (from_utf8_lossy (without_nul_padding raw)) = Ok (si_entries tape) ∧
    si_sealed_at tape = seal_sealed_at seal ∧
    seal_binds file0 (without_nul_padding raw) (ptr_seal_marker pointers) (si_ended_after tape) seal.

Lemma sealed_front_index_true file0 m tape m' : Inv m → sealed_front_index file0 m = (Ok tape, m') → sealed_index file0 tape.
Proof.
  intros Hi. unfold sealed_front_index.
  destruct (parse_id_thunk_layout_pointers file0) as [ptr|e] eqn:Hptr; [|done]. cbn.
  destruct (pointer (ptr_front_index ptr)) as [fp|] eqn:Hf; [|done]. cbn. apply pointer_ok in Hf as [Hf ->].
  destruct (pointer (ptr_seal_marker ptr)) as [sp|] eqn:Hs; [|done]. cbn. apply pointer_ok in Hs as [Hs ->].
  destruct (read_small_bytes (ptr_front_index ptr) m) as [[raw|e] m1] eqn:Hr; [|done]. cbn.
  apply read_small_bytes_true in Hr as [Hi1 Hr]; [|done|lia].
  destruct (parse_front_index (from_utf8_lossy (without_nul_padding raw))) as [es|e] eqn:Hes; [|done]. cbn.
  destruct (locate_and_judge_seal file0 (without_nul_padding raw) (ptr_front_index ptr) (ptr_seal_marker ptr) m1)
    as [located m2] eqn:Hl.
  destruct (verdict located) as [seal|why|why] eqn:Hv; try done. intros [= <- _].
  apply (located_sealed _ _ _ _ _ _ _ seal) in Hl; [|done|lia|done].
  destruct Hr as [Hr| ->]; [|by apply no_front_index in Hes]. exists ptr, raw, seal. repeat (split; [done || lia|]). done.
Qed.
End sealed.

(** ** What this catalog staged *)

Section staged.
Variables (v : Z) (st : Staged) (es : list ParsedIndexEntry) (ended_after : option Z) (c : Ledger).

(** The schema's joins: a write's rows are slices of its set, and a slice has
    a hash and a set. *)
Definition own_rows : Prop := ∀ w s row r, write_positions c !! (w, s) = Some row → writes c !! w = Some r →
  ∃ k, stage_slices c !! s = Some (mkStageSlice (stage_set_id r) k).
Definition staged_known : Prop := ∀ s sl, stage_slices c !! s = Some sl →
  is_Some (slice_sha st !! s) ∧ is_Some (set_origin st !! slice_set_id sl).

(** A slice's row is listed by File 3 as a slice the tape holds, with the
    hash this catalog staged it with. *)
Definition listed_as_staged (s : Z) (row : PositionRow) (set : Z) : Prop :=
  ∃ e sha, e ∈ es ∧ is_planned_slice e = true ∧ pe_position e = row_position row ∧
    pe_sha256_encrypted e = Some sha ∧ slice_sha st !! s = Some sha ∧ set_origin st !! set = Some OriginStaged.

(** What a row of [writes] says of its set, the tape bears out. *)
Definition borne_out (w : Z) (r : WriteRow) : Prop :=
  if may_span r then write_status r = status_of (span_split w (last_counted es ended_after) c)
  else write_status r = WCompleted ∧
         (∀ s k, stage_slices c !! s = Some (mkStageSlice (stage_set_id r) k) → ∃ row, write_positions c !! (w, s) = Some row ∧
            on_tape_at ended_after (row_position row) = true)
    ∨ write_status r = WCut ∧ ∃ s row, write_positions c !! (w, s) = Some row ∧ on_tape_at ended_after (row_position row) = false.

Lemma by_position_ok rows : ∀ catalog catalog', by_position rows catalog = Ok catalog' →
  (∀ p x, catalog !! p = Some x → catalog' !! p = Some x) ∧ ∀ p x, (p, x) ∈ rows → catalog' !! p = Some x.
Proof.
  induction rows as [|[p x] rows IH]; intros catalog catalog'; cbn.
  { intros [= <-]. split; [done|]. by intros ?? ?%not_elem_of_nil. }
  destruct (catalog !! p) eqn:Hp; [done|]. intros [Hk Hr]%IH. split.
  - intros q y Hq. apply Hk. rewrite lookup_insert_ne; [done|]. congruence.
  - intros q y [[= -> ->]|Hin]%elem_of_cons; [|by apply Hr]. apply Hk, lookup_insert_eq.
Qed.

Lemma match_slices_ok catalog planned : ∀ n k, match_slices catalog planned n = Ok k →
  k = n + Z.of_nat (length planned) ∧ ∀ p sha, (p, sha) ∈ planned → match_slice catalog p sha = Ok ().
Proof.
  induction planned as [|[p sha] planned IH]; intros n k; cbn.
  { intros [= <-]. split; [lia|]. by intros ?? ?%not_elem_of_nil. }
  intros ([] & Hm & [-> Hr]%IH)%bind_ok. split; [lia|].
  intros q y [[= -> ->]|Hin]%elem_of_cons; [done|by apply Hr].
Qed.

Lemma match_writes_ok ws : match_writes es ended_after c ws = Ok () → ∀ w, w ∈ ws → match_write es ended_after c w = Ok ().
Proof.
  induction ws as [|w ws IH]; cbn; [by intros _ ? ?%not_elem_of_nil|].
  intros ([] & Hm & Hr)%bind_ok w' [->|Hin]%elem_of_cons; [done|by apply IH].
Qed.

Lemma match_slice_ok catalog p sha : match_slice catalog p sha = Ok () →
  ∃ h set, sha = Some h ∧ catalog !! p = Some (h, OriginStaged, set).
Proof.
  unfold match_slice. intros (h & Hs%ok_or_ok & ([[h' o] set] & Hc%ok_or_ok & ([] & Ho & Hh)%bind_ok)%bind_ok)%bind_ok.
  apply guard_err_ok, bool_decide_eq_false, dec_stable in Ho as ->.
  apply guard_err_ok, bool_decide_eq_false, dec_stable in Hh as ->. by exists h, set.
Qed.

Lemma not_listed_none planned catalog p x : not_listed planned catalog = None → catalog !! p = Some x → p ∈ planned.*1.
Proof.
  unfold not_listed. intros Hn Hp. assert (p ∈ merge_sort Z.le (map_to_list catalog).*1) as Hin.
  { rewrite merge_sort_Permutation. apply list_elem_of_fmap. exists (p, x). split; [done|]. by apply elem_of_map_to_list. }
  apply list_elem_of_In in Hin. apply (List.find_none _ _ Hn) in Hin.
  by apply negb_false_iff, bool_decide_eq_true in Hin.
Qed.

Lemma planned_slices_elem p sha : (p, sha) ∈ planned_slices es ↔
  ∃ e, e ∈ es ∧ is_planned_slice e = true ∧ pe_position e = p ∧ pe_sha256_encrypted e = sha.
Proof.
  unfold planned_slices. rewrite list_elem_of_fmap. split.
  - intros (e & [= -> ->] & [Hs Hin]%list_elem_of_filter). eauto 6.
  - intros (e & Hin & Hs & <- & <-). exists e. split; [done|]. by apply list_elem_of_filter.
Qed.

(** A write with as many rows as its set has slices has a row for each. *)
Lemma whole_rows w r : own_rows → writes c !! w = Some r → staged_count (stage_set_id r) c = here_count w c →
  ∀ s k, stage_slices c !! s = Some (mkStageSlice (stage_set_id r) k) → is_Some (write_positions c !! (w, s)).
Proof.
  intros Ho Hr Hn s k Hs. unfold staged_count, here_count in Hn.
  set (rows := filter (λ kr : (Z * Z) * PositionRow, kr.1.1 = w) (map_to_list (write_positions c))) in Hn.
  assert (∀ kr, kr ∈ rows → kr.1.1 = w ∧ write_positions c !! (w, kr.1.2) = Some kr.2) as Hrows.
  { intros [[w' t] x] [Hw Hin]%list_elem_of_filter. cbn in *. subst w'. by apply elem_of_map_to_list in Hin. }
  assert (NoDup ((λ kr : (Z * Z) * PositionRow, kr.1.2) <$> rows)) as Hnd.
  { apply NoDup_fmap_2_strong; [|by apply NoDup_filter, NoDup_map_to_list].
    intros [[w1 t1] x1] [[w2 t2] x2] Ha Hb [= ->]. apply Hrows in Ha as [[= ->] Ha], Hb as [[= ->] Hb]. cbn in *. congruence. }
  assert ((λ kr : (Z * Z) * PositionRow, kr.1.2) <$> rows ≡ₚ (slices_of (stage_set_id r) c).*1) as Hperm.
  { apply submseteq_length_Permutation; [|rewrite !length_fmap; lia]. apply NoDup_submseteq; [done|].
    intros t (kr & -> & [Hw Hin]%Hrows)%list_elem_of_fmap. destruct (Ho _ _ _ _ Hin Hr) as [j Hj].
    apply list_elem_of_fmap. exists (kr.1.2, j). split; [done|]. by apply elem_of_slices. }
  assert (s ∈ (λ kr : (Z * Z) * PositionRow, kr.1.2) <$> rows) as (kr & -> & [_ Hin]%Hrows)%list_elem_of_fmap; [|by rewrite Hin].
  rewrite Hperm. apply list_elem_of_fmap. exists (s, k). split; [done|]. by apply elem_of_slices.
Qed.

Lemma staged_row_elem w r s row sl : staged_known → writes c !! w = Some r → volume_id r = v →
  write_positions c !! (w, s) = Some row → stage_slices c !! s = Some sl →
  ∃ sha o, slice_sha st !! s = Some sha ∧ set_origin st !! slice_set_id sl = Some o ∧
    (row_position row, (sha, o, slice_set_id sl)) ∈ staged_rows v st c.
Proof.
  intros Hk Hr Hv Hrow Hs. destruct (Hk _ _ Hs) as [[sha Hsha] [o Ho]]. exists sha, o. split; [done|]. split; [done|].
  apply list_elem_of_omap. exists ((w, s), row). split; [by apply elem_of_map_to_list|].
  unfold staged_row, is_on. cbn. rewrite Hr. cbn. rewrite bool_decide_eq_true_2 by done. rewrite Hs. cbn. rewrite Hsha. cbn. by rewrite Ho.
Qed.

(** ** Condition 3 met *)

Lemma staged_match_parts n : staged_match v st es ended_after c = Ok n →
  (r ← volumes c !! v; volume_ended_after r) = ended_after ∧
  (∀ w r, writes c !! w = Some r → volume_id r = v → match_write es ended_after c w = Ok ()) ∧
  ∃ catalog, by_position (staged_rows v st c) ∅ = Ok catalog ∧
    not_listed (planned_slices es) catalog = None ∧
    n = Z.of_nat (length (filter (λ x, on_tape_at ended_after x.1 = true) (planned_slices es))) ∧
    ∀ p sha, (p, sha) ∈ planned_slices es → on_tape_at ended_after p = true → match_slice catalog p sha = Ok ().
Proof.
  unfold staged_match. intros ([] & Hend%guard_err_ok & Hm)%bind_ok. apply bool_decide_eq_false, dec_stable in Hend.
  apply bind_ok in Hm as (catalog & Hcat & (matched & [-> Hmatch]%match_slices_ok & ([] & Hl & ([] & Hw & [= <-])%bind_ok)%bind_ok)%bind_ok).
  split; [done|]. split.
  - intros w r Hr Hv. apply (match_writes_ok _ Hw), elem_of_ids_in. exists r. split; [done|]. split; [done|].
    destruct (write_status r); unfold all_statuses; set_solver.
  - exists catalog. split; [done|]. split; [by destruct (not_listed _ catalog)|]. split; [lia|]. intros p sha Hin Hon.
    by apply Hmatch, list_elem_of_filter.
Qed.

Lemma staged_match_listed n w r s row : staged_match v st es ended_after c = Ok n → staged_known → own_rows →
  writes c !! w = Some r → volume_id r = v → write_positions c !! (w, s) = Some row →
  on_tape_at ended_after (row_position row) = true → listed_as_staged s row (stage_set_id r).
Proof.
  intros (_ & _ & catalog & [_ Hrows]%by_position_ok & Hlisted & _ & Hm)%staged_match_parts Hk Ho Hr Hv Hrow Hon.
  destruct (Ho _ _ _ _ Hrow Hr) as [k Hs].
  destruct (staged_row_elem _ _ _ _ _ Hk Hr Hv Hrow Hs) as (sha & o & Hsha & Horigin & Hin%Hrows). cbn in Hin, Horigin.
  pose proof (not_listed_none _ _ _ _ Hlisted Hin) as ([p h] & Heq' & Hplan)%list_elem_of_fmap.
  cbn in Heq'. subst p. destruct (match_slice_ok _ _ _ (Hm _ _ Hplan Hon)) as (h' & set & -> & Heq). cbn in Hin. rewrite Hin in Heq. simplify_eq.
  apply planned_slices_elem in Hplan as (e & He & Hslice & Hp & Hh). by exists e, h'.
Qed.

Lemma match_write_borne w r : own_rows → writes c !! w = Some r → match_write es ended_after c w = Ok () → borne_out w r.
Proof.
  intros Ho Hr. unfold match_write, borne_out. rewrite Hr. destruct (may_span r).
  - unfold span_matches. intros ([] & _ & Hs%guard_err_ok)%bind_ok. by apply bool_decide_eq_false, dec_stable in Hs.
  - unfold whole_or_cut. set (cut := match last_slice_position w c with Some last => _ | None => _ end).
    destruct cut eqn:Hcut.
    + destruct (write_status r) eqn:Hs; try done. intros _. right. split; [done|]. unfold cut in Hcut.
      destruct (last_slice_position w c) as [last|] eqn:Hl; [|done].
      unfold last_slice_position in Hl. apply maxZ_elem in Hl as [(s & row & Hrow & ->)%elem_of_positions _].
      exists s, row. split; [done|]. by apply negb_true_iff in Hcut.
    + destruct (write_status r) eqn:Hs; try done. intros Hn%guard_err_ok. apply bool_decide_eq_false, dec_stable in Hn.
      left. split; [done|]. intros s k Hsl. destruct (whole_rows _ _ Ho Hr Hn _ _ Hsl) as [row Hrow]. exists row. split; [done|].
      destruct (last_slice_some _ _ _ _ Hrow) as [last Hl]. pose proof (last_slice_bound _ _ _ _ _ Hl Hrow) as Hle.
      unfold cut in Hcut. rewrite Hl in Hcut. apply negb_false_iff in Hcut. unfold on_tape_at in *.
      destruct ended_after as [K|]; [|done]. apply bool_decide_eq_true in Hcut. apply bool_decide_eq_true. lia.
Qed.

(** A slice the catalog counts on the volume: of a completed write, or of a
    range, written at or before the ending. *)
Definition counts_here (w s : Z) (r : WriteRow) : Prop :=
  writes c !! w = Some r ∧ volume_id r = v ∧ (∃ k, stage_slices c !! s = Some (mkStageSlice (stage_set_id r) k)) ∧
  (write_status r = WCompleted ∨ write_status r = WRange ∧ slot_written (on_tape_at ended_after) w s c = true).

Lemma counted_listed n w s r : staged_match v st es ended_after c = Ok n → staged_known → own_rows → counts_here w s r →
  ∃ row, write_positions c !! (w, s) = Some row ∧ on_tape_at ended_after (row_position row) = true ∧
    listed_as_staged s row (stage_set_id r).
Proof.
  intros Hm Hk Ho (Hr & Hv & (k & Hs) & Hst).
  assert (∃ row, write_positions c !! (w, s) = Some row ∧ on_tape_at ended_after (row_position row) = true) as (row & Hrow & Hon).
  { pose proof (match_write_borne _ _ Ho Hr (proj1 (proj2 (staged_match_parts _ Hm)) _ _ Hr Hv)) as Hb. unfold borne_out in Hb.
    destruct Hst as [Hc|[Hrange Hw]].
    - destruct (may_span r).
      + rewrite Hc in Hb. destruct (span_split w (last_counted es ended_after) c) eqn:Hsp; try done.
        destruct (span_split_holds _ _ _ _ _ _ Hr Hsp Hs) as (row & Hrow & _ & Hle). exists row. split; [done|].
        unfold on_tape_at. destruct ended_after; [|done]. by apply bool_decide_eq_true.
      + destruct Hb as [[_ Hb]|[? _]]; [by eapply Hb|congruence].
    - unfold slot_written in Hw. destruct (write_positions c !! (w, s)) as [row|] eqn:Hrow; [|done].
      apply andb_true_iff in Hw as [_ Hw]. by exists row. }
  exists row. split; [done|]. split; [done|]. by eapply staged_match_listed.
Qed.
End staged.

(** ** The adoption *)

Section adopted.
Context `{!Digest, !TomlCrate, !Readable}.
Variables (files : list (list Z)) (Inv : medium → Prop).

(** A volume as a rebuild leaves a write the catalog lost. *)
Definition lost_write (v : Z) (ended_after : option Z) (c : Ledger) : Prop :=
  (∃ r, volumes c !! v = Some r ∧ volume_status r = VInitialized ∧ sealed_at r = None ∧
     observed_condition r = CondOk ∧ volume_ended_after r = ended_after) ∧
  (∃ w r, writes c !! w = Some r ∧ volume_id r = v) ∧
  ∀ w r, writes c !! w = Some r → volume_id r = v → write_status r ∈ terminal.

(** A full verify passed, started after every recorded rebuild. *)
Definition verified_since_rebuild (v : Z) (st : Staged) (c : Ledger) : Prop :=
  ∃ at_ id x, latest (filter (λ e, e.1 = v) (rebuilds st)).*2 = Some at_ ∧ verifications c !! id = Some x ∧
    verified_volume x = v ∧ vs_type x = "full"%string ∧ vs_outcome x = "passed"%string ∧
    String.ltb at_ (vs_started_at x) = true.

(** The catalog before and after: the volume sealed, and each version it
    promotes whole on sealed volumes. *)
Definition sealed_as (v : Z) (ended_after : option Z) (c c' : Ledger) : Prop :=
  (∃ r at_, volumes c !! v = Some r ∧ volume_status r = VInitialized ∧ sealed_at r = None ∧
     volumes c' = <[v := mkVolumeRow VSealed (observed_condition r) (Some at_) ended_after]> (volumes c)) ∧
  writes c' = writes c ∧ write_positions c' = write_positions c ∧ stage_slices c' = stage_slices c ∧
  aborts c' = aborts c ∧ verifications c' = verifications c ∧ results c' = results c ∧
  ∀ n, snapshots c' !! n = snapshots c !! n ∨
    snapshots c' !! n = Some SnapCurrent ∧
    (snapshots c !! n = Some SnapCreated ∨ snapshots c !! n = Some SnapStaged) ∧
    ∃ w r, writes c !! w = Some r ∧ volume_id r = v ∧ snapshot_id r = n ∧
      (write_status r = WCompleted ∨
       write_status r = WRange ∧ every_slice_on_sealed_volume (stage_set_id r) None c' = true).

Lemma alter_lookup_Some {A} (f : A → A) (m : gmap Z A) i x : m !! i = Some x → alter f i m = <[i := f x]> m.
Proof.
  intros Hi. apply map_eq. intros j. destruct (decide (i = j)) as [<-|Hne].
  - by rewrite lookup_alter_eq, lookup_insert_eq, Hi.
  - by rewrite lookup_alter_ne, lookup_insert_ne.
Qed.

Lemma is_lost_write_true v c : is_lost_write v c = Ok true →
  ∃ k, lost_write v k c ∧ k = (r ← volumes c !! v; volume_ended_after r).
Proof.
  unfold is_lost_write. intros (r & Hr%ok_or_ok & Hl)%bind_ok. injection Hl as Hl. rewrite Hr. cbn.
  rewrite !andb_true_iff, !bool_decide_eq_true in Hl. destruct Hl as [[[[Hs Hsealed] Hc] Hex] Hall].
  exists (volume_ended_after r). split; [|done]. split; [by exists r|]. split.
  - apply existsb_exists in Hex as ([w x] & Hin & Hv). apply list_elem_of_In, elem_of_map_to_list in Hin.
    apply bool_decide_eq_true in Hv. by exists w, x.
  - intros w x Hw Hv. rewrite forallb_forall in Hall. specialize (Hall (w, x)).
    rewrite <- list_elem_of_In, elem_of_map_to_list in Hall. specialize (Hall Hw). unfold is_on in Hall. cbn in Hall.
    rewrite bool_decide_eq_true_2 in Hall by done. by apply bool_decide_eq_true in Hall.
Qed.

Lemma recorded_evidence_none v st c : recorded_evidence v st c = None → verified_since_rebuild v st c.
Proof.
  unfold recorded_evidence. destruct (latest _) as [t|] eqn:Ht; [|done].
  destruct (existsb _ _) eqn:Hex; [|done]. intros _. apply existsb_exists in Hex as (x & Hin & Hx).
  apply list_elem_of_In, list_elem_of_fmap in Hin as ([id y] & -> & Hin%elem_of_map_to_list).
  rewrite !andb_true_iff, !bool_decide_eq_true in Hx. destruct Hx as [[[Hv Hty] Ho] Hlt]. by exists t, id, y.
Qed.

Lemma record_adoption_ok v at_ k c c' : record_adoption v at_ k c = Ok c' → sealed_as v k c c'.
Proof.
  unfold record_adoption. destruct (volumes c !! v) as [r|] eqn:Hr; [|done].
  destruct (bool_decide (volume_status r = VInitialized) && bool_decide (sealed_at r = None)) eqn:Hg; [|done].
  apply andb_true_iff in Hg as [Hs%bool_decide_eq_true Hn%bool_decide_eq_true]. intros [= <-].
  set (c1 := set_volume v _ c). set (row := mkVolumeRow VSealed (observed_condition r) (Some at_) k).
  assert (volumes c1 = <[v := row]> (volumes c)) as Hv1.
  { unfold c1, set_volume. cbn. by rewrite (alter_lookup_Some _ _ _ _ Hr). }
  destruct (promote_all_rest (adopted_snapshots v c1) c1) as (Hw & Hp & Hsl & Hv & Ha & Hver & Hres).
  set (c' := fold_left _ _ c1) in *. split; [exists r, at_; by rewrite Hv|]. do 6 (split; [done|]). intros n.
  unfold c' at 1 2. rewrite promote_all_lookup. change (snapshots c1) with (snapshots c).
  case_bool_decide as Hin; [|left; by rewrite option_fmap_id].
  destruct (snapshots c !! n) as [s|] eqn:Hsn; [|by left]. cbn. case_bool_decide as Hst; [|by left]. right.
  split; [done|]. split; [revert Hst; clear; set_solver|].
  unfold adopted_snapshots in Hin. apply list_elem_of_fmap in Hin as (x & -> & [[Hon Hstat] Hx]%list_elem_of_filter).
  apply list_elem_of_fmap in Hx as ([w y] & -> & Hx%elem_of_map_to_list). apply bool_decide_eq_true in Hon.
  exists w, y. cbn in *. split; [done|]. split; [done|]. split; [done|]. destruct Hstat as [?|[? He]]; [by left|right]. split; [done|].
  apply (every_slice_sealed _ v c1 c' row); try done. rewrite Hv, Hv1. rewrite (Hv1 : volumes c1 = _). by rewrite insert_insert_eq.
Qed.

(** Why a write was adopted: the tape, the evidence, and the slices. *)
Record adopted_on (v : Z) (uuid : string) (st : Staged) (c : Ledger) (slices : Z) (tape : SealedIndex) : Prop := {
  ao_tape : ∃ raw0 identity, files !! 0%nat = Some raw0 ∧
    parse_id_thunk_identity (from_utf8_lossy raw0) = Ok identity ∧ id_uuid identity = uuid ∧
    check_id_thunk_readable (from_utf8_lossy raw0) = Ok () ∧ sealed_index files (from_utf8_lossy raw0) tape;
  ao_lost : lost_write v (si_ended_after tape) c;
  ao_verified : verified_since_rebuild v st c;
  ao_slices : slices = Z.of_nat (length (filter (λ x, on_tape_at (si_ended_after tape) x.1 = true) (planned_slices (si_entries tape))));
  ao_writes w r : writes c !! w = Some r → volume_id r = v → borne_out (si_entries tape) (si_ended_after tape) c w r;
  ao_counted w s r : counts_here v (si_ended_after tape) c w s r → ∃ row, write_positions c !! (w, s) = Some row ∧
    on_tape_at (si_ended_after tape) (row_position row) = true ∧
    listed_as_staged st (si_entries tape) s row (stage_set_id r);
}.

Lemma staged_adopted v uuid st c tape n raw0 identity :
  staged_known st c → own_rows c → is_lost_write v c = Ok true →
  files !! 0%nat = Some raw0 → parse_id_thunk_identity (from_utf8_lossy raw0) = Ok identity → id_uuid identity = uuid →
  check_id_thunk_readable (from_utf8_lossy raw0) = Ok () → sealed_index files (from_utf8_lossy raw0) tape →
  recorded_evidence v st c = None → staged_match v st (si_entries tape) (si_ended_after tape) c = Ok n →
  adopted_on v uuid st c n tape.
Proof.
  intros Hk Ho (k & Hl & Hend)%is_lost_write_true Hf Hi Hu Hread Hs Hev%recorded_evidence_none Hm.
  destruct (staged_match_parts _ _ _ _ _ _ Hm) as (Hrec & Hw & _ & _ & _ & Hn & _). split.
  - by exists raw0, identity.
  - by rewrite <- Hrec, <- Hend.
  - done.
  - done.
  - intros w r Hr Hv. eapply match_write_borne; eauto.
  - intros w s r Hc. by eapply counted_listed.
Qed.

(** C4: a write the catalog lost is adopted on proof, and a refusal changes
    nothing. When [volume resume] adopts, on a medium whose answers are true,
    the tape's File 0 names the volume's uuid and is one this reader may read;
    the seal lies where the format puts one, binds the File 3 that was read,
    and says early end only where the tape does; a full verify passed that
    started after every rebuild; every row of [writes] says of its set what
    the tape bears out; and each slice those rows count is listed by File 3,
    at its own position, with the hash this catalog staged it with. The
    catalog then differs in the volume, sealed, and in versions that are whole
    on sealed volumes, promoted. *)
Theorem adoption_proved v uuid catalog_timestamp now st meanwhile m c r c' m' :
  truthful files Inv → Inv m → staged_known st c → own_rows c →
  adopt v uuid catalog_timestamp now st meanwhile m c = (r, c', m') →
  match r with
  | Ok (Adopted n) => ∃ tape, adopted_on v uuid st c n tape ∧ sealed_as v (si_ended_after tape) (meanwhile c) c'
  | Err VolumeChanged => c' = meanwhile c
  | _ => c' = c
  end.
Proof.
  intros Ht Hi Hk Ho. unfold adopt. destruct (is_lost_write v c) as [[|]|e] eqn:Hl; [|by intros [= <- <- _]..].
  destruct (read_small_bytes 0 m) as [[raw0|e] m1] eqn:Hr; [|by intros [= <- <- _]].
  apply (read_small_bytes_true files Inv Ht) in Hr as [Hi1 Hr]; [|done..].
  destruct (parse_id_thunk_identity (from_utf8_lossy raw0)) as [identity|e] eqn:Hid; [|by intros [= <- <- _]].
  case_bool_decide as Hu; [by intros [= <- <- _]|].
  destruct (check_id_thunk_readable (from_utf8_lossy raw0)) as [[]|e] eqn:Hread; [|by intros [= <- <- _]].
  destruct Hr as [Hf| ->]; [|by apply no_identity in Hid].
  destruct (sealed_front_index (from_utf8_lossy raw0) m1) as [[tape|why] m2] eqn:Hs; [|by intros [= <- <- _]].
  apply (sealed_front_index_true files Inv Ht) in Hs; [|done].
  destruct (recorded_evidence v st c) as [why|] eqn:Hev; [by intros [= <- <- _]|].
  destruct (staged_match v st (si_entries tape) (si_ended_after tape) c) as [n|why] eqn:Hm; [|by intros [= <- <- _]].
  destruct (record_adoption _ _ _ (meanwhile c)) as [c2|e] eqn:Hrec; intros [= <- <- _].
  - exists tape. split; [by eapply staged_adopted|]. by eapply record_adoption_ok.
  - unfold record_adoption in Hrec. repeat case_match; by simplify_eq.
Qed.
End adopted.
