(* ===== verification/AdoptRehearsal.v ===== *)
(** * An adoption rehearsed

    A volume rebuilt from its own tape, one completed write of one slice,
    verified in full since: adopted; and one whose slice hashes to something
    else, refused. *)

From S2P Require Import Prelude LayoutModel Format Session Confirm ConfirmSound ConfirmSpec ConfirmRehearsal.
From S2P Require Import Contact ContactSound ContactRehearsal Ledger AdoptLost AdoptSound.
Local Open Scope Z_scope.
Local Open Scope rust_scope.

#[local] Existing Instance cx_digest.

Definition ax_slice : list Z := [7; 8].
Definition ax_index : list Z := kx_text "[index]".
Definition ax_files : list (list Z) := [kx_text "[volume] [layout]"; ax_index ++ [0]; ax_slice; kx_text "[seal]"].

Definition ax_claims : toml :=
  TArray [cx_claim 0 "id_thunk" None; cx_claim 1 "front_index" None; cx_claim 2 "data_slice" (Some ax_slice);
          cx_claim 3 "seal_marker" None].
Definition ax_index_doc : list (string * toml) :=
  [("index"%string, TTable [("volume"%string, TString "V"); ("layout_version"%string, TInteger 2)]);
   ("files"%string, ax_claims)].
Definition ax_seal_doc : list (string * toml) :=
  [("seal"%string, TTable
     [("volume"%string, TString "V"); ("layout_version"%string, TInteger 2); ("file_count"%string, TInteger 4);
      ("sealed_at"%string, TString "then"); ("front_index_sha256"%string, TString (hex_text ax_index))]);
   ("files"%string, ax_claims)].

(** A [toml] crate that knows the four documents. *)
#[local] Instance ax_toml : TomlCrate := λ s,
  if String.prefix "[volume]" s then Ok kx_volume_doc
  else if String.prefix "[layout]" s then Ok kx_layout_doc
  else if String.prefix "[index]" s then Ok ax_index_doc
  else Ok ax_seal_doc.
#[local] Instance ax_store : Readable := mem_store.
#[local] Existing Instance kx_blank.

Definition ax_staged : Staged := mkStaged {[11 := hex_text ax_slice]} {[7 := OriginStaged]} [(1, "2026"%string)].
Definition ax_ledger : Ledger :=
  mkLedger {[1 := mkWriteRow 7 9 1 WCompleted false false]} {[(1, 11) := mkPosition 2 PWritten (Some "h"%string)]}
    {[11 := mkStageSlice 7 1]} {[9 := SnapStaged]} {[1 := mkVolumeRow VInitialized CondOk None None]} []
    {[1 := mkVerification 1 "full" "passed" "2027"]} ∅.

Definition ax_run (st : Staged) := adopt 1 "u" (λ _, None) "2028" st id (ax_files : medium) ax_ledger.

Lemma ax_known : staged_known ax_staged ax_ledger.
Proof.
  intros s sl Hs. change (({[11 := mkStageSlice 7 1]} : gmap Z StageSlice) !! s = Some sl) in Hs.
  apply lookup_singleton_Some in Hs as [<- <-]. by split; eexists.
Qed.

Lemma ax_own : own_rows ax_ledger.
Proof.
  intros w s row r Hs Hr. change (({[(1, 11) := mkPosition 2 PWritten (Some "h"%string)]} : gmap (Z * Z) PositionRow) !! (w, s) = Some row) in Hs.
  change (({[1 := mkWriteRow 7 9 1 WCompleted false false]} : gmap Z WriteRow) !! w = Some r) in Hr.
  apply lookup_singleton_Some in Hs as [[= <- <-] <-]. apply lookup_singleton_Some in Hr as [_ <-]. by exists 1.
Qed.

(** A tape that holds another slice is refused. *)
Example ax_refused : (ax_run (mkStaged {[11 := "ff"%string]} {[7 := OriginStaged]} [(1, "2026"%string)])).1
  = (Ok (NotWhatThisCatalogStaged (HashDiffersAt 2 (hex_text ax_slice) "ff")), ax_ledger).
Proof. vm_compute. reflexivity. Qed.

Lemma adoption_proved_witness :
  (ax_run ax_staged).1.1 = Ok (Adopted 1) ∧
  ∃ tape, adopted_on ax_files 1 "u" ax_staged ax_ledger 1 tape ∧
    sealed_as 1 (si_ended_after tape) ax_ledger (ax_run ax_staged).1.2.
Proof.
  assert ((ax_run ax_staged).1.1 = Ok (Adopted 1)) as Hr by (vm_compute; reflexivity). split; [exact Hr|].
  refine (adoption_proved ax_files (λ m : medium, m = ax_files) 1 "u" (λ _, None) "2028" ax_staged id ax_files ax_ledger
    (Ok (Adopted 1)) (ax_run ax_staged).1.2 (ax_run ax_staged).2 (ct_true _ _ (kx_contactable ax_files)) eq_refl ax_known ax_own _).
  rewrite <- Hr. rewrite <- (surjective_pairing (ax_run ax_staged).1). exact (surjective_pairing (ax_run ax_staged)).
Defined.
