(* ===== verification/SizeText.v ===== *)
(** * Sizes an operator writes: [parse_size_to_bytes] of src/staging/mod.rs
    and [parse_capacity_to_bytes] of src/media.rs

    A number with an optional unit, read as an [f64] and multiplied. The
    float is a mantissa and an exponent of two, rounded to 53 bits, ties to
    even, as [f64::from_str] and [*] round. *)

From S2P Require Import Prelude.
Local Open Scope Z_scope.

(** ** Text

    A [str] is its UTF-8 bytes. *)

Definition code (c : Ascii.ascii) : Z := Z.of_N (Ascii.N_of_ascii c).

(** One white space character off the front ([char::is_whitespace]). *)
Definition skip_space (s : string) : option string :=
  match s with
  | String a s1 =>
      if bool_decide (9 ≤ code a ≤ 13 ∨ code a = 32) then Some s1 else
      match s1 with
      | String b s2 =>
          if bool_decide (code a = 194 ∧ (code b = 133 ∨ code b = 160)) then Some s2 else
          match s2 with
          | String c s3 =>
              if bool_decide ((code a = 225 ∧ code b = 154 ∧ code c = 128) ∨
                  (code a = 226 ∧ code b = 128 ∧ (128 ≤ code c ≤ 138 ∨ code c ∈ [168; 169; 175])) ∨
                  (code a = 226 ∧ code b = 129 ∧ code c = 159) ∨
                  (code a = 227 ∧ code b = 128 ∧ code c = 128))
              then Some s3 else None
          | EmptyString => None
          end
      | EmptyString => None
      end
  | EmptyString => None
  end.
Fixpoint trim_start_from (fuel : nat) (s : string) : string :=
  match fuel with
  | O => s
  | S fuel => match skip_space s with Some r => trim_start_from fuel r | None => s end
  end.
Definition trim_start (s : string) : string := trim_start_from (String.length s) s.
(** [s.trim().is_empty()]. *)
Definition blank_text (s : string) : bool := bool_decide (trim_start s = EmptyString).
Fixpoint trim_end (s : string) : string :=
  match s with
  | EmptyString => EmptyString
  | String c r => if blank_text s then EmptyString else String c (trim_end r)
  end.
Definition trim (s : string) : string := trim_end (trim_start s).

(** A byte outside ASCII counts as alphabetic: whether such a character is
    or not, it is in no number and no unit, and the text is refused. *)
Definition alphabetic (c : Ascii.ascii) : bool :=
  bool_decide (65 ≤ code c ≤ 90 ∨ 97 ≤ code c ≤ 122 ∨ 128 ≤ code c).
Fixpoint split_unit (s : string) : string * string :=
  match s with
  | EmptyString => (EmptyString, EmptyString)
  | String c r =>
      if alphabetic c then (EmptyString, s)
      else let '(num, unit) := split_unit r in (String c num, unit)
  end.

(** [to_uppercase]: of the characters outside ASCII, only the dotless i
    (0xC4 0xB1) has an upper case that is in a unit's name. *)
Definition upper (c : Ascii.ascii) : Ascii.ascii :=
  if bool_decide (97 ≤ code c ≤ 122) then Ascii.ascii_of_N (Z.to_N (code c - 32)) else c.
Fixpoint to_uppercase (s : string) : string :=
  match s with
  | EmptyString => EmptyString
  | String c r =>
      if bool_decide (code c = 196) then
        match r with
        | String d r' => if bool_decide (code d = 177) then String (Ascii.ascii_of_N 73) (to_uppercase r') else String c (String d (to_uppercase r'))
        | EmptyString => s
        end
      else String (upper c) (to_uppercase r)
  end.

(** ** Floats *)

(** A finite [f64] that is not negative: [mant * 2 ^ expo]. *)
Record F64 : Type := mkF64 { mant : Z; expo : Z }.

Definition shift_num (n e : Z) : Z := n * 2 ^ Z.max 0 (- e).
Definition shift_den (d e : Z) : Z := d * 2 ^ Z.max 0 e.
Definition half_even (n d : Z) : Z :=
  let q := n / d in
  let r := n mod d in
  if bool_decide (2 * r < d) then q
  else if bool_decide (d < 2 * r) then q + 1
  else if Z.even q then q else q + 1.

(** The exponent at which [n / d] has 53 bits, no less than a subnormal's. *)
Definition float_expo (n d : Z) : Z :=
  let e := Z.log2 n - Z.log2 d - 53 in
  Z.max (-1074) (if bool_decide (2 ^ 53 ≤ shift_num n e / shift_den d e) then e + 1 else e).
Definition round_ratio (n d : Z) : F64 :=
  if bool_decide (n = 0) then mkF64 0 0
  else let e := float_expo n d in mkF64 (half_even (shift_num n e) (shift_den d e)) e.

Definition f64_mul (x y : F64) : F64 :=
  round_ratio (shift_den (mant x * mant y) (expo x + expo y)) (shift_num 1 (expo x + expo y)).
(** [x as i64] truncates, and saturates at the type's bounds. *)
Definition trunc (x : F64) : Z := shift_den (mant x) (expo x) / shift_num 1 (expo x).
Definition f64_as_i64 (x : F64) : Z := Z.min i64_max (trunc x).
(** [i64::MAX as f64] is 2 ^ 63; an overflow to infinity is above it too. *)
Definition above_i64_max (x : F64) : bool :=
  bool_decide (2 ^ 63 * shift_num 1 (expo x) < shift_den (mant x) (expo x)).

Definition decimal_digit (c : Ascii.ascii) : option Z :=
  if bool_decide (48 ≤ code c ≤ 57) then Some (code c - 48) else None.
Fixpoint take_digits (s : string) : list Z * string :=
  match s with
  | EmptyString => ([], s)
  | String c r =>
      match decimal_digit c with
      | Some d => let '(ds, t) := take_digits r in (d :: ds, t)
      | None => ([], s)
      end
  end.
Definition digits_value (ds : list Z) : Z := foldl (λ a d, a * 10 + d) 0 ds.

(** [f64::from_str] of a text without a letter: its sign and magnitude. *)
Definition parse_f64 (s : string) : option (bool * F64) :=
  let '(negative, s) :=
    match s with
    | String c r =>
        if bool_decide (code c = 45) then (true, r) else if bool_decide (code c = 43) then (false, r) else (false, s)
    | EmptyString => (false, s)
    end in
  let '(whole, s1) := take_digits s in
  match s1 with
  | EmptyString => if bool_decide (whole = []) then None else Some (negative, round_ratio (digits_value whole) 1)
  | String c s2 =>
      let '(frac, s3) := take_digits s2 in
      if bool_decide (code c = 46 ∧ s3 = EmptyString ∧ whole ++ frac ≠ [])
      then Some (negative, round_ratio (digits_value (whole ++ frac)) (10 ^ Z.of_nat (length frac)))
      else None
  end.

(** ** The two parsers *)

Section parser.
Variable multiplier : string → option Z.
Definition parse_with (s : string) : option Z :=
  let '(num_str, suffix) := split_unit (trim s) in
  x ← parse_f64 num_str;
  (if x.1 && negb (bool_decide (mant x.2 = 0)) then None else
   m ← multiplier (to_uppercase suffix);
   let bytes := f64_mul x.2 (mkF64 m 0) in
   if above_i64_max bytes then None else Some (f64_as_i64 bytes)).
End parser.

Definition size_multiplier (unit : string) : option Z :=
  if bool_decide (unit = ""%string) then Some 1
  else if bool_decide (unit ∈ ["K"; "KB"; "KIB"]%string) then Some 1024
  else if bool_decide (unit ∈ ["M"; "MB"; "MIB"]%string) then Some (1024 * 1024)
  else if bool_decide (unit ∈ ["G"; "GB"; "GIB"]%string) then Some (1024 * 1024 * 1024)
  else if bool_decide (unit ∈ ["T"; "TB"; "TIB"]%string) then Some (1024 * 1024 * 1024 * 1024)
  else None.
Definition capacity_multiplier (unit : string) : option Z :=
  if bool_decide (unit = ""%string) then Some 1
  else if bool_decide (unit ∈ ["K"; "KB"]%string) then Some 1000
  else if bool_decide (unit ∈ ["M"; "MB"]%string) then Some 1000000
  else if bool_decide (unit ∈ ["G"; "GB"]%string) then Some 1000000000
  else if bool_decide (unit ∈ ["T"; "TB"]%string) then Some 1000000000000
  else if bool_decide (unit = "KIB"%string) then Some 1024
  else if bool_decide (unit = "MIB"%string) then Some (1024 * 1024)
  else if bool_decide (unit = "GIB"%string) then Some (1024 * 1024 * 1024)
  else if bool_decide (unit = "TIB"%string) then Some (1024 * 1024 * 1024 * 1024)
  else None.
Definition parse_size_to_bytes : string → option Z := parse_with size_multiplier.
Definition parse_capacity_to_bytes : string → option Z := parse_with capacity_multiplier.

Example sizes_read :
  parse_size_to_bytes <$> ["2500G"; " 1.5MiB "; "0.1k"; "-0"; "+7"; "."; "5."; ".5K"; "1e5"; "2500GG"; "-1"; ""; "1 K"]%string =
  [Some (2500 * 2 ^ 30); Some 1572864; Some 102; Some 0; Some 7; None; Some 5; Some 512; None; None; None; None; None].
Proof. vm_compute. reflexivity. Qed.
Example capacities_read :
  parse_capacity_to_bytes <$> ["2.5T"; "99008M"; "2500GiB"; "0.1K"]%string =
  [Some 2500000000000; Some 99008000000; Some (2500 * 2 ^ 30); Some 100].
Proof. vm_compute. reflexivity. Qed.
(** One byte more than an [i64] holds is let through, and clamped. *)
Example one_byte_too_many :
  parse_size_to_bytes "8388608T" = Some (2 ^ 63 - 1) ∧ parse_size_to_bytes "9223372036854775808" = Some (2 ^ 63 - 1).
Proof. vm_compute. auto. Qed.

(** ** Floats are exact where they can be *)

Lemma shift_den_pos d e : 0 < d → 0 < shift_den d e.
Proof. intros. unfold shift_den. apply Z.mul_pos_pos; [done|]. apply Z.pow_pos_nonneg; lia. Qed.
Lemma shift_num_nonneg n e : 0 ≤ n → 0 ≤ shift_num n e.
Proof. intros. unfold shift_num. apply Z.mul_nonneg_nonneg; [done|]. apply Z.pow_nonneg. lia. Qed.

Lemma half_even_exact n d q : 0 < d → n = q * d → half_even n d = q.
Proof.
  intros Hd ->. unfold half_even. rewrite Z.div_mul, Z.mod_mul by lia.
  by rewrite bool_decide_eq_true_2 by lia.
Qed.
Lemma half_even_nonneg n d : 0 ≤ n → 0 < d → 0 ≤ half_even n d.
Proof. intros. unfold half_even. assert (0 ≤ n / d) by (apply Z.div_pos; lia). repeat case_match; lia. Qed.

Lemma round_ratio_nonneg n d : 0 ≤ n → 0 < d → 0 ≤ mant (round_ratio n d).
Proof.
  intros. unfold round_ratio. case_bool_decide; cbn; [lia|].
  apply half_even_nonneg; [by apply shift_num_nonneg | by apply shift_den_pos].
Qed.

(** At its exponent a float has its leading bit, or the exponent is not above 0. *)
Lemma float_expo_leading n d : 0 < n → 0 < d →
  float_expo n d ≤ 0 ∨ 2 ^ 52 * d * 2 ^ float_expo n d ≤ n.
Proof.
  intros Hn Hd. unfold float_expo. set (e := Z.log2 n - Z.log2 d - 53).
  pose proof (Z.log2_spec n Hn) as [Hln _]. pose proof (Z.log2_spec d Hd) as [_ Hld].
  pose proof (Z.log2_nonneg n). pose proof (Z.log2_nonneg d).
  destruct (decide (e < 0)) as [Hneg|Hpos]; [left; case_bool_decide; lia|].
  assert (shift_num n e = n) as -> by (unfold shift_num; rewrite Z.max_l by lia; lia).
  assert (shift_den d e = d * 2 ^ e) as -> by (unfold shift_den; by rewrite Z.max_r by lia).
  assert (0 < d * 2 ^ e) as Hde by (apply Z.mul_pos_pos; [done | apply Z.pow_pos_nonneg; lia]).
  case_bool_decide as Hq.
  - right. rewrite Z.max_r by lia. rewrite Z.pow_add_r by lia.
    pose proof (Z.mul_div_le n (d * 2 ^ e) Hde). nia.
  - right. rewrite Z.max_r by lia.
    assert (2 ^ Z.log2 n = 2 ^ 52 * 2 ^ (Z.log2 d + 1) * 2 ^ e) as Heq.
    { rewrite <- !Z.pow_add_r by lia. f_equal. lia. }
    rewrite Z.add_1_r in Heq. nia.
Qed.

(** A ratio of 53 bits times a power of two is its float. *)
Lemma round_ratio_exact n d m j : 0 < d → 0 ≤ m < 2 ^ 53 → 0 ≤ j → n = m * 2 ^ j * d →
  shift_den (mant (round_ratio n d)) (expo (round_ratio n d)) = m * 2 ^ j * shift_num 1 (expo (round_ratio n d)).
Proof.
  intros Hd Hm Hj ->. unfold round_ratio. case_bool_decide as H0.
  { cbn. unfold shift_den, shift_num. cbn. nia. }
  assert (0 < 2 ^ j) by (apply Z.pow_pos_nonneg; lia).
  assert (0 < m) by nia. cbn [mant expo].
  pose proof (float_expo_leading (m * 2 ^ j * d) d ltac:(nia) Hd) as Hlead.
  set (e := float_expo (m * 2 ^ j * d) d) in *. clearbody e.
  assert (0 < 2 ^ Z.max 0 (- e)) by (apply Z.pow_pos_nonneg; lia).
  assert (0 < 2 ^ Z.max 0 e) by (apply Z.pow_pos_nonneg; lia).
  destruct (decide (e ≤ 0)) as [He|He].
  - rewrite (half_even_exact _ _ (m * 2 ^ j * 2 ^ (- e))).
    + unfold shift_den, shift_num. rewrite (Z.max_l 0 e), (Z.max_r 0 (- e)) by lia. lia.
    + by apply shift_den_pos.
    + unfold shift_num, shift_den. rewrite (Z.max_l 0 e), (Z.max_r 0 (- e)) by lia. lia.
  - destruct Hlead as [?|Hlead]; [lia|].
    assert (e ≤ j) as Hej.
    { assert (2 ^ (52 + e) < 2 ^ (53 + j)) as Hlt; [|apply Z.pow_lt_mono_r_iff in Hlt; lia].
      rewrite !Z.pow_add_r by lia.
      assert (2 ^ 52 * 2 ^ e ≤ m * 2 ^ j) as Hle.
      { apply (Z.mul_le_mono_pos_r _ _ d); [done|]. rewrite <- (Z.mul_assoc (2 ^ 52)), (Z.mul_comm (2 ^ e)), Z.mul_assoc. done. }
      apply (Z.le_lt_trans _ _ _ Hle). apply Z.mul_lt_mono_pos_r; [done|]. lia. }
    assert (2 ^ j = 2 ^ (j - e) * 2 ^ e) as Hpow by (rewrite <- Z.pow_add_r by lia; f_equal; lia).
    rewrite (half_even_exact _ _ (m * 2 ^ (j - e))).
    + unfold shift_den, shift_num. rewrite (Z.max_r 0 e), (Z.max_l 0 (- e)) by lia. rewrite Hpow. lia.
    + by apply shift_den_pos.
    + unfold shift_num, shift_den. rewrite (Z.max_r 0 e), (Z.max_l 0 (- e)) by lia. rewrite Hpow. lia.
Qed.

(** ** What is written is what is read *)

(** Visible ASCII: nothing that [trim] takes. *)
Definition visible (c : Ascii.ascii) : bool := bool_decide (33 ≤ code c ≤ 127).
Fixpoint all_visible (s : string) : bool :=
  match s with EmptyString => true | String c r => visible c && all_visible r end.

Lemma skip_visible c r : visible c = true → skip_space (String c r) = None.
Proof.
  intros Hc%bool_decide_eq_true. cbn. rewrite bool_decide_eq_false_2 by lia.
  destruct r as [|b r]; [done|]. rewrite bool_decide_eq_false_2 by lia.
  destruct r as [|x r]; [done|]. by rewrite bool_decide_eq_false_2 by lia.
Qed.
Lemma trim_start_visible s : all_visible s = true → trim_start s = s.
Proof.
  unfold trim_start. destruct s as [|c r]; [done|]. intros [Hc _]%andb_prop.
  change (match skip_space (String c r) with Some t => trim_start_from (String.length r) t | None => String c r end = String c r).
  by rewrite skip_visible.
Qed.
Lemma trim_visible s : all_visible s = true → trim s = s.
Proof.
  intros Hs. unfold trim. rewrite trim_start_visible by done.
  induction s as [|c r IH]; [done|]. cbn [trim_end]. unfold blank_text.
  rewrite trim_start_visible by done. rewrite bool_decide_eq_false_2 by done.
  f_equal. apply IH. by apply andb_prop in Hs as [_ ?].
Qed.

Definition digit_char (d : Z) : Ascii.ascii := Ascii.ascii_of_N (Z.to_N (48 + d)).
Definition text_of (ds : list Z) : string := foldr (λ d, String (digit_char d)) EmptyString ds.
Definition is_digit (d : Z) : Prop := 0 ≤ d ≤ 9.

Lemma digit_char_code d : is_digit d → code (digit_char d) = 48 + d.
Proof.
  intros [??]. unfold code, digit_char. rewrite Ascii.N_ascii_embedding by lia. lia.
Qed.
Lemma decimal_digit_char d : is_digit d → decimal_digit (digit_char d) = Some d.
Proof.
  intros Hd. unfold decimal_digit. rewrite digit_char_code by done. destruct Hd.
  rewrite bool_decide_eq_true_2 by lia. f_equal. lia.
Qed.
Lemma digits_visible ds u : Forall is_digit ds → all_visible u = true → all_visible (text_of ds +:+ u) = true.
Proof.
  intros Hds Hu. induction Hds as [|d ds Hd Hds IH]; [done|].
  change (visible (digit_char d) && all_visible (text_of ds +:+ u) = true). rewrite IH, andb_true_r. unfold visible. rewrite digit_char_code by done. destruct Hd. apply bool_decide_eq_true. lia.
Qed.

(** A unit as it is written: nothing, or a letter first. *)
Definition starts_alphabetic (u : string) : Prop :=
  match u with EmptyString => True | String c _ => alphabetic c = true end.
Lemma split_unit_digits ds u : Forall is_digit ds → starts_alphabetic u →
  split_unit (text_of ds +:+ u) = (text_of ds, u).
Proof.
  intros Hds Hu. induction Hds as [|d ds Hd Hds IH].
  - destruct u as [|c r]; [done|]. change (alphabetic c = true) in Hu.
    change (split_unit (String c r) = (EmptyString, String c r)). cbn [split_unit]. by rewrite Hu.
  - change (text_of (d :: ds) +:+ u) with (String (digit_char d) (text_of ds +:+ u)). cbn [split_unit]. unfold alphabetic. rewrite digit_char_code by done. destruct Hd.
    rewrite bool_decide_eq_false_2 by lia. by rewrite IH.
Qed.
Lemma take_digits_text ds : Forall is_digit ds → take_digits (text_of ds) = (ds, EmptyString).
Proof.
  induction 1 as [|d ds Hd Hds IH]; [done|].
  change (text_of (d :: ds)) with (String (digit_char d) (text_of ds)). cbn [take_digits].
  by rewrite decimal_digit_char, IH.
Qed.

Lemma parse_f64_digits ds : Forall is_digit ds → ds ≠ [] →
  parse_f64 (text_of ds) = Some (false, round_ratio (digits_value ds) 1).
Proof.
  intros Hds Hne. unfold parse_f64. destruct ds as [|d ds]; [done|].
  inversion Hds as [|?? Hd Hds']; subst.
  change (text_of (d :: ds)) with (String (digit_char d) (text_of ds)) at 1.
  cbv beta iota. rewrite digit_char_code by done. destruct Hd.
  rewrite bool_decide_eq_false_2, bool_decide_eq_false_2 by lia.
  by rewrite take_digits_text.
Qed.

Lemma digits_value_nonneg ds : Forall is_digit ds → 0 ≤ digits_value ds.
Proof.
  unfold digits_value. intros Hds. assert (∀ a, 0 ≤ a → 0 ≤ foldl (λ a d, a * 10 + d) a ds) as H; [|by apply H].
  induction Hds as [|d ds [??] Hds IH]; cbn; [done|]. intros a Ha. apply IH. lia.
Qed.

Lemma shift_num_pos e : 0 < shift_num 1 e.
Proof. unfold shift_num. rewrite Z.mul_1_l. apply Z.pow_pos_nonneg; lia. Qed.

(** A whole number of 53 bits, and its product with [m] = [q] * 2 ^ [j] when
    that has 53 bits and a power of two, are exact. *)
Lemma digits_times v m q j : 0 ≤ v < 2 ^ 53 → 0 ≤ j → m = q * 2 ^ j → 0 ≤ v * q < 2 ^ 53 →
  let x := f64_mul (round_ratio v 1) (mkF64 m 0) in
  shift_den (mant x) (expo x) = v * m * shift_num 1 (expo x).
Proof.
  intros Hv Hj -> Hq. unfold f64_mul.
  pose proof (round_ratio_exact v 1 v 0 ltac:(lia) ltac:(lia) ltac:(lia) ltac:(lia)) as Hx.
  set (y := round_ratio v 1) in *. clearbody y. cbn [mant expo]. rewrite Z.add_0_r.
  set (n := shift_den (mant y * (q * 2 ^ j)) (expo y)).
  assert (n = v * q * 2 ^ j * shift_num 1 (expo y)) as Hn.
  { transitivity (shift_den (mant y) (expo y) * (q * 2 ^ j)); [unfold n, shift_den; ring|]. rewrite Hx. ring. }
  cbv zeta. rewrite (round_ratio_exact n (shift_num 1 (expo y)) (v * q) j); [ring|apply shift_num_pos|done..].
Qed.

Lemma trunc_exact x n : shift_den (mant x) (expo x) = n * shift_num 1 (expo x) →
  trunc x = n ∧ above_i64_max x = bool_decide (2 ^ 63 < n).
Proof.
  intros Hx. pose proof (shift_num_pos (expo x)). unfold trunc, above_i64_max. rewrite Hx. split.
  - apply Z.div_mul. lia.
  - apply bool_decide_ext. symmetry. apply Z.mul_lt_mono_pos_r. done.
Qed.

Lemma parse_with_digits multiplier ds u m q j :
  Forall is_digit ds → ds ≠ [] → all_visible u = true → starts_alphabetic u →
  multiplier (to_uppercase u) = Some m → m = q * 2 ^ j → 0 ≤ j → 0 ≤ q → digits_value ds < 2 ^ 53 → digits_value ds * q < 2 ^ 53 →
  parse_with multiplier (text_of ds +:+ u) =
    (if bool_decide (2 ^ 63 < digits_value ds * m) then None else Some (Z.min i64_max (digits_value ds * m))).
Proof.
  intros Hds Hne Hu Hstart Hmul Hm Hj Hq Hv Hvq. unfold parse_with.
  rewrite trim_visible by by apply digits_visible. rewrite split_unit_digits by done.
  rewrite parse_f64_digits by done. cbv beta iota. cbn [mbind option_bind fst snd andb]. rewrite Hmul. cbn [mbind option_bind].
  pose proof (digits_value_nonneg ds Hds) as H0.
  destruct (trunc_exact _ _ (digits_times (digits_value ds) m q j ltac:(lia) Hj Hm ltac:(nia))) as [Htr ->].
  unfold f64_as_i64. by rewrite Htr.
Qed.

(** The spellings the two flags' help gives, with their powers. *)
Definition size_units : list (string * Z) :=
  [("", 0); ("K", 10); ("KB", 10); ("KiB", 10); ("M", 20); ("MB", 20); ("MiB", 20);
   ("G", 30); ("GB", 30); ("GiB", 30); ("T", 40); ("TB", 40); ("TiB", 40)]%string.
Definition capacity_units : list (string * (Z * Z)) :=
  [("", (1, 0)); ("K", (1000, 0)); ("KB", (1000, 0)); ("KiB", (1, 10)); ("M", (1000000, 0)); ("MB", (1000000, 0));
   ("MiB", (1, 20)); ("G", (1000000000, 0)); ("GB", (1000000000, 0)); ("GiB", (1, 30));
   ("T", (1000000000000, 0)); ("TB", (1000000000000, 0)); ("TiB", (1, 40))]%string.

Lemma size_units_ok u k : (u, k) ∈ size_units →
  all_visible u = true ∧ starts_alphabetic u ∧ size_multiplier (to_uppercase u) = Some (1 * 2 ^ k) ∧ 0 ≤ k.
Proof.
  intros Hu. assert (Forall (λ x : string * Z, all_visible x.1 = true ∧ starts_alphabetic x.1 ∧
      size_multiplier (to_uppercase x.1) = Some (1 * 2 ^ x.2) ∧ 0 ≤ x.2) size_units) as H.
  { repeat (apply Forall_cons; split); [vm_compute; repeat split; discriminate.. | by apply Forall_nil]. }
  by apply (proj1 (Forall_forall _ _) H _ Hu).
Qed.
Lemma capacity_units_ok u q j : (u, (q, j)) ∈ capacity_units →
  all_visible u = true ∧ starts_alphabetic u ∧ capacity_multiplier (to_uppercase u) = Some (q * 2 ^ j) ∧ 0 ≤ j ∧ 0 ≤ q.
Proof.
  intros Hu. assert (Forall (λ x : string * (Z * Z), all_visible x.1 = true ∧ starts_alphabetic x.1 ∧
      capacity_multiplier (to_uppercase x.1) = Some (x.2.1 * 2 ^ x.2.2) ∧ 0 ≤ x.2.2 ∧ 0 ≤ x.2.1) capacity_units) as H.
  { repeat (apply Forall_cons; split); [vm_compute; repeat split; discriminate.. | by apply Forall_nil]. }
  by apply (proj1 (Forall_forall _ _) H _ Hu).
Qed.

(** A size written as a whole number below 2^53 with a unit is exactly
    that many bytes, binary, whenever they fit an [i64]; one above 2^63 is
    refused, and 2^63 itself is clamped to the largest [i64]. *)
Theorem size_text_exact ds u k :
  Forall is_digit ds → ds ≠ [] → (u, k) ∈ size_units → digits_value ds < 2 ^ 53 →
  parse_size_to_bytes (text_of ds +:+ u) =
    (if bool_decide (2 ^ 63 < digits_value ds * 2 ^ k) then None else Some (Z.min i64_max (digits_value ds * 2 ^ k))).
Proof.
  intros Hds Hne (Hvis & Hstart & Hmul & Hk)%size_units_ok Hv.
  rewrite Z.mul_1_l in Hmul. by apply (parse_with_digits _ ds u (2 ^ k) 1 k); try lia.
Qed.
Lemma size_text_exact_witness :
  parse_size_to_bytes (text_of [2; 5; 0; 0] +:+ "GiB") = Some (2500 * 2 ^ 30).
Proof.
  rewrite (size_text_exact [2; 5; 0; 0] "GiB" 30); [reflexivity | | discriminate | | reflexivity].
  - repeat constructor; discriminate.
  - apply (bool_decide_unpack _). vm_compute. exact I.
Defined.

(** A cartridge's capacity likewise, decimal, where the product has 53 bits. *)
Theorem capacity_text_exact ds u q j :
  Forall is_digit ds → ds ≠ [] → (u, (q, j)) ∈ capacity_units → digits_value ds < 2 ^ 53 → digits_value ds * q < 2 ^ 53 →
  parse_capacity_to_bytes (text_of ds +:+ u) =
    (if bool_decide (2 ^ 63 < digits_value ds * (q * 2 ^ j)) then None else Some (Z.min i64_max (digits_value ds * (q * 2 ^ j)))).
Proof.
  intros Hds Hne (Hvis & Hstart & Hmul & Hj & Hq)%capacity_units_ok Hv Hvq.
  by apply (parse_with_digits _ ds u (q * 2 ^ j) q j).
Qed.

(** ** No size is negative *)

Lemma take_digits_digits s ds t : take_digits s = (ds, t) → Forall is_digit ds.
Proof.
  revert ds t. induction s as [|c s IH]; cbn; intros ds t; [intros [= <- _]; constructor|].
  destruct (decimal_digit c) as [d|] eqn:Hd; [|intros [= <- _]; constructor].
  destruct (take_digits s) as [ds' t'] eqn:Hs. intros [= <- _]. constructor; [|by eapply IH].
  revert Hd. unfold decimal_digit. case_bool_decide; [|done]. intros [= <-]. unfold is_digit. lia.
Qed.
Lemma parse_f64_nonneg s neg x : parse_f64 s = Some (neg, x) → 0 ≤ mant x.
Proof.
  unfold parse_f64. destruct (match s with String c r => _ | EmptyString => _ end) as [negative s'].
  destruct (take_digits s') as [whole s1] eqn:Hw. apply take_digits_digits in Hw.
  destruct s1 as [|c s2].
  - case_bool_decide; [done|]. intros [= _ <-]. by apply round_ratio_nonneg; [apply digits_value_nonneg|].
  - destruct (take_digits s2) as [frac s3] eqn:Hf. apply take_digits_digits in Hf.
    case_bool_decide; [|done]. intros [= _ <-]. apply round_ratio_nonneg.
    + apply digits_value_nonneg. by apply Forall_app.
    + apply Z.pow_pos_nonneg; lia.
Qed.
Lemma multiplied_bounds x m : 0 ≤ mant x → 0 ≤ m → 0 ≤ f64_as_i64 (f64_mul x (mkF64 m 0)) ≤ i64_max.
Proof.
  intros Hx Hm. unfold f64_as_i64, trunc.
  set (y := f64_mul _ _). assert (0 ≤ mant y) as Hy.
  { apply round_ratio_nonneg; [|apply shift_num_pos]. unfold shift_den.
    apply Z.mul_nonneg_nonneg; [by apply Z.mul_nonneg_nonneg | apply Z.pow_nonneg; lia]. }
  assert (0 ≤ shift_den (mant y) (expo y) / shift_num 1 (expo y)).
  { apply Z.div_pos; [|apply shift_num_pos]. unfold shift_den. apply Z.mul_nonneg_nonneg; [done | apply Z.pow_nonneg; lia]. }
  unfold i64_max. lia.
Qed.
Lemma size_multiplier_nonneg u m : size_multiplier u = Some m → 0 ≤ m.
Proof. unfold size_multiplier. repeat case_bool_decide; intros [= <-]; lia. Qed.
Lemma capacity_multiplier_nonneg u m : capacity_multiplier u = Some m → 0 ≤ m.
Proof. unfold capacity_multiplier. repeat case_bool_decide; intros [= <-]; lia. Qed.
Lemma parse_with_bounds multiplier s b : (∀ u m, multiplier u = Some m → 0 ≤ m) →
  parse_with multiplier s = Some b → 0 ≤ b ≤ i64_max.
Proof.
  intros Hmul. unfold parse_with. destruct (split_unit _) as [num unit].
  destruct (parse_f64 num) as [[neg x]|] eqn:Hx; [|done]. cbn [mbind option_bind fst snd].
  destruct (_ && _); [done|]. destruct (multiplier _) as [m|] eqn:Hm; [|done]. cbn [mbind option_bind].
  destruct (above_i64_max _); [done|]. intros [= <-].
  apply multiplied_bounds; [by eapply parse_f64_nonneg | by eapply Hmul].
Qed.
(** Whatever the text, an accepted size is an [i64] that is not negative. *)
Lemma parse_size_bounds s b : parse_size_to_bytes s = Some b → 0 ≤ b ≤ i64_max.
Proof. apply parse_with_bounds, size_multiplier_nonneg. Qed.
Lemma parse_capacity_bounds s b : parse_capacity_to_bytes s = Some b → 0 ≤ b ≤ i64_max.
Proof. apply parse_with_bounds, capacity_multiplier_nonneg. Qed.
