(* ===== verification/Coverage.v ===== *)
(** * What counts as a copy: [src/policy/coverage.rs]

    The copies, deposits and places of a version, counted slice by slice: per
    stage set its least-covered slice, summed over the stage sets, each tape
    and each place credited to one of them. The floors a policy sets are
    judged against these counts. *)

From S2P Require Import Prelude LayoutModel Session Ledger.
Local Open Scope Z_scope.
Local Open Scope rust_scope.

(** ** The rows read *)

Record UnitRow : Type := mkUnitRow { unit_called : string; unit_state : string }.

(** The catalog with the tables only a coverage question reads. *)
Record Shelves : Type := mkShelves {
  ledger_of : Ledger;
  units : gmap Z UnitRow;
  set_snapshot : gmap Z Z;               (* [stage_sets.snapshot_id] *)
  version_of : gmap Z (Z * Z);           (* a snapshot's unit and version *)
  shelf : gmap Z Z;                      (* [volumes.location_id], when set *)
  deposits : gmap Z (Z * Z);             (* [volume_deposits]: volume, location *)
  locations : gmap Z string;
  encrypted_bytes : gmap Z Z;            (* of a stage slice *)
}.
Definition with_ledger (c : Ledger) (sh : Shelves) : Shelves :=
  mkShelves c (units sh) (set_snapshot sh) (version_of sh) (shelf sh) (deposits sh) (locations sh) (encrypted_bytes sh).

(** ** The slices of a set and who holds them *)

Inductive Counted : Type := Copies | Deposits | CopiesAt (place : Z) | Places.

Inductive CoverageScope : Type :=
| OfUnit (id : Z) (current_only : bool)
| OfSnapshot (id : Z).
Record CoverageQuery : Type := mkQuery { scope : CoverageScope; exclude_volume : option Z }.
Definition current_unit (id : Z) : CoverageQuery := mkQuery (OfUnit id true) None.

(** The stage sets among which a tape or a place is credited to one. *)
Inductive Partition : Type :=
| Version (snapshot : Z)
| UnitSets (id : Z) (current_only : bool).

Definition holds_slices (s : WriteStatus) : bool := bool_decide (s = WCompleted) || bool_decide (s = WRange).

Section count.
Variables (sh : Shelves).

Definition status_of_snapshot (s : Z) : option SnapshotStatus := snapshots (ledger_of sh) !! s.
Definition is_current (s : Z) : bool := bool_decide (status_of_snapshot s = Some SnapCurrent).
Definition write_rows : list (Z * WriteRow) := map_to_list (writes (ledger_of sh)).
Definition eligible_volume (v : Z) : bool :=
  match volumes (ledger_of sh) !! v with Some r => eligible r | None => false end.
Definition deposits_of (v : Z) : list Z :=
  (λ d : Z * (Z * Z), d.2.2) <$> filter (λ d, d.2.1 = v) (map_to_list (deposits sh)).

(** [of_xss]. *)
Definition of_xss (p : Partition) (set : Z) : bool :=
  match set_snapshot sh !! set with
  | Some snapshot =>
      match p with
      | Version s => bool_decide (snapshot = s)
      | UnitSets u current_only =>
          match version_of sh !! snapshot with
          | Some (u', _) => bool_decide (u' = u) && (negb current_only || is_current snapshot)
          | None => false
          end
      end
  | None => false
  end.

Definition range_holds (w slice : Z) : bool := slot_written (λ _, true) w slice (ledger_of sh).

(** [SliceCount]: one stage set's per-slice count. *)
Section set.
Variables (set : Z) (partition : Partition) (exclude : option Z).

Definition writes_of (s : WriteStatus) : list (Z * WriteRow) :=
  filter (λ kr : Z * WriteRow, stage_set_id kr.2 = set ∧ write_status kr.2 = s ∧
            eligible_volume (volume_id kr.2) = true ∧ exclude ≠ Some (volume_id kr.2)) write_rows.

(** No lower stage set of the partition is held on the same volume. *)
Definition tape_credited (r : WriteRow) : bool :=
  negb (existsb (λ x : Z * WriteRow, bool_decide (volume_id x.2 = volume_id r) && bool_decide (stage_set_id x.2 < stage_set_id r)
                   && holds_slices (write_status x.2) && of_xss partition (stage_set_id x.2)) write_rows).

(** No lower stage set of the partition is held at the place. *)
Definition held_at (place v : Z) : bool :=
  bool_decide (shelf sh !! v = Some place) || bool_decide (place ∈ deposits_of v).
Definition place_credited (place : Z) : bool :=
  negb (existsb (λ x : Z * WriteRow, of_xss partition (stage_set_id x.2) && bool_decide (stage_set_id x.2 < set)
                   && holds_slices (write_status x.2) && eligible_volume (volume_id x.2)
                   && negb (bool_decide (exclude = Some (volume_id x.2))) && held_at place (volume_id x.2)) write_rows).

(** What one holder adds at a slice it holds. *)
Definition weight (counted : Counted) (v : Z) : Z :=
  let deposits := deposits_of v in
  match counted with
  | Copies => 1 + Z.of_nat (length deposits)
  | Deposits => Z.of_nat (length deposits)
  | CopiesAt place =>
      (if bool_decide (shelf sh !! v = Some place) then 1 else 0) + Z.of_nat (length (filter (.= place) deposits))
  | Places => 0
  end.

(** The places of the writes of a status, for a range those holding a slice. *)
Definition place_rows (s : WriteStatus) (slice : option Z) : list Z :=
  let ws := filter (λ kr : Z * WriteRow, match slice with Some x => range_holds kr.1 x | None => true end = true) (writes_of s) in
  omap (λ kr : Z * WriteRow, shelf sh !! volume_id kr.2) ws ++ (ws ≫= λ kr, deposits_of (volume_id kr.2)).

(** [COUNT(DISTINCT place)]. *)
Definition count_distinct (l : list Z) : Z := Z.of_nat (length (remove_dups l)).

(** What the whole holders count at every slice. *)
Definition whole (counted : Counted) : Z :=
  match counted with
  | Places => count_distinct (filter (λ p, place_credited p = true) (place_rows WCompleted None))
  | _ => sumZ ((λ kr : Z * WriteRow, weight counted (volume_id kr.2)) <$>
           filter (λ kr, tape_credited kr.2 = true) (writes_of WCompleted))
  end.
(** What the ranges add at one slice. *)
Definition range_at (counted : Counted) (slice : Z) : Z :=
  match counted with
  | Places => count_distinct (filter (λ p, place_credited p = true ∧ p ∉ place_rows WCompleted None) (place_rows WRange (Some slice)))
  | _ => sumZ ((λ kr : Z * WriteRow, weight counted (volume_id kr.2)) <$>
           filter (λ kr, tape_credited kr.2 = true ∧ range_holds kr.1 slice = true) (writes_of WRange))
  end.
Definition at_slice (counted : Counted) (slice : Z) : Z := whole counted + range_at counted slice.

(** The slices are walked only for a set with a range. *)
Definition least_covered (counted : Counted) : Z :=
  whole counted +
    (if bool_decide (writes_of WRange = []) then 0
     else default 0 (minZ (range_at counted <$> (slices_of set (ledger_of sh)).*1))).
End set.

(** ** The counts *)

Definition partition_of (s : CoverageScope) : Partition :=
  match s with OfSnapshot id => Version id | OfUnit id current_only => UnitSets id current_only end.
Definition sets_of (p : Partition) : list Z := filter (λ set, of_xss p set = true) (map_to_list (set_snapshot sh)).*1.

Definition scope_sum (q : CoverageQuery) (counted : Counted) : Z :=
  let p := partition_of (scope q) in
  sumZ ((λ set, least_covered set p (exclude_volume q) counted) <$> sets_of p).

Definition current_versions (u : Z) : list Z :=
  filter (λ s, is_current s = true) (filter (λ x : Z * (Z * Z), x.2.1 = u) (map_to_list (version_of sh))).*1.

(** A unit's current coverage is its least-covered current version's. *)
Definition count_expr (q : CoverageQuery) (counted : Counted) : Z :=
  match scope q with
  | OfUnit u true =>
      default 0 (minZ ((λ s, scope_sum (mkQuery (OfSnapshot s) (exclude_volume q)) counted) <$> current_versions u))
  | _ => scope_sum q counted
  end.
Definition copy_count_expr (q : CoverageQuery) : Z := count_expr q Copies.
Definition location_count_expr (q : CoverageQuery) : Z := count_expr q Places.
Definition copies_at_expr (q : CoverageQuery) (place : Z) : Z := count_expr q (CopiesAt place).
Definition deposit_count_expr (q : CoverageQuery) : Z := scope_sum q Deposits.

(** [slice_copies]: the slices of a set, in slice order. *)
Record SliceCopies : Type := mkSliceCopies {
  sc_slice : Z;
  sc_number : Z;
  sc_copies : Z;
  sc_locations : Z;
}.
Definition by_slice_number (a b : Z * Z) : Prop := a.2 ≤ b.2.
#[export] Instance by_slice_number_dec : RelDecision by_slice_number.
Proof. intros a b. unfold by_slice_number. apply _. Defined.
Definition slice_copies (set : Z) : list SliceCopies :=
  match set_snapshot sh !! set with
  | Some snapshot =>
      (λ s : Z * Z, mkSliceCopies s.1 s.2 (at_slice set (Version snapshot) None Copies s.1)
                      (at_slice set (Version snapshot) None Places s.1)) <$>
        merge_sort by_slice_number (slices_of set (ledger_of sh))
  | None => []
  end.
End count.

(** ** The floors *)

Definition wrap_i64 (z : Z) : Z := (z + 2 ^ 63) `mod` 2 ^ 64 - 2 ^ 63.
Definition sat_add_i64 (a b : Z) : Z := Z.max (- 2 ^ 63) (Z.min i64_max (a + b)).

Record Config : Type := mkConfig {
  tape_only_safety_multiplier : Z;
  min_locations : Z;
}.
(** A unit's policy, its layers resolved ([Policy]). *)
Record ResolvedPolicy : Type := mkPolicy {
  min_copies : Z;
  required_locations : list string;
  encrypt : bool;
  compression : string;
  checksum_mode : string;
  slice_size : Z;
  verify_interval_days : option Z;
  preserve_xattrs : bool;
  preserve_acls : bool;
  preserve_fsa : bool;
  dirty_on_metadata_change : bool;
  warehouse_copies : Z;
  allow_spanning : bool;
  copies_at : gmap string Z;
}.

Definition by_name (a b : string) : Prop := String.leb a b = true.
#[export] Instance by_name_dec : RelDecision by_name.
Proof. intros a b. unfold by_name. apply _. Defined.
(** [BTreeMap::keys]. *)
Definition names {A} (m : gmap string A) : list string := merge_sort by_name (map_to_list m).*1.

Definition copy_floor_base (p : ResolvedPolicy) : Z :=
  Z.max (min_copies p) (fold_left sat_add_i64 (omap (λ n, copies_at p !! n) (names (copies_at p))) 0).

Section floors.
Variables (config : Config).

Definition tape_only_multiplier (unit_status : string) : Z :=
  if bool_decide (unit_status = "tape_only"%string) then tape_only_safety_multiplier config else 1.
(** [i64] multiplication as a release build has it. *)
Definition copy_floor (base : Z) (unit_status : string) : Z := wrap_i64 (base * tape_only_multiplier unit_status).
Definition location_floor (unit_status : string) : Z :=
  if bool_decide (unit_status = "tape_only"%string) then min_locations config else 0.

Record PlaceShortfall : Type := mkPlaceShortfall { ps_places : Z; ps_floor : Z }.
Definition judge_places (unit_status : string) (places : Z) : option PlaceShortfall :=
  let floor := location_floor unit_status in
  if bool_decide (places < floor) then Some (mkPlaceShortfall places floor) else None.

Inductive NamedScope : Type := NamedUnit (id : Z) | NamedSnapshot (id : Z).
Definition named_query (s : NamedScope) (exclude : option Z) : CoverageQuery :=
  mkQuery (match s with NamedUnit id => OfUnit id true | NamedSnapshot id => OfSnapshot id end) exclude.

Variables (sh : Shelves).

Definition places_held_excluding (s : NamedScope) (exclude : option Z) : Z := location_count_expr sh (named_query s exclude).
Definition short_of_location_floor_excluding (s : NamedScope) (unit_status : string) (exclude : option Z) : option PlaceShortfall :=
  if bool_decide (location_floor unit_status ≤ 0) then None
  else judge_places unit_status (places_held_excluding s exclude).

(** The one location of a name, the schema's [UNIQUE]. *)
Definition location_named (name : string) : option Z :=
  fst <$> head (filter (λ l : Z * string, l.2 = name) (map_to_list (locations sh))).
Definition copies_at_location (s : NamedScope) (location : string) (exclude : option Z) : Z :=
  match location_named location with
  | Some l => copies_at_expr sh (named_query s exclude) l
  | None => 0
  end.

Record LocationShort : Type := mkLocationShort { ls_location : string; ls_copies : Z; ls_target : Z }.
Definition location_target (p : ResolvedPolicy) (location unit_status : string) : Z :=
  copy_floor (default 0 (copies_at p !! location)) unit_status.
Definition judge_copies_at (p : ResolvedPolicy) (unit_status : string) (at_ : gmap string Z) : list LocationShort :=
  omap (λ location,
    let target := location_target p location unit_status in
    let copies := default 0 (at_ !! location) in
    if bool_decide (copies < target) then Some (mkLocationShort location copies target) else None) (names (copies_at p)).

(** Only the locations a target above 0 names are counted. *)
Definition copies_at_targets (s : NamedScope) (p : ResolvedPolicy) (exclude : option Z) : gmap string Z :=
  let named := filter (λ n, match copies_at p !! n with Some k => bool_decide (0 < k) | None => false end = true) (names (copies_at p)) in
  list_to_map (omap (λ l : Z * string,
    if bool_decide (l.2 ∈ named) then Some (l.2, copies_at_expr sh (named_query s exclude) l.1) else None)
    (map_to_list (locations sh))).
Definition short_of_copies_at (s : NamedScope) (p : ResolvedPolicy) (unit_status : string) (exclude : option Z) : list LocationShort :=
  judge_copies_at p unit_status (copies_at_targets s p exclude).
Definition locations_without_a_copy (short : list LocationShort) : list string :=
  ls_location <$> filter (λ s, ls_copies s = 0) short.

(** ** What a unit still needs *)

Inductive NeedAt : Type :=
| NeedTarget (target copies_here copies : Z)
| NeedFloor (floor copies : Z)
| NoNeed.
Definition judge_need (p : ResolvedPolicy) (unit_status location : string) (copies copies_here : Z) : NeedAt :=
  let target := location_target p location unit_status in
  if bool_decide (0 < target) then
    if bool_decide (copies_here < target) then NeedTarget target copies_here copies else NoNeed
  else
    let floor := copy_floor (copy_floor_base p) unit_status in
    if bool_decide (copies < floor) && bool_decide (copies_here = 0) then NeedFloor floor copies else NoNeed.
Definition need_at (u : Z) (unit_status : string) (p : ResolvedPolicy) (location : string) : NeedAt :=
  judge_need p unit_status location (copy_count_expr sh (current_unit u)) (copies_at_location (NamedUnit u) location None).

Record Shortfall : Type := mkShortfall {
  sf_copies : Z;
  sf_min_copies : Z;
  sf_locations : list LocationShort;
}.
Definition shortfall (u : Z) (unit_status : string) (p : ResolvedPolicy) : Shortfall :=
  mkShortfall (copy_count_expr sh (current_unit u)) (copy_floor (copy_floor_base p) unit_status)
    (judge_copies_at p unit_status (copies_at_targets (NamedUnit u) p None)).
Definition under_copied (s : Shortfall) : bool := bool_decide (sf_copies s < sf_min_copies s).
Definition any_short (s : Shortfall) : bool := under_copied s || negb (bool_decide (sf_locations s = [])).
End floors.
