(* ===== verification/CoverageSound.v ===== *)
(** * What a count of copies promises

    A version counted [n] copies survives the loss of any fewer than [n]
    tapes and deposits, and counted in [n] places of any fewer places: some
    stage set of it still has every slice held. A volume pretended away is a
    volume given up. *)

From S2P Require Import Prelude LayoutModel Session Ledger LedgerSound Coverage.
Local Open Scope Z_scope.
Local Open Scope rust_scope.

(** Something that holds a slice and can be lost. *)
Inductive Losable : Type := Tape (volume : Z) | Deposit (id : Z) | Place (location : Z).
#[export] Instance Held_eq_dec : EqDecision Losable.
Proof. solve_decision. Defined.

Lemma length_bind_sum {A B} (f : A → list B) (w : A → Z) l : (∀ x, x ∈ l → Z.of_nat (length (f x)) = w x) →
  Z.of_nat (length (l ≫= f)) = sumZ (w <$> l).
Proof.
  induction l as [|x l IH]; intros Hw; [done|]. csimpl. rewrite length_app, Nat2Z.inj_add, Hw by apply list_elem_of_here.
  rewrite IH; [done|]. intros y Hy. apply Hw. by apply list_elem_of_further.
Qed.

Lemma count_distinct_union (P : Z → Prop) `{∀ x, Decision (P x)} (a b : list Z) :
  count_distinct (filter P a) + count_distinct (filter (λ x, P x ∧ x ∉ a) b) = count_distinct (filter P (a ++ b)).
Proof.
  unfold count_distinct. rewrite <- Nat2Z.inj_add, <- length_app. f_equal. apply Permutation_length, NoDup_Permutation.
  - apply NoDup_app. split; [apply NoDup_remove_dups|]. split; [|apply NoDup_remove_dups].
    intros x [_ Hx]%elem_of_remove_dups%list_elem_of_filter [[_ Hn] _]%elem_of_remove_dups%list_elem_of_filter. done.
  - apply NoDup_remove_dups.
  - intros x. rewrite elem_of_app, !elem_of_remove_dups, !list_elem_of_filter, elem_of_app.
    destruct (decide (x ∈ a)); naive_solver.
Qed.

Section held.
Variables (sh : Shelves).

(** The schema's [UNIQUE(stage_set_id, volume_id)]. *)
Definition one_write_per_set : Prop := ∀ w w' r r', writes (ledger_of sh) !! w = Some r → writes (ledger_of sh) !! w' = Some r' →
  stage_set_id r = stage_set_id r' → volume_id r = volume_id r' → w = w'.

(** What a volume that holds a slice adds to a count of it. *)
Definition deposit_rows (v : Z) : list (Z * (Z * Z)) := filter (λ d, d.2.1 = v) (map_to_list (deposits sh)).
Definition adds (counted : Counted) (v : Z) : list Losable :=
  match counted with
  | Copies => Tape v :: ((λ d, Deposit d.1) <$> deposit_rows v)
  | Deposits => (λ d, Deposit d.1) <$> deposit_rows v
  | CopiesAt place =>
      (if bool_decide (shelf sh !! v = Some place) then [Tape v] else []) ++
      ((λ d, Deposit d.1) <$> filter (λ d, d.2.2 = place) (deposit_rows v))
  | Places => Place <$> (match shelf sh !! v with Some l => [l] | None => [] end ++ deposits_of sh v)
  end.

Lemma adds_weight counted v : counted ≠ Places → Z.of_nat (length (adds counted v)) = weight sh counted v.
Proof.
  destruct counted as [| |place|]; intros Hp; try done; unfold adds, weight, deposits_of, deposit_rows; cbn.
  - rewrite !length_fmap. lia.
  - by rewrite !length_fmap.
  - rewrite length_app, length_fmap, Nat2Z.inj_add. f_equal; [by case_bool_decide|]. f_equal.
    induction (filter (λ d, d.2.1 = v) (map_to_list (deposits sh))) as [|d l IH]; [done|]. csimpl. rewrite !filter_cons. cbn.
    case_decide; cbn; by rewrite IH.
Qed.

Lemma adds_nodup counted v : counted ≠ Places → NoDup (adds counted v).
Proof.
  assert (∀ l : list (Z * (Z * Z)), NoDup l.*1 → NoDup ((λ d : Z * (Z * Z), Deposit d.1) <$> l)) as Hd.
  { intros l Hl. change (NoDup ((Deposit ∘ fst) <$> l)). rewrite list_fmap_compose. apply NoDup_fmap_2; [by intros ?? [=]|done]. }
  assert (∀ (P : Z * (Z * Z) → Prop) `{∀ x, Decision (P x)} l, NoDup l.*1 → NoDup (filter P l).*1) as Hf.
  { intros P HP l. induction l as [|d l IH]; [done|]. csimpl. intros [Hn Hl]%NoDup_cons. rewrite filter_cons.
    case_decide; [|by apply IH]. csimpl. apply NoDup_cons. split; [|by apply IH].
    intros (x & Heq & [_ Hin]%list_elem_of_filter)%list_elem_of_fmap. apply Hn, list_elem_of_fmap. by exists x. }
  assert (NoDup (deposit_rows v).*1) as Hn by (apply Hf, NoDup_fst_map_to_list).
  destruct counted as [| |place|]; intros Hp; try done; cbn.
  - apply NoDup_cons. split; [|by apply Hd]. by intros (d & ? & _)%list_elem_of_fmap.
  - by apply Hd.
  - case_bool_decide; cbn; [apply NoDup_cons; split|]; [|by apply Hd, Hf..]. by intros (d & ? & _)%list_elem_of_fmap.
Qed.

Lemma adds_distinct counted v v' x : counted ≠ Places → x ∈ adds counted v → x ∈ adds counted v' → v = v'.
Proof.
  assert (∀ (v v' : Z) (d d' : Z * (Z * Z)), d ∈ deposit_rows v → d' ∈ deposit_rows v' → d.1 = d'.1 → v = v') as Hd.
  { intros u u' [k [a b]] [k' [a' b']] [Ha Hin]%list_elem_of_filter [Hb Hin']%list_elem_of_filter. cbn in *. intros <-.
    apply elem_of_map_to_list in Hin, Hin'. congruence. }
  intros Hp.
  assert (∀ u, x ∈ adds counted u → x = Tape u ∨ ∃ d, x = Deposit d.1 ∧ d ∈ deposit_rows u) as Hx.
  { intros u. destruct counted as [| |place|]; try done; cbn.
    - intros [->|(d & -> & Hin)%list_elem_of_fmap]%elem_of_cons; eauto.
    - intros (d & -> & Hin)%list_elem_of_fmap. eauto.
    - intros [Hin|(d & -> & [_ Hin]%list_elem_of_filter)%list_elem_of_fmap]%elem_of_app; [|eauto].
      case_bool_decide; [|by apply not_elem_of_nil in Hin]. apply list_elem_of_singleton in Hin. auto. }
  intros [->|(d & -> & Hin)]%Hx [Heq|(d' & Heq & Hin')]%Hx; try done; injection Heq as Heq; [done|]. by eapply Hd.
Qed.

Section set.
Variables (set : Z) (p : Partition) (exclude : option Z).

(** The writes that hold a slice of the set, or all of it. *)
Definition holding (slice : option Z) : list (Z * WriteRow) :=
  writes_of sh set exclude WCompleted ++
  match slice with Some s => filter (λ kr : Z * WriteRow, range_holds sh kr.1 s = true) (writes_of sh set exclude WRange) | None => [] end.

Definition holders (counted : Counted) (slice : option Z) : list Losable :=
  match counted with
  | Places => Place <$> remove_dups (filter (λ l, place_credited sh set p exclude l = true)
      (place_rows sh set exclude WCompleted None ++
       match slice with Some s => place_rows sh set exclude WRange (Some s) | None => [] end))
  | _ => filter (λ kr : Z * WriteRow, tape_credited sh p kr.2 = true) (holding slice) ≫= λ kr, adds counted (volume_id kr.2)
  end.

Lemma holding_elem slice w r : (w, r) ∈ holding slice ↔
  writes (ledger_of sh) !! w = Some r ∧ stage_set_id r = set ∧ eligible_volume sh (volume_id r) = true ∧ exclude ≠ Some (volume_id r) ∧
  (write_status r = WCompleted ∨ write_status r = WRange ∧ ∃ s, slice = Some s ∧ range_holds sh w s = true).
Proof.
  unfold holding, writes_of, write_rows. rewrite elem_of_app, list_elem_of_filter, elem_of_map_to_list. cbn.
  destruct slice as [s|]; [rewrite !list_elem_of_filter, elem_of_map_to_list|rewrite elem_of_nil]; naive_solver.
Qed.

Lemma holders_count counted slice :
  whole sh set p exclude counted + match slice with Some s => range_at sh set p exclude counted s | None => 0 end
  = Z.of_nat (length (holders counted slice)).
Proof.
  assert (counted ≠ Places ∨ counted = Places) as [Hp| ->] by (destruct counted; auto).
  - unfold holders. destruct counted as [| |place|]; try done; (rewrite (length_bind_sum _ (λ kr : Z * WriteRow, weight sh _ (volume_id kr.2)))
      by (intros; by apply adds_weight); unfold holding; rewrite filter_app, fmap_app, sumZ_app; f_equal; destruct slice as [s|]; [|done];
      unfold range_at; rewrite list_filter_filter; done).
  - cbn. rewrite length_fmap. destruct slice as [s|].
    + apply (count_distinct_union (λ l, place_credited sh set p exclude l = true)).
    + rewrite app_nil_r. unfold count_distinct. lia.
Qed.

(** ** Distinct things *)

Lemma place_rows_elem s slice l : l ∈ place_rows sh set exclude s slice ↔
  ∃ w r, (w, r) ∈ writes_of sh set exclude s ∧ match slice with Some x => range_holds sh w x = true | None => True end ∧
    held_at sh l (volume_id r) = true.
Proof.
  unfold place_rows, held_at. rewrite elem_of_app, list_elem_of_omap, list_elem_of_bind. split.
  - intros [([w r] & [Hs Hin]%list_elem_of_filter & Hl)|([w r] & Hl & [Hs Hin]%list_elem_of_filter)]; exists w, r;
      (split; [done|]); (split; [by destruct slice|]); apply orb_true_iff; rewrite !bool_decide_eq_true; auto.
  - intros (w & r & Hin & Hs & [Hl%bool_decide_eq_true|Hl%bool_decide_eq_true]%orb_true_iff); [left|right]; exists (w, r).
    all: repeat split; try done; apply list_elem_of_filter; split; [by destruct slice|done].
Qed.

(** What a holder is: a write of the set, and a thing its volume adds. *)
Lemma holders_elem counted slice x : x ∈ holders counted slice →
  ∃ w r, (w, r) ∈ holding slice ∧ x ∈ adds counted (volume_id r) ∧
    match counted with
    | Places => ∃ l, x = Place l ∧ place_credited sh set p exclude l = true
    | _ => tape_credited sh p r = true
    end.
Proof.
  assert (counted ≠ Places ∨ counted = Places) as [Hp| ->] by (destruct counted; auto).
  - unfold holders. destruct counted as [| |place|]; try done; intros ([w r] & Hx & [Hc Hin]%list_elem_of_filter)%list_elem_of_bind; eauto.
  - cbn. intros (l & -> & [Hc Hl]%elem_of_remove_dups%list_elem_of_filter)%list_elem_of_fmap.
    assert (∃ w r, (w, r) ∈ holding slice ∧ held_at sh l (volume_id r) = true) as (w & r & Hin & Hat).
    { unfold holding. apply elem_of_app in Hl as [(w & r & Hin & _ & Hat)%place_rows_elem|Hl].
      - exists w, r. split; [|done]. apply elem_of_app. by left.
      - destruct slice as [s|]; [|by apply not_elem_of_nil in Hl]. apply place_rows_elem in Hl as (w & r & Hin & Hr & Hat).
        exists w, r. split; [|done]. apply elem_of_app. right. by apply list_elem_of_filter. }
    exists w, r. split; [done|]. split; [|by exists l]. apply list_elem_of_fmap. exists l. split; [done|].
    unfold held_at in Hat. apply orb_true_iff in Hat as [Hat%bool_decide_eq_true|Hat%bool_decide_eq_true];
      apply elem_of_app; [left; rewrite Hat; apply list_elem_of_here|by right].
Qed.

Lemma holding_nodup slice : one_write_per_set → NoDup (holding slice) ∧
  ∀ x y, x ∈ holding slice → y ∈ holding slice → volume_id x.2 = volume_id y.2 → x = y.
Proof.
  intros Hu. split.
  - unfold holding. apply NoDup_app. split; [by apply NoDup_filter, NoDup_map_to_list|]. split.
    + intros [w r] [(_ & Hc & _) _]%list_elem_of_filter. destruct slice as [s|]; [|by intros ?%not_elem_of_nil].
      intros [_ [(_ & Hr & _) _]%list_elem_of_filter]%list_elem_of_filter. cbn in *. congruence.
    + destruct slice; [by apply NoDup_filter, NoDup_filter, NoDup_map_to_list|constructor].
  - intros [w r] [w' r'] (Hw & Hs & _)%holding_elem (Hw' & Hs' & _)%holding_elem Hv. cbn in Hv.
    assert (w = w') as <- by (eapply Hu; eauto; congruence). congruence.
Qed.

Lemma holders_nodup counted slice : one_write_per_set → NoDup (holders counted slice).
Proof.
  intros Hu. destruct (holding_nodup slice Hu) as [Hnd Hinj].
  assert (counted ≠ Places → NoDup (filter (λ kr : Z * WriteRow, tape_credited sh p kr.2 = true) (holding slice)
    ≫= λ kr, adds counted (volume_id kr.2))) as Hb.
  { intros Hp. apply NoDup_bind; [|intros; by apply adds_nodup|by apply NoDup_filter].
    intros x y z [_ Hx]%list_elem_of_filter [_ Hy]%list_elem_of_filter Hzx Hzy. apply Hinj; [done..|]. by eapply adds_distinct. }
  destruct counted; [by apply Hb..|]. cbn. apply NoDup_fmap_2; [by intros ?? [=]|apply NoDup_remove_dups].
Qed.

(** The least-covered slice counts no more than any. *)
Definition point (slice : option Z) : Prop :=
  match slice with
  | Some s => ∃ n, stage_slices (ledger_of sh) !! s = Some (mkStageSlice set n)
  | None => ∀ s n, stage_slices (ledger_of sh) !! s ≠ Some (mkStageSlice set n)
  end.

Lemma weight_nonneg counted v : 0 ≤ weight sh counted v.
Proof. destruct counted; cbn; try case_bool_decide; lia. Qed.

Lemma least_le counted slice : point slice → least_covered sh set p exclude counted ≤ Z.of_nat (length (holders counted slice)).
Proof.
  intros Hp. rewrite <- holders_count. unfold least_covered. apply Z.add_le_mono_l. case_bool_decide as Hn.
  - destruct slice as [s|]; [|done]. destruct counted; cbn; rewrite ?Hn; cbn; try done. unfold count_distinct. lia.
  - destruct (minZ _) as [n|] eqn:Hm; cbn.
    + apply minZ_elem in Hm as [Hin Hle]. destruct slice as [s|].
      * apply Hle, list_elem_of_fmap. exists s. split; [done|]. destruct Hp as [k Hk].
        apply list_elem_of_fmap. exists (s, k). split; [done|]. by apply elem_of_slices.
      * apply list_elem_of_fmap in Hin as (s & _ & ([s' k] & -> & Hk%elem_of_slices)%list_elem_of_fmap). by apply Hp in Hk.
    + destruct slice as [s|]; [|done]. exfalso. destruct Hp as [k Hk]. apply elem_of_slices in Hk.
      destruct (slices_of set (ledger_of sh)); [by apply not_elem_of_nil in Hk|done].
Qed.
End set.

(** ** The sum over the sets *)

Section sum.
Variables (p : Partition) (exclude : option Z) (counted : Counted).
Hypothesis Hu : one_write_per_set.

(** No tape, deposit or place is credited to two sets. *)
Lemma holders_disjoint a b s t x : of_xss sh p a = true → a < b → x ∈ holders a p exclude counted s → x ∉ holders b p exclude counted t.
Proof.
  intros Ha Hab (w & r & Hin & Hx & _)%holders_elem (w' & r' & Hin' & Hx' & Hc)%holders_elem.
  apply holding_elem in Hin as (Hw & <- & He & Hex & Hst). apply holding_elem in Hin' as (Hw' & <- & _).
  assert (holds_slices (write_status r) = true) as Hh.
  { unfold holds_slices. apply orb_true_iff. rewrite !bool_decide_eq_true. naive_solver. }
  assert ((w, r) ∈ write_rows sh) as Hrow by by apply elem_of_map_to_list. apply list_elem_of_In in Hrow.
  assert (counted ≠ Places ∨ counted = Places) as [Hp| Hp] by (destruct counted; auto).
  - assert (tape_credited sh p r' = true) as Ht by by destruct counted.
    assert (volume_id r = volume_id r') as Hv by by eapply adds_distinct.
    apply negb_true_iff in Ht. apply not_true_iff_false in Ht. apply Ht, existsb_exists. exists (w, r). split; [done|].
    cbn. rewrite Ha, Hh, !bool_decide_eq_true_2 by done. done.
  - rewrite Hp in Hx, Hc. destruct Hc as (l & -> & Hl). cbn in Hx. apply list_elem_of_fmap in Hx as (l' & [= <-] & Hx).
    apply negb_true_iff in Hl. apply not_true_iff_false in Hl. apply Hl, existsb_exists. exists (w, r). split; [done|].
    cbn. rewrite Ha, Hh, He, bool_decide_eq_true_2 by done. rewrite bool_decide_eq_false_2 by done. cbn.
    unfold held_at. apply orb_true_iff. rewrite !bool_decide_eq_true. apply elem_of_app in Hx as [Hx|Hx]; [|by right].
    left. destruct (shelf sh !! volume_id r); [|by apply not_elem_of_nil in Hx]. by apply list_elem_of_singleton in Hx as ->.
Qed.

(** A set that a loss leaves no copy of: at some slice, every holder is lost. *)
Definition lost_set (L : list Losable) (set : Z) : Prop :=
  ∃ slice, point set slice ∧ ∀ x, x ∈ holders set p exclude counted slice → x ∈ L.

Lemma losses_count L l : NoDup l → (∀ set, set ∈ l → of_xss sh p set = true) → (∀ set, set ∈ l → lost_set L set) →
  sumZ ((λ set, least_covered sh set p exclude counted) <$> l) ≤ Z.of_nat (length L).
Proof.
  intros Hnd Hof Hlost.
  assert (∃ H, NoDup H ∧ (∀ x, x ∈ H → x ∈ L ∧ ∃ set slice, set ∈ l ∧ x ∈ holders set p exclude counted slice) ∧
    sumZ ((λ set, least_covered sh set p exclude counted) <$> l) ≤ Z.of_nat (length H)) as (H & HH & Hin & Hle).
  { induction l as [|set l IH]; [exists []; split; [apply NoDup_nil_2|]; split; [by intros x ?%not_elem_of_nil|cbn; lia]|].
    apply NoDup_cons in Hnd as [Hni Hnd]. destruct IH as (H & HH & Hin & Hle); [done|intros; apply Hof|intros; apply Hlost|];
      [by apply list_elem_of_further..|].
    destruct (Hlost set) as (slice & Hp & Hall); [apply list_elem_of_here|]. exists (holders set p exclude counted slice ++ H).
    split; [|split].
    - apply NoDup_app. split; [by apply holders_nodup|]. split; [|done].
      intros x Hx (_ & set' & slice' & Hs' & Hx')%Hin.
      assert (of_xss sh p set = true) by apply Hof, list_elem_of_here.
      assert (of_xss sh p set' = true) by by apply Hof, list_elem_of_further.
      destruct (Z.lt_trichotomy set set') as [Hlt|[->|Hlt]]; [|done|].
      + by eapply (holders_disjoint set set').
      + by eapply (holders_disjoint set' set).
    - intros x [Hx|Hx]%elem_of_app.
      + split; [by apply Hall|]. exists set, slice. split; [apply list_elem_of_here|done].
      + apply Hin in Hx as (HL & set' & slice' & Hs & Hx). split; [done|]. exists set', slice'.
        split; [by apply list_elem_of_further|done].
    - csimpl. rewrite length_app, Nat2Z.inj_add. apply (least_le set p exclude counted) in Hp. unfold sumZ in *. cbn. lia. }
  transitivity (Z.of_nat (length H)); [done|]. apply Nat2Z.inj_le, submseteq_length, NoDup_submseteq; [done|].
  intros x Hx. by apply Hin.
Qed.
End sum.

(** ** What is left after a loss *)

(** A slice of a set (or all of it) on an eligible volume some part of whose
    count is not lost. *)
Definition still_held (exclude : option Z) (counted : Counted) (L : list Losable) (set : Z) (slice : option Z) : Prop :=
  ∃ w r x, writes (ledger_of sh) !! w = Some r ∧ stage_set_id r = set ∧ eligible_volume sh (volume_id r) = true ∧
    exclude ≠ Some (volume_id r) ∧
    (write_status r = WCompleted ∨ write_status r = WRange ∧ ∃ s, slice = Some s ∧ range_holds sh w s = true) ∧
    x ∈ adds counted (volume_id r) ∧ x ∉ L.
Definition kept_set (exclude : option Z) (counted : Counted) (L : list Losable) (set : Z) : Prop :=
  ∀ slice, point set slice → still_held exclude counted L set slice.

Definition kept_bool (p : Partition) (exclude : option Z) (counted : Counted) (L : list Losable) (set : Z) : Prop :=
  match slices_of set (ledger_of sh) with
  | [] => Exists (λ x, x ∉ L) (holders set p exclude counted None)
  | l => Forall (λ s : Z * Z, Exists (λ x, x ∉ L) (holders set p exclude counted (Some s.1))) l
  end.
#[local] Instance kept_bool_dec p exclude counted L set : Decision (kept_bool p exclude counted L set).
Proof. unfold kept_bool. destruct (slices_of set (ledger_of sh)); apply _. Defined.

Lemma no_slices set : slices_of set (ledger_of sh) = [] ↔ point set None.
Proof.
  split.
  - intros Hs s n Hsl. apply elem_of_slices in Hsl. rewrite Hs in Hsl. by apply not_elem_of_nil in Hsl.
  - intros Hn. destruct (slices_of set (ledger_of sh)) as [|[s n] l] eqn:Hs; [done|]. exfalso.
    apply (Hn s n), elem_of_slices. rewrite Hs. apply list_elem_of_here.
Qed.

Lemma kept_bool_kept p exclude counted L set : kept_bool p exclude counted L set → kept_set exclude counted L set.
Proof.
  intros Hk slice Hp.
  assert (Exists (λ x, x ∉ L) (holders set p exclude counted slice)) as Hx.
  { unfold kept_bool in Hk. destruct slice as [s|].
    - destruct Hp as [n Hn]. apply elem_of_slices in Hn. destruct (slices_of set (ledger_of sh)) as [|y l]; [by apply not_elem_of_nil in Hn|].
      rewrite Forall_forall in Hk. by apply (Hk (s, n)).
    - apply no_slices in Hp. by rewrite Hp in Hk. }
  apply Exists_exists in Hx as (x & (w & r & Hin & Hadd & _)%holders_elem & HL).
  apply holding_elem in Hin as (Hw & Hs & He & Hex & Hst). exists w, r, x. eauto 10.
Qed.

Lemma not_kept_lost p exclude counted L set : ¬ kept_bool p exclude counted L set → lost_set p exclude counted L set.
Proof.
  unfold kept_bool, lost_set. intros Hn. destruct (slices_of set (ledger_of sh)) as [|y l] eqn:Hs.
  - exists None. split; [by apply no_slices|]. apply not_Exists_Forall in Hn; [|intros x; apply _]. rewrite Forall_forall in Hn.
    intros x Hx. by apply dec_stable, (Hn x).
  - apply not_Forall_Exists in Hn; [|intros x; apply _]. apply Exists_exists in Hn as ([s n] & Hin & Hn).
    exists (Some s). split; [exists n; apply elem_of_slices; by rewrite Hs|].
    apply not_Exists_Forall in Hn; [|intros x; apply _]. rewrite Forall_forall in Hn.
    intros x Hx. by apply dec_stable, (Hn x).
Qed.

Lemma sets_of_elem p set : set ∈ sets_of sh p ↔ of_xss sh p set = true.
Proof.
  unfold sets_of. rewrite list_elem_of_filter. split; [by intros []|]. intros Ho. split; [done|]. unfold of_xss in Ho.
  destruct (set_snapshot sh !! set) as [s|] eqn:Hs; [|done]. apply list_elem_of_fmap. exists (set, s). split; [done|]. by apply elem_of_map_to_list.
Qed.

Lemma sum_survives p exclude counted L : one_write_per_set →
  Z.of_nat (length L) < sumZ ((λ set, least_covered sh set p exclude counted) <$> sets_of sh p) →
  ∃ set, of_xss sh p set = true ∧ kept_set exclude counted L set.
Proof.
  intros Hu Hlt. destruct (decide (Exists (kept_bool p exclude counted L) (sets_of sh p))) as [He|Hne].
  - apply Exists_exists in He as (set & Hin%sets_of_elem & Hk%kept_bool_kept). eauto.
  - apply not_Exists_Forall in Hne; [|apply _]. rewrite Forall_forall in Hne.
    assert (sumZ ((λ set, least_covered sh set p exclude counted) <$> sets_of sh p) ≤ Z.of_nat (length L)); [|lia].
    apply losses_count; [done|apply NoDup_filter, NoDup_fst_map_to_list|intros; by apply sets_of_elem|].
    intros set Hset. by apply not_kept_lost, Hne.
Qed.

(** The versions a count is of: one, or each current one of a unit. *)
Definition asked_of (q : CoverageQuery) (snapshot : Z) : Prop :=
  match scope q with
  | OfSnapshot s => snapshot = s
  | OfUnit u true => ∃ n, version_of sh !! snapshot = Some (u, n) ∧ is_current sh snapshot = true
  | OfUnit _ false => False
  end.

Lemma current_versions_elem u s : s ∈ current_versions sh u ↔ ∃ n, version_of sh !! s = Some (u, n) ∧ is_current sh s = true.
Proof.
  unfold current_versions. rewrite list_elem_of_filter, list_elem_of_fmap. split.
  - intros [Hc ([s' [u' n]] & -> & [Hu Hin%elem_of_map_to_list]%list_elem_of_filter)]. cbn in *. subst. eauto.
  - intros (n & Hs & Hc). split; [done|]. exists (s, (u, n)). split; [done|]. apply list_elem_of_filter.
    split; [done|]. by apply elem_of_map_to_list.
Qed.

Lemma count_le q counted snapshot : asked_of q snapshot → 0 < count_expr sh q counted →
  count_expr sh q counted ≤ scope_sum sh (mkQuery (OfSnapshot snapshot) (exclude_volume q)) counted.
Proof.
  destruct q as [[u [|]|s] exclude]; unfold asked_of, count_expr; cbn; [|done|intros ->; lia].
  intros Hs%current_versions_elem. destruct (minZ _) as [n|] eqn:Hm; cbn; [|lia]. intros _.
  apply minZ_elem in Hm as [_ Hle]. apply Hle, list_elem_of_fmap. by exists snapshot.
Qed.

Lemma survives_loss q counted snapshot L : one_write_per_set → asked_of q snapshot →
  Z.of_nat (length L) < count_expr sh q counted →
  ∃ set, set_snapshot sh !! set = Some snapshot ∧ kept_set (exclude_volume q) counted L set.
Proof.
  intros Hu Ha Hlt. assert (0 < count_expr sh q counted) as Hpos by lia. pose proof (count_le _ _ _ Ha Hpos) as Hle.
  destruct (sum_survives (Version snapshot) (exclude_volume q) counted L Hu) as (set & Ho & Hk); [by unfold scope_sum in Hle; cbn in Hle; lia|].
  exists set. split; [|done]. cbn in Ho. unfold of_xss in Ho. destruct (set_snapshot sh !! set) as [s|]; [|done].
  apply bool_decide_eq_true in Ho as ->. done.
Qed.

(** C5: a count of copies is a promise. A version counted [n] copies, its
    warehouse deposits among them, survives the loss of any fewer than [n]
    tapes and deposits: some stage set of it still has every slice held, whole
    or in a range, on an eligible volume that was not lost or whose deposit
    was not. So it is of the deposits, of the copies at one place and of the
    places counted, whatever ranges and stage sets the version is spread
    over; and a unit's count promises it of each current version. *)
Theorem counted_copies_survive q counted snapshot L : one_write_per_set → asked_of q snapshot →
  Z.of_nat (length L) < count_expr sh q counted →
  ∃ set, set_snapshot sh !! set = Some snapshot ∧ kept_set (exclude_volume q) counted L set.
Proof. exact (survives_loss q counted snapshot L). Qed.

(** ** The walk a set without a range is spared *)

Lemma range_at_none set p exclude counted s : writes_of sh set exclude WRange = [] → range_at sh set p exclude counted s = 0.
Proof. intros Hn. destruct counted; cbn; unfold place_rows; by rewrite Hn. Qed.

(** The count at a version's least-covered slice. Whatever a statement
    spares, a stage set counts what its least-covered slice counts, whole
    holders and ranges together, and one without slice rows what its whole
    holders do; so a version of one stage set has the fewest copies that
    [slice_copies] lists. *)
Theorem least_covered_is_the_minimum set p exclude counted :
  least_covered sh set p exclude counted =
    match minZ (at_slice sh set p exclude counted <$> (slices_of set (ledger_of sh)).*1) with
    | Some n => n
    | None => whole sh set p exclude counted
    end.
Proof.
  unfold least_covered. set (slices := (slices_of set (ledger_of sh)).*1).
  assert (∀ (f : Z → Z) k, minZ ((λ s, k + f s) <$> slices) = (λ n, k + n) <$> minZ (f <$> slices)) as Hmin.
  { intros f k. destruct (minZ (f <$> slices)) as [n|] eqn:Hm.
    - apply minZ_elem in Hm as [(s & -> & Hs)%list_elem_of_fmap Hle]. cbn. apply minZ_elem. split.
      + apply list_elem_of_fmap. by exists s.
      + intros y (s' & -> & Hs')%list_elem_of_fmap. apply Z.add_le_mono_l, Hle, list_elem_of_fmap. by exists s'.
    - by destruct slices. }
  unfold at_slice at 1. rewrite Hmin. case_bool_decide as Hn.
  - assert (range_at sh set p exclude counted <$> slices = (λ _, 0) <$> slices) as ->
      by (apply list_fmap_ext; intros; by apply range_at_none).
    destruct slices as [|s l] eqn:Hl; cbn; [lia|]. enough (fold_right Z.min 0 ((λ _, 0) <$> l) = 0) by lia.
    clear. induction l as [|s l IH]; [done|]. cbn. rewrite IH. lia.
  - destruct (minZ (range_at sh set p exclude counted <$> slices)); cbn; [done|lia].
Qed.
End held.
