(* ===== verification/Release.v ===== *)
(** * Giving coverage up: retiring a volume, releasing a version

    What a retirement consumes and the floor it may not pass
    ([src/policy/coverage.rs], [src/cli/operations.rs]), and when an older
    version may be released ([src/policy/reclaimable.rs]). *)

From S2P Require Import Prelude LayoutModel Session Ledger Coverage.
Local Open Scope Z_scope.
Local Open Scope rust_scope.

Section stake.
Variables (sh : Shelves).

(** ** What a retirement consumes *)

Definition volume_row (v : Z) : option VolumeRow := volumes (ledger_of sh) !! v.
Definition position_rows : list ((Z * Z) * PositionRow) := map_to_list (write_positions (ledger_of sh)).

(** A [written] position of the slice in a finished write on an eligible
    volume other than [v]. *)
Definition held_elsewhere (slice v : Z) : bool :=
  existsb (λ kr : (Z * Z) * PositionRow,
    bool_decide (kr.1.2 = slice) && bool_decide (row_status kr.2 = PWritten)
      && match writes (ledger_of sh) !! kr.1.1 with
         | Some r => negb (bool_decide (volume_id r = v)) && holds_slices (write_status r) && eligible_volume sh (volume_id r)
         | None => false
         end) position_rows.

(** A range no other eligible volume holds a slice of. *)
Definition sole_range (v w : Z) : bool :=
  existsb (λ kr : (Z * Z) * PositionRow,
    bool_decide (kr.1.1 = w) && bool_decide (row_status kr.2 = PWritten) && negb (held_elsewhere kr.1.2 v)) position_rows.

Record VersionAtStake : Type := mkAtStake {
  vs_snapshot : Z;
  vs_volume : Z;
  vs_version : Z;
  copies_after : Z;
  locations_after : Z;
}.

(** The version's write on the volume puts it at stake. *)
Definition at_stake_by (v snapshot : Z) (kr : Z * WriteRow) : bool :=
  bool_decide (volume_id kr.2 = v) && bool_decide (set_snapshot sh !! stage_set_id kr.2 = Some snapshot)
  && match status_of_snapshot sh snapshot, volume_row v with
     | Some st, Some row =>
         bool_decide (st = SnapCurrent) && write_reaches_tape kr.2 && holds_sealed_bytes row
         || bool_decide (st ∉ [SnapCurrent; SnapReclaimable; SnapPurged]) && bool_decide (write_status kr.2 = WRange)
              && eligible row && sole_range v kr.1
     | _, _ => false
     end.

(** [DISTINCT] is by snapshot; [ORDER BY s.version]. *)
Definition by_version (a b : Z * (Z * Z)) : Prop := a.2.2 ≤ b.2.2.
#[export] Instance by_version_dec : RelDecision by_version.
Proof. intros a b. unfold by_version. apply _. Defined.
Definition versions_at_stake (u v : Z) : list VersionAtStake :=
  (λ x : Z * (Z * Z),
     mkAtStake x.1 v x.2.2 (copy_count_expr sh (mkQuery (OfSnapshot x.1) (Some v)))
       (location_count_expr sh (mkQuery (OfSnapshot x.1) (Some v)))) <$>
    merge_sort by_version
      (filter (λ x : Z * (Z * Z), x.2.1 = u ∧ existsb (at_stake_by v x.1) (write_rows sh) = true) (map_to_list (version_of sh))).

(** [sole_slices]: the live slices of a volume no other eligible one holds. *)
Definition live (snapshot : Z) : bool :=
  match status_of_snapshot sh snapshot with
  | Some st => bool_decide (st ∉ [SnapReclaimable; SnapPurged])
  | None => false
  end.
Definition sole_slices (v : Z) : list Z :=
  remove_dups (omap (λ kr : (Z * Z) * PositionRow,
    w ← writes (ledger_of sh) !! kr.1.1;
    sl ← stage_slices (ledger_of sh) !! kr.1.2;
    snapshot ← set_snapshot sh !! slice_set_id sl;
    if bool_decide (volume_id w = v) && holds_slices (write_status w) && bool_decide (row_status kr.2 = PWritten)
       && live snapshot && negb (held_elsewhere kr.1.2 v)
    then Some kr.1.2 else None) position_rows).

(** ** The retire family's gates: [src/cli/operations.rs] *)

Record RetireImpact : Type := mkImpact {
  im_unit : Z;
  im_name : string;
  im_status : string;
  other_copies : Z;
  at_stake : list VersionAtStake;
}.

(** The units with a write on the volume that reached the tape, by name. *)
Definition by_called (a b : Z * UnitRow) : Prop := by_name (unit_called a.2) (unit_called b.2).
#[export] Instance by_called_dec : RelDecision by_called.
Proof. intros a b. unfold by_called. apply _. Defined.
Definition touched (v u : Z) (kr : Z * WriteRow) : bool :=
  bool_decide (volume_id kr.2 = v) && write_reaches_tape kr.2
  && match set_snapshot sh !! stage_set_id kr.2 ≫= (version_of sh !!.) with
     | Some (u', _) => bool_decide (u' = u)
     | None => false
     end.
Definition retire_impacts (v : Z) : list RetireImpact :=
  (λ x : Z * UnitRow,
     mkImpact x.1 (unit_called x.2) (unit_state x.2) (copy_count_expr sh (mkQuery (OfUnit x.1 false) (Some v)))
       (versions_at_stake x.1 v)) <$>
    merge_sort by_called (filter (λ x : Z * UnitRow, existsb (touched v x.1) (write_rows sh) = true) (map_to_list (units sh))).

(** Tier 3: the versions whose last copy this is, by unit and version. *)
Definition doomed (impacts : list RetireImpact) : list (string * VersionAtStake) :=
  impacts ≫= λ i, (λ x, (im_name i, x)) <$> filter (λ x, copies_after x = 0) (at_stake i).
Inductive RetireError (E : Type) : Type :=
| VolumeNotFound
| LastCopy (versions : list (string * VersionAtStake))
| PolicyUnresolvable (e : E)
| ConsentRefused.
Arguments VolumeNotFound {E}.
Arguments LastCopy {E} _.
Arguments PolicyUnresolvable {E} _.
Arguments ConsentRefused {E}.
Definition refuse_last_eligible_copy {E} (impacts : list RetireImpact) : result (RetireError E) () :=
  let d := doomed impacts in if bool_decide (length d = 0%nat) then Ok () else Err (LastCopy d).

(** Tier 2: what would fall below policy. *)
Inductive BelowPolicy : Type :=
| BelowCopies (name : string) (version after needed : Z)
| NoCopyLeftAt (name : string) (version : Z) (missing : list string)
| FewLeftAt (name : string) (version : Z) (partly : list LocationShort)
| BelowPlaces (name : string) (version : Z) (short : PlaceShortfall).

Context {E : Type}.
Variables (config : Config) (resolve : Z → result E ResolvedPolicy).

Definition version_facts (i : RetireImpact) (policy : ResolvedPolicy) (x : VersionAtStake) : list BelowPolicy :=
  let needed := copy_floor config (copy_floor_base policy) (im_status i) in
  let s := NamedSnapshot (vs_snapshot x) in
  let short := short_of_copies_at config sh s policy (im_status i) (Some (vs_volume x)) in
  let missing := locations_without_a_copy short in
  let partly := filter (λ l, 0 < ls_copies l) short in
  (if bool_decide (copies_after x < needed) then [BelowCopies (im_name i) (vs_version x) (copies_after x) needed] else [])
  ++ (if bool_decide (missing = []) then [] else [NoCopyLeftAt (im_name i) (vs_version x) missing])
  ++ (if bool_decide (length partly = 0%nat) then [] else [FewLeftAt (im_name i) (vs_version x) partly])
  ++ match short_of_location_floor_excluding config sh s (im_status i) (Some (vs_volume x)) with
     | Some p => [BelowPlaces (im_name i) (vs_version x) p]
     | None => []
     end.
Fixpoint below_policy_facts (impacts : list RetireImpact) : result E (list BelowPolicy) :=
  match impacts with
  | [] => Ok []
  | i :: impacts =>
      let gated := filter (λ x, copies_after x ≠ 0) (at_stake i) in
      facts ← (if bool_decide (length gated = 0%nat) then Ok []
               else policy ← resolve (im_unit i); Ok (gated ≫= version_facts i policy));
      rest ← below_policy_facts impacts;
      Ok (facts ++ rest)
  end.

(** Everything [volume_retire] asks before it changes a row. [consent]: what
    the operator, or [--yes], answers. *)
Definition retire_gate (consent : bool) (v : Z) : result (RetireError E) () :=
  _ ← ok_or (volume_row v) VolumeNotFound;
  let impacts := retire_impacts v in
  refuse_last_eligible_copy impacts;;
  facts ← map_err PolicyUnresolvable (below_policy_facts impacts);
  let at_risk := filter (λ i, other_copies i = 0) impacts in
  guard_err (negb (bool_decide (length facts = 0%nat) && bool_decide (length at_risk = 0%nat)) && negb consent) ConsentRefused.

(** ** Releasing a version: [policy::reclaimable] *)

Inductive BlockedWhy : Type :=
| NoSuperseding
| FewCopies (copies required : Z)
| NoCopyAt (missing : list string)
| ShortAt (short : list LocationShort)
| FewPlaces (short : PlaceShortfall).
Inductive ReclaimVerdict : Type :=
| Releasable (superseding_version freeable_bytes : Z)
| Blocked (superseding_version : option Z) (freeable_bytes : Z) (reason : BlockedWhy).

(** A version's written bytes, its slices counted once. *)
Definition freeable_bytes (snapshot : Z) : Z :=
  sumZ ((λ set,
    if existsb (λ kr : Z * WriteRow, bool_decide (stage_set_id kr.2 = set) && bool_decide (write_status kr.2 = WCompleted)
                  && eligible_volume sh (volume_id kr.2)) (write_rows sh)
    then sumZ ((λ s : Z * Z, default 0 (encrypted_bytes sh !! s.1)) <$> slices_of set (ledger_of sh)) else 0)
    <$> sets_of sh (Version snapshot)).

Definition superseding_verdict (u : Z) (unit_status : string) (superseding : Z * Z) (freeable : Z) : result E ReclaimVerdict :=
  resolved ← resolve u;
  let required := copy_floor config (copy_floor_base resolved) unit_status in
  let copies := copy_count_expr sh (mkQuery (OfSnapshot superseding.1) None) in
  let blocked why := Ok (Blocked (Some superseding.2) freeable why) in
  if bool_decide (copies < required) then blocked (FewCopies copies required)
  else
    let short := short_of_copies_at config sh (NamedSnapshot superseding.1) resolved unit_status None in
    let missing := locations_without_a_copy short in
    if negb (bool_decide (missing = [])) then blocked (NoCopyAt missing)
    else if negb (bool_decide (length short = 0%nat)) then blocked (ShortAt short)
    else match short_of_location_floor_excluding config sh (NamedSnapshot superseding.1) unit_status None with
         | Some p => blocked (FewPlaces p)
         | None => Ok (Releasable superseding.2 freeable)
         end.

(** The highest current version of a unit above a version. *)
Definition versions_of (u : Z) : list (Z * Z) :=
  (λ x : Z * (Z * Z), (x.1, x.2.2)) <$> filter (λ x : Z * (Z * Z), x.2.1 = u) (map_to_list (version_of sh)).
Definition highest (l : list (Z * Z)) : option (Z * Z) :=
  fold_right (λ x best, match best with Some b => if bool_decide (b.2 < x.2) then Some x else Some b | None => Some x end) None l.
Definition superseding_of (u version : Z) : option (Z * Z) :=
  highest (filter (λ x : Z * Z, version < x.2 ∧ is_current sh x.1 = true) (versions_of u)).
Definition snapshot_at (u version : Z) : option Z :=
  fst <$> head (filter (λ x : Z * Z, x.2 = version) (versions_of u)).

Definition state_of (u : Z) : string := match units sh !! u with Some r => unit_state r | None => ""%string end.

Definition assess (u version : Z) : result E ReclaimVerdict :=
  let freeable := match snapshot_at u version with Some s => freeable_bytes s | None => 0 end in
  match superseding_of u version with
  | None => Ok (Blocked None freeable NoSuperseding)
  | Some s => superseding_verdict u (state_of u) s freeable
  end.

(** ** The report: [policy::reclaimable::candidates] *)

Record Candidate : Type := mkCandidate {
  cand_unit : Z;
  cand_name : string;
  cand_version : Z;
  cand_verdict : ReclaimVerdict;
}.
(** Every current version below its unit's highest, by unit name and version,
    with that highest and the bytes it would free. *)
Definition lower_version (a b : Z * Z) : Prop := a.2 ≤ b.2.
#[export] Instance lower_version_dec : RelDecision lower_version.
Proof. intros a b. unfold lower_version. apply _. Defined.
Definition candidate_rows : list ((Z * UnitRow) * (Z * (Z * Z) * Z)) :=
  merge_sort by_called (map_to_list (units sh)) ≫= λ u : Z * UnitRow,
    let current := filter (λ x : Z * Z, is_current sh x.1 = true) (versions_of u.1) in
    match highest current with
    | Some top =>
        (λ s : Z * Z, (u, (s.2, top, freeable_bytes s.1))) <$>
          merge_sort lower_version (filter (λ s : Z * Z, s.2 < top.2) current)
    | None => []
    end.
Definition with_freeable (f : Z) (x : ReclaimVerdict) : ReclaimVerdict :=
  match x with Releasable n _ => Releasable n f | Blocked n _ why => Blocked n f why end.

(** The policy is asked once per unit. *)
Fixpoint judge_candidates (rows : list ((Z * UnitRow) * (Z * (Z * Z) * Z))) (asked : option (Z * ReclaimVerdict))
    : result E (list Candidate) :=
  match rows with
  | [] => Ok []
  | (u, (version, superseding, freeable)) :: rows =>
      let ask := superseding_verdict u.1 (unit_state u.2) superseding 0 in
      verdict ← match asked with Some (id, x) => if bool_decide (id = u.1) then Ok x else ask | None => ask end;
      rest ← judge_candidates rows (Some (u.1, verdict));
      Ok (mkCandidate u.1 (unit_called u.2) version (with_freeable freeable verdict) :: rest)
  end.
Definition candidates : result E (list Candidate) := judge_candidates candidate_rows None.

(** [snapshot mark-reclaimable]. *)
Inductive MarkError : Type :=
| NoSuchVersion
| AlreadyReclaimable
| OnlyCurrentVersion
| MarkNotConsented (why : BlockedWhy)
| MarkUnresolvable (e : E).
Definition mark_reclaimable (force consent : bool) (u version : Z) : result MarkError Ledger :=
  s ← ok_or (snapshot_at u version) NoSuchVersion;
  guard_err (bool_decide (status_of_snapshot sh s = Some SnapReclaimable)) AlreadyReclaimable;;
  verdict ← map_err MarkUnresolvable (assess u version);
  match verdict with
  | Releasable _ _ => Ok ()
  | Blocked None _ _ => guard_err (negb force) OnlyCurrentVersion
  | Blocked (Some _) _ why => guard_err (negb (force || consent)) (MarkNotConsented why)
  end;;
  Ok (set_snapshots (alter (λ _, SnapReclaimable) s) (ledger_of sh)).
End stake.
Arguments VolumeNotFound {E}.
Arguments LastCopy {E} _.
Arguments PolicyUnresolvable {E} _.
Arguments ConsentRefused {E}.

(** [volume retire]: [meanwhile] is what other processes do to the catalog
    between the gate's reads and the transaction. *)
Definition volume_retire {E} (config : Config) (resolve : Z → result E ResolvedPolicy) (consent : bool) (v : Z)
    (meanwhile : Ledger → Ledger) (sh : Shelves) : result (RetireError E) () * Shelves :=
  match retire_gate sh config resolve consent v with
  | Err e => (Err e, sh)
  | Ok _ => (Ok (), with_ledger (set_volume v (with_volume_status VRetired) (meanwhile (ledger_of sh))) sh)
  end.
