(* ===== verification/ReleaseSound.v ===== *)
(** * What giving coverage up leaves

    A volume pretended away is one given up; a retirement that passes its
    floor takes no current version's last copy; a version is released only
    under one that meets the policy; and the report lists what the gate
    accepts. *)

From S2P Require Import Prelude LayoutModel Session Ledger LedgerSound Coverage CoverageSound Release.
Local Open Scope Z_scope.
Local Open Scope rust_scope.

(** ** Pretending a volume away *)

Definition retired (v : Z) (sh : Shelves) : Shelves :=
  with_ledger (set_volume v (with_volume_status VRetired) (ledger_of sh)) sh.

Section excluded.
Variables (sh : Shelves) (v : Z).

Lemma retired_eligible u : eligible_volume (retired v sh) u = eligible_volume sh u && negb (bool_decide (u = v)).
Proof.
  unfold eligible_volume. cbn. destruct (decide (u = v)) as [->|Hne].
  - rewrite lookup_alter_eq, bool_decide_eq_true_2 by done. destruct (volumes (ledger_of sh) !! v) as [r|]; [|done].
    cbn. by rewrite andb_false_r.
  - rewrite lookup_alter_ne by done. rewrite bool_decide_eq_false_2 by done. by rewrite andb_true_r.
Qed.

Lemma retired_writes set s : writes_of (retired v sh) set None s = writes_of sh set (Some v) s.
Proof.
  unfold writes_of, write_rows. apply filter_ext_in. intros [w r] _. cbn. rewrite retired_eligible, andb_true_iff, negb_true_iff, bool_decide_eq_false.
  naive_solver.
Qed.

Lemma retired_place_credited set p l : place_credited (retired v sh) set p None l = place_credited sh set p (Some v) l.
Proof.
  unfold place_credited. f_equal. unfold write_rows. cbn. induction (map_to_list (writes (ledger_of sh))) as [|[w r] rows IH]; [done|].
  cbn. rewrite IH. f_equal. rewrite retired_eligible. change (of_xss (retired v sh) p) with (of_xss sh p).
  change (held_at (retired v sh)) with (held_at sh).
  replace (bool_decide (None = Some (volume_id r))) with false by done.
  replace (bool_decide (Some v = Some (volume_id r))) with (bool_decide (volume_id r = v)).
  - destruct (of_xss sh p (stage_set_id r)), (bool_decide (stage_set_id r < set)), (holds_slices (write_status r)),
      (eligible_volume sh (volume_id r)), (bool_decide (volume_id r = v)), (held_at sh l (volume_id r)); done.
  - apply bool_decide_ext. naive_solver.
Qed.

Lemma retired_place_rows set s slice : place_rows (retired v sh) set None s slice = place_rows sh set (Some v) s slice.
Proof. unfold place_rows. rewrite retired_writes. done. Qed.

Lemma retired_least set p counted : least_covered (retired v sh) set p None counted = least_covered sh set p (Some v) counted.
Proof.
  unfold least_covered. rewrite retired_writes.
  assert (whole (retired v sh) set p None counted = whole sh set p (Some v) counted) as ->.
  { destruct counted; cbn; rewrite ?retired_writes, ?retired_place_rows; try done. f_equal. apply filter_ext_in.
    intros l _. by rewrite retired_place_credited. }
  assert (∀ s, range_at (retired v sh) set p None counted s = range_at sh set p (Some v) counted s) as Hr.
  { intros s. destruct counted; cbn; rewrite ?retired_writes, ?retired_place_rows; try done. f_equal. apply filter_ext_in.
    intros l _. by rewrite retired_place_credited. }
  f_equal. case_bool_decide; [done|]. do 2 f_equal. apply list_fmap_ext. intros ? s _. apply Hr.
Qed.

Lemma scope_sum_retired sc counted : scope_sum (retired v sh) (mkQuery sc None) counted = scope_sum sh (mkQuery sc (Some v)) counted.
Proof.
  unfold scope_sum. cbn. f_equal. change (sets_of (retired v sh)) with (sets_of sh). apply list_fmap_ext. intros ? set _. apply retired_least.
Qed.

Lemma count_retired sc counted : count_expr (retired v sh) (mkQuery sc None) counted = count_expr sh (mkQuery sc (Some v)) counted.
Proof.
  unfold count_expr. destruct sc as [u [|]|s]; cbn; [|by rewrite scope_sum_retired..].
  change (current_versions (retired v sh)) with (current_versions sh). do 2 f_equal. apply list_fmap_ext. intros ? s _. apply scope_sum_retired.
Qed.

(** A volume pretended away is a volume given up. Every count asked with
    a volume excluded, of copies, deposits, places or copies at a place, of a
    version, of a unit's current versions or of all of them, is the count the
    catalog gives once the volume is retired. *)
Theorem excluded_is_given_up sc counted :
  count_expr sh (mkQuery sc (Some v)) counted = count_expr (retired v sh) (mkQuery sc None) counted.
Proof. symmetry. apply count_retired. Qed.
End excluded.

(** ** The floor of a retirement *)

Section floor.
Variables (sh : Shelves) (v : Z).

(** Nothing of the version on the volume counts. *)
Definition stake_free (s : Z) : Prop := ∀ w r, writes (ledger_of sh) !! w = Some r → volume_id r = v →
  set_snapshot sh !! stage_set_id r = Some s → holds_slices (write_status r) = true → eligible_volume sh v = false.

Lemma of_version s set : of_xss sh (Version s) set = true ↔ set_snapshot sh !! set = Some s.
Proof.
  unfold of_xss. destruct (set_snapshot sh !! set) as [s'|]; [|done]. rewrite bool_decide_eq_true. naive_solver.
Qed.

Lemma free_writes s set st : stake_free s → of_xss sh (Version s) set = true → holds_slices st = true →
  writes_of sh set (Some v) st = writes_of sh set None st.
Proof.
  intros Hf Ho Hst. unfold writes_of. apply filter_ext_in. intros [w r] Hin%elem_of_map_to_list. cbn.
  assert (stage_set_id r = set → write_status r = st → eligible_volume sh (volume_id r) = true → Some v ≠ Some (volume_id r)); [|naive_solver].
  intros <- <- He [= Hv]. rewrite <- Hv in He. apply of_version in Ho. by rewrite (Hf w r) in He.
Qed.

Lemma free_place_credited s set l : stake_free s →
  place_credited sh set (Version s) (Some v) l = place_credited sh set (Version s) None l.
Proof.
  intros Hf. unfold place_credited. f_equal. unfold write_rows.
  assert (∀ kr, kr ∈ map_to_list (writes (ledger_of sh)) → writes (ledger_of sh) !! kr.1 = Some kr.2) as Hin.
  { intros [w r]. by rewrite elem_of_map_to_list. }
  induction (map_to_list (writes (ledger_of sh))) as [|[w r] rows IH]; [done|]. cbn.
  rewrite IH by (intros; by apply Hin, list_elem_of_further). f_equal.
  assert (writes (ledger_of sh) !! w = Some r) as Hw by apply (Hin (w, r)), list_elem_of_here.
  destruct (of_xss sh (Version s) (stage_set_id r)) eqn:Ho; [|done]. destruct (bool_decide (stage_set_id r < set)); [|done].
  destruct (holds_slices (write_status r)) eqn:Hh; [|done]. destruct (eligible_volume sh (volume_id r)) eqn:He; [|done]. cbn.
  rewrite (bool_decide_eq_false_2 (Some v = _)), (bool_decide_eq_false_2 (None = _)); [done|done|].
  intros [= Hv]. rewrite <- Hv in He. apply of_version in Ho. by rewrite (Hf w r) in He.
Qed.

Lemma free_least s set counted : stake_free s → of_xss sh (Version s) set = true →
  least_covered sh set (Version s) (Some v) counted = least_covered sh set (Version s) None counted.
Proof.
  intros Hf Ho. assert (∀ st, holds_slices st = true → writes_of sh set (Some v) st = writes_of sh set None st) as Hw
    by (intros; by eapply free_writes).
  assert (∀ st slice, holds_slices st = true → place_rows sh set (Some v) st slice = place_rows sh set None st slice) as Hp
    by (intros; unfold place_rows; by rewrite Hw).
  unfold least_covered. rewrite (Hw WRange) by done.
  assert (whole sh set (Version s) (Some v) counted = whole sh set (Version s) None counted) as ->.
  { destruct counted; cbn; rewrite ?(Hw WCompleted), ?(Hp WCompleted) by done; try done. f_equal. apply filter_ext_in.
    intros l _. by rewrite free_place_credited. }
  assert (∀ x, range_at sh set (Version s) (Some v) counted x = range_at sh set (Version s) None counted x) as Hr.
  { intros x. destruct counted; cbn; rewrite ?(Hw WRange), ?(Hp WRange), ?(Hp WCompleted) by done; try done. f_equal. apply filter_ext_in.
    intros l _. by rewrite free_place_credited. }
  f_equal. case_bool_decide; [done|]. do 2 f_equal. apply list_fmap_ext. intros ? x _. apply Hr.
Qed.

Lemma free_count s counted : stake_free s →
  count_expr sh (mkQuery (OfSnapshot s) (Some v)) counted = count_expr sh (mkQuery (OfSnapshot s) None) counted.
Proof.
  intros Hf. unfold count_expr, scope_sum. cbn. f_equal. apply list_fmap_ext. intros i set Hin.
  apply free_least; [done|]. apply sets_of_elem. by eapply list_elem_of_lookup_2.
Qed.

Lemma eligible_holds row : eligible row = true → holds_sealed_bytes row = true.
Proof. unfold eligible, holds_sealed_bytes, given_up. rewrite andb_true_iff, bool_decide_eq_true. by intros [-> ->]. Qed.

Lemma holds_reaches r : holds_slices (write_status r) = true → write_reaches_tape r = true.
Proof. unfold holds_slices, write_reaches_tape. by destruct (write_status r). Qed.

Lemma at_stake_or_free s : is_current sh s = true →
  stake_free s ∨ ∃ w r, writes (ledger_of sh) !! w = Some r ∧ at_stake_by sh v s (w, r) = true.
Proof.
  intros Hc. destruct (existsb (at_stake_by sh v s) (write_rows sh)) eqn:He.
  - right. apply existsb_exists in He as ([w r] & Hin & Hs). apply list_elem_of_In, elem_of_map_to_list in Hin. eauto.
  - left. intros w r Hw Hv Hset Hh. apply not_true_is_false. intros Hel. apply not_true_iff_false in He. apply He.
    apply existsb_exists. exists (w, r). split; [by apply list_elem_of_In, elem_of_map_to_list|].
    unfold at_stake_by. cbn. rewrite !bool_decide_eq_true_2 by done. cbn. apply bool_decide_eq_true in Hc. rewrite Hc.
    unfold eligible_volume in Hel. unfold volume_row. destruct (volumes (ledger_of sh) !! v) as [row|]; [|done].
    rewrite bool_decide_eq_true_2 by done. by rewrite (holds_reaches _ Hh), (eligible_holds _ Hel).
Qed.

Lemma stake_touches u s n w r : version_of sh !! s = Some (u, n) → at_stake_by sh v s (w, r) = true → touched sh v u (w, r) = true.
Proof.
  intros Hs Ha. unfold at_stake_by in Ha. cbn in Ha. rewrite !andb_true_iff, !bool_decide_eq_true in Ha. destruct Ha as [[Hv Hset] Ha].
  unfold touched. cbn. rewrite Hset. cbn. rewrite Hs, !bool_decide_eq_true_2 by done. rewrite andb_true_r. cbn.
  destruct (status_of_snapshot sh s) as [st|]; [|done]. destruct (volume_row sh v); [|done].
  apply orb_true_iff in Ha as [Ha|Ha]; rewrite !andb_true_iff in Ha.
  - by destruct Ha as [[_ ?] _].
  - destruct Ha as [[[_ Hr%bool_decide_eq_true] _] _]. unfold write_reaches_tape. by rewrite Hr.
Qed.

(** The floor saw every version the volume's writes put at stake. *)
Lemma floor_sees {E} u s n w r name :
  refuse_last_eligible_copy (E := E) (retire_impacts sh v) = Ok () → units sh !! u = Some name → version_of sh !! s = Some (u, n) →
  writes (ledger_of sh) !! w = Some r → at_stake_by sh v s (w, r) = true →
  copy_count_expr sh (mkQuery (OfSnapshot s) (Some v)) ≠ 0.
Proof.
  intros Href Hu Hs Hw Ha Hz.
  unfold refuse_last_eligible_copy in Href. case_bool_decide as Hd; [|done]. apply length_zero_iff_nil in Hd.
  set (stake := mkAtStake s v n (copy_count_expr sh (mkQuery (OfSnapshot s) (Some v))) (location_count_expr sh (mkQuery (OfSnapshot s) (Some v)))).
  assert ((unit_called name, stake) ∈ doomed (retire_impacts sh v)) as Hin; [|rewrite Hd in Hin; by apply not_elem_of_nil in Hin].
  assert ((w, r) ∈ write_rows sh) as Hrow by by apply elem_of_map_to_list.
  assert (∀ f, f (w, r) = true → existsb f (write_rows sh) = true) as Hex.
  { intros f Hf. apply existsb_exists. exists (w, r). split; [by apply list_elem_of_In|done]. }
  unfold doomed. apply list_elem_of_bind. eexists. split; cycle 1.
  - unfold retire_impacts. apply list_elem_of_fmap. exists (u, name). split; [done|]. rewrite merge_sort_Permutation.
    apply list_elem_of_filter. split; [|by apply elem_of_map_to_list]. apply Hex. by eapply stake_touches.
  - cbn. apply list_elem_of_fmap. exists stake. split; [done|]. apply list_elem_of_filter. split; [done|].
    unfold versions_at_stake. apply list_elem_of_fmap. exists (s, (u, n)). split; [done|]. rewrite merge_sort_Permutation.
    apply list_elem_of_filter. split; [|by apply elem_of_map_to_list]. split; [done|]. by apply Hex.
Qed.
End floor.

Lemma least_nonneg sh set p exclude counted : 0 ≤ least_covered sh set p exclude counted.
Proof.
  assert (∀ l : list (Z * WriteRow), 0 ≤ sumZ ((λ kr : Z * WriteRow, weight sh counted (volume_id kr.2)) <$> l)) as Hs.
  { intros l. apply sumZ_nonneg, Forall_forall. intros x (kr & -> & _)%list_elem_of_fmap. apply weight_nonneg. }
  assert (0 ≤ whole sh set p exclude counted) by (destruct counted; try apply Hs; cbn; unfold count_distinct; lia).
  assert (∀ x, 0 ≤ range_at sh set p exclude counted x) as Hr by (intros x; destruct counted; try apply Hs; cbn; unfold count_distinct; lia).
  unfold least_covered. case_bool_decide; [lia|]. destruct (minZ _) as [n|] eqn:Hm; cbn; [|lia].
  apply minZ_elem in Hm as [(x & -> & _)%list_elem_of_fmap _]. pose proof (Hr x). lia.
Qed.

Lemma version_nonneg sh s exclude counted : 0 ≤ count_expr sh (mkQuery (OfSnapshot s) exclude) counted.
Proof. apply sumZ_nonneg, Forall_forall. intros x (set & -> & _)%list_elem_of_fmap. apply least_nonneg. Qed.

Section retire.
Context {E : Type}.
Variables (config : Config) (resolve : Z → result E ResolvedPolicy).

(** The schema's [REFERENCES units]. *)
Definition units_known (sh : Shelves) : Prop := ∀ s u n, version_of sh !! s = Some (u, n) → is_Some (units sh !! u).

Lemma retired_unique v sh : one_write_per_set sh → one_write_per_set (retired v sh).
Proof. done. Qed.

(** A whole set of the version is on eligible volumes. *)
Definition readable_whole (sh : Shelves) (s : Z) : Prop :=
  ∃ set, set_snapshot sh !! set = Some s ∧ kept_set sh None Copies [] set.

Lemma left_readable v sh s : one_write_per_set sh → 0 < copy_count_expr sh (mkQuery (OfSnapshot s) (Some v)) →
  readable_whole (retired v sh) s.
Proof.
  intros Hu Hc. unfold copy_count_expr in Hc. rewrite <- count_retired in Hc.
  by apply (survives_loss (retired v sh) (mkQuery (OfSnapshot s) None) Copies s []).
Qed.

(** A version still being spanned, some slice of which only this volume holds. *)
Definition sole_span (sh : Shelves) (v s : Z) : Prop :=
  ∃ w r slice row st, writes (ledger_of sh) !! w = Some r ∧ volume_id r = v ∧ set_snapshot sh !! stage_set_id r = Some s ∧
    status_of_snapshot sh s = Some st ∧ st ∉ [SnapCurrent; SnapReclaimable; SnapPurged] ∧ write_status r = WRange ∧
    eligible_volume sh v = true ∧ write_positions (ledger_of sh) !! (w, slice) = Some row ∧ row_status row = PWritten ∧
    held_elsewhere sh slice v = false.

Lemma sole_at_stake sh v s : sole_span sh v s → ∃ w r, writes (ledger_of sh) !! w = Some r ∧ at_stake_by sh v s (w, r) = true.
Proof.
  intros (w & r & slice & row & st & Hw & Hv & Hset & Hst & Hn & Hr & He & Hpos & Hwr & Hno). exists w, r. split; [done|].
  unfold at_stake_by. cbn. rewrite !bool_decide_eq_true_2 by done. cbn. rewrite Hst. unfold eligible_volume in He. unfold volume_row.
  destruct (volumes (ledger_of sh) !! v) as [vr|]; [|done]. rewrite (bool_decide_eq_true_2 (st ∉ _)), He by done.
  cbn. apply orb_true_iff. right. apply existsb_exists. exists ((w, slice), row). split.
  - by apply list_elem_of_In, elem_of_map_to_list.
  - cbn. rewrite !bool_decide_eq_true_2 by done. by rewrite Hno.
Qed.

(** A floor passed leaves every version it covers whole, the volume given up. *)
Lemma floor_keeps v sh u s n : one_write_per_set sh → units_known sh →
  refuse_last_eligible_copy (E := E) (retire_impacts sh v) = Ok () → version_of sh !! s = Some (u, n) →
  (is_current sh s = true ∧ 0 < copy_count_expr sh (mkQuery (OfSnapshot s) None) ∨ sole_span sh v s) →
  readable_whole (retired v sh) s.
Proof.
  intros Hu Hk Hg Hs Hcase. destruct (Hk _ _ _ Hs) as [name Hname].
  assert (∀ w x, writes (ledger_of sh) !! w = Some x → at_stake_by sh v s (w, x) = true →
    0 < copy_count_expr sh (mkQuery (OfSnapshot s) (Some v))) as Hstake.
  { intros w x Hw Ha. pose proof (floor_sees sh v u s n w x name Hg Hname Hs Hw Ha).
    pose proof (version_nonneg sh s (Some v) Copies). unfold copy_count_expr in *. lia. }
  apply left_readable; [done|]. destruct Hcase as [[Hc Hcopies]|Hsole].
  - destruct (at_stake_or_free sh v s Hc) as [Hfree|(w & x & Hw & Ha)]; [|by eapply Hstake].
    unfold copy_count_expr in *. by rewrite free_count.
  - destruct (sole_at_stake _ _ _ Hsole) as (w & x & Hw & Ha). by eapply Hstake.
Qed.

(** What other processes leave of the copies on the other tapes: they give none
    of those up, lose no row that counts there, and cut no stored set anew. *)
Record keeps_copies (v : Z) (c c' : Ledger) : Prop := {
  keeps_eligible : ∀ u row, u ≠ v → volumes c !! u = Some row → eligible row = true →
    ∃ row', volumes c' !! u = Some row' ∧ eligible row' = true;
  keeps_writes : ∀ w r, writes c !! w = Some r → holds_slices (write_status r) = true →
    ∃ r', writes c' !! w = Some r' ∧ stage_set_id r' = stage_set_id r ∧ volume_id r' = volume_id r ∧
      (write_status r' = WCompleted ∨ write_status r' = write_status r);
  keeps_positions : ∀ w slice, slot_written (λ _, true) w slice c = true → slot_written (λ _, true) w slice c' = true;
  keeps_slices : ∀ w r s, writes c !! w = Some r → holds_slices (write_status r) = true →
    (∃ n, stage_slices c' !! s = Some (mkStageSlice (stage_set_id r) n)) ↔ (∃ n, stage_slices c !! s = Some (mkStageSlice (stage_set_id r) n));
}.

Lemma keeps_point v c' sh w r slice : keeps_copies v (ledger_of sh) c' → writes (ledger_of sh) !! w = Some r → holds_slices (write_status r) = true →
  point (with_ledger c' sh) (stage_set_id r) slice → point sh (stage_set_id r) slice.
Proof.
  intros Hk Hw Hh. pose proof (keeps_slices _ _ _ Hk w r) as Hs. destruct slice as [s|]; cbn; [by apply Hs|].
  intros Hno s n Hsn. destruct (proj2 (Hs s Hw Hh)) as [n' Hn']; [by exists n|]. by apply (Hno s n').
Qed.
Lemma retired_held v sh slice set : still_held (retired v sh) None Copies [] set slice →
  ∃ w r, writes (ledger_of sh) !! w = Some r ∧ stage_set_id r = set ∧ holds_slices (write_status r) = true.
Proof.
  intros (w & r & x & Hw & Hset & _ & _ & Hst & _). exists w, r. split; [done|]. split; [done|]. unfold holds_slices.
  apply orb_true_iff. destruct Hst as [?|[? _]]; [left|right]; by apply bool_decide_eq_true.
Qed.
Lemma keeps_held v c' sh set slice : keeps_copies v (ledger_of sh) c' →
  still_held (retired v sh) None Copies [] set slice → still_held (retired v (with_ledger c' sh)) None Copies [] set slice.
Proof.
  intros Hk Hh. destruct (retired_held _ _ _ _ Hh) as (w0 & r0 & Hw0 & Hset0 & Hh0).
  destruct Hh as (w & r & x & Hw & Hset & He & _ & Hst & Hx & HL).
  rewrite retired_eligible, andb_true_iff, negb_true_iff, bool_decide_eq_false in He. destruct He as [He Hne].
  assert (holds_slices (write_status r) = true) as Hrs.
  { unfold holds_slices. apply orb_true_iff. destruct Hst as [?|[? _]]; [left|right]; by apply bool_decide_eq_true. }
  destruct (keeps_writes _ _ _ Hk w r Hw Hrs) as (r' & Hw' & Hset' & Hvol & Hst'). exists w, r', x. split; [done|]. split; [congruence|].
  split.
  - rewrite retired_eligible, Hvol, bool_decide_eq_false_2, andb_true_r by done. unfold eligible_volume in *. cbn.
    destruct (volumes (ledger_of sh) !! volume_id r) as [row|] eqn:Hrow; [|done].
    destruct (keeps_eligible _ _ _ Hk _ row Hne Hrow He) as (row' & -> & ?). done.
  - split; [done|]. split; [|split; [by rewrite Hvol|done]].
    destruct Hst' as [?|Hst']; [by left|]. rewrite Hst'. destruct Hst as [?|(? & s & -> & Hr)]; [by left|right].
    split; [done|]. exists s. split; [done|]. by apply (keeps_positions _ _ _ Hk w s).
Qed.
Lemma keeps_readable v c' sh s : keeps_copies v (ledger_of sh) c' →
  readable_whole (retired v sh) s → readable_whole (retired v (with_ledger c' sh)) s.
Proof.
  intros Hk (set & Hs & Hkept). exists set. split; [done|]. intros slice Hp. apply (keeps_held v c' sh); [done|]. apply Hkept.
  assert (∃ w r, writes (ledger_of sh) !! w = Some r ∧ stage_set_id r = set ∧ holds_slices (write_status r) = true) as (w & r & Hw & <- & Hh).
  { destruct (slices_of set (ledger_of sh)) as [|[s0 n0] l] eqn:Hsl.
    - apply (retired_held v sh None set), Hkept. by apply (no_slices sh set).
    - apply (retired_held v sh (Some s0) set), Hkept. exists n0.
      assert ((s0, n0) ∈ slices_of set (ledger_of sh)) as Hin by (rewrite Hsl; apply list_elem_of_here).
      unfold slices_of in Hin. apply list_elem_of_fmap in Hin as ([s1 [set1 n1]] & [= -> ->] & [Hset Hin]%list_elem_of_filter).
      apply elem_of_map_to_list in Hin. cbn in Hset. by subst. }
  by apply (keeps_point v c' sh w r slice).
Qed.

(** C6: a retirement takes no version's last copy, whatever the operator
    consents to, where no other process takes one back meanwhile. [volume
    retire] reads its floor outside the transaction it ends with: so long as
    what others do in between gives up no other volume and loses no row of
    the copies on them, then when it retires a volume every version that was
    current and had a copy at the gate still has, on eligible volumes, some
    stage set whole, and so has a version still being spanned of which this
    volume alone held a slice; when it refuses, nothing changes. *)
Theorem retirement_keeps_a_copy consent v meanwhile sh r sh' : one_write_per_set sh → units_known sh →
  keeps_copies v (ledger_of sh) (meanwhile (ledger_of sh)) →
  volume_retire config resolve consent v meanwhile sh = (r, sh') →
  match r with
  | Err _ => sh' = sh
  | Ok _ => sh' = retired v (with_ledger (meanwhile (ledger_of sh)) sh) ∧ ∀ u s n, version_of sh !! s = Some (u, n) →
      (is_current sh s = true ∧ 0 < copy_count_expr sh (mkQuery (OfSnapshot s) None) ∨ sole_span sh v s) →
      readable_whole sh' s
  end.
Proof.
  intros Hu Hk Hmean. unfold volume_retire. destruct (retire_gate sh config resolve consent v) as [[]|e] eqn:Hg; intros [= <- <-]; [|done].
  split; [done|]. intros u s n Hs Hcase. unfold retire_gate in Hg. apply bind_ok in Hg as (row & _ & ([] & Href & _)%bind_ok).
  apply (keeps_readable v _ sh s Hmean). by eapply floor_keeps.
Qed.
End retire.

(** ** Releasing a version *)

Lemma names_elem {A} (m : gmap string A) n : n ∈ names m ↔ is_Some (m !! n).
Proof.
  unfold names. rewrite merge_sort_Permutation, list_elem_of_fmap. split.
  - intros ([k x] & -> & Hin%elem_of_map_to_list). by exists x.
  - intros [x Hx]. exists (n, x). split; [done|]. by apply elem_of_map_to_list.
Qed.

Lemma highest_cons x l : highest (x :: l) =
  match highest l with Some b => if bool_decide (b.2 < x.2) then Some x else Some b | None => Some x end.
Proof. done. Qed.

Lemma highest_none l : highest l = None → l = [].
Proof. destruct l as [|x l]; [done|]. rewrite highest_cons. destruct (highest l); [by case_bool_decide|done]. Qed.

Lemma highest_some l x : highest l = Some x → x ∈ l ∧ ∀ y, y ∈ l → y.2 ≤ x.2.
Proof.
  revert x. induction l as [|y l IH]; intros x; [done|]. rewrite highest_cons. destruct (highest l) as [b|] eqn:Hb.
  - destruct (IH b eq_refl) as [Hin Hle]. case_bool_decide as Hlt; intros [= <-].
    + split; [apply list_elem_of_here|]. intros z [->|Hz]%elem_of_cons; [lia|]. pose proof (Hle z Hz). lia.
    + split; [by apply list_elem_of_further|]. intros z [->|Hz]%elem_of_cons; [lia|by apply Hle].
  - apply highest_none in Hb as ->. intros [= <-]. split; [apply list_elem_of_here|].
    intros z [->|Hz]%elem_of_cons; [lia|by apply not_elem_of_nil in Hz].
Qed.

Section release.
Context {E : Type}.
Variables (config : Config) (resolve : Z → result E ResolvedPolicy) (sh : Shelves).

(** The schema's [UNIQUE]s on locations and on a unit's versions. *)
Definition locations_unique : Prop := ∀ l l' x, locations sh !! l = Some x → locations sh !! l' = Some x → l = l'.
Definition versions_unique : Prop := ∀ s s' x, version_of sh !! s = Some x → version_of sh !! s' = Some x → s = s'.

Lemma versions_of_elem u s n : (s, n) ∈ versions_of sh u ↔ version_of sh !! s = Some (u, n).
Proof.
  unfold versions_of. rewrite list_elem_of_fmap. split.
  - intros ([s' [u' n']] & [= -> ->] & [Hu Hin%elem_of_map_to_list]%list_elem_of_filter). cbn in Hu. congruence.
  - intros Hs. exists (s, (u, n)). split; [done|]. apply list_elem_of_filter. split; [done|]. by apply elem_of_map_to_list.
Qed.

(** What a policy asks of one version. *)
Record meets_policy (policy : ResolvedPolicy) (unit_status : string) (s : Z) : Prop := {
  mp_copies : copy_floor config (copy_floor_base policy) unit_status ≤ copy_count_expr sh (mkQuery (OfSnapshot s) None);
  mp_named name k : copies_at policy !! name = Some k → 0 < k →
    location_target config policy name unit_status ≤ copies_at_location sh (NamedSnapshot s) name None;
  mp_places : location_floor config unit_status ≤ places_held_excluding sh (NamedSnapshot s) None;
}.

Lemma target_copies s policy name c : locations_unique →
  copies_at_targets sh s policy None !! name = Some c → c = copies_at_location sh s name None.
Proof.
  intros Hu Hc. unfold copies_at_targets in Hc. apply elem_of_list_to_map_2, list_elem_of_omap in Hc as ([l x] & Hin & Hc).
  cbn in Hc. case_bool_decide; [|done]. injection Hc as -> <-. apply elem_of_map_to_list in Hin.
  unfold copies_at_location, location_named.
  assert ((l, name) ∈ filter (λ l : Z * string, l.2 = name) (map_to_list (locations sh))) as Hf.
  { apply list_elem_of_filter. split; [done|]. by apply elem_of_map_to_list. }
  destruct (filter (λ l : Z * string, l.2 = name) (map_to_list (locations sh))) as [|[l' x'] rest] eqn:Hl; [by apply not_elem_of_nil in Hf|].
  cbn. assert ((l', x') ∈ filter (λ l : Z * string, l.2 = name) (map_to_list (locations sh))) as [Hx Hin']%list_elem_of_filter
    by (rewrite Hl; apply list_elem_of_here). cbn in Hx. subst x'. apply elem_of_map_to_list in Hin'. by rewrite (Hu l' l name).
Qed.

Lemma location_nonneg s name : 0 ≤ copies_at_location sh (NamedSnapshot s) name None.
Proof. unfold copies_at_location. destruct (location_named sh name); [apply version_nonneg|lia]. Qed.

Lemma not_short_named s policy unit_status : locations_unique →
  short_of_copies_at config sh (NamedSnapshot s) policy unit_status None = [] →
  ∀ name k, copies_at policy !! name = Some k → 
    location_target config policy name unit_status ≤ copies_at_location sh (NamedSnapshot s) name None.
Proof.
  intros Hu Hs name k Hk. unfold short_of_copies_at, judge_copies_at in Hs.
  assert (name ∈ names (copies_at policy)) as Hin by (apply names_elem; eauto).
  pose proof (location_nonneg s name) as Hnn.
  destruct (Z.le_gt_cases (location_target config policy name unit_status)
    (default 0 (copies_at_targets sh (NamedSnapshot s) policy None !! name))) as [Hle|Hgt].
  - destruct (copies_at_targets sh (NamedSnapshot s) policy None !! name) as [c|] eqn:Hc; cbn in Hle; [|lia].
    by rewrite <- (target_copies _ _ _ _ Hu Hc).
  - exfalso. apply (not_elem_of_nil (mkLocationShort name (default 0 (copies_at_targets sh (NamedSnapshot s) policy None !! name))
      (location_target config policy name unit_status))).
    rewrite <- Hs. apply list_elem_of_omap. exists name. split; [done|]. by rewrite bool_decide_eq_true_2 by lia.
Qed.

Lemma releasable_meets u unit_status superseding f n f' : locations_unique →
  superseding_verdict sh config resolve u unit_status superseding f = Ok (Releasable n f') →
  n = superseding.2 ∧ f' = f ∧ ∃ policy, resolve u = Ok policy ∧ meets_policy policy unit_status superseding.1.
Proof.
  intros Hu Hv. unfold superseding_verdict in Hv. apply bind_ok in Hv as (policy & Hp & Hv).
  case_bool_decide as Hc; [done|]. destruct (negb _); [done|]. case_bool_decide as Hs; cbn in Hv; [|done].
  destruct (short_of_location_floor_excluding _ _ _ _ _) as [p|] eqn:Hl; [done|]. injection Hv as <- <-.
  split; [done|]. split; [done|]. exists policy. split; [done|]. apply length_zero_iff_nil in Hs. split; [lia| |].
  - intros name k Hk _. by eapply not_short_named.
  - unfold short_of_location_floor_excluding, judge_places in Hl.
    pose proof (version_nonneg sh superseding.1 None Places). unfold places_held_excluding, location_count_expr, named_query in *.
    case_bool_decide; [lia|]. case_bool_decide; [done|]. lia.
Qed.

(** The superseding version: the unit's highest current one, above. *)
Definition supersedes (u version s n : Z) : Prop :=
  version_of sh !! s = Some (u, n) ∧ version < n ∧ is_current sh s = true ∧
  ∀ s' n', version_of sh !! s' = Some (u, n') → is_current sh s' = true → n' ≤ n.

Lemma superseding_spec u version s n : superseding_of sh u version = Some (s, n) → supersedes u version s n.
Proof.
  intros [[[Hlt Hc] Hin%versions_of_elem]%list_elem_of_filter Hle]%highest_some. cbn in *.
  split; [done|]. split; [done|]. split; [done|]. intros s' n' Hs' Hc'. destruct (Z.le_gt_cases n' version); [lia|].
  apply (Hle (s', n')), list_elem_of_filter. split; [split; [cbn; lia|done]|]. by apply versions_of_elem.
Qed.

(** C7: a version is released only under another. Without [--force],
    [snapshot mark-reclaimable] releases a version only while a higher version
    of the unit is current, and stays so; without the operator's consent as
    well, that version meets the unit's policy on its own: it has the copies
    the floor asks (so it survives the loss of any fewer tapes and deposits),
    each named location its target, and the places a tape-only unit needs. *)
Theorem release_needs_cover force consent u version c' :
  locations_unique → one_write_per_set sh → versions_unique →
  mark_reclaimable sh config resolve force consent u version = Ok c' →
  ∃ s0, version_of sh !! s0 = Some (u, version) ∧ c' = set_snapshots (alter (λ _, SnapReclaimable) s0) (ledger_of sh) ∧
    (force = false → ∃ s n, supersedes u version s n ∧ snapshots c' !! s = Some SnapCurrent ∧
      (consent = false → ∃ policy, resolve u = Ok policy ∧ meets_policy policy (state_of sh u) s ∧
         ∀ L, Z.of_nat (length L) < copy_floor config (copy_floor_base policy) (state_of sh u) →
           ∃ set, set_snapshot sh !! set = Some s ∧ kept_set sh None Copies L set)).
Proof.
  intros Hloc Hu Hv Hm. unfold mark_reclaimable in Hm. apply bind_ok in Hm as (s0 & Hs0%ok_or_ok & Hm).
  apply bind_ok in Hm as ([] & _ & (verdict & Ha & Hm)%bind_ok). apply bind_ok in Hm as ([] & Hgate & Hc'). injection Hc' as <-.
  unfold snapshot_at in Hs0. destruct (filter _ (versions_of sh u)) as [|[s1 n1] rest] eqn:Hf; [done|]. injection Hs0 as <-. cbn in *.
  assert ((s1, n1) ∈ filter (λ x : Z * Z, x.2 = version) (versions_of sh u)) as [Hn Hin]%list_elem_of_filter by (rewrite Hf; apply list_elem_of_here).
  cbn in Hn. subst n1. apply versions_of_elem in Hin. exists s1. split; [done|]. split; [done|]. intros ->.
  destruct (assess sh config resolve u version) as [x|e] eqn:Has; [|done]. injection Ha as <-. rename Has into Ha.
  unfold assess in Ha. destruct (superseding_of sh u version) as [[s n]|] eqn:Hsup.
  - apply superseding_spec in Hsup. exists s, n. split; [done|]. destruct Hsup as (Hs & Hlt & Hcur & _). split.
    { cbn. rewrite lookup_alter_ne by (intros Heq; subst s1; rewrite Hs in Hin; injection Hin as Hn; lia).
      by apply bool_decide_eq_true in Hcur. }
    intros ->. destruct x as [n' f'|[n'|] f' why]; [|done..].
    apply releasable_meets in Ha as (_ & _ & policy & Hp & Hmeets); [|done]. cbn in Hmeets.
    exists policy. split; [done|]. split; [exact Hmeets|]. intros L HL.
    apply (survives_loss sh (mkQuery (OfSnapshot s) None) Copies s L Hu eq_refl). pose proof (mp_copies _ _ _ Hmeets). unfold copy_count_expr in *. lia.
  - injection Ha as <-. done.
Qed.

(** ** The report and the gate *)

Definition current_of (u : Z) : list (Z * Z) := filter (λ x : Z * Z, is_current sh x.1 = true) (versions_of sh u).

Lemma top_supersedes u top version : versions_unique → highest (current_of u) = Some top → version < top.2 →
  superseding_of sh u version = Some top.
Proof.
  intros Hv [[Hc Hin]%list_elem_of_filter Hle]%highest_some Hlt. unfold superseding_of.
  destruct (highest (filter _ (versions_of sh u))) as [x|] eqn:Hx.
  - apply highest_some in Hx as [[[_ Hxc] Hxin]%list_elem_of_filter Hxle]. f_equal.
    assert (top.2 ≤ x.2) by by apply Hxle, list_elem_of_filter.
    assert (x.2 ≤ top.2) by by apply Hle, list_elem_of_filter.
    destruct x as [s n], top as [s' n']. cbn in *. assert (n = n') as -> by lia. f_equal.
    apply versions_of_elem in Hxin, Hin. by eapply Hv.
  - apply highest_none in Hx. exfalso. apply (not_elem_of_nil top). rewrite <- Hx. by apply list_elem_of_filter.
Qed.

Lemma verdict_freeable u st s f : superseding_verdict sh config resolve u st s f = with_freeable f <$> superseding_verdict sh config resolve u st s 0.
Proof.
  unfold superseding_verdict. destruct (resolve u) as [policy|e]; [|done]. cbn. case_bool_decide; [done|].
  destruct (negb _); [done|]. destruct (negb _); [done|]. by destruct (short_of_location_floor_excluding _ _ _ _ _).
Qed.

Definition row_ok (row : (Z * UnitRow) * (Z * (Z * Z) * Z)) : Prop :=
  let '(u, (version, top, freeable)) := row in
  units sh !! u.1 = Some u.2 ∧ highest (current_of u.1) = Some top ∧ version < top.2 ∧
  ∃ s, version_of sh !! s = Some (u.1, version) ∧ freeable = freeable_bytes sh s.
Definition asked_ok (asked : option (Z * ReclaimVerdict)) : Prop :=
  ∀ id x, asked = Some (id, x) → ∃ r top, units sh !! id = Some r ∧ highest (current_of id) = Some top ∧
    superseding_verdict sh config resolve id (unit_state r) top 0 = Ok x.

Lemma candidate_rows_ok row : row ∈ candidate_rows sh → row_ok row.
Proof.
  unfold candidate_rows. intros (u & Hrow & Hin)%list_elem_of_bind. rewrite merge_sort_Permutation in Hin.
  destruct u as [id r]. apply elem_of_map_to_list in Hin. cbn in Hrow. fold (current_of id) in Hrow.
  destruct (highest (current_of id)) as [top|] eqn:Ht; [|by apply not_elem_of_nil in Hrow].
  apply list_elem_of_fmap in Hrow as ([s n] & -> & Hs). rewrite merge_sort_Permutation in Hs.
  apply list_elem_of_filter in Hs as [Hlt [_ Hs%versions_of_elem]%list_elem_of_filter]. cbn. repeat split; try done. by exists s.
Qed.

Lemma candidate_rows_all u r s version : units sh !! u = Some r → version_of sh !! s = Some (u, version) → is_current sh s = true →
  superseding_of sh u version ≠ None → ∃ top f, ((u, r), (version, top, f)) ∈ candidate_rows sh.
Proof.
  intros Hu Hs Hc Hsup. destruct (superseding_of sh u version) as [x|] eqn:Hx; [|done].
  apply highest_some in Hx as [[[Hlt Hxc] Hxin]%list_elem_of_filter _].
  destruct (highest (current_of u)) as [top|] eqn:Ht.
  - pose proof (highest_some _ _ Ht) as [_ Hle]. exists top, (freeable_bytes sh s). unfold candidate_rows. apply list_elem_of_bind.
    exists (u, r). split; [|by rewrite merge_sort_Permutation; apply elem_of_map_to_list]. cbn. fold (current_of u). rewrite Ht.
    apply list_elem_of_fmap. exists (s, version). split; [done|]. rewrite merge_sort_Permutation. apply list_elem_of_filter.
    split; [|by apply list_elem_of_filter; split; [|by apply versions_of_elem]]. cbn.
    assert (x.2 ≤ top.2) by by apply Hle, list_elem_of_filter. lia.
  - apply highest_none in Ht. exfalso. apply (not_elem_of_nil x). rewrite <- Ht. by apply list_elem_of_filter.
Qed.

Lemma judge_candidates_ok rows : versions_unique → ∀ asked l, (∀ row, row ∈ rows → row_ok row) → asked_ok asked →
  judge_candidates sh config resolve rows asked = Ok l →
  (∀ c, c ∈ l → assess sh config resolve (cand_unit c) (cand_version c) = Ok (cand_verdict c)) ∧
  ∀ u r version top f, ((u, r), (version, top, f)) ∈ rows → ∃ c, c ∈ l ∧ cand_unit c = u ∧ cand_version c = version.
Proof.
  intros Hv. induction rows as [|[[u r] [[version top] f]] rows IH]; intros asked l Hrows Hasked; cbn.
  { intros [= <-]. split; [by intros ? ?%not_elem_of_nil|by intros ????? ?%not_elem_of_nil]. }
  destruct (Hrows _ (list_elem_of_here _ _)) as (Hu & Ht & Hlt & s & Hs & Hf). cbn in Hu, Ht, Hs.
  intros (x & Hx & (rest & Hrest & [= <-])%bind_ok)%bind_ok.
  assert (superseding_verdict sh config resolve u (unit_state r) top 0 = Ok x) as Hx'.
  { destruct asked as [[id y]|]; [|done]. case_bool_decide as Hid; [|done]. subst id. injection Hx as <-.
    destruct (Hasked _ _ eq_refl) as (r' & top' & Hr' & Ht' & Hy). congruence. }
  apply IH in Hrest as [Hall Hcover]; [|intros; by apply Hrows, list_elem_of_further|].
  - split.
    + intros c [->|Hc]%elem_of_cons; [|by apply Hall]. cbn. unfold assess, state_of. rewrite (top_supersedes _ _ _ Hv Ht Hlt), Hu, verdict_freeable, Hx'.
      cbn. do 2 f_equal. subst f. unfold snapshot_at.
      assert ((s, version) ∈ filter (λ y : Z * Z, y.2 = version) (versions_of sh u)) as Hin
        by (apply list_elem_of_filter; split; [done|by apply versions_of_elem]).
      destruct (filter _ (versions_of sh u)) as [|[s' n'] k] eqn:Hk; [by apply not_elem_of_nil in Hin|]. cbn.
      assert ((s', n') ∈ filter (λ y : Z * Z, y.2 = version) (versions_of sh u)) as [Hn Hin']%list_elem_of_filter by (rewrite Hk; apply list_elem_of_here).
      cbn in Hn. subst n'. apply versions_of_elem in Hin'. by rewrite (Hv s' s _ Hin' Hs).
    + intros u' r' version' top' f' [[= -> -> -> -> ->]|Hin]%elem_of_cons; [eexists; split; [apply list_elem_of_here|done]|].
      destruct (Hcover _ _ _ _ _ Hin) as (c & Hc & ?). exists c. split; [by apply list_elem_of_further|done].
  - intros id y [= <- <-]. eauto.
Qed.

(** The report and the gate never disagree. [report reclaimable] lists
    every current version that a higher current one of its unit supersedes,
    and gives each the verdict the gate of [snapshot mark-reclaimable] gives
    it, its freeable bytes included, though it asks the policy once per unit
    and one statement for all. *)
Theorem candidates_are_the_gate l : versions_unique → candidates sh config resolve = Ok l →
  (∀ c, c ∈ l → assess sh config resolve (cand_unit c) (cand_version c) = Ok (cand_verdict c)) ∧
  ∀ u r s version, units sh !! u = Some r → version_of sh !! s = Some (u, version) → is_current sh s = true →
    superseding_of sh u version ≠ None → ∃ c, c ∈ l ∧ cand_unit c = u ∧ cand_version c = version.
Proof.
  intros Hv Hl. destruct (judge_candidates_ok (candidate_rows sh) Hv None l) as [Hall Hcover]; [apply candidate_rows_ok|by intros ??|done|].
  split; [done|]. intros u r s version Hu Hs Hc Hsup. destruct (candidate_rows_all _ _ _ _ Hu Hs Hc Hsup) as (top & f & Hin). by eapply Hcover.
Qed.
End release.
