(* ===== verification/CoverageRehearsal.v ===== *)
(** * Coverage rehearsed

    A unit with two versions: one whole on two tapes, one in ranges over the
    same two tapes and whole on a third with a warehouse deposit. Counted,
    lost, retired and released; and three things the counting shows. *)

From S2P Require Import Prelude LayoutModel Session Ledger LedgerSound Coverage CoverageSound Release ReleaseSound.
Local Open Scope Z_scope.
Local Open Scope rust_scope.

Definition vx_write (set snapshot volume : Z) (s : WriteStatus) : WriteRow := mkWriteRow set snapshot volume s true true.
Definition vx_volume : VolumeRow := mkVolumeRow VSealed CondOk (Some "2026"%string) None.
Definition vx_writes : gmap Z WriteRow :=
  list_to_map [(1, vx_write 7 21 1 WCompleted); (2, vx_write 7 21 2 WCompleted); (3, vx_write 8 22 1 WRange);
               (4, vx_write 8 22 2 WRange); (5, vx_write 8 22 3 WCompleted)].
Definition vx_positions : gmap (Z * Z) PositionRow :=
  list_to_map [((1, 71), mkPosition 4 PWritten (Some "a"%string)); ((2, 71), mkPosition 4 PWritten (Some "a"%string));
               ((3, 81), mkPosition 5 PWritten (Some "b"%string)); ((4, 82), mkPosition 5 PWritten (Some "c"%string));
               ((5, 81), mkPosition 4 PWritten (Some "b"%string)); ((5, 82), mkPosition 5 PWritten (Some "c"%string))].
Definition vx_ledger : Ledger :=
  mkLedger vx_writes vx_positions (list_to_map [(71, mkStageSlice 7 1); (81, mkStageSlice 8 1); (82, mkStageSlice 8 2)])
    (list_to_map [(21, SnapCurrent); (22, SnapCurrent)]) (list_to_map [(1, vx_volume); (2, vx_volume); (3, vx_volume)]) [] ∅ ∅.
Definition vx_shelves : Shelves :=
  mkShelves vx_ledger {[1 := mkUnitRow "photos" "active"]} (list_to_map [(7, 21); (8, 22)])
    (list_to_map [(21, (1, 1)); (22, (1, 2))]) (list_to_map [(1, 101); (2, 102); (3, 101)]) {[5 := (3, 103)]}
    (list_to_map [(101, "home"%string); (102, "garage"%string); (103, "warehouse"%string)]) (list_to_map [(71, 10); (81, 20); (82, 30)]).

Definition vx_config : Config := mkConfig 2 2.
(** A policy with a floor and targets, the rest as [[defaults]] has it. *)
Definition policy_of (floor : Z) (targets : gmap string Z) : ResolvedPolicy :=
  mkPolicy floor [] true "none" "mtime_size" (1024 ^ 3) (Some 365) true true true false 0 false targets.
Definition vx_resolve (u : Z) : result () ResolvedPolicy := Ok (policy_of 2 {["home"%string := 1]}).

(** The second version: a range, the third tape and its deposit, per slice. *)
Example vx_counts :
  (λ s, (copy_count_expr vx_shelves (mkQuery (OfSnapshot s) None), location_count_expr vx_shelves (mkQuery (OfSnapshot s) None)))
    <$> [21; 22] = [(2, 2); (3, 2)] ∧
  copy_count_expr vx_shelves (current_unit 1) = 2 ∧
  slice_copies vx_shelves 8 = [mkSliceCopies 81 1 3 2; mkSliceCopies 82 2 3 3].
Proof. vm_compute. repeat split; reflexivity. Qed.

(** ** The schema's constraints, here *)

Lemma vx_unique : one_write_per_set vx_shelves.
Proof.
  assert (Forall (λ x : Z * WriteRow, Forall (λ y : Z * WriteRow, stage_set_id x.2 = stage_set_id y.2 → volume_id x.2 = volume_id y.2 → x.1 = y.1)
    (map_to_list vx_writes)) (map_to_list vx_writes)) as Hall by by_decide.
  rewrite Forall_forall in Hall. intros w w' r r' Hw Hw'. apply elem_of_map_to_list in Hw, Hw'.
  pose proof (Hall _ Hw) as Hx. rewrite Forall_forall in Hx. exact (Hx _ Hw').
Qed.

Lemma vx_units : units_known vx_shelves.
Proof.
  assert (Forall (λ x : Z * (Z * Z), is_Some (units vx_shelves !! x.2.1)) (map_to_list (version_of vx_shelves))) as Hall by by_decide.
  rewrite Forall_forall in Hall. intros s u n Hs. apply elem_of_map_to_list in Hs. exact (Hall _ Hs).
Qed.

Lemma map_injective {A} `{EqDecision A} (m : gmap Z A) :
  Forall (λ x : Z * A, Forall (λ y : Z * A, x.2 = y.2 → x.1 = y.1) (map_to_list m)) (map_to_list m) →
  ∀ l l' x, m !! l = Some x → m !! l' = Some x → l = l'.
Proof.
  intros Hall l l' x Hl Hl'. rewrite Forall_forall in Hall. apply elem_of_map_to_list in Hl, Hl'.
  pose proof (Hall _ Hl) as Hx. rewrite Forall_forall in Hx. exact (Hx _ Hl' eq_refl).
Qed.
Lemma vx_locations : locations_unique vx_shelves.
Proof. refine (map_injective (locations vx_shelves) _). by_decide. Qed.
Lemma vx_versions : versions_unique vx_shelves.
Proof. refine (map_injective (version_of vx_shelves) _). by_decide. Qed.

(** ** Lost, retired, released *)

(** Without the third tape and its deposit the ranges still hold it. *)
Lemma counted_copies_survive_witness :
  ∃ set, set_snapshot vx_shelves !! set = Some 22 ∧ kept_set vx_shelves None Copies [Tape 3; Deposit 5] set.
Proof.
  refine (counted_copies_survive vx_shelves (mkQuery (OfSnapshot 22) None) Copies 22 [Tape 3; Deposit 5] vx_unique eq_refl _).
  vm_compute. reflexivity.
Defined.

(** While the operator answers, a session on another tape plans a write of a
    version staged since. *)
Definition vx_meanwhile (c : Ledger) : Ledger := set_writes <[99 := mkWriteRow 9 23 2 WPlanned false false]> c.
Lemma vx_keeps : keeps_copies 3 (ledger_of vx_shelves) (vx_meanwhile (ledger_of vx_shelves)).
Proof.
  split; [eauto| |done|done].
  intros w r Hw _. exists r. split; [|by auto]. cbn. rewrite lookup_insert_ne; [done|]. intros <-. vm_compute in Hw. congruence.
Qed.
Definition vx_retired := volume_retire vx_config vx_resolve true 3 vx_meanwhile vx_shelves.

Lemma retirement_keeps_a_copy_witness :
  vx_retired.1 = Ok () ∧ vx_retired.2 = retired 3 (with_ledger (vx_meanwhile vx_ledger) vx_shelves) ∧ readable_whole vx_retired.2 22.
Proof.
  assert (vx_retired.1 = Ok ()) as Hr by (vm_compute; reflexivity). split; [exact Hr|].
  pose proof (retirement_keeps_a_copy vx_config vx_resolve true 3 vx_meanwhile vx_shelves (Ok ()) vx_retired.2 vx_unique vx_units vx_keeps) as Hk.
  destruct Hk as [He Hk]; [rewrite <- Hr; exact (surjective_pairing vx_retired)|]. split; [exact He|].
  refine (Hk 1 22 2 _ (or_introl (conj _ _))); vm_compute; reflexivity.
Defined.

Definition vx_released := mark_reclaimable vx_shelves vx_config vx_resolve false false 1 1.
Definition vx_after : Ledger := set_snapshots (alter (λ _, SnapReclaimable) 21) vx_ledger.

Lemma release_needs_cover_witness :
  vx_released = Ok vx_after ∧
  ∃ s n, supersedes vx_shelves 1 1 s n ∧ ∃ policy, meets_policy vx_config vx_shelves policy "active" s.
Proof.
  assert (vx_released = Ok vx_after) as Hr by (vm_compute; reflexivity). split; [exact Hr|].
  destruct (release_needs_cover vx_config vx_resolve vx_shelves false false 1 1 vx_after vx_locations vx_unique vx_versions Hr)
    as (s0 & _ & _ & Hs). destruct (Hs eq_refl) as (s & n & Hsup & _ & Hp). exists s, n. split; [exact Hsup|].
  destruct (Hp eq_refl) as (policy & _ & Hmeets & _). exists policy. exact Hmeets.
Defined.

Definition vx_candidates : list Candidate :=
  match candidates vx_shelves vx_config vx_resolve with Ok l => l | Err _ => [] end.

Lemma candidates_are_the_gate_witness :
  vx_candidates = [mkCandidate 1 "photos" 1 (Releasable 2 10)] ∧
  assess vx_shelves vx_config vx_resolve 1 1 = Ok (Releasable 2 10).
Proof.
  assert (vx_candidates = [mkCandidate 1 "photos" 1 (Releasable 2 10)]) as Hc by (vm_compute; reflexivity). split; [exact Hc|].
  refine (proj1 (candidates_are_the_gate vx_config vx_resolve vx_shelves vx_candidates vx_versions _)
    (mkCandidate 1 "photos" 1 (Releasable 2 10)) _); [vm_compute; reflexivity|]. rewrite Hc. apply list_elem_of_here.
Defined.

(** ** What the counting shows *)

(** Two retirements at once, of the two tapes that hold the first version:
    each gate is read under its own volume's lock, while the other tape still
    counts, so both pass, and no copy is left: the first is no retirement whose
    meanwhile [keeps_copies]. *)
Example two_retirements_at_once :
  let first := volume_retire vx_config vx_resolve true 1 (set_volume 2 (with_volume_status VRetired)) vx_shelves in
  retire_gate vx_shelves vx_config vx_resolve true 2 = Ok () ∧ first.1 = Ok () ∧
  copy_count_expr vx_shelves (mkQuery (OfSnapshot 21) None) = 2 ∧
  copy_count_expr first.2 (mkQuery (OfSnapshot 21) None) = 0.
Proof. vm_compute. repeat split; reflexivity. Qed.

(** One volume given up may take more than one copy: its deposits go too. *)
Example a_retirement_takes_the_deposits :
  copies_after <$> versions_at_stake vx_shelves 1 3 = [1] ∧
  copy_count_expr vx_shelves (mkQuery (OfSnapshot 22) None) = 3.
Proof. vm_compute. split; reflexivity. Qed.

(** A target nothing bounds: doubled for a tape-only unit, the floor wraps
    below 0, and no copy at all meets it. *)
Example a_floor_may_wrap :
  let policy := policy_of 2 {["home"%string := 2 ^ 62]} in
  copy_floor vx_config (copy_floor_base policy) "tape_only" = - 2 ^ 63 ∧
  location_target vx_config policy "home" "tape_only" = - 2 ^ 63 ∧
  copy_floor vx_config (copy_floor_base policy) "active" = 2 ^ 62.
Proof. vm_compute. repeat split; reflexivity. Qed.
