(* ===== verification/Policy.v ===== *)
(** * A unit's policy: [resolve] of src/policy/mod.rs

    Three layers: [[defaults]] of the configuration, the unit's archive set,
    the [[policy]] table of the unit's dotfile; each field is the most
    specific layer's that sets it. The dotfile is src/unit/dotfile.rs, whose
    copies_at map is frozen in the catalog against the loss of the source. *)

From S2P Require Import Prelude LayoutModel Format Session Ledger SizeText Coverage.
Local Open Scope Z_scope.

(** [serde_json] of the two shapes stored in a column. *)
Class JsonCrate : Type := {
  json_strings : string → option (list string);
  json_counts : string → option (gmap string Z);
  json_of_counts : gmap string Z → string;
}.
(** What [to_string] writes of a map, [from_str] reads. *)
Class JsonLaws `{!JsonCrate} : Prop := json_round_trip m : json_counts (json_of_counts m) = Some m.

(** ** The dotfile *)

(** [#[serde(deny_unknown_fields)]]. *)
Definition known_fields (allowed : list string) (fields : list (string * toml)) : bool :=
  forallb (λ f : string * toml, bool_decide (f.1 ∈ allowed)) fields.
Definition de_counts : decoder (gmap string Z) :=
  de_table (λ fields, list_to_map <$> mapM (λ f : string * toml, z ← de_integer f.2; Some (f.1, z)) fields).

Record PolicySection : Type := mkPolicySection {
  ps_checksum_mode : option string;
  ps_compression : option string;
  ps_slice_size : option string;
  ps_warehouse_copies : option Z;
  ps_allow_spanning : option bool;
  ps_copies_at : option (gmap string Z);
}.
Definition de_policy_section : decoder PolicySection := de_table (λ fields,
  if known_fields ["checksum_mode"; "compression"; "slice_size"; "warehouse_copies"; "allow_spanning"; "copies_at"]%string fields then
    checksum ← field_opt fields "checksum_mode" de_string;
    compression ← field_opt fields "compression" de_string;
    slice ← field_opt fields "slice_size" de_string;
    warehouse ← field_opt fields "warehouse_copies" de_integer;
    spanning ← field_opt fields "allow_spanning" de_boolean;
    counts ← field_opt fields "copies_at" de_counts;
    Some (mkPolicySection checksum compression slice warehouse spanning counts)
  else None).

Record UnitSection : Type := mkUnitSection {
  us_uuid : string;
  us_name : string;
  us_created : string;
  us_tags : list string;
  us_tenant : string;
  us_archive_set : option string;
}.
Definition de_unit_section : decoder UnitSection := de_table (λ fields,
  if known_fields ["uuid"; "name"; "created"; "tags"; "tenant"; "archive_set"]%string fields then
    uuid ← field fields "uuid" de_string;
    name ← field fields "name" de_string;
    created ← field fields "created" de_string;
    tags ← field_default fields "tags" (de_list de_string) [];
    tenant ← field fields "tenant" de_string;
    archive_set ← field_opt fields "archive_set" de_string;
    Some (mkUnitSection uuid name created tags tenant archive_set)
  else None).
Definition de_excludes : decoder (list string) := de_table (λ fields,
  if known_fields ["patterns"]%string fields then field_default fields "patterns" (de_list de_string) [] else None).

Definition DOTFILE_TOP_LEVEL_TABLES : list string := ["unit"; "policy"; "excludes"]%string.

Record DotfileToml : Type := mkDotfileToml {
  df_unit : UnitSection;
  df_policy : option PolicySection;
  df_excludes : list string;
}.
Definition de_dotfile (fields : list (string * toml)) : option DotfileToml :=
  if known_fields DOTFILE_TOP_LEVEL_TABLES fields then
    unit ← field fields "unit" de_unit_section;
    policy ← field_opt fields "policy" de_policy_section;
    excludes ← field_default fields "excludes" de_excludes [];
    Some (mkDotfileToml unit policy excludes)
  else None.

Record UnitDotfile : Type := mkUnitDotfile {
  ud_uuid : string;
  ud_name : string;
  ud_created : string;
  ud_tags : list string;
  ud_tenant : string;
  ud_archive_set : option string;
  ud_checksum_mode : option string;
  ud_compression : option string;
  ud_slice_size : option string;
  ud_warehouse_copies : option Z;
  ud_allow_spanning : option bool;
  ud_copies_at : option (gmap string Z);
  ud_exclude_patterns : list string;
}.

(** What is at a unit's dotfile path; one that vanishes between [exists] and
    the read is [UnreadableDotfile]. *)
Inductive DotfileOnDisk : Type :=
| NoDotfile
| UnreadableDotfile
| DotfileText (text : string).

Section dotfile.
Context `{!TomlCrate}.

(** [read_dotfile], of a dotfile that is there. *)
Definition read_dotfile (d : DotfileOnDisk) : option UnitDotfile :=
  match d with
  | DotfileText text =>
      match toml_table text with
      | Ok fields =>
          w ← de_dotfile fields;
          let u := df_unit w in
          let p := df_policy w in
          Some (mkUnitDotfile (us_uuid u) (us_name u) (us_created u) (us_tags u) (us_tenant u) (us_archive_set u)
                  (p ≫= ps_checksum_mode) (p ≫= ps_compression) (p ≫= ps_slice_size)
                  (p ≫= ps_warehouse_copies) (p ≫= ps_allow_spanning) (p ≫= ps_copies_at) (df_excludes w))
      | Err _ => None
      end
  | _ => None
  end.
End dotfile.

(** ** The closed sets of src/config.rs *)

Definition VALID_COMPRESSION_VALUES : list string :=
  ["none"; "gzip"; "bzip2"; "lzo"; "xz"; "lzma"; "zstd"; "lz4"]%string.
Definition validate_compression (value : string) : bool := bool_decide (value ∈ VALID_COMPRESSION_VALUES).
Definition VALID_CHECKSUM_MODES : list string := ["mtime_size"; "sha256"; "sha256_on_archive"]%string.
Definition validate_checksum_mode (value : string) : bool := bool_decide (value ∈ VALID_CHECKSUM_MODES).

Inductive PolicyDetail : Type :=
| DefaultSliceSize
| NoSuchArchiveSet
| BadRequiredLocations
| BadSetCopiesAt
| DotfileUnread
| DotfileMalformed
| UnknownTable (key : string)
| BadPolicySection
| BadChecksumMode
| BadCompression
| BadSliceSize
| BadFrozenCopiesAt
| BlankLocation
| NegativeCount (location : string) (count : Z)
| UnknownLocations (unknown : list string).

(** In the order of the map's keys. *)
Definition validate_copies_at (m : gmap string Z) : result PolicyDetail unit :=
  if existsb blank_text (names m) then Err BlankLocation else
  match head (omap (λ n, count ← m !! n; if bool_decide (count < 0) then Some (NegativeCount n count) else None) (names m)) with
  | Some e => Err e
  | None => Ok ()
  end.

(** ** Resolution *)

Inductive PolicyLayer : Type := LayerDefaults | LayerArchiveSet | LayerDotfile.
(** [PolicyUnresolvable]. *)
Record Unresolvable : Type := mkUnresolvable { at_layer : PolicyLayer; detail : PolicyDetail }.

(** [[defaults]]. *)
Record DefaultsConfig : Type := mkDefaults {
  d_slice_size : string;
  d_compression : string;
  d_checksum_mode : string;
  d_encrypt : bool;
  d_preserve_xattrs : bool;
  d_preserve_acls : bool;
  d_preserve_fsa : bool;
  d_dirty_on_metadata_change : bool;
  d_min_copies : Z;                      (* i32 *)
  d_warehouse_copies : Z;
  d_verify_interval_days : Z;
  d_allow_spanning : bool;
  d_copies_at : gmap string Z;
}.
(** A row of [archive_sets]. *)
Record ArchiveSet : Type := mkArchiveSet {
  as_min_copies : option Z;
  as_required_locations : option string;
  as_encrypt : option Z;
  as_compression : option string;
  as_checksum_mode : option string;
  as_slice_size : option Z;
  as_verify_interval_days : option Z;
  as_preserve_xattrs : option Z;
  as_preserve_acls : option Z;
  as_preserve_fsa : option Z;
  as_dirty_on_metadata_change : option Z;
  as_warehouse_copies : option Z;
  as_allow_spanning : option Z;
  as_copies_at : option string;
}.
(** A row of [units]. *)
Record Unit : Type := mkUnit {
  archive_set_id : option Z;
  current_path : option string;
  unit_status : string;
  copies_at_frozen : option string;
}.
Definition with_frozen (f : option string) (u : Unit) : Unit :=
  mkUnit (archive_set_id u) (current_path u) (unit_status u) f.

(** [CopiesAtSource]. *)
Record CopiesAtSource : Type := mkSource { src_layer : PolicyLayer; src_keyed : list string }.
Record Resolving : Type := mkResolving { policy : ResolvedPolicy; copies_at_from : CopiesAtSource }.

Definition with_copies_at (m : gmap string Z) (p : ResolvedPolicy) : ResolvedPolicy :=
  mkPolicy (min_copies p) (required_locations p) (encrypt p) (compression p) (checksum_mode p) (slice_size p)
    (verify_interval_days p) (preserve_xattrs p) (preserve_acls p) (preserve_fsa p) (dirty_on_metadata_change p)
    (warehouse_copies p) (allow_spanning p) m.

(** A column that holds a boolean. *)
Definition flag (column : option Z) (below : bool) : bool :=
  match column with Some v => negb (bool_decide (v = 0)) | None => below end.
Definition is_some {A} (o : option A) : bool := match o with Some _ => true | None => false end.
Definition opt_result {E A B} (o : option A) (f : A → result E B) (none : B) : result E B :=
  match o with Some a => f a | None => Ok none end.

Section resolve.
Context `{!TomlCrate, !JsonCrate}.
Variables (defaults : DefaultsConfig) (archive_sets : gmap Z ArchiveSet) (registered : gmap Z string).
(** The dotfile of a unit's folder. *)
Variable (disk : string → DotfileOnDisk).

Definition defaults_layer : result Unresolvable Resolving :=
  size ← ok_or (parse_size_to_bytes (d_slice_size defaults)) (mkUnresolvable LayerDefaults DefaultSliceSize);
  Ok (mkResolving
        (mkPolicy (d_min_copies defaults) [] (d_encrypt defaults) (d_compression defaults) (d_checksum_mode defaults) size
           (Some (d_verify_interval_days defaults)) (d_preserve_xattrs defaults) (d_preserve_acls defaults)
           (d_preserve_fsa defaults) (d_dirty_on_metadata_change defaults) (d_warehouse_copies defaults)
           (d_allow_spanning defaults) (d_copies_at defaults))
        (mkSource LayerDefaults (names (d_copies_at defaults)))).

(** Layer 2. *)
Definition archive_set_layer (id : option Z) (s : Resolving) : result Unresolvable Resolving :=
  match id with
  | None => Ok s
  | Some id =>
      let bad := mkUnresolvable LayerArchiveSet in
      row ← ok_or (archive_sets !! id) (bad NoSuchArchiveSet);
      let p := policy s in
      required ← opt_result (as_required_locations row) (λ text, ok_or (json_strings text) (bad BadRequiredLocations)) (required_locations p);
      set_copies_at ← opt_result (as_copies_at row) (λ text, Some <$> ok_or (json_counts text) (bad BadSetCopiesAt)) None;
      let p := mkPolicy (default (min_copies p) (as_min_copies row)) required (flag (as_encrypt row) (encrypt p))
        (default (compression p) (as_compression row)) (default (checksum_mode p) (as_checksum_mode row))
        (default (slice_size p) (as_slice_size row))
        (match as_verify_interval_days row with Some v => Some v | None => verify_interval_days p end)
        (flag (as_preserve_xattrs row) (preserve_xattrs p)) (flag (as_preserve_acls row) (preserve_acls p))
        (flag (as_preserve_fsa row) (preserve_fsa p)) (flag (as_dirty_on_metadata_change row) (dirty_on_metadata_change p))
        (default (warehouse_copies p) (as_warehouse_copies row)) (flag (as_allow_spanning row) (allow_spanning p))
        (copies_at p) in
      if is_some set_copies_at || negb (bool_decide (required = [])) then
        let own := default ∅ set_copies_at in
        Ok (mkResolving (with_copies_at (own ∪ list_to_map ((λ n, (n, 1)) <$> required)) p)
                        (mkSource LayerArchiveSet (names own)))
      else Ok (mkResolving p (copies_at_from s))
  end.

(** Layer 1, and whether the dotfile is there. *)
Definition policy_table (s : Resolving) (v : toml) : result Unresolvable Resolving :=
  let bad := mkUnresolvable LayerDotfile in
  let p := policy s in
  sec ← ok_or (de_policy_section v) (bad BadPolicySection);
  checksum ← opt_result (ps_checksum_mode sec) (λ v, if validate_checksum_mode v then Ok v else Err (bad BadChecksumMode)) (checksum_mode p);
  comp ← opt_result (ps_compression sec) (λ v, if validate_compression v then Ok v else Err (bad BadCompression)) (compression p);
  size ← opt_result (ps_slice_size sec) (λ v, ok_or (parse_size_to_bytes v) (bad BadSliceSize)) (slice_size p);
  let p := mkPolicy (min_copies p) (required_locations p) (encrypt p) comp checksum size (verify_interval_days p)
    (preserve_xattrs p) (preserve_acls p) (preserve_fsa p) (dirty_on_metadata_change p)
    (default (warehouse_copies p) (ps_warehouse_copies sec)) (default (allow_spanning p) (ps_allow_spanning sec)) (copies_at p) in
  match ps_copies_at sec with
  | Some m => Ok (mkResolving (with_copies_at m p) (mkSource LayerDotfile (names m)))
  | None => Ok (mkResolving p (copies_at_from s))
  end.
Definition dotfile_of (u : Unit) : DotfileOnDisk :=
  match current_path u with Some path => disk path | None => NoDotfile end.
Definition dotfile_layer (u : Unit) (s : Resolving) : result Unresolvable (Resolving * bool) :=
  let bad := mkUnresolvable LayerDotfile in
  match dotfile_of u with
  | NoDotfile => Ok (s, false)
  | UnreadableDotfile => Err (bad DotfileUnread)
  | DotfileText text =>
      table ← map_err (λ _, bad DotfileMalformed) (toml_table text);
      match List.find (λ f : string * toml, negb (bool_decide (f.1 ∈ DOTFILE_TOP_LEVEL_TABLES))) table with
      | Some f => Err (bad (UnknownTable f.1))
      | None =>
          match assoc "policy" table with
          | Some v => s ← policy_table s v; Ok (s, true)
          | None => Ok (s, true)
          end
      end
  end.

(** The dotfile's map as last frozen, only while there is no dotfile. *)
Definition frozen_layer (u : Unit) (present : bool) (s : Resolving) : result Unresolvable Resolving :=
  if present then Ok s
  else opt_result (copies_at_frozen u)
         (λ text, m ← ok_or (json_counts text) (mkUnresolvable LayerDotfile BadFrozenCopiesAt);
                  Ok (mkResolving (with_copies_at m (policy s)) (mkSource LayerDotfile (names m)))) s.

Definition location_names : list string := (map_to_list registered).*2.
Definition check_copies_at (m : gmap string Z) (from : CopiesAtSource) : result Unresolvable unit :=
  _ ← map_err (mkUnresolvable (src_layer from)) (validate_copies_at m);
  if bool_decide (src_keyed from = []) then Ok () else
  let unknown := filter (λ n, n ∉ location_names) (src_keyed from) in
  if bool_decide (unknown = []) then Ok () else Err (mkUnresolvable (src_layer from) (UnknownLocations unknown)).

Definition resolve (u : Unit) : result Unresolvable ResolvedPolicy :=
  s ← defaults_layer;
  s ← archive_set_layer (archive_set_id u) s;
  sp ← dotfile_layer u s;
  s ← frozen_layer u sp.2 sp.1;
  _ ← check_copies_at (copies_at (policy s)) (copies_at_from s);
  Ok (policy s).
End resolve.

(** ** The freeze *)

Record FrozenEvent : Type := mkFrozenEvent { fe_unit : Z; fe_old : option string; fe_new : option string }.
(** The table [units] and the events of the freeze. *)
Record UnitTable : Type := mkUnitTable { unit_rows : gmap Z Unit; frozen_events : list FrozenEvent }.

Section freeze.
Context `{!TomlCrate, !JsonCrate}.
Variable (disk : string → DotfileOnDisk).

Definition store_frozen_copies_at (id : Z) (stored : option string) (m : option (gmap string Z)) (t : UnitTable) : UnitTable * bool :=
  let text := json_of_counts <$> m in
  if bool_decide (text = stored) then (t, false)
  else (mkUnitTable (alter (with_frozen text) id (unit_rows t)) (frozen_events t ++ [mkFrozenEvent id stored text]), true).

(** [None] is the error of a dotfile that cannot be read. *)
Definition freeze_copies_at (id : Z) (u : Unit) (t : UnitTable) : option (UnitTable * bool) :=
  match dotfile_of disk u with
  | NoDotfile => Some (t, false)
  | d => f ← read_dotfile d; Some (store_frozen_copies_at id (copies_at_frozen u) (ud_copies_at f) t)
  end.
End freeze.

(** ** A volume's interval *)

(** [volume_verify_interval_days]. *)
Definition volume_verify_interval_days (archive_sets : gmap Z ArchiveSet) (unit_rows : gmap Z Unit) (sh : Shelves)
    (v : Z) (default_days : option Z) : option Z :=
  minZ (omap (λ w : Z * WriteRow,
    if bool_decide (volume_id w.2 = v ∧ write_status w.2 ≠ WCut) then
      version ← version_of sh !! snapshot_id w.2;
      u ← unit_rows !! version.1;
      match archive_set_id u ≫= λ a, archive_sets !! a with
      | Some row => match as_verify_interval_days row with Some d => Some d | None => default_days end
      | None => default_days
      end
    else None) (map_to_list (writes (ledger_of sh)))).
