(* ===== verification/Staging.v ===== *)
(** * Staging released: [src/staging/clean.rs], [src/staging/release.rs]

    Which staged slices may be given up once their copies are on tape: the
    rule of a whole stage set, the rule of one slice of a set that spans
    cartridges, what holds a set whatever the rules say, the gate that asks
    the policy, and the release itself: one transaction, then the files. *)

From stdpp Require Import pretty.
From S2P Require Import Prelude LayoutModel Session Ledger Coverage.
Local Open Scope Z_scope.
Local Open Scope rust_scope.

(** ** The rows and the files *)

Inductive SetStatus : Type := SetStaging | SetStaged | SetFailed | SetCleaned.
#[export] Instance SetStatus_eq_dec : EqDecision SetStatus.
Proof. solve_decision. Defined.

(** A path as its directory and its file name. *)
Notation File := (string * string)%type.

Inductive RewriteState : Type := RwStaged | RwRetired | RwErased | RwInitialized | RwWritten.
#[export] Instance RewriteState_eq_dec : EqDecision RewriteState.
Proof. solve_decision. Defined.
Record PendingRewrite : Type := mkRewrite {
  rewrite_source : Z;
  rewrite_state : RewriteState;
  rewrite_finished : bool;
  rewrite_sets : list Z;
}.

(** The catalog's staging tables and the files on the staging disk. *)
Record StagingArea : Type := mkStagingArea {
  shelves_of : Shelves;
  set_status : gmap Z SetStatus;         (* [stage_sets.status] *)
  num_slices : gmap Z Z;                 (* [stage_sets.num_slices], when set *)
  staging_path : gmap Z File;            (* of a stage slice, when set *)
  released_at : gset Z;                  (* the stage slices released on their own *)
  rewrites : gmap Z PendingRewrite;
  unit_uuid : gmap Z string;
  disk : gmap File Z;                    (* the size of each file *)
}.
Definition with_disk (d : gmap File Z) (st : StagingArea) : StagingArea :=
  mkStagingArea (shelves_of st) (set_status st) (num_slices st) (staging_path st) (released_at st) (rewrites st) (unit_uuid st) d.
Definition ledger_in (st : StagingArea) : Ledger := ledger_of (shelves_of st).

(** [UPDATE stage_sets SET status = 'cleaned']. *)
Definition mark_cleaned (set : Z) (st : StagingArea) : StagingArea :=
  mkStagingArea (shelves_of st) (alter (λ _, SetCleaned) set (set_status st)) (num_slices st) (staging_path st) (released_at st)
    (rewrites st) (unit_uuid st) (disk st).
(** [UPDATE stage_slices SET staging_path = NULL]; [released] sets
    [released_at] with it. *)
Definition null_path (released : bool) (slice : Z) (st : StagingArea) : StagingArea :=
  mkStagingArea (shelves_of st) (set_status st) (num_slices st) (delete slice (staging_path st))
    (if released then {[slice]} ∪ released_at st else released_at st) (rewrites st) (unit_uuid st) (disk st).

(** ** Whose writes let a set go *)

Section rules.
Variables (c : Ledger) (set : Z).

Definition set_writes_of : list (Z * WriteRow) := filter (λ kr : Z * WriteRow, stage_set_id kr.2 = set) (map_to_list (writes c)).
Definition has_write (s : WriteStatus) : bool := existsb (λ kr : Z * WriteRow, bool_decide (write_status kr.2 = s)) set_writes_of.
Definition writes_finished : bool :=
  negb (existsb (λ kr : Z * WriteRow, bool_decide (write_status kr.2 ∉ [WCompleted; WCut; WRange])) set_writes_of).
Definition holds_a_range : bool := has_write WRange.
Definition release_candidate_predicate : bool := has_write WCompleted && writes_finished && negb holds_a_range.
Definition slice_release_candidate_predicate : bool := holds_a_range && writes_finished.
End rules.

(** ** What a release may look at *)

Inductive CleanScope : Type :=
| ScopeWhole
| ScopeUnits (ids : list Z)
| ScopeVersion (u version : Z).
Definition version_row (sh : Shelves) (set : Z) : option (Z * Z) := set_snapshot sh !! set ≫= (version_of sh !!.).
(** The [JOIN] a scoped query makes, and its predicate. *)
Definition scope_joined (sh : Shelves) (scope : CleanScope) (set : Z) : bool :=
  match scope with ScopeWhole => true | _ => bool_decide (is_Some (version_row sh set)) end.
Definition in_scope (sh : Shelves) (scope : CleanScope) (set : Z) : bool :=
  match scope, version_row sh set with
  | ScopeWhole, _ => true
  | ScopeUnits ids, Some (u, _) => bool_decide (u ∈ ids)
  | ScopeVersion u version, Some (u', version') => bool_decide (u' = u) && bool_decide (version' = version)
  | _, None => false
  end.

(** ** Pending rewrites *)

Record Hold : Type := mkHold { hold_rewrite : Z; hold_source : Z; hold_state : RewriteState }.

(** [coverage::fully_read_back_copy]. *)
Definition fully_read_back_copy (c : Ledger) (set : Z) : bool :=
  existsb (λ kr : Z * WriteRow, bool_decide (stage_set_id kr.2 = set) && bool_decide (write_status kr.2 = WCompleted)
    && write_verified kr.2 && match volumes c !! volume_id kr.2 with Some r => eligible r | None => false end)
    (map_to_list (writes c)).
Definition hold_rows (st : StagingArea) : list (Z * Hold) :=
  map_to_list (rewrites st) ≫= λ x : Z * PendingRewrite,
    if negb (rewrite_finished x.2) && negb (bool_decide (rewrite_state x.2 = RwStaged))
       && bool_decide (is_Some (volumes (ledger_in st) !! rewrite_source x.2))
    then (λ set, (set, mkHold x.1 (rewrite_source x.2) (rewrite_state x.2))) <$>
           filter (λ set, fully_read_back_copy (ledger_in st) set = false) (rewrite_sets x.2)
    else [].
(** Of several holds on one set the last is told. *)
Definition holds (st : StagingArea) : gmap Z Hold := foldl (λ m x, <[x.1 := x.2]> m) ∅ (hold_rows st).

(** ** The report *)

Record CleanReport : Type := mkReport {
  sets_cleaned : Z;
  files_removed : Z;
  bytes_freed : Z;
  errors : Z;
  stranded : list File;
  held_by_live_session : list (Z * list Z);
  held_by_pending_rewrite : list (Z * Hold);
  slices_released : list (Z * list Z);
  slices_short : list (Z * list Z);
}.
Definition no_report : CleanReport := mkReport 0 0 0 0 [] [] [] [] [].
Definition absorb (r o : CleanReport) : CleanReport :=
  mkReport (sets_cleaned r + sets_cleaned o) (files_removed r + files_removed o) (wrap_i64 (bytes_freed r + bytes_freed o))
    (errors r + errors o) (stranded r ++ stranded o) (held_by_live_session r ++ held_by_live_session o)
    (held_by_pending_rewrite r ++ held_by_pending_rewrite o) (slices_released r ++ slices_released o)
    (slices_short r ++ slices_short o).
Definition count_cleaned (n : Z) (r : CleanReport) : CleanReport :=
  mkReport (sets_cleaned r + n) (files_removed r) (bytes_freed r) (errors r) (stranded r) (held_by_live_session r)
    (held_by_pending_rewrite r) (slices_released r) (slices_short r).
Definition count_file (size : Z) (r : CleanReport) : CleanReport :=
  mkReport (sets_cleaned r) (files_removed r + 1) (wrap_i64 (bytes_freed r + size)) (errors r) (stranded r)
    (held_by_live_session r) (held_by_pending_rewrite r) (slices_released r) (slices_short r).
Definition count_stranded (f : File) (r : CleanReport) : CleanReport :=
  mkReport (sets_cleaned r) (files_removed r) (bytes_freed r) (errors r + 1) (stranded r ++ [f])
    (held_by_live_session r) (held_by_pending_rewrite r) (slices_released r) (slices_short r).
Definition report_slices (released short : list (Z * list Z)) (r : CleanReport) : CleanReport :=
  mkReport (sets_cleaned r) (files_removed r) (bytes_freed r) (errors r) (stranded r) (held_by_live_session r)
    (held_by_pending_rewrite r) (slices_released r ++ released) (slices_short r ++ short).

(** ** The files of a set: [staging::archive_base_name] *)

Fixpoint without_dashes (s : string) : string :=
  match s with
  | EmptyString => EmptyString
  | String a s => if bool_decide (a = ascii_of_byte 45) then without_dashes s else String a (without_dashes s)
  end.
(** [str::get(..n)]: [None] past the end or inside a character. *)
Definition get_prefix (n : nat) (s : string) : option string :=
  if bool_decide (String.length s < n)%nat then None
  else match String.get n s with
       | Some a => if bool_decide (128 ≤ Z.of_N (Ascii.N_of_ascii a) < 192) then None else Some (String.substring 0 n s)
       | None => Some (String.substring 0 n s)
       end.
Definition uuid_stem (uuid : string) : string := default uuid (get_prefix 12 (without_dashes uuid)).
Definition archive_base_name (uuid : string) (version set : Z) : string :=
  (uuid_stem uuid +:+ "_v" +:+ pretty version +:+ "_s" +:+ pretty set)%string.
Definition archive_base_prefix (uuid : string) (version set : Z) : string := (archive_base_name uuid version set +:+ ".")%string.

Definition ends_with (suffix s : string) : bool :=
  let n := String.length s in let k := String.length suffix in
  bool_decide (k ≤ n)%nat && String.eqb (String.substring (n - k) k s) suffix.
Definition set_prefix (st : StagingArea) (set : Z) : option string :=
  '(u, version) ← version_row (shelves_of st) set;
  uuid ← unit_uuid st !! u;
  Some (archive_base_prefix uuid version set).

(** ** A release *)

Section release.
(** Whether a live session holds a volume's lock; whether the transaction that
    releases some sets commits; whether a file can be removed; what other
    processes do to the catalog between a release's reads and its
    transaction. *)
Context {E : Type}.
Variables (session_live : Z → bool) (commits : list Z → bool) (unlinks : File → bool)
  (meanwhile : StagingArea → StagingArea) (staging_dir : string).

Inductive ReleaseError : Type :=
| CatalogBusy
| UnitMissing (u : Z)
| UnitNotFound (name : string)
| VersionNeedsOneUnit
| PolicyUnresolved (e : E)
| BlockerUnread (r : Refused).

Definition remove_and_account (f : File) (x : gmap File Z * CleanReport) : gmap File Z * CleanReport :=
  match x.1 !! f with
  | None => x
  | Some size => if unlinks f then (delete f x.1, count_file size x.2) else (x.1, count_stranded f x.2)
  end.
Definition remove_all (fs : list File) (x : gmap File Z * CleanReport) : gmap File Z * CleanReport :=
  foldl (λ x f, remove_and_account f x) x fs.

(** The files named for a set at the top of the staging directory. *)
Definition named_for (prefix name : string) : bool :=
  String.prefix prefix name && (ends_with ".dar" name || ends_with ".sha512" name || ends_with ".dar.age" name).
Definition find_prefix_orphans (st : StagingArea) (set : Z) : list File :=
  match set_prefix st set with
  | Some prefix => filter (λ f, f.1 = staging_dir ∧ named_for prefix f.2 = true) (map_to_list (disk st)).*1
  | None => []
  end.

(** ** What holds a set whatever the rules say *)

Definition live_writers (st : StagingArea) (set : Z) : list Z :=
  filter (λ v, session_live v = true)
    (remove_dups (omap (λ kr : Z * WriteRow, (λ _, volume_id kr.2) <$> (volumes (ledger_in st) !! volume_id kr.2))
                    (set_writes_of (ledger_in st) set))).
Definition drop_held (st : StagingArea) (candidates : list Z) : list Z * CleanReport :=
  let free := filter (λ set, live_writers st set = []) candidates in
  let held := holds st in
  (filter (λ set, held !! set = None) free,
   mkReport 0 0 0 0 []
     ((λ set, (set, live_writers st set)) <$> filter (λ set, live_writers st set ≠ []) candidates)
     (omap (λ set, (λ h, (set, h)) <$> (held !! set)) free) [] []).

(** ** Whole sets: [clean_staging] *)

Definition clean_candidates (force : bool) (scope : CleanScope) (st : StagingArea) : list Z :=
  (filter (λ kr : Z * SetStatus,
     scope_joined (shelves_of st) scope kr.1 &&
       (bool_decide (kr.2 = SetFailed) ||
        bool_decide (kr.2 = SetStaged) && (force || release_candidate_predicate (ledger_in st) kr.1)
          && in_scope (shelves_of st) scope kr.1) = true) (map_to_list (set_status st))).*1.

Record SetPlan : Type := mkSetPlan {
  plan_set : Z;
  age_files : list (Z * File);           (* stage slice, staged file *)
  orphans : list File;
}.
Definition plan_release (st : StagingArea) (set : Z) : SetPlan :=
  let age := omap (λ s : Z * Z, (λ f, (s.1, f)) <$> (staging_path st !! s.1)) (slices_of set (ledger_in st)) in
  mkSetPlan set age (filter (λ f, f ∉ age.*2) (find_prefix_orphans st set)).
Definition commit_release (plans : list SetPlan) (st : StagingArea) : StagingArea :=
  foldl (λ st p, mark_cleaned (plan_set p) (foldl (λ st s, null_path false s st) st (age_files p).*1)) st plans.
Definition released_files (plans : list SetPlan) : list File := plans ≫= λ p, (age_files p).*2 ++ orphans p.

Definition clean_staging (force : bool) (scope : CleanScope) (st : StagingArea) : result ReleaseError CleanReport * StagingArea :=
  let '(free, report) := drop_held st (clean_candidates force scope st) in
  if bool_decide (free = []) then (Ok report, st)
  else
    let plans := plan_release st <$> free in
    let st := meanwhile st in
    if negb (commits free) then (Err CatalogBusy, st)
    else
      let st := commit_release plans st in
      let '(disk, report) := remove_all (released_files plans) (disk st, count_cleaned (Z.of_nat (length plans)) report) in
      (Ok report, with_disk disk st).

(** ** One slice at a time: [release_covered_slices] *)

Definition slices_short_of (st : StagingArea) (set floor : Z) : list Z :=
  sc_number <$> filter (λ s, sc_copies s < floor ∧ sc_slice s ∉ released_at st) (slice_copies (shelves_of st) set).

Definition unreleased (st : StagingArea) (set : Z) : list SliceCopies :=
  filter (λ s, sc_slice s ∉ released_at st) (slice_copies (shelves_of st) set).
Definition release_covered_slices (set floor : Z) (st : StagingArea) : result ReleaseError CleanReport * StagingArea :=
  if negb (bool_decide (set_status st !! set = Some SetStaged) && slice_release_candidate_predicate (ledger_in st) set)
  then (Ok no_report, st)
  else
    let '(free, report) := drop_held st [set] in
    if bool_decide (free = []) then (Ok report, st)
    else
      let floor := Z.max floor 1 in
      let st := meanwhile st in
      if negb (commits [set]) then (Err CatalogBusy, st)
      else
        let any_slice := negb (bool_decide (slice_copies (shelves_of st) set = [])) in
        let short := sc_number <$> filter (λ s, sc_copies s < floor) (unreleased st set) in
        let gone := filter (λ s, floor ≤ sc_copies s) (unreleased st set) in
        let files := omap (λ s, staging_path st !! sc_slice s) gone in
        let cleaned := any_slice && bool_decide (short = []) in
        let st := foldl (λ st s, null_path true s st) st (sc_slice <$> gone) in
        let st := if cleaned then mark_cleaned set st else st in
        let report := report_slices (if bool_decide (gone = []) then [] else [(set, sc_number <$> gone)])
                                    (if bool_decide (short = []) then [] else [(set, short)]) report in
        let report := if cleaned then count_cleaned 1 report else report in
        let '(left_, report) := remove_all files (disk st, report) in
        let st := with_disk left_ st in
        let rest := if cleaned then filter (λ f, f ∉ files) (find_prefix_orphans st set) else [] in
        let '(left_, report) := remove_all rest (disk st, report) in
        (Ok report, with_disk left_ st).
End release.
