(* ===== verification/StagingGate.v ===== *)
(** * Staging judged: [src/staging/release.rs], [src/cli/staging.rs]

    The policy in front of a release: which units have the copies their policy
    asks, which slices, and what a bare clean, a write and [--force] release
    by it. *)

From S2P Require Import Prelude LayoutModel Session Ledger Coverage Release Staging.
Local Open Scope Z_scope.
Local Open Scope rust_scope.

(** ** Why a bare clean leaves a set alone: [release_blocker] *)

Inductive ReleaseBlocker : Type :=
| NoBlocker
| SlicesShort (slices : list Z)
| NeverWritten
| CutOn (volume : option Z)
| WriteInFlight (volume : option Z)
| BlockedInterrupted (volume : option Z)
| Abandoned (reconfirm_on : option Z).

Section blocker.
Variables (c : Ledger) (set : Z).

(** A volume of the set's writes in a status: of those the catalog still has,
    any one; of the [cut] ones, the latest's. *)
Definition volume_of_write (s : WriteStatus) : option Z :=
  head (omap (λ kr : Z * WriteRow, if bool_decide (write_status kr.2 = s) then (λ _, volume_id kr.2) <$> (volumes c !! volume_id kr.2)
                                   else None) (set_writes_of c set)).
Definition latest_write (l : list (Z * WriteRow)) : option (Z * WriteRow) :=
  fold_right (λ x best, match best with Some b => if bool_decide (b.1 < x.1) then Some x else Some b | None => Some x end) None l.
Definition cut_on : option (option Z) :=
  (λ kr : Z * WriteRow, (λ _, volume_id kr.2) <$> (volumes c !! volume_id kr.2)) <$>
    latest_write (filter (λ kr : Z * WriteRow, write_status kr.2 = WCut) (set_writes_of c set)).

(** The volumes of the aborted writes, by id. *)
Definition aborted_volumes : list Z :=
  merge_sort Z.le (remove_dups (omap (λ kr : Z * WriteRow,
    if bool_decide (write_status kr.2 = WAborted) then (λ _, volume_id kr.2) <$> (volumes c !! volume_id kr.2) else None)
    (set_writes_of c set))).
Fixpoint first_reconfirmable (vs : list Z) : result Refused (option Z) :=
  match vs with
  | [] => Ok None
  | v :: vs => yes ← aborted_session_reconfirmable_after_verify v c; if (yes : bool) then Ok (Some v) else first_reconfirmable vs
  end.

Definition release_blocker : result Refused ReleaseBlocker :=
  let statuses := (λ kr : Z * WriteRow, write_status kr.2) <$>
                    filter (λ kr : Z * WriteRow, write_status kr.2 ≠ WCut) (set_writes_of c set) in
  let any s := bool_decide (s ∈ statuses) in
  if bool_decide (statuses = []) then Ok (match cut_on with Some v => CutOn v | None => NeverWritten end)
  else if forallb (λ s, bool_decide (s = WCompleted) || bool_decide (s = WRange)) statuses then Ok NoBlocker
  else if any WInProgress then Ok (WriteInFlight (volume_of_write WInProgress))
  else if any WPlanned then Ok (WriteInFlight (volume_of_write WPlanned))
  else if any WInterrupted then Ok (BlockedInterrupted (volume_of_write WInterrupted))
  else v ← first_reconfirmable aborted_volumes; Ok (Abandoned v).
End blocker.

(** ** The slices on disk: [staging::staged_slice_problems] *)

Inductive SliceProblem : Type :=
| RowsRecorded (found expected : Z)
| NoFileRecorded (number : Z)
| WrongSize (number : Z) (f : File) (len recorded : Z)
| NotThere (number : Z) (f : File).
Definition slice_problem (st : StagingArea) (s : Z * Z) : option SliceProblem :=
  if bool_decide (s.1 ∈ released_at st) then None
  else match staging_path st !! s.1 with
       | None => Some (NoFileRecorded s.2)
       | Some f =>
           match disk st !! f with
           | None => Some (NotThere s.2 f)
           | Some len =>
               let recorded := default 0 (encrypted_bytes (shelves_of st) !! s.1) in
               if bool_decide (wrap_i64 len = recorded) then None else Some (WrongSize s.2 f len recorded)
           end
       end.
Definition staged_slice_problems (st : StagingArea) (set : Z) : list SliceProblem :=
  let rows := merge_sort by_slice_number (slices_of set (ledger_in st)) in
  match num_slices st !! set with
  | Some n => if bool_decide (n = Z.of_nat (length rows)) then [] else [RowsRecorded (Z.of_nat (length rows)) n]
  | None => []
  end ++ omap (slice_problem st) rows.

(** ** The gate *)

Inductive HoldFor : Type := CopyFloor | EveryLocation.
Record CopyProgress : Type := mkProgress {
  cp_unit : string;
  cp_copies : Z;
  cp_floor : Z;
  cp_short_at : list LocationShort;
}.
Record ReleaseOutcome : Type := mkOutcome {
  ro_cleaned : option CleanReport;
  ro_units : list string;
  ro_under_copied : list CopyProgress;
  ro_slices : CleanReport;
}.

Section gate.
Context {E : Type}.
Variables (session_live : Z → bool) (commits : list Z → bool) (unlinks : File → bool)
  (meanwhile : StagingArea → StagingArea) (staging_dir : string).
Variables (config : Config) (resolve : Z → result E ResolvedPolicy).
Notation ReleaseError := (@ReleaseError E).
Notation clean_staging := (@clean_staging E session_live commits unlinks meanwhile staging_dir).
Notation release_covered_slices := (@release_covered_slices E session_live commits unlinks meanwhile staging_dir).

(** [get_unit_by_name]. *)
Definition unit_by_name (st : StagingArea) (name : string) : option (Z * UnitRow) :=
  head (filter (λ x : Z * UnitRow, unit_called x.2 = name) (map_to_list (units (shelves_of st)))).
Definition unit_and_policy (st : StagingArea) (u : Z) : result ReleaseError ((Z * UnitRow) * ResolvedPolicy) :=
  row ← ok_or (units (shelves_of st) !! u) (UnitMissing u);
  unit ← ok_or (unit_by_name st (unit_called row)) (UnitMissing u);
  policy ← map_err PolicyUnresolved (resolve unit.1);
  Ok (unit, policy).
Definition unit_copy_floor (st : StagingArea) (u : Z) : result ReleaseError Z :=
  x ← unit_and_policy st u;
  Ok (copy_floor config (copy_floor_base x.2) (unit_state x.1.2)).

(** [staged_sets_holding_a_range]: set and unit, in set order. *)
Definition by_set (a b : Z * Z) : Prop := a.1 ≤ b.1.
#[export] Instance by_set_dec : RelDecision by_set.
Proof. intros a b. unfold by_set. apply _. Defined.
Definition staged_sets_holding_a_range (st : StagingArea) (scope : CleanScope) : list (Z * Z) :=
  merge_sort by_set (omap (λ kr : Z * SetStatus,
    if bool_decide (kr.2 = SetStaged) && holds_a_range (ledger_in st) kr.1 && in_scope (shelves_of st) scope kr.1
    then (λ x, (kr.1, x.1)) <$> version_row (shelves_of st) kr.1 else None) (map_to_list (set_status st))).

(** The units whose staged data is not only sets holding a range. *)
Definition staged_whole_set (st : StagingArea) (u set : Z) : bool :=
  bool_decide (set_status st !! set = Some SetStaged) && negb (holds_a_range (ledger_in st) set)
  && bool_decide (fst <$> version_row (shelves_of st) set = Some u).
Definition units_judged_whole (st : StagingArea) (unit_ids : list Z) : list Z :=
  let spanning := (staged_sets_holding_a_range st (ScopeUnits unit_ids)).*2 in
  filter (λ u, u ∉ spanning ∨ existsb (staged_whole_set st u) (map_to_list (set_status st)).*1 = true) unit_ids.

(** [release_ranges]: each set against its own unit's floor. *)
Fixpoint release_each (sets : list (Z * Z)) (report : CleanReport) (st : StagingArea) : result ReleaseError CleanReport * StagingArea :=
  match sets with
  | [] => (Ok report, st)
  | (set, u) :: sets =>
      match unit_copy_floor st u with
      | Err e => (Err e, st)
      | Ok floor =>
          match release_covered_slices set floor st with
          | (Err e, st) => (Err e, st)
          | (Ok r, st) => release_each sets (absorb report r) st
          end
      end
  end.
Definition release_ranges (scope : CleanScope) (st : StagingArea) : result ReleaseError CleanReport * StagingArea :=
  release_each (staged_sets_holding_a_range st scope) no_report st.

Definition release_blocker_judged (st : StagingArea) (set : Z) : result ReleaseError ReleaseBlocker :=
  blocker ← map_err BlockerUnread (release_blocker (ledger_in st) set);
  match blocker, version_row (shelves_of st) set with
  | NoBlocker, Some (u, _) =>
      if holds_a_range (ledger_in st) set then
        floor ← unit_copy_floor st u;
        let slices := slices_short_of st set (Z.max floor 1) in
        Ok (if bool_decide (slices = []) then NoBlocker else SlicesShort slices)
      else Ok NoBlocker
  | b, _ => Ok b
  end.

(** One unit judged: the units kept, and those held for a location. *)
Definition copies_of (st : StagingArea) (u : Z) : Z := copy_count_expr (shelves_of st) (current_unit u).
Fixpoint judge_units (st : StagingArea) (hold : HoldFor) (gate : list Z) (unit_ids : list Z)
    : result ReleaseError (list (Z * CopyProgress) * list Z) :=
  match unit_ids with
  | [] => Ok ([], [])
  | u :: unit_ids =>
      let whole := bool_decide (u ∈ gate) in
      here ← (match whole, hold with
              | false, CopyFloor => Ok ([], [])
              | _, _ =>
                  x ← unit_and_policy st u;
                  let status := unit_state x.1.2 in
                  let short_at := match hold with
                                  | CopyFloor => []
                                  | EveryLocation => short_of_copies_at config (shelves_of st) (NamedUnit u) x.2 status None
                                  end in
                  let located := match short_at with [] => [] | _ => [u] end in
                  let floor := copy_floor config (copy_floor_base x.2) status in
                  let copies := copies_of st u in
                  let kept := if whole && (bool_decide (copies < floor) || match short_at with [] => false | _ => true end)
                              then [(u, mkProgress (unit_called x.1.2) copies floor short_at)] else [] in
                  Ok (kept, located)
              end);
      rest ← judge_units st hold gate unit_ids;
      Ok (here.1 ++ rest.1, here.2 ++ rest.2)
  end.

(** The staged sets a whole release may clean, in the order of the units. *)
Definition by_unit_order (unit_ids : list Z) (a b : Z * Z * string) : Prop :=
  let place (x : Z * Z * string) := default (length unit_ids) (position (λ u, bool_decide (u = x.1.2)) unit_ids) in
  (place a < place b)%nat ∨ place a = place b ∧ a.1.1 ≤ b.1.1.
#[export] Instance by_unit_order_dec unit_ids : RelDecision (by_unit_order unit_ids).
Proof. intros a b. unfold by_unit_order. apply _. Defined.
Definition staged_whole_sets (st : StagingArea) (unit_ids : list Z) : list (Z * Z * string) :=
  merge_sort (by_unit_order unit_ids) (omap (λ set,
    '(u, _) ← version_row (shelves_of st) set;
    row ← units (shelves_of st) !! u;
    if bool_decide (u ∈ unit_ids) && staged_whole_set st u set then Some (set, u, unit_called row) else None)
    (map_to_list (set_status st)).*1).
Definition units_released (st : StagingArea) (before : list (Z * Z * string)) : list string :=
  foldl (λ names x, if bool_decide (x.2 ∈ names) then names
                    else if bool_decide (set_status st !! x.1.1 = Some SetCleaned) then names ++ [x.2] else names) [] before.

Definition release_if_covered_holding (unit_ids : list Z) (hold : HoldFor) (st : StagingArea)
    : result ReleaseError ReleaseOutcome * StagingArea :=
  let gate := units_judged_whole st unit_ids in
  match judge_units st hold gate unit_ids with
  | Err e => (Err e, st)
  | Ok (under, held_for_locations) =>
      let kept := under.*1 in
      let covered := filter (λ u, u ∉ kept) gate in
      let scope := if bool_decide (kept = []) then unit_ids else covered in
      let cleaned :=
        if bool_decide (scope = []) && negb (bool_decide (kept = [])) then (Ok None, st)
        else match clean_staging false (ScopeUnits scope) st with
             | (Ok r, st) => (Ok (Some r), st)
             | (Err e, st) => (Err e, st)
             end in
      match cleaned with
      | (Err e, st') => (Err e, st')
      | (Ok cleaned, st') =>
          let names := match cleaned with Some _ => units_released st' (staged_whole_sets st covered) | None => [] end in
          let released := filter (λ u, u ∉ held_for_locations) unit_ids in
          match release_ranges (ScopeUnits released) st' with
          | (Err e, st'') => (Err e, st'')
          | (Ok slices, st'') => (Ok (mkOutcome cleaned names under.*2 slices), st'')
          end
      end
  end.
Definition release_if_covered (unit_ids : list Z) : StagingArea → result ReleaseError ReleaseOutcome * StagingArea :=
  release_if_covered_holding unit_ids CopyFloor.

(** ** Whose copies a write put on tape: [unit_ids_written_to] *)

Definition unit_ids_written_to (st : StagingArea) (v : Z) : list Z :=
  merge_sort Z.le (remove_dups (omap (λ kr : Z * WriteRow,
    if bool_decide (volume_id kr.2 = v) && holds_slices (write_status kr.2)
    then fst <$> version_row (shelves_of st) (stage_set_id kr.2) else None) (map_to_list (writes (ledger_in st))))).

(** [under_copied_units]. *)
Fixpoint under_copied_units (st : StagingArea) (unit_ids : list Z) : result ReleaseError (list (Z * CopyProgress)) :=
  match unit_ids with
  | [] => Ok []
  | u :: unit_ids =>
      x ← unit_and_policy st u;
      let floor := copy_floor config (copy_floor_base x.2) (unit_state x.1.2) in
      let copies := copies_of st x.1.1 in
      rest ← under_copied_units st unit_ids;
      Ok (if bool_decide (copies < floor) then (x.1.1, mkProgress (unit_called x.1.2) copies floor []) :: rest else rest)
  end.

(** ** [stage clean] *)

(** The units with a staged set a bare clean may release, by name. *)
Definition staged_release_candidate_units (st : StagingArea) (unit_filter : option (list Z)) : list (Z * string) :=
  let ids := remove_dups (omap (λ kr : Z * SetStatus,
    if bool_decide (kr.2 = SetStaged) && release_candidate_predicate (ledger_in st) kr.1
    then fst <$> version_row (shelves_of st) kr.1 else None) (map_to_list (set_status st))) in
  (λ x : Z * UnitRow, (x.1, unit_called x.2)) <$>
    merge_sort by_called
      (filter (λ x : Z * UnitRow, x.1 ∈ ids ∧ match unit_filter with Some f => bool_decide (x.1 ∈ f) | None => true end = true)
        (map_to_list (units (shelves_of st)))).

Definition under_copied_release_candidates (st : StagingArea) (unit_filter : option (list Z)) : result ReleaseError (list (Z * CopyProgress)) :=
  under_copied_units st (staged_release_candidate_units st unit_filter).*1.

Definition release_scope (ids : list Z) (version : option Z) : CleanScope :=
  match version, ids with
  | Some v, [u] => ScopeVersion u v
  | _, _ => ScopeUnits ids
  end.
Fixpoint named_units (st : StagingArea) (names : list string) : result ReleaseError (list Z) :=
  match names with
  | [] => Ok []
  | name :: names =>
      x ← ok_or (unit_by_name st name) (UnitNotFound name);
      rest ← named_units st names;
      Ok (x.1 :: rest)
  end.

(** What is released and whose staging is retained; the session directories
    and lock files it sweeps are left out. *)
Definition stage_clean (force : bool) (unit_names : list string) (version : option Z) (st : StagingArea)
    : result ReleaseError (CleanReport * list (Z * CopyProgress)) * StagingArea :=
  match named_units st unit_names with
  | Err e => (Err e, st)
  | Ok ids =>
      if bool_decide (is_Some version) && negb (bool_decide (length ids = 1%nat)) then (Err VersionNeedsOneUnit, st)
      else
        let unit_scope := match ids with [] => None | _ => Some ids end in
        let scope := match unit_scope with Some ids => release_scope ids version | None => ScopeWhole end in
        if force then
          match clean_staging true scope st with
          | (Ok r, st) => (Ok (r, []), st)
          | (Err e, st) => (Err e, st)
          end
        else
          match under_copied_release_candidates st unit_scope with
          | Err e => (Err e, st)
          | Ok under =>
              let covered := filter (λ u, u ∉ under.*1) (staged_release_candidate_units st unit_scope).*1 in
              match clean_staging false (match under with [] => scope | _ => ScopeUnits covered end) st with
              | (Err e, st) => (Err e, st)
              | (Ok r, st) =>
                  match release_ranges scope st with
                  | (Err e, st) => (Err e, st)
                  | (Ok slices, st) => (Ok (absorb r slices, under), st)
                  end
              end
          end
  end.
End gate.
