(* ===== verification/StagingSound.v ===== *)
(** * What a release of staging gives up

    The files of a set carry its id, so no other set's match; a release,
    whatever fails or dies in it, leaves every set it keeps as whole on disk
    as it was; and what it gives up is on tape as often as its policy asks,
    slice by slice where a set spans cartridges. *)

From stdpp Require Import pretty.
From S2P Require Import Prelude LayoutModel Session Ledger LedgerSound Coverage CoverageSound Release Staging StagingGate.
Local Open Scope Z_scope.
Local Open Scope rust_scope.

(** ** The names of a set's files *)

Fixpoint no_char (a : Ascii.ascii) (s : string) : bool :=
  match s with EmptyString => true | String b s => negb (bool_decide (a = b)) && no_char a s end.

Lemma split_unique a s t x y : no_char a s = true → no_char a t = true →
  (s +:+ String a x)%string = (t +:+ String a y)%string → s = t ∧ x = y.
Proof.
  revert t. induction s as [|b s IH]; intros [|b' t]; cbn.
  - by intros _ _ [= ->].
  - intros _ [Hn _]%andb_true_iff [= <- _]. by rewrite bool_decide_eq_true_2 in Hn.
  - intros [Hn _]%andb_true_iff _ [= -> _]. by rewrite bool_decide_eq_true_2 in Hn.
  - intros [_ Hs]%andb_true_iff [_ Ht]%andb_true_iff [= -> Heq]. by destruct (IH t Hs Ht Heq) as [-> ->].
Qed.

Definition is_mark (a : Ascii.ascii) : Prop := a = ascii_of_byte 95 ∨ a = ascii_of_byte 46.

Lemma pretty_N_char_mark a x : is_mark a → a ≠ pretty_N_char x.
Proof. intros Ha. unfold pretty_N_char. destruct Ha as [-> | ->]; repeat case_match; discriminate. Qed.

Lemma pretty_N_go_mark a x s : is_mark a → no_char a s = true → no_char a (pretty_N_go x s) = true.
Proof.
  intros Ha. revert s. induction (N.lt_wf_0 x) as [x _ IH]; intros s Hs.
  assert (x = 0 ∨ 0 < x)%N as [->|Hx] by lia; [by rewrite pretty_N_go_0|].
  rewrite pretty_N_go_step by done. apply IH; [by apply N.div_lt|]. cbn.
  rewrite bool_decide_eq_false_2 by by apply pretty_N_char_mark. done.
Qed.

Lemma pretty_Z_mark a (z : Z) : is_mark a → no_char a (pretty z) = true.
Proof.
  intros Ha. assert (∀ n : N, no_char a (pretty n) = true) as Hn.
  { intros n. unfold pretty, pretty_N. case_decide; [|by apply pretty_N_go_mark]. by destruct Ha as [-> | ->]. }
  destruct z as [|p|p]; [by destruct Ha as [-> | ->]|exact (Hn (Npos p))|].
  change (negb (bool_decide (a = ascii_of_byte 45)) && no_char a (pretty (N.pos p)) = true).
  rewrite Hn. by destruct Ha as [-> | ->].
Qed.

(** A unit's stem has no underscore: a uuid is hex digits and dashes. *)
Definition plain_uuid (uuid : string) : Prop := no_char (ascii_of_byte 95) (uuid_stem uuid) = true.

Lemma prefix_app p s : String.prefix p s = true → ∃ rest, s = (p +:+ rest)%string.
Proof.
  revert s. induction p as [|a p IH]; intros s; [by exists s|]. destruct s as [|b s]; cbn; [done|].
  case_match; [|done]. subst b. intros [rest ->]%IH. by exists rest.
Qed.

Lemma app_assoc_string (a b c : string) : ((a +:+ b) +:+ c = a +:+ (b +:+ c))%string.
Proof. induction a as [|x a IH]; [done|]. change (String x ((a +:+ b) +:+ c) = String x (a +:+ (b +:+ c)))%string. by rewrite IH. Qed.

(** A file named for one set is named for no other. *)
Lemma prefix_owns uuid version set uuid' version' set' name : plain_uuid uuid → plain_uuid uuid' →
  String.prefix (archive_base_prefix uuid version set) name = true →
  String.prefix (archive_base_prefix uuid' version' set') name = true → set = set'.
Proof.
  intros Hu Hu' [rest ->]%prefix_app [rest' Heq]%prefix_app.
  unfold archive_base_prefix, archive_base_name in Heq. rewrite !app_assoc_string in Heq.
  apply (split_unique (ascii_of_byte 95)) in Heq as [_ Heq]; [|done..]. injection Heq as Heq.
  apply (split_unique (ascii_of_byte 95)) in Heq as [_ Heq]; [|apply pretty_Z_mark; by left..]. injection Heq as Heq.
  apply (split_unique (ascii_of_byte 46)) in Heq as [Heq _]; [|apply pretty_Z_mark; by right..].
  by apply (inj (pretty (A := Z))).
Qed.

(** ** The release's transaction and its files *)

(** What a release's statements leave alone. *)
Definition frame (st st' : StagingArea) : Prop :=
  shelves_of st' = shelves_of st ∧ num_slices st' = num_slices st ∧ rewrites st' = rewrites st ∧ unit_uuid st' = unit_uuid st.

Lemma null_paths_spec released l st :
  let st' := foldl (λ st s, null_path released s st) st l in
  frame st st' ∧ set_status st' = set_status st ∧ disk st' = disk st ∧
  (∀ s, staging_path st' !! s = if bool_decide (s ∈ l) then None else staging_path st !! s) ∧
  (∀ s, s ∈ released_at st' ↔ s ∈ released_at st ∨ released = true ∧ s ∈ l).
Proof.
  cbn. revert st. induction l as [|s l IH]; intros st; cbn.
  - repeat split; intros; try set_solver.
  - destruct (IH (null_path released s st)) as ((H1 & H2 & H3 & H4) & Hs & Hd & Hp & Hr).
    split; [done|]. split; [done|]. split; [done|]. split.
    + intros x. rewrite Hp. cbn. destruct (decide (x = s)) as [->|Hne].
      * rewrite lookup_delete_eq, (bool_decide_eq_true_2 (s ∈ s :: l)) by apply list_elem_of_here. by case_bool_decide.
      * rewrite lookup_delete_ne by done. replace (bool_decide (x ∈ s :: l)) with (bool_decide (x ∈ l)); [done|]. apply bool_decide_ext. rewrite elem_of_cons. naive_solver.
    + intros x. rewrite Hr. cbn. destruct released; cbn; set_solver.
Qed.

Lemma commit_release_spec plans st :
  let st' := commit_release plans st in
  frame st st' ∧ disk st' = disk st ∧ released_at st' = released_at st ∧
  (∀ set, set_status st' !! set = if bool_decide (set ∈ plan_set <$> plans) then (λ _, SetCleaned) <$> (set_status st !! set)
                                  else set_status st !! set) ∧
  (∀ s, staging_path st' !! s = if bool_decide (s ∈ plans ≫= λ p, (age_files p).*1) then None else staging_path st !! s).
Proof.
  cbn. unfold commit_release. revert st. induction plans as [|p plans IH]; intros st; cbn; [by repeat split|].
  destruct (null_paths_spec false (age_files p).*1 st) as ((H1 & H2 & H3 & H4) & Hs & Hd & Hp & Hr).
  set (st1 := foldl _ st _) in *.
  destruct (IH (mark_cleaned (plan_set p) st1)) as ((I1 & I2 & I3 & I4) & Id & Ir & Is & Ip).
  split; [unfold frame; cbn in *; rewrite I1, I2, I3, I4; done|]. split; [by rewrite Id|].
  split; [rewrite Ir; cbn; apply set_eq; intros x; rewrite Hr; naive_solver|]. split.
  - intros x. rewrite Is. cbn. rewrite Hs. destruct (decide (x = plan_set p)) as [->|Hne].
    + rewrite lookup_alter_eq, (bool_decide_eq_true_2 (plan_set p ∈ _ :: _)) by apply list_elem_of_here.
      case_bool_decide; [|done]. by destruct (set_status st !! plan_set p).
    + rewrite lookup_alter_ne by done.
      replace (bool_decide (x ∈ plan_set p :: _)) with (bool_decide (x ∈ plan_set <$> plans)); [done|].
      apply bool_decide_ext. rewrite elem_of_cons. naive_solver.
  - intros s. rewrite Ip. cbn. rewrite Hp.
    replace (bool_decide (s ∈ _ ++ _)) with (bool_decide (s ∈ (age_files p).*1) || bool_decide (s ∈ plans ≫= λ p, (age_files p).*1)).
    + repeat case_bool_decide; done.
    + rewrite <- bool_decide_or. apply bool_decide_ext. rewrite elem_of_app. tauto.
Qed.

Section disk.
Variables (unlinks : File → bool).

Lemma remove_all_spec fs d r : let d' := (remove_all unlinks fs (d, r)).1 in
  (∀ f, f ∉ fs → d' !! f = d !! f) ∧ d' ⊆ d.
Proof.
  cbn. unfold remove_all. revert d r. induction fs as [|f fs IH]; intros d r; cbn; [done|].
  unfold remove_and_account at 2 4. cbn. destruct (d !! f) as [size|] eqn:Hf; [destruct (unlinks f)|].
  - destruct (IH (delete f d) (count_file size r)) as [Hn Hs]. split.
    + intros g [Hg Hgs]%not_elem_of_cons. rewrite Hn by done. by rewrite lookup_delete_ne.
    + etrans; [exact Hs|apply delete_subseteq].
  - destruct (IH d (count_stranded f r)) as [Hn Hs]. split; [|done]. intros g [_ Hg]%not_elem_of_cons. by apply Hn.
  - destruct (IH d r) as [Hn Hs]. split; [|done]. intros g [_ Hg]%not_elem_of_cons. by apply Hn.
Qed.

(** Removing files tells no slice and no set. *)
Lemma remove_all_report fs x : let r := (remove_all unlinks fs x).2 in
  sets_cleaned r = sets_cleaned x.2 ∧ slices_released r = slices_released x.2 ∧ slices_short r = slices_short x.2.
Proof.
  cbn. unfold remove_all. revert x. induction fs as [|f fs IH]; intros x; cbn; [done|].
  destruct (IH (remove_and_account unlinks f x)) as (-> & -> & ->). unfold remove_and_account.
  destruct (x.1 !! f); [destruct (unlinks f)|]; done.
Qed.
End disk.

(** ** The staging rows nobody else rewrites *)

Record same_staging (st st' : StagingArea) : Prop := {
  same_status : set_status st' = set_status st;
  same_num : num_slices st' = num_slices st;
  same_path : staging_path st' = staging_path st;
  same_released : released_at st' = released_at st;
  same_uuid : unit_uuid st' = unit_uuid st;
  same_disk : disk st' = disk st;
  same_slices : stage_slices (ledger_in st') = stage_slices (ledger_in st);
  same_snapshot : set_snapshot (shelves_of st') = set_snapshot (shelves_of st);
  same_version : version_of (shelves_of st') = version_of (shelves_of st);
  same_units : units (shelves_of st') = units (shelves_of st);
  same_bytes : encrypted_bytes (shelves_of st') = encrypted_bytes (shelves_of st);
}.

(** What a release keeps true: no two slices share a file, and a file named
    at the top of the staging directory carries its set's prefix. *)
Section sound.
Variables (staging_dir : string).
Record sound (st : StagingArea) : Prop := {
  files_distinct : ∀ s s' f, staging_path st !! s = Some f → staging_path st !! s' = Some f → s = s';
  files_named : ∀ s set n f, stage_slices (ledger_in st) !! s = Some (mkStageSlice set n) → staging_path st !! s = Some f →
    f.1 = staging_dir → ∃ p, set_prefix st set = Some p ∧ String.prefix p f.2 = true;
  uuids_plain : ∀ u uuid, unit_uuid st !! u = Some uuid → plain_uuid uuid;
}.

Lemma set_prefix_same st st' set : unit_uuid st' = unit_uuid st → set_snapshot (shelves_of st') = set_snapshot (shelves_of st) →
  version_of (shelves_of st') = version_of (shelves_of st) → set_prefix st' set = set_prefix st set.
Proof. intros Hu Hs Hv. unfold set_prefix, version_row. by rewrite Hu, Hs, Hv. Qed.

Lemma set_prefix_owns st set set' p p' name : sound st → set_prefix st set = Some p → set_prefix st set' = Some p' →
  String.prefix p name = true → String.prefix p' name = true → set = set'.
Proof.
  intros Hs. unfold set_prefix. intros ([u v] & _ & (uuid & Hu & [= <-])%bind_Some)%bind_Some
    ([u' v'] & _ & (uuid' & Hu' & [= <-])%bind_Some)%bind_Some.
  apply prefix_owns; by eapply uuids_plain.
Qed.

(** A file some slice names is no other set's orphan. *)
Lemma named_no_orphan st s set n f set' : sound st → stage_slices (ledger_in st) !! s = Some (mkStageSlice set n) →
  staging_path st !! s = Some f → set ≠ set' → f ∉ find_prefix_orphans staging_dir st set'.
Proof.
  intros Hs Hrow Hf Hne Hin. unfold find_prefix_orphans in Hin.
  destruct (set_prefix st set') as [p'|] eqn:Hp'; [|by apply not_elem_of_nil in Hin].
  apply list_elem_of_filter in Hin as ((Hd & [Hp'f _]%andb_true_iff) & _).
  destruct (files_named st Hs _ _ _ _ Hrow Hf Hd) as (p & Hp & Hpf). by eapply Hne, set_prefix_owns.
Qed.
End sound.

(** ** A release only shrinks, and leaves what it keeps alone *)

Definition slice_kept (st st' : StagingArea) (s : Z) : Prop :=
  s ∈ released_at st' ∨
  staging_path st' !! s = staging_path st !! s ∧ (s ∈ released_at st' ↔ s ∈ released_at st) ∧
  ∀ f, staging_path st !! s = Some f → disk st' !! f = disk st !! f.
Record shrinks (st st' : StagingArea) : Prop := {
  shrinks_num : num_slices st' = num_slices st;
  shrinks_uuid : unit_uuid st' = unit_uuid st;
  shrinks_slices : stage_slices (ledger_in st') = stage_slices (ledger_in st);
  shrinks_snapshot : set_snapshot (shelves_of st') = set_snapshot (shelves_of st);
  shrinks_version : version_of (shelves_of st') = version_of (shelves_of st);
  shrinks_units : units (shelves_of st') = units (shelves_of st);
  shrinks_bytes : encrypted_bytes (shelves_of st') = encrypted_bytes (shelves_of st);
  shrinks_path : ∀ s, staging_path st' !! s = staging_path st !! s ∨ staging_path st' !! s = None;
  shrinks_released : released_at st ⊆ released_at st';
  shrinks_disk : disk st' ⊆ disk st;
  shrinks_status : ∀ set, set_status st' !! set = set_status st !! set ∨ set_status st' !! set = Some SetCleaned;
  shrinks_kept : ∀ set s n, set_status st' !! set = Some SetStaged →
    stage_slices (ledger_in st) !! s = Some (mkStageSlice set n) → slice_kept st st' s;
}.

Lemma shrinks_same st st' : same_staging st st' → shrinks st st'.
Proof.
  intros [Hs Hn Hp Hr Hu Hd Hsl Hsn Hv Hun Hb]. split; try done.
  - intros s. left. by rewrite Hp.
  - by rewrite Hr.
  - by rewrite Hd.
  - intros set. left. by rewrite Hs.
  - intros set s n _ _. right. by rewrite Hp, Hr, Hd.
Qed.

Lemma shrinks_staged st st' set : shrinks st st' → set_status st' !! set = Some SetStaged → set_status st !! set = Some SetStaged.
Proof. intros H Hs. destruct (shrinks_status _ _ H set) as [Heq|Heq]; congruence. Qed.

#[export] Instance shrinks_preorder : PreOrder shrinks.
Proof.
  split; [intros st; by apply shrinks_same|]. intros a b c Hab Hbc.
  split; try (etrans; [by apply Hbc|by apply Hab]).
  - intros s. destruct (shrinks_path _ _ Hbc s) as [->|Hc]; [apply Hab|by right].
  - etrans; [apply Hab|apply Hbc].
  - intros set. destruct (shrinks_status _ _ Hbc set) as [->|Hc]; [apply Hab|by right].
  - intros set s n Hs Hrow. assert (set_status b !! set = Some SetStaged) as Hb by by eapply shrinks_staged.
    assert (stage_slices (ledger_in b) !! s = Some (mkStageSlice set n)) as Hrowb by by rewrite (shrinks_slices _ _ Hab).
    destruct (shrinks_kept _ _ Hbc _ _ _ Hs Hrowb) as [?|(Hp & Hr & Hd)]; [by left|].
    destruct (shrinks_kept _ _ Hab _ _ _ Hb Hrow) as [Hin|(Hp' & Hr' & Hd')].
    + left. by apply Hr.
    + right. split; [congruence|]. split; [by rewrite Hr|]. intros f Hf. rewrite Hd by by rewrite Hp'. by apply Hd'.
Qed.

Lemma shrinks_sound dir st st' : shrinks st st' → sound dir st → sound dir st'.
Proof.
  intros H [Hd Hn Hu].
  assert (∀ s f, staging_path st' !! s = Some f → staging_path st !! s = Some f) as Hp.
  { intros s f Hf. destruct (shrinks_path _ _ H s); congruence. }
  split.
  - intros s s' f Hf Hf'. by eapply Hd; apply Hp.
  - intros s set n f Hrow Hf Hdir. rewrite (shrinks_slices _ _ H) in Hrow. destruct (Hn _ _ _ _ Hrow (Hp _ _ Hf) Hdir) as (p & Hset & Hpre).
    exists p. split; [|done]. rewrite <- Hset. apply set_prefix_same; by apply H.
  - intros u uuid. rewrite (shrinks_uuid _ _ H). apply Hu.
Qed.

(** A set kept has no problem it did not have. *)
Lemma kept_problem st st' x : shrinks st st' → slice_kept st st' x.1 →
  slice_problem st' x = None ∨ slice_problem st' x = slice_problem st x.
Proof.
  intros H Hk. unfold slice_problem. destruct Hk as [Hin|(Hp & Hr & Hd)]; [left; by rewrite bool_decide_eq_true_2|].
  right. replace (bool_decide (x.1 ∈ released_at st')) with (bool_decide (x.1 ∈ released_at st)) by (apply bool_decide_ext; naive_solver).
  case_bool_decide; [done|]. rewrite Hp. destruct (staging_path st !! x.1) as [f|]; [|done].
  rewrite (Hd f) by done. by rewrite (shrinks_bytes _ _ H).
Qed.

Lemma kept_set_problems st st' set p : shrinks st st' → set_status st' !! set = Some SetStaged →
  p ∈ staged_slice_problems st' set → p ∈ staged_slice_problems st set.
Proof.
  intros H Hs. unfold staged_slice_problems. rewrite (shrinks_num _ _ H).
  assert (slices_of set (ledger_in st') = slices_of set (ledger_in st)) as Hsl by (unfold slices_of; by rewrite (shrinks_slices _ _ H)).
  rewrite Hsl. rewrite !elem_of_app. intros [?|(x & Hin & Hp)%list_elem_of_omap]; [by left|]. right.
  apply list_elem_of_omap. exists x. split; [done|]. destruct x as [s n].
  assert (stage_slices (ledger_in st) !! s = Some (mkStageSlice set n)) as Hrow.
  { apply elem_of_slices. by rewrite merge_sort_Permutation in Hin. }
  destruct (kept_problem st st' (s, n) H (shrinks_kept _ _ H _ _ _ Hs Hrow)) as [Hn|Heq]; congruence.
Qed.

(** ** The slices of a set a release takes *)

Definition meets (floor : Z) (s : SliceCopies) : Prop := Z.max floor 1 ≤ sc_copies s.
#[export] Instance meets_dec floor s : Decision (meets floor s).
Proof. unfold meets. apply _. Defined.
(** The slices a release takes from a set, in its transaction. *)
Definition going (floor : Z) (st : StagingArea) (set : Z) : list SliceCopies := filter (meets floor) (unreleased st set).
Definition short_slices (floor : Z) (st : StagingArea) (set : Z) : list Z :=
  sc_number <$> filter (λ s, sc_copies s < Z.max floor 1) (unreleased st set).
Definition all_gone (floor : Z) (st : StagingArea) (set : Z) : bool :=
  negb (bool_decide (slice_copies (shelves_of st) set = [])) && bool_decide (short_slices floor st set = []).
Definition going_files (floor : Z) (st : StagingArea) (set : Z) : list File :=
  omap (λ s, staging_path st !! sc_slice s) (going floor st set).
(** The catalog after its transaction. *)
Definition taken (floor : Z) (st : StagingArea) (set : Z) : StagingArea :=
  let st' := foldl (λ st s, null_path true s st) st (sc_slice <$> going floor st set) in
  if all_gone floor st set then mark_cleaned set st' else st'.

Lemma short_nil floor st set :
  short_slices floor st set = [] ↔ ∀ s, s ∈ unreleased st set → meets floor s.
Proof.
  unfold meets, short_slices. split.
  - intros Hn s Hs. destruct (decide (Z.max floor 1 ≤ sc_copies s)) as [|Hc]; [done|]. exfalso.
    assert (s ∈ filter (λ s, sc_copies s < Z.max floor 1) (unreleased st set)) as Hin by (apply list_elem_of_filter; split; [lia|done]).
    apply fmap_nil_inv in Hn. rewrite Hn in Hin. by apply not_elem_of_nil in Hin.
  - intros Hall. rewrite filter_none; [done|]. intros s Hs Hc. specialize (Hall s Hs). lia.
Qed.

Lemma taken_spec floor st set :
  let st' := taken floor st set in
  frame st st' ∧ disk st' = disk st ∧
  (∀ s, staging_path st' !! s = if bool_decide (s ∈ sc_slice <$> going floor st set) then None else staging_path st !! s) ∧
  (∀ s, s ∈ released_at st' ↔ s ∈ released_at st ∨ s ∈ sc_slice <$> going floor st set) ∧
  ∀ x, set_status st' !! x = if all_gone floor st set && bool_decide (x = set) then (λ _, SetCleaned) <$> (set_status st !! x)
                             else set_status st !! x.
Proof.
  cbn. destruct (null_paths_spec true (sc_slice <$> going floor st set) st) as (Hf & Hs & Hd & Hp & Hr). unfold taken.
  set (stn := foldl _ st _) in *. clearbody stn.
  assert (∀ s, s ∈ released_at stn ↔ s ∈ released_at st ∨ s ∈ sc_slice <$> going floor st set) as Hr' by (intros s; rewrite Hr; naive_solver).
  destruct (all_gone floor st set); cbn.
  - split; [exact Hf|]. split; [done|]. split; [exact Hp|]. split; [exact Hr'|]. intros x. rewrite Hs. case_bool_decide as Hx.
    + rewrite Hx. apply lookup_alter_eq.
    + by apply lookup_alter_ne.
  - rewrite Hs. done.
Qed.

Lemma going_elem floor st set s : s ∈ sc_slice <$> going floor st set →
  s ∉ released_at st ∧ ∃ n, stage_slices (ledger_in st) !! s = Some (mkStageSlice set n).
Proof.
  intros (x & -> & [_ [Hr Hx]%list_elem_of_filter]%list_elem_of_filter)%list_elem_of_fmap. split; [done|].
  unfold slice_copies in Hx. destruct (set_snapshot (shelves_of st) !! set) as [snap|]; [|by apply not_elem_of_nil in Hx].
  apply list_elem_of_fmap in Hx as ([y n] & -> & Hin). cbn. exists n. apply elem_of_slices. by rewrite merge_sort_Permutation in Hin.
Qed.

Lemma going_files_elem floor st set f : f ∈ going_files floor st set →
  ∃ s n, s ∈ sc_slice <$> going floor st set ∧ stage_slices (ledger_in st) !! s = Some (mkStageSlice set n) ∧ staging_path st !! s = Some f.
Proof.
  intros (x & Hx & Hf)%list_elem_of_omap. assert (sc_slice x ∈ sc_slice <$> going floor st set) as Hin by by apply list_elem_of_fmap_2.
  destruct (going_elem _ _ _ _ Hin) as [_ [n Hn]]. by exists (sc_slice x), n.
Qed.

(** ** The sets a release takes *)

Section live.
Variables (session_live : Z → bool).

(** Nothing holds the set: no live session writes it, no rewrite needs it. *)
Definition unheld (st : StagingArea) (set : Z) : Prop := live_writers session_live st set = [] ∧ holds st !! set = None.

Lemma drop_held_elem st l set : set ∈ (drop_held session_live st l).1 ↔ set ∈ l ∧ unheld st set.
Proof. unfold drop_held, unheld. cbn. rewrite !list_elem_of_filter. naive_solver. Qed.

Definition released_sets (force : bool) (scope : CleanScope) (st : StagingArea) : list Z :=
  (drop_held session_live st (clean_candidates force scope st)).1.

(** The sets a whole release takes. *)
Definition may_clean (force : bool) (scope : CleanScope) (st : StagingArea) (set : Z) : Prop :=
  scope_joined (shelves_of st) scope set = true ∧
  (set_status st !! set = Some SetFailed ∨
   set_status st !! set = Some SetStaged ∧ (force = true ∨ release_candidate_predicate (ledger_in st) set = true) ∧
   in_scope (shelves_of st) scope set = true).

Lemma released_sets_elem force scope st set : set ∈ released_sets force scope st ↔ may_clean force scope st set ∧ unheld st set.
Proof.
  unfold released_sets. rewrite drop_held_elem. unfold clean_candidates, may_clean. rewrite list_elem_of_fmap. split.
  - intros [([k s] & -> & [Hc Hin]%list_elem_of_filter) Hu]. cbn in *. apply elem_of_map_to_list in Hin.
    apply andb_true_iff in Hc as [Hj Hc]. apply orb_true_iff in Hc as [->%bool_decide_eq_true|Hc].
    + split; [|done]. split; [done|by left].
    + apply andb_true_iff in Hc as [Hc Hsc]. apply andb_true_iff in Hc as [->%bool_decide_eq_true Hc].
      apply orb_true_iff in Hc. split; [|done]. split; [done|]. right. done.
  - intros [(Hj & Hc) Hu]. split; [|done].
    assert (∃ s, set_status st !! set = Some s ∧ bool_decide (s = SetFailed) || bool_decide (s = SetStaged) &&
      (force || release_candidate_predicate (ledger_in st) set) && in_scope (shelves_of st) scope set = true) as (s & Hs & Hc').
    { destruct Hc as [Hs|(Hs & Hf & Hsc)]; eexists; (split; [exact Hs|]); cbn; [done|]. apply orb_true_iff in Hf. by rewrite Hf, Hsc. }
    exists (set, s). split; [done|]. apply list_elem_of_filter. cbn. rewrite Hj, Hc'. split; [done|]. by apply elem_of_map_to_list.
Qed.

Definition may_release (st : StagingArea) (set : Z) : Prop :=
  set_status st !! set = Some SetStaged ∧ slice_release_candidate_predicate (ledger_in st) set = true ∧ unheld st set.

Lemma may_release_false st set :
  bool_decide (set_status st !! set = Some SetStaged) && slice_release_candidate_predicate (ledger_in st) set = true ∧
    (drop_held session_live st [set]).1 ≠ [] ↔ may_release st set.
Proof.
  unfold may_release. rewrite andb_true_iff, bool_decide_eq_true.
  assert ((drop_held session_live st [set]).1 ≠ [] ↔ unheld st set) as Hd.
  { split.
    - intros Hn. destruct (drop_held session_live st [set]).1 as [|x l] eqn:Hl; [done|].
      assert (x ∈ (drop_held session_live st [set]).1) as Hx by (rewrite Hl; apply list_elem_of_here).
      apply drop_held_elem in Hx as [->%list_elem_of_singleton Hu]. done.
    - intros Hu Hn. assert (set ∈ (drop_held session_live st [set]).1) as Hx by (apply drop_held_elem; split; [apply list_elem_of_here|done]).
      rewrite Hn in Hx. by apply not_elem_of_nil in Hx. }
  rewrite Hd. naive_solver.
Qed.

End live.

(** ** The releases *)

Section release.
Context {E : Type}.
Variables (session_live : Z → bool) (commits : list Z → bool) (unlinks : File → bool)
  (meanwhile : StagingArea → StagingArea) (staging_dir : string).
Notation ReleaseError := (@ReleaseError E).
Notation clean_staging := (@clean_staging E session_live commits unlinks meanwhile staging_dir).
Notation release_covered_slices := (@release_covered_slices E session_live commits unlinks meanwhile staging_dir).
Notation find_prefix_orphans := (find_prefix_orphans staging_dir).
Notation plan_release := (plan_release staging_dir).
Notation unheld := (unheld session_live).
Notation released_sets := (released_sets session_live).
Notation may_release := (may_release session_live).

Lemma clean_staging_inv force scope st r st' : clean_staging force scope st = (r, st') →
  let plans := plan_release st <$> released_sets force scope st in
  (∃ rep, r = Ok rep ∧ released_sets force scope st = [] ∧ st' = st) ∨
  released_sets force scope st ≠ [] ∧
    (r = Err CatalogBusy ∧ commits (released_sets force scope st) = false ∧ st' = meanwhile st ∨
     commits (released_sets force scope st) = true ∧
     ∃ rep r0, r = Ok rep ∧ sets_cleaned r0 = Z.of_nat (length plans) ∧
      remove_all unlinks (released_files plans) (disk (commit_release plans (meanwhile st)), r0) = (disk st', rep) ∧
      st' = with_disk (disk st') (commit_release plans (meanwhile st))).
Proof.
  unfold Staging.clean_staging, released_sets. destruct (drop_held session_live st (clean_candidates force scope st)) as [free report] eqn:Hd.
  assert (sets_cleaned report = 0) as Hz by (unfold drop_held in Hd; injection Hd as _ <-; done).
  cbn. case_bool_decide as Hn; [intros [= <- <-]; left; by exists report|].
  destruct (commits free); cbn; [|intros [= <- <-]; right; split; [done|by left]].
  destruct (remove_all _ _ _) as [d rep] eqn:Hr. intros [= <- <-]. right. split; [done|]. right. split; [done|].
  eexists rep, _. split; [done|]. split; [|split; [exact Hr|done]]. cbn. by rewrite Hz.
Qed.

(** The slices of a set a plan of release nulls. *)
Lemma plan_age st set s : s ∈ (age_files (plan_release st set)).*1 ↔
  (∃ n, stage_slices (ledger_in st) !! s = Some (mkStageSlice set n)) ∧ is_Some (staging_path st !! s).
Proof.
  cbn. rewrite list_elem_of_fmap. split.
  - intros ([s' f] & Heq & ([x n] & Hin & Hf)%list_elem_of_omap). cbn in *. subst s'.
    destruct (staging_path st !! x) as [f'|] eqn:Hp; [|done]. injection Hf as -> ->. rewrite Hp. split; [|done]. exists n. by apply elem_of_slices.
  - intros [[n Hin] [f Hf]]. exists (s, f). split; [done|]. apply list_elem_of_omap. exists (s, n). cbn. rewrite Hf.
    split; [by apply elem_of_slices|done].
Qed.

Lemma plans_age st sets s : s ∈ ((plan_release st <$> sets) ≫= λ p, (age_files p).*1) ↔
  ∃ set n, set ∈ sets ∧ stage_slices (ledger_in st) !! s = Some (mkStageSlice set n) ∧ is_Some (staging_path st !! s).
Proof.
  rewrite list_elem_of_bind. split.
  - intros (p & Hs & (set & -> & Hin)%list_elem_of_fmap). apply plan_age in Hs as [[n Hn] Hf]. eauto.
  - intros (set & n & Hin & Hn & Hf). exists (plan_release st set). split; [apply plan_age; eauto|]. by apply list_elem_of_fmap_2.
Qed.

(** A file the release removes is one of a released set's, or its orphan. *)
Lemma released_files_elem st sets f : f ∈ released_files (plan_release st <$> sets) →
  ∃ set, set ∈ sets ∧ ((∃ s n, stage_slices (ledger_in st) !! s = Some (mkStageSlice set n) ∧ staging_path st !! s = Some f) ∨
                        f ∈ find_prefix_orphans st set).
Proof.
  unfold released_files. intros (p & Hf & (set & -> & Hin)%list_elem_of_fmap)%list_elem_of_bind. exists set. split; [done|].
  apply elem_of_app in Hf as [([s f'] & -> & ([s' n] & Hs & Hx)%list_elem_of_omap)%list_elem_of_fmap|[_ Hf]%list_elem_of_filter]; [|by right].
  cbn in *. destruct (staging_path st !! s') as [f''|] eqn:Hp; [|done]. injection Hx as <- <-. left. exists s', n. split; [|done]. by apply elem_of_slices.
Qed.

Hypothesis Hquiet : ∀ st, same_staging st (meanwhile st).

Lemma orphans_same st st' set : same_staging st st' → find_prefix_orphans st' set = find_prefix_orphans st set.
Proof. intros H. unfold Staging.find_prefix_orphans. rewrite (same_disk _ _ H), (set_prefix_same st st'); by try apply H. Qed.

Lemma clean_staging_shrinks force scope st r st' : sound staging_dir st → clean_staging force scope st = (r, st') → shrinks st st'.
Proof.
  intros Hsound Hrun. apply clean_staging_inv in Hrun as [(rep & _ & _ & ->)|(Hne & [(_ & _ & ->)|(_ & rep & r0 & _ & _ & Hrem & Hst)])];
    [done|by apply shrinks_same|].
  set (sets := released_sets force scope st) in *. set (plans := plan_release st <$> sets) in *. pose proof (Hquiet st) as Hq.
  destruct (commit_release_spec plans (meanwhile st)) as ((F1 & F2 & F3 & F4) & Fd & Fr & Fs & Fp).
  set (stc := commit_release plans (meanwhile st)) in *. clearbody stc.
  pose proof (remove_all_spec unlinks (released_files plans) (disk stc) r0) as [Hdn Hds]. rewrite Hrem in Hdn, Hds. cbn in Hdn, Hds.
  assert (plan_set <$> plans = sets) as Hps.
  { unfold plans. rewrite <- list_fmap_compose. change (plan_set ∘ plan_release st) with (λ x : Z, x). apply list_fmap_id. }
  rewrite Hps in Fs. rewrite Hst. unfold ledger_in. split; cbn; try (rewrite ?F1, ?F2, ?F4; by apply Hq).
  - rewrite <- (same_slices _ _ Hq). unfold ledger_in. cbn. by rewrite F1.
  - intros s. rewrite Fp. case_bool_decide; [by right|]. left. by rewrite (same_path _ _ Hq).
  - by rewrite Fr, (same_released _ _ Hq).
  - by rewrite Hds, Fd, (same_disk _ _ Hq).
  - intros set. rewrite Fs, (same_status _ _ Hq). case_bool_decide; [|by left].
    destruct (set_status st !! set); [by right|by left].
  - intros set s n. rewrite Fs, (same_status _ _ Hq). case_bool_decide as Hin; [by destruct (set_status st !! set)|]. intros Hs Hrow.
    right. cbn. rewrite Fp, Fr, (same_path _ _ Hq), (same_released _ _ Hq). split; [|split; [done|]].
    + rewrite bool_decide_eq_false_2; [done|]. intros (set' & n' & Hin' & Hrow' & _)%plans_age. unfold ledger_in in *. by simplify_eq.
    + intros f Hf. rewrite Hdn, Fd, (same_disk _ _ Hq); [done|].
      intros (set' & Hin' & [(s' & n' & Hrow' & Hf')|Horph])%released_files_elem.
      * assert (s = s') as <- by by eapply files_distinct. unfold ledger_in in *. by simplify_eq.
      * eapply named_no_orphan in Horph; [done|exact Hsound|exact Hrow|exact Hf|]. by intros <-.
Qed.

Lemma release_covered_slices_inv set floor st r st' : release_covered_slices set floor st = (r, st') →
  (¬ may_release st set ∧ st' = st ∧ ∃ rep, r = Ok rep ∧ slices_released rep = [] ∧ slices_short rep = [] ∧ sets_cleaned rep = 0) ∨
  may_release st set ∧
    (r = Err CatalogBusy ∧ commits [set] = false ∧ st' = meanwhile st ∨
     commits [set] = true ∧
     ∃ rep, r = Ok rep ∧ st' = with_disk (disk st') (taken floor (meanwhile st) set) ∧ disk st' ⊆ disk (meanwhile st) ∧
       (∀ f, f ∉ going_files floor (meanwhile st) set →
          (all_gone floor (meanwhile st) set = true → f ∉ find_prefix_orphans (meanwhile st) set) →
          disk st' !! f = disk (meanwhile st) !! f) ∧
       slices_released rep = (if bool_decide (going floor (meanwhile st) set = []) then []
                              else [(set, sc_number <$> going floor (meanwhile st) set)]) ∧
       slices_short rep = (if bool_decide (short_slices floor (meanwhile st) set = []) then []
                           else [(set, short_slices floor (meanwhile st) set)]) ∧
       sets_cleaned rep = (if all_gone floor (meanwhile st) set then 1 else 0)).
Proof.
  unfold Staging.release_covered_slices. pose proof (may_release_false session_live st set) as Hm.
  destruct (bool_decide _ && _); cbn [negb]; [|intros [= <- <-]; left; split; [rewrite <- Hm; naive_solver|]; eauto 10].
  destruct (drop_held session_live st [set]) as [free report] eqn:Hd. cbn in Hm.
  assert (slices_released report = [] ∧ slices_short report = [] ∧ sets_cleaned report = 0) as Hz by (unfold drop_held in Hd; injection Hd as _ <-; done).
  case_bool_decide as Hn; [intros [= <- <-]; left; split; [rewrite <- Hm; naive_solver|]; naive_solver|].
  assert (may_release st set) as Hmay by by apply Hm. clear Hm Hd Hn.
  destruct (commits [set]); cbn [negb]; [|intros [= <- <-]; right; split; [done|by left]].
  destruct Hz as (Hz1 & Hz2 & Hz3). set (stm := meanwhile st).
  change (filter (λ s, Z.max floor 1 ≤ sc_copies s) (unreleased stm set)) with (going floor stm set).
  change (sc_number <$> filter (λ s, sc_copies s < Z.max floor 1) (unreleased stm set)) with (short_slices floor stm set).
  change (negb (bool_decide (slice_copies (shelves_of stm) set = [])) && bool_decide (short_slices floor stm set = [])) with (all_gone floor stm set).
  change (omap (λ s, staging_path stm !! sc_slice s) (going floor stm set)) with (going_files floor stm set).
  change (if all_gone floor stm set then mark_cleaned set (foldl (λ st s, null_path true s st) stm (sc_slice <$> going floor stm set))
          else foldl (λ st s, null_path true s st) stm (sc_slice <$> going floor stm set)) with (taken floor stm set).
  destruct (taken_spec floor stm set) as ((F1 & _ & _ & F4) & Fd & _). set (stc := taken floor stm set) in *. clearbody stc.
  set (report0 := if all_gone floor stm set then _ else _).
  assert (slices_released report0 = (if bool_decide (going floor stm set = []) then [] else [(set, sc_number <$> going floor stm set)]) ∧
    slices_short report0 = (if bool_decide (short_slices floor stm set = []) then [] else [(set, short_slices floor stm set)]) ∧
    sets_cleaned report0 = (if all_gone floor stm set then 1 else 0)) as Hrep.
  { unfold report0. destruct (all_gone floor stm set); cbn; by rewrite Hz1, Hz2, Hz3. }
  clearbody report0. destruct (remove_all unlinks (going_files floor stm set) (disk stc, report0)) as [d1 r1] eqn:H1.
  destruct (remove_all unlinks _ (disk (with_disk d1 stc), r1)) as [d2 r2] eqn:H2. intros [= <- <-]. right. split; [done|]. right. split; [done|].
  pose proof (remove_all_spec unlinks (going_files floor stm set) (disk stc) report0) as [Hn1 Hs1]. rewrite H1 in Hn1, Hs1.
  pose proof (remove_all_report unlinks (going_files floor stm set) (disk stc, report0)) as Hr1. rewrite H1 in Hr1.
  match type of H2 with remove_all _ ?l _ = _ => pose proof (remove_all_spec unlinks l d1 r1) as [Hn2 Hs2];
    pose proof (remove_all_report unlinks l (d1, r1)) as Hr2 end.
  cbn [disk with_disk] in H2. rewrite H2 in Hn2, Hs2, Hr2. cbn in Hn1, Hs1, Hr1, Hn2, Hs2, Hr2. rewrite Fd in *.
  exists r2. split; [done|]. split; [done|]. split; [cbn; by etrans|]. split.
  - intros f Hf Ho. cbn. rewrite Hn2; [by apply Hn1|]. destruct (all_gone floor stm set); [|apply not_elem_of_nil].
    intros [_ Hin]%list_elem_of_filter. apply Ho; [done|]. unfold Staging.find_prefix_orphans in *.
    rewrite (set_prefix_same stm (with_disk d1 stc)) in Hin by (cbn; by rewrite ?F1, ?F4).
    destruct (set_prefix stm set); [|done]. apply list_elem_of_filter in Hin as [Hp Hin]. apply list_elem_of_filter. split; [done|].
    apply list_elem_of_fmap in Hin as ([g z] & Hg & Hin%elem_of_map_to_list). cbn in Hg, Hin. subst g.
    apply list_elem_of_fmap. exists (f, z). split; [done|]. apply elem_of_map_to_list. by eapply lookup_weaken.
  - destruct Hr2 as (-> & -> & ->), Hr1 as (-> & -> & ->). tauto.
Qed.

Lemma sound_same st st' : same_staging st st' → sound staging_dir st → sound staging_dir st'.
Proof. intros H. by apply shrinks_sound, shrinks_same. Qed.

Lemma release_covered_slices_shrinks set floor st r st' : sound staging_dir st → release_covered_slices set floor st = (r, st') → shrinks st st'.
Proof.
  intros Hsound Hrun.
  apply release_covered_slices_inv in Hrun as [(_ & -> & _)|(_ & [(_ & _ & ->)|(_ & rep & _ & Hst & Hds & Hdn & _)])]; [done|by apply shrinks_same|].
  etrans; [apply shrinks_same, (Hquiet st)|]. assert (sound staging_dir (meanwhile st)) as Hsm by by eapply sound_same.
  set (stm := meanwhile st) in *. clearbody stm. clear Hsound st.
  destruct (taken_spec floor stm set) as ((F1 & F2 & F3 & F4) & Fd & Fp & Fr & Fs). set (stc := taken floor stm set) in *. clearbody stc.
  rewrite Hst. split; cbn; try (rewrite ?F1, ?F2, ?F4; done).
  - unfold ledger_in. cbn. by rewrite F1.
  - intros s. rewrite Fp. case_bool_decide; [by right|by left].
  - intros s Hs. apply Fr. by left.
  - intros x. rewrite Fs. destruct (all_gone floor stm set && bool_decide (x = set)); [|by left].
    destruct (set_status stm !! x); [by right|by left].
  - intros x s n Hstaged Hrow. unfold slice_kept. cbn. rewrite Fp, Fr. destruct (decide (s ∈ sc_slice <$> going floor stm set)) as [Hin|Hni].
    + left. by right.
    + right. rewrite bool_decide_eq_false_2 by done. split; [done|]. split; [tauto|]. intros f Hf. apply Hdn.
      * intros (s' & n' & Hin' & _ & Hf')%going_files_elem. apply Hni. by rewrite (files_distinct _ _ Hsm s s' f).
      * intros Hall. rewrite Fs, Hall in Hstaged. cbn in Hstaged. case_bool_decide as Hx.
        { by destruct (set_status stm !! x). }
        intros Ho. eapply named_no_orphan in Ho; done.
Qed.

(** ** A release as the steps it makes *)

Inductive release_step : StagingArea → StagingArea → Prop :=
| step_whole force scope st r st' : clean_staging force scope st = (r, st') → release_step st st'
| step_slices set floor st r st' : release_covered_slices set floor st = (r, st') → release_step st st'.

Lemma steps_shrink st st' : sound staging_dir st → rtc release_step st st' → shrinks st st' ∧ sound staging_dir st'.
Proof.
  intros Hs Hsteps. induction Hsteps as [st|st st1 st2 Hstep _ IH]; [done|].
  assert (shrinks st st1) as H1 by (destruct Hstep; [by eapply clean_staging_shrinks|by eapply release_covered_slices_shrinks]).
  destruct IH as [H2 Hs2]; [by eapply shrinks_sound|]. split; [by etrans|done].
Qed.

Section gate.
Variables (config : Config) (resolve : Z → result E ResolvedPolicy).
Notation release_each := (release_each session_live commits unlinks meanwhile staging_dir config resolve).
Notation release_ranges := (release_ranges session_live commits unlinks meanwhile staging_dir config resolve).
Notation release_if_covered_holding := (release_if_covered_holding session_live commits unlinks meanwhile staging_dir config resolve).
Notation stage_clean := (stage_clean session_live commits unlinks meanwhile staging_dir config resolve).

Lemma release_each_steps sets rep st r st' : release_each sets rep st = (r, st') → rtc release_step st st'.
Proof.
  revert rep st. induction sets as [|[set u] sets IH]; intros rep st; cbn; [by intros [= _ <-]|].
  destruct (unit_copy_floor _ _ _ _) as [floor|]; [|by intros [= _ <-]].
  destruct (release_covered_slices set floor st) as [[r1|e] st1] eqn:H1.
  - intros Hr. eapply rtc_l; [by eapply step_slices|by eapply IH].
  - intros [= _ <-]. by eapply rtc_once, step_slices.
Qed.

Lemma release_ranges_steps scope st r st' : release_ranges scope st = (r, st') → rtc release_step st st'.
Proof. apply release_each_steps. Qed.

Lemma release_if_covered_steps unit_ids hold st r st' : release_if_covered_holding unit_ids hold st = (r, st') → rtc release_step st st'.
Proof.
  unfold StagingGate.release_if_covered_holding. destruct (judge_units _ _ _ _ _ _) as [[under located]|e]; [|by intros [= _ <-]]. cbv beta zeta iota.
  destruct (_ && _).
  - destruct (release_ranges _ st) as [r2 st2] eqn:H2. intros Hr. assert (st' = st2) as -> by (destruct r2; congruence).
    by eapply release_ranges_steps.
  - destruct (clean_staging _ _ st) as [r1 st1] eqn:H1. destruct r1 as [rep|e].
    + destruct (release_ranges _ st1) as [r2 st2] eqn:H2. intros Hr. assert (st' = st2) as -> by (destruct r2; congruence).
      eapply rtc_l; [by eapply step_whole|by eapply release_ranges_steps].
    + intros [= _ <-]. by eapply rtc_once, step_whole.
Qed.

Lemma stage_clean_steps force names version st r st' : stage_clean force names version st = (r, st') → rtc release_step st st'.
Proof.
  unfold StagingGate.stage_clean. destruct (named_units st names) as [ids|]; [|by intros [= _ <-]]. cbv beta zeta iota.
  destruct (_ && _); [by intros [= _ <-]|]. destruct force.
  - destruct (clean_staging _ _ st) as [[|] st1] eqn:H1; intros [= _ <-]; by eapply rtc_once, step_whole.
  - destruct (under_copied_release_candidates _ _ _ _) as [under|]; [|by intros [= _ <-]].
    destruct (clean_staging _ _ st) as [[rep|] st1] eqn:H1; [|intros [= _ <-]; by eapply rtc_once, step_whole].
    destruct (release_ranges _ st1) as [r2 st2] eqn:H2. intros Hr. assert (st' = st2) as -> by (destruct r2; congruence).
    eapply rtc_l; [by eapply step_whole|by eapply release_ranges_steps].
Qed.

(** C11: a release, whatever fails or dies in it, keeps what it keeps whole.
    After a write's release or a [stage clean], forced or not, whichever
    transactions fail and whichever files stay behind (those a crash did not
    reach among them), whatever else changes in the catalog's copies, each
    stage set still staged has no problem on disk it did not have before, no
    two slices name one file, and every file of the staging directory a slice
    names carries its own set's prefix. *)
Theorem release_keeps_sets_whole st r : sound staging_dir st →
  ((∃ unit_ids hold x, release_if_covered_holding unit_ids hold st = (x, r)) ∨
   (∃ force names version x, stage_clean force names version st = (x, r))) →
  sound staging_dir r ∧
  ∀ set, set_status r !! set = Some SetStaged →
    set_status st !! set = Some SetStaged ∧
    ∀ p, p ∈ staged_slice_problems r set → p ∈ staged_slice_problems st set.
Proof.
  intros Hs Hrun. assert (rtc release_step st r) as Hsteps.
  { destruct Hrun as [(ids & hold & x & Hx)|(force & names & version & x & Hx)];
      [by eapply release_if_covered_steps|by eapply stage_clean_steps]. }
  destruct (steps_shrink _ _ Hs Hsteps) as [Hsh Hsr]. split; [done|]. intros set Hset. split; [by eapply shrinks_staged|].
  intros p. by apply kept_set_problems.
Qed.
End gate.
End release.
