(* ===== verification/StagingCover.v ===== *)
(** * A release and the copies it rests on

    A write's release gives up a staged slice only when the copies on tape
    meet the policy: the whole unit's for a set written whole, the slice's own
    for a set that spans cartridges; and it takes what may go. *)

From S2P Require Import Prelude LayoutModel Session Ledger LedgerSound Coverage CoverageSound Release Staging StagingGate StagingSound.
Local Open Scope Z_scope.
Local Open Scope rust_scope.

Lemma predicate_parts c set : release_candidate_predicate c set = true →
  has_write c set WCompleted = true ∧ writes_finished c set = true ∧ holds_a_range c set = false.
Proof. unfold release_candidate_predicate. rewrite !andb_true_iff, negb_true_iff. tauto. Qed.

Section cover.
Context {E : Type}.
Variables (session_live : Z → bool) (commits : list Z → bool) (unlinks : File → bool)
  (meanwhile : StagingArea → StagingArea) (staging_dir : string).
Variables (config : Config) (resolve : Z → result E ResolvedPolicy).
Notation clean_staging := (@clean_staging E session_live commits unlinks meanwhile staging_dir).
Notation release_covered_slices := (@release_covered_slices E session_live commits unlinks meanwhile staging_dir).
Notation release_each := (release_each session_live commits unlinks meanwhile staging_dir config resolve).
Notation release_ranges := (release_ranges session_live commits unlinks meanwhile staging_dir config resolve).
Notation release_if_covered_holding := (release_if_covered_holding session_live commits unlinks meanwhile staging_dir config resolve).
Notation release_step := (@release_step E session_live commits unlinks meanwhile staging_dir).
Notation unheld := (unheld session_live).
Notation may_clean := (@StagingSound.may_clean).
Notation may_release := (may_release session_live).
Notation released_sets := (released_sets session_live).
Notation unit_and_policy := (unit_and_policy resolve).
Notation unit_copy_floor := (unit_copy_floor config resolve).
Notation judge_units := (judge_units config resolve).

Definition meets_floor (st : StagingArea) (u : Z) : Prop := ∃ floor, unit_copy_floor st u = Ok floor ∧ floor ≤ copies_of st u.
Definition short_at (st : StagingArea) (u : Z) (x : (Z * UnitRow) * ResolvedPolicy) : list LocationShort :=
  short_of_copies_at config (shelves_of st) (NamedUnit u) x.2 (unit_state x.1.2) None.
Definition short_nowhere (st : StagingArea) (u : Z) : Prop := ∃ x, unit_and_policy st u = Ok x ∧ short_at st u x = [].

(** ** What the gate decides *)

Lemma judge_units_kept st hold gate unit_ids under located u : judge_units st hold gate unit_ids = Ok (under, located) → u ∈ unit_ids →
  (u ∈ gate → u ∉ under.*1 → meets_floor st u) ∧
  (hold = EveryLocation → (u ∉ located → short_nowhere st u) ∧ (u ∈ gate → u ∉ under.*1 → short_nowhere st u)).
Proof.
  revert under located. induction unit_ids as [|u' unit_ids IH]; intros under located; [by intros _ ?%not_elem_of_nil|].
  cbn [StagingGate.judge_units]. intros Hj Hin. apply bind_ok in Hj as ([kept here] & Hh & Hj).
  apply bind_ok in Hj as ([under' located'] & Hr & [= <- <-]). cbn. rewrite fmap_app, !not_elem_of_app.
  assert (u ∈ unit_ids → _) as IH' by apply (IH _ _ Hr). destruct (decide (u = u')) as [->|Hne]; [|apply elem_of_cons in Hin as [?|Hin]; [done|]; naive_solver].
  clear IH IH' Hr. destruct (bool_decide (u' ∈ gate)) eqn:Hg, hold; cbn in Hh.
  - apply bind_ok in Hh as ([row policy] & Hx & [= <- <-]). split; [|done]. intros _ [Hn _]. exists (copy_floor config (copy_floor_base policy) (unit_state row.2)).
    split; [unfold StagingGate.unit_copy_floor; by rewrite Hx|]. cbn in Hn. case_bool_decide as Hc; [|by apply Z.nlt_ge in Hc].
    cbn in Hn. by destruct Hn; apply list_elem_of_here.
  - apply bind_ok in Hh as ([row policy] & Hx & [= <- <-]). cbn.
    assert (short_at st u' (row, policy) = [] → short_nowhere st u') as Hshort by (intros Hs; by exists (row, policy)).
    unfold short_at in Hshort. cbn in Hshort.
    destruct (short_of_copies_at _ _ _ _ _ _) as [|l ls] eqn:Hs; cbn.
    + split; [|by intros _; split; intros; apply Hshort]. intros _ [Hn _]. exists (copy_floor config (copy_floor_base policy) (unit_state row.2)).
      split; [unfold StagingGate.unit_copy_floor; by rewrite Hx|]. case_bool_decide as Hc; [|by apply Z.nlt_ge in Hc].
      cbn in Hn. by destruct Hn; apply list_elem_of_here.
    + rewrite orb_true_r. cbn. split; [intros _ [Hn _]; by destruct Hn; apply list_elem_of_here|].
      intros _. split; [intros [Hn _]|intros _ [Hn _]]; by destruct Hn; apply list_elem_of_here.
  - split; [|done]. intros Hin'. by rewrite bool_decide_eq_true_2 in Hg.
  - apply bind_ok in Hh as ([row policy] & Hx & [= <- <-]). cbn. split; [intros Hin'; by rewrite bool_decide_eq_true_2 in Hg|].
    intros _. split; [|intros Hin'; by rewrite bool_decide_eq_true_2 in Hg]. intros [Hn _]. exists (row, policy). split; [done|].
    unfold short_at. cbn. destruct (short_of_copies_at _ _ _ _ _ _) as [|l ls]; [done|]. by destruct Hn; apply list_elem_of_here.
Qed.

Lemma ranges_elem st scope set u : (set, u) ∈ staged_sets_holding_a_range st scope ↔
  set_status st !! set = Some SetStaged ∧ holds_a_range (ledger_in st) set = true ∧ in_scope (shelves_of st) scope set = true ∧
  ∃ v, version_row (shelves_of st) set = Some (u, v).
Proof.
  unfold staged_sets_holding_a_range. rewrite merge_sort_Permutation, list_elem_of_omap. split.
  - intros ([k s] & Hin%elem_of_map_to_list & Hx). cbn in Hx. destruct (bool_decide _ && _ && _) eqn:Hc; [|done].
    apply andb_true_iff in Hc as [Hc Hsc]. apply andb_true_iff in Hc as [->%bool_decide_eq_true Hr].
    destruct (version_row (shelves_of st) k) as [[u' v]|] eqn:Hv; [|done]. injection Hx as <- <-. cbn. eauto.
  - intros (Hs & Hr & Hsc & v & Hv). exists (set, SetStaged). split; [by apply elem_of_map_to_list|]. cbn. by rewrite Hr, Hsc, Hv.
Qed.

Hypothesis Hquiet : ∀ st, same_staging st (meanwhile st).

(** Whose slice is whose does not move. *)
Lemma step_static st st' : release_step st st' → stage_slices (ledger_in st') = stage_slices (ledger_in st) ∧
  set_snapshot (shelves_of st') = set_snapshot (shelves_of st) ∧ version_of (shelves_of st') = version_of (shelves_of st).
Proof.
  assert (∀ st x d, frame (meanwhile st) x → let y := with_disk d x in stage_slices (ledger_in y) = stage_slices (ledger_in st) ∧
    set_snapshot (shelves_of y) = set_snapshot (shelves_of st) ∧ version_of (shelves_of y) = version_of (shelves_of st)) as Hf.
  { intros st0 x d (F1 & _). unfold ledger_in. cbn. rewrite F1. repeat split; apply (Hquiet st0). }
  assert (∀ st, stage_slices (ledger_in (meanwhile st)) = stage_slices (ledger_in st) ∧ set_snapshot (shelves_of (meanwhile st)) = set_snapshot (shelves_of st) ∧
    version_of (shelves_of (meanwhile st)) = version_of (shelves_of st)) as Hm by (intros st0; repeat split; apply (Hquiet st0)).
  intros [force scope st0 r st1 Hrun|set floor st0 r st1 Hrun].
  - apply clean_staging_inv in Hrun as [(rep & _ & _ & ->)|(_ & [(_ & _ & ->)|(_ & rep & r0 & _ & _ & _ & ->)])]; [done..|].
    apply Hf, commit_release_spec.
  - apply release_covered_slices_inv in Hrun as [(_ & -> & _)|(_ & [(_ & _ & ->)|(_ & rep & _ & -> & _)])]; [done..|].
    apply Hf, taken_spec.
Qed.

(** A staged slice whose file was given up. *)
Definition gave_up (st st' : StagingArea) (slice : Z) : Prop := is_Some (staging_path st !! slice) ∧ staging_path st' !! slice = None.

Lemma clean_staging_gave_up force scope st r st' slice set n : clean_staging force scope st = (r, st') →
  stage_slices (ledger_in st) !! slice = Some (mkStageSlice set n) → gave_up st st' slice → set ∈ released_sets force scope st.
Proof.
  intros Hrun Hrow [[f Hf] Hn]. pose proof (Hquiet st) as Hq.
  apply clean_staging_inv in Hrun as [(rep & _ & _ & ->)|(_ & [(_ & _ & ->)|(_ & rep & r0 & _ & _ & _ & Hst)])]; [congruence| |].
  - rewrite (same_path _ _ Hq) in Hn. congruence.
  - destruct (commit_release_spec (plan_release staging_dir st <$> released_sets force scope st) (meanwhile st)) as (_ & _ & _ & _ & Fp).
    rewrite Hst in Hn. cbn [staging_path with_disk] in Hn. rewrite Fp, (same_path _ _ Hq), Hf in Hn. case_bool_decide as Hin; [|done].
    apply plans_age in Hin as (set' & n' & Hin & Hrow' & _). by simplify_eq.
Qed.

(** The slice went in a slice-by-slice release of its own set. *)
Definition covered_slice (before : StagingArea) (set u slice : Z) : Prop := ∃ floor s,
  unit_copy_floor before u = Ok floor ∧ s ∈ slice_copies (shelves_of (meanwhile before)) set ∧ sc_slice s = slice ∧
  Z.max floor 1 ≤ sc_copies s.

Lemma release_slices_gave_up set floor st r st' slice set' n : release_covered_slices set floor st = (r, st') →
  stage_slices (ledger_in st) !! slice = Some (mkStageSlice set' n) → gave_up st st' slice →
  set = set' ∧ may_release st set ∧ ∃ s, s ∈ slice_copies (shelves_of (meanwhile st)) set ∧ sc_slice s = slice ∧ Z.max floor 1 ≤ sc_copies s.
Proof.
  intros Hrun Hrow [[f Hf] Hn]. pose proof (Hquiet st) as Hq.
  apply release_covered_slices_inv in Hrun as [(_ & -> & _)|(Hmay & [(_ & _ & ->)|(_ & rep & _ & Hst & _)])]; [congruence| |].
  - rewrite (same_path _ _ Hq) in Hn. congruence.
  - destruct (taken_spec floor (meanwhile st) set) as (_ & _ & Fp & _). rewrite Hst in Hn. cbn [staging_path with_disk] in Hn.
    rewrite Fp, (same_path _ _ Hq), Hf in Hn. case_bool_decide as Hin; [|done].
    destruct (going_elem _ _ _ _ Hin) as [_ [n' Hrow']]. rewrite (same_slices _ _ Hq) in Hrow'. split; [by simplify_eq|]. split; [done|].
    apply list_elem_of_fmap in Hin as (s & -> & [Hm [_ Hs]%list_elem_of_filter]%list_elem_of_filter). by exists s.
Qed.

Lemma release_each_gave_up sets rep st r st' slice set n : release_each sets rep st = (r, st') →
  stage_slices (ledger_in st) !! slice = Some (mkStageSlice set n) → gave_up st st' slice →
  ∃ before u, rtc release_step st before ∧ (set, u) ∈ sets ∧ may_release before set ∧ covered_slice before set u slice.
Proof.
  revert rep st. induction sets as [|[set0 u] sets IH]; intros rep st; cbn.
  - intros [= _ <-] _ [[f Hf] Hn]. congruence.
  - intros Hrun Hrow Hgone. destruct (unit_copy_floor st u) as [floor|] eqn:Hfl; [|injection Hrun as _ <-; destruct Hgone as [[f Hf] Hn]; congruence].
    destruct (release_covered_slices set0 floor st) as [r1 st1] eqn:H1.
    destruct (staging_path st1 !! slice) as [f1|] eqn:Hp1.
    + destruct r1 as [rep1|]; [|injection Hrun as _ <-; destruct Hgone; congruence].
      assert (stage_slices (ledger_in st1) = stage_slices (ledger_in st)) as Heq.
      { by eapply step_static, step_slices. }
      destruct (IH _ _ Hrun) as (before & u' & Hsteps & Hin & Hb); [by rewrite Heq|split; [by exists f1|apply Hgone]|].
      exists before, u'. split; [eapply rtc_l; [by eapply step_slices|done]|]. split; [by apply list_elem_of_further|done].
    + destruct (release_slices_gave_up _ _ _ _ _ _ _ _ H1 Hrow) as (-> & Hmay & s & Hs); [split; [apply Hgone|done]|].
      exists st, u. split; [done|]. split; [apply list_elem_of_here|]. split; [done|]. by exists floor, s.
Qed.

Lemma judged_whole st unit_ids u set v : u ∈ unit_ids → set_status st !! set = Some SetStaged → holds_a_range (ledger_in st) set = false →
  version_row (shelves_of st) set = Some (u, v) → u ∈ units_judged_whole st unit_ids.
Proof.
  intros Hu Hs Hr Hv. unfold units_judged_whole. apply list_elem_of_filter. split; [|done]. right.
  apply existsb_exists. exists set. split.
  - apply list_elem_of_In, list_elem_of_fmap. exists (set, SetStaged). split; [done|]. by apply elem_of_map_to_list.
  - unfold staged_whole_set. rewrite Hr, Hv, !bool_decide_eq_true_2 by done. done.
Qed.

(** C10: a write's release gives up no staged slice its policy still needs.
    Whatever fails in it, a slice of a staged set goes only when nothing
    holds the set (no session writes it, no rewrite waits for it) and every
    write of it is finished; and then either the set was written whole
    somewhere and its unit's current copies meet the policy's floor, or the
    set spans cartridges and that slice's own copies, counted in the
    transaction that releases it, meet the floor and are at least one. Asked
    to wait for every location, no target of the unit is unmet. *)
Theorem release_only_the_covered unit_ids hold st r st' set u v slice n :
  release_if_covered_holding unit_ids hold st = (r, st') →
  set_status st !! set = Some SetStaged → version_row (shelves_of st) set = Some (u, v) →
  stage_slices (ledger_in st) !! slice = Some (mkStageSlice set n) → gave_up st st' slice →
  u ∈ unit_ids ∧ (hold = EveryLocation → short_nowhere st u) ∧
  ∃ before, rtc release_step st before ∧ unheld before set ∧ writes_finished (ledger_in before) set = true ∧
    (before = st ∧ has_write (ledger_in st) set WCompleted = true ∧ holds_a_range (ledger_in st) set = false ∧ meets_floor st u ∨
     holds_a_range (ledger_in before) set = true ∧ covered_slice before set u slice).
Proof.
  intros Hrun Hs Hv Hrow Hgone. unfold StagingGate.release_if_covered_holding in Hrun.
  destruct (judge_units _ _ _ _) as [[under located]|e] eqn:Hj; [|injection Hrun as _ <-; destruct Hgone as [[f Hf] Hn]; congruence].
  cbv beta zeta iota in Hrun. set (kept := under.*1) in *.
  set (whom := if bool_decide (kept = []) then unit_ids else filter (λ u, u ∉ kept) (units_judged_whole st unit_ids)) in *.
  assert (∀ u, u ∈ whom → u ∈ unit_ids ∧ u ∉ kept) as Hwhom.
  { clear Hrun. unfold whom. intros x. case_bool_decide as Hk; [rewrite Hk; split; [done|apply not_elem_of_nil]|].
    intros [Hx Hin]%list_elem_of_filter. split; [|done]. unfold units_judged_whole in Hin. by apply list_elem_of_filter in Hin as [_ Hin]. }
  assert (∀ st1 r2, rtc release_step st st1 → release_ranges (ScopeUnits (filter (λ u, u ∉ located) unit_ids)) st1 = (r2, st') →
    version_row (shelves_of st1) set = Some (u, v) → stage_slices (ledger_in st1) !! slice = Some (mkStageSlice set n) →
    is_Some (staging_path st1 !! slice) → u ∈ unit_ids ∧ (hold = EveryLocation → short_nowhere st u) ∧
    ∃ before, rtc release_step st before ∧ unheld before set ∧ writes_finished (ledger_in before) set = true ∧
      holds_a_range (ledger_in before) set = true ∧ covered_slice before set u slice) as Hrange.
  { intros st1 r2 Hsteps H2 Hv1 Hrow1 Hsome.
    destruct (release_each_gave_up _ _ _ _ _ _ _ _ H2 Hrow1) as (before & u' & Hst1 & Hin & (_ & Hpred & Hun) & Hcov); [split; [done|apply Hgone]|].
    apply ranges_elem in Hin as (_ & _ & Hsc & v' & Hv'). assert (u' = u) as -> by congruence.
    unfold in_scope in Hsc. rewrite Hv1 in Hsc. apply bool_decide_eq_true, list_elem_of_filter in Hsc as [Hl Hin].
    split; [done|]. split; [intros Hh; destruct (judge_units_kept _ _ _ _ _ _ u Hj Hin) as [_ Hloc]; destruct (Hloc Hh) as [Hloc1 _]; by apply Hloc1|]. exists before. split; [by etrans|]. split; [done|].
    unfold slice_release_candidate_predicate in Hpred. apply andb_true_iff in Hpred as [? ?]. done. }
  assert (∀ st1 r2, rtc release_step st st1 → release_ranges (ScopeUnits (filter (λ u, u ∉ located) unit_ids)) st1 = (r2, st') →
    version_row (shelves_of st1) set = Some (u, v) → stage_slices (ledger_in st1) !! slice = Some (mkStageSlice set n) →
    is_Some (staging_path st1 !! slice) → u ∈ unit_ids ∧ (hold = EveryLocation → short_nowhere st u) ∧ ∃ before, rtc release_step st before ∧
      unheld before set ∧ writes_finished (ledger_in before) set = true ∧
      (before = st ∧ has_write (ledger_in st) set WCompleted = true ∧ holds_a_range (ledger_in st) set = false ∧ meets_floor st u ∨
       holds_a_range (ledger_in before) set = true ∧ covered_slice before set u slice)) as Hrange'.
  { intros st1 r2 Ha Hb Hc Hd He. destruct (Hrange st1 r2 Ha Hb Hc Hd He) as (? & ? & before & ? & ? & ? & ? & ?). split_and!; [done..|]. exists before. tauto. }
  clear Hrange. destruct (_ && _).
  { destruct (release_ranges _ st) as [r2 st2] eqn:H2. assert (st' = st2) as -> by (destruct r2; congruence).
    eapply Hrange'; [done|exact H2|done..|apply Hgone]. }
  destruct (clean_staging _ _ st) as [r1 st1] eqn:H1.
  assert (release_step st st1) as Hstep by by eapply step_whole.
  destruct (staging_path st1 !! slice) as [f1|] eqn:Hp1.
  - destruct r1 as [rep|]; [|injection Hrun as _ <-; destruct Hgone; congruence].
    destruct (release_ranges _ st1) as [r2 st2] eqn:H2. assert (st' = st2) as -> by (destruct r2; congruence).
    destruct (step_static _ _ Hstep) as (E1 & E2 & E3).
    eapply Hrange'; [by apply rtc_once|exact H2|by unfold version_row; rewrite E2, E3|by rewrite E1|done].
  - assert (set ∈ released_sets false (ScopeUnits whom) st) as Hin.
    { eapply clean_staging_gave_up; [exact H1|done|]. split; [apply Hgone|done]. }
    apply released_sets_elem in Hin as [(_ & [Hf|(_ & [?|Hpred] & Hsc)]) Hun]; [congruence|done|].
    apply predicate_parts in Hpred as (Hc & Hfin & Hr). unfold in_scope in Hsc. rewrite Hv in Hsc. apply bool_decide_eq_true in Hsc.
    destruct (Hwhom u Hsc) as [Hu Hk]. assert (u ∈ units_judged_whole st unit_ids) as Hg by by eapply judged_whole.
    destruct (judge_units_kept _ _ _ _ _ _ u Hj Hu) as [Hfl Hloc].
    split; [done|]. split; [intros Hh; destruct (Hloc Hh) as [_ Hloc2]; by apply Hloc2|]. exists st. split; [done|]. split; [done|]. split; [done|]. left.
    split; [done|]. split; [done|]. split; [done|]. by apply Hfl.
Qed.

(** ** A bare [stage clean] *)

(** The schema's [UNIQUE(name)]. *)
Definition unit_names_unique (st : StagingArea) : Prop := ∀ u u' r r', units (shelves_of st) !! u = Some r → units (shelves_of st) !! u' = Some r' →
  unit_called r = unit_called r' → u = u'.
Notation under_copied_units := (under_copied_units config resolve).
Notation stage_clean := (stage_clean session_live commits unlinks meanwhile staging_dir config resolve).

Lemma unit_and_policy_is st u x : unit_names_unique st → unit_and_policy st u = Ok x → x.1.1 = u.
Proof.
  intros Hn. unfold StagingGate.unit_and_policy. rewrite bind_ok. intros (row & Hu%ok_or_ok & Hx).
  apply bind_ok in Hx as ([u' row'] & Hb%ok_or_ok & Hx). apply bind_ok in Hx as (p & _ & [= <-]). cbn.
  unfold unit_by_name in Hb. apply head_Some_elem_of, list_elem_of_filter in Hb as [Hname Hin%elem_of_map_to_list]. cbn in Hname. by eapply Hn.
Qed.

Lemma under_copied_covered st unit_ids under u : unit_names_unique st → under_copied_units st unit_ids = Ok under →
  u ∈ unit_ids → u ∉ under.*1 → meets_floor st u.
Proof.
  intros Hn. revert under. induction unit_ids as [|u' unit_ids IH]; intros under; [by intros _ ?%not_elem_of_nil|].
  cbn [StagingGate.under_copied_units]. intros Hr Hin Hnot. apply bind_ok in Hr as (x & Hx & Hr). apply bind_ok in Hr as (rest & Hrest & [= <-]).
  pose proof (unit_and_policy_is _ _ _ Hn Hx) as Hid.
  apply elem_of_cons in Hin as [->|Hin]; [|eapply IH; [done..|]; intros Hrin; apply Hnot; case_bool_decide; [by apply list_elem_of_further|done]].
  exists (copy_floor config (copy_floor_base x.2) (unit_state x.1.2)). split; [unfold StagingGate.unit_copy_floor; by rewrite Hx|].
  rewrite Hid in Hnot. case_bool_decide as Hc; [|by apply Z.nlt_ge in Hc]. destruct Hnot. rewrite fmap_cons. cbn. rewrite ?Hid. apply list_elem_of_here.
Qed.

(** Every staged set a bare clean may release whole is a candidate unit's. *)
Lemma candidate_unit st unit_filter set u v r : set_status st !! set = Some SetStaged → release_candidate_predicate (ledger_in st) set = true →
  version_row (shelves_of st) set = Some (u, v) → units (shelves_of st) !! u = Some r →
  match unit_filter with Some f => u ∈ f | None => True end → u ∈ (staged_release_candidate_units st unit_filter).*1.
Proof.
  intros Hs Hp Hv Hu Hf. unfold staged_release_candidate_units. apply list_elem_of_fmap. exists (u, unit_called r). split; [done|].
  apply list_elem_of_fmap. exists (u, r). split; [done|]. rewrite merge_sort_Permutation. apply list_elem_of_filter. cbn.
  split; [|by apply elem_of_map_to_list]. split; [|destruct unit_filter; [by apply bool_decide_eq_true|done]].
  apply elem_of_remove_dups, list_elem_of_omap. exists (set, SetStaged). split; [by apply elem_of_map_to_list|]. cbn. by rewrite Hp, Hv.
Qed.

(** C30: a bare [stage clean] gives up no staged slice its policy still needs.
    Without [--force], for all units or those named, or one version, a slice
    of a staged set goes only when nothing holds the set and every write of
    it is finished; and then either the set was written whole somewhere and
    its unit's current copies meet the policy's floor, or the set spans
    cartridges and the slice's own copies meet it and are at least one. *)
Theorem bare_clean_only_the_covered names version st r st' set u v row slice n : unit_names_unique st →
  stage_clean false names version st = (r, st') →
  set_status st !! set = Some SetStaged → version_row (shelves_of st) set = Some (u, v) → units (shelves_of st) !! u = Some row →
  stage_slices (ledger_in st) !! slice = Some (mkStageSlice set n) → gave_up st st' slice →
  ∃ before, rtc release_step st before ∧ unheld before set ∧ writes_finished (ledger_in before) set = true ∧
    (before = st ∧ has_write (ledger_in st) set WCompleted = true ∧ holds_a_range (ledger_in st) set = false ∧ meets_floor st u ∨
     holds_a_range (ledger_in before) set = true ∧ covered_slice before set u slice).
Proof.
  intros Hnames Hrun Hs Hv Hu Hrow Hgone. unfold StagingGate.stage_clean in Hrun.
  assert (∀ r0, (r0, st) = (r, st') → False) as Hsame by (intros r0 [= _ <-]; destruct Hgone as [[f Hf] Hn]; congruence).
  destruct (named_units st names) as [ids|]; [|by apply Hsame in Hrun]. cbv beta zeta iota in Hrun.
  destruct (_ && _); [by apply Hsame in Hrun|].
  set (unit_scope := match ids with [] => None | _ => Some ids end) in *.
  set (whom := match unit_scope with Some ids => release_scope ids version | None => ScopeWhole end) in *.
  unfold under_copied_release_candidates in Hrun.
  destruct (under_copied_units _ _) as [under|] eqn:Hunder; [|by apply Hsame in Hrun]. cbv beta zeta iota in Hrun. clear Hsame.
  assert (∀ x, in_scope (shelves_of st) whom x = true → ∀ u v, version_row (shelves_of st) x = Some (u, v) →
    match unit_scope with Some f => u ∈ f | None => True end) as Hfilter.
  { intros x Hx u0 v0 Hv0. unfold whom in Hx. destruct unit_scope as [l|]; [|done]. unfold release_scope, in_scope in Hx. rewrite Hv0 in Hx.
    destruct version as [v1|], l as [|a [|b l]]; try (by apply bool_decide_eq_true in Hx).
    apply andb_true_iff in Hx as [->%bool_decide_eq_true _]. apply list_elem_of_here. }
  set (given := match under with [] => whom | _ => ScopeUnits _ end) in *.
  destruct (clean_staging false given st) as [r1 st1] eqn:H1. assert (release_step st st1) as Hstep by by eapply step_whole.
  destruct (staging_path st1 !! slice) as [f1|] eqn:Hp1.
  - destruct r1 as [rep|]; [|injection Hrun as _ <-; destruct Hgone; congruence].
    destruct (release_ranges whom st1) as [r2 st2] eqn:H2. assert (st' = st2) as -> by (destruct r2; congruence).
    destruct (step_static _ _ Hstep) as (E1 & E2 & E3).
    destruct (release_each_gave_up _ _ _ _ _ slice set n H2) as (before & u' & Hsteps & Hin & (_ & Hpred & Hun) & Hcov);
      [by rewrite E1|split; [by exists f1|apply Hgone]|].
    apply ranges_elem in Hin as (_ & _ & _ & v' & Hv'). unfold version_row in Hv', Hv. rewrite E2, E3 in Hv'.
    assert (u' = u) as -> by congruence. exists before. split; [by eapply rtc_l|]. split; [done|].
    unfold slice_release_candidate_predicate in Hpred. apply andb_true_iff in Hpred as [? ?]. split; [done|]. by right.
  - assert (set ∈ released_sets false given st) as Hin.
    { eapply clean_staging_gave_up; [exact H1|done|]. split; [apply Hgone|done]. }
    apply released_sets_elem in Hin as [(_ & [Hf|(_ & [?|Hpred] & Hsc)]) Hun]; [congruence|done|].
    exists st. split; [done|]. split; [done|]. pose proof (predicate_parts _ _ Hpred) as (Hc & Hfin & Hr). split; [done|]. left.
    split; [done|]. split; [done|]. split; [done|]. eapply under_copied_covered; [done|exact Hunder|..].
    + destruct under as [|x under].
      * eapply candidate_unit; [done..|]. by eapply Hfilter.
      * unfold given, in_scope in Hsc. rewrite Hv in Hsc. by apply bool_decide_eq_true, list_elem_of_filter in Hsc as [_ Hsc].
    + destruct under as [|x under]; [apply not_elem_of_nil|]. unfold given, in_scope in Hsc. rewrite Hv in Hsc.
      by apply bool_decide_eq_true, list_elem_of_filter in Hsc as [Hsc _].
Qed.
End cover.
