(* ===== verification/StagingExact.v ===== *)
(** * What a release takes, and why it leaves the rest

    In a catalog nobody else writes a release takes every staged set and
    slice the rules let go; and the reason told for a set left alone is the
    rule that keeps it. *)

From S2P Require Import Prelude LayoutModel Session Ledger LedgerSound Coverage CoverageSound Release Staging StagingGate StagingSound StagingCover.
Local Open Scope Z_scope.
Local Open Scope rust_scope.

(** ** The reason told *)

Section reason.
Context {E : Type}.
Variables (config : Config) (resolve : Z → result E ResolvedPolicy).
Notation unit_copy_floor := (unit_copy_floor config resolve).
Notation release_blocker_judged := (release_blocker_judged config resolve).

(** Some write of the set is in a status, on a volume told when there is one. *)
Definition a_write (c : Ledger) (set : Z) (s : WriteStatus) (v : option Z) : Prop :=
  has_write c set s = true ∧ ∀ v', v = Some v' → ∃ w r, writes c !! w = Some r ∧ stage_set_id r = set ∧ write_status r = s ∧ volume_id r = v'.
Definition none_of (c : Ledger) (set : Z) (ss : list WriteStatus) : Prop := ∀ s, s ∈ ss → has_write c set s = false.

Definition blocker_meaning (st : StagingArea) (set : Z) (b : ReleaseBlocker) : Prop :=
  let c := ledger_in st in
  match b with
  | NoBlocker => release_candidate_predicate c set = true ∨ slice_release_candidate_predicate c set = true ∧
      ∃ u v floor, version_row (shelves_of st) set = Some (u, v) ∧ unit_copy_floor st u = Ok floor ∧ ∀ s, s ∈ unreleased st set → meets floor s
  | SlicesShort l => slice_release_candidate_predicate c set = true ∧ l ≠ [] ∧
      ∃ u v floor, version_row (shelves_of st) set = Some (u, v) ∧ unit_copy_floor st u = Ok floor ∧
        ∀ k, k ∈ l ↔ ∃ s, s ∈ unreleased st set ∧ sc_number s = k ∧ ¬ meets floor s
  | NeverWritten => set_writes_of c set = []
  | CutOn v => none_of c set [WPlanned; WInProgress; WCompleted; WFailed; WAborted; WInterrupted; WRange] ∧ a_write c set WCut v
  | WriteInFlight v => a_write c set WInProgress v ∨ has_write c set WInProgress = false ∧ a_write c set WPlanned v
  | BlockedInterrupted v => none_of c set [WInProgress; WPlanned] ∧ a_write c set WInterrupted v
  | Abandoned v => none_of c set [WInProgress; WPlanned; WInterrupted] ∧ (has_write c set WAborted = true ∨ has_write c set WFailed = true) ∧
      ∀ v', v = Some v' → a_write c set WAborted (Some v') ∧ aborted_session_reconfirmable_after_verify v' c = Ok true
  end.

Section c.
Variables (c : Ledger) (set : Z).

Lemma has_write_spec s : has_write c set s = true ↔ ∃ w r, writes c !! w = Some r ∧ stage_set_id r = set ∧ write_status r = s.
Proof.
  unfold has_write, set_writes_of. rewrite existsb_exists. split.
  - intros ([w r] & [Hs Hin%elem_of_map_to_list]%list_elem_of_In%list_elem_of_filter & Hst%bool_decide_eq_true). eauto.
  - intros (w & r & Hw & Hs & Hst). exists (w, r). split; [|by apply bool_decide_eq_true].
    apply list_elem_of_In, list_elem_of_filter. split; [done|]. by apply elem_of_map_to_list.
Qed.

Lemma writes_finished_spec : writes_finished c set = true ↔ none_of c set [WPlanned; WInProgress; WFailed; WAborted; WInterrupted].
Proof.
  unfold writes_finished, none_of. rewrite negb_true_iff, <- not_true_iff_false, existsb_exists. split.
  - intros Hn s Hs. apply not_true_iff_false. intros (w & r & Hw & Hset & Hst)%has_write_spec. apply Hn. exists (w, r).
    split; [apply list_elem_of_In, list_elem_of_filter; split; [done|by apply elem_of_map_to_list]|]. apply bool_decide_eq_true. cbn. rewrite Hst.
    repeat (apply elem_of_cons in Hs as [->|Hs]; [by_decide|]). by apply not_elem_of_nil in Hs.
  - intros Hall ([w r] & [Hset Hin%elem_of_map_to_list]%list_elem_of_In%list_elem_of_filter & Hst%bool_decide_eq_true). cbn in *.
    assert (has_write c set (write_status r) = true) as Hw by (apply has_write_spec; eauto).
    destruct (write_status r) eqn:Heq; try (by rewrite Hall in Hw by by_decide); apply Hst; by_decide.
Qed.

(** The statuses that are no cut. *)
Lemma statuses_elem s : s ∈ ((λ kr : Z * WriteRow, write_status kr.2) <$> filter (λ kr : Z * WriteRow, write_status kr.2 ≠ WCut) (set_writes_of c set))
  ↔ s ≠ WCut ∧ has_write c set s = true.
Proof.
  rewrite list_elem_of_fmap, has_write_spec. split.
  - intros ([w r] & -> & [Hc [Hs Hin%elem_of_map_to_list]%list_elem_of_filter]%list_elem_of_filter). cbn in *. split; [done|eauto].
  - intros (Hc & w & r & Hw & Hs & <-). exists (w, r). split; [done|]. apply list_elem_of_filter. split; [done|].
    apply list_elem_of_filter. split; [done|]. by apply elem_of_map_to_list.
Qed.

Lemma volume_of_write_spec s : has_write c set s = true → a_write c set s (volume_of_write c set s).
Proof.
  intros Hw. split; [done|]. intros v' Hv. unfold volume_of_write in Hv. apply head_Some_elem_of, list_elem_of_omap in Hv as ([w r] & Hin & Hx).
  apply list_elem_of_filter in Hin as [Hs Hin%elem_of_map_to_list]. cbn in *. case_bool_decide as Hst; [|done].
  destruct (volumes c !! volume_id r); [|done]. injection Hx as <-. eauto 10.
Qed.

Lemma latest_in l x : latest_write l = Some x → x ∈ l.
Proof.
  revert x. induction l as [|y l IH]; intros x; [done|].
  change (latest_write (y :: l)) with (match latest_write l with Some b => if bool_decide (b.1 < y.1) then Some y else Some b | None => Some y end).
  destruct (latest_write l) as [b|].
  - case_bool_decide; intros [= <-]; [apply list_elem_of_here|]. apply list_elem_of_further. by apply IH.
  - intros [= <-]. apply list_elem_of_here.
Qed.

Lemma latest_none l : latest_write l = None → l = [].
Proof. destruct l as [|y l]; [done|].
  change (latest_write (y :: l)) with (match latest_write l with Some b => if bool_decide (b.1 < y.1) then Some y else Some b | None => Some y end).
  destruct (latest_write l); [case_bool_decide|]; done. Qed.

Lemma cut_on_spec : match cut_on c set with Some v => a_write c set WCut v | None => has_write c set WCut = false end.
Proof.
  unfold cut_on. destruct (latest_write _) as [[w r]|] eqn:Hl; cbn.
  - apply latest_in, list_elem_of_filter in Hl as [Hc [Hs Hin%elem_of_map_to_list]%list_elem_of_filter]. cbn in *. split; [apply has_write_spec; eauto|].
    intros v' Hv. destruct (volumes c !! volume_id r); [|done]. injection Hv as <-. eauto 10.
  - apply latest_none in Hl. apply not_true_iff_false. intros (w & r & Hw & Hs & Hst)%has_write_spec.
    assert ((w, r) ∈ filter (λ kr : Z * WriteRow, write_status kr.2 = WCut) (set_writes_of c set)) as Hin.
    { apply list_elem_of_filter. split; [done|]. apply list_elem_of_filter. split; [done|]. by apply elem_of_map_to_list. }
    rewrite Hl in Hin. by apply not_elem_of_nil in Hin.
Qed.

Lemma first_reconfirmable_spec vs v : first_reconfirmable c vs = Ok (Some v) → v ∈ vs ∧ aborted_session_reconfirmable_after_verify v c = Ok true.
Proof.
  induction vs as [|x vs IH]; cbn; [done|]. rewrite bind_ok. intros ([|] & Hy & Hr).
  - injection Hr as <-. split; [apply list_elem_of_here|done].
  - destruct (IH Hr) as [? ?]. split; [by apply list_elem_of_further|done].
Qed.

Lemma aborted_volumes_spec v : v ∈ aborted_volumes c set → a_write c set WAborted (Some v).
Proof.
  unfold aborted_volumes. rewrite merge_sort_Permutation, elem_of_remove_dups. intros ([w r] & Hin & Hx)%list_elem_of_omap.
  apply list_elem_of_filter in Hin as [Hs Hin%elem_of_map_to_list]. cbn in *. case_bool_decide as Hst; [|done].
  destruct (volumes c !! volume_id r); [|done]. injection Hx as <-. split; [apply has_write_spec; eauto|]. intros ? [= <-]. eauto 10.
Qed.
End c.

Lemma short_slices_elem floor st set k : k ∈ slices_short_of st set (Z.max floor 1) ↔ ∃ s, s ∈ unreleased st set ∧ sc_number s = k ∧ ¬ meets floor s.
Proof.
  unfold slices_short_of, unreleased, meets. rewrite list_elem_of_fmap. split.
  - intros (s & -> & [[Hc Hr] Hin]%list_elem_of_filter). exists s. split; [by apply list_elem_of_filter|]. split; [done|lia].
  - intros (s & [Hr Hin]%list_elem_of_filter & <- & Hm). exists s. split; [done|]. apply list_elem_of_filter. split; [split; [lia|done]|done].
Qed.

(** The writes alone: [release_blocker]. *)
Definition writes_meaning (c : Ledger) (set : Z) (b : ReleaseBlocker) : Prop :=
  match b with
  | NoBlocker => release_candidate_predicate c set = true ∨ slice_release_candidate_predicate c set = true
  | SlicesShort _ => False
  | NeverWritten => set_writes_of c set = []
  | CutOn v => none_of c set [WPlanned; WInProgress; WCompleted; WFailed; WAborted; WInterrupted; WRange] ∧ a_write c set WCut v
  | WriteInFlight v => a_write c set WInProgress v ∨ has_write c set WInProgress = false ∧ a_write c set WPlanned v
  | BlockedInterrupted v => none_of c set [WInProgress; WPlanned] ∧ a_write c set WInterrupted v
  | Abandoned v => none_of c set [WInProgress; WPlanned; WInterrupted] ∧ (has_write c set WAborted = true ∨ has_write c set WFailed = true) ∧
      ∀ v', v = Some v' → a_write c set WAborted (Some v') ∧ aborted_session_reconfirmable_after_verify v' c = Ok true
  end.

Lemma none_of_list c set ss : Forall (λ s, has_write c set s = false) ss → none_of c set ss.
Proof. intros Hall s Hs. rewrite Forall_forall in Hall. by apply Hall. Qed.

Lemma release_blocker_meaning c set b : release_blocker c set = Ok b → writes_meaning c set b.
Proof.
  unfold release_blocker. pose proof (statuses_elem c set) as Hel.
  set (statuses := (λ kr : Z * WriteRow, write_status kr.2) <$> filter (λ kr : Z * WriteRow, write_status kr.2 ≠ WCut) (set_writes_of c set)) in *.
  clearbody statuses.
  assert (∀ s, s ≠ WCut → bool_decide (s ∈ statuses) = has_write c set s) as Hany.
  { intros s Hs. destruct (has_write c set s) eqn:Hw; [apply bool_decide_eq_true|apply bool_decide_eq_false]; rewrite Hel; [done|].
    intros [_ Hw']. congruence. }
  case_bool_decide as Hnil.
  { intros [= <-]. assert (∀ s, s ≠ WCut → has_write c set s = false) as Hno.
    { intros s Hs. rewrite <- Hany, Hnil by done. by apply bool_decide_eq_false_2, not_elem_of_nil. }
    pose proof (cut_on_spec c set) as Hcut. destruct (cut_on c set) as [v|]; cbn.
    - split; [|done]. apply none_of_list. repeat constructor; by apply Hno.
    - apply elem_of_nil_inv. intros [w r] [Hs Hin%elem_of_map_to_list]%list_elem_of_filter. cbn in Hs.
      assert (has_write c set (write_status r) = true) as Hw by (apply has_write_spec; eauto).
      destruct (decide (write_status r = WCut)) as [Heq|Hne]; [rewrite Heq in Hw|rewrite Hno in Hw by done]; congruence. }
  destruct (forallb _ statuses) eqn:Hall.
  { intros [= <-]. rewrite forallb_forall in Hall.
    assert (∀ s, s ∈ statuses → s = WCompleted ∨ s = WRange) as Hst.
    { intros s Hs%list_elem_of_In. specialize (Hall s Hs). apply orb_true_iff in Hall. by rewrite !bool_decide_eq_true in Hall. }
    assert (writes_finished c set = true) as Hfin.
    { apply writes_finished_spec. intros s Hs. apply not_true_iff_false. intros Hw.
      assert (s ≠ WCut) as Hc by (intros ->; revert Hs; by_decide).
      destruct (Hst s (proj2 (Hel s) (conj Hc Hw))) as [->| ->]; revert Hs; by_decide. }
    cbn. unfold release_candidate_predicate, slice_release_candidate_predicate. rewrite Hfin.
    destruct (holds_a_range c set) eqn:Hr; [by right|left]. rewrite !andb_true_r.
    destruct statuses as [|s l]; [done|]. assert (s ∈ s :: l) as Hin by apply list_elem_of_here.
    destruct (Hst s Hin) as [->| ->]; apply Hel in Hin as [_ Hin]; [done|]. unfold holds_a_range in Hr. congruence. }
  rewrite !Hany by done. destruct (has_write c set WInProgress) eqn:Hp; [intros [= <-]; left; by apply volume_of_write_spec|].
  destruct (has_write c set WPlanned) eqn:Hpl; [intros [= <-]; right; split; [done|by apply volume_of_write_spec]|].
  destruct (has_write c set WInterrupted) eqn:Hi.
  { intros [= <-]. split; [|by apply volume_of_write_spec]. apply none_of_list. by repeat constructor. }
  rewrite bind_ok. intros (v & Hv & [= <-]). split; [apply none_of_list; by repeat constructor|]. split.
  - destruct (has_write c set WAborted) eqn:Ha; [by left|]. right. apply not_false_iff_true. intros Hf.
    apply not_true_iff_false in Hall. apply Hall, forallb_forall. intros s Hs%list_elem_of_In. pose proof (proj1 (Hel s) Hs) as [Hc Hw].
    destruct s; try congruence; done.
  - intros v' ->. apply first_reconfirmable_spec in Hv as [Hin Hv]. split; [by apply aborted_volumes_spec|done].
Qed.

(** The reason told for a set is the rule that keeps it. On every
    branch: nothing blocks exactly a set the whole rule or the slice rule
    lets go, and for one spanning cartridges every slice not yet released
    then meets its unit's floor; else the slices named are exactly those
    short of it; a set is called never written, cut, being written,
    resumable or abandoned when its writes say so, in that order, on a volume
    that carries such a write; and the volume named for a reconfirmation is
    one a resume would reconfirm. *)
Theorem blocker_told st set b : is_Some (version_row (shelves_of st) set) → release_blocker_judged st set = Ok b → blocker_meaning st set b.
Proof.
  intros [[u v] Hv]. unfold StagingGate.release_blocker_judged. rewrite bind_ok, Hv. intros (b0 & Hb0 & Hb).
  destruct (release_blocker (ledger_in st) set) as [b1|] eqn:Hr; [|done]. injection Hb0 as <-. apply release_blocker_meaning in Hr.
  destruct b1; try (injection Hb as <-; exact Hr); [|done].
  destruct (holds_a_range (ledger_in st) set) eqn:Hrange.
  - apply bind_ok in Hb as (floor & Hfl & Hb). cbn in Hr.
    assert (slice_release_candidate_predicate (ledger_in st) set = true) as Hsl.
    { destruct Hr as [Hr|Hr]; [|done]. apply predicate_parts in Hr as (_ & _ & Hr). congruence. }
    pose proof (short_slices_elem floor st set) as Hshort. case_bool_decide as Hnil; injection Hb as <-.
    + right. split; [done|]. exists u, v, floor. split; [done|]. split; [done|]. intros s Hs.
      destruct (decide (meets floor s)) as [|Hm]; [done|]. exfalso.
      assert (sc_number s ∈ slices_short_of st set (Z.max floor 1)) as Hin by (apply Hshort; eauto). rewrite Hnil in Hin. by apply not_elem_of_nil in Hin.
    + split; [done|]. split; [done|]. exists u, v, floor. done.
  - injection Hb as <-. cbn in Hr. destruct Hr as [Hr|Hr]; [by left|]. unfold slice_release_candidate_predicate in Hr.
    rewrite Hrange in Hr. done.
Qed.
End reason.

(** ** A release in a catalog nobody else writes *)

Lemma same_refl st : same_staging st st.
Proof. by split. Qed.

Section exact.
Context {E : Type}.
Variables (session_live : Z → bool) (commits : list Z → bool) (unlinks : File → bool)
  (meanwhile : StagingArea → StagingArea) (staging_dir : string).
Variables (config : Config) (resolve : Z → result E ResolvedPolicy).
Hypothesis Halone : ∀ st, meanwhile st = st.
Notation clean_staging := (@clean_staging E session_live commits unlinks meanwhile staging_dir).
Notation release_covered_slices := (@release_covered_slices E session_live commits unlinks meanwhile staging_dir).
Notation release_each := (release_each session_live commits unlinks meanwhile staging_dir config resolve).
Notation release_ranges := (release_ranges session_live commits unlinks meanwhile staging_dir config resolve).
Notation release_if_covered_holding := (release_if_covered_holding session_live commits unlinks meanwhile staging_dir config resolve).
Notation release_step := (@release_step E session_live commits unlinks meanwhile staging_dir).
Notation unheld := (unheld session_live).
Notation may_release := (may_release session_live).
Notation released_sets := (released_sets session_live).
Notation unit_copy_floor := (unit_copy_floor config resolve).
Notation judge_units := (judge_units config resolve).
Notation meets_floor := (meets_floor config resolve).
Notation short_nowhere := (short_nowhere config resolve).

(** What no release undoes. *)
Record further (st st' : StagingArea) : Prop := {
  further_shelves : shelves_of st' = shelves_of st;
  further_rewrites : rewrites st' = rewrites st;
  further_cleaned : ∀ set, set_status st !! set = Some SetCleaned → set_status st' !! set = Some SetCleaned;
  further_path : ∀ s, staging_path st !! s = None → staging_path st' !! s = None;
  further_released : ∀ s, s ∈ released_at st → s ∈ released_at st';
}.
#[local] Instance further_preorder : PreOrder further.
Proof.
  split; [by split|]. intros a b c [A1 A2 A3 A4 A5] [B1 B2 B3 B4 B5]. split; [congruence..| | |]; auto.
Qed.

Lemma clean_staging_further force scope st r st' : clean_staging force scope st = (r, st') → further st st'.
Proof.
  intros Hrun. apply clean_staging_inv in Hrun as [(rep & _ & _ & ->)|(_ & [(_ & _ & ->)|(_ & rep & r0 & _ & _ & _ & ->)])];
    [done|by rewrite Halone|]. rewrite Halone.
  destruct (commit_release_spec (plan_release staging_dir st <$> released_sets force scope st) st) as ((F1 & _ & F3 & _) & _ & Fr & Fs & Fp).
  set (stc := commit_release _ st) in *. clearbody stc. split; cbn; [done..| | |].
  - intros x Hx. rewrite Fs, Hx. by case_bool_decide.
  - intros s Hs. rewrite Fp, Hs. by case_bool_decide.
  - intros s. by rewrite Fr.
Qed.

Lemma release_covered_further set floor st r st' : release_covered_slices set floor st = (r, st') → further st st'.
Proof.
  intros Hrun. apply release_covered_slices_inv in Hrun as [(_ & -> & _)|(_ & [(_ & _ & ->)|(_ & rep & _ & -> & _)])];
    [done|by rewrite Halone|]. rewrite Halone.
  destruct (taken_spec floor st set) as ((F1 & _ & F3 & _) & _ & Fp & Fr & Fs). split; cbn; [done..| | |].
  - intros x Hx. rewrite Fs, Hx. by destruct (_ && _).
  - intros s Hs. rewrite Fp, Hs. by case_bool_decide.
  - intros s Hs. apply Fr. by left.
Qed.

Lemma further_unheld st st' set : further st st' → unheld st' set ↔ unheld st set.
Proof. intros [H1 H2 _ _ _]. unfold StagingSound.unheld, live_writers, holds, hold_rows, ledger_in. by rewrite H1, H2. Qed.

Lemma further_floor st st' u : further st st' → unit_copy_floor st' u = unit_copy_floor st u.
Proof. intros [H1 _ _ _ _]. unfold StagingGate.unit_copy_floor, unit_and_policy, unit_by_name. by rewrite H1. Qed.

(** The judgement keeps no unit that is covered. *)
Lemma judge_units_covered st hold gate unit_ids under located u : judge_units st hold gate unit_ids = Ok (under, located) →
  (hold = EveryLocation → short_nowhere st u) → u ∉ located ∧ (meets_floor st u → u ∉ under.*1).
Proof.
  intros Hj Hloc. revert under located Hj. induction unit_ids as [|u' unit_ids IH]; intros under located; [intros [= <- <-]; split; [|intros _]; apply not_elem_of_nil|].
  cbn [StagingGate.judge_units]. intros Hj. apply bind_ok in Hj as ([kept here] & Hh & Hj).
  apply bind_ok in Hj as ([under' located'] & Hr & [= <- <-]). cbn. rewrite fmap_app, !not_elem_of_app. destruct (IH _ _ Hr) as [IH1 IH2].
  assert (u ∉ here ∧ (meets_floor st u → u ∉ kept.*1)) as [Hh1 Hh2]; [|tauto]. clear IH IH1 IH2 Hr.
  destruct (bool_decide (u' ∈ gate)), hold; cbn in Hh; try (injection Hh as <- <-; split; [|intros _]; apply not_elem_of_nil);
    (apply bind_ok in Hh as ([row policy] & Hx & [= <- <-])); cbn.
  - split; [apply not_elem_of_nil|]. intros (floor & Hfl & Hc). case_bool_decide as Hb; [|apply not_elem_of_nil]. cbn.
    intros ->%list_elem_of_singleton. unfold StagingGate.unit_copy_floor in Hfl. rewrite Hx in Hfl. injection Hfl as <-. by apply Z.le_ngt in Hc.
  - destruct (short_of_copies_at _ _ _ _ _ _) as [|l ls] eqn:Hs.
    + split; [apply not_elem_of_nil|]. intros (floor & Hfl & Hc). case_bool_decide as Hb; [|apply not_elem_of_nil]. cbn.
      intros ->%list_elem_of_singleton. unfold StagingGate.unit_copy_floor in Hfl. rewrite Hx in Hfl. injection Hfl as <-. by apply Z.le_ngt in Hc.
    + assert (u ≠ u') as Hne.
      { intros ->. destruct (Hloc eq_refl) as (x & Hx' & Hs'). rewrite Hx in Hx'. injection Hx' as <-. unfold short_at in Hs'. cbn in Hs'. congruence. }
      rewrite orb_true_r. cbn. split; [|intros _]; by rewrite list_elem_of_singleton.
  - destruct (short_of_copies_at _ _ _ _ _ _) as [|l ls] eqn:Hs; cbn; split; [apply not_elem_of_nil|intros _; apply not_elem_of_nil| |intros _; apply not_elem_of_nil].
    rewrite list_elem_of_singleton. intros ->. destruct (Hloc eq_refl) as (x & Hx' & Hs'). rewrite Hx in Hx'. injection Hx' as <-.
    unfold short_at in Hs'. cbn in Hs'. congruence.
Qed.

Lemma release_each_further sets rep st r st' : release_each sets rep st = (r, st') → further st st'.
Proof.
  revert rep st. induction sets as [|[set u] sets IH]; intros rep st; cbn; [by intros [= _ <-]|].
  destruct (unit_copy_floor st u) as [floor|]; [|by intros [= _ <-]].
  destruct (release_covered_slices set floor st) as [[r1|e] st1] eqn:H1; apply release_covered_further in H1.
  - intros Hr. etrans; [exact H1|]. by eapply IH.
  - by intros [= _ <-].
Qed.

(** A slice that meets its unit's floor goes. *)
Lemma release_each_takes sets rep st rep' st' set u floor s : release_each sets rep st = (Ok rep', st') → (set, u) ∈ sets →
  set_status st !! set = Some SetStaged → slice_release_candidate_predicate (ledger_in st) set = true → unheld st set →
  unit_copy_floor st u = Ok floor → s ∈ slice_copies (shelves_of st) set → meets floor s →
  (∀ u', (set, u') ∈ sets → u' = u) → sc_slice s ∈ released_at st'.
Proof.
  revert rep st. induction sets as [|[set0 u0] sets IH]; intros rep st Hrun Hin Hs Hp Hu Hfl Hsl Hm Hone; [by apply not_elem_of_nil in Hin|].
  cbn in Hrun. destruct (unit_copy_floor st u0) as [floor0|] eqn:Hfl0; [|done].
  destruct (release_covered_slices set0 floor0 st) as [[r1|e] st1] eqn:H1; [|done].
  pose proof (release_covered_further _ _ _ _ _ H1) as Hf1. pose proof (release_each_further _ _ _ _ _ Hrun) as Hf2.
  apply release_covered_slices_inv in H1. rewrite Halone in H1. destruct (decide (set0 = set)) as [->|Hne].
  - assert (u0 = u) as -> by (apply Hone, list_elem_of_here). assert (floor0 = floor) as -> by congruence.
    apply (further_released _ _ Hf2). destruct H1 as [(Hno & _)|(_ & [(? & _)|(_ & rep1 & _ & -> & _)])]; [by destruct Hno|done|].
    destruct (taken_spec floor st set) as (_ & _ & _ & Fr & _). apply Fr. destruct (decide (sc_slice s ∈ released_at st)); [by left|right].
    apply list_elem_of_fmap_2, list_elem_of_filter. split; [done|]. by apply list_elem_of_filter.
  - assert ((set, u) ∈ sets) as Hin' by (apply elem_of_cons in Hin as [[= <- <-]|?]; done).
    eapply IH; [exact Hrun|done| |..].
    + destruct H1 as [(_ & -> & _)|(_ & [(? & _)|(_ & rep1 & _ & -> & _)])]; [done..|].
      destruct (taken_spec floor0 st set0) as (_ & _ & _ & _ & Fs). cbn. rewrite Fs, (bool_decide_eq_false_2 (set = set0)) by done. by rewrite andb_false_r.
    + unfold ledger_in. rewrite (further_shelves _ _ Hf1). exact Hp.
    + by apply (further_unheld _ _ _ Hf1).
    + rewrite (further_floor _ _ _ Hf1). exact Hfl.
    + by rewrite (further_shelves _ _ Hf1).
    + done.
    + intros u' Hu'. by apply Hone, list_elem_of_further.
Qed.

Lemma clean_staging_takes force scope st rep st' set : clean_staging force scope st = (Ok rep, st') →
  (set ∈ released_sets force scope st → is_Some (set_status st !! set) →
    set_status st' !! set = Some SetCleaned ∧
    ∀ slice n, stage_slices (ledger_in st) !! slice = Some (mkStageSlice set n) → staging_path st' !! slice = None) ∧
  (set ∉ released_sets force scope st → set_status st' !! set = set_status st !! set).
Proof.
  intros Hrun. apply clean_staging_inv in Hrun as [(rep' & _ & Hn & ->)|(_ & [(? & _)|(_ & rep' & r0 & _ & _ & _ & ->)])]; [|done|].
  - rewrite Hn. split; [by intros ?%not_elem_of_nil|done].
  - rewrite Halone. destruct (commit_release_spec (plan_release staging_dir st <$> released_sets force scope st) st) as (_ & _ & _ & Fs & Fp).
    set (stc := commit_release _ st) in *. clearbody stc. cbn.
    assert (plan_set <$> (plan_release staging_dir st <$> released_sets force scope st) = released_sets force scope st) as Hps.
    { rewrite <- list_fmap_compose. change (plan_set ∘ plan_release staging_dir st) with (λ x : Z, x). apply list_fmap_id. }
    rewrite Hps in Fs. split.
    + intros Hin [x Hx]. rewrite Fs, bool_decide_eq_true_2, Hx by done. split; [done|]. intros slice n Hrow. rewrite Fp.
      destruct (staging_path st !! slice) as [f|] eqn:Hf; [|by case_bool_decide]. rewrite bool_decide_eq_true_2; [done|].
      apply plans_age. exists set, n. split; [done|]. split; [done|]. by exists f.
    + intros Hin. rewrite Fs. by rewrite bool_decide_eq_false_2.
Qed.

(** C31: what is covered goes. When nobody else writes the catalog and no
    transaction fails, a write's release takes everything the rules let go:
    a staged set written whole, of a unit that meets its floor and that
    nothing holds, is released with every slice of it; and of a set that
    spans cartridges every slice that meets the floor is, whatever the other
    units lack. A unit's targets matter only when asked to wait for them. *)
Theorem release_takes_the_covered unit_ids hold st out st' set u v :
  release_if_covered_holding unit_ids hold st = (Ok out, st') → u ∈ unit_ids →
  set_status st !! set = Some SetStaged → version_row (shelves_of st) set = Some (u, v) → unheld st set →
  (hold = EveryLocation → short_nowhere st u) →
  (release_candidate_predicate (ledger_in st) set = true → meets_floor st u →
    set_status st' !! set = Some SetCleaned ∧
    ∀ slice n, stage_slices (ledger_in st) !! slice = Some (mkStageSlice set n) → staging_path st' !! slice = None) ∧
  (slice_release_candidate_predicate (ledger_in st) set = true → ∀ floor s, unit_copy_floor st u = Ok floor →
    s ∈ slice_copies (shelves_of st) set → meets floor s → sc_slice s ∈ released_at st').
Proof.
  intros Hrun Hu Hs Hv Hun Hloc. unfold StagingGate.release_if_covered_holding in Hrun.
  destruct (judge_units _ _ _ _) as [[under located]|e] eqn:Hj; [|done]. cbv beta zeta iota in Hrun. set (kept := under.*1) in *.
  destruct (judge_units_covered _ _ _ _ _ _ u Hj Hloc) as [Hlocated Hkept].
  set (whom := if bool_decide (kept = []) then unit_ids else filter (λ u, u ∉ kept) (units_judged_whole st unit_ids)) in *.
  assert (release_candidate_predicate (ledger_in st) set = true → meets_floor st u → u ∈ whom) as Hwhom.
  { clear Hrun. intros Hp Hm. unfold whom. case_bool_decide; [done|]. apply list_elem_of_filter. split; [by apply Hkept|].
    apply predicate_parts in Hp as (_ & _ & Hr). by eapply judged_whole. }
  assert (∃ st1 rep2, release_ranges (ScopeUnits (filter (λ u, u ∉ located) unit_ids)) st1 = (Ok rep2, st') ∧
    ((st1 = st ∧ whom = []) ∨ ∃ rep1, clean_staging false (ScopeUnits whom) st = (Ok rep1, st1))) as (st1 & rep2 & H2 & H1).
  { destruct (bool_decide (whom = []) && _) eqn:Hb.
    - destruct (release_ranges _ st) as [r2 st2] eqn:H2. apply andb_true_iff in Hb as [Hb%bool_decide_eq_true _]. destruct r2 as [slices|]; [|done].
      injection Hrun as _ <-. exists st, slices. split; [exact H2|by left].
    - destruct (clean_staging _ _ st) as [[rep1|] st1] eqn:H1; [|done]. destruct (release_ranges _ st1) as [r2 st2] eqn:H2.
      destruct r2 as [slices|]; [|done]. injection Hrun as _ <-. exists st1, slices. split; [exact H2|right; by exists rep1]. }
  clear Hrun. pose proof (release_each_further _ _ _ _ _ H2) as Hf2. split.
  - intros Hp Hm. specialize (Hwhom Hp Hm). destruct H1 as [[_ Hn]|[rep1 H1]]; [rewrite Hn in Hwhom; by apply not_elem_of_nil in Hwhom|].
    destruct (clean_staging_takes _ _ _ _ _ set H1) as [Htake _]. destruct Htake as [Hc Hpath].
    + apply released_sets_elem. split; [|done]. split; cbn; [by rewrite Hv, bool_decide_eq_true_2|]. right. split; [done|]. split; [by right|].
      unfold in_scope. rewrite Hv. by apply bool_decide_eq_true.
    + by exists SetStaged.
    + split; [by apply (further_cleaned _ _ Hf2)|]. intros slice n Hrow. apply (further_path _ _ Hf2). by eapply Hpath.
  - intros Hp floor s Hfl Hsl Hm.
    assert (further st st1 ∧ set_status st1 !! set = Some SetStaged) as [Hf1 Hs1].
    { destruct H1 as [[-> _]|[rep1 H1]]; [done|]. split; [by eapply clean_staging_further|].
      rewrite (proj2 (clean_staging_takes _ _ _ _ _ set H1)); [done|]. intros [(_ & [?|(_ & [?|Hc] & _)]) _]%released_sets_elem; [congruence|done|].
      apply predicate_parts in Hc as (_ & _ & Hr). unfold slice_release_candidate_predicate in Hp. rewrite Hr in Hp. done. }
    assert (version_row (shelves_of st1) set = Some (u, v)) as Hv1 by by rewrite (further_shelves _ _ Hf1).
    assert (slice_release_candidate_predicate (ledger_in st1) set = true) as Hp1 by (unfold ledger_in; rewrite (further_shelves _ _ Hf1); exact Hp).
    eapply release_each_takes; [exact H2|..].
    + apply ranges_elem. unfold slice_release_candidate_predicate in Hp1. apply andb_true_iff in Hp1 as [Hr _].
      split; [done|]. split; [done|]. split; [|by exists v]. unfold in_scope. rewrite Hv1. apply bool_decide_eq_true, list_elem_of_filter. done.
    + done.
    + done.
    + by apply (further_unheld _ _ _ Hf1).
    + rewrite (further_floor _ _ _ Hf1). exact Hfl.
    + by rewrite (further_shelves _ _ Hf1).
    + done.
    + intros u' (_ & _ & _ & v' & Hv')%ranges_elem. congruence.
Qed.
End exact.
