(* ===== verification/StagingRehearsal.v ===== *)
(** * A release of staging rehearsed

    Two units: one with a version whole on two tapes and a version that spans
    them, one staged and never written beside a stage that failed. Released
    after a write, cleaned by hand, asked why; and what two processes at once
    can do. *)

From S2P Require Import Prelude LayoutModel Session Ledger LedgerSound Coverage CoverageSound Release ReleaseSound CoverageRehearsal.
From S2P Require Import Staging StagingGate StagingSound StagingCover StagingExact.
Local Open Scope Z_scope.
Local Open Scope rust_scope.

Definition yx_uuid : string := "0a1b2c3d-4e5f-6071-8293-a4b5c6d7e8f9".
Definition yx_other : string := "f9e8d7c6-b5a4-4392-8170-6f5e4d3c2b1a".
Definition yx_file (uuid : string) (version set n : Z) (suffix : string) : File :=
  ("/stg", (archive_base_prefix uuid version set +:+ pretty.pretty n +:+ suffix))%string.

Definition yx_ledger : Ledger :=
  mkLedger vx_writes vx_positions
    (list_to_map [(71, mkStageSlice 7 1); (81, mkStageSlice 8 1); (82, mkStageSlice 8 2); (101, mkStageSlice 10 1)])
    (list_to_map [(21, SnapCurrent); (22, SnapCurrent); (23, SnapStaged)]) (volumes vx_ledger) [] ∅ ∅.
Definition yx_shelves : Shelves :=
  mkShelves yx_ledger (list_to_map [(1, mkUnitRow "photos" "active"); (2, mkUnitRow "music" "active")])
    (list_to_map [(7, 21); (8, 22); (1, 23); (10, 23)]) (list_to_map [(21, (1, 1)); (22, (1, 2)); (23, (2, 1))]) (shelf vx_shelves)
    (deposits vx_shelves) (locations vx_shelves) (list_to_map [(71, 10); (81, 20); (82, 30); (101, 40)]).
Definition yx_files : list (Z * File) :=
  [(71, yx_file yx_uuid 1 7 1 ".dar.age"); (81, yx_file yx_uuid 2 8 1 ".dar.age"); (82, yx_file yx_uuid 2 8 2 ".dar.age");
   (101, yx_file yx_other 1 10 1 ".dar.age")].
(** The failed set 1 left a plaintext slice, beside the files of set 10. *)
Definition yx_staging : StagingArea :=
  mkStagingArea yx_shelves (list_to_map [(7, SetStaged); (8, SetStaged); (1, SetFailed); (10, SetStaged)])
    (list_to_map [(7, 1); (8, 2); (10, 1)]) (list_to_map yx_files) ∅ ∅ (list_to_map [(1, yx_uuid); (2, yx_other)])
    (list_to_map [(yx_file yx_uuid 1 7 1 ".dar.age", 10); (yx_file yx_uuid 2 8 1 ".dar.age", 20); (yx_file yx_uuid 2 8 2 ".dar.age", 30);
                  (yx_file yx_other 1 10 1 ".dar.age", 40); (yx_file yx_other 1 1 1 ".dar", 7)]).

Definition idle (v : Z) : bool := false.
Definition always {A} (x : A) : bool := true.
Definition yx_released := release_if_covered_holding idle always always id "/stg" vx_config vx_resolve [1; 2] EveryLocation yx_staging.

(** The first unit goes, whole set and slices; the second is short. *)
Example yx_outcome :
  match yx_released.1 with
  | Ok out => ro_units out = ["photos"%string] ∧ ro_under_copied out = [mkProgress "music" 0 2 [mkLocationShort "home" 0 1]] ∧
              slices_released (ro_slices out) = [(8, [1; 2])] ∧ sets_cleaned (ro_slices out) = 1
  | Err _ => False
  end ∧ map_to_list (set_status yx_released.2) ≡ₚ [(7, SetCleaned); (8, SetCleaned); (1, SetCleaned); (10, SetStaged)] ∧
  map_to_list (disk yx_released.2) = [(yx_file yx_other 1 10 1 ".dar.age", 40)].
Proof. vm_compute. split; [repeat split|]. split; [|reflexivity]. apply (bool_decide_unpack _). vm_compute. exact I. Qed.

(** ** The schema and the staging directory, here *)

Lemma yx_quiet (st : StagingArea) : same_staging st (id st).
Proof. by split. Qed.

Lemma yx_names : unit_names_unique yx_staging.
Proof.
  intros u u' r r' Hu Hu' Hn. assert (Forall (λ x : Z * UnitRow, Forall (λ y : Z * UnitRow, unit_called x.2 = unit_called y.2 → x.1 = y.1)
    (map_to_list (units yx_shelves))) (map_to_list (units yx_shelves))) as Hall by by_decide.
  rewrite Forall_forall in Hall. apply elem_of_map_to_list in Hu, Hu'. pose proof (Hall _ Hu) as Hx. rewrite Forall_forall in Hx. exact (Hx _ Hu' Hn).
Qed.

Definition named_check (st : StagingArea) (x : Z * StageSlice) : Prop :=
  match staging_path st !! x.1 with
  | Some f => f.1 = "/stg"%string → match set_prefix st (slice_set_id x.2) with Some p => String.prefix p f.2 = true | None => False end
  | None => True
  end.
#[local] Instance named_check_dec st x : Decision (named_check st x).
Proof. unfold named_check. destruct (staging_path st !! x.1); [|apply _]. destruct (set_prefix st (slice_set_id x.2)); apply _. Defined.

Lemma yx_sound : sound "/stg" yx_staging.
Proof.
  split.
  - refine (map_injective (staging_path yx_staging) _). by_decide.
  - intros s set n f Hrow Hf Hd. assert (Forall (named_check yx_staging) (map_to_list (stage_slices yx_ledger))) as Hall by by_decide.
    rewrite Forall_forall in Hall. apply elem_of_map_to_list in Hrow. specialize (Hall _ Hrow). unfold named_check in Hall. cbn [fst snd slice_set_id] in Hall.
    rewrite Hf in Hall. specialize (Hall Hd). destruct (set_prefix yx_staging set) as [p|]; [|done]. by exists p.
  - intros u uuid Hu. assert (Forall (λ x : Z * string, no_char (ascii_of_byte 95) (uuid_stem x.2) = true) (map_to_list (unit_uuid yx_staging))) as Hall by by_decide.
    rewrite Forall_forall in Hall. apply elem_of_map_to_list in Hu. exact (Hall _ Hu).
Qed.

(** ** What the theorems say of it *)

Lemma release_keeps_sets_whole_witness :
  set_status yx_released.2 !! 10 = Some SetStaged ∧ staged_slice_problems yx_released.2 10 = [] ∧ sound "/stg" yx_released.2.
Proof.
  assert (set_status yx_released.2 !! 10 = Some SetStaged) as Hs by (vm_compute; reflexivity). split; [exact Hs|].
  destruct (release_keeps_sets_whole idle always always id "/stg" yx_quiet vx_config vx_resolve yx_staging yx_released.2 yx_sound
    (or_introl (ex_intro _ [1; 2] (ex_intro _ EveryLocation (ex_intro _ yx_released.1 (surjective_pairing yx_released)))))) as [Hsound Hkept].
  split; [|exact Hsound]. destruct (Hkept 10 Hs) as [_ Hp].
  destruct (staged_slice_problems yx_released.2 10) as [|p l]; [reflexivity|].
  exfalso. specialize (Hp p (list_elem_of_here p l)). assert (staged_slice_problems yx_staging 10 = []) as Hn by (vm_compute; reflexivity).
  rewrite Hn in Hp. by apply not_elem_of_nil in Hp.
Defined.

Lemma yx_meets : meets_floor vx_config vx_resolve yx_staging 1.
Proof. exists 2. split; [vm_compute; reflexivity|]. vm_compute. discriminate. Qed.
Lemma yx_nowhere : short_nowhere vx_config vx_resolve yx_staging 1.
Proof.
  exists ((1, mkUnitRow "photos" "active"), policy_of 2 {["home"%string := 1]}). split; vm_compute; reflexivity.
Qed.
Lemma release_only_the_covered_witness : meets_floor vx_config vx_resolve yx_staging 1 ∧ short_nowhere vx_config vx_resolve yx_staging 1.
Proof.
  destruct (release_only_the_covered idle always always id "/stg" vx_config vx_resolve yx_quiet [1; 2] EveryLocation yx_staging yx_released.1 yx_released.2
    7 1 1 71 1) as (_ & Hloc & before & _ & _ & _ & [(_ & _ & _ & Hm)|(Hr & _)]).
  - exact (surjective_pairing yx_released).
  - vm_compute. reflexivity.
  - vm_compute. reflexivity.
  - vm_compute. reflexivity.
  - split; [by exists (yx_file yx_uuid 1 7 1 ".dar.age")|vm_compute; reflexivity].
  - split; [exact Hm|exact (Hloc eq_refl)].
  - split; [exact yx_meets|exact (Hloc eq_refl)].
Defined.

Definition yx_cleaned := stage_clean idle always always id "/stg" vx_config vx_resolve false ["photos"%string] None yx_staging.
Lemma bare_clean_only_the_covered_witness :
  staging_path yx_cleaned.2 !! 81 = None ∧ ∃ before, rtc (@release_step () idle always always id "/stg") yx_staging before ∧ writes_finished (ledger_in before) 8 = true.
Proof.
  assert (staging_path yx_cleaned.2 !! 81 = None) as Hn by (vm_compute; reflexivity). split; [exact Hn|].
  destruct (bare_clean_only_the_covered idle always always id "/stg" vx_config vx_resolve yx_quiet ["photos"%string] None yx_staging yx_cleaned.1 yx_cleaned.2
    8 1 2 (mkUnitRow "photos" "active") 81 1 yx_names) as (before & Hsteps & _ & Hfin & _).
  - exact (surjective_pairing yx_cleaned).
  - vm_compute. reflexivity.
  - vm_compute. reflexivity.
  - vm_compute. reflexivity.
  - vm_compute. reflexivity.
  - split; [by exists (yx_file yx_uuid 2 8 1 ".dar.age")|exact Hn].
  - exists before. split; [exact Hsteps|exact Hfin].
Defined.

Lemma blocker_told_witness :
  @release_blocker_judged () vx_config vx_resolve yx_staging 10 = Ok NeverWritten ∧ set_writes_of (ledger_in yx_staging) 10 = [].
Proof.
  assert (@release_blocker_judged () vx_config vx_resolve yx_staging 10 = Ok NeverWritten) as Hb by (vm_compute; reflexivity). split; [exact Hb|].
  refine (blocker_told vx_config vx_resolve yx_staging 10 NeverWritten _ Hb). exists (2, 1). vm_compute. reflexivity.
Defined.

Definition yx_out : ReleaseOutcome := match yx_released.1 with Ok out => out | Err _ => mkOutcome None [] [] no_report end.
Lemma yx_ran : yx_released = (Ok yx_out, yx_released.2).
Proof. assert (yx_released.1 = Ok yx_out) as Ho by (vm_compute; reflexivity). rewrite <- Ho. apply surjective_pairing. Qed.
Lemma release_takes_the_covered_witness :
  set_status yx_released.2 !! 7 = Some SetCleaned ∧ staging_path yx_released.2 !! 71 = None.
Proof.
  destruct (release_takes_the_covered idle always always id "/stg" vx_config vx_resolve (λ st, eq_refl) [1; 2] EveryLocation yx_staging yx_out yx_released.2
    7 1 1) as [Hwhole _].
  - exact yx_ran.
  - by_decide.
  - vm_compute. reflexivity.
  - vm_compute. reflexivity.
  - split; vm_compute; reflexivity.
  - intros _. exact yx_nowhere.
  - destruct Hwhole as [Hc Hp]; [vm_compute; reflexivity| |split; [exact Hc|by apply (Hp 71 1)]].
    exact yx_meets.
Defined.

(** ** Two processes at once *)

Definition with_shelves (sh : Shelves) (st : StagingArea) : StagingArea :=
  mkStagingArea sh (set_status st) (num_slices st) (staging_path st) (released_at st) (rewrites st) (unit_uuid st) (disk st).
Definition with_ledger_of (f : Ledger → Ledger) (st : StagingArea) : StagingArea :=
  with_shelves (with_ledger (f (ledger_in st)) (shelves_of st)) st.

(** A write plans a stage set onto a third tape, and its session starts,
    after a [stage clean] has read that no session has the set: the set is
    released under it. *)
Example a_session_planned_meanwhile :
  let live v := bool_decide (v = 3) in
  let planned := with_ledger_of (set_writes <[9 := vx_write 7 21 3 WInProgress]>) in
  let run := stage_clean live always always planned "/stg" vx_config vx_resolve false [] None yx_staging in
  live_writers live yx_staging 7 = [] ∧ live_writers live run.2 7 = [3] ∧
  staging_path run.2 !! 71 = None ∧ set_status run.2 !! 7 = Some SetCleaned.
Proof. vm_compute. repeat split; reflexivity. Qed.

(** A rewrite of the one tape that holds a version reaches its erase after
    the clean has read what rewrites hold: its staged slices, the only copy
    left, are released. *)
Definition yx_one_tape : StagingArea :=
  let st := with_ledger_of (set_writes (delete 2)) yx_staging in
  mkStagingArea (shelves_of st) (set_status st) (num_slices st) (staging_path st) (released_at st) {[1 := mkRewrite 1 RwStaged false [7]]}
    (unit_uuid st) (disk st).
Definition erases (st : StagingArea) : StagingArea :=
  let st := with_ledger_of (set_volume 1 (with_volume_status VErased)) st in
  mkStagingArea (shelves_of st) (set_status st) (num_slices st) (staging_path st) (released_at st) {[1 := mkRewrite 1 RwErased false [7]]}
    (unit_uuid st) (disk st).
Example a_rewrite_meanwhile :
  let one_copy (u : Z) : result () ResolvedPolicy := Ok (policy_of 1 ∅) in
  let run := release_if_covered idle always always erases "/stg" vx_config one_copy [1] yx_one_tape in
  holds yx_one_tape !! 7 = None ∧ holds (erases yx_one_tape) !! 7 = Some (mkHold 1 1 RwErased) ∧
  copies_of yx_one_tape 1 = 1 ∧
  set_status run.2 !! 7 = Some SetCleaned ∧ disk run.2 !! yx_file yx_uuid 1 7 1 ".dar.age" = None ∧
  copy_count_expr (shelves_of run.2) (mkQuery (OfSnapshot 21) None) = 0.
Proof. vm_compute. repeat split; reflexivity. Qed.

(** ** A set that spans, released in part *)

(** Its second slice has one copy where two are asked: the first slice goes,
    the set stays staged and whole as it is, and the reason names slice 2. *)
Definition yx_spanning : StagingArea :=
  with_ledger_of (λ c, set_writes (delete 5) (set_write_positions (λ m, <[(3, 82) := mkPosition 6 PWritten (Some "c"%string)]>
    (<[(4, 81) := mkPosition 6 PWritten (Some "b"%string)]> (delete (4, 82) m))) c)) yx_staging.
Definition yx_two (u : Z) : result () ResolvedPolicy := Ok (policy_of 2 ∅).
Example released_in_part :
  let run := stage_clean idle always always id "/stg" vx_config yx_two false [] None yx_spanning in
  slice_copies (shelves_of yx_spanning) 8 = [mkSliceCopies 81 1 2 2; mkSliceCopies 82 2 1 1] ∧
  set_status run.2 !! 8 = Some SetStaged ∧ released_at run.2 = {[81]} ∧ staged_slice_problems run.2 8 = [] ∧
  release_blocker_judged vx_config yx_two run.2 8 = Ok (SlicesShort [2]).
Proof. vm_compute. repeat split; reflexivity. Qed.
