(* ===== verification/PolicySound.v ===== *)
(** * What a policy resolves to

    Each field is the first layer's that says it; the map of copies is one
    layer's whole; freezing the dotfile's map keeps every floor, and with it
    every verdict, through the loss of the source. *)

From S2P Require Import Prelude LayoutModel Format Session Ledger SizeText Coverage Release Policy Staging StagingGate.
Local Open Scope Z_scope.

(** ** Layers, each on its own *)

Record Layer : Type := mkLayer {
  l_min_copies : option Z;
  l_required_locations : option (list string);
  l_encrypt : option bool;
  l_compression : option string;
  l_checksum_mode : option string;
  l_slice_size : option Z;
  l_verify_interval_days : option Z;
  l_preserve_xattrs : option bool;
  l_preserve_acls : option bool;
  l_preserve_fsa : option bool;
  l_dirty_on_metadata_change : option bool;
  l_warehouse_copies : option Z;
  l_allow_spanning : option bool;
  l_copies_at : option (gmap string Z * list string);   (* and the names a key of the map brought *)
}.
Definition silent : Layer := mkLayer None None None None None None None None None None None None None None.

Definition flag_of (column : option Z) : option bool := (λ v, negb (bool_decide (v = 0))) <$> column.
Definition with_names (m : gmap string Z) : gmap string Z * list string := (m, names m).
(** [f] of what is there; what is not there says nothing. *)
Definition heard {A B} (f : A → option B) (o : option A) : option (option B) :=
  match o with Some a => Some <$> f a | None => Some None end.

Section layers.
Context `{!TomlCrate, !JsonCrate}.
Variables (defaults : DefaultsConfig) (archive_sets : gmap Z ArchiveSet) (registered : gmap Z string)
  (disk : string → DotfileOnDisk).

Definition defaults_say : option Layer :=
  size ← parse_size_to_bytes (d_slice_size defaults);
  Some (mkLayer (Some (d_min_copies defaults)) (Some []) (Some (d_encrypt defaults)) (Some (d_compression defaults))
    (Some (d_checksum_mode defaults)) (Some size) (Some (d_verify_interval_days defaults)) (Some (d_preserve_xattrs defaults))
    (Some (d_preserve_acls defaults)) (Some (d_preserve_fsa defaults)) (Some (d_dirty_on_metadata_change defaults))
    (Some (d_warehouse_copies defaults)) (Some (d_allow_spanning defaults)) (Some (with_names (d_copies_at defaults)))).

(** A set's targets: its own map over one copy at each location it requires. *)
Definition set_targets (required : option (list string)) (own : option (gmap string Z)) : option (gmap string Z * list string) :=
  match own, default [] required with
  | None, [] => None
  | _, required => Some (default ∅ own ∪ list_to_map ((λ n, (n, 1)) <$> required), names (default ∅ own))
  end.
Definition set_says (u : Unit) : option Layer :=
  match archive_set_id u with
  | None => Some silent
  | Some id =>
      row ← archive_sets !! id;
      required ← heard json_strings (as_required_locations row);
      own ← heard json_counts (as_copies_at row);
      Some (mkLayer (as_min_copies row) required (flag_of (as_encrypt row)) (as_compression row) (as_checksum_mode row)
        (as_slice_size row) (as_verify_interval_days row) (flag_of (as_preserve_xattrs row)) (flag_of (as_preserve_acls row))
        (flag_of (as_preserve_fsa row)) (flag_of (as_dirty_on_metadata_change row)) (as_warehouse_copies row)
        (flag_of (as_allow_spanning row)) (set_targets required own))
  end.

Definition checked (ok : string → bool) (v : string) : option string := if ok v then Some v else None.
Definition section_says (v : toml) : option Layer :=
  sec ← de_policy_section v;
  checksum ← heard (checked validate_checksum_mode) (ps_checksum_mode sec);
  comp ← heard (checked validate_compression) (ps_compression sec);
  size ← heard parse_size_to_bytes (ps_slice_size sec);
  Some (mkLayer None None None comp checksum size None None None None None (ps_warehouse_copies sec) (ps_allow_spanning sec)
    (with_names <$> ps_copies_at sec)).
Definition targets_only (m : gmap string Z) : Layer :=
  mkLayer None None None None None None None None None None None None None (Some (with_names m)).
(** The dotfile, or its frozen map where there is none. *)
Definition dotfile_says (u : Unit) : option Layer :=
  match dotfile_of disk u with
  | NoDotfile => match copies_at_frozen u with Some text => targets_only <$> json_counts text | None => Some silent end
  | UnreadableDotfile => None
  | DotfileText text =>
      match toml_table text with
      | Ok table =>
          if known_fields DOTFILE_TOP_LEVEL_TABLES table
          then match assoc "policy" table with Some v => section_says v | None => Some silent end
          else None
      | Err _ => None
      end
  end.

(** The first layer that says a field. *)
Definition first_set {A} (f : Layer → option A) (layers : list Layer) : option A := head (omap f layers).
Record layered (layers : list Layer) (p : ResolvedPolicy) (keyed : list string) : Prop := {
  of_min_copies : first_set l_min_copies layers = Some (min_copies p);
  of_required : first_set l_required_locations layers = Some (required_locations p);
  of_encrypt : first_set l_encrypt layers = Some (encrypt p);
  of_compression : first_set l_compression layers = Some (compression p);
  of_checksum : first_set l_checksum_mode layers = Some (checksum_mode p);
  of_slice_size : first_set l_slice_size layers = Some (slice_size p);
  of_verify : first_set l_verify_interval_days layers = verify_interval_days p;
  of_xattrs : first_set l_preserve_xattrs layers = Some (preserve_xattrs p);
  of_acls : first_set l_preserve_acls layers = Some (preserve_acls p);
  of_fsa : first_set l_preserve_fsa layers = Some (preserve_fsa p);
  of_dirty : first_set l_dirty_on_metadata_change layers = Some (dirty_on_metadata_change p);
  of_warehouse : first_set l_warehouse_copies layers = Some (warehouse_copies p);
  of_spanning : first_set l_allow_spanning layers = Some (allow_spanning p);
  of_copies_at : first_set l_copies_at layers = Some (copies_at p, keyed);
}.
Record targets_sound (m : gmap string Z) (keyed : list string) : Prop := {
  counts_nonneg : map_Forall (λ _ n, 0 ≤ n) m;
  names_not_blank : map_Forall (λ n _, blank_text n = false) m;
  names_registered : ∀ n, n ∈ keyed → ∃ id, registered !! id = Some n;
}.

(** ** The map's two rules *)

Lemma elem_of_names {A} (m : gmap string A) n : n ∈ names m ↔ is_Some (m !! n).
Proof.
  unfold names. rewrite merge_sort_Permutation, list_elem_of_fmap. split.
  - intros ([k a] & -> & Hka%elem_of_map_to_list). by exists a.
  - intros [a Ha]. exists (n, a). split; [done|]. by apply elem_of_map_to_list.
Qed.

Lemma validate_copies_at_ok m :
  validate_copies_at m = Ok () ↔ map_Forall (λ _ n, 0 ≤ n) m ∧ map_Forall (λ n _, blank_text n = false) m.
Proof.
  unfold validate_copies_at. destruct (existsb blank_text (names m)) eqn:Hb.
  - split; [done|]. intros [_ Hm]. apply existsb_exists in Hb as (n & Hn%list_elem_of_In%elem_of_names & Hbl).
    destruct Hn as [a Ha]. specialize (Hm n a Ha). cbn in Hm. congruence.
  - assert (map_Forall (λ n _, blank_text n = false) m) as Hbl.
    { intros n a Ha. apply not_true_is_false. intros Ht. apply not_true_iff_false in Hb. apply Hb, existsb_exists.
      exists n. split; [|done]. apply list_elem_of_In, elem_of_names. by exists a. }
    destruct (head (omap _ (names m))) as [e|] eqn:Hh; split; try done.
    + intros [Hm _]. exfalso. destruct (omap _ _) as [|e' l] eqn:Hl in Hh; [done|]. injection Hh as <-.
      assert (e' ∈ omap (λ n, count ← m !! n; if bool_decide (count < 0) then Some (NegativeCount n count) else None) (names m)) as Hin
        by (rewrite Hl; left).
      apply list_elem_of_omap in Hin as (n & _ & Hn). destruct (m !! n) as [c|] eqn:Hc; [|done]. cbn in Hn.
      specialize (Hm n c Hc). cbn in Hm. by rewrite bool_decide_eq_false_2 in Hn by lia.
    + intros _. split; [|done]. intros n c Hc. destruct (decide (c < 0)) as [Hneg|]; [|cbn; lia]. exfalso.
      destruct (omap _ _) as [|e' l] eqn:Hl in Hh; [|done].
      assert (NegativeCount n c ∈ omap (λ n, count ← m !! n; if bool_decide (count < 0) then Some (NegativeCount n count) else None) (names m)) as Hin.
      { apply list_elem_of_omap. exists n. split; [apply elem_of_names; by exists c|]. rewrite Hc. cbn. by rewrite bool_decide_eq_true_2. }
      rewrite Hl in Hin. by apply not_elem_of_nil in Hin.
Qed.

Lemma check_copies_at_ok m from : check_copies_at registered m from = Ok () ↔ targets_sound m (src_keyed from).
Proof.
  unfold check_copies_at. rewrite bind_ok. split.
  - intros ([] & Hv & Hc). destruct (validate_copies_at m) as [[]|] eqn:Hval; [|done].
    apply validate_copies_at_ok in Hval as [Hcounts Hnames]. split; [done..|]. intros n Hn.
    case_bool_decide as Hk; [rewrite Hk in Hn; by apply not_elem_of_nil in Hn|].
    case_bool_decide as Hu; [|done].
    destruct (decide (n ∈ location_names registered)) as [Hin|Hout].
    + unfold location_names in Hin. apply list_elem_of_fmap in Hin as ([id x] & -> & Hx%elem_of_map_to_list). by exists id.
    + assert (n ∈ filter (λ n, n ∉ location_names registered) (src_keyed from)) as Hf by by apply list_elem_of_filter.
      rewrite Hu in Hf. by apply not_elem_of_nil in Hf.
  - intros [Hcounts Hnames Hreg]. exists (). split; [by rewrite (proj2 (validate_copies_at_ok m))|].
    case_bool_decide as Hk; [done|]. case_bool_decide as Hu; [done|]. exfalso. apply Hu.
    destruct (filter _ _) as [|n l] eqn:Hf; [done|].
    assert (n ∈ filter (λ n, n ∉ location_names registered) (src_keyed from)) as [Hn Hin]%list_elem_of_filter by (rewrite Hf; left).
    exfalso. apply Hn. destruct (Hreg n Hin) as [id Hid]. unfold location_names. apply list_elem_of_fmap.
    exists (id, n). split; [done|]. by apply elem_of_map_to_list.
Qed.

(** ** Each pass is a layer over the ones below *)

Lemma flag_default column b : flag column b = default b (flag_of column).
Proof. by destruct column. Qed.

(** What a pass gives: the layer over those below, or a layer that says nothing sound. *)
Definition pass_gives (below : list Layer) (says : option Layer) (r : result Unresolvable Resolving) : Prop :=
  match r with
  | Ok s => ∃ l, says = Some l ∧ layered (l :: below) (policy s) (src_keyed (copies_at_from s))
  | Err _ => says = None
  end.

Lemma defaults_layer_spec : pass_gives [] defaults_say (defaults_layer defaults).
Proof.
  unfold defaults_layer, defaults_say. destruct (parse_size_to_bytes _) as [size|]; cbn; [|done].
  eexists. split; [done|]. by split.
Qed.
Lemma defaults_require_nothing s : defaults_layer defaults = Ok s → required_locations (policy s) = [].
Proof. unfold defaults_layer. destruct (parse_size_to_bytes _); [|done]. by intros [= <-]. Qed.

Lemma heard_default {A B} (f : A → option B) (e : Unresolvable) (none : B) o :
  opt_result o (λ a, ok_or (f a) e) none = match heard f o with Some r => Ok (default none r) | None => Err e end.
Proof. destruct o as [a|]; cbn; [|done]. by destruct (f a). Qed.
Lemma heard_some {A B} (f : A → option B) (e : Unresolvable) o :
  opt_result o (λ a, Some <$> ok_or (f a) e) None = match heard f o with Some r => Ok r | None => Err e end.
Proof. destruct o as [a|]; cbn; [|done]. by destruct (f a). Qed.
Lemma heard_checked (ok : string → bool) (e : Unresolvable) (none : string) o :
  opt_result o (λ v, if ok v then Ok v else Err e) none =
    match heard (checked ok) o with Some r => Ok (default none r) | None => Err e end.
Proof. destruct o as [a|]; cbn; [|done]. unfold checked. by destruct (ok a). Qed.

Lemma layered_silent ls p k : layered ls p k → layered (silent :: ls) p k.
Proof. intros []. split; unfold first_set in *; cbn; done. Qed.

(** A field kept from below, or set. *)
Lemma first_set_cons {A} (f : Layer → option A) l ls : first_set f (l :: ls) = match f l with Some a => Some a | None => first_set f ls end.
Proof. unfold first_set. cbn. by destruct (f l). Qed.
Ltac over_layer :=
  rewrite first_set_cons; cbn [l_min_copies l_required_locations l_encrypt l_compression l_checksum_mode l_slice_size
    l_verify_interval_days l_preserve_xattrs l_preserve_acls l_preserve_fsa l_dirty_on_metadata_change l_warehouse_copies
    l_allow_spanning l_copies_at silent targets_only]; cbn;
  rewrite ?flag_default; try (match goal with |- match ?o with _ => _ end = _ => destruct o end); done.

Lemma set_targets_some req own : is_some own || negb (bool_decide (default [] req = [])) = true →
  set_targets req own = Some (default ∅ own ∪ list_to_map ((λ n, (n, 1)) <$> default [] req), names (default ∅ own)).
Proof. unfold set_targets. intros Hs. destruct own; [done|]. by destruct (default [] req). Qed.
Lemma set_targets_none req own : is_some own || negb (bool_decide (default [] req = [])) = false → set_targets req own = None.
Proof. unfold set_targets. intros Hs. destruct own; [done|]. by destruct (default [] req). Qed.

Lemma archive_set_layer_spec u ls s : layered ls (policy s) (src_keyed (copies_at_from s)) → required_locations (policy s) = [] →
  pass_gives ls (set_says u) (archive_set_layer archive_sets (archive_set_id u) s).
Proof.
  intros [] Hreq. unfold set_says, archive_set_layer. destruct (archive_set_id u) as [id|]; [|exists silent; split; [done|]; by apply layered_silent].
  destruct (archive_sets !! id) as [row|]; [|done]. cbn [ok_or mbind result_bind option_bind].
  rewrite heard_default, heard_some, Hreq.
  destruct (heard json_strings _) as [req|]; [|done]. cbn [mbind result_bind option_bind].
  destruct (heard json_counts _) as [own|]; [|done]. cbn [mbind result_bind option_bind].
  case_match eqn:Hsets; (eexists; split; [done|]); split; try over_layer;
    try (rewrite first_set_cons; cbn; destruct req; [done|]; by rewrite of_required0, Hreq).
  - rewrite first_set_cons. cbn. by rewrite set_targets_some.
  - rewrite first_set_cons. cbn. by rewrite set_targets_none.
Qed.

Lemma known_no_unknown table :
  known_fields DOTFILE_TOP_LEVEL_TABLES table = true ↔
    List.find (λ f : string * toml, negb (bool_decide (f.1 ∈ DOTFILE_TOP_LEVEL_TABLES))) table = None.
Proof.
  unfold known_fields. induction table as [|f table IH]; [done|]. cbn. destruct (bool_decide _); cbn; [done|by split].
Qed.

Lemma policy_table_spec v ls s : layered ls (policy s) (src_keyed (copies_at_from s)) →
  pass_gives ls (section_says v) (policy_table s v).
Proof.
  intros []. unfold section_says, policy_table. destruct (de_policy_section v) as [sec|]; [|done].
  cbn [ok_or mbind result_bind option_bind]. rewrite !heard_checked, heard_default.
  destruct (heard _ (ps_checksum_mode sec)) as [checksum|]; [|done]. cbn [mbind result_bind option_bind].
  destruct (heard _ (ps_compression sec)) as [comp|]; [|done]. cbn [mbind result_bind option_bind].
  destruct (heard _ (ps_slice_size sec)) as [size|]; [|done]. cbn [mbind result_bind option_bind].
  destruct (ps_copies_at sec) as [m|]; (eexists; split; [done|]); split; by over_layer.
Qed.

(** The dotfile's pass and the frozen map's, which stands in for it. *)
Definition top_passes (u : Unit) (s : Resolving) : result Unresolvable Resolving :=
  sp ← dotfile_layer disk u s; frozen_layer u sp.2 sp.1.
Lemma top_passes_spec u ls s : layered ls (policy s) (src_keyed (copies_at_from s)) →
  pass_gives ls (dotfile_says u) (top_passes u s).
Proof.
  intros Hl. unfold top_passes, dotfile_says, dotfile_layer. destruct (dotfile_of disk u) as [| |text]; cbn [mbind result_bind].
  - unfold frozen_layer. cbn [fst snd]. destruct (copies_at_frozen u) as [text|]; cbn [opt_result].
    + destruct (json_counts text) as [m|]; [|done]. eexists. split; [done|]. destruct Hl. split; by over_layer.
    + exists silent. split; [done|]. by apply layered_silent.
  - done.
  - destruct (toml_table text) as [table|]; [|done]. cbn [map_err mbind result_bind].
    destruct (List.find _ table) as [f|] eqn:Hf.
    + destruct (known_fields _ table) eqn:Hk; [|done]. apply known_no_unknown in Hk. congruence.
    + apply known_no_unknown in Hf as ->. destruct (assoc "policy" table) as [v|].
      * pose proof (policy_table_spec v ls s Hl) as Hp. destruct (policy_table s v) as [s'|]; cbn in *; done.
      * exists silent. split; [done|]. by apply layered_silent.
Qed.

Lemma resolve_passes u : resolve defaults archive_sets registered disk u =
  (s ← defaults_layer defaults; s ← archive_set_layer archive_sets (archive_set_id u) s; s ← top_passes u s;
   _ ← check_copies_at registered (copies_at (policy s)) (copies_at_from s); Ok (policy s)).
Proof.
  unfold resolve, top_passes. destruct (defaults_layer defaults) as [s|]; [|done]. cbn.
  destruct (archive_set_layer _ _ s) as [s'|]; [|done]. cbn. by destruct (dotfile_layer disk u s') as [[]|].
Qed.

(** All the passes: the three layers, or one that says nothing sound. *)
Lemma passes_spec u :
  match (s ← defaults_layer defaults; s ← archive_set_layer archive_sets (archive_set_id u) s; top_passes u s) with
  | Ok s => ∃ d a b, dotfile_says u = Some d ∧ set_says u = Some a ∧ defaults_say = Some b
              ∧ layered [d; a; b] (policy s) (src_keyed (copies_at_from s))
  | Err _ => dotfile_says u = None ∨ set_says u = None ∨ defaults_say = None
  end.
Proof.
  pose proof defaults_layer_spec as Hb. pose proof defaults_require_nothing as Hreq.
  destruct (defaults_layer defaults) as [s|]; cbn in *; [|by right; right].
  destruct Hb as (b & Hb & Hlb). pose proof (archive_set_layer_spec u _ _ Hlb (Hreq s eq_refl)) as Ha.
  destruct (archive_set_layer _ _ s) as [s'|]; cbn in *; [|by right; left].
  destruct Ha as (a & Ha & Hla). pose proof (top_passes_spec u _ _ Hla) as Hd.
  destruct (top_passes u s') as [s''|]; cbn in *; [|by left]. destruct Hd as (d & Hd & Hld). by exists d, a, b.
Qed.

Lemma layered_inj ls p k p' k' : layered ls p k → layered ls p' k' → p = p' ∧ k = k'.
Proof. intros [] []. destruct p, p'. cbn in *. simplify_eq. split; congruence. Qed.
End layers.

Lemma resolve_layers `{!TomlCrate, !JsonCrate} defaults archive_sets registered disk u p :
  resolve defaults archive_sets registered disk u = Ok p ↔
    ∃ d a b keyed, dotfile_says disk u = Some d ∧ set_says archive_sets u = Some a ∧ defaults_say defaults = Some b
      ∧ layered [d; a; b] p keyed ∧ targets_sound registered (copies_at p) keyed.
Proof.
  pose proof (passes_spec defaults archive_sets disk u) as Hpass. rewrite resolve_passes.
  destruct (defaults_layer defaults) as [s|]; cbn in *; [|naive_solver].
  destruct (archive_set_layer archive_sets (archive_set_id u) s) as [s'|]; cbn in *; [|naive_solver].
  destruct (top_passes disk u s') as [s''|]; cbn in *; [|naive_solver].
  destruct Hpass as (d & a & b & Hd & Ha & Hb & Hl). rewrite bind_ok. split.
  - intros ([] & Hc%check_copies_at_ok & [= <-]). by exists d, a, b, (src_keyed (copies_at_from s'')).
  - intros (d' & a' & b' & keyed & Hd' & Ha' & Hb' & Hl' & Hs). simplify_eq.
    destruct (layered_inj _ _ _ _ _ Hl' Hl) as [-> ->]. exists (). split; [|done]. by apply check_copies_at_ok.
Qed.

(** C27: A unit's policy resolves exactly when its dotfile (or the map frozen
    of it, where it is gone), its archive set and the defaults each say
    something sound and the map of copies is: then every field is the most
    specific layer's that sets it, the map of copies is one layer's whole, an
    archive set's required locations counting as one copy each, no target is
    negative or blank, and every location a copies_at key names is registered. *)
Theorem resolve_first_setter_wins `{!TomlCrate, !JsonCrate} defaults archive_sets registered disk u p :
  resolve defaults archive_sets registered disk u = Ok p ↔
    ∃ d a b keyed, dotfile_says disk u = Some d ∧ set_says archive_sets u = Some a ∧ defaults_say defaults = Some b
      ∧ layered [d; a; b] p keyed ∧ targets_sound registered (copies_at p) keyed.
Proof. apply resolve_layers. Qed.

(** ** What a gate reads of a policy *)

(** Two policies with the same floor and the same targets. *)
#[export] Instance policy_equiv : Equiv ResolvedPolicy := λ p q, min_copies p = min_copies q ∧ copies_at p = copies_at q.
#[export] Instance policy_equivalence : Equivalence (≡@{ResolvedPolicy}).
Proof. split; [intros p|intros p q|intros p q r]; unfold equiv, policy_equiv; [done|naive_solver|]. intros [??] [??]. split; congruence. Qed.
#[export] Instance resolved_equiv E : Equiv (result E ResolvedPolicy) := λ r s,
  match r, s with Ok p, Ok q => p ≡ q | Err e, Err f => e = f | _, _ => False end.
#[export] Instance resolved_equivalence E : Equivalence (≡@{result E ResolvedPolicy}).
Proof.
  split; [intros [p|e]|intros [p|e] [q|f]|intros [p|e] [q|f] [r|g]]; unfold equiv, resolved_equiv; try done.
  - intros Hpq Hqr. by rewrite Hpq.
  - congruence.
Qed.

#[export] Instance copy_floor_base_proper : Proper ((≡) ==> (=)) copy_floor_base.
Proof. intros p q [Hm Hc]. unfold copy_floor_base. by rewrite Hm, Hc. Qed.
#[export] Instance short_of_copies_at_proper config sh s :
  Proper ((≡) ==> (=) ==> (=) ==> (=)) (short_of_copies_at config sh s).
Proof.
  intros p q [_ Hc] st ? <- ex ? <-. unfold short_of_copies_at, judge_copies_at, copies_at_targets, location_target. by rewrite Hc.
Qed.

(** A continuation that reads a policy through its floor and targets alone. *)
Lemma bind_resolved {E B} (r s : result E ResolvedPolicy) (f g : ResolvedPolicy → result E B) :
  r ≡ s → (∀ p q, p ≡ q → f p = g q) → (r ≫= f) = (s ≫= g).
Proof. intros Hrs Hf. destruct r, s; cbn in *; try done; [by apply Hf | by rewrite Hrs]. Qed.

Section gates.
Context {E : Type}.
Notation Resolve := (Z → result E ResolvedPolicy).
Variable (config : Config).

#[local] Instance version_facts_proper sh i : Proper ((≡) ==> (=) ==> (=)) (version_facts sh config i).
Proof.
  intros p q Hpq x ? <-. unfold version_facts. cbv zeta.
  by rewrite (copy_floor_base_proper _ _ Hpq), (short_of_copies_at_proper _ _ _ _ _ Hpq _ _ eq_refl _ _ eq_refl).
Qed.
#[local] Instance below_policy_facts_proper sh :
  Proper (pointwise_relation Z (≡) ==> (=) ==> (=)) (@below_policy_facts sh E config).
Proof.
  intros r s Hrs l ? <-. induction l as [|i l IH]; cbn [below_policy_facts]; [done|]. rewrite IH. case_bool_decide; [done|].
  f_equal. apply bind_resolved; [apply Hrs|]. intros p q Hpq. f_equal. apply list_bind_ext; [|done].
  intros x. by apply version_facts_proper.
Qed.
Lemma retire_gate_proper sh consent v (r s : Resolve) : pointwise_relation Z (≡) r s →
  retire_gate sh config r consent v = retire_gate sh config s consent v.
Proof. intros Hrs. unfold retire_gate. cbv zeta. by rewrite (below_policy_facts_proper sh r s Hrs _ _ eq_refl). Qed.
Lemma superseding_verdict_proper sh u status x f (r s : Resolve) : r u ≡ s u →
  superseding_verdict sh config r u status x f = superseding_verdict sh config s u status x f.
Proof.
  intros Hrs. unfold superseding_verdict. apply bind_resolved; [done|].
  intros p q Hpq. cbv zeta. by rewrite (copy_floor_base_proper _ _ Hpq), (short_of_copies_at_proper _ _ _ _ _ Hpq _ _ eq_refl _ _ eq_refl).
Qed.
Lemma mark_reclaimable_proper sh force consent u version (r s : Resolve) : pointwise_relation Z (≡) r s →
  mark_reclaimable sh config r force consent u version = mark_reclaimable sh config s force consent u version.
Proof.
  intros Hrs. unfold mark_reclaimable, assess. destruct (ok_or _ _); [|done]. cbn [mbind result_bind].
  destruct (guard_err _ AlreadyReclaimable); [|done]. cbn [mbind result_bind].
  destruct (superseding_of sh u version); [|done]. by rewrite (superseding_verdict_proper _ _ _ _ _ r s (Hrs _)).
Qed.

(** *** Staging's *)

Section staging.
Variables (r s : Resolve).
Hypothesis same : pointwise_relation Z (≡) r s.

Lemma bind_unit_policy {B} st u (f g : (Z * UnitRow) * ResolvedPolicy → result ReleaseError B) :
  (∀ x p q, p ≡ q → f (x, p) = g (x, q)) →
  (unit_and_policy r st u ≫= f) = (unit_and_policy s st u ≫= g).
Proof.
  intros Hf. unfold unit_and_policy. destruct (ok_or (units _ !! u) _) as [row|]; [|done]. cbn [mbind result_bind].
  destruct (ok_or (unit_by_name st _) _) as [unit|]; [|done]. cbn [mbind result_bind].
  pose proof (same unit.1) as Hs. destruct (r unit.1), (s unit.1); cbn in *; try done; [by apply Hf | by rewrite Hs].
Qed.
Lemma unit_copy_floor_proper st u : unit_copy_floor config r st u = unit_copy_floor config s st u.
Proof. unfold unit_copy_floor. apply bind_unit_policy. intros x p q Hpq. cbn [fst snd]. cbv zeta. by rewrite (copy_floor_base_proper _ _ Hpq). Qed.

Lemma judge_units_proper st hold gate ids : judge_units config r st hold gate ids = judge_units config s st hold gate ids.
Proof.
  induction ids as [|u ids IH]; cbn [judge_units]; [done|]. rewrite IH. f_equal.
  destruct (bool_decide (u ∈ gate)), hold; try done; apply bind_unit_policy; intros x p q Hpq; cbn [fst snd]; cbv zeta;
    by rewrite (copy_floor_base_proper _ _ Hpq), ?(short_of_copies_at_proper _ _ _ _ _ Hpq _ _ eq_refl _ _ eq_refl).
Qed.
Lemma under_copied_units_proper st ids : under_copied_units config r st ids = under_copied_units config s st ids.
Proof.
  induction ids as [|u ids IH]; cbn [under_copied_units]; [done|]. rewrite IH.
  apply bind_unit_policy. intros x p q Hpq. cbn [fst snd]. cbv zeta. by rewrite (copy_floor_base_proper _ _ Hpq).
Qed.

Variables (session_live : Z → bool) (commits : list Z → bool) (unlinks : File → bool)
  (meanwhile : StagingArea → StagingArea) (staging_dir : string).
Lemma release_each_proper sets report st :
  release_each session_live commits unlinks meanwhile staging_dir config r sets report st =
  release_each session_live commits unlinks meanwhile staging_dir config s sets report st.
Proof.
  revert report st. induction sets as [|[set u] sets IH]; intros report st; cbn [release_each]; [done|].
  rewrite unit_copy_floor_proper. destruct (unit_copy_floor config s st u); [|done].
  destruct (release_covered_slices _ _ _ _ _ _ _ _) as [[]?]; [|done]. by rewrite IH.
Qed.
Lemma release_if_covered_holding_proper ids hold st :
  release_if_covered_holding session_live commits unlinks meanwhile staging_dir config r ids hold st =
  release_if_covered_holding session_live commits unlinks meanwhile staging_dir config s ids hold st.
Proof.
  unfold release_if_covered_holding, release_ranges. rewrite judge_units_proper.
  destruct (judge_units _ _ _ _ _ _) as [[under held]|]; [|done]. cbv zeta.
  match goal with |- (let (_, _) := ?x in _) = _ => destruct x as [[cleaned|] st'] end; [|done]. by rewrite release_each_proper.
Qed.
Lemma stage_clean_proper force unit_names version st :
  stage_clean session_live commits unlinks meanwhile staging_dir config r force unit_names version st =
  stage_clean session_live commits unlinks meanwhile staging_dir config s force unit_names version st.
Proof.
  unfold stage_clean, under_copied_release_candidates, release_ranges. destruct (named_units st unit_names) as [ids|]; [|done].
  destruct (_ && _); [done|]. cbv zeta. rewrite under_copied_units_proper.
  destruct force; [done|]. destruct (under_copied_units _ _ _ _) as [under|]; [|done].
  destruct (clean_staging _ _ _ _ _ _ _ _) as [[cleaned|] st']; [|done]. by rewrite release_each_proper.
Qed.
End staging.
End gates.

(** ** The freeze *)

Section frozen.
Context `{!TomlCrate, !JsonCrate, JSON : !JsonLaws}.

(** The unit's row holds what its dotfile, which is there, says. *)
Definition frozen_now (disk : string → DotfileOnDisk) (u : Unit) : Prop :=
  ∃ d, read_dotfile (dotfile_of disk u) = Some d ∧ copies_at_frozen u = json_of_counts <$> ud_copies_at d.

Section freeze.
Variable (disk : string → DotfileOnDisk).

(** Every unit of a list, one after the other. *)
Fixpoint freeze_each (ids : list Z) (t : UnitTable) : option UnitTable :=
  match ids with
  | [] => Some t
  | id :: ids => u ← unit_rows t !! id; x ← freeze_copies_at disk id u t; freeze_each ids x.1
  end.

(** A row a freeze may leave: as it was, or holding what the dotfile says. *)
Definition refrozen (u u' : Unit) : Prop := u' = u ∨ frozen_now disk u' ∧ ∃ f, u' = with_frozen f u.

Lemma dotfile_of_frozen f u : dotfile_of disk (with_frozen f u) = dotfile_of disk u.
Proof. done. Qed.
Lemma refrozen_trans u v w : refrozen u v → refrozen v w → refrozen u w.
Proof.
  intros [->|[Hf [f ->]]] [->|[Hg [g ->]]]; [by left|right; eauto..].
Qed.
Lemma frozen_refrozen u u' : frozen_now disk u → refrozen u u' → frozen_now disk u'.
Proof. intros Hu [->|[? _]]; done. Qed.
Lemma refrozen_dotfile u u' : refrozen u u' → dotfile_of disk u' = dotfile_of disk u.
Proof. by intros [->|[_ [f ->]]]. Qed.

Lemma freeze_one id u t x : unit_rows t !! id = Some u → freeze_copies_at disk id u t = Some x →
  ∃ u', unit_rows x.1 = <[id := u']> (unit_rows t) ∧ refrozen u u' ∧ (dotfile_of disk u ≠ NoDotfile → frozen_now disk u').
Proof.
  intros Hu. unfold freeze_copies_at. destruct (dotfile_of disk u) as [| |text] eqn:Hd.
  { intros [= <-]. exists u. split; [by rewrite insert_id|]. split; [by left|done]. }
  { done. }
  destruct (read_dotfile (DotfileText text)) as [d|] eqn:Hr; [|done]. cbn [mbind option_bind]. unfold store_frozen_copies_at.
  case_bool_decide as Hs; intros [= <-]; cbn [fst].
  - exists u. split; [by rewrite insert_id|]. split; [by left|]. intros _. exists d. by rewrite Hd.
  - exists (with_frozen (json_of_counts <$> ud_copies_at d) u). cbn [unit_rows].
    assert (frozen_now disk (with_frozen (json_of_counts <$> ud_copies_at d) u)) as Hf.
    { exists d. by rewrite dotfile_of_frozen, Hd. }
    split; [|split; [right; eauto|done]].
    apply map_eq. intros k. destruct (decide (k = id)) as [->|Hk].
    + by rewrite lookup_alter_eq, lookup_insert_eq, Hu.
    + by rewrite lookup_alter_ne, lookup_insert_ne.
Qed.

Lemma freeze_each_spec ids t t' : freeze_each ids t = Some t' → ∀ id,
  match unit_rows t !! id, unit_rows t' !! id with
  | Some u, Some u' => refrozen u u' ∧ (id ∈ ids → dotfile_of disk u ≠ NoDotfile → frozen_now disk u')
  | None, None => True
  | _, _ => False
  end.
Proof.
  revert t. induction ids as [|i ids IH]; cbn; intros t.
  { intros [= <-] id. destruct (unit_rows t !! id); [|done]. split; [by left|]. intros Hin%not_elem_of_nil. done. }
  destruct (unit_rows t !! i) as [u|] eqn:Hu; [|done]. cbn.
  destruct (freeze_copies_at disk i u t) as [x|] eqn:Hx; [|done]. cbn. intros Hrest id.
  destruct (freeze_one _ _ _ _ Hu Hx) as (u' & Hrows & Hre & Hfr). specialize (IH _ Hrest id). rewrite Hrows in IH.
  destruct (decide (id = i)) as [->|Hne].
  - rewrite lookup_insert_eq in IH. rewrite Hu. destruct (unit_rows t' !! i) as [v|]; [|done]. destruct IH as [Hre' _].
    split; [by eapply refrozen_trans|]. intros _ Hp. eapply frozen_refrozen; [by apply Hfr|done].
  - rewrite lookup_insert_ne in IH by done. destruct (unit_rows t !! id), (unit_rows t' !! id); try done.
    destruct IH as [Hre' Hfr']. split; [done|]. intros Hin%elem_of_cons. apply Hfr'. by destruct Hin.
Qed.
End freeze.

(** ** A source that is gone *)

Variables (defaults : DefaultsConfig) (archive_sets : gmap Z ArchiveSet) (registered : gmap Z string).
Notation resolve := (resolve defaults archive_sets registered).

(** The two readers of a dotfile agree on its map. *)
Lemma dotfile_readers_agree disk u d l : read_dotfile (dotfile_of disk u) = Some d → dotfile_says disk u = Some l →
  l_copies_at l = with_names <$> ud_copies_at d ∧ l_min_copies l = None.
Proof.
  unfold dotfile_says. destruct (dotfile_of disk u) as [| |text]; cbn [read_dotfile]; try done.
  destruct (toml_table text) as [table|]; [|done]. unfold de_dotfile. destruct (known_fields _ table); [|done].
  destruct (field table "unit" _) as [us|]; [|done]. cbn [mbind option_bind]. unfold field_opt at 1.
  destruct (assoc "policy" table) as [v|].
  - unfold section_says. destruct (de_policy_section v) as [sec|]; [|done]. cbn.
    destruct (field_default table _ _ _) as [ex|]; [|done]. cbn. intros [= <-].
    destruct (heard _ (ps_checksum_mode sec)); [|done]. cbn. destruct (heard _ (ps_compression sec)); [|done]. cbn.
    destruct (heard _ (ps_slice_size sec)); [|done]. cbn. by intros [= <-].
  - cbn. destruct (field_default table _ _ _) as [ex|]; [|done]. cbn. intros [= <-] [= <-]. done.
Qed.

Lemma lost_source_says disk disk' u l : frozen_now disk u → dotfile_of disk' u = NoDotfile → dotfile_says disk u = Some l →
  ∃ l', dotfile_says disk' u = Some l' ∧ l_copies_at l' = l_copies_at l ∧ l_min_copies l' = l_min_copies l.
Proof.
  intros (d & Hr & Hf) Hlost Hl. destruct (dotfile_readers_agree _ _ _ _ Hr Hl) as [-> ->].
  unfold dotfile_says. rewrite Hlost, Hf. destruct (ud_copies_at d) as [m|]; cbn; [|by exists silent].
  rewrite json_round_trip. by exists (targets_only m).
Qed.

Lemma lost_source_resolves disk disk' u p : frozen_now disk u → dotfile_of disk' u = NoDotfile → resolve disk u = Ok p →
  ∃ p', resolve disk' u = Ok p' ∧ p' ≡ p.
Proof.
  intros Hf Hlost (d & a & b & keyed & Hd & Ha & Hb & Hl & Hs)%resolve_layers.
  destruct (lost_source_says _ _ _ _ Hf Hlost Hd) as (d' & Hd' & Hc & Hm).
  pose proof (passes_spec defaults archive_sets disk' u) as Hpass. rewrite resolve_passes.
  destruct (defaults_layer defaults) as [s|]; cbn in *; [|naive_solver].
  destruct (archive_set_layer archive_sets (archive_set_id u) s) as [s'|]; cbn in *; [|naive_solver].
  destruct (top_passes disk' u s') as [s''|]; cbn in *; [|naive_solver].
  destruct Hpass as (d'' & a' & b' & Hd'' & Ha' & Hb' & Hl'). simplify_eq.
  pose proof (of_copies_at _ _ _ Hl) as HC. pose proof (of_copies_at _ _ _ Hl') as HC'.
  pose proof (of_min_copies _ _ _ Hl) as HM. pose proof (of_min_copies _ _ _ Hl') as HM'.
  rewrite first_set_cons in HC. rewrite first_set_cons in HM. rewrite first_set_cons, Hc, HC in HC'. rewrite first_set_cons, Hm, HM in HM'. injection HC' as HC' Hk. injection HM' as HM'.
  exists (policy s''). split; [|by split]. rewrite (proj2 (check_copies_at_ok registered _ _)); [done|]. by rewrite <- HC', <- Hk.
Qed.

(** The policy of a unit of the table, for a command. *)
Definition policy_at (disk : string → DotfileOnDisk) (t : UnitTable) (id : Z) : result (option Unresolvable) ResolvedPolicy :=
  match unit_rows t !! id with Some u => map_err Some (resolve disk u) | None => Err None end.

(** What may have become of a unit's source since: its dotfile is as it was,
    or is gone after a freeze of a unit whose policy resolved. *)
Definition source_kept_or_frozen (disk disk' : string → DotfileOnDisk) (ids : list Z) (id : Z) (u : Unit) : Prop :=
  dotfile_of disk' u = dotfile_of disk u ∨
  dotfile_of disk' u = NoDotfile ∧ id ∈ ids ∧ dotfile_of disk u ≠ NoDotfile ∧ ∃ p, resolve disk u = Ok p.

(** Where the dotfile is there, the frozen map is not read. *)
Lemma resolve_refrozen disk disk' u u' : refrozen disk u u' → dotfile_of disk' u' = dotfile_of disk u →
  resolve disk' u' = resolve disk u.
Proof.
  intros Hre Hd. assert (archive_set_id u' = archive_set_id u) as Ha by (by destruct Hre as [->|[_ [f ->]]]).
  unfold Policy.resolve, dotfile_layer. rewrite Ha, Hd. destruct Hre as [->|[(d & Hr & _) [f ->]]]; [done|].
  change (dotfile_of disk (with_frozen f u)) with (dotfile_of disk u) in Hr.
  destruct (dotfile_of disk u) as [| |text]; [done..|].
  destruct (defaults_layer defaults) as [s|]; [|done]. cbn [mbind result_bind].
  destruct (archive_set_layer _ _ s) as [s'|]; [|done]. cbn [mbind result_bind].
  destruct (toml_table text) as [table|]; [|done]. cbn [map_err mbind result_bind].
  destruct (List.find _ table); [done|]. destruct (assoc "policy" table); [|done].
  by destruct (policy_table s' t).
Qed.

Lemma policies_survive disk disk' ids t t' : freeze_each disk ids t = Some t' →
  (∀ id u, unit_rows t !! id = Some u → source_kept_or_frozen disk disk' ids id u) →
  pointwise_relation Z (≡) (policy_at disk' t') (policy_at disk t).
Proof.
  intros Hfz Hsrc id. pose proof (freeze_each_spec disk ids t t' Hfz id) as Hid. unfold policy_at.
  destruct (unit_rows t !! id) as [u|] eqn:Hu, (unit_rows t' !! id) as [u'|]; try done.
  destruct Hid as [Hre Hfr]. destruct (Hsrc id u Hu) as [Hsame|(Hgone & Hin & Hthere & p & Hp)].
  - rewrite (resolve_refrozen disk disk' u u' Hre); [done|].
    assert (dotfile_of disk' u' = dotfile_of disk' u) as -> by (by destruct Hre as [->|[_ [f ->]]]). done.
  - assert (dotfile_of disk' u' = NoDotfile) as Hgone' by (by destruct Hre as [->|[_ [f ->]]]).
    rewrite <- (resolve_refrozen disk disk u u' Hre) in Hp by by eapply refrozen_dotfile.
    destruct (lost_source_resolves disk disk' u' p (Hfr Hin Hthere) Hgone' Hp) as (p' & -> & Hpp).
    rewrite (resolve_refrozen disk disk u u' Hre) in Hp by by eapply refrozen_dotfile. by rewrite Hp.
Qed.
End frozen.

(** C12: After the units of a list are frozen, each dotfile that was there may
    go with its source, where the unit's policy resolved before: whether a volume may be retired, whether a version
    may be released, and what a release of staged data gives up are what they
    were, since a unit's floor and its targets are. *)
Theorem lost_sources_keep_verdicts `{!TomlCrate, !JsonCrate, !JsonLaws} defaults archive_sets registered config disk disk' ids t t' :
  freeze_each disk ids t = Some t' →
  (∀ id u, unit_rows t !! id = Some u → source_kept_or_frozen defaults archive_sets registered disk disk' ids id u) →
  let before := policy_at defaults archive_sets registered disk t in
  let after := policy_at defaults archive_sets registered disk' t' in
  (∀ consent v meanwhile sh, volume_retire config after consent v meanwhile sh = volume_retire config before consent v meanwhile sh) ∧
  (∀ force consent u version sh, mark_reclaimable sh config after force consent u version = mark_reclaimable sh config before force consent u version) ∧
  (∀ live commits unlinks meanwhile dir units hold st,
     release_if_covered_holding live commits unlinks meanwhile dir config after units hold st
     = release_if_covered_holding live commits unlinks meanwhile dir config before units hold st) ∧
  (∀ live commits unlinks meanwhile dir force names version st,
     stage_clean live commits unlinks meanwhile dir config after force names version st
     = stage_clean live commits unlinks meanwhile dir config before force names version st).
Proof.
  intros Hfz Hsrc before after. pose proof (policies_survive defaults archive_sets registered disk disk' ids t t' Hfz Hsrc) as Hsame.
  split; [|split; [|split]]; intros.
  - unfold volume_retire. by rewrite (retire_gate_proper config sh consent v after before Hsame).
  - by apply mark_reclaimable_proper.
  - by apply release_if_covered_holding_proper.
  - by apply stage_clean_proper.
Qed.

(** ** The interval of a volume *)

Section interval.
Context `{!TomlCrate, !JsonCrate}.
Variables (defaults : DefaultsConfig) (archive_sets : gmap Z ArchiveSet) (registered : gmap Z string) (disk : string → DotfileOnDisk).

Lemma dotfile_has_no_interval u l : dotfile_says disk u = Some l → l_verify_interval_days l = None.
Proof.
  unfold dotfile_says. destruct (dotfile_of disk u) as [| |text]; [|done|].
  - destruct (copies_at_frozen u) as [text|]; [|by intros [= <-]]. destruct (json_counts text); [|done]. by intros [= <-].
  - destruct (toml_table text) as [table|]; [|done]. destruct (known_fields _ table); [|done].
    destruct (assoc "policy" table) as [v|]; [|by intros [= <-]]. unfold section_says. destruct (de_policy_section v) as [sec|]; [|done].
    cbn. destruct (heard _ (ps_checksum_mode sec)); [|done]. cbn. destruct (heard _ (ps_compression sec)); [|done]. cbn.
    destruct (heard _ (ps_slice_size sec)); [|done]. cbn. by intros [= <-].
Qed.

(** A unit's interval is its set's, else the defaults'. *)
Lemma resolved_interval u p : resolve defaults archive_sets registered disk u = Ok p →
  verify_interval_days p =
    match archive_set_id u ≫= λ a, archive_sets !! a with
    | Some row => match as_verify_interval_days row with Some d => Some d | None => Some (d_verify_interval_days defaults) end
    | None => Some (d_verify_interval_days defaults)
    end.
Proof.
  intros (d & a & b & keyed & Hd & Ha & Hb & Hl & _)%resolve_layers. rewrite <- (of_verify _ _ _ Hl).
  rewrite first_set_cons, (dotfile_has_no_interval _ _ Hd), !first_set_cons.
  assert (l_verify_interval_days b = Some (d_verify_interval_days defaults)) as ->.
  { revert Hb. unfold defaults_say. destruct (parse_size_to_bytes _); [|done]. by intros [= <-]. }
  revert Ha. unfold set_says. destruct (archive_set_id u) as [id|]; cbn; [|by intros [= <-]].
  destruct (archive_sets !! id) as [row|]; [|done]. cbn. destruct (heard json_strings _); [|done]. cbn.
  destruct (heard json_counts _); [|done]. cbn. intros [= <-]. cbn. by destruct (as_verify_interval_days row).
Qed.
End interval.

(** The unit a write on the volume put there, unless the end of the tape cut it. *)
Definition unit_written (unit_rows : gmap Z Unit) (sh : Shelves) (v : Z) (w : WriteRow) : option Unit :=
  if bool_decide (volume_id w = v ∧ write_status w ≠ WCut)
  then version ← version_of sh !! snapshot_id w; unit_rows !! version.1 else None.

(** The interval a volume answers to, read off the archive sets without a
    dotfile, is the least among the resolved policies of the units written to
    it, whatever the status of the write, cut ones apart. *)
Theorem volume_interval_is_the_tightest `{!TomlCrate, !JsonCrate} defaults archive_sets registered disk unit_rows sh v :
  (∀ id w u, writes (ledger_of sh) !! id = Some w → unit_written unit_rows sh v w = Some u →
    ∃ p, resolve defaults archive_sets registered disk u = Ok p) →
  volume_verify_interval_days archive_sets unit_rows sh v (Some (d_verify_interval_days defaults)) =
  minZ (omap (λ w : Z * WriteRow,
    u ← unit_written unit_rows sh v w.2;
    match resolve defaults archive_sets registered disk u with Ok p => verify_interval_days p | Err _ => None end)
    (map_to_list (writes (ledger_of sh)))).
Proof.
  intros Hres. unfold volume_verify_interval_days. f_equal.
  assert (∀ id w, (id, w) ∈ map_to_list (writes (ledger_of sh)) → writes (ledger_of sh) !! id = Some w) as Hin
    by (intros id w; apply elem_of_map_to_list).
  revert Hin. generalize (map_to_list (writes (ledger_of sh))). intros l.
  induction l as [|[id w] l IH]; intros Hin; [done|]. cbn [omap list_omap snd].
  rewrite IH by (intros; apply Hin; by right). specialize (Hres id w).
  unfold unit_written in *. case_bool_decide; [|done]. destruct (version_of sh !! snapshot_id w) as [version|]; [|done]. cbn in *.
  destruct (unit_rows !! version.1) as [u|]; [|done]. cbn.
  destruct (Hres u (Hin id w ltac:(left)) eq_refl) as [p Hp]. rewrite Hp, (resolved_interval _ _ _ _ _ _ Hp).
  destruct (archive_set_id u) as [a|]; cbn; [|done]. by destruct (archive_sets !! a).
Qed.
