(* ===== verification/CompactRead.v ===== *)
(** * Live slices read back into staging: [compact_read] of
    src/volume/write.rs

    The slices of a volume's live versions are read off its tape into a
    directory of their own, each matched against its recorded hash; the
    stage sets read whole are staged again, and a read that does not finish
    takes back what it wrote. *)

From stdpp Require Import pretty.
From S2P Require Import Prelude LayoutModel Session Ledger Coverage Release Staging.
Local Open Scope Z_scope.

(** The staging area with what its files' bytes hash to, and what
    [stage_slices.sha256_encrypted] says they should. *)
Record Bench : Type := mkBench {
  area : StagingArea;
  file_sha256 : gmap File string;
  slice_sha256 : gmap Z string;
}.
Definition with_area (a : StagingArea) (b : Bench) : Bench := mkBench a (file_sha256 b) (slice_sha256 b).
Definition shelves_in (b : Bench) : Shelves := shelves_of (area b).
Definition ledger_on (b : Bench) : Ledger := ledger_in (area b).

(** [UPDATE stage_slices SET staging_path, released_at]. *)
Definition set_path (slice : Z) (path : option File) (released : bool) (a : StagingArea) : StagingArea :=
  mkStagingArea (shelves_of a) (set_status a) (num_slices a)
    (match path with Some f => <[slice := f]> (staging_path a) | None => delete slice (staging_path a) end)
    (if released then {[slice]} ∪ released_at a else released_at a ∖ {[slice]}) (rewrites a) (unit_uuid a) (disk a).
Definition set_set_status (f : gmap Z SetStatus → gmap Z SetStatus) (a : StagingArea) : StagingArea :=
  mkStagingArea (shelves_of a) (f (set_status a)) (num_slices a) (staging_path a) (released_at a) (rewrites a) (unit_uuid a) (disk a).
Definition put_file (f : File) (size : Z) (sha : string) (b : Bench) : Bench :=
  mkBench (with_disk (<[f := size]> (disk (area b))) (area b)) (<[f := sha]> (file_sha256 b)) (slice_sha256 b).
Definition drop_file (f : File) (b : Bench) : Bench := with_area (with_disk (delete f (disk (area b))) (area b)) b.

(** ** What is live on a volume *)

Record RecoverySlice : Type := mkRecovery {
  rs_position : Z;
  sha_on_volume : string;
  rs_bytes : Z;
  sha_encrypted : string;
  rs_set : Z;
  rs_slice : Z;
}.
Definition by_tape_position (a b : RecoverySlice) : Prop := rs_position a ≤ rs_position b.
#[export] Instance by_tape_position_dec : RelDecision by_tape_position.
Proof. intros a b. unfold by_tape_position. apply _. Defined.

(** The rows of a volume's live slices: position row, write, slice. *)
Definition live_rows (b : Bench) (v : Z) : list ((Z * Z) * PositionRow * StageSlice) :=
  omap (λ kr : (Z * Z) * PositionRow,
    w ← writes (ledger_on b) !! kr.1.1;
    sl ← stage_slices (ledger_on b) !! kr.1.2;
    snapshot ← set_snapshot (shelves_in b) !! stage_set_id w;
    if bool_decide (volume_id w = v) && bool_decide (write_status w = WCompleted) && bool_decide (row_status kr.2 = PWritten)
       && live (shelves_in b) snapshot then Some (kr, sl) else None) (map_to_list (write_positions (ledger_on b))).
(** [None]: a column a row needs is NULL. *)
Definition recovery_row (b : Bench) (x : (Z * Z) * PositionRow * StageSlice) : option RecoverySlice :=
  on_volume ← sha256_on_volume x.1.2;
  bytes ← encrypted_bytes (shelves_in b) !! x.1.1.2;
  sha ← slice_sha256 b !! x.1.1.2;
  Some (mkRecovery (row_position x.1.2) on_volume bytes sha (slice_set_id x.2) x.1.1.2).
Definition live_recovery_slices (b : Bench) (v : Z) : option (list RecoverySlice) :=
  merge_sort by_tape_position <$> mapM (recovery_row b) (live_rows b v).

(** [refuse_range_holder]: a range recorded on the volume. *)
Definition holds_range (sh : Shelves) (v : Z) : bool :=
  existsb (λ kr : Z * WriteRow,
    bool_decide (volume_id kr.2 = v) && bool_decide (write_status kr.2 = WRange)
    && match version_row sh (stage_set_id kr.2) with Some x => bool_decide (is_Some (units sh !! x.1)) | None => false end
    && existsb (λ p : (Z * Z) * PositionRow, bool_decide (p.1.1 = kr.1) && bool_decide (row_status p.2 = PWritten)
                  && bool_decide (is_Some (stage_slices (ledger_of sh) !! p.1.2))) (map_to_list (write_positions (ledger_of sh))))
    (map_to_list (writes (ledger_of sh))).

(** ** The read *)

Record StagedFile : Type := mkStagedFile {
  st_slice : Z;
  st_set : Z;
  st_path : File;
  st_prior : option File;
  prior_released : bool;
}.
Record CompactReadReport : Type := mkReadReport {
  slices_skipped : Z;
  staged_sets : list Z;
  staged : list StagedFile;
}.
Inductive CompactReadError : Type :=
| RangeHeld
| WrongTape
| RowUnread
| NothingLive
| ReadStopped
| NoFile
| TapeUnread
| CatalogFailed
| NotEverySet (left_alone : list Z)
| LineUnread (left_alone : list Z).

(** The statements a read runs once it is under way: the row of a slice it has
    read and the update of it, the transaction that stages the sets, the row
    undo puts back, and the query behind a line of the message. *)
Inductive ReadStatement : Type :=
| ReadRow (slice : Z)
| RecordPath (slice : Z)
| PromoteSets
| RestorePath (slice : Z)
| LineOf (set : Z).

Section read.
(** Whether the tape in the drive is the volume's; whether a signal has come
    when a slice is due; whether a file (or a directory, as its file of no
    name) can be created, or a file removed; what the tape gives of a file, cut
    to a length: its hash and size, or an error; which statements the catalog
    runs. *)
Variables (contact_ok : Z → bool) (signalled : Z → bool) (creates unlinks : File → bool)
  (tape : Z → Z → option (string * Z)) (runs : ReadStatement → bool).

Definition remove_file (f : File) (b : Bench) : Bench := if unlinks f then drop_file f b else b.

(** [StagedRun::undo], of the files of some sets. *)
Definition undo_one (b : Bench) (x : StagedFile) : Bench :=
  let b := remove_file (st_path x) b in
  let restored := match st_prior x with Some p => if bool_decide (p = st_path x) then None else Some p | None => None end in
  if runs (RestorePath (st_slice x)) then with_area (set_path (st_slice x) restored (prior_released x) (area b)) b else b.
Definition undo (run : list StagedFile) (sets : option (list Z)) (b : Bench) : Bench :=
  foldl undo_one b (filter (λ x, match sets with Some l => bool_decide (st_set x ∈ l) | None => true end = true) run).

(** [StagedRun::record]: the run's list first, then the row. *)
Definition record_staged (s : RecoverySlice) (path : File) (run : list StagedFile) (b : Bench)
    : result CompactReadError () * list StagedFile * Bench :=
  if negb (runs (ReadRow (rs_slice s))) then (Err CatalogFailed, run, b)
  else
    let run := run ++ [mkStagedFile (rs_slice s) (rs_set s) path (staging_path (area b) !! rs_slice s) (bool_decide (rs_slice s ∈ released_at (area b)))] in
    if negb (runs (RecordPath (rs_slice s))) then (Err CatalogFailed, run, b)
    else (Ok (), run, with_area (set_path (rs_slice s) (Some path) false (area b)) b).

Definition slice_file (slice : Z) : string := ("slice_" +:+ pretty slice +:+ ".dat")%string.
Definition slice_path (compact_dir : string) (s : RecoverySlice) : File := (compact_dir, slice_file (rs_slice s)).

(** The slices one after the other: the files staged and the sets of the
    slices that did not match; on an error what was staged so far. *)
Fixpoint compact_read_into (compact_dir : string) (slices : list RecoverySlice) (run : list StagedFile) (skipped : list Z) (b : Bench)
    : result CompactReadError (list Z) * list StagedFile * Bench :=
  match slices with
  | [] => (Ok skipped, run, b)
  | s :: slices =>
      let path := slice_path compact_dir s in
      if signalled (rs_slice s) then (Err ReadStopped, run, b)
      else if negb (creates path) then (Err NoFile, run, b)
      else match tape (rs_position s) (rs_bytes s) with
           | None => (Err TapeUnread, run, remove_file path (put_file path 0 "" b))
           | Some (sha, size) =>
               let b := put_file path size sha b in
               if bool_decide (sha = sha_on_volume s ∨ sha = sha_encrypted s) then
                 match record_staged s path run b with
                 | (Err e, run, b) => (Err e, run, b)
                 | (Ok _, run, b) => compact_read_into compact_dir slices run skipped b
                 end
               else compact_read_into compact_dir slices run (skipped ++ [rs_set s]) (remove_file path b)
           end
  end.

Definition sets_read (run : list StagedFile) : list Z := merge_sort Z.le (remove_dups (st_set <$> run)).
Definition read_whole (b : Bench) (run : list StagedFile) (skipped : list Z) (set : Z) : bool :=
  negb (bool_decide (set ∈ skipped))
  && bool_decide (length (filter (λ x, st_set x = set) run) = length (slices_of set (ledger_on b))).
(** [UPDATE stage_sets SET status = 'staged'] of a staged or cleaned set. *)
Definition promote_set (set : Z) (a : StagingArea) : StagingArea :=
  set_set_status (alter (λ s, if bool_decide (s ∈ [SetStaged; SetCleaned]) then SetStaged else s) set) a.

Definition compact_dir_of (staging_dir label : string) : string := (staging_dir +:+ "/compact-" +:+ label)%string.
Definition compact_read (staging_dir label : string) (v : Z) (b : Bench) : result CompactReadError CompactReadReport * Bench :=
  if holds_range (shelves_in b) v then (Err RangeHeld, b)
  else if negb (contact_ok v) then (Err WrongTape, b)
  else match live_recovery_slices b v with
       | None => (Err RowUnread, b)
       | Some [] => (Err NothingLive, b)
       | Some slices =>
           let dir := compact_dir_of staging_dir label in
           if negb (creates (dir, EmptyString)) then (Err NoFile, b)
           else match compact_read_into dir slices [] [] b with
           | (Err e, run, b) => (Err e, undo run None b)
           | (Ok skipped, run, b) =>
               let whole := filter (λ set, read_whole b run skipped set = true) (sets_read run) in
               let left_alone := merge_sort Z.le (remove_dups (skipped ++ filter (λ set, read_whole b run skipped set = false) (sets_read run))) in
               if negb (runs PromoteSets) then (Err CatalogFailed, undo run None b)
               else
                 let b := with_area (foldl (λ a set, promote_set set a) (area b) whole) b in
                 if bool_decide (left_alone = []) then
                   (Ok (mkReadReport (Z.of_nat (length skipped)) whole run), b)
                 else
                   (Err (if forallb (λ set, runs (LineOf set)) left_alone then NotEverySet left_alone else LineUnread left_alone),
                    undo run (Some left_alone) b)
           end
       end.
End read.
