(* ===== verification/CompactReadSound.v ===== *)
(** * What a compaction's read stages

    A read that ends well has staged every live slice of the volume under its
    own name, hashes matched, and every slice of each set it tells; a read cut
    short leaves the catalog as it was. *)

From stdpp Require Import pretty.
From S2P Require Import Prelude LayoutModel Session SessionEnd Ledger LedgerSound AdoptSound Coverage CoverageSound Release Staging StagingGate StagingSound CompactRead.
Local Open Scope Z_scope.

Lemma slice_file_inj i j : slice_file i = slice_file j → i = j.
Proof.
  unfold slice_file. intros Heq.
  assert (∀ x y : string, ("slice_" +:+ x)%string = ("slice_" +:+ y)%string → x = y) as Hcut by (intros x y [=]; done).
  apply Hcut, (split_unique (ascii_of_byte 46)) in Heq as [Heq _]; [|by apply pretty_Z_mark; right..]. by apply (inj (pretty (A := Z))).
Qed.

Section into.
Variables (signalled : Z → bool) (creates unlinks : File → bool) (tape : Z → Z → option (string * Z)) (runs : ReadStatement → bool).
Variables (compact_dir : string).
Notation compact_read_into := (compact_read_into signalled creates unlinks tape runs compact_dir).
Notation slice_path := (slice_path compact_dir).

Lemma slice_path_inj s s' : slice_path s = slice_path s' → rs_slice s = rs_slice s'.
Proof. intros Heq. by apply slice_file_inj, (f_equal snd Heq). Qed.

(** What a read's slices leave alone. *)
Record same_but_paths (b b' : Bench) : Prop := {
  sb_shelves : shelves_of (area b') = shelves_of (area b);
  sb_status : set_status (area b') = set_status (area b);
  sb_num : num_slices (area b') = num_slices (area b);
  sb_rewrites : rewrites (area b') = rewrites (area b);
  sb_uuid : unit_uuid (area b') = unit_uuid (area b);
  sb_hashes : slice_sha256 b' = slice_sha256 b;
}.
#[export] Instance same_but_paths_preorder : PreOrder same_but_paths.
Proof. split; [by split|]. intros a b c [] []. split; congruence. Qed.

(** The slice's file as the read left it. *)
Definition read_in (b : Bench) (s : RecoverySlice) : Prop :=
  staging_path (area b) !! rs_slice s = Some (slice_path s) ∧
  ∃ size sha, disk (area b) !! slice_path s = Some size ∧ file_sha256 b !! slice_path s = Some sha ∧
    (sha = sha_on_volume s ∨ sha = sha_encrypted s).
Definition tells (s : RecoverySlice) (x : StagedFile) : Prop := st_slice x = rs_slice s ∧ st_set x = rs_set s ∧ st_path x = slice_path s.

(** A slice's row as it was; and recorded at the file the run gave it. *)
Definition row_kept (b b' : Bench) (i : Z) : Prop :=
  staging_path (area b') !! i = staging_path (area b) !! i ∧ (i ∈ released_at (area b') ↔ i ∈ released_at (area b)).
Lemma row_kept_trans b b1 b2 i : row_kept b b1 i → row_kept b1 b2 i → row_kept b b2 i.
Proof. intros [H1 H2] [K1 K2]. split; [by rewrite K1|by rewrite K2]. Qed.
Definition staged_at (f : File) (b : Bench) (i : Z) : Prop := staging_path (area b) !! i = Some f ∧ i ∉ released_at (area b).

(** The bench with files of the directory changed, and its rows as they were. *)
Definition same_rows (b b' : Bench) : Prop :=
  same_but_paths b b' ∧ staging_path (area b') = staging_path (area b) ∧ released_at (area b') = released_at (area b) ∧
  ∀ f, f.1 ≠ compact_dir → disk (area b') !! f = disk (area b) !! f.
Lemma put_same_rows s size sha b : same_rows b (put_file (slice_path s) size sha b).
Proof. split; [by split|]. split; [done|]. split; [done|]. intros f Hf. cbn. apply lookup_insert_ne. by intros <-. Qed.
Lemma remove_same_rows s b : same_rows b (remove_file unlinks (slice_path s) b).
Proof.
  unfold remove_file. destruct (unlinks _); [|by split]. split; [by split|]. split; [done|]. split; [done|].
  intros f Hf. cbn. apply lookup_delete_ne. by intros <-.
Qed.
Lemma same_rows_trans b b1 b2 : same_rows b b1 → same_rows b1 b2 → same_rows b b2.
Proof. intros (H1 & H2 & H3 & H4) (G1 & G2 & G3 & G4). split; [by etrans|]. split; [congruence|]. split; [congruence|]. intros f Hf. by rewrite G4, H4. Qed.
Lemma removed_only s size sha f b : f ≠ slice_path s → let b' := remove_file unlinks (slice_path s) (put_file (slice_path s) size sha b) in
  disk (area b') !! f = disk (area b) !! f ∧ file_sha256 b' !! f = file_sha256 b !! f.
Proof.
  intros Hf. cbn. unfold remove_file. destruct (unlinks _); cbn; rewrite ?lookup_delete_ne, ?lookup_insert_ne by done; done.
Qed.

(** A read that comes to the end of its slices has some of them on its list,
    each with its row at its file and the file as it should read; all of them,
    where none was skipped. *)
Lemma into_ok slices run sk b sk' run' b' : NoDup (rs_slice <$> slices) → compact_read_into slices run sk b = (Ok sk', run', b') →
  same_but_paths b b' ∧ ∃ new good, run' = run ++ new ∧ good `sublist_of` slices ∧ Forall2 tells good new ∧
  (∀ s, s ∈ good → read_in b' s ∧ rs_slice s ∉ released_at (area b')) ∧ (∀ i, i ∉ rs_slice <$> good → row_kept b b' i) ∧
  (∀ f, f ∉ slice_path <$> slices → disk (area b') !! f = disk (area b) !! f ∧ file_sha256 b' !! f = file_sha256 b !! f) ∧
  (sk' = [] → sk = [] ∧ good = slices) ∧ sk ⊆ sk' ∧ (∀ s, s ∈ slices → s ∈ good ∨ rs_set s ∈ sk').
Proof.
  revert run sk b. induction slices as [|s slices IH]; intros run sk b; cbn [CompactRead.compact_read_into fmap list_fmap].
  { intros _ [= <- <- <-]. split; [done|]. exists [], []. split; [by rewrite app_nil_r|]. split; [done|]. split; [done|].
    split; [by intros s Hs%not_elem_of_nil|]. do 4 (split; [done|]). by intros s Hs%not_elem_of_nil. }
  intros [Hni Hnd]%NoDup_cons. destruct (signalled _); [done|]. destruct (negb _); [done|].
  destruct (tape _ _) as [[sha size]|]; [|done].
  assert (slice_path s ∉ slice_path <$> slices) as Hf.
  { intros (s' & Heq%slice_path_inj & Hs')%list_elem_of_fmap. apply Hni. rewrite Heq. by apply list_elem_of_fmap_2. }
  case_bool_decide as Hsha.
  2: { intros Hr. destruct (IH _ _ _ Hnd Hr) as (Hsame & new & good & -> & Hsub & Hnew & Hin & Hpath & Hdisk & Hsk & Hle & Hall).
    destruct (remove_same_rows s (put_file (slice_path s) size sha b)) as (R1 & R2 & R3 & R4).
    split; [etrans; [|exact Hsame]; destruct R1; by split|]. exists new, good. split; [done|]. split; [by apply sublist_cons|]. split; [done|]. split; [done|].
    split; [intros i Hi; destruct (Hpath i Hi) as [H1 H2]; rewrite R2 in H1; by rewrite R3 in H2|].
    split; [|split; [by intros Hn; destruct (Hsk Hn) as [[_ [=]]%app_nil _]|]].
    2: { split; [set_solver|]. intros x [->|Hx]%elem_of_cons; [right; set_solver|by apply Hall]. }
    intros f [Hne Hni']%not_elem_of_cons. destruct (Hdisk f Hni') as [-> ->]. by apply removed_only. }
  unfold record_staged. destruct (negb (runs (ReadRow _))); [done|]. destruct (negb (runs (RecordPath _))); [done|]. intros Hr.
  destruct (IH _ _ _ Hnd Hr) as (Hsame & new & good & -> & Hsub & Hnew & Hin & Hpath & Hdisk & Hsk & Hle & Hall).
  assert (rs_slice s ∉ rs_slice <$> good) as Hng.
  { intros (s' & Heq & Hs')%list_elem_of_fmap. apply Hni. rewrite Heq. apply list_elem_of_fmap_2. by eapply elem_of_sublist. }
  split; [destruct Hsame; by split|]. eexists (_ :: new), (s :: good). split; [by rewrite <- app_assoc|]. split; [by apply sublist_skip|]. split; [by constructor|].
  split; [|split; [|split; [|split; [by intros Hn; destruct (Hsk Hn) as [-> ->]|split; [done|]]]]].
  4: { intros x [->|Hx]%elem_of_cons; [left; left|]. destruct (Hall x Hx); [left; by right|by right]. }
  - intros x [->|Hx]%elem_of_cons; [|by apply Hin]. destruct (Hpath _ Hng) as [Hp Hrel]. unfold read_in. rewrite Hp, Hrel. destruct (Hdisk _ Hf) as [-> ->].
    cbn. rewrite !lookup_insert_eq. split; [|set_solver]. split; [done|]. by exists size, sha.
  - intros i [Hne Hi]%not_elem_of_cons. destruct (Hpath i Hi) as [H1 H2]. unfold row_kept. rewrite H1, H2. cbn. rewrite lookup_insert_ne by done. set_solver.
  - intros f [Hne Hni']%not_elem_of_cons. destruct (Hdisk f Hni') as [-> ->]. cbn. by rewrite !lookup_insert_ne.
Qed.

(** What the run remembers of a slice, to put it back. *)
Definition remembers (b : Bench) (x : StagedFile) : Prop :=
  st_prior x = staging_path (area b) !! st_slice x ∧ prior_released x = bool_decide (st_slice x ∈ released_at (area b)).

Record read_so_far (b b' : Bench) (new : list StagedFile) (slices : list RecoverySlice) : Prop := {
  far_same : same_but_paths b b';
  far_nodup : NoDup (st_slice <$> new);
  far_of : ∀ x, x ∈ new → ∃ s, s ∈ slices ∧ tells s x;
  far_remembers : ∀ x, x ∈ new → remembers b x;
  far_kept : ∀ i, i ∉ st_slice <$> new → row_kept b b' i;
  far_row : ∀ x, x ∈ new → row_kept b b' (st_slice x) ∨ staged_at (st_path x) b' (st_slice x);
  far_disk : ∀ f, f.1 ≠ compact_dir → disk (area b') !! f = disk (area b) !! f;
}.
Lemma far_slices b b' new slices i : read_so_far b b' new slices → i ∈ st_slice <$> new → i ∈ rs_slice <$> slices.
Proof. intros H (x & -> & Hx)%list_elem_of_fmap. destruct (far_of _ _ _ _ H x Hx) as (s & Hs & -> & _). by apply list_elem_of_fmap_2. Qed.
Lemma far_nothing b b' slices : same_rows b b' → read_so_far b b' [] slices.
Proof.
  intros (H1 & H2 & H3 & H4). split; [done|constructor|by intros i Hi%not_elem_of_nil|by intros x Hx%not_elem_of_nil| |by intros x Hx%not_elem_of_nil|done].
  intros i _. split; [by rewrite H2|by rewrite H3].
Qed.
Lemma read_so_far_from b b1 b' new slices s : same_rows b b1 → read_so_far b1 b' new slices → read_so_far b b' new (s :: slices).
Proof.
  intros (H1 & H2 & H3 & H4) [G1 G2 G3 G4 G5 G6 G7].
  assert (∀ i, row_kept b1 b' i → row_kept b b' i) as Hk by (intros i; unfold row_kept; by rewrite H2, H3).
  split; [by etrans|done| | | | |].
  - intros x Hx. destruct (G3 x Hx) as (y & Hy & Ht). exists y. split; [by right|done].
  - intros x Hx. destruct (G4 x Hx) as (K1 & K2). rewrite H2 in K1. by rewrite H3 in K2.
  - intros i Hi. by apply Hk, G5.
  - intros x Hx. destruct (G6 x Hx); [left; by apply Hk|by right].
  - intros f Hf. by rewrite G7, H4.
Qed.

(** A slice recorded, and then others. *)
Lemma read_so_far_cons b b' new slices s : rs_slice s ∉ rs_slice <$> slices →
  read_so_far (with_area (set_path (rs_slice s) (Some (slice_path s)) false (area b)) b) b' new slices →
  read_so_far b b' (mkStagedFile (rs_slice s) (rs_set s) (slice_path s) (staging_path (area b) !! rs_slice s) (bool_decide (rs_slice s ∈ released_at (area b))) :: new) (s :: slices).
Proof.
  intros Hni Hfar. pose proof (far_slices _ _ _ _ (rs_slice s) Hfar) as Hin. destruct Hfar as [G1 G2 G3 G4 G5 G6 G7]. cbn -[slice_path] in *.
  assert (∀ i, i ≠ rs_slice s → row_kept (with_area (set_path (rs_slice s) (Some (slice_path s)) false (area b)) b) b' i → row_kept b b' i) as Hk.
  { intros i Hne [H1 H2]. unfold row_kept. rewrite H1, H2. cbn. rewrite lookup_insert_ne by done. set_solver. }
  assert (∀ x, x ∈ new → st_slice x ≠ rs_slice s) as Hne.
  { intros x Hx Heq. apply Hni, Hin. rewrite <- Heq. by apply list_elem_of_fmap_2. }
  split; [destruct G1; by split| | | | | |done].
  - rewrite fmap_cons. apply NoDup_cons. split; [|done]. cbn. intros Hi. by apply Hni, Hin.
  - intros x [->|Hx]%elem_of_cons; [exists s; split; [left|done]|]. destruct (G3 x Hx) as (y & Hy & Ht). exists y. split; [by right|done].
  - intros x [->|Hx]%elem_of_cons; [done|]. destruct (G4 x Hx) as (K1 & K2). specialize (Hne x Hx).
    cbn -[slice_path] in K1, K2. rewrite lookup_insert_ne in K1 by done. split; [done|]. rewrite K2. apply bool_decide_ext. set_solver.
  - intros i [Hi Hi']%not_elem_of_cons. by apply Hk, G5.
  - intros x [->|Hx]%elem_of_cons; cbn [st_slice st_path].
    + right. destruct (G5 (rs_slice s)) as [H1 H2]; [by intros Hi; apply Hni, Hin|]. unfold staged_at. rewrite H1, H2. cbn. rewrite lookup_insert_eq. split; [done|set_solver].
    + destruct (G6 x Hx) as [Hx'|]; [left|by right]. by apply Hk; [apply Hne|].
Qed.

Lemma into_so_far slices run sk b r run' b' : NoDup (rs_slice <$> slices) → compact_read_into slices run sk b = (r, run', b') →
  ∃ new, run' = run ++ new ∧ read_so_far b b' new slices.
Proof.
  revert run sk b. induction slices as [|s slices IH]; intros run sk b; cbn [CompactRead.compact_read_into].
  - intros _ [= <- <- <-]. exists []. split; [by rewrite app_nil_r|]. by apply far_nothing.
  - rewrite fmap_cons. intros [Hni Hnd]%NoDup_cons.
    assert (∀ b', same_rows b b' → ∃ new, run = run ++ new ∧ read_so_far b b' new (s :: slices)) as Hstop.
    { intros b1 Hb. exists []. split; [by rewrite app_nil_r|]. by apply far_nothing. }
    destruct (signalled _); [intros [= <- <- <-]; by apply Hstop|]. destruct (negb _); [intros [= <- <- <-]; by apply Hstop|].
    destruct (tape _ _) as [[sha size]|].
    2: { intros [= <- <- <-]. apply Hstop. eapply same_rows_trans; [apply put_same_rows|apply remove_same_rows]. }
    case_bool_decide.
    2: { intros Hr. destruct (IH _ _ _ Hnd Hr) as (new & -> & Hfar). exists new. split; [done|].
      eapply read_so_far_from; [|exact Hfar]. eapply same_rows_trans; [apply put_same_rows|apply remove_same_rows]. }
    unfold record_staged. destruct (negb (runs (ReadRow _))); [intros [= <- <- <-]; apply Hstop, put_same_rows|].
    destruct (negb (runs (RecordPath _))).
    + intros [= <- <- <-]. eexists [_]. split; [done|]. destruct (put_same_rows s size sha b) as (H1 & H2 & H3 & H4).
      split; [done|by apply NoDup_singleton|intros x ->%list_elem_of_singleton; exists s; split; [left|done]|by intros x ->%list_elem_of_singleton|done| |done].
      by intros x ->%list_elem_of_singleton; left.
    + intros Hr. destruct (IH _ _ _ Hnd Hr) as (new & -> & Hfar). eexists (_ :: new). split; [by rewrite <- app_assoc|].
      destruct (put_same_rows s size sha b) as (H1 & H2 & H3 & H4).
      apply read_so_far_cons in Hfar; [|done]. destruct Hfar as [G1 G2 G3 G4 G5 G6 G7].
      split; [by etrans|done..|]. intros f Hf. rewrite G7 by done. by apply H4.
Qed.

(** Undoing puts each remembered slice back. *)
Definition put_back (x : StagedFile) : option File :=
  match st_prior x with Some p => if bool_decide (p = st_path x) then None else Some p | None => None end.
Definition undone_row (b b' : Bench) (x : StagedFile) : Prop :=
  if runs (RestorePath (st_slice x)) then staging_path (area b') !! st_slice x = put_back x ∧ (st_slice x ∈ released_at (area b') ↔ prior_released x = true)
  else row_kept b b' (st_slice x).
Lemma undo_one_spec x b : let b' := undo_one unlinks runs b x in
  same_but_paths b b' ∧ (∀ f, f ≠ st_path x → disk (area b') !! f = disk (area b) !! f) ∧ file_sha256 b' = file_sha256 b ∧
  undone_row b b' x ∧ ∀ i, i ≠ st_slice x → row_kept b b' i.
Proof using Type.
  clear tape signalled. cbn. set (b1 := remove_file unlinks (st_path x) b).
  assert (same_but_paths b b1 ∧ (∀ f, f ≠ st_path x → disk (area b1) !! f = disk (area b) !! f) ∧ file_sha256 b1 = file_sha256 b ∧
    staging_path (area b1) = staging_path (area b) ∧ released_at (area b1) = released_at (area b)) as (R1 & R2 & R3 & R4 & R5).
  { unfold b1, remove_file. destruct (unlinks _); [|done]. split; [by split|]. split; [|done]. intros f Hf. cbn. by apply lookup_delete_ne. }
  unfold undo_one, undone_row, row_kept. fold b1. clearbody b1. destruct (runs (RestorePath _)); [|rewrite R4, R5; done].
  split; [destruct R1; by split|]. split; [done|]. split; [done|]. cbn. fold (put_back x). rewrite R4, R5. split.
  - split; [destruct (put_back x); [apply lookup_insert_eq|apply lookup_delete_eq]|]. destruct (prior_released x); set_solver.
  - intros i Hi. split; [destruct (put_back x); [by apply lookup_insert_ne|by apply lookup_delete_ne]|]. destruct (prior_released x); set_solver.
Qed.
Lemma undone l b : NoDup (st_slice <$> l) → let b' := foldl (undo_one unlinks runs) b l in
  same_but_paths b b' ∧ (∀ f, f ∉ st_path <$> l → disk (area b') !! f = disk (area b) !! f) ∧ file_sha256 b' = file_sha256 b ∧
  (∀ x, x ∈ l → undone_row b b' x) ∧ ∀ i, i ∉ st_slice <$> l → row_kept b b' i.
Proof using Type.
  cbn. revert b. induction l as [|x l IH]; intros b; cbn [foldl].
  { intros _. split; [done|]. split; [done|]. split; [done|]. split; [by intros x Hx%not_elem_of_nil|done]. }
  rewrite fmap_cons. intros [Hni Hnd]%NoDup_cons. destruct (IH (undo_one unlinks runs b x) Hnd) as (I1 & I2 & I3 & I4 & I5).
  destruct (undo_one_spec x b) as (J1 & J2 & J3 & J4 & J5). set (b1 := undo_one unlinks runs b x) in *. clearbody b1.
  split; [by etrans|]. split; [intros f [Hne Hf]%not_elem_of_cons; by rewrite I2, J2|]. split; [by rewrite I3|]. split.
  - intros y [->|Hy]%elem_of_cons.
    + pose proof (I5 _ Hni) as [K1 K2]. unfold undone_row, row_kept in *. destruct (runs (RestorePath (st_slice x))), J4; (split; [by rewrite K1|by rewrite K2]).
    + pose proof (I4 y Hy) as Hy'. unfold undone_row in *. destruct (runs (RestorePath (st_slice y))); [done|]. eapply row_kept_trans; [|exact Hy'].
      apply J5. intros Heq. apply Hni. rewrite <- Heq. by apply list_elem_of_fmap_2.
  - intros i [Hne Hi]%not_elem_of_cons. eapply row_kept_trans; [by apply J5|by apply I5].
Qed.
End into.

(** ** The live slices *)

Lemma live_rows_elem b v x : x ∈ live_rows b v → ∃ wr, writes (ledger_on b) !! x.1.1.1 = Some wr ∧ volume_id wr = v ∧
  write_positions (ledger_on b) !! x.1.1 = Some x.1.2 ∧ stage_slices (ledger_on b) !! x.1.1.2 = Some x.2.
Proof.
  intros ([key pos] & Hin%elem_of_map_to_list & Hx)%list_elem_of_omap. cbn in Hx.
  apply bind_Some in Hx as (wr & Hw & Hx). apply bind_Some in Hx as (sl & Hsl & Hx). apply bind_Some in Hx as (snap & _ & Hx).
  destruct (_ && _) eqn:Hc; [|done]. injection Hx as <-. rewrite !andb_true_iff, !bool_decide_eq_true in Hc. cbn. exists wr. naive_solver.
Qed.

(** A slice is live on a volume once. *)
Lemma live_rows_nodup b v : one_write_per_set (shelves_in b) → own_rows (ledger_on b) → NoDup ((λ x, x.1.1.2) <$> live_rows b v).
Proof.
  intros Hu Ho. apply NoDup_fmap_2_strong.
  - intros x y Hx Hy Heq. destruct (live_rows_elem _ _ _ Hx) as (wx & Hwx & Hvx & Hpx & Hsx), (live_rows_elem _ _ _ Hy) as (wy & Hwy & Hvy & Hpy & Hsy).
    destruct x as [[[x1 x2] px] sx], y as [[[y1 y2] py] sy]. cbn in *. subst y2.
    destruct (Ho _ _ _ _ Hpx Hwx) as [kx Hkx], (Ho _ _ _ _ Hpy Hwy) as [ky Hky].
    assert (x1 = y1) as -> by (eapply Hu; [exact Hwx|exact Hwy|congruence|congruence]). congruence.
  - unfold live_rows. apply NoDup_omap. intros i j x y z Hi Hj Hx Hy.
    assert (∀ a, (w ← writes (ledger_on b) !! a.1.1; sl ← stage_slices (ledger_on b) !! a.1.2; snapshot ← set_snapshot (shelves_in b) !! stage_set_id w;
      if bool_decide (volume_id w = v) && bool_decide (write_status w = WCompleted) && bool_decide (row_status a.2 = PWritten)
         && live (shelves_in b) snapshot then Some (a, sl) else None) = Some z → a = z.1) as Hkey.
    { intros a Ha. apply bind_Some in Ha as (? & _ & Ha). apply bind_Some in Ha as (? & _ & Ha). apply bind_Some in Ha as (? & _ & Ha).
      destruct (_ && _); [|done]. by injection Ha as <-. }
    eapply NoDup_lookup; [apply (NoDup_map_to_list (write_positions (ledger_on b)))|exact Hi|]. rewrite Hj. f_equal.
    rewrite (Hkey x Hx). by apply Hkey.
Qed.

Lemma recovery_row_some b x s : recovery_row b x = Some s → rs_slice s = x.1.1.2 ∧ rs_set s = slice_set_id x.2.
Proof.
  unfold recovery_row. intros Hx. apply bind_Some in Hx as (? & _ & Hx). apply bind_Some in Hx as (? & _ & Hx).
  by apply bind_Some in Hx as (? & _ & [= <-]).
Qed.
Lemma live_slices_nodup b v slices : one_write_per_set (shelves_in b) → own_rows (ledger_on b) → live_recovery_slices b v = Some slices →
  NoDup (rs_slice <$> slices).
Proof.
  intros Hu Ho (l & Hl%mapM_Some & ->)%fmap_Some. rewrite merge_sort_Permutation.
  assert (rs_slice <$> l = (λ x, x.1.1.2) <$> live_rows b v) as ->; [|by apply live_rows_nodup].
  induction Hl as [|x s rows l Hx _ IH]; [done|]. apply recovery_row_some in Hx as [Hx _]. by rewrite !fmap_cons, IH, Hx.
Qed.
Lemma live_slices_row b v slices s : live_recovery_slices b v = Some slices → s ∈ slices →
  ∃ n, stage_slices (ledger_on b) !! rs_slice s = Some (mkStageSlice (rs_set s) n).
Proof.
  intros (l & Hl%mapM_Some & ->)%fmap_Some Hs. rewrite merge_sort_Permutation in Hs. apply list_elem_of_lookup in Hs as [i Hi].
  destruct (Forall2_lookup_r _ _ _ _ _ Hl Hi) as (x & Hx%list_elem_of_lookup_2 & Hxs).
  apply recovery_row_some in Hxs as [-> ->]. destruct (live_rows_elem _ _ _ Hx) as (_ & _ & _ & _ & Hsl).
  exists (slice_number x.2). rewrite Hsl. by destruct (x.2).
Qed.

(** ** A read that ends well *)

Lemma sorted_dups_nil (l : list Z) : merge_sort Z.le (remove_dups l) = [] → l = [].
Proof.
  intros Hn. assert (∀ x, x ∉ l) as Hall.
  { intros x Hx. apply elem_of_remove_dups in Hx. rewrite <- (merge_sort_Permutation Z.le), Hn in Hx. by apply not_elem_of_nil in Hx. }
  destruct l as [|x l]; [done|]. exfalso. apply (Hall x), list_elem_of_here.
Qed.

Lemma sets_read_elem run set : set ∈ sets_read run ↔ set ∈ st_set <$> run.
Proof. unfold sets_read. by rewrite merge_sort_Permutation, elem_of_remove_dups. Qed.

Lemma promoted sets a : let a' := foldl (λ a set, promote_set set a) a sets in
  shelves_of a' = shelves_of a ∧ staging_path a' = staging_path a ∧ released_at a' = released_at a ∧ disk a' = disk a ∧ unit_uuid a' = unit_uuid a ∧
  ∀ set, set_status a' !! set = if bool_decide (set ∈ sets) then (λ s, if bool_decide (s ∈ [SetStaged; SetCleaned]) then SetStaged else s) <$> (set_status a !! set)
                                else set_status a !! set.
Proof.
  cbn. revert a. induction sets as [|x sets IH]; intros a; cbn; [done|].
  destruct (IH (promote_set x a)) as (-> & -> & -> & -> & -> & Hs). do 5 (split; [done|]). intros set. rewrite Hs. cbn.
  destruct (decide (set = x)) as [->|Hne].
  - rewrite lookup_alter_eq, (bool_decide_eq_true_2 (x ∈ x :: sets)) by apply list_elem_of_here.
    case_bool_decide; [|done]. destruct (set_status a !! x) as [s|]; [|done]. cbn. f_equal. by destruct s.
  - rewrite lookup_alter_ne by done. replace (bool_decide (set ∈ x :: sets)) with (bool_decide (set ∈ sets)); [done|].
    apply bool_decide_ext. rewrite elem_of_cons. naive_solver.
Qed.

Lemma NoDup_fmap_filter {A B} (f : A → B) (P : A → Prop) `{!∀ x, Decision (P x)} l : NoDup (f <$> l) → NoDup (f <$> filter P l).
Proof.
  induction l as [|x l IH]; [done|]. rewrite fmap_cons, NoDup_cons, filter_cons. intros [Hx Hl]. case_decide; [|by apply IH].
  rewrite fmap_cons. apply NoDup_cons. split; [|by apply IH]. intros (y & Heq & [_ Hy]%list_elem_of_filter)%list_elem_of_fmap.
  apply Hx. rewrite Heq. by apply list_elem_of_fmap_2.
Qed.

Lemma NoDup_fmap_same {A B} (f : A → B) l x y : NoDup (f <$> l) → x ∈ l → y ∈ l → f x = f y → x = y.
Proof.
  intros Hnd [i Hi]%list_elem_of_lookup [j Hj]%list_elem_of_lookup Heq.
  assert (i = j) as <-; [|by rewrite Hi in Hj; injection Hj].
  eapply NoDup_lookup; [exact Hnd| |]; rewrite list_lookup_fmap; [by rewrite Hi|by rewrite Hj, Heq].
Qed.

(** A set the read tells whole has each of its slices among the files. *)
Lemma whole_told b run sk set sl n : NoDup (st_slice <$> run) → read_whole b run sk set = true →
  (∀ x, x ∈ run → ∃ n, stage_slices (ledger_on b) !! st_slice x = Some (mkStageSlice (st_set x) n)) →
  stage_slices (ledger_on b) !! sl = Some (mkStageSlice set n) → ∃ x, x ∈ run ∧ st_slice x = sl ∧ st_set x = set.
Proof.
  intros Hnd Hw Hrows Hsl. unfold read_whole in Hw. apply andb_true_iff in Hw as [_ Hlen%bool_decide_eq_true].
  set (mine := filter (λ x, st_set x = set) run) in *.
  assert (NoDup (st_slice <$> mine)) as Hnd'.
  { apply NoDup_fmap_filter, Hnd. }
  assert (st_slice <$> mine ⊆+ (slices_of set (ledger_on b)).*1) as Hsub.
  { apply NoDup_submseteq; [done|]. intros i (x & -> & [Hset Hx]%list_elem_of_filter)%list_elem_of_fmap.
    destruct (Hrows x Hx) as [m Hm]. apply list_elem_of_fmap. exists (st_slice x, m). split; [done|]. apply elem_of_slices. congruence. }
  apply submseteq_length_Permutation in Hsub; [|rewrite !length_fmap; lia].
  assert (sl ∈ (slices_of set (ledger_on b)).*1) as Hin.
  { apply list_elem_of_fmap. exists (sl, n). split; [done|]. by apply elem_of_slices. }
  rewrite <- Hsub in Hin. apply list_elem_of_fmap in Hin as (x & -> & [Hset Hx]%list_elem_of_filter). by exists x.
Qed.
(** The slices a run tells have the rows it read them from. *)
Lemma told_row dir b slices run : Forall2 (tells dir) slices run →
  (∀ s, s ∈ slices → ∃ n, stage_slices (ledger_on b) !! rs_slice s = Some (mkStageSlice (rs_set s) n)) →
  ∀ x, x ∈ run → ∃ n, stage_slices (ledger_on b) !! st_slice x = Some (mkStageSlice (st_set x) n).
Proof.
  intros Ht Hrows x [k Hk]%list_elem_of_lookup. destruct (Forall2_lookup_r _ _ _ _ _ Ht Hk) as (s & Hs%list_elem_of_lookup_2 & -> & -> & _). by apply Hrows.
Qed.

Lemma tells_fmap dir slices run : Forall2 (tells dir) slices run →
  st_slice <$> run = rs_slice <$> slices ∧ st_set <$> run = rs_set <$> slices.
Proof. induction 1 as [|s x slices run (H1 & H2 & _) _ [IH1 IH2]]; [done|]. by rewrite !fmap_cons, H1, H2, IH1, IH2. Qed.

Section read.
Variables (contact_ok : Z → bool) (signalled : Z → bool) (creates unlinks : File → bool) (tape : Z → Z → option (string * Z)) (runs : ReadStatement → bool).
Variables (staging_dir : string).
Notation compact_read := (compact_read contact_ok signalled creates unlinks tape runs staging_dir).
Notation compact_read_into := (compact_read_into signalled creates unlinks tape runs).

Lemma compact_read_ok label v b rep b' : compact_read label v b = (Ok rep, b') →
  ∃ slices run b1, live_recovery_slices b v = Some slices ∧
    compact_read_into (compact_dir_of staging_dir label) slices [] [] b = (Ok [], run, b1) ∧
    rep = mkReadReport 0 (sets_read run) run ∧ (∀ set, set ∈ sets_read run → read_whole b1 run [] set = true) ∧
    b' = with_area (foldl (λ a set, promote_set set a) (area b1) (sets_read run)) b1.
Proof.
  unfold CompactRead.compact_read. destruct (holds_range _ _); [done|]. destruct (negb _); [done|].
  destruct (live_recovery_slices b v) as [[|s0 slices]|] eqn:Hl; [done| |done]. cbn zeta. destruct (negb (creates _)); [done|].
  destruct (compact_read_into _ _ _ _ _) as [[[sk|e] run] b1] eqn:Hi; [|done]. destruct (negb (runs _)); [done|]. case_bool_decide as Hn; [|done]. intros [= <- <-].
  apply sorted_dups_nil, app_nil in Hn as [-> Hn].
  assert (∀ set, set ∈ sets_read run → read_whole b1 run [] set = true) as Hall.
  { intros set Hset. destruct (read_whole b1 run [] set) eqn:Hr; [done|]. exfalso.
    assert (set ∈ filter (λ set, read_whole b1 run [] set = false) (sets_read run)) as Hf by by apply list_elem_of_filter.
    rewrite Hn in Hf. by apply not_elem_of_nil in Hf. }
  assert (filter (λ set, read_whole b1 run [] set = true) (sets_read run) = sets_read run) as Hw.
  { clear -Hall. induction (sets_read run) as [|x l IH]; [done|]. rewrite filter_cons, decide_True by apply Hall, list_elem_of_here.
    f_equal. apply IH. intros set Hset. apply Hall. by right. }
  rewrite Hw. exists (s0 :: slices), run, b1. done.
Qed.

(** The sets of a volume's live slices are staged or cleaned. *)
Definition sets_recorded (b : Bench) (slices : list RecoverySlice) : Prop :=
  ∀ s, s ∈ slices → set_status (area b) !! rs_set s = Some SetStaged ∨ set_status (area b) !! rs_set s = Some SetCleaned.

(** What a good read leaves: the facts of a report. *)
Lemma compact_read_facts label v b rep b' : one_write_per_set (shelves_in b) → own_rows (ledger_on b) → compact_read label v b = (Ok rep, b') →
  ∃ slices, live_recovery_slices b v = Some slices ∧ NoDup (rs_slice <$> slices) ∧ slices_skipped rep = 0 ∧
    Forall2 (tells (compact_dir_of staging_dir label)) slices (staged rep) ∧
    (∀ set, set ∈ staged_sets rep ↔ set ∈ rs_set <$> slices) ∧
    (∀ set sl n, set ∈ staged_sets rep → stage_slices (ledger_on b) !! sl = Some (mkStageSlice set n) → sl ∈ rs_slice <$> slices) ∧
    (∀ s, s ∈ slices → read_in (compact_dir_of staging_dir label) b' s) ∧
    (∀ i, i ∉ rs_slice <$> slices → staging_path (area b') !! i = staging_path (area b) !! i) ∧
    shelves_of (area b') = shelves_of (area b) ∧ slice_sha256 b' = slice_sha256 b ∧ unit_uuid (area b') = unit_uuid (area b) ∧
    (∀ set, set_status (area b') !! set = if bool_decide (set ∈ rs_set <$> slices)
       then (λ s, if bool_decide (s ∈ [SetStaged; SetCleaned]) then SetStaged else s) <$> (set_status (area b) !! set)
       else set_status (area b) !! set).
Proof.
  intros Hu Ho (slices & run & b1 & Hl & Hi & -> & Hw & ->)%compact_read_ok.
  pose proof (live_slices_nodup _ _ _ Hu Ho Hl) as Hnd. pose proof (into_ok _ _ unlinks _ _ _ _ _ _ _ _ _ _ Hnd Hi) as
    (Hsame & new & good & Hrun & _ & Htells & Hin & Hpath & _ & Hsk & _). cbn in Hrun. subst new. destruct (Hsk eq_refl) as [_ ->].
  destruct (tells_fmap _ _ _ Htells) as [Hslices Hsets]. destruct (promoted (sets_read run) (area b1)) as (P1 & P2 & P3 & P4 & P5 & P6).
  set (a' := foldl _ (area b1) _) in *. clearbody a'.
  assert (∀ set, set ∈ sets_read run ↔ set ∈ rs_set <$> slices) as Hss by (intros set; by rewrite sets_read_elem, Hsets).
  exists slices. split; [done|]. split; [done|]. split; [done|]. split; [done|]. split; [done|]. split.
  { intros set sl n Hset Hsl. assert (stage_slices (ledger_on b1) !! sl = Some (mkStageSlice set n)) as Hsl1.
    { unfold ledger_on, ledger_in in *. by rewrite (sb_shelves _ _ Hsame). }
    destruct (whole_told b1 run [] set sl n) as (x & Hx & <- & _); [by rewrite Hslices|by apply Hw| |done|].
    - apply (told_row _ _ _ _ Htells). intros s Hs. unfold ledger_on, ledger_in. rewrite (sb_shelves _ _ Hsame). by eapply live_slices_row.
    - rewrite <- Hslices. by apply list_elem_of_fmap_2. }
  split; [intros s Hs; destruct (Hin s Hs) as ((Hp & Hf) & _); split; cbn; [by rewrite P2|by rewrite P4]|].
  split; [intros i Hni; cbn; rewrite P2; by apply Hpath|]. cbn. rewrite P1, P5, (sb_shelves _ _ Hsame), (sb_hashes _ _ Hsame), (sb_uuid _ _ Hsame).
  do 3 (split; [done|]). intros set. rewrite P6, (sb_status _ _ Hsame).
  by replace (bool_decide (set ∈ sets_read run)) with (bool_decide (set ∈ rs_set <$> slices)) by (apply bool_decide_ext; by rewrite Hss).
Qed.


(** ** A read that ends in an error *)

(** The sets an error leaves as they were; only those of a read that came to
    the end of its slices. *)
Definition left_over (e : CompactReadError) : option (list Z) :=
  match e with NotEverySet l | LineUnread l => Some l | _ => None end.

(** The row of a slice whose set was not staged: as it was; or without its
    path, where that was the file the read has written again; or at the
    removed file, where the catalog did not run the update that takes it
    back. *)
Definition row_left (dir : string) (slices : list RecoverySlice) (b b' : Bench) (i : Z) : Prop :=
  row_kept b b' i ∨
  ∃ s, s ∈ slices ∧ rs_slice s = i ∧
    ((staging_path (area b) !! i = Some (slice_path dir s) ∧ staging_path (area b') !! i = None ∧
      (i ∈ released_at (area b') ↔ i ∈ released_at (area b))) ∨
     (runs (RestorePath i) = false ∧ staged_at (slice_path dir s) b' i)).

Lemma into_error dir slices run sk b e run' b' : compact_read_into dir slices run sk b = (Err e, run', b') → left_over e = None.
Proof.
  revert run sk b. induction slices as [|s slices IH]; intros run sk b; cbn [CompactRead.compact_read_into]; [done|].
  destruct (signalled _); [by intros [= <- _ _]|]. destruct (negb _); [by intros [= <- _ _]|].
  destruct (tape _ _) as [[sha size]|]; [|by intros [= <- _ _]]. case_bool_decide; [|by apply IH].
  unfold record_staged. destruct (negb _); [by intros [= <- _ _]|]. destruct (negb _); [by intros [= <- _ _]|]. by apply IH.
Qed.

(** Undone, the rows of a run. *)
Lemma undone_left dir slices run b b1 b' x : read_so_far dir b b1 run slices → x ∈ run → undone_row runs b1 b' x → row_left dir slices b b' (st_slice x).
Proof.
  intros Hfar Hx Hu. destruct (far_of _ _ _ _ _ Hfar x Hx) as (s & Hs & Hsl & _ & Hp).
  destruct (far_remembers _ _ _ _ _ Hfar x Hx) as [Hprior Hrel]. unfold undone_row in Hu. destruct (runs (RestorePath _)) eqn:Hr.
  - destruct Hu as [Hu1 Hu2]. rewrite Hrel, bool_decide_eq_true in Hu2. unfold put_back in Hu1. rewrite Hprior in Hu1. clear Hrel.
    destruct (staging_path (area b) !! st_slice x) as [p|] eqn:Hb; [|left; split; [by rewrite Hu1, Hb|done]].
    case_bool_decide as Heq; [|left; split; [by rewrite Hu1, Hb|done]]. right. exists s. split; [done|]. split; [done|]. left. by rewrite Hb, Heq, Hp.
  - destruct Hu as [Hu1 Hu2]. destruct (far_row _ _ _ _ _ Hfar x Hx) as [[Hk1 Hk2]|[Ha1 Ha2]]; [left; split; [by rewrite Hu1|by rewrite Hu2]|].
    right. exists s. split; [done|]. split; [done|]. right. split; [done|]. unfold staged_at. by rewrite Hu1, Hu2, <- Hp.
Qed.
Lemma undo_left dir slices run b b1 : read_so_far dir b b1 run slices → let b' := undo unlinks runs run None b1 in
  same_but_paths b b' ∧ (∀ f, f.1 ≠ dir → disk (area b') !! f = disk (area b) !! f) ∧ ∀ i, row_left dir slices b b' i.
Proof.
  intros Hfar. unfold undo. cbn zeta. rewrite filter_all by done.
  destruct (undone unlinks runs run b1 (far_nodup _ _ _ _ _ Hfar)) as (U1 & U2 & _ & U4 & U5).
  split; [etrans; [apply Hfar|done]|]. split.
  - intros f Hf. rewrite U2; [by apply Hfar|]. intros (x & -> & Hx)%list_elem_of_fmap.
    destruct (far_of _ _ _ _ _ Hfar x Hx) as (s & _ & _ & _ & Hp). by rewrite Hp in Hf.
  - intros i. destruct (decide (i ∈ st_slice <$> run)) as [(x & -> & Hx)%list_elem_of_fmap|Hni].
    + eapply undone_left; [done..|]. by apply U4.
    + left. eapply row_kept_trans; [by eapply far_kept|by apply U5].
Qed.

(** Some sets staged, the others' files taken back. *)
Lemma undo_some_left dir slices run l b b1 b2 : read_so_far dir b b1 run slices → staging_path (area b2) = staging_path (area b1) →
  released_at (area b2) = released_at (area b1) → disk (area b2) = disk (area b1) → let b' := undo unlinks runs run (Some l) b2 in
  same_but_paths b2 b' ∧ (∀ f, f ∉ st_path <$> filter (λ x, st_set x ∈ l) run → disk (area b') !! f = disk (area b1) !! f) ∧ file_sha256 b' = file_sha256 b2 ∧
  (∀ i, i ∉ st_slice <$> filter (λ x, st_set x ∈ l) run → row_kept b1 b' i) ∧
  ∀ i, (∀ x, x ∈ run → st_slice x = i → st_set x ∈ l) → row_left dir slices b b' i.
Proof.
  intros Hfar Hp Hr Hd. cbn zeta. unfold undo.
  rewrite (list_filter_iff _ (λ x, st_set x ∈ l)) by (intros x; by rewrite bool_decide_eq_true).
  set (out := filter (λ x, st_set x ∈ l) run).
  destruct (undone unlinks runs out b2) as (U1 & U2 & U3 & U4 & U5); [apply NoDup_fmap_filter, Hfar|].
  assert (∀ i, row_kept b2 (foldl (undo_one unlinks runs) b2 out) i → row_kept b1 (foldl (undo_one unlinks runs) b2 out) i) as Hk.
  { intros i. unfold row_kept. by rewrite Hp, Hr. }
  split; [done|]. split; [intros f Hf; by rewrite U2, Hd|]. split; [done|]. split; [intros i Hi; by apply Hk, U5|].
  intros i Hi. destruct (decide (i ∈ st_slice <$> run)) as [(x & -> & Hx)%list_elem_of_fmap|Hni].
  - eapply undone_left; [done..|]. assert (x ∈ out) as Hxo by (apply list_elem_of_filter; split; [by apply Hi|done]).
    specialize (U4 x Hxo). unfold undone_row in *. destruct (runs (RestorePath (st_slice x))); [done|]. by apply Hk.
  - left. eapply row_kept_trans; [by eapply far_kept|]. apply Hk, U5.
    intros (x & -> & [_ Hx]%list_elem_of_filter)%list_elem_of_fmap. by apply Hni, list_elem_of_fmap_2.
Qed.

(** What an error leaves, given the sets it keeps. *)
Record stopped_at (label : string) (v : Z) (e : CompactReadError) (whole : list Z) (b b' : Bench) : Prop := {
  stop_shelves : shelves_in b' = shelves_in b;
  stop_hashes : slice_sha256 b' = slice_sha256 b;
  stop_disk : ∀ f, f.1 ≠ compact_dir_of staging_dir label → disk (area b') !! f = disk (area b) !! f;
  (** the sets kept: all but those the error tells *)
  stop_none : left_over e = None → whole = [];
  stop_whole : ∀ l set, left_over e = Some l →
    set ∈ whole ↔ set ∈ rs_set <$> default [] (live_recovery_slices b v) ∧ set ∉ l;
  stop_status : ∀ set, set_status (area b') !! set = if bool_decide (set ∈ whole)
    then (λ s, if bool_decide (s ∈ [SetStaged; SetCleaned]) then SetStaged else s) <$> (set_status (area b) !! set)
    else set_status (area b) !! set;
  (** each recorded slice of a kept set has its file *)
  stop_kept : ∀ set sl n, set ∈ whole → stage_slices (ledger_on b) !! sl = Some (mkStageSlice set n) →
    ∃ s, s ∈ default [] (live_recovery_slices b v) ∧ rs_slice s = sl ∧ read_in (compact_dir_of staging_dir label) b' s ∧ sl ∉ released_at (area b');
  (** the rows of every other slice *)
  stop_rows : ∀ i, (∀ s, s ∈ default [] (live_recovery_slices b v) → rs_slice s = i → rs_set s ∉ whole) →
    row_left (compact_dir_of staging_dir label) (default [] (live_recovery_slices b v)) b b' i;
}.
Lemma stopped_early label v e b : left_over e = None → stopped_at label v e [] b b.
Proof.
  intros He. split; try done.
  - intros l set Hl. by rewrite He in Hl.
  - intros set sl n Hin. by apply not_elem_of_nil in Hin.
  - intros i _. by left.
Qed.
Lemma stopped_undone label v e run slices b b1 : left_over e = None → live_recovery_slices b v = Some slices →
  read_so_far (compact_dir_of staging_dir label) b b1 run slices → stopped_at label v e [] b (undo unlinks runs run None b1).
Proof.
  intros He Hl Hfar. destruct (undo_left _ _ _ _ _ Hfar) as ([S1 S2 S3 S4 S5 S6] & Hd & Hrows). split; try done.
  - intros l set Hs. by rewrite He in Hs.
  - intros set. by rewrite S2.
  - intros set sl n Hin. by apply not_elem_of_nil in Hin.
  - intros i _. by rewrite Hl.
Qed.

(** The sets read in full, and the rest. *)
Definition read_in_full (b : Bench) (run : list StagedFile) (sk : list Z) : list Z := filter (λ set, read_whole b run sk set = true) (sets_read run).
Definition not_in_full (b : Bench) (run : list StagedFile) (sk : list Z) : list Z :=
  merge_sort Z.le (remove_dups (sk ++ filter (λ set, read_whole b run sk set = false) (sets_read run))).
Lemma in_full_or_not b run sk set : set ∈ read_in_full b run sk ↔ (set ∈ sk ∨ set ∈ st_set <$> run) ∧ set ∉ not_in_full b run sk.
Proof.
  unfold read_in_full, not_in_full. rewrite merge_sort_Permutation, elem_of_remove_dups, elem_of_app, !list_elem_of_filter, sets_read_elem.
  assert (read_whole b run sk set = true → set ∉ sk) as Hw.
  { unfold read_whole. rewrite andb_true_iff, negb_true_iff, bool_decide_eq_false. by intros [? _]. }
  destruct (read_whole b run sk set); naive_solver.
Qed.

Lemma in_full_live b run sk slices good set : st_set <$> run = rs_set <$> good → good `sublist_of` slices →
  (∀ s, s ∈ slices → s ∈ good ∨ rs_set s ∈ sk) → set ∈ read_in_full b run sk ↔ set ∈ rs_set <$> slices ∧ set ∉ not_in_full b run sk.
Proof.
  intros Hsets Hsub Hall. rewrite in_full_or_not, Hsets. split; intros [H1 H2]; (split; [|done]).
  - destruct H1 as [Hsk|(s & -> & Hs)%list_elem_of_fmap]; [|by eapply list_elem_of_fmap_2, elem_of_sublist].
    exfalso. apply H2. unfold not_in_full. rewrite merge_sort_Permutation, elem_of_remove_dups. set_solver.
  - apply list_elem_of_fmap in H1 as (s & -> & Hs). destruct (Hall s Hs); [right; by apply list_elem_of_fmap_2|by left].
Qed.

Lemma stopped_short label v e slices run sk b b1 : one_write_per_set (shelves_in b) → own_rows (ledger_on b) →
  left_over e = Some (not_in_full b1 run sk) → live_recovery_slices b v = Some slices →
  compact_read_into (compact_dir_of staging_dir label) slices [] [] b = (Ok sk, run, b1) →
  stopped_at label v e (read_in_full b1 run sk) b
    (undo unlinks runs run (Some (not_in_full b1 run sk)) (with_area (foldl (λ a set, promote_set set a) (area b1) (read_in_full b1 run sk)) b1)).
Proof.
  intros Hu Ho He Hl Hi. pose proof (live_slices_nodup _ _ _ Hu Ho Hl) as Hnd. set (dir := compact_dir_of staging_dir label) in *.
  destruct (into_so_far _ _ unlinks _ _ _ _ _ _ _ _ _ _ Hnd Hi) as (new & Hrun & Hfar). cbn in Hrun. subst new.
  destruct (into_ok _ _ unlinks _ _ _ _ _ _ _ _ _ _ Hnd Hi) as ([S1 S2 S3 S4 S5 S6] & new & good & Hrun & Hsub & Htells & Hin & _ & _ & _ & _ & Hall).
  cbn in Hrun. subst new. clear Hi. destruct (tells_fmap _ _ _ Htells) as [_ Hsets].
  set (whole := read_in_full b1 run sk) in *. set (out := not_in_full b1 run sk) in *.
  destruct (promoted whole (area b1)) as (P1 & P2 & P3 & P4 & P5 & P6).
  set (b2 := with_area _ b1).
  destruct (undo_some_left dir slices run out b b1 b2 Hfar P2 P3 P4) as ([U1 U2 U3 U4 U5 U6] & Udisk & Usha & Ukept & Uleft).
  set (b' := undo _ _ _ _ _) in *. clearbody b'. cbn in U1, U2, U6, Usha.
  assert (∀ set, set ∈ whole ↔ set ∈ rs_set <$> slices ∧ set ∉ out) as Hwhole by (intros set; by eapply in_full_live).
  assert (∀ x, x ∈ run → ∃ s, s ∈ good ∧ tells dir s x) as Htold.
  { intros x [k Hk]%list_elem_of_lookup. destruct (Forall2_lookup_r _ _ _ _ _ Htells Hk) as (s & Hs%list_elem_of_lookup_2 & Ht). by exists s. }
  assert (∀ x, x ∈ run → st_set x ∈ rs_set <$> slices) as Hxs.
  { intros x (s & Hs & _ & -> & _)%Htold. by eapply list_elem_of_fmap_2, elem_of_sublist. }
  split; rewrite ?Hl; cbn [default from_option id].
  - unfold shelves_in. by rewrite U1, P1, S1.
  - by rewrite U6.
  - intros f Hf. rewrite Udisk; [by apply Hfar|]. intros (x & -> & [_ Hx]%list_elem_of_filter)%list_elem_of_fmap.
    destruct (Htold x Hx) as (s & _ & _ & _ & Hp). by rewrite Hp in Hf.
  - by rewrite He.
  - intros l set Hs. rewrite He in Hs. injection Hs as <-. apply Hwhole.
  - intros set. by rewrite U2, P6, S2.
  - intros set sl n Hset Hsl. apply Hwhole in Hset as Hset'. destruct Hset' as [_ Hout].
    destruct (whole_told b1 run sk set sl n) as (x & Hx & <- & Hxset); [apply Hfar| | |unfold ledger_on, ledger_in in *; by rewrite S1|].
    { by apply list_elem_of_filter in Hset as [? _]. }
    { apply (told_row _ _ _ _ Htells). intros s Hs. unfold ledger_on, ledger_in. rewrite S1. eapply live_slices_row; [done|]. by eapply elem_of_sublist. }
    destruct (Htold x Hx) as (s & Hs & Hslice & Hsset & Hpath). exists s. split; [by eapply elem_of_sublist|]. split; [done|].
    destruct (Hin s Hs) as [(Hp & size & sha & Hd & Hh & Hsha) Hrel]. destruct (Ukept (st_slice x)) as [K1 K2].
    { intros (y & Hy & [Hyo Hyr]%list_elem_of_filter)%list_elem_of_fmap. apply Hout. rewrite <- Hxset.
      assert (x = y) as ->; [|done]. by eapply NoDup_fmap_same; [apply Hfar|..]. }
    rewrite <- Hslice in Hp, Hrel. split; [|by rewrite K2]. split; [by rewrite <- Hslice, K1|]. exists size, sha. rewrite Udisk, Usha; [done|].
    intros (y & Hy & [Hyo Hyr]%list_elem_of_filter)%list_elem_of_fmap. destruct (Htold y Hyr) as (s' & _ & Hys & _ & Hyp).
    rewrite Hyp in Hy. apply slice_path_inj in Hy. apply Hout. rewrite <- Hxset.
    assert (x = y) as ->; [|done]. eapply NoDup_fmap_same; [apply Hfar|done|done|congruence].
  - intros i Hi. apply Uleft. intros x Hx Hxi. destruct (Htold x Hx) as (s & Hs & Hslice & Hsset & _).
    destruct (decide (st_set x ∈ out)) as [|Hno]; [done|]. exfalso. apply (Hi s); [by eapply elem_of_sublist|congruence|].
    rewrite <- Hsset. apply Hwhole. split; [by apply Hxs|done].
Qed.

(** C29: what a compaction's read that ends in an error leaves, whichever the
    error: refused before a block is read, stopped by a signal, at a file it
    cannot make, a record it cannot read or a statement the catalog does not
    run, or at its end with sets not read in full. No copy, no recorded hash
    and no file outside the compaction's own directory changes. Only an error
    that tells sets not read in full keeps any: exactly the other sets of the
    volume's live slices, each staged, if it was staged or cleaned, with every
    slice the catalog has of it at its file, as its hash says; every other
    set's status stays. The row of every slice of the others is as it was, path
    and time of release, but for two cases: a slice whose path was already the
    file this read writes, an earlier read's, may be left without a path; and
    where the catalog does not run the update that takes a slice back, its row
    stays at that file. *)
Theorem compact_read_stopped label v b e b' : one_write_per_set (shelves_in b) → own_rows (ledger_on b) →
  compact_read label v b = (Err e, b') → ∃ whole, stopped_at label v e whole b b'.
Proof.
  intros Hu Ho. unfold CompactRead.compact_read. destruct (holds_range _ _); [intros [= <- <-]; by eexists; apply stopped_early|].
  destruct (negb _); [intros [= <- <-]; by eexists; apply stopped_early|].
  destruct (live_recovery_slices b v) as [[|s0 slices]|] eqn:Hl; [intros [= <- <-]; by eexists; apply stopped_early| |intros [= <- <-]; by eexists; apply stopped_early].
  cbn zeta. destruct (negb _); [intros [= <- <-]; by eexists; apply stopped_early|].
  destruct (compact_read_into _ _ _ _ _) as [[r run] b1] eqn:Hi. pose proof (live_slices_nodup _ _ _ Hu Ho Hl) as Hnd.
  destruct (into_so_far _ _ unlinks _ _ _ _ _ _ _ _ _ _ Hnd Hi) as (new & -> & Hfar). cbn [app] in *.
  destruct r as [sk|e'].
  - destruct (negb (runs PromoteSets)); [intros [= <- <-]; eexists; by eapply stopped_undone|].
    fold (not_in_full b1 new sk). fold (read_in_full b1 new sk). case_bool_decide; [done|].
    intros [= <- <-]. eexists. eapply stopped_short; [done..| |done|done]. by destruct (forallb _ _).
  - intros [= <- <-]. eexists. eapply stopped_undone; [|done..]. by eapply into_error.
Qed.
End read.
