(* ===== verification/Rewrite.v ===== *)
(** * A tape compacted in place: src/volume/rewrite.rs

    [volume rewrite] reads a volume's live slices into staging, retires the
    volume, erases its cartridge, and writes the slices back onto it as a new
    volume, even when they are the only copy. Every statement that changes
    the catalog is a durable state of its own: a run gives the states a crash
    in it may leave, in order, with its outcome. *)

From S2P Require Import Prelude SizeText LayoutModel Session Ledger Coverage Release Staging StagingGate CompactRead.
Local Open Scope Z_scope.

(** ** The rows *)

Inductive Consent : Type := CopiesElsewhere | TypedLabel | TypedFlag.
Inductive RewriteOutcome : Type := RwCompleted | RwAbandoned.
(** The columns of [pending_rewrites] that hold no set. *)
Record RewriteRow : Type := mkRewriteRow {
  destination_label : string;
  cartridge_serial : option string;
  rw_consent : Consent;
  with_staged : bool;
  window_opened : bool;
  rw_outcome : option RewriteOutcome;
}.
Inductive CartridgeStatus : Type := CartInUse | CartPendingErase | CartOther.
#[export] Instance CartridgeStatus_eq_dec : EqDecision CartridgeStatus.
Proof. solve_decision. Defined.
Record Cartridge : Type := mkCartridge { cart_serial : option string; cart_nominal : Z; cart_status : CartridgeStatus }.
Inductive Step : Type :=
| RwStarted | RwStagedVerified | RwCapacityChecked | RwConsented | SourceRetired | RwAbandonedStep | RwResumed
| RwWindowOpened | RwErasedStep | RwInitializedStep | RwStopped | RwCut | RwWrittenStep | RwWindowClosed.

Record World : Type := mkWorld {
  bench : Bench;
  rewrite_rows : gmap Z RewriteRow;
  label_of : gmap Z string;              (* [volumes.label] *)
  volume_capacity : gmap Z Z;
  mounts : gmap Z Z;                     (* the open [cartridge_volumes] row of a volume *)
  cartridges : gmap Z Cartridge;
  steps_logged : list (Z * Step);        (* [events], on a volume *)
}.
Definition staging (w : World) : StagingArea := area (bench w).
Definition rows (w : World) : Ledger := ledger_in (staging w).
Definition with_bench (b : Bench) (w : World) : World :=
  mkWorld b (rewrite_rows w) (label_of w) (volume_capacity w) (mounts w) (cartridges w) (steps_logged w).
Definition with_staging (a : StagingArea) (w : World) : World := with_bench (with_area a (bench w)) w.
Definition with_rows (c : Ledger) (w : World) : World :=
  let a := staging w in
  with_staging (mkStagingArea (with_ledger c (shelves_of a)) (set_status a) (num_slices a) (staging_path a) (released_at a)
    (rewrites a) (unit_uuid a) (disk a)) w.
Definition set_rewrites (f : gmap Z PendingRewrite → gmap Z PendingRewrite) (w : World) : World :=
  let a := staging w in
  with_staging (mkStagingArea (shelves_of a) (set_status a) (num_slices a) (staging_path a) (released_at a)
    (f (rewrites a)) (unit_uuid a) (disk a)) w.
Definition set_rewrite_rows (f : gmap Z RewriteRow → gmap Z RewriteRow) (w : World) : World :=
  mkWorld (bench w) (f (rewrite_rows w)) (label_of w) (volume_capacity w) (mounts w) (cartridges w) (steps_logged w).
Definition set_cartridges (f : gmap Z Cartridge → gmap Z Cartridge) (w : World) : World :=
  mkWorld (bench w) (rewrite_rows w) (label_of w) (volume_capacity w) (mounts w) (f (cartridges w)) (steps_logged w).
Definition log_step (v : Z) (s : Step) (w : World) : World :=
  mkWorld (bench w) (rewrite_rows w) (label_of w) (volume_capacity w) (mounts w) (cartridges w) (steps_logged w ++ [(v, s)]).

Definition volume_labelled (w : World) (label : string) : option Z :=
  fst <$> head (filter (λ x : Z * string, x.2 = label) (map_to_list (label_of w))).
Definition volume_at (w : World) (v : Z) : option VolumeRow := volumes (rows w) !! v.

(** ** The record *)

(** [State]'s order. *)
Definition state_rank (s : RewriteState) : Z :=
  match s with RwStaged => 0 | RwRetired => 1 | RwErased => 2 | RwInitialized => 3 | RwWritten => 4 end.

Record Pending : Type := mkPending {
  p_id : Z;
  source_id : Z;
  p_destination : string;
  p_serial : option string;
  p_consent : Consent;
  p_with_staged : bool;
  p_state : RewriteState;
  stage_set_ids : list Z;
}.
Definition by_rewrite (a b : Z * PendingRewrite) : Prop := a.1 ≤ b.1.
#[export] Instance by_rewrite_dec : RelDecision by_rewrite.
Proof. intros a b. unfold by_rewrite. apply _. Defined.
(** [load_open]: the first open rewrite of a known source that meets a test. *)
Definition load_open (test : PendingRewrite → RewriteRow → bool) (w : World) : option Pending :=
  head (omap (λ x : Z * PendingRewrite,
    row ← rewrite_rows w !! x.1;
    if negb (rewrite_finished x.2) && bool_decide (is_Some (volume_at w (rewrite_source x.2))) && test x.2 row
    then Some (mkPending x.1 (rewrite_source x.2) (destination_label row) (cartridge_serial row) (rw_consent row)
                 (with_staged row) (rewrite_state x.2) (merge_sort Z.le (rewrite_sets x.2)))
    else None) (merge_sort by_rewrite (map_to_list (rewrites (staging w))))).
Definition open_for_destination (w : World) (label : string) : option Pending :=
  load_open (λ _ row, bool_decide (destination_label row = label)) w.
Definition open_for_source (w : World) (v : Z) : option Pending := load_open (λ r _, bool_decide (rewrite_source r = v)) w.

Definition at_state (s : RewriteState) (r : PendingRewrite) : PendingRewrite :=
  mkRewrite (rewrite_source r) s (rewrite_finished r) (rewrite_sets r).
Definition finished (r : PendingRewrite) : PendingRewrite :=
  mkRewrite (rewrite_source r) (rewrite_state r) true (rewrite_sets r).
Definition set_state (id : Z) (s : RewriteState) : World → World := set_rewrites (alter (at_state s) id).
Definition close (id : Z) (outcome : RewriteOutcome) (w : World) : World :=
  set_rewrite_rows (alter (λ r, mkRewriteRow (destination_label r) (cartridge_serial r) (rw_consent r) (with_staged r)
    (window_opened r) (Some outcome)) id) (set_rewrites (alter finished id) w).
Definition insert_pending (source : Z) (row : RewriteRow) (sets : list Z) (w : World) : Z * World :=
  let id := next_id (rewrites (staging w)) in
  (id, set_rewrite_rows <[id := row]> (set_rewrites <[id := mkRewrite source RwStaged false sets]> w)).
Definition open_window (id : Z) : World → World :=
  set_rewrite_rows (alter (λ r, mkRewriteRow (destination_label r) (cartridge_serial r) (rw_consent r) (with_staged r)
    true (rw_outcome r)) id).

(** ** Runs *)

Inductive StepError : Type := StepFailed.
Inductive RewriteError (E : Type) : Type :=
| NoSuchVolume
| BadLabel
| LabelTaken
| NotACopy
| HoldsRange
| UnderWay (destination : string)
| DestinationTaken
| NoCartridge
| CartridgeShared (others : list Z)
| DriveCannotWrite
| CatalogUnread
| NothingLiveThere
| TooMuchData
| NoRoom
| RewritePolicy (e : E)
| NoConsent
| HostBusy
| NoChip
| WrongCartridge
| ReadFailed (e : StepError)
| NotEverySlice
| StagedMismatch (slice : Z)
| VerifyStopped
| WouldBeRefused
| SourceBusy
| SourceChanged
| RecordVanished
| NothingPending
| NothingToResume
| EraseFailed
| EraseUnrecorded
| InitFailed
| DestinationVanished
| SealedUnread
| NotWritable
| WriteStopped
| CutByDestination (sets : list Z)
| NotReadBack.
Arguments NoSuchVolume {E}. Arguments BadLabel {E}. Arguments LabelTaken {E}. Arguments NotACopy {E}.
Arguments HoldsRange {E}. Arguments UnderWay {E} _. Arguments DestinationTaken {E}. Arguments NoCartridge {E}.
Arguments CartridgeShared {E} _. Arguments DriveCannotWrite {E}. Arguments CatalogUnread {E}. Arguments NothingLiveThere {E}.
Arguments TooMuchData {E}. Arguments NoRoom {E}. Arguments RewritePolicy {E} _. Arguments NoConsent {E}. Arguments HostBusy {E}.
Arguments NoChip {E}. Arguments WrongCartridge {E}. Arguments ReadFailed {E} _. Arguments NotEverySlice {E}.
Arguments StagedMismatch {E} _. Arguments VerifyStopped {E}. Arguments WouldBeRefused {E}. Arguments SourceBusy {E}.
Arguments SourceChanged {E}. Arguments RecordVanished {E}. Arguments NothingPending {E}. Arguments NothingToResume {E}.
Arguments EraseFailed {E}. Arguments EraseUnrecorded {E}. Arguments InitFailed {E}. Arguments DestinationVanished {E}.
Arguments SealedUnread {E}. Arguments NotWritable {E}. Arguments WriteStopped {E}. Arguments CutByDestination {E} _.
Arguments NotReadBack {E}.

(** An outcome, the state it is told in, and every durable state before it. *)
Definition Act (E A : Type) : Type := World → result (RewriteError E) A * World * list World.
#[export] Instance run_ret E : MRet (Act E) := λ A a w, (Ok a, w, []).
#[export] Instance run_fmap E : FMap (Act E) := λ A B f m w,
  match m w with
  | (Ok a, w, t) => (Ok (f a), w, t)
  | (Err e, w, t) => (Err e, w, t)
  end.
#[export] Instance run_bind E : MBind (Act E) := λ A B f m w,
  match m w with
  | (Ok a, w, t) => match f a w with (r, w', t') => (r, w', t ++ t') end
  | (Err e, w, t) => (Err e, w, t)
  end.
Section primitives.
Context {E : Type}.
Definition here : Act E World := λ w, (Ok w, w, []).
Definition changes (f : World → World) : Act E () := λ w, (Ok (), f w, [f w]).
Definition fails {A} (e : RewriteError E) : Act E A := λ w, (Err e, w, []).
Definition lifts {A} (r : result (RewriteError E) A) : Act E A := λ w, (r, w, []).
Definition refuse_if (c : bool) (e : RewriteError E) : Act E () := if c then fails e else mret ().
(** [f] on the error, then the error stands ([inspect_err], [if let Err]). *)
Definition or_else {A} (m : Act E A) (f : Act E ()) : Act E A := λ w,
  match m w with
  | (Ok a, w, t) => (Ok a, w, t)
  | (Err e, w, t) => match f w with (_, w', t') => (Err e, w', t ++ t') end
  end.
End primitives.

(** The steps that touch the drive ([RewriteSteps]); each may change the
    catalog as it goes, and die part-way. *)
Class RewriteSteps : Type := {
  host_preflight : World → bool;
  write_preflight : World → string → option (list Z) → option bool;   (* refused, or whether it tells numbers *)
  read_step : string → World → result StepError CompactReadReport * World * list World;
  erase_step : string → World → result StepError () * World * list World;
  init_step : string → World → result StepError () * World * list World;
  write_step : string → option (list Z) → World → result StepError () * World * list World;
  resume_write_step : string → World → result StepError () * World * list World;
  chip_serial : World → option string;
}.
Definition performs {E A} (to_error : StepError → RewriteError E) (m : World → result StepError A * World * list World) : Act E A :=
  λ w, match m w with (r, w', t) => (map_err to_error r, w', t) end.

(** ** Preflight *)

Record RewriteOptions : Type := mkRewriteOptions {
  opt_source : string;
  opt_destination : string;
  only_copy_on_staging : option string;
  assume_yes : bool;
  opt_with_staged : bool;
  keep_staging : bool;
}.
(** What the configuration says of the drive, and the staging disk of room. *)
Record Drive : Type := mkDrive {
  can_write : Z → bool;                  (* a volume's generation; unknown ones pass *)
  generation_capacity : Z → option Z;    (* a volume's generation, when known *)
  capacity_override : option Z;
  fill_budget_bytes : Z → Z;
  room_for : list RecoverySlice → bool;
}.
(** Who is asked: a terminal, the line typed at it, the answer to a prompt. *)
Record Operator : Type := mkOperator { is_tty : bool; typed : string; answers_yes : bool }.

Record Plan : Type := mkPlan {
  plan_source : Z;
  plan_serial : option string;
  plan_slices : list RecoverySlice;
  plan_sole : list Z;                    (* stage slices *)
  last_copy_versions : list (string * Z);
  tier2_facts : list BelowPolicy;
}.
Definition needs_typed_consent (p : Plan) : bool :=
  negb (bool_decide (plan_sole p = [])) || negb (bool_decide (last_copy_versions p = [])).

Section rewrite.
Context {E : Type} `{!RewriteSteps}.
Variables (config : Config) (resolve : Z → result E ResolvedPolicy) (drive : Drive) (operator : Operator).
(** Whether a signal has come when a staged slice is due; whether a file can
    be removed; whether the source's session lock is free. *)
Variables (signalled : Z → bool) (unlinks : File → bool) (lock_free : Z → bool).
(** The release after the write. *)
Variables (session_live : Z → bool) (commits : list Z → bool) (meanwhile : StagingArea → StagingArea) (staging_dir : string).
(** What other processes do from the staged slices verified to the source
    retired, the time the operator takes to answer within it. *)
Variables (while_asked : World → World).

Definition version_told (sh : Shelves) (slice : Z) : option (string * Z) :=
  sl ← stage_slices (ledger_of sh) !! slice;
  x ← version_row sh (slice_set_id sl);
  u ← units sh !! x.1;
  Some (unit_called u, x.2).
(** The versions a retirement empties though each slice is held elsewhere. *)
Definition last_copies (sh : Shelves) (sole : list Z) (impacts : list RetireImpact) : list (string * Z) :=
  impacts ≫= λ i, omap (λ x,
    if bool_decide (copies_after x = 0) && negb (bool_decide ((im_name i, vs_version x) ∈ omap (version_told sh) sole))
    then Some (im_name i, vs_version x) else None) (at_stake i).

Definition others_on (w : World) (cartridge v : Z) : list Z :=
  (filter (λ m : Z * Z, m.2 = cartridge ∧ m.1 ≠ v ∧
     match volume_at w m.1 with Some r => in_service_or_provisioned r | None => false end = true) (map_to_list (mounts w))).*1.
Definition planned_capacity (v capacity nominal : Z) : Z :=
  match generation_capacity drive v with
  | Some native =>
      let decided := match capacity_override drive with
                     | Some o => o
                     | None => if bool_decide (0 < nominal) then nominal else native
                     end in
      Z.min decided capacity
  | None => capacity
  end.
(** The bytes staged beside the live sets ([--with-staged]). *)
Definition staged_beside (w : World) (live_sets : list Z) : Z :=
  wrap_i64 (sumZ (omap (λ x : Z * SetStatus,
    let slices := slices_of x.1 (rows w) in
    if bool_decide (x.2 = SetStaged) && negb (bool_decide (slices = [])) && negb (bool_decide (x.1 ∈ live_sets))
    then Some (sumZ ((λ s : Z * Z, default 0 (encrypted_bytes (shelves_of (staging w)) !! s.1)) <$> slices)) else None)
    (map_to_list (set_status (staging w))))).

Definition plan_rewrite (opts : RewriteOptions) (w : World) : result (RewriteError E) Plan :=
  v ← ok_or (volume_labelled w (opt_source opts)) NoSuchVolume;
  row ← ok_or (volume_at w v) NoSuchVolume;
  let sh := shelves_of (staging w) in
  guard_err (blank_text (opt_destination opts) || bool_decide (opt_destination opts = opt_source opts)) BadLabel;;
  guard_err (bool_decide (is_Some (volume_labelled w (opt_destination opts)))) LabelTaken;;
  guard_err (negb (eligible row)) NotACopy;;
  guard_err (holds_range sh v) HoldsRange;;
  match open_for_source w v with
  | Some open => guard_err (negb (bool_decide (p_state open = RwStaged))) (UnderWay (p_destination open))
  | None => Ok ()
  end;;
  match open_for_destination w (opt_destination opts) with
  | Some open => guard_err (negb (bool_decide (source_id open = v))) DestinationTaken
  | None => Ok ()
  end;;
  cartridge ← ok_or (mounts w !! v) NoCartridge;
  cart ← ok_or (cartridges w !! cartridge) NoCartridge;
  guard_err (negb (bool_decide (others_on w cartridge v = []))) (CartridgeShared (others_on w cartridge v));;
  guard_err (negb (can_write drive v)) DriveCannotWrite;;
  slices ← ok_or (live_recovery_slices (bench w) v) CatalogUnread;
  guard_err (bool_decide (length slices = 0%nat)) NothingLiveThere;;
  let live_bytes := wrap_i64 (sumZ (rs_bytes <$> slices)) in
  let budget := fill_budget_bytes drive (Z.max 0 (planned_capacity v (default 0 (volume_capacity w !! v)) (cart_nominal cart))) in
  guard_err (bool_decide (budget < as_u64 live_bytes)) TooMuchData;;
  guard_err (opt_with_staged opts && bool_decide (budget < as_u64 (wrap_i64 (live_bytes + staged_beside w (rs_set <$> slices))))) TooMuchData;;
  guard_err (negb (room_for drive slices)) NoRoom;;
  let sole := sole_slices sh v in
  let impacts := retire_impacts sh v in
  let last := last_copies sh sole impacts in
  facts ← (if bool_decide (sole = []) && bool_decide (last = [])
           then map_err RewritePolicy (below_policy_facts sh config resolve impacts) else Ok []);
  Ok (mkPlan v (cart_serial cart) slices sole last facts).

(** [confirm_only_copy]: no flag but the word itself reaches it. *)
Definition confirm_only_copy (expected : string) (supplied : option string) : bool :=
  match supplied with
  | Some word => bool_decide (word = expected)
  | None => is_tty operator && bool_decide (trim (typed operator) = expected)
  end.
Definition confirm_prompt (yes : bool) : bool := yes || is_tty operator && answers_yes operator.
Definition consent_obtainable (p : Plan) (opts : RewriteOptions) : bool :=
  if needs_typed_consent p then
    match only_copy_on_staging opts with
    | Some word => bool_decide (word = opt_source opts)
    | None => is_tty operator
    end
  else bool_decide (length (tier2_facts p) = 0%nat) || assume_yes opts || is_tty operator.
Definition preflight (opts : RewriteOptions) (w : World) : result (RewriteError E) Plan :=
  p ← plan_rewrite opts w;
  guard_err (negb (consent_obtainable p opts)) NoConsent;;
  Ok p.
Definition consented (p : Plan) (opts : RewriteOptions) : bool :=
  if needs_typed_consent p then confirm_only_copy (opt_source opts) (only_copy_on_staging opts)
  else bool_decide (length (tier2_facts p) = 0%nat) || confirm_prompt (assume_yes opts).
Definition consent_kind (p : Plan) (opts : RewriteOptions) : Consent :=
  if needs_typed_consent p then match only_copy_on_staging opts with Some _ => TypedFlag | None => TypedLabel end
  else CopiesElsewhere.

Definition require_chip (p : Plan) (w : World) : result (RewriteError E) string :=
  have ← ok_or (chip_serial w) NoChip;
  guard_err (match plan_serial p with Some want => negb (bool_decide (want = have)) | None => false end) WrongCartridge;;
  Ok have.
Definition check_same_cartridge (p : Pending) (w : World) : result (RewriteError E) () :=
  match p_serial p with
  | None => Ok ()
  | Some want =>
      match chip_serial w with
      | Some have => guard_err (negb (bool_decide (have = want))) WrongCartridge
      | None => Err NoChip
      end
  end.

(** ** Before anything is destroyed *)

(** [verify_staged]: each staged slice as the disk holds it now. *)
Definition verify_slice (w : World) (x : StagedFile) : result (RewriteError E) () :=
  guard_err (signalled (st_slice x)) VerifyStopped;;
  ok_or (version_told (shelves_of (staging w)) (st_slice x)) CatalogUnread;;
  expected ← ok_or (slice_sha256 (bench w) !! st_slice x) CatalogUnread;
  bytes ← ok_or (encrypted_bytes (shelves_of (staging w)) !! st_slice x) CatalogUnread;
  size ← ok_or (disk (staging w) !! st_path x) (StagedMismatch (st_slice x));
  guard_err (negb (bool_decide (size = bytes))) (StagedMismatch (st_slice x));;
  guard_err (negb (bool_decide (file_sha256 (bench w) !! st_path x = Some expected))) (StagedMismatch (st_slice x)).
Fixpoint verify_staged (l : list StagedFile) (w : World) : result (RewriteError E) () :=
  match l with [] => Ok () | x :: l => verify_slice w x;; verify_staged l w end.

Fixpoint each {A} (f : A → Act E ()) (l : list A) : Act E () :=
  match l with [] => mret () | x :: l => f x;; each f l end.
(** [restore_staging]. *)
Definition restored (x : StagedFile) : option File :=
  match st_prior x with Some p => if bool_decide (p = st_path x) then None else Some p | None => None end.
Definition restore_path (x : StagedFile) (a : StagingArea) : StagingArea :=
  mkStagingArea (shelves_of a) (set_status a) (num_slices a)
    (match restored x with Some f => <[st_slice x := f]> (staging_path a) | None => delete (st_slice x) (staging_path a) end)
    (released_at a) (rewrites a) (unit_uuid a) (disk a).
Definition restore_status (set : Z) (status : SetStatus) (a : StagingArea) : StagingArea :=
  set_set_status (alter (λ s, if bool_decide (s = SetStaged) then status else s) set) a.
Definition restore_staging (l : list StagedFile) (prior : list (Z * SetStatus)) : Act E () :=
  each (λ x, changes (λ w, with_bench (remove_file unlinks (st_path x) (bench w)) w);;
             changes (λ w, with_staging (restore_path x (staging w)) w)) l;;
  each (λ x, changes (λ w, with_staging (restore_status x.1 x.2 (staging w)) w)) prior.
Definition prior_statuses (p : Plan) (w : World) : result (RewriteError E) (list (Z * SetStatus)) :=
  ok_or (mapM (λ set, (λ s, (set, s)) <$> set_status (staging w) !! set) (remove_dups (rs_set <$> plan_slices p))) CatalogUnread.

(** [free_cartridge_if_last_live]. *)
Definition free_cartridge_if_last_live (v : Z) (w : World) : World :=
  match mounts w !! v with
  | Some c =>
      if existsb (λ m : Z * Z, bool_decide (m.2 = c) && negb (bool_decide (m.1 = v))
                    && match volume_at w m.1 with Some r => in_service r | None => false end) (map_to_list (mounts w))
      then w
      else set_cartridges (alter (λ k, if bool_decide (cart_status k = CartInUse)
                                       then mkCartridge (cart_serial k) (cart_nominal k) CartPendingErase else k) c) w
  | None => w
  end.
(** The retirement, one transaction. *)
Definition retire_source (v id : Z) (w : World) : World :=
  let w := with_rows (set_volume v (with_volume_status VRetired) (rows w)) w in
  let w := log_step v SourceRetired w in
  set_state id RwRetired (free_cartridge_if_last_live v w).

(** ** The destination *)

Record DestinationFacts : Type := mkFacts {
  dest_status : VolumeStatus;
  resumable_writes : Z;
  fully_read_back : bool;
  sealed_not_read_back : bool;
  cut_pending : list Z;
}.
Section facts.
Variables (c : Ledger) (v set : Z).
Definition dest_has (s : WriteStatus) (P : WriteRow → bool) : bool :=
  existsb (λ kr : Z * WriteRow, bool_decide (volume_id kr.2 = v) && bool_decide (stage_set_id kr.2 = set)
             && bool_decide (write_status kr.2 = s) && P kr.2) (map_to_list (writes c)).
Definition set_completed : bool := dest_has WCompleted (λ _, true).
Definition set_verified_there : bool := dest_has WCompleted write_verified.
Definition set_cut : bool := dest_has WCut (λ _, true).
Definition set_done : bool := if set_cut then fully_read_back_copy c set else set_completed && set_verified_there.
End facts.
Definition destination_facts (label : string) (sets : list Z) (w : World) : option DestinationFacts :=
  v ← volume_labelled w label;
  row ← volume_at w v;
  let c := rows w in
  Some (mkFacts (volume_status row)
    (Z.of_nat (length (filter (λ kr : Z * WriteRow, volume_id kr.2 = v ∧ write_status kr.2 ∈ [WPlanned; WInProgress; WInterrupted])
                         (map_to_list (writes c)))))
    (negb (bool_decide (sets = [])) && forallb (set_done c v) sets)
    (existsb (λ s, negb (set_cut c v s) && set_completed c v s && negb (set_verified_there c v s)) sets)
    (filter (λ s, set_cut c v s = true ∧ fully_read_back_copy c s = false) sets)).

(** [release_staging_after_write], its warnings left out. *)
Definition release_after_write (label : string) (keep : bool) (w : World) : World :=
  if keep then w
  else match volume_labelled w label with
       | Some v =>
           let ids := unit_ids_written_to (staging w) v in
           if bool_decide (ids = []) then w
           else with_staging (release_if_covered_holding session_live commits unlinks meanwhile staging_dir config resolve
                                ids CopyFloor (staging w)).2 w
       | None => w
       end.

(** [finish_from]: erase, init, write, close, release, each unless done. *)
Definition source_label (p : Pending) (w : World) : string := default ""%string (label_of w !! source_id p).
Definition finish_erase (p : Pending) : Act E () :=
  w ← here;
  lifts (check_same_cartridge p w);;
  changes (open_window (p_id p));;
  changes (log_step (source_id p) RwWindowOpened);;
  performs (λ _, EraseFailed) (erase_step (source_label p w));;
  w ← here;
  row ← lifts (ok_or (volume_at w (source_id p)) CatalogUnread);
  refuse_if (negb (bool_decide (volume_status row = VErased))) EraseUnrecorded;;
  changes (set_state (p_id p) RwErased);;
  changes (log_step (source_id p) RwErasedStep).
Definition finish_init (p : Pending) : Act E DestinationFacts :=
  w ← here;
  match destination_facts (p_destination p) (stage_set_ids p) w with
  | Some d => mret d
  | None =>
      lifts (check_same_cartridge p w);;
      performs (λ _, InitFailed) (init_step (p_destination p));;
      changes (set_state (p_id p) RwInitialized);;
      changes (log_step (source_id p) RwInitializedStep);;
      w ← here;
      lifts (ok_or (destination_facts (p_destination p) (stage_set_ids p) w) DestinationVanished)
  end.
Definition finish_write (p : Pending) (d : DestinationFacts) : Act E () :=
  if fully_read_back d then mret ()
  else
    refuse_if (negb (bool_decide (cut_pending d = []))) (CutByDestination (cut_pending d));;
    refuse_if (sealed_not_read_back d && bool_decide (resumable_writes d = 0)) SealedUnread;;
    or_else
      (if bool_decide (0 < resumable_writes d) then performs (λ _, WriteStopped) (resume_write_step (p_destination p))
       else if bool_decide (dest_status d = VInitialized)
            then performs (λ _, WriteStopped) (write_step (p_destination p) (if p_with_staged p then None else Some (stage_set_ids p)))
            else fails NotWritable)
      (changes (log_step (source_id p) RwStopped)).
Definition finish_close (p : Pending) (keep : bool) : Act E () :=
  w ← here;
  match destination_facts (p_destination p) (stage_set_ids p) w with
  | Some d =>
      if negb (bool_decide (cut_pending d = [])) then
        changes (log_step (source_id p) RwCut);; fails (CutByDestination (cut_pending d))
      else if fully_read_back d then
        changes (set_state (p_id p) RwWritten);;
        changes (log_step (source_id p) RwWrittenStep);;
        changes (close (p_id p) RwCompleted);;
        changes (log_step (source_id p) RwWindowClosed);;
        changes (release_after_write (p_destination p) keep)
      else fails NotReadBack
  | None => fails NotReadBack
  end.
Definition finish_from (p : Pending) (keep : bool) : Act E () :=
  w ← here;
  row ← lifts (ok_or (volume_at w (source_id p)) CatalogUnread);
  let erase_done := bool_decide (volume_status row = VErased)
    || bool_decide (is_Some (destination_facts (p_destination p) (stage_set_ids p) w))
    || bool_decide (state_rank RwErased ≤ state_rank (p_state p)) in
  (if erase_done then mret () else finish_erase p);;
  d ← finish_init p;
  finish_write p d;;
  finish_close p keep.

(** ** The commands *)

Definition abandon (id source : Z) (l : list StagedFile) (prior : list (Z * SetStatus)) : Act E () :=
  restore_staging l prior;;
  changes (close id RwAbandoned);;
  changes (log_step source RwAbandonedStep).

(** From the slices staged to the source retired. *)
Definition verify_and_retire (opts : RewriteOptions) (p : Plan) (read : CompactReadReport) (prior : list (Z * SetStatus)) (id : Z) : Act E () :=
  let v := plan_source p in
  let abandoned {A} (e : RewriteError E) : Act E A := abandon id v (staged read) prior;; fails e in
  w ← here;
  match verify_staged (staged read) w with
  | Err e => abandoned e
  | Ok _ => mret ()
  end;;
  changes (log_step v RwStagedVerified);;
  w ← here;
  match write_preflight w (opt_destination opts) (if opt_with_staged opts then None else Some (staged_sets read)) with
  | Some numbers => if numbers then changes (log_step v RwCapacityChecked) else mret ()
  | None => abandoned WouldBeRefused
  end;;
  changes while_asked;;
  (if consented p opts then changes (log_step v RwConsented) else abandoned NoConsent);;
  (if lock_free v then mret () else abandoned SourceBusy);;
  w ← here;
  if match volume_at w v with Some r => eligible r | None => false end
  then changes (retire_source v id)
  else abandoned SourceChanged.

(** What a run tells: the record closed with nothing written, or not. *)
Definition rewrite (opts : RewriteOptions) : Act E bool :=
  w ← here;
  p ← lifts (preflight opts w);
  let v := plan_source p in
  refuse_if (negb (host_preflight w)) HostBusy;;
  chip ← lifts (require_chip p w);
  match open_for_source w v with
  | Some stale => changes (close (p_id stale) RwAbandoned);; changes (log_step v RwAbandonedStep)
  | None => mret ()
  end;;
  w ← here;
  prior ← lifts (prior_statuses p w);
  changes (log_step v RwStarted);;
  read ← performs ReadFailed (read_step (opt_source opts));
  (if bool_decide (staged_sets read = []) || bool_decide (0 < slices_skipped read)
      || negb (bool_decide (length (staged read) = length (plan_slices p)))
   then restore_staging (staged read) prior;; fails NotEverySlice else mret ());;
  w ← here;
  let row := mkRewriteRow (opt_destination opts) (Some chip) (consent_kind p opts) (opt_with_staged opts) false None in
  let '(id, inserted) := insert_pending v row (staged_sets read) w in
  changes (λ _, inserted);;
  verify_and_retire opts p read prior id;;
  w ← here;
  pending ← lifts (ok_or (open_for_destination w (opt_destination opts)) RecordVanished);
  finish_from pending (keep_staging opts);;
  mret false.

(** [volume rewrite --resume]. *)
Definition resume (destination : string) (keep : bool) : Act E bool :=
  w ← here;
  p ← lifts (ok_or (open_for_destination w destination) NothingPending);
  refuse_if (bool_decide (p_state p = RwStaged)) NothingToResume;;
  changes (log_step (source_id p) RwResumed);;
  w ← here;
  let held := holds (staging w) in
  let any_held := existsb (λ set, bool_decide (is_Some (held !! set))) (stage_set_ids p) in
  let dest_sealed := match destination_facts destination (stage_set_ids p) w with
                     | Some d => bool_decide (dest_status d = VSealed) | None => false end in
  statuses ← (if any_held || dest_sealed then mret None
              else Some <$> lifts (ok_or (mapM (λ set, set_status (staging w) !! set) (stage_set_ids p)) CatalogUnread));
  match statuses with
  | Some l =>
      if forallb (λ s, bool_decide (s = SetStaged)) l then finish_from p keep;; mret false
      else changes (close (p_id p) RwAbandoned);; changes (log_step (source_id p) RwAbandonedStep);; mret true
  | None => finish_from p keep;; mret false
  end.
End rewrite.
