(* ===== verification/RewriteSound.v ===== *)
(** * Runs of a rewrite under an invariant

    A small logic of runs whose invariant holds in every state a crash may
    leave, and what a rewrite's sets are kept by once its source is retired:
    a copy read back in full, or the whole of the set staged and held. *)

From S2P Require Import Prelude LayoutModel Session Ledger Coverage Release Staging StagingGate StagingSound CompactRead Rewrite.
Local Open Scope Z_scope.

(** ** Runs under an invariant *)

Section logic.
Context {E : Type}.

(** From a state in [I] and [P] every durable state of the run, and the one
    its outcome is told in, is in [I]; a success is told in a state of [Q]. *)
Definition always {A} (I P : World → Prop) (m : Act E A) (Q : A → World → Prop) : Prop :=
  ∀ w, I w → P w → match m w with (r, w', t) => Forall I t ∧ I w' ∧ (∀ a, r = Ok a → Q a w') end.

Lemma always_ret {A} I P (a : A) : always I P (mret a) (λ b w, b = a ∧ P w).
Proof. intros w Hi Hp. split; [constructor|]. split; [done|]. cbn. intros b Hb. by injection Hb as ->. Qed.
Lemma always_here I P : always I P here (λ b w, b = w ∧ I w ∧ P w).
Proof. intros w Hi Hp. split; [constructor|]. split; [done|]. cbn. intros b Hb. by injection Hb as <-. Qed.
Lemma always_fails {A} I P e (Q : A → World → Prop) : always I P (fails e) Q.
Proof. intros w Hi Hp. split; [constructor|]. split; [done|]. cbn. intros b Hb. discriminate. Qed.
Lemma always_lifts {A} I P (r : result (RewriteError E) A) : always I P (lifts r) (λ a w, r = Ok a ∧ P w).
Proof. intros w Hi Hp. split; [constructor|]. split; [done|]. cbn. by intros b ->. Qed.
Lemma always_changes I P f (Q : World → Prop) : (∀ w, I w → P w → I (f w) ∧ Q (f w)) → always I P (changes f) (λ _, Q).
Proof. intros H w Hi Hp. destruct (H w Hi Hp). split; [by repeat constructor|]. by split. Qed.

Lemma always_bind {A B} I P (m : Act E A) (f : A → Act E B) Q R :
  always I P m Q → (∀ a, always I (Q a) (f a) R) → always I P (m ≫= f) R.
Proof.
  intros Hm Hf w Hi Hp. specialize (Hm w Hi Hp). unfold mbind, run_bind. destruct (m w) as [[[a|e] w1] t1].
  - destruct Hm as (Ht1 & Hi1 & HQ). specialize (Hf a w1 Hi1 (HQ a eq_refl)). destruct (f a w1) as [[r2 w2] t2].
    destruct Hf as (Ht2 & Hi2 & HR). split; [by apply Forall_app|done].
  - destruct Hm as (Ht1 & Hi1 & _). split; [done|]. split; [done|]. by intros b [=].
Qed.
Lemma always_conseq {A} I (P P' : World → Prop) (m : Act E A) (Q Q' : A → World → Prop) :
  always I P' m Q' → (∀ w, I w → P w → P' w) → (∀ a w, Q' a w → Q a w) → always I P m Q.
Proof.
  intros Hm HP HQ w Hi Hp. specialize (Hm w Hi (HP w Hi Hp)). destruct (m w) as [[r w'] t]. destruct Hm as (Ht & Hi' & Hr). eauto.
Qed.
(** The error path: nothing is known but the invariant. *)
Lemma always_or_else {A} I P (m : Act E A) (f : Act E ()) Q :
  always I P m Q → always I (λ _, True) f (λ _ _, True) → always I P (or_else m f) Q.
Proof.
  intros Hm Hf w Hi Hp. specialize (Hm w Hi Hp). unfold or_else. destruct (m w) as [[[a|e] w1] t1]; [done|].
  destruct Hm as (Ht1 & Hi1 & _). specialize (Hf w1 Hi1 Logic.I). destruct (f w1) as [[r2 w2] t2]. destruct Hf as (Ht2 & Hi2 & _).
  split; [by apply Forall_app|]. split; [done|]. by intros a [=].
Qed.
Lemma always_performs {A} I P to_error (m : World → result StepError A * World * list World) (Q : A → World → Prop) :
  (∀ w, I w → P w → match m w with (r, w', t) => Forall I t ∧ I w' ∧ ∀ a, r = Ok a → Q a w' end) → always I P (performs to_error m) Q.
Proof.
  intros Hm w Hi Hp. specialize (Hm w Hi Hp). unfold performs. destruct (m w) as [[[a|e] w'] t]; cbn; destruct Hm as (? & ? & HQ).
  - split; [done|]. split; [done|]. intros b Hb. injection Hb as <-. by apply HQ.
  - split; [done|]. split; [done|]. by intros b [=].
Qed.
Lemma always_refuse I P c (e : RewriteError E) : always I P (refuse_if c e) (λ _ w, c = false ∧ P w).
Proof. unfold refuse_if. destruct c; [apply always_fails|]. eapply always_conseq; [apply always_ret|intros w _ Hp; exact Hp|naive_solver]. Qed.
Lemma always_each {A} I P (f : A → Act E ()) l : (∀ x, always I P (f x) (λ _, P)) → always I P (each f l) (λ _, P).
Proof.
  intros Hf. induction l as [|x l IH]; cbn [each].
  - eapply always_conseq; [apply always_ret|done|naive_solver].
  - eapply always_bind; [apply Hf|]. intros []. apply IH.
Qed.
Lemma always_weaken {A} I (P : World → Prop) (m : Act E A) Q : always I (λ _, True) m Q → always I P m Q.
Proof. intros Hm. by eapply always_conseq. Qed.
Lemma always_fmap_lifts {A B} I P (f : A → B) (r : result (RewriteError E) A) : always I P (f <$> lifts r) (λ _, P).
Proof. intros w Hi Hp. unfold lifts, fmap, run_fmap. destruct r; (split; [constructor|]); by split. Qed.
Lemma always_pure {A} I (P : Prop) (m : Act E A) Q : (P → always I (λ _, True) m Q) → always I (λ _, P) m Q.
Proof. intros Hm w Hi Hp. by apply Hm. Qed.
Lemma always_given {A} I (P : Prop) (P' : World → Prop) (m : Act E A) Q : (P → always I P' m Q) → always I (λ w, P ∧ P' w) m Q.
Proof. intros Hm w Hi [Hp Hp']. by apply Hm. Qed.
Lemma always_sub {A} (I J P : World → Prop) (m : Act E A) Q : (∀ w, J w → I w) → always J P m Q →
  always I (λ w, J w ∧ P w) m (λ a w, J w ∧ Q a w).
Proof.
  intros HJ Hm w _ [Hj Hp]. specialize (Hm w Hj Hp). destruct (m w) as [[r w'] t]. destruct Hm as (Ht & Hj' & Hq).
  split; [by eapply Forall_impl|]. split; [by apply HJ|]. intros a Ha. split; [done|by apply Hq].
Qed.

(** A run that leaves what it was told. *)
Definition passes {A} (I P : World → Prop) (m : Act E A) : Prop := always I P m (λ _, P).
Lemma passes_bind {A B} I P (m : Act E A) (f : A → Act E B) Q : passes I P m → (∀ a, always I P (f a) Q) → always I P (m ≫= f) Q.
Proof. apply always_bind. Qed.
Lemma passes_ret {A} I P (a : A) : passes I P (mret a).
Proof. eapply always_conseq; [apply always_ret|intros w _ Hp; exact Hp|by intros b w [_ Hp]]. Qed.
Lemma passes_here I P : passes I P here.
Proof. eapply always_conseq; [apply always_here|intros w _ Hp; exact Hp|by intros b w (_ & _ & Hp)]. Qed.
Lemma passes_lifts {A} I P (r : result (RewriteError E) A) : passes I P (lifts r).
Proof. eapply always_conseq; [apply always_lifts|intros w _ Hp; exact Hp|by intros b w [_ Hp]]. Qed.
Lemma passes_refuse I P c e : passes I P (refuse_if c e).
Proof. eapply always_conseq; [apply always_refuse|intros w _ Hp; exact Hp|by intros b w [_ Hp]]. Qed.
End logic.
#[export] Hint Resolve passes_ret passes_here passes_lifts passes_refuse : core.

(** ** What other steps leave a rewrite *)

(** A slice of the volume it was read from. *)
Definition source_holds (v : Z) (slice : Z) (w : World) : Prop :=
  (∃ row, volume_at w v = Some row ∧ eligible row = true) ∧
  ∃ write wr pos, writes (rows w) !! write = Some wr ∧ volume_id wr = v ∧ write_status wr = WCompleted ∧
    write_positions (rows w) !! (write, slice) = Some pos ∧ row_status pos = PWritten.

(** The destination holds no write read back in full but as a copy. *)
Definition destination_sound (label : string) (w : World) : Prop :=
  ∀ v row set, volume_labelled w label = Some v → volume_at w v = Some row →
    set_verified_there (rows w) v set = true → eligible row = true.

(** A record still open: its source, its sets, where it leads. *)
Definition record_open (id v : Z) (dest : string) (sets : list Z) (retired : Prop) (w : World) : Prop :=
  ∃ s row, rewrites (staging w) !! id = Some (mkRewrite v s false sets) ∧ (retired → s ≠ RwStaged) ∧
    rewrite_rows w !! id = Some row ∧ destination_label row = dest.
(** What a record says, open or not. *)
Definition record_names (id : Z) (dest : string) (sets : list Z) (w : World) : Prop :=
  ∀ r row, rewrites (staging w) !! id = Some r → rewrite_rows w !! id = Some row → destination_label row = dest ∧ rewrite_sets r = sets.

Record calm (w w' : World) : Prop := {
  calm_staging : same_staging (staging w) (staging w');
  calm_file : file_sha256 (bench w') = file_sha256 (bench w);
  calm_slice : slice_sha256 (bench w') = slice_sha256 (bench w);
  calm_open : ∀ id v dest sets P, record_open id v dest sets P w → record_open id v dest sets P w';
  calm_names : ∀ id dest sets, record_names id dest sets w → record_names id dest sets w';
  calm_labels : ∀ v label, label_of w !! v = Some label → label_of w' !! v = Some label;
  calm_volumes : ∀ v, is_Some (volume_at w v) → is_Some (volume_at w' v);
  calm_copies : ∀ set, fully_read_back_copy (rows w) set = true → fully_read_back_copy (rows w') set = true;
  calm_destination : ∀ dest, destination_sound dest w → destination_sound dest w';
}.

Lemma same_staging_refl st : same_staging st st.
Proof. by split. Qed.

Lemma same_staging_trans a b c : same_staging a b → same_staging b c → same_staging a c.
Proof. intros [] []. split; congruence. Qed.

(** A change to the records, the events or the cartridges alone. *)
Lemma calm_change w w' : same_staging (staging w) (staging w') → shelves_of (staging w') = shelves_of (staging w) →
  file_sha256 (bench w') = file_sha256 (bench w) → slice_sha256 (bench w') = slice_sha256 (bench w) → label_of w' = label_of w →
  (∀ id v dest sets P, record_open id v dest sets P w → record_open id v dest sets P w') →
  (∀ id dest sets, record_names id dest sets w → record_names id dest sets w') → calm w w'.
Proof.
  intros Hs Hsh Hf Hsl Hl Ho Hn. assert (rows w' = rows w) as Hr by (unfold rows, ledger_in; by rewrite Hsh).
  split; try done; unfold volume_at, destination_sound, volume_labelled, volume_at; rewrite ?Hr, ?Hl; done.
Qed.

Lemma calm_refl w : calm w w.
Proof. by apply calm_change. Qed.
Lemma log_step_calm v s w : calm w (log_step v s w).
Proof. by apply calm_change. Qed.
Lemma open_window_calm id w : calm w (open_window id w).
Proof.
  apply calm_change; try done.
  - intros id' v dest sets P (s & row & Hr & Hs & Hrow & Hd). exists s. destruct (decide (id' = id)) as [->|Hne].
    + eexists. cbn. rewrite lookup_alter_eq, Hrow. by repeat split.
    + exists row. cbn. rewrite lookup_alter_ne by done. by repeat split.
  - intros id' dest sets Hn r row Hr. cbn. destruct (decide (id' = id)) as [->|Hne].
    + rewrite lookup_alter_eq. intros (row' & Hrow & ->)%fmap_Some. cbn. by eapply Hn.
    + rewrite lookup_alter_ne by done. by apply Hn.
Qed.
Lemma set_state_calm id s w : s ≠ RwStaged → calm w (set_state id s w).
Proof.
  intros Hs. apply calm_change; try done.
  - intros id' v dest sets P (s' & row & Hr & Hs' & Hrow & Hd). unfold record_open. cbn. destruct (decide (id' = id)) as [->|Hne].
    + exists s, row. rewrite lookup_alter_eq, Hr. cbn. by repeat split.
    + exists s', row. rewrite lookup_alter_ne by done. by repeat split.
  - intros id' dest sets Hn r row. cbn. destruct (decide (id' = id)) as [->|Hne].
    + rewrite lookup_alter_eq. intros (r' & Hr & ->)%fmap_Some Hrow. cbn. by eapply Hn.
    + rewrite lookup_alter_ne by done. by apply Hn.
Qed.

(** ** What keeps a set *)

(** The bytes a slice names, as the catalog recorded them. *)
Definition slice_staged (w : World) (slice : Z) : Prop :=
  ∃ f bytes sha, staging_path (staging w) !! slice = Some f ∧
    disk (staging w) !! f = Some bytes ∧ encrypted_bytes (shelves_of (staging w)) !! slice = Some bytes ∧
    file_sha256 (bench w) !! f = Some sha ∧ slice_sha256 (bench w) !! slice = Some sha.
Definition staged_whole (w : World) (set : Z) : Prop :=
  set_status (staging w) !! set = Some SetStaged ∧
  ∀ slice n, stage_slices (rows w) !! slice = Some (mkStageSlice set n) → slice_staged w slice.
Definition copied (w : World) (set : Z) : Prop := fully_read_back_copy (rows w) set = true.
(** The record past the retirement, its sets copied or whole on disk. *)
Definition guarded (id v : Z) (dest : string) (sets : list Z) (w : World) : Prop :=
  record_open id v dest sets True w ∧ is_Some (volume_at w v) ∧ ∀ set, set ∈ sets → copied w set ∨ staged_whole w set.
Definition guarded_or_copied (id v : Z) (dest : string) (sets : list Z) (w : World) : Prop :=
  guarded id v dest sets w ∨ ∀ set, set ∈ sets → copied w set.

Lemma staged_whole_calm w w' set : calm w w' → staged_whole w set → staged_whole w' set.
Proof.
  intros [Hs Hf Hsl _ _ _ _ _ _] [Hst Hw]. destruct Hs as [S1 S2 S3 S4 S5 S6 S7 S8 S9 S10 S11]. split; [by rewrite S1|].
  intros slice n Hn. unfold rows in Hn. rewrite S7 in Hn. destruct (Hw slice n Hn) as (f & b & sha & H1 & H2 & H3 & H4 & H5).
  exists f, b, sha. by rewrite S3, S6, S11, Hf, Hsl.
Qed.
Lemma guarded_calm id v dest sets w w' : calm w w' → guarded id v dest sets w → guarded id v dest sets w'.
Proof.
  intros Hc (Ho & Hv & Hs). split; [by apply Hc|]. split; [by apply Hc|]. intros set Hin.
  destruct (Hs set Hin) as [Hcp|Hw]; [left; by apply Hc|right; by eapply staged_whole_calm].
Qed.

(** ** The hold *)

Lemma hold_rows_elem st set h : (set, h) ∈ hold_rows st ↔
  ∃ id r, rewrites st !! id = Some r ∧ rewrite_finished r = false ∧ rewrite_state r ≠ RwStaged ∧
    is_Some (volumes (ledger_in st) !! rewrite_source r) ∧ set ∈ rewrite_sets r ∧
    fully_read_back_copy (ledger_in st) set = false ∧ h = mkHold id (rewrite_source r) (rewrite_state r).
Proof.
  unfold hold_rows. rewrite list_elem_of_bind. split.
  - intros ([id r] & Hin & Hr%elem_of_map_to_list). cbn in *. exists id, r. split; [done|].
    destruct (negb (rewrite_finished r) && _ && _) eqn:Hc; [|by apply not_elem_of_nil in Hin].
    rewrite !andb_true_iff, !negb_true_iff, bool_decide_eq_true, bool_decide_eq_false in Hc.
    apply list_elem_of_fmap in Hin as (x & [= -> ->] & [Hf Hx]%list_elem_of_filter). naive_solver.
  - intros (id & r & Hr & Hf & Hst & Hv & Hin & Hc & ->). exists (id, r). cbn. split; [|by apply elem_of_map_to_list].
    rewrite Hf, bool_decide_eq_false_2, bool_decide_eq_true_2 by done. cbn. apply list_elem_of_fmap. exists set. split; [done|].
    by apply list_elem_of_filter.
Qed.

Lemma insert_all_lookup {A} (l : list (Z * A)) (m : gmap Z A) k :
  is_Some (foldl (λ m x, <[x.1 := x.2]> m) m l !! k) ↔ is_Some (m !! k) ∨ k ∈ l.*1.
Proof.
  revert m. induction l as [|[i x] l IH]; intros m; cbn; [set_solver|]. rewrite IH, elem_of_cons.
  destruct (decide (k = i)) as [->|Hne]; [rewrite lookup_insert_eq; naive_solver|rewrite lookup_insert_ne by done; naive_solver].
Qed.
Lemma holds_elem st set : is_Some (holds st !! set) ↔ ∃ h, (set, h) ∈ hold_rows st.
Proof.
  unfold holds. rewrite insert_all_lookup, lookup_empty, list_elem_of_fmap. split.
  - intros [[? [=]]|([s h] & -> & Hin)]. eauto.
  - intros [h Hin]. right. by exists (set, h).
Qed.

(** A guarded set is copied, or held. *)
Lemma guarded_holds id v dest sets w set : guarded id v dest sets w → set ∈ sets → ¬ copied w set → is_Some (holds (staging w) !! set).
Proof.
  intros ((s & row & Hr & Hs & _) & Hv & _) Hin Hc. apply holds_elem. eexists. apply hold_rows_elem.
  eexists id, _. split; [exact Hr|]. cbn. split; [done|]. split; [by apply Hs|]. split; [done|]. split; [done|]. split; [|done].
  by apply not_true_is_false.
Qed.

Lemma labelled_some w label v : volume_labelled w label = Some v → label_of w !! v = Some label.
Proof.
  unfold volume_labelled. intros ([v' l] & Hh & ->)%fmap_Some. apply head_Some_elem_of, list_elem_of_filter in Hh as [<- Hin].
  by apply elem_of_map_to_list.
Qed.

(** ** The record found *)

Lemma load_open_some test w p : load_open test w = Some p →
  ∃ r row, rewrites (staging w) !! p_id p = Some r ∧ rewrite_rows w !! p_id p = Some row ∧ rewrite_finished r = false ∧
    test r row = true ∧ source_id p = rewrite_source r ∧ p_destination p = destination_label row ∧ p_state p = rewrite_state r ∧
    stage_set_ids p ≡ₚ rewrite_sets r.
Proof.
  unfold load_open. intros Hp. apply head_Some_elem_of, list_elem_of_omap in Hp as ([id r] & Hin & Hp). cbn in Hp.
  rewrite merge_sort_Permutation in Hin. apply elem_of_map_to_list in Hin.
  apply bind_Some in Hp as (row & Hrow & Hp). destruct (_ && _) eqn:Hc; [|done]. injection Hp as <-. cbn.
  rewrite !andb_true_iff, negb_true_iff in Hc. exists r, row. repeat split; try done; try apply Hc. apply merge_sort_Permutation.
Qed.

(** The record's sets and destination, when it is the one a run was given. *)
Definition leads (id : Z) (dest : string) (sets : list Z) (p : Pending) : Prop :=
  p_id p = id → p_destination p = dest ∧ stage_set_ids p ≡ₚ sets.
Lemma load_open_leads test w p id dest sets : load_open test w = Some p → record_names id dest sets w → leads id dest sets p.
Proof.
  intros (r & row & Hr & Hrow & _ & _ & _ & Hd & _ & Hs)%load_open_some Hn Heq. rewrite Heq in *.
  destruct (Hn _ _ Hr Hrow) as [<- <-]. done.
Qed.

(** ** The copies the close asks for *)

Lemma dest_has_some c v set s P : dest_has c v set s P = true ↔
  ∃ k wr, writes c !! k = Some wr ∧ volume_id wr = v ∧ stage_set_id wr = set ∧ write_status wr = s ∧ P wr = true.
Proof.
  unfold dest_has. rewrite existsb_exists. split.
  - intros ([k wr] & Hin & Hc). rewrite <- list_elem_of_In, elem_of_map_to_list in Hin. cbn in Hc.
    rewrite !andb_true_iff, !bool_decide_eq_true in Hc. exists k, wr. naive_solver.
  - intros (k & wr & Hk & <- & <- & <- & HP). exists (k, wr). rewrite <- list_elem_of_In, elem_of_map_to_list. split; [done|].
    cbn. by rewrite !bool_decide_eq_true_2.
Qed.
Lemma fully_read_back_copy_some c set : fully_read_back_copy c set = true ↔
  ∃ k wr row, writes c !! k = Some wr ∧ stage_set_id wr = set ∧ write_status wr = WCompleted ∧ write_verified wr = true ∧
    volumes c !! volume_id wr = Some row ∧ eligible row = true.
Proof.
  unfold fully_read_back_copy. rewrite existsb_exists. split.
  - intros ([k wr] & Hin & Hc). rewrite <- list_elem_of_In, elem_of_map_to_list in Hin. cbn in Hc.
    rewrite !andb_true_iff, !bool_decide_eq_true in Hc. destruct (volumes c !! volume_id wr) as [row|] eqn:Hv; [|naive_solver].
    exists k, wr, row. naive_solver.
  - intros (k & wr & row & Hk & <- & Hs & Hver & Hv & He). exists (k, wr). rewrite <- list_elem_of_In, elem_of_map_to_list. split; [done|].
    cbn. by rewrite !bool_decide_eq_true_2, Hver, Hv.
Qed.

Lemma facts_copied dest sets w d : destination_sound dest w → destination_facts dest sets w = Some d → fully_read_back d = true →
  ∀ set, set ∈ sets → copied w set.
Proof.
  intros Hsound Hd Hf set Hin. unfold destination_facts in Hd. apply bind_Some in Hd as (v & Hv & Hd).
  apply bind_Some in Hd as (row & Hrow & [= <-]). cbn in Hf. apply andb_true_iff in Hf as [_ Hf].
  rewrite forallb_forall in Hf. specialize (Hf set ltac:(by apply list_elem_of_In)). unfold set_done in Hf.
  destruct (set_cut _ _ _); [done|]. apply andb_true_iff in Hf as [_ Hf]. pose proof (Hsound _ _ _ Hv Hrow Hf) as He.
  apply dest_has_some in Hf as (k & wr & Hk & Hwv & Hs & Hws & Hver). apply fully_read_back_copy_some.
  exists k, wr, row. repeat split; try done. by rewrite Hwv.
Qed.

(** ** What is read, and what is checked of it *)

Record reads_whole (rep : CompactReadReport) (w : World) : Prop := {
  read_sets : ∀ set, set ∈ staged_sets rep → set_status (staging w) !! set = Some SetStaged;
  read_slices : ∀ set slice n, set ∈ staged_sets rep → stage_slices (rows w) !! slice = Some (mkStageSlice set n) →
    ∃ x, x ∈ staged rep ∧ st_slice x = slice;
  read_paths : ∀ x, x ∈ staged rep → staging_path (staging w) !! st_slice x = Some (st_path x);
}.
Lemma reads_whole_calm rep w w' : same_staging (staging w) (staging w') → reads_whole rep w → reads_whole rep w'.
Proof.
  intros Hs [H1 H2 H3]. split.
  - intros set Hin. rewrite (same_status _ _ Hs). by apply H1.
  - intros set slice n Hin Hn. unfold rows in Hn. rewrite (same_slices _ _ Hs) in Hn. by eapply H2.
  - intros x Hx. rewrite (same_path _ _ Hs). by apply H3.
Qed.

Section verify.
Context {E : Type}.
Variables (signalled : Z → bool).

Lemma verify_slice_staged x w u : @verify_slice E signalled w x = Ok u → staging_path (staging w) !! st_slice x = Some (st_path x) →
  slice_staged w (st_slice x).
Proof.
  unfold verify_slice. intros Hv Hp.
  apply bind_ok in Hv as (_ & _ & Hv). apply bind_ok in Hv as (_ & _ & Hv).
  apply bind_ok in Hv as (sha & Hsha%ok_or_ok & Hv). apply bind_ok in Hv as (bytes & Hb%ok_or_ok & Hv).
  apply bind_ok in Hv as (size & Hd%ok_or_ok & Hv). apply bind_ok in Hv as (_ & Hs%guard_err_ok & Hf%guard_err_ok).
  rewrite negb_false_iff, bool_decide_eq_true in Hs, Hf. subst size. by exists (st_path x), bytes, sha.
Qed.
Lemma verify_staged_ok l w u : @verify_staged E signalled l w = Ok u → ∀ x, x ∈ l →
  staging_path (staging w) !! st_slice x = Some (st_path x) → slice_staged w (st_slice x).
Proof.
  induction l as [|y l IH]; cbn [verify_staged]; intros Hv x Hx; [by apply not_elem_of_nil in Hx|].
  destruct (verify_slice signalled w y) as [u0|] eqn:Hy; [|done].
  apply elem_of_cons in Hx as [->|Hx]; [by eapply verify_slice_staged|by apply IH].
Qed.
Lemma verified_whole rep w u : @verify_staged E signalled (staged rep) w = Ok u → reads_whole rep w →
  ∀ set, set ∈ staged_sets rep → staged_whole w set.
Proof.
  intros Hv Hr set Hin. split; [by apply Hr|]. intros slice n Hn. destruct (read_slices _ _ Hr _ _ _ Hin Hn) as (x & Hx & <-).
  eapply verify_staged_ok; [exact Hv|exact Hx|by apply Hr].
Qed.
End verify.
