(* ===== verification/RewriteHeld.v ===== *)
(** * What a rewrite holds no release takes

    A release, forced or not, whatever it meets, leaves each set a pending
    rewrite holds as whole on disk as it was; so a rewrite's sets stay copied
    or whole in staging through every release. *)

From S2P Require Import Prelude LayoutModel Session Ledger Coverage Release Staging StagingGate StagingSound CompactRead Rewrite RewriteSound.
Local Open Scope Z_scope.

(** A set's status, its slices' paths and the files they name. *)
Definition spares (set : Z) (st st' : StagingArea) : Prop :=
  set_status st' !! set = set_status st !! set ∧
  ∀ s n, stage_slices (ledger_in st) !! s = Some (mkStageSlice set n) →
    staging_path st' !! s = staging_path st !! s ∧ ∀ f, staging_path st !! s = Some f → disk st' !! f = disk st !! f.

Section held.
Context {E : Type}.
Variables (session_live : Z → bool) (commits : list Z → bool) (unlinks : File → bool)
  (meanwhile : StagingArea → StagingArea) (staging_dir : string).
Notation clean_staging := (@clean_staging E session_live commits unlinks meanwhile staging_dir).
Notation release_covered_slices := (@release_covered_slices E session_live commits unlinks meanwhile staging_dir).
Notation release_step := (@release_step E session_live commits unlinks meanwhile staging_dir).
Hypothesis Hquiet : ∀ st, same_staging st (meanwhile st).

Lemma held_not_released force scope st set : is_Some (holds st !! set) → set ∉ released_sets session_live force scope st.
Proof. intros [h Hh] [_ [_ Hu]]%released_sets_elem. congruence. Qed.

Lemma clean_staging_spares force scope st r st' set : sound staging_dir st → clean_staging force scope st = (r, st') →
  is_Some (holds st !! set) → st' = st ∨ spares set (meanwhile st) st' ∧ frame (meanwhile st) st'.
Proof.
  intros Hsound Hrun Hheld%(held_not_released force scope).
  apply clean_staging_inv in Hrun as [(rep & _ & _ & ->)|(_ & [(_ & _ & ->)|(_ & rep & r0 & _ & _ & Hrem & Hst)])];
    [by left|right; by repeat split|right].
  set (sets := released_sets session_live force scope st) in *. set (plans := plan_release staging_dir st <$> sets) in *.
  pose proof (Hquiet st) as Hq. destruct (commit_release_spec plans (meanwhile st)) as (Fr & Fd & _ & Fs & Fp).
  set (stc := commit_release plans (meanwhile st)) in *. clearbody stc.
  pose proof (remove_all_spec unlinks (released_files plans) (disk stc) r0) as [Hdn _]. rewrite Hrem in Hdn. cbn in Hdn.
  assert (plan_set <$> plans = sets) as Hps.
  { unfold plans. rewrite <- list_fmap_compose. change (plan_set ∘ plan_release staging_dir st) with (λ x : Z, x). apply list_fmap_id. }
  rewrite Hps in Fs. rewrite Hst. split; [|exact Fr]. split; [cbn; by rewrite Fs, bool_decide_eq_false_2|].
  intros s n Hrow. rewrite (same_slices _ _ Hq) in Hrow. cbn. rewrite Fp. split.
  - rewrite bool_decide_eq_false_2; [done|]. intros (set' & n' & Hin' & Hrow' & _)%plans_age. unfold ledger_in in *. by simplify_eq.
  - intros f Hf. rewrite (same_path _ _ Hq) in Hf. rewrite Hdn, Fd; [done|].
    intros (set' & Hin' & [(s' & n' & Hrow' & Hf')|Horph])%released_files_elem.
    + assert (s = s') as <- by by eapply files_distinct. unfold ledger_in in *. by simplify_eq.
    + eapply named_no_orphan in Horph; [done|exact Hsound|exact Hrow|exact Hf|]. by intros <-.
Qed.

Lemma release_slices_spares set' floor st r st' set : sound staging_dir st → release_covered_slices set' floor st = (r, st') →
  is_Some (holds st !! set) → st' = st ∨ spares set (meanwhile st) st' ∧ frame (meanwhile st) st'.
Proof.
  intros Hsound Hrun [h Hh].
  apply release_covered_slices_inv in Hrun as [(_ & -> & _)|((_ & _ & Hu) & [(_ & _ & ->)|(_ & rep & _ & Hst & _ & Hdn & _)])];
    [by left|right; by repeat split|right].
  assert (set ≠ set') as Hne. { intros ->. destruct Hu as [_ Hu]. congruence. }
  assert (sound staging_dir (meanwhile st)) as Hsm by by eapply sound_same. set (stm := meanwhile st) in *. clearbody stm.
  destruct (taken_spec floor stm set') as (Fr & Fd & Fp & _ & Fs). set (stc := taken floor stm set') in *. clearbody stc.
  rewrite Hst. split; [|exact Fr]. split; [cbn; rewrite Fs, (bool_decide_eq_false_2 (set = set')) by done; by rewrite andb_false_r|].
  intros s n Hrow. cbn. rewrite Fp. split.
  - rewrite bool_decide_eq_false_2; [done|]. intros [_ [n' Hrow']]%going_elem. congruence.
  - intros f Hf. apply Hdn.
    + intros (s' & n' & _ & Hrow' & Hf')%going_files_elem. assert (s = s') as <- by by eapply files_distinct. congruence.
    + intros _ Ho. eapply named_no_orphan in Ho; done.
Qed.

Lemma release_step_spares st st' set : sound staging_dir st → release_step st st' → is_Some (holds st !! set) →
  st' = st ∨ spares set (meanwhile st) st' ∧ frame (meanwhile st) st'.
Proof. intros Hs Hstep. destruct Hstep; [by eapply clean_staging_spares|by eapply release_slices_spares]. Qed.

Lemma release_step_frame st st' : release_step st st' → st' = st ∨ frame (meanwhile st) st'.
Proof.
  intros [force scope st0 r st1 Hrun|set floor st0 r st1 Hrun].
  - apply clean_staging_inv in Hrun as [(rep & _ & _ & ->)|(_ & [(_ & _ & ->)|(_ & rep & r0 & _ & _ & _ & ->)])]; [by left|by right|right].
    eapply (commit_release_spec _ (meanwhile st0)).
  - apply release_covered_slices_inv in Hrun as [(_ & -> & _)|(_ & [(_ & _ & ->)|(_ & rep & _ & -> & _)])]; [by left|by right|right].
    apply (taken_spec floor (meanwhile st0) set).
Qed.

(** ** In the world of a rewrite *)

Definition meanwhile_in (w : World) : World := with_staging (meanwhile (staging w)) w.
Hypothesis Hmeanwhile : ∀ w, calm w (meanwhile_in w).

Lemma framed_open w st' id v dest sets P : frame (staging w) st' →
  record_open id v dest sets P w → record_open id v dest sets P (with_staging st' w).
Proof. intros (_ & _ & Hr & _) (s & row & H1 & H2 & H3 & H4). exists s, row. cbn. by rewrite Hr. Qed.

Lemma staged_whole_spared w st' set : frame (staging w) st' → spares set (staging w) st' → staged_whole w set → staged_whole (with_staging st' w) set.
Proof.
  intros (Hsh & _) (Hst & Hsp) [Hs Hw]. split; [cbn; by rewrite Hst|]. intros s n Hn.
  assert (stage_slices (rows w) !! s = Some (mkStageSlice set n)) as Hrow.
  { revert Hn. unfold rows, ledger_in. cbn. by rewrite Hsh. }
  destruct (Hw s n Hrow) as (f & b & sha & H1 & H2 & H3 & H4 & H5). destruct (Hsp s n Hrow) as [Hp Hd].
  exists f, b, sha. cbn. rewrite Hp, (Hd f), Hsh by done. done.
Qed.

Lemma framed_copied w st' set : frame (staging w) st' → copied w set → copied (with_staging st' w) set.
Proof. intros (Hsh & _). unfold copied, rows, ledger_in. cbn. by rewrite Hsh. Qed.
Lemma framed_destination w st' dest : frame (staging w) st' → destination_sound dest w → destination_sound dest (with_staging st' w).
Proof. intros (Hsh & _). unfold destination_sound, volume_labelled, volume_at, rows, ledger_in. cbn. by rewrite Hsh. Qed.
Lemma framed_volume w st' v : frame (staging w) st' → is_Some (volume_at w v) → is_Some (volume_at (with_staging st' w) v).
Proof. intros (Hsh & _). unfold volume_at, rows, ledger_in. cbn. by rewrite Hsh. Qed.

Lemma with_staging_same w : with_staging (staging w) w = w.
Proof. by destruct w as [[] ? ? ? ? ? ?]. Qed.
Lemma with_staging_twice w st st' : with_staging st (with_staging st' w) = with_staging st w.
Proof. done. Qed.

Lemma release_step_guarded id v dest sets w st' : sound staging_dir (staging w) → release_step (staging w) st' →
  guarded id v dest sets w → guarded id v dest sets (with_staging st' w).
Proof.
  intros Hs Hstep Hg. destruct (release_step_frame _ _ Hstep) as [->|Hf]; [by rewrite with_staging_same|].
  assert (guarded id v dest sets (meanwhile_in w)) as (Ho & Hv & Hm) by by eapply guarded_calm.
  rewrite <- (with_staging_twice w st' (meanwhile (staging w))). split; [by apply framed_open|]. split; [by apply framed_volume|].
  intros set Hin. destruct (fully_read_back_copy (rows w) set) eqn:Hc; [left; apply framed_copied; [done|by apply Hmeanwhile]|].
  assert (is_Some (holds (staging w) !! set)) as Hh by (eapply guarded_holds; [done..|]; unfold copied; by rewrite Hc).
  destruct (release_step_spares _ _ _ Hs Hstep Hh) as [->|[Hsp _]].
  - destruct Hg as (_ & _ & Hall). rewrite with_staging_twice, with_staging_same. by apply Hall.
  - destruct (Hm set Hin) as [Hcp|Hw]; [left; by apply framed_copied|right; by apply staged_whole_spared].
Qed.

Lemma release_step_copied w st' set : release_step (staging w) st' → copied w set → copied (with_staging st' w) set.
Proof.
  intros [->|Hf]%release_step_frame Hc; [by rewrite with_staging_same|].
  rewrite <- (with_staging_twice w st' (meanwhile (staging w))). apply framed_copied; [done|by apply Hmeanwhile].
Qed.
Lemma release_step_destination w st' dest : release_step (staging w) st' → destination_sound dest w → destination_sound dest (with_staging st' w).
Proof.
  intros [->|Hf]%release_step_frame Hc; [by rewrite with_staging_same|].
  rewrite <- (with_staging_twice w st' (meanwhile (staging w))). apply framed_destination; [done|by apply Hmeanwhile].
Qed.
Lemma release_step_names w st' id dest sets : release_step (staging w) st' → record_names id dest sets w →
  record_names id dest sets (with_staging st' w).
Proof.
  intros [->|Hf]%release_step_frame Hc; [by rewrite with_staging_same|]. destruct Hf as (_ & _ & Hr & _).
  apply (calm_names _ _ (Hmeanwhile w)) in Hc. unfold record_names. cbn. by rewrite Hr.
Qed.

(** What a run keeps once the source is retired. *)
Record kept (id v : Z) (dest : string) (sets : list Z) (w : World) : Prop := {
  kept_sets : guarded_or_copied id v dest sets w;
  kept_names : record_names id dest sets w;
  kept_sound : sound staging_dir (staging w);
  kept_destination : destination_sound dest w;
}.

Lemma kept_release id v dest sets w st' : release_step (staging w) st' → kept id v dest sets w → kept id v dest sets (with_staging st' w).
Proof.
  intros Hstep [Hg Hn Hs Hd]. split.
  - destruct Hg as [Hg|Hc]; [left; by apply release_step_guarded|]. right. intros set Hin. by apply release_step_copied, Hc.
  - by apply release_step_names.
  - change (sound staging_dir st'). by eapply steps_shrink, rtc_once.
  - by apply release_step_destination.
Qed.
Lemma kept_releases id v dest sets w st' : rtc release_step (staging w) st' → kept id v dest sets w → kept id v dest sets (with_staging st' w).
Proof.
  intros Hsteps. remember (staging w) as st eqn:Hst. revert w Hst. induction Hsteps as [st|st st1 st2 Hstep _ IH]; intros w -> Hk.
  - by rewrite with_staging_same.
  - rewrite <- (with_staging_twice w st2 st1). apply IH; [done|]. by apply kept_release.
Qed.
Lemma kept_calm id v dest sets w w' : calm w w' → kept id v dest sets w → kept id v dest sets w'.
Proof.
  intros Hc [Hg Hn Hs Hd]. split.
  - destruct Hg as [Hg|Hcp]; [left; by eapply guarded_calm|]. right. intros set Hin. by apply Hc, Hcp.
  - by apply Hc.
  - eapply sound_same; [apply Hc|done].
  - by apply Hc.
Qed.
End held.
