(* ===== verification/RewriteSafe.v ===== *)
(** * A rewrite left to itself never leaves a slice without a copy

    Where nothing else touches staging, the records or the copies, and the
    erase, the init and the writes do not either: from the first slice read to
    the record closed, in every state a crash may leave, each slice a rewrite
    empties its source of is on the source, or whole in staging and held there,
    or read back in full from a trusted tape; and once the source is retired
    nothing but a copy read back lets it go, whoever resumes, releases or
    dies. *)

From S2P Require Import Prelude LayoutModel Session Ledger Coverage Release Staging StagingGate StagingSound AdoptSound CoverageSound CompactRead CompactReadSound Rewrite RewriteSound RewriteHeld.
Local Open Scope Z_scope.

(** ** Runs that keep a predicate *)

Section keeping.
Context {E : Type}.
Definition keeping {A} (I : World → Prop) (m : Act E A) : Prop := always I (λ _, True) m (λ _ _, True).

Lemma keeping_ret {A} I (a : A) : keeping I (mret a).
Proof. eapply (always_conseq _ _ (λ _, True)); [apply always_ret|done|done]. Qed.
Lemma keeping_fails {A} I e : keeping (A := A) I (fails e).
Proof. apply always_fails. Qed.
Lemma keeping_lifts {A} I (r : result (RewriteError E) A) : keeping I (lifts r).
Proof. eapply (always_conseq _ _ (λ _, True)); [apply always_lifts|done|done]. Qed.
Lemma keeping_here I : keeping I here.
Proof. eapply (always_conseq _ _ (λ _, True)); [apply always_here|done|done]. Qed.
Lemma keeping_refuse I c e : keeping I (refuse_if c e).
Proof. eapply (always_conseq _ _ (λ _, True)); [apply always_refuse|done|done]. Qed.
Lemma keeping_changes I f : (∀ w, I w → I (f w)) → keeping I (changes f).
Proof. intros H. apply always_changes. eauto. Qed.
Lemma keeping_bind {A B} I (m : Act E A) (f : A → Act E B) : keeping I m → (∀ a, keeping I (f a)) → keeping I (m ≫= f).
Proof. intros Hm Hf. by eapply always_bind. Qed.
Lemma keeping_or_else {A} I (m : Act E A) (f : Act E ()) : keeping I m → keeping I f → keeping I (or_else m f).
Proof. apply always_or_else. Qed.
Lemma keeping_if {A} I (b : bool) (m n : Act E A) : keeping I m → keeping I n → keeping I (if b then m else n).
Proof. by destruct b. Qed.
Lemma keeping_each {A} I (f : A → Act E ()) l : (∀ x, keeping I (f x)) → keeping I (each f l).
Proof.
  intros Hf. induction l as [|x l IH]; cbn [each]; [apply keeping_ret|]. apply keeping_bind; [apply Hf|]. intros []. apply IH.
Qed.
End keeping.

Create HintDb keeping discriminated.
#[export] Hint Resolve keeping_ret keeping_fails keeping_lifts keeping_here keeping_refuse keeping_changes keeping_bind
  keeping_or_else keeping_if keeping_each : keeping.

(** ** What the drive's steps promise *)

(** A step changes nothing a rewrite's sets are kept by, however it dies. *)
Definition calm_run {A} (m : World → result StepError A * World * list World) : Prop :=
  ∀ w, match m w with (_, w', t) => Forall (calm w) t ∧ calm w w' end.
(** What the read relies on: the schema's joins, sets staged or cleaned once
    written, and a compaction's directory of no other file's. *)
Record readable (staging_dir label : string) (w : World) : Prop := {
  readable_writes : one_write_per_set (shelves_of (staging w));
  readable_rows : own_rows (rows w);
  readable_sets : ∀ v slices, live_recovery_slices (bench w) v = Some slices → sets_recorded (bench w) slices;
  readable_dir : ∀ i f, staging_path (staging w) !! i = Some f → f.1 = compact_dir_of staging_dir label → f = (f.1, slice_file i);
}.
(** The read moves no copy; a read that ends well has staged every live
    slice of the volume, each by its own file. *)
Definition reads_calm (w w' : World) : Prop := shelves_of (staging w') = shelves_of (staging w) ∧ label_of w' = label_of w.
Record read_done (staging_dir label : string) (w : World) (rep : CompactReadReport) (w' : World) : Prop := {
  done_sound : sound staging_dir (staging w) → sound staging_dir (staging w');
  done_whole : reads_whole rep w';
  done_covers : ∀ v slices, volume_labelled w label = Some v → live_recovery_slices (bench w) v = Some slices →
    ∀ x, x ∈ slices → rs_set x ∈ staged_sets rep;
}.
Class RewriteLaws `{!RewriteSteps} (staging_dir : string) : Prop := {
  read_law : ∀ label w, readable staging_dir label w → match read_step label w with (r, w', t) =>
    Forall (reads_calm w) t ∧ reads_calm w w' ∧ ∀ rep, r = Ok rep → read_done staging_dir label w rep w' end;
  erase_law : ∀ label, calm_run (erase_step label);
  init_law : ∀ label, calm_run (init_step label);
  write_law : ∀ label sets, calm_run (write_step label sets);
  resume_law : ∀ label, calm_run (resume_write_step label);
}.

Section safe.
Context {E : Type} `{!RewriteSteps} (staging_dir : string) `{!RewriteLaws staging_dir}.
Variables (config : Config) (resolve : Z → result E ResolvedPolicy) (drive : Drive) (operator : Operator).
Variables (signalled : Z → bool) (unlinks : File → bool) (lock_free : Z → bool).
Variables (session_live : Z → bool) (commits : list Z → bool) (meanwhile : StagingArea → StagingArea).
Variables (while_asked : World → World).
Hypothesis Hmeanwhile : ∀ w, calm w (meanwhile_in meanwhile w).
Notation release_after_write := (release_after_write config resolve unlinks session_live commits meanwhile staging_dir).
Notation finish_close := (finish_close config resolve unlinks session_live commits meanwhile staging_dir).
Notation finish_from := (finish_from config resolve unlinks session_live commits meanwhile staging_dir).
Notation resume := (resume config resolve unlinks session_live commits meanwhile staging_dir).
Notation rewrite := (rewrite config resolve drive operator signalled unlinks lock_free session_live commits meanwhile staging_dir while_asked).

Lemma meanwhile_same st : same_staging st (meanwhile st).
Proof. apply (Hmeanwhile (mkWorld (mkBench st ∅ ∅) ∅ ∅ ∅ ∅ ∅ [])). Qed.

(** ** From the source retired to the record closed *)

Section retired.
Variables (id v : Z) (dest : string) (sets : list Z).
Notation K := (kept staging_dir id v dest sets).

Lemma keeping_calm (f : World → World) : (∀ w, calm w (f w)) → keeping (E := E) K (changes f).
Proof. intros Hf. apply keeping_changes. intros w. by apply kept_calm. Qed.
Lemma keeping_step {A} to_error (m : World → result StepError A * World * list World) : calm_run m → keeping (E := E) K (performs to_error m).
Proof.
  intros Hm. apply always_performs. intros w Hk _. specialize (Hm w). destruct (m w) as [[r w'] t]. destruct Hm as [Ht Hc].
  split; [eapply Forall_impl; [exact Ht|]; intros u Hu; by eapply kept_calm|]. split; [by eapply kept_calm|done].
Qed.
Lemma keeping_log x s : keeping (E := E) K (changes (log_step x s)).
Proof. apply keeping_calm, log_step_calm. Qed.
Lemma keeping_state x s : s ≠ RwStaged → keeping (E := E) K (changes (set_state x s)).
Proof. intros Hs. apply keeping_calm. intros w. by apply set_state_calm. Qed.
Lemma keeping_erase_step e label : keeping (E := E) K (performs e (erase_step label)).
Proof. apply keeping_step, erase_law. Qed.
Lemma keeping_init_step e label : keeping (E := E) K (performs e (init_step label)).
Proof. apply keeping_step, init_law. Qed.
Lemma keeping_write_step e label l : keeping (E := E) K (performs e (write_step label l)).
Proof. apply keeping_step, write_law. Qed.
Lemma keeping_resume_step e label : keeping (E := E) K (performs e (resume_write_step label)).
Proof. apply keeping_step, resume_law. Qed.
Hint Resolve keeping_log keeping_state keeping_erase_step keeping_init_step keeping_write_step keeping_resume_step : keeping.

Lemma keeping_erase p : keeping (E := E) K (finish_erase p).
Proof.
  unfold finish_erase. repeat (apply keeping_bind; [|intros ?]); auto with keeping.
  apply keeping_calm. intros w. apply open_window_calm.
Qed.
Lemma keeping_init p : keeping (E := E) K (finish_init p).
Proof.
  unfold finish_init. apply keeping_bind; [auto with keeping|]. intros w. destruct (destination_facts _ _ w); [auto with keeping|].
  repeat (apply keeping_bind; [|intros ?]); auto with keeping.
Qed.
Lemma keeping_write p d : keeping (E := E) K (finish_write p d).
Proof.
  unfold finish_write. apply keeping_if; [auto with keeping|].
  repeat (apply keeping_bind; [|intros ?]); auto 10 with keeping.
Qed.

(** The record may close once every set it names is copied. *)
Definition may_close (p : Pending) (w : World) : Prop := p_id p = id → ∀ set, set ∈ sets → copied w set.
Lemma may_close_calm p w w' : calm w w' → may_close p w → may_close p w'.
Proof. intros Hc Hm Heq set Hin. by apply Hc, Hm. Qed.
Lemma close_names p o w : record_names id dest sets w → record_names id dest sets (close (p_id p) o w).
Proof.
  intros Hn r row. cbn. destruct (decide (p_id p = id)) as [->|Hne]; [|rewrite !lookup_alter_ne by done; by apply Hn].
  rewrite !lookup_alter_eq. intros (r' & Hr & ->)%fmap_Some (row' & Hrow & ->)%fmap_Some. cbn. by eapply Hn.
Qed.
Lemma close_kept p o w : K w → may_close p w → K (close (p_id p) o w).
Proof.
  intros [Hg Hn Hs Hd] Hc. split; [|by apply close_names|by apply (sound_same _ (staging w))|exact Hd].
  destruct (decide (p_id p = id)) as [Heq|Hne]; [right; by apply Hc|].
  destruct Hg as [((s & row & Hr & Hst & Hrow & Hdest) & Hv & Hall)|Hcp]; [left|by right].
  split; [|split; [exact Hv|exact Hall]]. exists s, row. cbn. rewrite !lookup_alter_ne by done. done.
Qed.
Lemma always_close p o : always (E := E) K (may_close p) (changes (close (p_id p) o)) (λ _ _, True).
Proof. apply always_changes. intros w Hk Hc. split; [by apply close_kept|done]. Qed.
Lemma always_still p f : (∀ w, calm w (f w)) → always (E := E) K (may_close p) (changes f) (λ _, may_close p).
Proof. intros Hf. apply always_changes. intros w Hk Hc. split; [by eapply kept_calm|by eapply may_close_calm]. Qed.

Lemma keeping_release label keep : keeping (E := E) K (changes (release_after_write label keep)).
Proof.
  apply keeping_changes. intros w Hk. unfold Rewrite.release_after_write. destruct keep; [done|].
  destruct (volume_labelled w label); [|done]. case_bool_decide; [done|].
  destruct (release_if_covered_holding _ _ _ _ _ _ _ _ _ _) as [r st'] eqn:Hr. cbn.
  eapply kept_releases; [apply meanwhile_same|exact Hmeanwhile| |done]. by eapply release_if_covered_steps.
Qed.

Lemma keeping_close p keep : leads id dest sets p → keeping (E := E) K (finish_close p keep).
Proof.
  intros Hl. unfold Rewrite.finish_close. eapply always_bind; [apply always_here|]. intros w.
  destruct (destination_facts _ _ w) as [d|] eqn:Hd; [|apply always_fails].
  destruct (negb _); [apply always_weaken; apply keeping_bind; [|intros ?]; auto with keeping|].
  destruct (fully_read_back d) eqn:Hf; [|apply always_fails].
  eapply (always_conseq K _ (may_close p)); [| |done].
  - eapply always_bind; [apply always_still; intros u; by apply set_state_calm|intros []].
    eapply always_bind; [apply always_still; intros u; apply log_step_calm|intros []].
    eapply always_bind; [apply always_close|intros []].
    apply keeping_bind; [apply keeping_log|intros []]. apply keeping_release.
  - intros u Hu (<- & Hk & _) Heq set Hin. destruct (Hl Heq) as [Hdest Hp].
    eapply facts_copied; [|exact Hd|exact Hf|by rewrite Hp]. rewrite Hdest. apply Hk.
Qed.

Lemma keeping_finish p keep : leads id dest sets p → keeping (E := E) K (finish_from p keep).
Proof.
  intros Hl. unfold Rewrite.finish_from. apply keeping_bind; [auto with keeping|intros w]. apply keeping_bind; [auto with keeping|intros row].
  apply keeping_bind; [apply keeping_if; [auto with keeping|apply keeping_erase]|intros _].
  apply keeping_bind; [apply keeping_init|intros d]. apply keeping_bind; [apply keeping_write|intros _]. by apply keeping_close.
Qed.

(** ** Resumed *)

(** With none of the record's sets held, each has its copy. *)
Lemma unheld_copied p w : K w → leads id dest sets p →
  existsb (λ set, bool_decide (is_Some (holds (staging w) !! set))) (stage_set_ids p) = false → may_close p w.
Proof.
  intros Hk Hl Hh Heq set Hin. destruct (kept_sets _ _ _ _ _ _ Hk) as [Hg|Hc]; [|by apply Hc].
  destruct (fully_read_back_copy (rows w) set) eqn:Hcp; [done|]. exfalso. apply not_true_iff_false in Hh. apply Hh, existsb_exists.
  exists set. split; [apply list_elem_of_In; by rewrite (proj2 (Hl Heq))|]. apply bool_decide_eq_true_2.
  eapply guarded_holds; [exact Hg|exact Hin|]. unfold copied. by rewrite Hcp.
Qed.

Lemma keeping_resume label keep : keeping (E := E) K (resume label keep).
Proof.
  unfold Rewrite.resume. eapply always_bind; [apply always_here|intros w].
  eapply always_bind; [apply always_lifts|intros p]. eapply (always_conseq K _ (λ _, leads id dest sets p)).
  2: { intros u Hu (Hp%ok_or_ok & -> & Hk & _). by eapply load_open_leads, Hk. }
  2: done.
  apply always_pure. intros Hl. apply keeping_bind; [auto with keeping|intros _]. apply keeping_bind; [auto with keeping|intros _].
  eapply always_bind; [apply always_here|intros u]. cbv zeta. destruct (existsb _ _ || _) eqn:Hh.
  - eapply always_bind; [apply always_ret|intros l]. eapply (always_conseq K _ (λ _, l = None)); [|naive_solver|done].
    apply always_pure. intros ->. apply keeping_bind; [by apply keeping_finish|auto with keeping].
  - apply orb_false_iff in Hh as [Hh _]. eapply (always_conseq K _ (may_close p)); [| |done].
    2: { intros u' _ (-> & Hk & _). by apply unheld_copied. }
    eapply always_bind; [apply always_fmap_lifts|]. intros [l|].
    + destruct (forallb _ _); [apply always_weaken, keeping_bind; [by apply keeping_finish|auto with keeping]|].
      eapply always_bind; [apply always_close|intros []]. apply keeping_bind; [apply keeping_log|auto with keeping].
    + apply always_weaken, keeping_bind; [by apply keeping_finish|auto with keeping].
Qed.
End retired.

(** ** From the preflight to the source retired *)

Lemma preflight_ok opts w p : preflight config resolve drive operator opts w = Ok p →
  volume_labelled w (opt_source opts) = Some (plan_source p) ∧
  (∃ row, volume_at w (plan_source p) = Some row ∧ eligible row = true) ∧
  opt_source opts ≠ opt_destination opts ∧ volume_labelled w (opt_destination opts) = None ∧
  live_recovery_slices (bench w) (plan_source p) = Some (plan_slices p).
Proof.
  unfold preflight, plan_rewrite. intros Hp. apply bind_ok in Hp as (q & Hp & Hq). apply bind_ok in Hq as (_ & _ & [= ->]).
  apply bind_ok in Hp as (v & Hv%ok_or_ok & Hp). apply bind_ok in Hp as (row & Hrow%ok_or_ok & Hp). cbv zeta in Hp.
  apply bind_ok in Hp as (_ & Hne%guard_err_ok & Hp). apply bind_ok in Hp as (_ & Hl%guard_err_ok & Hp). apply bind_ok in Hp as (_ & He%guard_err_ok & Hp).
  do 7 (apply bind_ok in Hp as (? & _ & Hp)).
  apply bind_ok in Hp as (slices & Hs%ok_or_ok & Hp). do 5 (apply bind_ok in Hp as (? & _ & Hp)). injection Hp as <-. cbn.
  apply orb_false_iff in Hne as [_ Hne]. rewrite bool_decide_eq_false in Hne.
  rewrite bool_decide_eq_false, <- eq_None_not_Some in Hl. rewrite negb_false_iff in He.
  split; [exact Hv|]. split; [by exists row|]. split; [by intros Heq; apply Hne|]. by split.
Qed.

Lemma live_row b v x : x ∈ live_rows b v → ∃ wr, writes (ledger_on b) !! x.1.1.1 = Some wr ∧ volume_id wr = v ∧ write_status wr = WCompleted ∧
  write_positions (ledger_on b) !! x.1.1 = Some x.1.2 ∧ row_status x.1.2 = PWritten.
Proof.
  intros ([key pos] & Hin%elem_of_map_to_list & Hx)%list_elem_of_omap. cbn in Hx.
  apply bind_Some in Hx as (wr & Hw & Hx). apply bind_Some in Hx as (sl & _ & Hx). apply bind_Some in Hx as (snap & _ & Hx).
  destruct (_ && _) eqn:Hc; [|done]. injection Hx as <-. rewrite !andb_true_iff, !bool_decide_eq_true in Hc. cbn. exists wr. naive_solver.
Qed.
Lemma live_on_source w v slices x : live_recovery_slices (bench w) v = Some slices → x ∈ slices →
  (∃ row, volume_at w v = Some row ∧ eligible row = true) → source_holds v (rs_slice x) w.
Proof.
  intros (l & Hl & ->)%fmap_Some Hx Hrow. split; [done|]. rewrite merge_sort_Permutation in Hx.
  apply mapM_Some in Hl. apply list_elem_of_lookup in Hx as [i Hi]. destruct (Forall2_lookup_r _ _ _ _ _ Hl Hi) as (y & Hy & Hxy).
  apply list_elem_of_lookup_2 in Hy. destruct (live_row _ _ _ Hy) as (wr & Hw & Hv & Hs & Hpos & Hst).
  unfold recovery_row in Hxy. apply bind_Some in Hxy as (? & _ & Hxy). apply bind_Some in Hxy as (? & _ & Hxy).
  apply bind_Some in Hxy as (? & _ & [= <-]). cbn. exists y.1.1.1, wr, y.1.2.
  by repeat split.
Qed.

Section before.
Variables (opts : RewriteOptions) (v : Z) (slices : list RecoverySlice).
Notation dest := (opt_destination opts).
Definition on_source (w : World) : Prop := ∀ x, x ∈ slices → source_holds v (rs_slice x) w.
(** In every state of the command. *)
Definition accounted (w : World) : Prop :=
  on_source w ∨ ∃ id sets, kept staging_dir id v dest sets w ∧ ∀ x, x ∈ slices → rs_set x ∈ sets.

Lemma on_source_same w w' : shelves_of (staging w') = shelves_of (staging w) → on_source w → on_source w'.
Proof.
  intros Hs Hon x Hx. specialize (Hon x Hx). unfold source_holds, volume_at, rows, ledger_in in *. by rewrite Hs.
Qed.
Lemma always_on f : (∀ w, shelves_of (staging (f w)) = shelves_of (staging w)) → always (E := E) accounted on_source (changes f) (λ _, on_source).
Proof. intros Hf. apply always_changes. intros w _ Hon. assert (on_source (f w)) by (eapply on_source_same; [apply Hf|done]). split; [by left|done]. Qed.

Lemma always_restore l prior : always (E := E) accounted on_source (restore_staging unlinks l prior) (λ _, on_source).
Proof.
  unfold restore_staging. eapply (always_bind _ _ _ _ (λ _, on_source)); [|intros []]; apply always_each; intros x; [|by apply always_on].
  eapply (always_bind _ _ _ _ (λ _, on_source)); [|intros []; by apply always_on].
  apply always_on. intros w. unfold remove_file. by destruct (unlinks _).
Qed.
Lemma always_abandon id l prior : always (E := E) accounted on_source (abandon unlinks id v l prior) (λ _, on_source).
Proof.
  unfold abandon. eapply (always_bind _ _ _ _ (λ _, on_source)); [apply always_restore|].
  intros []. eapply (always_bind _ _ _ _ (λ _, on_source)); [by apply always_on|intros []; by apply always_on].
Qed.
Lemma always_abandoned {A} id l prior e Q : always (E := E) (A := A) accounted on_source (abandon unlinks id v l prior;; fails e) Q.
Proof. eapply always_bind; [apply always_abandon|intros []]. apply always_fails. Qed.

(** ** From the slices staged to the source retired *)

Variables (rep : CompactReadReport) (prior_sets : list (Z * SetStatus)).
Hypothesis Hcovers : ∀ x, x ∈ slices → rs_set x ∈ staged_sets rep.

Record recorded (id : Z) (w : World) : Prop := {
  recorded_on : on_source w;
  recorded_label : ∃ label, label_of w !! v = Some label ∧ label ≠ dest;
  recorded_destination : destination_sound dest w;
  recorded_sound : sound staging_dir (staging w);
  recorded_open : record_open id v dest (staged_sets rep) False w;
  recorded_names : record_names id dest (staged_sets rep) w;
}.
Definition whole (w : World) : Prop := ∀ set, set ∈ staged_sets rep → staged_whole w set.

Lemma recorded_calm id w w' : calm w w' → on_source w' → recorded id w → recorded id w'.
Proof. intros Hc Hon [_ (l & Hl & Hne) H2 H3 H4 H5]. split; [done|exists l; by split; [apply Hc|]|by apply Hc| |by apply Hc|by apply Hc]. eapply sound_same; [apply Hc|done]. Qed.
Lemma whole_calm w w' : calm w w' → whole w → whole w'.
Proof. intros Hc Hw set Hin. eapply staged_whole_calm; [done|by apply Hw]. Qed.

Definition verified (id : Z) (w : World) : Prop := recorded id w ∧ whole w.
Lemma always_verified id f : (∀ w, calm w (f w)) → (∀ w, on_source w → on_source (f w)) →
  always (E := E) accounted (verified id) (changes f) (λ _, verified id).
Proof.
  intros Hc Hon. apply always_changes. intros w _ [Hr Hw]. assert (on_source (f w)) as Hon' by apply Hon, Hr.
  split; [by left|]. split; [by eapply recorded_calm|by eapply whole_calm].
Qed.

(** The retirement changes the source's status and the record's state. *)
Lemma free_cartridge_same w : let w' := free_cartridge_if_last_live v w in
  bench w' = bench w ∧ rewrite_rows w' = rewrite_rows w ∧ label_of w' = label_of w.
Proof. cbn. unfold free_cartridge_if_last_live. destruct (mounts w !! v); [|done]. by destruct (existsb _ _). Qed.
Lemma retire_same id w : let w' := retire_source v id w in
  same_staging (staging w) (staging w') ∧ file_sha256 (bench w') = file_sha256 (bench w) ∧ slice_sha256 (bench w') = slice_sha256 (bench w) ∧
  rewrite_rows w' = rewrite_rows w ∧ label_of w' = label_of w ∧ rewrites (staging w') = alter (at_state RwRetired) id (rewrites (staging w)) ∧
  rows w' = set_volume v (with_volume_status VRetired) (rows w).
Proof.
  cbn. unfold retire_source. cbv zeta. destruct (free_cartridge_same (log_step v SourceRetired
    (with_rows (set_volume v (with_volume_status VRetired) (rows w)) w))) as (Hb & Hr & Hl).
  destruct (free_cartridge_if_last_live _ _) as [b rr lab ? ? ? ?]. cbn in Hb, Hr, Hl. subst b rr lab. by repeat split.
Qed.
(** The record passes to the hold in the same transaction. *)
Lemma retire_kept id w : verified id w → is_Some (volume_at w v) →
  kept staging_dir id v dest (staged_sets rep) (retire_source v id w).
Proof.
  intros [[_ (l & Hl & Hne) Hd Hs (s & rrow & Hr & _ & Hrow & Hdest) Hn] Hw] Hv.
  destruct (retire_same id w) as (Hsame & Hf & Hsl & Hrr & Hlab & Hrew & Hrows). set (w' := retire_source v id w) in *. clearbody w'.
  split; [left; split; [|split]| |by eapply sound_same|].
  - exists RwRetired, rrow. by rewrite Hrew, lookup_alter_eq, Hr, Hrr.
  - unfold volume_at. rewrite Hrows. cbn. rewrite lookup_alter_eq. by apply fmap_is_Some.
  - intros set Hin. right. destruct (Hw set Hin) as [Hst Hall]. destruct Hsame as [S1 S2 S3 S4 S5 S6 S7 S8 S9 S10 S11].
    split; [by rewrite S1|]. intros sl n. unfold rows. rewrite S7. intros Hsn. destruct (Hall sl n Hsn) as (f & b & sha & Hfacts).
    exists f, b, sha. by rewrite S3, S6, S11, Hf, Hsl.
  - intros r row. rewrite Hrew, Hrr, lookup_alter_eq, Hr, Hrow. by intros [= <-] [= <-].
  - intros v' row set Hv'. assert (v' ≠ v) as Hvv. { intros ->. apply labelled_some in Hv'. rewrite Hlab in Hv'. congruence. }
    unfold volume_at, volume_labelled in *. rewrite Hlab in Hv'. rewrite Hrows. cbn. rewrite lookup_alter_ne by done. by apply Hd.
Qed.

Hypothesis Hasked : ∀ w, calm w (while_asked w).
Hypothesis Hasked_source : ∀ w x slice, source_holds x slice w → source_holds x slice (while_asked w).
Notation verify_and_retire := (verify_and_retire operator signalled unlinks lock_free while_asked).

Lemma verified_on id w : verified id w → on_source w.
Proof. by intros [[]]. Qed.
Lemma always_give_up {A} id e Q : always (E := E) (A := A) accounted (verified id) (abandon unlinks id v (staged rep) prior_sets;; fails e) Q.
Proof. eapply always_conseq; [apply (always_abandoned id _ _ e Q)|intros w _; by apply verified_on|done]. Qed.
Lemma always_or_give_up id (b : bool) (m : Act E ()) e : always accounted (verified id) m (λ _, verified id) →
  always accounted (verified id) (if b then m else abandon unlinks id v (staged rep) prior_sets;; fails e) (λ _, verified id).
Proof. intros Hm. destruct b; [done|apply always_give_up]. Qed.
Lemma always_still_verified id : always (E := E) accounted (verified id) (mret ()) (λ _, verified id).
Proof. eapply always_conseq; [apply always_ret|done|]. by intros [] w [_ Hw]. Qed.

Lemma always_verify_and_retire p id : plan_source p = v →
  always (E := E) accounted (λ w, recorded id w ∧ reads_whole rep w) (verify_and_retire opts p rep prior_sets id)
    (λ _, kept staging_dir id v dest (staged_sets rep)).
Proof.
  intros Hp. unfold Rewrite.verify_and_retire. rewrite Hp. cbv zeta.
  eapply always_bind; [apply always_here|intros w]. cbv beta.
  eapply (always_bind _ _ _ _ (λ _, verified id)).
  { destruct (verify_staged signalled (staged rep) w) as [u|e] eqn:Hv.
    - eapply always_conseq; [apply always_ret| |intros [] u' [_ Hu]; exact Hu].
      intros u' _ (<- & _ & Hr & Hw). split; [done|]. intros set Hin. by eapply verified_whole.
    - eapply always_conseq; [apply (always_abandoned id (staged rep) prior_sets e (λ _, verified id))| |done]. intros u' _ (_ & _ & Hr & _). apply Hr. }
  intros []. eapply always_bind; [apply always_verified; [apply log_step_calm|done]|intros []].
  eapply always_bind; [apply always_here|intros u]. cbv beta.
  eapply (always_conseq _ _ (verified id)); [| |intros ? ? Hq; exact Hq]. 2: { by intros u' _ (_ & _ & Hu). }
  eapply (always_bind _ _ _ _ (λ _, verified id)).
  { destruct (write_preflight u _ _) as [[|]|]; [apply always_verified; [apply log_step_calm|done]|apply always_still_verified|apply always_give_up]. }
  intros []. eapply always_bind; [apply always_verified; [apply Hasked|intros u' Hu x Hx; by apply Hasked_source, Hu]|intros []].
  eapply always_bind; [apply always_or_give_up, always_verified; [apply log_step_calm|done]|intros []].
  eapply always_bind; [apply always_or_give_up, always_still_verified|intros []].
  eapply always_bind; [apply always_here|intros x]. cbv beta.
  destruct (volume_at x v) as [row|] eqn:Hrow; [destruct (eligible row)|];
    [|eapply (always_conseq _ _ (verified id) _ _ (λ _, kept staging_dir id v dest (staged_sets rep)));
      [apply always_give_up|by intros u' _ (_ & _ & Hu)|done]..].
  apply always_changes. intros u' _ (-> & _ & Hu). assert (kept staging_dir id v dest (staged_sets rep) (retire_source v id u')) as Hk.
  { apply retire_kept; [done|]. by exists row. }
  split; [right; by exists id, (staged_sets rep)|done].
Qed.
End before.

(** ** The whole command *)

Lemma live_recovery_same b b' v : shelves_in b' = shelves_in b → slice_sha256 b' = slice_sha256 b →
  live_recovery_slices b' v = live_recovery_slices b v.
Proof.
  intros Hs Hsha. unfold live_recovery_slices. assert (live_rows b' v = live_rows b v) as ->.
  { unfold live_rows, ledger_on, ledger_in, shelves_in in *. by rewrite Hs. }
  unfold recovery_row. by rewrite Hs, Hsha.
Qed.

Section command.
Variables (opts : RewriteOptions) (w0 : World) (p : Plan).
Hypothesis Hp : preflight config resolve drive operator opts w0 = Ok p.
Hypothesis Hsound : sound staging_dir (staging w0).
Hypothesis Hreadable : readable staging_dir (opt_source opts) w0.
Hypothesis Hasked : ∀ w, calm w (while_asked w).
Hypothesis Hasked_source : ∀ w x slice, source_holds x slice w → source_holds x slice (while_asked w).
Notation I := (accounted opts (plan_source p) (plan_slices p)).
Notation on := (on_source (plan_source p) (plan_slices p)).

(** The copies as the preflight found them. *)
Record unmoved (w : World) : Prop := {
  unmoved_shelves : shelves_of (staging w) = shelves_of (staging w0);
  unmoved_labels : label_of w = label_of w0;
  unmoved_hashes : slice_sha256 (bench w) = slice_sha256 (bench w0);
  unmoved_staging : same_staging (staging w0) (staging w);
}.
Lemma preflight_on w : shelves_of (staging w) = shelves_of (staging w0) → on w.
Proof.
  intros Hs. eapply on_source_same; [exact Hs|]. destruct (preflight_ok _ _ _ Hp) as (_ & Hrow & _ & _ & Hl).
  intros x Hx. by eapply live_on_source.
Qed.
Lemma always_unmoved f : (∀ w, shelves_of (staging (f w)) = shelves_of (staging w) ∧ same_staging (staging w) (staging (f w)) ∧
    label_of (f w) = label_of w ∧ slice_sha256 (bench (f w)) = slice_sha256 (bench w)) →
  always (E := E) I unmoved (changes f) (λ _, unmoved).
Proof.
  intros Hf. apply always_changes. intros w _ [H1 H2 H3 H4]. destruct (Hf w) as (F1 & F2 & F3 & F4).
  split; [left; apply preflight_on; by rewrite F1|]. split; [by rewrite F1|by rewrite F3|by rewrite F4|]. by eapply same_staging_trans.
Qed.

Record has_read (rep : CompactReadReport) (w : World) : Prop := {
  has_shelves : shelves_of (staging w) = shelves_of (staging w0);
  has_labels : label_of w = label_of w0;
  has_sound : sound staging_dir (staging w);
  has_whole : reads_whole rep w;
  has_covers : ∀ x, x ∈ plan_slices p → rs_set x ∈ staged_sets rep;
}.
Lemma unmoved_readable w : unmoved w → readable staging_dir (opt_source opts) w.
Proof.
  intros [H1 H2 H3 H4]. destruct Hreadable as [R1 R2 R3 R4]. split.
  - by rewrite H1.
  - unfold rows, ledger_in. by rewrite H1.
  - intros v slices. rewrite (live_recovery_same (bench w0) (bench w)) by done. intros Hl s Hs. unfold sets_recorded in R3.
    change (area (bench w)) with (staging w). rewrite (same_status _ _ H4). by eapply R3.
  - intros i f. rewrite (same_path _ _ H4). apply R4.
Qed.
Lemma always_read : always (E := E) I unmoved (performs ReadFailed (read_step (opt_source opts))) has_read.
Proof.
  apply always_performs. intros w _ Hun. pose proof (read_law (opt_source opts) w (unmoved_readable w Hun)) as Hl. destruct Hun as [H1 H2 H3 H4].
  destruct (read_step (opt_source opts) w) as [[r w'] t]. destruct Hl as (Ht & [Hs' Hl'] & Hrep).
  split; [eapply Forall_impl; [exact Ht|]; intros u [Hu _]; left; apply preflight_on; congruence|].
  split; [left; apply preflight_on; congruence|]. intros rep ->. destruct (Hrep rep eq_refl) as [D1 D2 D3].
  destruct (preflight_ok _ _ _ Hp) as (Hv & _ & _ & _ & Hls).
  split; [congruence|congruence|by apply D1, (sound_same _ (staging w0))|done|].
  apply (D3 (plan_source p)); [unfold volume_labelled in *; by rewrite H2|]. rewrite <- Hls. by apply live_recovery_same.
Qed.

Lemma insert_recorded rep row w : has_read rep w → destination_label row = opt_destination opts →
  let '(id, inserted) := insert_pending (plan_source p) row (staged_sets rep) w in
  recorded opts (plan_source p) (plan_slices p) rep id inserted ∧ reads_whole rep inserted.
Proof.
  intros [H1 H2 H3 H4 H5] Hrow. destruct (preflight_ok _ _ _ Hp) as (Hv & _ & Hne & Hfree & _). cbn. split.
  - split.
    + by apply preflight_on.
    + exists (opt_source opts). split; [|done]. cbn. rewrite H2. by apply labelled_some.
    + intros x r set Hx. unfold volume_labelled in *. cbn in Hx. rewrite H2, Hfree in Hx. done.
    + by apply (sound_same _ (staging w)).
    + eexists RwStaged, row. cbn. by rewrite !lookup_insert_eq.
    + intros r row'. cbn. rewrite !lookup_insert_eq. by intros [= <-] [= <-].
  - by apply (reads_whole_calm _ w).
Qed.

Lemma always_read_back rep prior (e : RewriteError E) : passes (A := ()) I (has_read rep) (restore_staging unlinks (staged rep) prior;; fails e).
Proof.
  eapply (always_conseq _ _ on); [|intros w _ [Hs _ _ _ _]; by apply preflight_on|intros ? ? Hq; exact Hq].
  eapply always_bind; [apply always_restore|intros []]. apply always_fails.
Qed.

Lemma always_rewrite : always I (λ w, w = w0) (rewrite opts) (λ _ _, True).
Proof.
  unfold Rewrite.rewrite. eapply always_bind; [apply always_here|intros w].
  eapply always_bind; [apply always_lifts|intros q]. cbv zeta. eapply (always_conseq _ _ (λ u, q = p ∧ unmoved u)); [| |done].
  2: { intros u _ (Hq & -> & _ & ->). rewrite Hp in Hq. by injection Hq as ->. }
  apply always_given. intros ->.
  apply passes_bind; [auto|intros _]. apply passes_bind; [auto|intros chip].
  apply passes_bind; [destruct (open_for_source w (plan_source p)) as [stale|]; [|auto]; apply passes_bind; [|intros []]; by apply always_unmoved|].
  intros _. apply passes_bind; [auto|intros w1]. apply passes_bind; [auto|intros prior]. apply passes_bind; [by apply always_unmoved|intros _].
  eapply always_bind; [apply always_read|intros rep]. apply passes_bind; [destruct (_ || _ || _); [apply always_read_back|auto]|intros _].
  eapply always_bind; [apply always_here|intros w2]. cbv zeta.
  set (row := mkRewriteRow _ _ _ _ _ _). pose proof (insert_recorded rep row w2) as Hins.
  destruct (insert_pending _ _ _ _) as [id inserted].
  eapply (always_conseq _ _ (λ u, (recorded opts (plan_source p) (plan_slices p) rep id inserted ∧ reads_whole rep inserted ∧
    ∀ x, x ∈ plan_slices p → rs_set x ∈ staged_sets rep) ∧ True)); [| |done].
  2: { intros u _ (<- & _ & Hu). split; [|done]. destruct (Hins Hu eq_refl). split; [done|]. split; [done|]. apply Hu. }
  apply always_given. intros (Hrec & Hwhole & Hcov).
  eapply (always_bind _ _ _ _ (λ _ u, recorded opts (plan_source p) (plan_slices p) rep id u ∧ reads_whole rep u)).
  { apply always_changes. intros _ _ _. split; [left; apply Hrec|done]. }
  intros []. eapply always_bind; [by apply always_verify_and_retire|intros []].
  set (K := kept staging_dir id (plan_source p) (opt_destination opts) (staged_sets rep)).
  assert (∀ u, K u → I u) as HK by (intros u Hu; right; by exists id, (staged_sets rep)).
  eapply always_bind; [apply always_here|intros w3]. eapply always_bind; [apply always_lifts|intros found].
  eapply (always_conseq _ _ (λ u, leads id (opt_destination opts) (staged_sets rep) found ∧ K u)); [| |done].
  2: { intros u _ (Hf%ok_or_ok & -> & _ & Hu). split; [|done]. eapply load_open_leads; [exact Hf|apply Hu]. }
  apply always_given. intros Hl. eapply (always_bind _ _ _ _ (λ _ _, True)); [|intros []; apply keeping_ret].
  eapply always_conseq; [apply (always_sub I K (λ _, True)); [exact HK|by apply keeping_finish]|by intros u _ Hu|done].
Qed.
End command.

(** ** Once the source is retired *)

(** What may happen then: any rewrite resumed, a state its death leaves, a
    release's transaction and its files, another step that keeps still. *)
Inductive later : World → World → Prop :=
| later_resume label keep w r w' t u : resume label keep w = (r, w', t) → u = w' ∨ u ∈ t → later w u
| later_release w st' : @release_step E session_live commits unlinks meanwhile staging_dir (staging w) st' → later w (with_staging st' w)
| later_calm w w' : calm w w' → later w w'.

Lemma later_kept id v dest sets w u : later w u → kept staging_dir id v dest sets w → kept staging_dir id v dest sets u.
Proof.
  intros Hstep Hk. destruct Hstep as [label keep w r w' t u Hr Hu|w st' Hst|w w' Hc].
  - pose proof (keeping_resume id v dest sets label keep w Hk Logic.I) as Ha. rewrite Hr in Ha. destruct Ha as (Ht & Hw' & _).
    destruct Hu as [->|Hu]; [done|]. rewrite Forall_forall in Ht. by apply Ht.
  - eapply kept_release; [apply meanwhile_same|exact Hmeanwhile|exact Hst|exact Hk].
  - by eapply kept_calm.
Qed.

(** Where a set is, once the source is given up. *)
Definition kept_somewhere (w : World) (set : Z) : Prop :=
  copied w set ∨ staged_whole w set ∧ is_Some (holds (staging w) !! set).
Lemma kept_kept_somewhere id v dest sets w : kept staging_dir id v dest sets w → ∀ set, set ∈ sets → kept_somewhere w set.
Proof.
  intros [[Hg|Hc] _ _ _] set Hin; [|left; by apply Hc]. destruct (fully_read_back_copy (rows w) set) eqn:Hcp; [by left|right].
  assert (¬ copied w set) as Hn by (unfold copied; by rewrite Hcp).
  split; [|by eapply guarded_holds]. destruct Hg as (_ & _ & Hall). by destruct (Hall set Hin).
Qed.
Lemma accounted_slices opts v slices w : accounted opts v slices w →
  ∀ x, x ∈ slices → source_holds v (rs_slice x) w ∨ kept_somewhere w (rs_set x).
Proof.
  intros [Hon|(id & sets & Hk & Hcov)] x Hx; [left; by apply Hon|]. right. by eapply kept_kept_somewhere; [|apply Hcov].
Qed.

Lemma rewrite_accounted opts w p r w' t : preflight config resolve drive operator opts w = Ok p → sound staging_dir (staging w) → readable staging_dir (opt_source opts) w →
  (∀ u, calm u (while_asked u)) → (∀ u v slice, source_holds v slice u → source_holds v slice (while_asked u)) →
  rewrite opts w = (r, w', t) → ∀ u, u = w' ∨ u ∈ t → accounted opts (plan_source p) (plan_slices p) u.
Proof.
  intros Hp Hs Hrd Hc Hsrc Hr u Hu. pose proof (always_rewrite opts w p Hp Hs Hrd Hc Hsrc w) as Ha. rewrite Hr in Ha.
  destruct Ha as (Ht & Hw' & _); [left; by apply (preflight_on opts w p Hp)|done|].
  destruct Hu as [->|Hu]; [done|]. rewrite Forall_forall in Ht. by apply Ht.
Qed.

(** C8: wherever a rewrite left to itself stops, no slice it was to move is
    lost. Left to itself: what runs while the operator is asked keeps staging,
    the records, the copies read back and the source as they are ([calm]), and
    so does what runs beside a release; the erase, the init and the writes,
    which are an interface here, keep them too, however they die, and the read
    stages what it says ([RewriteLaws]). It is not so of a rewrite that others
    disturb: one whose staging is cleaned while the operator is asked may end
    with no copy ([RewriteRehearsal], [cleaned_while_asked]). From a preflight
    passed, in the state [volume rewrite] ends in and in every state a crash of
    it may leave - in the read, between two of its statements, in the erase,
    the init or the write - each live slice of the source is on the source,
    still a copy, or its set is whole in staging, hashes and all, and held
    there by the rewrite's record, or its set has a completed copy read back in
    full on a trusted tape. *)
Theorem rewrite_crash_safe opts w p r w' t : preflight config resolve drive operator opts w = Ok p → sound staging_dir (staging w) → readable staging_dir (opt_source opts) w →
  (∀ u, calm u (while_asked u)) → (∀ u v slice, source_holds v slice u → source_holds v slice (while_asked u)) →
  rewrite opts w = (r, w', t) →
  ∀ u, u = w' ∨ u ∈ t → ∀ x, x ∈ plan_slices p →
    source_holds (plan_source p) (rs_slice x) u ∨ kept_somewhere u (rs_set x).
Proof. intros Hp Hs Hrd Hc Hsrc Hr u Hu. eapply accounted_slices. by eapply rewrite_accounted. Qed.

(** C9: once a rewrite has given its source up, nothing lets a slice go but a
    copy read back. From any state a rewrite ended or died in with a slice of
    its source no longer there, through any number of resumed rewrites, each
    ended or dead wherever it was, of releases, forced or not, whatever fails
    in them, and of steps that keep still, each set of the source is whole in
    staging and held, or has a completed copy read back in full on a trusted
    tape: the hold ends only there. The rewrite itself is left alone, as in
    C8. *)
Theorem held_until_copied opts w p r w' t u1 u : preflight config resolve drive operator opts w = Ok p → sound staging_dir (staging w) → readable staging_dir (opt_source opts) w →
  (∀ u, calm u (while_asked u)) → (∀ u v slice, source_holds v slice u → source_holds v slice (while_asked u)) →
  rewrite opts w = (r, w', t) → u1 = w' ∨ u1 ∈ t →
  (∃ y, y ∈ plan_slices p ∧ ¬ source_holds (plan_source p) (rs_slice y) u1) → rtc later u1 u →
  ∀ x, x ∈ plan_slices p → kept_somewhere u (rs_set x).
Proof.
  intros Hp Hs Hrd Hc Hsrc Hr Hu1 (y & Hy & Hgone) Hsteps x Hx.
  assert (accounted opts (plan_source p) (plan_slices p) u1) as [Hon|(id & sets & Hk & Hcov)] by by eapply rewrite_accounted.
  { exfalso. by apply Hgone, Hon. }
  assert (kept staging_dir id (plan_source p) (opt_destination opts) sets u) as Hk'.
  { clear Hgone Hu1 Hr. induction Hsteps as [|u1 u2 u3 Hstep _ IH]; [done|]. by eapply IH, later_kept. }
  by eapply kept_kept_somewhere; [|apply Hcov].
Qed.
End safe.
