(* ===== verification/RewriteRead.v ===== *)
(** * The read of a rewrite: [DriveRewriteSteps::read] of
    src/volume/rewrite.rs

    [compact_read] as the step a rewrite takes, with the states its death
    leaves; and that it promises what a rewrite asks of its read. *)

From S2P Require Import Prelude LayoutModel Session Ledger AdoptSound Coverage CoverageSound Release Staging StagingGate StagingSound.
From S2P Require Import CompactRead CompactReadSound Rewrite RewriteSound RewriteHeld RewriteSafe.
Local Open Scope Z_scope.

Section read.
Variables (contact_ok : Z → bool) (signalled : Z → bool) (creates unlinks : File → bool) (tape : Z → Z → option (string * Z)) (runs : ReadStatement → bool).
Variables (staging_dir : string).
Notation compact_read := (compact_read contact_ok signalled creates unlinks tape runs staging_dir).
Notation compact_read_into := (compact_read_into signalled creates unlinks tape runs).

(** After so many of the slices. *)
Definition read_states (label : string) (v : Z) (w : World) : list World :=
  match live_recovery_slices (bench w) v with
  | Some slices => (λ k, with_bench (compact_read_into (compact_dir_of staging_dir label) (take k slices) [] [] (bench w)).2 w) <$> seq 0 (S (length slices))
  | None => []
  end.
Definition compact_reads (label : string) (w : World) : result StepError CompactReadReport * World * list World :=
  match volume_labelled w label with
  | None => (Err StepFailed, w, [])
  | Some v => let '(r, b) := compact_read label v (bench w) in (map_err (λ _, StepFailed) r, with_bench b w, read_states label v w)
  end.

Lemma length_app_string (s t : string) : String.length (s +:+ t) = (String.length s + String.length t)%nat.
Proof. induction s as [|a s IH]; [done|]. exact (f_equal S IH). Qed.
Lemma compact_dir_away label : compact_dir_of staging_dir label ≠ staging_dir.
Proof.
  unfold compact_dir_of. intros Heq. apply (f_equal String.length) in Heq. rewrite !length_app_string in Heq. cbn in Heq. lia.
Qed.

(** ** A read moves no copy *)

Lemma remove_file_shelves f b : shelves_in (remove_file unlinks f b) = shelves_in b.
Proof. unfold remove_file. by destruct (unlinks f). Qed.
Lemma into_shelves dir slices run sk b : shelves_in (compact_read_into dir slices run sk b).2 = shelves_in b.
Proof.
  revert run sk b. induction slices as [|s slices IH]; intros run sk b; cbn [CompactRead.compact_read_into]; [done|].
  destruct (signalled _); [done|]. destruct (negb _); [done|]. destruct (tape _ _) as [[sha size]|]; [|cbn -[slice_path]; by rewrite remove_file_shelves].
  case_bool_decide; [|rewrite IH; by rewrite remove_file_shelves].
  unfold record_staged. destruct (negb _); [done|]. destruct (negb _); [done|]. by rewrite IH.
Qed.
Lemma undo_shelves run sets b : shelves_in (undo unlinks runs run sets b) = shelves_in b.
Proof.
  unfold undo. revert b. induction (filter _ run) as [|x l IH]; intros b; cbn [foldl]; [done|]. rewrite IH.
  unfold undo_one. destruct (runs _); cbn -[remove_file]; apply remove_file_shelves.
Qed.
Lemma compact_read_shelves label v b : shelves_in (compact_read label v b).2 = shelves_in b.
Proof.
  unfold CompactRead.compact_read. destruct (holds_range _ _); [done|]. destruct (negb _); [done|].
  destruct (live_recovery_slices b v) as [[|s0 slices]|]; [done| |done]. cbn zeta. destruct (negb (creates _)); [done|].
  pose proof (into_shelves (compact_dir_of staging_dir label) (s0 :: slices) [] [] b) as Hs.
  destruct (compact_read_into _ _ _ _ _) as [[[sk|e] run] b1]; cbn [snd] in *; [|by rewrite undo_shelves].
  assert (∀ sets, shelves_of (foldl (λ a set, promote_set set a) (area b1) sets) = shelves_in b1) as Hp by (intros sets; apply (promoted sets (area b1))).
  destruct (negb (runs _)); [cbn; by rewrite undo_shelves|]. case_bool_decide; cbn [snd]; [|rewrite undo_shelves]; unfold shelves_in at 1; cbn; by rewrite Hp.
Qed.

(** ** What a rewrite asks of its read *)

Lemma read_keeps_sound label v b rep b' : one_write_per_set (shelves_in b) → own_rows (ledger_on b) →
  (∀ i f, staging_path (area b) !! i = Some f → f.1 = compact_dir_of staging_dir label → f = (f.1, slice_file i)) →
  compact_read label v b = (Ok rep, b') → sound staging_dir (area b) → sound staging_dir (area b').
Proof.
  intros Hu Ho Hdir Hr Hs. destruct (compact_read_facts _ _ _ _ _ _ _ _ _ _ _ _ Hu Ho Hr) as
    (slices & Hl & _ & _ & _ & _ & _ & Hin & Hpath & Hsh & _ & Huu & _). set (dir := compact_dir_of staging_dir label) in *.
  assert (∀ i f, staging_path (area b') !! i = Some f → f = (dir, slice_file i) ∨ staging_path (area b) !! i = Some f) as Hcase.
  { intros i f Hf. destruct (decide (i ∈ rs_slice <$> slices)) as [(s & -> & Hs')%list_elem_of_fmap|Hni]; [left|right; by rewrite <- Hpath].
    destruct (Hin s Hs') as [Hp _]. by simplify_eq. }
  split.
  - intros i j f Hi Hj. assert (∀ k, staging_path (area b') !! k = Some f → f.1 = dir → f.2 = slice_file k) as Hname.
    { intros k Hk Hd. destruct (Hcase _ _ Hk) as [->|Hb]; [done|]. by rewrite (Hdir _ _ Hb Hd). }
    destruct (decide (f.1 = dir)) as [Hd|Hd]; [apply slice_file_inj; by rewrite <- (Hname i Hi Hd), <- (Hname j Hj Hd)|].
    destruct (Hcase _ _ Hi) as [->|Hbi]; [done|]. destruct (Hcase _ _ Hj) as [->|Hbj]; [done|]. by eapply (files_distinct _ _ Hs).
  - intros i set n f Hrow Hf Hst. unfold ledger_in in Hrow. rewrite Hsh in Hrow.
    destruct (Hcase _ _ Hf) as [->|Hb]; [by apply compact_dir_away in Hst|].
    destruct (files_named _ _ Hs _ _ _ _ Hrow Hb Hst) as (pre & Hpre & Hp). exists pre. split; [|done]. rewrite <- Hpre.
    unfold set_prefix. by rewrite Hsh, Huu.
  - intros u uuid. rewrite Huu. apply (uuids_plain _ _ Hs).
Qed.

(** The drive's read promises what a rewrite's invariant needs of it. *)
Lemma compact_reads_law label w : readable staging_dir label w → match compact_reads label w with (r, w', t) =>
  Forall (reads_calm w) t ∧ reads_calm w w' ∧ ∀ rep, r = Ok rep → read_done staging_dir label w rep w' end.
Proof.
  intros [R1 R2 R3 R4]. unfold compact_reads. destruct (volume_labelled w label) as [v|] eqn:Hv; [|split; [constructor|split; [done|by intros rep [=]]]].
  pose proof (compact_read_shelves label v (bench w)) as Hsh. destruct (compact_read label v (bench w)) as [r b'] eqn:Hr. cbn in Hsh.
  split; [|split; [done|]].
  { unfold read_states. destruct (live_recovery_slices _ _) as [slices|]; [|constructor]. apply Forall_fmap, Forall_forall. intros k _.
    split; [|done]. apply into_shelves. }
  intros rep Hrep. destruct r as [rep'|]; [|done]. injection Hrep as ->.
  destruct (compact_read_facts _ _ _ _ _ _ _ _ _ _ _ _ R1 R2 Hr) as (slices & Hl & _ & _ & Htells & Hsets & Hall & Hin & _ & Hs & _ & _ & Hst).
  destruct (tells_fmap _ _ _ Htells) as [Hslices _]. split.
  - by apply (read_keeps_sound label v (bench w) rep b').
  - split.
    + intros set Hset. pose proof Hset as Hset'. apply Hsets in Hset' as Hset''. cbn. change (area b') with (area b'). rewrite Hst, bool_decide_eq_true_2 by done.
      apply list_elem_of_fmap in Hset'' as (s & -> & Hs'). by destruct (R3 _ _ Hl s Hs') as [-> | ->].
    + intros set sl n Hset Hsl. unfold rows, staging, ledger_in in Hsl. cbn in Hsl. rewrite Hs in Hsl. specialize (Hall _ _ _ Hset Hsl).
      rewrite <- Hslices in Hall. apply list_elem_of_fmap in Hall as (x & -> & Hx). by exists x.
    + intros x [k Hk]%list_elem_of_lookup. destruct (Forall2_lookup_r _ _ _ _ _ Htells Hk) as (s & Hs'%list_elem_of_lookup_2 & H1 & H2 & H3).
      destruct (Hin s Hs') as [Hp _]. cbn. by rewrite H1, H3.
  - intros v' slices' Hv' Hl' s Hs'. assert (v' = v) as -> by congruence. assert (slices' = slices) as -> by congruence. apply Hsets. by apply list_elem_of_fmap_2.
Qed.
End read.
