(* ===== verification/RewriteRehearsal.v ===== *)
(** * A rewrite rehearsed

    One cartridge that holds the only copy of a version, rewritten in place:
    to its end, and dying in the init with its slices staged and held; and
    what can go wrong. *)

From S2P Require Import Prelude LayoutModel Session Ledger LedgerSound AdoptSound Coverage CoverageSound Release ReleaseSound CoverageRehearsal.
From S2P Require Import Staging StagingGate StagingSound StagingRehearsal.
From S2P Require Import CompactRead CompactReadSound Rewrite RewriteSound RewriteHeld RewriteSafe RewriteRead.
Local Open Scope Z_scope.

Definition yes {A} (x : A) : bool := true.

(** ** The cartridge *)

Definition zx_ledger : Ledger :=
  mkLedger {[1 := vx_write 7 21 1 WCompleted]}
    (list_to_map [((1, 71), mkPosition 4 PWritten (Some "a"%string)); ((1, 72), mkPosition 5 PWritten (Some "b"%string))])
    (list_to_map [(71, mkStageSlice 7 1); (72, mkStageSlice 7 2)]) {[21 := SnapCurrent]} {[1 := vx_volume]} [] ∅ ∅.
Definition zx_shelves : Shelves :=
  mkShelves zx_ledger {[1 := mkUnitRow "photos" "active"]} {[7 := 21]} {[21 := (1, 1)]} {[1 := 101]} ∅ {[101 := "home"%string]}
    (list_to_map [(71, 10); (72, 20)]).
Definition zx_staging : StagingArea := mkStagingArea zx_shelves {[7 := SetCleaned]} {[7 := 2]} ∅ ∅ ∅ {[1 := yx_uuid]} ∅.
Definition zx_world : World :=
  mkWorld (mkBench zx_staging ∅ (list_to_map [(71, "a"%string); (72, "b"%string)])) ∅ {[1 := "L1"%string]} {[1 := 1000]} {[1 := 5]}
    {[5 := mkCartridge (Some "S"%string) 1000 CartInUse]} [].

(** ** The drive's steps *)

Definition zx_tape (pos len : Z) : option (string * Z) :=
  if bool_decide (pos = 4) then Some ("a"%string, 10) else if bool_decide (pos = 5) then Some ("b"%string, 20) else None.
Definition zx_read := compact_reads yes idle yes yes zx_tape yes "/stg".
Definition died {A} (w : World) : result StepError A * World * list World := (Err StepFailed, w, []).
Definition erases_retired (label : string) (w : World) : result StepError () * World * list World :=
  match volume_labelled w label with
  | Some v =>
      match volume_at w v with
      | Some row => if bool_decide (volume_status row = VRetired)
                    then let w' := with_rows (set_volume v (with_volume_status VErased) (rows w)) w in (Ok (), w', [w'])
                    else died w
      | None => died w
      end
  | None => died w
  end.
Definition add_volume (v : Z) (row : VolumeRow) (c : Ledger) : Ledger :=
  mkLedger (writes c) (write_positions c) (stage_slices c) (snapshots c) (<[v := row]> (volumes c)) (aborts c) (verifications c) (results c).
Definition labels (v : Z) (label : string) (w : World) : World :=
  mkWorld (bench w) (rewrite_rows w) (<[v := label]> (label_of w)) (volume_capacity w) (mounts w) (cartridges w) (steps_logged w).
Definition inits (label : string) (w : World) : result StepError () * World * list World :=
  let w' := labels 2 label (with_rows (add_volume 2 (mkVolumeRow VInitialized CondOk None None) (rows w)) w) in (Ok (), w', [w']).
(** A write of both slices, read back in full. *)
Definition writes_back (label : string) (sets : option (list Z)) (w : World) : result StepError () * World * list World :=
  let c := set_write_positions (λ m, <[(9, 72) := mkPosition 5 PWritten (Some "b"%string)]> (<[(9, 71) := mkPosition 4 PWritten (Some "a"%string)]> m))
             (set_writes <[9 := vx_write 7 21 2 WCompleted]> (add_volume 2 vx_volume (rows w))) in
  let w' := with_rows c w in (Ok (), w', [w']).
Definition zx_whole_run : RewriteSteps :=
  {| host_preflight := yes; write_preflight := λ _ _ _, Some true; read_step := zx_read; erase_step := erases_retired;
     init_step := inits; write_step := writes_back; resume_write_step := λ _, died; chip_serial := λ _, Some "S"%string |}.
(** The same drive, the host dying in [volume init]. *)
Definition zx_dies : RewriteSteps :=
  {| host_preflight := yes; write_preflight := λ _ _ _, Some true; read_step := zx_read; erase_step := erases_retired;
     init_step := λ _, died; write_step := λ _ _, died; resume_write_step := λ _, died; chip_serial := λ _, Some "S"%string |}.

Definition zx_drive : Drive := mkDrive yes (λ _, None) None id yes.
Definition zx_operator : Operator := mkOperator true "L1" true.
Definition zx_resolve (u : Z) : result () ResolvedPolicy := Ok (policy_of 1 ∅).
Definition zx_options : RewriteOptions := mkRewriteOptions "L1" "L2" (Some "L1"%string) false false false.
Definition zx_rewrite (steps : RewriteSteps) (asked : World → World) : Act () bool :=
  rewrite vx_config zx_resolve zx_drive zx_operator idle yes yes idle yes id "/stg" asked zx_options.
Definition zx_resume (steps : RewriteSteps) : Act () bool := resume vx_config zx_resolve yes idle yes id "/stg" "L2" false.

Example zx_planned : match preflight vx_config zx_resolve zx_drive zx_operator zx_options zx_world with
  | Ok p => plan_source p = 1 ∧ plan_sole p = [71; 72] ∧ rs_slice <$> plan_slices p = [71; 72]
  | Err _ => False
  end.
Proof. vm_compute. repeat split; reflexivity. Qed.
Example zx_rewritten : let '(r, w, t) := zx_rewrite zx_whole_run id zx_world in
  r = Ok false ∧ fully_read_back_copy (rows w) 7 = true ∧ set_status (staging w) !! 7 = Some SetCleaned.
Proof. vm_compute. repeat split; reflexivity. Qed.

(** ** What can go wrong *)

(** Another process cleans staging while the operator is asked: the source's
    copy meets the floor, the rewrite's record is not yet past its retirement,
    so nothing is held. The source is retired and erased after it, and no copy
    is left. *)
Definition cleans (w : World) : World :=
  with_staging (stage_clean idle yes yes id "/stg" vx_config zx_resolve false [] None (staging w)).2 w.
Example cleaned_while_asked : let '(r, w, t) := zx_rewrite zx_dies cleans zx_world in
  r = Err InitFailed ∧ rewrite_state <$> rewrites (staging w) !! 1 = Some RwErased ∧
  volume_status <$> volume_at w 1 = Some VErased ∧ fully_read_back_copy (rows w) 7 = false ∧
  set_status (staging w) !! 7 = Some SetCleaned ∧ map_to_list (disk (staging w)) = [].
Proof. vm_compute. repeat split; reflexivity. Qed.

(** A destination quarantined after its readback: the rewrite is resumed,
    closed as completed and no longer holds its set, with no eligible copy of
    it anywhere and its staging free to go. *)
Definition quarantined : World :=
  let w := (zx_rewrite zx_dies id zx_world).1.2 in
  labels 2 "L2" (with_rows (set_writes <[9 := vx_write 7 21 2 WCompleted]>
    (add_volume 2 (mkVolumeRow VSealed CondQuarantined (Some "2026"%string) None) (rows w))) w).
Example completed_on_a_quarantined_tape : let '(r, w, t) := zx_resume zx_dies quarantined in
  is_Some (holds (staging quarantined) !! 7) ∧ r = Ok false ∧ rewrite_finished <$> rewrites (staging w) !! 1 = Some true ∧
  fully_read_back_copy (rows w) 7 = false ∧ holds (staging w) !! 7 = None.
Proof. vm_compute. split; [by eexists|]. repeat split; reflexivity. Qed.

(** A slice of a set released on its own is read back for a rewrite that is
    given up: its path goes, and the time it was released is not put back. *)
Definition released_before : World :=
  with_staging (mkStagingArea zx_shelves {[7 := SetStaged]} {[7 := 2]} {[72 := ("/stg"%string, "two"%string)]} {[71]} ∅ {[1 := yx_uuid]}
    {[("/stg"%string, "two"%string) := 20]}) zx_world.
Definition no_answer : RewriteOptions := mkRewriteOptions "L1" "L2" None false false false.
Definition hesitates (w : World) : Act () bool :=
  let steps := zx_whole_run in
  rewrite vx_config zx_resolve zx_drive (mkOperator true "no" false) idle yes yes idle yes id "/stg" id no_answer.
Example not_released_any_more : let '(r, w, t) := hesitates released_before released_before in
  r = Err NoConsent ∧ staged_slice_problems (staging released_before) 7 = [] ∧ released_at (staging w) = ∅ ∧
  staged_slice_problems (staging w) 7 = [NoFileRecorded 1].
Proof. vm_compute. repeat split; reflexivity. Qed.

(** A slice staged whole by an earlier read, read again from a tape that now
    fails: its file is cut to nothing and removed, its path left. *)
Definition bad_tape (pos len : Z) : option (string * Z) := None.
Definition read_before : Bench := (compact_read yes idle yes yes zx_tape yes "/stg" "L1" 1 (bench zx_world)).2.
Example good_file_removed : let '(r, b) := compact_read yes idle yes yes bad_tape yes "/stg" "L1" 1 read_before in
  r = Err TapeUnread ∧ staged_slice_problems (area read_before) 7 = [] ∧
  staged_slice_problems (area b) 7 = [NotThere 1 ("/stg/compact-L1"%string, "slice_71.dat"%string)].
Proof. vm_compute. repeat split; reflexivity. Qed.

(** ** The drive keeps its promises, here *)

Lemma died_calm {A} : calm_run (@died A).
Proof. intros w. split; [constructor|apply calm_refl]. Qed.
Lemma erase_calm w v row : volume_at w v = Some row → volume_status row = VRetired →
  calm w (with_rows (set_volume v (with_volume_status VErased) (rows w)) w).
Proof.
  intros Hv Hr. assert (eligible row = false) as Hne by (unfold eligible; by rewrite Hr). unfold volume_at in Hv.
  split; try done.
  - intros x Hx. unfold volume_at, rows, ledger_in in *. cbn. destruct (decide (x = v)) as [->|Hn]; [|by rewrite lookup_alter_ne].
    rewrite lookup_alter_eq. by apply fmap_is_Some.
  - intros set. rewrite !fully_read_back_copy_some. intros (k & wr & row' & Hk & Hs & Hc & Hver & Hvol & He). exists k, wr, row'.
    repeat split; try done. cbn. rewrite lookup_alter_ne; [done|]. intros ->. rewrite Hv in Hvol. injection Hvol as <-. congruence.
  - intros dest Hd x row' set Hx Hrow Hver. unfold volume_at, rows, ledger_in in *. cbn in *.
    destruct (decide (x = v)) as [->|Hn]; [|rewrite lookup_alter_ne in Hrow by done; by eapply Hd].
    pose proof (Hd v row set Hx Hv Hver). congruence.
Qed.
Lemma erases_retired_calm label : calm_run (erases_retired label).
Proof.
  intros w. unfold erases_retired. destruct (volume_labelled w label) as [v|]; [|apply died_calm].
  destruct (volume_at w v) as [row|] eqn:Hv; [|apply died_calm]. case_bool_decide as Hr; [|apply died_calm].
  pose proof (erase_calm w v row Hv Hr). split; [by apply Forall_singleton|done].
Qed.
#[export] Instance zx_laws : @RewriteLaws zx_dies "/stg".
Proof.
  split.
  - intros label w. apply (compact_reads_law yes idle yes yes zx_tape yes "/stg").
  - apply erases_retired_calm.
  - intros label. apply died_calm.
  - intros label sets. apply died_calm.
  - intros label. apply died_calm.
Qed.

Lemma zx_sound : sound "/stg" zx_staging.
Proof.
  split.
  - intros s s' f Hs. cbn in Hs. by apply lookup_empty_Some in Hs.
  - intros s set n f _ Hs. cbn in Hs. by apply lookup_empty_Some in Hs.
  - intros u uuid. cbn. rewrite lookup_singleton_Some. intros [_ <-]. by vm_compute.
Qed.
Lemma zx_unique : one_write_per_set zx_shelves.
Proof. intros w w' r r'. cbn. rewrite !lookup_singleton_Some. by intros [<- _] [<- _]. Qed.
Lemma zx_own : own_rows zx_ledger.
Proof.
  intros w s row r Hpos Hw. cbn in Hw. apply lookup_singleton_Some in Hw as [<- <-].
  assert (Forall (λ x : (Z * Z) * PositionRow, fst (default (0, 0) ((λ sl, (slice_set_id sl, 0)) <$> (stage_slices zx_ledger !! x.1.2))) = 7)
    (map_to_list (write_positions zx_ledger))) as Hall by by_decide.
  rewrite Forall_forall in Hall. apply elem_of_map_to_list in Hpos. specialize (Hall _ Hpos). cbn [fst snd] in Hall.
  destruct (stage_slices zx_ledger !! s) as [[set n]|]; [|done]. cbn in Hall. exists n. by rewrite Hall.
Qed.
Lemma zx_readable : readable "/stg" "L1" zx_world.
Proof.
  split; [exact zx_unique|exact zx_own| |].
  - intros v slices Hl s Hs. right. destruct (live_slices_row _ _ _ _ Hl Hs) as [n Hn]. 
    assert (Forall (λ x : Z * StageSlice, slice_set_id x.2 = 7) (map_to_list (stage_slices zx_ledger))) as Hall by by_decide.
    rewrite Forall_forall in Hall. apply elem_of_map_to_list in Hn. specialize (Hall _ Hn). cbn in Hall. rewrite Hall. reflexivity.
  - intros i f Hf. cbn in Hf. by apply lookup_empty_Some in Hf.
Qed.

(** ** What the theorems say of it *)

Definition zx_plan : Plan :=
  match preflight vx_config zx_resolve zx_drive zx_operator zx_options zx_world with
  | Ok p => p
  | Err _ => mkPlan 0 None [] [] [] []
  end.
Lemma zx_preflight : preflight vx_config zx_resolve zx_drive zx_operator zx_options zx_world = Ok zx_plan.
Proof. vm_compute. reflexivity. Qed.
Definition zx_dead : World := (zx_rewrite zx_dies id zx_world).1.2.
Lemma zx_died : zx_rewrite zx_dies id zx_world = (Err InitFailed, zx_dead, (zx_rewrite zx_dies id zx_world).2).
Proof.
  assert ((zx_rewrite zx_dies id zx_world).1.1 = Err InitFailed) as Hr by (vm_compute; reflexivity). rewrite <- Hr.
  unfold zx_dead. by destruct (zx_rewrite zx_dies id zx_world) as [[r w] t].
Qed.
Lemma zx_still (u : World) : calm u (id u).
Proof. apply calm_refl. Qed.
Lemma zx_meanwhile (w : World) : calm w (meanwhile_in id w).
Proof. unfold meanwhile_in, id. rewrite with_staging_same. apply calm_refl. Qed.
Lemma zx_still_source (u : World) v slice : source_holds v slice u → source_holds v slice (id u).
Proof. done. Qed.
Definition zx_slice : RecoverySlice := mkRecovery 4 "a" 10 "a" 7 71.
Lemma zx_in_plan : zx_slice ∈ plan_slices zx_plan.
Proof. vm_compute. left. Qed.
Lemma zx_gone : ¬ source_holds 1 71 zx_dead.
Proof.
  intros [(row & Hrow & He) _]. assert (volume_at zx_dead 1 = Some (mkVolumeRow VErased CondOk (Some "2026"%string) None)) as Hv by (vm_compute; reflexivity).
  rewrite Hv in Hrow. injection Hrow as <-. discriminate He.
Qed.

(** Dead in the init, the version's only copy is in staging and held. *)
Lemma rewrite_crash_safe_witness : staged_whole zx_dead 7 ∧ is_Some (holds (staging zx_dead) !! 7).
Proof.
  destruct (@rewrite_crash_safe () zx_dies "/stg" zx_laws vx_config zx_resolve zx_drive zx_operator idle yes yes idle yes id id zx_meanwhile
    zx_options zx_world zx_plan _ zx_dead _ zx_preflight zx_sound zx_readable zx_still zx_still_source zx_died zx_dead
    (or_introl eq_refl) zx_slice zx_in_plan) as [Hon|[Hc|Hs]].
  - exfalso. exact (zx_gone Hon).
  - exfalso. vm_compute in Hc. discriminate.
  - exact Hs.
Defined.

(** Cleaned with [--force], and resumed to die again: still there. *)
Definition zx_forced : World := with_staging (@clean_staging () idle yes yes id "/stg" true ScopeWhole (staging zx_dead)).2 zx_dead.
Definition zx_again : World := (zx_resume zx_dies zx_forced).1.2.
Lemma zx_later : rtc (@later () zx_dies "/stg" vx_config zx_resolve yes idle yes id) zx_dead zx_again.
Proof.
  apply (rtc_l _ zx_dead zx_forced zx_again); [|apply rtc_once].
  - apply (later_release _ _ _ _ _ _ _ zx_dead). apply (step_whole idle yes yes id "/stg" true ScopeWhole _ (@clean_staging () idle yes yes id "/stg" true ScopeWhole (staging zx_dead)).1). apply surjective_pairing.
  - apply (later_resume _ _ _ _ _ _ _ "L2" false zx_forced (zx_resume zx_dies zx_forced).1.1 zx_again (zx_resume zx_dies zx_forced).2); [|by left].
    unfold zx_again. by destruct (zx_resume zx_dies zx_forced) as [[r w] t] eqn:Hr.
Qed.
Lemma held_until_copied_witness : staged_whole zx_again 7 ∧ is_Some (holds (staging zx_again) !! 7).
Proof.
  destruct (@held_until_copied () zx_dies "/stg" zx_laws vx_config zx_resolve zx_drive zx_operator idle yes yes idle yes id id zx_meanwhile
    zx_options zx_world zx_plan _ zx_dead _ zx_dead zx_again zx_preflight zx_sound zx_readable zx_still zx_still_source zx_died
    (or_introl eq_refl) (ex_intro _ zx_slice (conj zx_in_plan zx_gone)) zx_later zx_slice zx_in_plan) as [Hc|Hs].
  - exfalso. vm_compute in Hc. discriminate Hc.
  - exact Hs.
Defined.

Definition zx_bench : Bench := bench zx_world.
Definition zx_report : CompactReadReport :=
  match (compact_read yes idle yes yes zx_tape yes "/stg" "L1" 1 zx_bench).1 with Ok r => r | Err _ => mkReadReport 1 [] [] end.

(** The second slice's record cannot be read: the first is taken back. *)
Definition half_tape (pos len : Z) : option (string * Z) := if bool_decide (pos = 4) then Some ("a"%string, 10) else None.
Example first_taken_back : let '(r, b) := compact_read yes idle yes yes half_tape yes "/stg" "L1" 1 zx_bench in
  r = Err TapeUnread ∧ staging_path (area b) = ∅ ∧ map_to_list (disk (area b)) = [] ∧ set_status (area b) !! 7 = Some SetCleaned.
Proof. vm_compute. repeat split; reflexivity. Qed.
(** The same, the first slice staged by an earlier read into the directory: its
    file goes and its path with it, where the set stays staged. *)
Definition zx_stopped := compact_read yes idle yes yes half_tape yes "/stg" "L1" 1 read_before.
Example earlier_path_gone : staging_path (area read_before) !! 71 = Some ("/stg/compact-L1"%string, "slice_71.dat"%string) ∧
  staging_path (area zx_stopped.2) !! 71 = None ∧ staged_slice_problems (area zx_stopped.2) 7 =
    [NoFileRecorded 1; NotThere 2 ("/stg/compact-L1"%string, "slice_72.dat"%string)].
Proof. vm_compute. repeat split; reflexivity. Qed.
(** The catalog does not run the update that takes a slice back. *)
Definition no_restores (st : ReadStatement) : bool := match st with RestorePath _ => false | _ => true end.
Example row_not_taken_back : let '(r, b) := compact_read yes idle yes yes half_tape no_restores "/stg" "L1" 1 zx_bench in
  r = Err TapeUnread ∧ staging_path (area b) !! 71 = Some ("/stg/compact-L1"%string, "slice_71.dat"%string) ∧ map_to_list (disk (area b)) = [].
Proof. vm_compute. repeat split; reflexivity. Qed.
(** A slice that does not match: the set is told, and not staged. *)
Definition wrong_tape (pos len : Z) : option (string * Z) := if bool_decide (pos = 4) then Some ("a"%string, 10) else Some ("?"%string, 20).
Example set_not_in_full : let '(r, b) := compact_read yes idle yes yes wrong_tape yes "/stg" "L1" 1 zx_bench in
  r = Err (NotEverySet [7]) ∧ staging_path (area b) = ∅ ∧ set_status (area b) !! 7 = Some SetCleaned.
Proof. vm_compute. repeat split; reflexivity. Qed.

Lemma zx_unique_before : one_write_per_set (shelves_in read_before).
Proof. exact zx_unique. Qed.
Lemma compact_read_stopped_witness : zx_stopped.1 = Err TapeUnread ∧ set_status (area zx_stopped.2) !! 7 = Some SetStaged ∧
  row_left yes "/stg/compact-L1" (default [] (live_recovery_slices read_before 1)) read_before zx_stopped.2 71.
Proof.
  assert (zx_stopped.1 = Err TapeUnread) as He by (vm_compute; reflexivity). split; [exact He|].
  destruct (compact_read_stopped yes idle yes yes half_tape yes "/stg" "L1" 1 read_before TapeUnread zx_stopped.2 zx_unique_before zx_own)
    as (whole & [_ _ _ Hnone _ Hst _ Hrows]).
  - rewrite <- He. apply surjective_pairing.
  - specialize (Hnone eq_refl). subst whole. split.
    + rewrite Hst. vm_compute. reflexivity.
    + apply Hrows. intros s _ _ Hin. by apply not_elem_of_nil in Hin.
Defined.
