(* ===== verification/PolicyRehearsal.v ===== *)
(** * A policy resolved, frozen, and resolved without its source

    A unit whose dotfile sets targets, over an archive set that requires a
    location; what is resolved, what a bad dotfile gives, and what is left
    when the source goes with and without a freeze. *)

From S2P Require Import Prelude LayoutModel Format Session Ledger SizeText Coverage Release Policy Staging StagingGate PolicySound.
From S2P Require Import CoverageRehearsal.
Local Open Scope Z_scope.

(** ** The crates *)

(** A map's text here is the bits of its code. *)
Fixpoint bits_of (p : positive) : string :=
  match p with xH => EmptyString | xO p => String (Ascii.ascii_of_N 48) (bits_of p) | xI p => String (Ascii.ascii_of_N 49) (bits_of p) end.
Fixpoint of_bits (s : string) : positive :=
  match s with
  | EmptyString => xH
  | String c s => if bool_decide (code c = 48) then xO (of_bits s) else xI (of_bits s)
  end.
Lemma of_bits_of p : of_bits (bits_of p) = p.
Proof. induction p as [p IH|p IH|]; cbn; by rewrite ?IH. Qed.

#[local] Instance px_json : JsonCrate := {|
  json_strings text := if bool_decide (text = "[home]"%string) then Some ["home"%string] else None;
  json_counts text := decode (of_bits text);
  json_of_counts m := bits_of (encode m);
|}.
#[local] Instance px_json_laws : JsonLaws.
Proof. intros m. cbn. by rewrite of_bits_of, decode_encode. Qed.

Definition px_unit_section : string * toml :=
  ("unit", TTable [("uuid", TString "u"); ("name", TString "photos"); ("created", TString "c"); ("tenant", TString "t")])%string.
#[local] Instance px_toml : TomlCrate := λ text,
  if bool_decide (text = "targets"%string) then
    Ok [px_unit_section; ("policy", TTable [("slice_size", TString "2GiB"); ("copies_at", TTable [("home", TInteger 1); ("offsite", TInteger 2)])])]%string
  else if bool_decide (text = "misspelt"%string) then Ok [px_unit_section; ("polcy", TTable [])]%string
  else if bool_decide (text = "nowhere"%string) then
    Ok [px_unit_section; ("policy", TTable [("copies_at", TTable [("attic", TInteger 1)])])]%string
  else Err ""%string.

(** ** The layers *)

Definition px_defaults : DefaultsConfig :=
  mkDefaults "1G" "none" "mtime_size" true true true true false 2 0 365 false ∅.
Definition px_sets : gmap Z ArchiveSet :=
  {[1 := mkArchiveSet None (Some "[home]"%string) None (Some "zstd"%string) None None (Some 90) None None None None None (Some 1) None]}.
Definition px_places : gmap Z string := {[1 := "home"; 2 := "offsite"]}%string.
Definition px_disk (text : option string) (path : string) : DotfileOnDisk :=
  if bool_decide (path = "/photos"%string) then match text with Some t => DotfileText t | None => NoDotfile end else NoDotfile.
Definition px_unit : Unit := mkUnit (Some 1) (Some "/photos"%string) "tape_only" None.
Definition px_resolve (text : option string) := resolve px_defaults px_sets px_places (px_disk text).

Definition px_view (p : ResolvedPolicy) : list (string * Z) * Z * Z * string * bool * option Z * Z :=
  (map_to_list (copies_at p), copy_floor_base p, slice_size p, compression p, allow_spanning p, verify_interval_days p, min_copies p).
Example px_dotfile_over_set_over_defaults :
  px_view <$> px_resolve (Some "targets"%string) px_unit =
    Ok ([("offsite", 2); ("home", 1)]%string, 3, 2 * 1024 ^ 3, "zstd"%string, true, Some 90, 2).
Proof. vm_compute. reflexivity. Qed.
(** Without a dotfile the set's required location is its target. *)
Example px_set_requires_home :
  px_view <$> px_resolve None px_unit = Ok ([("home"%string, 1)], 2, 1024 ^ 3, "zstd"%string, true, Some 90, 2).
Proof. vm_compute. reflexivity. Qed.
Example px_refused :
  px_resolve (Some "misspelt"%string) px_unit = Err (mkUnresolvable LayerDotfile (UnknownTable "polcy")) ∧
  px_resolve (Some "nowhere"%string) px_unit = Err (mkUnresolvable LayerDotfile (UnknownLocations ["attic"%string])) ∧
  px_resolve None (mkUnit (Some 7) None "active" None) = Err (mkUnresolvable LayerArchiveSet NoSuchArchiveSet).
Proof. repeat split; vm_compute; reflexivity. Qed.

(** ** The source lost *)

Definition px_table : UnitTable := mkUnitTable {[1 := px_unit]} [].
Definition px_frozen : UnitTable := default px_table (freeze_each (px_disk (Some "targets"%string)) [1] px_table).
Definition px_here := policy_at px_defaults px_sets px_places (px_disk (Some "targets"%string)) px_table.
Definition px_gone := policy_at px_defaults px_sets px_places (px_disk None).

(** Unfrozen, the floor of three falls to two with the source; frozen, it stands. *)
Example px_floor_kept :
  (λ p, copy_floor_base p) <$> px_here 1 = Ok 3 ∧
  (λ p, copy_floor_base p) <$> px_gone px_table 1 = Ok 2 ∧
  (λ p, copy_floor_base p) <$> px_gone px_frozen 1 = Ok 3.
Proof. repeat split; vm_compute; reflexivity. Qed.

Definition resolved (r : result Unresolvable ResolvedPolicy) : ResolvedPolicy :=
  match r with Ok p => p | Err _ => policy_of 0 ∅ end.
Lemma lost_sources_keep_verdicts_witness :
  volume_retire vx_config (px_gone px_frozen) true 3 id vx_shelves = volume_retire vx_config px_here true 3 id vx_shelves.
Proof.
  apply (lost_sources_keep_verdicts px_defaults px_sets px_places vx_config (px_disk (Some "targets"%string)) (px_disk None) [1] px_table px_frozen).
  - vm_compute. reflexivity.
  - intros id u Hu. change (({[1 := px_unit]} : gmap Z Unit) !! id = Some u) in Hu. apply lookup_singleton_Some in Hu as [<- <-].
    right. split; [reflexivity|]. split; [by left|]. split; [discriminate|].
    exists (resolved (px_resolve (Some "targets"%string) px_unit)). vm_compute. reflexivity.
Defined.

Lemma volume_interval_is_the_tightest_witness :
  let rows := {[1 := px_unit]} in
  volume_verify_interval_days px_sets rows vx_shelves 1 (Some 365) =
  minZ (omap (λ w : Z * WriteRow,
    u ← unit_written rows vx_shelves 1 w.2;
    match px_resolve None u with Ok p => verify_interval_days p | Err _ => None end) (map_to_list (writes (ledger_of vx_shelves)))).
Proof.
  apply (volume_interval_is_the_tightest px_defaults px_sets px_places (px_disk None)).
  intros id w u _ Hu. exists (resolved (px_resolve None px_unit)).
  unfold unit_written in Hu. case_bool_decide; [|done]. destruct (version_of vx_shelves !! snapshot_id w) as [x|]; [|done].
  cbn in Hu. apply lookup_singleton_Some in Hu as [_ <-]. vm_compute. reflexivity.
Defined.
