(* ===== verification/Registry.v ===== *)
(** * The registry of cartridges: src/volume/binding.rs, src/tape/contact.rs

    The rows that say which cartridge is which: the chip serials and barcodes
    the catalog knows, the volumes mounted on them, and what each contact with
    a tape left behind - its row, the readings of the chip, the events. Every
    statement that changes them is one function; those the schema may refuse
    ([UNIQUE], [REFERENCES]) are fallible. *)

From S2P Require Import Prelude SizeText LayoutModel Format Session Ledger Coverage TapeStore.
Local Open Scope Z_scope.
Local Open Scope rust_scope.

(** ** Media: src/media.rs, src/tape/mam.rs *)

Inductive Generation : Type :=
| Lto1 | Lto2 | Lto3 | Lto4 | Lto5 | Lto6 | Lto7 | Lto7M8 | Lto8 | Lto9 | Lto10.
#[export] Instance Generation_eq_dec : EqDecision Generation.
Proof. solve_decision. Defined.
(** [Generation::as_str]. *)
Definition generation_text (g : Generation) : string :=
  match g with
  | Lto1 => "LTO-1" | Lto2 => "LTO-2" | Lto3 => "LTO-3" | Lto4 => "LTO-4" | Lto5 => "LTO-5" | Lto6 => "LTO-6"
  | Lto7 => "LTO-7" | Lto7M8 => "LTO-7-M8" | Lto8 => "LTO-8" | Lto9 => "LTO-9" | Lto10 => "LTO-10"
  end.
Definition native_capacity_bytes (g : Generation) : Z :=
  match g with
  | Lto1 => 100000000000 | Lto2 => 200000000000 | Lto3 => 400000000000 | Lto4 => 800000000000
  | Lto5 => 1500000000000 | Lto6 => 2500000000000 | Lto7 => 6000000000000 | Lto7M8 => 9000000000000
  | Lto8 => 12000000000000 | Lto9 => 18000000000000 | Lto10 => 30000000000000
  end.

(** [to_ascii_uppercase], of a byte. *)
Definition upper_ascii (a : Ascii.ascii) : Ascii.ascii :=
  let n := Ascii.N_of_ascii a in if (97 <=? n)%N && (n <=? 122)%N then Ascii.ascii_of_N (n - 32) else a.
Fixpoint normalized (s : string) : string :=
  match s with
  | EmptyString => EmptyString
  | String.String a s =>
      (* - _ and the space *)
      if bool_decide (Ascii.N_of_ascii a ∈ [45; 95; 32]%N) then normalized s else String.String (upper_ascii a) (normalized s)
  end.
Definition generation_spellings : list (list string * Generation) :=
  [(["LTO1"; "L1"], Lto1); (["LTO2"; "L2"], Lto2); (["LTO3"; "L3"], Lto3); (["LTO4"; "L4"], Lto4); (["LTO5"; "L5"], Lto5);
   (["LTO6"; "L6"], Lto6); (["LTO7"; "L7"], Lto7); (["LTO7M8"; "M8"; "LTO7TYPEM"], Lto7M8); (["LTO8"; "L8"], Lto8);
   (["LTO9"; "L9"], Lto9); (["LTO10"; "L10"], Lto10)]%string.
Definition parse_generation (s : string) : option Generation :=
  snd <$> List.find (λ x : list string * Generation, bool_decide (normalized (trim s) ∈ x.1)) generation_spellings.
Definition can_write (drive media : Generation) : bool :=
  match drive with
  | Lto1 => bool_decide (media = Lto1)
  | Lto2 => bool_decide (media ∈ [Lto2; Lto1])
  | Lto3 => bool_decide (media ∈ [Lto3; Lto2])
  | Lto4 => bool_decide (media ∈ [Lto4; Lto3])
  | Lto5 => bool_decide (media ∈ [Lto5; Lto4])
  | Lto6 => bool_decide (media ∈ [Lto6; Lto5])
  | Lto7 => bool_decide (media ∈ [Lto7; Lto6])
  | Lto7M8 => false
  | Lto8 => bool_decide (media ∈ [Lto8; Lto7M8; Lto7])
  | Lto9 => bool_decide (media ∈ [Lto9; Lto8])
  | Lto10 => bool_decide (media = Lto10)
  end.
Inductive CapacitySource : Type := DriveOverride | CartridgeRowFigure | GenerationTable.
Definition resolve_capacity (override_bytes row_bytes : option Z) (g : Generation) : Z * CapacitySource :=
  match override_bytes, row_bytes with
  | Some b, _ => (b, DriveOverride)
  | None, Some b => (b, CartridgeRowFigure)
  | None, None => (native_capacity_bytes g, GenerationTable)
  end.

(** A reading of the chip, and what of it the journal keeps. *)
Record MamInfo : Type := mkMam {
  mam_serial : option string;
  mam_load_count : option Z;
  mam_manufacturer : option string;
  mam_length_meters : option Z;
  life_written_mib_raw : option Z;
}.
Record MamCapture : Type := mkCapture { capture_ok : bool; captured_life_written : option Z }.
Record Detected : Type := mkDetected {
  detected_generation : option Generation;
  mam : MamInfo;
  capture : MamCapture;
}.

(** ** The rows *)

Inductive CartridgeState : Type := Available | InUse | PendingErase | RetiredPermanent.
#[export] Instance CartridgeState_eq_dec : EqDecision CartridgeState.
Proof. solve_decision. Defined.
Definition state_text (s : CartridgeState) : string :=
  match s with
  | Available => "available" | InUse => "in_use" | PendingErase => "pending_erase" | RetiredPermanent => "retired_permanent"
  end.
Definition status_text (s : VolumeStatus) : string :=
  match s with
  | VInitialized => "initialized" | VActive => "active" | VRetired => "retired" | VErased => "erased" | VSealed => "sealed"
  end.

Record CartridgeRow : Type := mkCartridgeRow {
  barcode : string;
  media_type : string;
  manufacturer : option string;
  serial_number : option string;         (* what the chip said *)
  tape_length_meters : option Z;
  nominal_capacity : Z;
  cartridge_state : CartridgeState;
  total_load_count : option Z;
  cartridge_location : option Z;
  operator_serial : option string;       (* what an operator typed *)
}.
Definition with_serial (s : string) (r : CartridgeRow) : CartridgeRow :=
  mkCartridgeRow (barcode r) (media_type r) (manufacturer r) (Some s) (tape_length_meters r) (nominal_capacity r)
    (cartridge_state r) (total_load_count r) (cartridge_location r) (operator_serial r).
Definition with_barcode (b : string) (r : CartridgeRow) : CartridgeRow :=
  mkCartridgeRow b (media_type r) (manufacturer r) (serial_number r) (tape_length_meters r) (nominal_capacity r)
    (cartridge_state r) (total_load_count r) (cartridge_location r) (operator_serial r).
Definition with_state (s : CartridgeState) (r : CartridgeRow) : CartridgeRow :=
  mkCartridgeRow (barcode r) (media_type r) (manufacturer r) (serial_number r) (tape_length_meters r) (nominal_capacity r)
    s (total_load_count r) (cartridge_location r) (operator_serial r).
(** [COALESCE(?2, total_load_count)]. *)
Definition with_load_count (n : option Z) (r : CartridgeRow) : CartridgeRow :=
  mkCartridgeRow (barcode r) (media_type r) (manufacturer r) (serial_number r) (tape_length_meters r) (nominal_capacity r)
    (cartridge_state r) (match n with Some _ => n | None => total_load_count r end) (cartridge_location r) (operator_serial r).

(** A row of [cartridge_volumes]: [UNIQUE(volume_id)] makes it its volume's. *)
Inductive IdentitySource : Type := FromChip | FromOperator.
Record MountRow : Type := mkMountRow {
  mounted_on : Z;
  still_mounted : bool;                  (* [unmounted_at IS NULL] *)
  identity_source : option IdentitySource;
}.
Definition unmount (m : MountRow) : MountRow := mkMountRow (mounted_on m) false (identity_source m).

Inductive Entity : Type := OnCartridge | OnVolume.
#[export] Instance Entity_eq_dec : EqDecision Entity.
Proof. solve_decision. Defined.
(** [events.details]: some prose, or what [cartridge erase] puts there. *)
Inductive Details : Type :=
| Prose (s : string)
| OfErase (contact_id : option Z) (mode : EraseMode).
Record EventRow : Type := mkEvent {
  entity : Entity;
  entity_id : Z;
  action : string;
  event_field : option string;
  old_value : option string;
  new_value : option string;
  details : option Details;
}.

Inductive Operation : Type :=
| VolumeInit | VolumeWrite | VolumeResume | VolumeVerify | VolumeIdentify | VolumeReadSlices | VolumeCompactRead
| VolumeCompact | VolumeRewrite | RestoreUnit | RestoreVolume | RestoreRawVolume | CatalogRebuild | DrivePoll
| CartridgeErase | DriveEject.
#[export] Instance Operation_eq_dec : EqDecision Operation.
Proof. solve_decision. Defined.
Inductive Outcome : Type := OutcomeOk | OutcomeFailed.
#[export] Instance Outcome_eq_dec : EqDecision Outcome.
Proof. solve_decision. Defined.
Record ContactRow : Type := mkContact {
  contact_cartridge : option Z;
  contact_operation : Operation;
  contact_outcome : option Outcome;      (* [None]: it did not close *)
}.
Inductive Hook : Type := HookErase | HookEraseRecheck | HookEraseVerify | HookOther.
#[export] Instance Hook_eq_dec : EqDecision Hook.
Proof. solve_decision. Defined.
Record JournalRow : Type := mkJournal {
  journal_contact : option Z;
  journal_hook : Hook;
  journal_ok : bool;
  journal_life_written : option Z;
}.

Record Registry : Type := mkRegistry {
  shelves : Shelves;                     (* the volumes, and what counts them *)
  labels : gmap Z string;
  uuids : gmap Z string;                 (* [volumes.uuid], when set *)
  cartridge_rows : gmap Z CartridgeRow;
  mount_rows : gmap Z MountRow;
  moves : list (Z * Z);                  (* [volume_movements]: volume, place *)
  events : list EventRow;                (* the oldest first *)
  contacts : gmap Z ContactRow;
  mam_journal : list JournalRow;
}.
Definition set_shelves (f : Shelves → Shelves) (g : Registry) : Registry :=
  mkRegistry (f (shelves g)) (labels g) (uuids g) (cartridge_rows g) (mount_rows g) (moves g) (events g) (contacts g) (mam_journal g).
Definition set_cartridge_rows (f : gmap Z CartridgeRow → gmap Z CartridgeRow) (g : Registry) : Registry :=
  mkRegistry (shelves g) (labels g) (uuids g) (f (cartridge_rows g)) (mount_rows g) (moves g) (events g) (contacts g) (mam_journal g).
Definition set_mount_rows (f : gmap Z MountRow → gmap Z MountRow) (g : Registry) : Registry :=
  mkRegistry (shelves g) (labels g) (uuids g) (cartridge_rows g) (f (mount_rows g)) (moves g) (events g) (contacts g) (mam_journal g).
Definition log_move (v place : Z) (g : Registry) : Registry :=
  mkRegistry (shelves g) (labels g) (uuids g) (cartridge_rows g) (mount_rows g) (moves g ++ [(v, place)]) (events g) (contacts g) (mam_journal g).
Definition log_event (e : EventRow) (g : Registry) : Registry :=
  mkRegistry (shelves g) (labels g) (uuids g) (cartridge_rows g) (mount_rows g) (moves g) (events g ++ [e]) (contacts g) (mam_journal g).
Definition set_contacts (f : gmap Z ContactRow → gmap Z ContactRow) (g : Registry) : Registry :=
  mkRegistry (shelves g) (labels g) (uuids g) (cartridge_rows g) (mount_rows g) (moves g) (events g) (f (contacts g)) (mam_journal g).
Definition add_journal (r : JournalRow) (g : Registry) : Registry :=
  mkRegistry (shelves g) (labels g) (uuids g) (cartridge_rows g) (mount_rows g) (moves g) (events g) (contacts g) (mam_journal g ++ [r]).

Definition log_field_change (k : Entity) (id : Z) (act field : string) (old : option string) (new : string) : Registry → Registry :=
  log_event (mkEvent k id act (Some field) old (Some new) None).
Definition log_created (k : Entity) (id : Z) : Registry → Registry := log_event (mkEvent k id "created" None None None None).

(** ** The volumes *)

Definition volume_table (g : Registry) : gmap Z VolumeRow := volumes (ledger_of (shelves g)).
Definition update_volume (v : Z) (f : VolumeRow → VolumeRow) : Registry → Registry :=
  set_shelves (λ sh, with_ledger (set_volume v f (ledger_of sh)) sh).
Definition label_at (g : Registry) (v : Z) : string := default EmptyString (labels g !! v).
Definition volume_place (g : Registry) (v : Z) : option Z := shelf (shelves g) !! v.
Definition set_volume_place (v place : Z) : Registry → Registry :=
  set_shelves (λ sh, mkShelves (ledger_of sh) (units sh) (set_snapshot sh) (version_of sh) (<[v := place]> (shelf sh))
    (deposits sh) (locations sh) (encrypted_bytes sh)).

(** The volumes with an open mount on a cartridge, by id. *)
Definition by_volume (a b : Z * VolumeRow) : Prop := a.1 ≤ b.1.
#[export] Instance by_volume_dec : RelDecision by_volume.
Proof. intros a b. unfold by_volume. apply _. Defined.
Definition mounted_now (c : Z) (m : MountRow) : bool := bool_decide (mounted_on m = c) && still_mounted m.
Definition open_mounts (c : Z) (g : Registry) : list (Z * VolumeRow) :=
  merge_sort by_volume (omap (λ vm : Z * MountRow,
    if mounted_now c vm.2 then (vm.1,.) <$> volume_table g !! vm.1 else None) (map_to_list (mount_rows g))).
(** The cartridge a volume is mounted on. *)
Definition open_mount (v : Z) (g : Registry) : option (Z * (MountRow * CartridgeRow)) :=
  m ← mount_rows g !! v;
  if still_mounted m then (λ r, (mounted_on m, (m, r))) <$> cartridge_rows g !! mounted_on m else None.
Definition close_mounts (c : Z) (other_than : option Z) : Registry → Registry :=
  set_mount_rows (map_imap (λ v m,
    Some (if mounted_now c m && negb (bool_decide (Some v = other_than)) then unmount m else m))).

(** ** The cartridges *)

Definition cartridges_where (p : CartridgeRow → bool) (g : Registry) : list (Z * CartridgeRow) :=
  filter (λ x : Z * CartridgeRow, p x.2 = true) (map_to_list (cartridge_rows g)).
(** [select_cartridge] on a [UNIQUE] column. *)
Definition select_by_serial (s : string) (g : Registry) : option (Z * CartridgeRow) :=
  head (cartridges_where (λ r, bool_decide (serial_number r = Some s)) g).
Definition select_by_barcode (b : string) (g : Registry) : option (Z * CartridgeRow) :=
  head (cartridges_where (λ r, bool_decide (barcode r = b)) g).
(** [select_cartridges_by_operator_serial]: claims no chip has confirmed. *)
Definition select_by_operator_serial (s : string) (g : Registry) : list (Z * CartridgeRow) :=
  cartridges_where (λ r, bool_decide (operator_serial r = Some s) && bool_decide (serial_number r = None)) g.

(** A row's key may not become another's. *)
Definition other_cartridge (c : Z) (p : CartridgeRow → bool) (g : Registry) : bool :=
  existsb (λ x : Z * CartridgeRow, negb (bool_decide (x.1 = c)) && p x.2) (map_to_list (cartridge_rows g)).
Inductive SqlRefused : Type := UniqueViolated | NoSuchRow.
Definition update_serial (c : Z) (s : string) (g : Registry) : result SqlRefused Registry :=
  if other_cartridge c (λ r, bool_decide (serial_number r = Some s)) g then Err UniqueViolated
  else Ok (set_cartridge_rows (alter (with_serial s) c) g).
Definition update_barcode (c : Z) (b : string) (g : Registry) : result SqlRefused Registry :=
  if other_cartridge c (λ r, bool_decide (barcode r = b)) g then Err UniqueViolated
  else Ok (set_cartridge_rows (alter (with_barcode b) c) g).
Definition insert_cartridge (r : CartridgeRow) (g : Registry) : result SqlRefused (Z * Registry) :=
  let id := next_id (cartridge_rows g) in
  if other_cartridge id (λ r', bool_decide (barcode r' = barcode r)
       || bool_decide (is_Some (serial_number r)) && bool_decide (serial_number r' = serial_number r)) g
  then Err UniqueViolated
  else Ok (id, set_cartridge_rows <[id := r]> g).
Definition insert_mount (v : Z) (m : MountRow) (g : Registry) : result SqlRefused Registry :=
  if bool_decide (is_Some (mount_rows g !! v)) then Err UniqueViolated
  else if bool_decide (is_Some (volume_table g !! v)) && bool_decide (is_Some (cartridge_rows g !! mounted_on m))
  then Ok (set_mount_rows <[v := m]> g) else Err NoSuchRow.

(** ** A contact with a tape: src/tape/contact.rs *)

(** [ContactGuard::open], with the chip read before it: the row it inserts,
    which may fail, names the cartridge the serial does. *)
Definition cartridge_for_serial (s : string) (g : Registry) : option Z := fst <$> select_by_serial s g.
Definition open_contact (inserts : bool) (op : Operation) (m : MamInfo) (g : Registry) : option Z * Registry :=
  if inserts then
    let id := next_id (contacts g) in
    (Some id, set_contacts <[id := mkContact (s ← mam_serial m; cartridge_for_serial s g) op None]> g)
  else (None, g).
Definition record_cartridge (contact : option Z) (c : Z) (g : Registry) : Registry :=
  match contact with
  | Some id => set_contacts (alter (λ r, mkContact (Some c) (contact_operation r) (contact_outcome r)) id) g
  | None => g
  end.
(** [finish_result]; a catalog busy too long leaves the contact open. *)
Definition finish_contact (updates : bool) (contact : option Z) (o : Outcome) (g : Registry) : Registry :=
  match contact with
  | Some id =>
      if updates then set_contacts (alter (λ r, mkContact (contact_cartridge r) (contact_operation r) (Some o)) id) g else g
  | None => g
  end.
(** [mam_journal::record]: best effort. A failed read's output is not parsed. *)
Definition journal_mam (inserts : bool) (contact : option Z) (h : Hook) (c : MamCapture) (g : Registry) : Registry :=
  if inserts then add_journal (mkJournal contact h (capture_ok c) (if capture_ok c then captured_life_written c else None)) g else g.
