(* ===== verification/Binding.v ===== *)
(** * Binding a volume to its cartridge: src/volume/{binding,write}.rs

    A cartridge is known by the serial its chip reports; a barcode is a label.
    Which row a medium is, what a [volume init] may bind it to and what it
    displaces, what any later contact with it corroborates, and [volume init]
    from a contact opened to File 0: the refusals that come before the tape is
    opened, the tape's own consent, and the one transaction that makes the
    volume and binds it. *)

From S2P Require Import Prelude SizeText LayoutModel Format Session Ledger Coverage TapeStore Confirm Contact Registry.
Local Open Scope Z_scope.
Local Open Scope rust_scope.

Inductive BindingError : Type :=
| NotRegistered (requested : string)
| NamesTwoCartridges (arg : string)
| AnotherChip (b recorded loaded : string)
| ClaimContradicted (b claimed loaded : string)
| AmbiguousClaim (barcodes : list string)
| CartridgeUnnamed
| CartridgeRetired (b : string)
| UnwitnessedDisplacement (live : list Z)
| SerialIsABarcode (s : string)
| BoundElsewhere (existing new : string)
| EmptyBarcode
| BarcodeDisagrees (wears flag : string)
| BarcodeTaken (b : string) (by_chip : option string)
| MediaDisagree (detected declared : Generation)
| RowDisagrees (b : string) (registered resolved : Generation)
| WrongLabel (found : string)
| WrongUuid (found : string)
| WrongCartridge (recorded loaded : string)
| WrongFile0Chip (file0_chip other : string)
| WrongRequest (requested : string)
| AnotherRowHolds (other : string)
| Sql (e : SqlRefused).

(** ** Which row: [lookup_cartridge] *)

(** [queries::find_cartridge]: a barcode or a chip serial. *)
Definition find_cartridge (arg : string) (g : Registry) : result BindingError (option (Z * CartridgeRow)) :=
  let arg := trim arg in
  match select_by_barcode arg g, select_by_serial arg g with
  | Some b, Some s => if bool_decide (b.1 = s.1) then Ok (Some b) else Err (NamesTwoCartridges arg)
  | Some b, None => Ok (Some b)
  | None, s => Ok s
  end.

(** The row, and a [--cartridge] the chip overtook. *)
Record CartridgeLookup : Type := mkLookup { looked_up : option (Z * CartridgeRow); superseded_request : option string }.

Definition lookup_requested (serial : option string) (requested : string) (g : Registry) : result BindingError CartridgeLookup :=
  found ← find_cartridge requested g;
  row ← ok_or found (NotRegistered requested);
  let r := row.2 in
  match serial_number r, serial with
  | Some recorded, Some loaded => guard_err (negb (bool_decide (recorded = loaded))) (AnotherChip (barcode r) recorded loaded)
  | None, Some loaded =>
      match operator_serial r with
      | Some claimed => guard_err (negb (bool_decide (claimed = loaded))) (ClaimContradicted (barcode r) claimed loaded)
      | None => Ok ()
      end
  | _, None => Ok ()
  end;;
  Ok (mkLookup (Some row) None).
Definition lookup_claimed (serial : option string) (g : Registry) : result BindingError CartridgeLookup :=
  match serial with
  | Some s =>
      match select_by_operator_serial s g with
      | [] => Ok (mkLookup None None)
      | [row] => Ok (mkLookup (Some row) None)
      | rows => Err (AmbiguousClaim ((λ x : Z * CartridgeRow, barcode x.2) <$> rows))
      end
  | None => Ok (mkLookup None None)
  end.
Definition lookup_cartridge (serial requested : option string) (g : Registry) : result BindingError CartridgeLookup :=
  match serial ≫= λ s, select_by_serial s g with
  | Some row =>
      Ok (mkLookup (Some row)
            (b ← trim <$> requested;
             if bool_decide (b = barcode row.2) || bool_decide (Some b = serial_number row.2) then None else Some b))
  | None =>
      match requested with
      | Some b => lookup_requested serial (trim b) g
      | None => lookup_claimed serial g
      end
  end.

(** ** The refusals of an init that ask no consent *)

Definition require_named_cartridge (serial : option string) (row : option (Z * CartridgeRow)) : result BindingError () :=
  match serial, row with None, None => Err CartridgeUnnamed | _, _ => Ok () end.
Definition refuse_retired (r : CartridgeRow) : result BindingError () :=
  guard_err (bool_decide (cartridge_state r = RetiredPermanent)) (CartridgeRetired (barcode r)).
(** With no match of serials, a live volume on the row named is undecidable. *)
Definition live_on (c : Z) (g : Registry) : list Z :=
  (filter (λ x : Z * VolumeRow, in_service x.2 = true) (open_mounts c g)).*1.
Definition refuse_unwitnessed_displacement (serial : option string) (row : option (Z * CartridgeRow)) (g : Registry)
    : result BindingError () :=
  match row with
  | None => Ok ()
  | Some (c, r) =>
      if bool_decide (is_Some serial) && bool_decide (is_Some (serial_number r)) then Ok ()
      else let live := live_on c g in guard_err (negb (bool_decide (live = []))) (UnwitnessedDisplacement live)
  end.
(** What the catalog says is recorded on the medium in the drive. *)
Definition live_volumes_on_serial (serial : option string) (g : Registry) : list string :=
  match serial with
  | Some s =>
      match select_by_serial s g with
      | Some (c, _) => label_at g <$> live_on c g
      | None => []
      end
  | None => []
  end.

(** [media_detect::resolve_media]: what was detected, else declared, else the
    row's, else the drive's own; a declaration or a row may not contradict it. *)
Definition resolve_media (d : Detected) (declared : option Generation) (row : option (Generation * string)) (drive_gen : Generation)
    : result BindingError Generation :=
  match detected_generation d, declared with
  | Some detected, Some g => guard_err (negb (bool_decide (g = detected))) (MediaDisagree detected g)
  | _, _ => Ok ()
  end;;
  let generation :=
    match detected_generation d with
    | Some g => g
    | None => match declared with Some g => g | None => match row with Some (g, _) => g | None => drive_gen end end
    end in
  match row with
  | Some (registered, b) => guard_err (negb (bool_decide (registered = generation))) (RowDisagrees b registered generation)
  | None => Ok ()
  end;;
  Ok generation.

(** ** The barcode a cartridge starts with *)

Definition wears_placeholder (r : CartridgeRow) : bool := bool_decide (serial_number r = Some (barcode r)).
Record FirstBarcode : Type := mkFirstBarcode { first_barcode : string; from_flag : bool }.
Definition plan_first_barcode (volume_label : string) (barcode_flag : option string) (serial : option string)
    (row : option (Z * CartridgeRow)) (g : Registry) : result BindingError (option FirstBarcode) :=
  let flag := trim <$> barcode_flag in
  guard_err (bool_decide (flag = Some EmptyString)) EmptyBarcode;;
  let keeps (r : CartridgeRow) :=
    match flag with
    | Some b => guard_err (negb (bool_decide (b = barcode r))) (BarcodeDisagrees (barcode r) b);; Ok None
    | None => Ok None
    end in
  let takes :=
    let first := mkFirstBarcode (default volume_label flag) (bool_decide (is_Some flag)) in
    if match row with Some (_, r) => bool_decide (barcode r = first_barcode first) | None => false end then Ok None
    else
      match select_by_barcode (first_barcode first) g with
      | Some (_, other) => Err (BarcodeTaken (first_barcode first) (serial_number other))
      | None => Ok (Some first)
      end in
  match serial, row with
  | None, Some (_, r) => keeps r
  | None, None => Ok None
  | Some _, Some (_, r) => if wears_placeholder r then takes else keeps r
  | Some _, None => takes
  end.
Definition give_first_barcode (c : Z) (old : string) (first : FirstBarcode) (g : Registry) : result BindingError Registry :=
  g ← map_err Sql (update_barcode c (first_barcode first) g);
  Ok (log_event (mkEvent OnCartridge c "renamed" (Some "barcode"%string) (Some old) (Some (first_barcode first))
        (Some (Prose (if from_flag first then "volume init --barcode" else "volume init: the volume's label"))%string)) g).

(** ** Establishing a binding *)

(** The one writer of a chip serial onto a row; its callers hold that the row
    has none. *)
Definition record_medium_serial (c : Z) (b s : string) (g : Registry) : result BindingError Registry :=
  r ← ok_or (cartridge_rows g !! c) (Sql NoSuchRow);
  match operator_serial r with
  | Some claimed => guard_err (negb (bool_decide (claimed = s))) (ClaimContradicted b claimed s)
  | None => Ok ()
  end;;
  g ← map_err Sql (update_serial c s g);
  Ok (log_field_change OnCartridge c "updated" "serial_number" None s g).
Definition register_from_chip (s : string) (generation : Generation) (m : MamInfo) (st : CartridgeState) (g : Registry)
    : result BindingError (Z * Registry) :=
  guard_err (bool_decide (is_Some (select_by_barcode s g))) (SerialIsABarcode s);;
  '(id, g) ← map_err Sql (insert_cartridge
      (mkCartridgeRow s (generation_text generation) (mam_manufacturer m) (Some s) (mam_length_meters m)
         (native_capacity_bytes generation) st (mam_load_count m) None None) g);
  Ok (id, log_created OnCartridge id g).

Record ResolvedCartridge : Type := mkResolved {
  resolved_id : Z;
  resolved_barcode : string;
  prior_state : CartridgeState;
  auto_registered : bool;
  serial_recorded : bool;
}.
Definition resolve_or_register (row : option (Z * CartridgeRow)) (serial : option string) (generation : Generation) (m : MamInfo)
    (g : Registry) : result BindingError (option ResolvedCartridge * Registry) :=
  match row, serial with
  | Some (c, r), _ =>
      '(recorded, g) ←
        match serial_number r, serial with
        | None, Some s => g ← record_medium_serial c (barcode r) s g; Ok (true, g)
        | _, _ => Ok (false, g)
        end;
      Ok (Some (mkResolved c (barcode r) (cartridge_state r) false recorded), g)
  | None, Some s =>
      '(id, g) ← register_from_chip s generation m InUse g;
      Ok (Some (mkResolved id s InUse true false), g)
  | None, None => Ok (None, g)
  end.

(** [refuse_rebind]: a volume's open mount is on one cartridge for good. *)
Definition refuse_rebind (v c : Z) (g : Registry) : result BindingError () :=
  match open_mount v g with
  | Some (existing, (_, r)) =>
      if bool_decide (existing = c) then Ok ()
      else
        r' ← ok_or (cartridge_rows g !! c) (Sql NoSuchRow);
        _ ← ok_or (labels g !! v) (Sql NoSuchRow);
        Err (BoundElsewhere (barcode r) (barcode r'))
  | None => Ok ()
  end.

(** A displaced volume, and the event on its cartridge. *)
Definition displace (c : Z) (g : Registry) (x : Z * VolumeRow) : Registry :=
  let g := update_volume x.1 (with_volume_status VErased) g in
  let g := log_field_change OnVolume x.1 "erased" "status" (Some (status_text (volume_status x.2))) (status_text VErased) g in
  log_event (mkEvent OnCartridge c "displaced" None (Some (label_at g x.1)) None (Some (Prose "its bytes are gone"))) g.
Definition displaced_by (v c : Z) (g : Registry) : list (Z * VolumeRow) :=
  filter (λ x : Z * VolumeRow, x.1 ≠ v) (open_mounts c g).
(** The cartridge cleared of every other volume. *)
Definition make_room (v c : Z) (g : Registry) : Registry := close_mounts c (Some v) (fold_left (displace c) (displaced_by v c g) g).
(** The volume's own mount, there already or made. *)
Definition mount_volume (v c : Z) (serial : option string) (g : Registry) : result BindingError Registry :=
  if bool_decide (is_Some (m ← mount_rows g !! v; if still_mounted m then Some () else None)) then Ok g
  else map_err Sql (insert_mount v (mkMountRow c true (Some (if bool_decide (is_Some serial) then FromChip else FromOperator))) g).
(** The cartridge's place, when the volume has none. *)
Definition inherit_place (v c : Z) (g : Registry) : Registry :=
  match (r ← cartridge_rows g !! c; cartridge_location r), volume_place g v with
  | Some place, None => set_volume_place v place (log_move v place g)
  | _, _ => g
  end.
Definition into_use (c : Z) (prior : CartridgeState) (m : MamInfo) (g : Registry) : Registry :=
  if bool_decide (prior = InUse) then set_cartridge_rows (alter (with_load_count (mam_load_count m)) c) g
  else
    log_field_change OnCartridge c "updated" "status" (Some (state_text prior)) (state_text InUse)
      (set_cartridge_rows (alter (λ r, with_state InUse (with_load_count (mam_load_count m) r)) c) g).

(** [mount_and_record]; the volumes it displaces, and the catalog after. *)
Definition mount_and_record (v c : Z) (prior : CartridgeState) (serial : option string) (m : MamInfo) (update_status : bool)
    (g : Registry) : result BindingError (list Z * Registry) :=
  let displaced := displaced_by v c g in
  let g := make_room v c g in
  refuse_rebind v c g;;
  g ← mount_volume v c serial g;
  let g := inherit_place v c g in
  Ok (displaced.*1, if update_status then into_use c prior m g else g).

Record BindOutcome : Type := mkBound { bound_cartridge : option ResolvedCartridge; displaced_volumes : list Z }.
Definition bind_cartridge (v : Z) (row : option (Z * CartridgeRow)) (serial : option string) (generation : Generation) (m : MamInfo)
    (g : Registry) : result BindingError (BindOutcome * Registry) :=
  '(resolved, g) ← resolve_or_register row serial generation m g;
  match resolved with
  | None => Ok (mkBound None [], g)
  | Some c =>
      '(displaced, g) ← mount_and_record v (resolved_id c) (prior_state c) serial m true g;
      Ok (mkBound (Some c) displaced, g)
  end.

(** ** Corroborating one: every later contact *)

Record BoundCartridge : Type := mkBoundCartridge {
  bc_id : Z;
  bc_barcode : string;
  bc_serial : option string;
  bc_source : option IdentitySource;
  bc_claim : option string;
}.
Record CatalogClaim : Type := mkClaim { claim_label : string; claim_uuid : option string; claim_bound : option BoundCartridge }.
Definition claim_for_volume (v : Z) (volume_label : string) (g : Registry) : CatalogClaim :=
  mkClaim volume_label (uuids g !! v)
    ((λ x : Z * (MountRow * CartridgeRow),
       mkBoundCartridge x.1 (barcode x.2.2) (serial_number x.2.2) (identity_source x.2.1) (operator_serial x.2.2)) <$> open_mount v g).

(** What File 0 says of itself; every field may be absent. *)
Record File0Facts : Type := mkFile0Facts {
  file0_label : option string;
  file0_uuid : option string;
  file0_media : option IdThunkMedia;
  file0_unreadable : option FormatError;
}.
Definition file0_facts_from_text `{!TomlCrate} (text : string) : File0Facts :=
  let identity := match parse_id_thunk_identity text with Ok i => Some i | Err _ => None end in
  mkFile0Facts (id_label <$> identity) (id_uuid <$> identity)
    match parse_id_thunk_media text with Ok m => Some m | Err _ => None end
    match check_id_thunk_readable text with Ok _ => None | Err e => Some e end.
(** Its cartridge's serial, only where it says a chip reported it. *)
Definition file0_chip (f : File0Facts) : option string :=
  m ← file0_media f;
  if bool_decide (md_cartridge_identity_source m = Some "mam"%string) then Some (md_cartridge_serial m) else None.
Record MediumFacts : Type := mkMediumFacts { medium_serial : option string; medium_file0 : File0Facts }.

Inductive Corroboration : Type := Agreed | SerialLearned (b s : string).

(** Two known facts that differ, both of them text. *)
Definition differ (a b : option string) : option (string * string) :=
  match a, b with Some x, Some y => if bool_decide (x = y) then None else Some (x, y) | _, _ => None end.
Definition refuse_differing (a b : option string) (e : string → string → BindingError) : result BindingError () :=
  match differ a b with Some (x, y) => Err (e x y) | None => Ok () end.
Definition known (s : option string) : option string :=
  s ← s; if bool_decide (s = EmptyString) then None else Some s.

(** The bound row has no serial: whether it learns [loaded]. *)
Definition learn_serial (writes : bool) (b : BoundCartridge) (loaded : string) (g : Registry)
    : result BindingError (Corroboration * Registry) :=
  if bool_decide (is_Some (bc_serial b)) then Ok (Agreed, g)
  else
    match bc_source b with
    | Some FromChip => Ok (Agreed, g)
    | _ =>
        match head (cartridges_where (λ r, bool_decide (serial_number r = Some loaded)) (set_cartridge_rows (delete (bc_id b)) g)) with
        | Some (_, other) => Err (AnotherRowHolds (barcode other))
        | None =>
            refuse_differing (bc_claim b) (Some loaded) (ClaimContradicted (bc_barcode b));;
            match (if writes then record_medium_serial (bc_id b) (bc_barcode b) loaded g else Err (Sql NoSuchRow)) with
            | Ok g' => Ok (SerialLearned (bc_barcode b) loaded, g')
            | Err _ => Ok (Agreed, g)
            end
        end
    end.
(** [corroborate_contact]. [writes]: whether the catalog can be written. *)
Definition corroborate_contact (writes : bool) (claim : option CatalogClaim) (medium : MediumFacts) (requested : option string) (g : Registry)
    : result BindingError (Corroboration * Registry) :=
  match claim with
  | None => Ok (Agreed, g)
  | Some claim =>
      let file0 := medium_file0 medium in
      refuse_differing (file0_label file0) (Some (claim_label claim)) (λ found _, WrongLabel found);;
      refuse_differing (known (file0_uuid file0)) (known (claim_uuid claim)) (λ found _, WrongUuid found);;
      match claim_bound claim with
      | None => Ok (Agreed, g)
      | Some b =>
          refuse_differing (bc_serial b) (medium_serial medium) WrongCartridge;;
          refuse_differing (file0_chip file0) (medium_serial medium) WrongFile0Chip;;
          refuse_differing (file0_chip file0) (bc_serial b) WrongFile0Chip;;
          match medium_serial medium with
          | None =>
              refuse_differing requested (Some (bc_barcode b)) (λ r _, WrongRequest r);;
              Ok (Agreed, g)
          | Some loaded => learn_serial writes b loaded g
          end
      end
  end.
Definition corroborate_volume (writes : bool) (v : Z) (volume_label : string) (medium : MediumFacts) (g : Registry)
    : result BindingError (Corroboration * Registry) :=
  corroborate_contact writes (Some (claim_for_volume v volume_label g)) medium None g.

(** ** Blank by other evidence: [BlankProof] *)

(** The chip's lifetime total is zero, in a reading that names it. *)
Definition chip_blank_proof (m : MamInfo) : option BlankProof :=
  match mam_serial m, life_written_mib_raw m with
  | Some _, Some n => if bool_decide (n = 0) then Some ChipProof else None
  | _, _ => None
  end.
Definition operation_may_write_the_medium (op : Operation) : bool :=
  match op with
  | VolumeInit | VolumeWrite | VolumeResume => true
  | VolumeVerify | VolumeIdentify | VolumeReadSlices | VolumeCompactRead | VolumeCompact | VolumeRewrite
  | RestoreUnit | RestoreVolume | RestoreRawVolume | CatalogRebuild | DrivePoll | CartridgeErase | DriveEject => false
  end.

(** The newest event of an erase of the cartridge, and its details. *)
Definition is_erase_of (c : Z) (e : EventRow) : bool :=
  bool_decide (entity e = OnCartridge) && bool_decide (entity_id e = c) && bool_decide (action e = "erased"%string).
Definition newest_erase (c : Z) (g : Registry) : option (option Details) :=
  details <$> last (filter (λ e, is_erase_of c e = true) (events g)).
Definition wrote_since (c erase_contact : Z) (this_contact : option Z) (g : Registry) : bool :=
  existsb (λ x : Z * ContactRow,
    bool_decide (contact_cartridge x.2 = Some c) && bool_decide (erase_contact < x.1)
      && operation_may_write_the_medium (contact_operation x.2)
      && negb (bool_decide (contact_outcome x.2 = Some OutcomeFailed))
      && negb (bool_decide (this_contact = Some x.1))) (map_to_list (contacts g)).
Definition life_written_at_erase_verify (erase_contact : Z) (g : Registry) : option Z :=
  r ← last (filter (λ r, journal_contact r = Some erase_contact ∧ journal_hook r = HookEraseVerify ∧ journal_ok r = true) (mam_journal g));
  journal_life_written r.
Definition same_life (then_ now : option Z) : bool :=
  match then_, now with
  | None, None => true
  | Some a, Some b => bool_decide (a = b)
  | _, _ => false
  end.
(** [verified_erase_blank_proof]. *)
Definition verified_erase_blank_proof (m : MamInfo) (this_contact : option Z) (g : Registry) : option BlankProof :=
  serial ← mam_serial m;
  '(c, _) ← select_by_serial serial g;
  match newest_erase c g with
  | Some (Some (OfErase (Some erase_contact) EraseShort)) =>
      row ← contacts g !! erase_contact;
      if bool_decide (contact_operation row = CartridgeErase) && bool_decide (contact_outcome row = Some OutcomeOk)
         && bool_decide (contact_cartridge row = Some c)
      then
        if wrote_since c erase_contact this_contact g then None
        else if same_life (life_written_at_erase_verify erase_contact g) (life_written_mib_raw m) then Some VerifiedErase else None
      else None
  | _ => None
  end.

(** ** [volume init]: what is asked, and what the drive is *)

Record InitRequest : Type := mkInit {
  init_label : string;
  init_force : bool;
  declared_media : option string;
  cartridge_flag : option string;
  barcode_flag : option string;
}.
Record Backend : Type := mkBackend { drive_generation : Generation; capacity_override : option string }.

Section init.
Context `{!TomlCrate, !Readable, !Blankable}.

Inductive InitError : Type :=
| BadGeneration
| BadCapacity
| DriveCannotWrite (g : Generation)
| InitBinding (e : BindingError)
| InitContact (e : WriteRefusal)
| InitSql (e : SqlRefused)
| VolumeLockBusy
| ThunkNotWritten (volume_id : Z).

(** The medium's facts, before the tape is opened. *)
Record InitFacts : Type := mkInitFacts {
  init_lookup : CartridgeLookup;
  init_first : option FirstBarcode;
  init_generation : Generation;
  init_capacity : Z;
}.
(** A row of no generation known is passed over. *)
Definition row_generation (row : option (Z * CartridgeRow)) : option (Generation * string) :=
  '(_, r) ← row; (λ g, (g, barcode r)) <$> parse_generation (media_type r).
Definition init_facts (req : InitRequest) (backend : Backend) (d : Detected) (g : Registry) : result InitError InitFacts :=
  declared ← match declared_media req with
             | Some m => Some <$> ok_or (parse_generation m) BadGeneration
             | None => Ok None
             end;
  let serial := mam_serial (mam d) in
  lookup ← map_err InitBinding (lookup_cartridge serial (cartridge_flag req) g);
  let row := looked_up lookup in
  map_err InitBinding (require_named_cartridge serial row);;
  map_err InitBinding (refuse_unwitnessed_displacement serial row g);;
  map_err InitBinding match row with Some (_, r) => refuse_retired r | None => Ok () end;;
  first ← map_err InitBinding (plan_first_barcode (init_label req) (barcode_flag req) serial row g);
  generation ← map_err InitBinding (resolve_media d declared (row_generation row) (drive_generation backend));
  guard_err (negb (can_write (drive_generation backend) generation)) (DriveCannotWrite generation);;
  override ← match capacity_override backend with
             | Some s => Some <$> ok_or (parse_capacity_to_bytes s) BadCapacity
             | None => Ok None
             end;
  Ok (mkInitFacts lookup first generation (resolve_capacity override ((λ x : Z * CartridgeRow, nominal_capacity x.2) <$> row) generation).1).

(** ** The transaction *)

(** [INSERT INTO volumes]. *)
Definition insert_volume (volume_label uuid : string) (g : Registry) : result SqlRefused (Z * Registry) :=
  let id := next_id (volume_table g) in
  if existsb (λ x : Z * string, bool_decide (x.2 = volume_label)) (map_to_list (labels g))
     || existsb (λ x : Z * string, bool_decide (x.2 = uuid)) (map_to_list (uuids g))
  then Err UniqueViolated
  else
    let c := ledger_of (shelves g) in
    let sh := with_ledger (mkLedger (writes c) (write_positions c) (stage_slices c) (snapshots c)
                             (<[id := mkVolumeRow VInitialized CondOk None None]> (volumes c)) (aborts c) (verifications c) (results c)) (shelves g) in
    Ok (id, mkRegistry sh (<[id := volume_label]> (labels g)) (<[id := uuid]> (uuids g)) (cartridge_rows g) (mount_rows g)
              (moves g) (events g) (contacts g) (mam_journal g)).
(** The first barcode, if the cartridge bound does not wear it already. *)
Definition first_barcode_given (first : option FirstBarcode) (bound : option ResolvedCartridge) (g : Registry) : result BindingError Registry :=
  match first, bound with
  | Some f, Some c => if bool_decide (resolved_barcode c = first_barcode f) then Ok g else give_first_barcode (resolved_id c) (resolved_barcode c) f g
  | _, _ => Ok g
  end.
(** All of it or none; the details of the created event are left out. *)
Definition init_transaction (req : InitRequest) (uuid : string) (d : Detected) (facts : InitFacts) (lock_free : bool) (g : Registry)
    : result InitError (Z * BindOutcome * Registry) :=
  '(v, g) ← map_err InitSql (insert_volume (init_label req) uuid g);
  guard_err (negb lock_free) VolumeLockBusy;;
  '(bound, g) ← map_err InitBinding
    (bind_cartridge v (looked_up (init_lookup facts)) (mam_serial (mam d)) (init_generation facts) (mam d) g);
  g ← map_err InitBinding (first_barcode_given (init_first facts) (bound_cartridge bound) g);
  Ok (v, bound, log_created OnVolume v g).

(** [volume_init_in_contact], from a contact opened: what others do to the
    catalog while the tape is read is [meanwhile]; [writes_thunk], whether
    File 0 gets onto the tape, after the commit. The medium given back is as
    the check left it, File 0 not yet on it. *)
Definition volume_init_in_contact (req : InitRequest) (backend : Backend) (d : Detected) (contact : option Z) (uuid : string)
    (lock_free writes_thunk : bool) (meanwhile : Registry → Registry) (g : Registry) (m : medium)
    : result InitError (Z * BindOutcome) * Registry * medium :=
  let serial := mam_serial (mam d) in
  match init_facts req backend d g with
  | Err e => (Err e, g, m)
  | Ok facts =>
      let '(consent, m) :=
        fresh_write_contact (chip_blank_proof (mam d)) (verified_erase_blank_proof (mam d) contact g) (init_label req) uuid None
          (init_force req) (live_volumes_on_serial serial g) m in
      let g := meanwhile g in
      match consent with
      | Err e => (Err (InitContact e), g, m)
      | Ok _ =>
          match init_transaction req uuid d facts lock_free g with
          | Err e => (Err e, g, m)
          | Ok (v, bound, g) =>
              let g := match serial, bound_cartridge bound with
                       | Some _, Some c => record_cartridge contact (resolved_id c) g
                       | _, _ => g
                       end in
              ((if writes_thunk then Ok (v, bound) else Err (ThunkNotWritten v)), g, m)
          end
      end
  end.
End init.
