(* ===== verification/CartridgeLife.v ===== *)
(** * The life of a cartridge: src/cli/operations.rs

    Retired with the volumes on it, freed with the last of them, marked
    erased, and taken back from retirement: the gates each passes, and the
    one transaction each makes. *)

From S2P Require Import Prelude LayoutModel Session Ledger Coverage Release TapeStore Registry.
Local Open Scope Z_scope.
Local Open Scope rust_scope.

(** ** Erased: [record_cartridge_erased] *)

Definition erase_volumes (vs : list Z) (g : Registry) : Registry :=
  fold_left (λ g v, update_volume v (with_volume_status VErased) g) vs g.
Definition record_cartridge_erased (c : Z) (prior : CartridgeState) (vs : list Z) (new : CartridgeState) (d : option Details)
    (g : Registry) : Registry :=
  let g := set_cartridge_rows (alter (with_state new) c) g in
  let g := close_mounts c None g in
  let g := erase_volumes vs g in
  log_event (mkEvent OnCartridge c "erased" (Some "status"%string) (Some (state_text prior)) (Some (state_text new)) d) g.

(** ** Freed: [free_cartridge_if_last_live] *)

Definition other_live (c v : Z) (g : Registry) : list (Z * VolumeRow) :=
  filter (λ x : Z * VolumeRow, x.1 ≠ v ∧ in_service x.2 = true) (open_mounts c g).
Definition free_cartridge_if_last_live (v : Z) (g : Registry) : option string * Registry :=
  match open_mount v g with
  | Some (c, (_, r)) =>
      if bool_decide (cartridge_state r = InUse) && bool_decide (length (other_live c v g) = 0%nat) then
        (Some (barcode r),
         log_field_change OnCartridge c "updated" "status" (Some (state_text InUse)) (state_text PendingErase)
           (set_cartridge_rows (alter (with_state PendingErase) c) g))
      else (None, g)
  | None => (None, g)
  end.

(** ** Retired, marked erased, taken back *)

Inductive LifeError (E : Type) : Type :=
| CartridgeNotFound
| VolumeBusy (v : Z)
| Floor (e : RetireError E)
| Condemned
| NotRetired (s : CartridgeState)
| StatusRefused (s : string).
Arguments CartridgeNotFound {E}. Arguments VolumeBusy {E} _. Arguments Floor {E} _. Arguments Condemned {E}.
Arguments NotRetired {E} _. Arguments StatusRefused {E} _.

(** One impact a unit, the worst reading of it. *)
Fixpoint merge_impact (l : list RetireImpact) (i : RetireImpact) : list RetireImpact :=
  match l with
  | [] => [i]
  | m :: l =>
      if bool_decide (im_name m = im_name i) then (if bool_decide (other_copies i < other_copies m) then i else m) :: l
      else m :: merge_impact l i
  end.
Definition by_impact (a b : RetireImpact) : Prop := by_name (im_name a) (im_name b).
#[export] Instance by_impact_dec : RelDecision by_impact.
Proof. intros a b. unfold by_impact. apply _. Defined.
Definition merged_impacts (vs : list Z) (sh : Shelves) : list RetireImpact :=
  merge_sort by_impact (fold_left merge_impact (vs ≫= retire_impacts sh) []).

(** The locks of the volumes mounted. *)
Fixpoint lock_all {E} (lock_free : Z → bool) (vs : list Z) : result (LifeError E) () :=
  match vs with
  | [] => Ok ()
  | v :: vs => guard_err (negb (lock_free v)) (VolumeBusy v);; lock_all lock_free vs
  end.
(** Tier 3, volume by volume. *)
Fixpoint floors {E} (sh : Shelves) (vs : list Z) : result (RetireError E) () :=
  match vs with
  | [] => Ok ()
  | v :: vs => refuse_last_eligible_copy (retire_impacts sh v);; floors sh vs
  end.

Section life.
Context {E : Type}.
Variables (config : Config) (resolve : Z → result E ResolvedPolicy) (lock_free : Z → bool).
(** What others write while the operator is asked. *)
Variable meanwhile : Registry → Registry.

Definition mounted_on_it (c : Z) (g : Registry) : list Z := (open_mounts c g).*1.

(** Every gate before the transaction of [cartridge_retire]. *)
Definition retire_cartridge_gate (consent : bool) (vs : list Z) (g : Registry) : result (LifeError E) () :=
  lock_all lock_free vs;;
  map_err Floor (floors (shelves g) vs);;
  _ ← map_err Floor (map_err PolicyUnresolvable (below_policy_facts (shelves g) config resolve (merged_impacts vs (shelves g))));
  guard_err (negb consent) (Floor ConsentRefused).
Definition retire_volume_with (b : string) (g : Registry) (x : Z * VolumeRow) : Registry :=
  log_event (mkEvent OnVolume x.1 "retired" (Some "status"%string) (Some (status_text (volume_status x.2))) (Some (status_text VRetired))
               (Some (Prose "its cartridge was retired permanently")))
    (update_volume x.1 (with_volume_status VRetired) g).
Definition cartridge_retire (consent : bool) (b : string) (reason : option string) (g : Registry) : result (LifeError E) Registry :=
  '(c, r) ← ok_or (select_by_barcode b g) CartridgeNotFound;
  if bool_decide (cartridge_state r = RetiredPermanent) then Ok g
  else
    let mounted := open_mounts c g in
    retire_cartridge_gate consent mounted.*1 g;;
    let g := meanwhile g in
    let g := set_cartridge_rows (alter (with_state RetiredPermanent) c) g in
    let g := log_event (mkEvent OnCartridge c "retired" (Some "status"%string) (Some (state_text (cartridge_state r)))
               (Some (state_text RetiredPermanent)) (Prose <$> reason)) g in
    Ok (fold_left (retire_volume_with b) mounted g).

(** [cartridge_mark_erased]: no consent brings a condemned medium back, and
    none is asked of a cartridge that waits for its erase. *)
Definition mark_erased_gate (consent : bool) (st : CartridgeState) (vs : list Z) (g : Registry) : result (LifeError E) () :=
  lock_all lock_free vs;;
  map_err Floor (floors (shelves g) vs);;
  guard_err (negb (bool_decide (st = PendingErase)) && negb consent) (Floor ConsentRefused).
Definition cartridge_mark_erased (consent : bool) (b : string) (g : Registry) : result (LifeError E) Registry :=
  '(c, r) ← ok_or (select_by_barcode b g) CartridgeNotFound;
  guard_err (bool_decide (cartridge_state r = RetiredPermanent)) Condemned;;
  let vs := mounted_on_it c g in
  mark_erased_gate consent (cartridge_state r) vs g;;
  Ok (record_cartridge_erased c (cartridge_state r) vs Available None (meanwhile g)).

(** The volume's retirement and its cartridge's freeing, one transaction. *)
Definition volume_retired (consent : bool) (v : Z) (g : Registry) : result (RetireError E) (option string * Registry) :=
  row ← ok_or (volume_table g !! v) VolumeNotFound;
  retire_gate (shelves g) config resolve consent v;;
  Ok (free_cartridge_if_last_live v
        (log_field_change OnVolume v "retired" "status" (Some (status_text (volume_status row))) (status_text VRetired)
           (update_volume v (with_volume_status VRetired) (meanwhile g)))).

(** ** Back from retirement: [cartridge_unretire] *)

(** The text the newest matching event carries as the value before it. *)
Definition last_old_value (p : EventRow → bool) (g : Registry) : option string :=
  e ← last (filter (λ e, p e = true) (events g)); old_value e.
Definition is_retirement (k : Entity) (id : Z) (e : EventRow) : bool :=
  bool_decide (entity e = k) && bool_decide (entity_id e = id) && bool_decide (action e = "retired"%string)
    && bool_decide (event_field e = Some "status"%string).
(** [LEGAL_VOLUME_STATUSES]. *)
Definition legal_status (s : string) : option VolumeStatus :=
  head (filter (λ st, status_text st = s) [VInitialized; VActive; VRetired; VErased; VSealed]).
Definition legal_state (s : string) : option CartridgeState :=
  head (filter (λ st, state_text st = s) [Available; InUse; PendingErase; RetiredPermanent]).
Definition into_quarantine (v : Z) (e : EventRow) : bool :=
  bool_decide (entity e = OnVolume) && bool_decide (entity_id e = v) && bool_decide (event_field e = Some "status"%string)
    && bool_decide (new_value e = Some "quarantined"%string) && bool_decide (is_Some (old_value e ≫= legal_status)).
Record VolumeUnretirePlan : Type := mkUnretire { restore_status : option VolumeStatus; recovered_quarantine : bool }.
Definition plan_volume_unretire (v : Z) (g : Registry) : VolumeUnretirePlan :=
  match last_old_value (is_retirement OnVolume v) g with
  | Some s =>
      match legal_status s with
      | Some st => mkUnretire (Some st) false
      | None =>
          if bool_decide (s = "quarantined"%string)
          then mkUnretire (Some (default VInitialized (last_old_value (into_quarantine v) g ≫= legal_status))) true
          else mkUnretire None false
      end
  | None => mkUnretire None false
  end.
Definition condition_text (k : Condition) : string := match k with CondOk => "ok" | CondQuarantined => "quarantined" end.
Definition unretire_volume (g : Registry) (x : Z * (VolumeRow * VolumeUnretirePlan)) : Registry :=
  let '(v, (row, plan)) := x in
  let g :=
    match restore_status plan with
    | Some st => log_field_change OnVolume v "unretired" "status" (Some (status_text VRetired)) (status_text st)
                   (update_volume v (with_volume_status st) g)
    | None => g
    end in
  if recovered_quarantine plan
  then log_field_change OnVolume v "unretired" "observed_condition" (Some (condition_text (observed_condition row)))
         (condition_text CondQuarantined) (update_volume v (with_condition CondQuarantined) g)
  else g.
Definition restorable (c : Z) (g : Registry) : list (Z * (VolumeRow * VolumeUnretirePlan)) :=
  (λ x : Z * VolumeRow, (x.1, (x.2, plan_volume_unretire x.1 g))) <$>
    filter (λ x : Z * VolumeRow, volume_status x.2 = VRetired) (open_mounts c g).
Definition cartridge_unretire (b : string) (g : Registry) : result (LifeError E) Registry :=
  '(c, r) ← ok_or (select_by_barcode b g) CartridgeNotFound;
  guard_err (negb (bool_decide (cartridge_state r = RetiredPermanent))) (NotRetired (cartridge_state r));;
  let prior := default (state_text Available) (last_old_value (is_retirement OnCartridge c) g) in
  st ← ok_or (legal_state prior) (StatusRefused prior);
  let vs := restorable c g in
  let g := set_cartridge_rows (alter (with_state st) c) g in
  let g := log_field_change OnCartridge c "unretired" "status" (Some (state_text RetiredPermanent)) (state_text st) g in
  Ok (fold_left unretire_volume vs g).
End life.
