(* ===== verification/BindingSound.v ===== *)
(** * The registry keeps its word

    The chip's serial names one cartridge, a barcode one, a cartridge holds
    one volume at a time and a binding is for good: every operation keeps
    this, whatever the order. *)

From S2P Require Import Prelude SizeText LayoutModel Format Session Ledger LedgerSound LedgerPlan Coverage Release TapeStore Contact Registry Binding CartridgeLife.
Local Open Scope Z_scope.
Local Open Scope rust_scope.

(** ** What holds of a registry *)

Definition has_serial (g : Registry) (c : Z) (s : string) : Prop := ∃ r, cartridge_rows g !! c = Some r ∧ serial_number r = Some s.
Definition is_mounted (g : Registry) (v c : Z) : Prop := ∃ m, mount_rows g !! v = Some m ∧ mounted_on m = c ∧ still_mounted m = true.
Definition is_given_up (g : Registry) (v : Z) : Prop := ∃ r, volume_table g !! v = Some r ∧ given_up r = true.

Record registry_ok (g : Registry) : Prop := {
  serials_name_one : ∀ c c' s, has_serial g c s → has_serial g c' s → c = c';
  barcodes_name_one : ∀ c c' r r', cartridge_rows g !! c = Some r → cartridge_rows g !! c' = Some r' → barcode r = barcode r' → c = c';
  mounts_known : ∀ v m, mount_rows g !! v = Some m → is_Some (volume_table g !! v) ∧ is_Some (cartridge_rows g !! mounted_on m);
  one_volume_mounted : ∀ v v' c, is_mounted g v c → is_mounted g v' c → v = v';
  unmounted_given_up : ∀ v m, mount_rows g !! v = Some m → still_mounted m = false → is_given_up g v;
}.

(** What no operation takes back. *)
Record kept (g g' : Registry) : Prop := {
  kept_cartridges : ∀ c, is_Some (cartridge_rows g !! c) → is_Some (cartridge_rows g' !! c);
  kept_serials : ∀ c s, has_serial g c s → has_serial g' c s;
  kept_bindings : ∀ v m, mount_rows g !! v = Some m → ∃ m', mount_rows g' !! v = Some m' ∧ mounted_on m' = mounted_on m ∧
    identity_source m' = identity_source m ∧ (still_mounted m' = true → still_mounted m = true);
}.
#[export] Instance kept_preorder : PreOrder kept.
Proof.
  split.
  - intros g. split; eauto.
  - intros g g' g'' [Hc Hs Hm] [Hc' Hs' Hm']. split; eauto.
    intros v m (m' & Hv & Hon & Hid & Hst)%Hm. destruct (Hm' _ _ Hv) as (m'' & Hv' & Hon' & Hid' & Hst').
    exists m''. split; [done|]. split; [congruence|]. split; [congruence|auto].
Qed.

(** An operation keeps both. *)
Definition sound (g g' : Registry) : Prop := registry_ok g → registry_ok g' ∧ kept g g'.
Lemma sound_refl g : sound g g.
Proof. by split. Qed.
Lemma sound_trans g g' g'' : sound g g' → sound g' g'' → sound g g''.
Proof. intros H1 H2 Hok. destruct (H1 Hok) as [Hok' Hk]. destruct (H2 Hok') as [Hok'' Hk']. split; [done|by etransitivity]. Qed.
Lemma sound_fold {A} (f : Registry → A → Registry) (l : list A) g : (∀ g x, sound g (f g x)) → sound g (fold_left f l g).
Proof. intros Hf. revert g. induction l as [|x l IH]; intros g; [apply sound_refl|]. eapply sound_trans; [apply Hf|apply IH]. Qed.

(** What only logs, or writes the rows of a contact. *)
Definition same_rows (g g' : Registry) : Prop :=
  cartridge_rows g' = cartridge_rows g ∧ mount_rows g' = mount_rows g ∧ volume_table g' = volume_table g.
Lemma same_sound g g' : same_rows g g' → sound g g'.
Proof.
  intros (Hc & Hm & Hv) [H1 H2 H3 H4 H5]. unfold has_serial, is_mounted, is_given_up in *. split; split;
    unfold has_serial, is_mounted, is_given_up; rewrite ?Hc, ?Hm, ?Hv; eauto.
Qed.
Lemma log_sound e g : sound g (log_event e g).
Proof. by apply same_sound. Qed.

(** ** The statements *)

Lemma other_cartridge_false c p g : other_cartridge c p g = false →
  ∀ c' r, cartridge_rows g !! c' = Some r → p r = true → c' = c.
Proof.
  intros Ho c' r Hr Hp. destruct (decide (c' = c)) as [|Hne]; [done|]. exfalso. apply not_true_iff_false in Ho. apply Ho.
  apply existsb_exists. exists (c', r). split; [by apply list_elem_of_In, elem_of_map_to_list|]. cbn.
  by rewrite bool_decide_eq_false_2, Hp.
Qed.

(** A row changed in nothing that names it but its keys. *)
Lemma rows_sound f c g : (∀ r, cartridge_rows g !! c = Some r → ∀ s, serial_number r = Some s → serial_number (f r) = Some s) →
  (∀ r, cartridge_rows g !! c = Some r → barcode (f r) = barcode r ∨
     ∀ c' r', cartridge_rows g !! c' = Some r' → barcode r' = barcode (f r) → c' = c) →
  (∀ r s, cartridge_rows g !! c = Some r → serial_number (f r) = Some s → serial_number r = Some s ∨
     ∀ c', has_serial g c' s → c' = c) →
  sound g (set_cartridge_rows (alter f c) g).
Proof.
  intros Hkeep Hbar Hser [H1 H2 H3 H4 H5].
  assert (∀ c' r', alter f c (cartridge_rows g) !! c' = Some r' →
    (c' = c ∧ ∃ r, cartridge_rows g !! c = Some r ∧ r' = f r) ∨ (c' ≠ c ∧ cartridge_rows g !! c' = Some r')) as Hal.
  { intros c' r'. destruct (decide (c' = c)) as [->|Hne].
    - rewrite lookup_alter_eq. destruct (cartridge_rows g !! c) as [r|]; [|done]. intros [= <-]. left. eauto.
    - rewrite lookup_alter_ne by done. by right. }
  assert (∀ c', is_Some (alter f c (cartridge_rows g) !! c') ↔ is_Some (cartridge_rows g !! c')) as Hdom.
  { intros c'. destruct (decide (c' = c)) as [->|Hne]; [rewrite lookup_alter_eq; apply fmap_is_Some|by rewrite lookup_alter_ne]. }
  split; split; unfold has_serial, is_mounted, is_given_up in *; cbn in *.
  - intros c1 c2 s (r1 & Hr1 & Hs1) (r2 & Hr2 & Hs2).
    apply Hal in Hr1 as [(-> & r & Hr & ->)|[Hne1 Hr1]]; apply Hal in Hr2 as [(-> & r' & Hr' & ->)|[Hne2 Hr2]]; [done| | |].
    + destruct (Hser r s Hr Hs1) as [Hs|Hs]; [by apply (H1 c c2 s); eauto|]. symmetry. apply Hs. eauto.
    + destruct (Hser r' s Hr' Hs2) as [Hs|Hs]; [by apply (H1 c1 c s); eauto|]. apply Hs. eauto.
    + by apply (H1 c1 c2 s); eauto.
  - intros c1 c2 r1 r2 Hr1 Hr2 Hb.
    apply Hal in Hr1 as [(-> & r & Hr & ->)|[Hne1 Hr1]]; apply Hal in Hr2 as [(-> & r' & Hr' & ->)|[Hne2 Hr2]]; [done| | |].
    + destruct (Hbar r Hr) as [He|He]; [apply (H2 c c2 r r2); congruence|]. symmetry. by apply (He c2 r2).
    + destruct (Hbar r' Hr') as [He|He]; [apply (H2 c1 c r1 r'); congruence|]. by apply (He c1 r1).
    + by apply (H2 c1 c2 r1 r2).
  - intros v m Hm. rewrite Hdom. by apply (H3 v m).
  - done.
  - done.
  - intros c'. by rewrite Hdom.
  - intros c' s (r & Hr & Hs). destruct (decide (c' = c)) as [->|Hne].
    + exists (f r). rewrite lookup_alter_eq, Hr. split; [done|]. by apply Hkeep.
    + exists r. by rewrite lookup_alter_ne.
  - intros v m Hm. exists m. auto.
Qed.

(** A row's state or count: its keys stand. *)
Lemma row_state_sound f c g : (∀ r, barcode (f r) = barcode r ∧ serial_number (f r) = serial_number r) →
  sound g (set_cartridge_rows (alter f c) g).
Proof.
  intros Hf. apply rows_sound.
  - intros r _ s. by rewrite (proj2 (Hf r)).
  - intros r _. left. apply Hf.
  - intros r s _. rewrite (proj2 (Hf r)). by left.
Qed.

Lemma update_serial_sound c s g g' : (∀ r, cartridge_rows g !! c = Some r → serial_number r = None) →
  update_serial c s g = Ok g' → sound g g'.
Proof.
  intros Hn. unfold update_serial. destruct (other_cartridge _ _ _) eqn:Ho; intros [= <-]. apply rows_sound.
  - intros r Hr t. by rewrite (Hn r Hr).
  - intros r _. by left.
  - intros r t _ [= <-]. right. intros c' (r' & Hr' & Hs). apply (other_cartridge_false _ _ _ Ho _ _ Hr'). by apply bool_decide_eq_true.
Qed.
Lemma update_barcode_sound c b g g' : update_barcode c b g = Ok g' → sound g g'.
Proof.
  unfold update_barcode. destruct (other_cartridge _ _ _) eqn:Ho; intros [= <-]. apply rows_sound.
  - done.
  - intros r _. right. intros c' r' Hr' Hb. apply (other_cartridge_false _ _ _ Ho _ _ Hr'). by apply bool_decide_eq_true.
  - intros r t _. by left.
Qed.

Lemma insert_cartridge_sound r g id g' : insert_cartridge r g = Ok (id, g') →
  sound g g' ∧ cartridge_rows g !! id = None ∧ cartridge_rows g' = <[id := r]> (cartridge_rows g) ∧
  mount_rows g' = mount_rows g ∧ volume_table g' = volume_table g.
Proof.
  unfold insert_cartridge. pose proof (next_id_fresh (cartridge_rows g)) as Hnew. set (n := next_id _) in *.
  destruct (other_cartridge _ _ _) eqn:Ho; intros [= <- <-]. split; [|done].
  assert (∀ c' r', cartridge_rows g !! c' = Some r' → barcode r' ≠ barcode r ∧ (is_Some (serial_number r) → serial_number r' ≠ serial_number r)) as Hno.
  { intros c' r' Hr'. assert (c' ≠ n) as Hne by (intros ->; congruence).
    destruct (decide (barcode r' = barcode r)) as [Hb|Hb].
    - exfalso. apply Hne, (other_cartridge_false _ _ _ Ho _ _ Hr'). apply orb_true_iff. left. by apply bool_decide_eq_true.
    - split; [done|]. intros Hs He. apply Hne, (other_cartridge_false _ _ _ Ho _ _ Hr'). apply orb_true_iff. right.
      by rewrite !bool_decide_eq_true_2. }
  intros [H1 H2 H3 H4 H5]. split; split; unfold has_serial, is_mounted, is_given_up in *; cbn in *.
  - intros c1 c2 s (r1 & Hr1 & Hs1) (r2 & Hr2 & Hs2).
    apply lookup_insert_Some in Hr1 as [[<- <-]|[Hne1 Hr1]]; apply lookup_insert_Some in Hr2 as [[<- <-]|[Hne2 Hr2]]; [done| | |].
    + exfalso. apply (proj2 (Hno _ _ Hr2)); [by eexists|congruence].
    + exfalso. apply (proj2 (Hno _ _ Hr1)); [by eexists|congruence].
    + apply (H1 c1 c2 s); eauto.
  - intros c1 c2 r1 r2 Hr1 Hr2 Hb.
    apply lookup_insert_Some in Hr1 as [[<- <-]|[Hne1 Hr1]]; apply lookup_insert_Some in Hr2 as [[<- <-]|[Hne2 Hr2]]; [done| | |].
    + by destruct (Hno _ _ Hr2).
    + by destruct (Hno _ _ Hr1).
    + by apply (H2 c1 c2 r1 r2).
  - intros v m Hm. destruct (H3 v m Hm) as [Hv Hc]. split; [done|]. destruct (decide (mounted_on m = n)) as [->|Hne].
    + rewrite lookup_insert_eq. by eexists.
    + by rewrite lookup_insert_ne.
  - done.
  - done.
  - intros c Hc. destruct (decide (c = n)) as [->|Hne]; [rewrite lookup_insert_eq; by eexists|by rewrite lookup_insert_ne].
  - intros c s (r' & Hr' & Hs). exists r'. split; [|done]. rewrite lookup_insert_ne; [done|]. intros <-. congruence.
  - intros v m Hm. exists m. auto.
Qed.

Lemma insert_mount_sound v m g g' : still_mounted m = true → (∀ v', ¬ is_mounted g v' (mounted_on m)) →
  insert_mount v m g = Ok g' → sound g g' ∧ mount_rows g' = <[v := m]> (mount_rows g).
Proof.
  intros Hst Hnone. unfold insert_mount. case_bool_decide as Hnew; [done|].
  destruct (bool_decide (is_Some (volume_table g !! v)) && _) eqn:Hfk; intros [= <-]. split; [|done].
  rewrite andb_true_iff, !bool_decide_eq_true in Hfk. destruct Hfk as [Hv Hc]. rewrite <- eq_None_not_Some in Hnew.
  intros [H1 H2 H3 H4 H5]. split; split; unfold has_serial, is_mounted, is_given_up in *; cbn in *; try done.
  - intros v' m' [[<- <-]|[Hne Hm']]%lookup_insert_Some; [done|]. by apply (H3 v' m').
  - intros v1 v2 c (m1 & Hm1 & Hon1 & Hs1) (m2 & Hm2 & Hon2 & Hs2).
    apply lookup_insert_Some in Hm1 as [[<- <-]|[Hne1 Hm1]]; apply lookup_insert_Some in Hm2 as [[<- <-]|[Hne2 Hm2]]; [done| | |].
    + exfalso. apply (Hnone v2). exists m2. split; [done|]. split; [congruence|done].
    + exfalso. apply (Hnone v1). exists m1. split; [done|]. split; [congruence|done].
    + by apply (H4 v1 v2 c); eauto.
  - intros v' m' [[<- <-]|[Hne Hm']]%lookup_insert_Some Hs; [congruence|]. by apply (H5 v' m').
  - intros v' m' Hm'. exists m'. rewrite lookup_insert_ne by congruence. auto.
Qed.

(** A volume's row changed; one erased stays so. *)
Lemma update_volume_lookup v f g v' : volume_table (update_volume v f g) !! v' = (if decide (v' = v) then f <$> volume_table g !! v else volume_table g !! v').
Proof. cbn. destruct (decide (v' = v)) as [->|Hne]; [by rewrite lookup_alter_eq|by rewrite lookup_alter_ne]. Qed.
Lemma update_volume_sound v f g :
  (∀ r m, volume_table g !! v = Some r → mount_rows g !! v = Some m → still_mounted m = false → given_up r = true → given_up (f r) = true) →
  sound g (update_volume v f g).
Proof.
  intros Hf [H1 H2 H3 H4 H5]. split; split; try done.
  - intros v' m Hm. destruct (H3 v' m Hm) as [Hv Hc]. split; [|done]. rewrite update_volume_lookup.
    destruct (decide (v' = v)) as [->|]; [by apply fmap_is_Some|done].
  - intros v' m Hm Hs. destruct (H5 v' m Hm Hs) as (r & Hr & Hg). unfold is_given_up. rewrite update_volume_lookup.
    destruct (decide (v' = v)) as [->|]; [|eauto]. rewrite Hr. eexists. split; [done|]. by apply (Hf r m).
  - intros v' m Hm. exists m. auto.
Qed.
Lemma give_up_sound v st g : st ∈ [VRetired; VErased] → sound g (update_volume v (with_volume_status st) g).
Proof. intros Hst. apply update_volume_sound. intros r m _ _ _ _. unfold given_up. by apply bool_decide_eq_true. Qed.
Lemma erase_sound v g : sound g (update_volume v (with_volume_status VErased) g).
Proof. apply give_up_sound. set_solver. Qed.
Lemma erase_volumes_sound vs g : sound g (erase_volumes vs g).
Proof. apply sound_fold. intros. apply erase_sound. Qed.
Lemma erase_volumes_rows vs g : cartridge_rows (erase_volumes vs g) = cartridge_rows g ∧ mount_rows (erase_volumes vs g) = mount_rows g.
Proof. unfold erase_volumes. revert g. induction vs as [|v vs IH]; intros g; [done|]. cbn. by rewrite !(proj1 (IH _)), !(proj2 (IH _)). Qed.
Lemma erased_volumes vs g v : (v ∈ vs ∧ is_Some (volume_table g !! v)) ∨ is_given_up g v → is_given_up (erase_volumes vs g) v.
Proof.
  unfold erase_volumes. revert g. induction vs as [|w vs IH]; intros g; cbn.
  - by intros [[Hin _]|?]; [apply not_elem_of_nil in Hin|].
  - intros Hv. apply IH. unfold is_given_up. rewrite update_volume_lookup. destruct (decide (v = w)) as [->|Hne].
    + right. destruct Hv as [[_ [r Hr]]|(r & Hr & Hs)]; rewrite Hr; by eexists.
    + destruct Hv as [[Hin Hk]|Hv]; [left|by right]. split; [|done]. by apply elem_of_cons in Hin as [|].
Qed.

(** The mounts of a cartridge closed, the volumes they held erased. *)
Lemma close_mounts_lookup c other g v : mount_rows (close_mounts c other g) !! v =
  (λ m, if mounted_now c m && negb (bool_decide (Some v = other)) then unmount m else m) <$> mount_rows g !! v.
Proof. unfold close_mounts. cbn. rewrite map_lookup_imap. by destruct (mount_rows g !! v). Qed.
Lemma close_mounts_sound c other g : (∀ v, is_mounted g v c → Some v ≠ other → is_given_up g v) → sound g (close_mounts c other g).
Proof.
  intros Hall [H1 H2 H3 H4 H5].
  assert (∀ v m', mount_rows (close_mounts c other g) !! v = Some m' → ∃ m, mount_rows g !! v = Some m ∧ mounted_on m' = mounted_on m ∧
    identity_source m' = identity_source m ∧ (still_mounted m' = true → still_mounted m = true) ∧
    (still_mounted m' = false → still_mounted m = false ∨ is_mounted g v c ∧ Some v ≠ other)) as Hback.
  { intros v m'. rewrite close_mounts_lookup. destruct (mount_rows g !! v) as [m|] eqn:Hm; [|done]. intros [= <-]. exists m.
    destruct (mounted_now c m && _) eqn:Hn; [|naive_solver]. rewrite andb_true_iff, negb_true_iff, bool_decide_eq_false in Hn.
    destruct Hn as [Hn Ho]. unfold mounted_now in Hn. rewrite andb_true_iff, bool_decide_eq_true in Hn. destruct Hn as [Hon Hst].
    split; [done|]. split; [done|]. split; [done|]. split; [done|]. intros _. right. split; [by exists m|done]. }
  split; split; try done.
  - intros v m' (m & Hm & Hon & _)%Hback. rewrite Hon. by apply (H3 v m).
  - intros v v' c' (m1 & (n1 & Hn1 & Ho1 & _ & Hs1 & _)%Hback & Hon1 & Hst1) (m2 & (n2 & Hn2 & Ho2 & _ & Hs2 & _)%Hback & Hon2 & Hst2).
    apply (H4 v v' c'); [exists n1|exists n2]; (split; [done|]; split; [congruence|auto]).
  - intros v m' (m & Hm & _ & _ & _ & Hf)%Hback Hst. destruct (Hf Hst) as [Hs|[Hmt Ho]]; [by apply (H5 v m)|by apply Hall].
  - intros v m Hm. exists (if mounted_now c m && negb (bool_decide (Some v = other)) then unmount m else m).
    rewrite close_mounts_lookup, Hm. split; [done|]. destruct (mounted_now c m && _); naive_solver.
Qed.

(** ** Who is mounted *)

Lemma elem_of_open_mounts c g v r : (v, r) ∈ open_mounts c g ↔ is_mounted g v c ∧ volume_table g !! v = Some r.
Proof.
  unfold open_mounts. rewrite merge_sort_Permutation, list_elem_of_omap. unfold is_mounted, mounted_now. split.
  - intros ([v' m] & Hin%elem_of_map_to_list & Hs). cbn in Hs. destruct (bool_decide (mounted_on m = c) && _) eqn:Hm; [|done].
    rewrite andb_true_iff, bool_decide_eq_true in Hm. destruct (volume_table g !! v') as [r'|] eqn:Hr; [|done].
    injection Hs as <- <-. split; [exists m; naive_solver|done].
  - intros [(m & Hm & <- & Hst) Hr]. exists (v, m). split; [by apply elem_of_map_to_list|]. cbn.
    by rewrite bool_decide_eq_true_2, Hst, Hr.
Qed.
Lemma mounted_in c g v : registry_ok g → is_mounted g v c → v ∈ (open_mounts c g).*1.
Proof.
  intros Hok Hm. destruct Hm as (m & Hv & Hon & Hs). destruct (mounts_known g Hok v m Hv) as [[r Hr] _].
  apply list_elem_of_fmap. exists (v, r). split; [done|]. apply elem_of_open_mounts. split; [by exists m|done].
Qed.

Lemma elem_of_where p g c r : (c, r) ∈ cartridges_where p g ↔ cartridge_rows g !! c = Some r ∧ p r = true.
Proof. unfold cartridges_where. rewrite list_elem_of_filter, elem_of_map_to_list. naive_solver. Qed.
Lemma head_elem {A} (l : list A) x : head l = Some x → x ∈ l.
Proof. destruct l; [done|]. intros [= ->]. apply list_elem_of_here. Qed.
Lemma select_by_serial_some s g c r : select_by_serial s g = Some (c, r) → cartridge_rows g !! c = Some r ∧ serial_number r = Some s.
Proof. intros Hs%head_elem. apply elem_of_where in Hs as [? ?%bool_decide_eq_true]. done. Qed.
Lemma select_by_serial_none s g : select_by_serial s g = None → ∀ c, ¬ has_serial g c s.
Proof.
  intros Hn c (r & Hr & Hs). unfold select_by_serial in Hn. apply head_None in Hn.
  assert ((c, r) ∈ cartridges_where (λ r, bool_decide (serial_number r = Some s)) g) as Hin
    by (apply elem_of_where; split; [done|by apply bool_decide_eq_true]). rewrite Hn in Hin. by apply not_elem_of_nil in Hin.
Qed.
Lemma select_by_barcode_some b g c r : select_by_barcode b g = Some (c, r) → cartridge_rows g !! c = Some r ∧ barcode r = b.
Proof. intros Hs%head_elem. apply elem_of_where in Hs as [? ?%bool_decide_eq_true]. done. Qed.

(** ** Establishing a binding *)

Lemma record_medium_serial_sound c b s g g' : (∀ r, cartridge_rows g !! c = Some r → serial_number r = None) →
  record_medium_serial c b s g = Ok g' →
  sound g g' ∧ has_serial g' c s ∧ mount_rows g' = mount_rows g ∧ volume_table g' = volume_table g.
Proof.
  intros Hn. unfold record_medium_serial. intros (r & Hr%ok_or_ok & ([] & _ & (g1 & Hu & [= <-])%bind_ok)%bind_ok)%bind_ok.
  destruct (update_serial c s g) as [g2|] eqn:Hup; [|done]. injection Hu as <-. split; [|split].
  - eapply sound_trans; [by eapply update_serial_sound|apply log_sound].
  - unfold update_serial in Hup. destruct (other_cartridge _ _ _); [done|]. injection Hup as <-.
    exists (with_serial s r). split; [|done]. cbn. by rewrite lookup_alter_eq, Hr.
  - unfold update_serial in Hup. destruct (other_cartridge _ _ _); [done|]. by injection Hup as <-.
Qed.

Lemma register_from_chip_sound s gen m st g id g' : register_from_chip s gen m st g = Ok (id, g') →
  sound g g' ∧ cartridge_rows g !! id = None ∧
  (∃ r, cartridge_rows g' = <[id := r]> (cartridge_rows g) ∧ serial_number r = Some s ∧ barcode r = s ∧ cartridge_state r = st ∧
     nominal_capacity r = native_capacity_bytes gen) ∧
  mount_rows g' = mount_rows g ∧ volume_table g' = volume_table g.
Proof.
  unfold register_from_chip. intros ([] & _ & ([id1 g1] & Hi & [= <- <-])%bind_ok)%bind_ok.
  destruct (insert_cartridge _ _) as [[id2 g2]|] eqn:Hin; [|done]. injection Hi as <- <-.
  apply insert_cartridge_sound in Hin as (Hs & Hn & Hr & Hm & Hv). split; [eapply sound_trans; [done|apply log_sound]|].
  split; [done|]. split; [eexists; split; [done|done]|]. split; [apply Hm|apply Hv].
Qed.

(** The row handed in is the catalog's. *)
Definition row_in (g : Registry) (row : option (Z * CartridgeRow)) : Prop :=
  ∀ c r, row = Some (c, r) → cartridge_rows g !! c = Some r.

Lemma resolve_or_register_sound row serial gen m g o g' : row_in g row → resolve_or_register row serial gen m g = Ok (o, g') →
  sound g g' ∧ mount_rows g' = mount_rows g ∧ volume_table g' = volume_table g ∧
  (∀ c, o = Some c → is_Some (cartridge_rows g' !! resolved_id c) ∧
     (∀ c' r, row = Some (c', r) → resolved_id c = c') ∧
     (row = None → cartridge_rows g !! resolved_id c = None)).
Proof.
  intros Hrow. unfold resolve_or_register. destruct row as [[c r]|]; [|destruct serial as [s|]].
  - specialize (Hrow c r eq_refl). destruct (serial_number r) as [s'|] eqn:Hsr.
    + intros [= <- <-]. split; [apply sound_refl|]. split; [done|]. split; [done|]. intros ? [= <-]. cbn.
      split; [by eexists|]. split; [by intros ? ? [= <- _]|done].
    + destruct serial as [s|].
      * intros ([recorded g1] & Hg & [= <- <-])%bind_ok. apply bind_ok in Hg as (g2 & Hg & [= <- <-]).
        apply record_medium_serial_sound in Hg as (Hs & (r' & Hr' & _) & Hm & Hv); [|intros r0 Hr0; congruence].
        split; [done|]. split; [done|]. split; [done|]. intros ? [= <-]. cbn. split; [by eexists|].
        split; [by intros ? ? [= <- _]|done].
      * intros [= <- <-]. split; [apply sound_refl|]. split; [done|]. split; [done|]. intros ? [= <-]. cbn.
        split; [by eexists|]. split; [by intros ? ? [= <- _]|done].
  - intros ([id g1] & Hg & [= <- <-])%bind_ok. apply register_from_chip_sound in Hg as (Hs & Hn & (r & Hr & _) & Hm & Hv).
    split; [done|]. split; [done|]. split; [done|]. intros ? [= <-]. cbn. rewrite Hr, lookup_insert_eq.
    split; [by eexists|]. split; done.
  - intros [= <- <-]. split; [apply sound_refl|]. split; [done|]. by split.
Qed.

(** The volumes displaced are erased; nothing else moves. *)
Lemma displace_sound c g x : sound g (displace c g x).
Proof. unfold displace. eapply sound_trans; [apply (erase_sound x.1)|]. by apply same_sound. Qed.
Lemma displace_rows c l g : cartridge_rows (fold_left (displace c) l g) = cartridge_rows g ∧
  mount_rows (fold_left (displace c) l g) = mount_rows g ∧ volume_table (fold_left (displace c) l g) = volume_table (erase_volumes l.*1 g).
Proof.
  revert g. induction l as [|x l IH]; intros g; [done|]. cbn. destruct (IH (displace c g x)) as (-> & -> & ->).
  split; [done|]. split; [done|]. clear IH. unfold erase_volumes.
  assert (∀ vs g1 g2, volume_table g1 = volume_table g2 →
    volume_table (fold_left (λ g v, update_volume v (with_volume_status VErased) g) vs g1)
    = volume_table (fold_left (λ g v, update_volume v (with_volume_status VErased) g) vs g2)) as Hcong; [|by apply Hcong].
  intros vs. induction vs as [|v vs IHv]; intros g1 g2 He; [done|]. cbn. apply IHv. unfold volume_table in *. cbn. by rewrite He.
Qed.
Lemma erase_volumes_lookup vs g v : volume_table (erase_volumes vs g) !! v =
  if decide (v ∈ vs) then with_volume_status VErased <$> volume_table g !! v else volume_table g !! v.
Proof.
  unfold erase_volumes. revert g. induction vs as [|w vs IH]; intros g; [done|]. cbn. rewrite IH, update_volume_lookup.
  destruct (decide (v = w)) as [->|Hne].
  - rewrite (decide_True (P := w ∈ w :: vs)) by apply list_elem_of_here. destruct (volume_table g !! w); by destruct (decide (w ∈ vs)).
  - destruct (decide (v ∈ vs)) as [Hin|Hin].
    + by rewrite decide_True by by apply list_elem_of_further.
    + by rewrite decide_False by (intros [|]%elem_of_cons; done).
Qed.

Lemma inherit_place_sound v c g : sound g (inherit_place v c g).
Proof. unfold inherit_place. destruct (r ← _; _) as [place|]; [|apply sound_refl]. destruct (volume_place g v); [apply sound_refl|]. by apply same_sound. Qed.
Lemma inherit_place_rows v c g : same_rows g (inherit_place v c g).
Proof. unfold inherit_place. destruct (r ← _; _) as [place|]; [|done]. by destruct (volume_place g v). Qed.
Lemma into_use_sound c st m g : sound g (into_use c st m g) ∧ mount_rows (into_use c st m g) = mount_rows g ∧
  volume_table (into_use c st m g) = volume_table g.
Proof.
  unfold into_use. case_bool_decide; (split; [|done]); [by apply row_state_sound|].
  eapply sound_trans; [|apply log_sound]. by apply row_state_sound.
Qed.

Definition displaced_others (v c : Z) (g : Registry) (l : list Z) : Prop := ∀ w, w ∈ l ↔ is_mounted g w c ∧ w ≠ v.

(** What a mount makes of the catalog: the cartridge holds [v] and nothing
    else; each volume it held is erased and unmounted; no other volume moves. *)
Record mounted_alone (v c : Z) (l : list Z) (g g' : Registry) : Prop := {
  alone_mounted : ∀ w, is_mounted g' w c ↔ w = v;
  alone_displaced : displaced_others v c g l;
  alone_volumes : ∀ w, volume_table g' !! w = if decide (w ∈ l) then with_volume_status VErased <$> volume_table g !! w else volume_table g !! w;
  alone_others : ∀ w c', c' ≠ c → is_mounted g' w c' ↔ is_mounted g w c';
}.

(** The cartridge cleared of every other volume. *)
Record room (v c : Z) (g g' : Registry) : Prop := {
  room_volumes : volume_table g' = volume_table (erase_volumes (displaced_by v c g).*1 g);
  room_back : ∀ w m', mount_rows g' !! w = Some m' → ∃ m, mount_rows g !! w = Some m ∧ mounted_on m' = mounted_on m ∧
    still_mounted m' = still_mounted m && negb (bool_decide (mounted_on m = c) && negb (bool_decide (w = v)));
  room_forth : ∀ w m, mount_rows g !! w = Some m → is_Some (mount_rows g' !! w);
}.
Lemma displaced_by_others v c g : registry_ok g → displaced_others v c g (displaced_by v c g).*1.
Proof.
  intros Hok w. unfold displaced_by. rewrite list_elem_of_fmap. split.
  - intros ([w' r] & -> & [Hne Hin]%list_elem_of_filter). by apply elem_of_open_mounts in Hin as [Hm _].
  - intros [Hm Hne]. pose proof (mounted_in c g w Hok Hm) as ([w' r] & -> & Hin)%list_elem_of_fmap.
    exists (w', r). split; [done|]. by apply list_elem_of_filter.
Qed.
Lemma make_room_sound v c g : registry_ok g → sound g (make_room v c g) ∧ room v c g (make_room v c g).
Proof.
  intros Hok. unfold make_room. set (ds := displaced_by v c g). destruct (displace_rows c ds g) as (Hr1 & Hm1 & Hv1).
  set (g1 := fold_left (displace c) ds g) in *. split.
  - apply (sound_trans _ g1); [apply sound_fold; intros; apply displace_sound|]. apply close_mounts_sound. intros w Hm Hne.
    unfold is_given_up. rewrite Hv1. assert (is_mounted g w c) as Hm' by (destruct Hm as (m' & Hm' & ?); exists m'; by rewrite <- Hm1).
    apply (erased_volumes ds.*1 g w). left. split; [apply (displaced_by_others v c g); [done|]; split; [done|congruence]|].
    destruct Hm' as (m' & Hm' & _). by destruct (mounts_known g Hok w m' Hm').
  - split; [exact Hv1| |].
    + intros w m2. rewrite close_mounts_lookup, Hm1. destruct (mount_rows g !! w) as [m0|]; [|done]. intros [= <-].
      exists m0. unfold mounted_now. split; [done|].
      rewrite (bool_decide_ext (Some w = Some v) (w = v)) by (split; [by intros [= ->]|by intros ->]).
      destruct (bool_decide (mounted_on m0 = c)) eqn:E1, (still_mounted m0) eqn:E2, (bool_decide (w = v)); cbn; by rewrite ?E2.
    + intros w m0 Hw. rewrite close_mounts_lookup, Hm1, Hw. by eexists.
Qed.

Lemma mount_volume_sound v c serial g g' : registry_ok g → (∀ w, is_mounted g w c → w = v) → refuse_rebind v c g = Ok () →
  mount_volume v c serial g = Ok g' →
  sound g g' ∧ volume_table g' = volume_table g ∧ is_mounted g' v c ∧ ∀ w, w ≠ v → mount_rows g' !! w = mount_rows g !! w.
Proof.
  intros Hok Halone Hrebind. unfold mount_volume. case_bool_decide as Hal.
  - intros [= <-]. split; [apply sound_refl|]. split; [done|]. split; [|done].
    destruct (mount_rows g !! v) as [m|] eqn:Hm; [|by apply is_Some_None in Hal]. cbn in Hal.
    destruct (still_mounted m) eqn:Hst; [|by apply is_Some_None in Hal]. exists m. split; [done|]. split; [|done].
    destruct (mounts_known g Hok v m Hm) as [_ [r Hr]].
    unfold refuse_rebind, open_mount in Hrebind. rewrite Hm in Hrebind. cbn in Hrebind. rewrite Hst, Hr in Hrebind. cbn in Hrebind.
    case_bool_decide as He; [done|]. exfalso. apply bind_ok in Hrebind as (? & _ & (? & _ & ?)%bind_ok). done.
  - destruct (insert_mount _ _ _) as [g''|] eqn:Hin; [|done]. intros [= ->].
    assert (volume_table g' = volume_table g) as Hvv.
    { unfold insert_mount in Hin. case_bool_decide; [done|]. destruct (_ && _); [|done]. by injection Hin as <-. }
    apply insert_mount_sound in Hin as [Hs Hmr]; [|done|].
    + split; [done|]. split; [done|]. split; [eexists; by rewrite Hmr, lookup_insert_eq|]. intros w Hne. by rewrite Hmr, lookup_insert_ne.
    + cbn. intros w Hw. pose proof (Halone w Hw) as ->. destruct Hw as (m & Hm & _ & Hst). apply Hal. rewrite Hm. cbn. rewrite Hst. by eexists.
Qed.

Lemma mount_and_record_sound v c st serial m upd g l g' : registry_ok g → mount_and_record v c st serial m upd g = Ok (l, g') →
  registry_ok g' ∧ kept g g' ∧ mounted_alone v c l g g'.
Proof.
  intros Hok. destruct (make_room_sound v c g Hok) as [Hs2 [Hv2 Hback Hfwd]].
  unfold mount_and_record.
  destruct (Hs2 Hok) as [Hok2 _]. pose proof (displaced_by_others v c g Hok) as Hds.
  set (g2 := make_room v c g) in *. clearbody g2. intros ([] & Hrebind & H)%bind_ok. apply bind_ok in H as (g3 & Hg3 & [= Hl Hg']).
  apply mount_volume_sound in Hg3 as (Hs3 & Hv3 & Hmv & Ho3); [|done| |done]; cycle 1.
  { intros w (m2 & Hm2 & Hon & Hst). destruct (Hback w m2 Hm2) as (m0 & Hm0 & Hon0 & Hst0). rewrite Hst in Hst0. symmetry in Hst0.
    rewrite andb_true_iff, negb_true_iff, andb_false_iff, negb_false_iff, bool_decide_eq_false, bool_decide_eq_true in Hst0.
    destruct Hst0 as [_ [Hne|?]]; [congruence|done]. }
  destruct (inherit_place_rows v c g3) as (Hc4 & Hm4 & Hv4).
  assert (sound g g' ∧ mount_rows g' = mount_rows g3 ∧ volume_table g' = volume_table g3) as (Hsg & Hmg & Hvg).
  { subst g'. pose proof (sound_trans _ _ _ (sound_trans _ _ _ Hs2 Hs3) (inherit_place_sound v c g3)) as Hs4. destruct upd; [|done].
    destruct (into_use_sound c st m (inherit_place v c g3)) as (Hs5 & Hm5 & Hv5).
    split; [by eapply sound_trans|]. split; congruence. }
  destruct (Hsg Hok) as [Hok' Hk]. split; [done|]. split; [done|]. subst l.
  assert (is_mounted g' v c) as Hmv' by (destruct Hmv as (mv & ? & ?); exists mv; by rewrite Hmg). split; [|done| |].
  - intros w. split; [|by intros ->]. intros Hw. by apply (one_volume_mounted g' Hok' w v c).
  - intros w. rewrite Hvg, Hv3, Hv2. by rewrite erase_volumes_lookup.
  - intros w c' Hne. destruct (decide (w = v)) as [->|Hwv].
    + destruct Hmv' as (mv & Hmv' & Honv & _). split; intros (m0 & Hm0 & Hon & _); [congruence|].
      destruct (kept_bindings _ _ Hk v m0 Hm0) as (m' & Hm' & Hon' & _). congruence.
    + unfold is_mounted. rewrite Hmg, Ho3 by done. split.
      * intros (m2 & Hm2 & Hon & Hst). destruct (Hback w m2 Hm2) as (m0 & Hm0 & Hon0 & Hst0). exists m0. split; [done|].
        rewrite Hst in Hst0. symmetry in Hst0. apply andb_true_iff in Hst0 as [Hst0 _]. split; [congruence|done].
      * intros (m0 & Hm0 & Hon & Hst). destruct (Hfwd w m0 Hm0) as [m2 Hm2]. exists m2. split; [done|].
        destruct (Hback w m2 Hm2) as (m0' & Hm0' & Hon0 & Hst0). rewrite Hm0 in Hm0'. injection Hm0' as <-. split; [congruence|].
        rewrite Hst0, Hst. cbn. by rewrite bool_decide_eq_false_2 by congruence.
Qed.
