(* ===== verification/RegistryKept.v ===== *)
(** * What the registry promises over its life

    [volume init] binds its volume to the cartridge the chip names, alone on
    it: what it displaces is erased, no other cartridge moves, and a refusal
    leaves the catalog as it was. Every operation on the cartridges - an init,
    a corroboration, an erase, a retirement and its undoing - keeps the
    registry well formed and takes back no serial and no binding; a cartridge
    given up takes no version's last copy with it. *)

From S2P Require Import Prelude SizeText LayoutModel Format Session Ledger LedgerSound LedgerPlan Coverage CoverageSound Release ReleaseSound TapeStore Confirm Contact Documents.
From S2P Require Import Registry Binding CartridgeLife BindingSound.
Local Open Scope Z_scope.
Local Open Scope rust_scope.

(** ** The row looked up *)

Lemma find_cartridge_in arg g o : find_cartridge arg g = Ok o → row_in g o.
Proof.
  unfold find_cartridge. intros Hf c r ->.
  destruct (select_by_barcode (trim arg) g) as [[b rb]|] eqn:Hb, (select_by_serial (trim arg) g) as [[s rs]|] eqn:Hs.
  - case_bool_decide; [|done]. injection Hf as -> ->. by apply select_by_barcode_some in Hb as [? _].
  - injection Hf as -> ->. by apply select_by_barcode_some in Hb as [? _].
  - injection Hf as -> ->. by apply select_by_serial_some in Hs as [? _].
  - done.
Qed.

(** The row is the catalog's, and its chip, where it has one recorded, is the
    one in the drive. *)
Lemma lookup_cartridge_spec serial req g l : lookup_cartridge serial req g = Ok l →
  row_in g (looked_up l) ∧
  (∀ c r s, looked_up l = Some (c, r) → serial = Some s → serial_number r = Some s ∨ serial_number r = None) ∧
  (∀ s, looked_up l = None → serial = Some s → ∀ c, ¬ has_serial g c s).
Proof.
  unfold lookup_cartridge. destruct (serial ≫= _) as [[c0 r0]|] eqn:Hsel.
  - destruct serial as [s|]; [|done]. cbn in Hsel. apply select_by_serial_some in Hsel as [Hr Hs]. intros [= <-]. cbn.
    split; [by intros c r [= <- <-]|]. split; [|done]. intros c r s' [= <- <-] [= <-]. by left.
  - assert (∀ s, serial = Some s → ∀ c, ¬ has_serial g c s) as Hnone.
    { intros s -> c. by apply select_by_serial_none. }
    destruct req as [b|].
    + unfold lookup_requested. intros (found & Hf & (row & Hrow & ([] & Hg & [= <-])%bind_ok)%bind_ok)%bind_ok.
      apply ok_or_ok in Hrow as ->. destruct row as [c0 r0]. pose proof (find_cartridge_in _ _ _ Hf) as Hin. cbn in *.
      split; [done|]. split; [|done]. intros c r s [= <- <-] ->. destruct (serial_number r0) as [s0|]; [left|by right].
      apply guard_err_ok, negb_false_iff, bool_decide_eq_true in Hg. congruence.
    + unfold lookup_claimed. destruct serial as [s|].
      * destruct (select_by_operator_serial s g) as [|[c0 r0] [|]] eqn:Hl; intros [= <-]; cbn.
        { split; [by intros c r|]. split; [done|]. intros s' _ [= <-]. by apply Hnone. }
        assert ((c0, r0) ∈ select_by_operator_serial s g) as Hin by (rewrite Hl; apply list_elem_of_here).
        apply elem_of_where in Hin as [Hr Hp]. rewrite andb_true_iff, !bool_decide_eq_true in Hp. destruct Hp as [_ Hn].
        split; [by intros c r [= <- <-]|]. split; [|done]. intros c r s' [= <- <-] _. by right.
      * intros [= <-]. split; [by intros c r|]. by split.
Qed.

(** ** The volume made *)

Lemma insert_volume_sound name uuid g v g' : insert_volume name uuid g = Ok (v, g') →
  sound g g' ∧ volume_table g !! v = None ∧ volume_table g' = <[v := mkVolumeRow VInitialized CondOk None None]> (volume_table g) ∧
  mount_rows g' = mount_rows g ∧ cartridge_rows g' = cartridge_rows g.
Proof.
  unfold insert_volume. pose proof (next_id_fresh (volume_table g)) as Hnew. set (n := next_id _) in *.
  destruct (_ || _); [done|]. intros [= <- <-]. split; [|done].
  intros [H1 H2 H3 H4 H5]. unfold volume_table in *. split; split; unfold has_serial, is_mounted, is_given_up in *; try done; unfold volume_table in *; cbn in *.
  - intros w x Hx. destruct (H3 w x Hx) as [Hw Hc]. split; [|done]. destruct (decide (w = n)) as [->|Hne]; [rewrite lookup_insert_eq; by eexists|by rewrite lookup_insert_ne].
  - intros w x Hx Hs. destruct (H5 w x Hx Hs) as (r & Hr & Hg). exists r. split; [|done]. rewrite lookup_insert_ne; [done|]. intros <-. congruence.
  - intros w x Hx. exists x. auto.
Qed.

Lemma first_barcode_given_sound first bound g g' : first_barcode_given first bound g = Ok g' →
  sound g g' ∧ mount_rows g' = mount_rows g ∧ volume_table g' = volume_table g.
Proof.
  unfold first_barcode_given. destruct first as [f|], bound as [c|]; try (intros [= <-]; split; [apply sound_refl|done]).
  case_bool_decide; [intros [= <-]; split; [apply sound_refl|done]|].
  unfold give_first_barcode. intros (g1 & Hu & [= <-])%bind_ok. destruct (update_barcode _ _ _) as [g2|] eqn:Hup; [|done]. injection Hu as <-.
  split; [eapply sound_trans; [by eapply update_barcode_sound|apply log_sound]|].
  unfold update_barcode in Hup. destruct (other_cartridge _ _ _); [done|]. by injection Hup as <-.
Qed.

(** ** The binding *)

(** A cartridge resolved has the chip's serial, if there is one. *)
Lemma resolve_or_register_serial row serial gen m g o g' : row_in g row →
  (∀ c r s, row = Some (c, r) → serial = Some s → serial_number r = Some s ∨ serial_number r = None) →
  resolve_or_register row serial gen m g = Ok (o, g') →
  match o with
  | Some c => ∀ s, serial = Some s → has_serial g' (resolved_id c) s
  | None => row = None ∧ serial = None
  end.
Proof.
  intros Hrow Hser. unfold resolve_or_register. destruct row as [[c r]|]; [|destruct serial as [s|]].
  - intros ([recorded g1] & Hg & [= <- <-])%bind_ok. cbn. intros s ->. specialize (Hrow c r eq_refl). specialize (Hser c r s eq_refl eq_refl).
    destruct (serial_number r) as [s'|] eqn:Hsr.
    + injection Hg as <- <-. destruct Hser as [[= ->]|]; [|done]. by exists r.
    + apply bind_ok in Hg as (g2 & Hg & [= <- <-]). apply record_medium_serial_sound in Hg as (_ & Hh & _); [done|]. intros r0 Hr0. congruence.
  - intros ([id g1] & Hg & [= <- <-])%bind_ok. cbn. intros s' [= <-].
    apply register_from_chip_sound in Hg as (_ & _ & (r & Hr & Hs & _) & _). exists r. rewrite Hr, lookup_insert_eq. done.
  - intros [= <- <-]. done.
Qed.

(** Read of the mounts and the volumes alone. *)
Lemma mounted_alone_from v c l g g1 g' : mount_rows g1 = mount_rows g → volume_table g1 = volume_table g →
  mounted_alone v c l g1 g' → mounted_alone v c l g g'.
Proof.
  intros Hm Hv [H1 H2 H3 H4].
  assert (∀ w c, is_mounted g1 w c ↔ is_mounted g w c) as Hi by (intros w x; unfold is_mounted; by rewrite Hm).
  split; [done| | |].
  - intros w. rewrite <- Hi. apply H2.
  - intros w. by rewrite H3, Hv.
  - intros w c' Hne. rewrite <- Hi. by apply H4.
Qed.

Lemma bind_cartridge_sound v row serial gen m g b g' : registry_ok g → row_in g row →
  (∀ c r s, row = Some (c, r) → serial = Some s → serial_number r = Some s ∨ serial_number r = None) →
  bind_cartridge v row serial gen m g = Ok (b, g') →
  registry_ok g' ∧ kept g g' ∧
  match bound_cartridge b with
  | Some c => mounted_alone v (resolved_id c) (displaced_volumes b) g g' ∧ (∀ s, serial = Some s → has_serial g' (resolved_id c) s) ∧
      (∀ c' r, row = Some (c', r) → resolved_id c = c') ∧ (row = None → cartridge_rows g !! resolved_id c = None)
  | None => row = None ∧ serial = None ∧ g' = g
  end.
Proof.
  intros Hok Hrow Hser. unfold bind_cartridge. intros ([o g1] & Hres & H)%bind_ok.
  pose proof (resolve_or_register_serial _ _ _ _ _ _ _ Hrow Hser Hres) as Hs.
  pose proof (resolve_or_register_sound _ _ _ _ _ _ _ Hrow Hres) as (Hs1 & Hm1 & Hv1 & Ho). destruct (Hs1 Hok) as [Hok1 Hk1].
  destruct o as [c|]; cbn in H.
  - apply bind_ok in H as ([l g2] & Hmr & [= <- <-]). apply mount_and_record_sound in Hmr as (Hok2 & Hk2 & Hal); [|done].
    split; [done|]. split; [by etransitivity|]. cbn. split; [by eapply mounted_alone_from|].
    split; [intros s Hs'; apply Hk2; by apply Hs|]. destruct (Ho c eq_refl) as (_ & H1 & H2). done.
  - injection H as <- <-. destruct Hs as [-> ->]. unfold resolve_or_register in Hres. injection Hres as <-. split; [done|]. split; [done|]. done.
Qed.

(** ** The transaction and the init *)

(** What a volume made and bound leaves, from the catalog [g]. *)
Record bound_alone (v : Z) (serial : option string) (b : BindOutcome) (g g' : Registry) : Prop := {
  made_new : volume_table g !! v = None;
  made_ok : registry_ok g';
  made_kept : kept g g';
  made_on : ∃ c, bound_cartridge b = Some c ∧
    (∀ w, is_mounted g' w (resolved_id c) ↔ w = v) ∧
    (∀ w, w ∈ displaced_volumes b ↔ is_mounted g w (resolved_id c)) ∧
    (∀ w c', c' ≠ resolved_id c → is_mounted g' w c' ↔ is_mounted g w c') ∧
    (∀ w, volume_table g' !! w = if decide (w = v) then Some (mkVolumeRow VInitialized CondOk None None)
       else if decide (w ∈ displaced_volumes b) then with_volume_status VErased <$> volume_table g !! w else volume_table g !! w) ∧
    (∀ s, serial = Some s → has_serial g' (resolved_id c) s);
}.

Lemma not_mounted_new g v c : registry_ok g → volume_table g !! v = None → ¬ is_mounted g v c.
Proof. intros Hok Hn (m & Hm & _). destruct (mounts_known g Hok v m Hm) as [[r Hr] _]. congruence. Qed.

Lemma bound_alone_from v serial b c g g1 g2 g' : registry_ok g → volume_table g !! v = None → sound g g1 →
  volume_table g1 = <[v := mkVolumeRow VInitialized CondOk None None]> (volume_table g) → mount_rows g1 = mount_rows g →
  bound_cartridge b = Some c → registry_ok g2 → kept g1 g2 → mounted_alone v (resolved_id c) (displaced_volumes b) g1 g2 →
  (∀ s, serial = Some s → has_serial g2 (resolved_id c) s) →
  sound g2 g' → mount_rows g' = mount_rows g2 → volume_table g' = volume_table g2 → bound_alone v serial b g g'.
Proof.
  intros Hok Hn Hs1 Hv1 Hm1 Hb Hok2 Hk2 [A1 A2 A3 A4] Hser Hs2 Hm2 Hv2. destruct (Hs1 Hok) as [_ Hk1]. destruct (Hs2 Hok2) as [Hok' Hk'].
  assert (∀ w x, is_mounted g1 w x ↔ is_mounted g w x) as Hi1 by (intros w x; unfold is_mounted; by rewrite Hm1).
  assert (∀ w x, is_mounted g' w x ↔ is_mounted g2 w x) as Hi2 by (intros w x; unfold is_mounted; by rewrite Hm2).
  assert (∀ w, w ∈ displaced_volumes b ↔ is_mounted g w (resolved_id c)) as Hd.
  { intros w. rewrite (A2 w), Hi1. split; [by intros [? _]|]. intros Hw. split; [done|]. intros ->. by apply (not_mounted_new g v (resolved_id c)). }
  split; [done|done|by do 2 (etransitivity; [done|])|]. exists c. split; [done|]. split; [intros w; by rewrite Hi2|]. split; [done|].
  split; [intros w c' Hne; rewrite Hi2, <- Hi1; by apply A4|]. split; [|intros s Hs; apply Hk'; by apply Hser].
  intros w. rewrite Hv2, A3, Hv1. destruct (decide (w = v)) as [->|Hne].
  - rewrite decide_False, lookup_insert_eq; [done|]. intros Hw. apply Hd in Hw. by apply (not_mounted_new g v (resolved_id c)).
  - by rewrite lookup_insert_ne.
Qed.

Lemma bound_alone_contact v serial b contact c g g' : bound_alone v serial b g g' → bound_alone v serial b g (record_cartridge contact c g').
Proof. intros [B1 [H1 H2 H3 H4 H5] [K1 K2 K3] B4]. destruct contact as [k|]; (split; [done|by split|by split|done]). Qed.

Section init.
Context `{!TomlCrate, !Readable, !Blankable}.

Lemma init_facts_spec req backend d g facts : init_facts req backend d g = Ok facts →
  let serial := mam_serial (mam d) in
  lookup_cartridge serial (cartridge_flag req) g = Ok (init_lookup facts) ∧
  require_named_cartridge serial (looked_up (init_lookup facts)) = Ok () ∧
  refuse_unwitnessed_displacement serial (looked_up (init_lookup facts)) g = Ok () ∧
  (∀ c r, looked_up (init_lookup facts) = Some (c, r) → cartridge_state r ≠ RetiredPermanent) ∧
  can_write (drive_generation backend) (init_generation facts) = true.
Proof.
  unfold init_facts. cbv zeta. intros (decl & _ & (l & Hl & ([] & Hn & ([] & Hu & ([] & Hr & (first & _ & (gen & _ & ([] & Hw & (over & _ & [= <-])%bind_ok)%bind_ok)%bind_ok)%bind_ok)%bind_ok)%bind_ok)%bind_ok)%bind_ok)%bind_ok.
  cbn. apply map_err_ok in Hl, Hn, Hu. apply guard_err_ok, negb_false_iff in Hw. do 3 (split; [done|]). split; [|done].
  intros c r Hrow. rewrite Hrow in Hr. by apply map_err_ok, guard_err_ok, bool_decide_eq_false in Hr.
Qed.

Lemma init_transaction_sound req uuid d facts lock_free g v b g' : registry_ok g → row_in g (looked_up (init_lookup facts)) →
  (∀ c r s, looked_up (init_lookup facts) = Some (c, r) → mam_serial (mam d) = Some s → serial_number r = Some s ∨ serial_number r = None) →
  require_named_cartridge (mam_serial (mam d)) (looked_up (init_lookup facts)) = Ok () →
  init_transaction req uuid d facts lock_free g = Ok (v, b, g') →
  bound_alone v (mam_serial (mam d)) b g g' ∧
  ∃ c, bound_cartridge b = Some c ∧ (∀ c' r, looked_up (init_lookup facts) = Some (c', r) → resolved_id c = c') ∧
    (looked_up (init_lookup facts) = None → cartridge_rows g !! resolved_id c = None).
Proof.
  intros Hok Hrow Hser Hnamed. unfold init_transaction.
  intros ([v1 g1] & Hi & ([] & _ & ([b1 g2] & Hb & (g3 & Hf & [= -> -> <-])%bind_ok)%bind_ok)%bind_ok)%bind_ok.
  apply map_err_ok, insert_volume_sound in Hi as (Hs1 & Hn & Hv1 & Hm1 & Hc1). destruct (Hs1 Hok) as [Hok1 _].
  assert (row_in g1 (looked_up (init_lookup facts))) as Hrow1 by (intros c r Hr; rewrite Hc1; by apply Hrow).
  apply map_err_ok, bind_cartridge_sound in Hb as (Hok2 & Hk2 & Hb2); [|done..].
  apply map_err_ok, first_barcode_given_sound in Hf as (Hs3 & Hm3 & Hv3).
  destruct (bound_cartridge b) as [c|] eqn:Hc; cycle 1.
  { destruct Hb2 as (Hr0 & Hs0 & _). unfold require_named_cartridge in Hnamed. by rewrite Hr0, Hs0 in Hnamed. }
  destruct Hb2 as (Hal & Hhas & Hid & Hnew). split.
  - apply (bound_alone_from v _ b c g g1 g2); try done. eapply sound_trans; [done|apply log_sound].
  - exists c. split; [done|]. split; [done|]. intros Hnone. rewrite <- Hc1. by apply Hnew.
Qed.

(** An init: what it makes is bound to the cartridge of the chip in the
    drive, alone on it. The volumes the cartridge held are erased and no longer
    mounted, every other volume and mount is as it was, and every serial and
    binding recorded stays. One that refuses, and one whose transaction does
    not commit, leaves the catalog as others have it. The cartridge bound is
    the one the catalog knows by the chip's serial, if it knows it; it was not
    condemned; and a volume in service on it was displaced only where its chip
    had been recorded and reported the same serial now. *)
Theorem volume_init_binds req backend d contact uuid lock_free writes_thunk meanwhile g m r g' m' :
  registry_ok g → registry_ok (meanwhile g) → (∀ c x, cartridge_rows g !! c = Some x → cartridge_rows (meanwhile g) !! c = Some x) →
  volume_init_in_contact req backend d contact uuid lock_free writes_thunk meanwhile g m = (r, g', m') →
  g' = g ∨ g' = meanwhile g ∨
  ∃ v b, (r = Ok (v, b) ∨ r = Err (ThunkNotWritten v)) ∧ bound_alone v (mam_serial (mam d)) b (meanwhile g) g' ∧
    ∃ c, bound_cartridge b = Some c ∧ (∀ s c0, mam_serial (mam d) = Some s → has_serial (meanwhile g) c0 s → resolved_id c = c0) ∧
      (∀ x, cartridge_rows g !! resolved_id c = Some x → cartridge_state x ≠ RetiredPermanent) ∧
      (∀ w row, is_mounted g w (resolved_id c) → volume_table g !! w = Some row → in_service row = true →
         ∃ s, mam_serial (mam d) = Some s ∧ has_serial g (resolved_id c) s).
Proof.
  intros Hok0 Hok Hrows. unfold volume_init_in_contact. destruct (init_facts req backend d g) as [facts|e] eqn:Hfacts; [|by intros [= <- <- <-]; left].
  destruct (fresh_write_contact _ _ _ _ _ _ _ _) as [consent m1]. destruct consent as [u|e]; [|by intros [= <- <- <-]; right; left].
  destruct (init_transaction _ _ _ _ _ _) as [[[v b] g2]|e] eqn:Htx; [|by intros [= <- <- <-]; right; left].
  apply init_facts_spec in Hfacts as (Hl & Hnamed & Hunw & Hret & _). destruct (lookup_cartridge_spec _ _ _ _ Hl) as (Hrow & Hser & _).
  assert (row_in (meanwhile g) (looked_up (init_lookup facts))) as Hrow' by (intros c x Hx; by apply Hrows, Hrow).
  destruct (init_transaction_sound _ _ _ _ _ _ _ _ _ Hok Hrow' Hser Hnamed Htx) as (Hb & c & Hc & Hid & Hnew).
  intros [= <- <- <-]. right. right. exists v, b. split; [by destruct writes_thunk; [left|right]|].
  assert (bound_alone v (mam_serial (mam d)) b (meanwhile g)
    match mam_serial (mam d) with Some _ => match bound_cartridge b with Some c => record_cartridge contact (resolved_id c) g2 | None => g2 end | None => g2 end) as Hb'.
  { rewrite Hc. revert Hb. generalize (mam_serial (mam d)). intros [s|] Hb; [|done]. by apply bound_alone_contact. }
  split; [exact Hb'|]. exists c. split; [done|]. split; [|split].
  - intros s c0 Hs Hc0. destruct Hb as [_ B2 B3 (c1 & Hc1 & _ & _ & _ & _ & Hhas)]. rewrite Hc in Hc1. injection Hc1 as <-.
    apply (serials_name_one _ B2 _ _ s); [by apply Hhas|by apply B3].
  - intros x Hx. destruct (looked_up (init_lookup facts)) as [[c' r']|] eqn:Hlk.
    + rewrite (Hid c' r' eq_refl) in Hx. rewrite (Hrow c' r' eq_refl) in Hx. injection Hx as <-. by apply (Hret c' r').
    + apply Hrows in Hx. rewrite (Hnew eq_refl) in Hx. done.
  - intros w row Hm Hw Hlive. destruct (looked_up (init_lookup facts)) as [[c' r']|] eqn:Hlk.
    + rewrite (Hid c' r' eq_refl) in *. specialize (Hrow c' r' eq_refl). unfold refuse_unwitnessed_displacement in Hunw.
      destruct (bool_decide (is_Some (mam_serial (mam d))) && _) eqn:Hb2.
      * rewrite andb_true_iff, !bool_decide_eq_true in Hb2. destruct Hb2 as [[s Hs] [s' Hs']]. exists s. split; [done|].
        exists r'. split; [done|]. destruct (Hser c' r' s eq_refl Hs); congruence.
      * apply guard_err_ok, negb_false_iff, bool_decide_eq_true in Hunw. exfalso.
        assert (w ∈ live_on c' g) as Hin; [|rewrite Hunw in Hin; by apply not_elem_of_nil in Hin].
        unfold live_on. apply list_elem_of_fmap. exists (w, row). split; [done|]. apply list_elem_of_filter. split; [done|]. by apply elem_of_open_mounts.
    + exfalso. destruct Hm as (m0 & Hm0 & Hon & _). destruct (mounts_known g Hok0 w m0 Hm0) as [_ [x Hx]].
      rewrite Hon in Hx. apply Hrows in Hx. by rewrite (Hnew eq_refl) in Hx.
Qed.
End init.

(** ** A later contact *)

(** The row a volume's claim names is the one it is mounted on. *)
Lemma claim_bound_row v name g b : claim_bound (claim_for_volume v name g) = Some b →
  is_mounted g v (bc_id b) ∧ ∃ r, cartridge_rows g !! bc_id b = Some r ∧ serial_number r = bc_serial b.
Proof.
  cbn. unfold open_mount. intros ([c [m r]] & Hm & ->)%fmap_Some. cbn. apply bind_Some in Hm as (m' & Hm' & Hm).
  destruct (still_mounted m') eqn:Hst; [|done]. destruct (cartridge_rows g !! mounted_on m') as [r'|] eqn:Hr; [|done].
  injection Hm as <- <- <-. split; [by exists m'|]. by exists r'.
Qed.

Lemma differ_none a b x y : differ a b = None → a = Some x → b = Some y → x = y.
Proof. intros H -> ->. cbn in H. by case_bool_decide. Qed.
Lemma refuse_differing_ok a b e x y : refuse_differing a b e = Ok () → a = Some x → b = Some y → x = y.
Proof. unfold refuse_differing. destruct (differ a b) as [[]|] eqn:Hd; [done|]. intros _. by apply differ_none. Qed.

Lemma learn_serial_sound writes v name g b loaded o g' : claim_bound (claim_for_volume v name g) = Some b →
  (∀ s, bc_serial b = Some s → s = loaded) → learn_serial writes b loaded g = Ok (o, g') →
  sound g g' ∧ mount_rows g' = mount_rows g ∧ volume_table g' = volume_table g ∧
  (has_serial g' (bc_id b) loaded ∨ g' = g ∧ bc_serial b = None).
Proof.
  intros (_ & r & Hr & Hs)%claim_bound_row Hsame. unfold learn_serial. destruct (bc_serial b) as [s|] eqn:Hb; cbn.
  { intros [= <- <-]. split; [apply sound_refl|]. split; [done|]. split; [done|]. left. exists r. split; [done|]. by rewrite Hs, (Hsame s). }
  set (claim := sound g g' ∧ _). assert ((Ok (Agreed, g) : result BindingError (Corroboration * Registry)) = Ok (o, g') → claim) as Hagree.
  { intros [= <- <-]. split; [apply sound_refl|]. split; [done|]. split; [done|]. by right. }
  set (learned := match head _ with Some _ => _ | None => _ end). assert (learned = Ok (o, g') → claim) as Hlearn.
  { unfold learned. destruct (head _) as [[? ?]|]; [done|]. intros ([] & _ & H)%bind_ok.
    destruct (if writes then _ else _) as [g1|] eqn:Hrec; [|by apply Hagree]. injection H as <- <-. destruct writes; [|done].
    apply record_medium_serial_sound in Hrec as (H1 & H2 & H3 & H4); [|intros r0 Hr0; congruence]. split; [done|]. split; [done|]. split; [done|]. by left. }
  destruct (bc_source b) as [[]|]; [exact Hagree|exact Hlearn..].
Qed.

(** A contact corroborated: the catalog is sound, and where the volume is bound
    and the chip read, its cartridge has the chip's serial or has none on
    record. *)
Lemma corroborate_volume_sound writes v name medium g o g' : corroborate_volume writes v name medium g = Ok (o, g') →
  sound g g' ∧ mount_rows g' = mount_rows g ∧ volume_table g' = volume_table g ∧
  ∀ c s, is_mounted g v c → is_Some (cartridge_rows g !! c) → medium_serial medium = Some s →
    has_serial g' c s ∨ g' = g ∧ ∀ r, cartridge_rows g !! c = Some r → serial_number r = None.
Proof.
  unfold corroborate_volume, corroborate_contact. intros ([] & _ & ([] & _ & H)%bind_ok)%bind_ok.
  destruct (claim_bound (claim_for_volume v name g)) as [b|] eqn:Hb.
  - apply bind_ok in H as ([] & Hser & ([] & _ & ([] & _ & H)%bind_ok)%bind_ok).
    pose proof (claim_bound_row _ _ _ _ Hb) as ((m & Hm & Hon & _) & r & Hr & Hrs).
    destruct (medium_serial medium) as [s|] eqn:Hs.
    + apply (learn_serial_sound writes v name) in H as (H1 & H2 & H3 & H4); [|done|intros s' Hs'; by eapply refuse_differing_ok].
      split; [done|]. split; [done|]. split; [done|]. intros c s' (m' & Hm' & Hon' & _) _ [= <-].
      assert (c = bc_id b) as -> by congruence. destruct H4 as [|[-> Hnone]]; [by left|right]. split; [done|]. intros r' Hr'. congruence.
    + apply bind_ok in H as ([] & _ & [= <- <-]). split; [apply sound_refl|]. done.
  - injection H as <- <-. split; [apply sound_refl|]. split; [done|]. split; [done|]. intros c s (m & Hm & Hon & Hst) [r Hr] _.
    cbn in Hb. unfold open_mount in Hb. rewrite Hm in Hb. cbn in Hb. rewrite Hst, Hon, Hr in Hb. done.
Qed.

(** ** The life of a cartridge *)

Lemma with_state_sound c st g : sound g (set_cartridge_rows (alter (with_state st) c) g).
Proof. by apply (row_state_sound (with_state st)). Qed.

Lemma erase_close_comm vs c other g : erase_volumes vs (close_mounts c other g) = close_mounts c other (erase_volumes vs g).
Proof. unfold erase_volumes. revert g. induction vs as [|v vs IH]; intros g; [done|]. cbn. by rewrite <- IH. Qed.
Lemma record_cartridge_erased_sound c prior vs st d g : (∀ v, is_mounted g v c → v ∈ vs) → sound g (record_cartridge_erased c prior vs st d g).
Proof.
  intros Hall. unfold record_cartridge_erased. rewrite erase_close_comm. set (g1 := set_cartridge_rows _ g).
  assert (sound g g1) as Hs1 by apply with_state_sound. eapply sound_trans; [|apply log_sound].
  intros Hok. apply (sound_trans _ g1); [done| |done]. apply (sound_trans _ (erase_volumes vs g1)); [apply erase_volumes_sound|].
  apply close_mounts_sound. intros v Hm _. unfold is_mounted in Hm. rewrite (proj2 (erase_volumes_rows vs g1)) in Hm.
  apply erased_volumes. left. split; [by apply Hall|]. destruct Hm as (m & Hm & _). by destruct (mounts_known g Hok v m Hm).
Qed.

Lemma free_cartridge_sound v g : sound g (free_cartridge_if_last_live v g).2.
Proof.
  unfold free_cartridge_if_last_live. destruct (open_mount v g) as [[c [m r]]|]; [|apply sound_refl].
  destruct (_ && _); [|apply sound_refl]. eapply sound_trans; [apply with_state_sound|apply log_sound].
Qed.

Lemma retire_volume_with_sound b g x : sound g (retire_volume_with b g x).
Proof. eapply sound_trans; [apply (give_up_sound x.1 VRetired); set_solver|apply log_sound]. Qed.

Lemma unretire_volume_sound g x c : is_mounted g x.1 c → sound g (unretire_volume g x) ∧ mount_rows (unretire_volume g x) = mount_rows g.
Proof.
  destruct x as [v [row plan]]. intros (m & Hm & _ & Hst). unfold unretire_volume. cbn in Hm.
  set (g1 := match restore_status plan with Some _ => _ | None => g end).
  assert (sound g g1 ∧ mount_rows g1 = mount_rows g) as [Hs1 Hm1].
  { unfold g1. destruct (restore_status plan) as [st|]; [|split; [apply sound_refl|done]]. split; [|done].
    eapply sound_trans; [|apply log_sound]. apply update_volume_sound. intros r m' _ Hm' Hst' _. cbn in Hm'. congruence. }
  clearbody g1. destruct (recovered_quarantine plan); [|done]. split; [|done].
  eapply sound_trans; [exact Hs1|]. eapply sound_trans; [|apply log_sound]. by apply update_volume_sound.
Qed.
Lemma unretire_all_sound l g c : (∀ x, x ∈ l → is_mounted g x.1 c) → sound g (fold_left unretire_volume l g).
Proof.
  revert g. induction l as [|x l IH]; intros g Hall; [apply sound_refl|]. cbn.
  destruct (unretire_volume_sound g x c) as [Hs Hm]; [apply Hall, list_elem_of_here|]. eapply sound_trans; [exact Hs|]. apply IH.
  intros y Hy. unfold is_mounted. rewrite Hm. apply Hall. by right.
Qed.

Section life.
Context {E : Type}.
Variables (config : Config) (resolve : Z → result E ResolvedPolicy) (lock_free : Z → bool) (meanwhile : Registry → Registry).

Lemma cartridge_retire_sound consent b reason g g' : cartridge_retire config resolve lock_free meanwhile consent b reason g = Ok g' →
  g' = g ∨ sound (meanwhile g) g'.
Proof.
  unfold cartridge_retire. intros ([c r] & _ & H)%bind_ok. case_bool_decide; [injection H as <-; by left|].
  apply bind_ok in H as ([] & _ & [= <-]). right. eapply sound_trans; [|apply sound_fold, retire_volume_with_sound].
  eapply sound_trans; [|apply log_sound]. apply with_state_sound.
Qed.
Lemma cartridge_mark_erased_sound consent b g g' : registry_ok g → (∀ v c, is_mounted (meanwhile g) v c → is_mounted g v c) →
  cartridge_mark_erased (E := E) lock_free meanwhile consent b g = Ok g' → sound (meanwhile g) g'.
Proof.
  intros Hok Hmean. unfold cartridge_mark_erased. intros ([c r] & _ & ([] & _ & ([] & _ & [= <-])%bind_ok)%bind_ok)%bind_ok.
  apply record_cartridge_erased_sound. intros v Hv. by apply mounted_in, Hmean.
Qed.
Lemma cartridge_unretire_sound b g g' : cartridge_unretire (E := E) b g = Ok g' → sound g g'.
Proof.
  unfold cartridge_unretire. intros ([c r] & _ & ([] & _ & (st & _ & [= <-])%bind_ok)%bind_ok)%bind_ok.
  set (g1 := log_field_change _ _ _ _ _ _ _). assert (sound g g1) as Hs1.
  { eapply sound_trans; [|apply log_sound]. apply with_state_sound. }
  eapply sound_trans; [exact Hs1|]. apply (unretire_all_sound _ _ c). intros x (y & -> & [_ Hy]%list_elem_of_filter)%list_elem_of_fmap.
  destruct y as [v row]. by apply elem_of_open_mounts in Hy as [Hy _].
Qed.
Lemma volume_retired_sound consent v g b g' : volume_retired config resolve meanwhile consent v g = Ok (b, g') → sound (meanwhile g) g'.
Proof.
  unfold volume_retired. intros (row & _ & ([] & _ & H)%bind_ok)%bind_ok.
  set (g1 := log_field_change _ _ _ _ _ _ _) in H. assert (g' = (free_cartridge_if_last_live v g1).2) as -> by by injection H as ->.
  eapply sound_trans; [|apply free_cartridge_sound]. unfold g1. eapply sound_trans; [|apply log_sound].
  apply (give_up_sound v VRetired). set_solver.
Qed.
End life.

(** ** Any sequence of operations *)

(** What sessions make of the rows of the volumes: none gone, and none that
    was given up back in service. *)
Definition keeps_given_up (f : Shelves → Shelves) (g : Registry) : Prop :=
  (∀ v, is_Some (volume_table g !! v) → is_Some (volume_table (set_shelves f g) !! v)) ∧
  ∀ v, is_given_up g v → is_given_up (set_shelves f g) v.

Section steps.
Context {E : Type} `{!TomlCrate, !Readable, !Blankable}.
Variables (config : Config) (resolve : Z → result E ResolvedPolicy) (lock_free : Z → bool).

(** One operation's transaction, by any process, on what the others have made
    of the catalog since it read it. The rows an init named stand until then;
    no volume is mounted while the operator is asked whether a cartridge may be
    marked erased (see [RegistryRehearsal], [mounted_while_asked]). *)
Inductive registry_step : Registry → Registry → Prop :=
| step_open inserts op m g : registry_step g (open_contact inserts op m g).2
| step_named contact c g : registry_step g (record_cartridge contact c g)
| step_closed updates contact o g : registry_step g (finish_contact updates contact o g)
| step_journal inserts contact h c g : registry_step g (journal_mam inserts contact h c g)
| step_init req backend d facts uuid free g0 g v b g' :
    init_facts req backend d g0 = Ok facts → (∀ c r, cartridge_rows g0 !! c = Some r → cartridge_rows g !! c = Some r) →
    init_transaction req uuid d facts free g = Ok (v, b, g') → registry_step g g'
| step_corroborate writes v name medium o g g' : corroborate_volume writes v name medium g = Ok (o, g') → registry_step g g'
| step_retire meanwhile consent b reason g0 g' : cartridge_retire config resolve lock_free meanwhile consent b reason g0 = Ok g' → g' ≠ g0 →
    registry_step (meanwhile g0) g'
| step_mark_erased meanwhile consent b g0 g' : registry_ok g0 → (∀ v c, is_mounted (meanwhile g0) v c → is_mounted g0 v c) →
    cartridge_mark_erased (E := E) lock_free meanwhile consent b g0 = Ok g' → registry_step (meanwhile g0) g'
| step_unretire b g g' : cartridge_unretire (E := E) b g = Ok g' → registry_step g g'
| step_volume_retired meanwhile consent v b g0 g' : volume_retired config resolve meanwhile consent v g0 = Ok (b, g') → registry_step (meanwhile g0) g'
| step_sessions f g : keeps_given_up f g → registry_step g (set_shelves f g).

Lemma sessions_sound f g : keeps_given_up f g → sound g (set_shelves f g).
Proof.
  intros [Hk Hg] Hok. destruct Hok as [O1 O2 O3 O4 O5]. split; split; try done.
  - intros v m Hm. destruct (O3 v m Hm) as [Hv Hc]. split; [by apply Hk|done].
  - intros v m Hm Hs. by apply Hg, (O5 v m).
  - intros v m Hm. exists m. auto.
Qed.

Lemma registry_step_sound g g' : registry_step g g' → sound g g'.
Proof.
  intros Hs. destruct Hs as [inserts op m g|[k|] c g|updates [k|] o g|inserts contact h c g|req backend d facts uuid free g0 g v b g' Hf Hrows Ht|
    writes v name medium o g g' Hc|mean consent b reason g0 g' Hr Hne|mean consent b g0 g' Hok Hm Hr|b g g' Hu|mean consent v b g0 g' Hv|f g Hf].
  - unfold open_contact. destruct inserts; [by apply same_sound|apply sound_refl].
  - by apply same_sound.
  - apply sound_refl.
  - unfold finish_contact. destruct updates; [by apply same_sound|apply sound_refl].
  - apply sound_refl.
  - unfold journal_mam. destruct inserts; [by apply same_sound|apply sound_refl].
  - intros Hok. apply init_facts_spec in Hf as (Hl & Hn & _). destruct (lookup_cartridge_spec _ _ _ _ Hl) as (Hrow & Hser & _).
    apply init_transaction_sound in Ht as [[_ B1 B2 _] _]; [done|done| |done|done]. intros c r Hr. by apply Hrows, Hrow.
  - by apply corroborate_volume_sound in Hc as [Hc _].
  - by apply cartridge_retire_sound in Hr as [?|?].
  - by eapply cartridge_mark_erased_sound.
  - by eapply cartridge_unretire_sound.
  - by eapply volume_retired_sound.
  - by apply sessions_sound.
Qed.

(** The registry keeps its word: from a well-formed catalog (an empty one
    is), whatever inits, contacts, retirements, erasures and their undoing run
    on it and in whatever order (as [registry_step] interleaves them), a chip serial names one cartridge and a
    barcode one, a cartridge has one volume mounted at most, and a volume no
    longer mounted is given up; and no serial recorded, no cartridge and no
    binding of a volume to its cartridge is ever taken back. *)
Theorem registry_keeps_its_word g g' : registry_ok g → rtc registry_step g g' → registry_ok g' ∧ kept g g'.
Proof.
  intros Hok Hs. induction Hs as [g|g g1 g2 Hstep _ IH]; [done|]. destruct (registry_step_sound _ _ Hstep Hok) as [Hok1 Hk1].
  destruct (IH Hok1) as [Hok2 Hk2]. split; [done|by etransitivity].
Qed.
End steps.

(** ** A cartridge given up *)

(** Held on the same rows, where no volume is eligible any less. *)
Lemma readable_eligible sh sh' s : writes (ledger_of sh') = writes (ledger_of sh) → write_positions (ledger_of sh') = write_positions (ledger_of sh) →
  stage_slices (ledger_of sh') = stage_slices (ledger_of sh) → set_snapshot sh' = set_snapshot sh → deposits sh' = deposits sh →
  (∀ u, eligible_volume sh u = true → eligible_volume sh' u = true) → readable_whole sh s → readable_whole sh' s.
Proof.
  intros Hw Hp Hsl Hset Hdep He (set & Hs & Hk). exists set. split; [congruence|]. intros slice Hpt.
  assert (point sh set slice) as Hpt' by (destruct slice; cbn in *; by rewrite <- Hsl). destruct (Hk slice Hpt') as (w & r & x & H1 & H2 & H3 & H4 & H5 & H6 & H7).
  exists w, r, x. rewrite Hw. split; [done|]. split; [done|]. split; [by apply He|]. split; [done|]. split; [|split; [|done]].
  2: { unfold adds, deposit_rows in *. by rewrite Hdep. }
  destruct H5 as [|(Hr & s0 & Hs0 & Hh)]; [by left|right]. split; [done|]. exists s0. split; [done|]. unfold range_holds, slot_written in *. by rewrite Hp.
Qed.

(** Rows of volumes changed, and only of the volumes of a list. *)
Record only_volumes (vs : list Z) (g g' : Registry) : Prop := {
  only_writes : writes (ledger_of (shelves g')) = writes (ledger_of (shelves g));
  only_positions : write_positions (ledger_of (shelves g')) = write_positions (ledger_of (shelves g));
  only_slices : stage_slices (ledger_of (shelves g')) = stage_slices (ledger_of (shelves g));
  only_sets : set_snapshot (shelves g') = set_snapshot (shelves g);
  only_deposits : deposits (shelves g') = deposits (shelves g);
  only_rows : ∀ u, u ∉ vs → volume_table g' !! u = volume_table g !! u;
}.
Lemma only_volumes_trans vs g g1 g2 : only_volumes vs g g1 → only_volumes vs g1 g2 → only_volumes vs g g2.
Proof. intros [A1 A2 A3 A4 A5 A6] [B1 B2 B3 B4 B5 B6]. split; try congruence. intros u Hu. by rewrite B6, A6. Qed.
Lemma only_volumes_update vs v f g : v ∈ vs → only_volumes vs g (update_volume v f g).
Proof. intros Hv. split; try done. intros u Hu. rewrite update_volume_lookup, decide_False; [done|]. by intros ->. Qed.
Lemma only_volumes_fold {A} vs (f : Registry → A → Registry) l g : (∀ g x, x ∈ l → only_volumes vs g (f g x)) → only_volumes vs g (fold_left f l g).
Proof.
  revert g. induction l as [|x l IH]; intros g Hf; [done|]. cbn. eapply only_volumes_trans; [apply Hf; left|]. apply IH. intros g' y Hy. apply Hf. by right.
Qed.

Lemma floors_ok {E} sh vs v : floors (E := E) sh vs = Ok () → v ∈ vs → refuse_last_eligible_copy (E := E) (retire_impacts sh v) = Ok ().
Proof.
  induction vs as [|w vs IH]; cbn; intros Hf Hin; [by apply not_elem_of_nil in Hin|]. apply bind_ok in Hf as ([] & Hw & Hf).
  apply elem_of_cons in Hin as [->|Hin]; [done|by apply IH].
Qed.

(** The floor passed for the one volume mounted, if there is one. *)
Lemma mounted_floor {E} c g u s n : registry_ok g → one_write_per_set (shelves g) → units_known (shelves g) →
  floors (E := E) (shelves g) (open_mounts c g).*1 = Ok () → version_of (shelves g) !! s = Some (u, n) →
  (is_current (shelves g) s = true ∧ 0 < copy_count_expr (shelves g) (mkQuery (OfSnapshot s) None) ∨
   ∃ v, is_mounted g v c ∧ sole_span (shelves g) v s) →
  ∃ v, readable_whole (retired v (shelves g)) s ∧ ∀ w, w ∈ (open_mounts c g).*1 → w = v.
Proof.
  intros Hok Hu Hk Hf Hs Hcase.
  assert (∀ v w, v ∈ (open_mounts c g).*1 → w ∈ (open_mounts c g).*1 → v = w) as Hone.
  { intros v w ([v' rv] & -> & Hv)%list_elem_of_fmap ([w' rw] & -> & Hw)%list_elem_of_fmap.
    apply elem_of_open_mounts in Hv as [Hv _], Hw as [Hw _]. by apply (one_volume_mounted g Hok v' w' c). }
  destruct (open_mounts c g).*1 as [|v vs] eqn:Hl.
  - destruct Hcase as [[Hc Hn]|(v & Hv & _)]; [|apply mounted_in in Hv; [|done]; rewrite Hl in Hv; by apply not_elem_of_nil in Hv].
    exists (next_id (volumes (ledger_of (shelves g)))). split; [|by intros w Hw%not_elem_of_nil].
    apply (readable_eligible (shelves g)); try done.
    + intros x Hx. rewrite retired_eligible, Hx, bool_decide_eq_false_2; [done|]. intros ->. unfold eligible_volume in Hx.
      by rewrite next_id_fresh in Hx.
    + by apply (survives_loss (shelves g) (mkQuery (OfSnapshot s) None) Copies s []).
  - exists v. split; [|intros w Hw; apply Hone; [done|left]].
    apply (floor_keeps (E := E) v (shelves g) u s n); [done|done|by eapply floors_ok; [exact Hf|left]|done|].
    destruct Hcase as [|(w & Hw & Hsole)]; [by left|right]. apply mounted_in in Hw; [|done]. rewrite Hl in Hw.
    by rewrite (Hone v w) by (done || left).
Qed.

(** What others leave of the copies, and a change to the mounted volumes. *)
Lemma left_by_change vs v c' g g1 g' s : shelves g1 = with_ledger c' (shelves g) → keeps_copies v (ledger_of (shelves g)) c' →
  (∀ w, w ∈ vs → w = v) → only_volumes vs g1 g' → readable_whole (retired v (shelves g)) s → readable_whole (shelves g') s.
Proof.
  intros Hsh Hk Hone [G1 G2 G3 G4 G5 G6] Hr. unfold volume_table in G6. rewrite Hsh in G1, G2, G3, G4, G5, G6.
  eapply (readable_eligible (retired v (with_ledger c' (shelves g)))); try done; [|by apply keeps_readable].
  intros x. rewrite retired_eligible, andb_true_iff, negb_true_iff, bool_decide_eq_false. intros [He Hne].
  unfold eligible_volume in *. rewrite G6; [done|]. intros Hx. by apply Hne, Hone.
Qed.

Section given_up.
Context {E : Type}.
Variables (config : Config) (resolve : Z → result E ResolvedPolicy) (lock_free : Z → bool) (meanwhile : Registry → Registry).

(** A cartridge marked erased, or retired for good, takes no version's last
    copy with it, whatever the operator consents to, so long as what others
    write while the operator is asked gives up no volume and loses no row of
    the copies. One floor for the one volume mounted is enough, since the
    registry mounts no second. Every version current and counted a copy still
    has a set whole on eligible volumes, and so has a version still being
    spanned of which a volume mounted on it alone held a slice. *)
Theorem cartridge_given_up_keeps_copies consent b g c' g' : registry_ok g → one_write_per_set (shelves g) → units_known (shelves g) →
  shelves (meanwhile g) = with_ledger c' (shelves g) → (∀ v, keeps_copies v (ledger_of (shelves g)) c') →
  cartridge_mark_erased (E := E) lock_free meanwhile consent b g = Ok g' ∨
  (∃ reason, cartridge_retire config resolve lock_free meanwhile consent b reason g = Ok g') →
  ∀ u s n, version_of (shelves g) !! s = Some (u, n) →
    is_current (shelves g) s = true ∧ 0 < copy_count_expr (shelves g) (mkQuery (OfSnapshot s) None) ∨
    (∃ v c r, is_mounted g v c ∧ select_by_barcode b g = Some (c, r) ∧ cartridge_state r ≠ RetiredPermanent ∧ sole_span (shelves g) v s) →
  readable_whole (shelves g') s.
Proof.
  intros Hok Hu Hk Hsh Hkeep Hrun u s n Hs Hcase.
  assert (∀ c r, select_by_barcode b g = Some (c, r) → is_current (shelves g) s = true ∧ 0 < copy_count_expr (shelves g) (mkQuery (OfSnapshot s) None) ∨
    ∃ v, is_mounted g v c ∧ sole_span (shelves g) v s) as Hcase'.
  { intros c r Hr. destruct Hcase as [|(v & c1 & r' & Hv & Hr' & _ & Hsole)]; [by left|right]. exists v. split; [congruence|done]. }
  destruct Hrun as [Hrun|[reason Hrun]].
  - unfold cartridge_mark_erased in Hrun. apply bind_ok in Hrun as ([c r] & Hr%ok_or_ok & ([] & _ & ([] & Hgate & [= <-])%bind_ok)%bind_ok).
    apply bind_ok in Hgate as ([] & _ & ([] & Hf%map_err_ok & _)%bind_ok).
    destruct (mounted_floor (E := E) c g u s n Hok Hu Hk Hf Hs (Hcase' c r Hr)) as (v & Hread & Hone).
    eapply (left_by_change (open_mounts c g).*1 v c' g); [exact Hsh|apply Hkeep|exact Hone| |exact Hread].
    unfold mounted_on_it, record_cartridge_erased. set (vs := (open_mounts c g).*1). set (g1 := close_mounts c None _).
    apply (only_volumes_trans _ _ g1); [done|]. apply (only_volumes_trans _ _ (erase_volumes vs g1)); [|done].
    apply only_volumes_fold. intros g2 w Hw. by apply only_volumes_update.
  - unfold cartridge_retire in Hrun. apply bind_ok in Hrun as ([c r] & Hr%ok_or_ok & Hrun). case_bool_decide as Hst.
    + injection Hrun as <-. destruct Hcase as [[Hc Hn]|(v & c1 & r' & _ & Hr' & Hne & _)]; [|congruence].
      by apply (survives_loss (shelves g) (mkQuery (OfSnapshot s) None) Copies s []).
    + apply bind_ok in Hrun as ([] & Hgate & [= <-]). apply bind_ok in Hgate as ([] & _ & ([] & Hf%map_err_ok & _)%bind_ok).
      destruct (mounted_floor (E := E) c g u s n Hok Hu Hk Hf Hs (Hcase' c r Hr)) as (v & Hread & Hone).
      eapply (left_by_change (open_mounts c g).*1 v c' g); [exact Hsh|apply Hkeep|exact Hone| |exact Hread].
      set (g1 := log_event _ _). apply (only_volumes_trans _ _ g1); [done|]. apply only_volumes_fold. intros g2 [w row] Hw.
      apply (only_volumes_trans _ _ (update_volume w (with_volume_status VRetired) g2)); [|done]. apply only_volumes_update.
      change w with ((w, row).1). by apply list_elem_of_fmap_2.
Qed.
End given_up.
