(* ===== verification/RegistryRehearsal.v ===== *)
(** * The registry rehearsed

    Three tapes on three cartridges: a first [volume init] of a cartridge
    never seen, one that displaces, cartridges marked erased and retired, and
    what none of it takes back. *)

From S2P Require Import Prelude LayoutModel Format Session Ledger LedgerSound Coverage CoverageSound Release ReleaseSound CoverageRehearsal TapeStore Confirm Contact.
From S2P Require Import Registry Binding CartridgeLife BindingSound RegistryKept.
Local Open Scope Z_scope.
Local Open Scope rust_scope.

#[local] Instance rx_toml : TomlCrate := λ s, Ok [].
#[local] Instance rx_store : Readable := mem_store.
#[local] Instance rx_blank : Blankable := λ files, (Ok (bool_decide (files = [])), files).

Definition rx_cartridge (b s : string) : CartridgeRow := mkCartridgeRow b "LTO-6" None (Some s) None 2500000000000 InUse None None None.
Definition rx_mounts : gmap Z MountRow :=
  list_to_map [(1, mkMountRow 11 true (Some FromChip)); (2, mkMountRow 12 true (Some FromChip)); (3, mkMountRow 13 true (Some FromChip))].
Definition rx_cartridges : gmap Z CartridgeRow :=
  list_to_map [(11, rx_cartridge "A1" "S1"); (12, rx_cartridge "A2" "S2"); (13, rx_cartridge "A3" "S3")].
Definition rx_registry : Registry :=
  mkRegistry vx_shelves (list_to_map [(1, "L1"%string); (2, "L2"%string); (3, "L3"%string)]) ∅ rx_cartridges rx_mounts [] [] ∅ [].

(** ** Well formed *)

Lemma rx_serials c c' s : has_serial rx_registry c s → has_serial rx_registry c' s → c = c'.
Proof.
  intros (r & Hr & Hs) (r' & Hr' & Hs').
  assert (Forall (λ x : Z * CartridgeRow, Forall (λ y : Z * CartridgeRow, serial_number x.2 = serial_number y.2 → x.1 = y.1)
    (map_to_list rx_cartridges)) (map_to_list rx_cartridges)) as Hall by by_decide.
  rewrite Forall_forall in Hall. apply elem_of_map_to_list in Hr, Hr'. pose proof (Hall _ Hr) as Hx. rewrite Forall_forall in Hx.
  apply (Hx _ Hr'). cbn. congruence.
Qed.
Lemma rx_barcodes c c' r r' : rx_cartridges !! c = Some r → rx_cartridges !! c' = Some r' → barcode r = barcode r' → c = c'.
Proof.
  assert (Forall (λ x : Z * CartridgeRow, Forall (λ y : Z * CartridgeRow, barcode x.2 = barcode y.2 → x.1 = y.1)
    (map_to_list rx_cartridges)) (map_to_list rx_cartridges)) as Hall by by_decide.
  rewrite Forall_forall in Hall. intros Hr Hr' Hb. apply elem_of_map_to_list in Hr, Hr'. pose proof (Hall _ Hr) as Hx. rewrite Forall_forall in Hx.
  by apply (Hx _ Hr').
Qed.
Lemma rx_ok : registry_ok rx_registry.
Proof.
  assert (Forall (λ x : Z * MountRow, is_Some (volumes vx_ledger !! x.1) ∧ is_Some (rx_cartridges !! mounted_on x.2) ∧ mounted_on x.2 = x.1 + 10
    ∧ still_mounted x.2 = true) (map_to_list rx_mounts)) as Hall by by_decide.
  rewrite Forall_forall in Hall.
  assert (∀ v m, rx_mounts !! v = Some m → is_Some (volumes vx_ledger !! v) ∧ is_Some (rx_cartridges !! mounted_on m) ∧ mounted_on m = v + 10
    ∧ still_mounted m = true) as Hm by (intros v m Hv; apply elem_of_map_to_list in Hv; exact (Hall _ Hv)).
  split.
  - exact rx_serials.
  - exact rx_barcodes.
  - intros v m Hv. destruct (Hm v m Hv) as (? & ? & _). done.
  - intros v v' c (m & Hv & Hon & _) (m' & Hv' & Hon' & _). destruct (Hm v m Hv) as (_ & _ & Ho & _), (Hm v' m' Hv') as (_ & _ & Ho' & _). lia.
  - intros v m Hv Hs. destruct (Hm v m Hv) as (_ & _ & _ & Ht). congruence.
Qed.

(** ** A volume made *)

Definition rx_mam (s : string) : MamInfo := mkMam (Some s) (Some 1) None None (Some 0).
Definition rx_detected (s : string) : Detected := mkDetected (Some Lto6) (rx_mam s) (mkCapture true (Some 0)).
Definition rx_backend : Backend := mkBackend Lto6 None.
Definition rx_init (s name : string) (files : list (list Z)) (g : Registry) :=
  volume_init_in_contact (mkInit name false None None None) rx_backend (rx_detected s) None "uuid" true true id g (files : medium).

(** A cartridge never seen takes the volume's label for its barcode. *)
Example new_cartridge : let '(r, g, _) := rx_init "S9" "L9" [] rx_registry in
  (fst <$> r) = Ok 4 ∧ open_mount 4 g = Some (14, (mkMountRow 14 true (Some FromChip),
    mkCartridgeRow "L9" "LTO-6" None (Some "S9"%string) None 2500000000000 InUse (Some 1) None None)).
Proof. vm_compute. split; reflexivity. Qed.
(** A known one found blank: the volume it held is erased and let go. *)
Example displaced_by_a_blank : let '(r, g, _) := rx_init "S3" "L9" [] rx_registry in
  (displaced_volumes ∘ snd <$> r) = Ok [3] ∧ volume_status <$> volume_table g !! 3 = Some VErased ∧
  (open_mounts 13 g).*1 = [4] ∧ still_mounted <$> mount_rows g !! 3 = Some false.
Proof. vm_compute. repeat split; reflexivity. Qed.
(** One whose tape does not read is left alone: a live volume is on it. *)
Example live_volume_spared : let '(r, g, _) := rx_init "S3" "L9" [[1; 2; 3]] rx_registry in
  r = Err (InitContact (DifferentVolume None)) ∧ g = rx_registry.
Proof. vm_compute. split; reflexivity. Qed.

Definition rx_made := rx_init "S3" "L9" [] rx_registry.
Lemma volume_init_binds_witness : ∃ b, rx_made.1.1 = Ok (4, b) ∧ bound_alone 4 (Some "S3"%string) b rx_registry rx_made.1.2.
Proof.
  assert (∃ b, rx_made.1.1 = Ok (4, b)) as [b Hr] by (vm_compute; by eexists). exists b. split; [exact Hr|].
  destruct (@volume_init_binds rx_toml rx_store rx_blank (mkInit "L9" false None None None) rx_backend (rx_detected "S3") None "uuid" true true id rx_registry (@nil (list Z))
    rx_made.1.1 rx_made.1.2 rx_made.2 rx_ok rx_ok (λ c x H, H)) as [Hg|[Hg|(v & b' & Hrv & Hb & _)]].
  - unfold rx_made, rx_init. by destruct (volume_init_in_contact _ _ _ _ _ _ _ _ _ _) as [[r g] m].
  - exfalso. apply (f_equal (λ g, volume_table g !! 4)) in Hg. vm_compute in Hg. discriminate Hg.
  - exfalso. apply (f_equal (λ g, volume_table g !! 4)) in Hg. vm_compute in Hg. discriminate Hg.
  - rewrite Hr in Hrv. destruct Hrv as [[= <- <-]|[=]]. exact Hb.
Defined.

(** ** A cartridge given up *)

Definition rx_erased := cartridge_mark_erased (E := ()) (λ _, true) id true "A3" rx_registry.
Example marked_erased : (λ g, (volume_status <$> volume_table g !! 3, cartridge_state <$> cartridge_rows g !! 13, still_mounted <$> mount_rows g !! 3)) <$> rx_erased
  = Ok (Some VErased, Some Available, Some false).
Proof. vm_compute. reflexivity. Qed.
(** With that copy gone, no cartridge with the rest of the version goes. *)
Example the_last_ones_stay : ∃ e, (g ← rx_erased; cartridge_mark_erased (E := ()) (λ _, true) id true "A1" g) = Err (Floor (LastCopy e)) ∧ fst <$> e = ["photos"%string].
Proof. eexists. split; vm_compute; reflexivity. Qed.
(** A volume initialized on the cartridge while the operator is asked whether
    it was erased: the transaction lets go of it with the rest, and leaves it
    as it was, on no cartridge. *)
Definition rx_asked (g : Registry) : Registry := (rx_init "S3" "L9" [] g).1.2.
Example mounted_while_asked : let r := cartridge_mark_erased (E := ()) (λ _, true) rx_asked true "A3" rx_registry in
  (λ g, (volume_status <$> volume_table g !! 4, still_mounted <$> mount_rows g !! 4)) <$> r = Ok (Some VInitialized, Some false).
Proof. vm_compute. reflexivity. Qed.

(** Another session plans a write on another tape in the meantime. *)
Definition rx_meanwhile (g : Registry) : Registry := set_shelves (λ sh, with_ledger (vx_meanwhile (ledger_of sh)) sh) g.
Lemma rx_keeps v : keeps_copies v vx_ledger (vx_meanwhile vx_ledger).
Proof.
  split; [eauto| |done|done].
  intros w r Hw _. exists r. split; [|by auto]. cbn. rewrite lookup_insert_ne; [done|]. intros <-. vm_compute in Hw. congruence.
Qed.
Definition rx_let_go := cartridge_mark_erased (E := ()) (λ _, true) rx_meanwhile true "A3" rx_registry.
Lemma cartridge_given_up_keeps_copies_witness : ∃ g, rx_let_go = Ok g ∧ readable_whole (shelves g) 22.
Proof.
  assert (∃ g, rx_let_go = Ok g) as [g Hg] by (unfold rx_let_go; vm_compute; by eexists). exists g. split; [exact Hg|].
  refine (cartridge_given_up_keeps_copies vx_config vx_resolve (λ _, true) rx_meanwhile true "A3" rx_registry (vx_meanwhile vx_ledger) g
    rx_ok vx_unique vx_units eq_refl rx_keeps (or_introl Hg) 1 22 2 _ (or_introl (conj _ _)));
    vm_compute; reflexivity.
Defined.

(** Marked erased: what was recorded of the cartridges stays. *)
Lemma registry_keeps_its_word_witness : ∃ g, rx_erased = Ok g ∧ registry_ok g ∧ has_serial g 13 "S3" ∧ is_mounted g 1 11.
Proof.
  assert (∃ g, rx_erased = Ok g) as [g Hg] by (unfold rx_erased; vm_compute; by eexists). exists g. split; [exact Hg|].
  destruct (registry_keeps_its_word vx_config vx_resolve (λ _, true) rx_registry g rx_ok) as [Hok [_ Hs Hm]].
  - apply rtc_once. apply (step_mark_erased vx_config vx_resolve (λ _, true) id true "A3" rx_registry g rx_ok); [done|exact Hg].
  - split; [exact Hok|]. split; [apply Hs; exists (rx_cartridge "A3" "S3"); split; vm_compute; reflexivity|].
    assert (∀ g', rx_erased = Ok g' → (λ m, (mounted_on m, still_mounted m)) <$> mount_rows g' !! 1 = Some (11, true)) as Hone
      by (intros g' H; vm_compute in H; injection H as <-; vm_compute; reflexivity).
    specialize (Hone g Hg). apply fmap_Some in Hone as (m & Hm1 & [= Hon Hst]). exists m. split; [exact Hm1|]. split; congruence.
Defined.
